(* ===== verification/_CoqProject ===== *)
-Q . S2P
Prelude.v
Decimal.v
FixedPoint.v
JsNum.v
JsInt.v
JsParse.v
JsRegex.v
JsDate.v
Canonical.v
Consensus.v
Encoding.v
Regions.v
Evidence.v
LedgerView.v
Engine.v
Reconstruction.v
ClaimHold.v
MirrorDetection.v
Offboarding.v
TriggerStability.v
Safeguards.v
ClaimScan.v
Reevaluation.v
DegradedMode.v
Reputation.v
Staking.v
Rewards.v
Disputes.v
ReviewQueue.v
OperatorRegistry.v
ConsensusWindows.v
EventHandlers.v
EventIndexer.v
Attestation.v
Calendar.v
PublishQueue.v
BatchPublisher.v
PublishOrder.v
Confirmation.v
RpcPool.v
ClaimProcessor.v
Policies.v
Relayer.v
LeaderElection.v
Alerting.v
HorizonFinality.v
EvidenceBuffer.v
Reconciliation.v
FeedConfig.v
ControlRegistry.v
RecoveryGate.v
Gossip.v
PauseControl.v
IndependenceGraph.v
Freshness.v
Corroboration.v
Submissions.v
JsOrder.v
JsMean.v
ProviderKeys.v
SourceRegistry.v
Smoothing.v
DirectPublisher.v
Quotes.v
ActivityAnomaly.v
RateLimits.v
OperatorAccess.v
Idempotency.v
Shutdown.v
DeadLetters.v
RelayerBalance.v
ProviderHttp.v
Bootstrap.v
Egress.v
NetworkConsistency.v
OracleChecks.v
