(* ===== verification/Prelude.v ===== *)
(** * Refract backend: oracle consensus, claim settlement and operator accounting

    The backend reads prices and risk signals from several oracle sources, agrees
    on a value, decides whether an insurance policy's trigger is met, and pays the
    policy on a Stellar contract; operators of the sources are staked, scored and
    rewarded.  This library models the parts that decide about money, and proves
    what makes them correct.  Paths are relative to the repository root.

    ** Parts and files

    Shared layers:
    - Prelude (this file): fallible results [res], insertion-ordered maps
      ([jm_get], [jm_set]; a JavaScript [Map] or object), stable sorting
      ([sort_by]), sums, the hint database [refract], and generic lemmas.
    - Decimal: decimal text of integers ([BigInt(s)], [toString], [padStart],
      the decimal regular expression).
    - JsNum: binary64 numbers ([Math.max], [Math.min], [Math.round],
      [Math.floor]) with the order lemmas of the comparison; JsInt: 32-bit
      integer operations; JsParse: [Number(s)]; JsRegex: regular expressions by
      derivatives; JsDate: [toISOString], the civil calendar and reading the
      printed form back; JsOrder: subtraction agrees with the order of finite
      numbers, so that sorting by [a - b] sorts, and medians of sorted lists;
      JsMean: a mean that does not overflow lies between its two numbers.
    - Canonical (src/oracle/consensus/canonical.ts): canonical JSON, and the class
      [JsHost] of what the runtime supplies (collation, number-to-text, SHA-256).

    Oracle agreement:
    - Evidence (src/oracle/consensus/evidence.types.ts, evidence-ledger.ts): the
      append-only evidence ledger as a state monad over log, clock and disk, and
      the payload store; LedgerView (ledger-view.ts): what was known at a time.
    - Engine (consensus.engine.ts): quorum consensus over the ledger's readings;
      Reconstruction (reconstruction.ts): replaying a past decision;
      MirrorDetection (mirror detector, fingerprints): penalties of sources that
      copy each other; Offboarding: retiring a source and purging its payloads.
    - Consensus (src/oracle/consensus/consensus.ts): one round of weighted
      consensus with trust tiers; Encoding (src/oracle/oracle-encoding.ts): its
      on-chain encoding, exact decimals and the signed payload.
    - ConsensusWindows (src/oracle/windowing/): readings assigned to event-time
      windows, watermarks, sealing and persisted decisions.
    - Regions (src/oracle/regions/region-quorum.ts,
      regional-quorum.aggregator.ts): cross-region trust of a feed.
    - DegradedMode (src/oracle/degraded-mode.ts): the per-feed health machine;
      Calendar (src/oracle/calendar.ts): when a feed is expected to publish;
      Attestation (src/oracle/attestation/): enclave quotes on readings.
    - PublishQueue, BatchPublisher (src/oracle/oracle-publish-queue.repository.ts,
      oracle-batch-publisher.service.ts): the durable queue of decisions and the
      service that sends them in batches; PublishOrder: its theorems.
    - HorizonFinality (src/oracle/horizon-finality.service.ts): provisional and final readings, and
      what a reorganisation of the ledger invalidates.
    - EvidenceBuffer (src/oracle/evidence/): the spool and the buffer that write
      evidence in batches; Reconciliation (src/oracle/reconciliation/): the diff of
      receipts and chain, its repair and a run under its lease.
    - FeedConfig (src/oracle/config/): feed definitions, their resolution, the
      validator and the start-up check; ControlRegistry
      (src/oracle/admin/oracle-control.registry.ts): operator changes of feeds and
      the pauses and overrides on top; PauseControl (src/oracle/control.ts): the
      payout pause with its table, audit trail and cached snapshot.
    - Admission of readings: Freshness (src/oracle/freshnessPolicy.ts),
      RecoveryGate (oracle-recovery-gate.ts), Corroboration (corroboration.ts and
      sourceHealth.ts), IndependenceGraph (independence-graph.ts: union-find over
      shared attributes), Gossip (signed-reading-gossip.ts and its replay guard) and
      Submissions (submission-canonical.ts, submission-verifier.ts,
      oracle-submission.repository.ts and their route).
    - Acquisition of readings: OracleChecks (oracle.service.ts,
      feed-payload.validator.ts: the checks on what the providers answer, with
      their validation and fallback), ProviderHttp (httpClient.ts: bucket,
      semaphore, retries and cache), Egress (http/egress-policy.ts: the deny-list
      of addresses), SourceRegistry (adapters/: fetching, validation and
      quarantine of sources), Smoothing (consensus/temporal-smoother.ts,
      sourceReadingDeduplicator.ts), Bootstrap (bootstrap/: baselines and
      reputation of new sources) and ProviderKeys (providers/: keys of providers,
      their rotation and revocation).
    - DirectPublisher (oracle-trust.service.ts, oracle-publisher.service.ts): trust
      in feeds and the publication of single readings; DeadLetters
      (oracle-dead-letter.repository.ts): readings that could not be written;
      Shutdown (shutdown/): tracking, the leader lock and the drain.

    Claims:
    - TriggerStability (src/claim/trigger/trigger-stability.ts): hysteresis,
      dwell and flap damping of triggers.
    - ClaimHold (src/oracle/consensus/claim-hold.service.ts,
      evidence-completeness.ts): the hold gate and the hold state machine, proved
      against the interface [ConsensusSvc] that Engine and Reconstruction
      implement.
    - Safeguards (src/oracle/anomaly.ts, circuitBreaker.ts,
      src/claim/settlement-authorization.ts, src/common/coverage-type.map.ts).
    - ClaimScan (src/claim/claim.service.ts): one scan over the active policies
      with every guard, and the payout path; ClaimProcessor
      (src/services/claimProcessor.ts): the batch pipeline and its previews.
    - Reevaluation (src/claim/reevaluation/): re-adjudication after an outage,
      planner and service, with [apply] split at its await, and the service
      wired to the aggregator of Regions.
    - Disputes (src/claim/dispute/) and ReviewQueue (src/services/reviewQueue.ts):
      the dispute state machine and the human review gate.
    - ActivityAnomaly (src/claim/claim-activity-anomaly-detector.ts): limits on
      claim activity that trip the payout breaker.

    Money, operators and chain:
    - FixedPoint (src/common/fixed-point.ts, src/pool/share-price.math.ts).
    - Staking (src/services/staking.ts): bonds, unbonding, slash proposals.
    - Reputation (src/oracle/reputation.ts): operator scores and weights.
    - Rewards (src/services/operatorRewards.ts): accruals and payouts.
    - OperatorRegistry (src/services/operatorRegistry.ts): operators, keys and
      their rotation.
    - RpcPool (src/stellar/rpc-endpoint-pool.ts): endpoint ranking and failover;
      Confirmation (soroban-confirmation.util.ts, transaction-submitter.ts): submitting a transaction and polling for its
      outcome; Relayer: fee strategy and the relayer's account and queue.
    - Policies (src/policy/policy.service.ts, src/tx/, src/claim/): sale and
      activation of policies, transaction building, on-chain settlement.
    - LeaderElection (src/leader/): replicas, the Redis lease and its fencing token;
      Alerting (src/alerting/): the alert buffer, incidents and their routing.
    - Quotes (src/quote/, src/common/coverage-types.ts): the catalogue of coverage
      types, confidence in the oracle and quotes; RelayerBalance
      (src/stellar/relayer-monitor/): reserve, runway and alerts of the account
      that pays the fees.
    - Access: OperatorAccess (src/oracle/admin/: credentials, guard, audit log),
      RateLimits (actor-rate-limiter.ts, src/common/rate-limit.ts), Idempotency
      (src/common/idempotency.service.ts) and NetworkConsistency
      (src/config/network-consistency.ts: one Stellar network per environment).
    - EventHandlers, EventIndexer (src/stellar/): contract events drained from a
      persisted cursor and projected into tables.

    ** How the code is modelled

    A function that may throw returns [res]; a service's fields are a record and
    its methods are functions on that record; a database transaction is a function
    that returns the old tables on error.  A [bigint] is a [Z], a [number] that is
    an integer by construction (times, counts) is a [Z], and every other [number]
    is a binary64 float with its rounding, NaN and infinities.  Strings are their
    UTF-8 bytes.  What the process asks of the outside (clock readings, disk
    writes that fail, oracle readings, settlement outcomes, executor answers) is a
    stream or an argument over which the theorems quantify.  [Math.pow] and the
    members of [JsHost] are parameters; a theorem that needs a fact about one
    names it as a class ([LocaleOrder]: collation is a total preorder;
    [HexDigest]: a digest is 64 hexadecimal digits; [ConsensusLaws]: what the hold
    service relies on of the consensus service) and comes with a host for which
    it holds.

    Concurrency is modelled where a service awaits inside a check-then-act
    sequence: Reevaluation splits [apply] at its await, and BatchPublisher turns a
    run into a program of awaited calls and lets runs, timer, producers, crashes
    and restarts interleave freely.  LeaderElection interleaves replicas with the
    lease's expiry, Gossip the calls that wait for the replay guard over shared
    arrays, PauseControl reads that fill a cache with changes that invalidate it,
    DirectPublisher the publications that wait for the chain, DeadLetters the
    statements of replays that share a window, Idempotency the statements of calls
    with one key, Shutdown the lifecycle with Redis.  A
    database query is one step that succeeds, fails, or, in BatchPublisher, is
    applied while its answer is lost.

    Recursion is structural but for these: printing an integer (Decimal
    [digits_fuel], Encoding [hex_fuel]), where [log2 n + 1] digits are given and
    shown to suffice; the retry loop of RpcPool and the walk back of Calendar, whose
    fuel is the bound the code has itself; the page loop of EventIndexer, whose fuel
    is the length of the chain plus one, proved enough; the splitting of a batch in
    BatchPublisher, whose fuel is the length of the batch, proved enough; the poll of
    Confirmation, whose fuel is the deadline plus two, proved enough; the submission
    loop and the retries of ProviderHttp, whose fuel is the number of attempts; the
    pages of RelayerBalance, whose fuel is the bound of the code; the search for a
    root in IndependenceGraph, whose fuel is the number of entries plus one, proved
    enough.

    ** What the theorems show

    - Payment: a scan pays only through every guard, the hold gate being one when
      the process has the hold service (ClaimScan.payment_needs_every_guard), and a
      policy once (policy_paid_at_most_once); the hold gate fails closed, keeps one open hold
      per policy and never lets a denied claim through (ClaimHold); triggers
      change only on sustained observations (TriggerStability); sequential
      re-evaluations settle a policy once (Reevaluation); a preview lists what
      processing would do (ClaimProcessor); only an authorised reviewer resolves a
      review (ReviewQueue), and a resolved dispute is final (Disputes).
    - Agreement: a decision needs its quorum, is backed by readings of eligible
      sources, does not count mirrors twice, does not depend on the order of the
      ledger's sources (Engine), and is reproduced from the ledger later
      (Reconstruction, LedgerView); mirror penalties are backed by evidence and a
      purge respects retention (MirrorDetection, Offboarding); a window's decision
      does not change after its watermark (ConsensusWindows); a feed is trusted
      only on a majority of the regions that answered, independent ones (Regions); a round's agreed decision is backed and
      its encodings are invertible and unambiguous (Consensus, Encoding); an
      attestation is accepted exactly on its evidence (Attestation); active windows
      are intervals of the week (Calendar).
    - Publication: decisions of a feed are sent in order in every interleaving, a
      published decision was seen confirmed, and a run ends after at most [2 n - 1]
      transactions (PublishOrder); a poll ends with the outcome it saw, or aborted without one (Confirmation),
      the relayer's queue sends in sequence and never retries a refusal (Relayer), and
      a later run repairs only what the last successful one did not compare
      (Reconciliation).
    - Settlement and sale: a claim is paid only when its own settlement
      transaction, the one that was sent, was seen confirmed, and a policy is active only after a confirmed purchase (Policies).
    - Replicas and operations: one replica leads at a time (LeaderElection); a
      fingerprint has one open incident and a storm opens a bounded number
      (Alerting); acknowledged evidence is durable as long as the disk
      writes whole lines (EvidenceBuffer).
    - Finality: a final reading is on the canonical chain and an active decision rests
      on valid readings after every reorganisation (HorizonFinality).
    - Admission: a configuration without errors is safe on mainnet (FeedConfig) and
      operators cannot leave that set with finite weights, their overrides staying scoped and bounded
      (ControlRegistry); a pause is effective within the cache's lifetime
      (PauseControl); a tripped coverage type publishes only after a full recovery,
      and a full recovery suffices (RecoveryGate); usable readings are fresh and live
      feeds have one (Freshness); a corroborated value has distinct, fresh,
      unambiguous sources (Corroboration); clusters of sources are the connected
      components of shared attributes (IndependenceGraph); a gossiped reading has a
      quorum of verified envelopes in every interleaving, of distinct peers unless
      one was granted after another of its peer expired (Gossip); a signed submission is
      recorded once and its canonical form is unambiguous (Submissions).
    - Acquisition: a failed or refused answer never triggers and its feed may not
      publish (OracleChecks); requests are bounded and repeated only when that can
      help (ProviderHttp); the deny-list is exactly the documented ranges (Egress);
      an invalid source is quarantined (SourceRegistry); a minority of finite
      samples cannot move a source, unless a sum overflows (Smoothing); a warm source survives re-runs and is warm
      exactly with a baseline (Bootstrap); a revoked key stays refused
      (ProviderKeys); direct publications are admitted and spaced
      (DirectPublisher); a dead letter is replayed once, and its readings
      inserted once when replays of a window do not overlap (DeadLetters); a clean
      shutdown frees the lock (Shutdown).
    - Access: every operator request is audited once, requests are bounded and a
      minted key authenticates (OperatorAccess, RateLimits); the answer to
      an idempotency key is the one the history of its calls promises (Idempotency); an environment is accepted
      exactly if all of it belongs to the selected network (NetworkConsistency); a
      breached limit trips once per window (ActivityAnomaly); a worse balance is
      alerted and printed amounts are read back (RelayerBalance).
    - Indexing: the projection does not depend on how the node pages its events and
      a poll leaves no gap behind the cursor, in the range of ledgers its node serves
      (EventIndexer); a call ends within its
      attempts (RpcPool).
    - Accounting: stake is conserved by every staking operation, an open proposal
      locks it, tables stay well formed (Staking); scores are monotone and no
      operator holds a majority (Reputation); a deposit and withdrawal make no
      profit (FixedPoint); accruals happen once (Rewards).
    - Refinement: the degraded-mode machine implements its specification on
      histories (DegradedMode).
    - Behaviour that differs from what the code documents, as theorems:
      ClaimScan.tripped_breaker_not_consulted, failed_ledger_write_pays_twice;
      Rewards.paid_more_than_accrued; Reevaluation.live_payout_paid_again,
      concurrent_apply_pays_twice; Consensus.outcome_depends_on_order;
      DegradedMode.reapplied_failure_pauses; Staking.evaluateSubmission_idempotent;
      ConsensusWindows.even_window_is_nan; EventIndexer.unknown_policy_claim_blocks,
      failed_mark_credits_twice, quiet_start_drops_events, quiet_stretch_stalls;
      Attestation.unbound_quote_attests_any_reading;
      Calendar.unavailable_calendar_hides_halt; PublishOrder.confirmed_decision_sent_twice,
      unreleased_decision_blocks_feed, confirmed_decision_dead_lettered;
      Alerting.escalation_never_delivered; Reconciliation.late_receipt_repaired_forever,
      truncated_read_reports_missing, matched_writer_unchecked;
      FeedConfig.overflowing_weights_pass; ControlRegistry.infinite_weight_stored_invalid,
      registry_accepts_unbootable, unparsed_expiry_never_expires,
      recreated_feed_reuses_revisions; PauseControl.confirmed_pause_ignored;
      Gossip.overlapping_calls_emit_twice, overlapping_first_calls_lose_reading,
      late_grant_counts_peer_twice; Submissions.replay_at_window_end_recorded;
      Corroboration.two_steps_in_one_streak; OracleChecks.step_limit_masks_depeg,
      incomplete_point_reads_nan; Bootstrap.store_failure_loses_baseline,
      failed_claim_stays_in_flight; Idempotency.overlapping_first_calls_both_proceed,
      stale_takeover_drops_committed_response, slow_owner_replaces_replayed_response;
      EvidenceBuffer.short_write_loses_reported_record; Smoothing.even_window_overflows;
      Shutdown.late_acquire_keeps_lock,
      overlapping_requests_forget_lock; DeadLetters.rejected_letters_block_queue,
      concurrent_replays_fill_window_twice;
      RelayerBalance.missing_account_not_reminded, foreign_fee_ends_paging;
      Egress.unspecified_address_allowed; NetworkConsistency.inherited_name_throws;
      Relayer.xdr_refusal_never_retried; ProviderKeys.rotation_race_restores_revoked_key,
      retired_key_restored_by_reversal, reversal_keeps_revocation_columns;
      SourceRegistry.inflight_success_lifts_quarantine; Quotes.zero_window_prices_nan, drafts_are_quoted_and_stay_hidden,
      rounding_exceeds_cap; ActivityAnomaly.small_buffer_hides_frequency;
      RateLimits.made_up_keys_evade_limit.

    ** What is not modelled

    HTTP controllers and request validation (but for the submission route and the
    operator guard), module wiring and timers, most parsing of environment variables,
    connection handling and transaction isolation, metrics, the Stellar network
    clients and the adapters of single providers are I/O and glue.  A query is
    modelled by what it does to the table, one statement at a time; inserts commit in
    the order of their ids.  Concurrency inside a scan is not modelled: scans are
    serialised by the scheduler.  Signature verification, base64, hashing and the URL
    parser of the platform are parameters.  Five source files are empty or do not
    parse (env.schema.ts, oracleMonitor.ts, consensus.service.ts,
    egress-http-client.ts, schemaDrift.ts).

    ** Order of further work

    Pool reads, the reading bus and the gateway, the status service, retention, the
    sandbox, the contract specification check, reports of the claim repository. *)

From stdpp Require Import base gmap list strings sorting.
From Stdlib Require Import ZArith Lia.

(** * Fallible code

    A TypeScript function that may throw returns [res E A]: [Err e] is the
    exception, [Ok a] the value.  The monad is stdpp's [x ← m; k]. *)
Inductive res (E A : Type) : Type :=
| Ok (a : A)
| Err (e : E).
Arguments Ok {E A} a.
Arguments Err {E A} e.

#[global] Instance res_ret E : MRet (res E) := fun A a => Ok a.
#[global] Instance res_bind E : MBind (res E) := fun A B f m =>
  match m with Ok a => f a | Err e => Err e end.

Definition is_ok {E A} (r : res E A) : bool :=
  match r with Ok _ => true | Err _ => false end.

(** [guard_res b e] is the early [if (!b) throw e]. *)
Definition guard_res {E} (b : bool) (e : E) : res E unit :=
  if b then Ok () else Err e.

(** * Insertion-ordered maps

    A JavaScript [Map] iterates in insertion order, and [set] on a present key
    keeps its position.  [jmap K V] is the list of entries in that order. *)
Section JMap.
Context {K V : Type} `{EqDecision K}.

Fixpoint jm_get (m : list (K * V)) (k : K) : option V :=
  match m with
  | [] => None
  | (k', v) :: m' => if decide (k = k') then Some v else jm_get m' k
  end.

Fixpoint jm_set (m : list (K * V)) (k : K) (v : V) : list (K * V) :=
  match m with
  | [] => [(k, v)]
  | (k', v') :: m' =>
      if decide (k = k') then (k', v) :: m' else (k', v') :: jm_set m' k v
  end.

Definition jm_has (m : list (K * V)) (k : K) : bool := bool_decide (is_Some (jm_get m k)).

Definition jm_delete (m : list (K * V)) (k : K) : list (K * V) :=
  filter (fun kv => kv.1 ≠ k) m.

Definition jm_keys (m : list (K * V)) : list K := m.*1.
Definition jm_values (m : list (K * V)) : list V := m.*2.
End JMap.

(** * Stable sorting

    [Array.prototype.sort] is stable; for a comparator that is a total preorder
    the result is determined, and insertion sort computes it.  [le x y] is
    "comparator(x, y) <= 0". *)
Section SortBy.
Context {A : Type} (le : A -> A -> bool).

Fixpoint insert_by (x : A) (l : list A) : list A :=
  match l with
  | [] => [x]
  | y :: l' => if le x y then x :: y :: l' else y :: insert_by x l'
  end.

Fixpoint sort_by (l : list A) : list A :=
  match l with
  | [] => []
  | x :: l' => insert_by x (sort_by l')
  end.
End SortBy.

(** Code-unit order on strings, the order of [Array.prototype.sort] without a
    comparator and of [<] on strings. *)
Definition string_leb (a b : string) : bool :=
  match String.compare a b with Gt => false | _ => true end.

Definition sort_strings : list string -> list string := sort_by string_leb.

(** [Set.add], and the insertion order of [new Set(l)]. *)
Definition addToSet (x : string) (l : list string) : list string := if bool_decide (x ∈ l) then l else l ++ [x].
Definition setOf (l : list string) : list string := foldl (fun s x => addToSet x s) [] l.

(** Sum of a list of integers. *)
Definition sumZ (l : list Z) : Z := foldr Z.add 0%Z l.

(** * Tactics and hint database *)

Create HintDb refract.

(** Case analysis on every [decide]/[bool_decide]/[match] in sight. *)
Ltac split_cases :=
  repeat (first [ case_decide | case_bool_decide | case_match ]; simplify_eq/=).

(** Inversion of a successful or failed monadic run. *)
Ltac inv_res :=
  repeat match goal with
  | H : Ok _ = Ok _ |- _ => injection H as H; try subst
  | H : Err _ = Err _ |- _ => injection H as H; try subst
  | H : Ok _ = Err _ |- _ => discriminate H
  | H : Err _ = Ok _ |- _ => discriminate H
  | H : guard_res ?b _ ≫= _ = Ok _ |- _ => destruct b eqn:?; simpl in H; [|discriminate H]
  end.

Lemma res_bind_Ok {E A B} (m : res E A) (f : A -> res E B) b :
  m ≫= f = Ok b -> ∃ a, m = Ok a ∧ f a = Ok b.
Proof. destruct m as [a|e]; [by exists a|done]. Qed.

(** * Lemmas on insertion-ordered maps *)
Section JMapLemmas.
Context {K V : Type} `{EqDecision K}.
Implicit Types m : list (K * V).

Lemma jm_get_set_eq m k v : jm_get (jm_set m k v) k = Some v.
Proof. induction m as [|[k' v'] m IH]; simpl; repeat (case_decide; simpl); congruence. Qed.

Lemma jm_get_set_ne m k k' v : k ≠ k' -> jm_get (jm_set m k v) k' = jm_get m k'.
Proof. intros Hne; induction m as [|[k'' v'] m IH]; simpl; repeat case_decide; simplify_eq/=; repeat case_decide; congruence. Qed.

Lemma jm_get_set m k k' v :
  jm_get (jm_set m k v) k' = if decide (k = k') then Some v else jm_get m k'.
Proof. case_decide; subst; auto using jm_get_set_eq, jm_get_set_ne. Qed.

Lemma jm_get_Some_in m k v : jm_get m k = Some v -> (k, v) ∈ m.
Proof.
  induction m as [|[k' v'] m IH]; simpl; [done|].
  case_decide; simplify_eq/=; set_solver.
Qed.

Lemma jm_get_None_notin m k : jm_get m k = None <-> k ∉ jm_keys m.
Proof.
  unfold jm_keys; induction m as [|[k' v'] m IH]; simpl; [set_solver|].
  case_decide; subst; set_solver.
Qed.

Lemma jm_in_get m k v : NoDup (jm_keys m) -> (k, v) ∈ m -> jm_get m k = Some v.
Proof.
  unfold jm_keys; induction m as [|[k' v'] m IH]; simpl; [set_solver|].
  intros [Hn Hd]%NoDup_cons [?|Hin]%elem_of_cons; case_decide; simplify_eq; auto.
  destruct Hn. apply list_elem_of_fmap. by exists (k', v).
Qed.

Lemma jm_keys_set_in m k v : k ∈ jm_keys m -> jm_keys (jm_set m k v) = jm_keys m.
Proof.
  unfold jm_keys; induction m as [|[k' v'] m IH]; simpl; [set_solver|].
  case_decide; simpl; [done|]. intros; f_equal; apply IH; set_solver.
Qed.

Lemma jm_keys_set_notin m k v : k ∉ jm_keys m -> jm_keys (jm_set m k v) = jm_keys m ++ [k].
Proof.
  unfold jm_keys; induction m as [|[k' v'] m IH]; simpl; [done|].
  case_decide; simpl; [set_solver|]. intros; f_equal; apply IH; set_solver.
Qed.

Lemma jm_set_NoDup m k v : NoDup (jm_keys m) -> NoDup (jm_keys (jm_set m k v)).
Proof.
  intros Hd. destruct (decide (k ∈ jm_keys m)).
  - by rewrite jm_keys_set_in.
  - rewrite jm_keys_set_notin by done.
    apply NoDup_app; split_and!; [done|set_solver|apply NoDup_singleton].
Qed.

Lemma jm_set_fresh m k v : jm_get m k = None -> jm_set m k v = m ++ [(k, v)].
Proof. induction m as [|[k' v'] m IH]; simpl; intros; [done|]. case_decide; [done|]. by rewrite IH. Qed.

Lemma jm_get_delete_eq m k : jm_get (jm_delete m k) k = None.
Proof.
  unfold jm_delete; induction m as [|[k' v'] m IH]; simpl; [done|].
  rewrite filter_cons; simpl. case_decide; simpl; [rewrite decide_False by congruence|]; done.
Qed.

Lemma jm_get_delete_ne m k k' : k ≠ k' -> jm_get (jm_delete m k) k' = jm_get m k'.
Proof.
  unfold jm_delete; intros; induction m as [|[k'' v'] m IH]; simpl; [done|].
  rewrite filter_cons; simpl. case_decide; simpl; repeat case_decide; subst; naive_solver.
Qed.

Lemma jm_delete_NoDup m k : NoDup (jm_keys m) -> NoDup (jm_keys (jm_delete m k)).
Proof.
  unfold jm_keys, jm_delete; induction m as [|[k' v'] m IH]; simpl; [done|].
  intros [Hn Hd]%NoDup_cons. rewrite filter_cons; simpl. case_decide; simpl; [|auto].
  apply NoDup_cons; split; [|auto].
  intros (x & -> & [? ?]%list_elem_of_filter)%list_elem_of_fmap.
  apply Hn, list_elem_of_fmap; eauto.
Qed.
End JMapLemmas.

(** * Lemmas on sorting *)
Section SortByLemmas.
Context {A : Type} (le : A -> A -> bool).

Lemma insert_by_perm x l : insert_by le x l ≡ₚ x :: l.
Proof.
  induction l as [|y l IH]; simpl; [done|].
  destruct (le x y); [done|]. rewrite IH. apply Permutation_swap.
Qed.

Lemma sort_by_perm l : sort_by le l ≡ₚ l.
Proof. induction l as [|x l IH]; simpl; [done|]. by rewrite insert_by_perm, IH. Qed.

Lemma sort_by_length l : length (sort_by le l) = length l.
Proof. by rewrite sort_by_perm. Qed.

Lemma elem_of_sort_by x l : x ∈ sort_by le l <-> x ∈ l.
Proof. by rewrite sort_by_perm. Qed.

Definition le_total := forall x y, le x y = true \/ le y x = true.
Definition le_trans := forall x y z, le x y = true -> le y z = true -> le x z = true.
Definition le_antisym := forall x y, le x y = true -> le y x = true -> x = y.

Lemma insert_by_sorted x l :
  le_total -> le_trans ->
  StronglySorted (fun a b => le a b = true) l ->
  StronglySorted (fun a b => le a b = true) (insert_by le x l).
Proof.
  intros Htot Htr; induction 1 as [|y l Hs IH Hall]; simpl.
  - repeat constructor.
  - destruct (le x y) eqn:Hxy.
    + constructor; [by constructor|]. constructor; [done|].
      eapply Forall_impl; [done|]. eauto.
    + constructor; [done|].
      rewrite insert_by_perm. constructor; [|done].
      destruct (Htot x y); congruence.
Qed.

Lemma sort_by_sorted l :
  le_total -> le_trans -> StronglySorted (fun a b => le a b = true) (sort_by le l).
Proof. intros; induction l; simpl; [constructor|by apply insert_by_sorted]. Qed.

(** A sorted list is determined by its elements when the order is antisymmetric
    on them. *)
Lemma sorted_perm_unique_on l1 l2 :
  (forall x y, x ∈ l1 -> y ∈ l1 -> le x y = true -> le y x = true -> x = y) ->
  StronglySorted (fun a b => le a b = true) l1 ->
  StronglySorted (fun a b => le a b = true) l2 ->
  l1 ≡ₚ l2 -> l1 = l2.
Proof.
  intros Ha H1; revert l2 Ha; induction H1 as [|x l1 H1 IH Hx]; intros l2 Ha H2 Hp.
  - by apply Permutation_nil_l in Hp.
  - destruct H2 as [|y l2 H2 Hy]; [by symmetry in Hp; apply Permutation_nil_l in Hp|].
    assert (x = y) as ->.
    { rewrite Forall_forall in Hx, Hy.
      assert (x ∈ y :: l2) as Hin1 by (rewrite <- Hp; set_solver).
      assert (y ∈ x :: l1) as Hin2 by (rewrite Hp; set_solver).
      pose proof Hin2 as Hin2'.
      apply elem_of_cons in Hin1 as [?|Hin1]; [done|].
      apply elem_of_cons in Hin2 as [?|Hin2]; [done|].
      apply Ha; [set_solver|done|apply Hx | apply Hy]; done. }
    f_equal. apply IH; [|done|by apply Permutation_cons_inv in Hp].
    intros; apply Ha; set_solver.
Qed.

Lemma sorted_perm_unique l1 l2 :
  le_antisym ->
  StronglySorted (fun a b => le a b = true) l1 ->
  StronglySorted (fun a b => le a b = true) l2 ->
  l1 ≡ₚ l2 -> l1 = l2.
Proof. intros Ha ???. apply sorted_perm_unique_on; auto. Qed.

Lemma sort_by_perm_eq l1 l2 :
  le_total -> le_trans -> le_antisym -> l1 ≡ₚ l2 -> sort_by le l1 = sort_by le l2.
Proof.
  intros ??? Hp. apply sorted_perm_unique; auto using sort_by_sorted.
  by rewrite !sort_by_perm.
Qed.
End SortByLemmas.

Lemma StronglySorted_filter {A} (R : A -> A -> Prop) (P : A -> Prop) `{forall x, Decision (P x)} l :
  StronglySorted R l -> StronglySorted R (filter P l).
Proof.
  induction 1 as [|x l Hs IH Hall]; [constructor|].
  rewrite filter_cons; case_decide; [|done].
  constructor; [done|]. apply Forall_forall; intros y [_ Hy]%list_elem_of_filter.
  rewrite Forall_forall in Hall. auto.
Qed.

Lemma filter_none {A} (P : A -> Prop) `{forall x, Decision (P x)} (l : list A) :
  Forall (fun x => ¬ P x) l -> filter P l = [].
Proof. induction 1; [done|]. by rewrite filter_cons, decide_False. Qed.

Lemma filter_all {A} (P : A -> Prop) `{forall x, Decision (P x)} (l : list A) :
  Forall P l -> filter P l = l.
Proof. induction 1 as [|x l Hx Hl IH]; [done|]. rewrite filter_cons, decide_True by done. by rewrite IH. Qed.

Lemma filter_map_comm {A B} (f : A -> B) (P : B -> Prop) `{forall x, Decision (P x)}
    (Q : A -> Prop) `{forall x, Decision (Q x)} l :
  (forall x, P (f x) <-> Q x) -> filter P (map f l) = map f (filter Q l).
Proof.
  intros Hpq; induction l as [|x l IH]; [done|].
  cbn [map]; rewrite !filter_cons.
  pose proof (Hpq x). repeat case_decide; cbn [map]; try tauto; congruence.
Qed.

Lemma ascii_compare_refl c : Ascii.compare c c = Eq.
Proof. unfold Ascii.compare. apply N.compare_refl. Qed.

Lemma string_compare_refl s : String.compare s s = Eq.
Proof. induction s as [|c s IH]; simpl; [done|]. by rewrite ascii_compare_refl. Qed.

Lemma string_leb_refl s : string_leb s s = true.
Proof. unfold string_leb. by rewrite string_compare_refl. Qed.

Lemma string_leb_total : le_total string_leb.
Proof.
  intros x y. unfold string_leb.
  pose proof (String.compare_antisym x y) as H.
  destruct (String.compare x y), (String.compare y x); simpl in H; auto; done.
Qed.

Lemma string_leb_antisym : le_antisym string_leb.
Proof.
  intros x y. unfold string_leb.
  pose proof (String.compare_antisym x y) as H.
  destruct (String.compare x y) eqn:E, (String.compare y x); simpl in H; try done.
  intros _ _. by apply String.compare_eq_iff.
Qed.

Lemma string_leb_trans : le_trans string_leb.
Proof.
  intros x; unfold string_leb; induction x as [|a x IH]; intros [|b y] [|c z]; simpl; try done.
  specialize (IH y z).
  unfold Ascii.compare.
  destruct (N.compare_spec (Ascii.N_of_ascii a) (Ascii.N_of_ascii b));
  destruct (N.compare_spec (Ascii.N_of_ascii b) (Ascii.N_of_ascii c));
  destruct (N.compare_spec (Ascii.N_of_ascii a) (Ascii.N_of_ascii c));
    intros; try done; try lia; auto.
Qed.

#[export] Hint Resolve string_leb_total string_leb_antisym string_leb_trans string_leb_refl : refract.

Lemma sort_strings_perm l : sort_strings l ≡ₚ l.
Proof. apply sort_by_perm. Qed.

Lemma sort_strings_eq l1 l2 : l1 ≡ₚ l2 -> sort_strings l1 = sort_strings l2.
Proof. intros. apply sort_by_perm_eq; auto with refract. Qed.

Lemma elem_of_sort_strings x l : x ∈ sort_strings l <-> x ∈ l.
Proof. apply elem_of_sort_by. Qed.

Lemma elem_of_jm_set {K V} `{EqDecision K} (m : list (K * V)) k v x : x ∈ jm_set m k v -> x = (k, v) ∨ x ∈ m.
Proof.
  induction m as [|[k' v'] m IH]; cbn; [intros Hx%list_elem_of_singleton; by left|]. destruct (decide (k = k')) as [<- | Hn].
  - rewrite !elem_of_cons. naive_solver.
  - rewrite !elem_of_cons. naive_solver.
Qed.

Lemma elem_of_jm_delete {V} (m : list (string * V)) k x : x ∈ jm_delete m k -> x ∈ m.
Proof. unfold jm_delete. by intros [_ ?]%list_elem_of_filter. Qed.

Lemma jm_get_delete {K V} `{EqDecision K} (m : list (K * V)) k k' : jm_get (jm_delete m k) k' = if decide (k = k') then None else jm_get m k'.
Proof. destruct (decide (k = k')) as [-> | Hn]; [apply jm_get_delete_eq|by apply jm_get_delete_ne]. Qed.

Lemma NoDup_map_filter_bool {A B} (f : A -> B) p l : NoDup (map f l) -> NoDup (map f (List.filter p l)).
Proof.
  induction l as [|x l IH]; [done|]. cbn. intros [Hx Hl]%NoDup_cons. destruct (p x); [|by apply IH]. cbn. apply NoDup_cons. split; [|by apply IH].
  intros (y & Hy & Hy2)%list_elem_of_In%in_map_iff. apply filter_In in Hy2 as [Hy2 _]. apply Hx. apply list_elem_of_In, in_map_iff. by exists y.
Qed.

Lemma filter_nil_iff {A} (p : A -> bool) l : List.filter p l = [] <-> ∀ x, x ∈ l -> p x = false.
Proof.
  setoid_rewrite list_elem_of_In. split.
  - intros H x Hx. destruct (p x) eqn:E; [|done]. assert (In x (List.filter p l)) as Hf by (by apply filter_In). by rewrite H in Hf.
  - intros H. destruct (List.filter p l) as [|x r] eqn:E; [done|]. assert (In x (List.filter p l)) as [Hx Hp]%filter_In by (rewrite E; by left).
    by rewrite (H x Hx) in Hp.
Qed.

Lemma NoDup_map_inj {A B} (f : A -> B) (l : list A) x y :
  NoDup (map f l) -> x ∈ l -> y ∈ l -> f x = f y -> x = y.
Proof.
  induction l as [|z l IH]; [by intros _ ?%not_elem_of_nil|]. cbn [map]. intros [Hn Hd]%NoDup_cons.
  assert (forall w, w ∈ l -> f w ≠ f z) as Hne.
  { intros w Hw E. apply Hn. rewrite <- E. apply list_elem_of_fmap. by exists w. }
  intros [->|Hx]%elem_of_cons [->|Hy]%elem_of_cons Hf; auto; exfalso; by eapply Hne.
Qed.

Lemma elem_of_addToSet p x l : p ∈ addToSet x l <-> p = x ∨ p ∈ l.
Proof. unfold addToSet. case_bool_decide; [|rewrite elem_of_app, list_elem_of_singleton]; naive_solver. Qed.

(** * Integer and sum lemmas *)
Lemma elem_of_setOf x l : x ∈ setOf l <-> x ∈ l.
Proof.
  unfold setOf. assert (forall acc, x ∈ foldl (fun s y => addToSet y s) acc l <-> x ∈ acc ∨ x ∈ l) as H.
  { induction l as [|y l IH]; intros acc; cbn [foldl]; [set_solver|]. rewrite IH, elem_of_addToSet. set_solver. }
  rewrite H. set_solver.
Qed.

Lemma addToSet_NoDup x l : NoDup l -> NoDup (addToSet x l).
Proof.
  intros Hl. unfold addToSet. case_bool_decide as Hx; [done|]. apply NoDup_app.
  split_and!; [done| |apply NoDup_singleton]. intros y Hy Hy'. apply list_elem_of_singleton in Hy' as ->. done.
Qed.

Lemma setOf_NoDup l : NoDup (setOf l).
Proof.
  unfold setOf. assert (NoDup (@nil string)) as Hn by constructor. revert Hn. generalize (@nil string).
  induction l as [|y l IH]; intros acc Hn; [done|]. cbn [foldl]. by apply IH, addToSet_NoDup.
Qed.

Lemma sumZ_app l1 l2 : sumZ (l1 ++ l2) = (sumZ l1 + sumZ l2)%Z.
Proof. induction l1; simpl; lia. Qed.

Lemma sumZ_cons x l : sumZ (x :: l) = (x + sumZ l)%Z.
Proof. done. Qed.

Lemma sumZ_perm l1 l2 : l1 ≡ₚ l2 -> sumZ l1 = sumZ l2.
Proof. induction 1; simpl; lia. Qed.

#[global] Instance sumZ_proper : Proper ((≡ₚ) ==> (=)) sumZ.
Proof. intros l1 l2. apply sumZ_perm. Qed.

Lemma sumZ_nonneg l : Forall (fun z => 0 <= z)%Z l -> (0 <= sumZ l)%Z.
Proof. induction 1; simpl; lia. Qed.

Lemma sumZ_map_nonneg {A} (f : A -> Z) l : Forall (fun x => 0 <= f x)%Z l -> (0 <= sumZ (map f l))%Z.
Proof. intros. apply sumZ_nonneg. by apply Forall_fmap. Qed.

(** Updating rows in a way a projection does not see. *)
Lemma map_map_same {A B} (f : A -> B) (g : A -> A) l :
  (forall x, f (g x) = f x) -> map f (map g l) = map f l.
Proof. intros H. rewrite map_map. by apply map_ext. Qed.

Lemma div_mono_num a b c : (0 < c -> a <= b -> a / c <= b / c)%Z.
Proof. intros. by apply Z.div_le_mono. Qed.
