(* ===== verification/Decimal.v ===== *)
(** Decimal text of integers: what [BigInt(string)], [bigint.toString()],
    [padStart], [padEnd] and the regular expressions of the fixed-point modules
    compute, on strings as lists of ASCII characters. *)

From stdpp Require Import base list strings.
From Stdlib Require Import ZArith Lia Ascii.
From S2P Require Import Prelude.
Open Scope Z_scope.

Abbreviation text := (list ascii).

Definition c_dot : ascii := "."%char.
Definition c_minus : ascii := "-"%char.
Definition c_zero : ascii := "0"%char.

(** [\d] and the value of a digit. *)
Definition is_digit (c : ascii) : bool :=
  bool_decide (48 <= Z.of_N (N_of_ascii c) <= 57).
Definition digit_val (c : ascii) : Z := Z.of_N (N_of_ascii c) - 48.
Definition digit_char (d : Z) : ascii := ascii_of_N (Z.to_N (48 + d)).

Definition all_digits (s : text) : bool := forallb is_digit s.

(** [BigInt(s)] on a string of digits; [BigInt("")] is 0. *)
Definition dec_val (s : text) : Z := foldl (fun acc c => 10 * acc + digit_val c) 0 s.

(** [n.toString()] for [n >= 0]: [fuel] bounds the number of digits, and
    [log2 n + 1] of them always suffice. *)
Fixpoint digits_fuel (fuel : nat) (n : Z) (acc : text) : text :=
  match fuel with
  | O => acc
  | S fuel' =>
      let acc' := digit_char (n mod 10) :: acc in
      if decide (n / 10 = 0) then acc' else digits_fuel fuel' (n / 10) acc'
  end.

Definition nat_text (n : Z) : text := digits_fuel (S (Z.to_nat (Z.log2 n))) n [].

(** [z.toString()]. *)
Definition z_text (z : Z) : text :=
  if decide (z < 0) then c_minus :: nat_text (- z) else nat_text z.

Definition padStart (width : nat) (s : text) : text := replicate (width - length s) c_zero ++ s.
Definition padEnd (width : nat) (s : text) : text := s ++ replicate (width - length s) c_zero.

(** Longest prefix of digits, and the rest. *)
Fixpoint span_digits (s : text) : text * text :=
  match s with
  | c :: s' => if is_digit c then let '(d, r) := span_digits s' in (c :: d, r) else ([], s)
  | [] => ([], [])
  end.

Definition starts_minus (s : text) : bool :=
  match s with c :: _ => bool_decide (c = c_minus) | [] => false end.

(** [negative ? s.slice(1) : s]. *)
Definition drop_minus (s : text) : text := if starts_minus s then tail s else s.

(** [/^-?\d+(\.\d+)?$/.test(s)]. *)
Definition decimal_re (s : text) : bool :=
  let '(w, r) := span_digits (drop_minus s) in
  match w, r with
  | [], _ => false
  | _, [] => true
  | _, c :: r' =>
      bool_decide (c = c_dot) &&
      (let '(f, r'') := span_digits r' in
       match f, r'' with _ :: _, [] => true | _, _ => false end)
  end.

(** The first two parts of [s.split(".")], the second defaulting to [""]. *)
Fixpoint take_until_dot (s : text) : text :=
  match s with
  | [] => []
  | c :: s' => if decide (c = c_dot) then [] else c :: take_until_dot s'
  end.
Fixpoint after_dot (s : text) : text :=
  match s with
  | [] => []
  | c :: s' => if decide (c = c_dot) then take_until_dot s' else after_dot s'
  end.

(** [s.trim()], on ASCII white space. *)
Definition is_space (c : ascii) : bool :=
  bool_decide (N_of_ascii c = 32%N ∨ (9 <= N_of_ascii c <= 13)%N).
Fixpoint trim_left (s : text) : text :=
  match s with c :: s' => if is_space c then trim_left s' else s | [] => [] end.
Definition trim (s : text) : text := rev (trim_left (rev (trim_left s))).

(** ** Lemmas *)

Lemma digit_char_val d : 0 <= d <= 9 -> digit_val (digit_char d) = d ∧ is_digit (digit_char d) = true.
Proof.
  intros H. unfold digit_val, is_digit, digit_char.
  rewrite N_ascii_embedding by lia. rewrite Z2N.id by lia.
  split; [lia|]. apply bool_decide_eq_true. lia.
Qed.

Lemma digit_val_bounds c : is_digit c = true -> 0 <= digit_val c <= 9.
Proof. unfold is_digit, digit_val. rewrite bool_decide_eq_true. lia. Qed.

Lemma dec_val_acc s : forall acc,
  foldl (fun acc c => 10 * acc + digit_val c) acc s = acc * 10 ^ Z.of_nat (length s) + dec_val s.
Proof.
  unfold dec_val. induction s as [|c s IH]; intros acc; [simpl; lia|].
  cbn [foldl length]. rewrite (IH (10 * acc + digit_val c)), (IH (10 * 0 + digit_val c)).
  rewrite Nat2Z.inj_succ, Z.pow_succ_r by lia. lia.
Qed.

Lemma dec_val_app s1 s2 : dec_val (s1 ++ s2) = dec_val s1 * 10 ^ Z.of_nat (length s2) + dec_val s2.
Proof. unfold dec_val at 1. rewrite foldl_app. apply dec_val_acc. Qed.

Lemma dec_val_cons c s : dec_val (c :: s) = digit_val c * 10 ^ Z.of_nat (length s) + dec_val s.
Proof. unfold dec_val at 1. cbn [foldl]. rewrite dec_val_acc. lia. Qed.

Lemma dec_val_zeros n s : dec_val (replicate n c_zero ++ s) = dec_val s.
Proof. induction n as [|n IH]; [done|]. cbn [replicate app]. rewrite dec_val_cons, IH. unfold c_zero, digit_val; simpl. lia. Qed.

Lemma dec_val_bounds s : all_digits s = true -> 0 <= dec_val s < 10 ^ Z.of_nat (length s).
Proof.
  unfold all_digits. induction s as [|c s IH]; [done|].
  cbn [forallb]. intros [Hc Hs]%andb_true_iff. specialize (IH Hs).
  apply digit_val_bounds in Hc. rewrite dec_val_cons. cbn [length].
  rewrite Nat2Z.inj_succ, Z.pow_succ_r by lia. nia.
Qed.

Lemma all_digits_app s1 s2 : all_digits (s1 ++ s2) = all_digits s1 && all_digits s2.
Proof. apply forallb_app. Qed.

Lemma all_digits_zeros n : all_digits (replicate n c_zero) = true.
Proof. induction n; simpl; [done|]. by rewrite IHn. Qed.

Lemma digits_fuel_spec fuel : forall n acc,
  0 <= n < 10 ^ Z.of_nat fuel -> all_digits acc = true -> (0 < fuel)%nat ->
  ∃ d, digits_fuel fuel n acc = d ++ acc ∧ all_digits d = true ∧ d ≠ [] ∧ dec_val d = n.
Proof.
  induction fuel as [|fuel IH]; intros n acc Hn Hacc Hf; [lia|].
  cbn [digits_fuel]. rewrite Nat2Z.inj_succ, Z.pow_succ_r in Hn by lia.
  pose proof (Z.mod_pos_bound n 10 ltac:(lia)) as Hm.
  pose proof (Z.div_mod n 10 ltac:(lia)) as Hdm.
  destruct (digit_char_val (n mod 10)) as [Hv Hd]; [lia|].
  case_decide as Hz.
  - exists [digit_char (n mod 10)]. split_and!; [done|simpl; by rewrite Hd|done|].
    rewrite dec_val_cons; unfold dec_val; simpl. lia.
  - assert (0 <= n / 10 < 10 ^ Z.of_nat fuel).
    { split; [apply Z.div_pos; lia|]. apply Z.div_lt_upper_bound; lia. }
    destruct (IH (n / 10) (digit_char (n mod 10) :: acc)) as (d & Heq & Hall & Hne & Hval); [done|..].
    + simpl. by rewrite Hd.
    + destruct fuel; [|lia]. simpl in *. lia.
    + exists (d ++ [digit_char (n mod 10)]). split_and!.
      * rewrite Heq, <- app_assoc. done.
      * rewrite all_digits_app, Hall. simpl. by rewrite Hd.
      * by destruct d.
      * rewrite dec_val_app, dec_val_cons, Hval; unfold dec_val; simpl. lia.
Qed.

Lemma log2_pow10 n : 0 <= n -> n < 10 ^ Z.of_nat (S (Z.to_nat (Z.log2 n))).
Proof.
  intros Hn. rewrite Nat2Z.inj_succ, Z2Nat.id by apply Z.log2_nonneg.
  destruct (decide (n = 0)) as [->|]; [reflexivity|].
  eapply Z.lt_le_trans; [apply Z.log2_spec; lia|].
  apply Z.pow_le_mono_l. pose proof (Z.log2_nonneg n). lia.
Qed.

Lemma nat_text_spec n : 0 <= n ->
  all_digits (nat_text n) = true ∧ nat_text n ≠ [] ∧ dec_val (nat_text n) = n.
Proof.
  intros Hn. unfold nat_text.
  destruct (digits_fuel_spec (S (Z.to_nat (Z.log2 n))) n []) as (d & -> & ? & ? & ?);
    [split; [done|by apply log2_pow10]|done|lia|].
  rewrite app_nil_r. done.
Qed.

(** A decimal string is no longer than the power of ten bounding its value. *)
Lemma nat_text_length n k : (0 < k)%nat -> 0 <= n < 10 ^ Z.of_nat k -> (length (nat_text n) <= k)%nat.
Proof.
  intros Hk Hn. unfold nat_text.
  assert (forall fuel n acc k, (0 < k)%nat -> 0 <= n < 10 ^ Z.of_nat k ->
            (length (digits_fuel fuel n acc) <= length acc + k)%nat) as Hgen.
  { clear. induction fuel as [|fuel IH]; intros n acc k Hk Hn; simpl; [lia|].
    case_decide; simpl; [lia|]. destruct k as [|k]; [lia|].
    rewrite Nat2Z.inj_succ, Z.pow_succ_r in Hn by lia.
    assert (0 <= n / 10 < 10 ^ Z.of_nat k).
    { split; [apply Z.div_pos; lia|]. apply Z.div_lt_upper_bound; lia. }
    destruct k as [|k]; [simpl in *; lia|].
    specialize (IH (n / 10) (digit_char (n mod 10) :: acc) (S k) ltac:(lia) ltac:(done)).
    cbn [length] in IH. lia. }
  exact (Hgen (S (Z.to_nat (Z.log2 n))) n [] k Hk Hn).
Qed.

Lemma padStart_length w s : (length s <= w)%nat -> length (padStart w s) = w.
Proof. intros. unfold padStart. rewrite length_app, length_replicate. lia. Qed.

Lemma padStart_digits w s : all_digits s = true -> all_digits (padStart w s) = true.
Proof. intros H. unfold padStart. by rewrite all_digits_app, all_digits_zeros. Qed.

Lemma padStart_val w s : dec_val (padStart w s) = dec_val s.
Proof. apply dec_val_zeros. Qed.

Lemma padEnd_full w s : (w <= length s)%nat -> padEnd w s = s.
Proof. intros. unfold padEnd. replace (w - length s)%nat with 0%nat by lia. apply app_nil_r. Qed.

Lemma span_digits_all d r : all_digits d = true ->
  match r with [] => True | c :: _ => is_digit c = false end -> span_digits (d ++ r) = (d, r).
Proof.
  unfold all_digits. induction d as [|c d IH]; simpl.
  - destruct r as [|c r]; [done|]. simpl. by intros _ ->.
  - intros [-> Hd]%andb_true_iff Hr. by rewrite IH.
Qed.

Lemma is_digit_dot : is_digit c_dot = false. Proof. done. Qed.
Lemma is_digit_minus : is_digit c_minus = false. Proof. done. Qed.

Lemma starts_minus_digits d r : all_digits d = true -> d ≠ [] -> starts_minus (d ++ r) = false.
Proof.
  destruct d as [|c d]; [done|]. simpl. intros [Hc _]%andb_true_iff _.
  apply bool_decide_eq_false. intros ->. by rewrite is_digit_minus in Hc.
Qed.

Lemma take_until_dot_digits d r : all_digits d = true ->
  take_until_dot (d ++ r) = d ++ take_until_dot r.
Proof.
  unfold all_digits. induction d as [|c d IH]; simpl; [done|].
  intros [Hc Hd]%andb_true_iff. rewrite decide_False; [by rewrite IH|].
  intros ->. by rewrite is_digit_dot in Hc.
Qed.

Lemma after_dot_digits d r : all_digits d = true -> after_dot (d ++ r) = after_dot r.
Proof.
  unfold all_digits. induction d as [|c d IH]; simpl; [done|].
  intros [Hc Hd]%andb_true_iff. rewrite decide_False; [by rewrite IH|].
  intros ->. by rewrite is_digit_dot in Hc.
Qed.

(** Everything the parsers read off a canonical [whole.fraction] string. *)
Lemma canonical_decimal (neg : bool) w f :
  all_digits w = true -> w ≠ [] -> all_digits f = true -> f ≠ [] ->
  let s := (if neg then [c_minus] else []) ++ w ++ c_dot :: f in
  decimal_re s = true ∧ starts_minus s = neg ∧
  take_until_dot (drop_minus s) = w ∧ after_dot (drop_minus s) = f.
Proof.
  intros Hw Hwn Hf Hfn s.
  assert (starts_minus s = neg) as Hneg.
  { unfold s. destruct neg; [done|]. simpl. by apply starts_minus_digits. }
  assert (drop_minus s = w ++ c_dot :: f) as Hdrop.
  { unfold drop_minus. rewrite Hneg. unfold s. by destruct neg. }
  assert (span_digits f = (f, [])) as Hspan.
  { rewrite <- (app_nil_r f) at 1. by apply span_digits_all. }
  split_and!; [|done|..]; rewrite ?Hdrop.
  - unfold decimal_re. rewrite Hdrop, span_digits_all by done.
    destruct w; [done|]. simpl. rewrite Hspan. by destruct f.
  - rewrite take_until_dot_digits by done. simpl. apply app_nil_r.
  - rewrite after_dot_digits by done. simpl.
    rewrite <- (app_nil_r f) at 1. rewrite take_until_dot_digits by done. apply app_nil_r.
Qed.

(** The same for an integer string without a fraction. *)
Lemma canonical_integer (neg : bool) w :
  all_digits w = true -> w ≠ [] ->
  let s := (if neg then [c_minus] else []) ++ w in
  decimal_re s = true ∧ starts_minus s = neg ∧
  take_until_dot (drop_minus s) = w ∧ after_dot (drop_minus s) = [].
Proof.
  intros Hw Hwn s.
  assert (starts_minus s = neg) as Hneg.
  { unfold s. destruct neg; [done|]. simpl. rewrite <- (app_nil_r w). by apply starts_minus_digits. }
  assert (drop_minus s = w ++ []) as Hdrop.
  { unfold drop_minus. rewrite Hneg, app_nil_r. unfold s. by destruct neg. }
  split_and!; [|done|..]; rewrite ?Hdrop.
  - unfold decimal_re. rewrite Hdrop, span_digits_all by done. by destruct w.
  - rewrite take_until_dot_digits by done. apply app_nil_r.
  - by rewrite after_dot_digits.
Qed.

Lemma z_text_nonneg n : 0 <= n -> z_text n = nat_text n.
Proof. intros. unfold z_text. by rewrite decide_False by lia. Qed.

(** Whole and fraction text of a non-negative amount scaled by [10 ^ k]. *)
Lemma decimal_parts a k : (0 < k)%nat -> 0 <= a ->
  let w := z_text (Z.quot a (10 ^ Z.of_nat k)) in
  let f := padStart k (z_text (Z.rem a (10 ^ Z.of_nat k))) in
  all_digits w = true ∧ w ≠ [] ∧ all_digits f = true ∧ length f = k ∧
  dec_val w * 10 ^ Z.of_nat k + dec_val f = a.
Proof.
  intros Hk Ha. set (D := 10 ^ Z.of_nat k). assert (0 < D) as HD by (unfold D; lia).
  rewrite Z.quot_div_nonneg, Z.rem_mod_nonneg by lia.
  assert (0 <= a / D) as Hq by (apply Z.div_pos; lia).
  pose proof (Z.mod_pos_bound a D HD) as Hm. rewrite !z_text_nonneg by lia. simpl.
  destruct (nat_text_spec _ Hq) as (? & ? & ->).
  destruct (nat_text_spec (a mod D) ltac:(lia)) as (Hd & ? & Hv).
  rewrite padStart_val, Hv. split_and!; auto using padStart_digits.
  - apply padStart_length. by apply nat_text_length.
  - rewrite (Z.div_mod a D) at 3 by lia. lia.
Qed.

Lemma trim_left_id c s : is_space c = false -> trim_left (c :: s) = c :: s.
Proof. simpl. by intros ->. Qed.

Lemma trim_id s : s ≠ [] -> Forall (fun c => is_space c = false) s -> trim s = s.
Proof.
  intros Hne Hs. unfold trim.
  destruct s as [|c s]; [done|]. inversion Hs; subst.
  rewrite trim_left_id by done.
  destruct (rev (c :: s)) as [|c' s'] eqn:Hr.
  { apply (f_equal length) in Hr. rewrite length_rev in Hr. done. }
  rewrite trim_left_id.
  - by rewrite <- Hr, rev_involutive.
  - rewrite Forall_forall in Hs. apply Hs. apply list_elem_of_In, in_rev. rewrite Hr. by left.
Qed.

Lemma digits_no_space s : all_digits s = true -> Forall (fun c => is_space c = false) s.
Proof.
  unfold all_digits. induction s as [|c s IH]; simpl; [constructor|].
  intros [Hc Hs]%andb_true_iff. constructor; [|auto].
  unfold is_digit in Hc. unfold is_space. apply bool_decide_eq_true in Hc.
  apply bool_decide_eq_false. lia.
Qed.

(** The characters of a concatenation. *)
Lemma list_ascii_append a b :
  String.list_ascii_of_string (a +:+ b) = String.list_ascii_of_string a ++ String.list_ascii_of_string b.
Proof. induction a as [|c a IH]; [done|]. exact (f_equal (cons c) IH). Qed.
