(* ===== verification/FixedPoint.v ===== *)
(** Exact 1e7 fixed-point money arithmetic (src/common/fixed-point.ts) and the
    LP share arithmetic (src/pool/share-price.math.ts).

    A [bigint] is a [Z]; [/] and [%] on bigints truncate toward zero, so they
    are [Z.quot] and [Z.rem], and dividing by [0n] throws. *)

From stdpp Require Import base list strings.
From Stdlib Require Import ZArith Lia Ascii.
From S2P Require Import Prelude Decimal.
Open Scope Z_scope.

Inductive RangeError :=
| DenominatorNotPositive
| NumeratorNegative
| DivisionByZero
| InvalidDecimalString.

(** ** src/common/fixed-point.ts *)

Definition FIXED_POINT_DECIMALS : Z := 7.
Definition FIXED_POINT_ONE : Z := 10000000.
Definition BPS_ONE : Z := 10000.

Definition divRoundUp (numerator denominator : Z) : res RangeError Z :=
  if decide (denominator <= 0) then Err DenominatorNotPositive
  else if decide (numerator < 0) then Err NumeratorNegative
  else Ok (Z.quot (numerator + denominator - 1) denominator).

Definition mulByBps (amount bps : Z) : res RangeError Z := divRoundUp (amount * bps) BPS_ONE.

Definition mulByScaledRate (amount rate scale : Z) : res RangeError Z := divRoundUp (amount * rate) scale.

Definition mulDivRoundUp (amount numerator denominator : Z) : res RangeError Z :=
  divRoundUp (amount * numerator) denominator.

(** [s.slice(0, n)] for [n >= 0]. *)
Definition slice0 (n : Z) (s : text) : text := take (Z.to_nat n) s.

Definition formatFixed (value decimals : Z) : text :=
  let negative := bool_decide (value < 0) in
  let abs := if negative then - value else value in
  let whole := Z.quot abs FIXED_POINT_ONE in
  let fraction := Z.rem abs FIXED_POINT_ONE in
  let fractionStr := padStart (Z.to_nat FIXED_POINT_DECIMALS) (z_text fraction) in
  let trimmed := if decide (decimals >= FIXED_POINT_DECIMALS) then fractionStr
                 else slice0 decimals fractionStr in
  let sign := if negative then [c_minus] else [] in
  if decide (decimals > 0) then sign ++ z_text whole ++ c_dot :: trimmed
  else sign ++ z_text whole.

Definition parseFixed (value : text) : res RangeError Z :=
  let trimmed := trim value in
  if negb (decimal_re trimmed) then Err InvalidDecimalString
  else
    let negative := starts_minus trimmed in
    let unsigned := drop_minus trimmed in
    let wholePart := take_until_dot unsigned in
    let fractionPart := after_dot unsigned in
    let paddedFraction :=
      slice0 FIXED_POINT_DECIMALS (padEnd (Z.to_nat FIXED_POINT_DECIMALS) fractionPart) in
    let result := dec_val wholePart * FIXED_POINT_ONE + dec_val paddedFraction in
    Ok (if negative then - result else result).

Definition formatPercent (value decimals : Z) : text :=
  let scaled := value * 100 in
  let whole := Z.quot scaled FIXED_POINT_ONE in
  let fraction := Z.rem scaled FIXED_POINT_ONE in
  let fractionStr := padStart (Z.to_nat FIXED_POINT_DECIMALS) (z_text fraction) in
  let trimmed := if decide (decimals >= FIXED_POINT_DECIMALS) then fractionStr
                 else slice0 decimals fractionStr in
  if decide (decimals > 0) then z_text whole ++ c_dot :: trimmed else z_text whole.

(** ** src/pool/share-price.math.ts *)

Definition SHARE_PRICE_SCALE : Z := 10000.

Definition divideRoundNearest (numerator denominator : Z) : res RangeError Z :=
  if decide (denominator <= 0) then Err DenominatorNotPositive
  else Ok (Z.quot (numerator + Z.quot denominator 2) denominator).

Definition calculatePoolShareValue (shares sharePriceScaled : Z) : res RangeError Z :=
  divideRoundNearest (shares * sharePriceScaled) SHARE_PRICE_SCALE.

(** [bigint / 0n] throws. *)
Definition bigint_div (a b : Z) : res RangeError Z :=
  if decide (b = 0) then Err DivisionByZero else Ok (Z.quot a b).

Definition calculateSharesOut (amount totalShares totalUsdc : Z) : res RangeError Z :=
  bigint_div (amount * totalShares) totalUsdc.

Definition calculateUsdcOut (shares totalUsdc totalShares : Z) : res RangeError Z :=
  bigint_div (shares * totalUsdc) totalShares.

Definition formatFixedPercent (shares totalShares : Z) : res RangeError text :=
  scaledPercent ← divideRoundNearest (shares * 1000000) totalShares;
  let whole := Z.quot scaledPercent 10000 in
  let fraction := padStart 4 (z_text (Z.rem scaledPercent 10000)) in
  Ok (z_text whole ++ c_dot :: fraction).

(** ** Lemmas *)

(** Whole and fraction text of a non-negative amount. *)
Lemma fixed_parts a : 0 <= a ->
  let w := z_text (Z.quot a FIXED_POINT_ONE) in
  let f := padStart 7 (z_text (Z.rem a FIXED_POINT_ONE)) in
  all_digits w = true ∧ w ≠ [] ∧ all_digits f = true ∧ length f = 7%nat ∧
  dec_val w * FIXED_POINT_ONE + dec_val f = a.
Proof. intros Ha. apply (decimal_parts a 7); [lia|done]. Qed.

(** ** Properties *)

(** [divRoundUp] is the ceiling: it throws exactly on a non-positive
    denominator or a negative numerator, and otherwise returns the least integer
    whose product with the denominator covers the numerator, so a premium is
    never below its exact value and exceeds it by less than one unit. *)
Theorem divRoundUp_ceiling (n d : Z) :
  match divRoundUp n d with
  | Ok q => 0 < d ∧ 0 <= n ∧ n <= q * d < n + d
  | Err DenominatorNotPositive => d <= 0
  | Err NumeratorNegative => 0 < d ∧ n < 0
  | Err _ => False
  end.
Proof.
  unfold divRoundUp. repeat case_decide; [lia..|].
  rewrite Z.quot_div_nonneg by lia.
  pose proof (Z.div_mod (n + d - 1) d ltac:(lia)).
  pose proof (Z.mod_pos_bound (n + d - 1) d ltac:(lia)). nia.
Qed.

(** Printing a 1e7 fixed-point amount with its 7 decimals and parsing the
    text back gives the amount, for every integer amount including negatives. *)
Theorem format_parse_roundtrip (v : Z) :
  parseFixed (formatFixed v FIXED_POINT_DECIMALS) = Ok v.
Proof.
  unfold formatFixed, parseFixed. cbv zeta.
  set (a := if bool_decide (v < 0) then - v else v).
  assert (0 <= a) as Ha by (unfold a; case_bool_decide; lia).
  rewrite (decide_True (P := FIXED_POINT_DECIMALS >= FIXED_POINT_DECIMALS)) by lia.
  rewrite decide_True by (unfold FIXED_POINT_DECIMALS; lia).
  change (Z.to_nat FIXED_POINT_DECIMALS) with 7%nat.
  destruct (fixed_parts a Ha) as (Hw & Hwn & Hf & Hfl & Hv).
  set (w := z_text (Z.quot a FIXED_POINT_ONE)) in *.
  set (f := padStart 7 (z_text (Z.rem a FIXED_POINT_ONE))) in *.
  assert (f ≠ []) as Hfn by (intros E; rewrite E in Hfl; done).
  destruct (canonical_decimal (bool_decide (v < 0)) w f Hw Hwn Hf Hfn) as (Hre & Hsm & Htk & Haf).
  rewrite trim_id.
  - rewrite Hre, Hsm, Htk, Haf. simpl. rewrite padEnd_full by lia.
    unfold slice0. rewrite take_ge by (rewrite Hfl; done).
    rewrite Hv. f_equal. unfold a. case_bool_decide; lia.
  - destruct (bool_decide (v < 0)); [done|]. by destruct w.
  - rewrite !Forall_app, Forall_cons. split_and!; auto using digits_no_space.
    destruct (bool_decide (v < 0)); repeat constructor.
Qed.

(** Depositing and withdrawing at once never takes capital out of the pool:
    the shares minted for a deposit, redeemed against the totals after the
    deposit, return at most the deposited amount. *)
Theorem deposit_withdraw_no_profit (amount totalShares totalUsdc shares usdc : Z)
    (Ha : 0 <= amount) (Hs : 0 <= totalShares) (Hu : 0 < totalUsdc)
    (Hmint : calculateSharesOut amount totalShares totalUsdc = Ok shares)
    (Hredeem : calculateUsdcOut shares (totalUsdc + amount) (totalShares + shares) = Ok usdc) :
  usdc <= amount.
Proof.
  unfold calculateSharesOut, calculateUsdcOut, bigint_div in *.
  case_decide; [done|]. case_decide; [done|]. injection Hmint as <-. injection Hredeem as <-.
  assert (0 <= amount * totalShares) by nia.
  rewrite (Z.quot_div_nonneg (amount * totalShares)) in * by lia.
  pose proof (Z.mul_div_le (amount * totalShares) totalUsdc Hu) as Hle.
  assert (0 <= amount * totalShares / totalUsdc) by (apply Z.div_pos; lia).
  set (sh := amount * totalShares / totalUsdc) in *.
  rewrite Z.quot_div_nonneg by nia.
  apply Z.div_le_upper_bound; [lia|]. nia.
Qed.

Lemma deposit_withdraw_no_profit_witness : 6 <= 7.
Proof.
  apply (deposit_withdraw_no_profit 7 100 103 6 6); [lia|lia|lia|reflexivity|reflexivity].
Defined.

(** [divideRoundNearest] rounds a non-negative quotient to a nearest
    integer, half up: the result times the denominator is within half a
    denominator of the numerator. *)
Theorem divideRoundNearest_nearest (n d q : Z) (Hn : 0 <= n) (H : divideRoundNearest n d = Ok q) :
  2 * (q * d) <= 2 * n + d ∧ 2 * n < 2 * (q * d) + d + 1.
Proof.
  unfold divideRoundNearest in H. case_decide; inv_res.
  rewrite (Z.quot_div_nonneg d 2) by lia.
  assert (0 <= d / 2) by (apply Z.div_pos; lia).
  rewrite Z.quot_div_nonneg by lia.
  pose proof (Z.div_mod d 2 ltac:(lia)). pose proof (Z.mod_pos_bound d 2 ltac:(lia)).
  pose proof (Z.div_mod (n + d / 2) d ltac:(lia)).
  pose proof (Z.mod_pos_bound (n + d / 2) d ltac:(lia)). lia.
Qed.

Lemma divideRoundNearest_nearest_witness : 2 * (3 * 4) <= 2 * 10 + 4 ∧ 2 * 10 < 2 * (3 * 4) + 4 + 1.
Proof. apply (divideRoundNearest_nearest 10 4 3); [lia|reflexivity]. Defined.
