(* ===== verification/JsNum.v ===== *)
(** JavaScript numbers that are not integers by construction (reading values,
    weights, ratios): IEEE 754 binary64, Rocq's primitive floats.  Comparison
    and arithmetic are the primitives; [Number.isFinite], [Math.max], [Math.min]
    and [Math.round] are defined here, and the order lemmas the sorting code
    needs are proved from the specification of the comparison. *)

From stdpp Require Import base list.
From Stdlib Require Import ZArith Lia Floats SpecFloat.
From S2P Require Import Prelude.

Abbreviation num := PrimFloat.float.

Definition isFinite (x : num) : bool := PrimFloat.is_finite x.

(** [a < b], [a <= b], [a > b], [a >= b], [a === b]; all false on NaN. *)
Definition nlt (a b : num) : bool := PrimFloat.ltb a b.
Definition nle (a b : num) : bool := PrimFloat.leb a b.
Definition ngt (a b : num) : bool := PrimFloat.ltb b a.
Definition nge (a b : num) : bool := PrimFloat.leb b a.
Definition neq (a b : num) : bool := PrimFloat.eqb a b.

(** [Math.max(a, b)] and [Math.min(a, b)]; NaN if either is NaN. *)
Definition nmax (a b : num) : num :=
  if PrimFloat.is_nan a then a else if PrimFloat.is_nan b then b
  else if nlt a b then b else if neq a b then (if PrimFloat.get_sign a then b else a) else a.
Definition nmin (a b : num) : num :=
  if PrimFloat.is_nan a then a else if PrimFloat.is_nan b then b
  else if nlt b a then b else if neq a b then (if PrimFloat.get_sign b then b else a) else a.

(** The integer [Math.round] rounds a finite number to: the integer nearest to
    it, halves upward, i.e. the floor of the number plus one half, computed
    exactly on the dyadic value. *)
Definition round_to_Z (x : num) : option Z :=
  match Prim2SF x with
  | S754_finite s m e =>
      let v := (if s then Z.neg m else Z.pos m) in
      Some (if (0 <=? e)%Z then (v * 2 ^ e)%Z else ((2 * v + 2 ^ (- e)) / 2 ^ (- e + 1))%Z)
  | S754_zero _ => Some 0%Z
  | _ => None
  end.

(** The number nearest to an integer. *)
Definition num_of_Z (z : Z) : num := SF2Prim (binary_normalize prec emax z 0 false).

Definition mathRound (x : num) : num :=
  match round_to_Z x with
  | None => x
  | Some 0%Z => if PrimFloat.get_sign x then PrimFloat.opp PrimFloat.zero else PrimFloat.zero
  | Some z => num_of_Z z
  end.

(** [Math.floor] of a finite number, computed exactly on its dyadic value. *)
Definition floor_to_Z (x : num) : option Z :=
  match Prim2SF x with
  | S754_finite s m e =>
      let v := (if s then Z.neg m else Z.pos m) in
      Some (if (0 <=? e)%Z then (v * 2 ^ e)%Z else (v / 2 ^ (- e))%Z)
  | S754_zero _ => Some 0%Z
  | _ => None
  end.

(** [Math.floor] as a number. *)
Definition mathFloor (x : num) : num :=
  match floor_to_Z x with
  | None => x
  | Some 0%Z => if PrimFloat.get_sign x then PrimFloat.opp PrimFloat.zero else PrimFloat.zero
  | Some z => num_of_Z z
  end.

(** ** Order lemmas *)

(** Non-NaN numbers are ordered lexicographically by class, exponent and
    mantissa. *)
Definition sf_key (f : spec_float) : Z * Z * Z :=
  match f with
  | S754_infinity true => (-2, 0, 0)
  | S754_finite true m e => (-1, - e, Z.neg m)
  | S754_zero _ | S754_nan => (0, 0, 0)
  | S754_finite false m e => (1, e, Z.pos m)
  | S754_infinity false => (2, 0, 0)
  end%Z.

Definition lex3 (a b : Z * Z * Z) : comparison :=
  let '(a1, a2, a3) := a in
  let '(b1, b2, b3) := b in
  match (a1 ?= b1)%Z with
  | Eq => match (a2 ?= b2)%Z with Eq => (a3 ?= b3)%Z | c => c end
  | c => c
  end.

Lemma SFcompare_key f g : f ≠ S754_nan -> g ≠ S754_nan -> SFcompare f g = Some (lex3 (sf_key f) (sf_key g)).
Proof.
  destruct f as [?|[]| |[] m e], g as [?|[]| |[] m' e']; simpl; try done; intros _ _; f_equal.
  - rewrite Z.compare_opp. destruct (e ?= e')%Z eqn:E; rewrite (Z.compare_antisym e e'), E; simpl; try done.
Qed.

Lemma lex3_refl a : lex3 a a = Eq.
Proof. destruct a as [[a b] c]; simpl. by rewrite !Z.compare_refl. Qed.

Lemma lex3_antisym a b : lex3 b a = CompOpp (lex3 a b).
Proof.
  destruct a as [[a1 a2] a3], b as [[b1 b2] b3]; simpl.
  rewrite (Z.compare_antisym a1 b1), (Z.compare_antisym a2 b2), (Z.compare_antisym a3 b3).
  by destruct (a1 ?= b1)%Z, (a2 ?= b2)%Z, (a3 ?= b3)%Z.
Qed.

Lemma lex3_le_trans a b c : lex3 a b ≠ Gt -> lex3 b c ≠ Gt -> lex3 a c ≠ Gt.
Proof.
  destruct a as [[a1 a2] a3], b as [[b1 b2] b3], c as [[c1 c2] c3]; simpl.
  destruct (Z.compare_spec a1 b1), (Z.compare_spec b1 c1), (Z.compare_spec a1 c1); try lia; try done;
  destruct (Z.compare_spec a2 b2), (Z.compare_spec b2 c2), (Z.compare_spec a2 c2); try lia; try done;
  destruct (Z.compare_spec a3 b3), (Z.compare_spec b3 c3), (Z.compare_spec a3 c3); try lia; try done.
Qed.

(** A number that equals itself is not NaN. *)
Definition notNaN (x : num) : Prop := Prim2SF x ≠ S754_nan.

Lemma isFinite_notNaN x : isFinite x = true -> notNaN x.
Proof.
  unfold isFinite, PrimFloat.is_finite, PrimFloat.is_nan, notNaN. rewrite eqb_spec.
  intros H E. rewrite E in H. done.
Qed.

Lemma nle_key x y : notNaN x -> notNaN y ->
  nle x y = match lex3 (sf_key (Prim2SF x)) (sf_key (Prim2SF y)) with Gt => false | _ => true end.
Proof.
  intros. unfold nle. rewrite leb_spec. unfold SFleb. rewrite SFcompare_key by done. by case_match.
Qed.

Lemma nlt_key x y : notNaN x -> notNaN y ->
  nlt x y = match lex3 (sf_key (Prim2SF x)) (sf_key (Prim2SF y)) with Lt => true | _ => false end.
Proof.
  intros. unfold nlt. rewrite ltb_spec. unfold SFltb. rewrite SFcompare_key by done. by case_match.
Qed.

Lemma nle_refl x : notNaN x -> nle x x = true.
Proof. intros. rewrite nle_key by done. by rewrite lex3_refl. Qed.

Lemma nle_total x y : notNaN x -> notNaN y -> nle x y = true \/ nle y x = true.
Proof.
  intros. rewrite !nle_key by done.
  rewrite (lex3_antisym (sf_key (Prim2SF x)) (sf_key (Prim2SF y))).
  destruct (lex3 _ _); auto.
Qed.

Lemma nle_trans x y z : notNaN x -> notNaN y -> notNaN z ->
  nle x y = true -> nle y z = true -> nle x z = true.
Proof.
  intros ???. rewrite !nle_key by done.
  pose proof (lex3_le_trans (sf_key (Prim2SF x)) (sf_key (Prim2SF y)) (sf_key (Prim2SF z))).
  repeat case_match; naive_solver.
Qed.

Lemma nlt_not_nle x y : notNaN x -> notNaN y -> nlt x y = negb (nle y x).
Proof.
  intros. rewrite nlt_key, nle_key by done.
  rewrite (lex3_antisym (sf_key (Prim2SF x)) (sf_key (Prim2SF y))). by destruct (lex3 _ _).
Qed.
