(* ===== verification/JsInt.v ===== *)
(** The 32-bit integer operators of JavaScript: ToInt32 and ToUint32 (ECMA-262
    7.1.6, 7.1.7), [^], [>>> 0] and [Math.imul], on the integers that are exact
    as numbers, with the facts that reduce them to arithmetic modulo 2^32. *)

From stdpp Require Import base list.
From Stdlib Require Import ZArith Lia.
From S2P Require Import Prelude.

#[local] Open Scope Z_scope.

Definition toUint32 (z : Z) : Z := z mod 2 ^ 32.
Definition toInt32 (z : Z) : Z :=
  let u := toUint32 z in if u <? 2 ^ 31 then u else u - 2 ^ 32.

(** [a ^ b], [a >>> 0], [Math.imul(a, b)]. *)
Definition bxor (a b : Z) : Z := Z.lxor (toInt32 a) (toInt32 b).
Definition ushr0 (a : Z) : Z := toUint32 a.
Definition imul (a b : Z) : Z := toInt32 (toUint32 a * toUint32 b).

Lemma toUint32_bounds z : 0 <= toUint32 z < 2 ^ 32.
Proof. apply Z.mod_pos_bound. lia. Qed.

Lemma toUint32_small z : 0 <= z < 2 ^ 32 -> toUint32 z = z.
Proof. apply Z.mod_small. Qed.

Lemma toInt32_bounds z : - 2 ^ 31 <= toInt32 z < 2 ^ 31.
Proof. unfold toInt32. pose proof (toUint32_bounds z). destruct (Z.ltb_spec (toUint32 z) (2 ^ 31)); lia. Qed.

Lemma toUint32_toInt32 z : toUint32 (toInt32 z) = toUint32 z.
Proof.
  unfold toInt32. pose proof (toUint32_bounds z) as Hb.
  destruct (_ <? _); [by apply toUint32_small|].
  unfold toUint32 at 1. rewrite <- (Z_mod_plus_full _ 1). rewrite Z.mul_1_l, Z.sub_add. by apply Z.mod_small.
Qed.

(** Exclusive or commutes with truncation to 32 bits. *)
Lemma toUint32_lxor a b : toUint32 (Z.lxor a b) = Z.lxor (toUint32 a) (toUint32 b).
Proof.
  unfold toUint32. rewrite <- !Z.land_ones by lia.
  apply Z.bits_inj'. intros n Hn. rewrite Z.lxor_spec, !Z.land_spec, Z.lxor_spec.
  by destruct (Z.testbit a n), (Z.testbit b n), (Z.testbit (Z.ones 32) n).
Qed.

Lemma toUint32_bxor a b : toUint32 (bxor a b) = Z.lxor (toUint32 a) (toUint32 b).
Proof. unfold bxor. by rewrite toUint32_lxor, !toUint32_toInt32. Qed.

Lemma ushr0_imul a b : ushr0 (imul a b) = (toUint32 a * toUint32 b) mod 2 ^ 32.
Proof. unfold ushr0, imul. by rewrite toUint32_toInt32. Qed.

#[export] Hint Resolve toUint32_bounds toInt32_bounds : refract.
