(* ===== verification/JsParse.v ===== *)
(** [Number(text)]: StringToNumber of ECMA-262 (7.1.4.1), with the decimal value
    rounded once, to the nearest binary64 number, ties to even. *)

From stdpp Require Import base list strings.
From Stdlib Require Import ZArith Lia Ascii Floats SpecFloat.
From S2P Require Import Prelude Decimal JsNum.

#[local] Open Scope Z_scope.

(** The number nearest to [p / q] for positive [p] and [q]: the quotient is
    computed to more than 64 bits and the remainder kept as a sticky bit, so the
    one rounding of [binary_normalize] is the rounding of the exact ratio. *)
Definition num_of_ratio (p q : Z) : num :=
  let s := Z.max 0 (66 + Z.log2 q - Z.log2 p) in
  let n := p * 2 ^ s in
  let m := 2 * (n / q) + (if n mod q =? 0 then 0 else 1) in
  SF2Prim (binary_normalize prec emax m (- (s + 1)) false).

(** The number nearest to [m * 10 ^ e]. *)
Definition num_of_decimal (m e : Z) : num :=
  if m =? 0 then PrimFloat.zero
  else if 0 <=? e then num_of_Z (m * 10 ^ e) else num_of_ratio m (10 ^ (- e)).

Definition is_sign (c : ascii) : bool := bool_decide (c = "+"%char) || bool_decide (c = "-"%char).

Definition drop_sign (s : text) : bool * text :=
  match s with
  | c :: r => if is_sign c then (bool_decide (c = "-"%char), r) else (false, s)
  | [] => (false, [])
  end.

(** The exponent part; [None] when what follows the digits is not one. *)
Definition exponent (s : text) : option Z :=
  match s with
  | [] => Some 0
  | c :: r =>
      if bool_decide (c = "e"%char) || bool_decide (c = "E"%char) then
        let '(neg, d) := drop_sign r in
        if all_digits d && negb (bool_decide (d = [])) then Some (if neg then - dec_val d else dec_val d) else None
      else None
  end.

(** An unsigned decimal literal. *)
Definition decimal_literal (s : text) : option num :=
  let '(w, r) := span_digits s in
  let '(f, r') := match r with c :: r1 => if bool_decide (c = c_dot) then span_digits r1 else ([], r) | [] => ([], []) end in
  if bool_decide (w ++ f = []) then None
  else e ← exponent r'; Some (num_of_decimal (dec_val (w ++ f)) (e - Z.of_nat (length f))).

Definition infinityText : text := String.list_ascii_of_string "Infinity".

(** [0x], [0o] and [0b] literals: radix and digit values. *)
Definition radix_digit (c : ascii) : option Z :=
  let n := Z.of_N (N_of_ascii c) in
  if (48 <=? n) && (n <=? 57) then Some (n - 48)
  else if (97 <=? n) && (n <=? 102) then Some (n - 87)
  else if (65 <=? n) && (n <=? 70) then Some (n - 55) else None.

Fixpoint radix_val (radix acc : Z) (s : text) : option Z :=
  match s with
  | [] => Some acc
  | c :: r => d ← radix_digit c; if d <? radix then radix_val radix (acc * radix + d) r else None
  end.

Definition radix_of (c : ascii) : option Z :=
  if bool_decide (c = "x"%char) || bool_decide (c = "X"%char) then Some 16
  else if bool_decide (c = "o"%char) || bool_decide (c = "O"%char) then Some 8
  else if bool_decide (c = "b"%char) || bool_decide (c = "B"%char) then Some 2 else None.

Definition radix_literal (s : text) : option num :=
  match s with
  | z :: c :: d :: r =>
      if bool_decide (z = c_zero) then r0 ← radix_of c; v ← radix_val r0 0 (d :: r); Some (num_of_Z v) else None
  | _ => None
  end.

Definition numberOfText (s0 : text) : num :=
  let s := trim s0 in
  if bool_decide (s = []) then PrimFloat.zero
  else match radix_literal s with
  | Some n => n
  | None =>
      let '(neg, r) := drop_sign s in
      let v := if bool_decide (r = infinityText) then Some PrimFloat.infinity else decimal_literal r in
      match v with
      | Some n => if neg then PrimFloat.opp n else n
      | None => PrimFloat.nan
      end
  end.

Definition toNumber (s : string) : num := numberOfText (String.list_ascii_of_string s).

Lemma toNumber_examples :
  toNumber "0.98" = 0x1.f5c28f5c28f5cp-1%float ∧ toNumber " -12.50 " = (-12.5)%float ∧
  toNumber "1e3" = 1000%float ∧ toNumber "" = 0%float ∧ toNumber "0x1F" = 31%float ∧
  toNumber "-Infinity" = neg_infinity ∧ toNumber "12abc" = nan ∧ toNumber "." = nan ∧
  toNumber "0.1" = 0x1.999999999999ap-4%float ∧ toNumber "9007199254740993" = 9007199254740992%float.
Proof. repeat split; vm_compute; reflexivity. Qed.
