(* ===== verification/JsRegex.v ===== *)
(** [RegExp.prototype.test] for the patterns of the source: regular expressions over
    ASCII characters, searched by derivatives.  [.] does not match a line break, and a
    case-insensitive pattern is a lower-case one tested on the lower-cased text. *)

From stdpp Require Import base list strings.
From Stdlib Require Import ZArith Ascii.
From S2P Require Import Prelude Decimal.

Inductive regex :=
| RNone | REps
| RChar (p : ascii -> bool)
| RSeq (a b : regex) | RAlt (a b : regex) | RStar (a : regex).

Fixpoint nullable (r : regex) : bool :=
  match r with
  | RNone | RChar _ => false
  | REps | RStar _ => true
  | RSeq a b => nullable a && nullable b
  | RAlt a b => nullable a || nullable b
  end.

Fixpoint deriv (c : ascii) (r : regex) : regex :=
  match r with
  | RNone | REps => RNone
  | RChar p => if p c then REps else RNone
  | RSeq a b => if nullable a then RAlt (RSeq (deriv c a) b) (deriv c b) else RSeq (deriv c a) b
  | RAlt a b => RAlt (deriv c a) (deriv c b)
  | RStar a => RSeq (deriv c a) (RStar a)
  end.

(** Some prefix of [s] matches. *)
Fixpoint matchesPrefix (r : regex) (s : text) : bool :=
  nullable r || match s with [] => false | c :: s' => matchesPrefix (deriv c r) s' end.

(** [r.test(s)]: some substring matches. *)
Fixpoint search (r : regex) (s : text) : bool :=
  matchesPrefix r s || match s with [] => false | _ :: s' => search r s' end.

Definition lowerAscii (c : ascii) : ascii :=
  let n := N_of_ascii c in if ((65 <=? n)%N && (n <=? 90)%N) then ascii_of_N (n + 32) else c.
Definition testIgnoringCase (r : regex) (s : string) : bool := search r (map lowerAscii (String.list_ascii_of_string s)).

Definition lit (s : string) : regex := foldr (fun c r => RSeq (RChar (fun d => bool_decide (c = d))) r) REps (String.list_ascii_of_string s).
Definition opt (r : regex) : regex := RAlt r REps.
Definition dot : regex := RChar (fun c => negb ((N_of_ascii c =? 10)%N || (N_of_ascii c =? 13)%N)).
Definition alts (l : list regex) : regex := foldr RAlt RNone l.

(** The language of an expression, and that the derivatives decide it. *)
Inductive matches : regex -> text -> Prop :=
| m_eps : matches REps []
| m_char p c : p c = true -> matches (RChar p) [c]
| m_seq a b s t : matches a s -> matches b t -> matches (RSeq a b) (s ++ t)
| m_left a b s : matches a s -> matches (RAlt a b) s
| m_right a b s : matches b s -> matches (RAlt a b) s
| m_nil a : matches (RStar a) []
| m_cons a s t : matches a s -> matches (RStar a) t -> matches (RStar a) (s ++ t).

Lemma nullable_matches r : nullable r = true <-> matches r [].
Proof.
  induction r; cbn; split; try (by intros H; inversion H); try (constructor; fail).
  - intros [Ha Hb]%andb_true_iff. rewrite <- (app_nil_l []). constructor; [by apply IHr1|by apply IHr2].
  - intros H. inversion H as [| |? ? s t Ha Hb E1 E2| | | |]; subst. apply app_eq_nil in E2 as [-> ->].
    apply andb_true_iff. split; [by apply IHr1|by apply IHr2].
  - intros [Ha|Hb]%orb_true_iff; [apply m_left, IHr1|apply m_right, IHr2]; done.
  - intros H. apply orb_true_iff. inversion H; subst; [left; by apply IHr1|right; by apply IHr2].
Qed.

Lemma star_cons a x s : matches (RStar a) (x :: s) -> ∃ s1 s2, s = s1 ++ s2 ∧ matches a (x :: s1) ∧ matches (RStar a) s2.
Proof.
  intros H. remember (RStar a) as r eqn:Er. remember (x :: s) as w eqn:Ew. revert x s Ew.
  induction H as [| | | | | |a' s t Ha _ Hs IH]; intros x w Ew; try discriminate. injection Er as ->.
  destruct s as [|c s]; [by apply IH|]. injection Ew as -> <-. by exists s, t.
Qed.

Lemma deriv_matches r c s : matches (deriv c r) s <-> matches r (c :: s).
Proof.
  revert s. induction r as [| |p|a IHa b IHb|a IHa b IHb|a IHa]; intros s; cbn.
  - split; intros H; inversion H.
  - split; intros H; inversion H.
  - destruct (p c) eqn:Ep; split; intros H; inversion H; subst; [by constructor|constructor|congruence].
  - split.
    + assert (matches (RSeq (deriv c a) b) s -> matches (RSeq a b) (c :: s)) as Hseq.
      { intros H. inversion H as [| |? ? s1 s2 H1 H2| | | |]; subst. apply IHa in H1. rewrite app_comm_cons. by constructor. }
      destruct (nullable a) eqn:En; [|exact Hseq]. intros H. inversion H; subst; [by apply Hseq|].
      rewrite <- (app_nil_l (c :: s)). constructor; [by apply nullable_matches|by apply IHb].
    + intros H. inversion H as [| |? ? s1 s2 H1 H2 E1 E2| | | |]; subst. destruct s1 as [|x s1]; cbn in E2.
      * subst s2. rewrite (proj2 (nullable_matches a)) by done. apply m_right. by apply IHb.
      * injection E2 as -> <-. apply IHa in H1. destruct (nullable a); [apply m_left|]; by constructor.
  - split; intros H; inversion H; subst; [apply m_left, IHa|apply m_right, IHb|apply m_left, IHa|apply m_right, IHb]; done.
  - split.
    + intros H. inversion H as [| |? ? s1 s2 H1 H2| | | |]; subst. rewrite app_comm_cons. constructor; [by apply IHa|done].
    + intros (s1 & s2 & -> & H1 & H2)%star_cons. constructor; [by apply IHa|done].
Qed.

Lemma matchesPrefix_spec s : forall r, matchesPrefix r s = true <-> ∃ s1 s2, s = s1 ++ s2 ∧ matches r s1.
Proof.
  induction s as [|c s IH]; intros r; cbn; rewrite orb_true_iff, nullable_matches.
  - split; [intros [H|]; [by exists [], []|done]|intros (s1 & s2 & E & H); symmetry in E; apply app_eq_nil in E as [-> ->]; by left].
  - rewrite IH. split.
    + intros [H|(s1 & s2 & -> & H)]; [by exists [], (c :: s)|]. exists (c :: s1), s2. split; [done|]. by apply deriv_matches.
    + intros (s1 & s2 & E & H). destruct s1 as [|x s1]; [by left|]. injection E as <- ->. right. exists s1, s2. split; [done|]. by apply deriv_matches.
Qed.

(** [search] finds a match exactly when the text has a matching substring. *)
Lemma search_spec r s : search r s = true <-> ∃ s1 s2 s3, s = s1 ++ s2 ++ s3 ∧ matches r s2.
Proof.
  induction s as [|c s IH]; cbn [search]; rewrite orb_true_iff, matchesPrefix_spec.
  - split; [intros [(s1 & s2 & E & H)|]; [by exists [], s1, s2|done]|]. intros (s1 & s2 & s3 & E & H). left. symmetry in E.
    apply app_eq_nil in E as [-> E]. by exists s2, s3.
  - rewrite IH. split.
    + intros [(s2 & s3 & E & H)|(s1 & s2 & s3 & -> & H)]; [by exists [], s2, s3|by exists (c :: s1), s2, s3].
    + intros (s1 & s2 & s3 & E & H). destruct s1 as [|x s1]; [left; by exists s2, s3|]. injection E as -> ->. right. by exists s1, s2, s3.
Qed.
