(* ===== verification/JsDate.v ===== *)
(** [Date.prototype.toISOString] on integer time values: proleptic Gregorian
    calendar, extended years outside 0..9999, RangeError beyond 100 million days
    of the epoch. *)

From stdpp Require Import base list strings.
From Stdlib Require Import ZArith Lia Ascii.
From S2P Require Import Prelude Decimal.

#[local] Open Scope Z_scope.

Definition MS_PER_DAY : Z := 86400000.
Definition MAX_TIME : Z := 8640000000000000.

(** Year, month (1..12) and day (1..31) of a day number; 400-year eras starting
    on 1 March of year 0. *)
Definition civilOfDays (days : Z) : Z * Z * Z :=
  let z := days + 719468 in
  let era := z / 146097 in
  let doe := z mod 146097 in
  let yoe := (doe - doe / 1460 + doe / 36524 - doe / 146096) / 365 in
  let doy := doe - (365 * yoe + yoe / 4 - yoe / 100) in
  let mp := (5 * doy + 2) / 153 in
  let d := doy - (153 * mp + 2) / 5 + 1 in
  let m := if mp <? 10 then mp + 3 else mp - 9 in
  (yoe + era * 400 + (if m <=? 2 then 1 else 0), m, d).

Definition digits (n : nat) (z : Z) : text := padStart n (z_text z).

Definition yearText (y : Z) : text :=
  if (0 <=? y) && (y <=? 9999) then digits 4 y
  else (if y <? 0 then "-"%char else "+"%char) :: digits 6 (Z.abs y).

Definition isoText (ms : Z) : text :=
  let '(y, mo, d) := civilOfDays (ms / MS_PER_DAY) in
  let r := ms mod MS_PER_DAY in
  (yearText y ++ ["-"%char] ++ digits 2 mo ++ ["-"%char] ++ digits 2 d ++ ["T"%char]
   ++ digits 2 (r / 3600000) ++ [":"%char] ++ digits 2 (r / 60000 mod 60) ++ [":"%char]
   ++ digits 2 (r / 1000 mod 60) ++ ["."%char] ++ digits 3 (r mod 1000) ++ ["Z"%char])%list.

Definition validTime (ms : Z) : bool := Z.abs ms <=? MAX_TIME.

Definition toISOString (ms : Z) : res string string :=
  if validTime ms then Ok (String.string_of_list_ascii (isoText ms)) else Err "Invalid time value".

(** Leap day and end of year. *)
Lemma toISOString_examples :
  toISOString 1709164800000 = Ok "2024-02-29T00:00:00.000Z" ∧
  toISOString 946684799999 = Ok "1999-12-31T23:59:59.999Z" ∧
  toISOString (-1) = Ok "1969-12-31T23:59:59.999Z".
Proof. repeat split; vm_compute; reflexivity. Qed.

Lemma toISOString_ok ms : validTime ms = true -> is_Some (match toISOString ms with Ok s => Some s | Err _ => None end).
Proof. unfold toISOString. intros ->. eauto. Qed.

(** * The text determines the instant *)

(** Day number of a civil date. *)
Definition daysOfCivil (ymd : Z * Z * Z) : Z :=
  let '(y0, m, d) := ymd in
  let y := y0 - (if m <=? 2 then 1 else 0) in
  let yoe := y mod 400 in
  let mp := if m <=? 2 then m + 9 else m - 3 in
  y / 400 * 146097 + (yoe * 365 + yoe / 4 - yoe / 100 + ((153 * mp + 2) / 5 + d - 1)) - 719468.

Lemma yearOfEra_bounds doe : 0 <= doe < 146097 ->
  0 <= (doe - doe / 1460 + doe / 36524 - doe / 146096) / 365 < 400.
Proof. intros. Z.to_euclidean_division_equations. lia. Qed.

Lemma dayOfYear_bounds doe : 0 <= doe < 146097 ->
  let yoe := (doe - doe / 1460 + doe / 36524 - doe / 146096) / 365 in
  0 <= doe - (365 * yoe + yoe / 4 - yoe / 100) <= 365.
Proof.
  intros Hd yoe. pose proof (yearOfEra_bounds doe Hd) as Hb. fold yoe in Hb.
  assert (doe / 36524 = 0 \/ doe / 36524 = 1 \/ doe / 36524 = 2 \/ doe / 36524 = 3 \/ doe / 36524 = 4) as H1
    by (Z.to_euclidean_division_equations; lia).
  assert (doe / 146096 = 0 \/ doe / 146096 = 1) as H2 by (Z.to_euclidean_division_equations; lia).
  assert (yoe / 100 = 0 \/ yoe / 100 = 1 \/ yoe / 100 = 2 \/ yoe / 100 = 3) as H3
    by (Z.to_euclidean_division_equations; lia).
  destruct H1 as [H1|[H1|[H1|[H1|H1]]]], H2 as [H2|H2], H3 as [H3|[H3|[H3|H3]]]; unfold yoe in *;
    rewrite ?H1, ?H2, ?H3 in *; Z.to_euclidean_division_equations; lia.
Qed.

(** A day of the year splits into a month counted from March and a day of month. *)
Lemma monthOfYear_bounds doy : 0 <= doy <= 365 ->
  let mp := (5 * doy + 2) / 153 in 0 <= mp <= 11 ∧ 1 <= doy - (153 * mp + 2) / 5 + 1 <= 31.
Proof.
  intros Hd mp. assert (0 <= mp <= 11) as Hm by (unfold mp; Z.to_euclidean_division_equations; lia). split; [done|].
  assert (153 * mp <= 5 * doy + 2 < 153 * mp + 153) by (unfold mp; Z.to_euclidean_division_equations; lia).
  assert (mp = 0 \/ mp = 1 \/ mp = 2 \/ mp = 3 \/ mp = 4 \/ mp = 5 \/ mp = 6 \/ mp = 7 \/ mp = 8 \/ mp = 9 \/ mp = 10 \/ mp = 11) as Hc by lia.
  repeat destruct Hc as [Hc|Hc]; rewrite Hc in *; Z.to_euclidean_division_equations; lia.
Qed.

Lemma civilOfDays_spec n : let '(y, m, d) := civilOfDays n in
  1 <= m <= 12 ∧ 1 <= d <= 31 ∧ Z.abs (400 * (n + 719468) - 146097 * y) <= 146097 * 402 ∧ daysOfCivil (y, m, d) = n.
Proof.
  unfold civilOfDays. set (z := n + 719468). set (era := z / 146097). set (doe := z mod 146097).
  assert (0 <= doe < 146097) as Hdoe by (apply Z.mod_pos_bound; lia).
  assert (z = 146097 * era + doe) as Hz by (apply Z.div_mod; lia).
  pose proof (yearOfEra_bounds doe Hdoe) as Hy. pose proof (dayOfYear_bounds doe Hdoe) as Hd. cbv zeta in Hd.
  set (yoe := (doe - doe / 1460 + doe / 36524 - doe / 146096) / 365) in *.
  set (doy := doe - (365 * yoe + yoe / 4 - yoe / 100)) in *.
  destruct (monthOfYear_bounds doy Hd) as [Hm Hday]. set (mp := (5 * doy + 2) / 153) in *.
  assert (forall b : Z, (yoe + era * 400 + b - b) / 400 = era ∧ (yoe + era * 400 + b - b) mod 400 = yoe) as Hera.
  { intros b. replace (yoe + era * 400 + b - b) with (yoe + era * 400) by lia.
    rewrite Z.div_add, Z.mod_add, Z.div_small, Z.mod_small by lia. lia. }
  assert ((mp < 10 ∧ (mp <? 10) = true ∧ (mp + 3 <=? 2) = false) \/ (10 <= mp ∧ (mp <? 10) = false ∧ (mp - 9 <=? 2) = true)) as Hcase by lia.
  unfold daysOfCivil.
  destruct Hcase as [(Hlt & E1 & E2)|(Hlt & E1 & E2)]; rewrite E1, E2;
    match goal with |- context [yoe + era * 400 + ?b] => destruct (Hera b) as [H1 H2] end; rewrite H1, H2;
    (split; [lia|split; [lia|split; [lia|]]]).
  - replace (mp + 3 - 3) with mp by lia. lia.
  - replace (mp - 9 + 9) with mp by lia. lia.
Qed.

Lemma digits_spec k n : (0 < k)%nat -> 0 <= n < 10 ^ Z.of_nat k ->
  length (digits k n) = k ∧ all_digits (digits k n) = true ∧ dec_val (digits k n) = n.
Proof.
  intros Hk Hn. unfold digits. rewrite z_text_nonneg by lia. destruct (nat_text_spec n ltac:(lia)) as (Hd & _ & Hv).
  split_and!; [by apply padStart_length, nat_text_length|by apply padStart_digits|by rewrite padStart_val].
Qed.

Lemma digits_length k n : (0 < k)%nat -> 0 <= n < 10 ^ Z.of_nat k -> length (digits k n) = k.
Proof. intros. by apply digits_spec. Qed.

Lemma digits_inj k n m r s : (0 < k)%nat -> 0 <= n < 10 ^ Z.of_nat k -> 0 <= m < 10 ^ Z.of_nat k ->
  digits k n ++ r = digits k m ++ s -> n = m ∧ r = s.
Proof.
  intros Hk Hn Hm E. destruct (digits_spec k n Hk Hn) as (L1 & _ & V1). destruct (digits_spec k m Hk Hm) as (L2 & _ & V2).
  apply app_inj_1 in E as [E ->]; [|congruence]. split; [congruence|done].
Qed.

(** [toISOString] years have four digits, or a sign and six. *)
Lemma yearText_spec y : Z.abs y < 10 ^ 6 ->
  (0 <= y <= 9999 ∧ yearText y = digits 4 y) \/
  (∃ c, yearText y = c :: digits 6 (Z.abs y) ∧ is_digit c = false ∧ (c = "-"%char <-> y < 0)).
Proof.
  intros Hy. unfold yearText. destruct ((0 <=? y) && (y <=? 9999)) eqn:E; [left; split; [lia|done]|right].
  destruct (Z.ltb_spec y 0); [exists "-"%char|exists "+"%char]; (split; [done|split; [done|split; [intros; done || lia|intros; done || lia]]]).
Qed.

Lemma digits_head k n : (0 < k)%nat -> 0 <= n < 10 ^ Z.of_nat k -> ∃ c r, digits k n = c :: r ∧ is_digit c = true.
Proof.
  intros Hk Hn. destruct (digits_spec k n Hk Hn) as (L & D & _). destruct (digits k n) as [|c r] eqn:E; [cbn in L; lia|].
  exists c, r. split; [done|]. cbn in D. by apply andb_true_iff in D as [-> _].
Qed.

Lemma yearText_inj y1 y2 r s : Z.abs y1 < 10 ^ 6 -> Z.abs y2 < 10 ^ 6 ->
  yearText y1 ++ r = yearText y2 ++ s -> y1 = y2 ∧ r = s.
Proof.
  intros H1 H2. destruct (yearText_spec y1 H1) as [[B1 ->]|(c1 & -> & D1 & S1)], (yearText_spec y2 H2) as [[B2 ->]|(c2 & -> & D2 & S2)]; intros E.
  - apply digits_inj in E; [done|lia|lia|lia].
  - destruct (digits_head 4 y1 ltac:(lia) ltac:(lia)) as (c & t & Eh & Hc). rewrite Eh in E. cbn in E. simplify_eq. congruence.
  - destruct (digits_head 4 y2 ltac:(lia) ltac:(lia)) as (c & t & Eh & Hc). rewrite Eh in E. cbn in E. simplify_eq. congruence.
  - rewrite <- !app_comm_cons in E. injection E as -> E. apply digits_inj in E as [E ->]; [|lia|lia|lia]. split; [|done].
    destruct (Z.ltb_spec y1 0), (Z.ltb_spec y2 0); try lia; exfalso; intuition (congruence || lia).
Qed.

(** The part of the text after the year: twenty characters. *)
Definition isoTail (ms : Z) : text :=
  let '(_, mo, d) := civilOfDays (ms / MS_PER_DAY) in
  let r := ms mod MS_PER_DAY in
  (["-"%char] ++ digits 2 mo ++ ["-"%char] ++ digits 2 d ++ ["T"%char]
   ++ digits 2 (r / 3600000) ++ [":"%char] ++ digits 2 (r / 60000 mod 60) ++ [":"%char]
   ++ digits 2 (r / 1000 mod 60) ++ ["."%char] ++ digits 3 (r mod 1000) ++ ["Z"%char])%list.

Lemma isoText_split ms : isoText ms = yearText (civilOfDays (ms / MS_PER_DAY)).1.1 ++ isoTail ms.
Proof. unfold isoText, isoTail. destruct (civilOfDays _) as [[y mo] d]. done. Qed.

Lemma timeOfDay_bounds ms : let r := ms mod MS_PER_DAY in
  0 <= r / 3600000 < 100 ∧ 0 <= r / 60000 mod 60 < 100 ∧ 0 <= r / 1000 mod 60 < 100 ∧ 0 <= r mod 1000 < 1000 ∧
  r = r / 3600000 * 3600000 + (r / 60000 mod 60) * 60000 + (r / 1000 mod 60) * 1000 + r mod 1000.
Proof. unfold MS_PER_DAY. cbv zeta. Z.to_euclidean_division_equations. lia. Qed.

Lemma isoTail_length ms : length (isoTail ms) = 20%nat.
Proof.
  unfold isoTail. pose proof (civilOfDays_spec (ms / MS_PER_DAY)) as Hc. destruct (civilOfDays _) as [[y mo] d].
  destruct Hc as (? & ? & _). destruct (timeOfDay_bounds ms) as (? & ? & ? & ? & _).
  rewrite !length_app, !digits_length by lia. done.
Qed.

Lemma validTime_year ms : validTime ms = true -> Z.abs (civilOfDays (ms / MS_PER_DAY)).1.1 < 10 ^ 6.
Proof.
  intros Hv%Z.leb_le. unfold MAX_TIME in Hv. pose proof (civilOfDays_spec (ms / MS_PER_DAY)) as Hc.
  destruct (civilOfDays _) as [[y mo] d]. destruct Hc as (_ & _ & Hy & _). cbn. unfold MS_PER_DAY in *.
  assert (-100000001 <= ms / 86400000 <= 100000001) by (Z.to_euclidean_division_equations; lia). lia.
Qed.

Lemma isoText_inj a b : validTime a = true -> validTime b = true -> isoText a = isoText b -> a = b.
Proof.
  intros Ha%validTime_year Hb%validTime_year. rewrite !isoText_split. intros [Ey Et]%yearText_inj; [|done|done].
  unfold isoTail in Et. pose proof (civilOfDays_spec (a / MS_PER_DAY)) as Ca. pose proof (civilOfDays_spec (b / MS_PER_DAY)) as Cb.
  destruct (civilOfDays (a / _)) as [[y1 m1] d1], (civilOfDays (b / _)) as [[y2 m2] d2]. cbn in Ey. subst y2.
  destruct Ca as (? & ? & _ & Da), Cb as (? & ? & _ & Db).
  destruct (timeOfDay_bounds a) as (? & ? & ? & ? & Ra), (timeOfDay_bounds b) as (? & ? & ? & ? & Rb).
  cbn [app] in Et.
  repeat match goal with
  | E : _ :: _ = _ :: _ |- _ => injection E as E
  | E : digits ?k _ ++ _ = digits ?k _ ++ _ |- _ => apply digits_inj in E as [? E]; [|lia|lia|lia]
  end.
  rewrite (Z.div_mod a MS_PER_DAY), (Z.div_mod b MS_PER_DAY) by done.
  assert (a / MS_PER_DAY = b / MS_PER_DAY) by congruence. lia.
Qed.

(** * Reading the text back *)

Definition takeDigits (k : nat) (s : text) : option (Z * text) :=
  if (length (take k s) =? k)%nat && all_digits (take k s) then Some (dec_val (take k s), drop k s) else None.
Definition expectChar (c : ascii) (s : text) : option text :=
  match s with c' :: r => if decide (c = c') then Some r else None | [] => None end.
Definition takeYear (s : text) : option (Z * text) :=
  match s with
  | c :: r =>
      if decide (c = "-"%char) then '(y, r') ← takeDigits 6 r; Some (- y, r')
      else if decide (c = "+"%char) then takeDigits 6 r else takeDigits 4 s
  | [] => None
  end.

(** [Date.parse] on the format that [toISOString] prints. *)
Definition parseIsoText (s : text) : option Z :=
  '(y, s) ← takeYear s; s ← expectChar "-" s; '(mo, s) ← takeDigits 2 s; s ← expectChar "-" s; '(d, s) ← takeDigits 2 s; s ← expectChar "T" s;
  '(h, s) ← takeDigits 2 s; s ← expectChar ":" s; '(mi, s) ← takeDigits 2 s; s ← expectChar ":" s; '(sec, s) ← takeDigits 2 s; s ← expectChar "." s;
  '(msec, s) ← takeDigits 3 s; s ← expectChar "Z" s;
  let ms := daysOfCivil (y, mo, d) * MS_PER_DAY + (h * 3600000 + mi * 60000 + sec * 1000 + msec) in
  if (length s =? 0)%nat && validTime ms && (1 <=? mo) && (mo <=? 12) && (1 <=? d) && (d <=? 31) && (h <=? 24) && (mi <=? 59) && (sec <=? 59)
  then Some ms else None.
Definition parseIso (s : string) : option Z := parseIsoText (String.list_ascii_of_string s).

Lemma takeDigits_digits k n r : (0 < k)%nat -> 0 <= n < 10 ^ Z.of_nat k -> takeDigits k (digits k n ++ r) = Some (n, r).
Proof.
  intros Hk Hn. destruct (digits_spec k n Hk Hn) as (L & D & V). unfold takeDigits.
  rewrite take_app_length', drop_app_length' by done. by rewrite L, D, V, Nat.eqb_refl.
Qed.

Lemma expectChar_cons c r : expectChar c (c :: r) = Some r.
Proof. cbn. by rewrite decide_True. Qed.

Lemma takeYear_yearText y r : Z.abs y < 10 ^ 6 -> takeYear (yearText y ++ r) = Some (y, r).
Proof.
  intros Hy. unfold yearText. destruct ((0 <=? y) && (y <=? 9999)) eqn:E.
  - destruct (digits_head 4 y ltac:(lia) ltac:(lia)) as (c & t & Eh & Hc). pose proof (takeDigits_digits 4 y r ltac:(lia) ltac:(lia)) as Ht.
    rewrite Eh in Ht |- *. cbn -[takeDigits] in Ht |- *. rewrite !decide_False; [done| |]; intros ->; done.
  - destruct (Z.ltb_spec y 0); cbn -[takeDigits]; rewrite takeDigits_digits by lia; cbn; do 2 f_equal; lia.
Qed.

Lemma parseIso_toISOString ms text : toISOString ms = Ok text -> parseIso text = Some ms.
Proof.
  unfold toISOString. destruct (validTime ms) eqn:Hv; [|done]. intros [= <-]. unfold parseIso. rewrite String.list_ascii_of_string_of_list_ascii.
  unfold parseIsoText. rewrite isoText_split, takeYear_yearText by (by apply validTime_year). unfold isoTail.
  pose proof (civilOfDays_spec (ms / MS_PER_DAY)) as Hc. destruct (civilOfDays _) as [[y mo] d]. destruct Hc as (Hmo & Hd & _ & Hday).
  destruct (timeOfDay_bounds ms) as (? & ? & ? & ? & Hr). cbv zeta in Hr.
  assert (0 <= ms mod MS_PER_DAY < MS_PER_DAY) as Hb by (apply Z.mod_pos_bound; done). unfold MS_PER_DAY in Hb at 3.
  cbn [app mbind option_bind].
  do 6 (rewrite expectChar_cons; cbn [mbind option_bind]; rewrite takeDigits_digits by lia; cbn [mbind option_bind]).
  rewrite expectChar_cons. cbn [mbind option_bind].
  cbn [fst]. rewrite Hday, <- Hr. rewrite (Z.mul_comm (ms / MS_PER_DAY)), <- Z.div_mod by done. rewrite Hv.
  replace (_ && _) with true; [done|]. symmetry. rewrite !andb_true_iff, !Z.leb_le, Nat.eqb_eq. cbn. split_and!; try lia.
  all: Z.to_euclidean_division_equations; lia.
Qed.

Lemma parseIso_examples :
  parseIso "2024-02-29T00:00:00.000Z" = Some 1709164800000 ∧ parseIso "-000001-01-01T00:00:00.000Z" = Some (-62198755200000)
  ∧ parseIso "2024-02-29T00:00:00.000+99:99" = None ∧ parseIso "soon" = None.
Proof. repeat split; vm_compute; reflexivity. Qed.
