(* ===== verification/Canonical.v ===== *)
(** Canonical JSON (src/oracle/consensus/canonical.ts) and the host functions
    the consensus layer takes from its runtime.

    A JSON value is [json]; an object is its list of own properties in creation
    order, [JUndef] is [undefined].  [normalise] and [stringify] follow the code
    and ECMAScript's serialisation; Number-to-text conversion, SHA-256 and the
    locale's collation are the class [JsHost]. *)

From stdpp Require Import base list strings sorting sets.
From Stdlib Require Import ZArith Lia Ascii.
From S2P Require Import Prelude Decimal JsNum.

(** What the runtime supplies: [a.localeCompare(b) <= 0], [`${n}`] on numbers
    and the hexadecimal SHA-256 digest. *)
Class JsHost := {
  localeLe : string -> string -> bool;
  numToString : num -> string;
  sha256Hex : string -> string;
}.

(** A host for evaluating examples: code-unit collation, integers printed,
    and an identity digest. *)
Definition demoHost : JsHost := {|
  localeLe := string_leb;
  numToString n := match round_to_Z n with Some z => String.string_of_list_ascii (z_text z) | None => "NaN" end;
  sha256Hex s := s |}.

(** Collation is a total preorder (ECMA-262: a consistent comparison function). *)
Class LocaleOrder `{JsHost} : Prop := {
  locale_total : le_total localeLe;
  locale_trans : le_trans localeLe;
}.

#[global] Instance demoHost_order : @LocaleOrder demoHost.
Proof. split; [apply string_leb_total|apply string_leb_trans]. Qed.

(** Template interpolation of an integer. *)
Definition showZ (z : Z) : string := String.string_of_list_ascii (z_text z).

Inductive json : Type :=
| JUndef
| JNull
| JBool (b : bool)
| JNum (n : num)
| JBig (z : Z)
| JStr (s : string)
| JArr (l : list json)
| JObj (l : list (string * json)).

Definition isUndef (v : json) : bool := match v with JUndef => true | _ => false end.

(** [Error("canonicalJson: non-finite number")]. *)
Record NonFinite := mkNonFinite { nf_value : num }.

Definition keyLe {A} (a b : string * A) : bool := string_leb a.1 b.1.

(** Runs the entries in order, stopping at the first error. *)
Fixpoint collect {E A B} (f : A -> res E B) (l : list A) : res E (list B) :=
  match l with
  | [] => Ok []
  | x :: l' => y ← f x; ys ← collect f l'; Ok (y :: ys)
  end.

Definition normalEntry (kv : string * (bool * res NonFinite json)) : res NonFinite (string * json) :=
  v ← kv.2.2; Ok (kv.1, v).

Fixpoint normalise (value : json) : res NonFinite json :=
  match value with
  | JNum n => if isFinite n then Ok (JNum n) else Err (mkNonFinite n)
  | JBig z => Ok (JStr (showZ z))
  | JArr l =>
      ys ← collect (fun r => r) (map (fun v => if isUndef v then Ok JNull else normalise v) l);
      Ok (JArr ys)
  | JObj l =>
      let entries := sort_by keyLe (map (fun kv => (kv.1, (isUndef kv.2, normalise kv.2))) l) in
      ys ← collect normalEntry (filter (fun kv => kv.2.1 = false) entries);
      Ok (JObj ys)
  | v => Ok v
  end.

(** An array index: the canonical text of an integer below 2^32 - 1.  Such keys
    are enumerated first, in ascending order. *)
Definition arrayIndex (k : string) : option Z :=
  let t := String.list_ascii_of_string k in
  if forallb is_digit t && negb (bool_decide (t = [])) then
    let z := dec_val t in
    if bool_decide (z_text z = t) && (z <? 2 ^ 32 - 1)%Z then Some z else None
  else None.

Definition indexLe {A} (a b : string * A) : bool :=
  match arrayIndex a.1, arrayIndex b.1 with
  | Some i, Some j => (i <=? j)%Z
  | _, _ => true
  end.

Definition ownProperties {A} (l : list (string * A)) : list (string * A) :=
  sort_by indexLe (filter (fun kv => is_Some (arrayIndex kv.1)) l)
  ++ filter (fun kv => ¬ is_Some (arrayIndex kv.1)) l.

Definition hexDigit (n : nat) : ascii := ascii_of_nat (if (n <? 10)%nat then 48 + n else 87 + n).
Definition quoteChar : ascii := ascii_of_nat 34.
Definition backslash : ascii := ascii_of_nat 92.

Definition escapeChar (c : ascii) : list ascii :=
  match nat_of_ascii c with
  | 8 => [backslash; "b"%char] | 9 => [backslash; "t"%char] | 10 => [backslash; "n"%char]
  | 12 => [backslash; "f"%char] | 13 => [backslash; "r"%char]
  | 34 => [backslash; quoteChar] | 92 => [backslash; backslash]
  | n => if (n <? 32)%nat
         then [backslash; "u"%char; "0"%char; "0"%char; hexDigit (n / 16); hexDigit (n mod 16)]
         else [c]
  end%nat.

Definition quoted (s : string) : string :=
  String.string_of_list_ascii
    (quoteChar :: flat_map escapeChar (String.list_ascii_of_string s) ++ [quoteChar]).

Fixpoint joinWith (sep : string) (l : list string) : string :=
  match l with
  | [] => ""
  | [x] => x
  | x :: l' => x +:+ sep +:+ joinWith sep l'
  end.

(** [s.slice(0, n)] *)
Definition sliceTo (n : nat) (s : string) : string :=
  String.string_of_list_ascii (take n (String.list_ascii_of_string s)).

Section Serialise.
Context `{JsHost}.

(** [JSON.stringify]; [None] for [undefined]. *)
Fixpoint stringify (v : json) : option string :=
  match v with
  | JUndef => None
  | JNull => Some "null"
  | JBool b => Some (if b then "true" else "false")
  | JNum n => Some (if isFinite n then numToString n else "null")
  | JBig z => None
  | JStr s => Some (quoted s)
  | JArr l => Some ("[" +:+ joinWith "," (map (fun x => default "null" (stringify x)) l) +:+ "]")
  | JObj l =>
      let fields := map (fun kv => (kv.1, stringify kv.2)) l in
      Some ("{" +:+ joinWith ","
        (omap (fun kv => s ← kv.2; Some (quoted kv.1 +:+ ":" +:+ s)) (ownProperties fields)) +:+ "}")
  end.

Definition canonicalJson (value : json) : res NonFinite (option string) :=
  v ← normalise value; Ok (stringify v).
End Serialise.

(** ** Cosmetic differences *)

(** Two values that differ only in the order in which object properties were
    created, and in properties whose value is [undefined]; property names of an
    object are distinct. *)
Inductive sameValue : json -> json -> Prop :=
| sv_refl v : sameValue v v
| sv_arr l1 l2 : Forall2 sameValue l1 l2 -> sameValue (JArr l1) (JArr l2)
| sv_obj l1 l2 l1' :
    NoDup l1.*1 -> NoDup l2.*1 ->
    filter (fun kv => isUndef kv.2 = false) l1 ≡ₚ l1' ->
    Forall2 (fun a b => a.1 = b.1 ∧ sameValue a.2 b.2) l1' (filter (fun kv => isUndef kv.2 = false) l2) ->
    sameValue (JObj l1) (JObj l2).

Lemma keyLe_total {A} : le_total (@keyLe A).
Proof. intros x y. apply string_leb_total. Qed.

Lemma keyLe_trans {A} : le_trans (@keyLe A).
Proof. intros x y z. apply string_leb_trans. Qed.

Lemma sameValue_undef a b : sameValue a b -> isUndef a = isUndef b.
Proof. by destruct 1. Qed.

(** Entries with distinct names are put in one order by the sort. *)
Lemma sorted_entries_eq {A} (l1 l2 : list (string * A)) :
  NoDup l1.*1 -> StronglySorted (fun a b => keyLe a b = true) l1 ->
  StronglySorted (fun a b => keyLe a b = true) l2 -> l1 ≡ₚ l2 -> l1 = l2.
Proof.
  intros Hd. apply sorted_perm_unique_on. intros [k1 v1] [k2 v2] H1 H2 Ha Hb.
  assert (k1 = k2) as -> by (by apply string_leb_antisym).
  f_equal. apply (jm_in_get _ _ _ Hd) in H1, H2. congruence.
Qed.

(** The normalised entries of an object, before errors are raised. *)
Definition entriesOf (l : list (string * json)) : list (string * (bool * res NonFinite json)) :=
  filter (fun kv => kv.2.1 = false)
    (sort_by keyLe (map (fun kv => (kv.1, (isUndef kv.2, normalise kv.2))) l)).

Lemma entriesOf_perm l :
  entriesOf l ≡ₚ map (fun kv => (kv.1, (isUndef kv.2, normalise kv.2)))
                   (filter (fun kv => isUndef kv.2 = false) l).
Proof.
  unfold entriesOf. rewrite sort_by_perm.
  by rewrite (filter_map_comm _ _ (fun kv : string * json => isUndef kv.2 = false)).
Qed.

Lemma entriesOf_sorted l : StronglySorted (fun a b => keyLe a b = true) (entriesOf l).
Proof. apply StronglySorted_filter, sort_by_sorted; [apply keyLe_total|apply keyLe_trans]. Qed.

Lemma NoDup_keys_filter {A} (P : string * A -> Prop) `{forall x, Decision (P x)} (l : list (string * A)) :
  NoDup l.*1 -> NoDup (filter P l).*1.
Proof. intros Hd. eapply sublist_NoDup; [exact Hd|]. apply fmap_sublist, sublist_filter. Qed.

Lemma entriesOf_NoDup l : NoDup l.*1 -> NoDup (entriesOf l).*1.
Proof.
  intros Hd. unfold entriesOf. apply NoDup_keys_filter.
  rewrite sort_by_perm. by rewrite <- list_fmap_compose.
Qed.

Fixpoint sameValue_normalise (a b : json) (H : sameValue a b) {struct H} : normalise a = normalise b.
Proof.
  destruct H as [v|l1 l2 H|l1 l2 l1' H1 H2 Hp H].
  - done.
  - simpl. f_equal. f_equal.
    revert l1 l2 H. fix rec 3. intros l1 l2 [|x y l1' l2' Hxy H]; [done|].
    simpl. f_equal; [|by apply rec].
    rewrite (sameValue_undef x y Hxy). destruct (isUndef y); [done|]. by apply sameValue_normalise.
  - change (normalise (JObj l1)) with (ys ← collect normalEntry (entriesOf l1); Ok (JObj ys)).
    change (normalise (JObj l2)) with (ys ← collect normalEntry (entriesOf l2); Ok (JObj ys)).
    assert (entriesOf l1 = entriesOf l2) as ->; [|done].
    apply sorted_entries_eq; auto using entriesOf_NoDup, entriesOf_sorted.
    rewrite !entriesOf_perm, Hp.
    match goal with |- ?x ≡ₚ ?y => assert (x = y) as ->; [|done] end.
    clear Hp H1 H2. revert l1' H. generalize (filter (fun kv : string * json => isUndef kv.2 = false) l2).
    intros l2' l1' H. revert l1' l2' H. fix rec 3.
    intros l1' l2' [|[k1 x] [k2 y] l1'' l2'' [Hk Hxy] H]; [done|].
    simpl in *. subst. f_equal; [|by apply rec].
    by rewrite (sameValue_undef x y Hxy), (sameValue_normalise x y Hxy).
Qed.

(** "two payloads that differ only cosmetically serialise to the same
    string": canonical JSON does not depend, at any depth, on the creation order
    of object properties or on properties that are [undefined], nor does the
    non-finite-number error. *)
Theorem canonicalJson_cosmetic `{JsHost} (a b : json) (Hab : sameValue a b) :
  canonicalJson a = canonicalJson b.
Proof. unfold canonicalJson. by rewrite (sameValue_normalise a b Hab). Qed.

Lemma canonicalJson_cosmetic_witness :
  @canonicalJson demoHost (JObj [("b", JNull); ("u", JUndef); ("a", JArr [JStr "x"])])
  = @canonicalJson demoHost (JObj [("a", JArr [JStr "x"]); ("b", JNull)]).
Proof.
  apply (@canonicalJson_cosmetic demoHost).
  apply (sv_obj _ _ [("a", JArr [JStr "x"]); ("b", JNull)]).
  - repeat constructor; set_solver.
  - repeat constructor; set_solver.
  - apply Permutation_swap.
  - repeat constructor.
Defined.
