(* ===== verification/Consensus.v ===== *)
(** Multi-source consensus over one round of observations
    (src/oracle/consensus/consensus.ts), the module whose decisions are encoded
    on chain (file Encoding).

    Values, weights, times and policy bounds are binary64 numbers, so every
    guard behaves as in the source on NaN and infinities; an observation has the
    fields of its interface at their declared types, which discharges the
    [typeof] tests.  [now] is a parameter, as in the source. *)

From stdpp Require Import base list strings sorting sets list_tactics.
From Stdlib Require Import ZArith Lia Floats SpecFloat.
From S2P Require Import Prelude Decimal JsNum Canonical.

(** * Data *)

Record SourceObservation := mkObservation {
  so_sourceId : string; so_value : num; so_weight : num; so_observedAt : num }.

Record ConsensusPolicy := mkConsensusPolicy {
  cp_quorumRatio : num; cp_minAgreeingSources : num; cp_maxDeviationRatio : num;
  cp_absoluteDeviationFloor : num; cp_maxStalenessMs : num; cp_maxFutureSkewMs : num }.

Definition DEFAULT_CONSENSUS_POLICY : ConsensusPolicy :=
  mkConsensusPolicy (2 / 3) 2 0x1.47ae147ae147bp-6 0 300000 30000.

Inductive TrustTier := Unverified | SingleSource | Corroborated | Unanimous.
Definition tierCode (t : TrustTier) : Z :=
  match t with Unverified => 0 | SingleSource => 1 | Corroborated => 2 | Unanimous => 3 end.

Inductive RoundStatus := Agreed | NoValidSources | InsufficientSources | NoQuorum.
#[global] Instance RoundStatus_eq_dec : EqDecision RoundStatus. Proof. solve_decision. Defined.
#[global] Instance TrustTier_eq_dec : EqDecision TrustTier. Proof. solve_decision. Defined.

Definition roundStatusText (s : RoundStatus) : string :=
  match s with
  | Agreed => "agreed" | NoValidSources => "no_valid_sources"
  | InsufficientSources => "insufficient_sources" | NoQuorum => "no_quorum"
  end.

Record RoundDecision := mkRound {
  rd_status : RoundStatus; rd_value : option num; rd_trustTier : TrustTier; rd_decisionId : string;
  rd_center : option num; rd_agreeingSources : list string; rd_outlierSources : list string;
  rd_staleSources : list string; rd_invalidSources : list string; rd_agreeingWeight : num;
  rd_totalWeight : num; rd_sourceTimestamp : option num; rd_evaluatedAt : num }.

(** * Operations *)

(** [Number.isInteger]: finite and without a fractional part. *)
Definition isInteger (x : num) : bool :=
  match Prim2SF x with
  | S754_zero _ => true
  | S754_finite _ m e => (0 <=? e)%Z || (Z.pos m mod 2 ^ (- e) =? 0)%Z
  | _ => false
  end.

Section Consensus.
Context `{JsHost}.

(** The comparator of the sort: [a - b <= 0]. *)
Definition ascending (a b : num) : bool := nle (a - b)%float 0%float.

Definition median (values : list num) : res string num :=
  match values with
  | [] => Err "median() of an empty list"
  | _ =>
      match list_find (fun v => isFinite v = false) values with
      | Some (_, v) => Err ("median() requires finite numbers, got " +:+ numToString v)
      | None =>
          let sorted := sort_by ascending values in
          let mid := (length sorted / 2)%nat in
          if (length sorted mod 2 =? 1)%nat then Ok (nth mid sorted nan)
          else
            let lo := nth (mid - 1) sorted nan in
            let hi := nth mid sorted nan in
            let sum := (lo + hi)%float in
            Ok (if isFinite sum then sum / 2 else lo / 2 + hi / 2)%float
      end
  end.

Definition deviationTolerance (center : num) (policy : ConsensusPolicy) : num :=
  nmax (cp_maxDeviationRatio policy * abs center)%float (cp_absoluteDeviationFloor policy).

Definition isAnomalous (value center : num) (policy : ConsensusPolicy) : bool :=
  ngt (abs (value - center))%float (deviationTolerance center policy).

Definition meetsQuorum (agreeingWeight totalWeight quorumRatio : num) : bool :=
  if negb (ngt totalWeight 0) || negb (isFinite totalWeight) || negb (nge agreeingWeight 0) then false
  else nge (agreeingWeight / totalWeight)%float quorumRatio.

Definition nonNegative (x : num) : bool := isFinite x && nge x 0.

Definition policyProblems (policy : ConsensusPolicy) : list string :=
  (if negb (ngt (cp_quorumRatio policy) 0 && nle (cp_quorumRatio policy) 1) then ["quorumRatio must be in (0, 1]"] else []) ++
  (if negb (isInteger (cp_minAgreeingSources policy)) || nlt (cp_minAgreeingSources policy) 1
   then ["minAgreeingSources must be an integer >= 1"] else []) ++
  (if negb (nonNegative (cp_maxDeviationRatio policy)) then ["maxDeviationRatio must be finite and >= 0"] else []) ++
  (if negb (nonNegative (cp_absoluteDeviationFloor policy)) then ["absoluteDeviationFloor must be finite and >= 0"] else []) ++
  (if negb (nonNegative (cp_maxStalenessMs policy)) then ["maxStalenessMs must be finite and >= 0"] else []) ++
  (if negb (nonNegative (cp_maxFutureSkewMs policy)) then ["maxFutureSkewMs must be finite and >= 0"] else []).

Definition validateConsensusPolicy (policy : ConsensusPolicy) : res string unit :=
  match policyProblems policy with
  | [] => Ok tt
  | problems => Err ("Invalid consensus policy: " +:+ joinWith "; " problems)
  end.

Definition isUsableWeight (w : num) : bool := nonNegative w.

(** [bySource]: the copies of each source id, in order of first appearance. *)
Definition groupStep (m : list (string * list SourceObservation)) (obs : SourceObservation) :=
  match jm_get m (so_sourceId obs) with
  | Some copies => jm_set m (so_sourceId obs) (copies ++ [obs])
  | None => jm_set m (so_sourceId obs) [obs]
  end.
Definition groupBySource (observations : list SourceObservation) : list (string * list SourceObservation) :=
  foldl groupStep [] observations.

Definition wellFormed (policy : ConsensusPolicy) (now : num) (obs : SourceObservation) : bool :=
  negb (bool_decide (so_sourceId obs = "")) && isFinite (so_value obs) && isUsableWeight (so_weight obs) &&
  isFinite (so_observedAt obs) && nle (so_observedAt obs) (now + cp_maxFutureSkewMs policy)%float.

Definition isStale (policy : ConsensusPolicy) (now : num) (obs : SourceObservation) : bool :=
  ngt (now - so_observedAt obs)%float (cp_maxStalenessMs policy).

Record Screening := mkScreening {
  scr_invalid : list string; scr_stale : list string; scr_fresh : list SourceObservation; scr_totalWeight : num }.

(** The body of the screening loop. *)
Definition screenStep (policy : ConsensusPolicy) (now : num) (acc : Screening) (entry : string * list SourceObservation) : Screening :=
  let '(id, copies) := entry in
  let usableWeights := filter (fun w => isUsableWeight w = true) (map so_weight copies) in
  let total := match usableWeights with
    | [] => scr_totalWeight acc
    | _ => (scr_totalWeight acc + foldl nmax neg_infinity usableWeights)%float end in
  match copies with
  | [obs] =>
      if negb (wellFormed policy now obs) then mkScreening (scr_invalid acc ++ [id]) (scr_stale acc) (scr_fresh acc) total
      else if isStale policy now obs then mkScreening (scr_invalid acc) (scr_stale acc ++ [id]) (scr_fresh acc) total
      else mkScreening (scr_invalid acc) (scr_stale acc) (scr_fresh acc ++ [obs]) total
  | _ => mkScreening (scr_invalid acc ++ [id]) (scr_stale acc) (scr_fresh acc) total
  end.

Definition screen (policy : ConsensusPolicy) (now : num) (groups : list (string * list SourceObservation)) : Screening :=
  foldl (screenStep policy now) (mkScreening [] [] [] 0%float) groups.

(** [String(x)] of a nullable number. *)
Definition showOptNum (x : option num) : string := match x with Some n => numToString n | None => "null" end.

Definition computeDecisionId (observations : list SourceObservation) (policy : ConsensusPolicy)
    (status : RoundStatus) (value : option num) (evaluatedAt : num) : string :=
  let rows := sort_strings (map (fun o => joinWith "|" [so_sourceId o; numToString (so_value o);
                                           numToString (so_weight o); numToString (so_observedAt o)]) observations) in
  let canonical := stringify (JObj
    [("v", JNum 1%float); ("rows", JArr (map JStr rows));
     ("policy", JArr (map (fun n => JStr (numToString n))
        [cp_quorumRatio policy; cp_minAgreeingSources policy; cp_maxDeviationRatio policy;
         cp_absoluteDeviationFloor policy; cp_maxStalenessMs policy; cp_maxFutureSkewMs policy]));
     ("status", JStr (roundStatusText status)); ("value", JStr (showOptNum value)); ("at", JStr (numToString evaluatedAt))]) in
  sliceTo 16 (sha256Hex (default "" canonical)).

Definition trustTierOf (agreeing outliers stale invalid : nat) : TrustTier :=
  if (agreeing =? 1)%nat then SingleSource
  else if (3 <=? agreeing)%nat && (outliers =? 0)%nat && (stale =? 0)%nat && (invalid =? 0)%nat then Unanimous
  else Corroborated.

Definition sumWeight (l : list SourceObservation) : num := foldl (fun sum o => (sum + so_weight o)%float) 0%float l.

Definition evaluateConsensus (observations : list SourceObservation) (policy : ConsensusPolicy) (now : num) : res string RoundDecision :=
  _ ← validateConsensusPolicy policy;
  if negb (isFinite now) then Err ("evaluateConsensus() requires a finite 'now', got " +:+ numToString now) else
  let scr := screen policy now (groupBySource observations) in
  let fresh := scr_fresh scr in
  let finalize status value tier center agreeing outliers weight ts :=
    Ok (mkRound status value tier (computeDecisionId observations policy status value now) center agreeing outliers
          (sort_strings (scr_stale scr)) (sort_strings (scr_invalid scr)) weight (scr_totalWeight scr) ts now) in
  match fresh with
  | [] => finalize NoValidSources None Unverified None [] [] 0%float None
  | _ =>
      center ← median (map so_value fresh);
      let agreeing := filter (fun o => isAnomalous (so_value o) center policy = false) fresh in
      let outliers := filter (fun o => isAnomalous (so_value o) center policy = true) fresh in
      let agreeingWeight := sumWeight agreeing in
      let agreeingIds := sort_strings (map so_sourceId agreeing) in
      let outlierIds := sort_strings (map so_sourceId outliers) in
      let refuse status := finalize status None Unverified (Some center) agreeingIds outlierIds agreeingWeight None in
      if nlt (num_of_Z (Z.of_nat (length agreeing))) (cp_minAgreeingSources policy) then refuse InsufficientSources
      else if negb (meetsQuorum agreeingWeight (scr_totalWeight scr) (cp_quorumRatio policy)) then refuse NoQuorum
      else
        value ← median (map so_value agreeing);
        finalize Agreed (Some value)
          (trustTierOf (length agreeing) (length outliers) (length (scr_stale scr)) (length (scr_invalid scr)))
          (Some center) agreeingIds outlierIds agreeingWeight
          (Some (foldl nmin infinity (map so_observedAt agreeing)))
  end.
End Consensus.

(** * Grouping and screening *)

Definition copiesOf (id : string) (observations : list SourceObservation) : list SourceObservation :=
  filter (fun o => so_sourceId o = id) observations.

Lemma groupBySource_get obs id :
  jm_get (groupBySource obs) id = match copiesOf id obs with [] => None | l => Some l end.
Proof.
  unfold groupBySource, copiesOf. revert id. induction obs as [|o obs IH] using rev_ind; intros id; [done|].
  rewrite foldl_app, filter_app. simpl. unfold groupStep at 1. rewrite filter_cons, filter_nil.
  specialize (IH (so_sourceId o)) as IHo. rewrite IHo.
  destruct (filter (fun x => so_sourceId x = so_sourceId o) obs) as [|c cs] eqn:Ef; rewrite jm_get_set;
    case_decide as E; subst; rewrite ?Ef, ?IH, ?app_nil_r; done.
Qed.

Lemma groupBySource_NoDup obs : NoDup (jm_keys (groupBySource obs)).
Proof.
  unfold groupBySource. induction obs as [|o obs IH] using rev_ind; [constructor|].
  rewrite foldl_app. simpl. unfold groupStep at 1. case_match; by apply jm_set_NoDup.
Qed.

Lemma groupBySource_keys obs : jm_keys (groupBySource obs) ≡ₚ remove_dups (map so_sourceId obs).
Proof.
  apply NoDup_Permutation; [apply groupBySource_NoDup|apply NoDup_remove_dups|].
  intros id. rewrite elem_of_remove_dups.
  destruct (jm_get (groupBySource obs) id) as [l|] eqn:E.
  - rewrite groupBySource_get in E.
    assert (id ∈ jm_keys (groupBySource obs)) as Hin.
    { destruct (decide (id ∈ jm_keys (groupBySource obs))) as [|Hn]; [done|].
      apply jm_get_None_notin in Hn. rewrite groupBySource_get, E in Hn. done. }
    split; [intros _|done]. destruct (copiesOf id obs) as [|o os] eqn:Ec; [done|].
    assert (o ∈ copiesOf id obs) as [Ho Hob]%list_elem_of_filter by (rewrite Ec; by left).
    apply list_elem_of_fmap. eauto.
  - pose proof E as En%jm_get_None_notin. rewrite groupBySource_get in E. split; [done|].
    intros (o & -> & Ho)%list_elem_of_fmap. exfalso.
    assert (o ∈ copiesOf (so_sourceId o) obs) as Hin by (by apply list_elem_of_filter).
    destruct (copiesOf (so_sourceId o) obs); [by apply not_elem_of_nil in Hin|done].
Qed.

(** A fresh observation is its source's only copy, well formed and not stale. *)
Definition isFresh (policy : ConsensusPolicy) (now : num) (o : SourceObservation) : Prop :=
  wellFormed policy now o = true ∧ isStale policy now o = false.

Lemma screen_snoc policy now es e : screen policy now (es ++ [e]) = screenStep policy now (screen policy now es) e.
Proof. unfold screen. by rewrite foldl_app. Qed.

Lemma screen_fresh policy now es o : o ∈ scr_fresh (screen policy now es) ->
  isFresh policy now o ∧ ∃ id, (id, [o]) ∈ es.
Proof.
  induction es as [|[id copies] es IH] using rev_ind; [by intros ?%not_elem_of_nil|].
  rewrite screen_snoc. unfold screenStep.
  assert (o ∈ scr_fresh (screen policy now es) -> isFresh policy now o ∧ ∃ id0, (id0, [o]) ∈ es ++ [(id, copies)]) as Hold.
  { intros [? (? & ?)]%IH. split; [done|]. eexists. apply elem_of_app. eauto. }
  destruct copies as [|c [|c' cs]]; simpl; [done| |done].
  destruct (wellFormed policy now c) eqn:Ew; simpl; [|done].
  destruct (isStale policy now c) eqn:Es; simpl; [done|].
  rewrite elem_of_app, list_elem_of_singleton. intros [?| ->]; [by apply Hold|].
  split; [done|]. eexists. apply elem_of_app. right. by left.
Qed.

(** Every group ends in exactly one of the three lists. *)
Lemma screen_partition policy now es :
  (forall id o, (id, [o]) ∈ es -> so_sourceId o = id) ->
  map so_sourceId (scr_fresh (screen policy now es)) ++ scr_stale (screen policy now es) ++ scr_invalid (screen policy now es)
  ≡ₚ jm_keys es.
Proof.
  unfold jm_keys. induction es as [|[id copies] es IH] using rev_ind; intros Hid; [done|].
  rewrite screen_snoc, fmap_app. simpl.
  rewrite <- IH by (intros i o Hi; apply Hid, elem_of_app; by left). clear IH.
  assert (forall o, copies = [o] -> so_sourceId o = id) as Hone.
  { intros o ->. apply (Hid id o), elem_of_app. right. by left. }
  unfold screenStep. destruct copies as [|c [|c' cs]]; simpl; [solve_Permutation| |solve_Permutation].
  destruct (wellFormed policy now c); simpl; [|solve_Permutation].
  destruct (isStale policy now c); simpl; [solve_Permutation|].
  rewrite map_app. simpl. rewrite (Hone c) by done. solve_Permutation.
Qed.

Lemma group_singleton obs id o : (id, [o]) ∈ groupBySource obs -> so_sourceId o = id ∧ copiesOf id obs = [o].
Proof.
  intros Hin. apply jm_in_get in Hin; [|apply groupBySource_NoDup]. rewrite groupBySource_get in Hin.
  destruct (copiesOf id obs) as [|c cs] eqn:Ec; [done|]. injection Hin as <- ->. split; [|done].
  assert (c ∈ copiesOf id obs) as [? ?]%list_elem_of_filter by (rewrite Ec; by left). done.
Qed.

(** * Median and minimum *)

(** The median of a non-empty list of finite numbers exists; of an odd number
    of values it is one of them. *)
Lemma median_ok `{JsHost} l : l ≠ [] -> Forall (fun v => isFinite v = true) l ->
  ∃ v, median l = Ok v ∧ ((length l mod 2 = 1)%nat -> v ∈ l).
Proof.
  intros Hne Hf. unfold median. destruct l as [|x l]; [done|]. set (vs := x :: l) in *.
  assert (list_find (fun v => isFinite v = false) vs = None) as ->.
  { apply list_find_None. eapply Forall_impl; [exact Hf|]. intros y Hy. by rewrite Hy. }
  rewrite sort_by_length. destruct (length vs mod 2 =? 1)%nat eqn:E; eexists; (split; [reflexivity|]).
  - intros _. apply (elem_of_sort_by ascending), list_elem_of_In, nth_In.
    rewrite sort_by_length. apply Nat.div_lt; simpl; lia.
  - intros Ho%Nat.eqb_eq. congruence.
Qed.

Lemma notNaN_is_nan x : notNaN x -> PrimFloat.is_nan x = false.
Proof. intros. unfold PrimFloat.is_nan. rewrite eqb_spec. unfold SFeqb. rewrite SFcompare_key by done. by rewrite lex3_refl. Qed.

Lemma nmin_spec a b : notNaN a -> notNaN b ->
  (nmin a b = a ∨ nmin a b = b) ∧ nle (nmin a b) a = true ∧ nle (nmin a b) b = true.
Proof.
  intros Ha Hb. unfold nmin.
  rewrite !notNaN_is_nan by done.
  destruct (nlt b a) eqn:Hlt.
  { split_and!; [by right| |by apply nle_refl].
    rewrite nlt_not_nle in Hlt by done. destruct (nle_total a b Ha Hb) as [Hx|Hx]; [by rewrite Hx in Hlt|done]. }
  rewrite nlt_not_nle in Hlt by done. apply negb_false_iff in Hlt.
  destruct (neq a b) eqn:He; [|split_and!; [by left|by apply nle_refl|done]].
  assert (nle b a = true) as Hba.
  { unfold neq in He. rewrite eqb_spec in He. unfold SFeqb in He. rewrite SFcompare_key in He by done.
    rewrite nle_key by done. rewrite (lex3_antisym (sf_key (Prim2SF a))). by destruct (lex3 _ _). }
  destruct (PrimFloat.get_sign b); split_and!; auto using nle_refl.
Qed.

Lemma foldl_nmin l : forall a, notNaN a -> Forall notNaN l ->
  foldl nmin a l ∈ a :: l ∧ nle (foldl nmin a l) a = true ∧ Forall (fun x => nle (foldl nmin a l) x = true) l.
Proof.
  induction l as [|x l IH]; intros a Ha Hl; simpl.
  { split_and!; [by left|by apply nle_refl|constructor]. }
  apply Forall_cons in Hl as [Hx Hl]. destruct (nmin_spec a x Ha Hx) as (Hor & Hma & Hmx).
  assert (notNaN (nmin a x)) as Hm by (by destruct Hor as [-> | ->]).
  destruct (IH _ Hm Hl) as (Hin & Hle & Hall).
  assert (notNaN (foldl nmin (nmin a x) l)) as Hr.
  { apply elem_of_cons in Hin as [-> |Hin]; [done|]. by eapply Forall_forall in Hl. }
  split_and!.
  - apply elem_of_cons in Hin as [-> |Hin]; [|set_solver]. destruct Hor as [-> | ->]; set_solver.
  - eapply (nle_trans _ (nmin a x)); done.
  - constructor; [by eapply (nle_trans _ (nmin a x))|done].
Qed.

(** [Math.min(...l)] of a non-empty list is a least element of it. *)
Lemma minimum_spec l : l ≠ [] -> Forall (fun x => isFinite x = true) l ->
  foldl nmin infinity l ∈ l ∧ Forall (fun x => nle (foldl nmin infinity l) x = true) l.
Proof.
  intros Hne Hf. destruct l as [|x l]; [done|]. simpl.
  apply Forall_cons in Hf as [Hx Hf].
  assert (nmin infinity x = x) as ->.
  { unfold nmin. apply isFinite_notNaN in Hx as Hn.
    assert (nlt x infinity = true) as ->.
    { rewrite nlt_key by done. unfold isFinite, PrimFloat.is_finite, PrimFloat.is_infinity in Hx.
      rewrite !eqb_spec, abs_spec in Hx. apply negb_true_iff, orb_false_iff in Hx as [_ Hx].
      unfold notNaN in Hn. destruct (Prim2SF x) as [[]|[]| |[]]; done. }
    by rewrite !notNaN_is_nan by done. }
  destruct (foldl_nmin l x) as (Hin & Hle & Hall); [by apply isFinite_notNaN| |by split; [|constructor]].
  eapply Forall_impl; [exact Hf|]. apply isFinite_notNaN.
Qed.

(** * The decision *)

Section Decision.
Context `{JsHost}.
Implicit Types (obs : list SourceObservation) (policy : ConsensusPolicy) (now : num).

Definition freshOf obs policy now : list SourceObservation := scr_fresh (screen policy now (groupBySource obs)).
Definition agreeingAt obs policy now (center : num) : list SourceObservation :=
  filter (fun o => isAnomalous (so_value o) center policy = false) (freshOf obs policy now).
Definition outliersAt obs policy now (center : num) : list SourceObservation :=
  filter (fun o => isAnomalous (so_value o) center policy = true) (freshOf obs policy now).

Lemma validate_ok policy : validateConsensusPolicy policy = Ok tt <-> policyProblems policy = [].
Proof. unfold validateConsensusPolicy. by destruct (policyProblems policy). Qed.

(** A valid policy asks for at least one agreeing source. *)
Lemma min_sources_positive policy : policyProblems policy = [] -> nlt 0 (cp_minAgreeingSources policy) = true.
Proof.
  intros Hp. unfold policyProblems in Hp.
  apply app_eq_nil in Hp as [_ Hp]. apply app_eq_nil in Hp as [Hm _].
  set (m := cp_minAgreeingSources policy) in *.
  destruct (isInteger m) eqn:Hi; [|done]. destruct (nlt m 1) eqn:Hl; [done|].
  assert (notNaN m) as Hn by (unfold isInteger in Hi; intros E; by rewrite E in Hi).
  assert (notNaN 0) as H0 by done. assert (notNaN 1) as H1 by done.
  rewrite nlt_not_nle in Hl by done. apply negb_false_iff in Hl.
  rewrite nlt_not_nle by done. apply negb_true_iff. destruct (nle m 0) eqn:E; [|done].
  assert (nle 1 0 = true) as Hc by (by eapply (nle_trans _ m)). vm_compute in Hc. done.
Qed.

Lemma fresh_spec obs policy now o : o ∈ freshOf obs policy now ->
  isFresh policy now o ∧ copiesOf (so_sourceId o) obs = [o].
Proof.
  intros [? (id & Hin)]%screen_fresh. apply group_singleton in Hin as [<- ?]. done.
Qed.

Lemma fresh_finite policy now o : isFresh policy now o -> isFinite (so_value o) = true ∧ isFinite (so_observedAt o) = true.
Proof.
  intros [Hw _]. unfold wellFormed in Hw. rewrite !andb_true_iff in Hw. naive_solver.
Qed.

Lemma fresh_sub_median obs policy now l : l ≠ [] -> (forall o, o ∈ l -> o ∈ freshOf obs policy now) ->
  ∃ v, median (map so_value l) = Ok v ∧ ((length l mod 2 = 1)%nat -> v ∈ map so_value l).
Proof.
  intros Hne Hl. rewrite <- (length_map so_value l). apply median_ok.
  - by destruct l.
  - apply Forall_fmap, Forall_forall. intros o Ho. simpl.
    apply Hl, fresh_spec in Ho as [Ho _]. by eapply fresh_finite.
Qed.

Lemma round_ids obs policy now :
  map so_sourceId (freshOf obs policy now) ++ scr_stale (screen policy now (groupBySource obs))
    ++ scr_invalid (screen policy now (groupBySource obs)) ≡ₚ remove_dups (map so_sourceId obs).
Proof.
  unfold freshOf. rewrite screen_partition; [apply groupBySource_keys|].
  intros id o Hin. by apply group_singleton in Hin as [? _].
Qed.

(** Agreeing and outlying observations are the fresh ones. *)
Lemma agreeing_outliers obs policy now c :
  agreeingAt obs policy now c ++ outliersAt obs policy now c ≡ₚ freshOf obs policy now.
Proof.
  unfold agreeingAt, outliersAt. induction (freshOf obs policy now) as [|o l IH]; [done|].
  rewrite !filter_cons. destruct (isAnomalous (so_value o) c policy); simpl; rewrite <- ?Permutation_middle; by constructor.
Qed.

(** What an evaluation returns, by whether an observation was fresh. *)
Lemma round_inv obs policy now :
  policyProblems policy = [] -> isFinite now = true ->
  ∃ d, evaluateConsensus obs policy now = Ok d ∧
    rd_staleSources d = sort_strings (scr_stale (screen policy now (groupBySource obs))) ∧
    rd_invalidSources d = sort_strings (scr_invalid (screen policy now (groupBySource obs))) ∧
    rd_totalWeight d = scr_totalWeight (screen policy now (groupBySource obs)) ∧
    ((freshOf obs policy now = [] ∧ rd_status d = NoValidSources ∧ rd_agreeingSources d = [] ∧ rd_outlierSources d = []) ∨
     ∃ c, median (map so_value (freshOf obs policy now)) = Ok c ∧ rd_center d = Some c ∧
       rd_agreeingSources d = sort_strings (map so_sourceId (agreeingAt obs policy now c)) ∧
       rd_outlierSources d = sort_strings (map so_sourceId (outliersAt obs policy now c)) ∧
       rd_agreeingWeight d = sumWeight (agreeingAt obs policy now c) ∧
       (rd_status d = Agreed ->
          nlt (num_of_Z (Z.of_nat (length (agreeingAt obs policy now c)))) (cp_minAgreeingSources policy) = false ∧
          meetsQuorum (rd_agreeingWeight d) (rd_totalWeight d) (cp_quorumRatio policy) = true ∧
          (∃ v, rd_value d = Some v ∧ median (map so_value (agreeingAt obs policy now c)) = Ok v) ∧
          rd_sourceTimestamp d = Some (foldl nmin infinity (map so_observedAt (agreeingAt obs policy now c))) ∧
          rd_trustTier d = trustTierOf (length (rd_agreeingSources d)) (length (rd_outlierSources d))
                             (length (rd_staleSources d)) (length (rd_invalidSources d)))).
Proof.
  intros Hp Hn. unfold evaluateConsensus. pose proof Hp as ->%validate_ok. simpl. rewrite Hn. simpl.
  fold (freshOf obs policy now). set (scr := screen policy now (groupBySource obs)).
  destruct (freshOf obs policy now) as [|o os] eqn:Ef.
  { eexists. split; [reflexivity|]. split_and!; [done..|]. by left. }
  rewrite <- Ef.
  destruct (fresh_sub_median obs policy now (freshOf obs policy now)) as (c & Hc & _); [by rewrite Ef|done|].
  rewrite Hc. simpl. fold (agreeingAt obs policy now c) (outliersAt obs policy now c).
  destruct (nlt _ _) eqn:Hlt.
  { eexists. split; [reflexivity|]. split_and!; [done..|]. right. exists c. by split_and!. }
  destruct (meetsQuorum _ _ _) eqn:Hq; simpl.
  2:{ eexists. split; [reflexivity|]. split_and!; [done..|]. right. exists c. by split_and!. }
  destruct (fresh_sub_median obs policy now (agreeingAt obs policy now c)) as (v & Hv & _).
  { intros E. rewrite E in Hlt. change (num_of_Z _) with 0%float in Hlt.
    by rewrite min_sources_positive in Hlt. }
  { intros x Hx. by apply list_elem_of_filter in Hx as [_ ?]. }
  rewrite Hv. simpl. eexists. split; [reflexivity|]. simpl. split_and!; [done..|]. right. exists c.
  split_and!; try done. intros _. split_and!; [done..| |done|].
  - eauto.
  - unfold sort_strings. by rewrite !sort_by_length, !length_map.
Qed.
(** The decision id is computed from the round and its outcome. *)
Lemma evaluate_decisionId obs policy now d : evaluateConsensus obs policy now = Ok d ->
  rd_decisionId d = computeDecisionId obs policy (rd_status d) (rd_value d) now.
Proof.
  unfold evaluateConsensus. destruct (validateConsensusPolicy policy); [|done]. cbn [mbind res_bind].
  destruct (isFinite now); [|done]. cbn [negb]. cbv zeta. case_match; [by intros [= <-]|].
  destruct (median _) as [c|]; [|done]. cbn [mbind res_bind].
  case_match; [by intros [= <-]|]. case_match; [by intros [= <-]|].
  destruct (median _) as [v|]; [|done]. by intros [= <-].
Qed.

(** What an agreed decision rests on: the observations [agreeing]. *)
Record agreement obs policy now (d : RoundDecision) (agreeing : list SourceObservation) : Prop := {
  ag_ids : rd_agreeingSources d = sort_strings (map so_sourceId agreeing);
  ag_only_copy : forall o, o ∈ agreeing -> copiesOf (so_sourceId o) obs = [o];
  ag_fresh : Forall (isFresh policy now) agreeing;
  ag_close : ∃ c, rd_center d = Some c ∧ Forall (fun o => isAnomalous (so_value o) c policy = false) agreeing;
  ag_count : agreeing ≠ [] ∧ nlt (num_of_Z (Z.of_nat (length agreeing))) (cp_minAgreeingSources policy) = false;
  ag_quorum : rd_agreeingWeight d = sumWeight agreeing ∧
    meetsQuorum (rd_agreeingWeight d) (rd_totalWeight d) (cp_quorumRatio policy) = true;
  ag_value : ∃ v, rd_value d = Some v ∧ median (map so_value agreeing) = Ok v ∧
    ((length agreeing mod 2 = 1)%nat -> v ∈ map so_value agreeing);
  ag_time : ∃ o, o ∈ agreeing ∧ rd_sourceTimestamp d = Some (so_observedAt o) ∧
    Forall (fun o' => nle (so_observedAt o) (so_observedAt o') = true) agreeing;
  ag_tier : match rd_trustTier d with
    | Unverified => False
    | SingleSource => length agreeing = 1%nat
    | Corroborated => (2 <= length agreeing)%nat
    | Unanimous => (3 <= length agreeing)%nat ∧ rd_outlierSources d = [] ∧ rd_staleSources d = [] ∧ rd_invalidSources d = []
    end }.

Lemma trustTierOf_spec a o s i : (0 < a)%nat ->
  match trustTierOf a o s i with
  | Unverified => False
  | SingleSource => a = 1%nat
  | Corroborated => (2 <= a)%nat
  | Unanimous => (3 <= a)%nat ∧ o = 0%nat ∧ s = 0%nat ∧ i = 0%nat
  end.
Proof.
  intros. unfold trustTierOf.
  destruct (Nat.eqb_spec a 1); [done|]. destruct (Nat.leb_spec 3 a); simpl; [|lia].
  destruct (Nat.eqb_spec o 0), (Nat.eqb_spec s 0), (Nat.eqb_spec i 0); simpl; lia.
Qed.

Lemma agreement_holds obs policy now d :
  evaluateConsensus obs policy now = Ok d -> rd_status d = Agreed -> ∃ agreeing, agreement obs policy now d agreeing.
Proof.
  intros He Hs.
  destruct (policyProblems policy) eqn:Hp;
    [|unfold evaluateConsensus, validateConsensusPolicy in He; rewrite Hp in He; done].
  destruct (isFinite now) eqn:Hn;
    [|unfold evaluateConsensus in He; pose proof Hp as Hv%validate_ok; rewrite Hv in He; simpl in He; rewrite Hn in He; done].
  destruct (round_inv obs policy now Hp Hn) as (d' & He' & _ & _ & _ & Hc).
  rewrite He in He'. injection He' as <-.
  destruct Hc as [(_ & Hs' & _)|(c & _ & Hcen & Hids & _ & Hw & Hag)]; [congruence|].
  destruct (Hag Hs) as (Hmin & Hq & (v & Hv & Hmed) & Hts & Htier). clear Hag.
  set (l := agreeingAt obs policy now c) in *.
  assert (forall o, o ∈ l -> o ∈ freshOf obs policy now) as Hsub by (intros o Ho; by apply list_elem_of_filter in Ho as [_ ?]).
  assert (l ≠ []) as Hne.
  { intros E. rewrite E in Hmin. change (num_of_Z _) with 0%float in Hmin. by rewrite min_sources_positive in Hmin. }
  assert (0 < length l)%nat by (destruct l; [done|simpl; lia]).
  exists l. split.
  - done.
  - intros o Ho. by apply Hsub, fresh_spec in Ho as [_ ?].
  - apply Forall_forall. intros o Ho. by apply Hsub, fresh_spec in Ho as [? _].
  - exists c. split; [done|]. apply Forall_forall. intros o Ho. by apply list_elem_of_filter in Ho as [? _].
  - done.
  - done.
  - exists v. split_and!; [done..|].
    destruct (fresh_sub_median obs policy now l Hne Hsub) as (v' & Hv' & ?). by replace v with v' by congruence.
  - destruct (minimum_spec (map so_observedAt l)) as [Hin Hall].
    { by destruct l. }
    { apply Forall_fmap, Forall_forall. intros o Ho. simpl. apply Hsub, fresh_spec in Ho as [Ho _]. by eapply fresh_finite. }
    apply list_elem_of_fmap in Hin as (o & Ho & Hol). rewrite Ho in Hts, Hall. exists o. split_and!; [done..|].
    by rewrite Forall_fmap in Hall.
  - rewrite Htier, Hids. clear Htier. unfold sort_strings. rewrite sort_by_length, length_map.
    pose proof (trustTierOf_spec (length l) (length (rd_outlierSources d)) (length (rd_staleSources d))
                  (length (rd_invalidSources d)) ltac:(done)) as Ht.
    destruct (trustTierOf _ _ _ _); try done. destruct Ht as (? & Ho & Hst & Hi). split; [done|]. by apply nil_length_inv in Ho, Hst, Hi.
Qed.

(** An agreed decision is backed: there is a non-empty list of observations,
    each the only copy its source sent, well formed, neither stale nor from the
    future and within the tolerance of the centre, at least as many as the
    policy asks and with the quorum share of the reporting weight; the published
    value is their median (one of their values when their number is odd), the
    timestamp is the earliest of theirs, and the trust tier is never Unverified
    and claims no more sources than there are. *)
Theorem agreed_decision_backed obs policy now d
    (He : evaluateConsensus obs policy now = Ok d) (Hs : rd_status d = Agreed) :
  ∃ agreeing, agreement obs policy now d agreeing.
Proof. by apply agreement_holds. Qed.

(** "never throws for bad observations": an evaluation throws exactly when the
    policy is invalid or [now] is not finite, and otherwise every source id that
    reported is in exactly one of the agreeing, outlier, stale and invalid lists,
    each sorted. *)
Theorem sources_partitioned obs policy now :
  match evaluateConsensus obs policy now with
  | Err _ => policyProblems policy ≠ [] ∨ isFinite now = false
  | Ok d =>
      policyProblems policy = [] ∧ isFinite now = true ∧
      rd_agreeingSources d ++ rd_outlierSources d ++ rd_staleSources d ++ rd_invalidSources d
        ≡ₚ remove_dups (map so_sourceId obs) ∧
      Forall (StronglySorted (fun a b => string_leb a b = true))
        [rd_agreeingSources d; rd_outlierSources d; rd_staleSources d; rd_invalidSources d]
  end.
Proof.
  destruct (policyProblems policy) eqn:Hp.
  2:{ unfold evaluateConsensus, validateConsensusPolicy. rewrite Hp. simpl. by left. }
  destruct (isFinite now) eqn:Hn.
  2:{ unfold evaluateConsensus. pose proof Hp as ->%validate_ok. simpl. rewrite Hn. simpl. by right. }
  destruct (round_inv obs policy now Hp Hn) as (d & -> & Hst & Hin & _ & Hc).
  assert (forall l, StronglySorted (fun a b => string_leb a b = true) (sort_strings l)) as Hsort.
  { intros l. apply sort_by_sorted; auto with refract. }
  split_and!; [done..| |].
  - rewrite <- (round_ids obs policy now), Hst, Hin, !sort_strings_perm.
    destruct Hc as [(-> & _ & -> & ->)|(c & _ & _ & -> & -> & _)]; [done|].
    rewrite !sort_strings_perm, !app_assoc, <- map_app. by rewrite agreeing_outliers.
  - rewrite Hst, Hin.
    destruct Hc as [(_ & _ & -> & ->)|(c & _ & _ & -> & -> & _)]; repeat constructor; auto.
Qed.
End Decision.

(** * A concrete round *)

Definition demoObs (id : string) (v w : num) : SourceObservation := mkObservation id v w 1000%float.

(** Three sources of weight 0.6 that agree and one of weight 0.9 that does not. *)
Definition demoRound : list SourceObservation :=
  [demoObs "a" 1 0x1.3333333333333p-1; demoObs "b" 1 0x1.3333333333333p-1;
   demoObs "c" 1 0x1.3333333333333p-1; demoObs "z" 2 0x1.ccccccccccccdp-1]%float.

Lemma agreed_decision_backed_witness :
  ∃ d, @evaluateConsensus demoHost demoRound DEFAULT_CONSENSUS_POLICY 2000%float = Ok d ∧ rd_status d = Agreed ∧
       ∃ agreeing, @agreement demoHost demoRound DEFAULT_CONSENSUS_POLICY 2000%float d agreeing.
Proof.
  eexists. split; [vm_compute; reflexivity|]. split; [reflexivity|].
  apply (@agreed_decision_backed demoHost); [vm_compute; reflexivity|reflexivity].
Defined.

(** The outcome depends on the order of the observations: weights are added
    in order of arrival, so for the same four reports under the default policy
    one order is agreed and the reverse order misses the quorum. *)
Theorem outcome_depends_on_order :
  ∃ obs1 obs2 now d1 d2, obs1 ≡ₚ obs2 ∧
    @evaluateConsensus demoHost obs1 DEFAULT_CONSENSUS_POLICY now = Ok d1 ∧
    @evaluateConsensus demoHost obs2 DEFAULT_CONSENSUS_POLICY now = Ok d2 ∧
    rd_status d1 = Agreed ∧ rd_status d2 = NoQuorum ∧ rd_agreeingSources d1 = rd_agreeingSources d2.
Proof.
  exists demoRound, (rev demoRound), 2000%float. do 2 eexists. split; [apply Permutation_rev|].
  split; [vm_compute; reflexivity|]. split; [vm_compute; reflexivity|]. done.
Qed.
