(* ===== verification/Encoding.v ===== *)
(** On-chain encoding of readings (src/oracle/oracle-encoding.ts): exact decimal
    values, the u128 provenance word, the scaled i128 value and the bytes every
    quorum submitter signs.

    A [bigint] is a [Z] and shifts, [|] and [&] are the operations of [Z] on its
    two's-complement bits; the integer fields of a provenance are [Z] (the code's
    [Number.isInteger] guards); a string is the list of its UTF-8 bytes. *)

From stdpp Require Import base list strings.
From Stdlib Require Import ZArith Lia Ascii Floats SpecFloat.
From S2P Require Import Prelude Decimal JsNum Canonical Consensus.
#[local] Open Scope Z_scope.

(** * Exact decimals *)

Definition I128_MAX : Z := Z.shiftl 1 127 - 1.
Definition I128_MIN : Z := - Z.shiftl 1 127.
Definition COMPOSITE_DEFAULT_SCALE : Z := 8.

Definition badScale (scale : Z) : bool := (scale <? 0) || (38 <? scale).

Definition parseFixedDecimal (value : text) (scale : Z) : res string Z :=
  if badScale scale then Err ("Invalid composite scale: " +:+ showZ scale)
  else if negb (decimal_re value) then Err ("Invalid fixed-decimal string: " +:+ String.string_of_list_ascii value)
  else
    let negative := starts_minus value in
    let unsigned := drop_minus value in
    let intPart := take_until_dot unsigned in
    let fracPartRaw := after_dot unsigned in
    if scale <? Z.of_nat (length fracPartRaw)
    then Err ("Fixed-decimal value " +:+ String.string_of_list_ascii value +:+ " has more than " +:+ showZ scale +:+ " fractional digits")
    else
      let fracPart := padEnd (Z.to_nat scale) fracPartRaw in
      let scaled := dec_val intPart * 10 ^ scale + dec_val fracPart in
      Ok (if negative then - scaled else scaled).

Definition formatFixedDecimal (scaled scale : Z) : res string text :=
  if badScale scale then Err ("Invalid composite scale: " +:+ showZ scale)
  else
    let negative := bool_decide (scaled < 0) in
    let abs := if negative then - scaled else scaled in
    let divisor := 10 ^ scale in
    let intPart := Z.quot abs divisor in
    let fracPart := padStart (Z.to_nat scale) (z_text (Z.rem abs divisor)) in
    let body := if bool_decide (scale = 0) then z_text intPart else z_text intPart ++ c_dot :: fracPart in
    Ok (if negative then c_minus :: body else body).

Definition assertI128 (scaled : Z) : res string Z :=
  if (I128_MAX <? scaled) || (scaled <? I128_MIN) then Err ("Composite value overflows i128: " +:+ showZ scaled) else Ok scaled.

Definition encodeCompositeValue (value : text) (scale : Z) : res string Z :=
  v ← parseFixedDecimal value scale; assertI128 v.

Definition encodeCompositeDecisionPayload `{JsHost} (feedId : string) (formulaVersion scale : Z) (value : text)
    (inputDecisionIds : list string) : res string string :=
  if formulaVersion <? 0 then Err ("Invalid formula version: " +:+ showZ formulaVersion) else
  scaled ← encodeCompositeValue value scale;
  printed ← formatFixedDecimal scaled scale;
  Ok (default "" (stringify (JObj
    [("feedId", JStr feedId); ("formulaVersion", JNum (num_of_Z formulaVersion)); ("scale", JNum (num_of_Z scale));
     ("value", JStr (String.string_of_list_ascii printed)); ("encoded", JStr (showZ scaled));
     ("inputDecisionIds", JArr (map JStr inputDecisionIds))]))).

(** * Scaled values *)

(** [BigInt(Math.round(x))]: throws on NaN and infinities. *)
Definition bigIntRound (x : num) : res string Z :=
  match round_to_Z x with Some z => Ok z | None => Err "RangeError: not an integer" end.

Definition scaleOracleValue (coverageType : string) (value : num) : res string Z :=
  if bool_decide (coverageType = "StablecoinDepeg") then bigIntRound (value * 10000000)%float
  else if bool_decide (coverageType = "MarketCrash") then bigIntRound (value * 100)%float
  else if bool_decide (coverageType = "SmartContractRisk") then bigIntRound (value * 100)%float
  else if bool_decide (coverageType = "LiquidationShield") then bigIntRound (value * 10000)%float
  else if bool_decide (coverageType = "FlightDelay") then bigIntRound value
  else if bool_decide (coverageType = "Composite")
  then Err "Composite coverageType requires encodeCompositeValue (fixed-decimal string)"
  else Err ("Unknown coverageType for oracle scaling: " +:+ coverageType).

Definition coverageDiscriminants : list (string * Z) :=
  [("StablecoinDepeg", 0); ("MarketCrash", 1); ("LiquidationShield", 2); ("SmartContractRisk", 3); ("FlightDelay", 4); ("Composite", 5)].

Definition coverageTypeToU32 (coverageType : string) : res string Z :=
  match jm_get coverageDiscriminants coverageType with
  | Some id => Ok id
  | None => Err ("Unknown coverageType: " +:+ coverageType)
  end.

Definition buildDecisionId `{JsHost} (feed policyId : string) (windowStart : num) : string :=
  sha256Hex (feed +:+ "|" +:+ policyId +:+ "|" +:+ numToString windowStart).

(** * Provenance *)

Record ReadingProvenance := mkProvenance {
  pv_trustTier : Z; pv_agreeingSources : Z; pv_decisionId : text; pv_sourceTimestamp : Z }.

Definition PROVENANCE_VERSION : Z := 1.
Definition TIMESTAMP_MAX : Z := 2 ^ 40 - 1.
Definition U128_MAX : Z := Z.shiftl 1 128 - 1.

Definition SHIFT_version : Z := 124.
Definition SHIFT_trustTier : Z := 120.
Definition SHIFT_agreeingSources : Z := 112.
Definition SHIFT_reserved : Z := 104.
Definition SHIFT_sourceTimestamp : Z := 64.

(** [[0-9a-f]] and the value of such a digit. *)
Definition is_hex (c : ascii) : bool :=
  is_digit c || bool_decide (97 <= Z.of_N (N_of_ascii c) <= 102).
Definition hex_digit_val (c : ascii) : Z :=
  let n := Z.of_N (N_of_ascii c) in if n <? 97 then n - 48 else n - 87.
Definition hex_char (d : Z) : ascii := ascii_of_N (Z.to_N (if d <? 10 then 48 + d else 87 + d)).

(** [BigInt("0x" + s)] and [n.toString(16)]; as for decimals, [log2 n + 1]
    digits always suffice. *)
Definition hex_val (s : text) : Z := foldl (fun acc c => 16 * acc + hex_digit_val c) 0 s.
Fixpoint hex_fuel (fuel : nat) (n : Z) (acc : text) : text :=
  match fuel with
  | O => acc
  | S fuel' =>
      let acc' := hex_char (n mod 16) :: acc in
      if decide (n / 16 = 0) then acc' else hex_fuel fuel' (n / 16) acc'
  end.
Definition hex_text (n : Z) : text := hex_fuel (S (Z.to_nat (Z.log2 n))) n [].

(** [/^[0-9a-f]{16}$/.test(s)] *)
Definition hex16_re (s : text) : bool := bool_decide (length s = 16%nat) && forallb is_hex s.

(** [TrustTier[tier]] *)
Definition tierName (tier : Z) : string :=
  if tier =? 0 then "Unverified" else if tier =? 1 then "SingleSource" else if tier =? 2 then "Corroborated" else "Unanimous".

Definition minSources (tier : Z) : Z := if tier =? 1 then 1 else if tier =? 2 then 2 else 3.

Definition assertValidProvenance (p : ReadingProvenance) : res string unit :=
  let tier := pv_trustTier p in
  let sources := pv_agreeingSources p in
  if negb ((0 <=? tier) && (tier <=? 3)) then Err ("Unknown trust tier: " +:+ showZ tier)
  else if tier =? tierCode Unverified then Err "Unverified readings must not be published on-chain"
  else if (sources <? 0) || (255 <? sources) then Err ("agreeingSources must be an integer in 0..255, got " +:+ showZ sources)
  else if (if tier =? tierCode SingleSource then negb (sources =? 1) else sources <? minSources tier)
  then Err ("Trust tier " +:+ tierName tier +:+ " is inconsistent with " +:+ showZ sources +:+ " agreeing source(s)")
  else if negb (hex16_re (pv_decisionId p)) then Err "decisionId must be 16 lowercase hex chars (u64)"
  else if (pv_sourceTimestamp p <? 0) || (TIMESTAMP_MAX <? pv_sourceTimestamp p)
  then Err ("sourceTimestamp must be Unix seconds in 0..2^40-1, got " +:+ showZ (pv_sourceTimestamp p))
  else Ok tt.

Definition packProvenance (p : ReadingProvenance) : res string Z :=
  _ ← assertValidProvenance p;
  Ok (Z.lor (Z.lor (Z.lor (Z.lor
        (Z.shiftl PROVENANCE_VERSION SHIFT_version)
        (Z.shiftl (pv_trustTier p) SHIFT_trustTier))
        (Z.shiftl (pv_agreeingSources p) SHIFT_agreeingSources))
        (Z.shiftl (pv_sourceTimestamp p) SHIFT_sourceTimestamp))
        (hex_val (pv_decisionId p))).

Definition field (packed shift bits : Z) : Z := Z.land (Z.shiftr packed shift) (Z.shiftl 1 bits - 1).

Definition unpackProvenance (packed : Z) : res string ReadingProvenance :=
  if (packed <? 0) || (U128_MAX <? packed) then Err "Packed provenance must be a u128 bigint" else
  let version := field packed SHIFT_version 4 in
  if negb (version =? PROVENANCE_VERSION) then Err ("Unsupported provenance version " +:+ showZ version)
  else if negb (field packed SHIFT_reserved 8 =? 0) then Err "Reserved provenance bits are set"
  else
    let provenance := mkProvenance (field packed SHIFT_trustTier 4) (field packed SHIFT_agreeingSources 8)
                        (padStart 16 (hex_text (field packed 0 64))) (field packed SHIFT_sourceTimestamp 40) in
    _ ← assertValidProvenance provenance;
    Ok provenance.

Definition provenanceFromDecision (decision : RoundDecision) : res string ReadingProvenance :=
  match rd_status decision, rd_sourceTimestamp decision with
  | Agreed, Some ts =>
      match floor_to_Z (ts / 1000)%float with
      | None => Err "sourceTimestamp must be Unix seconds in 0..2^40-1"
      | Some seconds =>
          let provenance := mkProvenance (tierCode (rd_trustTier decision)) (Z.of_nat (length (rd_agreeingSources decision)))
                              (String.list_ascii_of_string (rd_decisionId decision)) seconds in
          _ ← assertValidProvenance provenance;
          Ok provenance
      end
  | status, _ => Err ("Cannot publish a " +:+ roundStatusText status +:+ " consensus decision")
  end.

Record EncodedOracleReading := mkEncoded { eo_coverageType : Z; eo_value : Z; eo_provenance : Z }.

Definition encodeReadingForChain (coverageType : string) (value : num) (provenance : ReadingProvenance) :
    res string EncodedOracleReading :=
  c ← coverageTypeToU32 coverageType;
  v ← scaleOracleValue coverageType value;
  p ← packProvenance provenance;
  Ok (mkEncoded c v p).

(** * The signed payload *)

(** The [n] low bytes of an integer, most significant first. *)
Fixpoint bytesBE (n : nat) (v : Z) : list Z :=
  match n with
  | O => []
  | S n' => (Z.shiftr v (8 * Z.of_nat n') mod 256) :: bytesBE n' v
  end.

Definition utf8 (s : string) : list Z := map (fun c => Z.of_N (N_of_ascii c)) (String.list_ascii_of_string s).

(** [Buffer.writeUInt32BE] throws outside 0..2^32-1. *)
Definition writeUInt32BE (v : Z) : res string (list Z) :=
  if (0 <=? v) && (v <? 2 ^ 32) then Ok (bytesBE 4 v) else Err "ERR_OUT_OF_RANGE".

Definition part (bytes : list Z) : res string (list Z) :=
  len ← writeUInt32BE (Z.of_nat (length bytes)); Ok (len ++ bytes).

(** [BigInt.asUintN(64, v)] *)
Definition asUintN64 (v : Z) : Z := v mod 2 ^ 64.

Definition buildPublishPayload (oracleContractId coverageType : string) (value : num) (decisionId : string) : res string (list Z) :=
  scaled ← scaleOracleValue coverageType value;
  let valueBytes := bytesBE 8 (asUintN64 (Z.shiftr scaled 64)) ++ bytesBE 8 (asUintN64 scaled) in
  code ← coverageTypeToU32 coverageType;
  typeBytes ← writeUInt32BE code;
  p1 ← part (utf8 "refract-oracle-v1");
  p2 ← part (utf8 oracleContractId);
  p3 ← part typeBytes;
  p4 ← part valueBytes;
  p5 ← part (utf8 decisionId);
  Ok (p1 ++ p2 ++ p3 ++ p4 ++ p5).

Definition oracleDecisionId `{JsHost} (coverageType : string) (value observedAtMs bucketMs : num) : res string string :=
  let bucket := mathFloor (observedAtMs / bucketMs)%float in
  scaled ← scaleOracleValue coverageType value;
  Ok (joinWith ":" [coverageType; showZ scaled; numToString bucket]).

(** * Lemmas: hexadecimal text *)

Lemma hex_char_val d : 0 <= d < 16 -> hex_digit_val (hex_char d) = d ∧ is_hex (hex_char d) = true.
Proof.
  intros Hd. unfold hex_char, hex_digit_val, is_hex, is_digit.
  destruct (Z.ltb_spec d 10); rewrite N_ascii_embedding, Z2N.id by lia.
  - rewrite (proj2 (Z.ltb_lt _ _)) by lia. rewrite bool_decide_eq_true_2 by lia. split; [lia|done].
  - rewrite (proj2 (Z.ltb_ge _ _)) by lia. rewrite orb_true_iff, !bool_decide_eq_true. lia.
Qed.

Lemma hex_val_char c : is_hex c = true -> 0 <= hex_digit_val c < 16 ∧ hex_char (hex_digit_val c) = c.
Proof.
  unfold is_hex, is_digit, hex_digit_val. rewrite orb_true_iff, !bool_decide_eq_true. intros Hc.
  assert (forall n, n = N_of_ascii c -> ascii_of_N n = c) as Hinv by (intros n ->; apply ascii_N_embedding).
  destruct (Z.ltb_spec (Z.of_N (N_of_ascii c)) 97); (split; [lia|]); unfold hex_char; apply Hinv.
  - rewrite (proj2 (Z.ltb_lt _ _)) by lia. lia.
  - rewrite (proj2 (Z.ltb_ge _ _)) by lia. lia.
Qed.

Lemma hex_val_snoc s c : hex_val (s ++ [c]) = 16 * hex_val s + hex_digit_val c.
Proof. unfold hex_val. by rewrite foldl_app. Qed.

Lemma hex_val_bounds s : forallb is_hex s = true -> 0 <= hex_val s < 16 ^ Z.of_nat (length s).
Proof.
  induction s as [|c s IH] using rev_ind; [done|].
  rewrite forallb_app, andb_true_iff. simpl. rewrite andb_true_r. intros [Hs Hc].
  specialize (IH Hs). apply hex_val_char in Hc as [Hc _]. rewrite hex_val_snoc, length_app. simpl.
  rewrite Nat.add_1_r, Nat2Z.inj_succ, Z.pow_succ_r by lia. lia.
Qed.

(** Hexadecimal strings of one length are determined by their value. *)
Lemma hex_val_inj s1 : forall s2, length s1 = length s2 -> forallb is_hex s1 = true -> forallb is_hex s2 = true ->
  hex_val s1 = hex_val s2 -> s1 = s2.
Proof.
  induction s1 as [|c1 s1 IH] using rev_ind; intros s2 Hl H1 H2 Hv.
  { by destruct s2. }
  destruct s2 as [|c2 s2 _] using rev_ind; [rewrite length_app in Hl; simpl in Hl; lia|].
  rewrite !length_app in Hl. rewrite !hex_val_snoc in Hv.
  rewrite !forallb_app, !andb_true_iff in *. simpl in *. destruct H1 as [H1 Hc1], H2 as [H2 Hc2].
  rewrite andb_true_r in Hc1, Hc2.
  apply hex_val_char in Hc1 as [Hb1 E1], Hc2 as [Hb2 E2].
  assert (hex_digit_val c1 = hex_digit_val c2) by lia.
  f_equal; [apply IH; [lia|done..|lia]|congruence].
Qed.

Lemma hex_val_cons_acc c s : hex_val (c :: s) = hex_digit_val c * 16 ^ Z.of_nat (length s) + hex_val s.
Proof.
  induction s as [|c' s IH] using rev_ind; [unfold hex_val; simpl; lia|].
  change (c :: s ++ [c']) with ((c :: s) ++ [c']). rewrite !hex_val_snoc, IH, length_app. simpl.
  rewrite Nat.add_1_r, Nat2Z.inj_succ, Z.pow_succ_r by lia. lia.
Qed.

Lemma hex_fuel_spec fuel : forall n acc k, 0 <= n < 16 ^ Z.of_nat fuel -> (0 < fuel)%nat -> (0 < k)%nat -> n < 16 ^ Z.of_nat k ->
  ∃ d, hex_fuel fuel n acc = d ++ acc ∧ forallb is_hex d = true ∧ hex_val d = n ∧ (length d <= k)%nat.
Proof.
  induction fuel as [|fuel IH]; intros n acc k Hn Hf Hk Hnk; [lia|].
  cbn [hex_fuel]. rewrite Nat2Z.inj_succ, Z.pow_succ_r in Hn by lia.
  pose proof (Z.mod_pos_bound n 16 ltac:(lia)) as Hm. pose proof (Z.div_mod n 16 ltac:(lia)) as Hdm.
  destruct (hex_char_val (n mod 16) Hm) as [Hv Hd].
  case_decide as Hz.
  { exists [hex_char (n mod 16)]. split_and!; [done|simpl; by rewrite Hd|unfold hex_val; simpl; lia|simpl; lia]. }
  destruct k as [|k]; [lia|]. rewrite Nat2Z.inj_succ, Z.pow_succ_r in Hnk by lia.
  assert (0 <= n / 16) by (apply Z.div_pos; lia).
  destruct (IH (n / 16) (hex_char (n mod 16) :: acc) k) as (d & Heq & Hall & Hval & Hlen).
  - split; [done|]. apply Z.div_lt_upper_bound; lia.
  - destruct fuel; [simpl in *; lia|lia].
  - destruct k; [simpl in *; lia|lia].
  - apply Z.div_lt_upper_bound; lia.
  - exists (d ++ [hex_char (n mod 16)]). split_and!.
    + by rewrite Heq, <- app_assoc.
    + rewrite forallb_app, Hall. simpl. by rewrite Hd.
    + rewrite hex_val_snoc, Hval. lia.
    + rewrite length_app. simpl. lia.
Qed.

Lemma hex_val_zeros n s : hex_val (replicate n c_zero ++ s) = hex_val s.
Proof. induction n as [|n IH]; [done|]. cbn [replicate app]. rewrite hex_val_cons_acc, IH. done. Qed.

(** A number below [16 ^ k] is printed by [toString(16).padStart(k, '0')] as
    exactly [k] hexadecimal digits of that value. *)
Lemma hex_print k n : (0 < k)%nat -> 0 <= n < 16 ^ Z.of_nat k ->
  length (padStart k (hex_text n)) = k ∧ forallb is_hex (padStart k (hex_text n)) = true ∧
  hex_val (padStart k (hex_text n)) = n.
Proof.
  intros Hk Hn. destruct (hex_fuel_spec (S (Z.to_nat (Z.log2 n))) n [] k) as (d & Heq & Hall & Hval & Hlen);
    [|lia|lia|lia|].
  { split; [lia|]. eapply Z.lt_le_trans; [apply log2_pow10; lia|]. apply Z.pow_le_mono_l. lia. }
  unfold hex_text. rewrite Heq, app_nil_r. split_and!.
  - by apply padStart_length.
  - unfold padStart. rewrite forallb_app, Hall, andb_true_r.
    apply forallb_forall. intros c Hc. apply list_elem_of_In, elem_of_replicate in Hc as [-> _]. done.
  - unfold padStart. by rewrite hex_val_zeros.
Qed.

(** The 16 printed digits of a u64. *)
Lemma hex16_print n : 0 <= n < 2 ^ 64 ->
  hex16_re (padStart 16 (hex_text n)) = true ∧ hex_val (padStart 16 (hex_text n)) = n.
Proof.
  intros Hn. destruct (hex_print 16 n) as (Hl & Hx & Hv); [lia|done|]. unfold hex16_re.
  by rewrite Hx, bool_decide_eq_true_2.
Qed.

(** Printing the value of 16 hexadecimal digits gives the digits. *)
Lemma hex16_reprint s : hex16_re s = true -> padStart 16 (hex_text (hex_val s)) = s ∧ 0 <= hex_val s < 2 ^ 64.
Proof.
  intros Hs. pose proof Hs as [Hl Hx]%andb_true_iff. apply bool_decide_eq_true in Hl.
  pose proof (hex_val_bounds s Hx) as Hb. rewrite Hl in Hb. change (16 ^ Z.of_nat 16) with (2 ^ 64) in Hb.
  destruct (hex16_print _ Hb) as [[Hl' Hx']%andb_true_iff Hv]. apply bool_decide_eq_true in Hl'.
  split; [|done]. apply hex_val_inj; [congruence|done..].
Qed.

(** * Lemmas: bit fields *)

Lemma lor_shiftl a b n : 0 <= n -> 0 <= b < 2 ^ n -> Z.lor (Z.shiftl a n) b = a * 2 ^ n + b.
Proof.
  intros Hn Hb. rewrite <- Z.shiftl_mul_pow2 by done.
  assert (Z.land (Z.shiftl a n) b = 0) as Hl.
  { apply Z.bits_inj'. intros i Hi. rewrite Z.land_spec, Z.bits_0.
    destruct (Z.lt_ge_cases i n).
    - by rewrite Z.shiftl_spec_low.
    - pose proof (Z.pow_le_mono_r 2 n i ltac:(lia) ltac:(done)).
      by rewrite andb_comm, Z.testbit_eqb, Z.div_small by lia. }
  rewrite Z.add_nocarry_lxor by done. symmetry. by apply Z.lxor_lor.
Qed.

Lemma field_spec packed shift bits : 0 <= shift -> 0 <= bits -> field packed shift bits = (packed / 2 ^ shift) mod 2 ^ bits.
Proof.
  intros. unfold field. rewrite Z.shiftr_div_pow2, Z.shiftl_mul_pow2, Z.mul_1_l by done.
  rewrite <- Z.land_ones by done. by rewrite Z.ones_equiv.
Qed.

Lemma field_bounds packed shift bits : 0 <= shift -> 0 <= bits -> 0 <= field packed shift bits < 2 ^ bits.
Proof. intros. rewrite field_spec by done. apply Z.mod_pos_bound. lia. Qed.

(** The ranges [assertValidProvenance] establishes. *)
Record provenanceOk (p : ReadingProvenance) : Prop := {
  po_tier : 1 <= pv_trustTier p <= 3;
  po_sources : 0 <= pv_agreeingSources p <= 255;
  po_consistent : if pv_trustTier p =? 1 then pv_agreeingSources p = 1 else minSources (pv_trustTier p) <= pv_agreeingSources p;
  po_id : hex16_re (pv_decisionId p) = true;
  po_ts : 0 <= pv_sourceTimestamp p < 2 ^ 40 }.

Lemma assertValidProvenance_ok p : assertValidProvenance p = Ok tt <-> provenanceOk p.
Proof.
  unfold assertValidProvenance, TIMESTAMP_MAX. simpl tierCode. split.
  - intros Hv. repeat case_match; try done; split; try lia; try (by apply negb_false_iff).
    all: case_match; [lia|]; try done; lia.
  - intros [Ht Hs Hc Hi Hts]. rewrite Hi. simpl.
    rewrite (proj2 (Z.leb_le 0 _)), (proj2 (Z.leb_le _ 3)) by lia. simpl.
    rewrite (proj2 (Z.eqb_neq _ 0)), (proj2 (Z.ltb_ge _ 0)), (proj2 (Z.ltb_ge 255 _)) by lia. simpl.
    rewrite (proj2 (Z.ltb_ge _ 0)), (proj2 (Z.ltb_ge (2 ^ 40 - 1) _)) by lia. simpl.
    destruct (Z.eqb_spec (pv_trustTier p) 1); [by rewrite Hc|]. by rewrite (proj2 (Z.ltb_ge _ _)) by lia.
Qed.

Lemma assertValidProvenance_res p : assertValidProvenance p = Ok tt ∨ ∃ e, assertValidProvenance p = Err e.
Proof. destruct (assertValidProvenance p) as [[]|e]; eauto. Qed.

(** The packed word as a sum of its fields. *)
Definition packedSum (p : ReadingProvenance) : Z :=
  2 ^ 124 + pv_trustTier p * 2 ^ 120 + pv_agreeingSources p * 2 ^ 112 + pv_sourceTimestamp p * 2 ^ 64 + hex_val (pv_decisionId p).

Lemma pack_sum p : provenanceOk p -> packProvenance p = Ok (packedSum p).
Proof.
  intros Hp. unfold packProvenance. rewrite (proj2 (assertValidProvenance_ok p) Hp). simpl. f_equal.
  destruct Hp as [Ht Hs _ Hi Hts]. apply hex16_reprint in Hi as [_ Hi].
  unfold packedSum, SHIFT_version, SHIFT_trustTier, SHIFT_agreeingSources, SHIFT_sourceTimestamp, PROVENANCE_VERSION.
  rewrite <- !Z.lor_assoc.
  rewrite (lor_shiftl (pv_sourceTimestamp p)) by lia.
  rewrite (lor_shiftl (pv_agreeingSources p)) by lia.
  rewrite (lor_shiftl (pv_trustTier p)) by lia.
  rewrite (lor_shiftl 1) by lia. lia.
Qed.

Lemma div_field hi v lo s b : 0 <= s -> 0 <= b -> 0 <= v < 2 ^ b -> 0 <= lo < 2 ^ s ->
  ((hi * 2 ^ b + v) * 2 ^ s + lo) / 2 ^ s mod 2 ^ b = v.
Proof.
  intros. rewrite Z.div_add_l, (Z.div_small lo) by lia. rewrite Z.add_0_r, Z.add_comm, Z.mod_add by lia.
  by apply Z.mod_small.
Qed.

Lemma packed_fields p : provenanceOk p ->
  0 <= packedSum p <= U128_MAX ∧ field (packedSum p) SHIFT_version 4 = 1 ∧ field (packedSum p) SHIFT_reserved 8 = 0 ∧
  field (packedSum p) SHIFT_trustTier 4 = pv_trustTier p ∧ field (packedSum p) SHIFT_agreeingSources 8 = pv_agreeingSources p ∧
  field (packedSum p) SHIFT_sourceTimestamp 40 = pv_sourceTimestamp p ∧ field (packedSum p) 0 64 = hex_val (pv_decisionId p).
Proof.
  intros [Ht Hs _ Hi Hts]. apply hex16_reprint in Hi as [_ Hi]. unfold packedSum.
  unfold SHIFT_version, SHIFT_trustTier, SHIFT_agreeingSources, SHIFT_sourceTimestamp, SHIFT_reserved.
  set (t := pv_trustTier p) in *. set (a := pv_agreeingSources p) in *. set (ts := pv_sourceTimestamp p) in *.
  set (v := hex_val (pv_decisionId p)) in *. rewrite !field_spec by lia.
  split; [change U128_MAX with (2 ^ 128 - 1); lia|]. split_and!.
  - etrans; [|apply (div_field 0 1 (t * 2 ^ 120 + a * 2 ^ 112 + ts * 2 ^ 64 + v) 124 4); lia]. f_equal. f_equal. lia.
  - etrans; [|apply (div_field (2 ^ 12 + t * 2 ^ 8 + a) 0 (ts * 2 ^ 64 + v) 104 8); lia]. f_equal. f_equal. lia.
  - etrans; [|apply (div_field 1 t (a * 2 ^ 112 + ts * 2 ^ 64 + v) 120 4); lia]. f_equal. f_equal. lia.
  - etrans; [|apply (div_field (2 ^ 4 + t) a (ts * 2 ^ 64 + v) 112 8); lia]. f_equal. f_equal. lia.
  - etrans; [|apply (div_field (2 ^ 20 + t * 2 ^ 16 + a * 2 ^ 8) ts v 64 40); lia]. f_equal. f_equal. lia.
  - etrans; [|apply (div_field (2 ^ 60 + t * 2 ^ 56 + a * 2 ^ 48 + ts) v 0 0 64); lia]. f_equal. f_equal. lia.
Qed.

(** The fields of a u128 of version 1 with no reserved bit rebuild it. *)
Lemma fields_sum x : 0 <= x < 2 ^ 128 -> field x SHIFT_version 4 = 1 -> field x SHIFT_reserved 8 = 0 ->
  2 ^ 124 + field x SHIFT_trustTier 4 * 2 ^ 120 + field x SHIFT_agreeingSources 8 * 2 ^ 112
    + field x SHIFT_sourceTimestamp 40 * 2 ^ 64 + field x 0 64 = x.
Proof.
  unfold SHIFT_version, SHIFT_trustTier, SHIFT_agreeingSources, SHIFT_sourceTimestamp, SHIFT_reserved.
  intros Hx. rewrite !field_spec by lia.
  change (2 ^ 0) with 1. rewrite Z.div_1_r.
  change (2 ^ 104) with (2 ^ 64 * 2 ^ 40). change (2 ^ 112) with (2 ^ 64 * 2 ^ 40 * 2 ^ 8) at 1.
  change (2 ^ 120) with (2 ^ 64 * 2 ^ 40 * 2 ^ 8 * 2 ^ 8) at 1.
  change (2 ^ 124) with (2 ^ 64 * 2 ^ 40 * 2 ^ 8 * 2 ^ 8 * 2 ^ 4) at 1.
  rewrite <- !Z.div_div by lia.
  set (q1 := x / 2 ^ 64). set (q2 := q1 / 2 ^ 40). set (q3 := q2 / 2 ^ 8). set (q4 := q3 / 2 ^ 8). set (q5 := q4 / 2 ^ 4).
  intros Hv Hr.
  pose proof (Z.div_mod x (2 ^ 64) ltac:(lia)) as E1. fold q1 in E1.
  pose proof (Z.div_mod q1 (2 ^ 40) ltac:(lia)) as E2. fold q2 in E2.
  pose proof (Z.div_mod q2 (2 ^ 8) ltac:(lia)) as E3. fold q3 in E3.
  pose proof (Z.div_mod q3 (2 ^ 8) ltac:(lia)) as E4. fold q4 in E4.
  pose proof (Z.div_mod q4 (2 ^ 4) ltac:(lia)) as E5. fold q5 in E5.
  assert (0 <= q5 < 2 ^ 4) as H5.
  { unfold q5, q4, q3, q2, q1. rewrite !Z.div_div by lia. split; [apply Z.div_pos; lia|].
    apply Z.div_lt_upper_bound; lia. }
  rewrite (Z.mod_small _ _ H5) in Hv. clearbody q1 q2 q3 q4 q5. lia.
Qed.

Lemma unpack_pack p : provenanceOk p -> unpackProvenance (packedSum p) = Ok p.
Proof.
  intros Hp. destruct (packed_fields p Hp) as (Hb & Hv & Hr & Ht & Ha & Hts & Hid).
  unfold unpackProvenance. rewrite (proj2 (Z.ltb_ge _ 0)), (proj2 (Z.ltb_ge U128_MAX _)) by lia.
  cbn [orb]. cbv zeta. rewrite Hv, Hr, Ht, Ha, Hts, Hid. cbn [Z.eqb PROVENANCE_VERSION Pos.eqb negb]. destruct (hex16_reprint _ (po_id _ Hp)) as [-> _].
  replace (mkProvenance _ _ _ _) with p by (by destruct p).
  by rewrite (proj2 (assertValidProvenance_ok p) Hp).
Qed.

(** * Properties *)

(** C24: packing and unpacking provenance are inverse to each other: a provenance
    packs to a word exactly when that word unpacks to it, so every provenance the
    encoder accepts survives the chain unchanged, every word the decoder accepts
    is the one packing of its fields, and an accepted word is a non-zero u128. *)
Theorem provenance_roundtrip (p : ReadingProvenance) (packed : Z) :
  (packProvenance p = Ok packed <-> unpackProvenance packed = Ok p) ∧
  (packProvenance p = Ok packed -> 0 < packed <= U128_MAX).
Proof.
  assert (forall q x, packProvenance q = Ok x -> provenanceOk q ∧ x = packedSum q) as Hpack.
  { intros q x Hq. destruct (assertValidProvenance_res q) as [Hv|[e He]].
    - apply assertValidProvenance_ok in Hv. rewrite pack_sum in Hq by done. by injection Hq as <-.
    - unfold packProvenance in Hq. by rewrite He in Hq. }
  split; [split|].
  - intros [Hp ->]%Hpack. by apply unpack_pack.
  - unfold unpackProvenance. destruct (_ || _) eqn:Hb; [done|].
    destruct (Z.eqb_spec (field packed SHIFT_version 4) PROVENANCE_VERSION) as [Hv|]; [|done].
    destruct (Z.eqb_spec (field packed SHIFT_reserved 8) 0) as [Hr|]; [|done]. cbn [negb].
    set (q := mkProvenance _ _ _ _).
    destruct (assertValidProvenance_res q) as [Hq|[e He]]; [|by rewrite He].
    rewrite Hq. cbn [mbind res_bind]. intros [= <-]. apply assertValidProvenance_ok in Hq. rewrite pack_sum by done. f_equal.
    unfold packedSum, q. cbn [pv_trustTier pv_agreeingSources pv_decisionId pv_sourceTimestamp]. destruct (hex16_print (field packed 0 64)) as [_ ->]; [by apply field_bounds|].
    apply fields_sum; [|done..]. change U128_MAX with (2 ^ 128 - 1) in Hb. lia.
  - intros [Hp ->]%Hpack. pose proof (packed_fields p Hp) as [Hb _]. split; [|lia].
    destruct Hp as [Ht Hs _ Hi Hts]. apply hex16_reprint in Hi as [_ Hi]. unfold packedSum. lia.
Qed.

(** An exact decimal survives printing and parsing at every scale 0..38, sign
    included, and both directions reject exactly the other scales. *)
Theorem fixed_decimal_roundtrip (scaled scale : Z) :
  match formatFixedDecimal scaled scale with
  | Ok printed => 0 <= scale <= 38 ∧ parseFixedDecimal printed scale = Ok scaled
  | Err _ => (scale < 0 ∨ 38 < scale) ∧ forall s, is_ok (parseFixedDecimal s scale) = false
  end.
Proof.
  unfold formatFixedDecimal, parseFixedDecimal. destruct (badScale scale) eqn:Hb; unfold badScale in Hb; [split; [lia|done]|].
  split; [lia|]. cbv zeta. set (a := if bool_decide (scaled < 0) then - scaled else scaled).
  assert (0 <= a) as Ha by (unfold a; case_bool_decide; lia).
  assert (Z.of_nat (Z.to_nat scale) = scale) as Hk by lia.
  destruct (decide (scale = 0)) as [->|Hne].
  - rewrite (bool_decide_eq_true_2 (0 = 0)) by done. change (10 ^ 0) with 1. rewrite Z.quot_1_r.
    destruct (nat_text_spec a Ha) as (Hd & Hn & Hv). rewrite (z_text_nonneg a) by done.
    destruct (canonical_integer (bool_decide (scaled < 0)) _ Hd Hn) as (Hre & Hsm & Htk & Haf).
    replace (if bool_decide (scaled < 0) then c_minus :: nat_text a else nat_text a)
      with ((if bool_decide (scaled < 0) then [c_minus] else []) ++ nat_text a) by (by case_bool_decide).
    rewrite Hre, Hsm, Htk, Haf, Hv. simpl. f_equal. unfold a, dec_val. case_bool_decide; simpl; lia.
  - rewrite (bool_decide_eq_false_2 (scale = 0)) by done.
    destruct (decimal_parts a (Z.to_nat scale) ltac:(lia) Ha) as (Hw & Hwn & Hf & Hfl & Hv). rewrite Hk in Hw, Hwn, Hf, Hfl, Hv.
    set (w := z_text (Z.quot a (10 ^ scale))) in *. set (f := padStart _ (z_text (Z.rem a (10 ^ scale)))) in *.
    assert (f ≠ []) as Hfn by (intros E; rewrite E in Hfl; simpl in Hfl; lia).
    destruct (canonical_decimal (bool_decide (scaled < 0)) w f Hw Hwn Hf Hfn) as (Hre & Hsm & Htk & Haf).
    replace (if bool_decide (scaled < 0) then c_minus :: w ++ c_dot :: f else w ++ c_dot :: f)
      with ((if bool_decide (scaled < 0) then [c_minus] else []) ++ w ++ c_dot :: f) by (by case_bool_decide).
    rewrite Hre, Hsm, Htk, Haf. cbn [negb]. rewrite (proj2 (Z.ltb_ge _ _)) by lia.
    rewrite padEnd_full, Hv by lia. f_equal. unfold a. case_bool_decide; lia.
Qed.

(** * The signed payload binds its fields *)

Lemma bytesBE_length n v : length (bytesBE n v) = n.
Proof. induction n; simpl; congruence. Qed.

Lemma bytesBE_inj n a b : bytesBE n a = bytesBE n b -> a mod 256 ^ Z.of_nat n = b mod 256 ^ Z.of_nat n.
Proof.
  induction n as [|n IH]; simpl bytesBE; [intros _; simpl; by rewrite !Z.mod_1_r|].
  intros [= Hh Ht]. specialize (IH Ht). rewrite !Z.shiftr_div_pow2 in Hh by lia.
  rewrite (Z.pow_mul_r 2 8) in Hh by lia. change (2 ^ 8) with 256 in Hh.
  rewrite Nat2Z.inj_succ, Z.pow_succ_r, (Z.mul_comm 256) by lia.
  rewrite !Z.rem_mul_r by lia. by rewrite IH, Hh.
Qed.

Lemma utf8_inj s1 s2 : utf8 s1 = utf8 s2 -> s1 = s2.
Proof.
  unfold utf8. intros E. rewrite <- (String.string_of_list_ascii_of_string s1), <- (String.string_of_list_ascii_of_string s2).
  f_equal. revert E. generalize (String.list_ascii_of_string s1), (String.list_ascii_of_string s2).
  induction l as [|x l IH]; intros [|y l'] E; try done. injection E as Hxy E. apply N2Z.inj in Hxy.
  f_equal; [|by apply IH]. by rewrite <- (ascii_N_embedding x), <- (ascii_N_embedding y), Hxy.
Qed.

Lemma writeUInt32BE_ok v l : writeUInt32BE v = Ok l -> 0 <= v < 2 ^ 32 ∧ l = bytesBE 4 v.
Proof. unfold writeUInt32BE. destruct (_ && _) eqn:E; [|done]. intros [= <-]. split; [lia|done]. Qed.

Lemma bytesBE4_inj a b : 0 <= a < 2 ^ 32 -> 0 <= b < 2 ^ 32 -> bytesBE 4 a = bytesBE 4 b -> a = b.
Proof.
  intros Ha Hb E%bytesBE_inj. change (256 ^ Z.of_nat 4) with (2 ^ 32) in E. by rewrite !Z.mod_small in E.
Qed.

(** A length-prefixed field is delimited: it can be cut off the front in one way. *)
Lemma part_inj b1 b2 p1 p2 r1 r2 : part b1 = Ok p1 -> part b2 = Ok p2 -> p1 ++ r1 = p2 ++ r2 -> b1 = b2 ∧ r1 = r2.
Proof.
  unfold part. destruct (writeUInt32BE (Z.of_nat (length b1))) as [l1|] eqn:E1; [|done].
  destruct (writeUInt32BE (Z.of_nat (length b2))) as [l2|] eqn:E2; [|done]. simpl. intros [= <-] [= <-].
  apply writeUInt32BE_ok in E1 as [H1 ->], E2 as [H2 ->]. rewrite <- !app_assoc. intros E.
  apply app_inj_1 in E as [El E]; [|by rewrite !bytesBE_length].
  apply bytesBE4_inj in El; [|done..]. apply app_inj_1 in E; [done|lia].
Qed.

Lemma coverageTypeToU32_ok t c : coverageTypeToU32 t = Ok c -> (t, c) ∈ coverageDiscriminants.
Proof. unfold coverageTypeToU32. destruct (jm_get _ _) eqn:E; [|done]. intros [= <-]. by apply jm_get_Some_in. Qed.

Lemma coverageTypeToU32_inj t1 t2 c : coverageTypeToU32 t1 = Ok c -> coverageTypeToU32 t2 = Ok c -> t1 = t2.
Proof.
  intros H1%coverageTypeToU32_ok H2%coverageTypeToU32_ok.
  enough ((t1, c) = (t2, c)) by congruence.
  eapply (NoDup_map_inj snd); [|exact H1|exact H2|done]. apply (bool_decide_unpack _). by vm_compute.
Qed.

Definition valueBytes (scaled : Z) : list Z := bytesBE 8 (asUintN64 (Z.shiftr scaled 64)) ++ bytesBE 8 (asUintN64 scaled).

Lemma valueBytes_inj a b : valueBytes a = valueBytes b -> a mod 2 ^ 128 = b mod 2 ^ 128.
Proof.
  unfold valueBytes, asUintN64. intros E. apply app_inj_1 in E as [Eh El]; [|by rewrite !bytesBE_length].
  apply bytesBE_inj in Eh, El. change (256 ^ Z.of_nat 8) with (2 ^ 64) in *. rewrite !Zmod_mod in Eh, El.
  rewrite !Z.shiftr_div_pow2 in Eh by lia. change (2 ^ 128) with (2 ^ 64 * 2 ^ 64).
  rewrite !Z.rem_mul_r by lia. by rewrite Eh, El.
Qed.

Lemma payload_inv cid t v did bytes : buildPublishPayload cid t v did = Ok bytes ->
  ∃ scaled code tb p1 p2 p3 p4 p5, scaleOracleValue t v = Ok scaled ∧ coverageTypeToU32 t = Ok code ∧ writeUInt32BE code = Ok tb ∧
    part (utf8 "refract-oracle-v1") = Ok p1 ∧ part (utf8 cid) = Ok p2 ∧ part tb = Ok p3 ∧ part (valueBytes scaled) = Ok p4 ∧
    part (utf8 did) = Ok p5 ∧ bytes = p1 ++ p2 ++ p3 ++ p4 ++ p5.
Proof.
  unfold buildPublishPayload. intros Hb.
  repeat match type of Hb with
  | (?m ≫= _) = Ok _ => destruct m eqn:?; [cbn [mbind res_bind] in Hb; cbv zeta in Hb|discriminate Hb]
  end.
  injection Hb as <-. do 8 eexists. repeat (split; [first [eassumption|reflexivity]|]). reflexivity.
Qed.

Lemma i128_congruent a b : I128_MIN <= a <= I128_MAX -> I128_MIN <= b <= I128_MAX -> a mod 2 ^ 128 = b mod 2 ^ 128 -> a = b.
Proof.
  change I128_MAX with (2 ^ 127 - 1). change I128_MIN with (- 2 ^ 127). intros Ha Hb E.
  assert (exists k, a - b = k * 2 ^ 128) as [k Hk].
  { exists (a / 2 ^ 128 - b / 2 ^ 128). rewrite (Z.div_mod a (2 ^ 128)) at 1 by lia.
    rewrite (Z.div_mod b (2 ^ 128)) at 1 by lia. rewrite E. lia. }
  assert (k = 0) by lia. lia.
Qed.

(** "length-prefixed fields so they cannot bleed into each other": two
    submissions sign the same bytes only when the contract, the coverage type and
    the decision id are the same and the scaled values agree as 128-bit words,
    hence are equal when they are in the i128 range. *)
Theorem publish_payload_binds (c1 t1 d1 c2 t2 d2 : string) (v1 v2 : num) (bytes : list Z)
    (H1 : buildPublishPayload c1 t1 v1 d1 = Ok bytes) (H2 : buildPublishPayload c2 t2 v2 d2 = Ok bytes) :
  c1 = c2 ∧ t1 = t2 ∧ d1 = d2 ∧
  ∃ s1 s2, scaleOracleValue t1 v1 = Ok s1 ∧ scaleOracleValue t2 v2 = Ok s2 ∧ s1 mod 2 ^ 128 = s2 mod 2 ^ 128 ∧
    (I128_MIN <= s1 <= I128_MAX -> I128_MIN <= s2 <= I128_MAX -> s1 = s2).
Proof.
  apply payload_inv in H1 as (s1 & k1 & tb1 & a1 & a2 & a3 & a4 & a5 & Hs1 & Hk1 & Ht1 & Ha1 & Ha2 & Ha3 & Ha4 & Ha5 & ->).
  apply payload_inv in H2 as (s2 & k2 & tb2 & b1 & b2 & b3 & b4 & b5 & Hs2 & Hk2 & Ht2 & Hb1 & Hb2 & Hb3 & Hb4 & Hb5 & E).
  destruct (part_inj _ _ _ _ _ _ Ha1 Hb1 E) as [_ E1]. destruct (part_inj _ _ _ _ _ _ Ha2 Hb2 E1) as [Hc%utf8_inj E2].
  destruct (part_inj _ _ _ _ _ _ Ha3 Hb3 E2) as [Htb E3]. destruct (part_inj _ _ _ _ _ _ Ha4 Hb4 E3) as [Hv%valueBytes_inj E4].
  destruct (part_inj _ _ _ _ [] [] Ha5 Hb5) as [Hd%utf8_inj _]; [by rewrite E4|].
  apply writeUInt32BE_ok in Ht1 as [Hr1 ->], Ht2 as [Hr2 ->]. apply bytesBE4_inj in Htb; [|done..]. subst k2.
  split_and!; [done|by eapply coverageTypeToU32_inj|done|]. exists s1, s2. split_and!; [done..|]. intros. by apply i128_congruent.
Qed.

(** Two readings that round to the same minute sign the same bytes. *)
Lemma publish_payload_binds_witness :
  ∃ bytes, buildPublishPayload "C1" "FlightDelay" 247%float "d" = Ok bytes ∧
    buildPublishPayload "C1" "FlightDelay" 247.25%float "d" = Ok bytes ∧ "C1"%string = "C1"%string.
Proof.
  eexists. split; [vm_compute; reflexivity|]. split; [vm_compute; reflexivity|].
  apply (publish_payload_binds "C1" "FlightDelay" "d" "C1" "FlightDelay" "d" 247%float 247.25%float
           _ ltac:(vm_compute; reflexivity) ltac:(vm_compute; reflexivity)).
Defined.

(** * Publishing a decision *)

(** [digest("hex")] of SHA-256: 64 lowercase hexadecimal digits. *)
Class HexDigest `{JsHost} : Prop :=
  digest_hex : forall s, forallb is_hex (String.list_ascii_of_string (sha256Hex s)) = true ∧
                         length (String.list_ascii_of_string (sha256Hex s)) = 64%nat.

Lemma decisionId_hex16 `{HexDigest} obs policy status value now :
  hex16_re (String.list_ascii_of_string (computeDecisionId obs policy status value now)) = true.
Proof.
  unfold computeDecisionId, sliceTo. cbv zeta. rewrite String.list_ascii_of_string_of_list_ascii.
  match goal with |- context [sha256Hex ?s] =>
    destruct (digest_hex s) as [Hx Hl]; set (h := String.list_ascii_of_string (sha256Hex s)) in * end.
  unfold hex16_re. rewrite andb_true_iff, bool_decide_eq_true. split; [rewrite length_take; lia|].
  rewrite <- (take_drop 16 h), forallb_app in Hx. by apply andb_true_iff in Hx as [? _].
Qed.

(** An agreed decision can be published: deriving the on-chain provenance of an
    evaluated round fails only when the round was not agreed, when more than 255
    sources agree, or when the earliest observation is outside the 40-bit second
    range; otherwise the derived provenance records the round's tier, count and
    id, and packs to a word that unpacks to it. *)
Theorem agreed_decision_publishable `{HexDigest} obs policy now d (He : evaluateConsensus obs policy now = Ok d) :
  match provenanceFromDecision d with
  | Ok p =>
      rd_status d = Agreed ∧ pv_trustTier p = tierCode (rd_trustTier d) ∧
      pv_agreeingSources p = Z.of_nat (length (rd_agreeingSources d)) ∧
      pv_decisionId p = String.list_ascii_of_string (rd_decisionId d) ∧
      ∃ packed, packProvenance p = Ok packed ∧ unpackProvenance packed = Ok p
  | Err _ =>
      rd_status d ≠ Agreed ∨ (255 < length (rd_agreeingSources d))%nat ∨
      ∃ ts, rd_sourceTimestamp d = Some ts ∧
        match floor_to_Z (ts / 1000)%float with Some s => s < 0 ∨ TIMESTAMP_MAX < s | None => True end
  end.
Proof.
  unfold provenanceFromDecision. destruct (decide (rd_status d = Agreed)) as [Hs|Hs].
  2:{ destruct (rd_status d); [done|by left..]. }
  rewrite Hs. destruct (agreement_holds obs policy now d He Hs) as [l Hl].
  destruct (ag_time _ _ _ _ _ Hl) as (o & _ & Hts & _). rewrite Hts.
  destruct (floor_to_Z _) as [s|] eqn:Hf; [|right; right; eexists; split; [done|by rewrite Hf]].
  set (p := mkProvenance _ _ _ _).
  destruct (assertValidProvenance_res p) as [Hv|[e Hv]]; rewrite Hv; cbn [mbind res_bind].
  - split_and!; [done..|]. pose proof Hv as Hp%assertValidProvenance_ok. exists (packedSum p).
    rewrite (pack_sum p Hp). split; [done|]. by apply unpack_pack.
  - destruct (decide (255 < length (rd_agreeingSources d))%nat) as [|Hc]; [by right; left|].
    destruct (decide (s < 0 ∨ TIMESTAMP_MAX < s)) as [|Ht]; [right; right; eexists; split; [done|by rewrite Hf]|].
    exfalso. assert (provenanceOk p) as Hp%assertValidProvenance_ok; [|congruence].
    assert (Z.of_nat (length (rd_agreeingSources d)) = Z.of_nat (length l)) as Hlen.
    { rewrite (ag_ids _ _ _ _ _ Hl). unfold sort_strings. by rewrite sort_by_length, length_map. }
    pose proof (ag_tier _ _ _ _ _ Hl) as Htier. unfold TIMESTAMP_MAX in Ht.
    assert (hex16_re (String.list_ascii_of_string (rd_decisionId d)) = true) as Hid.
    { rewrite (evaluate_decisionId obs policy now d He). apply decisionId_hex16. }
    split; simpl; [destruct (rd_trustTier d); simpl; lia|lia| |done|lia].
    rewrite Hlen. destruct (rd_trustTier d); unfold minSources; simpl; lia.
Qed.

(** A host whose digest has the documented shape. *)
Definition hexHost : JsHost := {|
  localeLe := string_leb; numToString := @numToString demoHost;
  sha256Hex _ := String.string_of_list_ascii (replicate 64 c_zero) |}.
#[global] Instance hexHost_digest : @HexDigest hexHost.
Proof. intros s. by vm_compute. Qed.

Lemma agreed_decision_publishable_witness :
  ∃ d p, @evaluateConsensus hexHost demoRound DEFAULT_CONSENSUS_POLICY 2000%float = Ok d ∧
    provenanceFromDecision d = Ok p ∧ ∃ packed, packProvenance p = Ok packed ∧ unpackProvenance packed = Ok p.
Proof.
  eexists _, _. split; [vm_compute; reflexivity|]. split; [vm_compute; reflexivity|].
  apply (@agreed_decision_publishable hexHost hexHost_digest demoRound DEFAULT_CONSENSUS_POLICY 2000%float
           _ ltac:(vm_compute; reflexivity)).
Defined.
