(* ===== verification/Regions.v ===== *)
(** Cross-region agreement (src/oracle/regions/region-quorum.ts) and the
    aggregator that keeps the regions' observations and the last trust state of
    each feed (src/oracle/regions/regional-quorum.aggregator.ts).

    Times are integer milliseconds, values and tolerances binary64.  The
    signature check of a report is code of the signed-webhook sources; the
    aggregator is modelled from the verified report on. *)

From stdpp Require Import base list strings sets.
From Stdlib Require Import ZArith Lia Floats.
From S2P Require Import Prelude Decimal JsNum Canonical.

#[local] Open Scope Z_scope.

(** * Data *)

Record RegionProfile := mkProfile {
  rp_region : string; rp_cdn : option string; rp_dnsProvider : option string; rp_asn : option string; rp_cloudProvider : option string }.

Inductive Dimension := DimCdn | DimDnsProvider | DimAsn | DimCloudProvider.
Definition FAILURE_DOMAIN_DIMENSIONS : list Dimension := [DimCdn; DimDnsProvider; DimAsn; DimCloudProvider].
Definition dimensionText (d : Dimension) : string :=
  match d with DimCdn => "cdn" | DimDnsProvider => "dnsProvider" | DimAsn => "asn" | DimCloudProvider => "cloudProvider" end.

Inductive FetchErrorKind := FeTimeout | FeDns | FeTls | FeConnection | FeHttp4xx | FeHttp5xx | FeInvalidResponse.
#[global] Instance FetchErrorKind_eq_dec : EqDecision FetchErrorKind. Proof. solve_decision. Defined.
Definition errorKindText (k : FetchErrorKind) : string :=
  match k with
  | FeTimeout => "timeout" | FeDns => "dns" | FeTls => "tls" | FeConnection => "connection"
  | FeHttp4xx => "http_4xx" | FeHttp5xx => "http_5xx" | FeInvalidResponse => "invalid_response"
  end.

Inductive RegionalOutcome :=
| OutOk (value : num) (upstreamTimestamp : option Z)
| OutError (error : FetchErrorKind).

Record RegionalObservation := mkRegional { rb_region : string; rb_feedId : string; rb_observedAt : Z; rb_outcome : RegionalOutcome }.

Inductive FeedTrustState := FtTrusted | FtUnderCorroborated | FtDisputed | FtDegraded.
#[global] Instance FeedTrustState_eq_dec : EqDecision FeedTrustState.
Proof. solve_decision. Defined.

Inductive FailureDimension := FdDomain (d : Dimension) | FdErrorKind | FdWidespread | FdStaleUpstream.

Record CorrelatedFailure := mkCorrelated {
  cf_dimension : FailureDimension; cf_value : string; cf_regions : list string; cf_errorKinds : list FetchErrorKind }.

Record QuorumConfig := mkQuorumConfig {
  qc_minAgreeingRegions : Z; qc_minDistinctFailureDomains : Z; qc_requireDistinct : list Dimension;
  qc_toleranceBps : num; qc_absoluteTolerance : num; qc_maxObservationAgeMs : Z; qc_correlatedMinRegions : Z;
  qc_correlatedMinFraction : num; qc_maxUpstreamAgeMs : Z }.

Definition DEFAULT_QUORUM_CONFIG : QuorumConfig :=
  mkQuorumConfig 2 2 [DimCdn; DimDnsProvider; DimAsn] 50 0x1.12e0be826d695p-30 (2 * 60000) 2 0.75 (10 * 60000).

Record QuorumVerdict := mkQVerdict {
  qv_feedId : string; qv_trust : FeedTrustState; qv_value : option num; qv_agreeingRegions : list string;
  qv_dissentingRegions : list string; qv_failingRegions : list string; qv_missingRegions : list string;
  qv_correlatedFailures : list CorrelatedFailure; qv_reasons : list string; qv_evaluatedAt : Z }.

(** * Evaluation *)

(** The median of the regions' values: no check, [undefined] is NaN in arithmetic. *)
Definition regionMedian (values : list num) : num :=
  let s := sort_by (fun a b => nle (a - b)%float 0%float) values in
  let mid := (length s / 2)%nat in
  if (length s mod 2 =? 1)%nat then nth mid s nan
  else ((match mid with O => nan | S m => nth m s nan end + nth mid s nan) / 2)%float.

Definition attribute (p : RegionProfile) (d : Dimension) : option string :=
  match d with DimCdn => rp_cdn p | DimDnsProvider => rp_dnsProvider p | DimAsn => rp_asn p | DimCloudProvider => rp_cloudProvider p end.

Definition domainOf (profile : option RegionProfile) (d : Dimension) : string :=
  default "unknown" (profile ≫= fun p => attribute p d).

Definition profileMap (profiles : list RegionProfile) : list (string * RegionProfile) :=
  foldl (fun m p => jm_set m (rp_region p) p) [] profiles.

Definition okValue (o : RegionalObservation) : option num :=
  match rb_outcome o with OutOk v _ => if isFinite v then Some v else None | OutError _ => None end.
Definition valueOf (o : RegionalObservation) : num := match rb_outcome o with OutOk v _ => v | OutError _ => nan end.
Definition stampOf (o : RegionalObservation) : option Z := match rb_outcome o with OutOk _ t => t | OutError _ => None end.

Section Quorum.
Context `{JsHost}.

(** Fresh enough, and not from the future. *)
Definition isRecent (config : QuorumConfig) (now : Z) (o : RegionalObservation) : bool :=
  negb ((qc_maxObservationAgeMs config <? now - rb_observedAt o) || (now + 30000 <? rb_observedAt o)).

Definition latestStep (feedId : string) (known : list (string * RegionProfile)) (config : QuorumConfig) (now : Z)
    (latest : list (string * RegionalObservation)) (o : RegionalObservation) : list (string * RegionalObservation) :=
  if negb (bool_decide (rb_feedId o = feedId)) || negb (jm_has known (rb_region o)) then latest
  else if negb (isRecent config now o) then latest
  else match jm_get latest (rb_region o) with
       | Some prev => if rb_observedAt prev <? rb_observedAt o then jm_set latest (rb_region o) o else latest
       | None => jm_set latest (rb_region o) o
       end.

Definition latestByRegion (feedId : string) (known : list (string * RegionProfile)) (config : QuorumConfig) (now : Z)
    (observations : list RegionalObservation) : list (string * RegionalObservation) :=
  foldl (latestStep feedId known config now) [] observations.

(** Appends to the list of a key: [m.set(k, [...(m.get(k) ?? []), x])]. *)
Definition pushTo {A} `{EqDecision A} (m : list (A * list string)) (k : A) (x : string) : list (A * list string) :=
  jm_set m k (default [] (jm_get m k) ++ [x]).

Definition ratio (a b : nat) : num := (num_of_Z (Z.of_nat a) / num_of_Z (Z.of_nat b))%float.

Definition enough (config : QuorumConfig) (failing members : nat) : bool :=
  (qc_correlatedMinRegions config <=? Z.of_nat failing) && nge (ratio failing members) (qc_correlatedMinFraction config).

Definition detectCorrelatedFailures (latest : list (string * RegionalObservation)) (missingRegions : list string)
    (profiles : list RegionProfile) (agreeing : list RegionalObservation) (config : QuorumConfig) (now : Z) : list CorrelatedFailure :=
  let errors := omap (fun o => match rb_outcome o with OutError k => Some (rb_region o, k) | _ => None end) (jm_values latest) in
  let down := setOf (missingRegions ++ map fst errors) in
  let kindsFor regions := sort_by (fun a b => string_leb (errorKindText a) (errorKindText b))
                            (remove_dups (omap (jm_get errors) regions)) in
  let shared d :=
    let byValue := foldl (fun m p => match attribute p d with
                                     | Some v => if bool_decide (v = "") then m else pushTo m v (rp_region p)
                                     | None => m end) [] profiles in
    omap (fun vm => let failing := sort_strings (filter (fun r => r ∈ down) vm.2) in
                    if enough config (length failing) (length vm.2)
                    then Some (mkCorrelated (FdDomain d) vm.1 failing (kindsFor failing)) else None)
      (sort_by (fun a b => localeLe a.1 b.1) byValue) in
  let byKind := foldl (fun m rk => pushTo m rk.2 rk.1) [] errors in
  let sameError := omap (fun kr => if enough config (length kr.2) (length profiles)
                                   then Some (mkCorrelated FdErrorKind (errorKindText kr.1) (sort_strings kr.2) [kr.1]) else None)
                     (sort_by (fun a b => localeLe (errorKindText a.1) (errorKindText b.1)) byKind) in
  let widespread := if enough config (length down) (length profiles)
    then [mkCorrelated FdWidespread (showZ (Z.of_nat (length down)) +:+ "/" +:+ showZ (Z.of_nat (length profiles)))
            (sort_strings down) (kindsFor (sort_strings down))] else [] in
  let stale := match map stampOf agreeing with
    | Some t :: _ =>
        if (qc_correlatedMinRegions config <=? Z.of_nat (length agreeing)) &&
           forallb (fun s => bool_decide (s = Some t)) (map stampOf agreeing) && (qc_maxUpstreamAgeMs config <? now - t)
        then [mkCorrelated FdStaleUpstream (showZ t) (sort_strings (map rb_region agreeing)) []] else []
    | _ => [] end in
  concat (map shared FAILURE_DOMAIN_DIMENSIONS) ++ sameError ++ widespread ++ stale.

Definition isStaleFailure (c : CorrelatedFailure) : bool := match cf_dimension c with FdStaleUpstream => true | _ => false end.

(** The trust ladder: agreement, majority, distinct failure domains, correlated
    failures, each with the reasons it adds. *)
Definition agreementTrust (config : QuorumConfig) (ok agreeing : list RegionalObservation) : FeedTrustState * list string :=
  let n := Z.of_nat (length agreeing) in
  let '(t1, r1) := if n <? qc_minAgreeingRegions config
    then (FtUnderCorroborated, [showZ n +:+ " agreeing region(s), need " +:+ showZ (qc_minAgreeingRegions config)]) else (FtTrusted, []) in
  if (0 <? length ok)%nat && (2 * length agreeing <=? length ok)%nat
  then (FtDisputed, r1 ++ ["no majority among " +:+ showZ (Z.of_nat (length ok)) +:+ " responding region(s)"]) else (t1, r1).

Definition domainsOf (known : list (string * RegionProfile)) (agreeing : list RegionalObservation) (d : Dimension) : list string :=
  setOf (map (fun o => domainOf (jm_get known (rb_region o)) d) agreeing).

Definition distinctStep (known : list (string * RegionProfile)) (config : QuorumConfig) (agreeing : list RegionalObservation)
    (acc : FeedTrustState * list string) (d : Dimension) : FeedTrustState * list string :=
  let distinct := domainsOf known agreeing d in
  if (0 <? length agreeing)%nat && (Z.of_nat (length distinct) <? qc_minDistinctFailureDomains config)
  then (if bool_decide (acc.1 = FtTrusted) then FtUnderCorroborated else acc.1,
        acc.2 ++ ["agreeing regions share " +:+ dimensionText d +:+ " (" +:+ joinWith ", " distinct +:+ "); need " +:+
                  showZ (qc_minDistinctFailureDomains config) +:+ " distinct"])
  else acc.

Definition correlatedTrust (failures : list CorrelatedFailure) (acc : FeedTrustState * list string) : FeedTrustState * list string :=
  if existsb isStaleFailure failures
  then (FtDegraded, acc.2 ++ ["agreeing regions are all serving the same frozen upstream value"])
  else if (0 <? length failures)%nat && bool_decide (acc.1 ≠ FtTrusted)
  then (FtDegraded, acc.2 ++ ["quorum lost during a correlated failure"])
  else if (0 <? length failures)%nat
  then (acc.1, acc.2 ++ ["correlated failure detected, but enough independent regions still agree"])
  else acc.

Definition tolerance (config : QuorumConfig) (m : num) : num :=
  nmax (qc_absoluteTolerance config) (abs m * qc_toleranceBps config / 10000)%float.

Definition okObservations (latest : list (string * RegionalObservation)) : list RegionalObservation :=
  filter (fun o => is_Some (okValue o)) (jm_values latest).

Definition agreeingOf (config : QuorumConfig) (ok : list RegionalObservation) : list RegionalObservation :=
  let m := regionMedian (map valueOf ok) in
  filter (fun o => nle (abs (valueOf o - m))%float (tolerance config m) = true) ok.
Definition dissentingOf (config : QuorumConfig) (ok : list RegionalObservation) : list RegionalObservation :=
  let m := regionMedian (map valueOf ok) in
  filter (fun o => ngt (abs (valueOf o - m))%float (tolerance config m) = true) ok.

Definition evaluateRegionalQuorum (feedId : string) (observations : list RegionalObservation) (profiles : list RegionProfile)
    (config : QuorumConfig) (now : Z) : QuorumVerdict :=
  let known := profileMap profiles in
  let latest := latestByRegion feedId known config now observations in
  let regions := sort_strings (jm_keys known) in
  let missingRegions := filter (fun r => jm_has latest r = false) regions in
  let ok := okObservations latest in
  let failingRegions := sort_strings (map rb_region (filter (fun o => okValue o = None) (jm_values latest))) in
  let agreeing := agreeingOf config ok in
  let dissenting := dissentingOf config ok in
  let failures := detectCorrelatedFailures latest missingRegions profiles agreeing config now in
  let '(trust, reasons) :=
    correlatedTrust failures
      (foldl (distinctStep known config agreeing) (agreementTrust config ok agreeing) (qc_requireDistinct config)) in
  mkQVerdict feedId trust (if bool_decide (trust = FtTrusted) then Some (regionMedian (map valueOf agreeing)) else None)
    (sort_strings (map rb_region agreeing)) (sort_strings (map rb_region dissenting)) failingRegions missingRegions failures reasons now.
End Quorum.

(** * The aggregator *)

Record Aggregator := mkAggregator {
  ag_regions : list (string * RegionProfile); ag_observations : list (string * list (string * RegionalObservation));
  ag_lastTrust : list (string * FeedTrustState) }.

Definition emptyAggregator : Aggregator := mkAggregator [] [] [].

Record TrustTransition := mkTrustTransition {
  tt_feedId : string; tt_from : option FeedTrustState; tt_to : FeedTrustState; tt_at : Z; tt_verdict : QuorumVerdict }.

(** [/^[a-z0-9-]{2,32}$/] *)
Definition regionNameChar (c : Ascii.ascii) : bool :=
  let n := Ascii.nat_of_ascii c in
  ((97 <=? n) && (n <=? 122) || (48 <=? n) && (n <=? 57) || (n =? 45))%nat.
Definition validRegionName (s : string) : bool :=
  let t := String.list_ascii_of_string s in ((2 <=? length t) && (length t <=? 32))%nat && forallb regionNameChar t.

Section Aggregator.
Context `{JsHost}.
Variable config : QuorumConfig.

(** [usable] is the verdict of [assertCredentialsUsable] on the region's keys. *)
Definition registerRegion (p : RegionProfile) (usable : bool) (a : Aggregator) : res string Aggregator :=
  if negb (validRegionName (rp_region p)) then Err ("Invalid region name: " +:+ rp_region p)
  else if jm_has (ag_regions a) (rp_region p) then Err ("Region " +:+ rp_region p +:+ " already registered")
  else if negb usable then Err "unusable credentials"
  else Ok (mkAggregator (jm_set (ag_regions a) (rp_region p) p) (ag_observations a) (ag_lastTrust a)).

Definition recordRegional (obs : RegionalObservation) (a : Aggregator) : bool * Aggregator :=
  if negb (jm_has (ag_regions a) (rb_region obs)) then (false, a)
  else
    let byRegion := default [] (jm_get (ag_observations a) (rb_feedId obs)) in
    if match jm_get byRegion (rb_region obs) with Some prev => rb_observedAt obs <=? rb_observedAt prev | None => false end
    then (false, a)
    else (true, mkAggregator (ag_regions a) (jm_set (ag_observations a) (rb_feedId obs) (jm_set byRegion (rb_region obs) obs)) (ag_lastTrust a)).

Definition peek (feedId : string) (now : Z) (a : Aggregator) : QuorumVerdict :=
  evaluateRegionalQuorum feedId (jm_values (default [] (jm_get (ag_observations a) feedId))) (jm_values (ag_regions a)) config now.

(** The verdict every listener gets, and the transition when trust changed. *)
Definition evaluateFeed (feedId : string) (now : Z) (a : Aggregator) : QuorumVerdict * option TrustTransition * Aggregator :=
  let verdict := peek feedId now a in
  let from := jm_get (ag_lastTrust a) feedId in
  if bool_decide (from = Some (qv_trust verdict)) then (verdict, None, a)
  else (verdict, Some (mkTrustTransition feedId from (qv_trust verdict) now verdict),
        mkAggregator (ag_regions a) (ag_observations a) (jm_set (ag_lastTrust a) feedId (qv_trust verdict))).

(** A report that passed the signature check at [timestamp] seconds: what was
    recorded, and the feeds to evaluate. *)
Fixpoint recordReport (timestamp : Z) (observations : list RegionalObservation) (a : Aggregator) : list string * Aggregator :=
  match observations with
  | [] => ([], a)
  | o :: rest =>
      if timestamp * 1000 + 30000 <? rb_observedAt o then recordReport timestamp rest a
      else
        let '(fresh, a1) := recordRegional o a in
        let '(feeds, a2) := recordReport timestamp rest a1 in
        (if fresh then rb_feedId o :: feeds else feeds, a2)
  end.

(** Evaluates feeds in order, collecting what the listeners are told. *)
Fixpoint evaluateFeeds (feeds : list string) (now : Z) (a : Aggregator) : list (QuorumVerdict * option TrustTransition) * Aggregator :=
  match feeds with
  | [] => ([], a)
  | feedId :: rest =>
      let '(verdict, transition, a1) := evaluateFeed feedId now a in
      let '(events, a2) := evaluateFeeds rest now a1 in
      ((verdict, transition) :: events, a2)
  end.

Definition ingestReport (timestamp : Z) (observations : list RegionalObservation) (now : Z) (a : Aggregator) :
    list (QuorumVerdict * option TrustTransition) * Aggregator :=
  let '(feeds, a1) := recordReport timestamp observations a in
  evaluateFeeds (sort_strings (setOf feeds)) now a1.

Definition evaluateAll (now : Z) (a : Aggregator) : list (QuorumVerdict * option TrustTransition) * Aggregator :=
  evaluateFeeds (sort_strings (jm_keys (ag_observations a))) now a.

Definition isQuorumEnforced (a : Aggregator) : bool := qc_minAgreeingRegions config <=? Z.of_nat (length (ag_regions a)).

Definition trustedValue (feedId : string) (now : Z) (a : Aggregator) : option num :=
  let v := peek feedId now a in if bool_decide (qv_trust v = FtTrusted) then qv_value v else None.

Definition trustState (feedId : string) (a : Aggregator) : option FeedTrustState :=
  if negb (isQuorumEnforced a) then None else jm_get (ag_lastTrust a) feedId.
End Aggregator.

(** * The latest observation of a region *)

Section QuorumLemmas.
Context `{JsHost}.

(** An observation the evaluation looks at. *)
Definition counts (feedId : string) (known : list (string * RegionProfile)) (config : QuorumConfig) (now : Z) (o : RegionalObservation) : bool :=
  bool_decide (rb_feedId o = feedId) && jm_has known (rb_region o) && isRecent config now o.

(** The first of the newest observations of its region. *)
Record isNewest (feedId : string) (known : list (string * RegionProfile)) (config : QuorumConfig) (now : Z)
    (obs : list RegionalObservation) (o : RegionalObservation) : Prop := {
  nw_first : ∃ i, obs !! i = Some o ∧ forall j o', (j < i)%nat -> obs !! j = Some o' -> counts feedId known config now o' = true ->
    rb_region o' = rb_region o -> rb_observedAt o' < rb_observedAt o;
  nw_counts : counts feedId known config now o = true;
  nw_max : forall o', o' ∈ obs -> counts feedId known config now o' = true -> rb_region o' = rb_region o -> rb_observedAt o' <= rb_observedAt o }.

Lemma latestStep_counts feedId known config now latest o :
  latestStep feedId known config now latest o =
  if counts feedId known config now o then
    match jm_get latest (rb_region o) with
    | Some prev => if rb_observedAt prev <? rb_observedAt o then jm_set latest (rb_region o) o else latest
    | None => jm_set latest (rb_region o) o
    end
  else latest.
Proof. unfold latestStep, counts. by destruct (bool_decide _), (jm_has _ _), (isRecent _ _ _). Qed.

Lemma latestByRegion_spec feedId known config now obs r :
  match jm_get (latestByRegion feedId known config now obs) r with
  | Some o => rb_region o = r ∧ isNewest feedId known config now obs o
  | None => forall o, o ∈ obs -> counts feedId known config now o = true -> rb_region o ≠ r
  end.
Proof.
  unfold latestByRegion. induction obs as [|o obs IH] using rev_ind; [by intros o ?%not_elem_of_nil|].
  rewrite foldl_app. simpl. rewrite latestStep_counts. set (l := foldl _ _ _) in *.
  assert (forall o1, isNewest feedId known config now obs o1 ->
            (counts feedId known config now o = true -> rb_region o = rb_region o1 -> rb_observedAt o <= rb_observedAt o1) ->
            isNewest feedId known config now (obs ++ [o]) o1) as Hkeep.
  { intros o1 [(i & Hi & Hf) Hc Hm] Ho. split; [|done|].
    { exists i. split; [by apply lookup_app_l_Some|]. intros j o' Hj Hl. apply (Hf j o' Hj).
      rewrite lookup_app_l in Hl; [done|]. apply lookup_lt_Some in Hi. lia. }
    intros o' [Ho'|Ho']%elem_of_app; [by apply Hm|]. apply list_elem_of_singleton in Ho' as ->. auto. }
  assert (forall m, jm_get l r = m -> (counts feedId known config now o = true -> rb_region o ≠ r) ->
            match m with Some o1 => rb_region o1 = r ∧ isNewest feedId known config now (obs ++ [o]) o1
            | None => forall o1, o1 ∈ obs ++ [o] -> counts feedId known config now o1 = true -> rb_region o1 ≠ r end) as Hother.
  { intros m <- Hne. destruct (jm_get l r) as [o1|].
    - destruct IH as [Hr Hn]. split; [done|]. apply Hkeep; [done|]. intros Hc Heq. by rewrite Hr in Heq; destruct (Hne Hc).
    - intros o1 [Ho1|Ho1]%elem_of_app; [by apply IH|]. apply list_elem_of_singleton in Ho1 as ->. exact Hne. }
  assert ((forall o', o' ∈ obs -> counts feedId known config now o' = true -> rb_region o' = rb_region o -> rb_observedAt o' < rb_observedAt o) ->
          counts feedId known config now o = true -> isNewest feedId known config now (obs ++ [o]) o) as Hnew.
  { intros Hm Hc. split; [|done|].
    - exists (length obs). split; [by apply list_lookup_middle|]. intros j o' Hj Hl Hco Hr. apply Hm; [|done|done].
      rewrite lookup_app_l in Hl by done. by eapply list_elem_of_lookup_2.
    - intros o' [Ho'|Ho']%elem_of_app; [intros Hc' Hr'; specialize (Hm o' Ho' Hc' Hr'); lia|]. by apply list_elem_of_singleton in Ho' as ->. }
  destruct (counts feedId known config now o) eqn:Hc; [|by apply Hother].
  destruct (decide (rb_region o = r)) as [<-|Hne].
  - destruct (jm_get l (rb_region o)) as [prev|] eqn:Ep.
    + destruct IH as [Hr Hp]. destruct (Z.ltb_spec (rb_observedAt prev) (rb_observedAt o)).
      * rewrite jm_get_set_eq. split; [done|]. apply Hnew; [|done]. intros o' Ho' Hc' Hr'.
        pose proof (nw_max _ _ _ _ _ _ Hp o' Ho' Hc' ltac:(congruence)). lia.
      * rewrite Ep. split; [done|]. apply Hkeep; [done|]. intros; lia.
    + rewrite jm_get_set_eq. split; [done|]. apply Hnew; [|done]. intros o' Ho' Hc' Hr'. by destruct (IH o' Ho' Hc').
  - assert (forall l', jm_get l' r = jm_get l r ->
      match jm_get l' r with Some o1 => rb_region o1 = r ∧ isNewest feedId known config now (obs ++ [o]) o1
      | None => forall o1, o1 ∈ obs ++ [o] -> counts feedId known config now o1 = true -> rb_region o1 ≠ r end) as Hl.
    { intros l' ->. by apply Hother. }
    destruct (jm_get l (rb_region o)) as [prev|]; [destruct (_ <? _)|]; apply Hl; by rewrite ?jm_get_set_ne.
Qed.

(** A region has one of them. *)
Lemma isNewest_unique feedId known config now obs o o' :
  isNewest feedId known config now obs o -> isNewest feedId known config now obs o' -> rb_region o = rb_region o' -> o = o'.
Proof.
  intros [(i & Hi & Hf) Hc Hm] [(j & Hj & Hg) Hc' Hm'] Hr. destruct (Nat.lt_trichotomy i j) as [Hlt|[->|Hlt]]; [|congruence|].
  - specialize (Hg i o Hlt Hi Hc Hr). specialize (Hm o' (list_elem_of_lookup_2 _ _ _ Hj) Hc' (eq_sym Hr)). lia.
  - specialize (Hf j o' Hlt Hj Hc' (eq_sym Hr)). specialize (Hm' o (list_elem_of_lookup_2 _ _ _ Hi) Hc Hr). lia.
Qed.

Lemma latestByRegion_NoDup feedId known config now obs : NoDup (jm_keys (latestByRegion feedId known config now obs)).
Proof.
  unfold latestByRegion. induction obs as [|o obs IH] using rev_ind; [constructor|].
  rewrite foldl_app. simpl. rewrite latestStep_counts. repeat case_match; auto using jm_set_NoDup.
Qed.

Lemma latest_values feedId known config now obs o :
  o ∈ jm_values (latestByRegion feedId known config now obs) ->
  isNewest feedId known config now obs o ∧ jm_get (latestByRegion feedId known config now obs) (rb_region o) = Some o.
Proof.
  intros ([r o'] & -> & Hin)%list_elem_of_fmap. apply jm_in_get in Hin; [|apply latestByRegion_NoDup].
  pose proof (latestByRegion_spec feedId known config now obs r) as Hs. rewrite Hin in Hs. simpl in *.
  destruct Hs as [Hr ?]. by rewrite Hr.
Qed.

(** The responding regions are those whose newest observation has a finite value. *)
Lemma okObservations_iff feedId known config now obs o :
  o ∈ okObservations (latestByRegion feedId known config now obs) <-> isNewest feedId known config now obs o ∧ isFinite (valueOf o) = true.
Proof.
  assert (is_Some (okValue o) <-> isFinite (valueOf o) = true) as Hfin.
  { unfold okValue, valueOf. destruct (rb_outcome o) as [v t|]; [destruct (isFinite v); split; [done|eauto|by intros []|done]|].
    split; [by intros []|]. intros E. vm_compute in E. discriminate E. }
  unfold okObservations. rewrite list_elem_of_filter, Hfin. split.
  - intros [Hf Hin]. by apply latest_values in Hin as [? _].
  - intros [Hn Hf]. split; [done|]. pose proof (latestByRegion_spec feedId known config now obs (rb_region o)) as Hs.
    destruct (jm_get _ (rb_region o)) as [o1|] eqn:E.
    + destruct Hs as [Hr Hn1]. rewrite (isNewest_unique _ _ _ _ _ _ _ Hn1 Hn Hr) in E. apply jm_get_Some_in in E.
      unfold jm_values. apply list_elem_of_fmap. by exists (rb_region o, o).
    + destruct Hn as [(i & Hi & _) Hc _]. by destruct (Hs o (list_elem_of_lookup_2 _ _ _ Hi) Hc).
Qed.

Lemma latest_regions_NoDup feedId known config now obs :
  NoDup (map rb_region (jm_values (latestByRegion feedId known config now obs))).
Proof.
  assert (map rb_region (jm_values (latestByRegion feedId known config now obs)) = jm_keys (latestByRegion feedId known config now obs)) as ->;
    [|apply latestByRegion_NoDup].
  unfold jm_values, jm_keys. pose proof (latestByRegion_NoDup feedId known config now obs) as Hn.
  assert (forall r o, (r, o) ∈ latestByRegion feedId known config now obs -> rb_region o = r) as Hr.
  { intros r o Hin. apply jm_in_get in Hin; [|done]. pose proof (latestByRegion_spec feedId known config now obs r) as Hs.
    rewrite Hin in Hs. by destruct Hs. }
  revert Hr. generalize (latestByRegion feedId known config now obs). intros l. clear.
  induction l as [|[r o] l IH]; intros Hr; [done|]. simpl. f_equal; [apply Hr; by left|]. apply IH. intros; apply Hr; by right.
Qed.

(** * Trust *)

(** All agreeing regions report one upstream time that is too old. *)
Definition frozen (config : QuorumConfig) (now : Z) (agreeing : list RegionalObservation) : Prop :=
  agreeing ≠ [] ∧ qc_correlatedMinRegions config <= Z.of_nat (length agreeing) ∧
  ∃ t, Forall (fun o => stampOf o = Some t) agreeing ∧ qc_maxUpstreamAgeMs config < now - t.

(** What a trusted verdict rests on: [ok] holds exactly one observation per responding
    region, the first of its newest if its value is finite; [agreeing] are exactly those
    of them within the tolerance of their median. *)
Record trustedBy (feedId : string) (obs : list RegionalObservation) (profiles : list RegionProfile) (config : QuorumConfig) (now : Z)
    (v : QuorumVerdict) (ok agreeing : list RegionalObservation) : Prop := {
  tb_responding : forall o, o ∈ ok <-> isNewest feedId (profileMap profiles) config now obs o ∧ isFinite (valueOf o) = true;
  tb_once : NoDup (map rb_region ok);
  tb_agreeing : forall o, o ∈ agreeing <-> o ∈ ok ∧
    let m := regionMedian (map valueOf ok) in nle (abs (valueOf o - m))%float (tolerance config m) = true;
  tb_regions : qv_agreeingRegions v = sort_strings (map rb_region agreeing) ∧ NoDup (qv_agreeingRegions v);
  tb_count : qc_minAgreeingRegions config <= Z.of_nat (length agreeing);
  tb_majority : ok ≠ [] -> (length ok < 2 * length agreeing)%nat;
  tb_domains : forall d, d ∈ qc_requireDistinct config -> agreeing ≠ [] ->
    qc_minDistinctFailureDomains config <= Z.of_nat (length (domainsOf (profileMap profiles) agreeing d));
  tb_not_frozen : ~ frozen config now agreeing;
  tb_value : qv_value v = Some (regionMedian (map valueOf agreeing)) }.

Lemma distinctStep_trusted known config agreeing dims : forall acc,
  (foldl (distinctStep known config agreeing) acc dims).1 = FtTrusted ->
  acc.1 = FtTrusted ∧ forall d, d ∈ dims -> agreeing ≠ [] ->
    qc_minDistinctFailureDomains config <= Z.of_nat (length (domainsOf known agreeing d)).
Proof.
  induction dims as [|d dims IH]; intros acc; simpl; [intros; split; [done|by intros ? ?%not_elem_of_nil]|].
  intros [Ha Hd]%IH. unfold distinctStep in Ha.
  destruct (_ && _) eqn:E; simpl in Ha.
  { exfalso. case_bool_decide; congruence. }
  split; [done|]. intros d' [->|Hin]%elem_of_cons Hne; [|by apply Hd].
  apply andb_false_iff in E as [E|E]; [|lia]. destruct agreeing; [done|]. simpl in E. done.
Qed.

Lemma correlatedTrust_trusted failures acc :
  (correlatedTrust failures acc).1 = FtTrusted -> acc.1 = FtTrusted ∧ existsb isStaleFailure failures = false.
Proof.
  unfold correlatedTrust. destruct (existsb _ _); [done|]. destruct (0 <? _)%nat; simpl; [|done].
  case_bool_decide as Hb; simpl; [done|]. intros; split; [done|done].
Qed.

Lemma detect_frozen latest missing profiles agreeing config now :
  frozen config now agreeing -> existsb isStaleFailure (detectCorrelatedFailures latest missing profiles agreeing config now) = true.
Proof.
  intros (Hne & Hmin & t & Hall & Hage). unfold detectCorrelatedFailures. cbv zeta.
  rewrite !existsb_app, !orb_true_iff. right. right. right.
  destruct agreeing as [|o os]; [done|]. cbn [map]. apply Forall_cons in Hall as [Ho Hos]. rewrite Ho.
  assert (forallb (fun s => bool_decide (s = Some t)) (Some t :: map stampOf os) = true) as Hf.
  { simpl. rewrite bool_decide_eq_true_2 by done. simpl. apply forallb_forall. intros s Hs.
    apply list_elem_of_In, list_elem_of_fmap in Hs as (o' & -> & Ho'). apply bool_decide_eq_true.
    by eapply Forall_forall in Hos. }
  rewrite (proj2 (Z.leb_le _ _) Hmin), Hf, (proj2 (Z.ltb_lt _ _) Hage). done.
Qed.

(** C20: a feed is trusted only on independent agreement: at least the configured
    number of registered regions, each with its newest recent observation, agree
    within the tolerance of the median of all responding regions (every registered
    region whose newest recent observation is finite, counted once); those that agree
    are more than half of all responding regions, span enough distinct values of every
    required failure domain (all unknown values counting as one), and do not all
    serve one frozen upstream value; the value is the median of the agreeing
    ones.  A feed that is not trusted has no value. *)
Theorem regional_trust_sound (feedId : string) (obs : list RegionalObservation) (profiles : list RegionProfile)
    (config : QuorumConfig) (now : Z) :
  let v := evaluateRegionalQuorum feedId obs profiles config now in
  match qv_trust v with
  | FtTrusted => ∃ ok agreeing, trustedBy feedId obs profiles config now v ok agreeing
  | _ => qv_value v = None
  end.
Proof.
  unfold evaluateRegionalQuorum. cbv zeta.
  set (latest := latestByRegion feedId (profileMap profiles) config now obs).
  set (ok := okObservations latest). set (agreeing := agreeingOf config ok).
  set (failures := detectCorrelatedFailures _ _ _ _ _ _).
  destruct (correlatedTrust failures _) as [trust reasons] eqn:Et. cbn [qv_trust qv_value].
  destruct (decide (trust = FtTrusted)) as [->|Hne]; [|rewrite bool_decide_eq_false_2 by done; by destruct trust].
  pose proof (correlatedTrust_trusted failures (foldl (distinctStep (profileMap profiles) config agreeing)
     (agreementTrust config ok agreeing) (qc_requireDistinct config))) as Hc.
  rewrite Et in Hc. destruct (Hc eq_refl) as [[Ha Hd]%distinctStep_trusted Hs]. clear Hc.
  exists ok, agreeing. unfold agreementTrust in Ha.
  assert (qc_minAgreeingRegions config <= Z.of_nat (length agreeing) ∧ (ok ≠ [] -> (length ok < 2 * length agreeing)%nat)) as [Hcount Hmaj].
  { destruct (Z.ltb_spec (Z.of_nat (length agreeing)) (qc_minAgreeingRegions config)); destruct (_ && _) eqn:E in Ha; simpl in Ha; try done.
    split; [done|]. intros Hne. destruct ok; [done|]. apply andb_false_iff in E as [E|E]; simpl in E; [done|].
    apply Nat.leb_gt in E. simpl. lia. }
  split; cbn [qv_agreeingRegions qv_value]; try done.
  - intros o. apply okObservations_iff.
  - eapply sublist_NoDup; [apply (latest_regions_NoDup feedId (profileMap profiles) config now obs)|]. apply fmap_sublist, sublist_filter.
  - intros o. unfold agreeing, agreeingOf. rewrite list_elem_of_filter. tauto.
  - split; [done|]. rewrite sort_strings_perm. eapply sublist_NoDup; [apply (latest_regions_NoDup feedId (profileMap profiles) config now obs)|].
    apply fmap_sublist. etrans; [apply sublist_filter|apply sublist_filter].
  - intros Hf. unfold failures in Hs. by rewrite detect_frozen in Hs.
Qed.
End QuorumLemmas.
