(* ===== verification/Evidence.v ===== *)
(** The append-only evidence ledger: event shapes
    (src/oracle/consensus/evidence.types.ts), [EvidenceLedger] and
    [PayloadStore] (src/oracle/consensus/evidence-ledger.ts).

    An event is its ledger position, the time it was recorded and a body of one
    of the source's kinds.  The services run in the state-and-exception monad
    [M]: the state is the ledger, the payload bodies, and the outside world the
    ledger reads, a stream of clock readings and of disk-write outcomes, so a
    theorem holds for every clock (also one that goes backwards) and for every
    pattern of failing writes.  An exception keeps the state reached. *)

From stdpp Require Import base list strings sorting sets.
From Stdlib Require Import ZArith Lia Ascii.
From S2P Require Import Prelude Decimal JsNum Canonical.

#[local] Open Scope Z_scope.

(** * Event shapes *)

Inductive SourceStatus := SrcActive | SrcWarmup | SrcQuarantined | SrcRetired.
Inductive SignatureStatus := SigVerified | SigPending | SigFailed | SigNotRequired.
Inductive TriggerOp := OpLt | OpGt.
Record TriggerRule := mkTrigger { tr_op : TriggerOp; tr_threshold : num }.

#[global] Instance SourceStatus_eq_dec : EqDecision SourceStatus.
Proof. solve_decision. Defined.
#[global] Instance SignatureStatus_eq_dec : EqDecision SignatureStatus.
Proof. solve_decision. Defined.

Record SourceVersion := mkSourceVersion {
  sv_sourceId : string; sv_providerId : string; sv_feedId : string; sv_version : Z;
  sv_status : SourceStatus; sv_weight : num; sv_warmupUntil : option Z;
  sv_retentionDays : Z; sv_credentialRef : option string; sv_declaredUpstream : option string;
  sv_effectiveFrom : Z }.

Record QuorumPolicy := mkQuorumPolicy {
  qp_feedId : string; qp_version : Z; qp_minSources : Z; qp_expectedSources : Z;
  qp_minTotalWeight : num; qp_maxReadingAgeMs : Z; qp_trigger : TriggerRule;
  qp_effectiveFrom : Z }.

Record Reading := mkReading {
  rd_readingId : string; rd_feedId : string; rd_sourceId : string; rd_value : num;
  rd_observedAt : Z; rd_ledgerSeq : option Z; rd_payloadHash : option string;
  rd_signature : SignatureStatus; rd_fingerprint : option string }.

(** The late result is [verified] ([true]) or [failed] ([false]). *)
Record SignatureResult := mkSignatureResult { sg_readingId : string; sg_verified : bool }.

Record PayloadStored := mkPayloadStored { ps_hash : string; ps_sourceId : string; ps_sizeBytes : Z }.

Record ContributingReading := mkContributing {
  cr_readingId : string; cr_sourceId : string; cr_value : num; cr_effectiveWeight : num;
  cr_independent : option bool }.

Inductive Outcome := ODecision | ONoDecision.
#[global] Instance Outcome_eq_dec : EqDecision Outcome.
Proof. solve_decision. Defined.

Record DecisionData := mkDecision {
  dc_decisionId : string; dc_feedId : string; dc_at : Z; dc_ledgerSeq : option Z;
  dc_outcome : Outcome; dc_value : option num; dc_triggered : bool; dc_reason : string;
  dc_policyVersion : option Z; dc_contributing : list ContributingReading }.

Inductive EvidenceGapType := MissingRawPayload | InsufficientSources | SourceInWarmup | SignaturePending.
Record EvidenceGap := mkGap {
  gap_type : EvidenceGapType; gap_detail : string;
  gap_readingId : option string; gap_sourceId : option string }.

Inductive HoldEscalationReason := DeadlineExceeded | VerdictContradicted | PolicyExpiredWhileHeld.
Inductive HoldDisposition := ApprovePayout | Deny | ExtendHold.

#[global] Instance EvidenceGapType_eq_dec : EqDecision EvidenceGapType.
Proof. solve_decision. Defined.
#[global] Instance EvidenceGap_eq_dec : EqDecision EvidenceGap.
Proof. solve_decision. Defined.

Record HoldPlaced := mkHoldPlaced {
  hp_holdId : string; hp_policyId : string; hp_holder : string; hp_feedId : string;
  hp_decisionId : string; hp_gaps : list EvidenceGap; hp_reason : string; hp_deadline : Z;
  hp_policyExpiresAt : Z }.

Record Penalty := mkPenalty {
  pn_penaltyId : string; pn_feedId : string; pn_sourceA : string; pn_sourceB : string;
  pn_factor : num; pn_windowStart : Z; pn_windowEnd : Z; pn_lagBuckets : Z;
  pn_informativeSamples : Z; pn_matches : Z; pn_exactMatches : Z; pn_matchRatio : num;
  pn_evidence : list (Z * string * string * num * num) }.

Record PenaltyCleared := mkPenaltyCleared {
  pc_penaltyId : string; pc_feedId : string; pc_sourceA : string; pc_sourceB : string;
  pc_reason : string; pc_matchRatio : num; pc_informativeSamples : Z }.

Inductive EventBody :=
| ESourceVersion (d : SourceVersion)
| EQuorumPolicy (d : QuorumPolicy)
| EReading (d : Reading)
| ESignatureResult (d : SignatureResult)
| EPayloadStored (d : PayloadStored)
| EDecision (d : DecisionData)
| EHoldPlaced (d : HoldPlaced)
| EHoldReevaluated (holdId decisionId : string) (gaps : list EvidenceGap)
| EHoldReleased (holdId decisionId reason : string)
| EHoldEscalated (holdId : string) (escalation : HoldEscalationReason) (reason : string)
| EHoldDisposed (holdId : string) (disposition : HoldDisposition) (actor note : string) (deadline : option Z)
| EHoldSettled (holdId : string)
| EPenalty (d : Penalty)
| EPenaltyCleared (d : PenaltyCleared)
| EPayloadPurged (hash sourceId offboardingId reason : string)
| EOffboardingStarted (offboardingId sourceId actor reason : string) (purgeScope : list string) (retained : list (string * string))
| ECredentialRevoked (offboardingId sourceId credentialRef : string)
| EOffboardingCompleted (offboardingId sourceId : string) (purged retained : Z)
| EAudit (action actor reason : string) (details : json).

Record EvidenceEvent := mkEvent { ev_seq : Z; ev_recordedAt : Z; ev_body : EventBody }.

(** * The ledger *)

(** [lastRecordedAt]: [None] is [-Infinity]. *)
Definition lastRecordedAt (log : list EvidenceEvent) : option Z := ev_recordedAt <$> last log.

(** [Math.max(x, y)] where [y] may be [-Infinity]. *)
Definition maxOpt (x : Z) (y : option Z) : Z := match y with Some v => Z.max x v | None => x end.

Record LState := mkLState {
  st_log : list EvidenceEvent;
  st_bodies : list (string * string);
  st_clock : nat -> Z; st_ticks : nat;
  st_disk : nat -> bool; st_writes : nat }.

Definition setLog (s : LState) (l : list EvidenceEvent) : LState :=
  mkLState l (st_bodies s) (st_clock s) (st_ticks s) (st_disk s) (st_writes s).
Definition setBodies (s : LState) (b : list (string * string)) : LState :=
  mkLState (st_log s) b (st_clock s) (st_ticks s) (st_disk s) (st_writes s).

(** Exceptions carry their message. *)
Definition M (A : Type) : Type := LState -> res string A * LState.

#[global] Instance M_ret : MRet M := fun A a s => (Ok a, s).
#[global] Instance M_bind : MBind M := fun A B f m s =>
  match m s with
  | (Ok a, s') => f a s'
  | (Err e, s') => (Err e, s')
  end.

Lemma bind_Ok {A B} (m : M A) (f : A -> M B) s a s' : m s = (Ok a, s') -> (m ≫= f) s = f a s'.
Proof. unfold mbind, M_bind. by intros ->. Qed.

Lemma bind_Err {A B} (m : M A) (f : A -> M B) s e s' : m s = (Err e, s') -> (m ≫= f) s = (Err e, s').
Proof. unfold mbind, M_bind. by intros ->. Qed.

Definition throw {A} (msg : string) : M A := fun s => (Err msg, s).
Definition tryCatch {A} (m : M A) (h : string -> M A) : M A := fun s =>
  match m s with (Ok a, s') => (Ok a, s') | (Err e, s') => h e s' end.
Definition events : M (list EvidenceEvent) := fun s => (Ok (st_log s), s).

(** [this.clock()]: the next reading of the wall clock. *)
Definition readClock : M Z := fun s =>
  (Ok (st_clock s (st_ticks s)),
   mkLState (st_log s) (st_bodies s) (st_clock s) (S (st_ticks s)) (st_disk s) (st_writes s)).

(** [fs.appendFileSync]: the next write succeeds or throws. *)
Definition writeLine : M unit := fun s =>
  let s' := mkLState (st_log s) (st_bodies s) (st_clock s) (st_ticks s) (st_disk s) (S (st_writes s)) in
  if st_disk s (st_writes s) then (Ok tt, s') else (Err "write failed", s').

Definition push (e : EvidenceEvent) : M unit := fun s => (Ok tt, setLog s (st_log s ++ [e])).

Definition ledgerNow : M Z :=
  c ← readClock; log ← events; mret (maxOpt c (lastRecordedAt log)).

(** [append]: [at] is the caller's [recordedAt], if any.  The write comes before
    the push, so a failed write leaves the log as it was. *)
Definition append (body : EventBody) (at_ : option Z) : M EvidenceEvent :=
  requested ← match at_ with Some t => mret t | None => readClock end;
  log ← events;
  let full := mkEvent (Z.of_nat (length log) + 1)
                (maxOpt requested ((fun t => t + 1) <$> lastRecordedAt log)) body in
  _ ← writeLine;
  _ ← push full;
  mret full.

Definition reserveTimestamp : M Z :=
  c ← readClock; log ← events; mret (maxOpt c ((fun t => t + 1) <$> lastRecordedAt log)).

(** [fromEvents]: a read-only ledger over persisted events. *)
Definition fromEvents (evs : list EvidenceEvent) : list EvidenceEvent := [] ++ evs.

(** * The payload store *)

(** A SHA-256 digest in hexadecimal: 64 characters of [0-9a-f]. *)
Definition isHexLower (c : ascii) : bool :=
  let n := nat_of_ascii c in
  ((48 <=? n)%nat && (n <=? 57)%nat) || ((97 <=? n)%nat && (n <=? 102)%nat).
Definition isHash (hash : string) : bool :=
  let t := String.list_ascii_of_string hash in
  forallb isHexLower t && (length t =? 64)%nat.

Definition assertHash (hash : string) : res string unit :=
  guard_res (isHash hash) ("Invalid payload hash " +:+ hash).

Definition liftRes {A} (f : LState -> res string A) : M A := fun s => (f s, s).

Definition modifyBodies (f : list (string * string) -> list (string * string)) : M unit :=
  fun s => (Ok tt, setBodies s (f (st_bodies s))).

Definition payloadPut (payloadHash : string -> string) (body : string) : M string :=
  let hash := payloadHash body in _ ← modifyBodies (fun b => jm_set b hash body); mret hash.

Definition payloadHas (bodies : list (string * string)) (hash : string) : res string bool :=
  _ ← assertHash hash; Ok (jm_has bodies hash).

Definition payloadGet (bodies : list (string * string)) (hash : string) : res string (option string) :=
  _ ← assertHash hash; Ok (jm_get bodies hash).

Definition payloadDelete (hash : string) : M unit :=
  _ ← liftRes (fun _ => assertHash hash);
  modifyBodies (fun b => jm_delete b hash).

(** * Well-formed ledgers *)

(** Recording times strictly increase and positions count from one. *)
Definition before (a b : EvidenceEvent) : Prop := ev_recordedAt a < ev_recordedAt b.

Record wf_log (log : list EvidenceEvent) : Prop := {
  wf_sorted : StronglySorted before log;
  wf_seq : forall i e, log !! i = Some e -> ev_seq e = Z.of_nat i + 1 }.

Lemma wf_nil : wf_log [].
Proof. split; [constructor|]. intros i e. by rewrite lookup_nil. Qed.

Lemma StronglySorted_snoc {A} (R : A -> A -> Prop) l x :
  StronglySorted R l -> Forall (fun y => R y x) l -> StronglySorted R (l ++ [x]).
Proof.
  induction 1 as [|y l Hs IH Hall]; simpl; intros Hx; [repeat constructor|].
  apply Forall_cons in Hx as [Hy Hx]. constructor; [by apply IH|].
  apply Forall_app; split; [done|]. by constructor.
Qed.

(** All events of a sorted log are at most the last one. *)
Lemma sorted_last (log : list EvidenceEvent) t e :
  StronglySorted before log -> lastRecordedAt log = Some t -> e ∈ log -> ev_recordedAt e <= t.
Proof.
  intros Hs. unfold lastRecordedAt. destruct (last log) as [l|] eqn:Hl; [|done].
  simpl; intros [= <-] He. apply last_Some in Hl as [log' ->].
  apply elem_of_app in He as [He|He%list_elem_of_singleton]; [|subst; lia].
  apply StronglySorted_app in Hs as (Hx & _ & _).
  specialize (Hx e l He (list_elem_of_here _ _)). unfold before in Hx. lia.
Qed.

Lemma last_None_nil (log : list EvidenceEvent) : lastRecordedAt log = None -> log = [].
Proof. unfold lastRecordedAt. destruct (last log) eqn:E; [done|]. by apply last_None in E. Qed.

(** The next position and any time past the last event extend the log. *)
Lemma wf_snoc log e :
  wf_log log -> ev_seq e = Z.of_nat (length log) + 1 ->
  (forall t, lastRecordedAt log = Some t -> t < ev_recordedAt e) -> wf_log (log ++ [e]).
Proof.
  intros [Hs Hq] He Ht. split.
  - apply StronglySorted_snoc; [done|]. apply Forall_forall; intros x Hx.
    unfold before. destruct (lastRecordedAt log) as [t|] eqn:El.
    + pose proof (sorted_last log t x Hs El Hx). specialize (Ht t eq_refl). lia.
    + apply last_None_nil in El. subst. by apply not_elem_of_nil in Hx.
  - intros i x. rewrite lookup_app. destruct (log !! i) eqn:Ei; [intros [= <-]; by apply Hq|].
    intros [Hi ->]%list_lookup_singleton_Some. apply lookup_ge_None in Ei.
    rewrite He. lia.
Qed.

(** ** Programs that only append *)

(** [m] extends the ledger, keeps it well formed, and keeps the outside world. *)
Definition extends (s s' : LState) : Prop :=
  st_log s `prefix_of` st_log s' ∧ wf_log (st_log s').
Definition appends {A} (m : M A) : Prop :=
  forall s, wf_log (st_log s) -> extends s (m s).2.

Lemma appends_ret {A} (a : A) : appends (mret a).
Proof. intros s Hs. by split. Qed.

Lemma appends_bind {A B} (m : M A) (f : A -> M B) :
  appends m -> (forall a, appends (f a)) -> appends (m ≫= f).
Proof.
  intros Hm Hf s Hs. specialize (Hm s Hs). unfold mbind, M_bind.
  destruct (m s) as [[a|e] s'] eqn:E; simpl in *; [|done].
  destruct Hm as [Hp Hw]. destruct (Hf a s' Hw) as [Hp' Hw']. split; [by etrans|done].
Qed.

Lemma appends_pure {A} (f : LState -> res string A) : appends (liftRes f).
Proof. intros s Hs. by split. Qed.

Lemma appends_throw {A} msg : appends (@throw A msg).
Proof. intros s Hs. by split. Qed.

Lemma appends_events : appends events.
Proof. intros s Hs. by split. Qed.

Lemma appends_readClock : appends readClock.
Proof. intros s Hs. by split. Qed.

Lemma appends_tryCatch {A} (m : M A) h : appends m -> (forall e, appends (h e)) -> appends (tryCatch m h).
Proof.
  intros Hm Hh s Hs. specialize (Hm s Hs). unfold tryCatch.
  destruct (m s) as [[a|e] s'] eqn:E; simpl in *; [done|].
  destruct Hm as [Hp Hw]. destruct (Hh e s' Hw) as [Hp' Hw']. split; [by etrans|done].
Qed.

(** What an append does: nothing on a failed write, else one more event, at the
    next position, later than everything recorded. *)
Lemma append_spec body at_ s :
  match append body at_ s with
  | (Ok e, s') => st_log s' = st_log s ++ [e] ∧ ev_body e = body ∧
      ev_seq e = Z.of_nat (length (st_log s)) + 1 ∧
      (forall t, lastRecordedAt (st_log s) = Some t -> t < ev_recordedAt e) ∧
      (forall t, at_ = Some t -> (forall u, lastRecordedAt (st_log s) = Some u -> u < t) -> ev_recordedAt e = t)
  | (Err _, s') => st_log s' = st_log s
  end ∧ st_bodies (append body at_ s).2 = st_bodies s.
Proof.
  unfold append, writeLine, push, events, mbind, M_bind, mret, M_ret, readClock, maxOpt.
  destruct at_ as [t|]; simpl; destruct (st_disk s (st_writes s)); simpl; split; try done;
    split_and!; try done; destruct (lastRecordedAt (st_log s)); simpl; intros; simplify_eq; try lia.
  specialize (H0 z eq_refl). lia.
Qed.

Lemma appends_append body at_ : appends (append body at_).
Proof.
  intros s Hs. pose proof (append_spec body at_ s) as [H _].
  destruct (append body at_ s) as [[e|x] s']; simpl.
  - destruct H as (Hl & _ & Hq & Ht & _). split; rewrite Hl; [by apply prefix_app_r|].
    by apply wf_snoc.
  - split; by rewrite H.
Qed.

Lemma appends_payloadDelete h : appends (payloadDelete h).
Proof. intros s Hs. unfold payloadDelete, mbind, M_bind, liftRes. by destruct (assertHash h). Qed.

Lemma appends_if {A} (b : bool) (m1 m2 : M A) : appends m1 -> appends m2 -> appends (if b then m1 else m2).
Proof. by destruct b. Qed.

#[export] Hint Resolve appends_ret appends_bind appends_pure appends_throw appends_events
  appends_readClock appends_tryCatch appends_append appends_payloadDelete appends_if : refract.

Lemma appends_ledgerNow : appends ledgerNow.
Proof. unfold ledgerNow. eauto with refract. Qed.

Lemma appends_reserveTimestamp : appends reserveTimestamp.
Proof. unfold reserveTimestamp. eauto with refract. Qed.

#[export] Hint Resolve appends_ledgerNow appends_reserveTimestamp : refract.
