(* ===== verification/LedgerView.v ===== *)
(** Version-aware lookups over ledger events
    (src/oracle/consensus/ledger-view.ts): every function takes a knowledge
    cutoff, and configuration applies once its [effectiveFrom] has passed.

    The theorems show that "recorded at or before T" is an exact prefix of a
    ledger, so no lookup at T changes as the ledger grows. *)

From stdpp Require Import base list strings sorting sets.
From Stdlib Require Import ZArith Lia.
From S2P Require Import Prelude Decimal JsNum Canonical Evidence.

#[local] Open Scope Z_scope.

Definition knownAt (evs : list EvidenceEvent) (t : Z) : list EvidenceEvent :=
  filter (fun e => ev_recordedAt e <= t) evs.

Record SourceState := mkSourceState {
  ss_sourceId : string; ss_providerId : string; ss_feedId : string; ss_version : Z;
  ss_status : SourceStatus; ss_weight : num; ss_retentionDays : Z;
  ss_credentialRef : option string; ss_declaredUpstream : option string; ss_effectiveFrom : Z }.

(** The body of the loop of [sourcesAt]. *)
Definition sourcesStep (feedId : string) (t : Z) (latest : list (string * SourceVersion)) (e : EvidenceEvent) :
    list (string * SourceVersion) :=
  match ev_body e with
  | ESourceVersion v =>
      if negb (String.eqb (sv_feedId v) feedId) then latest
      else if (t <? ev_recordedAt e) || (t <? sv_effectiveFrom v) then latest
      else match jm_get latest (sv_sourceId v) with
           | None => jm_set latest (sv_sourceId v) v
           | Some prev => if sv_version prev <? sv_version v then jm_set latest (sv_sourceId v) v else latest
           end
  | _ => latest
  end.

(** Status after applying warm-up at time [t]. *)
Definition statusAt (v : SourceVersion) (t : Z) : SourceStatus :=
  match sv_status v, sv_warmupUntil v with
  | SrcActive, Some w => if t <? w then SrcWarmup else SrcActive
  | st, _ => st
  end.

Definition toSourceState (t : Z) (v : SourceVersion) : SourceState :=
  mkSourceState (sv_sourceId v) (sv_providerId v) (sv_feedId v) (sv_version v) (statusAt v t)
    (sv_weight v) (sv_retentionDays v) (sv_credentialRef v) (sv_declaredUpstream v) (sv_effectiveFrom v).

Definition sourcesAt `{JsHost} (evs : list EvidenceEvent) (feedId : string) (t : Z) : list SourceState :=
  sort_by (fun a b => localeLe (ss_sourceId a) (ss_sourceId b))
    (map (toSourceState t) (jm_values (foldl (sourcesStep feedId t) [] evs))).

(** [x > t] where [t = None] is [+Infinity]. *)
Definition after (x : Z) (t : option Z) : bool := match t with Some v => v <? x | None => false end.

Definition sourceVersionStep (sourceId : string) (t : option Z) (found : option SourceVersion) (e : EvidenceEvent) :
    option SourceVersion :=
  match ev_body e with
  | ESourceVersion v =>
      if negb (String.eqb (sv_sourceId v) sourceId) then found
      else if after (ev_recordedAt e) t || after (sv_effectiveFrom v) t then found
      else match found with
           | None => Some v
           | Some f => if sv_version f <? sv_version v then Some v else found
           end
  | _ => found
  end.

Definition sourceVersionAt (evs : list EvidenceEvent) (sourceId : string) (t : option Z) : option SourceVersion :=
  foldl (sourceVersionStep sourceId t) None evs.

Definition latestSourceVersionNumber (evs : list EvidenceEvent) (sourceId : string) : Z :=
  foldl (fun mx e => match ev_body e with
    | ESourceVersion v => if String.eqb (sv_sourceId v) sourceId then Z.max mx (sv_version v) else mx
    | _ => mx end) 0 evs.

(** The policy with the time its event was recorded. *)
Definition policyStep (feedId : string) (t : Z) (found : option (QuorumPolicy * Z)) (e : EvidenceEvent) :
    option (QuorumPolicy * Z) :=
  match ev_body e with
  | EQuorumPolicy p =>
      if negb (String.eqb (qp_feedId p) feedId) then found
      else if (t <? ev_recordedAt e) || (t <? qp_effectiveFrom p) then found
      else match found with
           | None => Some (p, ev_recordedAt e)
           | Some (f, _) => if qp_version f <? qp_version p then Some (p, ev_recordedAt e) else found
           end
  | _ => found
  end.

Definition policyEventAt (evs : list EvidenceEvent) (feedId : string) (t : Z) : option (QuorumPolicy * Z) :=
  foldl (policyStep feedId t) None evs.
Definition policyAt (evs : list EvidenceEvent) (feedId : string) (t : Z) : option QuorumPolicy :=
  fst <$> policyEventAt evs feedId t.

Definition latestPolicyVersionNumber (evs : list EvidenceEvent) (feedId : string) : Z :=
  foldl (fun mx e => match ev_body e with
    | EQuorumPolicy p => if String.eqb (qp_feedId p) feedId then Z.max mx (qp_version p) else mx
    | _ => mx end) 0 evs.

Record ReadingState := mkReadingState {
  rs_readingId : string; rs_feedId : string; rs_sourceId : string; rs_value : num; rs_observedAt : Z;
  rs_ledgerSeq : option Z; rs_payloadHash : option string; rs_signature : SignatureStatus; rs_seq : Z }.

Definition toReadingState (seq : Z) (e : Reading) (override : option bool) : ReadingState :=
  mkReadingState (rd_readingId e) (rd_feedId e) (rd_sourceId e) (rd_value e) (rd_observedAt e)
    (rd_ledgerSeq e) (rd_payloadHash e)
    (match rd_signature e, override with
     | SigPending, Some true => SigVerified
     | SigPending, Some false => SigFailed
     | sg, _ => sg end)
    seq.

Definition signatureResultsAt (evs : list EvidenceEvent) (t : Z) : list (string * bool) :=
  foldl (fun m e => match ev_body e with
    | ESignatureResult r => if ev_recordedAt e <=? t then jm_set m (sg_readingId r) (sg_verified r) else m
    | _ => m end) [] evs.

(** [from = None] is [-Infinity]. *)
Definition readingOf (sig : list (string * bool)) (feedId : string) (t : Z) (from : option Z) (e : EvidenceEvent) :
    option ReadingState :=
  match ev_body e with
  | EReading r =>
      if negb (String.eqb (rd_feedId r) feedId) || (t <? ev_recordedAt e) then None
      else if (t <? rd_observedAt r) || match from with Some f => rd_observedAt r <? f | None => false end then None
      else Some (toReadingState (ev_seq e) r (jm_get sig (rd_readingId r)))
  | _ => None
  end.

Definition readingsAt (evs : list EvidenceEvent) (feedId : string) (t : Z) (from : option Z) : list ReadingState :=
  omap (readingOf (signatureResultsAt evs t) feedId t from) evs.

Definition readingByIdStep (sig : list (string * bool)) (readingId : string) (t : Z) (e : EvidenceEvent) : option ReadingState :=
  match ev_body e with
  | EReading r => if String.eqb (rd_readingId r) readingId && (ev_recordedAt e <=? t)
                  then Some (toReadingState (ev_seq e) r (jm_get sig (rd_readingId r))) else None
  | _ => None
  end.

(** The first match, as the [return] inside the loop gives. *)
Definition readingById (evs : list EvidenceEvent) (readingId : string) (t : Z) : option ReadingState :=
  head (omap (readingByIdStep (signatureResultsAt evs t) readingId t) evs).

(** A set in insertion order. *)
Definition set_add (s : list string) (x : string) : list string := if bool_decide (x ∈ s) then s else s ++ [x].

Definition storedPayloadsAt (evs : list EvidenceEvent) (t : Z) : list string :=
  foldl (fun s e => match ev_body e with
    | EPayloadStored p => if ev_recordedAt e <=? t then set_add s (ps_hash p) else s
    | _ => s end) [] evs.

(** The decision with the position of its event. *)
Definition decisionStep (feedId : string) (t : Z) (found : option (DecisionData * Z)) (e : EvidenceEvent) :
    option (DecisionData * Z) :=
  match ev_body e with
  | EDecision d =>
      if negb (String.eqb (dc_feedId d) feedId) || (t <? ev_recordedAt e) || (t <? dc_at d) then found
      else match found with
           | None => Some (d, ev_seq e)
           | Some (f, fseq) =>
               if (dc_at f <? dc_at d) || ((dc_at d =? dc_at f) && (fseq <? ev_seq e))
               then Some (d, ev_seq e) else found
           end
  | _ => found
  end.

Definition decisionInForceAt (evs : list EvidenceEvent) (feedId : string) (t : Z) : option DecisionData :=
  fst <$> foldl (decisionStep feedId t) None evs.

Definition decisionById (evs : list EvidenceEvent) (decisionId : string) : option DecisionData :=
  head (omap (fun e => match ev_body e with
    | EDecision d => if String.eqb (dc_decisionId d) decisionId then Some d else None
    | _ => None end) evs).

(** Active penalties with the position and time of their events. *)
Definition penaltyStep (feedId : string) (t : Z) (active : list (string * (Penalty * Z * Z))) (e : EvidenceEvent) :
    list (string * (Penalty * Z * Z)) :=
  if t <? ev_recordedAt e then active
  else match ev_body e with
       | EPenalty p => if String.eqb (pn_feedId p) feedId
                       then jm_set active (pn_penaltyId p) (p, ev_seq e, ev_recordedAt e) else active
       | EPenaltyCleared c => if String.eqb (pc_feedId c) feedId then jm_delete active (pc_penaltyId c) else active
       | _ => active
       end.

Definition penaltyEventsAt (evs : list EvidenceEvent) (feedId : string) (t : Z) : list (Penalty * Z * Z) :=
  sort_by (fun a b => a.1.2 <=? b.1.2) (jm_values (foldl (penaltyStep feedId t) [] evs)).
Definition penaltiesAt (evs : list EvidenceEvent) (feedId : string) (t : Z) : list Penalty :=
  map (fun p => p.1.1) (penaltyEventsAt evs feedId t).

(** ** Lookups ignore what was recorded after the cutoff *)

Lemma foldl_skip {A B} (step : A -> B -> A) (P : B -> Prop) `{forall x, Decision (P x)} acc l :
  (forall acc e, ¬ P e -> step acc e = acc) -> foldl step acc l = foldl step acc (filter P l).
Proof.
  intros Hs. revert acc. induction l as [|e l IH]; intros acc; [done|].
  rewrite filter_cons. case_decide; simpl; [apply IH|]. rewrite Hs by done. apply IH.
Qed.

Lemma omap_skip {A B} (f : A -> option B) (P : A -> Prop) `{forall x, Decision (P x)} (l : list A) :
  (forall e, ¬ P e -> f e = None) -> omap f l = omap f (filter P l).
Proof.
  intros Hs. induction l as [|e l IH]; [done|].
  rewrite filter_cons. case_decide; simpl; [destruct (f e); [f_equal|]; exact IH|]. rewrite Hs by done. exact IH.
Qed.

Ltac skip_later :=
  intros; unfold sourcesStep, policyStep, decisionStep, penaltyStep;
  repeat match goal with
  | H : ¬ (?a <= ?t) |- context [?t <? ?a] => replace (t <? a) with true by (symmetry; apply Z.ltb_lt; lia)
  | H : ¬ (?a <= ?t) |- context [?a <=? ?t] => replace (a <=? t) with false by (symmetry; apply Z.leb_gt; lia)
  end;
  rewrite ?orb_true_r, ?andb_false_r; simpl; try done; repeat (case_match; rewrite ?orb_true_r, ?andb_false_r in *; simpl; try done).

Section Known.
Context `{JsHost}.
Implicit Types (evs : list EvidenceEvent) (t : Z).

Lemma sourcesAt_known evs f t : sourcesAt evs f t = sourcesAt (knownAt evs t) f t.
Proof.
  unfold sourcesAt, knownAt.
  rewrite (foldl_skip _ (fun e => ev_recordedAt e <= t) [] evs); [done|skip_later].
Qed.

Lemma policyEventAt_known evs f t : policyEventAt evs f t = policyEventAt (knownAt evs t) f t.
Proof. unfold policyEventAt, knownAt. apply foldl_skip. skip_later. Qed.

Lemma policyAt_known evs f t : policyAt evs f t = policyAt (knownAt evs t) f t.
Proof. unfold policyAt. by rewrite policyEventAt_known. Qed.

Lemma signatureResultsAt_known evs t : signatureResultsAt evs t = signatureResultsAt (knownAt evs t) t.
Proof. unfold signatureResultsAt, knownAt. apply foldl_skip. skip_later. Qed.

Lemma readingsAt_known evs f t from : readingsAt evs f t from = readingsAt (knownAt evs t) f t from.
Proof.
  unfold readingsAt. rewrite signatureResultsAt_known. unfold knownAt.
  apply omap_skip. unfold readingOf. skip_later.
Qed.

Lemma readingById_known evs i t : readingById evs i t = readingById (knownAt evs t) i t.
Proof.
  unfold readingById. rewrite signatureResultsAt_known. f_equal. unfold knownAt.
  apply omap_skip. unfold readingByIdStep. skip_later.
Qed.

Lemma decisionInForceAt_known evs f t : decisionInForceAt evs f t = decisionInForceAt (knownAt evs t) f t.
Proof. unfold decisionInForceAt, knownAt. f_equal. apply foldl_skip. skip_later. Qed.

Lemma penaltyEventsAt_known evs f t : penaltyEventsAt evs f t = penaltyEventsAt (knownAt evs t) f t.
Proof. unfold penaltyEventsAt, knownAt. do 2 f_equal. apply foldl_skip. skip_later. Qed.

Lemma penaltiesAt_known evs f t : penaltiesAt evs f t = penaltiesAt (knownAt evs t) f t.
Proof. unfold penaltiesAt. by rewrite penaltyEventsAt_known. Qed.
End Known.

(** ** The known events are a prefix *)

Lemma knownAt_split evs t :
  StronglySorted before evs ->
  evs = knownAt evs t ++ drop (length (knownAt evs t)) evs ∧
  Forall (fun e => t < ev_recordedAt e) (drop (length (knownAt evs t)) evs).
Proof.
  unfold knownAt. induction 1 as [|e evs Hs [IH1 IH2] Hall]; [done|].
  rewrite filter_cons. case_decide as Hd; simpl.
  - split; [by f_equal|done].
  - assert (filter (fun e => ev_recordedAt e <= t) evs = []) as Hn.
    { apply filter_none. eapply Forall_impl; [exact Hall|]. unfold before. simpl. lia. }
    rewrite Hn. simpl. split; [done|]. constructor; [lia|].
    eapply Forall_impl; [exact Hall|]. unfold before. simpl. lia.
Qed.

Lemma knownAt_prefix evs t : StronglySorted before evs -> knownAt evs t = take (length (knownAt evs t)) evs.
Proof.
  intros Hs. destruct (knownAt_split evs t Hs) as [H _].
  rewrite H at 3. by rewrite take_app_length.
Qed.

(** Events recorded later do not change what was known. *)
Lemma knownAt_app_later evs more t :
  Forall (fun e => t < ev_recordedAt e) more -> knownAt (evs ++ more) t = knownAt evs t.
Proof.
  intros Hm. unfold knownAt. rewrite filter_app.
  replace (filter (fun e => ev_recordedAt e <= t) more) with (@nil EvidenceEvent); [by rewrite app_nil_r|].
  symmetry. apply filter_none. eapply Forall_impl; [exact Hm|]. simpl. lia.
Qed.

(** In a well-formed ledger whatever follows an event is later. *)
Lemma wf_later l e more :
  wf_log (l ++ e :: more) -> Forall (fun x => ev_recordedAt e < ev_recordedAt x) more.
Proof.
  intros [Hs _]. apply StronglySorted_app in Hs as (_ & _ & Hs).
  by apply StronglySorted_inv in Hs as [_ Hs].
Qed.

(** A log of appended requests, with the outcomes of the outside world. *)
Fixpoint runAppends (reqs : list (EventBody * option Z)) : M unit :=
  match reqs with
  | [] => mret tt
  | (b, at_) :: reqs' => _ ← tryCatch (_ ← append b at_; mret tt) (fun _ => mret tt); runAppends reqs'
  end.

Lemma appends_runAppends reqs : appends (runAppends reqs).
Proof. induction reqs as [|[b at_] reqs IH]; simpl; eauto 6 with refract. Qed.

(** C19: whatever events are appended, with whatever requested times, under any
    clock (also one that runs backwards) and any pattern of failing writes, the
    ledger's times strictly increase and its positions count from one, so the
    events recorded at or before [t] are an exact prefix of it. *)
Theorem known_is_exact_prefix (clock : nat -> Z) (disk : nat -> bool) (reqs : list (EventBody * option Z)) (t : Z) :
  let log := st_log (runAppends reqs (mkLState [] [] clock 0 disk 0)).2 in
  wf_log log ∧
  ∃ n, knownAt log t = take n log ∧ Forall (fun e => t < ev_recordedAt e) (drop n log).
Proof.
  intros log. assert (wf_log log) as Hw by (apply appends_runAppends; apply wf_nil).
  split; [done|]. exists (length (knownAt log t)). destruct Hw as [Hs _].
  split; [by apply knownAt_prefix|by apply knownAt_split].
Qed.
