(* ===== verification/Engine.v ===== *)
(** The consensus engine (src/oracle/consensus/consensus.engine.ts): one feed at
    one instant, each source's latest reading inside the policy window,
    ineligible sources filtered, mirror penalties applied, quorum checked, and
    the weighted median of the rest.

    [applyPenalties] mutates the eligibility records through a map of
    references; here the map gives positions of the list, and the records are
    updated in place.  The weighted median of an empty list throws, so
    [computeConsensus] returns [res]. *)

From stdpp Require Import base list strings sorting sets.
From Stdlib Require Import ZArith Lia Floats.
From S2P Require Import Prelude Decimal JsNum Canonical Evidence LedgerView.

#[local] Open Scope Z_scope.

Inductive IneligibleReason := IrRetired | IrQuarantined | IrZeroWeight | IrNoReading | IrSignatureFailed.

Record SourceEligibility := mkElig {
  el_sourceId : string; el_version : Z; el_status : SourceStatus; el_eligible : bool;
  el_reason : option IneligibleReason; el_immature : bool; el_weight : num;
  el_effectiveWeight : num; el_readingId : option string; el_independent : bool;
  el_mirrorOf : option string }.

Record PairPenalty := mkPair { pp_sourceA : string; pp_sourceB : string; pp_factor : num }.

Record ConsensusInput := mkInput {
  ci_feedId : string; ci_at : Z; ci_policy : option QuorumPolicy; ci_sources : list SourceState;
  ci_readings : list ReadingState; ci_penalties : list PairPenalty }.

Record ConsensusResult := mkResult {
  co_feedId : string; co_at : Z; co_outcome : Outcome; co_value : option num; co_triggered : bool;
  co_reason : string; co_policyVersion : option Z; co_contributing : list ContributingReading;
  co_eligibility : list SourceEligibility }.

Definition isWarmup (s : SourceStatus) : bool := bool_decide (s = SrcWarmup).

Definition ineligible (s : SourceState) (reading : option ReadingState) (reason : IneligibleReason) : SourceEligibility :=
  mkElig (ss_sourceId s) (ss_version s) (ss_status s) false (Some reason) (isWarmup (ss_status s))
    (ss_weight s) 0%float (rs_readingId <$> reading) true None.

(** Inside the policy window [windowStart, at]. *)
Definition inWindow (at_ windowStart : Z) (r : ReadingState) : bool :=
  negb ((at_ <? rs_observedAt r) || (rs_observedAt r <? windowStart)).

(** [r] replaces [prev] as its source's latest reading. *)
Definition newer (r prev : ReadingState) : bool :=
  (rs_observedAt prev <? rs_observedAt r) ||
  ((rs_observedAt r =? rs_observedAt prev) && (rs_seq prev <? rs_seq r)).

Definition latestStep (at_ windowStart : Z) (latest : list (string * ReadingState)) (r : ReadingState) :
    list (string * ReadingState) :=
  if negb (inWindow at_ windowStart r) then latest
  else match jm_get latest (rs_sourceId r) with
       | None => jm_set latest (rs_sourceId r) r
       | Some prev => if newer r prev then jm_set latest (rs_sourceId r) r else latest
       end.

Definition latestBySource (at_ windowStart : Z) (readings : list ReadingState) : list (string * ReadingState) :=
  foldl (latestStep at_ windowStart) [] readings.

Definition eligibilityOf (reading : option ReadingState) (s : SourceState) : SourceEligibility :=
  match ss_status s with
  | SrcRetired => ineligible s reading IrRetired
  | SrcQuarantined => ineligible s reading IrQuarantined
  | _ =>
      if nle (ss_weight s) 0 then ineligible s reading IrZeroWeight
      else match reading with
           | None => ineligible s None IrNoReading
           | Some r =>
               if bool_decide (rs_signature r = SigFailed) then ineligible s reading IrSignatureFailed
               else mkElig (ss_sourceId s) (ss_version s) (ss_status s) true None (isWarmup (ss_status s))
                      (ss_weight s) (ss_weight s) (Some (rs_readingId r)) true None
           end
  end.

Definition round (n : num) : num := (mathRound (n * 1000000) / 1000000)%float.

(** [new Map(eligibility.map(e => [e.sourceId, e])).get(id)]: the last entry. *)
Fixpoint lastIndex (id : string) (l : list SourceEligibility) : option nat :=
  match l with
  | [] => None
  | e :: l' => match lastIndex id l' with
               | Some i => Some (S i)
               | None => if String.eqb (el_sourceId e) id then Some 0%nat else None
               end
  end.

Definition keepsFirst (a b : SourceEligibility) : bool :=
  nlt (el_weight b) (el_weight a) ||
  (neq (el_weight a) (el_weight b) && String.ltb (el_sourceId a) (el_sourceId b)).

(** The shadowed record. *)
Definition shadowed (keep shadow : SourceEligibility) (factor : num) : SourceEligibility :=
  mkElig (el_sourceId shadow) (el_version shadow) (el_status shadow) (el_eligible shadow)
    (el_reason shadow) (el_immature shadow) (el_weight shadow) (round (el_weight shadow * factor))
    (el_readingId shadow) false
    (Some (match el_mirrorOf keep with Some m => m | None => el_sourceId keep end)).

Definition applyPenalty (l : list SourceEligibility) (p : PairPenalty) : list SourceEligibility :=
  match lastIndex (pp_sourceA p) l, lastIndex (pp_sourceB p) l with
  | Some i, Some j =>
      match l !! i, l !! j with
      | Some a, Some b =>
          if negb (el_eligible a) || negb (el_eligible b) then l
          else let '(keep, shadow, k) := if keepsFirst a b then (a, b, j) else (b, a, i) in
               if negb (el_independent shadow) then l
               else <[k := shadowed keep shadow (pp_factor p)]> l
      | _, _ => l
      end
  | _, _ => l
  end.

Section Engine.
Context `{JsHost}.

(** [localeCompare] on two keys, the second breaking ties of the first. *)
Definition pairLe (x y : PairPenalty) : bool :=
  if localeLe (pp_sourceA x) (pp_sourceA y)
  then if localeLe (pp_sourceA y) (pp_sourceA x) then localeLe (pp_sourceB x) (pp_sourceB y) else true
  else false.

Definition applyPenalties (eligibility : list SourceEligibility) (penalties : list PairPenalty) : list SourceEligibility :=
  foldl applyPenalty eligibility (sort_by pairLe penalties).

(** The comparator of [weightedMedian]: [a.value - b.value || localeCompare]. *)
Definition medianLe (a b : ContributingReading) : bool :=
  let d := (cr_value a - cr_value b)%float in
  if nlt d 0 then true else if nlt 0 d then false else localeLe (cr_sourceId a) (cr_sourceId b).

Definition sumWeights (l : list ContributingReading) : num :=
  foldl (fun s c => (s + cr_effectiveWeight c)%float) 0%float l.

Fixpoint medianLoop (total acc : num) (l : list ContributingReading) : option num :=
  match l with
  | [] => None
  | c :: l' => let acc' := (acc + cr_effectiveWeight c)%float in
               if nle (total / 2)%float acc' then Some (cr_value c) else medianLoop total acc' l'
  end.

(** [None] is the TypeError on an empty list. *)
Definition weightedMedian (items : list ContributingReading) : option num :=
  let sorted := sort_by medianLe items in
  match medianLoop (sumWeights sorted) 0%float sorted with
  | Some v => Some v
  | None => cr_value <$> last sorted
  end.

Definition compareTrigger (tr : TriggerRule) (value : num) : bool :=
  match tr_op tr with
  | OpLt => nlt value (tr_threshold tr)
  | OpGt => ngt value (tr_threshold tr)
  end.

Definition opText (o : TriggerOp) : string := match o with OpLt => "lt" | OpGt => "gt" end.

Definition contributingOf (latest : list (string * ReadingState)) (e : SourceEligibility) : ContributingReading :=
  mkContributing (default "" (el_readingId e)) (el_sourceId e)
    (match jm_get latest (el_sourceId e) with Some r => rs_value r | None => nan end)
    (el_effectiveWeight e) (Some (el_independent e)).

Definition bySourceId (a b : SourceState) : bool := localeLe (ss_sourceId a) (ss_sourceId b).

(** Eligibility after penalties, in the order of the result. *)
Definition assessSources (input : ConsensusInput) (latest : list (string * ReadingState)) : list SourceEligibility :=
  applyPenalties
    (map (fun s => eligibilityOf (jm_get latest (ss_sourceId s)) s) (sort_by bySourceId (ci_sources input)))
    (ci_penalties input).

Definition quorumReason (independentCount mirrored minSources : Z) : string :=
  "quorum_not_met: " +:+ showZ independentCount +:+ " independent eligible source(s)" +:+
  (if mirrored =? 0 then "" else " (+" +:+ showZ mirrored +:+ " suspected mirror)") +:+
  ", policy requires " +:+ showZ minSources.

Definition computeConsensus (input : ConsensusInput) : res string ConsensusResult :=
  match ci_policy input with
  | None =>
      Ok (mkResult (ci_feedId input) (ci_at input) ONoDecision None false "no_quorum_policy" None []
            (map (fun s => ineligible s None IrNoReading) (ci_sources input)))
  | Some policy =>
      let noDecision reason contributing eligibility :=
        Ok (mkResult (ci_feedId input) (ci_at input) ONoDecision None false reason
              (Some (qp_version policy)) contributing eligibility) in
      let windowStart := ci_at input - qp_maxReadingAgeMs policy in
      let latest := latestBySource (ci_at input) windowStart (ci_readings input) in
      let eligibility := assessSources input latest in
      let eligible := filter (fun e => el_eligible e = true) eligibility in
      let independentCount := Z.of_nat (length (filter (fun e => el_independent e = true) eligible)) in
      let contributing := map (contributingOf latest) eligible in
      let totalWeight := sumWeights contributing in
      if independentCount <? qp_minSources policy then
        noDecision (quorumReason independentCount (Z.of_nat (length eligible) - independentCount) (qp_minSources policy))
          contributing eligibility
      else if nlt totalWeight (qp_minTotalWeight policy) then
        noDecision ("weight_not_met: eligible weight " +:+ numToString (round totalWeight)
                    +:+ ", policy requires " +:+ numToString (qp_minTotalWeight policy))
          contributing eligibility
      else
        match weightedMedian contributing with
        | None => Err "TypeError"
        | Some value =>
            let triggered := compareTrigger (qp_trigger policy) value in
            Ok (mkResult (ci_feedId input) (ci_at input) ODecision (Some value) triggered
                  ((if triggered then "triggered" else "not_triggered") +:+ ": " +:+ numToString value +:+ " "
                   +:+ opText (tr_op (qp_trigger policy)) +:+ " " +:+ numToString (tr_threshold (qp_trigger policy)))
                  (Some (qp_version policy)) contributing eligibility)
        end
  end.
End Engine.

(** ** The latest reading of a source *)

Lemma newer_trans r1 r2 r3 : newer r1 r2 = false -> newer r2 r3 = false -> newer r1 r3 = false.
Proof. unfold newer. rewrite !orb_false_iff, !andb_false_iff. lia. Qed.

Lemma newer_irrefl r : newer r r = false.
Proof. unfold newer. rewrite Z.eqb_refl, !Z.ltb_irrefl. done. Qed.

Lemma newer_asym r1 r2 : newer r1 r2 = true -> newer r2 r1 = false.
Proof. unfold newer. rewrite orb_true_iff, orb_false_iff, andb_true_iff, andb_false_iff. lia. Qed.

(** [r] is the latest reading of [src] inside the window. *)
Record isLatest (at_ ws : Z) (rs : list ReadingState) (src : string) (r : ReadingState) : Prop := {
  il_in : r ∈ rs;
  il_window : inWindow at_ ws r = true;
  il_source : rs_sourceId r = src;
  il_max : forall r', r' ∈ rs -> inWindow at_ ws r' = true -> rs_sourceId r' = src -> newer r' r = false }.

Lemma isLatest_keep at_ ws rs src r x :
  isLatest at_ ws rs src r ->
  (inWindow at_ ws x = true -> rs_sourceId x = src -> newer x r = false) ->
  isLatest at_ ws (rs ++ [x]) src r.
Proof.
  intros [Hin Hw Hs Hmax] Hx. split; [apply elem_of_app; by left|done|done|].
  intros r' [Hr|Hr%list_elem_of_singleton]%elem_of_app; [by apply Hmax|by subst].
Qed.

Lemma isLatest_new at_ ws rs src x :
  inWindow at_ ws x = true -> rs_sourceId x = src ->
  (forall r, r ∈ rs -> inWindow at_ ws r = true -> rs_sourceId r = src -> newer r x = false) ->
  isLatest at_ ws (rs ++ [x]) src x.
Proof.
  intros Hw Hs Hmax. split; [apply elem_of_app; right; by apply list_elem_of_singleton|done|done|].
  intros r' [Hr|Hr%list_elem_of_singleton]%elem_of_app; [by apply Hmax|subst; intros; apply newer_irrefl].
Qed.

Lemma latestBySource_spec at_ ws rs src :
  match jm_get (latestBySource at_ ws rs) src with
  | Some r => isLatest at_ ws rs src r
  | None => forall r, r ∈ rs -> inWindow at_ ws r = true -> rs_sourceId r ≠ src
  end.
Proof.
  unfold latestBySource. induction rs as [|x rs IH] using rev_ind; [by intros ? ?%not_elem_of_nil|].
  rewrite foldl_app; simpl. set (m := foldl (latestStep at_ ws) [] rs) in *.
  assert (jm_get (latestStep at_ ws m x) src =
    if inWindow at_ ws x && String.eqb (rs_sourceId x) src then
      match jm_get m src with Some prev => if newer x prev then Some x else Some prev | None => Some x end
    else jm_get m src) as ->.
  { unfold latestStep. destruct (inWindow at_ ws x); simpl; [|done].
    destruct (String.eqb_spec (rs_sourceId x) src) as [<-|Hne].
    - destruct (jm_get m (rs_sourceId x)) eqn:E; [case_match; [apply jm_get_set_eq|done]|apply jm_get_set_eq].
    - repeat case_match; rewrite ?jm_get_set_ne; done. }
  destruct (inWindow at_ ws x) eqn:Hw, (String.eqb_spec (rs_sourceId x) src) as [Hs|Hs]; simpl;
    destruct (jm_get m src) as [prev|] eqn:Hp.
  - destruct (newer x prev) eqn:Hn; [|by apply isLatest_keep].
    apply isLatest_new; [done..|]. intros r Hr Hrw Hrs.
    eapply newer_trans; [by eapply il_max|by apply newer_asym].
  - apply isLatest_new; [done..|]. intros r Hr Hrw Hrs. by destruct (IH r).
  - by apply isLatest_keep.
  - intros r [Hr|Hr%list_elem_of_singleton]%elem_of_app; [by apply IH|by subst].
  - apply isLatest_keep; [done|congruence].
  - intros r [Hr|Hr%list_elem_of_singleton]%elem_of_app; [by apply IH|subst; congruence].
  - apply isLatest_keep; [done|congruence].
  - intros r [Hr|Hr%list_elem_of_singleton]%elem_of_app; [by apply IH|subst; congruence].
Qed.

(** ** Penalties only take independence away *)

Record shrinks (e e' : SourceEligibility) : Prop := {
  sh_sourceId : el_sourceId e' = el_sourceId e;
  sh_eligible : el_eligible e' = el_eligible e;
  sh_readingId : el_readingId e' = el_readingId e;
  sh_status : el_status e' = el_status e;
  sh_weight : el_weight e' = el_weight e;
  sh_independent : el_independent e' = true -> el_independent e = true ∧ el_effectiveWeight e' = el_effectiveWeight e }.

#[global] Instance shrinks_refl : Reflexive shrinks.
Proof. intros e. by split. Qed.
#[global] Instance shrinks_trans : Transitive shrinks.
Proof. intros a b c [] []. split; try congruence. intros []%sh_independent1. naive_solver congruence. Qed.

Lemma shadowed_shrinks keep e f : shrinks e (shadowed keep e f).
Proof. by split. Qed.

Lemma Forall2_insert_r l k e e' : l !! k = Some e -> shrinks e e' -> Forall2 shrinks l (<[k := e']> l).
Proof.
  intros Hk He. rewrite <- (list_insert_id l k e Hk) at 1. apply Forall2_insert; [|done].
  apply Forall_Forall2_diag, Forall_true. intros x. reflexivity.
Qed.

Lemma applyPenalty_shrinks l p : Forall2 shrinks l (applyPenalty l p).
Proof.
  assert (Forall2 shrinks l l) as Hr by (apply Forall_Forall2_diag, Forall_true; intros x; reflexivity).
  unfold applyPenalty. repeat case_match; simplify_eq; try done;
    (eapply Forall2_insert_r; [eassumption|apply shadowed_shrinks]).
Qed.

Lemma foldl_shrinks ps l : Forall2 shrinks l (foldl applyPenalty l ps).
Proof.
  revert l; induction ps as [|p ps IH]; intros l; simpl.
  - apply Forall_Forall2_diag, Forall_true; intros x; reflexivity.
  - etrans; [apply applyPenalty_shrinks|apply IH].
Qed.

Lemma lastIndex_shrinks l l' id : Forall2 shrinks l l' -> lastIndex id l' = lastIndex id l.
Proof. induction 1 as [|e e' l l' He Hl IH]; [done|]. simpl. rewrite IH. by rewrite (sh_sourceId e e' He). Qed.

Lemma lastIndex_lookup l id i : lastIndex id l = Some i -> ∃ e, l !! i = Some e ∧ el_sourceId e = id.
Proof.
  revert i; induction l as [|e l IH]; simpl; intros i; [done|].
  destruct (lastIndex id l) as [k|]; [intros [= <-]; by apply IH|].
  destruct (String.eqb_spec (el_sourceId e) id); [intros [= <-]; eauto|done].
Qed.

Lemma lastIndex_unique l i e :
  NoDup (map el_sourceId l) -> l !! i = Some e -> lastIndex (el_sourceId e) l = Some i.
Proof.
  revert i; induction l as [|x l IH]; intros i; [done|].
  cbn [map]. intros [Hn Hd]%NoDup_cons. destruct i as [|i]; simpl.
  - intros [= ->]. destruct (lastIndex (el_sourceId e) l) as [k|] eqn:Hk.
    + apply lastIndex_lookup in Hk as (y & Hy & He). destruct Hn. rewrite <- He.
      apply list_elem_of_fmap. exists y. split; [done|]. by eapply list_elem_of_lookup_2.
    + by rewrite String.eqb_refl.
  - intros He. by rewrite (IH i).
Qed.

(** The two sources of a pair do not both count as independent. *)
Definition notBoth (l : list SourceEligibility) (p : PairPenalty) : Prop :=
  forall i j a b, lastIndex (pp_sourceA p) l = Some i -> lastIndex (pp_sourceB p) l = Some j ->
    l !! i = Some a -> l !! j = Some b -> el_eligible a = true -> el_eligible b = true ->
    el_independent a = false ∨ el_independent b = false.

Lemma notBoth_shrinks l l' p : Forall2 shrinks l l' -> notBoth l p -> notBoth l' p.
Proof.
  intros Hs Hn i j a' b'. rewrite !(lastIndex_shrinks l l') by done. intros Hi Hj Ha Hb Ea Eb.
  destruct (Forall2_lookup_r _ _ _ _ _ Hs Ha) as (a & Hla & Sa).
  destruct (Forall2_lookup_r _ _ _ _ _ Hs Hb) as (b & Hlb & Sb).
  destruct (Hn i j a b Hi Hj Hla Hlb) as [H|H];
    [by rewrite <- (sh_eligible a a' Sa)|by rewrite <- (sh_eligible b b' Sb)|left|right].
  - destruct (el_independent a') eqn:E; [|done]. destruct (sh_independent a a' Sa E). congruence.
  - destruct (el_independent b') eqn:E; [|done]. destruct (sh_independent b b' Sb E). congruence.
Qed.

Lemma applyPenalty_notBoth l p : notBoth (applyPenalty l p) p.
Proof.
  intros i j a' b'.
  rewrite !(fun id => lastIndex_shrinks l _ id (applyPenalty_shrinks l p)). intros Hi Hj.
  destruct (lastIndex_lookup l _ _ Hi) as (a & Ha & _), (lastIndex_lookup l _ _ Hj) as (b & Hb & _).
  unfold applyPenalty. rewrite Hi, Hj, Ha, Hb.
  destruct (el_eligible a) eqn:Ea, (el_eligible b) eqn:Eb; simpl; try (intros; congruence).
  destruct (keepsFirst a b); simpl.
  - destruct (el_independent b) eqn:Ib; simpl; [|intros; right; congruence].
    rewrite (list_lookup_insert_eq l j) by (by eapply lookup_lt_Some).
    intros _ [= <-] _ _. by right.
  - destruct (el_independent a) eqn:Ia; simpl; [|intros; left; congruence].
    rewrite (list_lookup_insert_eq l i) by (by eapply lookup_lt_Some).
    intros [= <-] _ _ _. by left.
Qed.

Lemma foldl_notBoth ps l p : p ∈ ps -> notBoth (foldl applyPenalty l ps) p.
Proof.
  intros Hp. apply list_elem_of_split in Hp as (ps1 & ps2 & ->).
  rewrite foldl_app. simpl. eapply notBoth_shrinks; [apply foldl_shrinks|apply applyPenalty_notBoth].
Qed.

(** ** Results *)
Section EngineTheorems.
Context `{JsHost}.

Lemma medianLoop_in total acc l v : medianLoop total acc l = Some v -> ∃ c, c ∈ l ∧ cr_value c = v.
Proof.
  revert acc; induction l as [|c l IH]; simpl; intros acc; [done|].
  case_match; [intros [= <-]; exists c; split; [constructor|done]|].
  intros (c' & Hc & Hv)%IH. exists c'. split; [by constructor|done].
Qed.

Lemma weightedMedian_in items v : weightedMedian items = Some v -> ∃ c, c ∈ items ∧ cr_value c = v.
Proof.
  unfold weightedMedian. destruct (medianLoop _ _ _) as [w|] eqn:E.
  - intros [= ->]. apply medianLoop_in in E as (c & Hc & Hv).
    exists c. split; [by apply elem_of_sort_by in Hc|done].
  - intros (c & Hl & ->)%fmap_Some. exists c. split; [|done].
    apply last_Some_elem_of in Hl. by apply elem_of_sort_by in Hl.
Qed.

(** Every eligible entry comes from a source and its latest reading. *)
Record backed (input : ConsensusInput) (ws : Z) (e : SourceEligibility) (s : SourceState) (r : ReadingState) : Prop := {
  bk_source : s ∈ ci_sources input;
  bk_id : ss_sourceId s = el_sourceId e;
  bk_status : ss_status s = SrcActive ∨ ss_status s = SrcWarmup;
  bk_weight : nle (ss_weight s) 0 = false;
  bk_latest : isLatest (ci_at input) ws (ci_readings input) (ss_sourceId s) r;
  bk_signature : rs_signature r ≠ SigFailed;
  bk_reading : el_readingId e = Some (rs_readingId r);
  bk_effective : el_independent e = true -> el_effectiveWeight e = ss_weight s }.

Lemma eligibilityOf_backed input ws s e :
  s ∈ ci_sources input ->
  e = eligibilityOf (jm_get (latestBySource (ci_at input) ws (ci_readings input)) (ss_sourceId s)) s ->
  el_eligible e = true ->
  ∃ r, jm_get (latestBySource (ci_at input) ws (ci_readings input)) (ss_sourceId s) = Some r ∧ backed input ws e s r.
Proof.
  intros Hs -> He. pose proof (latestBySource_spec (ci_at input) ws (ci_readings input) (ss_sourceId s)) as Hl.
  destruct (jm_get _ _) as [r|] eqn:Er; unfold eligibilityOf in *;
    destruct (ss_status s) eqn:Est; try done; destruct (nle (ss_weight s) 0) eqn:Ew; try done;
    destruct (bool_decide_reflect (rs_signature r = SigFailed)); try done;
    exists r; split; try done; split; simpl; auto.
Qed.

Lemma assessSources_backed input ws e :
  e ∈ assessSources input (latestBySource (ci_at input) ws (ci_readings input)) -> el_eligible e = true ->
  ∃ s r, jm_get (latestBySource (ci_at input) ws (ci_readings input)) (el_sourceId e) = Some r ∧ backed input ws e s r.
Proof.
  unfold assessSources, applyPenalties. intros (i & He)%list_elem_of_lookup Hel.
  destruct (Forall2_lookup_r _ _ _ _ _ (foldl_shrinks _ _) He) as (e0 & He0 & Hsh).
  apply list_elem_of_lookup_2, list_elem_of_fmap in He0 as (s & -> & Hs).
  apply elem_of_sort_by in Hs. rewrite (sh_eligible _ _ Hsh) in Hel.
  destruct (eligibilityOf_backed input ws s _ Hs eq_refl Hel) as (r & Hr & [Hbs Hbi Hbst Hbw Hbl Hbsg Hbr Hbe]).
  exists s, r. split; [by rewrite (sh_sourceId _ _ Hsh), <- Hbi|]. split; try done.
  - by rewrite (sh_sourceId _ _ Hsh).
  - by rewrite (sh_readingId _ _ Hsh).
  - intros Hi. destruct (sh_independent _ _ Hsh Hi) as [Hi' Hw]. rewrite Hw. auto.
Qed.

Lemma assessSources_ids input latest :
  map el_sourceId (assessSources input latest) ≡ₚ map ss_sourceId (ci_sources input).
Proof.
  unfold assessSources, applyPenalties.
  assert (forall l l', Forall2 shrinks l l' -> map el_sourceId l' = map el_sourceId l) as Hmap.
  { induction 1 as [|e e' l l' He Hl IH]; [done|]. cbn [map]. by rewrite IH, (sh_sourceId e e' He). }
  rewrite (Hmap _ _ (foldl_shrinks _ _)), map_map.
  rewrite <- (sort_by_perm bySourceId (ci_sources input)) at 2.
  match goal with |- ?x ≡ₚ ?y => assert (x = y) as ->; [|done] end.
  apply map_ext. intros s. unfold eligibilityOf, ineligible. by repeat case_match.
Qed.

(** The shape of every result. *)
Lemma computeConsensus_inv input r :
  computeConsensus input = Ok r ->
  (ci_policy input = None ∧ co_outcome r = ONoDecision ∧ co_contributing r = [] ∧
   Forall (fun e => el_eligible e = false) (co_eligibility r)) ∨
  ∃ policy, ci_policy input = Some policy ∧
    let latest := latestBySource (ci_at input) (ci_at input - qp_maxReadingAgeMs policy) (ci_readings input) in
    co_eligibility r = assessSources input latest ∧
    co_contributing r = map (contributingOf latest) (filter (fun e => el_eligible e = true) (co_eligibility r)) ∧
    (co_outcome r = ODecision ->
       qp_minSources policy <= Z.of_nat (length (filter (fun e => el_independent e = true)
         (filter (fun e => el_eligible e = true) (co_eligibility r)))) ∧
       nlt (sumWeights (co_contributing r)) (qp_minTotalWeight policy) = false ∧
       ∃ v, co_value r = Some v ∧ weightedMedian (co_contributing r) = Some v ∧
            co_triggered r = compareTrigger (qp_trigger policy) v).
Proof.
  unfold computeConsensus. destruct (ci_policy input) as [policy|] eqn:Hp.
  - intros Hr. right. exists policy. split; [done|].
    destruct (_ <? qp_minSources policy) eqn:Hq; simpl in Hr.
    { injection Hr as <-. split_and!; done. }
    destruct (nlt _ (qp_minTotalWeight policy)) eqn:Hw; simpl in Hr.
    { injection Hr as <-. split_and!; done. }
    destruct (weightedMedian _) as [v|] eqn:Hm; [|done].
    injection Hr as <-. split_and!; try done. intros _. apply Z.ltb_ge in Hq. split_and!; eauto.
  - intros [= <-]. left. split_and!; try done. simpl. apply Forall_fmap, Forall_true. done.
Qed.

(** A contribution names a reading of the input. *)
Lemma contributing_reading input r c :
  computeConsensus input = Ok r -> c ∈ co_contributing r ->
  ∃ rd, rd ∈ ci_readings input ∧ cr_readingId c = rs_readingId rd.
Proof.
  intros Hr Hc. destruct (computeConsensus_inv input r Hr) as [(_ & _ & Hn & _)|(policy & Hp & He & Hcon & _)].
  { rewrite Hn in Hc. by apply not_elem_of_nil in Hc. }
  rewrite Hcon in Hc. apply list_elem_of_fmap in Hc as (e & -> & [Hel He']%list_elem_of_filter).
  rewrite He in He'. destruct (assessSources_backed _ _ _ He' Hel) as (s & rd & Hg & []).
  exists rd. unfold contributingOf; simpl. rewrite bk_reading0. split; [by eapply il_in|done].
Qed.

(** C12: the engine decides only with quorum: a decision has a policy, at least
    [minSources] eligible and independent sources, an eligible weight not below
    [minTotalWeight], a value reported by one of the contributors, and
    "triggered" is that value compared with the policy's threshold. *)
Theorem decision_needs_quorum (input : ConsensusInput) (r : ConsensusResult)
    (Hr : computeConsensus input = Ok r) (Hd : co_outcome r = ODecision) :
  ∃ policy v, ci_policy input = Some policy ∧ co_value r = Some v ∧
    qp_minSources policy <= Z.of_nat (length (filter (fun e => el_independent e = true)
      (filter (fun e => el_eligible e = true) (co_eligibility r)))) ∧
    nlt (sumWeights (co_contributing r)) (qp_minTotalWeight policy) = false ∧
    (∃ c, c ∈ co_contributing r ∧ cr_value c = v) ∧
    co_triggered r = compareTrigger (qp_trigger policy) v.
Proof.
  destruct (computeConsensus_inv input r Hr) as [(_ & Ho & _)|(policy & Hp & He & Hc & Hdec)]; [congruence|].
  destruct (Hdec Hd) as (Hq & Hw & v & Hv & Hm & Ht).
  exists policy, v. split_and!; auto using weightedMedian_in.
Qed.

(** Every contribution is backed by evidence: its source is configured,
    active or warming up, with positive weight, and the value is that source's
    latest reading inside the policy window, whose signature has not failed;
    retired, quarantined, zero-weight and failed sources never contribute, and a
    contributor that counts as independent carries its full weight. *)
Theorem contributions_are_backed (input : ConsensusInput) (r : ConsensusResult) (c : ContributingReading)
    (Hr : computeConsensus input = Ok r) (Hc : c ∈ co_contributing r) :
  ∃ policy s rd, ci_policy input = Some policy ∧ s ∈ ci_sources input ∧ ss_sourceId s = cr_sourceId c ∧
    (ss_status s = SrcActive ∨ ss_status s = SrcWarmup) ∧ nle (ss_weight s) 0 = false ∧
    isLatest (ci_at input) (ci_at input - qp_maxReadingAgeMs policy) (ci_readings input) (ss_sourceId s) rd ∧
    rs_signature rd ≠ SigFailed ∧ cr_readingId c = rs_readingId rd ∧ cr_value c = rs_value rd ∧
    (cr_independent c = Some true -> cr_effectiveWeight c = ss_weight s).
Proof.
  destruct (computeConsensus_inv input r Hr) as [(_ & _ & Hn & _)|(policy & Hp & He & Hcon & _)].
  { rewrite Hn in Hc. by apply not_elem_of_nil in Hc. }
  rewrite Hcon in Hc. apply list_elem_of_fmap in Hc as (e & -> & [Hel He']%list_elem_of_filter).
  rewrite He in He'. destruct (assessSources_backed _ _ _ He' Hel) as (s & rd & Hg & []).
  exists policy, s, rd. unfold contributingOf; simpl. rewrite Hg, bk_reading0. simpl.
  split_and!; try done. intros [= Hi]. auto.
Qed.

(** A suspected mirror is not corroboration: when a penalised pair of
    distinct configured sources are both eligible, at most one of them counts as
    independent toward the quorum. *)
Theorem mirrors_not_both_independent (input : ConsensusInput) (r : ConsensusResult) (p : PairPenalty)
    (a b : SourceEligibility)
    (Hr : computeConsensus input = Ok r) (Hids : NoDup (map ss_sourceId (ci_sources input)))
    (Hp : p ∈ ci_penalties input)
    (Ha : a ∈ co_eligibility r) (Hb : b ∈ co_eligibility r)
    (Hia : el_sourceId a = pp_sourceA p) (Hib : el_sourceId b = pp_sourceB p)
    (Hea : el_eligible a = true) (Heb : el_eligible b = true) :
  el_independent a = false ∨ el_independent b = false.
Proof.
  destruct (computeConsensus_inv input r Hr) as [(_ & _ & _ & Hf)|(policy & Hpol & He & _)].
  { rewrite Forall_forall in Hf. specialize (Hf a Ha). congruence. }
  rewrite He in Ha, Hb.
  assert (NoDup (map el_sourceId (co_eligibility r))) as Hd by (rewrite He, assessSources_ids; done).
  rewrite He in Hd.
  apply list_elem_of_lookup in Ha as [i Hi], Hb as [j Hj].
  eapply foldl_notBoth; [| | |exact Hi|exact Hj|done|done].
  - apply elem_of_sort_by. exact Hp.
  - rewrite <- Hia. by apply lastIndex_unique.
  - rewrite <- Hib. by apply lastIndex_unique.
Qed.

(** The latest reading is determined by the readings, not by their order. *)
Lemma latestBySource_perm at_ ws rs rs' src :
  rs ≡ₚ rs' -> NoDup (map rs_seq rs) ->
  jm_get (latestBySource at_ ws rs) src = jm_get (latestBySource at_ ws rs') src.
Proof.
  intros Hp Hd.
  pose proof (latestBySource_spec at_ ws rs src) as H1.
  pose proof (latestBySource_spec at_ ws rs' src) as H2.
  destruct (jm_get _ src) as [r|], (jm_get (latestBySource at_ ws rs') src) as [r'|].
  - destruct H1 as [Hi1 Hw1 Hs1 Hm1], H2 as [Hi2 Hw2 Hs2 Hm2].
    assert (r' ∈ rs) as Hi2' by (by rewrite Hp). rewrite Hp in Hi1.
    specialize (Hm1 r' Hi2' Hw2 Hs2). specialize (Hm2 r Hi1 Hw1 Hs1). rewrite <- Hp in Hi1.
    f_equal. apply (NoDup_map_inj rs_seq rs); [done..|].
    unfold newer in *. rewrite orb_false_iff, andb_false_iff in *. lia.
  - destruct H1 as [Hi1 Hw1 Hs1 Hm1]. rewrite Hp in Hi1. by destruct (H2 r Hi1 Hw1).
  - destruct H2 as [Hi1 Hw1 Hs1 Hm1]. rewrite <- Hp in Hi1. by destruct (H1 r' Hi1 Hw1).
  - done.
Qed.

Lemma sortSources_perm `{!LocaleOrder} (l l' : list SourceState) :
  l ≡ₚ l' -> NoDup (map ss_sourceId l) ->
  (forall a b, a ∈ l -> b ∈ l -> localeLe (ss_sourceId a) (ss_sourceId b) = true ->
     localeLe (ss_sourceId b) (ss_sourceId a) = true -> ss_sourceId a = ss_sourceId b) ->
  sort_by bySourceId l = sort_by bySourceId l'.
Proof.
  intros Hp Hd Ha. apply (sorted_perm_unique_on bySourceId).
  - intros x y Hx%elem_of_sort_by Hy%elem_of_sort_by H1 H2.
    apply (NoDup_map_inj ss_sourceId l); [done..|]. by apply Ha.
  - apply sort_by_sorted; [intros x y; apply locale_total|intros x y z; apply locale_trans].
  - apply sort_by_sorted; [intros x y; apply locale_total|intros x y z; apply locale_trans].
  - by rewrite !sort_by_perm.
Qed.

(** Results depend on [latest] only through its lookups. *)
Lemma contributingOf_ext latest latest' e :
  (forall k, jm_get latest k = jm_get latest' k) -> contributingOf latest e = contributingOf latest' e.
Proof. intros Hl. unfold contributingOf. by rewrite Hl. Qed.

(** Consensus does not depend on the order in which sources are listed or
    readings arrive, provided source ids are distinct under the collation and
    ledger positions are unique. *)
Theorem consensus_order_independent `{!LocaleOrder} (feed : string) (at_ : Z) (policy : QuorumPolicy)
    (sources sources' : list SourceState) (readings readings' : list ReadingState) (penalties : list PairPenalty)
    (Hs : sources ≡ₚ sources') (Hrd : readings ≡ₚ readings')
    (Hids : NoDup (map ss_sourceId sources)) (Hseq : NoDup (map rs_seq readings))
    (Hanti : forall a b, a ∈ sources -> b ∈ sources -> localeLe (ss_sourceId a) (ss_sourceId b) = true ->
       localeLe (ss_sourceId b) (ss_sourceId a) = true -> ss_sourceId a = ss_sourceId b) :
  computeConsensus (mkInput feed at_ (Some policy) sources readings penalties)
  = computeConsensus (mkInput feed at_ (Some policy) sources' readings' penalties).
Proof.
  unfold computeConsensus; cbn [ci_policy ci_at ci_readings ci_feedId].
  set (ws := at_ - qp_maxReadingAgeMs policy).
  pose proof (fun k => latestBySource_perm at_ ws readings readings' k Hrd Hseq) as Hl.
  set (lt1 := latestBySource at_ ws readings) in *. set (lt2 := latestBySource at_ ws readings') in *.
  assert (assessSources (mkInput feed at_ (Some policy) sources readings penalties) lt1
    = assessSources (mkInput feed at_ (Some policy) sources' readings' penalties) lt2) as ->.
  { unfold assessSources; simpl. f_equal. rewrite (sortSources_perm sources sources') by done.
    apply map_ext. intros s. by rewrite Hl. }
  assert (forall l, map (contributingOf lt1) l = map (contributingOf lt2) l) as Hmap.
  { intros l. apply map_ext. intros e. by apply contributingOf_ext. }
  by rewrite !Hmap.
Qed.
End EngineTheorems.

(** ** Instances *)
Definition demoSource (id : string) (st : SourceStatus) (w : num) : SourceState :=
  mkSourceState id "provider" "feed" 1 st w 30 None None 0.
Definition demoReading (id src : string) (v : num) (obs seq : Z) : ReadingState :=
  mkReadingState id "feed" src v obs None None SigVerified seq.
Definition demoQuorum : QuorumPolicy := mkQuorumPolicy "feed" 1 2 3 1%float 1000 (mkTrigger OpLt 0.9375%float) 0.
Definition demoInput : ConsensusInput :=
  mkInput "feed" 5000 (Some demoQuorum)
    [demoSource "a" SrcActive 1; demoSource "b" SrcActive 2; demoSource "c" SrcActive 1; demoSource "d" SrcRetired 1]
    [demoReading "r1" "a" 0.5 4500 1; demoReading "r2" "b" 0.25 4600 2; demoReading "r3" "c" 0.75 4700 3;
     demoReading "r4" "a" 1.5 3000 4]
    [mkPair "a" "b" 0.25].
Definition demoResult : ConsensusResult :=
  match @computeConsensus demoHost demoInput with Ok r => r | Err _ => mkResult "" 0 ONoDecision None false "" None [] [] end.

Lemma decision_needs_quorum_witness :
  co_outcome demoResult = ODecision ∧
  ∃ policy v, ci_policy demoInput = Some policy ∧ co_value demoResult = Some v ∧
    qp_minSources policy <= Z.of_nat (length (filter (fun e => el_independent e = true)
      (filter (fun e => el_eligible e = true) (co_eligibility demoResult)))) ∧
    nlt (sumWeights (co_contributing demoResult)) (qp_minTotalWeight policy) = false ∧
    (∃ c, c ∈ co_contributing demoResult ∧ cr_value c = v) ∧
    co_triggered demoResult = compareTrigger (qp_trigger policy) v.
Proof.
  split; [vm_compute; reflexivity|].
  apply (@decision_needs_quorum demoHost); vm_compute; reflexivity.
Defined.

Lemma contributions_are_backed_witness :
  ∃ policy s rd, ci_policy demoInput = Some policy ∧ s ∈ ci_sources demoInput ∧ ss_sourceId s = "a"%string ∧
    (ss_status s = SrcActive ∨ ss_status s = SrcWarmup) ∧ nle (ss_weight s) 0 = false ∧
    isLatest (ci_at demoInput) (ci_at demoInput - qp_maxReadingAgeMs policy) (ci_readings demoInput) (ss_sourceId s) rd ∧
    rs_signature rd ≠ SigFailed ∧ "r1"%string = rs_readingId rd ∧ 0.5%float = rs_value rd ∧
    (Some false = Some true -> 0.25%float = ss_weight s).
Proof.
  apply (@contributions_are_backed demoHost demoInput demoResult
    (mkContributing "r1" "a" 0.5 0.25 (Some false))).
  - vm_compute. reflexivity.
  - vm_compute. apply list_elem_of_here.
Defined.

Lemma mirrors_not_both_independent_witness :
  ∃ a b, a ∈ co_eligibility demoResult ∧ b ∈ co_eligibility demoResult ∧
    (el_independent a = false ∨ el_independent b = false).
Proof.
  exists (mkElig "a" 1 SrcActive true None false 1 0.25 (Some "r1") false (Some "b")),
    (mkElig "b" 1 SrcActive true None false 2 2 (Some "r2") true None).
  split; [vm_compute; apply list_elem_of_here|].
  split; [vm_compute; apply list_elem_of_further, list_elem_of_here|].
  apply (@mirrors_not_both_independent demoHost demoInput demoResult (mkPair "a" "b" 0.25));
    try (vm_compute; reflexivity).
  - apply (bool_decide_unpack _). vm_compute. exact I.
  - vm_compute. apply list_elem_of_here.
  - vm_compute. apply list_elem_of_here.
  - vm_compute. apply list_elem_of_further, list_elem_of_here.
Defined.

Lemma consensus_order_independent_witness :
  @computeConsensus demoHost (mkInput "feed" 5000 (Some demoQuorum)
     [demoSource "a" SrcActive 1; demoSource "b" SrcActive 2]
     [demoReading "r1" "a" 0.5 4500 1; demoReading "r2" "b" 0.25 4600 2] [])
  = @computeConsensus demoHost (mkInput "feed" 5000 (Some demoQuorum)
     [demoSource "b" SrcActive 2; demoSource "a" SrcActive 1]
     [demoReading "r2" "b" 0.25 4600 2; demoReading "r1" "a" 0.5 4500 1] []).
Proof.
  apply (@consensus_order_independent demoHost demoHost_order).
  - apply Permutation_swap.
  - apply Permutation_swap.
  - apply (bool_decide_unpack _). vm_compute. exact I.
  - apply (bool_decide_unpack _). vm_compute. exact I.
  - intros a b _ _. apply string_leb_antisym.
Defined.
