(* ===== verification/Reconstruction.v ===== *)
(** Reconstruction of a feed's consensus at a past instant
    (src/oracle/consensus/reconstruction.ts).

    The theorems: the answer at T does not change as the ledger grows, and a
    decision computed at the reserved timestamp and recorded at it is reproduced
    from T alone. *)

From stdpp Require Import base list strings sorting sets.
From Stdlib Require Import ZArith Lia Floats Ascii.
From S2P Require Import Prelude Decimal JsNum Canonical JsDate Evidence LedgerView Engine.

#[local] Open Scope Z_scope.

Record ReconstructionQuery := mkQuery { q_feedId : string; q_at : option Z; q_ledgerSeq : option Z }.

Record ReconstructedReading := mkRReading {
  rr_readingId : string; rr_sourceId : string; rr_value : num; rr_observedAt : Z;
  rr_ledgerSeq : option Z; rr_payloadHash : option string; rr_signature : SignatureStatus }.

Record DecisionSummary := mkSummary {
  dsum_outcome : Outcome; dsum_value : option num; dsum_triggered : bool; dsum_reason : string;
  dsum_policyVersion : option Z; dsum_contributing : list ContributingReading }.

Inductive Consistency := MatchesRecorded | DiffersFromRecorded | NoDecisionRecordedAtT.

Record ReconstructedState := mkState {
  rc_query : string * option string * option Z;
  rc_resolvedAt : option Z; rc_resolvedAtIso : option string; rc_knowledgeCutoffSeq : option Z;
  rc_quorumPolicy : option (QuorumPolicy * Z);
  rc_penalties : list (string * string * string * num * num * Z);
  rc_sources : list (SourceEligibility * string * Z);
  rc_contributingReadings : list ReconstructedReading;
  rc_decision : DecisionSummary;
  rc_recordedDecision : option (DecisionSummary * string * Z * string);
  rc_consistency : Consistency }.

(** [/^[A-Za-z0-9_.:-]{1,80}$/] *)
Definition isFeedChar (c : ascii) : bool :=
  let n := nat_of_ascii c in
  ((48 <=? n)%nat && (n <=? 58)%nat) || ((65 <=? n)%nat && (n <=? 90)%nat) ||
  ((97 <=? n)%nat && (n <=? 122)%nat) || (n =? 95)%nat || (n =? 46)%nat || (n =? 45)%nat.
Definition validFeedId (s : string) : bool :=
  let t := String.list_ascii_of_string s in
  forallb isFeedChar t && (1 <=? length t)%nat && (length t <=? 80)%nat.

(** [/^\d{4}-\d{2}-\d{2}T/] *)
Definition isoPrefix (s : string) : bool :=
  match String.list_ascii_of_string s with
  | a :: b :: c :: d :: h1 :: e :: f :: h2 :: g :: h :: t :: _ =>
      forallb is_digit [a; b; c; d; e; f; g; h] && Ascii.eqb h1 "-" && Ascii.eqb h2 "-" && Ascii.eqb t "T"
  | _ => false
  end.

Definition allDigits (s : string) : bool :=
  let t := String.list_ascii_of_string s in forallb is_digit t && negb (length t =? 0)%nat.

(** An optional query parameter that is absent or empty. *)
Definition given (o : option string) : bool :=
  match o with Some s => negb (String.eqb s "") | None => false end.

(** [parse] is [Date.parse], [None] for NaN. *)
Definition parseReconstructionQuery (parse : string -> option Z) (feedId : string) (at_ ledger : option string) :
    res string ReconstructionQuery :=
  if negb (validFeedId feedId) then Err "invalid feed id"
  else if Bool.eqb (given at_) (given ledger)
  then Err "provide exactly one of `at` (ISO-8601 timestamp) or `ledger` (sequence)"
  else if given at_ then
    let s := default "" at_ in
    match parse s with
    | Some ms => if isoPrefix s then Ok (mkQuery feedId (Some ms) None)
                 else Err ("`at` is not an ISO-8601 timestamp: " +:+ s)
    | None => Err ("`at` is not an ISO-8601 timestamp: " +:+ s)
    end
  else
    let s := default "" ledger in
    if allDigits s then Ok (mkQuery feedId None (Some (dec_val (String.list_ascii_of_string s))))
    else Err ("`ledger` must be a non-negative integer: " +:+ s).

(** The ledger sequence an event is stamped with. *)
Definition evLedgerSeq (e : EvidenceEvent) : option Z :=
  match ev_body e with EReading r => rd_ledgerSeq r | EDecision d => dc_ledgerSeq d | _ => None end.

Definition visibleAt (L : Z) (evs : list EvidenceEvent) : list EvidenceEvent :=
  filter (fun e => match evLedgerSeq e with Some l => l <=? L | None => true end = true) evs.

(** The latest recording time of an event stamped at or before [L]. *)
Definition resolveLedger (L : Z) (evs : list EvidenceEvent) : option Z :=
  foldl (fun t e => match evLedgerSeq e with
    | Some l => if l <=? L then Some (match t with Some v => Z.max v (ev_recordedAt e) | None => ev_recordedAt e end) else t
    | None => t end) None evs.

Definition noDecision (reason : string) : DecisionSummary := mkSummary ONoDecision None false reason None [].

Definition summaryOf (d : DecisionData) : DecisionSummary :=
  mkSummary (dc_outcome d) (dc_value d) (dc_triggered d) (dc_reason d) (dc_policyVersion d) (dc_contributing d).

Definition outcomeText (o : Outcome) : string := match o with ODecision => "decision" | ONoDecision => "no_decision" end.

Definition contributingJson (c : ContributingReading) : json :=
  JObj [("readingId", JStr (cr_readingId c)); ("sourceId", JStr (cr_sourceId c)); ("value", JNum (cr_value c));
        ("effectiveWeight", JNum (cr_effectiveWeight c)); ("independent", JBool (default true (cr_independent c)))].

Definition summaryJson (d : DecisionSummary) : json :=
  JObj [("outcome", JStr (outcomeText (dsum_outcome d)));
        ("value", match dsum_value d with Some v => JNum v | None => JNull end);
        ("triggered", JBool (dsum_triggered d)); ("reason", JStr (dsum_reason d));
        ("policyVersion", match dsum_policyVersion d with Some v => JNum (num_of_Z v) | None => JNull end);
        ("contributing", JArr (map contributingJson (dsum_contributing d)))].

(** [new Map(l.map(x => [key(x), x])).get(k)] *)
Definition mapOf {A} (key : A -> string) (l : list A) : list (string * A) :=
  foldl (fun m x => jm_set m (key x) x) [] l.

Section Reconstruct.
Context `{JsHost}.

Definition summarise (d : DecisionSummary) : res string (option string) :=
  match canonicalJson (summaryJson d) with
  | Ok s => Ok s
  | Err e => Err ("canonicalJson: non-finite number " +:+ numToString (nf_value e))
  end.

Definition consensusInput (known : list EvidenceEvent) (feedId : string) (T : Z) : ConsensusInput :=
  mkInput feedId T (policyAt known feedId T) (sourcesAt known feedId T) (readingsAt known feedId T None)
    (map (fun p => mkPair (pn_sourceA p) (pn_sourceB p) (pn_factor p)) (penaltiesAt known feedId T)).

Definition optIso (o : option Z) : res string (option string) :=
  match o with Some t => s ← toISOString t; Ok (Some s) | None => Ok None end.

Definition readingOut (m : list (string * ReadingState)) (c : ContributingReading) : res string ReconstructedReading :=
  match jm_get m (cr_readingId c) with
  | Some r => Ok (mkRReading (rs_readingId r) (rs_sourceId r) (rs_value r) (rs_observedAt r) (rs_ledgerSeq r)
                    (rs_payloadHash r) (rs_signature r))
  | None => Err "TypeError"
  end.

Definition sourceOut (m : list (string * SourceState)) (e : SourceEligibility) : SourceEligibility * string * Z :=
  match jm_get m (el_sourceId e) with
  | Some s => (e, ss_providerId s, ss_effectiveFrom s)
  | None => (e, ""%string, 0)
  end.

(** Compares the recorded decision with the recomputed one, at exactly [T]. *)
Definition consistencyAt (T : Z) (recorded : option DecisionData) (recomputed : DecisionSummary) : res string Consistency :=
  match recorded with
  | Some d =>
      if dc_at d =? T then
        a ← summarise recomputed;
        b ← summarise (summaryOf d);
        Ok (if bool_decide (a = b) then MatchesRecorded else DiffersFromRecorded)
      else Ok NoDecisionRecordedAtT
  | None => Ok NoDecisionRecordedAtT
  end.

(** Everything after [T] is resolved, over the visible events. *)
Definition reconstructAt (visible : list EvidenceEvent) (query : ReconstructionQuery) (queryIso : option string) (T : Z) :
    res string ReconstructedState :=
  let known := knownAt visible T in
  let feedId := q_feedId query in
  let policy := policyEventAt known feedId T in
  let sourceStates := sourcesAt known feedId T in
  let readings := readingsAt known feedId T None in
  let penalties := penaltyEventsAt known feedId T in
  result ← computeConsensus (consensusInput known feedId T);
  let reason := if (match sourceStates with [] => true | _ => false end) && bool_decide (is_Some policy)
                then "no_sources_registered_at_t"%string else co_reason result in
  let decision r := mkSummary (co_outcome result) (co_value result) (co_triggered result) r
                      (co_policyVersion result) (co_contributing result) in
  let recorded := decisionInForceAt known feedId T in
  recordedSummary ← match recorded with
    | Some d => iso ← toISOString (dc_at d); Ok (Some (summaryOf d, dc_decisionId d, dc_at d, iso))
    | None => Ok None end;
  consistency ← consistencyAt T recorded (decision (co_reason result));
  iso ← toISOString T;
  contributingReadings ← collect (readingOut (mapOf rs_readingId readings)) (co_contributing result);
  Ok (mkState (feedId, queryIso, q_ledgerSeq query) (Some T) (Some iso) (ev_seq <$> last known) policy
        (map (fun p => (pn_penaltyId p.1.1, pn_sourceA p.1.1, pn_sourceB p.1.1, pn_factor p.1.1, pn_matchRatio p.1.1, p.2)) penalties)
        (map (sourceOut (mapOf ss_sourceId sourceStates)) (co_eligibility result))
        contributingReadings (decision reason) recordedSummary consistency).

Definition reconstructConsensusState (evs : list EvidenceEvent) (query : ReconstructionQuery) : res string ReconstructedState :=
  queryIso ← optIso (q_at query);
  let '(t, visible) := match q_ledgerSeq query with
    | Some L => (resolveLedger L (visibleAt L evs), visibleAt L evs)
    | None => (q_at query, evs) end in
  match t with
  | None =>
      Ok (mkState (q_feedId query, queryIso, q_ledgerSeq query) None None None None [] [] []
            (noDecision ("no_evidence_at_or_before_ledger_" +:+ match q_ledgerSeq query with Some L => showZ L | None => "undefined" end))
            None NoDecisionRecordedAtT)
  | Some T => reconstructAt visible query queryIso T
  end.
End Reconstruct.

(** ** Stability *)

Lemma wf_after_last l more u :
  wf_log (l ++ more) -> lastRecordedAt l = Some u -> Forall (fun e => u < ev_recordedAt e) more.
Proof.
  unfold lastRecordedAt. intros [Hs _]. destruct (last l) as [x|] eqn:Hl; [|done].
  simpl; intros [= <-]. apply last_Some in Hl as [l' ->].
  apply StronglySorted_app in Hs as (Hx & _ & _). apply Forall_forall. intros e He.
  apply Hx; [apply elem_of_app; right; by apply list_elem_of_singleton|done].
Qed.

Lemma runAppends_app r1 r2 s : (runAppends (r1 ++ r2) s).2 = (runAppends r2 (runAppends r1 s).2).2.
Proof.
  revert s; induction r1 as [|[b a] r1 IH]; intros s; [done|].
  simpl. unfold mbind, M_bind, tryCatch. destruct (append b a s) as [[e|x] s']; simpl; apply IH.
Qed.

(** The log of a fresh ledger after a sequence of append requests. *)
Definition logAfter (clock : nat -> Z) (disk : nat -> bool) (reqs : list (EventBody * option Z)) : list EvidenceEvent :=
  st_log (runAppends reqs (mkLState [] [] clock 0 disk 0)).2.

Lemma logAfter_wf clock disk reqs : wf_log (logAfter clock disk reqs).
Proof. unfold logAfter. apply appends_runAppends. apply wf_nil. Qed.

Lemma logAfter_app clock disk r1 r2 : ∃ more, logAfter clock disk (r1 ++ r2) = logAfter clock disk r1 ++ more.
Proof.
  unfold logAfter. rewrite runAppends_app. set (s := (runAppends r1 _).2).
  destruct (appends_runAppends r2 s) as [[more Hm] _]; [apply (logAfter_wf clock disk r1)|]. eauto.
Qed.

Section ReconstructionTheorems.
Context `{JsHost}.

(** The answer for an instant the ledger has reached is stable as the ledger
    grows: appending any further events, under any clock and disk behaviour,
    does not change the reconstructed state at T. *)
Theorem reconstruction_stable (clock : nat -> Z) (disk : nat -> bool) (reqs1 reqs2 : list (EventBody * option Z))
    (feed : string) (T u : Z)
    (Hlast : lastRecordedAt (logAfter clock disk reqs1) = Some u) (HT : T <= u) :
  reconstructConsensusState (logAfter clock disk (reqs1 ++ reqs2)) (mkQuery feed (Some T) None)
  = reconstructConsensusState (logAfter clock disk reqs1) (mkQuery feed (Some T) None).
Proof.
  destruct (logAfter_app clock disk reqs1 reqs2) as [more Hm].
  pose proof (logAfter_wf clock disk (reqs1 ++ reqs2)) as Hw. rewrite Hm in *.
  unfold reconstructConsensusState, reconstructAt; simpl.
  rewrite knownAt_app_later; [done|].
  eapply Forall_impl; [exact (wf_after_last _ _ _ Hw Hlast)|]. simpl. lia.
Qed.

(** ** Live decisions are reproduced *)

Lemma mapOf_get {A} (key : A -> string) l x : x ∈ l -> is_Some (jm_get (mapOf key l) (key x)).
Proof.
  unfold mapOf. induction l as [|y l IH] using rev_ind; [by intros ?%not_elem_of_nil|].
  rewrite foldl_app; simpl. rewrite jm_get_set. case_decide; [eauto|].
  intros [Hx|Hx%list_elem_of_singleton]%elem_of_app; [auto|congruence].
Qed.

Lemma collect_ok {E A B} (f : A -> res E B) l :
  (forall x, x ∈ l -> ∃ y, f x = Ok y) -> ∃ ys, collect f l = Ok ys.
Proof.
  induction l as [|x l IH]; intros Hf; [by exists []|].
  destruct (Hf x) as [y Hy]; [constructor|]. destruct IH as [ys Hys]; [intros; apply Hf; by constructor|].
  exists (y :: ys). simpl. by rewrite Hy; simpl; rewrite Hys.
Qed.

(** The numbers of a summary are finite. *)
Definition finiteSummary (d : DecisionSummary) : bool :=
  match dsum_value d with Some v => isFinite v | None => true end &&
  match dsum_policyVersion d with Some v => isFinite (num_of_Z v) | None => true end &&
  forallb (fun c => isFinite (cr_value c) && isFinite (cr_effectiveWeight c)) (dsum_contributing d).

Lemma normalise_contributing c :
  isFinite (cr_value c) && isFinite (cr_effectiveWeight c) = true -> ∃ j, normalise (contributingJson c) = Ok j.
Proof. intros [H1 H2]%andb_true_iff. unfold contributingJson. simpl. rewrite H1, H2. simpl. eauto. Qed.

Lemma summarise_ok d : finiteSummary d = true -> ∃ s, summarise d = Ok s.
Proof.
  unfold finiteSummary. intros [[Hv Hp]%andb_true_iff Hc]%andb_true_iff.
  assert (∃ ys, normalise (JArr (map contributingJson (dsum_contributing d))) = Ok ys) as [ys Hys].
  { simpl. rewrite map_map.
    destruct (collect_ok (fun r : res NonFinite json => r)
      (map (fun c => normalise (contributingJson c)) (dsum_contributing d))) as [ys Hys].
    - intros x (c & -> & Hin)%list_elem_of_fmap. apply normalise_contributing.
      rewrite forallb_forall in Hc. apply Hc. by apply list_elem_of_In.
    - exists (JArr ys). simpl in *. by rewrite Hys. }
  unfold summarise, canonicalJson, summaryJson.
  remember (JArr (map contributingJson (dsum_contributing d))) as arr eqn:Harr.
  assert (isUndef arr = false) as Hu by (by rewrite Harr).
  clear Harr. simpl. rewrite Hu, Hys. simpl.
  destruct (dsum_value d), (dsum_policyVersion d); simpl; rewrite ?Hv, ?Hp; simpl; eauto.
Qed.

(** A decision event leaves every input of the engine as it was. *)
Lemma consensusInput_decision l q r d f t :
  consensusInput (l ++ [mkEvent q r (EDecision d)]) f t = consensusInput l f t.
Proof.
  unfold consensusInput, policyAt, policyEventAt, sourcesAt, penaltiesAt, penaltyEventsAt, readingsAt, signatureResultsAt.
  rewrite !foldl_app. simpl. unfold penaltyStep at 1. simpl.
  rewrite omap_app. simpl. rewrite app_nil_r. by destruct (t <? r).
Qed.

Lemma decisionStep_inv f t l d q :
  foldl (decisionStep f t) None l = Some (d, q) -> dc_at d <= t ∧ ∃ e, e ∈ l ∧ ev_seq e = q.
Proof.
  revert d q. induction l as [|e l IH] using rev_ind; [done|]. intros d q. rewrite foldl_app; simpl.
  set (acc := foldl (decisionStep f t) None l) in *.
  assert (forall x, acc = Some x -> dc_at x.1 <= t ∧ ∃ e', e' ∈ l ++ [e] ∧ ev_seq e' = x.2) as Hkeep.
  { intros [x y] Hx. destruct (IH x y Hx) as (? & e' & ? & ?). split; [done|]. exists e'. set_solver. }
  assert (e ∈ l ++ [e]) as He by set_solver.
  unfold decisionStep. destruct (ev_body e); try (intros Hx; apply (Hkeep (d, q) Hx)).
  destruct (_ || (t <? dc_at d0)) eqn:Hc; [intros Hx; apply (Hkeep (d, q) Hx)|].
  apply orb_false_iff in Hc as [_ Hat%Z.ltb_ge].
  destruct acc as [[g gq]|]; [|intros [= <- <-]; eauto].
  destruct (_ || _); [intros [= <- <-]; eauto|intros Hx; apply (Hkeep (d, q) Hx)].
Qed.

Lemma decisionInForce_last l T d :
  wf_log l -> dc_at d = T ->
  decisionInForceAt (l ++ [mkEvent (Z.of_nat (length l) + 1) T (EDecision d)]) (dc_feedId d) T = Some d.
Proof.
  intros [_ Hq] Hat. unfold decisionInForceAt. rewrite foldl_app. simpl.
  destruct (foldl _ None l) as [[f q]|] eqn:Ef; unfold decisionStep; simpl;
    rewrite String.eqb_refl, Hat, Z.ltb_irrefl; simpl; [|done].
  apply decisionStep_inv in Ef as (Hle & e & He & <-).
  apply list_elem_of_lookup in He as [i Hi]. rewrite (Hq i e Hi).
  apply lookup_lt_Some in Hi.
  destruct (dc_at f <? T) eqn:H1; simpl; [done|]. apply Z.ltb_ge in H1.
  replace (T =? dc_at f) with true by (symmetry; apply Z.eqb_eq; lia).
  replace (_ <? _) with true by (symmetry; apply Z.ltb_lt; lia). done.
Qed.

(** The decision event a live decision records. *)
Definition decisionOf (id : string) (ledgerSeq : option Z) (r : ConsensusResult) : DecisionData :=
  mkDecision id (co_feedId r) (co_at r) ledgerSeq (co_outcome r) (co_value r) (co_triggered r) (co_reason r)
    (co_policyVersion r) (co_contributing r).

(** A live decision is exactly reproducible: computed from the ledger at a
    reserved timestamp T and recorded with it, it is what reconstruction at T
    gives from the grown ledger, which reports that the two match. *)
Theorem live_decision_reproduced (l more : list EvidenceEvent) (feed id : string) (lseq : option Z) (T : Z)
    (r : ConsensusResult)
    (Hlive : computeConsensus (consensusInput l feed T) = Ok r)
    (Hwf : wf_log (l ++ mkEvent (Z.of_nat (length l) + 1) T (EDecision (decisionOf id lseq r)) :: more))
    (Hfin : finiteSummary (summaryOf (decisionOf id lseq r)) = true)
    (Htime : validTime T = true) :
  ∃ st, reconstructConsensusState
          (l ++ mkEvent (Z.of_nat (length l) + 1) T (EDecision (decisionOf id lseq r)) :: more)
          (mkQuery feed (Some T) None) = Ok st ∧
    rc_consistency st = MatchesRecorded ∧
    dsum_outcome (rc_decision st) = co_outcome r ∧ dsum_value (rc_decision st) = co_value r ∧
    dsum_triggered (rc_decision st) = co_triggered r ∧ dsum_contributing (rc_decision st) = co_contributing r.
Proof.
  set (d := decisionOf id lseq r) in *. set (e := mkEvent (Z.of_nat (length l) + 1) T (EDecision d)) in *.
  assert (co_feedId r = feed ∧ co_at r = T) as [Hf Ha].
  { revert Hlive. unfold computeConsensus, consensusInput; simpl. repeat case_match; intros; simplify_eq; done. }
  assert (knownAt (l ++ e :: more) T = l ++ [e]) as Hk.
  { rewrite cons_middle, app_assoc, knownAt_app_later by (apply (wf_later l e more Hwf)).
    unfold knownAt. apply filter_all, Forall_app; split; [|by repeat constructor].
    destruct Hwf as [Hs _]. apply StronglySorted_app in Hs as (Hx & _ & _). apply Forall_forall; intros x Hin.
    specialize (Hx x e Hin (list_elem_of_here _ _)). unfold before in Hx; simpl in Hx. lia. }
  assert (wf_log l) as Hwl.
  { destruct Hwf as [Hs Hq]. split; [by apply StronglySorted_app in Hs as (_ & ? & _)|].
    intros i x Hi. apply Hq. by apply lookup_app_l_Some. }
  destruct (summarise_ok _ Hfin) as [sm Hsm].
  unfold reconstructConsensusState; simpl. unfold toISOString at 1. rewrite Htime; simpl.
  assert (consensusInput (l ++ [e]) feed T = consensusInput l feed T) as Hci by apply consensusInput_decision.
  unfold reconstructAt. rewrite Hk. cbn [q_feedId]. rewrite Hci, Hlive. simpl.
  destruct (collect_ok (readingOut (mapOf rs_readingId (readingsAt (l ++ [e]) feed T None))) (co_contributing r))
    as [ys Hys].
  { intros c Hc. destruct (contributing_reading _ _ _ Hlive Hc) as (rd & Hin & Hid).
    unfold readingOut. rewrite Hid.
    assert (readingsAt (l ++ [e]) feed T None = ci_readings (consensusInput l feed T)) as -> by (by rewrite <- Hci).
    destruct (mapOf_get rs_readingId _ rd Hin) as [x ->]. eauto. }
  assert (decisionInForceAt (l ++ [e]) feed T = Some d) as Hd by (rewrite <- Hf; by apply decisionInForce_last).
  assert (consistencyAt T (Some d) (summaryOf d) = Ok MatchesRecorded) as Hcons.
  { unfold consistencyAt. rewrite Hsm. simpl. rewrite Ha, Z.eqb_refl. simpl. by rewrite bool_decide_true. }
  rewrite Hd.
  change (consistencyAt T (Some d) _) with (consistencyAt T (Some d) (summaryOf d)). rewrite Hcons. simpl.
  rewrite Ha. unfold toISOString. rewrite Htime. simpl. rewrite Hys. simpl. by eexists.
Qed.
End ReconstructionTheorems.

(** ** Instances *)
Definition demoClock (n : nat) : Z := 1000 + Z.of_nat n.
Definition demoSourceEvent (id : string) : EventBody * option Z :=
  (ESourceVersion (mkSourceVersion id "provider" "feed" 1 SrcActive 1 None 30 None None 0), None).
Definition demoReadingEvent (id src : string) (v : num) : EventBody * option Z :=
  (EReading (mkReading id "feed" src v 900 None None SigVerified None), None).
Definition demoReqs : list (EventBody * option Z) :=
  [(EQuorumPolicy (mkQuorumPolicy "feed" 1 2 2 1 100000 (mkTrigger OpLt 0.9375) 0), None);
   demoSourceEvent "a"; demoSourceEvent "b"; demoReadingEvent "r1" "a" 0.5; demoReadingEvent "r2" "b" 0.75].
Definition demoLog : list EvidenceEvent := logAfter demoClock (fun _ => true) demoReqs.
Definition demoLive : ConsensusResult :=
  match @computeConsensus demoHost (@consensusInput demoHost demoLog "feed" 2000) with
  | Ok r => r
  | Err _ => mkResult "" 0 ONoDecision None false "" None [] []
  end.

Lemma reconstruction_stable_witness :
  @reconstructConsensusState demoHost (logAfter demoClock (fun _ => true) (demoReqs ++ [demoReadingEvent "r3" "a" 0.25]))
    (mkQuery "feed" (Some 1004) None)
  = @reconstructConsensusState demoHost demoLog (mkQuery "feed" (Some 1004) None).
Proof. apply (@reconstruction_stable demoHost demoClock (fun _ => true) demoReqs _ "feed" 1004 1004); vm_compute; [reflexivity|discriminate]. Defined.

Lemma live_decision_reproduced_witness :
  co_outcome demoLive = ODecision ∧
  ∃ st, @reconstructConsensusState demoHost
          (demoLog ++ [mkEvent 6 2000 (EDecision (decisionOf "d1" None demoLive))]) (mkQuery "feed" (Some 2000) None) = Ok st ∧
    rc_consistency st = MatchesRecorded ∧
    dsum_outcome (rc_decision st) = co_outcome demoLive ∧ dsum_value (rc_decision st) = co_value demoLive ∧
    dsum_triggered (rc_decision st) = co_triggered demoLive ∧ dsum_contributing (rc_decision st) = co_contributing demoLive.
Proof.
  split; [vm_compute; reflexivity|].
  apply (@live_decision_reproduced demoHost demoLog [] "feed" "d1" None 2000 demoLive).
  - vm_compute. reflexivity.
  - assert (demoLog ++ mkEvent (Z.of_nat (length demoLog) + 1) 2000 (EDecision (decisionOf "d1" None demoLive)) :: []
      = logAfter demoClock (fun _ => true) (demoReqs ++ [(EDecision (decisionOf "d1" None demoLive), Some 2000)])) as ->
      by (vm_compute; reflexivity).
    apply logAfter_wf.
  - vm_compute. reflexivity.
  - vm_compute. reflexivity.
Defined.
