(* ===== verification/ClaimHold.v ===== *)
(** Automatic payout holds (src/oracle/consensus/claim-hold.service.ts) and the
    evidence-completeness check they rest on
    (src/oracle/consensus/evidence-completeness.ts).

    All state is the ledger: [foldHolds] folds the hold events into the current
    holds, and every operation reads that fold and appends events in the monad
    of [Evidence].  The consensus service is not part of the sources (its file
    is empty), so it is the class [ConsensusSvc], with what the hold service
    relies on as [ConsensusLaws]. *)

From stdpp Require Import base list strings sorting sets.
From Stdlib Require Import ZArith Lia Floats Ascii.
From S2P Require Import Prelude Decimal JsNum Canonical Evidence LedgerView Engine Reconstruction.

#[local] Open Scope Z_scope.

(** * Evidence completeness *)

Definition gapTypeText (t : EvidenceGapType) : string :=
  match t with
  | MissingRawPayload => "missing_raw_payload" | InsufficientSources => "insufficient_sources"
  | SourceInWarmup => "source_in_warmup" | SignaturePending => "signature_pending"
  end.

Definition isIndependent (c : ContributingReading) : bool :=
  match cr_independent c with Some false => false | _ => true end.

(** Unequal elements in order of first occurrence, as a [Set] keeps them. *)
Definition uniq {A} `{EqDecision A} (l : list A) : list A :=
  foldl (fun acc x => if bool_decide (x ∈ acc) then acc else acc ++ [x]) [] l.

Definition describeGaps (gaps : list EvidenceGap) : string :=
  match gaps with
  | [] => "evidence complete"
  | _ => "held for incomplete evidence (" +:+ joinWith ", " (map gapTypeText (uniq (map gap_type gaps)))
         +:+ "): " +:+ joinWith "; " (map gap_detail gaps)
  end.

Section Completeness.
Context `{JsHost}.

Definition quorumGap (decision : DecisionData) (policy : option QuorumPolicy) : list EvidenceGap :=
  let expected := match policy with Some p => qp_expectedSources p | None => 0 end in
  let independent := Z.of_nat (length (filter (fun c => isIndependent c = true) (dc_contributing decision))) in
  if independent <? expected then
    let mirrored := Z.of_nat (length (dc_contributing decision)) - independent in
    [mkGap InsufficientSources
       (showZ independent +:+ " independent source(s) contributed" +:+
        (if mirrored =? 0 then "" else " (+" +:+ showZ mirrored +:+ " suspected mirror)") +:+ "; policy v" +:+
        match policy with Some p => showZ (qp_version p) | None => "undefined" end +:+ " expects " +:+ showZ expected)
       None None]
  else [].

Definition warmupGap (sources : list (string * SourceState)) (c : ContributingReading) : list EvidenceGap :=
  match jm_get sources (cr_sourceId c) with
  | Some s => if isWarmup (ss_status s)
      then [mkGap SourceInWarmup ("source " +:+ cr_sourceId c +:+ " was in warm-up when the decision was made")
              (Some (cr_readingId c)) (Some (cr_sourceId c))]
      else []
  | None => []
  end.

(** [reading] may be missing; [payloadAvailable] may throw. *)
Definition readingGaps (evs : list EvidenceEvent) (now : Z) (payloadAvailable : string -> res string bool)
    (c : ContributingReading) : res string (list EvidenceGap) :=
  let reading := readingById evs (cr_readingId c) now in
  missing ← match reading with
    | None => Ok true
    | Some r => match rs_payloadHash r with
                | None => Ok true
                | Some h => b ← payloadAvailable h; Ok (negb b)
                end
    end;
  let pending := match reading with Some r => bool_decide (rs_signature r = SigPending) | None => false end in
  let who := cr_readingId c +:+ " (source " +:+ cr_sourceId c +:+ ")" in
  Ok ((if (missing : bool) then
         [mkGap MissingRawPayload ("raw payload for reading " +:+ who +:+ " is not in the evidence store")
            (Some (cr_readingId c)) (Some (cr_sourceId c))] else []) ++
      (if pending then
         [mkGap SignaturePending ("signature for reading " +:+ who +:+ " is still pending verification")
            (Some (cr_readingId c)) (Some (cr_sourceId c))] else [])).

Definition assessEvidenceCompleteness (evs : list EvidenceEvent) (decision : DecisionData) (now : Z)
    (payloadAvailable : string -> res string bool) : res string (list EvidenceGap) :=
  let policy := policyAt evs (dc_feedId decision) (dc_at decision) in
  let sources := mapOf ss_sourceId (sourcesAt evs (dc_feedId decision) (dc_at decision)) in
  let contributors := sort_by (fun a b => localeLe (cr_readingId a) (cr_readingId b)) (dc_contributing decision) in
  readings ← collect (readingGaps evs now payloadAvailable) contributors;
  Ok (quorumGap decision policy ++ concat (map (warmupGap sources) contributors) ++ concat readings).
End Completeness.

(** * Holds *)

Inductive HoldStatus := PayoutHeld | Released | Escalated | Approved | Denied | Settled.
#[global] Instance HoldStatus_eq_dec : EqDecision HoldStatus.
Proof. solve_decision. Defined.

Record DispositionInfo := mkDisposition {
  di_disposition : HoldDisposition; di_actor : string; di_note : string; di_at : Z }.

Record ClaimHold := mkHold {
  h_holdId : string; h_policyId : string; h_holder : string; h_feedId : string;
  h_decisionId : string; h_currentDecisionId : string; h_status : HoldStatus;
  h_gaps : list EvidenceGap; h_reason : string; h_placedAt : Z; h_deadline : Z;
  h_policyExpiresAt : Z; h_escalation : option HoldEscalationReason;
  h_disposition : option DispositionInfo; h_updatedAt : Z }.

Record HoldCandidate := mkCandidate {
  hc_policyId : string; hc_holder : string; hc_feedId : string; hc_policyExpiresAt : Z }.

Inductive GateResult :=
| Proceed (holdId : option string)
| Block (reason : string) (holdId : option string).

Definition COVERAGE_FEEDS : list string :=
  ["StablecoinDepeg"; "MarketCrash"; "LiquidationShield"; "SmartContractRisk"; "FlightDelay"].

Definition isTerminal (s : HoldStatus) : bool := match s with Settled | Denied => true | _ => false end.

Definition statusText (s : HoldStatus) : string :=
  match s with
  | PayoutHeld => "payout_held" | Released => "released" | Escalated => "escalated"
  | Approved => "approved" | Denied => "denied" | Settled => "settled"
  end.

Definition patch (holds : list (string * ClaimHold)) (id : string) (f : ClaimHold -> ClaimHold) : list (string * ClaimHold) :=
  match jm_get holds id with Some h => jm_set holds id (f h) | None => holds end.

(** The spread updates of [foldHolds]. *)
Definition withStatus (st : HoldStatus) (at_ : Z) (h : ClaimHold) : ClaimHold :=
  mkHold (h_holdId h) (h_policyId h) (h_holder h) (h_feedId h) (h_decisionId h) (h_currentDecisionId h) st
    (h_gaps h) (h_reason h) (h_placedAt h) (h_deadline h) (h_policyExpiresAt h) (h_escalation h) (h_disposition h) at_.
Definition withReason (r : string) (h : ClaimHold) : ClaimHold :=
  mkHold (h_holdId h) (h_policyId h) (h_holder h) (h_feedId h) (h_decisionId h) (h_currentDecisionId h) (h_status h)
    (h_gaps h) r (h_placedAt h) (h_deadline h) (h_policyExpiresAt h) (h_escalation h) (h_disposition h) (h_updatedAt h).
Definition withEvaluation (decisionId : string) (gaps : list EvidenceGap) (h : ClaimHold) : ClaimHold :=
  mkHold (h_holdId h) (h_policyId h) (h_holder h) (h_feedId h) (h_decisionId h) decisionId (h_status h)
    gaps (h_reason h) (h_placedAt h) (h_deadline h) (h_policyExpiresAt h) (h_escalation h) (h_disposition h) (h_updatedAt h).
Definition withEscalation (deadline : Z) (esc : option HoldEscalationReason) (h : ClaimHold) : ClaimHold :=
  mkHold (h_holdId h) (h_policyId h) (h_holder h) (h_feedId h) (h_decisionId h) (h_currentDecisionId h) (h_status h)
    (h_gaps h) (h_reason h) (h_placedAt h) deadline (h_policyExpiresAt h) esc (h_disposition h) (h_updatedAt h).
Definition withDisposition (d : DispositionInfo) (h : ClaimHold) : ClaimHold :=
  mkHold (h_holdId h) (h_policyId h) (h_holder h) (h_feedId h) (h_decisionId h) (h_currentDecisionId h) (h_status h)
    (h_gaps h) (h_reason h) (h_placedAt h) (h_deadline h) (h_policyExpiresAt h) (h_escalation h) (Some d) (h_updatedAt h).

Definition placedHold (d : HoldPlaced) (at_ : Z) : ClaimHold :=
  mkHold (hp_holdId d) (hp_policyId d) (hp_holder d) (hp_feedId d) (hp_decisionId d) (hp_decisionId d) PayoutHeld
    (hp_gaps d) (hp_reason d) at_ (hp_deadline d) (hp_policyExpiresAt d) None None at_.

Definition disposedStatus (d : HoldDisposition) : HoldStatus :=
  match d with ApprovePayout => Approved | Deny => Denied | ExtendHold => PayoutHeld end.

(** One event of [foldHolds]. *)
Definition holdStep (holds : list (string * ClaimHold)) (e : EvidenceEvent) : list (string * ClaimHold) :=
  let at_ := ev_recordedAt e in
  match ev_body e with
  | EHoldPlaced d => jm_set holds (hp_holdId d) (placedHold d at_)
  | EHoldReevaluated id did gaps =>
      patch holds id (fun h => withStatus (h_status h) at_ (withReason (describeGaps gaps) (withEvaluation did gaps h)))
  | EHoldReleased id did reason =>
      patch holds id (fun h => withStatus Released at_ (withReason reason (withEvaluation did [] h)))
  | EHoldEscalated id esc reason =>
      patch holds id (fun h => withStatus Escalated at_ (withReason reason (withEscalation (h_deadline h) (Some esc) h)))
  | EHoldDisposed id disposition actor note deadline =>
      patch holds id (fun h =>
        let h' := withStatus (disposedStatus disposition) at_ (withDisposition (mkDisposition disposition actor note at_) h) in
        match disposition, deadline with
        | ExtendHold, Some dl => if dl =? 0 then h' else withEscalation dl None h'
        | _, _ => h'
        end)
  | EHoldSettled id => patch holds id (withStatus Settled at_)
  | _ => holds
  end.

Definition foldHolds (evs : list EvidenceEvent) : list (string * ClaimHold) := foldl holdStep [] evs.

(** [list(status)] *)
Definition listHolds (status : option HoldStatus) (evs : list EvidenceEvent) : list ClaimHold :=
  sort_by (fun a b => h_placedAt a <=? h_placedAt b)
    (filter (fun h => h_status h = default (h_status h) status) (jm_values (foldHolds evs))).

Definition getHold (holdId : string) : M ClaimHold :=
  evs ← events;
  match jm_get (foldHolds evs) holdId with
  | Some h => mret h
  | None => throw ("unknown hold " +:+ holdId)
  end.

Definition activeHoldFor (policyId : string) (evs : list EvidenceEvent) : option ClaimHold :=
  last (filter (fun h => h_policyId h = policyId ∧ isTerminal (h_status h) = false) (listHolds None evs)).

Definition deniedHoldFor (policyId : string) (evs : list EvidenceEvent) : option ClaimHold :=
  last (filter (fun h => h_policyId h = policyId ∧ h_status h = Denied) (listHolds None evs)).

(** The consensus service the hold service is constructed with. *)
Class ConsensusSvc := {
  isGoverned : string -> M bool;
  decide_ : string -> M DecisionData;
}.

Definition isHoldEvent (b : EventBody) : bool :=
  match b with
  | EHoldPlaced _ | EHoldReevaluated _ _ _ | EHoldReleased _ _ _ | EHoldEscalated _ _ _
  | EHoldDisposed _ _ _ _ _ | EHoldSettled _ => true
  | _ => false
  end.

(** [m] appends to the ledger, and no hold events. *)
Definition noHoldEvents {A} (m : M A) : Prop :=
  forall s, ∃ more, st_log (m s).2 = st_log s ++ more ∧ Forall (fun e => isHoldEvent (ev_body e) = false) more.

(** [m] does not replace the disk the ledger writes to. *)
Definition keepsDisk {A} (m : M A) : Prop := forall s, st_disk (m s).2 = st_disk s.

(** What the hold service relies on: the consensus service writes to the ledger
    only by appending, never writes a hold event, and uses the same disk. *)
Class ConsensusLaws `{ConsensusSvc} : Prop := {
  isGoverned_appends f : appends (isGoverned f);
  isGoverned_noHold f : noHoldEvents (isGoverned f);
  decide_appends f : appends (decide_ f);
  decide_noHold f : noHoldEvents (decide_ f);
  isGoverned_disk f : keepsDisk (isGoverned f);
  decide_disk f : keepsDisk (decide_ f);
}.

Definition gapJson (g : EvidenceGap) : json :=
  JObj [("type", JStr (gapTypeText (gap_type g))); ("detail", JStr (gap_detail g));
        ("sourceId", match gap_sourceId g with Some s => JStr s | None => JUndef end);
        ("readingId", match gap_readingId g with Some s => JStr s | None => JUndef end)].

Definition escalationText (e : HoldEscalationReason) : string :=
  match e with
  | DeadlineExceeded => "deadline_exceeded" | VerdictContradicted => "verdict_contradicted"
  | PolicyExpiredWhileHeld => "policy_expired_while_held"
  end.

Definition dispositionText (d : HoldDisposition) : string :=
  match d with ApprovePayout => "approve_payout" | Deny => "deny" | ExtendHold => "extend_hold" end.

(** Truthiness of [x?.trim()]. *)
Definition nonBlank (s : string) : bool :=
  match trim (String.list_ascii_of_string s) with [] => false | _ => true end.

Inductive ReOutcome := ReReleased | ReEscalated | ReStillHeld.

(** Runs [m] and hands its exception to the caller as a value. *)
Definition attempt {A} (m : M A) : M (res string A) := fun s =>
  match m s with (r, s') => (Ok r, s') end.

Section HoldService.
Context `{JsHost} `{ConsensusSvc}.
Variable holdMaxDurationMs : Z.

Definition audit (action actor reason : string) (details : json) : M unit :=
  _ ← append (EAudit action actor reason details) None; mret tt.

Definition assess (decision : DecisionData) : M (list EvidenceGap) :=
  evs ← events;
  now ← ledgerNow;
  liftRes (fun s => assessEvidenceCompleteness evs decision now (payloadHas (st_bodies s))).

Definition holdIdOf (policyId decisionId : string) : string :=
  "hold_" +:+ String.substring 0 20 (sha256Hex (policyId +:+ ":" +:+ decisionId)).

Definition place (candidate : HoldCandidate) (decision : DecisionData) (gaps : list EvidenceGap) : M ClaimHold :=
  let holdId := holdIdOf (hc_policyId candidate) (dc_decisionId decision) in
  let reason := describeGaps gaps in
  now ← ledgerNow;
  _ ← append (EHoldPlaced (mkHoldPlaced holdId (hc_policyId candidate) (hc_holder candidate) (hc_feedId candidate)
         (dc_decisionId decision) gaps reason (now + holdMaxDurationMs) (hc_policyExpiresAt candidate))) None;
  _ ← audit "claim_hold.placed" "system" reason
        (JObj [("holdId", JStr holdId); ("policyId", JStr (hc_policyId candidate));
               ("decisionId", JStr (dc_decisionId decision)); ("gaps", JArr (map gapJson gaps))]);
  getHold holdId.

Definition release (hold : ClaimHold) (decision : DecisionData) : M unit :=
  let reason := "evidence complete and verdict stands (" +:+ dc_decisionId decision +:+ ": " +:+ dc_reason decision +:+ ")" in
  _ ← append (EHoldReleased (h_holdId hold) (dc_decisionId decision) reason) None;
  audit "claim_hold.released" "system" reason
    (JObj [("holdId", JStr (h_holdId hold)); ("policyId", JStr (h_policyId hold)); ("decisionId", JStr (dc_decisionId decision))]).

Definition escalate (hold : ClaimHold) (escalation : HoldEscalationReason) (reason : string) : M unit :=
  _ ← append (EHoldEscalated (h_holdId hold) escalation reason) None;
  audit "claim_hold.escalated" "system" reason
    (JObj [("holdId", JStr (h_holdId hold)); ("policyId", JStr (h_policyId hold));
           ("escalation", JStr (escalationText escalation))]).

Definition claimIs (h : ClaimHold) : string := "claim is " +:+ statusText (h_status h) +:+ ": " +:+ h_reason h.

(** The rest of [gate], for a policy without an open or denied hold. *)
Definition gateFresh (candidate : HoldCandidate) : M GateResult :=
  governed ← isGoverned (hc_feedId candidate);
  if negb governed then mret (Proceed None) else
  decision ← decide_ (hc_feedId candidate);
  if bool_decide (dc_outcome decision ≠ ODecision)
  then mret (Block ("consensus produced no decision (" +:+ dc_reason decision +:+ ")") None)
  else if negb (dc_triggered decision)
  then mret (Block ("consensus decision " +:+ dc_decisionId decision +:+ " is not triggered") None)
  else
    gaps ← assess decision;
    match gaps with
    | [] => mret (Proceed None)
    | _ => hold ← place candidate decision gaps; mret (Block (claimIs hold) (Some (h_holdId hold)))
    end.

Definition gateBody (candidate : HoldCandidate) : M GateResult :=
  evs ← events;
  match activeHoldFor (hc_policyId candidate) evs with
  | Some existing =>
      match h_status existing with
      | Released | Approved => mret (Proceed (Some (h_holdId existing)))
      | _ => mret (Block (claimIs existing) (Some (h_holdId existing)))
      end
  | None =>
      match deniedHoldFor (hc_policyId candidate) evs with
      | Some denied =>
          mret (Block ("payout denied by operator " +:+
                  match h_disposition denied with Some d => di_actor d | None => "undefined" end) (Some (h_holdId denied)))
      | None => gateFresh candidate
      end
  end.

Definition gate (candidate : HoldCandidate) : M GateResult :=
  tryCatch (gateBody candidate) (fun msg => mret (Block ("hold gate unavailable (" +:+ msg +:+ ")") None)).

(** The early escalations of [reevaluate]. *)
Definition checkDeadlines (hold : ClaimHold) : M (option ReOutcome) :=
  now ← ledgerNow;
  if h_policyExpiresAt hold <? now then
    _ ← escalate hold PolicyExpiredWhileHeld "policy expired while the claim was held; trigger predates expiry";
    mret (Some ReEscalated)
  else if h_deadline hold <=? now then
    _ ← escalate hold DeadlineExceeded ("evidence still incomplete at deadline: " +:+ describeGaps (h_gaps hold));
    mret (Some ReEscalated)
  else mret None.

(** The loop over candidate decisions: released against the first one without
    gaps, otherwise the fewest gaps seen. *)
Fixpoint tryCandidates (hold : ClaimHold) (ds : list DecisionData) (best : option (list EvidenceGap * string)) :
    M (res (option (list EvidenceGap * string)) unit) :=
  match ds with
  | [] => mret (Err best)
  | d :: ds' =>
      gaps ← assess d;
      match gaps with
      | [] => _ ← release hold d; mret (Ok tt)
      | _ =>
          tryCandidates hold ds'
            (match best with
             | None => Some (gaps, dc_decisionId d)
             | Some (bg, bd) => if (length gaps <? length bg)%nat then Some (gaps, dc_decisionId d) else best
             end)
      end
  end.

Definition againstDecision (hold : ClaimHold) (fresh : DecisionData) : M ReOutcome :=
  let isDecision := bool_decide (dc_outcome fresh = ODecision) in
  if isDecision && negb (dc_triggered fresh) then
    _ ← escalate hold VerdictContradicted
          ("newer evidence contradicts the verdict: " +:+ dc_reason fresh +:+ " (" +:+ dc_decisionId fresh +:+ ")");
    mret ReEscalated
  else
    evs ← events;
    let original := decisionById evs (h_decisionId hold) in
    found ← tryCandidates hold ((if isDecision then [fresh] else []) ++ option_list original) None;
    match found with
    | Ok _ => mret ReReleased
    | Err best =>
        let '(gaps, bestDecision) := default (h_gaps hold, h_currentDecisionId hold) best in
        if bool_decide (gaps = h_gaps hold) then mret ReStillHeld
        else _ ← append (EHoldReevaluated (h_holdId hold) bestDecision gaps) None; mret ReStillHeld
    end.

(** [reevaluate]: [fresh] is [freshByFeed], which keeps a decision computed for
    the feed even when the rest of the evaluation throws. *)
Definition reevaluate (hold : ClaimHold) (fresh : list (string * DecisionData)) :
    M (list (string * DecisionData) * res string ReOutcome) :=
  early ← attempt (checkDeadlines hold);
  match early with
  | Err e => mret (fresh, Err e)
  | Ok (Some o) => mret (fresh, Ok o)
  | Ok None =>
      found ← match jm_get fresh (h_feedId hold) with
        | Some d => mret (Ok (d, fresh))
        | None => d ← attempt (decide_ (h_feedId hold));
                  mret (match d with Ok x => Ok (x, jm_set fresh (h_feedId hold) x) | Err e => Err e end)
        end;
      match found with
      | Err e => mret (fresh, Err e)
      | Ok (d, fresh') => r ← attempt (againstDecision hold d); mret (fresh', r)
      end
  end.

(** released, escalated and stillHeld counts. *)
Definition countOutcome (summary : Z * Z * Z) (r : res string ReOutcome) : Z * Z * Z :=
  let '(released, escalated, held) := summary in
  match r with
  | Ok ReReleased => (released + 1, escalated, held)
  | Ok ReEscalated => (released, escalated + 1, held)
  | Ok ReStillHeld | Err _ => (released, escalated, held + 1)
  end.

Fixpoint reevaluateEach (holds : list ClaimHold) (fresh : list (string * DecisionData)) (summary : Z * Z * Z) : M (Z * Z * Z) :=
  match holds with
  | [] => mret summary
  | hold :: holds' =>
      r ← reevaluate hold fresh;
      reevaluateEach holds' r.1 (countOutcome summary r.2)
  end.

Definition reevaluateAll : M (Z * Z * Z) :=
  evs ← events;
  reevaluateEach (listHolds (Some PayoutHeld) evs) [] (0, 0, 0).

Definition dispose (holdId : string) (disposition : HoldDisposition) (actor note : string) (extendMs : option Z) : M ClaimHold :=
  if negb (nonBlank actor && nonBlank note) then throw "actor and note are required" else
  hold ← getHold holdId;
  match h_status hold with
  | Escalated | PayoutHeld =>
      deadline ← match disposition with
        | ExtendHold =>
            match extendMs with
            | Some ms => if 0 <? ms then now ← ledgerNow; mret (Some (now + ms)) else throw "extend_hold requires extendMs > 0"
            | None => throw "extend_hold requires extendMs > 0"
            end
        | _ => mret None
        end;
      _ ← append (EHoldDisposed holdId disposition actor note deadline) None;
      _ ← audit ("claim_hold." +:+ dispositionText disposition) actor note
            (JObj [("holdId", JStr holdId); ("policyId", JStr (h_policyId hold));
                   ("deadline", match deadline with Some d => JNum (num_of_Z d) | None => JUndef end)]);
      getHold holdId
  | st => throw ("hold " +:+ holdId +:+ " is " +:+ statusText st +:+ "; only held or escalated claims can be disposed")
  end.

Definition markSettled (holdId : string) : M unit :=
  hold ← getHold holdId;
  if bool_decide (h_status hold = Settled) then mret tt
  else
    _ ← append (EHoldSettled holdId) None;
    audit "claim_hold.settled" "system" "settlement confirmed"
      (JObj [("holdId", JStr holdId); ("policyId", JStr (h_policyId hold))]).
End HoldService.

(** * The hold state machine *)

Abbreviation holdMap := (list (string * ClaimHold)).

(** When a hold event may be written: a hold is placed only for a policy whose
    earlier holds are all settled; a hold is released or escalated only while
    held, and disposed only while held or escalated. *)
Definition legalEvent (holds : holdMap) (b : EventBody) : Prop :=
  match b with
  | EHoldPlaced d => forall id h, jm_get holds id = Some h -> h_policyId h = hp_policyId d -> h_status h = Settled
  | EHoldReleased id _ _ | EHoldEscalated id _ _ => forall h, jm_get holds id = Some h -> h_status h = PayoutHeld
  | EHoldDisposed id _ _ _ _ =>
      forall h, jm_get holds id = Some h -> h_status h = PayoutHeld ∨ h_status h = Escalated
  | _ => True
  end.

Inductive legalLog : list EvidenceEvent -> Prop :=
| legal_nil : legalLog []
| legal_snoc l e : legalLog l -> legalEvent (foldHolds l) (ev_body e) -> legalLog (l ++ [e]).

Lemma foldHolds_snoc l e : foldHolds (l ++ [e]) = holdStep (foldHolds l) e.
Proof. unfold foldHolds. by rewrite foldl_app. Qed.

Lemma holdStep_other holds e : isHoldEvent (ev_body e) = false -> holdStep holds e = holds.
Proof. unfold holdStep. by destruct (ev_body e). Qed.

Lemma foldHolds_app_other l more :
  Forall (fun e => isHoldEvent (ev_body e) = false) more -> foldHolds (l ++ more) = foldHolds l.
Proof.
  induction more as [|e more IH] using rev_ind; [by rewrite app_nil_r|].
  intros [Hm [He _]%Forall_cons]%Forall_app. rewrite app_assoc, foldHolds_snoc, holdStep_other by done. auto.
Qed.

Lemma legalLog_app_other l more :
  Forall (fun e => isHoldEvent (ev_body e) = false) more -> legalLog l -> legalLog (l ++ more).
Proof.
  induction more as [|e more IH] using rev_ind; [by rewrite app_nil_r|].
  intros [Hm [He _]%Forall_cons]%Forall_app Hl. rewrite app_assoc. constructor; [auto|].
  unfold legalEvent. by destruct (ev_body e).
Qed.

(** ** The fold of a log *)

Lemma patch_get holds id f k :
  jm_get (patch holds id f) k = if decide (id = k) then f <$> jm_get holds k else jm_get holds k.
Proof.
  unfold patch. destruct (jm_get holds id) as [h|] eqn:E; [rewrite jm_get_set|]; case_decide; subst; by rewrite ?E.
Qed.

Lemma patch_keys holds id f : jm_keys (patch holds id f) = jm_keys holds.
Proof.
  unfold patch. destruct (jm_get holds id) as [h|] eqn:E; [|done].
  apply jm_keys_set_in. destruct (decide (id ∈ jm_keys holds)) as [?|Hn]; [done|].
  apply jm_get_None_notin in Hn. congruence.
Qed.

(** The id of the hold an event changes. *)
Definition touchedBy (b : EventBody) : option string :=
  match b with
  | EHoldPlaced d => Some (hp_holdId d)
  | EHoldReevaluated id _ _ | EHoldReleased id _ _ | EHoldEscalated id _ _
  | EHoldDisposed id _ _ _ _ | EHoldSettled id => Some id
  | _ => None
  end.

Lemma holdStep_get_ne holds e k : touchedBy (ev_body e) ≠ Some k -> jm_get (holdStep holds e) k = jm_get holds k.
Proof.
  unfold holdStep, touchedBy. destruct (ev_body e); intros; rewrite ?patch_get, ?jm_get_set; try done;
    case_decide; congruence.
Qed.

(** The status an event gives the hold it changes. *)
Definition statusAfter (b : EventBody) (st : HoldStatus) : HoldStatus :=
  match b with
  | EHoldReleased _ _ _ => Released
  | EHoldEscalated _ _ _ => Escalated
  | EHoldDisposed _ d _ _ _ => disposedStatus d
  | EHoldSettled _ => Settled
  | _ => st
  end.

Lemma holdStep_get_eq holds e k h' :
  touchedBy (ev_body e) = Some k -> jm_get (holdStep holds e) k = Some h' ->
  (∃ d, ev_body e = EHoldPlaced d ∧ h' = placedHold d (ev_recordedAt e)) ∨
  (∃ h, jm_get holds k = Some h ∧ h_policyId h' = h_policyId h ∧ h_holdId h' = h_holdId h ∧
        h_status h' = statusAfter (ev_body e) (h_status h)).
Proof.
  unfold holdStep, touchedBy. destruct (ev_body e) eqn:Eb; intros Hk; simplify_eq/=;
    rewrite ?patch_get, ?jm_get_set, decide_True by done; intros Hg; simplify_eq; [by left; eauto|right..];
    apply fmap_Some in Hg as (h & Hh & ->); exists h; try done.
  destruct disposition; simpl; try done. destruct deadline as [dl|]; [|done]. by destruct (dl =? 0).
Qed.

(** Holds are stored under their own id, once. *)
Lemma foldHolds_keys l :
  NoDup (jm_keys (foldHolds l)) ∧ forall k h, jm_get (foldHolds l) k = Some h -> h_holdId h = k.
Proof.
  induction l as [|e l [IH1 IH2]] using rev_ind; [split; [constructor|done]|].
  rewrite foldHolds_snoc. split.
  - unfold holdStep. destruct (ev_body e); rewrite ?patch_keys; auto using jm_set_NoDup.
  - intros k h Hg. destruct (decide (touchedBy (ev_body e) = Some k)) as [Ht|Ht].
    + destruct (holdStep_get_eq _ _ _ _ Ht Hg) as [(d & Eb & ->)|(h0 & Hh0 & _ & -> & _)].
      * simpl. rewrite Eb in Ht. simpl in Ht. congruence.
      * auto.
    + rewrite holdStep_get_ne in Hg by done. auto.
Qed.

Lemma elem_of_listHolds st l h :
  h ∈ listHolds st l <-> jm_get (foldHolds l) (h_holdId h) = Some h ∧ h_status h = default (h_status h) st.
Proof.
  unfold listHolds. rewrite elem_of_sort_by, list_elem_of_filter. destruct (foldHolds_keys l) as [Hd Hk].
  rewrite (and_comm (_ = _)). apply and_iff_compat_r. unfold jm_values. rewrite list_elem_of_fmap. split.
  - intros ([k h'] & -> & Hin). apply jm_in_get in Hin; [|done]. simpl. by rewrite (Hk k h').
  - intros Hg%jm_get_Some_in. by exists (h_holdId h, h).
Qed.

Lemma last_filter_None {A} (P : A -> Prop) `{forall x, Decision (P x)} (l : list A) x :
  last (filter P l) = None -> x ∈ l -> ¬ P x.
Proof.
  intros Hn%last_None Hx Hp. assert (x ∈ filter P l) as Hin by (by apply list_elem_of_filter).
  rewrite Hn in Hin. by apply not_elem_of_nil in Hin.
Qed.

Lemma activeHoldFor_Some p l h :
  activeHoldFor p l = Some h ->
  jm_get (foldHolds l) (h_holdId h) = Some h ∧ h_policyId h = p ∧ isTerminal (h_status h) = false.
Proof.
  intros Hl%last_Some_elem_of%list_elem_of_filter. destruct Hl as [[Hp Ht] [Hin _]%elem_of_listHolds]. done.
Qed.

Lemma no_open_hold p l :
  activeHoldFor p l = None -> deniedHoldFor p l = None ->
  forall id h, jm_get (foldHolds l) id = Some h -> h_policyId h = p -> h_status h = Settled.
Proof.
  intros Ha Hd id h Hg Hp. assert (h ∈ listHolds None l) as Hin.
  { apply elem_of_listHolds. split; [|done]. destruct (foldHolds_keys l) as [_ Hk]. by rewrite (Hk id h). }
  pose proof (last_filter_None _ _ _ Ha Hin) as H1. pose proof (last_filter_None _ _ _ Hd Hin) as H2.
  simpl in H1, H2. destruct (h_status h); naive_solver.
Qed.

(** ** Invariants of legal logs *)

(** At most one hold of a policy is not settled. *)
Definition oneOpen (holds : holdMap) : Prop :=
  forall id1 id2 h1 h2, jm_get holds id1 = Some h1 -> jm_get holds id2 = Some h2 ->
    h_policyId h1 = h_policyId h2 -> h_status h1 ≠ Settled -> h_status h2 ≠ Settled -> id1 = id2.

(** A legal event that changes a hold other than by placing it came from an
    unsettled hold, or left it settled. *)
Lemma legal_not_reopened holds e k h h' :
  legalEvent holds (ev_body e) -> jm_get holds k = Some h -> touchedBy (ev_body e) = Some k ->
  h_status h' = statusAfter (ev_body e) (h_status h) -> h_status h' ≠ Settled -> h_status h ≠ Settled.
Proof.
  intros Hl Hg Ht Hs Hn E. rewrite E in Hs.
  destruct (ev_body e); simplify_eq/=; try (specialize (Hl h Hg); naive_solver congruence).
Qed.

Lemma legal_oneOpen l : legalLog l -> oneOpen (foldHolds l).
Proof.
  induction 1 as [|l e Hl IH He]; [by intros ?|].
  rewrite foldHolds_snoc.
  (* what an unsettled hold after the event was before it *)
  assert (forall k h', jm_get (holdStep (foldHolds l) e) k = Some h' -> h_status h' ≠ Settled ->
    (∃ d, ev_body e = EHoldPlaced d ∧ hp_holdId d = k ∧ h_policyId h' = hp_policyId d) ∨
    (∃ h, jm_get (foldHolds l) k = Some h ∧ h_policyId h' = h_policyId h ∧ h_status h ≠ Settled)) as Hback.
  { intros k h' Hg Hn. destruct (decide (touchedBy (ev_body e) = Some k)) as [Ht|Ht].
    - destruct (holdStep_get_eq _ _ _ _ Ht Hg) as [(d & Eb & ->)|(h & Hh & Hp & _ & Hs)].
      + left. exists d. rewrite Eb in Ht. simpl in Ht. naive_solver congruence.
      + right. exists h. split_and!; [done|done|by eapply legal_not_reopened].
    - rewrite holdStep_get_ne in Hg by done. right. eauto. }
  intros id1 id2 h1 h2 H1 H2 Hp Hn1 Hn2.
  destruct (Hback id1 h1 H1 Hn1) as [(d1 & Eb1 & Hk1 & Hp1)|(g1 & Hg1 & Hp1 & Hs1)];
  destruct (Hback id2 h2 H2 Hn2) as [(d2 & Eb2 & Hk2 & Hp2)|(g2 & Hg2 & Hp2 & Hs2)].
  - congruence.
  - rewrite Eb1 in He. destruct Hs2. apply (He id2 g2 Hg2). congruence.
  - rewrite Eb2 in He. destruct Hs1. apply (He id1 g1 Hg1). congruence.
  - apply (IH id1 id2 g1 g2); try done. congruence.
Qed.

(** ** Programs that write no hold event *)

Lemma noHold_ret {A} (a : A) : noHoldEvents (mret a).
Proof. intros s. exists []. by rewrite app_nil_r. Qed.

Lemma noHold_throw {A} msg : noHoldEvents (@throw A msg).
Proof. intros s. exists []. by rewrite app_nil_r. Qed.

Lemma noHold_pure {A} (f : LState -> res string A) : noHoldEvents (liftRes f).
Proof. intros s. exists []. by rewrite app_nil_r. Qed.

Lemma noHold_events : noHoldEvents events.
Proof. intros s. exists []. by rewrite app_nil_r. Qed.

Lemma noHold_readClock : noHoldEvents readClock.
Proof. intros s. exists []. by rewrite app_nil_r. Qed.

Lemma noHold_bind {A B} (m : M A) (f : A -> M B) :
  noHoldEvents m -> (forall a, noHoldEvents (f a)) -> noHoldEvents (m ≫= f).
Proof.
  intros Hm Hf s. unfold mbind, M_bind. destruct (Hm s) as (more & Hl & Hn).
  destruct (m s) as [[a|e] s'] eqn:E; simpl in *; [|eauto].
  destruct (Hf a s') as (more' & Hl' & Hn'). exists (more ++ more').
  rewrite Hl', Hl, app_assoc. split; [done|by apply Forall_app].
Qed.

Lemma noHold_append b at_ : isHoldEvent b = false -> noHoldEvents (append b at_).
Proof.
  intros Hb s. destruct (append_spec b at_ s) as [H _]. destruct (append b at_ s) as [[e|x] s']; simpl.
  - destruct H as (Hl & He & _). exists [e]. split; [done|]. repeat constructor. by rewrite He.
  - exists []. by rewrite app_nil_r.
Qed.

Lemma noHold_if {A} (b : bool) (m1 m2 : M A) : noHoldEvents m1 -> noHoldEvents m2 -> noHoldEvents (if b then m1 else m2).
Proof. by destruct b. Qed.

Lemma noHold_attempt {A} (m : M A) : noHoldEvents m -> noHoldEvents (attempt m).
Proof. intros Hm s. destruct (Hm s) as (more & Hl & Hn). exists more. unfold attempt. destruct (m s). done. Qed.

#[export] Hint Resolve noHold_ret noHold_throw noHold_pure noHold_events noHold_readClock noHold_bind
  noHold_if noHold_attempt decide_noHold isGoverned_noHold : refract.
#[export] Hint Extern 1 (noHoldEvents (append _ _)) => apply noHold_append; reflexivity : refract.

Lemma noHold_ledgerNow : noHoldEvents ledgerNow.
Proof. unfold ledgerNow. eauto with refract. Qed.
#[export] Hint Resolve noHold_ledgerNow : refract.

Lemma noHold_audit a b c d : noHoldEvents (audit a b c d).
Proof. unfold audit. eauto with refract. Qed.

Lemma noHold_assess `{JsHost} d : noHoldEvents (assess d).
Proof. unfold assess. eauto with refract. Qed.

Lemma noHold_getHold id : noHoldEvents (getHold id).
Proof. unfold getHold. apply noHold_bind; [auto with refract|]. intros evs. destruct (jm_get _ _); auto with refract. Qed.
#[export] Hint Resolve noHold_audit noHold_assess noHold_getHold : refract.

(** ** Programs keep their disk *)

Lemma keepsDisk_ret {A} (a : A) : keepsDisk (mret a).
Proof. done. Qed.
Lemma keepsDisk_throw {A} msg : keepsDisk (@throw A msg).
Proof. done. Qed.
Lemma keepsDisk_pure {A} (f : LState -> res string A) : keepsDisk (liftRes f).
Proof. done. Qed.
Lemma keepsDisk_events : keepsDisk events.
Proof. done. Qed.
Lemma keepsDisk_readClock : keepsDisk readClock.
Proof. done. Qed.
Lemma keepsDisk_bind {A B} (m : M A) (f : A -> M B) : keepsDisk m -> (forall a, keepsDisk (f a)) -> keepsDisk (m ≫= f).
Proof.
  intros Hm Hf s. unfold mbind, M_bind. specialize (Hm s). destruct (m s) as [[a|e] s']; simpl in *; [|done].
  by rewrite Hf.
Qed.
Lemma keepsDisk_append b at_ : keepsDisk (append b at_).
Proof.
  intros s. unfold append, writeLine, push, events, mbind, M_bind, mret, M_ret, readClock.
  by destruct at_; simpl; destruct (st_disk s (st_writes s)).
Qed.
Lemma keepsDisk_tryCatch {A} (m : M A) h : keepsDisk m -> (forall e, keepsDisk (h e)) -> keepsDisk (tryCatch m h).
Proof. intros Hm Hh s. unfold tryCatch. specialize (Hm s). destruct (m s) as [[a|e] s']; simpl in *; [done|]. by rewrite Hh. Qed.
Lemma keepsDisk_if {A} (b : bool) (m1 m2 : M A) : keepsDisk m1 -> keepsDisk m2 -> keepsDisk (if b then m1 else m2).
Proof. by destruct b. Qed.
#[export] Hint Resolve keepsDisk_ret keepsDisk_throw keepsDisk_pure keepsDisk_events keepsDisk_readClock keepsDisk_bind
  keepsDisk_append keepsDisk_tryCatch keepsDisk_if isGoverned_disk decide_disk : refract.

Lemma keepsDisk_ledgerNow : keepsDisk ledgerNow.
Proof. unfold ledgerNow. eauto with refract. Qed.
Lemma keepsDisk_getHold id : keepsDisk (getHold id).
Proof. unfold getHold. apply keepsDisk_bind; [auto with refract|]. intros evs. destruct (jm_get _ id); auto with refract. Qed.
Lemma keepsDisk_audit a b c d : keepsDisk (audit a b c d).
Proof. unfold audit. eauto with refract. Qed.
Lemma keepsDisk_assess `{JsHost} d : keepsDisk (assess d).
Proof. unfold assess. auto using keepsDisk_ledgerNow with refract. Qed.
#[export] Hint Resolve keepsDisk_ledgerNow keepsDisk_getHold keepsDisk_audit keepsDisk_assess : refract.

(** ** Programs that write only legal events

    [safe ids H m]: from a legal log whose holds satisfy [H], [m] leaves a legal
    log on which only the holds of [ids] may have changed. *)
Definition safe {A} (ids : string -> Prop) (H : holdMap -> Prop) (m : M A) : Prop :=
  forall s, legalLog (st_log s) -> H (foldHolds (st_log s)) ->
    legalLog (st_log (m s).2) ∧
    forall k, ¬ ids k -> jm_get (foldHolds (st_log (m s).2)) k = jm_get (foldHolds (st_log s)) k.

Lemma noHold_frame {A} (m : M A) s : noHoldEvents m -> foldHolds (st_log (m s).2) = foldHolds (st_log s).
Proof. intros Hm. destruct (Hm s) as (more & -> & Hn). by apply foldHolds_app_other. Qed.

Lemma noHold_legal {A} (m : M A) s : noHoldEvents m -> legalLog (st_log s) -> legalLog (st_log (m s).2).
Proof. intros Hm. destruct (Hm s) as (more & -> & Hn). by apply legalLog_app_other. Qed.

Lemma safe_noHold {A} ids H (m : M A) : noHoldEvents m -> safe ids H m.
Proof. intros Hm s Hl _. split; [by apply noHold_legal|intros; by rewrite noHold_frame]. Qed.

(** Sequencing: after a first step that left the holds alone, or before a
    second step that does. *)
Lemma safe_bind {A B} ids H (m : M A) (f : A -> M B) :
  safe ids H m ->
  (forall s a s', m s = (Ok a, s') -> noHoldEvents (f a) ∨ (foldHolds (st_log s') = foldHolds (st_log s) ∧ safe ids H (f a))) ->
  safe ids H (m ≫= f).
Proof.
  intros Hm Hf s Hl Hh. destruct (Hm s Hl Hh) as [Hl' Hk].
  unfold mbind, M_bind. destruct (m s) as [[a|e] s'] eqn:E; simpl in *; [|done].
  destruct (Hf s a s' E) as [Hn|[Hfr Hs]].
  - split; [by apply noHold_legal|]. intros. rewrite noHold_frame by done. auto.
  - destruct (Hs s' Hl') as [H1 H2]; [by rewrite Hfr|]. split; [done|]. intros. rewrite H2 by done. auto.
Qed.

Lemma safe_after {A B} ids H (m : M A) (f : A -> M B) :
  noHoldEvents m -> (forall a, safe ids H (f a)) -> safe ids H (m ≫= f).
Proof.
  intros Hm Hf. apply safe_bind; [by apply safe_noHold|]. intros s a s' E. right. split; [|done].
  pose proof (noHold_frame m s Hm) as Hfr. by rewrite E in Hfr.
Qed.

Lemma safe_then {A B} ids H (m : M A) (f : A -> M B) :
  safe ids H m -> (forall a, noHoldEvents (f a)) -> safe ids H (m ≫= f).
Proof. intros Hm Hf. apply safe_bind; auto. Qed.

Lemma safe_append (ids : string -> Prop) (H : holdMap -> Prop) b at_ :
  (forall holds, H holds -> legalEvent holds b) -> (forall k, touchedBy b = Some k -> ids k) ->
  safe ids H (append b at_).
Proof.
  intros Hb Hk s Hl Hh. destruct (append_spec b at_ s) as [Ha _].
  destruct (append b at_ s) as [[e|x] s']; simpl in *; [|by rewrite Ha].
  destruct Ha as (-> & Hbody & _). split.
  - constructor; [done|]. rewrite Hbody. auto.
  - intros k Hn. rewrite foldHolds_snoc. apply holdStep_get_ne. rewrite Hbody. intros E. by apply Hn, Hk.
Qed.

Lemma safe_attempt {A} ids H (m : M A) : safe ids H m -> safe ids H (attempt m).
Proof. intros Hm s Hl Hh. specialize (Hm s Hl Hh). unfold attempt. by destruct (m s). Qed.

Lemma safe_tryCatch {A} ids H (m : M A) h : safe ids H m -> (forall e, noHoldEvents (h e)) -> safe ids H (tryCatch m h).
Proof.
  intros Hm Hh s Hl Hs. destruct (Hm s Hl Hs) as [Hl' Hk]. unfold tryCatch.
  destruct (m s) as [[a|e] s'] eqn:E; simpl in *; [done|].
  split; [by apply noHold_legal|]. intros. rewrite noHold_frame by done. auto.
Qed.

Lemma safe_if {A} ids H (b : bool) (m1 m2 : M A) : safe ids H m1 -> safe ids H m2 -> safe ids H (if b then m1 else m2).
Proof. by destruct b. Qed.

(** The hold [id] is held. *)
Definition isHeld (id : string) (holds : holdMap) : Prop := forall h, jm_get holds id = Some h -> h_status h = PayoutHeld.

Section ServiceSafety.
Context `{JsHost} `{ConsensusLaws}.
Variable maxMs : Z.

Lemma escalate_safe hold r t : safe (eq (h_holdId hold)) (isHeld (h_holdId hold)) (escalate hold r t).
Proof.
  unfold escalate. apply safe_then; [|auto with refract]. apply safe_append; [auto|by intros k [= ->]].
Qed.

Lemma release_safe hold d : safe (eq (h_holdId hold)) (isHeld (h_holdId hold)) (release hold d).
Proof.
  unfold release. apply safe_then; [|auto with refract]. apply safe_append; [auto|by intros k [= ->]].
Qed.

Lemma checkDeadlines_safe hold : safe (eq (h_holdId hold)) (isHeld (h_holdId hold)) (checkDeadlines hold).
Proof.
  unfold checkDeadlines. apply safe_after; [auto with refract|]. intros now.
  repeat apply safe_if; try (apply safe_then; [apply escalate_safe|auto with refract]).
  apply safe_noHold. auto with refract.
Qed.

Lemma checkDeadlines_None hold s s' :
  checkDeadlines hold s = (Ok None, s') -> foldHolds (st_log s') = foldHolds (st_log s).
Proof.
  unfold checkDeadlines. unfold mbind, M_bind. pose proof (noHold_frame ledgerNow s noHold_ledgerNow) as Hf.
  destruct (ledgerNow s) as [[now|e] s1]; [|done]. simpl in *. rewrite <- Hf.
  case_match; [by destruct (escalate _ _ _ _) as [[]]|].
  case_match; [by destruct (escalate _ _ _ _) as [[]]|]. intros [= ->]. done.
Qed.

Lemma tryCandidates_safe hold ds best : safe (eq (h_holdId hold)) (isHeld (h_holdId hold)) (tryCandidates hold ds best).
Proof.
  revert best; induction ds as [|d ds IH]; intros best; simpl; [apply safe_noHold; auto with refract|].
  apply safe_after; [auto with refract|]. intros [|g gs]; [|apply IH].
  apply safe_then; [apply release_safe|auto with refract].
Qed.

Lemma tryCandidates_Err hold ds best best' s s' :
  tryCandidates hold ds best s = (Ok (Err best'), s') -> foldHolds (st_log s') = foldHolds (st_log s).
Proof.
  revert best s; induction ds as [|d ds IH]; intros best s; simpl; [by intros [= _ ->]|].
  unfold mbind, M_bind. pose proof (noHold_frame (assess d) s (noHold_assess d)) as Hf.
  destruct (assess d s) as [[[|g gs]|e] s1]; simpl in *; [by destruct (release _ _ _) as [[]]| |done].
  intros Ht. by rewrite (IH _ _ Ht).
Qed.

Lemma againstDecision_safe hold d : safe (eq (h_holdId hold)) (isHeld (h_holdId hold)) (againstDecision hold d).
Proof.
  unfold againstDecision. apply safe_if; [apply safe_then; [apply escalate_safe|auto with refract]|].
  apply safe_after; [auto with refract|]. intros evs. apply safe_bind; [apply tryCandidates_safe|].
  intros s [u|best] s' E; [left; auto with refract|]. right. split; [by eapply tryCandidates_Err|].
  destruct (default _ best) as [gaps bd]. apply safe_if; [apply safe_noHold; auto with refract|].
  apply safe_then; [|auto with refract]. apply safe_append; [done|by intros k [= ->]].
Qed.

Lemma reevaluate_safe hold fresh : safe (eq (h_holdId hold)) (isHeld (h_holdId hold)) (reevaluate hold fresh).
Proof.
  unfold reevaluate. apply safe_bind; [apply safe_attempt, checkDeadlines_safe|].
  intros s r s' E. destruct r as [[o|]|e]; [left; auto with refract| |left; auto with refract]. right.
  split.
  { unfold attempt in E. destruct (checkDeadlines hold s) as [r s1] eqn:Ec.
    injection E as -> ->. by eapply checkDeadlines_None. }
  apply safe_after; [destruct (jm_get fresh (h_feedId hold)); auto with refract|].
  intros [[d fresh']|e]; [|apply safe_noHold; auto with refract].
  apply safe_then; [apply safe_attempt, againstDecision_safe|auto with refract].
Qed.

Lemma reevaluateEach_safe holds fresh sum :
  NoDup (map h_holdId holds) ->
  safe (fun k => k ∈ map h_holdId holds) (fun hs => Forall (fun h => isHeld (h_holdId h) hs) holds)
    (reevaluateEach holds fresh sum).
Proof.
  revert fresh sum; induction holds as [|h holds IH]; intros fresh sum Hd s Hl Hh; [done|].
  cbn [map] in *. apply NoDup_cons in Hd as [Hn Hd]. apply Forall_cons in Hh as [Hh Hhs].
  simpl. unfold mbind, M_bind. destruct (reevaluate_safe h fresh s Hl Hh) as [Hl' Hk].
  destruct (reevaluate h fresh s) as [[r|e] s'] eqn:E; simpl in *.
  - destruct (IH r.1 (countOutcome sum r.2) Hd s' Hl') as [H2 H3].
    + apply Forall_forall. intros x Hx y Hy. rewrite Forall_forall in Hhs.
      rewrite Hk in Hy; [by apply (Hhs x Hx)|].
      intros Heq. apply Hn. rewrite Heq. apply list_elem_of_fmap. eauto.
    + split; [done|]. intros k Hnk. rewrite not_elem_of_cons in Hnk.
      rewrite H3 by tauto. apply Hk. naive_solver.
  - split; [done|]. intros k Hnk. apply Hk. rewrite not_elem_of_cons in Hnk. naive_solver.
Qed.

Lemma listHolds_NoDup st l : NoDup (map h_holdId (listHolds st l)).
Proof.
  unfold listHolds. rewrite sort_by_perm. destruct (foldHolds_keys l) as [Hd Hk].
  assert (map h_holdId (jm_values (foldHolds l)) = jm_keys (foldHolds l)) as Hm.
  { unfold jm_values, jm_keys. rewrite <- list_fmap_compose. apply list_fmap_ext. intros i [k h] Hi.
    apply list_elem_of_lookup_2, jm_in_get in Hi; [|done]. by apply Hk. }
  rewrite <- Hm in Hd. eapply sublist_NoDup; [exact Hd|]. apply fmap_sublist, sublist_filter.
Qed.

Lemma reevaluateAll_safe :
  forall s, legalLog (st_log s) ->
    legalLog (st_log (reevaluateAll s).2) ∧
    forall k h, jm_get (foldHolds (st_log s)) k = Some h -> h_status h ≠ PayoutHeld ->
      jm_get (foldHolds (st_log (reevaluateAll s).2)) k = Some h.
Proof.
  intros s Hl. unfold reevaluateAll, mbind, M_bind; simpl.
  destruct (reevaluateEach_safe (listHolds (Some PayoutHeld) (st_log s)) [] (0, 0, 0)
    (listHolds_NoDup _ _) s Hl) as [H2 H3].
  { apply Forall_forall. intros h [Hg Hs]%elem_of_listHolds h'. simpl in Hs. congruence. }
  split; [done|]. intros k h Hg Hs. rewrite H3; [done|].
  intros (h' & -> & [Hg' Hs']%elem_of_listHolds)%list_elem_of_fmap. simpl in Hs'. congruence.
Qed.

(** Every earlier hold of the policy is settled. *)
Definition allSettled (policyId : string) (holds : holdMap) : Prop :=
  forall id h, jm_get holds id = Some h -> h_policyId h = policyId -> h_status h = Settled.

Lemma gateFresh_safe c ids :
  (forall d, ids (holdIdOf (hc_policyId c) d)) ->
  safe ids (allSettled (hc_policyId c)) (gateFresh maxMs c).
Proof.
  intros Hids. unfold gateFresh.
  apply safe_after; [auto with refract|]. intros g. apply safe_if; [apply safe_noHold; auto with refract|].
  apply safe_after; [auto with refract|]. intros d.
  repeat apply safe_if; try solve [apply safe_noHold; auto with refract].
  apply safe_after; [auto with refract|]. intros [|x xs]; [apply safe_noHold; auto with refract|].
  apply safe_then; [|auto with refract]. unfold place.
  apply safe_after; [auto with refract|]. intros now.
  apply safe_then; [|auto with refract]. apply safe_append; [done|by intros k [= <-]].
Qed.

Lemma gate_safe c ids :
  (forall d, ids (holdIdOf (hc_policyId c) d)) -> safe ids (fun _ => True) (gate maxMs c).
Proof.
  intros Hids. apply safe_tryCatch; [|auto with refract]. intros s Hl _.
  unfold gateBody, mbind, M_bind; simpl.
  destruct (activeHoldFor _ _) as [h|] eqn:Ea; [by destruct (h_status h)|].
  destruct (deniedHoldFor _ _) as [h|] eqn:Ed; [done|].
  apply gateFresh_safe; [done|done|]. exact (no_open_hold _ _ Ea Ed).
Qed.

Lemma getHold_Ok id s h s' :
  getHold id s = (Ok h, s') -> s' = s ∧ jm_get (foldHolds (st_log s)) id = Some h.
Proof. unfold getHold, mbind, M_bind; simpl. destruct (jm_get _ id) eqn:E; simpl; intros [= <- <-]; done. Qed.

(** A disposition touches only its hold, and only when it is open. *)
Lemma dispose_safe id d a n ms s :
  legalLog (st_log s) ->
  legalLog (st_log (dispose id d a n ms s).2) ∧
  forall k h, jm_get (foldHolds (st_log s)) k = Some h ->
    (k ≠ id ∨ isTerminal (h_status h) = true) ->
    jm_get (foldHolds (st_log (dispose id d a n ms s).2)) k = Some h.
Proof.
  intros Hl. unfold dispose. destruct (negb _); [by split|].
  destruct (getHold id s) as [[h|e] s1] eqn:Eg.
  2:{ rewrite (bind_Err _ _ _ _ _ Eg). unfold getHold, mbind, M_bind in Eg; simpl in Eg.
      destruct (jm_get _ id); [done|]. injection Eg as _ <-. by split. }
  rewrite (bind_Ok _ _ _ _ _ Eg). apply getHold_Ok in Eg as [-> Hg].
  assert (forall (m : M (option Z)) (f : option Z -> M ClaimHold),
    isTerminal (h_status h) = false ->
    noHoldEvents m -> (forall x, safe (eq id) (fun holds => holds = foldHolds (st_log s)) (f x)) ->
    legalLog (st_log ((m ≫= f) s).2) ∧
    forall k h, jm_get (foldHolds (st_log s)) k = Some h -> (k ≠ id ∨ isTerminal (h_status h) = true) ->
      jm_get (foldHolds (st_log ((m ≫= f) s).2)) k = Some h) as Hgo.
  { intros m f Ht Hm Hf.
    destruct (safe_after (eq id) (fun holds => holds = foldHolds (st_log s)) m f Hm Hf s Hl eq_refl) as [H2 H3].
    split; [done|]. intros k h' Hk' Hor. rewrite H3; [done|]. intros <-. destruct Hor; [done|]. congruence. }
  destruct (h_status h) eqn:Hs; try (by split); apply Hgo; try done;
    try (destruct d; auto with refract; destruct ms; auto with refract);
    intros x; apply safe_then; auto with refract;
    (apply safe_append; [|by intros k [= ->]]); intros holds -> h' Hh'; simplify_eq; auto.
Qed.

Lemma markSettled_safe id : safe (eq id) (fun _ => True) (markSettled id).
Proof.
  unfold markSettled. apply safe_after; [auto with refract|].
  intros h. apply safe_if; [apply safe_noHold; auto with refract|].
  apply safe_then; auto with refract. apply safe_append; [done|by intros k [= ->]].
Qed.

Lemma gate_keepsDisk c : keepsDisk (gate maxMs c).
Proof.
  unfold gate. apply keepsDisk_tryCatch; [|auto with refract]. unfold gateBody.
  apply keepsDisk_bind; [auto with refract|]. intros evs.
  destruct (activeHoldFor _ _) as [h|]; [destruct (h_status h); auto with refract|].
  destruct (deniedHoldFor _ _); [auto with refract|]. unfold gateFresh.
  apply keepsDisk_bind; [auto with refract|]. intros g. apply keepsDisk_if; [auto with refract|].
  apply keepsDisk_bind; [auto with refract|]. intros d. repeat (apply keepsDisk_if; [auto with refract|]).
  apply keepsDisk_bind; [auto with refract|]. intros [|x xs]; [auto with refract|].
  apply keepsDisk_bind; [|auto with refract]. unfold place. auto 10 with refract.
Qed.

(** The gate names a hold only when it is released or approved, and then it
    wrote nothing. *)
Lemma gate_proceed_hold c s id s' :
  gate maxMs c s = (Ok (Proceed (Some id)), s') ->
  s' = s ∧ ∃ h, jm_get (foldHolds (st_log s)) id = Some h ∧ h_policyId h = hc_policyId c ∧
    (h_status h = Released ∨ h_status h = Approved).
Proof.
  unfold gate, tryCatch. destruct (gateBody maxMs c s) as [[g|e] s1] eqn:E; [|done]. intros [= -> ->].
  unfold gateBody in E. rewrite (bind_Ok _ _ s (st_log s) s) in E by done.
  destruct (activeHoldFor _ _) as [h|] eqn:Ea.
  { apply activeHoldFor_Some in Ea as (Hg & Hp & _).
    destruct (h_status h) eqn:Hs; unfold mret, M_ret in E; simplify_eq; split; eauto 6. }
  destruct (deniedHoldFor _ _) as [h|]; [done|].
  unfold gateFresh, mbind, M_bind in E.
  destruct (isGoverned _ s) as [[[|]|e] s2]; simpl in E; [|done|done].
  destruct (decide_ _ s2) as [[d|e] s3]; [|done]. case_bool_decide; [done|].
  destruct (dc_triggered d); simpl in E; [|done]. 
  destruct (assessEvidenceCompleteness _ _ _ _) as [[|x xs]|e]; simpl in E; [done| |done].
  by destruct (place _ _ _ _ _) as [[]].
Qed.

Lemma append_ok_disk b at_ s : (forall n, st_disk s n = true) -> ∃ e s', append b at_ s = (Ok e, s').
Proof.
  intros Hd. unfold append, writeLine, push, events, mbind, M_bind, mret, M_ret, readClock.
  destruct at_; simpl; rewrite Hd; simpl; eauto.
Qed.

(** On a working disk, an existing hold can be marked settled. *)
Lemma markSettled_ok id s h :
  (forall n, st_disk s n = true) -> jm_get (foldHolds (st_log s)) id = Some h ->
  ∃ s', markSettled id s = (Ok tt, s') ∧ st_disk s' = st_disk s.
Proof.
  intros Hd Hg. assert (keepsDisk (markSettled id)) as Hk.
  { unfold markSettled. auto with refract. }
  specialize (Hk s). unfold markSettled in *.
  assert (getHold id s = (Ok h, s)) as Eg.
  { unfold getHold, mbind, M_bind; simpl. by rewrite Hg. }
  rewrite (bind_Ok _ _ _ _ _ Eg) in *. case_bool_decide; [by eexists|].
  destruct (append_ok_disk (EHoldSettled id) None s Hd) as (e & s1 & Ea). pose proof (keepsDisk_append (EHoldSettled id) None s) as Hd1.
  rewrite (bind_Ok _ _ _ _ _ Ea) in *. rewrite Ea in Hd1. simpl in Hd1. unfold audit in *.
  destruct (append_ok_disk (EAudit "claim_hold.settled" "system" "settlement confirmed"
    (JObj [("holdId", JStr id); ("policyId", JStr (h_policyId h))])) None s1) as (e2 & s2 & Ea2); [by rewrite Hd1|].
  rewrite (bind_Ok _ _ _ _ _ Ea2) in *. by eexists.
Qed.

(** ** Histories *)

(** A call of the service, or an event another component records. *)
Inductive HoldAction :=
| HGate (c : HoldCandidate)
| HReevaluate
| HDispose (id : string) (d : HoldDisposition) (actor note : string) (extendMs : option Z)
| HSettle (id : string)
| HOther (b : EventBody).

Definition runAction (a : HoldAction) : M unit :=
  match a with
  | HGate c => _ ← gate maxMs c; mret tt
  | HReevaluate => _ ← reevaluateAll; mret tt
  | HDispose id d actor note ms => _ ← dispose id d actor note ms; mret tt
  | HSettle id => markSettled id
  | HOther b => if isHoldEvent b then mret tt else _ ← append b None; mret tt
  end.

Fixpoint runHolds (acts : list HoldAction) (s : LState) : LState :=
  match acts with
  | [] => s
  | a :: acts' => runHolds acts' (runAction a s).2
  end.

Lemma then_ret_state {A} (m : M A) s : ((_ ← m; mret ()) s).2 = (m s).2.
Proof. unfold mbind, M_bind. by destruct (m s) as [[]]. Qed.

Lemma runAction_legal a s : legalLog (st_log s) -> legalLog (st_log (runAction a s).2).
Proof.
  intros Hl. destruct a; simpl; rewrite ?then_ret_state.
  - by apply (gate_safe c (fun _ => True)).
  - by apply reevaluateAll_safe.
  - by apply dispose_safe.
  - by apply (markSettled_safe id s Hl).
  - destruct (isHoldEvent b) eqn:Hb; [done|]. rewrite then_ret_state. apply noHold_legal; [|done]. by apply noHold_append.
Qed.

Lemma runHolds_legal acts s : legalLog (st_log s) -> legalLog (st_log (runHolds acts s)).
Proof. revert s; induction acts as [|a acts IH]; intros s Hl; [done|]. apply IH. by apply runAction_legal. Qed.

(** A ledger with no events, under any clock and disk. *)
Definition emptyLedger (clock : nat -> Z) (disk : nat -> bool) (bodies : list (string * string)) : LState :=
  mkLState [] bodies clock 0 disk 0.

(** C5: whatever sequence of scans, re-evaluations, operator dispositions and
    settlements runs, under any clock and failing writes, a policy never has two
    holds that are not settled: a re-scan never creates a second hold, and a
    denied policy never gets a new one. *)
Theorem one_open_hold_per_policy (clock : nat -> Z) (disk : nat -> bool) (bodies : list (string * string))
    (acts : list HoldAction) :
  oneOpen (foldHolds (st_log (runHolds acts (emptyLedger clock disk bodies)))).
Proof. apply legal_oneOpen, runHolds_legal. constructor. Qed.

(** ** Denials *)

Lemma oneOpen_denied l p id h c :
  legalLog l -> jm_get (foldHolds l) id = Some h -> h_policyId h = p -> h_status h = Denied ->
  hc_policyId c = p -> activeHoldFor p l = None ∧ is_Some (deniedHoldFor p l).
Proof.
  intros Hl Hg Hp Hd Hc. split.
  - destruct (activeHoldFor p l) as [a|] eqn:Ea; [|done].
    apply activeHoldFor_Some in Ea as (Hga & Hpa & Ht).
    assert (h_holdId a = id) as Hid.
    { eapply (legal_oneOpen l Hl _ _ a h); try done; [congruence|by destruct (h_status a)|congruence]. }
    rewrite Hid in Hga. simplify_eq. by rewrite Hd in Ht.
  - destruct (deniedHoldFor p l) eqn:Ed; [eauto|].
    exfalso. eapply (last_filter_None _ _ h Ed); [|done].
    apply elem_of_listHolds. split; [|done]. destruct (foldHolds_keys l) as [_ Hk]. by rewrite (Hk id h Hg).
Qed.

Lemma gate_denied c s id h :
  legalLog (st_log s) -> jm_get (foldHolds (st_log s)) id = Some h -> h_policyId h = hc_policyId c ->
  h_status h = Denied -> ∃ r hid, gate maxMs c s = (Ok (Block r hid), s).
Proof.
  intros Hl Hg Hp Hd. destruct (oneOpen_denied _ _ _ _ c Hl Hg Hp Hd eq_refl) as [Ha [x Hx]].
  unfold gate, tryCatch, gateBody, mbind, M_bind; simpl. rewrite Ha, Hx. simpl. eauto.
Qed.

(** The denied hold survives every call that is not its own settlement. *)
Lemma runAction_denied a s id h :
  legalLog (st_log s) -> jm_get (foldHolds (st_log s)) id = Some h -> h_status h = Denied ->
  (forall p d, holdIdOf p d = id -> p = h_policyId h) -> a ≠ HSettle id ->
  jm_get (foldHolds (st_log (runAction a s).2)) id = Some h.
Proof.
  intros Hl Hg Hd Hfresh Ha. destruct a; simpl; rewrite ?then_ret_state.
  - destruct (decide (hc_policyId c = h_policyId h)) as [Hp|Hp].
    + destruct (gate_denied c s id h Hl Hg (eq_sym Hp) Hd) as (r & hid & ->). done.
    + destruct (gate_safe c (fun k => ∃ d, holdIdOf (hc_policyId c) d = k)) with (s := s) as [_ Hk]; [eauto|done|done|].
      rewrite Hk; [done|]. intros [d Hid]. by apply Hp, (Hfresh _ d).
  - apply reevaluateAll_safe; [done|done|congruence].
  - apply dispose_safe; [done|done|]. right. by rewrite Hd.
  - destruct (markSettled_safe id0 s Hl I) as [_ Hk]. rewrite Hk; [done|]. intros ->. done.
  - destruct (isHoldEvent b) eqn:Hb; [done|]. rewrite then_ret_state, noHold_frame; [done|]. by apply noHold_append.
Qed.

(** A denial is final: once an operator has denied a policy's hold, then
    after any further calls other than a settlement of that very hold, the gate
    blocks every payout for the policy.  Hold ids of distinct policies are
    assumed not to collide. *)
Theorem denied_stays_blocked (clock : nat -> Z) (disk : nat -> bool) (bodies : list (string * string))
    (acts acts' : list HoldAction) (id : string) (h : ClaimHold) (c : HoldCandidate)
    (Hdenied : jm_get (foldHolds (st_log (runHolds acts (emptyLedger clock disk bodies)))) id = Some h)
    (Hst : h_status h = Denied) (Hpol : hc_policyId c = h_policyId h)
    (Hfresh : forall p d, holdIdOf p d = id -> p = h_policyId h) (Hns : HSettle id ∉ acts') :
  ∃ reason hid, (gate maxMs c (runHolds acts' (runHolds acts (emptyLedger clock disk bodies)))).1 = Ok (Block reason hid).
Proof.
  assert (legalLog (st_log (runHolds acts (emptyLedger clock disk bodies)))) as Hl.
  { apply runHolds_legal. constructor. }
  revert Hl Hdenied. generalize (runHolds acts (emptyLedger clock disk bodies)) as s.
  induction acts' as [|a acts' IH]; intros s Hl Hg; simpl.
  - destruct (gate_denied c s id h Hl Hg (eq_sym Hpol) Hst) as (r & hid & ->). eauto.
  - apply not_elem_of_cons in Hns as [Hne Hns]. apply IH; [done|by apply runAction_legal|].
    apply runAction_denied; auto.
Qed.
End ServiceSafety.

(** ** What a payout rests on *)

(** The evidence behind a decision is complete: enough independent sources, no
    contributor warming up, every contributor's payload stored and its signature
    not pending. *)
Record completeEvidence `{JsHost} (evs : list EvidenceEvent) (d : DecisionData) (now : Z)
    (bodies : list (string * string)) : Prop := {
  ce_sources : forall p, policyAt evs (dc_feedId d) (dc_at d) = Some p ->
    qp_expectedSources p <= Z.of_nat (length (filter (fun c => isIndependent c = true) (dc_contributing d)));
  ce_mature : forall c s, c ∈ dc_contributing d ->
    jm_get (mapOf ss_sourceId (sourcesAt evs (dc_feedId d) (dc_at d))) (cr_sourceId c) = Some s -> ss_status s ≠ SrcWarmup;
  ce_payload : forall c, c ∈ dc_contributing d -> ∃ r hash,
    readingById evs (cr_readingId c) now = Some r ∧ rs_payloadHash r = Some hash ∧
    payloadHas bodies hash = Ok true ∧ rs_signature r ≠ SigPending }.

Section Completeness2.
Context `{JsHost}.

Lemma collect_concat_nil {A B E} (f : A -> res E (list B)) l ys :
  collect f l = Ok ys -> concat ys = [] -> forall x, x ∈ l -> f x = Ok [].
Proof.
  revert ys; induction l as [|y l IH]; intros ys; simpl; [by intros _ _ ? ?%not_elem_of_nil|].
  destruct (f y) as [b|e] eqn:Ey; simpl; [|done]. destruct (collect f l) as [bs|e] eqn:El; simpl; [|done].
  intros [= <-]. simpl. intros [-> Hc]%app_eq_nil x [->|Hx]%elem_of_cons; [done|by eapply IH].
Qed.

Lemma concat_map_nil {A B} (f : A -> list B) l : concat (map f l) = [] -> forall x, x ∈ l -> f x = [].
Proof.
  induction l as [|y l IH]; cbn [map concat]; [by intros _ ? ?%not_elem_of_nil|].
  intros [Hy Hc]%app_eq_nil x [->|Hx]%elem_of_cons; auto.
Qed.

Lemma assess_complete evs d now bodies :
  assessEvidenceCompleteness evs d now (payloadHas bodies) = Ok [] -> completeEvidence evs d now bodies.
Proof.
  unfold assessEvidenceCompleteness. set (cs := sort_by _ (dc_contributing d)).
  destruct (collect _ cs) as [rs|e] eqn:Ec; simpl; [|done].
  intros [= [Hq [Hw Hr]%app_eq_nil]%app_eq_nil].
  assert (forall c, c ∈ dc_contributing d -> c ∈ cs) as Hcs by (intros c Hc; by apply elem_of_sort_by).
  split.
  - intros p Hp. unfold quorumGap in Hq. rewrite Hp in Hq. case_match eqn:Hlt; [done|]. by apply Z.ltb_ge in Hlt.
  - intros c s Hc Hs Hst. pose proof (concat_map_nil _ _ Hw c (Hcs c Hc)) as Hg.
    unfold warmupGap in Hg. rewrite Hs in Hg. unfold isWarmup in Hg. by rewrite bool_decide_true in Hg.
  - intros c Hc. pose proof (collect_concat_nil _ _ _ Ec Hr c (Hcs c Hc)) as Hg. unfold readingGaps in Hg.
    destruct (readingById evs (cr_readingId c) now) as [r|] eqn:Er; [|done].
    destruct (rs_payloadHash r) as [hash|] eqn:Eh; simpl in Hg; [|done].
    destruct (payloadHas bodies hash) as [[|]|e] eqn:Ep; simpl in Hg; [|done|done].
    exists r, hash. split_and!; try done. intros Hsig. by rewrite bool_decide_true in Hg.
Qed.
End Completeness2.

(** C2: the gate fails closed: it always returns, never throws, and lets a
    payout through only when the policy's open hold has been released or
    approved, or when every earlier hold of the policy is settled and either the
    feed is not under consensus governance or the consensus service has just
    made a triggered decision whose evidence is complete. *)
Theorem gate_fails_closed `{JsHost} `{ConsensusSvc} (maxMs : Z) (c : HoldCandidate) (s : LState) :
  ∃ g, (gate maxMs c s).1 = Ok g ∧
  match g with
  | Block _ _ => True
  | Proceed (Some id) => ∃ h, jm_get (foldHolds (st_log s)) id = Some h ∧ h_policyId h = hc_policyId c ∧
      (h_status h = Released ∨ h_status h = Approved)
  | Proceed None =>
      allSettled (hc_policyId c) (foldHolds (st_log s)) ∧
      ((isGoverned (hc_feedId c) s).1 = Ok false ∨
       ∃ s1 s2 d now, isGoverned (hc_feedId c) s = (Ok true, s1) ∧ decide_ (hc_feedId c) s1 = (Ok d, s2) ∧
         dc_outcome d = ODecision ∧ dc_triggered d = true ∧
         completeEvidence (st_log s2) d now (st_bodies s2))
  end.
Proof.
  unfold gate, tryCatch. destruct (gateBody maxMs c s) as [[g|e] s'] eqn:E; [|simpl; eexists; by split].
  exists g. split; [done|]. destruct g as [hid|]; [|done].
  unfold gateBody in E. rewrite (bind_Ok _ _ s (st_log s) s) in E by done.
  destruct (activeHoldFor _ _) as [h|] eqn:Ea.
  { apply activeHoldFor_Some in Ea as (Hg & Hp & _).
    destruct (h_status h) eqn:Hs; simplify_eq/=; unfold mret, M_ret in E; simplify_eq; eauto 6. }
  destruct (deniedHoldFor _ _) as [h|] eqn:Ed; [done|].
  pose proof (no_open_hold _ _ Ea Ed) as Hopen.
  unfold gateFresh, mbind, M_bind in E.
  destruct (isGoverned (hc_feedId c) s) as [[[|]|e] s1] eqn:Eg; simpl in E;
    [|unfold mret, M_ret in E; simplify_eq; split; [done|by left]|done].
  destruct (decide_ (hc_feedId c) s1) as [[d|e] s2] eqn:Edc; [|done].
  case_bool_decide as Ho; [done|]. destruct (dc_triggered d) eqn:Et; simpl in E; [|done].
  unfold assess, mbind, M_bind in E. simpl in E.
  destruct (assessEvidenceCompleteness _ d _ _) as [[|x xs]|e] eqn:Eas; simpl in E; [|by destruct (place maxMs c d (x :: xs) _) as [[]]|done].
  unfold mret, M_ret in E. simplify_eq. split; [done|]. right.
  apply assess_complete in Eas. do 4 eexists. split_and!; [done|exact Edc|done|done|exact Eas].
Qed.

(** * A consensus service over the ledger

    The class is inhabited by the service the ledger's documentation describes:
    a feed is governed once it has a quorum policy, and a live decision is
    computed at the reserved timestamp and appended with it. *)
Definition liveConsensus `{JsHost} : ConsensusSvc := {|
  isGoverned feed := evs ← events; mret (0 <? latestPolicyVersionNumber evs feed);
  decide_ feed :=
    T ← reserveTimestamp;
    evs ← events;
    r ← liftRes (fun _ => computeConsensus (consensusInput evs feed T));
    let d := decisionOf ("dec_" +:+ feed +:+ showZ T) None r in
    _ ← append (EDecision d) (Some T);
    mret d |}.

#[global] Instance liveConsensus_laws `{JsHost} : @ConsensusLaws liveConsensus.
Proof.
  assert (noHoldEvents reserveTimestamp) as Hr by (unfold reserveTimestamp; eauto with refract).
  split; intros f; simpl.
  - eauto with refract.
  - eauto with refract.
  - repeat (apply appends_bind; [auto with refract|intros ?]). auto with refract.
  - repeat (apply noHold_bind; [auto with refract|intros ?]). auto with refract.
  - eauto with refract.
  - assert (keepsDisk reserveTimestamp) as Hk by (unfold reserveTimestamp; auto with refract).
    repeat (apply keepsDisk_bind; [auto with refract|intros ?]). auto with refract.
Qed.

Definition demoHolds (acts : list HoldAction) : LState :=
  @runHolds demoHost (@liveConsensus demoHost) 1000 acts (emptyLedger demoClock (fun _ => true) []).
Definition demoCandidate : HoldCandidate := mkCandidate "p1" "GHOLDER" "feed" 90000.
(** A triggered decision whose payloads were never captured: the claim is held,
    then denied. *)
Definition demoActs : list HoldAction := map (fun r => HOther r.1) demoReqs ++ [HGate demoCandidate].
Definition demoHoldId : string := "hold_p1:dec_feed1005".
Definition demoDenied : list HoldAction := demoActs ++ [HDispose demoHoldId Deny "ops" "no payload" None].
Definition demoDeniedHold : ClaimHold :=
  default (placedHold (mkHoldPlaced "" "" "" "" "" [] "" 0 0) 0) (jm_get (foldHolds (st_log (demoHolds demoDenied))) demoHoldId).

Lemma one_open_hold_per_policy_witness :
  length (foldHolds (st_log (demoHolds (demoActs ++ [HGate demoCandidate; HGate demoCandidate])))) = 1%nat ∧
  oneOpen (foldHolds (st_log (demoHolds (demoActs ++ [HGate demoCandidate; HGate demoCandidate])))).
Proof.
  split; [vm_compute; reflexivity|].
  apply (@one_open_hold_per_policy demoHost (@liveConsensus demoHost) (@liveConsensus_laws demoHost)).
Defined.

Lemma demoHoldId_fresh p d : @holdIdOf demoHost p d = demoHoldId -> p = "p1".
Proof.
  unfold holdIdOf, demoHoldId. simpl. intros H. injection H as H.
  do 16 (destruct p as [|? p]; simpl in H; [first [discriminate H|reflexivity]|first [discriminate H|injection H as -> H]]).
Qed.

Lemma denied_stays_blocked_witness :
  h_status demoDeniedHold = Denied ∧
  ∃ reason hid, (@gate demoHost (@liveConsensus demoHost) 1000 demoCandidate
     (@runHolds demoHost (@liveConsensus demoHost) 1000 [HReevaluate; HGate demoCandidate]
        (@runHolds demoHost (@liveConsensus demoHost) 1000 demoDenied (emptyLedger demoClock (fun _ => true) [])))).1
     = Ok (Block reason hid).
Proof.
  split; [vm_compute; reflexivity|].
  apply (@denied_stays_blocked demoHost (@liveConsensus demoHost) (@liveConsensus_laws demoHost) 1000
    demoClock (fun _ => true) [] demoDenied [HReevaluate; HGate demoCandidate] demoHoldId demoDeniedHold demoCandidate).
  - vm_compute. reflexivity.
  - vm_compute. reflexivity.
  - vm_compute. reflexivity.
  - intros p d Hid. rewrite (demoHoldId_fresh p d Hid). vm_compute. reflexivity.
  - intros [Hx|[Hx|[]%not_elem_of_nil]%elem_of_cons]%elem_of_cons; discriminate Hx.
Defined.
