(* ===== verification/MirrorDetection.v ===== *)
(** Mirrored-source detection (src/oracle/consensus/fingerprint.ts and
    mirror-detection.ts): bucketed series, the comparison of every pair of sources
    at every lag, and the scan that records and clears independence penalties in
    the evidence ledger. *)

From stdpp Require Import base list strings sorting sets.
From Stdlib Require Import ZArith Lia Floats SpecFloat.
From S2P Require Import Prelude Decimal JsNum JsParse JsDate Canonical Evidence LedgerView.

#[local] Open Scope Z_scope.

Record MirrorDetectionConfig := mkMirrorConfig {
  mc_windowMs : Z; mc_bucketMs : Z; mc_relativeTolerance : num; mc_maxLagBuckets : Z;
  mc_minInformativeSamples : Z; mc_minMatchRatio : num; mc_minDistinctValues : Z; mc_penaltyFactor : num }.

(** * Canonical values *)

(** The exponent [e] with [10 ^ e <= p / q < 10 ^ (e + 1)]; the estimate from the
    binary logarithms is at most one off. *)
Definition pow10le (p q e : Z) : bool := if 0 <=? e then q * 10 ^ e <=? p else q <=? p * 10 ^ (- e).
Definition decimalExponent (p q : Z) : Z :=
  let e0 := (Z.log2 p - Z.log2 q) * 30103 / 100000 in
  if pow10le p q (e0 + 1) then e0 + 1 else if pow10le p q e0 then e0 else e0 - 1.

(** [p / q] to 12 significant digits, halves upward, as a number. *)
Definition round12 (p q : Z) : num :=
  let e := decimalExponent p q in
  let k := 11 - e in
  let n := if 0 <=? k then (2 * p * 10 ^ k + q) / (2 * q) else (2 * p + q * 10 ^ (- k)) / (2 * q * 10 ^ (- k)) in
  num_of_decimal n (- k).

(** [Number(value.toPrecision(12))] *)
Definition canonicalValue (value : num) : num :=
  match Prim2SF value with
  | S754_finite s m e =>
      let v := if 0 <=? e then round12 (Z.pos m * 2 ^ e) 1 else round12 (Z.pos m) (2 ^ (- e)) in
      if s then PrimFloat.opp v else v
  | S754_zero _ => PrimFloat.zero
  | _ => value
  end.

Lemma canonicalValue_examples :
  canonicalValue 0x1.d1eb851eb851fp-1%float = 0x1.d1eb851eb851fp-1%float ∧ (* 0.91 *)
  canonicalValue 0x1.d1eb851eb8521p-1%float = 0x1.d1eb851eb851fp-1%float ∧ canonicalValue (-2.5)%float = (-2.5)%float ∧
  canonicalValue 123456789012.75%float = 123456789013%float.
Proof. repeat split; vm_compute; reflexivity. Qed.

Definition bucketOf (observedAt bucketMs : Z) : Z := observedAt / bucketMs.

Definition fingerprintReading `{JsHost} (feedId : string) (value : num) (observedAt bucketMs : Z) : res NonFinite string :=
  text ← canonicalJson (JObj [("feedId", JStr feedId); ("value", JNum (canonicalValue value));
           ("bucket", JNum (num_of_Z (bucketOf observedAt bucketMs)))]);
  Ok (sha256Hex (default "" text)).

(** * Comparing a pair *)

Record MatchedSample := mkSample { ms_bucket : Z; ms_readingA : string; ms_readingB : string; ms_valueA : num; ms_valueB : num }.

Record PairAnalysis := mkAnalysis {
  pa_feedId : string; pa_sourceA : string; pa_sourceB : string; pa_lagBuckets : Z; pa_informativeSamples : Z;
  pa_matches : Z; pa_exactMatches : Z; pa_matchRatio : num; pa_distinctMatchedValues : Z; pa_mirrored : bool;
  pa_evidence : list MatchedSample }.

Record BucketPoint := mkPoint {
  bp_value : num; bp_readingId : string; bp_fingerprint : string; bp_observedAt : Z; bp_seq : Z }.

Section Pairs.
Context `{JsHost} (cfg : MirrorDetectionConfig).

Definition seriesStep (feedId : string) (byBucket : list (Z * BucketPoint)) (r : ReadingState) : res NonFinite (list (Z * BucketPoint)) :=
  let bucket := bucketOf (rs_observedAt r) (mc_bucketMs cfg) in
  let wins := match jm_get byBucket bucket with
    | None => true
    | Some prev => (bp_observedAt prev <? rs_observedAt r) || ((rs_observedAt r =? bp_observedAt prev) && (bp_seq prev <? rs_seq r))
    end in
  if wins then
    fp ← fingerprintReading feedId (rs_value r) (rs_observedAt r) (mc_bucketMs cfg);
    Ok (jm_set byBucket bucket (mkPoint (canonicalValue (rs_value r)) (rs_readingId r) fp (rs_observedAt r) (rs_seq r)))
  else Ok byBucket.

Fixpoint seriesLoop (feedId : string) (byBucket : list (Z * BucketPoint)) (readings : list ReadingState) : res NonFinite (list (Z * BucketPoint)) :=
  match readings with
  | [] => Ok byBucket
  | r :: rest => b ← seriesStep feedId byBucket r; seriesLoop feedId b rest
  end.

Definition series (feedId : string) (readings : list ReadingState) : res NonFinite (list (Z * BucketPoint)) := seriesLoop feedId [] readings.

Definition near (a b tol : num) : bool :=
  nle (PrimFloat.abs (a - b)) (tol * nmax (PrimFloat.abs a) (PrimFloat.abs b))%float.

(** The accumulators of the loop over the buckets at one lag. *)
Record LagState := mkLag {
  lg_informative : Z; lg_matches : Z; lg_distinct : list num; lg_evidence : list MatchedSample; lg_prev : option (num * num) }.

Definition lagStep (b : list (Z * BucketPoint)) (lag : Z) (st : LagState) (entry : Z * BucketPoint) : LagState :=
  let '(bucket, pa) := entry in
  match jm_get b (bucket + lag) with
  | None => st
  | Some pb =>
      let tol := mc_relativeTolerance cfg in
      let moved := match lg_prev st with
        | Some (prevA, prevB) => negb (near (bp_value pa) prevA tol) || negb (near (bp_value pb) prevB tol)
        | None => false
        end in
      let hit := moved && near (bp_value pa) (bp_value pb) tol in
      mkLag (if moved then lg_informative st + 1 else lg_informative st)
        (if hit then lg_matches st + 1 else lg_matches st)
        (if hit then (if existsb (neq (bp_value pa)) (lg_distinct st) then lg_distinct st else lg_distinct st ++ [bp_value pa]) else lg_distinct st)
        (if hit && (length (lg_evidence st) <? 10)%nat
         then lg_evidence st ++ [mkSample bucket (bp_readingId pa) (bp_readingId pb) (bp_value pa) (bp_value pb)] else lg_evidence st)
        (Some (bp_value pa, bp_value pb))
  end.

Definition lagRun (a b : list (Z * BucketPoint)) (lag : Z) : LagState :=
  foldl (lagStep b lag) (mkLag 0 0 [] [] None) (sort_by (fun x y => x.1 <=? y.1) a).

Definition candidateAt (feedId sourceA sourceB : string) (a b : list (Z * BucketPoint)) (exact lag : Z) : PairAnalysis :=
  let st := lagRun a b lag in
  let matchRatio := if lg_informative st =? 0 then PrimFloat.zero else (num_of_Z (lg_matches st) / num_of_Z (lg_informative st))%float in
  mkAnalysis feedId sourceA sourceB lag (lg_informative st) (lg_matches st) exact
    (mathRound (matchRatio * 10000) / 10000)%float (Z.of_nat (length (lg_distinct st)))
    ((mc_minInformativeSamples cfg <=? lg_informative st) && nge matchRatio (mc_minMatchRatio cfg)
     && (mc_minDistinctValues cfg <=? Z.of_nat (length (lg_distinct st))))
    (lg_evidence st).

(** Whether a candidate replaces the best one so far. *)
Definition better (c best : PairAnalysis) : bool :=
  ngt (pa_matchRatio c) (pa_matchRatio best)
  || (neq (pa_matchRatio c) (pa_matchRatio best) && (Z.abs (pa_lagBuckets c) <? Z.abs (pa_lagBuckets best))).

(** The lags [-max .. max]. *)
Definition lags : list Z := map (fun i => Z.of_nat i - mc_maxLagBuckets cfg) (seq 0 (Z.to_nat (2 * mc_maxLagBuckets cfg + 1))).

Definition analysePair (feedId sourceA : string) (readingsA : list ReadingState) (sourceB : string) (readingsB : list ReadingState) :
    res NonFinite (option PairAnalysis) :=
  a ← series feedId readingsA;
  b ← series feedId readingsB;
  let exact := Z.of_nat (length (filter (fun e => (bp_fingerprint <$> jm_get b e.1) = Some (bp_fingerprint e.2)) a)) in
  Ok (foldl (fun best lag => let c := candidateAt feedId sourceA sourceB a b exact lag in
               match best with None => Some c | Some x => if better c x then Some c else best end) None lags).

(** * Every pair of a feed *)

Definition groupBySource (feedId : string) (readings : list ReadingState) : list (string * list ReadingState) :=
  foldl (fun m r => if bool_decide (rs_feedId r = feedId) then jm_set m (rs_sourceId r) (default [] (jm_get m (rs_sourceId r)) ++ [r]) else m) [] readings.

Fixpoint pairsOf (ids : list string) : list (string * string) :=
  match ids with
  | [] => []
  | x :: rest => map (fun y => (x, y)) rest ++ pairsOf rest
  end.

Definition analyseOne (feedId : string) (bySource : list (string * list ReadingState)) (p : string * string) : res NonFinite (list PairAnalysis) :=
  r ← analysePair feedId p.1 (default [] (jm_get bySource p.1)) p.2 (default [] (jm_get bySource p.2));
  Ok (match r with Some a => [a] | None => [] end).

Definition analyseFeed (feedId : string) (readings : list ReadingState) : res NonFinite (list PairAnalysis) :=
  let bySource := groupBySource feedId readings in
  ls ← collect (analyseOne feedId bySource) (pairsOf (sort_strings (jm_keys bySource)));
  Ok (concat ls).

(** * The plan *)

Record MirrorPlan := mkMirrorPlan {
  mp_windowStart : Z; mp_windowEnd : Z; mp_analyses : list PairAnalysis; mp_apply : list PairAnalysis;
  mp_clear : list (Penalty * option PairAnalysis) }.

Definition governedFeeds (evs : list EvidenceEvent) : list string :=
  sort_strings (setOf (omap (fun e => match ev_body e with EQuorumPolicy p => Some (qp_feedId p) | _ => None end) evs)).

Definition pairKey (a b : string) : string := a +:+ "|" +:+ b.

Definition retiredAt (evs : list EvidenceEvent) (feedId : string) (now : Z) : list string :=
  map ss_sourceId (filter (fun s => ss_status s = SrcRetired) (sourcesAt evs feedId now)).

(** [new Map(list.map(...))] *)
Definition byPair {A} (key : A -> string) (l : list A) : list (string * A) := foldl (fun m x => jm_set m (key x) x) [] l.

Definition clearing (retired : list string) (analysisByPair : list (string * PairAnalysis)) (p : Penalty) : list (Penalty * option PairAnalysis) :=
  if bool_decide (pn_sourceA p ∈ retired) || bool_decide (pn_sourceB p ∈ retired) then [(p, None)]
  else match jm_get analysisByPair (pairKey (pn_sourceA p) (pn_sourceB p)) with
  | Some a => if negb (pa_mirrored a) && (mc_minInformativeSamples cfg <=? pa_informativeSamples a) then [(p, Some a)] else []
  | None => []
  end.

Definition planMirrorActions (evs : list EvidenceEvent) (feedId : string) (now : Z) : res NonFinite MirrorPlan :=
  let windowStart := now - mc_windowMs cfg in
  let retired := retiredAt evs feedId now in
  let readings := filter (fun r => rs_sourceId r ∉ retired) (readingsAt evs feedId now (Some windowStart)) in
  analyses ← analyseFeed feedId readings;
  let active := penaltiesAt evs feedId now in
  let activeByPair := byPair (fun p => pairKey (pn_sourceA p) (pn_sourceB p)) active in
  let analysisByPair := byPair (fun a => pairKey (pa_sourceA a) (pa_sourceB a)) analyses in
  Ok (mkMirrorPlan windowStart now analyses
        (filter (fun a => pa_mirrored a = true ∧ jm_has activeByPair (pairKey (pa_sourceA a) (pa_sourceB a)) = false) analyses)
        (concat (map (clearing retired analysisByPair) active))).

(** * The scan *)

Definition sampleTuple (s : MatchedSample) : Z * string * string * num * num :=
  (ms_bucket s, ms_readingA s, ms_readingB s, ms_valueA s, ms_valueB s).

Definition applyPenaltyEvent (feedId : string) (now : Z) (plan : MirrorPlan) (a : PairAnalysis) : M unit :=
  let penaltyId := "mp_" +:+ sliceTo 20 (sha256Hex (feedId +:+ ":" +:+ pa_sourceA a +:+ ":" +:+ pa_sourceB a +:+ ":" +:+ showZ now)) in
  _ ← append (EPenalty (mkPenalty penaltyId feedId (pa_sourceA a) (pa_sourceB a) (mc_penaltyFactor cfg)
         (mp_windowStart plan) (mp_windowEnd plan) (pa_lagBuckets a) (pa_informativeSamples a) (pa_matches a) (pa_exactMatches a)
         (pa_matchRatio a) (map sampleTuple (pa_evidence a)))) None;
  _ ← append (EAudit "mirror_detection.penalty_applied" "system"
         (pa_sourceA a +:+ " and " +:+ pa_sourceB a +:+ " matched in " +:+ showZ (pa_matches a) +:+ "/" +:+ showZ (pa_informativeSamples a)
          +:+ " moving buckets (lag " +:+ showZ (pa_lagBuckets a) +:+ ")")
         (JObj [("penaltyId", JStr penaltyId); ("feedId", JStr feedId); ("sourceA", JStr (pa_sourceA a)); ("sourceB", JStr (pa_sourceB a));
                ("factor", JNum (mc_penaltyFactor cfg))])) None;
  mret tt.

Definition clearPenaltyEvent (feedId : string) (c : Penalty * option PairAnalysis) : M unit :=
  let reason := match c.2 with
    | Some a => "pair diverged: " +:+ showZ (pa_matches a) +:+ "/" +:+ showZ (pa_informativeSamples a) +:+ " moving buckets matched"
    | None => "a source in the pair was retired" end in
  _ ← append (EPenaltyCleared (mkPenaltyCleared (pn_penaltyId c.1) feedId (pn_sourceA c.1) (pn_sourceB c.1) reason
         (default PrimFloat.zero (pa_matchRatio <$> c.2)) (default 0 (pa_informativeSamples <$> c.2)))) None;
  _ ← append (EAudit "mirror_detection.penalty_cleared" "system" reason
         (JObj [("penaltyId", JStr (pn_penaltyId c.1)); ("feedId", JStr feedId)])) None;
  mret tt.

Fixpoint forEach {A} (f : A -> M unit) (l : list A) : M unit :=
  match l with [] => mret tt | x :: rest => _ ← f x; forEach f rest end.

Definition scanFeed (now : Z) (feedId : string) : M (Z * Z) :=
  evs ← events;
  plan ← liftRes (fun _ => match planMirrorActions evs feedId now with Ok p => Ok p | Err _ => Err "canonicalJson: non-finite number" end);
  _ ← forEach (applyPenaltyEvent feedId now plan) (mp_apply plan);
  _ ← forEach (clearPenaltyEvent feedId) (mp_clear plan);
  mret (Z.of_nat (length (mp_apply plan)), Z.of_nat (length (mp_clear plan))).

Fixpoint scanFeeds (now : Z) (feeds : list string) (applied cleared : Z) : M (Z * Z) :=
  match feeds with
  | [] => mret (applied, cleared)
  | f :: rest => r ← scanFeed now f; scanFeeds now rest (applied + r.1) (cleared + r.2)
  end.

Definition scan : M (Z * Z) := now ← ledgerNow; evs ← events; scanFeeds now (governedFeeds evs) 0 0.
End Pairs.

(** * Lemmas: series and lags *)
Section PairLemmas.
Context `{JsHost} (cfg : MirrorDetectionConfig).

(** A point of a series is a reading of its bucket. *)
Definition fromReading (rs : list ReadingState) (bucket : Z) (p : BucketPoint) : Prop :=
  ∃ r, r ∈ rs ∧ bucketOf (rs_observedAt r) (mc_bucketMs cfg) = bucket ∧
    bp_value p = canonicalValue (rs_value r) ∧ bp_readingId p = rs_readingId r.

Lemma fromReading_mono rs rs' bucket p : rs ⊆ rs' -> fromReading rs bucket p -> fromReading rs' bucket p.
Proof. intros Hs (r & Hr & ?). exists r. split; [by apply Hs|done]. Qed.

Lemma seriesLoop_backed feed rs : forall m m' seen,
  NoDup (jm_keys m) -> (forall k p, jm_get m k = Some p -> fromReading seen k p) ->
  seriesLoop cfg feed m rs = Ok m' ->
  NoDup (jm_keys m') ∧ forall k p, jm_get m' k = Some p -> fromReading (seen ++ rs) k p.
Proof.
  induction rs as [|r rs IH]; intros m m' seen Hn Hm; cbn [seriesLoop].
  { intros [= <-]. rewrite app_nil_r. done. }
  destruct (seriesStep cfg feed m r) as [m1|] eqn:E; [|done]. cbn [mbind res_bind]. intros Hr.
  replace (seen ++ r :: rs) with ((seen ++ [r]) ++ rs) by (by rewrite <- app_assoc).
  revert E. unfold seriesStep. cbv zeta.
  destruct (match jm_get m _ with None => true | Some _ => _ end).
  - destruct (fingerprintReading _ _ _ _) as [fp|]; [|done]. cbn [mbind res_bind]. intros [= <-].
    apply (IH _ _ (seen ++ [r]) (jm_set_NoDup _ _ _ Hn)) in Hr; [done|]. intros k p. rewrite jm_get_set. case_decide as Ek.
    + intros [= <-]. exists r. split_and!; [set_solver|done|done|done].
    + intros Hk. eapply fromReading_mono; [|by apply Hm]. set_solver.
  - intros [= <-]. apply (IH _ _ (seen ++ [r]) Hn) in Hr; [done|]. intros k p Hk. eapply fromReading_mono; [|by apply Hm]. set_solver.
Qed.

Lemma series_backed feed rs m : series cfg feed rs = Ok m ->
  NoDup (jm_keys m) ∧ forall k p, jm_get m k = Some p -> fromReading rs k p.
Proof. intros Hs. apply (seriesLoop_backed feed rs [] m []); [constructor|done|done]. Qed.

(** What the loop at one lag has established. *)
Record lagOk (a b : list (Z * BucketPoint)) (lag : Z) (st : LagState) : Prop := {
  lo_nonneg : 0 <= lg_matches st;
  lo_matches : lg_matches st <= lg_informative st;
  lo_distinct : Z.of_nat (length (lg_distinct st)) <= lg_matches st;
  lo_evidence_len : Z.of_nat (length (lg_evidence st)) = Z.min 10 (lg_matches st);
  lo_evidence : forall s, s ∈ lg_evidence st -> ∃ pa pb, (ms_bucket s, pa) ∈ a ∧ jm_get b (ms_bucket s + lag) = Some pb ∧
    ms_readingA s = bp_readingId pa ∧ ms_readingB s = bp_readingId pb ∧ ms_valueA s = bp_value pa ∧ ms_valueB s = bp_value pb ∧
    near (ms_valueA s) (ms_valueB s) (mc_relativeTolerance cfg) = true }.

Lemma lagStep_ok a b lag st e : e ∈ a -> lagOk a b lag st -> lagOk a b lag (lagStep cfg b lag st e).
Proof.
  destruct e as [bucket pa]. intros He [H0 H1 H2 H3 H4]. unfold lagStep.
  destruct (jm_get b (bucket + lag)) as [pb|] eqn:Eb; [|done]. cbv zeta.
  destruct (match lg_prev st with Some _ => _ | None => _ end); cbn [andb]; [|split; cbn; done].
  destruct (near (bp_value pa) (bp_value pb) (mc_relativeTolerance cfg)) eqn:En; cbn [andb]; [|split; cbn; try done; lia].
  split; cbn [lg_matches lg_informative lg_distinct lg_evidence].
  - lia.
  - lia.
  - destruct (existsb _ _); [lia|]. rewrite length_app. cbn. lia.
  - destruct (Nat.ltb_spec (length (lg_evidence st)) 10); [rewrite length_app; cbn; lia|lia].
  - intros s. destruct (_ <? 10)%nat; [|apply H4]. intros [Hs|Hs]%elem_of_app; [by apply H4|].
    apply list_elem_of_singleton in Hs as ->. exists pa, pb. done.
Qed.

Lemma foldl_lag_ok a b lag l : forall st, l ⊆ a -> lagOk a b lag st -> lagOk a b lag (foldl (lagStep cfg b lag) st l).
Proof.
  induction l as [|e l IH]; intros st Hl Hst; [done|]. cbn [foldl]. apply IH; [set_solver|]. apply lagStep_ok; [set_solver|done].
Qed.

Lemma lagRun_ok a b lag : lagOk a b lag (lagRun cfg a b lag).
Proof.
  unfold lagRun. apply foldl_lag_ok; [intros e; by rewrite elem_of_sort_by|]. split; cbn; try lia. by intros s ?%not_elem_of_nil.
Qed.

(** The best candidate is the one at some lag of the range. *)
Lemma best_is_candidate (f : Z -> PairAnalysis) l c :
  foldl (fun best lag => match best with None => Some (f lag) | Some x => if better (f lag) x then Some (f lag) else best end) None l = Some c ->
  ∃ lag, lag ∈ l ∧ c = f lag.
Proof.
  revert c. induction l as [|lag l IH] using rev_ind; intros c; [done|]. rewrite foldl_app. cbn [foldl].
  destruct (foldl _ None l) as [x|]; [|intros [= <-]; exists lag; set_solver].
  destruct (better (f lag) x); intros [= <-]; [exists lag; set_solver|].
  destruct (IH x eq_refl) as (lag' & Hl & ->). exists lag'. set_solver.
Qed.

Lemma lags_bound lag : lag ∈ lags cfg -> Z.abs lag <= mc_maxLagBuckets cfg.
Proof. unfold lags. intros (i & -> & Hi)%list_elem_of_fmap. apply list_elem_of_In, in_seq in Hi. lia. Qed.

Lemma analysePair_inv feed sA rA sB rB c : analysePair cfg feed sA rA sB rB = Ok (Some c) ->
  ∃ a b exact lag, series cfg feed rA = Ok a ∧ series cfg feed rB = Ok b ∧ lag ∈ lags cfg ∧
    c = candidateAt cfg feed sA sB a b exact lag.
Proof.
  unfold analysePair. destruct (series cfg feed rA) as [a|]; [|done]. destruct (series cfg feed rB) as [b|]; [|done].
  cbn [mbind res_bind]. intros [= Hb]. apply best_is_candidate in Hb as (lag & Hl & ->). eauto 10.
Qed.

(** * Lemmas: grouping *)

Lemma groupBySource_spec feed rs :
  let m := groupBySource feed rs in
  NoDup (jm_keys m) ∧ forall s l, jm_get m s = Some l -> l ≠ [] ∧ forall r, r ∈ l -> r ∈ rs ∧ rs_sourceId r = s.
Proof.
  cbv zeta. unfold groupBySource. induction rs as [|r rs IH] using rev_ind; [split; [constructor|done]|].
  rewrite foldl_app. cbn [foldl]. set (m := foldl _ [] rs) in *. destruct IH as [Hn Hm].
  assert (forall s l, jm_get m s = Some l -> l ≠ [] ∧ forall r0, r0 ∈ l -> r0 ∈ rs ++ [r] ∧ rs_sourceId r0 = s) as Hm'.
  { intros s l Hl. destruct (Hm s l Hl) as [Hne Hall]. split; [done|]. intros r0 Hr. destruct (Hall r0 Hr). split; [set_solver|done]. }
  case_bool_decide; [|done]. split; [by apply jm_set_NoDup|]. intros s l. rewrite jm_get_set. case_decide as E; [|by apply Hm'].
  intros [= <-]. split; [by destruct (default [] _)|]. intros r0 [Hr|Hr]%elem_of_app.
  - destruct (jm_get m (rs_sourceId r)) as [l|] eqn:El; [|by apply not_elem_of_nil in Hr]. rewrite <- E. by apply (Hm' _ l El).
  - apply list_elem_of_singleton in Hr as ->. split; [set_solver|done].
Qed.

Lemma pairsOf_in ids a b : NoDup ids -> (a, b) ∈ pairsOf ids -> a ∈ ids ∧ b ∈ ids ∧ a ≠ b.
Proof.
  induction ids as [|x ids IH]; cbn [pairsOf]; [by intros _ ?%not_elem_of_nil|].
  intros [Hx Hn]%NoDup_cons [Hp|Hp]%elem_of_app.
  - apply list_elem_of_fmap in Hp as (y & [= -> ->] & Hy). split_and!; [set_solver|set_solver|]. by intros ->.
  - destruct (IH Hn Hp) as (? & ? & ?). split_and!; [set_solver|set_solver|done].
Qed.

Lemma elem_of_collect {E A B} (f : A -> res E B) l ys y : collect f l = Ok ys -> y ∈ ys -> ∃ x, x ∈ l ∧ f x = Ok y.
Proof.
  revert ys. induction l as [|x l IH]; intros ys; cbn [collect]; [intros [= <-]; by intros ?%not_elem_of_nil|].
  destruct (f x) as [z|] eqn:Ef; [|done]. destruct (collect f l) as [zs|]; [|done]. cbn [mbind res_bind]. intros [= <-].
  intros [->|Hy]%elem_of_cons; [exists x; set_solver|]. destruct (IH zs eq_refl Hy) as (x' & ? & ?). exists x'. set_solver.
Qed.

Lemma analyseFeed_inv feed rs l a : analyseFeed cfg feed rs = Ok l -> a ∈ l ->
  ∃ sA sB rA rB, sA ≠ sB ∧ jm_get (groupBySource feed rs) sA = Some rA ∧ jm_get (groupBySource feed rs) sB = Some rB ∧
    analysePair cfg feed sA rA sB rB = Ok (Some a).
Proof.
  unfold analyseFeed. destruct (collect _ _) as [ls|] eqn:Ec; [|done]. cbn [mbind res_bind]. intros [= <-] Ha.
  apply list_elem_of_In, in_concat in Ha as (x & Hx & Ha). apply list_elem_of_In in Hx. apply list_elem_of_In in Ha.
  destruct (elem_of_collect _ _ _ _ Ec Hx) as ([sA sB] & Hp & Ho).
  destruct (groupBySource_spec feed rs) as [Hn Hm].
  apply pairsOf_in in Hp as (HA & HB & Hne); [|by rewrite sort_strings_perm].
  rewrite sort_strings_perm in HA, HB. unfold analyseOne in Ho. cbn [fst snd] in Ho.
  destruct (jm_get (groupBySource feed rs) sA) as [rA|] eqn:EA; [|by apply jm_get_None_notin in EA].
  destruct (jm_get (groupBySource feed rs) sB) as [rB|] eqn:EB; [|by apply jm_get_None_notin in EB]. cbn [default from_option id] in Ho.
  destruct (analysePair cfg feed sA rA sB rB) as [[c|]|] eqn:Ean; cbn [mbind res_bind] in Ho; simplify_eq;
    [|by apply not_elem_of_nil in Ha].
  apply list_elem_of_singleton in Ha as ->. eauto 10.
Qed.

Lemma byPair_has {A} (key : A -> string) l x : x ∈ l -> jm_has (byPair key l) (key x) = true.
Proof.
  unfold jm_has. intros Hx. apply bool_decide_eq_true_2. unfold byPair. revert Hx.
  induction l as [|y l IH] using rev_ind; [by intros ?%not_elem_of_nil|]. rewrite foldl_app. cbn [foldl].
  intros [Hx|Hx]%elem_of_app; rewrite jm_get_set; case_decide; eauto. apply list_elem_of_singleton in Hx. by subst.
Qed.
End PairLemmas.

(** A penalty is backed by the ledger.  Whenever the plan applies a penalty to a
    pair: the two sources differ, neither is retired, and no active penalty covers
    them; at the reported lag, within the configured range, there were at least the
    minimum number of moving buckets, of which the reported number matched, over at
    least the minimum of distinct values; and the evidence is the first ten matches
    (or all, if fewer), each of them two readings in the ledger of the two
    sources, observed inside the window, in buckets that far apart, whose
    canonical values are within the tolerance. *)
Theorem penalties_are_evidenced `{JsHost} (cfg : MirrorDetectionConfig) (evs : list EvidenceEvent) (feedId : string) (now : Z)
    (plan : MirrorPlan) (Hplan : planMirrorActions cfg evs feedId now = Ok plan) (a : PairAnalysis) (Ha : a ∈ mp_apply plan) :
  pa_sourceA a ≠ pa_sourceB a ∧
  (pa_sourceA a ∉ retiredAt evs feedId now) ∧ (pa_sourceB a ∉ retiredAt evs feedId now) ∧
  (forall p, p ∈ penaltiesAt evs feedId now -> (pn_sourceA p, pn_sourceB p) ≠ (pa_sourceA a, pa_sourceB a)) ∧
  Z.abs (pa_lagBuckets a) <= mc_maxLagBuckets cfg ∧
  mc_minInformativeSamples cfg <= pa_informativeSamples a ∧ 0 <= pa_matches a <= pa_informativeSamples a ∧
  mc_minDistinctValues cfg <= pa_distinctMatchedValues a <= pa_matches a ∧
  Z.of_nat (length (pa_evidence a)) = Z.min 10 (pa_matches a) ∧
  forall s, s ∈ pa_evidence a -> ∃ ra rb,
    ra ∈ readingsAt evs feedId now (Some (now - mc_windowMs cfg)) ∧ rs_sourceId ra = pa_sourceA a ∧ rs_readingId ra = ms_readingA s ∧
    rb ∈ readingsAt evs feedId now (Some (now - mc_windowMs cfg)) ∧ rs_sourceId rb = pa_sourceB a ∧ rs_readingId rb = ms_readingB s ∧
    bucketOf (rs_observedAt rb) (mc_bucketMs cfg) = bucketOf (rs_observedAt ra) (mc_bucketMs cfg) + pa_lagBuckets a ∧
    near (canonicalValue (rs_value ra)) (canonicalValue (rs_value rb)) (mc_relativeTolerance cfg) = true.
Proof.
  revert Hplan. unfold planMirrorActions. cbv zeta.
  set (readings := filter _ (readingsAt evs feedId now _)).
  destruct (analyseFeed cfg feedId readings) as [analyses|] eqn:Ean; [|done]. cbn [mbind res_bind]. intros [= <-].
  cbn [mp_apply] in Ha. apply list_elem_of_filter in Ha as [[Hmir Hact] Ha].
  destruct (analyseFeed_inv _ _ _ _ _ Ean Ha) as (sA & sB & rA & rB & Hne & EA & EB & Ep).
  destruct (analysePair_inv _ _ _ _ _ _ _ Ep) as (sa & sb & exact & lag & HsA & HsB & Hlag & ->).
  destruct (groupBySource_spec feedId readings) as [_ Hg].
  destruct (Hg _ _ EA) as [HneA HA]. destruct (Hg _ _ EB) as [HneB HB].
  assert (forall r, r ∈ readings -> r ∈ readingsAt evs feedId now (Some (now - mc_windowMs cfg)) ∧ rs_sourceId r ∉ retiredAt evs feedId now) as Hr
    by (intros r [? ?]%list_elem_of_filter; done).
  destruct (series_backed _ _ _ _ HsA) as [HnA HbA]. destruct (series_backed _ _ _ _ HsB) as [_ HbB].
  pose proof (lagRun_ok cfg sa sb lag) as [L0 L1 L2 L3 L4].
  unfold candidateAt in Hmir. cbv zeta in Hmir. cbn [pa_mirrored] in Hmir.
  apply andb_true_iff in Hmir as [[Hm1 _]%andb_true_iff Hm3]. apply Z.leb_le in Hm1, Hm3.
  cbn [candidateAt pa_sourceA pa_sourceB pa_lagBuckets pa_informativeSamples pa_matches pa_distinctMatchedValues pa_evidence].
  split_and!; try done; try lia.
  - destruct rA as [|r rA]; [done|]. destruct (HA r) as [Hin <-]; [set_solver|]. by apply Hr.
  - destruct rB as [|r rB]; [done|]. destruct (HB r) as [Hin <-]; [set_solver|]. by apply Hr.
  - intros p Hp [= E1 E2]. pose proof (byPair_has (fun q => pairKey (pn_sourceA q) (pn_sourceB q)) _ p Hp) as Hh.
    cbv beta in Hh. rewrite E1, E2 in Hh. cbn [candidateAt pa_sourceA pa_sourceB] in Hact. congruence.
  - by apply lags_bound.
  - intros s Hs. destruct (L4 s Hs) as (pa & pb & Hpa & Hpb & -> & -> & Hva & Hvb & Hnear).
    apply (jm_in_get _ _ _ HnA) in Hpa. destruct (HbA _ _ Hpa) as (ra & Hra & Ba & Va & ->). destruct (HbB _ _ Hpb) as (rb & Hrb & Bb & Vb & ->).
    destruct (HA ra Hra) as [Hra' <-]. destruct (HB rb Hrb) as [Hrb' <-].
    exists ra, rb. split_and!; try done; [by apply Hr|by apply Hr|congruence|congruence].
Qed.

(** A penalty is cleared only on evidence: a source of the pair was retired, or an
    analysis of the pair had enough moving buckets and did not flag it. *)
Lemma cleared_on_evidence `{JsHost} cfg evs feedId now plan p o :
  planMirrorActions cfg evs feedId now = Ok plan -> (p, o) ∈ mp_clear plan ->
  p ∈ penaltiesAt evs feedId now ∧
  match o with
  | None => pn_sourceA p ∈ retiredAt evs feedId now ∨ pn_sourceB p ∈ retiredAt evs feedId now
  | Some a => pa_mirrored a = false ∧ mc_minInformativeSamples cfg <= pa_informativeSamples a
  end.
Proof.
  unfold planMirrorActions. cbv zeta. destruct (analyseFeed _ _ _) as [analyses|]; [|done]. cbn [mbind res_bind]. intros [= <-].
  cbn [mp_clear]. intros Hin. apply list_elem_of_In, in_concat in Hin as (l & Hl & Hin). apply list_elem_of_In in Hl, Hin.
  apply list_elem_of_fmap in Hl as (q & -> & Hq). revert Hin. unfold clearing.
  destruct (bool_decide_reflect (pn_sourceA q ∈ retiredAt evs feedId now)); [intros Hin%list_elem_of_singleton; simplify_eq; auto|].
  destruct (bool_decide_reflect (pn_sourceB q ∈ retiredAt evs feedId now)); [intros Hin%list_elem_of_singleton; simplify_eq; auto|]. cbn [orb].
  destruct (jm_get _ _) as [a|]; [|by intros ?%not_elem_of_nil]. destruct (pa_mirrored a) eqn:Em; cbn [negb andb]; [by intros ?%not_elem_of_nil|].
  destruct (Z.leb_spec (mc_minInformativeSamples cfg) (pa_informativeSamples a)); [|by intros ?%not_elem_of_nil].
  intros Hin%list_elem_of_singleton. by simplify_eq.
Qed.

(** * Examples *)

Definition demoConfig (maxLag : Z) : MirrorDetectionConfig :=
  mkMirrorConfig 1000000 10 0x1p-14%float maxLag 8 0.875%float 3 0.25%float.

Definition demoReadingAt (src : string) (bucket : Z) (v : num) : ReadingState :=
  mkReadingState (src +:+ showZ bucket) "feed" src v (10 * bucket) None None SigVerified bucket.

(** Both report in even buckets, where [b] copies [a] except in the last; and the
    values of [a] in buckets 101 and 103 are those of [b] in 102 and 104. *)
Definition demoA : list ReadingState :=
  map (fun i => demoReadingAt "a" (2 * Z.of_nat i) (num_of_Z (100 + Z.of_nat (i mod 5)))) (seq 1 12)
  ++ [demoReadingAt "a" 101 200%float; demoReadingAt "a" 103 300%float].
Definition demoB : list ReadingState :=
  map (fun i => demoReadingAt "b" (2 * Z.of_nat i) (num_of_Z (100 + Z.of_nat (i mod 5)))) (seq 1 11)
  ++ [demoReadingAt "b" 24 500%float; demoReadingAt "b" 102 200%float; demoReadingAt "b" 104 300%float].

(** Choosing the lag by match ratio alone lets one coincidence hide a mirror.
    Two sources agree in ten of eleven moving buckets and are flagged when no lag is
    tried; with the documented range of two buckets, the lag of one bucket, at which
    the series overlap in a single moving bucket that happens to match, has ratio
    1 and becomes "the best lag"; it has too few samples, and the pair is not
    flagged. *)
Theorem sparse_lag_hides_mirror :
  match @analysePair demoHost (demoConfig 0) "feed" "a" demoA "b" demoB, @analysePair demoHost (demoConfig 2) "feed" "a" demoA "b" demoB with
  | Ok (Some strict), Ok (Some lagged) =>
      pa_mirrored strict = true ∧ pa_informativeSamples strict = 11 ∧ pa_matches strict = 10 ∧
      pa_mirrored lagged = false ∧ pa_lagBuckets lagged = 1 ∧ pa_informativeSamples lagged = 1
  | _, _ => False
  end.
Proof. vm_compute. repeat split. Qed.

Definition demoEvent (i : nat) (b : EventBody) : EvidenceEvent := mkEvent (Z.of_nat i + 1) (Z.of_nat i) b.
Definition asReading (r : ReadingState) : EventBody :=
  EReading (mkReading (rs_readingId r) "feed" (rs_sourceId r) (rs_value r) (rs_observedAt r) None None SigVerified None).
Definition demoLog : list EvidenceEvent := imap demoEvent (map asReading (take 12 demoA ++ take 12 demoB)).

Lemma penalties_are_evidenced_witness :
  ∃ plan a, @planMirrorActions demoHost (demoConfig 2) demoLog "feed" 1000 = Ok plan ∧ a ∈ mp_apply plan ∧
    pa_sourceA a = "a" ∧ pa_sourceB a = "b" ∧ Z.of_nat (length (pa_evidence a)) = Z.min 10 (pa_matches a).
Proof.
  destruct (@planMirrorActions demoHost (demoConfig 2) demoLog "feed" 1000) as [plan|] eqn:Ep; [|by vm_compute in Ep].
  destruct (mp_apply plan) as [|a l] eqn:Ea; [vm_compute in Ep; injection Ep as <-; by vm_compute in Ea|].
  assert (a ∈ mp_apply plan) as Hin by (rewrite Ea; apply list_elem_of_here).
  exists plan, a. rewrite Ea. split; [done|]. split; [apply list_elem_of_here|].
  assert (Z.of_nat (length (pa_evidence a)) = Z.min 10 (pa_matches a)) as Hl
    by (eapply (@penalties_are_evidenced demoHost (demoConfig 2) demoLog "feed" 1000 plan Ep a Hin)).
  vm_compute in Ep. injection Ep as <-. vm_compute in Ea. injection Ea as <- _. done.
Defined.
