(* ===== verification/Offboarding.v ===== *)
(** Source off-boarding (src/oracle/consensus/offboarding.ts): the dry-run plan as
    a pure function of the ledger, and the service that retires the source,
    revokes its credential and purges payload bodies, in the ledger monad of
    Evidence.  The credential store is the interface [CredentialStore]. *)

From stdpp Require Import base list strings sorting sets.
From Stdlib Require Import ZArith Lia Floats.
From S2P Require Import Prelude Decimal JsNum JsDate Canonical Evidence LedgerView ClaimHold.

#[local] Open Scope Z_scope.

Definition DAY_MS : Z := 86400000.

Inductive RetainReason := WithinLicenseRetention | OpenDispute | SharedWithActiveSource.
#[global] Instance RetainReason_eq_dec : EqDecision RetainReason.
Proof. solve_decision. Defined.

Definition reasonText (r : RetainReason) : string :=
  match r with
  | WithinLicenseRetention => "within_license_retention"
  | OpenDispute => "open_dispute"
  | SharedWithActiveSource => "shared_with_active_source"
  end.

Record RetainEntry := mkRetain {
  re_hash : string; re_storedAt : string; re_reason : RetainReason; re_purgeAfter : option string }.

Record PayloadPlan := mkPayloadPlan {
  pl_purge : list (string * string); pl_retain : list RetainEntry; pl_alreadyPurged : Z }.

Record QuorumImpact := mkQuorumImpact {
  qi_policyVersion : option Z; qi_minSources : option Z; qi_remaining : Z; qi_dropsBelowQuorum : bool }.

(** [true] is the action "revoke", [false] "already_revoked". *)
Record OffboardingPlan := mkPlan {
  op_sourceId : string; op_providerId : string; op_feedId : string; op_generatedAt : string;
  op_alreadyRetired : bool; op_retireAsVersion : option Z;
  op_credential : option (string * bool); op_quorum : QuorumImpact;
  op_openDisputes : list (string * string * HoldStatus); op_payloads : PayloadPlan;
  op_readings : Z; op_decisions : Z; op_payloadHashes : Z }.

(** A string used as a condition: absent and empty are false. *)
Definition truthy (o : option string) : option string :=
  match o with Some "" => None | x => x end.

(** * What the plan reads of the ledger *)

(** The last version of the source in the ledger that is not a retirement. *)
Definition licensedVersion (evs : list EvidenceEvent) (sourceId : string) : option SourceVersion :=
  head (omap (fun e => match ev_body e with
    | ESourceVersion v => if bool_decide (sv_sourceId v = sourceId) && bool_decide (sv_status v ≠ SrcRetired)
                          then Some v else None
    | _ => None end) (rev evs)).

Definition readingHashes (evs : list EvidenceEvent) : list (string * option string) :=
  foldl (fun m e => match ev_body e with
    | EReading r => jm_set m (rd_readingId r) (rd_payloadHash r) | _ => m end) [] evs.

(** Holds that are neither settled nor denied. *)
Definition openHolds (evs : list EvidenceEvent) : list ClaimHold :=
  filter (fun h => isTerminal (h_status h) = false) (jm_values (foldHolds evs)).

(** The readings cited by the decisions of a hold. *)
Definition citedBy (evs : list EvidenceEvent) (h : ClaimHold) : list ContributingReading :=
  concat (map (fun id => default [] (dc_contributing <$> decisionById evs id))
            (setOf [h_decisionId h; h_currentDecisionId h])).

Definition disputedHashes (evs : list EvidenceEvent) : list string :=
  setOf (omap (fun c => jm_get (readingHashes evs) (cr_readingId c) ≫= truthy)
           (concat (map (citedBy evs) (openHolds evs)))).

Definition openDisputes (evs : list EvidenceEvent) (sourceId : string) : list (string * string * HoldStatus) :=
  map (fun h => (h_holdId h, h_policyId h, h_status h))
    (filter (fun h => sourceId ∈ map cr_sourceId (citedBy evs h)) (openHolds evs)).

Definition lastStatus (evs : list EvidenceEvent) : list (string * SourceStatus) :=
  foldl (fun m e => match ev_body e with
    | ESourceVersion v => jm_set m (sv_sourceId v) (sv_status v) | _ => m end) [] evs.

Definition sharedHashes (evs : list EvidenceEvent) (sourceId : string) : list string :=
  setOf (omap (fun e => match ev_body e with
    | EReading r =>
        if bool_decide (rd_sourceId r ≠ sourceId) && bool_decide (jm_get (lastStatus evs) (rd_sourceId r) ≠ Some SrcRetired)
        then truthy (rd_payloadHash r) else None
    | _ => None end) evs).

Definition purgedHashes (evs : list EvidenceEvent) : list string :=
  setOf (omap (fun e => match ev_body e with EPayloadPurged h _ _ _ => Some h | _ => None end) evs).

(** When each body was first stored. *)
Definition storedAtOf (evs : list EvidenceEvent) : list (string * Z) :=
  foldl (fun m e => match ev_body e with
    | EPayloadStored p => if jm_has m (ps_hash p) then m else jm_set m (ps_hash p) (ev_recordedAt e)
    | _ => m end) [] evs.

Definition sourceHashes (evs : list EvidenceEvent) (sourceId : string) : list string :=
  setOf (omap (fun e => match ev_body e with
           | EReading r => if bool_decide (rd_sourceId r = sourceId) then truthy (rd_payloadHash r) else None
           | _ => None end) evs
         ++ omap (fun e => match ev_body e with
           | EPayloadStored p => if bool_decide (ps_sourceId p = sourceId) then Some (ps_hash p) else None
           | _ => None end) evs).

(** * The plan *)

(** One round of the classification loop. *)
Definition classify (evs : list EvidenceEvent) (sourceId : string) (retentionDays now : Z) (plan : PayloadPlan) (hash : string) :
    res string PayloadPlan :=
  if bool_decide (hash ∈ purgedHashes evs)
  then Ok (mkPayloadPlan (pl_purge plan) (pl_retain plan) (pl_alreadyPurged plan + 1))
  else match jm_get (storedAtOf evs) hash with
  | None => Ok plan
  | Some storedAt =>
      iso ← toISOString storedAt;
      let purgeAfter := storedAt + retentionDays * DAY_MS in
      let retain r t := Ok (mkPayloadPlan (pl_purge plan) (pl_retain plan ++ [mkRetain hash iso r t]) (pl_alreadyPurged plan)) in
      if bool_decide (hash ∈ disputedHashes evs) then retain OpenDispute None
      else if bool_decide (hash ∈ sharedHashes evs sourceId) then retain SharedWithActiveSource None
      else if now <? purgeAfter then t ← toISOString purgeAfter; retain WithinLicenseRetention (Some t)
      else Ok (mkPayloadPlan (pl_purge plan ++ [(hash, iso)]) (pl_retain plan) (pl_alreadyPurged plan))
  end.

Fixpoint classifyAll (evs : list EvidenceEvent) (sourceId : string) (retentionDays now : Z) (plan : PayloadPlan)
    (hashes : list string) : res string PayloadPlan :=
  match hashes with
  | [] => Ok plan
  | hash :: rest => plan' ← classify evs sourceId retentionDays now plan hash; classifyAll evs sourceId retentionDays now plan' rest
  end.

Definition eligibleOther (sourceId : string) (s : SourceState) : bool :=
  bool_decide (ss_sourceId s ≠ sourceId) &&
  (bool_decide (ss_status s = SrcActive) || bool_decide (ss_status s = SrcWarmup)) && nlt PrimFloat.zero (ss_weight s).

Definition isReadingOf (sourceId : string) (e : EvidenceEvent) : bool :=
  match ev_body e with EReading r => bool_decide (rd_sourceId r = sourceId) | _ => false end.

Definition isDecisionOf (sourceId : string) (e : EvidenceEvent) : bool :=
  match ev_body e with EDecision d => bool_decide (sourceId ∈ map cr_sourceId (dc_contributing d)) | _ => false end.

Definition isRevocation (sourceId : string) (credentialRef : option string) (e : EvidenceEvent) : bool :=
  match ev_body e with
  | ECredentialRevoked _ s c => bool_decide (s = sourceId) && bool_decide (Some c = credentialRef)
  | _ => false
  end.

Definition planOffboarding `{JsHost} (evs : list EvidenceEvent) (sourceId : string) (now : Z) : res string OffboardingPlan :=
  match sourceVersionAt evs sourceId None with
  | None => Err ("unknown source " +:+ sourceId)
  | Some current =>
      let alreadyRetired := bool_decide (sv_status current = SrcRetired) in
      let licensed := default current (licensedVersion evs sourceId) in
      let retentionDays := sv_retentionDays licensed in
      let credentialRef := sv_credentialRef licensed in
      let policy := policyAt evs (sv_feedId current) now in
      let remaining := Z.of_nat (length (filter (fun s => eligibleOther sourceId s = true) (sourcesAt evs (sv_feedId current) now))) in
      payloads ← classifyAll evs sourceId retentionDays now (mkPayloadPlan [] [] 0) (sort_strings (sourceHashes evs sourceId));
      let revoked := existsb (isRevocation sourceId credentialRef) evs in
      generatedAt ← toISOString now;
      Ok (mkPlan sourceId (sv_providerId current) (sv_feedId current) generatedAt alreadyRetired
            (if alreadyRetired then None else Some (latestSourceVersionNumber evs sourceId + 1))
            ((fun c => (c, negb revoked)) <$> truthy credentialRef)
            (mkQuorumImpact (qp_version <$> policy) (qp_minSources <$> policy) remaining
               (negb alreadyRetired && match policy with Some p => remaining <? qp_minSources p | None => false end))
            (openDisputes evs sourceId) payloads
            (Z.of_nat (length (filter (fun e => isReadingOf sourceId e = true) evs)))
            (Z.of_nat (length (filter (fun e => isDecisionOf sourceId e = true) evs)))
            (Z.of_nat (length (sourceHashes evs sourceId))))
  end.

(** * The service *)

Record OffboardingOptions := mkOptions {
  oo_actor : string; oo_reason : string; oo_dryRun : bool; oo_acknowledgeQuorumLoss : bool }.

Record Executed := mkExecuted { ex_retired : bool; ex_credentialRevoked : bool; ex_purged : Z }.

Record OffboardingReport := mkReport {
  or_dryRun : bool; or_offboardingId : option string; or_plan : OffboardingPlan; or_executed : option Executed }.

(** Where credentials live: deleting one may fail, and touches neither the ledger
    nor the payload bodies. *)
Class CredentialStore := { credentialDelete : string -> M unit }.
Class CredentialLaws `{CredentialStore} : Prop := {
  credential_frame : forall ref s,
    st_log (credentialDelete ref s).2 = st_log s ∧ st_bodies (credentialDelete ref s).2 = st_bodies s ∧
    st_disk (credentialDelete ref s).2 = st_disk s }.

Section Service.
Context `{JsHost} `{CredentialStore}.

Definition jsonOptZ (o : option Z) : json := match o with Some z => JNum (num_of_Z z) | None => JNull end.
Definition jsonOptStr (o : option string) : json := match o with Some s => JStr s | None => JNull end.

Definition plan (sourceId : string) : M OffboardingPlan :=
  evs ← events; now ← ledgerNow; liftRes (fun _ => planOffboarding evs sourceId now).

Definition lastRun (evs : list EvidenceEvent) (sourceId : string) : option string :=
  foldl (fun found e => match ev_body e with
    | EOffboardingStarted id src _ _ _ _ => if bool_decide (src = sourceId) then Some id else found
    | _ => found end) None evs.

Definition completes (run : string) (e : EvidenceEvent) : bool :=
  match ev_body e with EOffboardingCompleted id _ _ _ => bool_decide (id = run) | _ => false end.

Definition resumableRun (evs : list EvidenceEvent) (sourceId : string) : option string :=
  run ← truthy (lastRun evs sourceId);
  if existsb (completes run) evs then None else Some run.

Definition startDetails (offboardingId sourceId : string) (p : OffboardingPlan) : json :=
  JObj [("offboardingId", JStr offboardingId); ("sourceId", JStr sourceId); ("feedId", JStr (op_feedId p));
        ("purgeScope", JNum (num_of_Z (Z.of_nat (length (pl_purge (op_payloads p))))));
        ("retained", JNum (num_of_Z (Z.of_nat (length (pl_retain (op_payloads p))))));
        ("openDisputes", JArr (map (fun d => JStr d.1.1) (op_openDisputes p)));
        ("quorum", JObj [("policyVersion", jsonOptZ (qi_policyVersion (op_quorum p)));
           ("minSources", jsonOptZ (qi_minSources (op_quorum p)));
           ("remainingEligibleSources", JNum (num_of_Z (qi_remaining (op_quorum p))));
           ("dropsBelowQuorum", JBool (qi_dropsBelowQuorum (op_quorum p)))]);
        ("credentialRef", jsonOptStr (fst <$> op_credential p))].

Definition start (sourceId : string) (p : OffboardingPlan) (opts : OffboardingOptions) : M string :=
  now ← ledgerNow;
  evs ← events;
  let offboardingId := "ob_" +:+ sliceTo 20 (sha256Hex (sourceId +:+ ":" +:+ showZ now +:+ ":" +:+ showZ (Z.of_nat (length evs)))) in
  _ ← append (EOffboardingStarted offboardingId sourceId (oo_actor opts) (oo_reason opts)
         (map fst (pl_purge (op_payloads p))) (map (fun r => (re_hash r, reasonText (re_reason r))) (pl_retain (op_payloads p)))) None;
  _ ← append (EAudit "source.offboarding_started" (oo_actor opts) (oo_reason opts) (startDetails offboardingId sourceId p)) None;
  mret offboardingId.

Definition dquote : string := String.String quoteChar "".

(** A step that fails is audited and stops the run. *)
Definition step (offboardingId what : string) (fn : M unit) : M unit :=
  tryCatch fn (fun msg =>
    _ ← append (EAudit "source.offboarding_failed" "system" (what +:+ ": " +:+ msg)
           (JObj [("offboardingId", JStr offboardingId); ("resumable", JBool true)])) None;
    throw ("offboarding " +:+ offboardingId +:+ " stopped at " +:+ dquote +:+ what +:+ dquote +:+ ": " +:+ msg +:+ ". Re-run to resume.")).

Fixpoint purge (offboardingId sourceId : string) (hashes : list (string * string)) : M Z :=
  match hashes with
  | [] => mret 0
  | (hash, _) :: rest =>
      _ ← step offboardingId ("purge " +:+ hash) (payloadDelete hash);
      _ ← append (EPayloadPurged hash sourceId offboardingId "beyond licence retention after offboarding") None;
      n ← purge offboardingId sourceId rest;
      mret (n + 1)
  end.

(** (a) a new source version with status retired, never a delete. *)
Definition retire (sourceId : string) (p : OffboardingPlan) : M bool :=
  if op_alreadyRetired p then mret false
  else
    evs ← events;
    match sourceVersionAt evs sourceId None with
    | None => throw "Cannot read properties of undefined"
    | Some current =>
        at_ ← reserveTimestamp;
        evs' ← events;
        _ ← append (ESourceVersion (mkSourceVersion (sv_sourceId current) (sv_providerId current) (sv_feedId current)
               (latestSourceVersionNumber evs' sourceId + 1) SrcRetired (sv_weight current) None
               (sv_retentionDays current) None (sv_declaredUpstream current) at_)) (Some at_);
        mret true
    end.

(** (b) revoke and delete the stored credential. *)
Definition revoke (offboardingId sourceId : string) (p : OffboardingPlan) : M bool :=
  match op_credential p with
  | Some (ref, true) =>
      _ ← step offboardingId "credential" (credentialDelete ref);
      _ ← append (ECredentialRevoked offboardingId sourceId ref) None;
      mret true
  | _ => mret false
  end.

Definition retainJson (r : RetainEntry) : json :=
  JObj [("hash", JStr (re_hash r)); ("storedAt", JStr (re_storedAt r)); ("reason", JStr (reasonText (re_reason r)));
        ("purgeAfter", jsonOptStr (re_purgeAfter r))].

(** (d) the completion record. *)
Definition complete (offboardingId sourceId : string) (opts : OffboardingOptions) (purgedNow : Z) : M unit :=
  after ← plan sourceId;
  _ ← append (EOffboardingCompleted offboardingId sourceId (pl_alreadyPurged (op_payloads after))
         (Z.of_nat (length (pl_retain (op_payloads after))))) None;
  _ ← append (EAudit "source.offboarding_completed" (oo_actor opts) (oo_reason opts)
         (JObj [("offboardingId", JStr offboardingId); ("sourceId", JStr sourceId);
                ("purgedThisRun", JNum (num_of_Z purgedNow)); ("retained", JArr (map retainJson (pl_retain (op_payloads after))))])) None;
  mret tt.

Definition execute (offboardingId sourceId : string) (p : OffboardingPlan) (opts : OffboardingOptions) : M Executed :=
  retired ← retire sourceId p;
  credentialRevoked ← revoke offboardingId sourceId p;
  purged ← purge offboardingId sourceId (pl_purge (op_payloads p));
  _ ← complete offboardingId sourceId opts purged;
  mret (mkExecuted retired credentialRevoked purged).

Definition quorumLossMessage (sourceId : string) (q : QuorumImpact) : string :=
  let show o := default "null" (showZ <$> o) in
  "retiring " +:+ sourceId +:+ " leaves " +:+ showZ (qi_remaining q) +:+ " eligible source(s); policy v" +:+ show (qi_policyVersion q)
  +:+ " requires " +:+ show (qi_minSources q) +:+ ". Re-run with acknowledgeQuorumLoss once a replacement is planned.".

Definition offboard (sourceId : string) (opts : OffboardingOptions) : M OffboardingReport :=
  p ← plan sourceId;
  if oo_dryRun opts then mret (mkReport true None p None)
  else if qi_dropsBelowQuorum (op_quorum p) && negb (oo_acknowledgeQuorumLoss opts)
  then throw (quorumLossMessage sourceId (op_quorum p))
  else
    evs ← events;
    offboardingId ← match resumableRun evs sourceId with Some id => mret id | None => start sourceId p opts end;
    executed ← execute offboardingId sourceId p opts;
    mret (mkReport false (Some offboardingId) p (Some executed)).

(** * The retention sweep *)

Definition retiredSources (evs : list EvidenceEvent) : list string :=
  foldl (fun s e => match ev_body e with
    | ESourceVersion v => if bool_decide (sv_status v = SrcRetired) then addToSet (sv_sourceId v) s
                          else filter (fun x => x ≠ sv_sourceId v) s
    | _ => s end) [] evs.

Definition sweepOne (sourceId : string) : M Z :=
  p ← plan sourceId;
  match pl_purge (op_payloads p) with
  | [] => mret 0
  | hashes =>
      evs ← events;
      match truthy (lastRun evs sourceId) with
      | None => mret 0
      | Some run => purge run sourceId hashes
      end
  end.

Fixpoint sweepEach (sources : list string) (total : Z) : M Z :=
  match sources with
  | [] => mret total
  | sourceId :: rest =>
      r ← attempt (sweepOne sourceId);
      sweepEach rest (match r with Ok n => total + n | Err _ => total end)
  end.

Definition sweepRetention : M Z := evs ← events; sweepEach (retiredSources evs) 0.

(** * Payload status *)

Record PayloadStatus := mkPayloadStatus {
  ys_hash : string; ys_storedAt : string; ys_available : bool; ys_bodyMatchesHash : option bool;
  ys_purged : option (string * string * string); ys_referencedByReadings : list string }.

Definition payloadStatus (payloadHash : string -> string) (hash : string) : M PayloadStatus :=
  evs ← events;
  match head (omap (fun e => match ev_body e with
      | EPayloadStored p => if bool_decide (ps_hash p = hash) then Some (ev_recordedAt e) else None | _ => None end) evs) with
  | None => throw ("unknown payload " +:+ hash)
  | Some stored =>
      body ← liftRes (fun s => payloadGet (st_bodies s) hash);
      storedAt ← liftRes (fun _ => toISOString stored);
      purgedInfo ← match head (omap (fun e => match ev_body e with
          | EPayloadPurged h _ id r => if bool_decide (h = hash) then Some (ev_recordedAt e, r, id) else None | _ => None end) evs) with
        | None => mret None
        | Some (t, r, id) => at_ ← liftRes (fun _ => toISOString t); mret (Some (at_, r, id))
        end;
      mret (mkPayloadStatus hash storedAt (bool_decide (is_Some body)) ((fun b => bool_decide (payloadHash b = hash)) <$> body)
              purgedInfo (omap (fun e => match ev_body e with
                 | EReading r => if bool_decide (rd_payloadHash r = Some hash) then Some (rd_readingId r) else None | _ => None end) evs))
  end.
End Service.

(** * Lemmas: the classification *)

(** Where a payload of the source ends up. *)
Definition purgeable (evs : list EvidenceEvent) (sourceId : string) (days now : Z) (hash : string) : Prop :=
  (hash ∉ purgedHashes evs) ∧ (hash ∉ disputedHashes evs) ∧ (hash ∉ sharedHashes evs sourceId) ∧
  ∃ storedAt, jm_get (storedAtOf evs) hash = Some storedAt ∧ storedAt + days * DAY_MS <= now.

Lemma classify_purge evs src days now pl hash pl' x :
  classify evs src days now pl hash = Ok pl' ->
  x ∈ map fst (pl_purge pl') <-> x ∈ map fst (pl_purge pl) ∨ (x = hash ∧ purgeable evs src days now hash).
Proof.
  unfold classify, purgeable; cbv beta zeta. case_bool_decide as Hp; [intros [= <-]; simpl; naive_solver|].
  destruct (jm_get (storedAtOf evs) hash) as [t|] eqn:Et; [|intros [= <-]; naive_solver].
  destruct (toISOString t) as [iso|] eqn:Eiso; [|done]. cbn [mbind res_bind].
  case_bool_decide as Hd; [intros [= <-]; simpl; naive_solver|].
  case_bool_decide as Hs; [intros [= <-]; simpl; naive_solver|].
  destruct (Z.ltb_spec now (t + days * DAY_MS)).
  - destruct (toISOString (t + _)) as [t'|]; [|done]. cbn [mbind res_bind]. intros [= <-]. cbn [pl_purge].
    split; [auto|]. intros [?|(-> & _ & _ & _ & t0 & [= <-] & Ht)]; [done|lia].
  - intros [= <-]. cbn [pl_purge]. rewrite map_app, elem_of_app. cbn [map fst]. rewrite list_elem_of_singleton.
    split; [intros [?| ->]; [auto|right; split_and!; eauto]|intros [?|[-> _]]; auto].
Qed.

Lemma classifyAll_purge evs src days now hashes : forall pl pl' x,
  classifyAll evs src days now pl hashes = Ok pl' ->
  x ∈ map fst (pl_purge pl') <-> x ∈ map fst (pl_purge pl) ∨ (x ∈ hashes ∧ purgeable evs src days now x).
Proof.
  induction hashes as [|hash rest IH]; intros pl pl' x; cbn [classifyAll].
  - intros [= <-]. set_solver.
  - destruct (classify evs src days now pl hash) as [pl1|] eqn:E; [|done]. cbn [mbind res_bind]. intros Hr.
    rewrite (IH _ _ x Hr), (classify_purge _ _ _ _ _ _ _ x E), elem_of_cons. naive_solver.
Qed.

Lemma planOffboarding_inv `{JsHost} evs src now p : planOffboarding evs src now = Ok p ->
  ∃ current, sourceVersionAt evs src None = Some current ∧
    op_alreadyRetired p = bool_decide (sv_status current = SrcRetired) ∧
    classifyAll evs src (sv_retentionDays (default current (licensedVersion evs src))) now (mkPayloadPlan [] [] 0)
      (sort_strings (sourceHashes evs src)) = Ok (op_payloads p) ∧
    op_credential p = (fun c => (c, negb (existsb (isRevocation src (sv_credentialRef (default current (licensedVersion evs src)))) evs)))
                      <$> truthy (sv_credentialRef (default current (licensedVersion evs src))).
Proof.
  unfold planOffboarding. destruct (sourceVersionAt evs src None) as [current|]; [|done].
  destruct (classifyAll _ _ _ _ _ _) as [pl|] eqn:Ec; [|done]. cbn [mbind res_bind].
  destruct (toISOString now); [|done]. cbn. intros [= <-]. cbn. eauto.
Qed.

(** A reading of a source that is not retired keeps its body. *)
Lemma elem_of_sharedHashes evs src hash : hash ∈ sharedHashes evs src <->
  hash ≠ "" ∧ ∃ e r, e ∈ evs ∧ ev_body e = EReading r ∧ rd_payloadHash r = Some hash ∧ rd_sourceId r ≠ src ∧
    jm_get (lastStatus evs) (rd_sourceId r) ≠ Some SrcRetired.
Proof.
  unfold sharedHashes. rewrite elem_of_setOf, list_elem_of_omap. split.
  - intros (e & He & Hx). destruct (ev_body e) eqn:Eb; try done.
    destruct (bool_decide_reflect (rd_sourceId d ≠ src)); [|done].
    destruct (bool_decide_reflect (jm_get (lastStatus evs) (rd_sourceId d) ≠ Some SrcRetired)); [|done]. cbn in Hx.
    destruct (rd_payloadHash d) as [[|c h]|] eqn:Eh; simplify_eq/=. split; [done|]. exists e, d. by rewrite Eh.
  - intros (Hne & e & r & He & Eb & Eh & Hs & Hl). exists e. split; [done|]. rewrite Eb.
    rewrite !bool_decide_eq_true_2 by done. rewrite Eh. by destruct hash.
Qed.

(** A body cited by a decision behind an open hold is disputed. *)
Lemma elem_of_disputedHashes evs hash : hash ∈ disputedHashes evs <->
  hash ≠ "" ∧ ∃ h c, h ∈ jm_values (foldHolds evs) ∧ isTerminal (h_status h) = false ∧ c ∈ citedBy evs h ∧
    jm_get (readingHashes evs) (cr_readingId c) = Some (Some hash).
Proof.
  unfold disputedHashes. rewrite elem_of_setOf, list_elem_of_omap. split.
  - intros (c & Hc & Hx). apply list_elem_of_In, in_concat in Hc as (l & Hl & Hc).
    apply list_elem_of_In, list_elem_of_fmap in Hl as (h & -> & [Ht Hh]%list_elem_of_filter).
    destruct (jm_get (readingHashes evs) (cr_readingId c)) as [[[|a s]|]|] eqn:Eg; simplify_eq/=.
    split; [done|]. exists h, c. rewrite Eg. split_and!; [done|done|by apply list_elem_of_In|done].
  - intros (Hne & h & c & Hh & Ht & Hc & Eg). exists c. rewrite Eg. split; [|by destruct hash].
    apply list_elem_of_In, in_concat. exists (citedBy evs h). split; [|by apply list_elem_of_In].
    apply list_elem_of_In, list_elem_of_fmap. exists h. split; [done|]. by apply list_elem_of_filter.
Qed.

(** What a plan purges.  A body is purged exactly when a reading of the source
    references it or the source stored it, it is held and was not purged before,
    no decision behind an open hold (neither settled nor denied) cites it, no
    reading of another source that is not retired references it, and the licence
    retention of the source's last live version has lapsed since it was first
    stored. *)
Theorem purge_respects_retention `{JsHost} (evs : list EvidenceEvent) (sourceId : string) (now : Z) (p : OffboardingPlan)
    (Hp : planOffboarding evs sourceId now = Ok p) (hash : string) (Hne : hash ≠ "") :
  hash ∈ map fst (pl_purge (op_payloads p)) <->
  hash ∈ sourceHashes evs sourceId ∧ (hash ∉ purgedHashes evs) ∧
  (forall h c, h ∈ jm_values (foldHolds evs) -> isTerminal (h_status h) = false -> c ∈ citedBy evs h ->
     jm_get (readingHashes evs) (cr_readingId c) ≠ Some (Some hash)) ∧
  (forall e r, e ∈ evs -> ev_body e = EReading r -> rd_payloadHash r = Some hash ->
     rd_sourceId r = sourceId ∨ jm_get (lastStatus evs) (rd_sourceId r) = Some SrcRetired) ∧
  (∃ current storedAt, sourceVersionAt evs sourceId None = Some current ∧
     jm_get (storedAtOf evs) hash = Some storedAt ∧
     storedAt + sv_retentionDays (default current (licensedVersion evs sourceId)) * DAY_MS <= now).
Proof.
  destruct (planOffboarding_inv _ _ _ _ Hp) as (current & Hcur & _ & Hcl & _).
  rewrite (classifyAll_purge _ _ _ _ _ _ _ _ Hcl). cbn [pl_purge map]. rewrite elem_of_nil, elem_of_sort_strings.
  unfold purgeable. rewrite elem_of_disputedHashes, elem_of_sharedHashes. split.
  - intros [[]|(Hs & Hp' & Hd & Hsh & t & Ht & Hle)]. split_and!; [done|done| | |by eauto].
    + intros h c Hh Htm Hc Eg. apply Hd. eauto 10.
    + intros e r He Eb Eh. destruct (decide (rd_sourceId r = sourceId)); [by left|right].
      apply dec_stable. intros Hl. apply Hsh. split; [done|]. exists e, r. done.
  - intros (Hs & Hp' & Hd & Hsh & c0 & t & Hc0 & Ht & Hle). right. simplify_eq.
    split_and!; [done|done| | |by eauto].
    + intros (_ & h & c & Hh & Htm & Hc & Eg). by eapply Hd.
    + intros (_ & e & r & He & Eb & Eh & Hn & Hl). destruct (Hsh e r He Eb Eh); done.
Qed.

(** * Lemmas: programs that keep bodies, and the events they record *)

(** [m] leaves every body outside [hs] as it is. *)
Definition keepsBodies {A} (hs : list string) (m : M A) : Prop :=
  forall s h, h ∉ hs -> jm_get (st_bodies (m s).2) h = jm_get (st_bodies s) h.

(** [m] only appends, and what it appends satisfies [P]. *)
Definition emits {A} (P : EventBody -> Prop) (m : M A) : Prop :=
  forall s, ∃ more, st_log (m s).2 = st_log s ++ more ∧ Forall (fun e => P (ev_body e)) more.

Lemma keeps_ret {A} hs (a : A) : keepsBodies hs (mret a).
Proof. by intros s h. Qed.
Lemma keeps_throw {A} hs msg : keepsBodies hs (@throw A msg).
Proof. by intros s h. Qed.
Lemma keeps_pure {A} hs (f : LState -> res string A) : keepsBodies hs (liftRes f).
Proof. by intros s h. Qed.
Lemma keeps_events hs : keepsBodies hs events.
Proof. by intros s h. Qed.
Lemma keeps_readClock hs : keepsBodies hs readClock.
Proof. by intros s h. Qed.
Lemma keeps_append hs b at_ : keepsBodies hs (append b at_).
Proof. intros s h _. by rewrite (proj2 (append_spec b at_ s)). Qed.
Lemma keeps_bind {A B} hs (m : M A) (f : A -> M B) : keepsBodies hs m -> (forall a, keepsBodies hs (f a)) -> keepsBodies hs (m ≫= f).
Proof.
  intros Hm Hf s h Hh. specialize (Hm s h Hh). unfold mbind, M_bind.
  destruct (m s) as [[a|e] s']; simpl in *; [|done]. by rewrite (Hf a s' h Hh).
Qed.
Lemma keeps_tryCatch {A} hs (m : M A) k : keepsBodies hs m -> (forall e, keepsBodies hs (k e)) -> keepsBodies hs (tryCatch m k).
Proof.
  intros Hm Hk s h Hh. specialize (Hm s h Hh). unfold tryCatch.
  destruct (m s) as [[a|e] s']; simpl in *; [done|]. by rewrite (Hk e s' h Hh).
Qed.
Lemma keeps_delete hs h : h ∈ hs -> keepsBodies hs (payloadDelete h).
Proof.
  intros Hin s h' Hh. unfold payloadDelete, mbind, M_bind, liftRes. destruct (assertHash h); [|done].
  simpl. apply jm_get_delete_ne. by intros ->.
Qed.
Lemma keeps_if {A} hs (b : bool) (m1 m2 : M A) : keepsBodies hs m1 -> keepsBodies hs m2 -> keepsBodies hs (if b then m1 else m2).
Proof. by destruct b. Qed.

#[local] Hint Resolve keeps_ret keeps_throw keeps_pure keeps_events keeps_readClock keeps_append keeps_bind
  keeps_tryCatch keeps_delete keeps_if : refract.

Lemma emits_ret {A} P (a : A) : emits P (mret a).
Proof. intros s. exists []. by rewrite app_nil_r. Qed.
Lemma emits_throw {A} P msg : emits P (@throw A msg).
Proof. intros s. exists []. by rewrite app_nil_r. Qed.
Lemma emits_pure {A} P (f : LState -> res string A) : emits P (liftRes f).
Proof. intros s. exists []. by rewrite app_nil_r. Qed.
Lemma emits_events P : emits P events.
Proof. intros s. exists []. by rewrite app_nil_r. Qed.
Lemma emits_readClock P : emits P readClock.
Proof. intros s. exists []. by rewrite app_nil_r. Qed.
Lemma emits_append (P : EventBody -> Prop) b at_ : P b -> emits P (append b at_).
Proof.
  intros HP s. pose proof (append_spec b at_ s) as [H _]. destruct (append b at_ s) as [[e|x] s']; simpl.
  - destruct H as (Hl & Hb & _). exists [e]. split; [done|]. constructor; [by rewrite Hb|done].
  - exists []. by rewrite app_nil_r.
Qed.
Lemma emits_bind {A B} P (m : M A) (f : A -> M B) : emits P m -> (forall a, emits P (f a)) -> emits P (m ≫= f).
Proof.
  intros Hm Hf s. destruct (Hm s) as (l1 & E1 & H1). unfold mbind, M_bind.
  destruct (m s) as [[a|e] s']; simpl in *; [|eauto].
  destruct (Hf a s') as (l2 & E2 & H2). exists (l1 ++ l2). rewrite E2, E1, app_assoc. split; [done|]. by apply Forall_app.
Qed.
Lemma emits_tryCatch {A} P (m : M A) k : emits P m -> (forall e, emits P (k e)) -> emits P (tryCatch m k).
Proof.
  intros Hm Hk s. destruct (Hm s) as (l1 & E1 & H1). unfold tryCatch.
  destruct (m s) as [[a|e] s']; simpl in *; [eauto|].
  destruct (Hk e s') as (l2 & E2 & H2). exists (l1 ++ l2). rewrite E2, E1, app_assoc. split; [done|]. by apply Forall_app.
Qed.
Lemma emits_delete P h : emits P (payloadDelete h).
Proof.
  intros s. exists []. rewrite app_nil_r. split; [|done]. unfold payloadDelete, mbind, M_bind, liftRes.
  by destruct (assertHash h).
Qed.
#[local] Hint Resolve emits_ret emits_throw emits_pure emits_events emits_readClock emits_append emits_bind
  emits_tryCatch emits_delete : refract.

Section ServiceLemmas.
Context `{JsHost} `{CredentialLaws}.

Definition notVersion (b : EventBody) : Prop := match b with ESourceVersion _ => False | _ => True end.

Lemma keeps_credential hs ref : keepsBodies hs (credentialDelete ref).
Proof. intros s h _. by destruct (credential_frame ref s) as (_ & -> & _). Qed.
Lemma emits_credential P ref : emits P (credentialDelete ref).
Proof. intros s. exists []. rewrite app_nil_r. by destruct (credential_frame ref s) as (-> & _). Qed.

#[local] Hint Resolve keeps_credential emits_credential : refract.

Lemma keeps_ledgerNow hs : keepsBodies hs ledgerNow.
Proof. unfold ledgerNow. auto with refract. Qed.
Lemma emits_ledgerNow P : emits P ledgerNow.
Proof. unfold ledgerNow. auto with refract. Qed.
Lemma keeps_reserve hs : keepsBodies hs reserveTimestamp.
Proof. unfold reserveTimestamp. auto with refract. Qed.
Lemma emits_reserve P : emits P reserveTimestamp.
Proof. unfold reserveTimestamp. auto with refract. Qed.
#[local] Hint Resolve keeps_ledgerNow emits_ledgerNow keeps_reserve emits_reserve : refract.

Lemma keeps_plan hs src : keepsBodies hs (plan src).
Proof. unfold plan. auto with refract. Qed.
Lemma emits_plan P src : emits P (plan src).
Proof. unfold plan. auto with refract. Qed.
#[local] Hint Resolve keeps_plan emits_plan : refract.

Lemma keeps_step hs id what fn : keepsBodies hs fn -> keepsBodies hs (step id what fn).
Proof. unfold step. auto with refract. Qed.
Lemma emits_step id what fn : emits notVersion fn -> emits notVersion (step id what fn).
Proof. unfold step. intros. apply emits_tryCatch; [done|]. intros. apply emits_bind; auto with refract. by apply emits_append. Qed.

Lemma keeps_purge hs id src l : (forall h t, (h, t) ∈ l -> h ∈ hs) -> keepsBodies hs (purge id src l).
Proof.
  induction l as [|[h t] l IH]; intros Hl; cbn [purge]; [auto with refract|].
  apply keeps_bind; [apply keeps_step, keeps_delete, (Hl h t); set_solver|intros _].
  apply keeps_bind; [auto with refract|intros _]. apply keeps_bind; [|auto with refract].
  apply IH. intros h' t' Ht. apply (Hl h' t'). set_solver.
Qed.

Lemma emits_purge id src l : emits notVersion (purge id src l).
Proof.
  induction l as [|[h t] l IH]; cbn [purge]; [auto with refract|].
  apply emits_bind; [apply emits_step; auto with refract|intros _].
  apply emits_bind; [by apply emits_append|auto with refract].
Qed.

Lemma keeps_revoke hs id src p : keepsBodies hs (revoke id src p).
Proof. unfold revoke. destruct (op_credential p) as [[ref []]|]; auto using keeps_step with refract. Qed.

Lemma emits_revoke id src p : emits notVersion (revoke id src p).
Proof.
  unfold revoke. destruct (op_credential p) as [[ref []]|]; auto with refract.
  apply emits_bind; [apply emits_step; auto with refract|intros _].
  apply emits_bind; [by apply emits_append|auto with refract].
Qed.

Lemma keeps_complete hs id src opts n : keepsBodies hs (complete id src opts n).
Proof. unfold complete. auto 8 with refract. Qed.

Lemma emits_complete id src opts n : emits notVersion (complete id src opts n).
Proof.
  unfold complete. apply emits_bind; [auto with refract|intros a].
  do 2 (apply emits_bind; [by apply emits_append|intros _]). auto with refract.
Qed.

Lemma keeps_retire hs src p : keepsBodies hs (retire src p).
Proof.
  unfold retire. destruct (op_alreadyRetired p); [auto with refract|]. apply keeps_bind; [auto with refract|intros evs].
  destruct (sourceVersionAt evs src None); auto 8 with refract.
Qed.

Lemma keeps_start hs src p opts : keepsBodies hs (start src p opts).
Proof. unfold start. auto 8 with refract. Qed.

Lemma emits_start src p opts : emits notVersion (start src p opts).
Proof.
  unfold start. do 2 (apply emits_bind; [auto with refract|intros ?]).
  do 2 (apply emits_bind; [by apply emits_append|intros _]). auto with refract.
Qed.
End ServiceLemmas.

(** * Lemmas: what a completed run has done *)

Lemma bind_Ok_inv {A B} (m : M A) (f : A -> M B) s b s' :
  (m ≫= f) s = (Ok b, s') -> ∃ a s1, m s = (Ok a, s1) ∧ f a s1 = (Ok b, s').
Proof. unfold mbind, M_bind. destruct (m s) as [[a|e] s1]; [eauto|done]. Qed.

Ltac run_inv H :=
  let a := fresh "a" in let s := fresh "s" in let E := fresh "E" in
  apply bind_Ok_inv in H as (a & s & E & H).

Lemma purgedHashes_app h l more : h ∈ purgedHashes l -> h ∈ purgedHashes (l ++ more).
Proof. unfold purgedHashes. rewrite !elem_of_setOf, omap_app. set_solver. Qed.

Lemma emits_log {A} (P : EventBody -> Prop) (m : M A) s r s' : emits P m -> m s = (r, s') ->
  ∃ more, st_log s' = st_log s ++ more ∧ Forall (fun e => P (ev_body e)) more.
Proof. intros Hm E. destruct (Hm s) as (more & El & Hf). rewrite E in El. eauto. Qed.

Lemma sourceVersionAt_app l more src t : Forall (fun e => notVersion (ev_body e)) more ->
  sourceVersionAt (l ++ more) src t = sourceVersionAt l src t.
Proof.
  unfold sourceVersionAt. rewrite foldl_app. generalize (foldl (sourceVersionStep src t) None l).
  induction more as [|e more IH]; intros acc; [done|]. intros [He Hf]%Forall_cons. cbn [foldl].
  rewrite IH by done. unfold sourceVersionStep. by destruct (ev_body e).
Qed.

Lemma sourceVersionAt_latest evs src :
  match sourceVersionAt evs src None with Some v => sv_version v <= latestSourceVersionNumber evs src | None => True end.
Proof.
  unfold sourceVersionAt, latestSourceVersionNumber.
  induction evs as [|e evs IH] using rev_ind; [done|]. rewrite !foldl_app. cbn [foldl].
  set (found := foldl _ None evs) in *. set (mx := foldl _ 0 evs) in *.
  unfold sourceVersionStep. destruct (ev_body e); try exact IH.
  destruct (String.eqb (sv_sourceId d) src); cbn [negb]; [|exact IH]. cbn [after orb].
  destruct found as [f|]; [|lia]. destruct (Z.ltb_spec (sv_version f) (sv_version d)); lia.
Qed.

Lemma retired_sticks l v e src :
  ev_body e = ESourceVersion v -> sv_sourceId v = src -> sv_version v = latestSourceVersionNumber l src + 1 ->
  sourceVersionAt (l ++ [e]) src None = Some v.
Proof.
  intros Eb Es Ev. pose proof (sourceVersionAt_latest l src) as Hl. revert Hl.
  unfold sourceVersionAt. rewrite foldl_app. cbn [foldl]. set (found := foldl _ None l).
  unfold sourceVersionStep. rewrite Eb, Es, String.eqb_refl. cbn [negb after orb].
  destruct found as [f|]; [|done]. intros. destruct (Z.ltb_spec (sv_version f) (sv_version v)); [done|lia].
Qed.

Lemma sourceVersionAt_id evs src t v : sourceVersionAt evs src t = Some v -> sv_sourceId v = src.
Proof.
  unfold sourceVersionAt. revert v. induction evs as [|e evs IH] using rev_ind; intros v; [done|].
  rewrite foldl_app. cbn [foldl]. unfold sourceVersionStep at 1.
  destruct (ev_body e); try apply IH. destruct (String.eqb_spec (sv_sourceId d) src); cbn [negb]; [|apply IH].
  destruct (_ || _); [apply IH|]. case_match; [case_match|]; intros; simplify_eq; eauto.
Qed.

Section Completed.
Context `{JsHost} `{CredentialLaws}.

Lemma purge_ok id src l : forall s n s', purge id src l s = (Ok n, s') ->
  n = Z.of_nat (length l) ∧ forall h t, (h, t) ∈ l -> jm_get (st_bodies s') h = None ∧ h ∈ purgedHashes (st_log s').
Proof.
  induction l as [|[h0 t0] l IH]; intros s n s'; cbn [purge].
  { intros [= <- <-]. split; [done|]. by intros h t ?%not_elem_of_nil. }
  intros Hr. run_inv Hr. run_inv Hr. run_inv Hr. injection Hr as <- <-.
  assert (jm_get (st_bodies s0) h0 = None) as Hgone.
  { unfold step, tryCatch in E. destruct (payloadDelete h0 s) as [[[]|err] s9] eqn:Ed.
    - injection E as _ <-. revert Ed. unfold payloadDelete, mbind, M_bind, liftRes.
      destruct (assertHash h0); [|done]. intros [= <-]. simpl. apply jm_get_delete_eq.
    - by run_inv E. }
  pose proof (append_spec (EPayloadPurged h0 src id "beyond licence retention after offboarding") None s0) as [Ha Hb].
  rewrite E0 in Ha, Hb. destruct Ha as (Hlog & Hbody & _). simpl in Hb.
  destruct (IH _ _ _ E1) as [Hn Hrest]. split; [rewrite Hn; simpl; lia|].
  destruct (emits_log _ _ _ _ _ (emits_purge id src l) E1) as (more & Em & _).
  assert (h0 ∈ purgedHashes (st_log s2)) as Hin.
  { rewrite Em. apply purgedHashes_app. rewrite Hlog. unfold purgedHashes. rewrite elem_of_setOf, omap_app, elem_of_app.
    right. simpl. rewrite Hbody. set_solver. }
  intros h t [[= -> ->]|Ht]%elem_of_cons; [|by eapply Hrest]. split; [|done].
  destruct (decide (h0 ∈ map fst l)) as [((h' & t') & -> & Hl)%list_elem_of_fmap|Hn0]; [by eapply Hrest|].
  pose proof (keeps_purge (map fst l) id src l) as Hk.
  specialize (Hk ltac:(intros h' t' Hl; by apply (list_elem_of_fmap_2 fst _ _ Hl)) s1 h0 Hn0).
  rewrite E1 in Hk. simpl in Hk. rewrite Hk, Hb. done.
Qed.

Lemma retire_ok src p s b s' : op_alreadyRetired p = false -> retire src p s = (Ok b, s') ->
  ∃ v, sourceVersionAt (st_log s') src None = Some v ∧ sv_status v = SrcRetired.
Proof.
  unfold retire. intros -> Hr. run_inv Hr. injection E as <- <-.
  destruct (sourceVersionAt (st_log s) src None) as [cur|] eqn:Ec; [|done].
  pose proof (sourceVersionAt_id _ _ _ _ Ec) as Hid.
  run_inv Hr. destruct (emits_log (fun _ => False) _ _ _ _ (emits_reserve _) E) as (more & Em & Hf).
  destruct more as [|x more]; [|by apply Forall_cons in Hf as [[] _]]. rewrite app_nil_r in Em.
  run_inv Hr. injection E0 as <- <-. run_inv Hr. injection Hr as <- <-.
  match type of E0 with append ?b ?t _ = _ => pose proof (append_spec b t s0) as [Ha _] end.
  rewrite E0 in Ha. destruct Ha as (Hlog & Hb & _). rewrite Hlog.
  eexists. split; [eapply retired_sticks; [exact Hb|simpl; done|done]|done].
Qed.

Lemma revoke_ok id src p s b s' ref : op_credential p = Some (ref, true) -> revoke id src p s = (Ok b, s') ->
  ∃ e, e ∈ st_log s' ∧ ev_body e = ECredentialRevoked id src ref.
Proof.
  unfold revoke. intros -> Hr. run_inv Hr. run_inv Hr. injection Hr as <- <-.
  pose proof (append_spec (ECredentialRevoked id src ref) None s0) as [Ha _]. rewrite E0 in Ha.
  destruct Ha as (Hlog & Hb & _). exists a0. rewrite Hlog. split; [apply elem_of_app; right; set_solver|exact Hb].
Qed.
Definition scopeOf (p : OffboardingPlan) : list string := map fst (pl_purge (op_payloads p)).

Lemma keeps_execute id src p opts : keepsBodies (scopeOf p) (execute id src p opts).
Proof.
  unfold execute. apply keeps_bind; [apply keeps_retire|intros]. apply keeps_bind; [apply keeps_revoke|intros].
  apply keeps_bind; [apply keeps_purge; intros h t Hh; apply (list_elem_of_fmap_2 fst _ _ Hh)|intros].
  apply keeps_bind; [apply keeps_complete|auto with refract].
Qed.

Lemma emits_weaken {A} (P Q : EventBody -> Prop) (m : M A) : (forall b, P b -> Q b) -> emits P m -> emits Q m.
Proof. intros HPQ Hm s. destruct (Hm s) as (l & ? & ?). exists l. split; [done|]. eapply Forall_impl; [done|]. auto. Qed.

Lemma emits_execute id src p opts : emits (fun _ => True) (execute id src p opts).
Proof.
  unfold execute. apply emits_bind; [|intros].
  { unfold retire. destruct (op_alreadyRetired p); [auto with refract|]. apply emits_bind; [auto with refract|intros].
    case_match; auto 8 using emits_reserve with refract. }
  apply emits_bind; [eapply emits_weaken, emits_revoke; done|intros].
  apply emits_bind; [eapply emits_weaken, emits_purge; done|intros].
  apply emits_bind; [eapply emits_weaken, emits_complete; done|auto with refract].
Qed.

(** The plan reads the ledger and changes nothing. *)
Lemma plan_frame src s : st_log (plan src s).2 = st_log s ∧ st_bodies (plan src s).2 = st_bodies s ∧
  ∃ now, (plan src s).1 = planOffboarding (st_log s) src now.
Proof. unfold plan, mbind, M_bind, events, ledgerNow, readClock, liftRes, mret, M_ret. simpl. eauto. Qed.

(** Steps (a) to (d) that return, on a ledger whose latest version of the source is
    retired if the plan says so. *)
Lemma execute_ok id src p opts s ex s' :
  (op_alreadyRetired p = true -> ∃ v, sourceVersionAt (st_log s) src None = Some v ∧ sv_status v = SrcRetired) ->
  execute id src p opts s = (Ok ex, s') ->
  (∃ v, sourceVersionAt (st_log s') src None = Some v ∧ sv_status v = SrcRetired) ∧
  (forall ref, op_credential p = Some (ref, true) -> ∃ e id, e ∈ st_log s' ∧ ev_body e = ECredentialRevoked id src ref) ∧
  ex_purged ex = Z.of_nat (length (scopeOf p)) ∧
  (forall h, h ∈ scopeOf p -> jm_get (st_bodies s') h = None ∧ h ∈ purgedHashes (st_log s')).
Proof.
  intros Hret Ex. unfold execute in Ex. do 4 run_inv Ex. injection Ex as <- <-.
  destruct (purge_ok _ _ _ _ _ _ E1) as [Hn Hpurged].
  destruct (emits_log _ _ _ _ _ (emits_revoke id src p) E0) as (m1 & Em1 & Hm1).
  destruct (emits_log _ _ _ _ _ (emits_purge id src _) E1) as (m2 & Em2 & Hm2).
  destruct (emits_log _ _ _ _ _ (emits_complete id src opts _) E2) as (m3 & Em3 & Hm3).
  split_and!.
  - rewrite Em3, sourceVersionAt_app, Em2, sourceVersionAt_app, Em1, sourceVersionAt_app by done.
    destruct (op_alreadyRetired p) eqn:Ear; [|by eapply retire_ok].
    unfold retire in E. rewrite Ear in E. injection E as _ <-. auto.
  - intros ref Href. destruct (revoke_ok _ _ _ _ _ _ _ Href E0) as (e & He & Hb). exists e, id. split; [|done].
    rewrite Em3, Em2. apply elem_of_app; left. apply elem_of_app; by left.
  - cbn. rewrite Hn. unfold scopeOf. by rewrite length_map.
  - intros h ((h' & t) & -> & Hh)%list_elem_of_fmap. destruct (Hpurged h' t Hh) as [Hg Hin]. split.
    + pose proof (keeps_complete [] id src opts a1 s2 h' (not_elem_of_nil _)) as Hk. rewrite E2 in Hk. cbn [fst snd] in *. congruence.
    + rewrite Em3. by apply purgedHashes_app.
Qed.
End Completed.

(** What off-boarding does.  For every clock, every pattern of failing disk
    writes and any credential store: whatever the outcome, the ledger is only
    extended, and the only bodies that can disappear are those the plan purges
    (none when there is no plan).  A run that is not a dry run and returns has left
    the source retired, its credential recorded as revoked, and every purged body
    deleted and recorded as purged, all of them counted. *)
Theorem offboard_does_the_plan `{JsHost} `{CredentialLaws} (sourceId : string) (opts : OffboardingOptions) (s : LState) :
  let r := offboard sourceId opts s in
  st_log s `prefix_of` st_log r.2 ∧
  match (plan sourceId s).1 with
  | Err _ => is_ok r.1 = false ∧ st_bodies r.2 = st_bodies s
  | Ok p =>
      let scope := scopeOf p in
      (forall h, h ∉ scope -> jm_get (st_bodies r.2) h = jm_get (st_bodies s) h) ∧
      match r.1 with
      | Err _ => True
      | Ok report =>
          or_plan report = p ∧
          match or_executed report with
          | None => oo_dryRun opts = true ∧ st_log r.2 = st_log s
          | Some ex =>
              (∃ v, sourceVersionAt (st_log r.2) sourceId None = Some v ∧ sv_status v = SrcRetired) ∧
              (forall ref, op_credential p = Some (ref, true) -> ∃ e id, e ∈ st_log r.2 ∧ ev_body e = ECredentialRevoked id sourceId ref) ∧
              ex_purged ex = Z.of_nat (length scope) ∧
              (forall h, h ∈ scope -> jm_get (st_bodies r.2) h = None ∧ h ∈ purgedHashes (st_log r.2))
          end
      end
  end.
Proof.
  cbv zeta. destruct (plan_frame sourceId s) as (Hlog & Hbod & now & Hplan). unfold offboard.
  destruct (plan sourceId s) as [[p|err] s0] eqn:Ep; cbn [fst snd] in *;
    [rewrite (bind_Ok _ _ _ _ _ Ep)|by rewrite (bind_Err _ _ _ _ _ Ep); cbn; rewrite Hlog, Hbod].
  destruct (oo_dryRun opts) eqn:Edry; [cbn; by rewrite Hlog, Hbod|].
  destruct (_ && _); [cbn; by rewrite Hlog, Hbod|].
  rewrite (bind_Ok events _ s0 (st_log s0) s0 eq_refl).
  set (first := match resumableRun (st_log s0) sourceId with Some id => mret id | None => start sourceId p opts end).
  assert (emits notVersion first) as Hfe by (unfold first; case_match; auto using emits_start with refract).
  assert (keepsBodies (scopeOf p) first) as Hfk by (unfold first; case_match; auto using keeps_start with refract).
  specialize (Hfk s0). destruct (first s0) as [[id|err] s1] eqn:Ef;
    destruct (emits_log _ _ _ _ _ Hfe Ef) as (l1 & El1 & Hl1); cbn [fst snd] in *.
  2: { rewrite (bind_Err _ _ _ _ _ Ef). cbn [fst snd]. rewrite El1, Hlog. split; [by apply prefix_app_r|].
       split; [|done]. intros h Hh. by rewrite Hfk, Hbod. }
  rewrite (bind_Ok _ _ _ _ _ Ef). pose proof (keeps_execute id sourceId p opts s1) as Hke.
  destruct (execute id sourceId p opts s1) as [r s2] eqn:Ex.
  destruct (emits_log _ _ _ _ _ (emits_execute id sourceId p opts) Ex) as (l2 & El2 & _). cbn [fst snd] in Hke.
  assert (st_log s `prefix_of` st_log s2) as Hpre by (rewrite El2, El1, Hlog; do 2 apply prefix_app_r; done).
  assert (forall h, h ∉ scopeOf p -> jm_get (st_bodies s2) h = jm_get (st_bodies s) h) as Hbodies
    by (intros h Hh; by rewrite Hke, Hfk, Hbod).
  destruct r as [ex|err]; [rewrite (bind_Ok _ _ _ _ _ Ex)|by rewrite (bind_Err _ _ _ _ _ Ex)].
  cbn [fst snd mret M_ret]. split; [done|]. split; [done|]. split; [done|]. cbn [or_executed].
  eapply execute_ok; [|exact Ex]. intros Ear. rewrite El1, sourceVersionAt_app, Hlog by done.
  destruct (planOffboarding_inv _ _ _ _ (eq_sym Hplan)) as (cur & Hc & Hr & _). exists cur. split; [done|].
  rewrite Ear in Hr. symmetry in Hr. by apply bool_decide_eq_true in Hr.
Qed.

(** * Witnesses *)

(** The in-memory store: deleting never fails. *)
Definition memoryStore : CredentialStore := {| credentialDelete _ := mret tt |}.
#[global] Instance memoryStore_laws : @CredentialLaws memoryStore.
Proof. split. by intros. Qed.

Definition hashA : string := "aaaaaaaaaaaaaaaaaaaaaaaaaaaaaaaaaaaaaaaaaaaaaaaaaaaaaaaaaaaaaaaa".
Definition hashB : string := "bbbbbbbbbbbbbbbbbbbbbbbbbbbbbbbbbbbbbbbbbbbbbbbbbbbbbbbbbbbbbbbb".

Definition demoVersion (id : string) (days : Z) : SourceVersion :=
  mkSourceVersion id "prov" "feed" 1 SrcActive 1%float None days (Some "cred") None 0.
Definition demoRead (id src hash : string) : Reading :=
  mkReading id "feed" src 1%float 5 None (Some hash) SigVerified None.
Definition demoLedger (days : Z) : list EvidenceEvent :=
  [mkEvent 1 1 (ESourceVersion (demoVersion "s1" days)); mkEvent 2 2 (ESourceVersion (demoVersion "s2" days));
   mkEvent 3 3 (EPayloadStored (mkPayloadStored hashA "s1" 4)); mkEvent 4 4 (EPayloadStored (mkPayloadStored hashB "s1" 4));
   mkEvent 5 5 (EReading (demoRead "r1" "s1" hashA)); mkEvent 6 6 (EReading (demoRead "r2" "s1" hashB));
   mkEvent 7 7 (EReading (demoRead "r3" "s2" hashB))].

Lemma purge_respects_retention_witness :
  ∃ p, @planOffboarding demoHost (demoLedger 1) "s1" 90000000 = Ok p ∧
    (forall e r, e ∈ demoLedger 1 -> ev_body e = EReading r -> rd_payloadHash r = Some hashA ->
       rd_sourceId r = "s1" ∨ jm_get (lastStatus (demoLedger 1)) (rd_sourceId r) = Some SrcRetired) ∧
    map fst (pl_purge (op_payloads p)) = [hashA].
Proof.
  destruct (@planOffboarding demoHost (demoLedger 1) "s1" 90000000) as [p|] eqn:Ep; [|by vm_compute in Ep].
  exists p. split; [done|]. assert (map fst (pl_purge (op_payloads p)) = [hashA]) as Hl
    by (vm_compute in Ep; injection Ep as <-; vm_compute; reflexivity).
  split; [|done]. apply (@purge_respects_retention demoHost _ _ _ _ Ep hashA); [done|]. rewrite Hl. set_solver.
Defined.

Definition demoState (days : Z) : LState :=
  mkLState (demoLedger days) [(hashA, "a"); (hashB, "b")] (fun _ => 90000000) 0 (fun _ => true) 0.
Definition demoOptions : OffboardingOptions := mkOptions "ops" "contract ended" false true.

Lemma offboard_does_the_plan_witness :
  let r := @offboard demoHost memoryStore "s1" demoOptions (demoState 1) in
  is_ok r.1 = true ∧ jm_get (st_bodies r.2) hashB = Some "b" ∧ jm_get (st_bodies r.2) hashA = None.
Proof.
  cbv zeta. pose proof (@offboard_does_the_plan demoHost memoryStore _ "s1" demoOptions (demoState 1)) as (_ & Hr).
  destruct ((plan "s1" (demoState 1)).1) as [p|] eqn:Ep; [|by vm_compute in Ep].
  destruct Hr as [Hk _]. split; [vm_compute; reflexivity|]. split.
  - rewrite Hk; [vm_compute; reflexivity|]. vm_compute in Ep. injection Ep as <-.
    apply (bool_decide_unpack _). by vm_compute.
  - vm_compute. reflexivity.
Defined.

(** A retention the registration request accepts (any non-negative number of days)
    can put [purgeAfter] outside the range of a date: the plan then throws, and
    neither the dry run, nor the run, nor the sweep is possible for the source. *)
Lemma unbounded_retention_blocks_offboarding :
  @planOffboarding demoHost (demoLedger 100000000) "s1" 90000000 = Err "Invalid time value".
Proof. vm_compute. reflexivity. Qed.
