(* ===== verification/TriggerStability.v ===== *)
(** Debounced threshold triggers (src/claim/trigger/trigger-stability.ts):
    hysteresis, minimum dwell and flap damping between a raw comparison and the
    "condition is met" decision.

    Values, thresholds and penalties are binary64; times, dwell and counts are
    integers.  [Math.pow(2, x)], whose result the language leaves to the
    implementation, is the section variable [pow2]; no theorem assumes anything
    of it.  [evaluate] returns the decision, the new map of states and the event
    it emits. *)

From stdpp Require Import base list strings.
From Stdlib Require Import ZArith Lia Floats.
From S2P Require Import Prelude Decimal JsNum Canonical.

#[local] Open Scope Z_scope.

Inductive TriggerDirection := DirBelow | DirAbove.
Inductive TriggerPhase := Clear | Arming | Triggered | Disarming.
#[global] Instance TriggerPhase_eq_dec : EqDecision TriggerPhase.
Proof. solve_decision. Defined.

Record FlapDampingConfig := mkFlap {
  fl_penaltyPerFlip : num; fl_suppressAbove : num; fl_reuseBelow : num; fl_halfLifeMs : num; fl_maxPenalty : num }.

Record TriggerStabilityConfig := mkConfig {
  tc_hysteresis : num; tc_minDwellMs : Z; tc_minConfirmations : Z; tc_flap : FlapDampingConfig }.

Record TriggerObservation := mkObs {
  ob_value : num; ob_threshold : num; ob_direction : TriggerDirection; ob_observedAt : Z }.

Record TriggerKeyState := mkKey {
  ks_phase : TriggerPhase; ks_candidateSince : option Z; ks_candidateCount : Z; ks_confirmedAt : option Z;
  ks_lastRawBreached : option bool; ks_penalty : num; ks_suppressed : bool; ks_lastObservedAt : option Z;
  ks_flips : Z }.

Record TriggerDecision := mkTDecision {
  td_triggered : bool; td_phase : TriggerPhase; td_suppressed : bool; td_penalty : num;
  td_confirmedAt : option Z; td_changed : bool; td_accepted : bool; td_reason : string }.

Record TriggerTransitionEvent := mkTransition {
  te_key : string; te_changed : bool; te_from : TriggerPhase; te_to : TriggerPhase; te_at : Z;
  te_obs : TriggerObservation; te_hysteresis : num; te_penalty : num; te_flips : Z;
  te_candidateSince : option Z; te_reason : string }.

Definition DEFAULT_FLAP_DAMPING : FlapDampingConfig := mkFlap 1000 3000 750 900000 6000.

Definition DEFAULT_HYSTERESIS_BY_COVERAGE_TYPE (coverageType : Z) : option num :=
  if coverageType =? 0 then Some 0x1.47ae147ae147bp-8%float (* 0.005 *)
  else if coverageType =? 1 then Some 1%float
  else if coverageType =? 2 then Some 0x1.47ae147ae147bp-6%float (* 0.02 *)
  else if coverageType =? 3 then Some 1%float
  else if coverageType =? 4 then Some 10%float
  else None.

Record TriggerOverrides := mkOverrides {
  ov_hysteresis : option num; ov_minDwellMs : option Z; ov_minConfirmations : option Z; ov_flap : option FlapDampingConfig }.

Definition defaultTriggerConfig (coverageType : Z) (o : TriggerOverrides) : TriggerStabilityConfig :=
  mkConfig
    (match ov_hysteresis o with Some h => h | None => default 0%float (DEFAULT_HYSTERESIS_BY_COVERAGE_TYPE coverageType) end)
    (default (5 * 60000) (ov_minDwellMs o)) (default 2 (ov_minConfirmations o))
    (default DEFAULT_FLAP_DAMPING (ov_flap o)).

(** [toInteger] is [Number(raw)] when that is an integer, [None] otherwise. *)
Definition parseNonNegativeInt (toInteger : string -> option Z) (raw : option string) : option Z :=
  match raw with
  | None => None
  | Some r =>
      match trim (String.list_ascii_of_string r) with
      | [] => None
      | _ => match toInteger r with Some n => if 0 <=? n then Some n else None | None => None end
      end
  end.

Definition triggerOverridesFromEnv (toInteger : string -> option Z) (dwellSeconds confirmations : option string) : TriggerOverrides :=
  mkOverrides None ((fun d => d * 1000) <$> parseNonNegativeInt toInteger dwellSeconds)
    ((fun c => Z.max 1 c) <$> parseNonNegativeInt toInteger confirmations) None.

Definition validateTriggerConfig (config : TriggerStabilityConfig) : res string unit :=
  let flap := tc_flap config in
  if negb (isFinite (tc_hysteresis config)) || nlt (tc_hysteresis config) 0 then Err "hysteresis must be a finite number >= 0"
  else if tc_minDwellMs config <? 0 then Err "minDwellMs must be >= 0"
  else if tc_minConfirmations config <? 1 then Err "minConfirmations must be an integer >= 1"
  else if negb (ngt (fl_halfLifeMs flap) 0) then Err "flap.halfLifeMs must be > 0"
  else if negb (nge (fl_penaltyPerFlip flap) 0) then Err "flap.penaltyPerFlip must be >= 0"
  else if negb (ngt (fl_reuseBelow flap) 0 && nlt (fl_reuseBelow flap) (fl_suppressAbove flap))
  then Err "flap.reuseBelow must be > 0 and < flap.suppressAbove"
  else if negb (nge (fl_maxPenalty flap) (fl_suppressAbove flap)) then Err "flap.maxPenalty must be >= flap.suppressAbove"
  else Ok tt.

Definition initialState : TriggerKeyState := mkKey Clear None 0 None None 0 false None 0.

Definition isConfirmed (p : TriggerPhase) : bool := match p with Triggered | Disarming => true | _ => false end.

(** The raw comparison, and recovery past the hysteresis band. *)
Definition breachedBy (obs : TriggerObservation) : bool :=
  match ob_direction obs with
  | DirBelow => nlt (ob_value obs) (ob_threshold obs)
  | DirAbove => ngt (ob_value obs) (ob_threshold obs)
  end.
Definition recoveredBy (hysteresis : num) (obs : TriggerObservation) : bool :=
  match ob_direction obs with
  | DirBelow => nge (ob_value obs) (ob_threshold obs + hysteresis)%float
  | DirAbove => nle (ob_value obs) (ob_threshold obs - hysteresis)%float
  end.

Definition decisionOfState (s : TriggerKeyState) (accepted changed : bool) (reason : string) : TriggerDecision :=
  mkTDecision (isConfirmed (ks_phase s)) (ks_phase s) (ks_suppressed s) (ks_penalty s)
    (if isConfirmed (ks_phase s) then ks_confirmedAt s else None) changed accepted reason.

Section Evaluator.
Variable pow2 : num -> num.
Variable numText : num -> string.

(** Decay, charge for a crossing, and enter or leave suppression. *)
Definition damp (config : TriggerStabilityConfig) (s : TriggerKeyState) (obs : TriggerObservation) : TriggerKeyState :=
  let flap := tc_flap config in
  let decayed := match ks_lastObservedAt s with
    | Some last => (ks_penalty s * pow2 (- num_of_Z (ob_observedAt obs - last) / fl_halfLifeMs flap))%float
    | None => ks_penalty s end in
  let breached := breachedBy obs in
  let flip := match ks_lastRawBreached s with Some b => negb (Bool.eqb b breached) | None => false end in
  let penalty := if flip then nmin (fl_maxPenalty flap) (decayed + fl_penaltyPerFlip flap)%float else decayed in
  let suppressed :=
    if negb (ks_suppressed s) && nlt (fl_suppressAbove flap) penalty then true
    else if ks_suppressed s && nlt penalty (fl_reuseBelow flap) then false
    else ks_suppressed s in
  mkKey (ks_phase s) (ks_candidateSince s) (ks_candidateCount s) (ks_confirmedAt s) (Some breached) penalty
    suppressed (Some (ob_observedAt obs)) (if flip then ks_flips s + 1 else ks_flips s).

Definition withPhase (s : TriggerKeyState) (p : TriggerPhase) (since : option Z) (count : Z) (confirmedAt : option Z) : TriggerKeyState :=
  mkKey p since count confirmedAt (ks_lastRawBreached s) (ks_penalty s) (ks_suppressed s) (ks_lastObservedAt s) (ks_flips s).

Definition dwellMet (config : TriggerStabilityConfig) (s : TriggerKeyState) (obs : TriggerObservation) : bool :=
  match ks_candidateSince s with
  | Some since => (tc_minConfirmations config <=? ks_candidateCount s) &&
                  (tc_minDwellMs config <=? ob_observedAt obs - since)
  | None => false
  end.

(** Starts or extends the candidate of phase [p] (arming or disarming). *)
Definition candidate (s : TriggerKeyState) (p : TriggerPhase) (obs : TriggerObservation) : TriggerKeyState :=
  if bool_decide (ks_phase s = p) then withPhase s p (ks_candidateSince s) (ks_candidateCount s + 1) (ks_confirmedAt s)
  else withPhase s p (Some (ob_observedAt obs)) 1 (ks_confirmedAt s).

(** The two halves of the switch on the phase: new state, whether a due change
    was suppressed, reason. *)
Definition advanceOff (config : TriggerStabilityConfig) (s : TriggerKeyState) (obs : TriggerObservation) :
    TriggerKeyState * bool * string :=
  if negb (breachedBy obs) then (withPhase s Clear None 0 (ks_confirmedAt s), false, "threshold not breached"%string)
  else
    let s' := candidate s Arming obs in
    if negb (dwellMet config s' obs) then
      (s', false, "threshold breached; waiting for dwell (" +:+ showZ (ks_candidateCount s') +:+ "/" +:+
         showZ (tc_minConfirmations config) +:+ " observations, " +:+
         showZ (ob_observedAt obs - default (ob_observedAt obs) (ks_candidateSince s')) +:+ "/" +:+
         showZ (tc_minDwellMs config) +:+ "ms)")
    else if ks_suppressed s' then
      (s', true, "threshold breached and dwell met, but trigger is suppressed for flapping (penalty "
         +:+ numText (mathRound (ks_penalty s')) +:+ ")")
    else (withPhase s' Triggered None 0 (Some (ob_observedAt obs)), false, "threshold breach confirmed"%string).

Definition advanceOn (config : TriggerStabilityConfig) (s : TriggerKeyState) (obs : TriggerObservation) :
    TriggerKeyState * bool * string :=
  if negb (recoveredBy (tc_hysteresis config) obs) then
    (withPhase s Triggered None 0 (ks_confirmedAt s), false,
     if breachedBy obs then "threshold breached"%string else "within hysteresis band; condition stays met"%string)
  else
    let s' := candidate s Disarming obs in
    if negb (dwellMet config s' obs) then
      (s', false, "recovered past hysteresis band; waiting for dwell before clearing"%string)
    else if ks_suppressed s' then
      (s', true, "recovered and dwell met, but clearing is suppressed for flapping (penalty "
         +:+ numText (mathRound (ks_penalty s')) +:+ ")")
    else (withPhase s' Clear None 0 None, false, "recovery confirmed; condition cleared"%string).

Definition advance (config : TriggerStabilityConfig) (s : TriggerKeyState) (obs : TriggerObservation) :
    TriggerKeyState * bool * string :=
  match ks_phase s with
  | Clear | Arming => advanceOff config s obs
  | Triggered | Disarming => advanceOn config s obs
  end.

Abbreviation States := (list (string * TriggerKeyState)).

Definition evaluate (configFor : string -> TriggerStabilityConfig) (states : States) (key : string) (obs : TriggerObservation) :
    res string (TriggerDecision * States * option TriggerTransitionEvent) :=
  let config := configFor key in
  _ ← validateTriggerConfig config;
  _ ← guard_res (isFinite (ob_value obs) && isFinite (ob_threshold obs)) ("Non-finite trigger observation for " +:+ key);
  let prev := default initialState (jm_get states key) in
  if match ks_lastObservedAt prev with Some last => ob_observedAt obs <=? last | None => false end then
    Ok (decisionOfState prev false false "ignored: observation not newer than last accepted one", states, None)
  else
    let s1 := damp config prev obs in
    let '(s, suppressedChange, reason) := advance config s1 obs in
    let changed := negb (Bool.eqb (isConfirmed (ks_phase prev)) (isConfirmed (ks_phase s))) in
    let event := if changed || suppressedChange then
      Some (mkTransition key changed (ks_phase prev)
              (if changed then ks_phase s else if isConfirmed (ks_phase prev) then Clear else Triggered)
              (ob_observedAt obs) obs (tc_hysteresis config) (ks_penalty s) (ks_flips s) (ks_candidateSince prev) reason)
      else None in
    Ok (decisionOfState s true changed reason, jm_set states key s, event).

Definition getState (states : States) (key : string) : option TriggerKeyState := jm_get states key.
Definition forget (states : States) (key : string) : States := jm_delete states key.
(** A snapshot is an object; restoring enumerates its own properties. *)
Definition snapshot (states : States) : States := foldl (fun out kv => jm_set out kv.1 kv.2) [] states.
Definition restore (snap : States) : States := foldl (fun out kv => jm_set out kv.1 kv.2) [] (ownProperties snap).

(** ** Histories *)

(** A scan evaluates a key, a settlement forgets it. *)
Inductive TriggerAction := TEvaluate (key : string) (obs : TriggerObservation) | TForget (key : string).

(** The states, and the observations of key [k] accepted since it was last
    forgotten, newest first. *)
Definition runTrigger (configFor : string -> TriggerStabilityConfig) (k : string)
    (st : States * list TriggerObservation) (a : TriggerAction) : States * list TriggerObservation :=
  match a with
  | TEvaluate key obs =>
      match evaluate configFor st.1 key obs with
      | Ok (d, states', _) =>
          (states', if td_accepted d && bool_decide (key = k) then obs :: st.2 else st.2)
      | Err _ => st
      end
  | TForget key => (forget st.1 key, if bool_decide (key = k) then [] else st.2)
  end.

(** The last [n] accepted observations all satisfy [P], the oldest at [since]. *)
Record streak (P : TriggerObservation -> bool) (since : Z) (count : Z) (run : list TriggerObservation) : Prop := {
  sk_all : Forall (fun o => P o = true) run;
  sk_count : Z.of_nat (length run) = count;
  sk_oldest : ∃ o, last run = Some o ∧ ob_observedAt o = since }.

(** What the state says of the observations behind it. *)
Definition supported (config : TriggerStabilityConfig) (s : TriggerKeyState) (acc : list TriggerObservation) : Prop :=
  match ks_phase s with
  | Arming => ∃ since n, ks_candidateSince s = Some since ∧ streak breachedBy since (ks_candidateCount s) (take n acc)
  | Disarming => ∃ since n, ks_candidateSince s = Some since ∧
      streak (recoveredBy (tc_hysteresis config)) since (ks_candidateCount s) (take n acc)
  | _ => True
  end.

Lemma streak_one P obs : P obs = true -> streak P (ob_observedAt obs) 1 [obs].
Proof. intros Hp. split; [by repeat constructor|done|by exists obs]. Qed.

Lemma streak_cons P since n obs run : P obs = true -> streak P since n run -> streak P since (n + 1) (obs :: run).
Proof.
  intros Hp [Ha Hc (o & Hl & Ho)]. split; [by constructor|simpl; lia|].
  exists o. split; [|done]. destruct run; [done|]. exact Hl.
Qed.

(** The candidate of the new phase extends the streak by this observation. *)
Lemma candidate_streak P p s obs acc :
  P obs = true ->
  (ks_phase s = p -> ∃ since n, ks_candidateSince s = Some since ∧ streak P since (ks_candidateCount s) (take n acc)) ->
  ∃ since n, ks_candidateSince (candidate s p obs) = Some since ∧
    streak P since (ks_candidateCount (candidate s p obs)) (take n (obs :: acc)).
Proof.
  intros Hp Hs. unfold candidate. case_bool_decide as Hph; simpl.
  - destruct (Hs Hph) as (since & n & Hsi & Hst). exists since, (S n). split; [done|]. simpl. by apply streak_cons.
  - exists (ob_observedAt obs), 1%nat. split; [done|]. simpl. rewrite take_0. by apply streak_one.
Qed.

Lemma candidate_phase s p obs : ks_phase (candidate s p obs) = p.
Proof. unfold candidate. by case_bool_decide. Qed.

Lemma candidate_suppressed s p obs : ks_suppressed (candidate s p obs) = ks_suppressed s.
Proof. unfold candidate. by case_bool_decide. Qed.

(** Enough confirmations over enough time. *)
Definition sustained (config : TriggerStabilityConfig) (P : TriggerObservation -> bool) (obs : TriggerObservation)
    (run : list TriggerObservation) : Prop :=
  Forall (fun o => P o = true) run ∧ tc_minConfirmations config <= Z.of_nat (length run) ∧
  ∃ oldest, last run = Some oldest ∧ tc_minDwellMs config <= ob_observedAt obs - ob_observedAt oldest.

Lemma dwellMet_sustained config P s obs since run :
  ks_candidateSince s = Some since -> streak P since (ks_candidateCount s) run ->
  dwellMet config s obs = true -> sustained config P obs run.
Proof.
  unfold dwellMet. intros -> [Ha Hc (o & Hl & Ho)] [H1 H2]%andb_true_iff.
  apply Z.leb_le in H1, H2. split; [done|]. split; [lia|]. exists o. split; [done|]. lia.
Qed.

(** The streak behind a candidate phase. *)
Definition candidateOf (P : TriggerObservation -> bool) (p : TriggerPhase) (s : TriggerKeyState) (acc : list TriggerObservation) : Prop :=
  ks_phase s = p -> ∃ since n, ks_candidateSince s = Some since ∧ streak P since (ks_candidateCount s) (take n acc).

Lemma supported_iff config s acc :
  supported config s acc <->
  candidateOf breachedBy Arming s acc ∧ candidateOf (recoveredBy (tc_hysteresis config)) Disarming s acc.
Proof. unfold supported, candidateOf. destruct (ks_phase s); naive_solver. Qed.

Lemma candidate_dwell config P p s obs acc :
  P obs = true -> candidateOf P p s acc -> dwellMet config (candidate s p obs) obs = true ->
  ∃ n, sustained config P obs (take n (obs :: acc)).
Proof.
  intros Hp Hs Hd. destruct (candidate_streak P p s obs acc Hp Hs) as (since & n & Hsi & Hst).
  exists n. by eapply dwellMet_sustained.
Qed.

Lemma advanceOff_spec config s obs acc :
  candidateOf breachedBy Arming s acc ->
  let '(s', _, _) := advanceOff config s obs in
  supported config s' (obs :: acc) ∧ ks_suppressed s' = ks_suppressed s ∧
  (isConfirmed (ks_phase s') = true ->
     ks_suppressed s = false ∧ ∃ n, sustained config breachedBy obs (take n (obs :: acc))).
Proof.
  intros Hs. unfold advanceOff. destruct (breachedBy obs) eqn:Hb; simpl; [|done].
  assert (supported config (candidate s Arming obs) (obs :: acc)) as Hc.
  { unfold supported. rewrite candidate_phase. by apply candidate_streak. }
  destruct (dwellMet _ _ _) eqn:Hd; simpl; rewrite ?candidate_suppressed.
  - destruct (ks_suppressed s) eqn:Hsu; simpl; rewrite ?candidate_phase, ?candidate_suppressed; [done|].
    split_and!; [done|done|]. intros _. split; [done|]. by eapply candidate_dwell.
  - by rewrite ?candidate_phase, ?candidate_suppressed.
Qed.

Lemma advanceOn_spec config s obs acc :
  candidateOf (recoveredBy (tc_hysteresis config)) Disarming s acc ->
  let '(s', _, _) := advanceOn config s obs in
  supported config s' (obs :: acc) ∧ ks_suppressed s' = ks_suppressed s ∧
  (isConfirmed (ks_phase s') = false ->
     ks_suppressed s = false ∧ ∃ n, sustained config (recoveredBy (tc_hysteresis config)) obs (take n (obs :: acc))).
Proof.
  intros Hs. unfold advanceOn. destruct (recoveredBy _ obs) eqn:Hb; simpl; [|done].
  assert (supported config (candidate s Disarming obs) (obs :: acc)) as Hc.
  { unfold supported. rewrite candidate_phase. by apply candidate_streak. }
  destruct (dwellMet _ _ _) eqn:Hd; simpl; rewrite ?candidate_suppressed.
  - destruct (ks_suppressed s) eqn:Hsu; simpl; rewrite ?candidate_phase, ?candidate_suppressed; [done|].
    split_and!; [done|done|]. intros _. split; [done|]. by eapply candidate_dwell.
  - by rewrite ?candidate_phase, ?candidate_suppressed.
Qed.

Lemma advance_spec config s obs acc :
  supported config s acc ->
  let '(s', _, _) := advance config s obs in
  supported config s' (obs :: acc) ∧ ks_suppressed s' = ks_suppressed s ∧
  (isConfirmed (ks_phase s) = false -> isConfirmed (ks_phase s') = true ->
     ks_suppressed s = false ∧ ∃ n, sustained config breachedBy obs (take n (obs :: acc))) ∧
  (isConfirmed (ks_phase s) = true -> isConfirmed (ks_phase s') = false ->
     ks_suppressed s = false ∧ ∃ n, sustained config (recoveredBy (tc_hysteresis config)) obs (take n (obs :: acc))).
Proof.
  intros [Ha Hd]%supported_iff. unfold advance.
  pose proof (advanceOff_spec config s obs acc Ha) as Hoff. pose proof (advanceOn_spec config s obs acc Hd) as Hon.
  destruct (ks_phase s); [destruct (advanceOff config s obs) as [[s' ?] ?] | destruct (advanceOff config s obs) as [[s' ?] ?]
    | destruct (advanceOn config s obs) as [[s' ?] ?] | destruct (advanceOn config s obs) as [[s' ?] ?]]; naive_solver.
Qed.

Lemma damp_phase config s obs :
  ks_phase (damp config s obs) = ks_phase s ∧ ks_candidateSince (damp config s obs) = ks_candidateSince s ∧
  ks_candidateCount (damp config s obs) = ks_candidateCount s.
Proof. done. Qed.

Lemma damp_supported config s obs acc : supported config s acc -> supported config (damp config s obs) acc.
Proof. done. Qed.

(** A successful evaluation: the observation is stale and nothing happens, or
    the state of its key is damped and advanced. *)
Lemma evaluate_inv configFor states key obs d states' ev :
  evaluate configFor states key obs = Ok (d, states', ev) ->
  let prev := default initialState (jm_get states key) in
  (td_accepted d = false ∧ td_changed d = false ∧ states' = states ∧ ev = None) ∨
  ∃ s sup reason, advance (configFor key) (damp (configFor key) prev obs) obs = (s, sup, reason) ∧
    td_accepted d = true ∧ states' = jm_set states key s ∧ td_suppressed d = ks_suppressed s ∧
    td_triggered d = isConfirmed (ks_phase s) ∧
    td_changed d = negb (Bool.eqb (isConfirmed (ks_phase prev)) (isConfirmed (ks_phase s))).
Proof.
  unfold evaluate. destruct (validateTriggerConfig _) as [u|e]; simpl; [|done].
  destruct (guard_res _ _) as [u'|e]; simpl; [|done].
  destruct (match ks_lastObservedAt _ with Some last => _ | None => _ end).
  - intros [= <- <- <-]. by left.
  - destruct (advance _ _ _) as [[s sup] reason] eqn:Ea. intros [= <- <- _]. right.
    exists s, sup, reason. done.
Qed.

Lemma runTrigger_supported configFor k acts :
  let st := foldl (runTrigger configFor k) ([], []) acts in
  supported (configFor k) (default initialState (jm_get st.1 k)) st.2.
Proof.
  induction acts as [|a acts IH] using rev_ind; [done|]. rewrite foldl_app; simpl in *.
  set (st := foldl (runTrigger configFor k) ([], []) acts) in *. destruct a as [key obs|key]; simpl.
  - destruct (evaluate configFor st.1 key obs) as [[[d states'] ev]|e] eqn:Ee; [|done]. simpl.
    destruct (evaluate_inv _ _ _ _ _ _ _ Ee) as [(-> & _ & -> & _)|(s & sup & reason & Ha & -> & -> & _)]; [done|].
    simpl. rewrite jm_get_set. case_decide as Hk; [subst|rewrite bool_decide_false by done; done].
    rewrite bool_decide_true by done. simpl.
    pose proof (advance_spec (configFor k) _ obs st.2 (damp_supported _ _ obs _ IH)) as Hs.
    rewrite Ha in Hs. by apply Hs.
  - unfold forget. case_bool_decide; [subst; by rewrite jm_get_delete_eq|by rewrite jm_get_delete_ne].
Qed.

(** C21: the confirmed outcome of a key changes only on sustained evidence: after
    any interleaving of evaluations and forgets, an evaluation that turns the
    condition on (off) is the last of a run of accepted observations of that key
    that were all past the threshold (all recovered past the hysteresis band),
    at least [minConfirmations] of them spanning at least [minDwellMs], and the
    key is not suppressed; a single spike, a value inside the band, a replayed
    observation and a suppressed key never change it. *)
Theorem changes_are_sustained (configFor : string -> TriggerStabilityConfig) (k : string) (acts : list TriggerAction)
    (obs : TriggerObservation) (d : TriggerDecision) (states' : States) (ev : option TriggerTransitionEvent)
    (Hev : evaluate configFor (foldl (runTrigger configFor k) ([], []) acts).1 k obs = Ok (d, states', ev))
    (Hchanged : td_changed d = true) :
  td_accepted d = true ∧ td_suppressed d = false ∧
  ∃ n, sustained (configFor k) (if td_triggered d then breachedBy else recoveredBy (tc_hysteresis (configFor k))) obs
         (take n (obs :: (foldl (runTrigger configFor k) ([], []) acts).2)).
Proof.
  pose proof (runTrigger_supported configFor k acts) as Hsup. simpl in Hsup.
  set (st := foldl (runTrigger configFor k) ([], []) acts) in *.
  destruct (evaluate_inv _ _ _ _ _ _ _ Hev) as [(_ & Hc & _)|(s & sup & reason & Ha & -> & -> & -> & Htr & Hc)]; [congruence|].
  pose proof (advance_spec (configFor k) _ obs st.2 (damp_supported _ _ obs _ Hsup)) as Hs.
  rewrite Ha in Hs. destruct Hs as (_ & Hss & Hon & Hoff).
  rewrite Htr. rewrite Hchanged in Hc. split; [done|]. rewrite Hss.
  destruct (isConfirmed (ks_phase (default initialState (jm_get st.1 k)))) eqn:Hp;
    destruct (isConfirmed (ks_phase s)) eqn:Hq; try done; auto.
Qed.
End Evaluator.

(** ** Instances *)
Definition demoTrigger : TriggerStabilityConfig := mkConfig 0.0625 1000 2 DEFAULT_FLAP_DAMPING.
Definition demoAt (v : num) (t : Z) : TriggerObservation := mkObs v 1 DirBelow t.

Lemma changes_are_sustained_witness :
  ∃ d states' ev,
    evaluate (fun x => x) (fun _ => "0") (fun _ => demoTrigger)
      (foldl (runTrigger (fun x => x) (fun _ => "0") (fun _ => demoTrigger) "p")
         ([], []) [TEvaluate "p" (demoAt 0.5 0)]).1 "p" (demoAt 0.5 1000) = Ok (d, states', ev) ∧
    td_triggered d = true ∧ td_accepted d = true ∧ td_suppressed d = false ∧
    ∃ n, sustained demoTrigger (if td_triggered d then breachedBy else recoveredBy (tc_hysteresis demoTrigger)) (demoAt 0.5 1000)
      (take n (demoAt 0.5 1000 :: (foldl (runTrigger (fun x => x) (fun _ => "0") (fun _ => demoTrigger) "p")
         ([], []) [TEvaluate "p" (demoAt 0.5 0)]).2)).
Proof.
  eexists _, _, _. split; [vm_compute; reflexivity|]. split; [reflexivity|].
  eapply (changes_are_sustained (fun x => x) (fun _ => "0") (fun _ => demoTrigger) "p"
    [TEvaluate "p" (demoAt 0.5 0)] (demoAt 0.5 1000)); [vm_compute; reflexivity|reflexivity].
Defined.
