(* ===== verification/Safeguards.v ===== *)
(** The safeguards a claim scan passes through before paying:
    [AnomalyDetector] (src/oracle/anomaly.ts), [CircuitBreaker]
    (src/oracle/circuitBreaker.ts), [authorizeSettlement]
    (src/claim/settlement-authorization.ts, src/oracle/consensus/consensus-decision.ts)
    and the coverage-type codes (src/common/coverage-type.map.ts).

    The breaker table is a map from its primary key to a row; a query that
    fails is the caller's [readable = false]. *)

From stdpp Require Import base list strings.
From Stdlib Require Import ZArith Lia Floats.
From S2P Require Import Prelude Decimal JsNum Canonical.

#[local] Open Scope Z_scope.

(** * Coverage types *)

Definition COVERAGE_TYPE_CODE : list (string * Z) :=
  [("StablecoinDepeg", 0); ("MarketCrash", 1); ("LiquidationShield", 2); ("SmartContractRisk", 3); ("FlightDelay", 4)].
Definition COVERAGE_TYPE_PG : list (string * string) :=
  [("StablecoinDepeg", "stablecoin_depeg"); ("MarketCrash", "market_crash"); ("LiquidationShield", "liquidation_shield");
   ("SmartContractRisk", "smart_contract_risk"); ("FlightDelay", "flight_delay")].

Definition codeToSoroban (code : Z) : res string string :=
  match list_find (fun kv => kv.2 = code) COVERAGE_TYPE_CODE with
  | Some (_, (name, _)) => Ok name
  | None => Err ("Unknown coverage type code: " +:+ showZ code)
  end.

Definition codeToPg (code : Z) : res string string :=
  name ← codeToSoroban code;
  match jm_get COVERAGE_TYPE_PG name with Some pg => Ok pg | None => Err "undefined" end.

Definition pgToCode (pg : string) : res string Z :=
  match list_find (fun kv => kv.2 = pg) COVERAGE_TYPE_PG with
  | Some (_, (name, _)) => match jm_get COVERAGE_TYPE_CODE name with Some c => Ok c | None => Err "undefined" end
  | None => Err ("Unknown Postgres coverage_type: " +:+ pg)
  end.

Definition isValidCoverageTypeCode (n : Z) : bool := bool_decide (n ∈ map snd COVERAGE_TYPE_CODE).

Lemma valid_code_cases code :
  isValidCoverageTypeCode code = true <-> code = 0 ∨ code = 1 ∨ code = 2 ∨ code = 3 ∨ code = 4.
Proof.
  unfold isValidCoverageTypeCode. rewrite bool_decide_eq_true. cbn [map COVERAGE_TYPE_CODE snd].
  rewrite !elem_of_cons, elem_of_nil. tauto.
Qed.

(** The numeric wire code and the Postgres enum text of a coverage type
    determine each other: every valid code converts to a text that converts
    back to it, every convertible text comes back as the same text, and the
    codes outside 0..4 are rejected by every conversion. *)
Theorem coverage_codes_roundtrip (code : Z) (pg : string) :
  (isValidCoverageTypeCode code = true <-> 0 <= code <= 4) ∧
  (isValidCoverageTypeCode code = true -> ∃ p, codeToPg code = Ok p ∧ pgToCode p = Ok code) ∧
  (isValidCoverageTypeCode code = false -> is_ok (codeToSoroban code) = false ∧ is_ok (codeToPg code) = false) ∧
  (forall c, pgToCode pg = Ok c -> codeToPg c = Ok pg).
Proof.
  assert (isValidCoverageTypeCode code = true <-> 0 <= code <= 4) as Hv.
  { rewrite valid_code_cases. lia. }
  split_and!; [done| | |].
  - intros Hcs%valid_code_cases.
    destruct Hcs as [->|[->|[->|[->| ->]]]]; eexists; split; vm_compute; reflexivity.
  - intros Hc. assert (codeToSoroban code = Err ("Unknown coverage type code: " +:+ showZ code)) as He.
    { unfold codeToSoroban. destruct (list_find _ _) as [[i [n c]]|] eqn:E; [|done].
      apply list_find_Some in E as (Hl & Hcc & _). simpl in Hcc. subst c.
      exfalso. apply not_true_iff_false in Hc. apply Hc. unfold isValidCoverageTypeCode.
      rewrite bool_decide_eq_true. apply list_elem_of_fmap. exists (n, code). split; [done|].
      by eapply list_elem_of_lookup_2. }
    unfold codeToPg. rewrite He. done.
  - intros c. unfold pgToCode. destruct (list_find _ _) as [[i [n p]]|] eqn:E; [|done].
    apply list_find_Some in E as (Hl & Hcc & _). simpl in Hcc. subst p.
    assert ((n, pg) ∈ COVERAGE_TYPE_PG) as Hin by (by eapply list_elem_of_lookup_2).
    unfold COVERAGE_TYPE_PG in Hin. rewrite !elem_of_cons, elem_of_nil in Hin.
    destruct Hin as [Hx|[Hx|[Hx|[Hx|[Hx|[]]]]]]; injection Hx as -> ->; intros [= <-]; vm_compute; reflexivity.
Qed.

(** * Anomaly detector *)

Record AnomalyRule := mkRule {
  ar_floor : option num; ar_ceiling : option num; ar_rejectZero : bool; ar_maxPctChange : option num; ar_windowMs : option Z }.
Record AnomalyVerdict := mkVerdict { av_triggered : bool; av_reasons : list string }.

Definition DEFAULT_ANOMALY_RULES : list (string * AnomalyRule) :=
  [("StablecoinDepeg", mkRule (Some 0.5) (Some 1.5) true (Some 5) (Some (5 * 60000)%Z));
   ("MarketCrash", mkRule (Some (-100)) (Some 100) false None None);
   ("LiquidationShield", mkRule (Some 0) (Some 1) true None None);
   ("SmartContractRisk", mkRule (Some (-100)) (Some 100) false None None);
   ("FlightDelay", mkRule (Some 0) (Some 2880) false None None)]%float.

Record Sample := mkSample { sm_at : Z; sm_value : num }.
Abbreviation AnomalyHistory := (list (string * list Sample)).

Section Anomaly.
Context `{JsHost}.
(** [n.toFixed(2)] *)
Variable toFixed2 : num -> string.

Definition pctChangeWithinWindow (history : AnomalyHistory) (key : string) (value : num) (now windowMs : Z) : option num :=
  match list_find (fun s => now - windowMs <= sm_at s) (default [] (jm_get history key)) with
  | None => None
  | Some (_, baseline) =>
      if neq (sm_value baseline) 0 then Some (if neq value 0 then 0%float else infinity)
      else Some ((value - sm_value baseline) / abs (sm_value baseline) * 100)%float
  end.

Definition remember (history : AnomalyHistory) (key : string) (value : num) (now : Z) (windowMs : option Z) : AnomalyHistory :=
  match windowMs with
  | None => history
  | Some w => jm_set history key
                (filter (fun s => now - w <= sm_at s) (default [] (jm_get history key)) ++ [mkSample now value])
  end.

Definition ruleReasons (history : AnomalyHistory) (rule : AnomalyRule) (coverageType : string) (value : num) (now : Z) : list string :=
  (if ar_rejectZero rule && neq value 0 then ["zero reading rejected"] else []) ++
  (match ar_floor rule with
   | Some f => if nlt value f then ["value " +:+ numToString value +:+ " below floor " +:+ numToString f] else []
   | None => [] end) ++
  (match ar_ceiling rule with
   | Some c => if ngt value c then ["value " +:+ numToString value +:+ " above ceiling " +:+ numToString c] else []
   | None => [] end) ++
  (match ar_maxPctChange rule, ar_windowMs rule with
   | Some mx, Some w =>
       match pctChangeWithinWindow history coverageType value now w with
       | Some change =>
           if ngt (abs change) mx
           then [toFixed2 change +:+ "% change within " +:+ showZ w +:+ "ms exceeds " +:+ numToString mx +:+ "%"] else []
       | None => []
       end
   | _, _ => []
   end).

(** [evaluate]: the verdict and the accepted-readings history. *)
Definition checkAnomaly (rules : list (string * AnomalyRule)) (history : AnomalyHistory) (coverageType : string) (value : num) (now : Z) :
    AnomalyVerdict * AnomalyHistory :=
  match jm_get rules coverageType with
  | None => (mkVerdict true ["no anomaly rule configured for " +:+ coverageType], history)
  | Some rule =>
      if negb (isFinite value) then (mkVerdict true ["null or non-finite reading (" +:+ numToString value +:+ ")"], history)
      else
        let reasons := ruleReasons history rule coverageType value now in
        match reasons with
        | _ :: _ => (mkVerdict true reasons, history)
        | [] => (mkVerdict false [], remember history coverageType value now (ar_windowMs rule))
        end
  end.
End Anomaly.

(** A reading the detector accepts is covered by a rule, finite, non-zero
    where zero is rejected, within floor and ceiling, and within the allowed
    move from the oldest accepted reading of the window; and a rejected reading
    leaves the history as it was, so a rejected spike never becomes the
    baseline. *)
Theorem anomaly_verdict_sound `{JsHost} (toFixed2 : num -> string) (rules : list (string * AnomalyRule))
    (history : AnomalyHistory) (coverageType : string) (value : num) (now : Z) :
  let '(v, history') := checkAnomaly toFixed2 rules history coverageType value now in
  (av_triggered v = true -> history' = history) ∧
  (av_triggered v = false ->
   ∃ rule, jm_get rules coverageType = Some rule ∧ isFinite value = true ∧
     (ar_rejectZero rule = true -> neq value 0 = false) ∧
     (forall f, ar_floor rule = Some f -> nlt value f = false) ∧
     (forall c, ar_ceiling rule = Some c -> ngt value c = false) ∧
     (forall mx w change, ar_maxPctChange rule = Some mx -> ar_windowMs rule = Some w ->
        pctChangeWithinWindow history coverageType value now w = Some change -> ngt (abs change) mx = false)).
Proof.
  unfold checkAnomaly. destruct (jm_get rules coverageType) as [rule|]; [|done].
  destruct (isFinite value) eqn:Hf; simpl; [|done].
  destruct (ruleReasons _ _ _ _ _ _) as [|r rs] eqn:Hr; [|done]. simpl. split; [done|]. intros _.
  exists rule. split_and!; try done; unfold ruleReasons in Hr;
    apply app_eq_nil in Hr as [Hz Hr]; apply app_eq_nil in Hr as [Hfl Hr]; apply app_eq_nil in Hr as [Hc Hp].
  - intros Hrz. rewrite Hrz in Hz. simpl in Hz. by destruct (neq value 0).
  - intros f Hff. rewrite Hff in Hfl. by destruct (nlt value f).
  - intros c Hcc. rewrite Hcc in Hc. by destruct (ngt value c).
  - intros mx w change Hm Hw Hch. rewrite Hm, Hw, Hch in Hp. by destruct (ngt (abs change) mx).
Qed.

(** * Circuit breaker *)

Inductive BreakerState := BClosed | BOpen | BHalfOpen.
#[global] Instance BreakerState_eq_dec : EqDecision BreakerState.
Proof. solve_decision. Defined.

Definition HALF_OPEN_COOLDOWN_MS : Z := 30 * 60000.

(** A row of oracle_circuit_breakers. *)
Record BreakerRow := mkBreaker { br_state : BreakerState; br_reason : option string; br_openedAt : option Z; br_halfOpenAt : option Z }.
Abbreviation Breakers := (list (string * BreakerRow)).

Definition getBreakerState (db : Breakers) (coverageType : string) : BreakerState :=
  match jm_get db coverageType with Some r => br_state r | None => BClosed end.

(** [readable] is false when the query throws. *)
Definition isSettlementAllowed (readable : bool) (db : Breakers) (coverageType : string) : bool :=
  readable && bool_decide (getBreakerState db coverageType = BClosed).

(** INSERT ... ON CONFLICT DO UPDATE ... WHERE state <> 'open'; the result says
    whether a row changed. *)
Definition openBreaker (now : Z) (coverageType reason : string) (db : Breakers) : bool * Breakers :=
  match jm_get db coverageType with
  | Some r => if bool_decide (br_state r = BOpen) then (false, db)
              else (true, jm_set db coverageType (mkBreaker BOpen (Some reason) (Some now) None))
  | None => (true, jm_set db coverageType (mkBreaker BOpen (Some reason) (Some now) None))
  end.

(** [now] is the caller's time, [dbNow] the database's. *)
Definition halfOpenBreaker (now dbNow : Z) (coverageType : string) (db : Breakers) : bool * Breakers :=
  match jm_get db coverageType with
  | Some r =>
      match br_state r, br_openedAt r with
      | BOpen, Some t => if t <=? now - HALF_OPEN_COOLDOWN_MS
                         then (true, jm_set db coverageType (mkBreaker BHalfOpen (br_reason r) (Some t) (Some dbNow)))
                         else (false, db)
      | _, _ => (false, db)
      end
  | None => (false, db)
  end.

Definition closeBreaker (coverageType : string) (db : Breakers) : bool * Breakers :=
  match jm_get db coverageType with
  | Some r => if bool_decide (br_state r = BHalfOpen)
              then (true, jm_set db coverageType (mkBreaker BClosed None None None)) else (false, db)
  | None => (false, db)
  end.

Inductive BreakerOp :=
| OpOpen (now : Z) (coverageType reason : string)
| OpHalfOpen (now dbNow : Z) (coverageType : string)
| OpClose (coverageType : string).

Definition runBreaker (db : Breakers) (op : BreakerOp) : Breakers :=
  match op with
  | OpOpen now ct reason => (openBreaker now ct reason db).2
  | OpHalfOpen now dbNow ct => (halfOpenBreaker now dbNow ct db).2
  | OpClose ct => (closeBreaker ct db).2
  end.

(** The breaker moves only along its documented transitions: an operation
    on one coverage type changes no other, opening is the only way out of
    closed, an open breaker can only be half-opened and only after the cooldown
    since it opened, and only a half-open breaker can be closed; so settlement
    never resumes from open directly. *)
Theorem breaker_transitions (db : Breakers) (op : BreakerOp) (ct : string) :
  let before := getBreakerState db ct in
  let after := getBreakerState (runBreaker db op) ct in
  before = after ∨
  match before, after, op with
  | BClosed, BOpen, OpOpen _ c _ | BHalfOpen, BOpen, OpOpen _ c _ => c = ct
  | BOpen, BHalfOpen, OpHalfOpen now _ c =>
      c = ct ∧ ∃ r t, jm_get db ct = Some r ∧ br_openedAt r = Some t ∧ t + HALF_OPEN_COOLDOWN_MS <= now
  | BHalfOpen, BClosed, OpClose c => c = ct
  | _, _, _ => False
  end.
Proof.
  destruct op as [now c reason|now dbNow c|c]; simpl; unfold openBreaker, halfOpenBreaker, closeBreaker, getBreakerState;
    destruct (jm_get db c) as [r|] eqn:Hc; simpl; try by left.
  - case_bool_decide; simpl; [by left|]. rewrite jm_get_set. case_decide as Hct; [subst|by left].
    rewrite Hc. destruct (br_state r) eqn:Hs; simpl; auto.
  - rewrite jm_get_set. case_decide as Hct; [subst|by left]. rewrite Hc. by right.
  - destruct (br_state r) eqn:Hs, (br_openedAt r) as [t|] eqn:Ht; simpl; try by left.
    destruct (t <=? now - HALF_OPEN_COOLDOWN_MS) eqn:Hle; simpl; [|by left].
    rewrite jm_get_set. case_decide as Hct; [subst|by left]. rewrite Hc, Hs. right. split; [done|].
    exists r, t. apply Z.leb_le in Hle. split_and!; [done|done|lia].
  - case_bool_decide as Hs; simpl; [|by left]. rewrite jm_get_set. case_decide as Hct; [subst|by left].
    rewrite Hc, Hs. by right.
Qed.

(** * Settlement authorization *)

Record ConsensusDecision := mkCDecision {
  cd_id : string; cd_coverageType : string; cd_triggered : bool; cd_actionable : bool; cd_status : string;
  cd_blockers : list string; cd_evidenceSeq : option Z }.

Definition authorizesPayout (d : ConsensusDecision) : bool :=
  cd_actionable d && cd_triggered d && bool_decide (is_Some (cd_evidenceSeq d)).

Record SettlementAuthorization := mkAuth {
  sa_policyId : string; sa_holder : string; sa_payout : Z; sa_decision : ConsensusDecision }.

Definition authorizeSettlement (policyId holder : string) (coverageAmount : Z) (coverageTypeName : string) (d : ConsensusDecision) :
    res string SettlementAuthorization :=
  if negb (String.eqb (cd_coverageType d) coverageTypeName)
  then Err ("decision " +:+ cd_id d +:+ " is for " +:+ cd_coverageType d +:+ ", not " +:+ coverageTypeName)
  else if negb (cd_actionable d)
  then Err ("decision " +:+ cd_id d +:+ " not actionable (" +:+ cd_status d +:+ "): " +:+ joinWith "; " (cd_blockers d))
  else if negb (authorizesPayout d) then Err ("decision " +:+ cd_id d +:+ " not triggered")
  else Ok (mkAuth policyId holder coverageAmount d).

Lemma authorizeSettlement_Ok p h a n d auth :
  authorizeSettlement p h a n d = Ok auth ->
  cd_coverageType d = n ∧ cd_actionable d = true ∧ cd_triggered d = true ∧ is_Some (cd_evidenceSeq d) ∧
  auth = mkAuth p h a d.
Proof.
  unfold authorizeSettlement, authorizesPayout. destruct (String.eqb_spec (cd_coverageType d) n); simpl; [|done].
  destruct (cd_actionable d), (cd_triggered d); simpl; try done. case_bool_decide; simpl; [|done]. by intros [= <-].
Qed.
