(* ===== verification/ClaimScan.v ===== *)
(** The claim scan (src/claim/claim.service.ts): for every active policy, fetch
    the reading, trip the breaker on an anomaly, require an authorizing
    consensus decision, debounce the trigger, respect pauses and feed trust,
    and pay through the breaker, the hold gate and settlement.

    One scan is a state transformer; what the service asks of the outside world
    (readings, consensus decisions, pause flags, feed trust, settlement, clocks,
    database failures) is a [ScanEnv], one per scan, so the theorems hold for
    every behaviour of it.  [cs_paid] records the settlements that confirmed.
    A policy is visited once per scan and scans are serialised by the scheduler.
    Adjudication listeners, logs, the event repository and the reconciliation
    counter do not feed back into the scan and are left out. *)

From stdpp Require Import base list strings sorting sets.
From Stdlib Require Import ZArith Lia Floats.
From S2P Require Import Prelude Decimal JsNum Canonical Regions Evidence LedgerView Engine Reconstruction ClaimHold TriggerStability Safeguards.

#[local] Open Scope Z_scope.

Definition STALENESS_LIMIT_SECONDS : Z := 1800.

Record StoredPolicy := mkPolicy {
  po_id : string; po_holder : string; po_coverageType : Z; po_coverageAmount : Z; po_expiresAt : Z; po_isActive : bool;
  po_flightNumber : option string; po_protocolSlug : option string }.

Record OracleReading := mkOracle { or_coverageType : string; or_value : num; or_threshold : num; or_message : string }.

Record ClaimResult := mkClaimResult {
  cl_policyId : string; cl_holder : string; cl_coverageType : Z; cl_triggered : bool; cl_payout : Z; cl_reason : string;
  cl_triggerDetectedAt : option Z; cl_settlementTxHash : option string; cl_decisionId : option string }.

Record DeadLetterEntry := mkDead {
  de_policyId : string; de_holder : string; de_failureCount : Z; de_lastError : string; de_reason : string; de_coverageType : Z }.

Record SettlementResult := mkSettlement { se_settled : bool; se_txHash : option string; se_error : option string }.

(** Coverage-type name of a settlement trigger (TRIGGER_SPECS). *)
Definition TRIGGER_SPECS (coverageType : Z) : option string :=
  match codeToSoroban coverageType with Ok name => Some name | Err _ => None end.

Definition feedIdForPolicy (p : StoredPolicy) : string :=
  if po_coverageType p =? 0 then "usdc-usd"
  else if po_coverageType p =? 1 then "market-24h-change"
  else if po_coverageType p =? 2 then "liquidation-ratio"
  else if po_coverageType p =? 3 then "tvl-drop"
  else if po_coverageType p =? 4 then "flight-delay:" +:+ default "UNKNOWN" (po_flightNumber p)
  else "coverage-" +:+ showZ (po_coverageType p).

(** What the outside world answers during one scan, per policy. *)
Record ScanEnv := mkEnv {
  en_nowSeconds : Z;
  en_fetchedAt : StoredPolicy -> Z;
  en_evaluatedAt : StoredPolicy -> Z;
  en_nowMs : StoredPolicy -> Z;
  en_reading : StoredPolicy -> res string OracleReading;
  en_decide : StoredPolicy -> res string ConsensusDecision;
  en_paused : StoredPolicy -> res string bool;
  en_trust : string -> option FeedTrustState;
  en_breakerReadable : StoredPolicy -> bool;
  en_breakerWritable : StoredPolicy -> bool;
  en_settle : StoredPolicy -> SettlementResult }.

Record ScanState := mkScan {
  cs_policies : list (string * StoredPolicy);
  cs_breakers : Breakers;
  cs_anomaly : AnomalyHistory;
  cs_coverageTypes : list (string * Z);
  cs_triggers : list (string * TriggerKeyState);
  cs_ledger : LState;
  cs_failures : list (string * Z);
  cs_dead : list DeadLetterEntry;
  cs_deadIds : list string;
  cs_paid : list (string * Z);
  cs_processed : Z;
  cs_payoutTotal : Z;
  cs_history : list ClaimResult }.

(** * The scan monad *)
Definition SM (A : Type) : Type := ScanState -> res string A * ScanState.
#[global] Instance SM_ret : MRet SM := fun A a s => (Ok a, s).
#[global] Instance SM_bind : MBind SM := fun A B f m s =>
  match m s with (Ok a, s') => f a s' | (Err e, s') => (Err e, s') end.

Definition smGet : SM ScanState := fun s => (Ok s, s).
Definition smModify (f : ScanState -> ScanState) : SM unit := fun s => (Ok tt, f s).
Definition smRes {A} (r : res string A) : SM A := fun s => (r, s).

Definition setBreakers (b : Breakers) (s : ScanState) : ScanState :=
  mkScan (cs_policies s) b (cs_anomaly s) (cs_coverageTypes s) (cs_triggers s) (cs_ledger s) (cs_failures s) (cs_dead s)
    (cs_deadIds s) (cs_paid s) (cs_processed s) (cs_payoutTotal s) (cs_history s).
Definition setAnomaly (a : AnomalyHistory) (s : ScanState) : ScanState :=
  mkScan (cs_policies s) (cs_breakers s) a (cs_coverageTypes s) (cs_triggers s) (cs_ledger s) (cs_failures s) (cs_dead s)
    (cs_deadIds s) (cs_paid s) (cs_processed s) (cs_payoutTotal s) (cs_history s).
Definition setTriggers (ct : list (string * Z)) (t : list (string * TriggerKeyState)) (s : ScanState) : ScanState :=
  mkScan (cs_policies s) (cs_breakers s) (cs_anomaly s) ct t (cs_ledger s) (cs_failures s) (cs_dead s)
    (cs_deadIds s) (cs_paid s) (cs_processed s) (cs_payoutTotal s) (cs_history s).
Definition setLedger (l : LState) (s : ScanState) : ScanState :=
  mkScan (cs_policies s) (cs_breakers s) (cs_anomaly s) (cs_coverageTypes s) (cs_triggers s) l (cs_failures s) (cs_dead s)
    (cs_deadIds s) (cs_paid s) (cs_processed s) (cs_payoutTotal s) (cs_history s).
Definition setFailures (f : list (string * Z)) (d : list DeadLetterEntry) (ids : list string) (s : ScanState) : ScanState :=
  mkScan (cs_policies s) (cs_breakers s) (cs_anomaly s) (cs_coverageTypes s) (cs_triggers s) (cs_ledger s) f d
    ids (cs_paid s) (cs_processed s) (cs_payoutTotal s) (cs_history s).
Definition setPaid (p : list (string * Z)) (s : ScanState) : ScanState :=
  mkScan (cs_policies s) (cs_breakers s) (cs_anomaly s) (cs_coverageTypes s) (cs_triggers s) (cs_ledger s) (cs_failures s)
    (cs_dead s) (cs_deadIds s) p (cs_processed s) (cs_payoutTotal s) (cs_history s).

(** [policyService.deactivate] *)
Definition deactivate (id : string) (ps : list (string * StoredPolicy)) : list (string * StoredPolicy) :=
  match jm_get ps id with
  | Some p => jm_set ps id (mkPolicy (po_id p) (po_holder p) (po_coverageType p) (po_coverageAmount p) (po_expiresAt p) false
                              (po_flightNumber p) (po_protocolSlug p))
  | None => ps
  end.

(** [policyService.listActive] *)
Definition listActive (nowSeconds : Z) (ps : list (string * StoredPolicy)) : list StoredPolicy :=
  filter (fun p => po_isActive p = true ∧ nowSeconds < po_expiresAt p) (jm_values ps).

(** A hold-service call on the ledger part of the state. *)
Definition onLedger {A} (m : M A) : SM A := fun s =>
  let '(r, l) := m (cs_ledger s) in (r, setLedger l s).

Section Scan.
Context `{JsHost} `{ConsensusSvc}.
(** Whether the optional [ClaimHoldService] was injected. *)
Variable holdService : bool.
Variable holdMaxDurationMs : Z.
Variable pow2 : num -> num.
Variable toFixed2 : num -> string.
Variable rules : list (string * AnomalyRule).
Variable overrides : TriggerOverrides.
Variable holdOnUntrustedFeed : bool.

(** The evaluator's configuration for a policy, from the coverage type the
    service last remembered for it. *)
Definition triggerConfigFor (types : list (string * Z)) (k : string) : TriggerStabilityConfig :=
  defaultTriggerConfig (default (-1) (jm_get types k)) overrides.

Definition buildResult (p : StoredPolicy) (triggered : bool) (reason : string) : ClaimResult :=
  mkClaimResult (po_id p) (po_holder p) (po_coverageType p) triggered (if triggered then po_coverageAmount p else 0) reason
    None None None.

(** Opens the breaker under the reading's coverage type. *)
Definition tripBreaker (env : ScanEnv) (p : StoredPolicy) (reading : OracleReading) (reasons : list string) : SM unit :=
  if negb (en_breakerWritable env p) then smRes (Err "database unavailable")
  else
    s ← smGet;
    smModify (setBreakers (openBreaker (en_nowMs env p) (or_coverageType reading) (joinWith "; " reasons) (cs_breakers s)).2).

(** Staleness, then the debounced trigger. *)
Definition evaluatePolicy (env : ScanEnv) (p : StoredPolicy) (oracle : OracleReading) : SM ClaimResult :=
  let staleness := en_evaluatedAt env p - en_fetchedAt env p in
  if STALENESS_LIMIT_SECONDS <? staleness
  then mret (buildResult p false ("Oracle data stale (" +:+ showZ staleness +:+ "s old)"))
  else
    s ← smGet;
    let direction := if po_coverageType p =? 4 then DirAbove else DirBelow in
    let types := jm_set (cs_coverageTypes s) (po_id p) (po_coverageType p) in
    _ ← smModify (setTriggers types (cs_triggers s));
    d ← smRes (evaluate pow2 numToString (triggerConfigFor types) (cs_triggers s) (po_id p)
                 (mkObs (or_value oracle) (or_threshold oracle) direction (en_fetchedAt env p * 1000)));
    let '(decision, triggers, _) := d in
    _ ← smModify (setTriggers types triggers);
    let r := buildResult p (td_triggered decision)
               (or_message oracle +:+ " [trigger: " +:+ td_reason decision +:+ "]") in
    mret (if td_triggered decision
          then mkClaimResult (cl_policyId r) (cl_holder r) (cl_coverageType r) (cl_triggered r) (cl_payout r) (cl_reason r)
                 (td_confirmedAt decision) None None
          else r).

Definition candidateOfPolicy (p : StoredPolicy) : HoldCandidate :=
  mkCandidate (po_id p) (po_holder p)
    (default ("coverage-" +:+ showZ (po_coverageType p))
       (if po_coverageType p <? 0 then None else COVERAGE_FEEDS !! Z.to_nat (po_coverageType p)))
    (po_expiresAt p * 1000).

(** A settlement that did not confirm: count, and dead-letter at the third. *)
Definition recordFailure (p : StoredPolicy) (result : ClaimResult) (error : option string) (s : ScanState) : ScanState :=
  let count := default 0 (jm_get (cs_failures s) (po_id p)) + 1 in
  if 3 <=? count then
    setFailures (jm_delete (jm_set (cs_failures s) (po_id p) count) (po_id p))
      (cs_dead s ++ [mkDead (po_id p) (po_holder p) count (default "settlement failed" error) (cl_reason result) (po_coverageType p)])
      (if bool_decide (po_id p ∈ cs_deadIds s) then cs_deadIds s else cs_deadIds s ++ [po_id p]) s
  else setFailures (jm_set (cs_failures s) (po_id p) count) (cs_dead s) (cs_deadIds s) s.

(** Bookkeeping of a confirmed settlement, after the hold is marked settled. *)
Definition recordSettled (p : StoredPolicy) (settled : ClaimResult) (s : ScanState) : ScanState :=
  mkScan (deactivate (po_id p) (cs_policies s)) (cs_breakers s) (cs_anomaly s) (jm_delete (cs_coverageTypes s) (po_id p))
    (forget (cs_triggers s) (po_id p)) (cs_ledger s) (cs_failures s) (cs_dead s) (cs_deadIds s) (cs_paid s)
    (cs_processed s + 1) (cs_payoutTotal s + cl_payout settled) (cs_history s ++ [settled]).

(** The hold gate of a payout; without a hold service there is no gate and the
    claim settles directly. *)
Definition holdGate (p : StoredPolicy) : SM GateResult :=
  if holdService then onLedger (gate holdMaxDurationMs (candidateOfPolicy p)) else mret (Proceed None).

Definition processPayout (env : ScanEnv) (p : StoredPolicy) (result : ClaimResult) (auth : option SettlementAuthorization) :
    SM (option ClaimResult) :=
  s ← smGet;
  if negb (isSettlementAllowed (en_breakerReadable env p) (cs_breakers s) (showZ (po_coverageType p))) then mret None
  else
    g ← holdGate p;
    match g with
    | Block _ _ => mret None
    | Proceed holdId =>
        let settlement := en_settle env p in
        if negb (se_settled settlement) then
          _ ← smModify (recordFailure p result (se_error settlement)); mret None
        else
          _ ← smModify (fun s => setPaid (cs_paid s ++ [(po_id p, cl_payout result)]) s);
          _ ← match holdId with Some id => onLedger (markSettled id) | None => mret tt end;
          let settled := mkClaimResult (cl_policyId result) (cl_holder result) (cl_coverageType result) (cl_triggered result)
            (cl_payout result) (cl_reason result) (cl_triggerDetectedAt result) (se_txHash settlement)
            ((fun a => cd_id (sa_decision a)) <$> auth) in
          _ ← smModify (recordSettled p settled);
          mret (Some settled)
    end.

(** The body of the loop for one policy; [None] when nothing was paid. *)
Definition scanPolicy (env : ScanEnv) (p : StoredPolicy) : SM (option ClaimResult) :=
  match TRIGGER_SPECS (po_coverageType p) with
  | None => smRes (Err ("Unknown coverageType " +:+ showZ (po_coverageType p)))
  | Some coverageTypeName =>
      oracle ← smRes (en_reading env p);
      s ← smGet;
      let '(verdict, history) := checkAnomaly toFixed2 rules (cs_anomaly s) (or_coverageType oracle) (or_value oracle) (en_nowMs env p) in
      _ ← smModify (setAnomaly history);
      if av_triggered verdict then _ ← tripBreaker env p oracle (av_reasons verdict); mret None
      else
        decision ← smRes (en_decide env p);
        match authorizeSettlement (po_id p) (po_holder p) (po_coverageAmount p) coverageTypeName decision with
        | Err _ => mret None
        | Ok auth =>
            result ← evaluatePolicy env p oracle;
            let trust := en_trust env (feedIdForPolicy p) in
            let untrusted := match trust with Some t => negb (bool_decide (t = FtTrusted)) | None => false end in
            if negb (cl_triggered result) then mret None
            else
              paused ← smRes (en_paused env p);
              if (paused : bool) then mret None
              else if untrusted && holdOnUntrustedFeed then mret None
              else processPayout env p result (Some auth)
        end
  end.

(** One scan: every exception is caught per policy. *)
Fixpoint scanEach (env : ScanEnv) (ps : list StoredPolicy) (s : ScanState) : list ClaimResult * ScanState :=
  match ps with
  | [] => ([], s)
  | p :: ps' =>
      let '(r, s') := scanPolicy env p s in
      let '(rest, s'') := scanEach env ps' s' in
      (match r with Ok (Some c) => c :: rest | _ => rest end, s'')
  end.

Definition processTriggered (env : ScanEnv) (s : ScanState) : list ClaimResult * ScanState :=
  scanEach env
    (filter (fun p => po_id p ∉ cs_deadIds s) (listActive (en_nowSeconds env) (cs_policies s))) s.

Definition runScans (envs : list ScanEnv) (s : ScanState) : ScanState :=
  foldl (fun s env => (processTriggered env s).2) s envs.

(** ** What a payment rests on *)

Lemma sm_bind_Ok {A B} (m : SM A) (f : A -> SM B) s a s' : m s = (Ok a, s') -> (m ≫= f) s = f a s'.
Proof. unfold mbind, SM_bind. by intros ->. Qed.

(** The guards a confirmed payment passed. *)
Record guarded (env : ScanEnv) (p : StoredPolicy) (s : ScanState) : Prop := {
  gd_reading : ∃ oracle, en_reading env p = Ok oracle ∧
    av_triggered (checkAnomaly toFixed2 rules (cs_anomaly s) (or_coverageType oracle) (or_value oracle) (en_nowMs env p)).1 = false ∧
    en_evaluatedAt env p - en_fetchedAt env p <= STALENESS_LIMIT_SECONDS ∧
    ∃ d ts ev, evaluate pow2 numToString (triggerConfigFor (jm_set (cs_coverageTypes s) (po_id p) (po_coverageType p))) (cs_triggers s) (po_id p)
        (mkObs (or_value oracle) (or_threshold oracle) (if po_coverageType p =? 4 then DirAbove else DirBelow) (en_fetchedAt env p * 1000))
        = Ok (d, ts, ev) ∧ td_triggered d = true;
  gd_decision : ∃ d, en_decide env p = Ok d ∧ TRIGGER_SPECS (po_coverageType p) = Some (cd_coverageType d) ∧
    cd_actionable d = true ∧ cd_triggered d = true ∧ is_Some (cd_evidenceSeq d);
  gd_paused : en_paused env p = Ok false;
  gd_trust : holdOnUntrustedFeed = true -> forall t, en_trust env (feedIdForPolicy p) = Some t -> t = FtTrusted;
  gd_breaker : isSettlementAllowed (en_breakerReadable env p) (cs_breakers s) (showZ (po_coverageType p)) = true;
  gd_gate : holdService = true -> ∃ hid l, gate holdMaxDurationMs (candidateOfPolicy p) (cs_ledger s) = (Ok (Proceed hid), l);
  gd_settled : se_settled (en_settle env p) = true }.

(** The parts of the state a payment is about are kept. *)
Definition samePayments (s s' : ScanState) : Prop := cs_paid s' = cs_paid s ∧ cs_policies s' = cs_policies s.

Lemma recordFailure_same p r e s : samePayments s (recordFailure p r e s) ∧ cs_ledger (recordFailure p r e s) = cs_ledger s.
Proof. unfold recordFailure. by destruct (3 <=? _). Qed.

(** [processPayout]: nothing paid, or one payment behind breaker and gate; on a
    working disk the policy is then inactive. *)
Lemma processPayout_cases env p r auth s :
  let s' := (processPayout env p r auth s).2 in
  samePayments s s' ∨
  (cs_paid s' = cs_paid s ++ [(po_id p, cl_payout r)] ∧
   ((forall n, st_disk (cs_ledger s) n = true) -> cs_policies s' = deactivate (po_id p) (cs_policies s)) ∧
   isSettlementAllowed (en_breakerReadable env p) (cs_breakers s) (showZ (po_coverageType p)) = true ∧
   (holdService = true -> ∃ hid l, gate holdMaxDurationMs (candidateOfPolicy p) (cs_ledger s) = (Ok (Proceed hid), l)) ∧
   se_settled (en_settle env p) = true).
Proof.
  unfold processPayout, smGet, smModify, mbind, SM_bind, mret, SM_ret.
  destruct (isSettlementAllowed _ _ _) eqn:Hb; simpl; [|by left].
  unfold holdGate, onLedger, mret, SM_ret. destruct holdService; cycle 1.
  { destruct (se_settled (en_settle env p)) eqn:Hs; simpl; [|left; apply (recordFailure_same p r _ s)].
    right. by split_and!. }
  destruct (gate _ _ (cs_ledger s)) as [[g|e] l] eqn:Hg; simpl; [|by left].
  destruct g as [hid|]; simpl; [|by left].
  destruct (se_settled (en_settle env p)) eqn:Hs; simpl; [|left; apply (recordFailure_same p r _ (setLedger l s))].
  right. destruct hid as [id|]; simpl; [|split_and!; eauto].
  destruct (gate_proceed_hold _ _ _ _ _ Hg) as (-> & h & Hh & _).
  destruct (markSettled id (cs_ledger s)) as [[u|e] l'] eqn:Hm; simpl; split_and!; eauto.
  intros Hdk. destruct (markSettled_ok id (cs_ledger s) h Hdk Hh) as (s'' & Hms & _). congruence.
Qed.

(** The trigger evaluation of a policy. *)
Lemma evaluatePolicy_cases env p oracle s :
  match evaluatePolicy env p oracle s with
  | (Ok r, s') => samePayments s s' ∧ cs_breakers s' = cs_breakers s ∧ cs_ledger s' = cs_ledger s ∧
      (cl_triggered r = true ->
        cl_payout r = po_coverageAmount p ∧ en_evaluatedAt env p - en_fetchedAt env p <= STALENESS_LIMIT_SECONDS ∧
        ∃ d ts ev, evaluate pow2 numToString (triggerConfigFor (jm_set (cs_coverageTypes s) (po_id p) (po_coverageType p))) (cs_triggers s) (po_id p)
          (mkObs (or_value oracle) (or_threshold oracle) (if po_coverageType p =? 4 then DirAbove else DirBelow) (en_fetchedAt env p * 1000))
          = Ok (d, ts, ev) ∧ td_triggered d = true)
  | (Err _, s') => samePayments s s' ∧ cs_ledger s' = cs_ledger s
  end.
Proof.
  unfold evaluatePolicy, smGet, smModify, smRes, mbind, SM_bind, mret, SM_ret.
  destruct (STALENESS_LIMIT_SECONDS <? _) eqn:Hst; simpl; [done|]. apply Z.ltb_ge in Hst.
  destruct (evaluate _ _ _ _ _ _) as [[[d ts] ev]|e] eqn:He; simpl; [|done].
  destruct (td_triggered d) eqn:Ht; simpl; [|done]. split_and!; try done. intros _. split_and!; eauto 10.
Qed.

(** The state after paying [p]: one more payment; and the policy inactive if the
    bookkeeping was not interrupted. *)
Definition paidBy (p : StoredPolicy) (s s' : ScanState) : Prop :=
  cs_paid s' = cs_paid s ++ [(po_id p, po_coverageAmount p)] ∧
  ((forall n, st_disk (cs_ledger s) n = true) -> cs_policies s' = deactivate (po_id p) (cs_policies s)).

Lemma scanPolicy_cases env p s s' :
  (scanPolicy env p s).2 = s' -> samePayments s s' ∨ (paidBy p s s' ∧ guarded env p s).
Proof.
  unfold scanPolicy. destruct (TRIGGER_SPECS (po_coverageType p)) as [name|] eqn:Hspec; [|intros <-; by left].
  unfold mbind at 1, SM_bind at 1, smRes at 1. destruct (en_reading env p) as [oracle|e] eqn:Hr; [|intros <-; by left].
  rewrite (sm_bind_Ok smGet _ s s s) by done.
  destruct (checkAnomaly _ _ _ _ _ _) as [verdict history] eqn:Han.
  rewrite (sm_bind_Ok (smModify _) _ s tt (setAnomaly history s)) by done.
  set (s1 := setAnomaly history s). destruct (av_triggered verdict) eqn:Hv.
  { intros <-. left. unfold tripBreaker, smRes, smGet, smModify, mbind, SM_bind. by destruct (negb _). }
  unfold mbind at 1, SM_bind at 1, smRes at 1. destruct (en_decide env p) as [d|e] eqn:Hd; [|intros <-; by left].
  destruct (authorizeSettlement _ _ _ _ _) as [auth|e] eqn:Hauth; [|intros <-; by left].
  apply authorizeSettlement_Ok in Hauth as (Hct & Hact & Htr & Hev & _).
  pose proof (evaluatePolicy_cases env p oracle s1) as He.
  unfold mbind at 1, SM_bind at 1. destruct (evaluatePolicy env p oracle s1) as [[r|e] s2]; [|intros <-; left; apply He].
  destruct He as ([Hp1 Hp2] & Hbr & Hlg & Hon).
  assert (samePayments s s2) as Hsame by done.
  destruct (cl_triggered r) eqn:Hcl; simpl; [|by intros <-; left].
  destruct (Hon eq_refl) as (Hpay & Hstale & Htrig).
  unfold mbind at 1, SM_bind at 1, smRes at 1.
  destruct (en_paused env p) as [[|]|e] eqn:Hpa; [by intros <-; left| |by intros <-; left].
  destruct (_ && holdOnUntrustedFeed) eqn:Htrust; [by intros <-; left|]. intros <-.
  change (cs_ledger s1) with (cs_ledger s) in Hlg. change (cs_breakers s1) with (cs_breakers s) in Hbr.
  destruct (processPayout_cases env p r (Some auth) s2) as [[Hq1 Hq2]|(Hpd & Hdis & Hb & Hg & Hs)].
  { left. split; [by rewrite Hq1|by rewrite Hq2]. }
  right. rewrite Hlg in Hdis, Hg. rewrite Hbr in Hb. split; [split|split; try done].
  - by rewrite Hpd, Hpay, Hp1.
  - intros Hdk. by rewrite Hdis, Hp2.
  - exists oracle. rewrite Han. simpl. done.
  - exists d. subst name. done.
  - intros Hh t Ht. rewrite Ht, Hh, andb_true_r in Htrust. apply negb_false_iff in Htrust.
    by apply bool_decide_eq_true in Htrust.
Qed.

(** C1: every payment passes every guard: scanning a policy either confirms no
    settlement, or exactly one, of the policy's coverage amount, and then the
    reading was accepted by the anomaly detector and fresh, the debounced
    trigger is on, an actionable, triggered and recorded consensus decision for
    this coverage type authorized it, the type is not paused, the feed is
    trusted (when holds on untrusted feeds are enabled), the breaker read for the
    policy's code is closed and, where the optional hold service is configured,
    its gate let it through.  Without that service there is no gate: see
    [no_hold_service_settles_directly]. *)
Theorem payment_needs_every_guard (env : ScanEnv) (p : StoredPolicy) (s : ScanState) :
  let s' := (scanPolicy env p s).2 in
  cs_paid s' = cs_paid s ∨
  (cs_paid s' = cs_paid s ++ [(po_id p, po_coverageAmount p)] ∧ guarded env p s).
Proof. intros s'. destruct (scanPolicy_cases env p s _ eq_refl) as [[Hs _]|[(Hp & _) Hg]]; auto. Qed.

(** Without the service's own reading nothing is paid, whatever consensus decided: the
    reading is fetched, and its anomaly verdict taken, before the decision is asked for. *)
Theorem no_reading_no_payment (env : ScanEnv) (p : StoredPolicy) (s : ScanState) (e : string) (Hread : en_reading env p = Err e) :
  is_ok (scanPolicy env p s).1 = false ∧ (scanPolicy env p s).2 = s.
Proof.
  unfold scanPolicy. destruct (TRIGGER_SPECS _); [|done]. unfold mbind at 1 2, SM_bind at 1 2, smRes at 1 2. by rewrite Hread.
Qed.

(** The gate rests on an optional dependency: with no hold service a triggered
    claim past the breaker is settled without a look at the evidence ledger. *)
Theorem no_hold_service_settles_directly (env : ScanEnv) (p : StoredPolicy) (r : ClaimResult) auth (s : ScanState)
    (Hnone : holdService = false) (Hsettled : se_settled (en_settle env p) = true)
    (Hbreaker : isSettlementAllowed (en_breakerReadable env p) (cs_breakers s) (showZ (po_coverageType p)) = true) :
  cs_paid (processPayout env p r auth s).2 = cs_paid s ++ [(po_id p, cl_payout r)] ∧
  cs_ledger (processPayout env p r auth s).2 = cs_ledger s.
Proof.
  unfold processPayout, holdGate, smGet, smModify, mbind, SM_bind, mret, SM_ret.
  by rewrite Hbreaker, Hnone; simpl; rewrite Hsettled.
Qed.

(** ** The breaker's key *)

(** The breaker an anomaly opens is not the one settlement reads: it is
    opened under the reading's coverage-type name, settlement asks for the
    policy's numeric code, so tripping it changes no settlement permission of
    any policy. *)
Theorem tripped_breaker_not_consulted (env : ScanEnv) (p : StoredPolicy) (reading : OracleReading) (reasons : list string)
    (s : ScanState) (readable : bool) (code : Z)
    (Hname : or_coverageType reading ∈ map fst COVERAGE_TYPE_CODE) (Hcode : isValidCoverageTypeCode code = true) :
  isSettlementAllowed readable (cs_breakers (tripBreaker env p reading reasons s).2) (showZ code)
  = isSettlementAllowed readable (cs_breakers s) (showZ code).
Proof.
  assert (or_coverageType reading ≠ showZ code) as Hne.
  { intros E. rewrite E in Hname. apply valid_code_cases in Hcode.
    apply (bool_decide_eq_true_2 _) in Hname. destruct Hcode as [->|[->|[->|[->| ->]]]]; vm_compute in Hname; discriminate Hname. }
  unfold tripBreaker. destruct (negb _); [done|].
  unfold smGet, smModify, mbind, SM_bind; simpl. unfold isSettlementAllowed, getBreakerState, openBreaker.
  destruct (jm_get (cs_breakers s) (or_coverageType reading)) as [r|]; [destruct (bool_decide (br_state r = BOpen))|];
    simpl; by rewrite ?jm_get_set_ne by done.
Qed.

(** ** Payments happen once *)

Definition smKeepsDisk {A} (m : SM A) : Prop := forall s, st_disk (cs_ledger (m s).2) = st_disk (cs_ledger s).

Lemma smKeeps_ret {A} (a : A) : smKeepsDisk (mret a).
Proof. done. Qed.
Lemma smKeeps_res {A} (r : res string A) : smKeepsDisk (smRes r).
Proof. done. Qed.
Lemma smKeeps_get : smKeepsDisk smGet.
Proof. done. Qed.
Lemma smKeeps_bind {A B} (m : SM A) (f : A -> SM B) : smKeepsDisk m -> (forall a, smKeepsDisk (f a)) -> smKeepsDisk (m ≫= f).
Proof.
  intros Hm Hf s. unfold mbind, SM_bind. specialize (Hm s). destruct (m s) as [[a|e] s']; simpl in *; [|done]. by rewrite Hf.
Qed.
Lemma smKeeps_modify f : (forall s, cs_ledger (f s) = cs_ledger s) -> smKeepsDisk (smModify f).
Proof. intros Hf s. simpl. by rewrite Hf. Qed.
Lemma smKeeps_onLedger {A} (m : M A) : keepsDisk m -> smKeepsDisk (onLedger m).
Proof. intros Hm s. unfold onLedger. specialize (Hm (cs_ledger s)). by destruct (m (cs_ledger s)). Qed.
Lemma smKeeps_if {A} (b : bool) (m1 m2 : SM A) : smKeepsDisk m1 -> smKeepsDisk m2 -> smKeepsDisk (if b then m1 else m2).
Proof. by destruct b. Qed.
#[local] Hint Resolve smKeeps_ret smKeeps_res smKeeps_get smKeeps_bind smKeeps_onLedger smKeeps_if : refract.
#[local] Hint Extern 1 (smKeepsDisk (smModify _)) => apply smKeeps_modify; intros; reflexivity : refract.

Lemma markSettled_keepsDisk id : keepsDisk (markSettled id).
Proof. unfold markSettled. auto with refract. Qed.
#[local] Hint Resolve markSettled_keepsDisk : refract.

Lemma processPayout_keepsDisk `{!ConsensusLaws} env p r auth : smKeepsDisk (processPayout env p r auth).
Proof.
  unfold processPayout. apply smKeeps_bind; [auto with refract|]. intros s. apply smKeeps_if; [auto with refract|].
  apply smKeeps_bind; [unfold holdGate; apply smKeeps_if; [apply smKeeps_onLedger, gate_keepsDisk|auto with refract]|].
  intros [hid|]; [|auto with refract].
  apply smKeeps_if.
  - apply smKeeps_bind; [|auto with refract]. apply smKeeps_modify. intros. apply recordFailure_same.
  - apply smKeeps_bind; [auto with refract|]. intros _.
    apply smKeeps_bind; [destruct hid; auto with refract|]. auto with refract.
Qed.

Lemma evaluatePolicy_keepsDisk env p o : smKeepsDisk (evaluatePolicy env p o).
Proof.
  intros s. pose proof (evaluatePolicy_cases env p o s) as He.
  destruct (evaluatePolicy env p o s) as [[r|e] s']; simpl; [destruct He as (_ & _ & -> & _)|destruct He as (_ & ->)]; done.
Qed.

Lemma scanPolicy_keepsDisk `{!ConsensusLaws} env p : smKeepsDisk (scanPolicy env p).
Proof.
  unfold scanPolicy. destruct (TRIGGER_SPECS _) as [name|]; [|auto with refract].
  apply smKeeps_bind; [auto with refract|]. intros oracle. apply smKeeps_bind; [auto with refract|]. intros s.
  destruct (checkAnomaly _ _ _ _ _ _) as [v h]. apply smKeeps_bind; [auto with refract|]. intros _.
  apply smKeeps_if; [unfold tripBreaker; auto with refract|].
  apply smKeeps_bind; [auto with refract|]. intros d. destruct (authorizeSettlement _ _ _ _ _); [|auto with refract].
  apply smKeeps_bind; [apply evaluatePolicy_keepsDisk|]. intros r. apply smKeeps_if; [auto with refract|].
  apply smKeeps_bind; [auto with refract|]. intros b.
  repeat (apply smKeeps_if; [auto with refract|]). apply processPayout_keepsDisk.
Qed.

Lemma deactivate_get id ps k :
  jm_get (deactivate id ps) k =
  if decide (id = k)
  then (fun p => mkPolicy (po_id p) (po_holder p) (po_coverageType p) (po_coverageAmount p) (po_expiresAt p) false
                   (po_flightNumber p) (po_protocolSlug p)) <$> jm_get ps k
  else jm_get ps k.
Proof.
  unfold deactivate. destruct (jm_get ps id) as [p|] eqn:E; [rewrite jm_get_set|]; case_decide; subst; by rewrite ?E.
Qed.

Lemma deactivate_keys id ps : jm_keys (deactivate id ps) = jm_keys ps.
Proof.
  unfold deactivate. destruct (jm_get ps id) as [p|] eqn:E; [|done]. apply jm_keys_set_in.
  destruct (decide (id ∈ jm_keys ps)) as [?|Hn]; [done|]. apply jm_get_None_notin in Hn. congruence.
Qed.

(** The store holds each policy under its id, the disk works, each policy was
    paid at most once, and a paid policy is inactive. *)
Record paidOnce (s : ScanState) : Prop := {
  po_keys : NoDup (jm_keys (cs_policies s));
  po_ids : forall k p, jm_get (cs_policies s) k = Some p -> po_id p = k;
  po_disk : forall n, st_disk (cs_ledger s) n = true;
  po_nodup : NoDup (map fst (cs_paid s));
  po_inactive : forall k p, k ∈ map fst (cs_paid s) -> jm_get (cs_policies s) k = Some p -> po_isActive p = false }.

Lemma scanPolicy_paidOnce `{!ConsensusLaws} env p s :
  paidOnce s -> po_id p ∉ map fst (cs_paid s) ->
  paidOnce (scanPolicy env p s).2 ∧
  forall k, k ≠ po_id p -> k ∉ map fst (cs_paid s) -> k ∉ map fst (cs_paid (scanPolicy env p s).2).
Proof.
  intros [Hk Hi Hd Hn Ha] Hp. pose proof (scanPolicy_keepsDisk env p s) as Hdk.
  destruct (scanPolicy_cases env p s _ eq_refl) as [[Hs1 Hs2]|[[Hs1 Hs2] _]].
  - split; [split|]; rewrite ?Hs1, ?Hs2; auto. by rewrite Hdk.
  - specialize (Hs2 Hd). split; [split|]; rewrite ?Hs1, ?Hs2.
    + by rewrite deactivate_keys.
    + intros k q. rewrite deactivate_get. case_decide; [|apply Hi].
      intros (q' & Hq & ->)%fmap_Some. simpl. by apply Hi.
    + by rewrite Hdk.
    + rewrite map_app. simpl. apply NoDup_app. split_and!; [done| |apply NoDup_singleton].
      intros x Hx ->%list_elem_of_singleton. done.
    + intros k q. rewrite deactivate_get, map_app. simpl. case_decide as Hkk.
      * intros _ (q' & Hq & ->)%fmap_Some. done.
      * intros [Hx|Hx%list_elem_of_singleton]%elem_of_app; [by apply Ha|congruence].
    + intros k Hne Hnk. rewrite map_app. simpl. intros [Hx|Hx%list_elem_of_singleton]%elem_of_app; done.
Qed.

Lemma scanEach_paidOnce `{!ConsensusLaws} env ps s :
  paidOnce s -> NoDup (map po_id ps) -> Forall (fun p => po_id p ∉ map fst (cs_paid s)) ps ->
  paidOnce (scanEach env ps s).2.
Proof.
  revert s; induction ps as [|p ps IH]; intros s Hs Hd Hf; [done|].
  cbn [map] in Hd. apply NoDup_cons in Hd as [Hn Hd]. apply Forall_cons in Hf as [Hp Hf]. simpl.
  destruct (scanPolicy_paidOnce env p s Hs Hp) as [Hs' Hk].
  destruct (scanPolicy env p s) as [r s'] eqn:E; simpl in *.
  specialize (IH s' Hs' Hd). destruct (scanEach env ps s') as [rest s'']; simpl in *. apply IH.
  apply Forall_forall. intros q Hq. rewrite Forall_forall in Hf. apply Hk; [|by apply Hf].
  intros E'. apply Hn. rewrite <- E'. apply list_elem_of_fmap. eauto.
Qed.

Lemma processTriggered_paidOnce `{!ConsensusLaws} env s : paidOnce s -> paidOnce (processTriggered env s).2.
Proof.
  intros Hs. pose proof Hs as [Hk Hi Hd Hn Ha]. unfold processTriggered, listActive.
  assert (forall p, p ∈ jm_values (cs_policies s) -> jm_get (cs_policies s) (po_id p) = Some p) as Hget.
  { intros p (kv & -> & Hin)%list_elem_of_fmap. destruct kv as [k p]. apply jm_in_get in Hin; [|done].
    simpl. by rewrite (Hi k p). }
  apply scanEach_paidOnce; [done| |].
  - assert (map po_id (jm_values (cs_policies s)) = jm_keys (cs_policies s)) as Hm.
    { unfold jm_values, jm_keys. rewrite <- list_fmap_compose. apply list_fmap_ext. intros i [k p] Hl.
      apply list_elem_of_lookup_2, jm_in_get in Hl; [|done]. by apply Hi. }
    rewrite <- Hm in Hk. eapply sublist_NoDup; [exact Hk|]. apply fmap_sublist.
    etrans; [apply sublist_filter|apply sublist_filter].
  - apply Forall_forall. intros p [_ [[Hact _] Hin]%list_elem_of_filter]%list_elem_of_filter Hx.
    specialize (Ha _ p Hx (Hget p Hin)). congruence.
Qed.

(** C4: no policy is paid twice: over any number of scans and any behaviour of
    readings, consensus, breakers, pauses and settlement, as long as the ledger
    can be written, each policy has at most one confirmed settlement. *)
Theorem policy_paid_at_most_once `{!ConsensusLaws} (envs : list ScanEnv) (s : ScanState)
    (Hkeys : NoDup (jm_keys (cs_policies s))) (Hids : forall k p, jm_get (cs_policies s) k = Some p -> po_id p = k)
    (Hdisk : forall n, st_disk (cs_ledger s) n = true) (Hfresh : cs_paid s = []) :
  NoDup (map fst (cs_paid (runScans envs s))).
Proof.
  assert (paidOnce s) as Hs.
  { split; try done; rewrite Hfresh; [constructor|]. intros k p Hx. by apply not_elem_of_nil in Hx. }
  assert (paidOnce (runScans envs s)) as []; [|done].
  unfold runScans. clear Hfresh Hdisk Hids Hkeys. revert s Hs. induction envs as [|env envs IH]; intros s Hs; [done|].
  simpl. apply IH. by apply processTriggered_paidOnce.
Qed.
End Scan.

(** ** Instances *)
Definition demoPolicy : StoredPolicy := mkPolicy "1" "GHOLDER" 0 500 1000000 true None None.
Definition demoEnv (t : Z) (value : num) : ScanEnv :=
  mkEnv t (fun _ => t) (fun _ => t) (fun _ => t * 1000)
    (fun _ => Ok (mkOracle "StablecoinDepeg" value 0.9375 "depeg"))
    (fun _ => Ok (mkCDecision "StablecoinDepeg@1" "StablecoinDepeg" true true "ok" [] (Some 1)))
    (fun _ => Ok false) (fun _ => None) (fun _ => true) (fun _ => true)
    (fun _ => mkSettlement true (Some "tx") None).
Definition demoScan (disk : nat -> bool) (reqs : list (EventBody * option Z)) : ScanState :=
  mkScan [("1", demoPolicy)] [] [] [] [] (runAppends reqs (mkLState [] [] demoClock 0 disk 0)).2 [] [] [] [] 0 0 [].
Definition demoRun (envs : list ScanEnv) (s : ScanState) : ScanState :=
  @runScans demoHost (@liveConsensus demoHost) true 1000 (fun x => x) (fun _ => "0") DEFAULT_ANOMALY_RULES
    (mkOverrides None (Some 0) (Some 1) None) true envs s.
(** A hold of the policy, approved by an operator. *)
Definition approvedHold : list (EventBody * option Z) :=
  [(EHoldPlaced (mkHoldPlaced "h1" "1" "GHOLDER" "StablecoinDepeg" "d1" [] "held" 99999 1000000000), None);
   (EHoldDisposed "h1" ApprovePayout "ops" "checked" None, None)].

Lemma tripped_breaker_not_consulted_witness :
  isSettlementAllowed true (cs_breakers (tripBreaker (demoEnv 1 0) demoPolicy (mkOracle "StablecoinDepeg" 0 1 "") ["zero"]
     (demoScan (fun _ => true) [])).2) (showZ 0) = true ∧
  isSettlementAllowed true (cs_breakers (tripBreaker (demoEnv 1 0) demoPolicy (mkOracle "StablecoinDepeg" 0 1 "") ["zero"]
     (demoScan (fun _ => true) [])).2) (showZ 0)
  = isSettlementAllowed true (cs_breakers (demoScan (fun _ => true) [])) (showZ 0).
Proof.
  split; [vm_compute; reflexivity|].
  apply tripped_breaker_not_consulted; [apply list_elem_of_here|vm_compute; reflexivity].
Defined.

(** An anomalous (zero) reading opens the breaker, and the next scan pays. *)
Example open_breaker_still_pays :
  let s := demoRun [demoEnv 1 0; demoEnv 2 0.75] (demoScan (fun _ => true) []) in
  getBreakerState (cs_breakers s) "StablecoinDepeg" = BOpen ∧ cs_paid s = [("1"%string, 500)].
Proof. vm_compute. split; reflexivity. Qed.

Lemma policy_paid_at_most_once_witness :
  length (cs_paid (demoRun [demoEnv 1 0.75; demoEnv 2 0.75] (demoScan (fun _ => true) approvedHold))) = 1%nat ∧
  NoDup (map fst (cs_paid (demoRun [demoEnv 1 0.75; demoEnv 2 0.75] (demoScan (fun _ => true) approvedHold)))).
Proof.
  split; [vm_compute; reflexivity|].
  apply (@policy_paid_at_most_once demoHost (@liveConsensus demoHost) true 1000 (fun x => x) (fun _ => "0") DEFAULT_ANOMALY_RULES
    (mkOverrides None (Some 0) (Some 1) None) true (@liveConsensus_laws demoHost)).
  - apply (bool_decide_unpack _). vm_compute. exact I.
  - intros k p. simpl. case_decide; [intros [= <-]; by subst|done].
  - intros n. vm_compute. reflexivity.
  - reflexivity.
Defined.

(** A ledger write that fails between a confirmed settlement and its
    bookkeeping makes the scan pay again: marking the hold settled throws before
    the policy is deactivated, so the next scan finds the policy active and its
    hold still approved, and settles it a second time. *)
Theorem failed_ledger_write_pays_twice :
  let s := demoScan (fun n => negb (n =? 2)%nat) approvedHold in
  cs_paid (demoRun [demoEnv 1 0.75; demoEnv 2 0.75] s) = [("1"%string, 500); ("1"%string, 500)].
Proof. vm_compute. reflexivity. Qed.
