(* ===== verification/Reevaluation.v ===== *)
(** Re-adjudication of claims decided while a feed was not trusted
    (src/claim/reevaluation/adjudication.ts, reevaluation-planner.ts,
    reevaluation.service.ts, and the records claim.service.ts emits).

    Amounts are the integers their decimal strings denote, times are integer
    milliseconds.  The service state is explicit; [apply] is split at the
    [await] of the settlement executor, so that both a call that runs to its
    end and interleaved calls are sequences of the same steps.  What the
    executor answers is an argument; [rv_payments] records the settlements it
    confirmed. *)

From stdpp Require Import base list strings.
From Stdlib Require Import ZArith Lia Floats.
From S2P Require Import Prelude Decimal JsNum JsDate Canonical Regions TriggerStability Safeguards ClaimScan.

#[local] Open Scope Z_scope.

(** * Adjudication records *)

Inductive AdjudicationOutcome := AoHeld | AoSkipped | AoSettled.
#[global] Instance AdjudicationOutcome_eq_dec : EqDecision AdjudicationOutcome. Proof. solve_decision. Defined.

Record AdjudicationRecord := mkRecord {
  ad_id : string; ad_policyId : string; ad_holder : string; ad_coverageType : Z; ad_feedId : string;
  ad_outcome : AdjudicationOutcome; ad_trustState : FeedTrustState; ad_decidedAt : Z;
  ad_readingValue : num; ad_threshold : num; ad_direction : TriggerDirection;
  ad_coverageAmount : Z; ad_paid : Z; ad_expiresAt : Z;
  ad_settlementTxHash : option string; ad_reevaluatedBy : option string }.

(** What one scan of a policy records, by the branch it took: [payout] is the
    confirmed settlement, when [processPayout] returned one. *)
Definition scanOutcome (trust : option FeedTrustState) (holdOnUntrustedFeed triggered paused : bool)
    (payout : option (Z * option string)) : option (FeedTrustState * AdjudicationOutcome * Z * option string) :=
  match trust with
  | None | Some FtTrusted => None
  | Some t =>
      if triggered then
        if paused then None
        else if holdOnUntrustedFeed then Some (t, AoHeld, 0, None)
        else match payout with Some (amount, tx) => Some (t, AoSettled, amount, tx) | None => None end
      else Some (t, AoSkipped, 0, None)
  end.

Definition emitAdjudication (p : StoredPolicy) (oracle : OracleReading) (feedId : string) (trust : FeedTrustState)
    (outcome : AdjudicationOutcome) (decidedAtSeconds paid : Z) (tx : option string) : AdjudicationRecord :=
  let decidedAt := decidedAtSeconds * 1000 in
  mkRecord (po_id p +:+ ":" +:+ showZ decidedAt) (po_id p) (po_holder p) (po_coverageType p) feedId outcome trust decidedAt
    (or_value oracle) (or_threshold oracle) (if po_coverageType p =? 4 then DirAbove else DirBelow)
    (po_coverageAmount p) paid (po_expiresAt p * 1000) tx None.

(** * The planner *)

Inductive CorrectedOutcome := CoTriggered | CoNotTriggered | CoInsufficientData.
Inductive ReevaluationAction := ActSettle | ActRelease | ActFlagOverpayment | ActNoChange | ActSuperseded | ActManualReview.
Inductive Provenance := PvQuorum | PvBackfill.
#[global] Instance ReevaluationAction_eq_dec : EqDecision ReevaluationAction. Proof. solve_decision. Defined.
#[global] Instance Provenance_eq_dec : EqDecision Provenance. Proof. solve_decision. Defined.

Record TrustedReading := mkTrusted { tr_observedAt : Z; tr_value : num; tr_provenance : Provenance }.

Record ItemEvidence := mkItemEvidence {
  ie_windowStart : Z; ie_windowEnd : Z; ie_readingsUsed : Z; ie_provenance : list string; ie_decisionReading : num;
  ie_threshold : num; ie_triggerConfirmedAt : option Z; ie_reason : string }.

Record ReevaluationItem := mkItem {
  ri_recordId : string; ri_policyId : string; ri_holder : string; ri_coverageType : Z; ri_before : AdjudicationOutcome;
  ri_trustStateAtDecision : FeedTrustState; ri_after : CorrectedOutcome; ri_action : ReevaluationAction;
  ri_changed : bool; ri_payoutDelta : Z; ri_evidence : ItemEvidence }.

Record PlanInput := mkPlanInput {
  pi_feedId : string; pi_degradedSince : Z; pi_restoredAt : Z; pi_records : list AdjudicationRecord;
  pi_trustedReadings : list TrustedReading; pi_triggerConfigFor : Z -> TriggerStabilityConfig;
  pi_alreadyPaid : list string; pi_lookbackMs : Z; pi_confirmWindowMs : Z }.

Record PlanSummary := mkSummary {
  su_affected : Z; su_changed : Z; su_count : ReevaluationAction -> Z; su_netPayoutDelta : Z }.

Record ReevaluationPlan := mkPlan {
  pl_runId : string; pl_feedId : string; pl_degradedSince : Z; pl_restoredAt : Z; pl_items : list ReevaluationItem;
  pl_summary : PlanSummary }.

Definition provenanceText (p : Provenance) : string :=
  match p with PvQuorum => "quorum" | PvBackfill => "operator_backfill" end.

Section Planner.
Context `{JsHost}.
(** [Math.pow(2, x)], as in the trigger evaluator. *)
Variable pow2 : num -> num.

Definition recordLe (a b : AdjudicationRecord) : bool :=
  if ad_decidedAt a <? ad_decidedAt b then true
  else if ad_decidedAt b <? ad_decidedAt a then false
  else localeLe (ad_id a) (ad_id b).

Definition readingLe (a b : TrustedReading) : bool :=
  if tr_observedAt a <? tr_observedAt b then true
  else if tr_observedAt b <? tr_observedAt a then false
  else
    let d := (tr_value a - tr_value b)%float in
    if nlt d 0 then true else if nlt 0 d then false
    else localeLe (provenanceText (tr_provenance a)) (provenanceText (tr_provenance b)).

(** The replay of a window through a fresh evaluator: the first confirmation. *)
Fixpoint replayWindow (config : TriggerStabilityConfig) (rec : AdjudicationRecord) (window : list TrustedReading)
    (states : list (string * TriggerKeyState)) (confirmedAt : option Z) : res string (option Z) :=
  match window with
  | [] => Ok confirmedAt
  | r :: window' =>
      d ← evaluate pow2 numToString (fun _ => config) states (ad_id rec)
            (mkObs (tr_value r) (ad_threshold rec) (ad_direction rec) (tr_observedAt r));
      let '(decision, states', _) := d in
      replayWindow config rec window' states'
        (match confirmedAt with
         | None => if td_triggered decision then td_confirmedAt decision else None
         | Some t => Some t
         end)
  end.

Definition decideAction (rec : AdjudicationRecord) (after : CorrectedOutcome) (paid : list string) : ReevaluationAction * Z :=
  match after with
  | CoInsufficientData => (ActManualReview, 0)
  | _ =>
      if bool_decide (ad_outcome rec = AoSettled) then
        match after with CoTriggered => (ActNoChange, 0) | _ => (ActFlagOverpayment, 0 - ad_paid rec) end
      else
        match after with
        | CoTriggered =>
            if bool_decide (ad_policyId rec ∈ paid) then (ActSuperseded, 0) else (ActSettle, ad_coverageAmount rec)
        | _ => if bool_decide (ad_outcome rec = AoHeld) then (ActRelease, 0) else (ActNoChange, 0)
        end
  end.

(** The evidence window of a record, and what replaying it shows. *)
Definition windowBounds (input : PlanInput) (rec : AdjudicationRecord) : Z * Z :=
  (ad_decidedAt rec - pi_lookbackMs input, Z.min (pi_restoredAt input + pi_confirmWindowMs input) (ad_expiresAt rec)).

Definition windowOf (input : PlanInput) (readings : list TrustedReading) (rec : AdjudicationRecord) : list TrustedReading :=
  let '(windowStart, windowEnd) := windowBounds input rec in
  filter (fun r => windowStart <= tr_observedAt r <= windowEnd) readings.

Definition correctedOutcome (input : PlanInput) (readings : list TrustedReading) (rec : AdjudicationRecord) :
    res string (CorrectedOutcome * option Z * string) :=
  match windowOf input readings rec with
  | [] => Ok (CoInsufficientData, None, "no trusted readings in evidence window")
  | window =>
      confirmed ← replayWindow (pi_triggerConfigFor input (ad_coverageType rec)) rec window [] None;
      match confirmed with
      | Some t => iso ← toISOString t; Ok (CoTriggered, Some t, "trigger confirmed on trusted data at " +:+ iso)
      | None => Ok (CoNotTriggered, None,
                    "trigger never confirmed across " +:+ showZ (Z.of_nat (length window)) +:+ " trusted reading(s)")
      end
  end.

Definition planItem (input : PlanInput) (readings : list TrustedReading) (rec : AdjudicationRecord) (paid : list string) :
    res string ReevaluationItem :=
  r ← correctedOutcome input readings rec;
  let '(after, confirmedAt, reason) := r in
  let '(action, payoutDelta) := decideAction rec after paid in
  let '(windowStart, windowEnd) := windowBounds input rec in
  let window := windowOf input readings rec in
  Ok (mkItem (ad_id rec) (ad_policyId rec) (ad_holder rec) (ad_coverageType rec) (ad_outcome rec) (ad_trustState rec)
        after action (bool_decide (action ≠ ActNoChange)) payoutDelta
        (mkItemEvidence windowStart windowEnd (Z.of_nat (length window))
           (sort_strings (map provenanceText (remove_dups (map tr_provenance window))))
           (ad_readingValue rec) (ad_threshold rec) confirmedAt reason)).

(** [records.map], threading the set of paid policies. *)
Fixpoint planItems (input : PlanInput) (readings : list TrustedReading) (records : list AdjudicationRecord) (paid : list string) :
    res string (list ReevaluationItem) :=
  match records with
  | [] => Ok []
  | rec :: records' =>
      item ← planItem input readings rec paid;
      items ← planItems input readings records'
                (if bool_decide (ri_action item = ActSettle) then ad_policyId rec :: paid else paid);
      Ok (item :: items)
  end.

Definition planRecords (input : PlanInput) : list AdjudicationRecord := sort_by recordLe (pi_records input).
Definition planReadings (input : PlanInput) : list TrustedReading :=
  sort_by readingLe (filter (fun r => isFinite (tr_value r) = true) (pi_trustedReadings input)).
Definition paidBefore (input : PlanInput) : list string :=
  pi_alreadyPaid input ++ map ad_policyId (filter (fun r => ad_outcome r = AoSettled) (planRecords input)).

Definition summarisePlan (items : list ReevaluationItem) : PlanSummary :=
  mkSummary (Z.of_nat (length items)) (Z.of_nat (length (filter (fun i => ri_changed i = true) items)))
    (fun a => Z.of_nat (length (filter (fun i => ri_action i = a) items)))
    (foldl (fun sum i => sum + ri_payoutDelta i) 0 items).

Definition planRunId (input : PlanInput) : string :=
  "reeval_" +:+ sliceTo 24 (sha256Hex (default "" (stringify (JObj
    [("feedId", JStr (pi_feedId input)); ("degradedSince", JNum (num_of_Z (pi_degradedSince input)));
     ("restoredAt", JNum (num_of_Z (pi_restoredAt input)));
     ("records", JArr (map (fun r => JStr (ad_id r)) (planRecords input)));
     ("readings", JArr (map (fun r => JArr [JNum (num_of_Z (tr_observedAt r)); JNum (tr_value r);
                                             JStr (provenanceText (tr_provenance r))]) (planReadings input)))])))).

Definition planReevaluation (input : PlanInput) : res string ReevaluationPlan :=
  items ← planItems input (planReadings input) (planRecords input) (paidBefore input);
  Ok (mkPlan (planRunId input) (pi_feedId input) (pi_degradedSince input) (pi_restoredAt input) items (summarisePlan items)).
End Planner.

(** * The adjudication ledger *)

Record AdjudicationLedger := mkAdjLedger {
  al_records : list (string * AdjudicationRecord); al_latestByPolicy : list (string * string); al_paidPolicies : list string }.

(** A record that repeats the policy's previous, not yet re-evaluated decision. *)
Definition repeats (l : AdjudicationLedger) (rec : AdjudicationRecord) : bool :=
  match jm_get (al_latestByPolicy l) (ad_policyId rec) ≫= jm_get (al_records l) with
  | Some prev =>
      bool_decide (ad_reevaluatedBy prev = None) && bool_decide (ad_outcome prev = ad_outcome rec) &&
      bool_decide (ad_feedId prev = ad_feedId rec) && bool_decide (ad_trustState prev = ad_trustState rec) &&
      bool_decide (ad_outcome rec ≠ AoSettled)
  | None => false
  end.

Definition record (rec : AdjudicationRecord) (l : AdjudicationLedger) : bool * AdjudicationLedger :=
  let l1 := if bool_decide (ad_outcome rec = AoSettled)
            then mkAdjLedger (al_records l) (al_latestByPolicy l) (addToSet (ad_policyId rec) (al_paidPolicies l)) else l in
  if repeats l1 rec then (false, l1)
  else if jm_has (al_records l1) (ad_id rec) then (false, l1)
  else (true, mkAdjLedger (jm_set (al_records l1) (ad_id rec) rec) (jm_set (al_latestByPolicy l1) (ad_policyId rec) (ad_id rec))
                (al_paidPolicies l1)).

Definition pending (feedId : string) (l : AdjudicationLedger) : list AdjudicationRecord :=
  filter (fun r => ad_feedId r = feedId ∧ ad_reevaluatedBy r = None) (jm_values (al_records l)).

Definition takenBy (runId : string) (r : AdjudicationRecord) : AdjudicationRecord :=
  match ad_reevaluatedBy r with
  | Some _ => r
  | None => mkRecord (ad_id r) (ad_policyId r) (ad_holder r) (ad_coverageType r) (ad_feedId r) (ad_outcome r) (ad_trustState r)
              (ad_decidedAt r) (ad_readingValue r) (ad_threshold r) (ad_direction r) (ad_coverageAmount r) (ad_paid r)
              (ad_expiresAt r) (ad_settlementTxHash r) (Some runId)
  end.

Definition markReevaluated (recordIds : list string) (runId : string) (l : AdjudicationLedger) : AdjudicationLedger :=
  mkAdjLedger
    (foldl (fun recs id => match jm_get recs id with Some r => jm_set recs id (takenBy runId r) | None => recs end)
       (al_records l) recordIds)
    (al_latestByPolicy l) (al_paidPolicies l).

Definition markPolicyPaid (policyId : string) (l : AdjudicationLedger) : AdjudicationLedger :=
  mkAdjLedger (al_records l) (al_latestByPolicy l) (addToSet policyId (al_paidPolicies l)).

Definition isPaid (policyId : string) (l : AdjudicationLedger) : bool := bool_decide (policyId ∈ al_paidPolicies l).

(** * Trusted readings per feed *)

Abbreviation ReadingHistory := (list (string * list TrustedReading)).

Definition addReading (retentionMs : Z) (feedId : string) (reading : TrustedReading) (h : ReadingHistory) : ReadingHistory :=
  let list := default [] (jm_get h feedId) in
  if existsb (fun r => (tr_observedAt r =? tr_observedAt reading) && bool_decide (tr_provenance r = tr_provenance reading)) list
  then h
  else
    let cutoff := tr_observedAt reading - retentionMs in
    jm_set h feedId (sort_by (fun a b => tr_observedAt a <=? tr_observedAt b)
                       (filter (fun r => cutoff <= tr_observedAt r) (list ++ [reading]))).

Definition recordVerdict (retentionMs : Z) (v : QuorumVerdict) (h : ReadingHistory) : ReadingHistory :=
  match qv_trust v, qv_value v with
  | FtTrusted, Some value => addReading retentionMs (qv_feedId v) (mkTrusted (qv_evaluatedAt v) value PvQuorum) h
  | _, _ => h
  end.

Definition between (feedId : string) (from to : Z) (h : ReadingHistory) : list TrustedReading :=
  filter (fun r => from <= tr_observedAt r <= to) (default [] (jm_get h feedId)).

(** * The service *)

Inductive ItemStatus := ItPending | ItDone | ItFailed | ItFlagged | ItReversalApproved.
Inductive RunStatus := RunPlanned | RunApplying | RunApplied | RunPartiallyApplied.
Inductive AuditEvent := AePlanned | AeApplyStarted | AeItemSettled | AeItemFailed | AeItemSkipped | AeReversalApproved.
#[global] Instance ItemStatus_eq_dec : EqDecision ItemStatus. Proof. solve_decision. Defined.
#[global] Instance RunStatus_eq_dec : EqDecision RunStatus. Proof. solve_decision. Defined.

Record RunAuditEntry := mkAuditEntry {
  au_at : Z; au_actor : string; au_event : AuditEvent; au_recordId : option string; au_detail : option string }.

Record ItemState := mkItemState { is_status : ItemStatus; is_txHash : option string; is_error : option string }.

Record ReevaluationRun := mkRun {
  rr_plan : ReevaluationPlan; rr_status : RunStatus; rr_createdAt : Z; rr_appliedAt : option Z; rr_appliedBy : option string;
  rr_itemStatus : list (string * ItemState); rr_audit : list RunAuditEntry }.

Record ReevalConfig := mkReevalConfig {
  rc_lookbackMs : Z; rc_confirmWindowMs : Z; rc_triggerConfigFor : Z -> TriggerStabilityConfig }.

Definition DEFAULT_APPLY_BATCH : Z := 50.
Definition DEFAULT_RETENTION_MS : Z := 14 * 24 * 60 * 60000.
Definition DEFAULT_REEVALUATION_CONFIG : ReevalConfig :=
  mkReevalConfig (15 * 60000) (30 * 60000) (fun c => defaultTriggerConfig c (mkOverrides None None None None)).

Record ReevalState := mkReeval {
  rv_ledger : AdjudicationLedger; rv_history : ReadingHistory; rv_degradedSince : list (string * Z);
  rv_runs : list (string * ReevaluationRun); rv_payments : list string }.

Definition initialReeval : ReevalState := mkReeval (mkAdjLedger [] [] []) [] [] [] [].

Definition setLedgerR (l : AdjudicationLedger) (s : ReevalState) : ReevalState :=
  mkReeval l (rv_history s) (rv_degradedSince s) (rv_runs s) (rv_payments s).
Definition setHistoryR (h : ReadingHistory) (s : ReevalState) : ReevalState :=
  mkReeval (rv_ledger s) h (rv_degradedSince s) (rv_runs s) (rv_payments s).
Definition setDegraded (d : list (string * Z)) (s : ReevalState) : ReevalState :=
  mkReeval (rv_ledger s) (rv_history s) d (rv_runs s) (rv_payments s).
Definition setRun (run : ReevaluationRun) (s : ReevalState) : ReevalState :=
  mkReeval (rv_ledger s) (rv_history s) (rv_degradedSince s) (jm_set (rv_runs s) (pl_runId (rr_plan run)) run) (rv_payments s).
Definition addPayment (policyId : string) (s : ReevalState) : ReevalState :=
  mkReeval (rv_ledger s) (rv_history s) (rv_degradedSince s) (rv_runs s) (rv_payments s ++ [policyId]).

(** [run.itemStatus[recordId] = st] and [audit(run, entry)]. *)
Definition withItem (recordId : string) (st : ItemState) (run : ReevaluationRun) : ReevaluationRun :=
  mkRun (rr_plan run) (rr_status run) (rr_createdAt run) (rr_appliedAt run) (rr_appliedBy run)
    (jm_set (rr_itemStatus run) recordId st) (rr_audit run).
Definition withAudit (e : RunAuditEntry) (run : ReevaluationRun) : ReevaluationRun :=
  mkRun (rr_plan run) (rr_status run) (rr_createdAt run) (rr_appliedAt run) (rr_appliedBy run)
    (rr_itemStatus run) (rr_audit run ++ [e]).
Definition withRunStatus (st : RunStatus) (run : ReevaluationRun) : ReevaluationRun :=
  mkRun (rr_plan run) st (rr_createdAt run) (rr_appliedAt run) (rr_appliedBy run) (rr_itemStatus run) (rr_audit run).

Section Service.
Context `{JsHost}.
Variable pow2 : num -> num.
Variable config : ReevalConfig.
Variable retentionMs : Z.

Definition onVerdict (v : QuorumVerdict) (s : ReevalState) : ReevalState :=
  setHistoryR (recordVerdict retentionMs v (rv_history s)) s.

Definition minimumZ (l : list Z) : option Z := match l with [] => None | x :: l' => Some (foldl Z.min x l') end.

Definition buildInput (feedId : string) (restoredAt : Z) (backfill : list (Z * num)) (trackedSince : option Z) (earliest : Z)
    (s : ReevalState) : PlanInput :=
  let degradedSince := Z.min (default earliest trackedSince) earliest in
  let from := degradedSince - rc_lookbackMs config in
  let to := restoredAt + rc_confirmWindowMs config in
  mkPlanInput feedId degradedSince restoredAt (pending feedId (rv_ledger s))
    (between feedId from to (rv_history s) ++ map (fun b => mkTrusted b.1 b.2 PvBackfill) backfill)
    (rc_triggerConfigFor config) (al_paidPolicies (rv_ledger s)) (rc_lookbackMs config) (rc_confirmWindowMs config).

Definition newRun (plan : ReevaluationPlan) (now : Z) : ReevaluationRun :=
  mkRun plan RunPlanned now None None
    (foldl (fun m i => jm_set m (ri_recordId i) (mkItemState ItPending None None)) [] (pl_items plan))
    [mkAuditEntry now "system" AePlanned None
       (Some (showZ (su_affected (pl_summary plan)) +:+ " affected, " +:+ showZ (su_changed (pl_summary plan)) +:+ " changed"))].

(** The id of the planned (or existing) run, [None] without pending records. *)
Definition buildRun (feedId : string) (restoredAt now : Z) (backfill : list (Z * num)) (trackedSince : option Z) (s : ReevalState) :
    res string (option string) * ReevalState :=
  let records := pending feedId (rv_ledger s) in
  match minimumZ (map ad_decidedAt records) with
  | None => (Ok None, s)
  | Some earliest =>
      match planReevaluation pow2 (buildInput feedId restoredAt backfill trackedSince earliest s) with
      | Err e => (Err e, s)
      | Ok plan =>
          if jm_has (rv_runs s) (pl_runId plan) then (Ok (Some (pl_runId plan)), s)
          else
            let s1 := setRun (newRun plan now) s in
            (Ok (Some (pl_runId plan)),
             setLedgerR (markReevaluated (map ad_id records) (pl_runId plan) (rv_ledger s1)) s1)
      end
  end.

Definition onTrustTransition (feedId : string) (to : FeedTrustState) (at_ : Z) (s : ReevalState) :
    res string (option string) * ReevalState :=
  if bool_decide (to ≠ FtTrusted) then
    (Ok None, if jm_has (rv_degradedSince s) feedId then s else setDegraded (jm_set (rv_degradedSince s) feedId at_) s)
  else
    let since := jm_get (rv_degradedSince s) feedId in
    let s1 := setDegraded (jm_delete (rv_degradedSince s) feedId) s in
    if bool_decide (since = None) && (length (pending feedId (rv_ledger s1)) =? 0)%nat then (Ok None, s1)
    else buildRun feedId at_ at_ [] since s1.

Definition plan (feedId : string) (restoredAt now : Z) (backfill : list (Z * num)) (s : ReevalState) :
    res string (option string) * ReevalState :=
  if jm_has (rv_degradedSince s) feedId
  then (Err ("Feed " +:+ feedId +:+ " is still untrusted; re-evaluation waits for trust to be restored"), s)
  else buildRun feedId restoredAt now backfill None s.

Definition approveReversal (runId recordId actor note : string) (now : Z) (s : ReevalState) : res string unit * ReevalState :=
  match jm_get (rv_runs s) runId with
  | None => (Err ("Unknown re-evaluation run " +:+ runId), s)
  | Some run =>
      match List.find (fun i => bool_decide (ri_recordId i = recordId)) (pl_items (rr_plan run)), jm_get (rr_itemStatus run) recordId with
      | Some item, Some state =>
          if bool_decide (ri_action item ≠ ActFlagOverpayment)
          then (Err ("Record " +:+ recordId +:+ " is not a flagged overpayment in " +:+ runId), s)
          else if bool_decide (is_status state = ItReversalApproved) then (Ok tt, s)
          else (Ok tt, setRun (withAudit (mkAuditEntry now actor AeReversalApproved (Some recordId) (Some note))
                                (withItem recordId (mkItemState ItReversalApproved (is_txHash state) (is_error state)) run)) s)
      | _, _ => (Err ("Record " +:+ recordId +:+ " is not a flagged overpayment in " +:+ runId), s)
      end
  end.

(** ** Applying a run *)

(** What the executor answers: confirmed, not confirmed, or thrown. *)
Inductive SettleAnswer := Confirmed (tx : option string) | NotConfirmed (error : option string) | Threw (message : string).

(** A call of [apply] in progress. *)
Record ApplyTask := mkTask { tk_runId : string; tk_actor : string; tk_now : Z; tk_maxItems : Z; tk_processed : Z; tk_todo : list ReevaluationItem }.

Definition applyStart (runId actor : string) (now maxItems : Z) (s : ReevalState) : res string ApplyTask * ReevalState :=
  match jm_get (rv_runs s) runId with
  | None => (Err ("Unknown re-evaluation run " +:+ runId), s)
  | Some run =>
      if bool_decide (rr_status run = RunApplying) then (Err ("Re-evaluation run " +:+ runId +:+ " is already being applied"), s)
      else if maxItems <? 1 then (Err "maxItems must be a positive integer", s)
      else (Ok (mkTask runId actor now maxItems 0 (pl_items (rr_plan run))),
            setRun (withAudit (mkAuditEntry now actor AeApplyStarted None (Some ("batch " +:+ showZ maxItems)))
                      (withRunStatus RunApplying run)) s)
  end.

(** The [finally] block. *)
Definition finishRun (now : Z) (actor : string) (run : ReevaluationRun) : ReevaluationRun :=
  let open_ := existsb (fun st => bool_decide (is_status st = ItFailed ∨ is_status st = ItPending)) (jm_values (rr_itemStatus run)) in
  mkRun (rr_plan run) (if open_ then RunPartiallyApplied else RunApplied) (rr_createdAt run) (Some now) (Some actor)
    (rr_itemStatus run) (rr_audit run).

Definition onRun (runId : string) (f : ReevaluationRun -> ReevaluationRun) (s : ReevalState) : ReevalState :=
  match jm_get (rv_runs s) runId with Some run => setRun (f run) s | None => s end.

Definition itemStateOf (runId recordId : string) (s : ReevalState) : ItemState :=
  match jm_get (rv_runs s) runId ≫= (fun run => jm_get (rr_itemStatus run) recordId) with
  | Some st => st
  | None => mkItemState ItPending None None
  end.

(** The end of an item: its state, and an audit entry for settlements. *)
Definition closeItem (task : ApplyTask) (item : ReevaluationItem) (st : ItemState) (s : ReevalState) : ReevalState :=
  let event := if bool_decide (is_status st = ItFailed) then AeItemFailed
               else match is_error st with Some e => if bool_decide (e = "") then AeItemSettled else AeItemSkipped | None => AeItemSettled end in
  onRun (tk_runId task) (fun run =>
    let run1 := withItem (ri_recordId item) st run in
    if bool_decide (ri_action item = ActSettle)
    then withAudit (mkAuditEntry (tk_now task) (tk_actor task) event (Some (ri_recordId item))
                      (match is_txHash st with Some tx => Some tx | None => is_error st end)) run1
    else run1) s.

(** [applyItem] up to its [await]: a final item state, or a call to the executor. *)
Definition beforeSettle (item : ReevaluationItem) (st : ItemState) (s : ReevalState) : option ItemState :=
  match ri_action item with
  | ActFlagOverpayment | ActManualReview => Some (mkItemState ItFlagged (is_txHash st) (is_error st))
  | ActSettle =>
      if isPaid (ri_policyId item) (rv_ledger s)
      then Some (mkItemState ItDone (is_txHash st) (Some "policy already paid; skipped to avoid a double payout"))
      else None
  | _ => Some (mkItemState ItDone (is_txHash st) (is_error st))
  end.

(** [applyItem] after its [await]. *)
Definition afterSettle (task : ApplyTask) (item : ReevaluationItem) (answer : SettleAnswer) (s : ReevalState) : ReevalState :=
  let st := itemStateOf (tk_runId task) (ri_recordId item) s in
  match answer with
  | Confirmed tx =>
      let s1 := setLedgerR (markPolicyPaid (ri_policyId item) (rv_ledger s)) (addPayment (ri_policyId item) s) in
      closeItem task item (mkItemState ItDone tx None) s1
  | NotConfirmed error => closeItem task item (mkItemState ItFailed (is_txHash st) (Some (default "settlement did not confirm" error))) s
  | Threw message => closeItem task item (mkItemState ItFailed (is_txHash st) (Some message)) s
  end.

(** The loop up to the next [await]: the item being settled and the rest of the
    call, or [None] when the loop has ended. *)
Fixpoint advanceItems (task : ApplyTask) (todo : list ReevaluationItem) (processed : Z) (s : ReevalState) :
    option (ReevaluationItem * ApplyTask) * ReevalState :=
  match todo with
  | [] => (None, onRun (tk_runId task) (finishRun (tk_now task) (tk_actor task)) s)
  | item :: rest =>
      let st := itemStateOf (tk_runId task) (ri_recordId item) s in
      if negb (bool_decide (is_status st = ItPending ∨ is_status st = ItFailed)) then advanceItems task rest processed s
      else if tk_maxItems task <=? processed then (None, onRun (tk_runId task) (finishRun (tk_now task) (tk_actor task)) s)
      else
        match beforeSettle item st s with
        | Some st' => advanceItems task rest (processed + 1) (closeItem task item st' s)
        | None => (Some (item, mkTask (tk_runId task) (tk_actor task) (tk_now task) (tk_maxItems task) (processed + 1) rest), s)
        end
  end.

(** The rest of a call run to its end, the executor answering per record. *)
Fixpoint applyItems (executor : string -> SettleAnswer) (task : ApplyTask) (todo : list ReevaluationItem) (processed : Z) (s : ReevalState) :
    ReevalState :=
  match todo with
  | [] => onRun (tk_runId task) (finishRun (tk_now task) (tk_actor task)) s
  | item :: rest =>
      let st := itemStateOf (tk_runId task) (ri_recordId item) s in
      if negb (bool_decide (is_status st = ItPending ∨ is_status st = ItFailed)) then applyItems executor task rest processed s
      else if tk_maxItems task <=? processed then onRun (tk_runId task) (finishRun (tk_now task) (tk_actor task)) s
      else
        match beforeSettle item st s with
        | Some st' => applyItems executor task rest (processed + 1) (closeItem task item st' s)
        | None => applyItems executor task rest (processed + 1) (afterSettle task item (executor (ri_recordId item)) s)
        end
  end.

Definition apply (runId actor : string) (now maxItems : Z) (executor : string -> SettleAnswer) (s : ReevalState) :
    res string unit * ReevalState :=
  let '(r, s1) := applyStart runId actor now maxItems s in
  match r with
  | Err e => (Err e, s1)
  | Ok task => (Ok tt, applyItems executor task (tk_todo task) 0 s1)
  end.

Definition listRuns (s : ReevalState) : list ReevaluationRun :=
  sort_by (fun a b => if rr_createdAt b <? rr_createdAt a then true else if rr_createdAt a <? rr_createdAt b then false
                      else localeLe (pl_runId (rr_plan a)) (pl_runId (rr_plan b))) (jm_values (rv_runs s)).
End Service.

(** * Planner lemmas *)

Section PlannerLemmas.
Context `{JsHost}.
Variable pow2 : num -> num.

(** Every confirmation time kept in the states satisfies [P]. *)
Definition confirmedIn (P : Z -> Prop) (states : list (string * TriggerKeyState)) : Prop :=
  forall k st t, jm_get states k = Some st -> ks_confirmedAt st = Some t -> P t.

Lemma advance_confirmed numText cfg s obs t :
  ks_confirmedAt (advance numText cfg s obs).1.1 = Some t -> ks_confirmedAt s = Some t ∨ t = ob_observedAt obs.
Proof.
  unfold advance, advanceOff, advanceOn, candidate, withPhase. intros Hc.
  repeat (case_match; simpl in Hc; simplify_eq/=); auto.
Qed.

Lemma evaluate_confirmed cfg states key obs d states' ev (P : Z -> Prop) :
  evaluate pow2 numToString cfg states key obs = Ok (d, states', ev) ->
  confirmedIn P states -> P (ob_observedAt obs) ->
  confirmedIn P states' ∧ forall t, td_confirmedAt d = Some t -> P t.
Proof.
  unfold evaluate. intros He Hs Hp. destruct (validateTriggerConfig _); [|done]. simpl in He.
  destruct (guard_res _ _); [|done]. simpl in He.
  assert (forall t, ks_confirmedAt (default initialState (jm_get states key)) = Some t -> P t) as Hprev.
  { intros t. destruct (jm_get states key) as [st|] eqn:E; simpl; [by eapply Hs|done]. }
  destruct (match ks_lastObservedAt _ with Some _ => _ | None => _ end).
  { injection He as <- <- <-. split; [done|]. simpl. intros t. case_match; [apply Hprev|done]. }
  destruct (advance _ _ _ _) as [[s sup] reason] eqn:Ea. injection He as <- <- <-.
  assert (forall t, ks_confirmedAt s = Some t -> P t) as Hnew.
  { intros t Ht. pose proof (advance_confirmed numToString (cfg key)
      (damp pow2 (cfg key) (default initialState (jm_get states key)) obs) obs t) as Hadv.
    rewrite Ea in Hadv. destruct (Hadv Ht) as [Hd| ->]; [|done]. apply Hprev. exact Hd. }
  split; [|simpl; intros t; case_match; [apply Hnew|done]].
  intros k st t. rewrite jm_get_set. case_decide; [intros [= <-]; apply Hnew|apply Hs].
Qed.

Lemma replayWindow_confirmed cfg rec window (P : Z -> Prop) : forall states acc t,
  Forall (fun r => P (tr_observedAt r)) window -> confirmedIn P states -> (forall t, acc = Some t -> P t) ->
  replayWindow pow2 cfg rec window states acc = Ok (Some t) -> P t.
Proof.
  induction window as [|r window IH]; intros states acc t Hw Hs Ha; simpl; [intros [= ->]; auto|].
  apply Forall_cons in Hw as [Hr Hw]. destruct (evaluate _ _ _ _ _ _) as [[[d states'] ev]|] eqn:E; [|done]. simpl.
  destruct (evaluate_confirmed _ _ _ _ _ _ _ P E Hs Hr) as [Hs' Hd].
  apply IH; [done..|]. intros t'. destruct acc; [apply Ha|]. destruct (td_triggered d); [apply Hd|done].
Qed.

(** A corrected outcome of "triggered" was confirmed inside the record's window. *)
Lemma correctedOutcome_triggered input readings rec after t reason :
  correctedOutcome pow2 input readings rec = Ok (after, Some t, reason) ->
  after = CoTriggered ∧ (windowBounds input rec).1 <= t <= (windowBounds input rec).2.
Proof.
  unfold correctedOutcome. destruct (windowOf input readings rec) as [|r w] eqn:Ew; [done|]. rewrite <- Ew.
  destruct (replayWindow _ _ _ _ _ _) as [[t'|]|] eqn:Er; simpl; [|done..].
  destruct (toISOString t'); [|done]. simpl. intros [= <- <- <-]. split; [done|].
  eapply (replayWindow_confirmed _ _ _ (fun t => (windowBounds input rec).1 <= t <= (windowBounds input rec).2) [] None);
    [|done|done|exact Er].
  apply Forall_forall. intros r' Hr'. unfold windowOf in Hr'. destruct (windowBounds input rec) as [lo hi].
  by apply list_elem_of_filter in Hr' as [? _].
Qed.

Lemma correctedOutcome_confirmed input readings rec after c reason :
  correctedOutcome pow2 input readings rec = Ok (after, c, reason) -> after = CoTriggered -> is_Some c.
Proof.
  unfold correctedOutcome. case_match; [by intros [= <- _ _]|].
  destruct (replayWindow _ _ _ _ _ _) as [[t'|]|]; simpl; [|by intros [= <- _ _]|done].
  destruct (toISOString t'); [|done]. simpl. intros [= <- <- <-]. eauto.
Qed.

(** What an item says of its record. *)
Record plannedFor (input : PlanInput) (paid : list string) (rec : AdjudicationRecord) (i : ReevaluationItem) : Prop := {
  pf_ids : ri_recordId i = ad_id rec ∧ ri_policyId i = ad_policyId rec ∧ ri_before i = ad_outcome rec;
  pf_settle : ri_action i = ActSettle ->
    (ad_policyId rec ∉ paid) ∧ ad_outcome rec ≠ AoSettled ∧ ri_after i = CoTriggered ∧ ri_payoutDelta i = ad_coverageAmount rec ∧
    ∃ t, ie_triggerConfirmedAt (ri_evidence i) = Some t ∧ ad_decidedAt rec - pi_lookbackMs input <= t <= ad_expiresAt rec;
  pf_flag : ri_action i = ActFlagOverpayment ->
    ad_outcome rec = AoSettled ∧ ri_after i = CoNotTriggered ∧ ri_payoutDelta i = - ad_paid rec;
  pf_other : ri_action i ≠ ActSettle -> ri_action i ≠ ActFlagOverpayment -> ri_payoutDelta i = 0 }.

Lemma planItem_spec input readings rec paid i : planItem pow2 input readings rec paid = Ok i -> plannedFor input paid rec i.
Proof.
  unfold planItem. destruct (correctedOutcome _ _ _ _) as [[[after c] reason]|] eqn:Ec; [|done]. simpl.
  destruct (decideAction rec after paid) as [action delta] eqn:Ed. intros [= <-].
  assert (after = CoTriggered -> ∃ t, c = Some t ∧ ad_decidedAt rec - pi_lookbackMs input <= t <= ad_expiresAt rec) as Ht.
  { intros Ha. destruct (correctedOutcome_confirmed _ _ _ _ _ _ Ec Ha) as [t ->]. exists t. split; [done|].
    apply correctedOutcome_triggered in Ec as [_ Hb]. simpl in Hb. lia. }
  unfold decideAction in Ed.
  split; simpl; [done|..]; destruct after; repeat case_bool_decide; simplify_eq/=; intros; try done; split_and!; auto; lia.
Qed.

Definition settleItems (items : list ReevaluationItem) : list ReevaluationItem := filter (fun i => ri_action i = ActSettle) items.

Lemma planItems_spec input readings recs : forall paid items,
  planItems pow2 input readings recs paid = Ok items ->
  Forall2 (plannedFor input paid) recs items ∧ NoDup (map ri_policyId (settleItems items)).
Proof.
  unfold settleItems. induction recs as [|rec recs IH]; intros paid items; simpl; [intros [= <-]; by repeat constructor|].
  destruct (planItem _ _ _ _ _) as [i|] eqn:Ei; [|done]. simpl. apply planItem_spec in Ei.
  set (paid' := if bool_decide _ then _ else _).
  destruct (planItems _ _ _ _ _) as [its|] eqn:E; [|done]. simpl. intros [= <-].
  destruct (IH paid' its E) as [Hf Hn].
  assert (forall p, p ∈ paid -> p ∈ paid') as Hsub by (intros p Hp; unfold paid'; case_bool_decide; [by right|done]).
  split.
  - constructor; [done|]. eapply Forall2_impl; [exact Hf|]. intros r j [Hi Hs Hfl Ho]. split; [done| |done..].
    intros Ha. destruct (Hs Ha) as (Hp & ? & ?). split; [|done]. intros Hin. by apply Hp, Hsub.
  - rewrite filter_cons. case_decide as Ha; [|done]. cbn [map]. apply NoDup_cons. split; [|done].
    intros (j & Hj & Hjin)%list_elem_of_fmap. apply list_elem_of_filter in Hjin as [Hja Hjin].
    apply list_elem_of_lookup in Hjin as [n Hjn]. destruct (Forall2_lookup_r _ _ _ _ _ Hf Hjn) as (r & _ & [Hid Hs _ _]).
    destruct (Hs Hja) as [Hnp _]. apply Hnp. unfold paid'. rewrite bool_decide_eq_true_2 by done.
    destruct (pf_ids _ _ _ _ Ei) as (_ & Hi & _), Hid as (_ & Hr & _). rewrite <- Hr, <- Hi, Hj. by left.
Qed.

Lemma foldl_sum_delta items : forall z,
  foldl (fun sum i => sum + ri_payoutDelta i) z items = z + sumZ (map ri_payoutDelta items).
Proof. induction items as [|i items IH]; intros z; simpl; [lia|]. rewrite IH. unfold sumZ. simpl. lia. Qed.

(** A re-evaluation plan covers every record once, settles a policy at most
    once, and settles only what it should: a record that was held or skipped,
    whose policy neither was paid before nor has a settled record in the run,
    and whose trigger was confirmed by trusted readings between the lookback and
    the policy's expiry, for exactly its coverage amount; an overpayment is
    flagged only for a settled record whose trigger was not confirmed, for the
    amount paid; the net delta is the sum of these. *)
Theorem plan_settles_once (input : PlanInput) (pln : ReevaluationPlan) (Hp : planReevaluation pow2 input = Ok pln) :
  map ri_recordId (pl_items pln) ≡ₚ map ad_id (pi_records input) ∧
  NoDup (map ri_policyId (settleItems (pl_items pln))) ∧
  su_netPayoutDelta (pl_summary pln) = sumZ (map ri_payoutDelta (pl_items pln)) ∧
  (forall i, i ∈ pl_items pln -> ∃ rec, rec ∈ pi_records input ∧ plannedFor input (paidBefore input) rec i) ∧
  (forall i rec, i ∈ settleItems (pl_items pln) -> rec ∈ pi_records input -> ad_outcome rec = AoSettled ->
     ad_policyId rec ≠ ri_policyId i).
Proof.
  unfold planReevaluation in Hp. destruct (planItems _ _ _ _ _) as [items|] eqn:E; [|done]. injection Hp as <-.
  apply planItems_spec in E as [Hf Hn]. simpl.
  assert (forall i, i ∈ items -> ∃ rec, rec ∈ pi_records input ∧ plannedFor input (paidBefore input) rec i) as Hall.
  { intros i [n Hin]%list_elem_of_lookup. destruct (Forall2_lookup_r _ _ _ _ _ Hf Hin) as (rec & Hr & Hpf).
    exists rec. split; [|done]. apply (elem_of_sort_by recordLe). by eapply list_elem_of_lookup_2. }
  split_and!; [|done| |done|].
  - rewrite <- (sort_by_perm recordLe (pi_records input)). fold (planRecords input).
    assert (map ri_recordId items = map ad_id (planRecords input)) as ->; [|done].
    clear -Hf. induction Hf as [|r i rs its [[Hi _] _ _ _] _ IH]; [done|]. cbn [map]. by rewrite Hi, IH.
  - by rewrite foldl_sum_delta.
  - intros i rec [Ha Hin]%list_elem_of_filter Hrec Ho Heq. destruct (Hall i Hin) as (r & _ & [Hid Hs _ _]).
    destruct (Hs Ha) as [Hnp _], Hid as (_ & Hpid & _). apply Hnp. unfold paidBefore.
    apply elem_of_app. right. apply list_elem_of_fmap. exists rec. split; [congruence|].
    apply list_elem_of_filter. split; [done|]. by apply (elem_of_sort_by recordLe).
Qed.
End PlannerLemmas.

(** * Histories of the service *)

Section Histories.
Context `{JsHost}.
Variable pow2 : num -> num.
Variable config : ReevalConfig.
Variable retentionMs : Z.

Inductive ReevalOp :=
| RoRecord (rec : AdjudicationRecord)
| RoVerdict (v : QuorumVerdict)
| RoTransition (feedId : string) (to : FeedTrustState) (at_ : Z)
| RoPlan (feedId : string) (restoredAt now : Z) (backfill : list (Z * num))
| RoApply (runId actor : string) (now maxItems : Z) (executor : string -> SettleAnswer)
| RoApproveReversal (runId recordId actor note : string) (now : Z).

Definition execReeval (s : ReevalState) (op : ReevalOp) : ReevalState :=
  match op with
  | RoRecord rec => setLedgerR (record rec (rv_ledger s)).2 s
  | RoVerdict v => onVerdict retentionMs v s
  | RoTransition feedId to at_ => (onTrustTransition pow2 config feedId to at_ s).2
  | RoPlan feedId restoredAt now backfill => (plan pow2 config feedId restoredAt now backfill s).2
  | RoApply runId actor now maxItems executor => (apply runId actor now maxItems executor s).2
  | RoApproveReversal runId recordId actor note now => (approveReversal runId recordId actor note now s).2
  end.

Definition runReeval (ops : list ReevalOp) (s : ReevalState) : ReevalState := foldl execReeval s ops.

(** [s'] follows [s]: paid policies stay paid, and the new payments are distinct
    and of policies that were not paid at [s] and are paid at [s']. *)
Record follows (s s' : ReevalState) : Prop := {
  fo_paid : forall p, p ∈ al_paidPolicies (rv_ledger s) -> p ∈ al_paidPolicies (rv_ledger s');
  fo_payments : ∃ new, rv_payments s' = rv_payments s ++ new ∧ NoDup new ∧
    Forall (fun p => (p ∉ al_paidPolicies (rv_ledger s)) ∧ p ∈ al_paidPolicies (rv_ledger s')) new }.

#[local] Instance follows_preorder : PreOrder follows.
Proof.
  split.
  - intros s. split; [done|]. exists []. rewrite app_nil_r. repeat constructor.
  - intros s1 s2 s3 [Hp12 (n12 & E12 & D12 & F12)] [Hp23 (n23 & E23 & D23 & F23)]. split; [auto|].
    exists (n12 ++ n23). rewrite E23, E12, app_assoc. rewrite Forall_forall in F12, F23. split_and!; [done| |].
    + apply NoDup_app. split_and!; [done| |done]. intros p Hp1 Hp2. destruct (F12 p Hp1), (F23 p Hp2). done.
    + apply Forall_forall. intros p [Hp|Hp]%elem_of_app; [destruct (F12 p Hp); auto|destruct (F23 p Hp); auto].
Qed.

(** Steps that do not pay. *)
Lemma follows_nopay s s' :
  (forall p, p ∈ al_paidPolicies (rv_ledger s) -> p ∈ al_paidPolicies (rv_ledger s')) -> rv_payments s' = rv_payments s -> follows s s'.
Proof. intros Hp He. split; [done|]. exists []. rewrite app_nil_r. repeat constructor. done. Qed.

Lemma onRun_follows runId f s : follows s (onRun runId f s).
Proof. unfold onRun. case_match; by apply follows_nopay. Qed.

Lemma closeItem_follows task item st s : follows s (closeItem task item st s).
Proof. apply onRun_follows. Qed.

Lemma afterSettle_follows task item answer s :
  isPaid (ri_policyId item) (rv_ledger s) = false -> follows s (afterSettle task item answer s).
Proof.
  intros Hn. unfold afterSettle. destruct answer; [|apply closeItem_follows..].
  etrans; [|apply closeItem_follows]. split; simpl; [intros p Hp; apply elem_of_addToSet; by right|].
  exists [ri_policyId item]. split_and!; [done|apply NoDup_singleton|]. constructor; [|constructor].
  unfold isPaid in Hn. apply bool_decide_eq_false in Hn. split; [done|]. apply elem_of_addToSet. by left.
Qed.

Lemma beforeSettle_None item st s : beforeSettle item st s = None -> isPaid (ri_policyId item) (rv_ledger s) = false.
Proof. unfold beforeSettle. repeat case_match; done. Qed.

Lemma applyItems_follows executor task todo : forall processed s, follows s (applyItems executor task todo processed s).
Proof.
  induction todo as [|item todo IH]; intros processed s; simpl; [apply onRun_follows|].
  destruct (negb _); [apply IH|]. destruct (_ <=? _); [apply onRun_follows|].
  destruct (beforeSettle _ _ _) eqn:Eb; (etrans; [|apply IH]); [apply closeItem_follows|].
  apply afterSettle_follows. by eapply beforeSettle_None.
Qed.

Lemma buildRun_follows feedId restoredAt now backfill since s : follows s (buildRun pow2 config feedId restoredAt now backfill since s).2.
Proof. unfold buildRun. repeat case_match; simpl; try done; by apply follows_nopay. Qed.

Lemma execReeval_follows s op : follows s (execReeval s op).
Proof.
  destruct op; simpl.
  - apply follows_nopay; [|done]. intros p Hp. unfold record. simpl.
    repeat case_match; simplify_eq/=; repeat case_bool_decide; simpl; rewrite ?elem_of_addToSet; auto.
  - by apply follows_nopay.
  - unfold onTrustTransition. case_bool_decide; simpl; [case_match; [done|by apply follows_nopay]|].
    case_match; simpl; [by apply follows_nopay|]. etrans; [|apply buildRun_follows]. by apply follows_nopay.
  - unfold plan. case_match; simpl; [done|]. apply buildRun_follows.
  - unfold apply. destruct (applyStart runId actor now maxItems s) as [[task|] s1] eqn:Es; simpl;
      (assert (follows s s1) as Hs1; [unfold applyStart in Es; repeat case_match; simplify_eq/=; try done; by apply follows_nopay|]); [|done].
    etrans; [exact Hs1|apply applyItems_follows].
  - unfold approveReversal. repeat case_match; simpl; try done; by apply follows_nopay.
Qed.

Lemma runReeval_follows ops : forall s, follows s (runReeval ops s).
Proof. induction ops as [|op ops IH]; intros s; simpl; [done|]. etrans; [apply execReeval_follows|apply IH]. Qed.

(** C9: "a policy already paid is never paid twice": when calls of [apply] run one
    after the other, over any history of records, verdicts, trust transitions,
    plans, applications with retries and approvals, no policy has two
    settlements confirmed by the executor, and a policy that the ledger knows as
    paid gets none afterwards. *)
Theorem sequential_apply_pays_once (before after : list ReevalOp) :
  let s := runReeval before initialReeval in
  NoDup (rv_payments s) ∧
  ∃ later, rv_payments (runReeval after s) = rv_payments s ++ later ∧
    Forall (fun p => isPaid p (rv_ledger s) = false) later.
Proof.
  intros s. split.
  - destruct (fo_payments _ _ (runReeval_follows before initialReeval)) as (new & E & Hn & _). unfold s. by rewrite E.
  - destruct (fo_payments _ _ (runReeval_follows after s)) as (new & E & _ & Hf). exists new. split; [done|].
    eapply Forall_impl; [exact Hf|]. intros p [Hp _]. unfold isPaid. by apply bool_decide_eq_false.
Qed.
End Histories.

(** * The service wired to the regional aggregator *)

Section Wiring.
Context `{JsHost}.
Variable pow2 : num -> num.
Variable config : ReevalConfig.
Variable retentionMs : Z.
Variable quorum : QuorumConfig.

Record Wired := mkWired { wi_aggregator : Aggregator; wi_service : ReevalState }.

(** One evaluation of a feed with the service listening; a listener that throws
    rejects the evaluation after the trust state was stored. *)
Definition wiredEvaluate (feedId : string) (now : Z) (w : Wired) : res string unit * Wired :=
  let '(verdict, transition, a) := evaluateFeed quorum feedId now (wi_aggregator w) in
  let s := onVerdict retentionMs verdict (wi_service w) in
  match transition with
  | None => (Ok tt, mkWired a s)
  | Some t =>
      let '(r, s1) := onTrustTransition pow2 config (tt_feedId t) (tt_to t) (tt_at t) s in
      (match r with Ok _ => Ok tt | Err e => Err e end, mkWired a s1)
  end.

Fixpoint wiredEvaluateEach (feeds : list string) (now : Z) (w : Wired) : Wired :=
  match feeds with
  | [] => w
  | feedId :: rest =>
      let '(r, w1) := wiredEvaluate feedId now w in
      match r with Ok _ => wiredEvaluateEach rest now w1 | Err _ => w1 end
  end.

Inductive WiredOp :=
| WoRegister (p : RegionProfile) (usable : bool)
| WoReport (timestamp : Z) (observations : list RegionalObservation) (now : Z)
| WoEvaluateAll (now : Z)
| WoRecord (rec : AdjudicationRecord)
| WoPlan (feedId : string) (restoredAt now : Z) (backfill : list (Z * num))
| WoApply (runId actor : string) (now maxItems : Z) (executor : string -> SettleAnswer)
| WoApproveReversal (runId recordId actor note : string) (now : Z).

Definition onService (op : ReevalOp) (w : Wired) : Wired :=
  mkWired (wi_aggregator w) (execReeval pow2 config retentionMs (wi_service w) op).

Definition execWired (w : Wired) (op : WiredOp) : Wired :=
  match op with
  | WoRegister p usable =>
      match registerRegion p usable (wi_aggregator w) with Ok a => mkWired a (wi_service w) | Err _ => w end
  | WoReport timestamp observations now =>
      let '(feeds, a) := recordReport timestamp observations (wi_aggregator w) in
      wiredEvaluateEach (sort_strings (setOf feeds)) now (mkWired a (wi_service w))
  | WoEvaluateAll now => wiredEvaluateEach (sort_strings (jm_keys (ag_observations (wi_aggregator w)))) now w
  | WoRecord rec => onService (RoRecord rec) w
  | WoPlan feedId restoredAt now backfill => onService (RoPlan feedId restoredAt now backfill) w
  | WoApply runId actor now maxItems executor => onService (RoApply runId actor now maxItems executor) w
  | WoApproveReversal runId recordId actor note now => onService (RoApproveReversal runId recordId actor note now) w
  end.

Definition runWired (ops : list WiredOp) : Wired := foldl execWired (mkWired emptyAggregator initialReeval) ops.

(** The aggregator's last verdict on a feed is not "trusted". *)
Definition untrusted (a : Aggregator) (feedId : string) : bool :=
  match jm_get (ag_lastTrust a) feedId with Some t => negb (bool_decide (t = FtTrusted)) | None => false end.

(** The service tracks exactly the untrusted feeds. *)
Definition synchronised (w : Wired) : Prop :=
  forall feedId, jm_has (rv_degradedSince (wi_service w)) feedId = untrusted (wi_aggregator w) feedId.

Lemma onRun_degraded runId f s : rv_degradedSince (onRun runId f s) = rv_degradedSince s.
Proof. unfold onRun. by case_match. Qed.

Lemma applyItems_degraded executor task todo : forall processed s,
  rv_degradedSince (applyItems executor task todo processed s) = rv_degradedSince s.
Proof.
  induction todo as [|item todo IH]; intros processed s; simpl; [apply onRun_degraded|].
  destruct (negb _); [apply IH|]. destruct (_ <=? _); [apply onRun_degraded|].
  destruct (beforeSettle _ _ _); rewrite IH; [apply onRun_degraded|].
  unfold afterSettle. destruct (executor _); unfold closeItem; by rewrite onRun_degraded.
Qed.

Lemma buildRun_degraded feedId restoredAt now backfill since s :
  rv_degradedSince (buildRun pow2 config feedId restoredAt now backfill since s).2 = rv_degradedSince s.
Proof. unfold buildRun. by repeat case_match. Qed.

(** Service operations other than verdicts and transitions do not change the
    tracked feeds. *)
Lemma service_degraded s op :
  match op with RoTransition _ _ _ => True | _ => rv_degradedSince (execReeval pow2 config retentionMs s op) = rv_degradedSince s end.
Proof.
  destruct op; simpl; try done.
  - unfold plan. case_match; simpl; [done|apply buildRun_degraded].
  - unfold apply. destruct (applyStart runId actor now maxItems s) as [[task|] s1] eqn:Es; simpl; rewrite ?applyItems_degraded;
      unfold applyStart in Es; repeat case_match; by simplify_eq/=.
  - unfold approveReversal. by repeat case_match.
Qed.

Lemma jm_has_get {A} (m : list (string * A)) k : jm_has m k = match jm_get m k with Some _ => true | None => false end.
Proof. unfold jm_has. destruct (jm_get m k); [by rewrite bool_decide_eq_true_2|]. by rewrite bool_decide_eq_false_2 by (by intros [? ?]). Qed.

Lemma transition_degraded feedId to at_ s f :
  jm_has (rv_degradedSince (onTrustTransition pow2 config feedId to at_ s).2) f =
  if decide (feedId = f) then negb (bool_decide (to = FtTrusted)) else jm_has (rv_degradedSince s) f.
Proof.
  unfold onTrustTransition. case_bool_decide as Hto; simpl.
  - rewrite bool_decide_eq_false_2 by done. simpl. destruct (jm_has (rv_degradedSince s) feedId) eqn:E; simpl.
    + case_decide; [by subst|done].
    + rewrite !jm_has_get, jm_get_set. by case_decide.
  - rewrite (bool_decide_eq_true_2 (to = FtTrusted)) by done. simpl.
    assert (jm_has (jm_delete (rv_degradedSince s) feedId) f = if decide (feedId = f) then false else jm_has (rv_degradedSince s) f) as Hd.
    { rewrite !jm_has_get. case_decide as E; [subst; by rewrite jm_get_delete_eq|by rewrite jm_get_delete_ne]. }
    destruct (_ && _); cbn [snd]; [exact Hd|]. rewrite buildRun_degraded. exact Hd.
Qed.

Lemma wiredEvaluate_sync feedId now w : synchronised w -> synchronised (wiredEvaluate feedId now w).2.
Proof.
  intros Hs f. unfold wiredEvaluate, evaluateFeed. case_bool_decide as Hfrom; simpl; [apply Hs|].
  set (s := onVerdict _ _ _). set (v := peek _ _ _ _).
  destruct (onTrustTransition pow2 config feedId (qv_trust v) now s) as [r s1] eqn:Et. simpl.
  pose proof (transition_degraded feedId (qv_trust v) now s f) as Ht. rewrite Et in Ht. simpl in Ht. rewrite Ht.
  unfold untrusted. simpl. rewrite jm_get_set. case_decide; [done|]. apply (Hs f).
Qed.

Lemma wiredEvaluateEach_sync feeds now : forall w, synchronised w -> synchronised (wiredEvaluateEach feeds now w).
Proof.
  induction feeds as [|f feeds IH]; intros w Hs; simpl; [done|].
  pose proof (wiredEvaluate_sync f now w Hs) as Hs1. destruct (wiredEvaluate f now w) as [[]  w1]; [by apply IH|done].
Qed.

Lemma recordReport_lastTrust timestamp obs : forall a, ag_lastTrust (recordReport timestamp obs a).2 = ag_lastTrust a.
Proof.
  induction obs as [|o obs IH]; intros a; simpl; [done|]. destruct (_ <? _); [apply IH|].
  destruct (recordRegional o a) as [fresh a1] eqn:Er. specialize (IH a1). destruct (recordReport timestamp obs a1). simpl in *.
  rewrite IH. unfold recordRegional in Er. repeat case_match; by simplify_eq/=.
Qed.

Lemma execWired_sync w op : synchronised w -> synchronised (execWired w op).
Proof.
  intros Hs. destruct op; simpl.
  - unfold registerRegion. repeat case_match; simplify_eq/=; done.
  - pose proof (recordReport_lastTrust timestamp observations (wi_aggregator w)) as Hr.
    destruct (recordReport timestamp observations (wi_aggregator w)) as [feeds a]. apply wiredEvaluateEach_sync.
    intros f. unfold untrusted. simpl in *. rewrite Hr. apply Hs.
  - by apply wiredEvaluateEach_sync.
  - intros f. apply Hs.
  - intros f. cbn [onService wi_service wi_aggregator]. rewrite (service_degraded (wi_service w) (RoPlan feedId restoredAt now backfill)). apply Hs.
  - intros f. cbn [onService wi_service wi_aggregator]. rewrite (service_degraded (wi_service w) (RoApply runId actor now maxItems executor)). apply Hs.
  - intros f. cbn [onService wi_service wi_aggregator]. rewrite (service_degraded (wi_service w) (RoApproveReversal runId recordId actor note now)). apply Hs.
Qed.

(** Re-evaluation waits for trust: with the service listening to the regional
    aggregator, after any reports, evaluations, records, plans and applications,
    an operator's plan for a feed is refused, without effect, exactly while the
    aggregator's last verdict on the feed is not "trusted". *)
Theorem plan_waits_for_trust (ops : list WiredOp) (feedId : string) (restoredAt now : Z) (backfill : list (Z * num)) :
  let w := runWired ops in
  plan pow2 config feedId restoredAt now backfill (wi_service w) =
  if untrusted (wi_aggregator w) feedId
  then (Err ("Feed " +:+ feedId +:+ " is still untrusted; re-evaluation waits for trust to be restored"), wi_service w)
  else buildRun pow2 config feedId restoredAt now backfill None (wi_service w).
Proof.
  intros w. assert (synchronised w) as Hs.
  { unfold w, runWired. induction ops as [|op ops IH] using rev_ind; [done|]. rewrite foldl_app. by apply execWired_sync. }
  unfold plan. by rewrite Hs.
Qed.
End Wiring.

(** * Interleaved calls *)

(** The service with calls of [apply] suspended at their [await]. *)
Record Concurrent := mkConcurrent { cc_state : ReevalState; cc_calls : list (ReevaluationItem * ApplyTask) }.

Inductive ConcStep :=
| CsStart (runId actor : string) (now maxItems : Z)
| CsAnswer (call : nat) (answer : SettleAnswer).

Definition suspend (r : option (ReevaluationItem * ApplyTask) * ReevalState) (calls : list (ReevaluationItem * ApplyTask)) : Concurrent :=
  mkConcurrent r.2 (match r.1 with Some c => calls ++ [c] | None => calls end).

Definition concStep (c : Concurrent) (step : ConcStep) : Concurrent :=
  match step with
  | CsStart runId actor now maxItems =>
      let '(r, s) := applyStart runId actor now maxItems (cc_state c) in
      match r with
      | Ok task => suspend (advanceItems task (tk_todo task) (tk_processed task) s) (cc_calls c)
      | Err _ => mkConcurrent s (cc_calls c)
      end
  | CsAnswer n answer =>
      match cc_calls c !! n with
      | Some (item, task) =>
          suspend (advanceItems task (tk_todo task) (tk_processed task) (afterSettle task item answer (cc_state c)))
                  (delete n (cc_calls c))
      | None => c
      end
  end.

(** A call that runs to its end is the same steps without interruption. *)
Lemma applyItems_steps executor task todo : forall processed s,
  applyItems executor task todo processed s =
  match advanceItems task todo processed s with
  | (None, s') => s'
  | (Some (item, task'), s') =>
      applyItems executor task (tk_todo task') (tk_processed task') (afterSettle task item (executor (ri_recordId item)) s')
  end.
Proof.
  induction todo as [|item todo IH]; intros processed s; simpl; [done|].
  destruct (negb _); [apply IH|]. destruct (_ <=? _); [done|]. by destruct (beforeSettle _ _ _).
Qed.

(** ** A concrete history *)

(** A host whose digest tells the plans below apart. *)
Definition lengthHost : JsHost := {|
  localeLe := string_leb; numToString := @numToString demoHost;
  sha256Hex s := showZ (Z.of_nat (String.length s)) |}.

Definition demoPolicy : StoredPolicy := mkPolicy "P" "H" 0 1000 100000 true None None.
Definition demoOracle : OracleReading := mkOracle "StablecoinDepeg" 0.5%float 0.9375%float "depeg".

(** The record of a scan at [at_] seconds, if it emits one. *)
Definition scanRecord (trust : option FeedTrustState) (payout : option (Z * option string)) (at_ : Z) : list ReevalOp :=
  match scanOutcome trust true true false payout with
  | Some (t, outcome, paid, tx) => [RoRecord (emitAdjudication demoPolicy demoOracle (feedIdForPolicy demoPolicy) t outcome at_ paid tx)]
  | None => []
  end.

Definition trustedVerdict (at_ : Z) : ReevalOp := RoVerdict (mkQVerdict "usdc-usd" FtTrusted (Some 0.5%float) [] [] [] [] [] [] at_).

(** The feed degrades, the policy's payout is held, trust is restored. *)
Definition outage (start : Z) : list ReevalOp :=
  [RoTransition "usdc-usd" FtDegraded (start * 1000)] ++ scanRecord (Some FtDegraded) None (start + 100)
  ++ [trustedVerdict (start * 1000 + 200000); trustedVerdict (start * 1000 + 600000); RoTransition "usdc-usd" FtTrusted (start * 1000 + 600000)].

Definition demoRun (ops : list ReevalOp) : ReevalState :=
  @runReeval lengthHost (fun _ => 1%float) DEFAULT_REEVALUATION_CONFIG DEFAULT_RETENTION_MS ops initialReeval.

(** The plan input of the first outage. *)
Definition demoInput : PlanInput :=
  mkPlanInput "usdc-usd" 0 600000
    [emitAdjudication demoPolicy demoOracle "usdc-usd" FtDegraded AoHeld 100 0 None]
    [mkTrusted 200000 0.5%float PvQuorum; mkTrusted 600000 0.5%float PvQuorum]
    (rc_triggerConfigFor DEFAULT_REEVALUATION_CONFIG) [] 900000 1800000.

Lemma plan_settles_once_witness :
  ∃ pln, @planReevaluation lengthHost (fun _ => 1%float) demoInput = Ok pln ∧
    map ri_action (pl_items pln) = [ActSettle] ∧ NoDup (map ri_policyId (settleItems (pl_items pln))).
Proof.
  eexists. split; [vm_compute; reflexivity|]. split; [vm_compute; reflexivity|].
  apply (@plan_settles_once lengthHost (fun _ => 1%float) demoInput _ ltac:(vm_compute; reflexivity)).
Defined.

(** Interleaved applications pay twice: a policy held in two outages is to be
    settled by two runs; when both runs are applied at the same time, each call
    finds the policy unpaid before it awaits the executor, both settlements
    confirm, and the policy is paid twice. *)
Theorem concurrent_apply_pays_twice :
  let s := demoRun (outage 0 ++ outage 1000) in
  let steps := [CsStart "reeval_135" "ops1" 2000000 50; CsStart "reeval_185" "ops2" 2000000 50;
                CsAnswer 0 (Confirmed (Some "tx1")); CsAnswer 0 (Confirmed (Some "tx2"))] in
  rv_payments s = [] ∧ rv_payments (cc_state (foldl concStep (mkConcurrent s []) steps)) = ["P"; "P"].
Proof. vm_compute. done. Qed.

(** A payout of the live scan is unknown to re-evaluation: a scan records a
    settlement only while the feed is untrusted, so a policy that was held during
    an outage and then paid by a scan after trust was restored leaves no record,
    and applying the run planned for the outage pays it again. *)
Theorem live_payout_paid_again (payout : Z * option string) :
  scanRecord (Some FtTrusted) (Some payout) 700 = [] ∧
  rv_payments (demoRun (outage 0 ++ scanRecord (Some FtTrusted) (Some payout) 700
                 ++ [RoApply "reeval_135" "ops" 800000 50 (fun _ => Confirmed (Some "tx"))])) = ["P"].
Proof. split; [done|]. vm_compute. done. Qed.
