(* ===== verification/DegradedMode.v ===== *)
(** Per-feed degraded-mode state machine (src/oracle/degraded-mode.ts).

    [applyObservation] is the transition function the oracle subsystem applies
    to the persisted feed state, [resumeFeed] the operator action, and
    [isPayoutAllowed] the gate the publisher and the claim processor read.
    [spec_paused]/[spec_clean] describe the feed from its observation history
    alone; [degraded_mode_refines] shows the machine implements them. *)

From stdpp Require Import base gmap list strings.
From Stdlib Require Import ZArith Lia.
From S2P Require Import Prelude.
Open Scope Z_scope.

Inductive FeedHealth := Healthy | Degraded | Paused.

Inductive DegradedReason :=
| QuorumShortfall
| NoFreshSources
| SourcesDivergent
| ConsensusUnavailable.

#[global] Instance FeedHealth_eq_dec : EqDecision FeedHealth.
Proof. solve_decision. Defined.
#[global] Instance DegradedReason_eq_dec : EqDecision DegradedReason.
Proof. solve_decision. Defined.

Record FeedState := mkFeedState {
  fs_coverageType : Z;
  fs_health : FeedHealth;
  fs_reason : option DegradedReason;
  fs_consecutiveFailures : Z;
}.

(** [None] is the [null] reason: corroboration was satisfied. *)
Record FeedObservation := mkFeedObservation { fo_reason : option DegradedReason }.

Record FeedPolicy := mkFeedPolicy { fp_pauseAfterFailures : Z }.

Definition DEGRADED_MODE_POLICY (coverageType : Z) : option FeedPolicy :=
  if decide (coverageType = 0) then Some (mkFeedPolicy 5)
  else if decide (coverageType = 1) then Some (mkFeedPolicy 5)
  else if decide (coverageType = 2) then Some (mkFeedPolicy 5)
  else if decide (coverageType = 3) then Some (mkFeedPolicy 5)
  else if decide (coverageType = 4) then Some (mkFeedPolicy 10)
  else None.

Definition initialFeedState (coverageType : Z) : FeedState :=
  mkFeedState coverageType Healthy None 0.

(** [policy = None] is the [undefined] the default parameter evaluates to for a
    coverage type the policy table does not list; reading [pauseAfterFailures]
    of it throws. *)
Definition applyObservation (state : FeedState) (observation : FeedObservation)
    (policy : option FeedPolicy) : res string FeedState :=
  if decide (fs_health state = Paused) then Ok state
  else match fo_reason observation with
  | None =>
      if decide (fs_health state = Healthy ∧ fs_consecutiveFailures state = 0) then Ok state
      else Ok (mkFeedState (fs_coverageType state) Healthy None 0)
  | Some reason =>
      match policy with
      | None => Err "TypeError: cannot read properties of undefined"
      | Some policy =>
          let consecutiveFailures := fs_consecutiveFailures state + 1 in
          let health :=
            if decide (consecutiveFailures >= fp_pauseAfterFailures policy)
            then Paused else Degraded in
          if decide (health = fs_health state ∧ Some reason = fs_reason state ∧
                     consecutiveFailures = fs_consecutiveFailures state)
          then Ok state
          else Ok (mkFeedState (fs_coverageType state) health (Some reason) consecutiveFailures)
      end
  end.

(** The call with the default third argument. *)
Definition applyObservation_default (state : FeedState) (o : FeedObservation) : res string FeedState :=
  applyObservation state o (DEGRADED_MODE_POLICY (fs_coverageType state)).

Definition resumeFeed (state : FeedState) : FeedState :=
  if decide (fs_health state ≠ Paused) then state
  else mkFeedState (fs_coverageType state) Healthy None 0.

Definition isPayoutAllowed (state : FeedState) : bool :=
  bool_decide (fs_health state = Healthy).

(** ** Histories *)

(** Applies a history of evaluations, oldest first, under one policy. *)
Fixpoint run (policy : FeedPolicy) (state : FeedState) (h : list FeedObservation) : res string FeedState :=
  match h with
  | [] => Ok state
  | o :: h' => state' ← applyObservation state o (Some policy); run policy state' h'
  end.

Definition failed (o : FeedObservation) : Prop := is_Some (fo_reason o).

(** Reference definition: at some point of the history [n] evaluations in a row
    had failed. *)
Definition spec_paused (n : Z) (h : list FeedObservation) : Prop :=
  ∃ h1 h2 h3, h = h1 ++ h2 ++ h3 ∧ Forall failed h2 ∧ Z.of_nat (length h2) >= n.

(** Reference definition: the most recent evaluation, if any, was clean. *)
Definition spec_clean (h : list FeedObservation) : Prop :=
  match last h with None => True | Some o => fo_reason o = None end.

(** Length of the run of failures the history ends with. *)
Fixpoint trailing (acc : Z) (h : list FeedObservation) : Z :=
  match h with
  | [] => acc
  | o :: h' => trailing (match fo_reason o with None => 0 | Some _ => acc + 1 end) h'
  end.

(** ** Lemmas *)

Lemma apply_fail_eq s r p :
  fs_health s ≠ Paused ->
  applyObservation s (mkFeedObservation (Some r)) (Some p) =
  Ok (mkFeedState (fs_coverageType s)
        (if decide (fs_consecutiveFailures s + 1 >= fp_pauseAfterFailures p) then Paused else Degraded)
        (Some r) (fs_consecutiveFailures s + 1)).
Proof.
  intros H. unfold applyObservation. rewrite decide_False by done. simpl.
  case_decide as Hd; [|done]. destruct Hd as (_ & _ & ?). lia.
Qed.

Lemma apply_clean_eq s p :
  fs_health s ≠ Paused ->
  (fs_health s = Healthy -> fs_consecutiveFailures s = 0 -> fs_reason s = None) ->
  applyObservation s (mkFeedObservation None) p = Ok (mkFeedState (fs_coverageType s) Healthy None 0).
Proof.
  intros H Hr. unfold applyObservation. rewrite decide_False by done. simpl.
  case_decide as Hd; [|done]. destruct s as [c h r n], Hd; simpl in *; subst. by rewrite Hr.
Qed.

Lemma run_paused p s h : fs_health s = Paused -> run p s h = Ok s.
Proof.
  intros H. induction h as [|o h IH]; simpl; [done|].
  unfold applyObservation. rewrite decide_True by done. exact IH.
Qed.

(** The states reachable without a pause: the counter is the trailing run. *)
Definition tracked (c acc : Z) (s : FeedState) : Prop :=
  s = mkFeedState c (fs_health s) (fs_reason s) acc ∧ 0 <= acc ∧ fs_health s ≠ Paused ∧
  (fs_health s = Healthy <-> acc = 0) ∧ (fs_health s = Healthy -> fs_reason s = None).

Fixpoint hits (n acc : Z) (h : list FeedObservation) : Prop :=
  match h with
  | [] => False
  | o :: h' =>
      match fo_reason o with
      | None => hits n 0 h'
      | Some _ => acc + 1 >= n ∨ hits n (acc + 1) h'
      end
  end.

Lemma run_tracked p c h : forall acc s, tracked c acc s ->
  ∃ s', run p s h = Ok s' ∧
    ((hits (fp_pauseAfterFailures p) acc h ∧ fs_health s' = Paused) ∨
     (¬ hits (fp_pauseAfterFailures p) acc h ∧ tracked c (trailing acc h) s')).
Proof.
  induction h as [|[[r|]] h IH]; intros acc s Ht; simpl.
  - exists s; split; [done|]. right; split; [auto|done].
  - destruct Ht as (-> & Hacc & Hnp & Hh & Hr). simpl in *.
    rewrite apply_fail_eq by done; simpl.
    case_decide.
    + eexists; split; [by apply run_paused|]. left; auto.
    + destruct (IH (acc + 1) (mkFeedState c Degraded (Some r) (acc + 1))) as (s' & Hrun & Hs').
      { unfold tracked; simpl. repeat split; try done; lia. }
      exists s'; split; [done|]. destruct Hs' as [[? ?]|[? ?]]; [left|right]; split; auto. by intros [?|?].
  - destruct Ht as (-> & Hacc & Hnp & Hh & Hr). simpl in *.
    rewrite apply_clean_eq by auto; simpl.
    apply IH. unfold tracked; simpl. repeat split; try done; lia.
Qed.

Lemma spec_paused_cons_fail n o h : spec_paused n h -> spec_paused n (o :: h).
Proof. intros (h1 & h2 & h3 & -> & ? & ?). exists (o :: h1), h2, h3. done. Qed.

Lemma hits_sound n acc h0 h :
  Forall failed h0 -> Z.of_nat (length h0) = acc -> hits n acc h -> spec_paused n (h0 ++ h).
Proof.
  revert acc h0; induction h as [|o h IH]; intros acc h0 Hf Hl; simpl; [done|].
  destruct (fo_reason o) eqn:Hr.
  - assert (Forall failed (h0 ++ [o])) as Hf'.
    { apply Forall_app; split; [done|]. constructor; [|done]. unfold failed; rewrite Hr; eauto. }
    intros [Hn|Hh].
    + exists [], (h0 ++ [o]), h. rewrite length_app; simpl. split_and!; [|done|lia].
      by rewrite <- app_assoc.
    + specialize (IH (acc + 1) (h0 ++ [o]) Hf'). rewrite length_app, <- app_assoc in IH.
      apply IH; [simpl; lia|done].
  - intros Hh. destruct (IH 0 []) as (h1 & h2 & h3 & Heq & ? & ?); [done..|].
    simpl in Heq; subst h.
    exists (h0 ++ o :: h1), h2, h3. split_and!; [|done|done].
    by rewrite <- app_assoc.
Qed.

Lemma hits_mono n acc acc' h : 0 <= acc <= acc' -> hits n acc h -> hits n acc' h.
Proof.
  revert acc acc'; induction h as [|o h IH]; intros acc acc' Hle; simpl; [done|].
  destruct (fo_reason o); [|done]. intros [?|?]; [left; lia|right].
  eapply IH; [|done]. lia.
Qed.

Lemma hits_fails n acc h2 h3 :
  Forall failed h2 -> 0 <= acc -> 0 < n -> acc + Z.of_nat (length h2) >= n -> acc < n ->
  hits n acc (h2 ++ h3).
Proof.
  intros Hf; revert acc; induction Hf as [|o h2 [r Hr] Hf IH]; intros acc ? ? Hl ?; simpl in *; [lia|].
  rewrite Hr. destruct (decide (acc + 1 >= n)); [by left|]. right. apply IH; lia.
Qed.

Lemma hits_complete n h1 h : forall acc, 0 <= acc -> hits n 0 h -> hits n acc (h1 ++ h).
Proof.
  induction h1 as [|o h1 IH]; intros acc Hacc Hh; simpl.
  - eapply hits_mono; [|done]. lia.
  - destruct (fo_reason o); [right|]; apply IH; (done || lia).
Qed.

Lemma hits_iff n h : 0 < n -> hits n 0 h <-> spec_paused n h.
Proof.
  intros Hn; split.
  - intros H. by apply (hits_sound n 0 [] h).
  - intros (h1 & h2 & h3 & -> & Hf & Hl). apply hits_complete; [lia|]. apply hits_fails; auto; lia.
Qed.

Lemma trailing_zero h : forall acc, 0 <= acc -> trailing acc h = 0 <-> (h = [] ∧ acc = 0) ∨ (h ≠ [] ∧ spec_clean h).
Proof.
  induction h as [|o h IH]; intros acc Hacc; simpl.
  - naive_solver.
  - rewrite IH by (destruct (fo_reason o); lia).
    unfold spec_clean. destruct h as [|o' h]; simpl.
    + destruct (fo_reason o) eqn:Hr; simpl; [naive_solver lia|]. naive_solver.
    + naive_solver.
Qed.

(** ** Properties *)

(** C39: the machine implements the history-based description of the module
    header: from a fresh feed, any history of evaluations leaves it paused
    exactly when some [pauseAfterFailures] consecutive evaluations failed, and
    payouts are allowed exactly when it is not paused and the latest evaluation
    was clean. *)
Theorem degraded_mode_refines (p : FeedPolicy) (c : Z) (h : list FeedObservation)
    (Hp : 0 < fp_pauseAfterFailures p) :
  ∃ s, run p (initialFeedState c) h = Ok s ∧
    (fs_health s = Paused <-> spec_paused (fp_pauseAfterFailures p) h) ∧
    (isPayoutAllowed s = true <-> ¬ spec_paused (fp_pauseAfterFailures p) h ∧ spec_clean h).
Proof.
  destruct (run_tracked p c h 0 (initialFeedState c)) as (s & Hrun & Hs).
  { unfold tracked, initialFeedState; simpl. repeat split; done. }
  exists s. split; [done|]. rewrite hits_iff in Hs by done.
  unfold isPayoutAllowed. rewrite bool_decide_eq_true.
  destruct Hs as [[Hsp Hs]|[Hsp (_ & _ & Hnp & Hh & _)]]; [by rewrite Hs; naive_solver|].
  split; [naive_solver|]. rewrite Hh, trailing_zero by lia.
  destruct h; [|naive_solver]. unfold spec_clean; simpl; naive_solver.
Qed.

Definition obs_ok := mkFeedObservation None.
Definition obs_bad := mkFeedObservation (Some SourcesDivergent).

Lemma degraded_mode_refines_witness :
  (∃ s, run (mkFeedPolicy 2) (initialFeedState 0) [obs_bad; obs_ok; obs_bad; obs_bad; obs_ok] = Ok s ∧
     (fs_health s = Paused <-> spec_paused 2 [obs_bad; obs_ok; obs_bad; obs_bad; obs_ok]) ∧
     (isPayoutAllowed s = true <->
        ¬ spec_paused 2 [obs_bad; obs_ok; obs_bad; obs_bad; obs_ok] ∧
        spec_clean [obs_bad; obs_ok; obs_bad; obs_bad; obs_ok])).
Proof. apply (degraded_mode_refines (mkFeedPolicy 2) 0). simpl; lia. Defined.

(** A transition is not idempotent: re-applying the same failing
    observation to the resulting state counts it a second time, so five
    re-deliveries of one evaluation pause a stablecoin feed. *)
Theorem reapplied_failure_pauses :
  let s1 := mkFeedState 0 Degraded (Some SourcesDivergent) 1 in
  applyObservation_default (initialFeedState 0) obs_bad = Ok s1 ∧
  applyObservation_default s1 obs_bad ≠ Ok s1 ∧
  run (mkFeedPolicy 5) (initialFeedState 0) [obs_bad; obs_bad; obs_bad; obs_bad; obs_bad] =
    Ok (mkFeedState 0 Paused (Some SourcesDivergent) 5).
Proof. split_and!; vm_compute; congruence. Qed.

(** [paused] is sticky and leaves only through the operator: an observation
    never changes a paused feed, and a resume of it restores the initial state. *)
Theorem paused_leaves_only_by_resume (s : FeedState) (o : FeedObservation) (p : option FeedPolicy)
    (H : fs_health s = Paused) :
  applyObservation s o p = Ok s ∧ isPayoutAllowed s = false ∧
  resumeFeed s = initialFeedState (fs_coverageType s).
Proof.
  unfold applyObservation, resumeFeed, isPayoutAllowed. rewrite H. split_and!; done.
Qed.

Lemma paused_leaves_only_by_resume_witness :
  applyObservation (mkFeedState 4 Paused (Some NoFreshSources) 10) obs_ok (DEGRADED_MODE_POLICY 4)
    = Ok (mkFeedState 4 Paused (Some NoFreshSources) 10).
Proof.
  apply (paused_leaves_only_by_resume (mkFeedState 4 Paused (Some NoFreshSources) 10) obs_ok
           (DEGRADED_MODE_POLICY 4)). reflexivity.
Defined.
