(* ===== verification/Reputation.v ===== *)
(** Operator reputation scoring and consensus weighting (src/oracle/reputation.ts).

    All arithmetic of the module is on integers (epoch milliseconds, counts and
    basis points), so a JavaScript number is a [Z] here: [Math.floor(a / b)] on
    integers below 2^53 is exact integer division, and [BPS >> steps] is
    [Z.shiftr].  The sums of [decayedMean] stay below 2^53 up to some 9 * 10^7
    observations per operator. *)

From stdpp Require Import base gmap list strings sorting.
From Stdlib Require Import ZArith Lia.
From S2P Require Import Prelude.
Open Scope Z_scope.

Definition BPS : Z := 10000.
Definition HALF_LIFE_MS : Z := 7 * 24 * 60 * 60 * 1000.
Definition HALF_LIFE_STEPS : Z := 14.
Definition PRIOR_WEIGHT : Z := BPS.
Definition TENURE_FULL_MS : Z := 90 * 24 * 60 * 60 * 1000.
Definition W_accuracy : Z := 40.
Definition W_availability : Z := 25.
Definition W_disputes : Z := 25.
Definition W_tenure : Z := 10.
Definition MIN_HISTORY_OBSERVATIONS : Z := 30.
Definition ELIGIBILITY_THRESHOLD_BPS : Z := 5000.
Definition MIN_CONSENSUS_WEIGHT_BPS : Z := 1000.
Definition MAX_CONSENSUS_WEIGHT_BPS : Z := 2000.
Definition MIN_QUORUM_OPERATORS : Z := 3.

Record OperatorObservation := mkObs {
  ob_observedAt : Z;
  ob_deviationBps : Z;
  ob_heartbeatMet : bool;
  ob_excused : bool;   (** absent is [false] *)
}.

Inductive DisputeOutcome := Upheld | Rejected.

Record OperatorDispute := mkDispute {
  di_resolvedAt : Z;
  di_outcome : DisputeOutcome;
}.

Record OperatorHistory := mkHistory {
  hi_operatorId : string;
  hi_registeredAt : Z;
  hi_observations : list OperatorObservation;
  hi_disputes : list OperatorDispute;
}.

Record ReputationComponents := mkComponents {
  rc_accuracy : Z;
  rc_availability : Z;
  rc_disputes : Z;
  rc_tenure : Z;
}.

Record ReputationScore := mkScore {
  sc_operatorId : string;
  sc_score : Z;
  sc_components : ReputationComponents;
  sc_observationCount : Z;
  sc_eligible : bool;
  sc_weight : Z;
  sc_asOf : Z;
}.

Inductive QuorumStatus := QsOk | QsInsufficient | QsNoEligibleOperators.

Record WeightedQuorum := mkWeightedQuorum {
  wq_status : QuorumStatus;
  wq_eligibleCount : Z;
  wq_scores : list ReputationScore;
}.

Definition decayWeight (ageMs : Z) : Z :=
  let steps := Z.max 0 ageMs / HALF_LIFE_MS in
  if decide (steps >= HALF_LIFE_STEPS) then 0 else Z.shiftr BPS steps.

(** A sample is [(at, value)].  One iteration of the accumulation loop. *)
Definition decayStep (now : Z) (acc : Z * Z) (sample : Z * Z) : Z * Z :=
  if decide (sample.1 > now) then acc
  else
    let weight := decayWeight (now - sample.1) in
    (acc.1 + weight, acc.2 + weight * sample.2).

Definition decayedMean (samples : list (Z * Z)) (prior now : Z) : Z :=
  let '(sumWeight, sumValue) :=
    foldl (decayStep now) (PRIOR_WEIGHT, PRIOR_WEIGHT * prior) samples in
  sumValue / sumWeight.

Definition clampBps (value : Z) : Z := Z.min BPS (Z.max 0 value).

Definition consensusWeight (score : Z) : Z :=
  let span := MAX_CONSENSUS_WEIGHT_BPS - MIN_CONSENSUS_WEIGHT_BPS in
  let headroom := BPS - ELIGIBILITY_THRESHOLD_BPS in
  let position := Z.min headroom (Z.max 0 (score - ELIGIBILITY_THRESHOLD_BPS)) in
  MIN_CONSENSUS_WEIGHT_BPS + position * span / headroom.

(** The observations the score is computed from. *)
Definition countedObservations (obs : list OperatorObservation) (now : Z) : list OperatorObservation :=
  filter (fun o => ob_excused o = false ∧ ob_observedAt o <= now) obs.

Definition accuracySample (o : OperatorObservation) : Z * Z :=
  (ob_observedAt o, BPS - clampBps (ob_deviationBps o)).
Definition availabilitySample (o : OperatorObservation) : Z * Z :=
  (ob_observedAt o, if ob_heartbeatMet o then BPS else 0).
Definition disputeSample (d : OperatorDispute) : Z * Z :=
  (di_resolvedAt d, match di_outcome d with Upheld => 0 | Rejected => BPS end).

Definition scoreComponents (history : OperatorHistory) (now : Z) : ReputationComponents :=
  let observations := countedObservations (hi_observations history) now in
  mkComponents
    (decayedMean (map accuracySample observations) 0 now)
    (decayedMean (map availabilitySample observations) 0 now)
    (decayedMean (map disputeSample (hi_disputes history)) BPS now)
    (clampBps ((now - hi_registeredAt history) * BPS / TENURE_FULL_MS)).

Definition totalScore (c : ReputationComponents) : Z :=
  (W_accuracy * rc_accuracy c + W_availability * rc_availability c +
   W_disputes * rc_disputes c + W_tenure * rc_tenure c) / 100.

Definition scoreOperator (history : OperatorHistory) (now : Z) : ReputationScore :=
  let observations := countedObservations (hi_observations history) now in
  let components := scoreComponents history now in
  let score := totalScore components in
  let eligible := bool_decide (Z.of_nat (length observations) >= MIN_HISTORY_OBSERVATIONS
                               ∧ score >= ELIGIBILITY_THRESHOLD_BPS) in
  mkScore (hi_operatorId history) score components (Z.of_nat (length observations)) eligible
    (if eligible then consensusWeight score else 0) now.

Definition byOperatorId (a b : ReputationScore) : bool :=
  string_leb (sc_operatorId a) (sc_operatorId b).

Definition weightOperators (histories : list OperatorHistory) (now : Z) : WeightedQuorum :=
  let scores := sort_by byOperatorId (map (fun h => scoreOperator h now) histories) in
  let eligibleCount := Z.of_nat (length (filter (fun s => sc_eligible s = true) scores)) in
  let status :=
    if decide (eligibleCount = 0) then QsNoEligibleOperators
    else if decide (eligibleCount < MIN_QUORUM_OPERATORS) then QsInsufficient
    else QsOk in
  mkWeightedQuorum status eligibleCount scores.

(** ** Lemmas: decay and the smoothed mean *)

Lemma decayWeight_bounds age : 0 <= decayWeight age <= BPS.
Proof.
  unfold decayWeight. case_decide; [unfold BPS; lia|].
  assert (0 <= Z.max 0 age / HALF_LIFE_MS) by (apply Z.div_pos; unfold HALF_LIFE_MS; lia).
  rewrite Z.shiftr_div_pow2 by done. split.
  - apply Z.div_pos; [unfold BPS; lia|]. apply Z.pow_pos_nonneg; lia.
  - apply Z.div_le_upper_bound; [apply Z.pow_pos_nonneg; lia|].
    assert (1 <= 2 ^ (Z.max 0 age / HALF_LIFE_MS)) by (apply Z.lt_pred_le, Z.pow_pos_nonneg; lia).
    unfold BPS; lia.
Qed.

(** The two sums of the loop, in closed form. *)
Definition sampleWeight (now : Z) (s : Z * Z) : Z :=
  if decide (s.1 > now) then 0 else decayWeight (now - s.1).
Definition weightSum (now : Z) (l : list (Z * Z)) : Z := sumZ (map (sampleWeight now) l).
Definition valueSum (now : Z) (l : list (Z * Z)) : Z :=
  sumZ (map (fun s => sampleWeight now s * s.2) l).

Lemma sampleWeight_nonneg now s : 0 <= sampleWeight now s.
Proof. unfold sampleWeight. case_decide; [lia|]. apply decayWeight_bounds. Qed.

Lemma weightSum_nonneg now l : 0 <= weightSum now l.
Proof.
  apply sumZ_nonneg. apply Forall_fmap, Forall_forall. intros s _. apply sampleWeight_nonneg.
Qed.

Lemma decay_fold now l : forall a b,
  foldl (decayStep now) (a, b) l = (a + weightSum now l, b + valueSum now l).
Proof.
  unfold weightSum, valueSum. induction l as [|s l IH]; intros a b; simpl.
  - by rewrite !Z.add_0_r.
  - unfold decayStep at 2. unfold sampleWeight at 1 3. case_decide; simpl; rewrite IH; f_equal; lia.
Qed.

Lemma decayedMean_eq l prior now :
  decayedMean l prior now =
  (PRIOR_WEIGHT * prior + valueSum now l) / (PRIOR_WEIGHT + weightSum now l).
Proof. unfold decayedMean. by rewrite decay_fold. Qed.

Lemma decayedMean_den_pos l now : 0 < PRIOR_WEIGHT + weightSum now l.
Proof. pose proof (weightSum_nonneg now l). unfold PRIOR_WEIGHT, BPS. lia. Qed.

Lemma valueSum_bounds now l :
  Forall (fun s => 0 <= s.2 <= BPS) l -> 0 <= valueSum now l <= BPS * weightSum now l.
Proof.
  unfold valueSum, weightSum. induction 1 as [|s l Hs _ IH]; simpl; [unfold BPS; lia|].
  pose proof (sampleWeight_nonneg now s). nia.
Qed.

Lemma decayedMean_bounds l prior now :
  0 <= prior <= BPS -> Forall (fun s => 0 <= s.2 <= BPS) l -> 0 <= decayedMean l prior now <= BPS.
Proof.
  intros Hp Hl. rewrite decayedMean_eq.
  pose proof (decayedMean_den_pos l now) as Hd.
  pose proof (valueSum_bounds now l Hl). pose proof (weightSum_nonneg now l).
  assert (0 <= PRIOR_WEIGHT) by (unfold PRIOR_WEIGHT, BPS; lia). split.
  - apply Z.div_pos; nia.
  - apply Z.div_le_upper_bound; nia.
Qed.

Lemma decayedMean_perm l1 l2 prior now : l1 ≡ₚ l2 -> decayedMean l1 prior now = decayedMean l2 prior now.
Proof.
  intros Hp. rewrite !decayedMean_eq. unfold weightSum, valueSum. by rewrite Hp.
Qed.

(** Raising the value of a sample, at the same time, never lowers the mean. *)
Lemma decayedMean_mono l1 l2 prior now :
  Forall2 (fun s1 s2 => s1.1 = s2.1 ∧ s1.2 <= s2.2) l1 l2 ->
  decayedMean l1 prior now <= decayedMean l2 prior now.
Proof.
  intros H. rewrite !decayedMean_eq.
  assert (weightSum now l1 = weightSum now l2 ∧ valueSum now l1 <= valueSum now l2) as [Hw Hv].
  { unfold weightSum, valueSum. induction H as [|[a1 v1] [a2 v2] l1 l2 [Ha Hv] _ [IHw IHv]]; simpl in *; [lia|].
    subst. pose proof (sampleWeight_nonneg now (a2, v1)).
    unfold sampleWeight in *; simpl in *. split; [lia|]. nia. }
  rewrite Hw. apply Z.div_le_mono; [apply decayedMean_den_pos|]. lia.
Qed.

(** Dropping a zero-valued sample never lowers the mean. *)
Lemma decayedMean_drop_zero l1 a l2 prior now :
  0 <= prior -> Forall (fun s => 0 <= s.2 <= BPS) (l1 ++ l2) ->
  decayedMean (l1 ++ (a, 0) :: l2) prior now <= decayedMean (l1 ++ l2) prior now.
Proof.
  intros Hp Hb. rewrite (decayedMean_perm _ ((a, 0) :: l1 ++ l2)) by (symmetry; apply Permutation_middle).
  rewrite !decayedMean_eq.
  pose proof (decayedMean_den_pos (l1 ++ l2) now).
  pose proof (valueSum_bounds now _ Hb). pose proof (sampleWeight_nonneg now (a, 0)).
  unfold weightSum, valueSum in *; simpl in *.
  apply Z.div_le_lower_bound; [done|].
  match goal with |- _ * (?n / ?d) <= _ => pose proof (Z.mul_div_le n d); pose proof (Z.div_pos n d) end.
  assert (0 <= PRIOR_WEIGHT) by (unfold PRIOR_WEIGHT, BPS; lia). nia.
Qed.

Lemma clampBps_bounds v : 0 <= clampBps v <= BPS.
Proof. unfold clampBps, BPS; lia. Qed.

Lemma clampBps_mono a b : a <= b -> clampBps a <= clampBps b.
Proof. unfold clampBps; lia. Qed.

Lemma samples_bounds h now :
  Forall (fun s : Z * Z => 0 <= s.2 <= BPS) (map accuracySample (countedObservations (hi_observations h) now)) ∧
  Forall (fun s : Z * Z => 0 <= s.2 <= BPS) (map availabilitySample (countedObservations (hi_observations h) now)) ∧
  Forall (fun s : Z * Z => 0 <= s.2 <= BPS) (map disputeSample (hi_disputes h)).
Proof.
  split_and!; apply Forall_fmap, Forall_forall; intros x _; simpl.
  - pose proof (clampBps_bounds (ob_deviationBps x)); lia.
  - destruct (ob_heartbeatMet x); unfold BPS; lia.
  - destruct (di_outcome x); unfold BPS; lia.
Qed.

Lemma components_bounds h now :
  let c := scoreComponents h now in
  0 <= rc_accuracy c <= BPS ∧ 0 <= rc_availability c <= BPS ∧
  0 <= rc_disputes c <= BPS ∧ 0 <= rc_tenure c <= BPS.
Proof.
  destruct (samples_bounds h now) as (? & ? & ?). simpl.
  split_and!; try (apply decayedMean_bounds; auto; unfold BPS; lia); apply clampBps_bounds.
Qed.

Lemma totalScore_mono c1 c2 :
  rc_accuracy c1 <= rc_accuracy c2 -> rc_availability c1 <= rc_availability c2 ->
  rc_disputes c1 <= rc_disputes c2 -> rc_tenure c1 <= rc_tenure c2 ->
  totalScore c1 <= totalScore c2.
Proof.
  intros. unfold totalScore. apply Z.div_le_mono; [lia|].
  unfold W_accuracy, W_availability, W_disputes, W_tenure; lia.
Qed.

Lemma consensusWeight_bounds s :
  MIN_CONSENSUS_WEIGHT_BPS <= consensusWeight s <= MAX_CONSENSUS_WEIGHT_BPS.
Proof.
  unfold consensusWeight, MIN_CONSENSUS_WEIGHT_BPS, MAX_CONSENSUS_WEIGHT_BPS, BPS, ELIGIBILITY_THRESHOLD_BPS.
  set (p := Z.min _ _). assert (0 <= p <= 5000) by (unfold p; lia).
  assert (0 <= p * (2000 - 1000) / (10000 - 5000) <= 1000); [|lia].
  split; [apply Z.div_pos; lia|]. apply Z.div_le_upper_bound; lia.
Qed.

Lemma consensusWeight_mono a b : a <= b -> consensusWeight a <= consensusWeight b.
Proof.
  intros. unfold consensusWeight. apply Z.add_le_mono_l, Z.div_le_mono; [done|].
  unfold MAX_CONSENSUS_WEIGHT_BPS, MIN_CONSENSUS_WEIGHT_BPS. nia.
Qed.

(** ** What "a better history" means *)

(** Same report, no larger deviation, heartbeat kept or gained. *)
Definition obs_improves (o1 o2 : OperatorObservation) : Prop :=
  ob_observedAt o1 = ob_observedAt o2 ∧ ob_excused o1 = ob_excused o2 ∧
  ob_deviationBps o2 <= ob_deviationBps o1 ∧ (ob_heartbeatMet o1 = true -> ob_heartbeatMet o2 = true).

(** Upheld disputes may be cleared or absent; nothing else changes. *)
Inductive disputes_improve : list OperatorDispute -> list OperatorDispute -> Prop :=
| di_nil : disputes_improve [] []
| di_keep d l l' : disputes_improve l l' -> disputes_improve (d :: l) (d :: l')
| di_clear a l l' : disputes_improve l l' ->
    disputes_improve (mkDispute a Upheld :: l) (mkDispute a Rejected :: l')
| di_drop a l l' : disputes_improve l l' -> disputes_improve (mkDispute a Upheld :: l) l'.

Record improves (h1 h2 : OperatorHistory) : Prop := {
  im_registered : hi_registeredAt h2 <= hi_registeredAt h1;
  im_obs : Forall2 obs_improves (hi_observations h1) (hi_observations h2);
  im_disputes : disputes_improve (hi_disputes h1) (hi_disputes h2);
}.

Lemma countedObservations_improve l1 l2 now :
  Forall2 obs_improves l1 l2 ->
  Forall2 obs_improves (countedObservations l1 now) (countedObservations l2 now).
Proof.
  unfold countedObservations. induction 1 as [|o1 o2 l1 l2 Ho _ IH]; [done|].
  pose proof Ho as (Ha & He & _). rewrite !filter_cons, He, Ha. case_decide; [|done]. by constructor.
Qed.

Lemma disputes_mean_mono l1 l2 now :
  disputes_improve l1 l2 ->
  decayedMean (map disputeSample l1) BPS now <= decayedMean (map disputeSample l2) BPS now.
Proof.
  intros H. rewrite !decayedMean_eq.
  assert (weightSum now (map disputeSample l2) <= weightSum now (map disputeSample l1) ∧
          0 <= valueSum now (map disputeSample l1) <= valueSum now (map disputeSample l2)) as [Hw Hv].
  { unfold weightSum, valueSum. induction H as [|d l l' _ [IHw IHv]|a l l' _ [IHw IHv]|a l l' _ [IHw IHv]];
      cbn [map]; rewrite ?sumZ_cons; [done|..].
    - pose proof (sampleWeight_nonneg now (disputeSample d)).
      assert (0 <= (disputeSample d).2) by (destruct d as [? []]; simpl; unfold BPS; lia).
      match goal with |- context [?a * ?b] => pose proof (Z.mul_nonneg_nonneg a b) end. lia.
    - pose proof (sampleWeight_nonneg now (disputeSample (mkDispute a Upheld))).
      change (sampleWeight now (disputeSample (mkDispute a Rejected)))
        with (sampleWeight now (disputeSample (mkDispute a Upheld))).
      cbn [disputeSample di_outcome di_resolvedAt snd]. unfold BPS. lia.
    - pose proof (sampleWeight_nonneg now (disputeSample (mkDispute a Upheld))).
      unfold disputeSample in *; simpl in *. lia. }
  pose proof (decayedMean_den_pos (map disputeSample l2) now).
  assert (0 <= PRIOR_WEIGHT * BPS) by (unfold PRIOR_WEIGHT, BPS; lia).
  apply Z.div_le_lower_bound; [done|].
  match goal with |- _ * (?n / ?d) <= _ => pose proof (Z.mul_div_le n d); pose proof (Z.div_pos n d) end.
  nia.
Qed.

Lemma scoreComponents_mono h1 h2 now :
  improves h1 h2 -> totalScore (scoreComponents h1 now) <= totalScore (scoreComponents h2 now).
Proof.
  intros [Hreg Hobs Hdis]. apply (countedObservations_improve _ _ now) in Hobs.
  apply totalScore_mono; simpl.
  - apply decayedMean_mono, Forall2_fmap. eapply Forall2_impl; [exact Hobs|].
    intros o1 o2 (? & ? & Hd & ?); simpl. split; [done|]. apply clampBps_mono in Hd. lia.
  - apply decayedMean_mono, Forall2_fmap. eapply Forall2_impl; [exact Hobs|].
    intros o1 o2 (? & ? & ? & Hb); simpl. split; [done|].
    destruct (ob_heartbeatMet o1), (ob_heartbeatMet o2); unfold BPS; naive_solver lia.
  - by apply disputes_mean_mono.
  - apply clampBps_mono, Z.div_le_mono; [done|]. unfold BPS; nia.
Qed.

Lemma scoreOperator_weight_bounds h now :
  (sc_eligible (scoreOperator h now) = true ∧
     MIN_CONSENSUS_WEIGHT_BPS <= sc_weight (scoreOperator h now) <= MAX_CONSENSUS_WEIGHT_BPS) ∨
  (sc_eligible (scoreOperator h now) = false ∧ sc_weight (scoreOperator h now) = 0).
Proof.
  unfold scoreOperator; simpl. case_bool_decide; [left|right]; split; auto using consensusWeight_bounds.
Qed.

(** Every score the quorum reports is one operator's score. *)
Lemma weightOperators_scores (hs : list OperatorHistory) now s :
  s ∈ wq_scores (weightOperators hs now) -> ∃ h, h ∈ hs ∧ s = scoreOperator h now.
Proof.
  simpl. rewrite elem_of_sort_by. intros (h & -> & ?)%list_elem_of_fmap. eauto.
Qed.

(** Weight held by a list of scores is at least MIN per eligible operator. *)
Lemma weight_sum_lower (hs : list OperatorHistory) now l :
  (forall s, s ∈ l -> ∃ h, h ∈ hs ∧ s = scoreOperator h now) ->
  MIN_CONSENSUS_WEIGHT_BPS * Z.of_nat (length (filter (fun s => sc_eligible s = true) l))
  <= sumZ (map sc_weight l).
Proof.
  induction l as [|s l IH]; intros Hl; [done|]. rewrite filter_cons. simpl.
  specialize (IH (fun s' H => Hl s' ltac:(set_solver))).
  destruct (Hl s ltac:(set_solver)) as (h & _ & ->).
  destruct (scoreOperator_weight_bounds h now) as [[He Hb]|[He Hb]]; case_decide; simpl in *; try congruence;
    unfold MIN_CONSENSUS_WEIGHT_BPS in *; lia.
Qed.

Lemma weightOperators_ok_count hs now :
  wq_status (weightOperators hs now) = QsOk -> 3 <= wq_eligibleCount (weightOperators hs now).
Proof. simpl. unfold MIN_QUORUM_OPERATORS. repeat case_decide; try done. lia. Qed.

(** ** Properties *)

(** "Monotonic": a history with smaller deviations, more heartbeats, earlier
    registration, or upheld disputes cleared or absent never scores lower, and
    never loses eligibility or consensus weight. *)
Theorem score_monotonic (h1 h2 : OperatorHistory) (now : Z) (H : improves h1 h2) :
  sc_score (scoreOperator h1 now) <= sc_score (scoreOperator h2 now) ∧
  (sc_eligible (scoreOperator h1 now) = true -> sc_eligible (scoreOperator h2 now) = true) ∧
  sc_weight (scoreOperator h1 now) <= sc_weight (scoreOperator h2 now).
Proof.
  pose proof (scoreComponents_mono h1 h2 now H) as Hs.
  pose proof (Forall2_length _ _ _ (countedObservations_improve _ _ now (im_obs _ _ H))) as Hlen.
  unfold scoreOperator; simpl. rewrite <- Hlen. split; [done|].
  pose proof (consensusWeight_bounds (totalScore (scoreComponents h2 now))).
  unfold MIN_CONSENSUS_WEIGHT_BPS in *.
  repeat case_bool_decide; auto using consensusWeight_mono; try lia; naive_solver lia.
Qed.

Definition sample_history (dev : Z) (hb : bool) (ds : list OperatorDispute) : OperatorHistory :=
  mkHistory "op" 0 (replicate 30 (mkObs 7000000000 dev hb false)) ds.

Lemma score_monotonic_witness :
  sc_score (scoreOperator (sample_history 900 false [mkDispute 7500000000 Upheld]) 8000000000)
    <= sc_score (scoreOperator (sample_history 100 true []) 8000000000).
Proof.
  apply (score_monotonic (sample_history 900 false [mkDispute 7500000000 Upheld])
           (sample_history 100 true []) 8000000000).
  split; simpl; [lia| |apply di_drop, di_nil].
  repeat (apply List.Forall2_cons; [repeat split; simpl; lia|]). apply List.Forall2_nil.
Defined.

(** The score and each component lie in 0..10000 whatever the history, and
    the weight is 0 for a probationary operator and within
    [MIN_CONSENSUS_WEIGHT_BPS, MAX_CONSENSUS_WEIGHT_BPS] for an eligible one. *)
Theorem score_bounds (h : OperatorHistory) (now : Z) :
  let s := scoreOperator h now in
  0 <= sc_score s <= BPS ∧
  (0 <= rc_accuracy (sc_components s) <= BPS ∧ 0 <= rc_availability (sc_components s) <= BPS ∧
   0 <= rc_disputes (sc_components s) <= BPS ∧ 0 <= rc_tenure (sc_components s) <= BPS) ∧
  (sc_weight s = 0 <-> sc_eligible s = false) ∧
  (sc_eligible s = true -> MIN_CONSENSUS_WEIGHT_BPS <= sc_weight s <= MAX_CONSENSUS_WEIGHT_BPS).
Proof.
  pose proof (components_bounds h now) as Hc. unfold scoreOperator; cbv zeta in Hc |- *.
  generalize dependent (scoreComponents h now). intros [a b c d] Hc.
  cbn [sc_score sc_components sc_weight sc_eligible rc_accuracy rc_availability rc_disputes rc_tenure] in *.
  split; [|split; [exact Hc|]].
  - unfold totalScore, W_accuracy, W_availability, W_disputes, W_tenure, BPS in *; simpl.
    split; [apply Z.div_pos; lia|]. apply Z.div_le_upper_bound; lia.
  - pose proof (consensusWeight_bounds (totalScore (mkComponents a b c d))).
    unfold MIN_CONSENSUS_WEIGHT_BPS in *. case_bool_decide; naive_solver lia.
Qed.

(** "Order of input arrays does not affect the result". *)
Theorem score_order_independent (id : string) (reg now : Z) (obs obs' : list OperatorObservation)
    (ds ds' : list OperatorDispute) (Ho : obs ≡ₚ obs') (Hd : ds ≡ₚ ds') :
  scoreOperator (mkHistory id reg obs ds) now = scoreOperator (mkHistory id reg obs' ds') now.
Proof.
  assert (countedObservations obs now ≡ₚ countedObservations obs' now) as Hp.
  { by apply filter_Permutation. }
  assert (scoreComponents (mkHistory id reg obs ds) now = scoreComponents (mkHistory id reg obs' ds') now) as Hc.
  { unfold scoreComponents; simpl. f_equal; apply decayedMean_perm; by apply Permutation_map. }
  apply Permutation_length in Hp. unfold scoreOperator; simpl hi_observations; simpl hi_operatorId.
  by rewrite Hc, Hp.
Qed.

Lemma score_order_independent_witness :
  scoreOperator (mkHistory "op" 0 [mkObs 5 10 true false; mkObs 9 2000 false false] []) 10 =
  scoreOperator (mkHistory "op" 0 [mkObs 9 2000 false false; mkObs 5 10 true false] []) 10.
Proof. apply (score_order_independent "op" 0 10); [apply Permutation_swap|reflexivity]. Defined.

(** With an "ok" quorum no single operator holds more than half of the total
    consensus weight, the bound MAX / (MAX + (n - 1) * MIN) <= 1/2 the caps were
    chosen for. *)
Theorem no_operator_majority (hs : list OperatorHistory) (now : Z) (s : ReputationScore)
    (Hok : wq_status (weightOperators hs now) = QsOk)
    (Hs : s ∈ wq_scores (weightOperators hs now)) :
  2 * sc_weight s <= sumZ (map sc_weight (wq_scores (weightOperators hs now))).
Proof.
  pose proof (weightOperators_ok_count hs now Hok) as Hn.
  pose proof (weightOperators_scores hs now) as Hsc.
  change (wq_eligibleCount (weightOperators hs now)) with
    (Z.of_nat (length (filter (fun s => sc_eligible s = true) (wq_scores (weightOperators hs now))))) in Hn.
  set (scores := wq_scores (weightOperators hs now)) in *.
  apply elem_of_Permutation in Hs as [rest Hperm].
  rewrite Hperm in Hn |- *. rewrite filter_cons in Hn.
  assert (Hrest : forall s', s' ∈ rest -> ∃ h, h ∈ hs ∧ s' = scoreOperator h now).
  { intros s' Hin. apply Hsc. rewrite Hperm. set_solver. }
  pose proof (weight_sum_lower hs now rest Hrest) as Hlow.
  destruct (Hsc s ltac:(rewrite Hperm; set_solver)) as (h & _ & ->).
  simpl map. rewrite sumZ_cons.
  unfold MIN_CONSENSUS_WEIGHT_BPS, MAX_CONSENSUS_WEIGHT_BPS in *.
  destruct (scoreOperator_weight_bounds h now) as [[He Hb]|[He Hb]];
    unfold MIN_CONSENSUS_WEIGHT_BPS, MAX_CONSENSUS_WEIGHT_BPS in *; case_decide; simpl in *; try congruence; lia.
Qed.

Definition three_operators : list OperatorHistory :=
  map (fun id => mkHistory id 0 (replicate 30 (mkObs 7999999990 0 true false)) []) ["c"; "a"; "b"]%string.

Lemma no_operator_majority_witness :
  2 * sc_weight (scoreOperator (mkHistory "a" 0 (replicate 30 (mkObs 7999999990 0 true false)) []) 8000000000)
   <= sumZ (map sc_weight (wq_scores (weightOperators three_operators 8000000000))).
Proof.
  apply (no_operator_majority three_operators 8000000000); [vm_compute; reflexivity|].
  vm_compute. apply list_elem_of_here.
Defined.
