(* ===== verification/Staking.v ===== *)
(** Bond, unbond, withdraw and slashing for oracle operators
    (src/services/staking.ts).

    [StakingDb] is the three tables the service owns.  Every method is a
    function from the database to its outcome and the database after it; a
    method that throws inside [withTransaction] leaves the database unchanged.
    Amounts are integers in base units, instants are epoch milliseconds, and
    [now] is the database clock of the statement or transaction.  Row ids come
    from [db_nextId]. *)

From stdpp Require Import base gmap list strings sorting.
From Stdlib Require Import ZArith Lia Ascii.
From S2P Require Import Prelude Decimal.
Open Scope Z_scope.

Inductive FeedTier := Tier1 | Tier2 | Tier3.
Inductive SlashReason := OutsideTolerance | PostQuarantine | Equivocation.
Inductive ProposalStatus := PendingReview | PendingAppeal | Approved | RejectedP | Executed.

#[global] Instance FeedTier_eq_dec : EqDecision FeedTier.
Proof. solve_decision. Defined.
#[global] Instance SlashReason_eq_dec : EqDecision SlashReason.
Proof. solve_decision. Defined.
#[global] Instance ProposalStatus_eq_dec : EqDecision ProposalStatus.
Proof. solve_decision. Defined.

Definition FEED_TIERS : list FeedTier := [Tier1; Tier2; Tier3].
Definition BPS_DENOMINATOR : Z := 10000.
Definition DAY_SECONDS : Z := 86400.
Definition STROOPS_PER_UNIT : Z := 10 ^ 7.

Definition is_open (s : ProposalStatus) : bool :=
  match s with PendingReview | PendingAppeal | Approved => true | _ => false end.

Record AutoSlash := mkAutoSlash {
  as_enabled : bool;
  as_maxBps : Z;
  as_appealWindowSeconds : Z;
}.

Record StakingPolicy := mkStakingPolicy {
  sp_unbondingPeriodSeconds : Z;
  sp_minBondAgeSeconds : Z;
  sp_minBondByTier : FeedTier -> Z;
  sp_slashBps : SlashReason -> Z;
  sp_autoSlash : AutoSlash;
}.

Inductive StakingError := BadRequest | Conflict | NotFound | InvalidEnv | SlashExceedsStake.

(** ** Policy from the environment *)

(** [env[key]?.trim()], falling back when absent or empty, and failing unless
    every character is a digit. *)
Definition unsignedInt (env : string -> option text) (key : string) (fallback : Z) : res StakingError Z :=
  match env key with
  | None => Ok fallback
  | Some v =>
      let raw := trim v in
      if decide (raw = []) then Ok fallback
      else if negb (all_digits raw) then Err InvalidEnv
      else Ok (dec_val raw)
  end.

Definition unsignedBigInt := unsignedInt.

Definition to_lower (c : ascii) : ascii :=
  if decide (65 <= N_of_ascii c <= 90)%N then ascii_of_N (N_of_ascii c + 32) else c.

Definition loadStakingPolicy (env : string -> option text) : res StakingError StakingPolicy :=
  unbonding ← unsignedInt env "STAKING_UNBONDING_PERIOD_SECONDS" (14 * DAY_SECONDS);
  age ← unsignedInt env "STAKING_MIN_BOND_AGE_SECONDS" (7 * DAY_SECONDS);
  t1 ← unsignedBigInt env "STAKING_MIN_BOND_TIER1" (50000 * STROOPS_PER_UNIT);
  t2 ← unsignedBigInt env "STAKING_MIN_BOND_TIER2" (25000 * STROOPS_PER_UNIT);
  t3 ← unsignedBigInt env "STAKING_MIN_BOND_TIER3" (10000 * STROOPS_PER_UNIT);
  outside ← unsignedInt env "STAKING_SLASH_BPS_OUTSIDE_TOLERANCE" 500;
  postq ← unsignedInt env "STAKING_SLASH_BPS_POST_QUARANTINE" 1000;
  equiv ← unsignedInt env "STAKING_SLASH_BPS_EQUIVOCATION" 2500;
  let enabled :=
    match env "STAKING_AUTO_SLASH_ENABLED" with
    | None => false
    | Some v => bool_decide (map to_lower (trim v) = String.list_ascii_of_string "true")
    end in
  maxBps ← unsignedInt env "STAKING_AUTO_SLASH_MAX_BPS" 500;
  appeal ← unsignedInt env "STAKING_APPEAL_WINDOW_SECONDS" (3 * DAY_SECONDS);
  Ok (mkStakingPolicy unbonding age
        (fun t => match t with Tier1 => t1 | Tier2 => t2 | Tier3 => t3 end)
        (fun r => match r with OutsideTolerance => outside | PostQuarantine => postq | Equivocation => equiv end)
        (mkAutoSlash enabled maxBps appeal)).

(** ** Pure helpers *)

Definition slashAmountFor (atStake bps : Z) : Z :=
  if decide (atStake <= 0 ∨ bps <= 0) then 0
  else Z.min (Z.quot (atStake * bps) BPS_DENOMINATOR) atStake.

(** The loop over the unbonding lots [(id, amount)]. *)
Fixpoint allocateLots (lots : list (Z * Z)) (remaining : Z) (acc : list (Z * Z)) : Z * list (Z * Z) :=
  match lots with
  | [] => (remaining, acc)
  | (id, amount) :: rest =>
      if decide (remaining = 0) then (remaining, acc)
      else
        let take := Z.min amount remaining in
        allocateLots rest (remaining - take)
          (if decide (take > 0) then jm_set acc id take else acc)
  end.

Definition allocateSlash (bonded : Z) (unbonding : list (Z * Z)) (amount : Z)
    : res StakingError (Z * list (Z * Z)) :=
  let fromBonded := Z.min bonded amount in
  let '(remaining, fromUnbonding) := allocateLots unbonding (amount - fromBonded) [] in
  if decide (remaining ≠ 0) then Err SlashExceedsStake else Ok (fromBonded, fromUnbonding).

Definition isBondEligible (bonded : Z) (firstBondedAt : option Z) (tierMinimum minBondAgeSeconds now : Z) : bool :=
  match firstBondedAt with
  | None => false
  | Some at_ =>
      if decide (bonded < tierMinimum) then false
      else bool_decide (now - at_ >= minBondAgeSeconds * 1000)
  end.

Record OracleSubmission := mkSubmission {
  su_evidenceId : string;
  su_operatorId : string;
  su_feedId : string;
  su_roundId : string;
  su_value : Z;
  su_submittedAt : Z;
}.

Record SubmissionContext := mkContext {
  cx_consensus : option Z;
  cx_toleranceBps : Z;
  cx_quarantinedAt : option Z;
}.

Record SlashableFinding := mkFinding {
  fi_reason : SlashReason;
  fi_evidenceIds : list string;
}.

Definition outsideTolerance (submission : OracleSubmission) (context : SubmissionContext) : bool :=
  match cx_consensus context with
  | None => false
  | Some consensus =>
      if decide (consensus > 0) then
        let diff := if decide (su_value submission > consensus)
                    then su_value submission - consensus else consensus - su_value submission in
        bool_decide (diff * BPS_DENOMINATOR > consensus * cx_toleranceBps context)
      else false
  end.

Definition equivocates (submission other : OracleSubmission) : bool :=
  bool_decide (su_evidenceId other ≠ su_evidenceId submission ∧
               su_operatorId other = su_operatorId submission ∧
               su_feedId other = su_feedId submission ∧
               su_roundId other = su_roundId submission ∧
               su_value other ≠ su_value submission).

Definition detectSlashableConditions (submission : OracleSubmission) (siblings : list OracleSubmission)
    (context : SubmissionContext) : list SlashableFinding :=
  (if outsideTolerance submission context
   then [mkFinding OutsideTolerance [su_evidenceId submission]] else []) ++
  (match cx_quarantinedAt context with
   | Some q => if decide (su_submittedAt submission > q)
               then [mkFinding PostQuarantine [su_evidenceId submission]] else []
   | None => []
   end) ++
  map (fun other => mkFinding Equivocation (sort_strings [su_evidenceId submission; su_evidenceId other]))
      (filter (fun other => equivocates submission other = true) siblings).

(** ** Tables *)

Record BondRow := mkBond {
  bd_bondedAmount : Z;
  bd_firstBondedAt : option Z;
}.

Inductive UnbondStatus := Unbonding | Withdrawn | Slashed.
#[global] Instance UnbondStatus_eq_dec : EqDecision UnbondStatus.
Proof. solve_decision. Defined.

Record UnbondRow := mkUnbond {
  ub_id : Z;
  ub_operatorId : string;
  ub_amount : Z;
  ub_requestedAt : Z;
  ub_availableAt : Z;
  ub_status : UnbondStatus;
}.

Record ProposalRow := mkProposal {
  pr_id : Z;
  pr_operatorId : string;
  pr_reason : SlashReason;
  pr_evidenceIds : list string;
  pr_evidenceKey : string;
  pr_amount : Z;
  pr_status : ProposalStatus;
  pr_appealUntil : option Z;
  pr_executionTxHash : option string;
}.

Record StakingDb := mkDb {
  db_bonds : gmap string BondRow;
  db_unbonds : list UnbondRow;
  db_proposals : list ProposalRow;
  db_nextId : Z;
}.

Definition emptyDb : StakingDb := mkDb ∅ [] [] 1.

Definition parseAmount (value : text) : res StakingError Z :=
  match value with
  | c :: _ =>
      if negb (all_digits value) || bool_decide (c = c_zero) then Err BadRequest else Ok (dec_val value)
  | [] => Err BadRequest
  end.

(** Queries the methods share. *)

Definition bondedOf (db : StakingDb) (op : string) : Z :=
  match db_bonds db !! op with Some b => bd_bondedAmount b | None => 0 end.

Definition isUnbondingOf (op : string) (r : UnbondRow) : Prop :=
  ub_operatorId r = op ∧ ub_status r = Unbonding.
#[global] Instance isUnbondingOf_dec op r : Decision (isUnbondingOf op r).
Proof. unfold isUnbondingOf. apply _. Defined.

(** [... WHERE operator_id = $1 AND status = 'unbonding' ORDER BY requested_at]. *)
Definition unbondingLots (db : StakingDb) (op : string) : list UnbondRow :=
  sort_by (fun a b => bool_decide (ub_requestedAt a <= ub_requestedAt b))
    (filter (isUnbondingOf op) (db_unbonds db)).

Definition unbondingSum (rows : list UnbondRow) (op : string) : Z :=
  sumZ (map ub_amount (filter (isUnbondingOf op) rows)).

Definition hasOpenProposal (db : StakingDb) (op : string) : bool :=
  existsb (fun p => bool_decide (pr_operatorId p = op) && is_open (pr_status p)) (db_proposals db).

Definition atStake (db : StakingDb) (op : string) (bonded : Z) : Z :=
  bonded + unbondingSum (db_unbonds db) op.

Definition withTransaction {A} (fn : StakingDb -> res StakingError (A * StakingDb)) (db : StakingDb)
    : res StakingError A * StakingDb :=
  match fn db with
  | Ok (a, db') => (Ok a, db')
  | Err e => (Err e, db)
  end.

Definition lockBond (db : StakingDb) (op : string) : res StakingError BondRow :=
  match db_bonds db !! op with Some b => Ok b | None => Err NotFound end.

Definition set_bond (db : StakingDb) (op : string) (b : BondRow) : StakingDb :=
  mkDb (<[op := b]> (db_bonds db)) (db_unbonds db) (db_proposals db) (db_nextId db).

(** ** Methods *)

Record UnbondingView := mkUnbondingView { uv_id : Z; uv_amount : Z; uv_availableAt : Z; uv_remainingSeconds : Z }.
Record StakingStatus := mkStatus {
  st_operatorId : string;
  st_bondedAmount : Z;
  st_eligibleTiers : list FeedTier;
  st_unbonding : list UnbondingView;
  st_pendingSlashing : list ProposalRow;
}.

(** [Math.ceil(a / 1000)]. *)
Definition ceil_seconds (ms : Z) : Z := - (- ms / 1000).

Definition getStatus (policy : StakingPolicy) (db : StakingDb) (operatorId : string) (now : Z) : StakingStatus :=
  let bond := db_bonds db !! operatorId in
  let bonded := bondedOf db operatorId in
  mkStatus operatorId bonded
    (filter (fun tier =>
       isBondEligible bonded (bond ≫= bd_firstBondedAt) (sp_minBondByTier policy tier)
         (sp_minBondAgeSeconds policy) now = true) FEED_TIERS)
    (map (fun row => mkUnbondingView (ub_id row) (ub_amount row) (ub_availableAt row)
            (Z.max 0 (ceil_seconds (ub_availableAt row - now)))) (unbondingLots db operatorId))
    (filter (fun p => pr_operatorId p = operatorId ∧ is_open (pr_status p) = true) (db_proposals db)).

Definition recordBond (now : Z) (operatorId : string) (amountInput : text) (db : StakingDb)
    : res StakingError unit * StakingDb :=
  match parseAmount amountInput with
  | Err e => (Err e, db)
  | Ok amount =>
      let row :=
        match db_bonds db !! operatorId with
        | None => mkBond amount (Some now)
        | Some b => mkBond (bd_bondedAmount b + amount)
                      (Some (match bd_firstBondedAt b with Some t => t | None => now end))
        end in
      (Ok (), set_bond db operatorId row)
  end.

Definition requestUnbond (policy : StakingPolicy) (now : Z) (operatorId : string) (amountInput : text)
    (db : StakingDb) : res StakingError (Z * Z) * StakingDb :=
  match parseAmount amountInput with
  | Err e => (Err e, db)
  | Ok amount =>
      withTransaction (fun db =>
        bond ← lockBond db operatorId;
        if decide (amount > bd_bondedAmount bond) then Err Conflict
        else
          let availableAt := now + sp_unbondingPeriodSeconds policy * 1000 in
          let row := mkUnbond (db_nextId db) operatorId amount now availableAt Unbonding in
          Ok ((db_nextId db, availableAt),
              mkDb (<[operatorId := mkBond (bd_bondedAmount bond - amount) (bd_firstBondedAt bond)]> (db_bonds db))
                   (db_unbonds db ++ [row]) (db_proposals db) (db_nextId db + 1))) db
  end.

Definition releasable (op : string) (now : Z) (r : UnbondRow) : Prop :=
  isUnbondingOf op r ∧ ub_availableAt r <= now.
#[global] Instance releasable_dec op now r : Decision (releasable op now r).
Proof. unfold releasable. apply _. Defined.

Definition set_unbond (r : UnbondRow) (amount : Z) (s : UnbondStatus) : UnbondRow :=
  mkUnbond (ub_id r) (ub_operatorId r) amount (ub_requestedAt r) (ub_availableAt r) s.

Definition withdraw (now : Z) (operatorId : string) (db : StakingDb) : res StakingError Z * StakingDb :=
  withTransaction (fun db =>
    _ ← lockBond db operatorId;
    if hasOpenProposal db operatorId then Err Conflict
    else
      let total := sumZ (map ub_amount (filter (releasable operatorId now) (db_unbonds db))) in
      Ok (total,
          mkDb (db_bonds db)
            (map (fun r => if decide (releasable operatorId now r) then set_unbond r (ub_amount r) Withdrawn else r)
                 (db_unbonds db))
            (db_proposals db) (db_nextId db))) db.

Definition reason_text (r : SlashReason) : string :=
  match r with
  | OutsideTolerance => "outside_tolerance"
  | PostQuarantine => "post_quarantine"
  | Equivocation => "equivocation"
  end.

Definition evidenceKeyOf (finding : SlashableFinding) : string :=
  (reason_text (fi_reason finding) +:+ ":" +:+ String.concat "|" (fi_evidenceIds finding))%string.

Definition createProposal (policy : StakingPolicy) (now : Z) (operatorId : string) (finding : SlashableFinding)
    (db : StakingDb) : res StakingError (option ProposalRow) * StakingDb :=
  let evidenceKey := evidenceKeyOf finding in
  let bps := sp_slashBps policy (fi_reason finding) in
  withTransaction (fun db =>
    match db_bonds db !! operatorId with
    | None => Ok (None, db)
    | Some bond =>
        match List.find (fun p => bool_decide (pr_evidenceKey p = evidenceKey)) (db_proposals db) with
        | Some existing => Ok (Some existing, db)
        | None =>
            let amount := slashAmountFor (atStake db operatorId (bd_bondedAmount bond)) bps in
            if decide (amount = 0) then Ok (None, db)
            else
              let autoEligible := as_enabled (sp_autoSlash policy) && bool_decide (bps <= as_maxBps (sp_autoSlash policy)) in
              let row :=
                mkProposal (db_nextId db) operatorId (fi_reason finding) (fi_evidenceIds finding) evidenceKey amount
                  (if autoEligible then PendingAppeal else PendingReview)
                  (if autoEligible then Some (now + as_appealWindowSeconds (sp_autoSlash policy) * 1000) else None)
                  None in
              Ok (Some row, mkDb (db_bonds db) (db_unbonds db) (db_proposals db ++ [row]) (db_nextId db + 1))
        end
    end) db.

(** [for (const finding of ...) { const p = await createProposal(...); if (p) created.push(p); }] *)
Fixpoint createProposals (policy : StakingPolicy) (now : Z) (operatorId : string)
    (findings : list SlashableFinding) (created : list ProposalRow) (db : StakingDb)
    : res StakingError (list ProposalRow) * StakingDb :=
  match findings with
  | [] => (Ok created, db)
  | f :: rest =>
      match createProposal policy now operatorId f db with
      | (Err e, db') => (Err e, db')
      | (Ok None, db') => createProposals policy now operatorId rest created db'
      | (Ok (Some p), db') => createProposals policy now operatorId rest (created ++ [p]) db'
      end
  end.

Definition evaluateSubmission (policy : StakingPolicy) (now : Z) (submission : OracleSubmission)
    (siblings : list OracleSubmission) (context : SubmissionContext) (db : StakingDb)
    : res StakingError (list ProposalRow) * StakingDb :=
  createProposals policy now (su_operatorId submission)
    (detectSlashableConditions submission siblings context) [] db.

Definition set_status (p : ProposalRow) (s : ProposalStatus) (appeal : option Z) (tx : option string) : ProposalRow :=
  mkProposal (pr_id p) (pr_operatorId p) (pr_reason p) (pr_evidenceIds p) (pr_evidenceKey p) (pr_amount p) s appeal tx.

(** [UPDATE slashing_proposals SET ... WHERE id = $1 AND guard RETURNING ...];
    no row updated is the conflict of [requireTransition]. *)
Definition updateProposal (proposalId : Z) (guard : ProposalRow -> bool) (f : ProposalRow -> ProposalRow)
    (db : StakingDb) : res StakingError ProposalRow * StakingDb :=
  let hit p := bool_decide (pr_id p = proposalId) && guard p in
  match List.find hit (db_proposals db) with
  | None => (Err Conflict, db)
  | Some p => (Ok (f p), mkDb (db_bonds db) (db_unbonds db)
                          (map (fun q => if hit q then f q else q) (db_proposals db)) (db_nextId db))
  end.

Definition appealClosed (now : Z) (p : ProposalRow) : bool :=
  match pr_appealUntil p with Some t => bool_decide (t <= now) | None => false end.
Definition appealOpen (now : Z) (p : ProposalRow) : bool :=
  match pr_appealUntil p with Some t => bool_decide (t > now) | None => false end.

Definition approveProposal (now : Z) (proposalId : Z) : StakingDb -> res StakingError ProposalRow * StakingDb :=
  updateProposal proposalId
    (fun p => bool_decide (pr_status p = PendingReview) ||
              (bool_decide (pr_status p = PendingAppeal) && appealClosed now p))
    (fun p => set_status p Approved (pr_appealUntil p) (pr_executionTxHash p)).

Definition rejectProposal (proposalId : Z) : StakingDb -> res StakingError ProposalRow * StakingDb :=
  updateProposal proposalId
    (fun p => bool_decide (pr_status p = PendingReview) || bool_decide (pr_status p = PendingAppeal))
    (fun p => set_status p RejectedP (pr_appealUntil p) (pr_executionTxHash p)).

Definition appealProposal (now : Z) (proposalId : Z) : StakingDb -> res StakingError ProposalRow * StakingDb :=
  updateProposal proposalId
    (fun p => bool_decide (pr_status p = PendingAppeal) && appealOpen now p)
    (fun p => set_status p PendingReview None (pr_executionTxHash p)).

(** [UPDATE unbond_requests SET amount = $2, status = CASE WHEN $2 = 0 THEN
    'slashed' ELSE status END WHERE id = $1]. *)
Definition slashLot (id remaining : Z) (rows : list UnbondRow) : list UnbondRow :=
  map (fun r => if decide (ub_id r = id)
                then set_unbond r remaining (if decide (remaining = 0) then Slashed else ub_status r)
                else r) rows.

(** The loop over the locked lots. *)
Fixpoint slashLots (lots : list UnbondRow) (fromUnbonding : list (Z * Z)) (rows : list UnbondRow) : list UnbondRow :=
  match lots with
  | [] => rows
  | lot :: rest =>
      match jm_get fromUnbonding (ub_id lot) with
      | None => slashLots rest fromUnbonding rows
      | Some take => slashLots rest fromUnbonding (slashLot (ub_id lot) (ub_amount lot - take) rows)
      end
  end.

Definition executeProposal (proposalId : Z) (txHash : text) (db : StakingDb)
    : res StakingError ProposalRow * StakingDb :=
  if decide (trim txHash = []) then (Err BadRequest, db)
  else withTransaction (fun db =>
    match List.find (fun p => bool_decide (pr_id p = proposalId)) (db_proposals db) with
    | None => Err NotFound
    | Some proposal =>
        if decide (pr_status proposal ≠ Approved) then Err Conflict
        else
          let op := pr_operatorId proposal in
          bond ← lockBond db op;
          let lots := unbondingLots db op in
          let bonded := bd_bondedAmount bond in
          let stake := foldl (fun sum lot => sum + ub_amount lot) bonded lots in
          let slash := Z.min (pr_amount proposal) stake in
          '(fromBonded, fromUnbonding) ← allocateSlash bonded (map (fun l => (ub_id l, ub_amount l)) lots) slash;
          let done_ := set_status proposal Executed (pr_appealUntil proposal)
                         (Some (String.string_of_list_ascii txHash)) in
          Ok (done_,
              mkDb (<[op := mkBond (bonded - fromBonded) (bd_firstBondedAt bond)]> (db_bonds db))
                   (slashLots lots fromUnbonding (db_unbonds db))
                   (map (fun q => if decide (pr_id q = proposalId)
                                  then set_status q Executed (pr_appealUntil q)
                                         (Some (String.string_of_list_ascii txHash))
                                  else q) (db_proposals db))
                   (db_nextId db))
    end) db.

(** ** Stake at risk and well-formed databases *)

(** Everything a slash can still reach: the bond and the unbonding lots. *)
Definition stakeOf (db : StakingDb) (op : string) : Z :=
  bondedOf db op + unbondingSum (db_unbonds db) op.

Record wf (db : StakingDb) : Prop := mkWf {
  wf_bonds : map_Forall (fun _ b => 0 <= bd_bondedAmount b) (db_bonds db);
  wf_amounts : Forall (fun r => 0 <= ub_amount r) (db_unbonds db);
  wf_unbond_ids : NoDup (map ub_id (db_unbonds db));
  wf_unbond_fresh : Forall (fun r => ub_id r < db_nextId db) (db_unbonds db);
  wf_proposal_rows : Forall (fun p => 0 < pr_amount p ∧ pr_id p < db_nextId db) (db_proposals db);
  wf_proposal_ids : NoDup (map pr_id (db_proposals db));
  wf_evidence_keys : NoDup (map pr_evidenceKey (db_proposals db));
}.

(** The calls of the HTTP layer, each at its database time. *)
Inductive Action :=
| ABond (op : string) (amount : text)
| AUnbond (op : string) (amount : text)
| AWithdraw (op : string)
| AEvaluate (s : OracleSubmission) (siblings : list OracleSubmission) (c : SubmissionContext)
| AApprove (id : Z)
| AReject (id : Z)
| AAppeal (id : Z)
| AExecute (id : Z) (tx : text).

Definition exec (policy : StakingPolicy) (now : Z) (a : Action) (db : StakingDb) : StakingDb :=
  match a with
  | ABond op amount => (recordBond now op amount db).2
  | AUnbond op amount => (requestUnbond policy now op amount db).2
  | AWithdraw op => (withdraw now op db).2
  | AEvaluate s siblings c => (evaluateSubmission policy now s siblings c db).2
  | AApprove id => (approveProposal now id db).2
  | AReject id => (rejectProposal id db).2
  | AAppeal id => (appealProposal now id db).2
  | AExecute id tx => (executeProposal id tx db).2
  end.

(** What an action adds to an operator's stake, read off its outcome. *)
Definition stakeDelta (now : Z) (a : Action) (db : StakingDb) (op : string) : Z :=
  match a with
  | ABond o amount =>
      match recordBond now o amount db, parseAmount amount with
      | (Ok _, _), Ok n => if decide (o = op) then n else 0
      | _, _ => 0
      end
  | AWithdraw o =>
      match (withdraw now o db).1 with Ok n => if decide (o = op) then - n else 0 | Err _ => 0 end
  | AExecute id tx =>
      match (executeProposal id tx db).1 with
      | Ok p => if decide (pr_operatorId p = op) then - Z.min (pr_amount p) (stakeOf db op) else 0
      | Err _ => 0
      end
  | _ => 0
  end.

Fixpoint runStaking (policy : StakingPolicy) (db : StakingDb) (h : list (Z * Action)) : StakingDb :=
  match h with
  | [] => db
  | (now, a) :: h' => runStaking policy (exec policy now a db) h'
  end.

(** ** Lemmas: sums over the unbonding table *)

Definition contrib (op : string) (r : UnbondRow) : Z :=
  if decide (isUnbondingOf op r) then ub_amount r else 0.

Lemma unbondingSum_contrib rows op : unbondingSum rows op = sumZ (map (contrib op) rows).
Proof.
  unfold unbondingSum. induction rows as [|r rows IH]; [done|].
  rewrite filter_cons. cbn [map]. rewrite sumZ_cons. unfold contrib at 1.
  case_decide; cbn [map]; rewrite ?sumZ_cons; lia.
Qed.

Lemma unbondingLots_perm db op : unbondingLots db op ≡ₚ filter (isUnbondingOf op) (db_unbonds db).
Proof. apply sort_by_perm. Qed.

Lemma lots_foldl l : forall b,
  foldl (fun sum lot => sum + ub_amount lot) b l = b + sumZ (map ub_amount l).
Proof. induction l as [|r l IH]; intros b; simpl; [lia|]. rewrite IH. lia. Qed.

Lemma slashLot_ids id rem rows : map ub_id (slashLot id rem rows) = map ub_id rows.
Proof.
  unfold slashLot. rewrite map_map. apply map_ext. intros r. by case_decide.
Qed.

Lemma slashLot_other id rem r rows : ub_id r ≠ id -> r ∈ rows -> r ∈ slashLot id rem rows.
Proof.
  intros Hne Hin. unfold slashLot. apply list_elem_of_fmap. exists r. by rewrite decide_False.
Qed.

Lemma slashLot_sum rows lot rem op op' :
  NoDup (map ub_id rows) -> lot ∈ rows -> isUnbondingOf op lot ->
  sumZ (map (contrib op') (slashLot (ub_id lot) rem rows)) =
  sumZ (map (contrib op') rows) + (if decide (op' = op) then rem - ub_amount lot else 0).
Proof.
  intros Hnd Hin Hu. apply elem_of_Permutation in Hin as [rest Hp].
  assert (slashLot (ub_id lot) rem rows ≡ₚ slashLot (ub_id lot) rem (lot :: rest)) as Hp'.
  { unfold slashLot. by rewrite Hp. }
  rewrite Hp', Hp. rewrite Hp in Hnd. cbn [map] in Hnd. apply NoDup_cons in Hnd as [Hn _].
  assert (slashLot (ub_id lot) rem rest = rest) as Hrest.
  { unfold slashLot. rewrite <- (map_id rest) at 2. apply map_ext_in. intros r Hr.
    rewrite decide_False; [done|]. intros E. apply Hn. rewrite <- E.
    apply list_elem_of_fmap. exists r. split; [done|by apply list_elem_of_In]. }
  assert (slashLot (ub_id lot) rem (lot :: rest) =
    set_unbond lot rem (if decide (rem = 0) then Slashed else ub_status lot) :: slashLot (ub_id lot) rem rest) as ->.
  { unfold slashLot. cbn [map]. by rewrite decide_True. }
  rewrite Hrest. cbn [map]. rewrite !sumZ_cons. unfold contrib at 1 3.
  destruct lot as [i o a rq av st], Hu as [Hop Hst]. simpl in Hop, Hst. subst o st.
  unfold set_unbond; simpl. unfold isUnbondingOf.
  repeat case_decide; simpl in *; naive_solver lia.
Qed.

Definition takeOf (fu : list (Z * Z)) (r : UnbondRow) : Z := default 0 (jm_get fu (ub_id r)).

Lemma slashLots_spec lots fu op : forall rows,
  NoDup (map ub_id rows) -> NoDup (map ub_id lots) ->
  Forall (fun l => l ∈ rows ∧ isUnbondingOf op l ∧ 0 <= takeOf fu l <= ub_amount l) lots ->
  Forall (fun r => 0 <= ub_amount r) rows ->
  map ub_id (slashLots lots fu rows) = map ub_id rows ∧
  Forall (fun r => 0 <= ub_amount r) (slashLots lots fu rows) ∧
  forall op', sumZ (map (contrib op') (slashLots lots fu rows)) =
    sumZ (map (contrib op') rows) - (if decide (op' = op) then sumZ (map (takeOf fu) lots) else 0).
Proof.
  induction lots as [|lot lots IH]; intros rows Hnd Hndl Hl Hpos; simpl.
  { split_and!; [done|done|]. intros op'; case_decide; lia. }
  apply Forall_cons in Hl as [(Hin & Hu & Ht) Hl]. cbn [map] in Hndl. apply NoDup_cons in Hndl as [Hni Hndl].
  unfold takeOf in Ht |- *. destruct (jm_get fu (ub_id lot)) as [take|] eqn:Hg; simpl in Ht |- *.
  - destruct (IH (slashLot (ub_id lot) (ub_amount lot - take) rows)) as (Hids & Hp & Hsum).
    + by rewrite slashLot_ids.
    + done.
    + rewrite Forall_forall in Hl |- *. intros l Hll. destruct (Hl l Hll) as (? & ? & ?).
      split; [|done]. apply slashLot_other; [|done]. intros E. apply Hni. rewrite <- E.
      apply list_elem_of_fmap. eauto.
    + unfold slashLot. apply Forall_fmap. eapply Forall_impl; [exact Hpos|]. intros r Hr; simpl.
      destruct (decide (ub_id r = ub_id lot)); simpl; [unfold takeOf in *; lia|done].
    + split_and!; [by rewrite Hids, slashLot_ids|done|]. intros op'. rewrite Hsum.
      rewrite (slashLot_sum rows lot _ op) by done. unfold takeOf. case_decide; lia.
  - destruct (IH rows) as (Hids & Hp & Hsum); [done..|]. split_and!; [done|done|].
    intros op'. rewrite Hsum. unfold takeOf. case_decide; lia.
Qed.

Lemma allocateLots_spec lots : forall remaining acc rem' acc',
  allocateLots lots remaining acc = (rem', acc') ->
  NoDup (map fst lots) -> Forall (fun l => 0 <= l.2) lots -> 0 <= remaining ->
  (forall id, id ∈ map fst lots -> jm_get acc id = None) ->
  rem' = Z.max 0 (remaining - sumZ (map snd lots)) ∧
  (forall id, id ∉ map fst lots -> jm_get acc' id = jm_get acc id) ∧
  Forall (fun l => 0 <= default 0 (jm_get acc' l.1) <= l.2) lots ∧
  sumZ (map (fun l => default 0 (jm_get acc' l.1)) lots) = remaining - rem'.
Proof.
  induction lots as [|[id amt] lots IH]; intros remaining acc rem' acc' Ha Hnd Hpos Hr Hacc; simpl in *.
  { simplify_eq. unfold sumZ; simpl. split_and!; [lia|done|constructor|lia]. }
  apply NoDup_cons in Hnd as [Hni Hnd]. apply Forall_cons in Hpos as [Hamt Hpos]. simpl in Hamt.
  assert (0 <= sumZ (map snd lots)) as Hs by (by apply sumZ_map_nonneg).
  rewrite ?sumZ_cons. case_decide as Hz.
  - simplify_eq. split_and!; [lia|done| |].
    + constructor; [simpl; rewrite Hacc by set_solver; simpl; lia|].
      rewrite Forall_forall in Hpos |- *. intros [i a] Hin. simpl.
      rewrite Hacc; [specialize (Hpos _ Hin); simpl in *; lia|].
      apply list_elem_of_further, list_elem_of_fmap. by exists (i, a).
    + rewrite Hacc by set_solver. simpl.
      assert (sumZ (map (fun l => default 0 (jm_get acc' l.1)) lots) = 0); [|lia].
      assert (map (fun l => default 0 (jm_get acc' l.1)) lots = map (fun _ => 0) lots) as ->.
      { apply map_ext_in. intros [i a] Hin. simpl. rewrite Hacc; [done|].
        apply list_elem_of_further, list_elem_of_fmap. exists (i, a). split; [done|by apply list_elem_of_In]. }
      clear. induction lots; simpl; lia.
  - set (take := Z.min amt remaining) in *.
    set (acc1 := if decide (take > 0) then jm_set acc id take else acc) in *.
    assert (jm_get acc1 id = if decide (take > 0) then Some take else None) as Hid.
    { unfold acc1. case_decide; [apply jm_get_set_eq|]. apply Hacc. set_solver. }
    assert (forall i, i ≠ id -> jm_get acc1 i = jm_get acc i) as Hother.
    { intros i Hi. unfold acc1. case_decide; [|done]. by apply jm_get_set_ne. }
    destruct (IH (remaining - take) acc1 rem' acc') as (Hrem & Hout & Hall & Hsum); auto.
    { unfold take; lia. }
    { intros i Hi. rewrite Hother by set_solver. apply Hacc. set_solver. }
    rewrite (Hout id Hni), Hid. assert (0 <= take <= amt) by (unfold take; lia). split_and!.
    + unfold take in *. lia.
    + intros i Hi. rewrite Hout by set_solver. apply Hother. set_solver.
    + constructor; [|done]. simpl. rewrite (Hout id Hni), Hid. destruct (decide (take > 0)); simpl; lia.
    + destruct (decide (take > 0)); simpl; lia.
Qed.

Lemma allocateSlash_spec bonded lots amount :
  0 <= bonded -> 0 <= amount -> NoDup (map fst lots) -> Forall (fun l => 0 <= l.2) lots ->
  match allocateSlash bonded lots amount with
  | Ok (fb, fu) =>
      amount <= bonded + sumZ (map snd lots) ∧ fb = Z.min bonded amount ∧
      Forall (fun l => 0 <= default 0 (jm_get fu l.1) <= l.2) lots ∧
      fb + sumZ (map (fun l => default 0 (jm_get fu l.1)) lots) = amount
  | Err e => e = SlashExceedsStake ∧ amount > bonded + sumZ (map snd lots)
  end.
Proof.
  intros Hb Ha Hnd Hpos. unfold allocateSlash.
  destruct (allocateLots lots (amount - Z.min bonded amount) []) as [rem fu] eqn:E.
  apply allocateLots_spec in E as (Hrem & _ & Hall & Hsum); [|done|done|lia|done].
  assert (0 <= sumZ (map snd lots)) by (by apply sumZ_map_nonneg).
  case_decide; [split; [done|lia]|]. split_and!; [lia|done|done|lia].
Qed.

(** ** Lemmas: each action on stake and well-formedness *)

Lemma lots_facts db op :
  wf db ->
  NoDup (map ub_id (unbondingLots db op)) ∧
  Forall (fun r => r ∈ db_unbonds db ∧ isUnbondingOf op r ∧ 0 <= ub_amount r) (unbondingLots db op) ∧
  sumZ (map ub_amount (unbondingLots db op)) = unbondingSum (db_unbonds db) op.
Proof.
  intros Hwf. pose proof (unbondingLots_perm db op) as Hp. split_and!.
  - rewrite Hp. eapply sublist_NoDup; [apply wf_unbond_ids, Hwf|].
    apply fmap_sublist, sublist_filter.
  - apply Forall_forall. intros r. rewrite Hp, list_elem_of_filter. intros [Hu Hin].
    split_and!; auto. pose proof (wf_amounts _ Hwf) as Hf. rewrite Forall_forall in Hf. auto.
  - unfold unbondingSum. by rewrite Hp.
Qed.

Lemma bonded_nonneg db op : wf db -> 0 <= bondedOf db op.
Proof.
  intros Hwf. unfold bondedOf. destruct (db_bonds db !! op) eqn:E; [|done].
  by apply (wf_bonds _ Hwf) in E.
Qed.

Lemma unbondingSum_nonneg rows op : Forall (fun r => 0 <= ub_amount r) rows -> 0 <= unbondingSum rows op.
Proof.
  intros H. apply sumZ_nonneg, Forall_fmap, Forall_forall. intros r [_ Hr]%list_elem_of_filter.
  rewrite Forall_forall in H. by apply H.
Qed.

Lemma stake_nonneg db op : wf db -> 0 <= stakeOf db op.
Proof.
  intros Hwf. pose proof (bonded_nonneg db op Hwf).
  pose proof (unbondingSum_nonneg _ op (wf_amounts _ Hwf)). unfold stakeOf. lia.
Qed.

Lemma find_some_in {A} (f : A -> bool) l x : List.find f l = Some x -> x ∈ l ∧ f x = true.
Proof. intros [? ?]%find_some. split; [by apply list_elem_of_In|done]. Qed.

(** What a successful execution did. *)
Lemma executeProposal_ok db id tx p db' :
  wf db -> executeProposal id tx db = (Ok p, db') ->
  ∃ q bond fb fu,
    q ∈ db_proposals db ∧ pr_id q = id ∧ pr_status q = Approved ∧
    p = set_status q Executed (pr_appealUntil q) (Some (String.string_of_list_ascii tx)) ∧
    db_bonds db !! pr_operatorId q = Some bond ∧
    allocateSlash (bd_bondedAmount bond)
      (map (fun l => (ub_id l, ub_amount l)) (unbondingLots db (pr_operatorId q)))
      (Z.min (pr_amount q) (stakeOf db (pr_operatorId q))) = Ok (fb, fu) ∧
    db' = mkDb (<[pr_operatorId q := mkBond (bd_bondedAmount bond - fb) (bd_firstBondedAt bond)]> (db_bonds db))
            (slashLots (unbondingLots db (pr_operatorId q)) fu (db_unbonds db))
            (map (fun q => if decide (pr_id q = id)
                           then set_status q Executed (pr_appealUntil q) (Some (String.string_of_list_ascii tx))
                           else q) (db_proposals db))
            (db_nextId db).
Proof.
  intros Hwf. unfold executeProposal. case_decide; [done|]. unfold withTransaction.
  destruct (List.find _ (db_proposals db)) as [q|] eqn:Hf; [|done].
  apply find_some_in in Hf as [Hin Hid%bool_decide_eq_true].
  case_decide; [done|]. unfold lockBond.
  destruct (db_bonds db !! pr_operatorId q) as [bond|] eqn:Hb; [|done]. simpl.
  destruct (lots_facts db (pr_operatorId q) Hwf) as (_ & _ & Hsum).
  assert (foldl (fun sum lot => sum + ub_amount lot) (bd_bondedAmount bond) (unbondingLots db (pr_operatorId q))
          = stakeOf db (pr_operatorId q)) as ->.
  { rewrite lots_foldl, Hsum. unfold stakeOf, bondedOf. by rewrite Hb. }
  destruct (allocateSlash _ _ _) as [[fb fu]|e] eqn:Ha; simpl; [|done].
  intros [= <- <-]. destruct (decide (pr_status q = Approved)); [|done].
  exists q, bond, fb, fu. split_and!; done.
Qed.

Lemma execute_stake db id tx p db' op' :
  wf db -> executeProposal id tx db = (Ok p, db') ->
  stakeOf db' op' = stakeOf db op' -
    (if decide (pr_operatorId p = op') then Z.min (pr_amount p) (stakeOf db op') else 0) ∧
  wf db'.
Proof.
  intros Hwf He. destruct (executeProposal_ok _ _ _ _ _ Hwf He) as
    (q & bond & fb & fu & Hin & Hid & Hst & -> & Hb & Ha & ->).
  set (op := pr_operatorId q) in *.
  destruct (lots_facts db op Hwf) as (Hnd & Hlots & Hsum).
  pose proof (stake_nonneg db op Hwf) as Hnn.
  assert (bondedOf db op = bd_bondedAmount bond) as Hbd by (unfold bondedOf; by rewrite Hb).
  pose proof (bonded_nonneg db op Hwf) as Hbn. rewrite Hbd in Hbn.
  pose proof (wf_proposal_rows _ Hwf) as Hpr. rewrite Forall_forall in Hpr.
  destruct (Hpr q Hin) as [Hamt _].
  pose proof (allocateSlash_spec (bd_bondedAmount bond) (map (fun l => (ub_id l, ub_amount l)) (unbondingLots db op))
                (Z.min (pr_amount q) (stakeOf db op)) Hbn ltac:(lia)) as Hspec.
  rewrite Ha in Hspec. destruct Hspec as (_ & Hfb & Hall & Htot).
  { by rewrite map_map. }
  { apply Forall_fmap. eapply Forall_impl; [exact Hlots|]. naive_solver. }
  rewrite map_map in Htot. apply Forall_fmap in Hall. simpl in Htot.
  destruct (slashLots_spec (unbondingLots db op) fu op (db_unbonds db)) as (Hids & Hpos & Hsl);
    [apply wf_unbond_ids, Hwf|done| |apply wf_amounts, Hwf|].
  { rewrite Forall_forall in Hlots, Hall |- *. intros l Hl. destruct (Hlots l Hl) as (? & ? & ?).
    specialize (Hall l Hl). simpl in Hall. unfold takeOf. done. }
  split.
  - unfold stakeOf at 1. rewrite unbondingSum_contrib. simpl. rewrite Hsl.
    rewrite <- unbondingSum_contrib. unfold bondedOf; simpl.
    destruct (decide (op = op')) as [<-|Hne].
    + rewrite lookup_insert_eq, !decide_True by done. simpl. unfold takeOf, stakeOf in *. rewrite Hbd in *. lia.
    + rewrite lookup_insert_ne by done. unfold stakeOf, bondedOf.
      repeat case_decide; try done; lia.
  - constructor; simpl.
    + apply map_Forall_insert_2; [simpl; lia|apply wf_bonds, Hwf].
    + done.
    + rewrite Hids. apply wf_unbond_ids, Hwf.
    + apply (Forall_fmap ub_id (fun i => i < db_nextId db)).
      change (Forall (fun i => i < db_nextId db) (map ub_id (slashLots (unbondingLots db op) fu (db_unbonds db)))).
      rewrite Hids. apply (Forall_fmap ub_id (fun i => i < db_nextId db)). apply wf_unbond_fresh, Hwf.
    + apply Forall_fmap. eapply Forall_impl; [apply wf_proposal_rows, Hwf|]. intros r Hr; simpl.
      by case_decide.
    + rewrite map_map_same; [apply wf_proposal_ids, Hwf|]. intros r; by case_decide.
    + rewrite map_map_same; [apply wf_evidence_keys, Hwf|]. intros r; by case_decide.
Qed.

(** A rolled-back transaction changes nothing. *)
Lemma withTransaction_err {A} (fn : StakingDb -> res StakingError (A * StakingDb)) db e db' :
  withTransaction fn db = (Err e, db') -> db' = db.
Proof. unfold withTransaction. destruct (fn db) as [[? ?]|?]; congruence. Qed.

Lemma execute_err db id tx e db' : executeProposal id tx db = (Err e, db') -> db' = db.
Proof. unfold executeProposal. case_decide; [congruence|]. apply withTransaction_err. Qed.

Lemma parseAmount_pos s n : parseAmount s = Ok n -> 0 < n.
Proof.
  destruct s as [|c s]; [done|]. unfold parseAmount.
  destruct (negb (all_digits (c :: s)) || bool_decide (c = c_zero)) eqn:E; [done|]. intros [= <-].
  apply orb_false_iff in E as [Hd%negb_false_iff Hc%bool_decide_eq_false].
  cbn [all_digits forallb] in Hd. apply andb_true_iff in Hd as [Hc' Hs].
  pose proof (digit_val_bounds c Hc') as Hv. pose proof (dec_val_bounds s Hs) as Hb.
  assert (digit_val c ≠ 0) as Hz.
  { intros Hz. apply Hc. unfold digit_val in Hz. rewrite <- (ascii_N_embedding c).
    replace (N_of_ascii c) with 48%N by lia. done. }
  rewrite dec_val_cons. assert (0 < 10 ^ Z.of_nat (length s)) by (apply Z.pow_pos_nonneg; lia). nia.
Qed.

Lemma recordBond_effect now op amt db :
  (recordBond now op amt db).2 =
  match parseAmount amt with
  | Ok n => set_bond db op (mkBond (bondedOf db op + n)
              (Some (default now (db_bonds db !! op ≫= bd_firstBondedAt))))
  | Err _ => db
  end.
Proof.
  unfold recordBond, bondedOf. destruct (parseAmount amt) as [n|e]; [|done].
  destruct (db_bonds db !! op) as [[b [t|]]|]; simpl; done.
Qed.

Lemma stake_set_bond db op b op' :
  stakeOf (set_bond db op b) op' =
  stakeOf db op' + (if decide (op = op') then bd_bondedAmount b - bondedOf db op' else 0).
Proof.
  unfold stakeOf, bondedOf; simpl. rewrite lookup_insert. case_decide; lia.
Qed.

Lemma wf_set_bond db op b : 0 <= bd_bondedAmount b -> wf db -> wf (set_bond db op b).
Proof. intros Hb []; constructor; simpl; auto. by apply map_Forall_insert_2. Qed.

Lemma contrib_unbonding op r : ub_status r = Unbonding ->
  contrib op r = if decide (ub_operatorId r = op) then ub_amount r else 0.
Proof. intros H. unfold contrib, isUnbondingOf. repeat case_decide; naive_solver. Qed.

Lemma contrib_other op r : ub_status r ≠ Unbonding -> contrib op r = 0.
Proof. intros H. unfold contrib, isUnbondingOf. case_decide; naive_solver. Qed.

Lemma requestUnbond_stake policy now op amt db op' :
  wf db ->
  stakeOf (requestUnbond policy now op amt db).2 op' = stakeOf db op' ∧
  wf (requestUnbond policy now op amt db).2.
Proof.
  intros Hwf. unfold requestUnbond. destruct (parseAmount amt) as [n|e] eqn:Hn; [|done].
  apply parseAmount_pos in Hn. unfold withTransaction, lockBond.
  destruct (db_bonds db !! op) as [b|] eqn:Hb; [|done]. simpl.
  pose proof (bonded_nonneg db op Hwf) as Hbn. unfold bondedOf in Hbn. rewrite Hb in Hbn.
  case_decide; [done|]. simpl. split.
  - unfold stakeOf, bondedOf; cbn [db_bonds db_unbonds]. rewrite !unbondingSum_contrib, map_app, sumZ_app. cbn [map].
    rewrite lookup_insert, sumZ_cons, contrib_unbonding by done. simpl.
    destruct (decide (op = op')) as [<-|]; [rewrite Hb|]; unfold sumZ; simpl; lia.
  - destruct Hwf. constructor; simpl; auto.
    + apply map_Forall_insert_2; [simpl; lia|done].
    + apply Forall_app; split; [done|]. repeat constructor; simpl; lia.
    + rewrite map_app; simpl. apply NoDup_app; split_and!; [done| |apply NoDup_singleton].
      intros i Hi. apply list_elem_of_fmap in Hi as (r & -> & Hr).
      rewrite Forall_forall in wf_unbond_fresh0. specialize (wf_unbond_fresh0 r Hr).
      rewrite list_elem_of_singleton. lia.
    + apply Forall_app; split; [|repeat constructor; simpl; lia].
      eapply Forall_impl; [done|]. intros; simpl in *; lia.
    + eapply Forall_impl; [done|]. intros; simpl in *; lia.
Qed.

Lemma withdraw_rows_sum op now rows op' :
  sumZ (map (contrib op')
    (map (fun r => if decide (releasable op now r) then set_unbond r (ub_amount r) Withdrawn else r) rows)) =
  sumZ (map (contrib op') rows) -
  (if decide (op = op') then sumZ (map ub_amount (filter (releasable op now) rows)) else 0).
Proof.
  induction rows as [|r rows IH]; [by case_decide|].
  cbn [map]. rewrite !sumZ_cons, IH, filter_cons.
  destruct (decide (releasable op now r)) as [[[Ho Hs] Hav]|Hn]; cbn [map]; rewrite ?sumZ_cons.
  - rewrite contrib_other by done. rewrite (contrib_unbonding op' r Hs), Ho. case_decide; lia.
  - case_decide; lia.
Qed.

Lemma withdraw_stake now op db op' :
  wf db ->
  stakeOf (withdraw now op db).2 op' =
    stakeOf db op' - match (withdraw now op db).1 with
                     | Ok n => if decide (op = op') then n else 0 | Err _ => 0 end ∧
  wf (withdraw now op db).2.
Proof.
  intros Hwf. unfold withdraw, withTransaction, lockBond.
  destruct (db_bonds db !! op); simpl; [|by split; [lia|]].
  destruct (hasOpenProposal db op); simpl; [by split; [lia|]|]. split.
  - unfold stakeOf, bondedOf; simpl. rewrite !unbondingSum_contrib, withdraw_rows_sum. case_decide; lia.
  - destruct Hwf. constructor; simpl; auto.
    + apply Forall_fmap. eapply Forall_impl; [exact wf_amounts0|]. intros r Hr; simpl in *. by destruct (decide (releasable op now r)).
    + rewrite map_map_same; [done|]. intros; by case_decide.
    + apply Forall_fmap. eapply Forall_impl; [exact wf_unbond_fresh0|]. intros r Hr; simpl in *. by destruct (decide (releasable op now r)).
Qed.

(** An update of proposal rows keeps stake and well-formedness. *)
Lemma updateProposal_stake id g f db op :
  (forall p, pr_id (f p) = pr_id p ∧ pr_evidenceKey (f p) = pr_evidenceKey p ∧ pr_amount (f p) = pr_amount p) ->
  stakeOf (updateProposal id g f db).2 op = stakeOf db op ∧ (wf db -> wf (updateProposal id g f db).2).
Proof.
  intros Hf. unfold updateProposal. case_match; [|done]. simpl. split; [done|].
  intros []. constructor; simpl; auto.
  - apply Forall_fmap. eapply Forall_impl; [done|]. intros q Hq; simpl.
    destruct (Hf q) as (? & ? & ?). case_match; [by rewrite H2, H0|done].
  - rewrite map_map_same; [done|]. intros q; case_match; [apply Hf|done].
  - rewrite map_map_same; [done|]. intros q; case_match; [apply Hf|done].
Qed.

Lemma slashAmountFor_bounds atStake bps :
  0 <= slashAmountFor atStake bps <= Z.max 0 atStake ∧
  slashAmountFor atStake bps * BPS_DENOMINATOR <= Z.max 0 (atStake * bps).
Proof.
  unfold slashAmountFor, BPS_DENOMINATOR. case_decide as H; [lia|].
  assert (0 <= atStake * bps) by nia. rewrite Z.quot_div_nonneg by lia.
  pose proof (Z.mul_div_le (atStake * bps) 10000 ltac:(lia)).
  pose proof (Z.div_pos (atStake * bps) 10000 ltac:(lia) ltac:(lia)). lia.
Qed.

(** A created proposal is appended; otherwise nothing changes. *)
Lemma createProposal_cases policy now op f db :
  ∃ o db', createProposal policy now op f db = (Ok o, db') ∧
  ((db' = db ∧ (o = None ∨ ∃ p, o = Some p ∧ p ∈ db_proposals db ∧ pr_evidenceKey p = evidenceKeyOf f)) ∨
   (∃ p, o = Some p ∧ db' = mkDb (db_bonds db) (db_unbonds db) (db_proposals db ++ [p]) (db_nextId db + 1) ∧
      pr_id p = db_nextId db ∧ pr_operatorId p = op ∧ pr_evidenceKey p = evidenceKeyOf f ∧
      is_open (pr_status p) = true ∧ pr_reason p = fi_reason f ∧
      pr_amount p = slashAmountFor (stakeOf db op) (sp_slashBps policy (fi_reason f)) ∧ pr_amount p ≠ 0 ∧
      Forall (fun q => pr_evidenceKey q ≠ evidenceKeyOf f) (db_proposals db))).
Proof.
  unfold createProposal, withTransaction.
  destruct (db_bonds db !! op) as [b|] eqn:Hb; [|eexists _, _; split; [done|]; left; auto].
  destruct (List.find _ _) as [q|] eqn:Hq.
  - eexists _, _; split; [done|]. left; split; [done|right].
    apply find_some_in in Hq as [? ?%bool_decide_eq_true]. eauto.
  - case_decide as Hz; (eexists _, _; split; [done|]); [left; auto|right].
    assert (stakeOf db op = atStake db op (bd_bondedAmount b)) as Hs.
    { unfold stakeOf, atStake, bondedOf. by rewrite Hb. }
    eexists; split_and!; simpl; try done; try by rewrite Hs.
    + by destruct (as_enabled _ && _).
    + apply Forall_forall. intros q' Hin E.
      apply list_elem_of_In in Hin. apply (find_none _ _ Hq) in Hin.
      by apply bool_decide_eq_false in Hin.
Qed.

Lemma createProposal_stake policy now op f db :
  (forall op', stakeOf (createProposal policy now op f db).2 op' = stakeOf db op') ∧
  (wf db -> wf (createProposal policy now op f db).2).
Proof.
  destruct (createProposal_cases policy now op f db) as (o & db' & -> & [[-> _]|Hc]); simpl; [done|].
  destruct Hc as (p & -> & -> & Hid & _ & Hkey & _ & _ & Hamt & Hnz & Hfresh). split; [done|].
  intros Hwf. pose proof (stake_nonneg db op Hwf).
  pose proof (slashAmountFor_bounds (stakeOf db op) (sp_slashBps policy (fi_reason f))) as [Hb _].
  destruct Hwf. constructor; simpl; auto.
  - eapply Forall_impl; [done|]. intros; simpl in *; lia.
  - apply Forall_app; split; [eapply Forall_impl; [done|]; intros; simpl in *; lia|].
    repeat constructor; lia.
  - rewrite map_app; simpl. apply NoDup_app; split_and!; [done| |apply NoDup_singleton].
    intros i (q & -> & Hq)%list_elem_of_fmap. rewrite list_elem_of_singleton.
    rewrite Forall_forall in wf_proposal_rows0. specialize (wf_proposal_rows0 q Hq). lia.
  - rewrite map_app; simpl. apply NoDup_app; split_and!; [done| |apply NoDup_singleton].
    intros k (q & -> & Hq)%list_elem_of_fmap. rewrite list_elem_of_singleton, Hkey.
    rewrite Forall_forall in Hfresh. by apply Hfresh.
Qed.

Lemma createProposals_stake policy now op fs : forall created db,
  (forall op', stakeOf (createProposals policy now op fs created db).2 op' = stakeOf db op') ∧
  (wf db -> wf (createProposals policy now op fs created db).2).
Proof.
  induction fs as [|f fs IH]; intros created db; simpl; [done|].
  pose proof (createProposal_stake policy now op f db) as [Hs Hw].
  destruct (createProposal policy now op f db) as [[[p|]|e] db1]; simpl in *; [..|done].
  - destruct (IH (created ++ [p]) db1) as [Hs' Hw']. split; [intros; by rewrite Hs', Hs|auto].
  - destruct (IH created db1) as [Hs' Hw']. split; [intros; by rewrite Hs', Hs|auto].
Qed.

(** Every action: its effect on each operator's stake, and well-formedness. *)
Lemma exec_stake policy now a db op :
  wf db -> stakeOf (exec policy now a db) op = stakeOf db op + stakeDelta now a db op ∧ wf (exec policy now a db).
Proof.
  intros Hwf. destruct a as [o amt|o amt|o|s sib c|id|id|id|id tx]; simpl.
  - rewrite recordBond_effect. unfold recordBond.
    destruct (parseAmount amt) as [n|e] eqn:Hn; [|by split; [lia|]].
    apply parseAmount_pos in Hn. pose proof (bonded_nonneg db o Hwf). split.
    + rewrite stake_set_bond. simpl. destruct (decide (o = op)) as [->|]; lia.
    + apply wf_set_bond; [simpl; lia|done].
  - destruct (requestUnbond_stake policy now o amt db op Hwf) as [-> ?]. by split; [lia|].
  - destruct (withdraw_stake now o db op Hwf) as [-> ?]. split; [|done].
    repeat case_match; lia.
  - destruct (createProposals_stake policy now (su_operatorId s) (detectSlashableConditions s sib c) [] db) as [Hs Hw].
    unfold evaluateSubmission. rewrite Hs. by split; [lia|auto].
  - destruct (updateProposal_stake id
      (fun p => bool_decide (pr_status p = PendingReview) || (bool_decide (pr_status p = PendingAppeal) && appealClosed now p))
      (fun p => set_status p Approved (pr_appealUntil p) (pr_executionTxHash p)) db op) as [Hs Hw]; [done|].
    unfold approveProposal. rewrite Hs. by split; [lia|auto].
  - destruct (updateProposal_stake id
      (fun p => bool_decide (pr_status p = PendingReview) || bool_decide (pr_status p = PendingAppeal))
      (fun p => set_status p RejectedP (pr_appealUntil p) (pr_executionTxHash p)) db op) as [Hs Hw]; [done|].
    unfold rejectProposal. rewrite Hs. by split; [lia|auto].
  - destruct (updateProposal_stake id
      (fun p => bool_decide (pr_status p = PendingAppeal) && appealOpen now p)
      (fun p => set_status p PendingReview None (pr_executionTxHash p)) db op) as [Hs Hw]; [done|].
    unfold appealProposal. rewrite Hs. by split; [lia|auto].
  - destruct (executeProposal id tx db) as [[p|e] db'] eqn:He; simpl.
    + destruct (execute_stake db id tx p db' op Hwf He) as [-> ?]. split; [|done]. case_decide; lia.
    + apply execute_err in He as ->. by split; [lia|].
Qed.

Lemma runStaking_wf policy h : forall db, wf db -> wf (runStaking policy db h).
Proof.
  induction h as [|[now a] h IH]; intros db Hwf; simpl; [done|].
  apply IH. by apply (exec_stake policy now a db EmptyString).
Qed.

Lemma wf_empty : wf emptyDb.
Proof. constructor; simpl; constructor || done. Qed.

#[export] Hint Resolve wf_empty runStaking_wf : refract.

(** ** Lemmas: re-evaluating the same evidence *)

(** [db2] is [db1] with proposals appended that a later step of the same
    evaluation created. *)
Definition proposalsExtend (policy : StakingPolicy) (op : string) (db1 db2 : StakingDb) : Prop :=
  db_bonds db2 = db_bonds db1 ∧ db_unbonds db2 = db_unbonds db1 ∧
  ∃ ext, db_proposals db2 = db_proposals db1 ++ ext ∧
    Forall (fun p => ∃ f, pr_evidenceKey p = evidenceKeyOf f ∧
              slashAmountFor (stakeOf db1 op) (sp_slashBps policy (fi_reason f)) ≠ 0) ext.

Lemma evidenceKey_reason f g : evidenceKeyOf f = evidenceKeyOf g -> fi_reason f = fi_reason g.
Proof.
  destruct f as [rf ids], g as [rg idg]. unfold evidenceKeyOf; simpl.
  destruct rf, rg; simpl; intros H; done.
Qed.

Lemma find_app_l {A} (f : A -> bool) l1 l2 x : List.find f l1 = Some x -> List.find f (l1 ++ l2) = Some x.
Proof. induction l1 as [|y l1 IH]; simpl; [done|]. destruct (f y); auto. Qed.

Lemma find_app_r {A} (f : A -> bool) l1 l2 : List.find f l1 = None -> List.find f (l1 ++ l2) = List.find f l2.
Proof. induction l1 as [|y l1 IH]; simpl; [done|]. destruct (f y); [done|auto]. Qed.

(** Repeating a creation after later ones gives the same answer and writes nothing. *)
Lemma createProposal_repeat policy now now' op f db o db1 db2 :
  createProposal policy now op f db = (Ok o, db1) -> proposalsExtend policy op db1 db2 ->
  createProposal policy now' op f db2 = (Ok o, db2).
Proof.
  unfold createProposal, withTransaction. intros H (Hb & Hu & ext & Hp & Hext).
  destruct (db_bonds db !! op) as [b|] eqn:Hbond; [|simplify_eq; by rewrite Hb, Hbond].
  destruct (List.find _ (db_proposals db)) as [q|] eqn:Hf.
  - simplify_eq. rewrite Hb, Hbond, Hp. by erewrite find_app_l.
  - case_decide as Hz; simplify_eq/=.
    + rewrite Hb, Hbond, Hp, find_app_r by done.
      destruct (List.find _ ext) as [q|] eqn:Hq.
      * apply find_some_in in Hq as [Hin Hk%bool_decide_eq_true].
        rewrite Forall_forall in Hext. destruct (Hext q Hin) as (g & Hg & Hne).
        rewrite Hg in Hk. apply evidenceKey_reason in Hk. rewrite Hk in Hne.
        destruct Hne. unfold stakeOf, bondedOf. by rewrite Hbond.
      * unfold atStake in *. rewrite Hu. by rewrite decide_True.
    + rewrite Hb, Hbond, Hp. rewrite <- app_assoc, find_app_r by done. simpl.
      by rewrite bool_decide_true.
Qed.

Lemma proposalsExtend_refl policy op db : proposalsExtend policy op db db.
Proof. split_and!; [done..|]. exists []. rewrite app_nil_r. done. Qed.

Lemma createProposals_extend policy now op fs : forall created db ps db',
  createProposals policy now op fs created db = (Ok ps, db') -> proposalsExtend policy op db db'.
Proof.
  induction fs as [|f fs IH]; intros created db ps db'; simpl.
  { intros [= <- <-]. apply proposalsExtend_refl. }
  destruct (createProposal_cases policy now op f db) as (o & db1 & -> & [[-> Ho]|Hc]).
  - destruct Ho as [->|(p & -> & _)]; apply IH.
  - destruct Hc as (p & -> & -> & _ & _ & Hkey & _ & _ & Hamt & Hnz & _).
    intros (Hb & Hu & ext & Hp & Hext)%IH. simpl in *. split_and!; [done|done|].
    exists (p :: ext). split; [by rewrite Hp, <- app_assoc|]. constructor; [|done].
    exists f. split; [done|]. by rewrite <- Hamt.
Qed.

Lemma createProposals_repeat policy now now' op fs : forall created db ps db' dbF,
  createProposals policy now op fs created db = (Ok ps, db') ->
  proposalsExtend policy op db' dbF ->
  createProposals policy now' op fs created dbF = (Ok ps, dbF).
Proof.
  induction fs as [|f fs IH]; intros created db ps db' dbF; simpl; [by intros [= -> ->]|].
  destruct (createProposal policy now op f db) as [[o|e] db1] eqn:Hc; [|done].
  intros Hrest Hext.
  assert (createProposal policy now' op f dbF = (Ok o, dbF)) as ->.
  { apply (createProposal_repeat policy now now' op f db o db1 dbF Hc).
    assert (proposalsExtend policy op db1 db') as He.
    { destruct o as [p|]; by eapply createProposals_extend. }
    destruct He as (Hb1 & Hu1 & e1 & Hp1 & He1), Hext as (Hb2 & Hu2 & e2 & Hp2 & He2).
    assert (stakeOf db' op = stakeOf db1 op) as Hst by (unfold stakeOf, bondedOf; by rewrite Hb1, Hu1).
    rewrite Hst in He2. split_and!; [congruence..|]. exists (e1 ++ e2).
    rewrite Hp2, Hp1, <- app_assoc. split; [done|]. by apply Forall_app. }
  destruct o as [p|]; by eapply IH.
Qed.

(** ** Properties *)

(** C3: conservation: whatever the sequence of calls, the stake at risk of each
    operator (bond plus unbonding lots) changes only by confirmed bonds,
    withdrawals the service reported, and executed slashes, each of which takes
    exactly the smaller of the proposal's amount and the stake; unbonding,
    evaluating, approving, rejecting and appealing move no value, and no
    operator's stake is touched by an action on another one. *)
Theorem stake_conservation (policy : StakingPolicy) (h : list (Z * Action)) (now : Z) (a : Action) (op : string) :
  let db := runStaking policy emptyDb h in
  stakeOf (exec policy now a db) op = stakeOf db op + stakeDelta now a db op ∧
  0 <= stakeOf (exec policy now a db) op.
Proof.
  simpl. assert (wf (runStaking policy emptyDb h)) as Hwf by auto with refract.
  destruct (exec_stake policy now a _ op Hwf) as [Hs Hw]. split; [done|]. by apply stake_nonneg.
Qed.

(** The tables reachable by any sequence of calls are well formed: amounts
    are never negative, row ids are unique, every proposal is for a positive
    amount, and one evidence key has at most one proposal, so replaying evidence
    can never open a second slash. *)
Theorem staking_tables_wf (policy : StakingPolicy) (h : list (Z * Action)) :
  wf (runStaking policy emptyDb h).
Proof. auto with refract. Qed.

(** C7: funds cannot leave ahead of a dispute: while an operator has an open
    proposal, the only call that can lower its stake is the execution of an
    approved proposal against it. *)
Theorem open_proposal_locks_stake (policy : StakingPolicy) (h : list (Z * Action)) (now : Z) (a : Action) (op : string)
    (Hopen : hasOpenProposal (runStaking policy emptyDb h) op = true)
    (Hless : stakeOf (exec policy now a (runStaking policy emptyDb h)) op
             < stakeOf (runStaking policy emptyDb h) op) :
  ∃ id tx q, a = AExecute id tx ∧ q ∈ db_proposals (runStaking policy emptyDb h) ∧
    pr_id q = id ∧ pr_status q = Approved ∧ pr_operatorId q = op.
Proof.
  assert (wf (runStaking policy emptyDb h)) as Hwf by auto with refract.
  set (db := runStaking policy emptyDb h) in *.
  destruct (exec_stake policy now a db op Hwf) as [Hs _]. rewrite Hs in Hless.
  destruct a as [o amt|o amt|o|s sib c|id|id|id|id tx]; simpl in Hless; try lia.
  - destruct (recordBond now o amt db) as [[]]; [|lia]. destruct (parseAmount amt) eqn:Hn; [|lia].
    apply parseAmount_pos in Hn. case_decide; lia.
  - unfold withdraw, withTransaction in Hless.
    destruct (decide (o = op)) as [->|]; [|repeat case_match; lia].
    destruct (lockBond db op); simpl in Hless; [rewrite Hopen in Hless|]; simpl in Hless; lia.
  - destruct (executeProposal id tx db) as [[p|e] db'] eqn:He; simpl in Hless; [|lia].
    destruct (executeProposal_ok _ _ _ _ _ Hwf He) as (q & ? & ? & ? & Hin & Hid & Hst & -> & _).
    exists id, tx, q. simpl in Hless. case_decide; [|lia]. done.
Qed.

Definition demoPolicy : StakingPolicy :=
  mkStakingPolicy (14 * DAY_SECONDS) (7 * DAY_SECONDS) (fun _ => 0)
    (fun r => match r with OutsideTolerance => 500 | PostQuarantine => 1000 | Equivocation => 2500 end)
    (mkAutoSlash false 500 (3 * DAY_SECONDS)).

Definition demoSubmission : OracleSubmission := mkSubmission "ev1" "op" "feed" "r1" 200 50.
Definition demoContext : SubmissionContext := mkContext (Some 100) 100 None.
Definition txt (s : string) : text := String.list_ascii_of_string s.

(** Bond 1000, unbond 990, an out-of-tolerance submission, approval. *)
Definition demoHistory : list (Z * Action) :=
  [(0, ABond "op" (txt "1000")); (10, AUnbond "op" (txt "990"));
   (60, AEvaluate demoSubmission [] demoContext); (70, AApprove 2)].

Lemma open_proposal_locks_stake_witness :
  ∃ id tx q, AExecute 2 (txt "h") = AExecute id tx ∧ q ∈ db_proposals (runStaking demoPolicy emptyDb demoHistory) ∧
    pr_id q = id ∧ pr_status q = Approved ∧ pr_operatorId q = "op"%string.
Proof.
  apply (open_proposal_locks_stake demoPolicy demoHistory 80 (AExecute 2 (txt "h")) "op"); vm_compute; reflexivity.
Defined.

(** Re-evaluating a submission is idempotent on the database, and returns
    the proposals the first evaluation created rather than none. *)
Theorem evaluateSubmission_idempotent (policy : StakingPolicy) (now now' : Z) (s : OracleSubmission)
    (sib : list OracleSubmission) (c : SubmissionContext) (db db' : StakingDb) (ps : list ProposalRow)
    (H : evaluateSubmission policy now s sib c db = (Ok ps, db')) :
  evaluateSubmission policy now' s sib c db' = (Ok ps, db').
Proof.
  unfold evaluateSubmission in *. eapply createProposals_repeat; [exact H|apply proposalsExtend_refl].
Qed.

Definition bondedDb : StakingDb := runStaking demoPolicy emptyDb [(0, ABond "op" (txt "1000"))].
Definition demoProposal : ProposalRow :=
  mkProposal 1 "op" OutsideTolerance ["ev1"%string] "outside_tolerance:ev1" 50 PendingReview None None.

Lemma evaluateSubmission_idempotent_witness :
  (evaluateSubmission demoPolicy 99 demoSubmission [] demoContext
     (mkDb (db_bonds bondedDb) [] [demoProposal] 2)).1 = Ok [demoProposal].
Proof.
  rewrite (evaluateSubmission_idempotent demoPolicy 60 99 demoSubmission [] demoContext bondedDb
             (mkDb (db_bonds bondedDb) [] [demoProposal] 2) [demoProposal]); vm_compute; reflexivity.
Defined.

(** [allocateSlash] splits a slash exactly: bonded stake first, then each
    lot for at most its amount, the parts adding up to the slash; it throws
    precisely when the slash exceeds the stake at risk. *)
Theorem allocateSlash_exact (bonded amount : Z) (lots : list (Z * Z))
    (Hb : 0 <= bonded) (Ha : 0 <= amount) (Hid : NoDup (map fst lots)) (Hl : Forall (fun l => 0 <= l.2) lots) :
  match allocateSlash bonded lots amount with
  | Ok (fromBonded, fromUnbonding) =>
      amount <= bonded + sumZ (map snd lots) ∧ fromBonded = Z.min bonded amount ∧
      Forall (fun l => 0 <= default 0 (jm_get fromUnbonding l.1) <= l.2) lots ∧
      fromBonded + sumZ (map (fun l => default 0 (jm_get fromUnbonding l.1)) lots) = amount
  | Err e => e = SlashExceedsStake ∧ amount > bonded + sumZ (map snd lots)
  end.
Proof. by apply allocateSlash_spec. Qed.

Lemma allocateSlash_exact_witness :
  allocateSlash 10 [(1, 5); (2, 7)] 18 = Ok (10, [(1, 5); (2, 3)]) ∧
  18 <= 10 + sumZ (map snd [(1, 5); (2, 7)]).
Proof.
  split; [reflexivity|].
  apply (allocateSlash_exact 10 18 [(1, 5); (2, 7)]); [lia|lia| |].
  - apply (bool_decide_unpack _). vm_compute. exact I.
  - repeat constructor; simpl; lia.
Defined.

(** C0: a slash amount is never negative, never above the stake, and never above
    the basis-point share of it (floor division cannot over-slash). *)
Theorem slashAmountFor_never_over (atStake bps : Z) :
  0 <= slashAmountFor atStake bps <= Z.max 0 atStake ∧
  slashAmountFor atStake bps * BPS_DENOMINATOR <= Z.max 0 (atStake * bps).
Proof. apply slashAmountFor_bounds. Qed.
