(* ===== verification/Rewards.v ===== *)
(** Operator rewards (src/services/operatorRewards.ts): accruals from committed
    readings, their reversal, payout scheduling and settlement, and the
    operator's view, over the in-memory ledger store of the module.

    Amounts are binary64 numbers, times are integer milliseconds, and
    [Math.pow(10, 6)] is the number 1000000. *)

From stdpp Require Import base list strings.
From Stdlib Require Import ZArith Lia Floats.
From S2P Require Import Prelude Decimal JsNum Canonical.

(** * Data *)

Definition CONSENSUS_BASE_REWARD : num := 100.
Definition STAKE_CAP : num := 100000.
Definition POOL_CAP_PER_OPERATOR : num := 250.
Definition DUST_PRECISION : Z := 6.
Definition MIN_PAYOUT_THRESHOLD : num := 10.
Definition DISPUTE_WINDOW_MS : Z := 24 * 60 * 60 * 1000.

Inductive ReadingStatus := RsCommitted | RsLate | RsQuarantined | RsDuplicate | RsInvalidated.
Inductive LedgerEntryType := Accrual | Adjustment | Payout.
Inductive PayoutStatus := Pending | Paid | Disputed.
#[global] Instance ReadingStatus_eq_dec : EqDecision ReadingStatus. Proof. solve_decision. Defined.
#[global] Instance LedgerEntryType_eq_dec : EqDecision LedgerEntryType. Proof. solve_decision. Defined.
#[global] Instance PayoutStatus_eq_dec : EqDecision PayoutStatus. Proof. solve_decision. Defined.

Record ConsensusReading := mkReading {
  rg_readingId : string; rg_roundId : string; rg_operatorId : string; rg_includedInConsensus : bool;
  rg_status : ReadingStatus; rg_stake : num; rg_reputation : num }.

Record RewardAccrual := mkAccrual {
  ra_idempotencyKey : string; ra_roundId : string; ra_readingId : string; ra_operatorId : string;
  ra_amount : num; ra_createdAt : Z }.

Record LedgerEntry := mkEntry {
  le_idempotencyKey : string; le_type : LedgerEntryType; le_operatorId : string; le_amount : num;
  le_roundId : option string; le_readingId : option string; le_createdAt : Z }.

Record PayoutRecord := mkPayout {
  pr_idempotencyKey : string; pr_operatorId : string; pr_amount : num; pr_scheduledAt : Z;
  pr_disputeWindowEndsAt : Z; pr_status : PayoutStatus }.

Record OperatorRewardView := mkView { vw_operatorId : string; vw_accrued : num; vw_pending : num; vw_paid : num }.

(** * The store *)

Record RewardStore := mkStore { rw_entries : list (string * LedgerEntry); rw_payouts : list (string * PayoutRecord) }.

Definition emptyStore : RewardStore := mkStore [] [].

Definition hasEntry (s : RewardStore) (key : string) : bool := jm_has (rw_entries s) key.

Definition appendEntry (s : RewardStore) (e : LedgerEntry) : RewardStore :=
  if jm_has (rw_entries s) (le_idempotencyKey e) then s
  else mkStore (jm_set (rw_entries s) (le_idempotencyKey e) e) (rw_payouts s).

(** [operatorId ? filtered : all]: the empty string is falsy. *)
Definition chosen (operatorId : option string) : option string :=
  match operatorId with Some id => if bool_decide (id = "") then None else Some id | None => None end.

Definition listEntries (s : RewardStore) (operatorId : option string) : list LedgerEntry :=
  match chosen operatorId with
  | Some id => filter (fun e => le_operatorId e = id) (jm_values (rw_entries s))
  | None => jm_values (rw_entries s)
  end.

Definition listPayouts (s : RewardStore) (operatorId : option string) : list PayoutRecord :=
  match chosen operatorId with
  | Some id => filter (fun p => pr_operatorId p = id) (jm_values (rw_payouts s))
  | None => jm_values (rw_payouts s)
  end.

Definition upsertPayout (s : RewardStore) (p : PayoutRecord) : RewardStore :=
  mkStore (rw_entries s) (jm_set (rw_payouts s) (pr_idempotencyKey p) p).

(** * Accrual amounts *)

Definition roundDust (value : num) : num :=
  let factor := 1000000%float in (mathFloor (value * factor) / factor)%float.

Definition clamp01 (value : num) : num :=
  if negb (isFinite value) then 0%float
  else if nlt value 0 then 0%float
  else if ngt value 1 then 1%float
  else value.

Definition computeRewardWeight (stake reputation : num) : num :=
  if negb (isFinite stake) || nle stake 0 then 0%float
  else
    let stakeW := (nmin stake STAKE_CAP / STAKE_CAP)%float in
    let repW := clamp01 reputation in
    (stakeW * repW)%float.

Definition computeAccrualAmount (reading : ConsensusReading) : num :=
  if negb (rg_includedInConsensus reading) then 0%float
  else if bool_decide (rg_status reading ≠ RsCommitted) then 0%float
  else
    let weight := computeRewardWeight (rg_stake reading) (rg_reputation reading) in
    if nle weight 0 then 0%float
    else
      let raw := (CONSENSUS_BASE_REWARD * weight)%float in
      roundDust (nmin raw POOL_CAP_PER_OPERATOR).

Section Rewards.
Context `{JsHost}.

Definition accrualIdempotencyKey (roundId readingId operatorId : string) : string :=
  sha256Hex ("accrual:" +:+ roundId +:+ ":" +:+ readingId +:+ ":" +:+ operatorId).

(** * Operations *)

Definition accrualKeyOf (reading : ConsensusReading) : string :=
  accrualIdempotencyKey (rg_roundId reading) (rg_readingId reading) (rg_operatorId reading).

Definition accrualEntry (now : Z) (reading : ConsensusReading) : LedgerEntry :=
  mkEntry (accrualKeyOf reading) Accrual (rg_operatorId reading) (computeAccrualAmount reading)
    (Some (rg_roundId reading)) (Some (rg_readingId reading)) now.

Fixpoint accrueRewards (store : RewardStore) (readings : list ConsensusReading) (now : Z) : list RewardAccrual * RewardStore :=
  match readings with
  | [] => ([], store)
  | reading :: rest =>
      let amount := computeAccrualAmount reading in
      if nle amount 0 then accrueRewards store rest now
      else
        let idempotencyKey := accrualKeyOf reading in
        if hasEntry store idempotencyKey then accrueRewards store rest now
        else
          let '(accrued, store') := accrueRewards (appendEntry store (accrualEntry now reading)) rest now in
          (mkAccrual idempotencyKey (rg_roundId reading) (rg_readingId reading) (rg_operatorId reading) amount now :: accrued, store')
  end.

Definition adjustmentKey (accrualKey : string) : string := sha256Hex ("adjustment:" +:+ accrualKey).

Definition invalidateAccrual (store : RewardStore) (roundId readingId operatorId : string) (now : Z) :
    option LedgerEntry * RewardStore :=
  let accrualKey := accrualIdempotencyKey roundId readingId operatorId in
  if negb (hasEntry store accrualKey) then (None, store)
  else if hasEntry store (adjustmentKey accrualKey) then (None, store)
  else
    match List.find (fun e => bool_decide (le_idempotencyKey e = accrualKey)) (listEntries store (Some operatorId)) with
    | None => (None, store)
    | Some original =>
        let entry := mkEntry (adjustmentKey accrualKey) Adjustment operatorId (- le_amount original)%float
                       (Some roundId) (Some readingId) now in
        (Some entry, appendEntry store entry)
    end.

Definition addBalance (balances : list (string * num)) (entry : LedgerEntry) : list (string * num) :=
  if bool_decide (le_type entry = Payout) then balances
  else jm_set balances (le_operatorId entry) (default 0%float (jm_get balances (le_operatorId entry)) + le_amount entry)%float.

Definition balancesOf (store : RewardStore) : list (string * num) := foldl addBalance [] (listEntries store None).

Definition payoutKey (operatorId : string) (balance : num) : string :=
  sha256Hex ("payout:" +:+ operatorId +:+ ":" +:+ numToString (roundDust balance)).

Fixpoint scheduleEach (store : RewardStore) (balances : list (string * num)) (now : Z) : list PayoutRecord * RewardStore :=
  match balances with
  | [] => ([], store)
  | (operatorId, balance) :: rest =>
      if nlt balance MIN_PAYOUT_THRESHOLD then scheduleEach store rest now
      else
        let idempotencyKey := payoutKey operatorId balance in
        match List.find (fun p => bool_decide (pr_idempotencyKey p = idempotencyKey)) (listPayouts store (Some operatorId)) with
        | Some _ => scheduleEach store rest now
        | None =>
            let payout := mkPayout idempotencyKey operatorId (roundDust balance) now (now + DISPUTE_WINDOW_MS) Pending in
            let '(scheduled, store') := scheduleEach (upsertPayout store payout) rest now in
            (payout :: scheduled, store')
        end
  end.

Definition schedulePayouts (store : RewardStore) (now : Z) : list PayoutRecord * RewardStore :=
  scheduleEach store (balancesOf store) now.

Definition payoutEntry (now : Z) (payout : PayoutRecord) : LedgerEntry :=
  mkEntry (pr_idempotencyKey payout) Payout (pr_operatorId payout) (- pr_amount payout)%float None None now.

Definition markPaid (p : PayoutRecord) : PayoutRecord :=
  mkPayout (pr_idempotencyKey p) (pr_operatorId p) (pr_amount p) (pr_scheduledAt p) (pr_disputeWindowEndsAt p) Paid.

Fixpoint settleEach (store : RewardStore) (payouts : list PayoutRecord) (now : Z) : list PayoutRecord * RewardStore :=
  match payouts with
  | [] => ([], store)
  | payout :: rest =>
      if bool_decide (pr_status payout ≠ Pending) then settleEach store rest now
      else if (now <? pr_disputeWindowEndsAt payout)%Z then settleEach store rest now
      else
        let entry := payoutEntry now payout in
        let store1 := if negb (hasEntry store (le_idempotencyKey entry)) then appendEntry store entry else store in
        let paid := markPaid payout in
        let '(settled, store') := settleEach (upsertPayout store1 paid) rest now in
        (paid :: settled, store')
  end.

Definition settlePayouts (store : RewardStore) (now : Z) : list PayoutRecord * RewardStore :=
  settleEach store (listPayouts store None) now.

Definition viewStep (acc : num * num) (entry : LedgerEntry) : num * num :=
  let '(accrued, paid) := acc in
  match le_type entry with
  | Accrual | Adjustment => ((accrued + le_amount entry)%float, paid)
  | Payout => (accrued, (paid + - le_amount entry)%float)
  end.

Definition getOperatorRewardView (store : RewardStore) (operatorId : string) : OperatorRewardView :=
  let '(accrued, paid) := foldl viewStep (0%float, 0%float) (listEntries store (Some operatorId)) in
  let pending := nmax 0 (roundDust (accrued - paid)) in
  mkView operatorId (roundDust accrued) pending (roundDust paid).

(** ** Histories *)

Inductive RewardOp :=
| OpAccrue (readings : list ConsensusReading) (now : Z)
| OpInvalidate (roundId readingId operatorId : string) (now : Z)
| OpSchedule (now : Z)
| OpSettle (now : Z).

Definition execReward (s : RewardStore) (op : RewardOp) : RewardStore :=
  match op with
  | OpAccrue readings now => (accrueRewards s readings now).2
  | OpInvalidate r i o now => (invalidateAccrual s r i o now).2
  | OpSchedule now => (schedulePayouts s now).2
  | OpSettle now => (settlePayouts s now).2
  end.

Definition runRewards (ops : list RewardOp) (s : RewardStore) : RewardStore := foldl execReward s ops.

(** * Lemmas: entries are only added *)

(** Every entry of [s] is an entry of [s']. *)
Definition keepsEntries (s s' : RewardStore) : Prop :=
  forall k e, jm_get (rw_entries s) k = Some e -> jm_get (rw_entries s') k = Some e.

#[local] Instance keepsEntries_preorder : PreOrder keepsEntries.
Proof. split; [by intros s k e|]. intros a b c Hab Hbc k e He. auto. Qed.

Lemma hasEntry_true s k : hasEntry s k = true <-> ∃ e, jm_get (rw_entries s) k = Some e.
Proof. unfold hasEntry, jm_has. rewrite bool_decide_eq_true. done. Qed.

Lemma hasEntry_keeps s s' k : keepsEntries s s' -> hasEntry s k = true -> hasEntry s' k = true.
Proof. rewrite !hasEntry_true. intros Hk [e He]. eauto. Qed.

Lemma hasEntry_false s k : hasEntry s k = false -> jm_get (rw_entries s) k = None.
Proof. unfold hasEntry, jm_has. rewrite bool_decide_eq_false. apply eq_None_not_Some. Qed.

Lemma appendEntry_keeps s e : keepsEntries s (appendEntry s e).
Proof.
  unfold appendEntry. destruct (jm_has _ _) eqn:E; [done|]. intros k e' He. simpl.
  rewrite jm_get_set_ne; [done|]. intros <-. apply hasEntry_false in E. congruence.
Qed.

Lemma appendEntry_has s e : hasEntry (appendEntry s e) (le_idempotencyKey e) = true.
Proof.
  unfold appendEntry. destruct (jm_has _ _) eqn:E; [done|].
  apply hasEntry_true. exists e. simpl. apply jm_get_set_eq.
Qed.

Lemma upsertPayout_keeps s p : keepsEntries s (upsertPayout s p).
Proof. by intros k e. Qed.

Lemma accrueRewards_keeps readings now : forall s, keepsEntries s (accrueRewards s readings now).2.
Proof.
  induction readings as [|r rs IH]; intros s; simpl; [done|].
  destruct (nle _ _); [apply IH|]. destruct (hasEntry _ _); [apply IH|].
  destruct (accrueRewards (appendEntry s (accrualEntry now r)) rs now) as [l s'] eqn:E. simpl.
  etrans; [apply appendEntry_keeps|]. pose proof (IH (appendEntry s (accrualEntry now r))) as Hi. by rewrite E in Hi.
Qed.

Lemma invalidate_keeps s r i o now : keepsEntries s (invalidateAccrual s r i o now).2.
Proof. unfold invalidateAccrual. repeat case_match; simpl; try done. apply appendEntry_keeps. Qed.

Lemma scheduleEach_entries bs now : forall s, rw_entries (scheduleEach s bs now).2 = rw_entries s.
Proof.
  induction bs as [|[o b] bs IH]; intros s; simpl; [done|].
  destruct (nlt _ _); [apply IH|]. destruct (List.find _ _); [apply IH|].
  destruct (scheduleEach _ bs now) as [l s'] eqn:E. simpl.
  match type of E with scheduleEach ?s0 _ _ = _ => specialize (IH s0) end. by rewrite E in IH.
Qed.

Lemma settleEach_keeps ps now : forall s, keepsEntries s (settleEach s ps now).2.
Proof.
  induction ps as [|p ps IH]; intros s; simpl; [done|].
  case_bool_decide; [apply IH|]. destruct (_ <? _)%Z; [apply IH|].
  destruct (settleEach _ ps now) as [l s'] eqn:E. simpl.
  match type of E with settleEach ?s0 _ _ = _ => specialize (IH s0) end. rewrite E in IH. simpl in IH.
  etrans; [|exact IH]. destruct (negb _); [|apply upsertPayout_keeps].
  etrans; [apply appendEntry_keeps|apply upsertPayout_keeps].
Qed.

Lemma execReward_keeps s op : keepsEntries s (execReward s op).
Proof.
  destruct op; simpl; [apply accrueRewards_keeps|apply invalidate_keeps| |apply settleEach_keeps].
  intros k e. unfold schedulePayouts. by rewrite scheduleEach_entries.
Qed.

Lemma runRewards_keeps ops : forall s, keepsEntries s (runRewards ops s).
Proof.
  induction ops as [|op ops IH]; intros s; simpl; [done|]. etrans; [apply execReward_keeps|apply IH].
Qed.

(** * Lemmas: accrual *)

(** A reading that would accrue has its entry. *)
Definition accounted (s : RewardStore) (r : ConsensusReading) : Prop :=
  nle (computeAccrualAmount r) 0 = true ∨ hasEntry s (accrualKeyOf r) = true.

Lemma accrue_accounts readings now : forall s, Forall (accounted (accrueRewards s readings now).2) readings.
Proof.
  induction readings as [|r rs IH]; intros s; simpl; [constructor|].
  destruct (nle _ _) eqn:Ha; [constructor; [by left|apply IH]|].
  destruct (hasEntry s (accrualKeyOf r)) eqn:Hk.
  { constructor; [right|apply IH]. eapply hasEntry_keeps; [apply accrueRewards_keeps|done]. }
  destruct (accrueRewards (appendEntry s (accrualEntry now r)) rs now) as [l s'] eqn:E. simpl.
  pose proof (IH (appendEntry s (accrualEntry now r))) as Hi. rewrite E in Hi. constructor; [right|done].
  pose proof (accrueRewards_keeps rs now (appendEntry s (accrualEntry now r))) as Hm. rewrite E in Hm.
  eapply hasEntry_keeps; [exact Hm|]. apply (appendEntry_has s (accrualEntry now r)).
Qed.

Lemma accrue_nothing readings now : forall s, Forall (accounted s) readings -> accrueRewards s readings now = ([], s).
Proof.
  induction readings as [|r rs IH]; intros s Hf; [done|]. apply Forall_cons in Hf as [Hr Hf]. simpl.
  destruct (nle _ _) eqn:Ha; [by apply IH|]. destruct Hr as [Hr|Hr]; [congruence|]. rewrite Hr. by apply IH.
Qed.

(** The entry an accrual stands for. *)
Definition entryOfAccrual (a : RewardAccrual) : string * LedgerEntry :=
  (ra_idempotencyKey a, mkEntry (ra_idempotencyKey a) Accrual (ra_operatorId a) (ra_amount a)
     (Some (ra_roundId a)) (Some (ra_readingId a)) (ra_createdAt a)).

Definition accruedFor (now : Z) (r : ConsensusReading) (a : RewardAccrual) : Prop :=
  rg_includedInConsensus r = true ∧ rg_status r = RsCommitted ∧
  a = mkAccrual (accrualKeyOf r) (rg_roundId r) (rg_readingId r) (rg_operatorId r) (computeAccrualAmount r) now.

Lemma accrual_amount_zero r : nle (computeAccrualAmount r) 0 = false -> rg_includedInConsensus r = true ∧ rg_status r = RsCommitted.
Proof.
  unfold computeAccrualAmount. destruct (rg_includedInConsensus r); [|done]. simpl.
  case_bool_decide as Hs; [done|]. intros _. split; [done|]. by destruct (rg_status r); try (exfalso; apply Hs).
Qed.

Lemma accrue_appends readings now : forall s,
  rw_entries (accrueRewards s readings now).2 = rw_entries s ++ map entryOfAccrual (accrueRewards s readings now).1 ∧
  Forall (fun a => ∃ r, r ∈ readings ∧ accruedFor now r a) (accrueRewards s readings now).1.
Proof.
  induction readings as [|r rs IH]; intros s; simpl; [by rewrite app_nil_r|].
  assert (forall s0, rw_entries (accrueRewards s0 rs now).2 = rw_entries s0 ++ map entryOfAccrual (accrueRewards s0 rs now).1 ∧
            Forall (fun a => ∃ r0, r0 ∈ r :: rs ∧ accruedFor now r0 a) (accrueRewards s0 rs now).1) as IH'.
  { intros s0. destruct (IH s0) as [? Hf]. split; [done|]. eapply Forall_impl; [exact Hf|].
    intros a (r0 & ? & ?). exists r0. split; [by right|done]. }
  clear IH. destruct (nle _ _) eqn:Ha; [apply IH'|]. destruct (hasEntry _ _) eqn:Hk; [apply IH'|].
  specialize (IH' (appendEntry s (accrualEntry now r))).
  destruct (accrueRewards (appendEntry s (accrualEntry now r)) rs now) as [l s'] eqn:E. simpl in *.
  destruct IH' as [He Hf]. split.
  - rewrite He. unfold appendEntry. simpl. unfold hasEntry in Hk. rewrite Hk. simpl.
    rewrite jm_set_fresh by (by apply hasEntry_false). by rewrite <- app_assoc.
  - constructor; [|done]. exists r. split; [by left|]. apply accrual_amount_zero in Ha as [??]. done.
Qed.

(** * Lemmas: payouts *)

(** Payouts are stored under their own key. *)
Definition wfPayouts (m : list (string * PayoutRecord)) : Prop :=
  NoDup (jm_keys m) ∧ forall k p, jm_get m k = Some p -> pr_idempotencyKey p = k.

Lemma wfPayouts_set m p : wfPayouts m -> wfPayouts (jm_set m (pr_idempotencyKey p) p).
Proof.
  intros [Hn Hk]. split; [by apply jm_set_NoDup|]. intros k q. rewrite jm_get_set.
  case_decide; [by intros [= <-]|apply Hk].
Qed.

Lemma appendEntry_payouts s e : rw_payouts (appendEntry s e) = rw_payouts s.
Proof. unfold appendEntry. by destruct (jm_has _ _). Qed.

Lemma accrue_payouts readings now : forall s, rw_payouts (accrueRewards s readings now).2 = rw_payouts s.
Proof.
  induction readings as [|r rs IH]; intros s; simpl; [done|].
  destruct (nle _ _); [apply IH|]. destruct (hasEntry _ _); [apply IH|].
  specialize (IH (appendEntry s (accrualEntry now r))). destruct (accrueRewards _ rs now) as [l s']. simpl in *.
  by rewrite IH, appendEntry_payouts.
Qed.

Lemma schedule_wf bs now : forall s, wfPayouts (rw_payouts s) -> wfPayouts (rw_payouts (scheduleEach s bs now).2).
Proof.
  induction bs as [|[o b] bs IH]; intros s Hs; simpl; [done|].
  destruct (nlt _ _); [by apply IH|]. destruct (List.find _ _); [by apply IH|].
  set (p := mkPayout _ _ _ _ _ _). specialize (IH (upsertPayout s p)).
  destruct (scheduleEach (upsertPayout s p) bs now) as [l s']. apply IH. by apply (wfPayouts_set _ p).
Qed.

Lemma settle_wf ps now : forall s, wfPayouts (rw_payouts s) -> wfPayouts (rw_payouts (settleEach s ps now).2).
Proof.
  induction ps as [|p ps IH]; intros s Hs; simpl; [done|].
  case_bool_decide; [by apply IH|]. destruct (_ <? _)%Z; [by apply IH|].
  set (s1 := if negb _ then _ else s).
  assert (rw_payouts s1 = rw_payouts s) as E1 by (unfold s1; destruct (negb _); [apply appendEntry_payouts|done]).
  specialize (IH (upsertPayout s1 (markPaid p))).
  destruct (settleEach (upsertPayout s1 (markPaid p)) ps now) as [l s']. apply IH. simpl. rewrite E1.
  by apply (wfPayouts_set _ (markPaid p)).
Qed.

Lemma runRewards_wf ops : forall s, wfPayouts (rw_payouts s) -> wfPayouts (rw_payouts (runRewards ops s)).
Proof.
  induction ops as [|op ops IH]; intros s Hs; simpl; [done|]. apply IH. destruct op; simpl.
  - by rewrite accrue_payouts.
  - unfold invalidateAccrual. repeat case_match; simpl; try done. by rewrite appendEntry_payouts.
  - by apply schedule_wf.
  - by apply settle_wf.
Qed.

(** What settlement makes of one payout. *)
Definition settledAt (now : Z) (p : PayoutRecord) : PayoutRecord :=
  if bool_decide (pr_status p = Pending) && (pr_disputeWindowEndsAt p <=? now)%Z then markPaid p else p.

Lemma settleEach_get ps now k : forall s,
  NoDup (map pr_idempotencyKey ps) ->
  (forall p, p ∈ ps -> jm_get (rw_payouts s) (pr_idempotencyKey p) = Some p) ->
  jm_get (rw_payouts (settleEach s ps now).2) k =
    if decide (k ∈ map pr_idempotencyKey ps) then settledAt now <$> jm_get (rw_payouts s) k else jm_get (rw_payouts s) k.
Proof.
  induction ps as [|p ps IH]; intros s Hn Hg; [done|]. cbn [map] in *. apply NoDup_cons in Hn as [Hp Hn].
  pose proof (Hg p ltac:(by left)) as Hgp.
  assert (settledAt now p = p ->
    (if decide (k ∈ map pr_idempotencyKey ps) then settledAt now <$> jm_get (rw_payouts s) k else jm_get (rw_payouts s) k) =
    (if decide (k ∈ pr_idempotencyKey p :: map pr_idempotencyKey ps) then settledAt now <$> jm_get (rw_payouts s) k
     else jm_get (rw_payouts s) k)) as Hsame.
  { intros Hid. destruct (decide (k = pr_idempotencyKey p)) as [->|Hne].
    - rewrite decide_False by done. rewrite decide_True by (by left). rewrite Hgp. simpl. by rewrite Hid.
    - destruct (decide (k ∈ map pr_idempotencyKey ps)); [by rewrite decide_True by (by right)|].
      rewrite decide_False; [done|]. by intros [?|?]%elem_of_cons. }
  simpl. case_bool_decide as Hst.
  { rewrite IH by (try done; intros; apply Hg; by right). apply Hsame. unfold settledAt. by rewrite bool_decide_eq_false_2. }
  destruct (Z.ltb_spec now (pr_disputeWindowEndsAt p)) as [Hw|Hw].
  { rewrite IH by (try done; intros; apply Hg; by right). apply Hsame. unfold settledAt.
    rewrite (proj2 (Z.leb_gt _ _)) by lia. by rewrite andb_false_r. }
  set (s1 := if negb _ then _ else s).
  assert (rw_payouts s1 = rw_payouts s) as E1 by (unfold s1; destruct (negb _); [apply appendEntry_payouts|done]).
  specialize (IH (upsertPayout s1 (markPaid p))).
  destruct (settleEach (upsertPayout s1 (markPaid p)) ps now) as [l s'] eqn:E. simpl in *. rewrite E1 in IH.
  rewrite IH; [|done|].
  - change (pr_idempotencyKey (markPaid p)) with (pr_idempotencyKey p). destruct (decide (k = pr_idempotencyKey p)) as [->|Hne].
    + rewrite decide_False by done. rewrite decide_True by (by left). rewrite jm_get_set_eq, Hgp. simpl. unfold settledAt.
      rewrite bool_decide_eq_true_2, (proj2 (Z.leb_le _ _)) by done. done.
    + rewrite jm_get_set_ne by done. destruct (decide (k ∈ map pr_idempotencyKey ps)); [by rewrite decide_True by (by right)|].
      rewrite decide_False; [done|]. by intros [?|?]%elem_of_cons.
  - intros q Hq. change (pr_idempotencyKey (markPaid p)) with (pr_idempotencyKey p).
    rewrite jm_get_set_ne; [apply Hg; by right|]. intros Heq. apply Hp. rewrite Heq. apply list_elem_of_fmap. eauto.
Qed.

(** * Properties *)

(** "exactly-once under retries": a delivery of readings appends to the ledger
    exactly the accruals it returns, each for a committed reading included in
    the consensus and at its computed amount; and delivering the same readings
    again, after any accruals, invalidations, schedulings and settlements in
    between, returns nothing and changes nothing. *)
Theorem accrual_exactly_once (s : RewardStore) (readings : list ConsensusReading) (now now' : Z) (ops : list RewardOp) :
  let '(accrued, s1) := accrueRewards s readings now in
  rw_entries s1 = rw_entries s ++ map entryOfAccrual accrued ∧
  Forall (fun a => ∃ r, r ∈ readings ∧ accruedFor now r a) accrued ∧
  accrueRewards (runRewards ops s1) readings now' = ([], runRewards ops s1).
Proof.
  pose proof (accrue_appends readings now s) as [He Hf]. pose proof (accrue_accounts readings now s) as Ha.
  destruct (accrueRewards s readings now) as [l s1]. simpl in *. split_and!; [done..|].
  apply accrue_nothing. eapply Forall_impl; [exact Ha|]. intros r [?|?]; [by left|right].
  eapply hasEntry_keeps; [apply runRewards_keeps|done].
Qed.

(** C0: "funds move only after the dispute window elapses", and disputed payouts
    are left untouched: in every reachable store, settling turns exactly the
    pending payouts whose window has elapsed into paid ones and keeps every
    other payout as it was. *)
Theorem settlement_respects_window (ops : list RewardOp) (now : Z) (key : string) :
  let s := runRewards ops emptyStore in
  jm_get (rw_payouts (settlePayouts s now).2) key = settledAt now <$> jm_get (rw_payouts s) key.
Proof.
  intros s. assert (wfPayouts (rw_payouts s)) as [Hn Hk].
  { apply runRewards_wf. split; [constructor|done]. }
  assert (map pr_idempotencyKey (jm_values (rw_payouts s)) = jm_keys (rw_payouts s)) as Hkeys.
  { unfold jm_values, jm_keys in *. clear -Hn Hk. induction (rw_payouts s) as [|[k p] m IH]; [done|].
    cbn [map fmap list_fmap] in *. apply NoDup_cons in Hn as [Hnk Hn]. simpl. f_equal.
    - apply Hk. simpl. by rewrite decide_True.
    - apply IH; [done|]. intros k' p' Hg. apply Hk. simpl. rewrite decide_False; [done|].
      intros ->. apply jm_get_Some_in in Hg. apply Hnk, list_elem_of_fmap. by exists (k, p'). }
  unfold settlePayouts, listPayouts. simpl. rewrite settleEach_get.
  - rewrite Hkeys. case_decide as Hin; [done|]. apply jm_get_None_notin in Hin. by rewrite Hin.
  - by rewrite Hkeys.
  - intros p Hp. apply list_elem_of_fmap in Hp as ([k q] & -> & Hq). apply jm_in_get in Hq; [|done].
    simpl. by rewrite (Hk _ _ Hq).
Qed.
End Rewards.

Definition demoReading (r : string) : ConsensusReading := mkReading r "round" "op" true RsCommitted 100000%float 1%float.

(** Two rounds of accrual, scheduling and settlement for one operator. *)
Definition twoRounds : list RewardOp :=
  [OpAccrue [demoReading "r1"] 0; OpSchedule 0; OpSettle DISPUTE_WINDOW_MS;
   OpAccrue [demoReading "r2"] DISPUTE_WINDOW_MS; OpSchedule DISPUTE_WINDOW_MS; OpSettle (2 * DISPUTE_WINDOW_MS)].

(** An operator is paid more than it accrued: scheduling adds up accruals and
    adjustments but skips earlier payouts, so after a first accrual of 100 is paid
    and a second accrual of 100 follows, the second payout is 200; the operator
    has accrued 200 and been paid 300. *)
Theorem paid_more_than_accrued :
  getOperatorRewardView (@runRewards demoHost twoRounds emptyStore) "op" = mkView "op" 200 0 300.
Proof. vm_compute. reflexivity. Qed.
