(* ===== verification/Disputes.v ===== *)
(** Claim disputes (src/claim/dispute/dispute.service.ts, with the constraints of
    src/db/migrations/007_claim_disputes.sql): the bonded challenge of a confirmed
    settlement as a state machine over the tables [claim_settlements],
    [claim_disputes] and [settlement_reversals].

    A transaction is a function that returns the new tables or an error with the
    old ones; the row locks make transactions on one decision serial.  Times are
    the database's clock in microseconds; [interval] is PostgreSQL's
    [make_interval(secs => x)]. *)

From stdpp Require Import base list strings sets relations.
From Stdlib Require Import ZArith Lia Floats Ascii.
From S2P Require Import Prelude Decimal JsNum Canonical Encoding ClaimHold.

#[local] Open Scope Z_scope.

Inductive DisputeStatus := Open | UnderReview | Upheld | Reversed | Withdrawn.
Inductive BondStatus := Posted | Forfeited | Returned.
#[global] Instance DisputeStatus_eq_dec : EqDecision DisputeStatus.
Proof. solve_decision. Defined.
#[global] Instance BondStatus_eq_dec : EqDecision BondStatus.
Proof. solve_decision. Defined.

Definition TRANSITIONS (s : DisputeStatus) : list DisputeStatus :=
  match s with
  | Open => [UnderReview; Withdrawn]
  | UnderReview => [Upheld; Reversed; Withdrawn]
  | Upheld | Reversed | Withdrawn => []
  end.

Definition BOND_ON_RESOLUTION (s : DisputeStatus) : option BondStatus :=
  match s with
  | Upheld => Some Forfeited
  | Reversed | Withdrawn => Some Returned
  | Open | UnderReview => None
  end.

Definition DEFAULT_WINDOW_HOURS : num := 72%float.

Definition disputeStatusText (s : DisputeStatus) : string :=
  match s with Open => "open" | UnderReview => "under_review" | Upheld => "upheld" | Reversed => "reversed" | Withdrawn => "withdrawn" end.

(** A row of [claim_disputes]. *)
Record DisputeRow := mkDispute {
  ds_id : string; ds_decisionId : string; ds_policyId : string; ds_status : DisputeStatus;
  ds_reason : string; ds_bondReference : string; ds_bondStatus : BondStatus; ds_openedBy : string;
  ds_windowClosesAt : Z; ds_resolutionNote : option string; ds_replacementDecisionId : option string;
  ds_createdAt : Z; ds_resolvedAt : option Z }.

(** Amounts are NUMERIC(38, 18), in units of 10^-18. *)
Record SettlementRow := mkSettlement {
  se_status : string; se_policyId : string; se_coverageType : string; se_amount : Z; se_createdAt : Z }.
Record ReversalRow := mkReversal { rv_decisionId : string; rv_policyId : string; rv_amount : Z; rv_status : string }.

(** The tables, keyed by decision id, dispute id and dispute id. *)
Record Db := mkDb {
  db_settlements : list (string * SettlementRow);
  db_disputes : list (string * DisputeRow);
  db_reversals : list (string * ReversalRow) }.

Record DisputeRecord := mkRecord {
  dx_row : DisputeRow; dx_coverageType : string; dx_reversal : option (Z * string) }.

Inductive Failure :=
| NotFound (msg : string) | Conflict (msg : string) | BadRequest (msg : string) | DbError (msg : string).

(** * Windows *)

(** [parseDisputeWindows] on the parsed value of the variable ([None] when it is
    unset or blank). *)
Definition positiveHours (v : json) : option num :=
  match v with JNum h => if isFinite h && nlt PrimFloat.zero h then Some h else None | _ => None end.

Fixpoint parseEntries (l : list (string * json)) (windows : list (string * num)) : res string (list (string * num)) :=
  match l with
  | [] => Ok windows
  | (coverage, v) :: rest =>
      match positiveHours v with
      | Some hours => parseEntries rest (jm_set windows coverage hours)
      | None => Err ("DISPUTE_WINDOW_HOURS." +:+ coverage +:+ " must be a positive number of hours")
      end
  end.

Definition parseDisputeWindows (parsed : option json) : res string (list (string * num)) :=
  match parsed with
  | None => Ok []
  | Some (JObj l) => parseEntries (ownProperties l) []
  | Some _ => Err "DISPUTE_WINDOW_HOURS must be a JSON object of positive hour values"
  end.

Definition windowHoursFor (windows : list (string * num)) (coverageType : string) : num :=
  match jm_get windows coverageType with
  | Some h => h
  | None => default DEFAULT_WINDOW_HOURS (jm_get windows "default")
  end.

(** * Operations *)

Record OpenDisputeInput := mkOpenInput { oi_decisionId : string; oi_reason : string; oi_bondReference : string; oi_actor : string }.
Record TransitionInput := mkTransition {
  ti_to : DisputeStatus; ti_note : option string; ti_replacement : option string; ti_actor : string }.

(** The UUID pattern: hexadecimal groups of 8, 4, 4, 4 and 12, any case. *)
Definition isHexAny (c : ascii) : bool :=
  is_hex c || ((65 <=? Z.of_N (N_of_ascii c)) && (Z.of_N (N_of_ascii c) <=? 70)).
Definition UUID (s : string) : bool :=
  let t := String.list_ascii_of_string s in
  let group i n := forallb isHexAny (take n (drop i t)) in
  let dash i := bool_decide (t !! i = Some "-"%char) in
  bool_decide (length t = 36%nat) && group 0%nat 8%nat && dash 8%nat && group 9%nat 4%nat && dash 13%nat &&
  group 14%nat 4%nat && dash 18%nat && group 19%nat 4%nat && dash 23%nat && group 24%nat 12%nat.

(** The rows the partial unique index covers. *)
Definition isLive (d : DisputeRow) : bool := negb (bool_decide (ds_status d = Withdrawn)).
Definition liveOn (db : Db) (decisionId : string) : bool :=
  existsb (fun d => isLive d && bool_decide (ds_decisionId d = decisionId)) (jm_values (db_disputes db)).

Section Service.
Variable windows : list (string * num).
Variable interval : num -> Z.

Definition windowOf (coverageType : string) : Z := interval (windowHoursFor windows coverageType * 3600)%float.

(** [INSERT INTO claim_disputes]: the reason's CHECK, the primary key and the
    partial unique index. *)
Definition insertDispute (db : Db) (row : DisputeRow) : res Failure Db :=
  let n := length (String.list_ascii_of_string (ds_reason row)) in
  if negb ((1 <=? n)%nat && (n <=? 2000)%nat) then Err (DbError "reason violates its check constraint")
  else if jm_has (db_disputes db) (ds_id row) || liveOn db (ds_decisionId row)
  then Err (Conflict ("Decision " +:+ ds_decisionId row +:+ " already has a live dispute or is final"))
  else Ok (mkDb (db_settlements db) (jm_set (db_disputes db) (ds_id row) row) (db_reversals db)).

Definition openDispute (db : Db) (newId : string) (now : Z) (input : OpenDisputeInput) : res Failure (Db * string) :=
  let decisionId := oi_decisionId input in
  match jm_get (db_settlements db) decisionId with
  | None => Err (NotFound ("Unknown decision " +:+ decisionId))
  | Some settlement =>
      if bool_decide (se_status settlement = "pending") || bool_decide (se_status settlement = "submitted")
      then Err (Conflict ("Settlement for " +:+ decisionId +:+ " is in flight; retry after reconciliation"))
      else if negb (bool_decide (se_status settlement = "confirmed"))
      then Err (Conflict ("Decision " +:+ decisionId +:+ " did not pay out (settlement " +:+ se_status settlement +:+ ")"))
      else
        let closesAt := se_createdAt settlement + windowOf (se_coverageType settlement) in
        if closesAt <=? now then Err (Conflict ("Challenge window for " +:+ decisionId +:+ " has closed"))
        else
          db' ← insertDispute db (mkDispute newId decisionId (se_policyId settlement) Open (oi_reason input)
                 (oi_bondReference input) Posted (oi_actor input) closesAt None None now None);
          Ok (db', newId)
  end.

(** [INSERT INTO settlement_reversals]: one row per dispute and per decision. *)
Definition insertReversal (db : Db) (id : string) (row : ReversalRow) : res Failure Db :=
  if rv_amount row <=? 0 then Err (DbError "amount violates its check constraint")
  else if jm_has (db_reversals db) id || existsb (fun r => bool_decide (rv_decisionId r = rv_decisionId row)) (jm_values (db_reversals db))
  then Err (Conflict "Decision already reversed or replacement decision already in use")
  else Ok (mkDb (db_settlements db) (db_disputes db) (jm_set (db_reversals db) id row)).

Definition trimText (s : string) : string := String.string_of_list_ascii (trim (String.list_ascii_of_string s)).

(** The UPDATE of a dispute: [replacement_decision_id] is unique and differs from
    the decision. *)
Definition resolvedRow (d : DisputeRow) (input : TransitionInput) (now : Z) : DisputeRow :=
  mkDispute (ds_id d) (ds_decisionId d) (ds_policyId d) (ti_to input) (ds_reason d) (ds_bondReference d)
    (default (ds_bondStatus d) (BOND_ON_RESOLUTION (ti_to input))) (ds_openedBy d) (ds_windowClosesAt d)
    (match ti_note input with Some n => Some n | None => ds_resolutionNote d end)
    (match (if bool_decide (ti_to input = Reversed) then trimText <$> ti_replacement input else None) with
     | Some r => Some r | None => ds_replacementDecisionId d end)
    (ds_createdAt d)
    (if bool_decide (ti_to input = UnderReview) then ds_resolvedAt d else Some now).

Definition updateDispute (db : Db) (id : string) (row : DisputeRow) : res Failure Db :=
  match ds_replacementDecisionId row with
  | Some r =>
      if bool_decide (r = ds_decisionId row) then Err (DbError "replacement violates its check constraint")
      else if existsb (fun e => negb (bool_decide (e.1 = id)) && bool_decide (ds_replacementDecisionId e.2 = Some r)) (db_disputes db)
      then Err (Conflict "Decision already reversed or replacement decision already in use")
      else Ok (mkDb (db_settlements db) (jm_set (db_disputes db) id row) (db_reversals db))
  | None => Ok (mkDb (db_settlements db) (jm_set (db_disputes db) id row) (db_reversals db))
  end.

Definition transition (db : Db) (id : string) (now : Z) (input : TransitionInput) : res Failure Db :=
  if negb (UUID id) then Err (NotFound ("Unknown dispute " +:+ id))
  else match jm_get (db_disputes db) id with
  | None => Err (NotFound ("Unknown dispute " +:+ id))
  | Some d =>
      match jm_get (db_settlements db) (ds_decisionId d) with
      | None => Err (NotFound ("Unknown dispute " +:+ id))
      | Some settlement =>
          if negb (bool_decide (ti_to input ∈ TRANSITIONS (ds_status d)))
          then Err (Conflict ("Cannot move dispute from " +:+ disputeStatusText (ds_status d) +:+ " to " +:+ disputeStatusText (ti_to input)))
          else
            db1 ← (if bool_decide (ti_to input = Reversed) then
                     if negb (match ti_replacement input with Some r => nonBlank r | None => false end)
                     then Err (BadRequest "replacementDecisionId is required to reverse a decision")
                     else if negb (bool_decide (se_status settlement = "confirmed"))
                     then Err (Conflict ("Settlement for " +:+ ds_decisionId d +:+ " is " +:+ se_status settlement +:+ "; cannot reverse"))
                     else insertReversal db id (mkReversal (ds_decisionId d) (ds_policyId d) (se_amount settlement) "owed")
                   else Ok db);
            updateDispute db1 id (resolvedRow d input now)
      end
  end.

Definition getDispute (db : Db) (id : string) : res Failure DisputeRecord :=
  if negb (UUID id) then Err (NotFound ("Unknown dispute " +:+ id))
  else match jm_get (db_disputes db) id with
  | None => Err (NotFound ("Unknown dispute " +:+ id))
  | Some d => Ok (mkRecord d (default "" (se_coverageType <$> jm_get (db_settlements db) (ds_decisionId d)))
                    ((fun r => (rv_amount r, rv_status r)) <$> jm_get (db_reversals db) id))
  end.

(** The gauge [refract_claim_disputes_open]. *)
Definition openCount (db : Db) : Z :=
  Z.of_nat (length (filter (fun d => ds_status d = Open ∨ ds_status d = UnderReview) (jm_values (db_disputes db)))).
End Service.

(** * Histories

    [step] is one committed transaction: the settlement pipeline creates a
    settlement or moves its status (the amount, policy and creation time are never
    updated), an open, or a transition. *)
Section Histories.
Variable windows : list (string * num).
Variable interval : num -> Z.

Definition sameSettlement (a b : SettlementRow) : Prop :=
  se_policyId a = se_policyId b ∧ se_coverageType a = se_coverageType b ∧ se_amount a = se_amount b ∧ se_createdAt a = se_createdAt b.

Inductive dstep (db : Db) : Db -> Prop :=
| step_settle decisionId row :
    (forall old, jm_get (db_settlements db) decisionId = Some old -> sameSettlement old row) ->
    dstep db (mkDb (jm_set (db_settlements db) decisionId row) (db_disputes db) (db_reversals db))
| step_open newId now input db' id :
    openDispute windows interval db newId now input = Ok (db', id) -> dstep db db'
| step_transition id now input db' :
    transition db id now input = Ok db' -> dstep db db'.

Definition emptyDb : Db := mkDb [] [] [].
Definition reachable : Db -> Prop := rtc dstep emptyDb.

(** The invariant: keys match rows; the bond and the resolution time follow the
    status; a decision has one dispute that is not withdrawn; exactly the
    reversed disputes name a replacement (used once, not the decision itself) and
    have booked a reversal, of the settled amount. *)
Record wf (db : Db) : Prop := {
  wf_id : forall id d, jm_get (db_disputes db) id = Some d -> ds_id d = id;
  wf_keys : NoDup (jm_keys (db_disputes db));
  wf_settled : forall id d, jm_get (db_disputes db) id = Some d ->
    ∃ s, jm_get (db_settlements db) (ds_decisionId d) = Some s ∧ se_policyId s = ds_policyId d;
  wf_bond : forall id d, jm_get (db_disputes db) id = Some d ->
    ds_bondStatus d = default Posted (BOND_ON_RESOLUTION (ds_status d));
  wf_window : forall id d, jm_get (db_disputes db) id = Some d -> ds_createdAt d < ds_windowClosesAt d;
  wf_resolved : forall id d, jm_get (db_disputes db) id = Some d ->
    is_Some (ds_resolvedAt d) <-> TRANSITIONS (ds_status d) = [];
  wf_live : forall id1 id2 d1 d2, jm_get (db_disputes db) id1 = Some d1 -> jm_get (db_disputes db) id2 = Some d2 ->
    ds_decisionId d1 = ds_decisionId d2 -> ds_status d1 ≠ Withdrawn -> ds_status d2 ≠ Withdrawn -> id1 = id2;
  wf_replacement : forall id d, jm_get (db_disputes db) id = Some d ->
    is_Some (ds_replacementDecisionId d) <-> ds_status d = Reversed;
  wf_replacement_once : forall id1 id2 d1 d2 r, jm_get (db_disputes db) id1 = Some d1 -> jm_get (db_disputes db) id2 = Some d2 ->
    ds_replacementDecisionId d1 = Some r -> ds_replacementDecisionId d2 = Some r -> id1 = id2 ∧ r ≠ ds_decisionId d1;
  wf_reversal : forall id d s, jm_get (db_disputes db) id = Some d -> jm_get (db_settlements db) (ds_decisionId d) = Some s ->
    jm_get (db_reversals db) id =
      (if decide (ds_status d = Reversed) then Some (mkReversal (ds_decisionId d) (ds_policyId d) (se_amount s) "owed") else None);
  wf_reversal_dom : forall id r, jm_get (db_reversals db) id = Some r -> is_Some (jm_get (db_disputes db) id) }.

Lemma dispute_empty_wf : wf emptyDb.
Proof. split; try done. constructor. Qed.

Lemma dispute_settle_wf db decisionId row : wf db ->
  (forall old, jm_get (db_settlements db) decisionId = Some old -> sameSettlement old row) ->
  wf (mkDb (jm_set (db_settlements db) decisionId row) (db_disputes db) (db_reversals db)).
Proof.
  intros [] Hsame. split; cbn; try done.
  - intros id d Hd. destruct (wf_settled0 id d Hd) as (s & Hs & Hp). rewrite jm_get_set. case_decide as E; [|eauto].
    subst. destruct (Hsame s Hs) as (Hpol & _). exists row. split; [done|]. congruence.
  - intros id d s Hd. rewrite jm_get_set. case_decide as E; [|by apply wf_reversal0].
    intros [= <-]. destruct (wf_settled0 id d Hd) as (s & Hs & _). rewrite (wf_reversal0 id d s Hd Hs).
    subst. destruct (Hsame s Hs) as (_ & _ & Ha & _). by rewrite Ha.
Qed.

Lemma liveOn_false db decisionId id d : liveOn db decisionId = false -> jm_get (db_disputes db) id = Some d ->
  ds_decisionId d = decisionId -> ds_status d = Withdrawn.
Proof.
  unfold liveOn. intros Hl Hd <-. apply jm_get_Some_in in Hd. apply dec_stable. intros Hw.
  assert (existsb (fun d0 => isLive d0 && bool_decide (ds_decisionId d0 = ds_decisionId d)) (jm_values (db_disputes db)) = true); [|congruence].
  apply existsb_exists. exists d. split; [apply list_elem_of_In; unfold jm_values; by apply (list_elem_of_fmap_2 snd _ _ Hd)|].
  unfold isLive. by rewrite bool_decide_eq_false_2, bool_decide_eq_true_2.
Qed.

Lemma openDispute_inv db newId now input db' id : openDispute windows interval db newId now input = Ok (db', id) ->
  ∃ s row, jm_get (db_settlements db) (oi_decisionId input) = Some s ∧ se_status s = "confirmed" ∧
    now < se_createdAt s + windowOf windows interval (se_coverageType s) ∧
    id = newId ∧ liveOn db (oi_decisionId input) = false ∧ jm_get (db_disputes db) newId = None ∧
    row = mkDispute newId (oi_decisionId input) (se_policyId s) Open (oi_reason input) (oi_bondReference input) Posted
            (oi_actor input) (se_createdAt s + windowOf windows interval (se_coverageType s)) None None now None ∧
    db' = mkDb (db_settlements db) (jm_set (db_disputes db) newId row) (db_reversals db).
Proof.
  unfold openDispute. destruct (jm_get _ _) as [s|]; [|done].
  destruct (_ || _); [done|]. destruct (bool_decide_reflect (se_status s = "confirmed")); cbn [negb]; [|done].
  destruct (Z.leb_spec (se_createdAt s + windowOf windows interval (se_coverageType s)) now); [done|].
  unfold insertDispute. cbn [ds_reason ds_id ds_decisionId]. destruct (negb _); [done|].
  destruct (jm_has (db_disputes db) newId) eqn:Eh; [done|]. destruct (liveOn _ _) eqn:El; [done|]. cbn.
  intros [= <- <-]. eexists s, _. split_and!; try done.
  unfold jm_has in Eh. apply bool_decide_eq_false in Eh. by apply eq_None_not_Some.
Qed.

Lemma open_wf db newId now input db' id : wf db -> openDispute windows interval db newId now input = Ok (db', id) -> wf db'.
Proof.
  intros Hwf Ho. destruct (openDispute_inv _ _ _ _ _ _ Ho) as (s & row & Hs & _ & Hwin & _ & Hlive & Hfresh & Hrow & ->).
  assert (jm_get (db_reversals db) newId = None) as Hrev.
  { destruct (jm_get (db_reversals db) newId) as [r|] eqn:E; [|done]. destruct (wf_reversal_dom _ Hwf _ _ E). congruence. }
  destruct Hwf. split; cbn [db_disputes db_settlements db_reversals].
  - intros id0 d. rewrite jm_get_set. case_decide; [|eauto]. intros [= <-]. by subst.
  - by apply jm_set_NoDup.
  - intros id0 d. rewrite jm_get_set. case_decide; [|eauto]. intros [= <-]. subst row. cbn. eauto.
  - intros id0 d. rewrite jm_get_set. case_decide; [|eauto]. intros [= <-]. by subst row.
  - intros id0 d. rewrite jm_get_set. case_decide; [|eauto]. intros [= <-]. by subst row.
  - intros id0 d. rewrite jm_get_set. case_decide; [|eauto]. intros [= <-]. subst row. cbn. split; [by intros []|done].
  - intros id1 id2 d1 d2. rewrite !jm_get_set. case_decide as E1; case_decide as E2; try (subst; done); [| |eauto];
      intros H1 H2 Hdec Hw1 Hw2; simplify_eq; exfalso.
    + apply Hw2. eapply liveOn_false; [exact Hlive|exact H2|done].
    + apply Hw1. eapply liveOn_false; [exact Hlive|exact H1|done].
  - intros id0 d. rewrite jm_get_set. case_decide; [|eauto]. intros [= <-]. subst row. cbn. split; [by intros []|done].
  - intros id1 id2 d1 d2 r. rewrite !jm_get_set. case_decide; case_decide; intros; simplify_eq; [by eapply wf_replacement_once0].
  - intros id0 d s0. rewrite jm_get_set. case_decide; [|by apply wf_reversal0]. intros [= <-] _. subst. cbn. done.
  - intros id0 r Hr. rewrite jm_get_set. case_decide; [eauto|]. by eapply wf_reversal_dom0.
Qed.
Lemma updateDispute_inv db id row db' : updateDispute db id row = Ok db' ->
  db' = mkDb (db_settlements db) (jm_set (db_disputes db) id row) (db_reversals db) ∧
  (forall r, ds_replacementDecisionId row = Some r -> r ≠ ds_decisionId row ∧
     forall id2 d2, jm_get (db_disputes db) id2 = Some d2 -> ds_replacementDecisionId d2 = Some r -> id2 = id).
Proof.
  unfold updateDispute. destruct (ds_replacementDecisionId row) as [r|]; [|intros [= <-]; done].
  destruct (bool_decide_reflect (r = ds_decisionId row)); [done|].
  destruct (existsb _ _) eqn:Ex; [done|]. intros [= <-]. split; [done|]. intros r' [= <-]. split; [done|].
  intros id2 d2 Hd Hr. apply dec_stable. intros Hne. apply Bool.not_true_iff_false in Ex. apply Ex.
  apply existsb_exists. exists (id2, d2). split; [by apply list_elem_of_In, jm_get_Some_in|].
  cbn. by rewrite bool_decide_eq_false_2, bool_decide_eq_true_2.
Qed.

Lemma transition_inv db id now input db' : transition db id now input = Ok db' ->
  ∃ d s revs, jm_get (db_disputes db) id = Some d ∧ jm_get (db_settlements db) (ds_decisionId d) = Some s ∧
    ti_to input ∈ TRANSITIONS (ds_status d) ∧
    updateDispute (mkDb (db_settlements db) (db_disputes db) revs) id (resolvedRow d input now) = Ok db' ∧
    (ti_to input = Reversed -> is_Some (ti_replacement input) ∧ se_status s = "confirmed" ∧ 0 < se_amount s ∧
       revs = jm_set (db_reversals db) id (mkReversal (ds_decisionId d) (ds_policyId d) (se_amount s) "owed")) ∧
    (ti_to input ≠ Reversed -> revs = db_reversals db).
Proof.
  unfold transition. destruct (UUID id); cbn [negb]; [|done].
  destruct (jm_get (db_disputes db) id) as [d|]; [|done].
  destruct (jm_get (db_settlements db) (ds_decisionId d)) as [s|] eqn:Es; [|done].
  destruct (bool_decide_reflect (ti_to input ∈ TRANSITIONS (ds_status d))); cbn [negb]; [|done].
  destruct (bool_decide_reflect (ti_to input = Reversed)) as [E|E].
  - destruct (ti_replacement input) as [r|] eqn:Er; [|done]. destruct (nonBlank r); cbn [negb]; [|done].
    destruct (bool_decide_reflect (se_status s = "confirmed")); cbn [negb]; [|done].
    unfold insertReversal. cbn [rv_amount]. destruct (Z.leb_spec (se_amount s) 0); [done|].
    destruct (_ || _); [done|]. cbn [mbind res_bind]. intros Hu. eexists d, s, _. split_and!; try done.
  - cbn [mbind res_bind]. intros Hu. exists d, s, (db_reversals db). split_and!; try done.
Qed.

(** A dispute that can move is neither withdrawn nor reversed, and never reopens. *)
Lemma allowed_move d input : ti_to input ∈ TRANSITIONS (ds_status d) -> ds_status d ≠ Withdrawn ∧ ds_status d ≠ Reversed ∧
  TRANSITIONS (ds_status d) ≠ [] ∧ ti_to input ≠ Open.
Proof. destruct (ds_status d); cbn; rewrite ?elem_of_cons, ?elem_of_nil; intros; destruct_or?; try done; by rewrite H. Qed.

Lemma transition_wf db id now input db' : wf db -> transition db id now input = Ok db' -> wf db'.
Proof.
  intros Hwf Ht. destruct (transition_inv _ _ _ _ _ Ht) as (d & s & revs & Hd & Hs & Hto & Hu & Hrev & Hkeep).
  destruct (updateDispute_inv _ _ _ _ Hu) as [-> Hrep]. cbn [db_settlements db_disputes db_reversals] in *.
  destruct (allowed_move d input Hto) as (Hw & Hnr & Hopen & Hto').
  assert (ds_replacementDecisionId d = None) as Hnone.
  { apply eq_None_not_Some. intros Hsome. by apply (wf_replacement _ Hwf id d Hd) in Hsome. }
  assert (jm_get (db_reversals db) id = None) as Hnorev by (rewrite (wf_reversal _ Hwf id d s Hd Hs); by rewrite decide_False).
  pose proof (wf_bond _ Hwf id d Hd) as Hbond. pose proof (wf_resolved _ Hwf id d Hd) as Hres.
  destruct Hwf. split; cbn [db_disputes db_settlements db_reversals].
  - intros id0 d0. rewrite jm_get_set. case_decide; [|eauto]. intros [= <-]. subst. cbn. eauto.
  - by apply jm_set_NoDup.
  - intros id0 d0. rewrite jm_get_set. case_decide; [|eauto]. intros [= <-]. cbn. eauto.
  - intros id0 d0. rewrite jm_get_set. case_decide; [|eauto]. intros [= <-]. cbn. rewrite Hbond.
    clear -Hto. destruct (ti_to input), (ds_status d); cbn in *; try done; set_solver.
  - intros id0 d0. rewrite jm_get_set. case_decide; [|eauto]. intros [= <-]. by apply (wf_window0 id d).
  - intros id0 d0. rewrite jm_get_set. case_decide; [|eauto]. intros [= <-]. cbn.
    clear -Hto Hres Hopen. case_bool_decide as E; [rewrite Hres, E; split; done|].
    split; [|eauto]. intros _. destruct (ds_status d), (ti_to input); cbn in *; try done; set_solver.
  - intros id1 id2 d1 d2. rewrite !jm_get_set. case_decide as E1; case_decide as E2; try (subst; done); [| |eauto];
      intros H1 H2 Hdec Hw1 Hw2; simplify_eq; cbn in *.
    + by eapply (wf_live0 _ _ _ _ Hd H2).
    + by eapply (wf_live0 _ _ _ _ H1 Hd).
  - intros id0 d0. rewrite jm_get_set. case_decide; [|eauto]. intros [= <-]. cbn. rewrite Hnone.
    clear -Hrev. case_bool_decide as E; [destruct (Hrev E) as [[r ->] _]; cbn; by split|].
    split; [by intros []|done].
  - intros id1 id2 d1 d2 r. rewrite !jm_get_set. case_decide as E1; case_decide as E2; intros H1 H2 Hr1 Hr2; simplify_eq.
    + split; [done|]. by apply (Hrep r).
    + split; [|by apply (Hrep r)]. symmetry. by eapply (proj2 (Hrep r Hr1)).
    + pose proof (proj2 (Hrep r Hr2) id1 d1 H1 Hr1). done.
    + by eapply wf_replacement_once0.
  - intros id0 d0 s0. rewrite jm_get_set. case_decide as E0.
    + intros [= <-]. cbn. rewrite Hs. intros [= <-]. subst id0.
      case_decide as E; [destruct (Hrev E) as (_ & _ & _ & ->); by rewrite jm_get_set_eq|by rewrite (Hkeep E)].
    + intros Hd0 Hs0. rewrite <- (wf_reversal0 id0 d0 s0 Hd0 Hs0).
      destruct (decide (ti_to input = Reversed)) as [E|E];
      [destruct (Hrev E) as (_ & _ & _ & ->); by rewrite jm_get_set_ne|by rewrite (Hkeep E)].
  - intros id0 r Hr. rewrite jm_get_set. case_decide; [eauto|].
    destruct (decide (ti_to input = Reversed)) as [E|E];
      [destruct (Hrev E) as (_ & _ & _ & ->); rewrite jm_get_set_ne in Hr by done|rewrite (Hkeep E) in Hr]; by eapply wf_reversal_dom0.
Qed.

Lemma dstep_wf db db' : wf db -> dstep db db' -> wf db'.
Proof. intros Hwf []; eauto using dispute_settle_wf, open_wf, transition_wf. Qed.

Lemma dispute_reachable_wf db : reachable db -> wf db.
Proof. intros Hr. unfold reachable in Hr. remember emptyDb as e. assert (wf e) by (subst; apply dispute_empty_wf). clear Heqe. induction Hr; eauto using dstep_wf. Qed.

(** A resolved dispute is never touched again. *)
Lemma dstep_final db db' id d : wf db -> dstep db db' -> jm_get (db_disputes db) id = Some d -> TRANSITIONS (ds_status d) = [] ->
  jm_get (db_disputes db') id = Some d.
Proof.
  intros Hwf [dec row Hsame|newId now input db'' id' Ho|id' now input db'' Ht] Hd Hf; [done| |].
  - destruct (openDispute_inv _ _ _ _ _ _ Ho) as (s & row & _ & _ & _ & _ & _ & Hfresh & _ & ->). cbn.
    rewrite jm_get_set_ne; [done|]. intros ->. congruence.
  - destruct (transition_inv _ _ _ _ _ Ht) as (d' & s & revs & Hd' & _ & Hto & Hu & _).
    destruct (updateDispute_inv _ _ _ _ Hu) as [-> _]. cbn. rewrite jm_get_set_ne; [done|].
    intros ->. simplify_eq. rewrite Hf in Hto. by apply elem_of_nil in Hto.
Qed.

(** The dispute tables, after any history of settlements, openings and
    transitions: a dispute was opened before its window closed, on an existing
    settlement; its bond is posted while it is open, forfeited when upheld and
    returned when reversed or withdrawn; a decision has at most one dispute that is
    not withdrawn; and exactly the reversed disputes name a replacement decision
    (never used twice) and have one reversal booked, of the settled amount. *)
Theorem dispute_tables_wf (db : Db) (Hr : reachable db) : wf db.
Proof. by apply dispute_reachable_wf. Qed.

(** "upheld, reversed and withdrawn are final": no later history changes a
    resolved dispute, its bond or its replacement, and after an upheld or reversed
    one every further challenge of the same decision is refused. *)
Theorem resolved_dispute_is_final (db db' : Db) (id : string) (d : DisputeRow)
    (Hr : reachable db) (Hlater : rtc dstep db db')
    (Hd : jm_get (db_disputes db) id = Some d) (Hf : TRANSITIONS (ds_status d) = []) :
  jm_get (db_disputes db') id = Some d ∧
  (ds_status d ≠ Withdrawn -> forall newId now input, oi_decisionId input = ds_decisionId d ->
     is_ok (openDispute windows interval db' newId now input) = false).
Proof.
  assert (wf db) as Hwf by (by apply dispute_reachable_wf). clear Hr.
  assert (jm_get (db_disputes db') id = Some d ∧ wf db') as [Hd' Hwf'].
  { revert Hwf Hd. induction Hlater as [|x y z Hxy Hyz IH]; intros Hwf Hd; [done|].
    apply IH; [by eapply dstep_wf|by eapply dstep_final]. }
  split; [done|]. intros Hw newId now input Hdec.
  destruct (openDispute windows interval db' newId now input) as [[db2 id2]|e] eqn:Ho; [|done]. exfalso.
  destruct (openDispute_inv _ _ _ _ _ _ Ho) as (s & row & _ & _ & _ & _ & Hlive & _).
  apply Hw. eapply liveOn_false; [exact Hlive|exact Hd'|done].
Qed.
End Histories.

(** * Witnesses *)

Definition demoUuid : string := "0123abcd-0000-4000-8000-00000000000f".
Definition demoSettlement : SettlementRow := mkSettlement "confirmed" "p1" "stablecoin_depeg" 5 0.
Definition demoInterval (secs : num) : Z := default 0 (round_to_Z (secs * 1000000)%float).
Definition demoOpen : OpenDisputeInput := mkOpenInput "dec1" "wrong reading" "bond-1" "alice".
Definition demoDb1 : Db := mkDb [("dec1", demoSettlement)] [] [].
Definition demoDb2 : Db :=
  match openDispute [] demoInterval demoDb1 demoUuid 10 demoOpen with Ok (db, _) => db | Err _ => demoDb1 end.
Definition demoDb3 : Db :=
  match transition demoDb2 demoUuid 20 (mkTransition UnderReview None None "ops") with Ok db => db | Err _ => demoDb2 end.
Definition demoDb4 : Db :=
  match transition demoDb3 demoUuid 30 (mkTransition Reversed None (Some " dec2 ") "ops") with Ok db => db | Err _ => demoDb3 end.

Lemma demoDb4_reachable : reachable [] demoInterval demoDb4.
Proof.
  eapply rtc_l; [apply (step_settle [] demoInterval emptyDb "dec1" demoSettlement); done|].
  eapply rtc_l; [apply (step_open [] demoInterval _ demoUuid 10 demoOpen demoDb2 demoUuid); vm_compute; reflexivity|].
  eapply rtc_l; [apply (step_transition [] demoInterval _ demoUuid 20 (mkTransition UnderReview None None "ops") demoDb3); vm_compute; reflexivity|].
  apply rtc_once, (step_transition [] demoInterval _ demoUuid 30 (mkTransition Reversed None (Some " dec2 ") "ops")). vm_compute. reflexivity.
Qed.

Definition demoReversed : DisputeRow :=
  mkDispute demoUuid "dec1" "p1" Reversed "wrong reading" "bond-1" Returned "alice" 259200000000 None (Some "dec2") 10 (Some 30).

Lemma dispute_tables_wf_witness : reachable [] demoInterval demoDb4 ∧ wf demoDb4 ∧
  jm_get (db_disputes demoDb4) demoUuid = Some demoReversed.
Proof.
  split; [apply demoDb4_reachable|]. split; [apply (dispute_tables_wf [] demoInterval); apply demoDb4_reachable|].
  vm_compute. reflexivity.
Defined.

Lemma resolved_dispute_is_final_witness :
  is_ok (openDispute [] demoInterval demoDb4 "x" 40 demoOpen) = false.
Proof.
  apply (resolved_dispute_is_final [] demoInterval demoDb4 demoDb4 demoUuid demoReversed demoDb4_reachable);
    [done|vm_compute; reflexivity|done|done|done].
Defined.
