(* ===== verification/ReviewQueue.v ===== *)
(** The human review queue (src/services/reviewQueue.ts): which decisions need a
    review, the queue table, the reviewers' actions, the sweep of expired entries
    and the settlement gate.

    An action reads its entry and then updates it in a second statement without a
    transaction, so [resolve] is also given as its two halves, [resolveRead] and
    [resolveWrite], which other requests may interleave.  [scan] is the order in
    which the database returns rows that compare equal. *)

From stdpp Require Import base list strings sorting sets relations.
From Stdlib Require Import ZArith Lia Floats.
From S2P Require Import Prelude Decimal JsNum Canonical ClaimHold.

#[local] Open Scope Z_scope.

Inductive ReviewTrigger := ValueAboveThreshold | ConfidenceBelowFloor | EvidenceImmaturity | PostRemediation.
Inductive ReviewStatus := Pending | Approved | Rejected | Escalated.
#[global] Instance ReviewStatus_eq_dec : EqDecision ReviewStatus.
Proof. solve_decision. Defined.
#[global] Instance ReviewTrigger_eq_dec : EqDecision ReviewTrigger.
Proof. solve_decision. Defined.

Definition statusText (s : ReviewStatus) : string :=
  match s with Pending => "pending" | Approved => "approved" | Rejected => "rejected" | Escalated => "escalated" end.

Record ReviewEvidencePacket := mkPacket {
  ep_decision : json; ep_readings : list json; ep_sourceAttributions : list json;
  ep_anomalyFlags : list string; ep_explanation : string }.

Record ReviewQueueConfig := mkConfig { rc_valueThreshold : num; rc_confidenceFloor : num; rc_slaSeconds : Z }.

Record ReviewQueueEntry := mkEntry {
  rq_id : string; rq_claimId : string; rq_decisionId : string; rq_trigger : option ReviewTrigger;
  rq_status : ReviewStatus; rq_evidence : ReviewEvidencePacket; rq_createdAt : Z; rq_deadlineAt : Z;
  rq_resolvedAt : option Z; rq_resolvedBy : option string; rq_rejectionReason : option string }.

Record ReviewerContext := mkContext { cx_actor : string; cx_authorized : bool }.

Definition DEFAULT_CONFIG : ReviewQueueConfig := mkConfig 10000%float 0x1.3333333333333p-1%float 86400.

(** [{ ...config, ...overrides }] *)
Definition configureReviewQueue (config : ReviewQueueConfig) (value floor : option num) (sla : option Z) : ReviewQueueConfig :=
  mkConfig (default (rc_valueThreshold config) value) (default (rc_confidenceFloor config) floor) (default (rc_slaSeconds config) sla).

Record DecisionEvaluation := mkEvaluation {
  de_claimId : string; de_decisionId : string; de_value : num; de_confidence : num;
  de_evidenceMature : bool; de_postRemediation : bool; de_evidence : ReviewEvidencePacket }.

Definition determineTriggers (config : ReviewQueueConfig) (evaluation : DecisionEvaluation) : list ReviewTrigger :=
  (if ngt (de_value evaluation) (rc_valueThreshold config) then [ValueAboveThreshold] else [])
  ++ (if nlt (de_confidence evaluation) (rc_confidenceFloor config) then [ConfidenceBelowFloor] else [])
  ++ (if negb (de_evidenceMature evaluation) then [EvidenceImmaturity] else [])
  ++ (if de_postRemediation evaluation then [PostRemediation] else []).

Record AuditRow := mkAudit { au_entryId : string; au_action : string; au_actor : string; au_createdAt : Z }.

(** [review_queue] in insertion order, and [review_audit]. *)
Record Tables := mkTables { tb_queue : list ReviewQueueEntry; tb_audit : list AuditRow }.

Definition recordAudit (t : Tables) (entryId action actor : string) (now : Z) : Tables :=
  mkTables (tb_queue t) (tb_audit t ++ [mkAudit entryId action actor now]).

(** [id] is the generated UUID, the primary key. *)
Definition enqueueForReview (config : ReviewQueueConfig) (t : Tables) (id : string) (now : Z)
    (evaluation : DecisionEvaluation) (triggers : list ReviewTrigger) : res string (Tables * ReviewQueueEntry) :=
  let entry := mkEntry id (de_claimId evaluation) (de_decisionId evaluation) (head triggers) Pending (de_evidence evaluation)
                 now (now + rc_slaSeconds config * 1000) None None None in
  if bool_decide (id ∈ map rq_id (tb_queue t)) then Err "duplicate key"
  else Ok (recordAudit (mkTables (tb_queue t ++ [entry]) (tb_audit t)) id "enqueue" "system" now, entry).

Definition getEntry (t : Tables) (id : string) : option ReviewQueueEntry :=
  head (filter (fun e => rq_id e = id) (tb_queue t)).

Definition isWaiting (e : ReviewQueueEntry) : bool := bool_decide (rq_status e = Pending) || bool_decide (rq_status e = Escalated).

Section Queue.
Variable scan : list ReviewQueueEntry -> list ReviewQueueEntry.

Definition listPending (t : Tables) : list ReviewQueueEntry :=
  sort_by (fun a b => rq_deadlineAt a <=? rq_deadlineAt b) (filter (fun e => isWaiting e = true) (scan (tb_queue t))).

Definition queueDepth (t : Tables) : Z := Z.of_nat (length (filter (fun e => isWaiting e = true) (tb_queue t))).

Definition assertAuthorized (ctx : ReviewerContext) : res string unit :=
  guard_res (cx_authorized ctx) ("actor " +:+ cx_actor ctx +:+ " is not authorized to act on review queue items").

(** The first half of [resolve]: the entry, if it is not resolved yet. *)
Definition resolveRead (t : Tables) (id : string) : res string ReviewQueueEntry :=
  match getEntry t id with
  | None => Err ("review queue entry " +:+ id +:+ " not found")
  | Some entry =>
      if bool_decide (rq_status entry = Approved) || bool_decide (rq_status entry = Rejected)
      then Err ("review queue entry " +:+ id +:+ " already resolved as " +:+ statusText (rq_status entry))
      else Ok entry
  end.

Definition resolvedEntry (e : ReviewQueueEntry) (status : ReviewStatus) (now : Z) (actor : string) (reason : option string) : ReviewQueueEntry :=
  mkEntry (rq_id e) (rq_claimId e) (rq_decisionId e) (rq_trigger e) status (rq_evidence e) (rq_createdAt e) (rq_deadlineAt e)
    (Some now) (Some actor) reason.

(** The second half: [UPDATE review_queue ... WHERE id = $5] and the audit row. *)
Definition resolveWrite (t : Tables) (id : string) (status : ReviewStatus) (now : Z) (actor : string) (reason : option string) : Tables :=
  recordAudit
    (mkTables (map (fun e => if bool_decide (rq_id e = id) then resolvedEntry e status now actor reason else e) (tb_queue t)) (tb_audit t))
    id (statusText status) actor now.

Definition resolve (t : Tables) (id : string) (status : ReviewStatus) (now : Z) (actor : string) (reason : option string) :
    res string (Tables * ReviewQueueEntry) :=
  entry ← resolveRead t id;
  Ok (resolveWrite t id status now actor reason, resolvedEntry entry status now actor reason).

Definition approve (t : Tables) (id : string) (ctx : ReviewerContext) (now : Z) : res string (Tables * ReviewQueueEntry) :=
  _ ← assertAuthorized ctx; resolve t id Approved now (cx_actor ctx) None.

Definition reject (t : Tables) (id : string) (ctx : ReviewerContext) (reason : string) (now : Z) : res string (Tables * ReviewQueueEntry) :=
  _ ← assertAuthorized ctx;
  if negb (nonBlank reason) then Err "rejection reason is required"
  else resolve t id Rejected now (cx_actor ctx) (Some (String.string_of_list_ascii (trim (String.list_ascii_of_string reason)))).

Definition escalate (t : Tables) (id : string) (ctx : ReviewerContext) (now : Z) : res string (Tables * ReviewQueueEntry) :=
  _ ← assertAuthorized ctx; resolve t id Escalated now (cx_actor ctx) None.

Definition expiredIds (t : Tables) (now : Z) : list string :=
  map rq_id (filter (fun e => rq_status e = Pending ∧ rq_deadlineAt e <= now) (scan (tb_queue t))).

(** The loop of the sweep, [clock] the time at which each entry is written; an
    escalation that throws ends it. *)
Fixpoint escalateEach (t : Tables) (ids : list string) (clock : string -> Z) : Tables * res string unit :=
  match ids with
  | [] => (t, Ok tt)
  | id :: rest =>
      match escalate t id (mkContext "system:sla" true) (clock id) with
      | Ok (t', _) => escalateEach t' rest clock
      | Err e => (t, Err e)
      end
  end.

Definition sweepExpired (t : Tables) (now : Z) (clock : string -> Z) : Tables * res string Z :=
  let ids := expiredIds t now in
  match escalateEach t ids clock with
  | (t', Ok _) => (t', Ok (Z.of_nat (length ids)))
  | (t', Err e) => (t', Err e)
  end.

(** [ORDER BY created_at DESC LIMIT 1] *)
Definition latestEntry (t : Tables) (decisionId : string) : option ReviewQueueEntry :=
  head (sort_by (fun a b => rq_createdAt b <=? rq_createdAt a) (filter (fun e => rq_decisionId e = decisionId) (scan (tb_queue t)))).

Definition assertSettlementAllowed (t : Tables) (decisionId : string) : res string unit :=
  match latestEntry t decisionId with
  | None => Ok tt
  | Some e => guard_res (bool_decide (rq_status e = Approved))
                ("decision " +:+ decisionId +:+ " cannot settle: review queue status is " +:+ statusText (rq_status e))
  end.
End Queue.

(** * Histories of whole requests *)

Inductive ReviewOp :=
| OEnqueue (id : string) (now : Z) (evaluation : DecisionEvaluation) (triggers : list ReviewTrigger)
| OApprove (id : string) (ctx : ReviewerContext) (now : Z)
| OReject (id : string) (ctx : ReviewerContext) (reason : string) (now : Z)
| OEscalate (id : string) (ctx : ReviewerContext) (now : Z)
| OSweep (now : Z) (clock : string -> Z).

Section Histories.
Variable scan : list ReviewQueueEntry -> list ReviewQueueEntry.
Variable config : ReviewQueueConfig.

Definition keepOnErr {A} (t : Tables) (r : res string (Tables * A)) : Tables :=
  match r with Ok (t', _) => t' | Err _ => t end.

Definition runOp (t : Tables) (op : ReviewOp) : Tables :=
  match op with
  | OEnqueue id now ev tr => keepOnErr t (enqueueForReview config t id now ev tr)
  | OApprove id ctx now => keepOnErr t (approve t id ctx now)
  | OReject id ctx reason now => keepOnErr t (reject t id ctx reason now)
  | OEscalate id ctx now => keepOnErr t (escalate t id ctx now)
  | OSweep now clock => (sweepExpired scan t now clock).1
  end.

Definition runOps (ops : list ReviewOp) : Tables := foldl runOp (mkTables [] []) ops.

(** What a history establishes about the queue: ids are unique, and an approved
    entry carries the name of an authorised reviewer whose approval of that entry
    is in the history. *)
Definition approvedBy (ops : list ReviewOp) (e : ReviewQueueEntry) : Prop :=
  rq_status e = Approved -> ∃ ctx now, OApprove (rq_id e) ctx now ∈ ops ∧ cx_authorized ctx = true ∧ rq_resolvedBy e = Some (cx_actor ctx).

Definition sound (ops : list ReviewOp) (t : Tables) : Prop :=
  NoDup (map rq_id (tb_queue t)) ∧ Forall (approvedBy ops) (tb_queue t).

Lemma resolveWrite_ids t id st now actor reason : map rq_id (tb_queue (resolveWrite t id st now actor reason)) = map rq_id (tb_queue t).
Proof. cbn. rewrite map_map. apply map_ext. intros e. by case_bool_decide. Qed.

Lemma sound_write ops t id st now actor reason : sound ops t ->
  (st = Approved -> ∃ ctx now, OApprove id ctx now ∈ ops ∧ cx_authorized ctx = true ∧ actor = cx_actor ctx) ->
  sound ops (resolveWrite t id st now actor reason).
Proof.
  intros [Hn Hf] Ha. split; [by rewrite resolveWrite_ids|]. cbn.
  apply Forall_forall. intros e (e0 & -> & He)%list_elem_of_fmap. rewrite Forall_forall in Hf.
  case_bool_decide as E; [|by apply Hf]. intros Hs. cbn in Hs.
  destruct (Ha Hs) as (ctx & n & Hin & Hauth & ->). exists ctx, n. cbn. by rewrite E.
Qed.

Lemma sound_resolve ops t id st now actor reason : sound ops t ->
  (st = Approved -> ∃ ctx now, OApprove id ctx now ∈ ops ∧ cx_authorized ctx = true ∧ actor = cx_actor ctx) ->
  sound ops (keepOnErr t (resolve t id st now actor reason)).
Proof. intros Hs Ha. unfold resolve. destruct (resolveRead t id); cbn; [by apply sound_write|done]. Qed.

Lemma sound_escalate ops t id ctx now : sound ops t -> sound ops (keepOnErr t (escalate t id ctx now)).
Proof. intros Hs. unfold escalate, assertAuthorized. destruct (cx_authorized ctx); [|done]. by apply sound_resolve. Qed.

Lemma sound_escalateEach ops ids clock : forall t, sound ops t -> sound ops (escalateEach t ids clock).1.
Proof.
  induction ids as [|id ids IH]; intros t Hs; [done|]. cbn [escalateEach].
  pose proof (sound_escalate ops t id (mkContext "system:sla" true) (clock id) Hs) as Hs'.
  destruct (escalate t id _ _) as [[t' e]|]; [by apply IH|done].
Qed.

Lemma sound_weaken ops ops' t : sound ops t -> (forall o, o ∈ ops -> o ∈ ops') -> sound ops' t.
Proof.
  intros [Hn Hf] Hsub. split; [done|]. eapply Forall_impl; [done|]. intros e He Hst.
  destruct (He Hst) as (ctx & now & Hin & ?). eauto.
Qed.

Lemma runOp_sound ops t op : sound ops t -> sound (ops ++ [op]) (runOp t op).
Proof.
  intros Hs0. assert (sound (ops ++ [op]) t) as Hs by (eapply sound_weaken; [done|]; set_solver). destruct op; cbn [runOp].
  - unfold enqueueForReview. case_bool_decide as E; [done|]. cbn. destruct Hs as [Hn Hf]. split; cbn.
    + rewrite map_app. apply NoDup_app. split_and!; [done| |apply NoDup_singleton]. set_solver.
    + apply Forall_app. split; [done|]. by constructor.
  - unfold approve, assertAuthorized. destruct (cx_authorized ctx) eqn:Ea; [|done]. cbn [guard_res mbind res_bind].
    apply sound_resolve; [done|]. intros _. exists ctx, now. split_and!; [set_solver|done|done].
  - unfold reject, assertAuthorized. destruct (cx_authorized ctx); [|done]. cbn [guard_res mbind res_bind].
    destruct (negb _); [done|]. by apply sound_resolve.
  - by apply sound_escalate.
  - unfold sweepExpired. pose proof (sound_escalateEach (ops ++ [OSweep now clock]) (expiredIds scan t now) clock t Hs) as Hs'.
    by destruct (escalateEach t _ clock) as [t' []].
Qed.

Lemma runOps_sound ops : sound ops (runOps ops).
Proof.
  unfold runOps. induction ops as [|op ops IH] using rev_ind; [by repeat constructor|].
  rewrite foldl_app. by apply runOp_sound.
Qed.
End Histories.

(** * The sweep *)

Lemma getEntry_in t e : NoDup (map rq_id (tb_queue t)) -> e ∈ tb_queue t -> getEntry t (rq_id e) = Some e.
Proof.
  unfold getEntry. generalize (tb_queue t) as q. induction q as [|x q IH]; [by intros _ ?%not_elem_of_nil|].
  cbn [map]. intros [Hn Hd]%NoDup_cons [->|He]%elem_of_cons; [by rewrite filter_cons_True|].
  rewrite filter_cons_False; [by apply IH|]. intros E. apply Hn. rewrite E. by apply (list_elem_of_fmap_2 rq_id).
Qed.

Definition swept (ids : list string) (clock : string -> Z) (e : ReviewQueueEntry) : ReviewQueueEntry :=
  if bool_decide (rq_id e ∈ ids) then resolvedEntry e Escalated (clock (rq_id e)) "system:sla" None else e.

Lemma swept_cons id ids clock e : id ∉ ids ->
  swept ids clock (if bool_decide (rq_id e = id) then resolvedEntry e Escalated (clock id) "system:sla" None else e)
  = swept (id :: ids) clock e.
Proof.
  intros Hn. unfold swept. destruct (bool_decide_reflect (rq_id e = id)) as [E|E]; cbn [rq_id resolvedEntry].
  - subst. rewrite bool_decide_eq_false_2 by done. rewrite bool_decide_eq_true_2 by set_solver. done.
  - destruct (bool_decide_reflect (rq_id e ∈ ids)); [rewrite bool_decide_eq_true_2 by set_solver|rewrite bool_decide_eq_false_2 by set_solver]; done.
Qed.

Lemma escalateEach_ok ids clock : forall t, NoDup ids -> NoDup (map rq_id (tb_queue t)) ->
  (forall id, id ∈ ids -> ∃ e, e ∈ tb_queue t ∧ rq_id e = id ∧ rq_status e = Pending) ->
  ∃ t', escalateEach t ids clock = (t', Ok tt) ∧ tb_queue t' = map (swept ids clock) (tb_queue t).
Proof.
  induction ids as [|id ids IH]; intros t Hnd Hq Hids; cbn [escalateEach].
  { exists t. split; [done|]. symmetry. by apply map_id. }
  apply NoDup_cons in Hnd as [Hn Hnd]. destruct (Hids id) as (e & He & Eid & Hst); [set_solver|].
  unfold escalate, assertAuthorized, resolve, resolveRead. cbn [cx_authorized guard_res mbind res_bind].
  rewrite <- Eid, (getEntry_in t e Hq He), Hst. cbn [bool_decide decide_rel orb mbind res_bind].
  rewrite !bool_decide_eq_false_2 by done. cbn [orb mbind res_bind].
  destruct (IH (resolveWrite t (rq_id e) Escalated (clock (rq_id e)) "system:sla" None)) as (t' & Et & Eq).
  - done.
  - by rewrite resolveWrite_ids.
  - intros id' Hid'. destruct (Hids id') as (e' & He' & Eid' & Hst'); [set_solver|]. exists e'. split_and!; [|done|done].
    cbn. apply list_elem_of_fmap. exists e'. rewrite bool_decide_eq_false_2; [done|]. intros E. apply Hn. congruence.
  - exists t'. split; [exact Et|]. rewrite Eq. cbn. rewrite map_map. apply map_ext. intros x. apply swept_cons. by rewrite Eid.
Qed.

(** "items are never auto-approved by timeout, expiry only escalates", and no
    expired item is missed: on the queue any history of requests leaves, whatever
    order the database returns rows in, the sweep succeeds and counts what it
    escalated; afterwards no pending entry is past its deadline, the entries it did
    not escalate are as they were, and it approved or rejected nothing. *)
Theorem sweep_escalates_expired (scan : list ReviewQueueEntry -> list ReviewQueueEntry) (config : ReviewQueueConfig)
    (ops : list ReviewOp) (now : Z) (clock : string -> Z) (Hscan : forall l, scan l ≡ₚ l) :
  let t := runOps scan config ops in
  let expired e := bool_decide (rq_status e = Pending) && (rq_deadlineAt e <=? now) in
  let r := sweepExpired scan t now clock in
  r.2 = Ok (Z.of_nat (length (filter (fun e => expired e = true) (tb_queue t)))) ∧
  tb_queue r.1 = map (fun e => if expired e then resolvedEntry e Escalated (clock (rq_id e)) "system:sla" None else e) (tb_queue t).
Proof.
  cbv zeta. set (t := runOps scan config ops). destruct (runOps_sound scan config ops) as [Hnd _]. fold t in Hnd.
  set (P := fun e => rq_status e = Pending ∧ rq_deadlineAt e <= now).
  assert (expiredIds scan t now ≡ₚ map rq_id (filter P (tb_queue t))) as Hperm.
  { unfold expiredIds. apply Permutation_map. by rewrite (Hscan (tb_queue t)). }
  assert (NoDup (expiredIds scan t now)) as Hndi.
  { rewrite Hperm. eapply sublist_NoDup; [exact Hnd|]. apply (fmap_sublist rq_id), sublist_filter. }
  destruct (escalateEach_ok (expiredIds scan t now) clock t Hndi Hnd) as (t' & Et & Eq).
  { intros id. rewrite Hperm. intros (e & -> & [[Hst Hdl] He]%list_elem_of_filter)%list_elem_of_fmap. eauto. }
  assert (forall e, (bool_decide (rq_status e = Pending) && (rq_deadlineAt e <=? now)) = true <-> P e) as Hexp.
  { intros e. unfold P. by rewrite andb_true_iff, bool_decide_eq_true, Z.leb_le. }
  unfold sweepExpired. rewrite Et. cbn [fst snd]. split.
  - rewrite (Permutation_length Hperm), length_map. do 3 f_equal. apply list_filter_iff. intros e. symmetry. apply Hexp.
  - rewrite Eq. apply map_ext_in. intros e He%list_elem_of_In. unfold swept.
    assert (rq_id e ∈ expiredIds scan t now <-> P e) as Hin.
    { rewrite Hperm. split; [|intros; apply (list_elem_of_fmap_2 rq_id), list_elem_of_filter; done].
      intros (x & E & [Hx Hq]%list_elem_of_filter)%list_elem_of_fmap. by rewrite (NoDup_map_inj rq_id _ e x Hnd He Hq E). }
    destruct (decide (P e)) as [Hp|Hp].
    + rewrite bool_decide_eq_true_2 by (by apply Hin). by rewrite (proj2 (Hexp e) Hp).
    + rewrite bool_decide_eq_false_2 by (by rewrite Hin). destruct (_ && _) eqn:E; [by apply Hexp in E|done].
Qed.

(** * The settlement gate *)

(** The entry the gate looks at is one of the decision's newest entries. *)
Lemma latestEntry_spec (scan : list ReviewQueueEntry -> list ReviewQueueEntry) t dec :
  (forall l, scan l ≡ₚ l) ->
  match latestEntry scan t dec with
  | None => forall e, e ∈ tb_queue t -> rq_decisionId e ≠ dec
  | Some e => e ∈ tb_queue t ∧ rq_decisionId e = dec ∧
      forall e', e' ∈ tb_queue t -> rq_decisionId e' = dec -> rq_createdAt e' <= rq_createdAt e
  end.
Proof.
  intros Hscan. unfold latestEntry.
  set (le := fun a b : ReviewQueueEntry => rq_createdAt b <=? rq_createdAt a).
  set (rows := filter (fun e => rq_decisionId e = dec) (scan (tb_queue t))).
  assert (forall e, e ∈ rows <-> e ∈ tb_queue t ∧ rq_decisionId e = dec) as Hrows.
  { intros e. unfold rows. rewrite list_elem_of_filter, (Hscan (tb_queue t)). naive_solver. }
  pose proof (sort_by_sorted le rows) as Hs. pose proof (sort_by_perm le rows) as Hp.
  specialize (Hs ltac:(intros a b; unfold le; rewrite !Z.leb_le; lia) ltac:(intros a b c; unfold le; rewrite !Z.leb_le; lia)).
  destruct (sort_by le rows) as [|e l] eqn:El; cbn [head].
  - intros e He Hd. apply (not_elem_of_nil e). rewrite Hp. apply Hrows. done.
  - assert (e ∈ rows) as [He Hd]%Hrows by (rewrite <- Hp; set_solver). split_and!; [done|done|].
    intros e' He' Hd'. assert (e' ∈ e :: l) as [->|Hin]%elem_of_cons by (rewrite Hp; by apply Hrows); [lia|].
    inversion Hs as [|? ? _ Hall]; subst. rewrite Forall_forall in Hall. specialize (Hall e' Hin). unfold le in Hall. lia.
Qed.

(** The settlement gate.  After any history of whole requests, a decision
    passes the gate only if it was never queued, or if its newest queue entry was
    approved by a reviewer who was authorised, in a request of that history; and a
    decision with a newest entry approved, or none, does pass. *)
Theorem review_gate_sound (scan : list ReviewQueueEntry -> list ReviewQueueEntry) (config : ReviewQueueConfig)
    (ops : list ReviewOp) (decisionId : string) (Hscan : forall l, scan l ≡ₚ l) :
  let t := runOps scan config ops in
  is_ok (assertSettlementAllowed scan t decisionId) = true <->
  (forall e, e ∈ tb_queue t -> rq_decisionId e ≠ decisionId) ∨
  (∃ e ctx now, latestEntry scan t decisionId = Some e ∧ e ∈ tb_queue t ∧ rq_decisionId e = decisionId ∧
     (forall e', e' ∈ tb_queue t -> rq_decisionId e' = decisionId -> rq_createdAt e' <= rq_createdAt e) ∧
     rq_status e = Approved ∧ rq_resolvedBy e = Some (cx_actor ctx) ∧
     cx_authorized ctx = true ∧ OApprove (rq_id e) ctx now ∈ ops).
Proof.
  cbv zeta. set (t := runOps scan config ops). destruct (runOps_sound scan config ops) as [_ Hf]. fold t in Hf.
  pose proof (latestEntry_spec scan t decisionId Hscan) as Hl. unfold assertSettlementAllowed.
  destruct (latestEntry scan t decisionId) as [e|]; [|split; [by left|done]].
  destruct Hl as (He & Hd & Hmax). unfold guard_res. case_bool_decide as Hst; cbn [is_ok].
  - split; [intros _|done]. right. rewrite Forall_forall in Hf. destruct (Hf e He Hst) as (ctx & now & Hin & Ha & Hb).
    exists e, ctx, now. done.
  - split; [done|]. intros [Hno|(e' & ctx & now & [= <-] & _ & _ & _ & Hst' & _)]; [by destruct (Hno e He)|done].
Qed.

(** The two halves of a review interleave.  Two reviewers who read the same
    waiting entry both pass the check, and the later write wins: a rejection is
    silently replaced by an approval and the gate opens for the rejected decision,
    although the same approval as a whole request after the rejection is refused. *)
Theorem concurrent_approval_overwrites_rejection (scan : list ReviewQueueEntry -> list ReviewQueueEntry) (t : Tables)
    (e : ReviewQueueEntry) (alice bob reason : string) (t1 t2 : Z)
    (Hkeys : NoDup (map rq_id (tb_queue t))) (He : e ∈ tb_queue t) (Hone : forall e', e' ∈ tb_queue t -> rq_decisionId e' = rq_decisionId e -> e' = e)
    (Hwait : isWaiting e = true) (Hscan : forall l, scan l ≡ₚ l) :
  resolveRead t (rq_id e) = Ok e ∧
  let rejected := resolveWrite t (rq_id e) Rejected t1 alice (Some reason) in
  let approved := resolveWrite rejected (rq_id e) Approved t2 bob None in
  is_ok (assertSettlementAllowed scan rejected (rq_decisionId e)) = false ∧
  is_ok (approve rejected (rq_id e) (mkContext bob true) t2) = false ∧
  is_ok (assertSettlementAllowed scan approved (rq_decisionId e)) = true.
Proof.
  assert (resolveRead t (rq_id e) = Ok e) as Hread.
  { unfold resolveRead. rewrite getEntry_in by done. unfold isWaiting in Hwait. by destruct (rq_status e). }
  split; [done|]. cbv zeta.
  assert (forall t' st now actor r, NoDup (map rq_id (tb_queue t')) -> (forall x, x ∈ tb_queue t' -> rq_decisionId x = rq_decisionId e -> rq_id x = rq_id e) ->
    (∃ x, x ∈ tb_queue t' ∧ rq_id x = rq_id e ∧ rq_decisionId x = rq_decisionId e) ->
    is_ok (assertSettlementAllowed scan (resolveWrite t' (rq_id e) st now actor r) (rq_decisionId e)) = bool_decide (st = Approved)) as Hgate.
  { intros t' st now actor r Hk Hids (x & Hx & Hxi & Hxd). unfold assertSettlementAllowed.
    pose proof (latestEntry_spec scan (resolveWrite t' (rq_id e) st now actor r) (rq_decisionId e) Hscan) as Hl.
    destruct (latestEntry _ _ _) as [y|].
    - destruct Hl as ((y0 & -> & Hy)%list_elem_of_fmap & Hd & _). case_bool_decide as E; cbn in *; [by destruct st|].
      destruct (E (Hids y0 Hy Hd)).
    - exfalso. apply (Hl (resolvedEntry x st now actor r)); [|done]. cbn. apply list_elem_of_fmap. exists x.
      by rewrite bool_decide_eq_true_2. }
  set (rej := resolveWrite t (rq_id e) Rejected t1 alice (Some reason)).
  set (re := resolvedEntry e Rejected t1 alice (Some reason)).
  assert (re ∈ tb_queue rej) as Hin by (cbn; apply list_elem_of_fmap; exists e; by rewrite bool_decide_eq_true_2).
  assert (NoDup (map rq_id (tb_queue rej))) as Hkeys' by (unfold rej; by rewrite resolveWrite_ids).
  split_and!.
  - unfold rej. rewrite Hgate; [done|done| |by exists e]. intros x Hx Hd. by rewrite (Hone x Hx Hd).
  - unfold approve, assertAuthorized, resolve, resolveRead. cbn [cx_authorized guard_res mbind res_bind].
    change (rq_id e) with (rq_id re). by rewrite (getEntry_in rej re Hkeys' Hin).
  - rewrite Hgate; [done|done| |by exists re].
    intros x (x0 & -> & Hx)%list_elem_of_fmap. case_bool_decide as E; cbn; [done|]. intros Hd. by rewrite (Hone x0 Hx Hd).
Qed.

(** * Witnesses *)

Definition demoPacket : ReviewEvidencePacket := mkPacket JNull [] [] [] "why".
Definition demoEvaluation (d : string) : DecisionEvaluation := mkEvaluation ("c" +:+ d) d 20000%float 1%float true false demoPacket.
Definition demoOps : list ReviewOp :=
  [OEnqueue "e1" 0 (demoEvaluation "d1") [ValueAboveThreshold]; OEnqueue "e2" 5 (demoEvaluation "d2") [ValueAboveThreshold];
   OApprove "e1" (mkContext "alice" true) 10; OSweep 86400005 (fun _ => 86400006)].

Lemma sweep_escalates_expired_witness :
  (sweepExpired (fun l => l) (runOps (fun l => l) DEFAULT_CONFIG (take 2 demoOps)) 86400000 (fun _ => 86400001)).2 = Ok 1.
Proof.
  destruct (sweep_escalates_expired (fun l => l) DEFAULT_CONFIG (take 2 demoOps) 86400000 (fun _ => 86400001)) as [H _]; [done|].
  etransitivity; [exact H|]. vm_compute. reflexivity.
Defined.

Lemma review_gate_sound_witness :
  is_ok (assertSettlementAllowed (fun l => l) (runOps (fun l => l) DEFAULT_CONFIG demoOps) "d1") = true ∧
  is_ok (assertSettlementAllowed (fun l => l) (runOps (fun l => l) DEFAULT_CONFIG demoOps) "d2") = false.
Proof.
  split; [|vm_compute; reflexivity].
  apply (review_gate_sound (fun l => l) DEFAULT_CONFIG demoOps "d1"); [done|]. right.
  eexists _, (mkContext "alice" true), 10. split; [vm_compute; reflexivity|].
  split_and!; try done; try (vm_compute; set_solver).
Defined.

Definition demoEntry : ReviewQueueEntry := mkEntry "e1" "c1" "d1" None Pending demoPacket 0 1 None None None.

Lemma concurrent_approval_overwrites_rejection_witness :
  is_ok (assertSettlementAllowed (fun l => l)
    (resolveWrite (resolveWrite (mkTables [demoEntry] []) "e1" Rejected 1 "alice" (Some "no")) "e1" Approved 2 "bob" None) "d1") = true.
Proof.
  apply (concurrent_approval_overwrites_rejection (fun l => l) (mkTables [demoEntry] []) demoEntry "alice" "bob" "no" 1 2).
  - apply NoDup_singleton.
  - apply list_elem_of_singleton. done.
  - by intros e' ->%list_elem_of_singleton.
  - done.
  - done.
Defined.
