(* ===== verification/OperatorRegistry.v ===== *)
(** The operator registry (src/services/operatorRegistry.ts): signed registration
    with a replay guard, the status machine with its audit trail, and the operator
    quorum of a feed.

    The tables are [operators], [operator_registration_nonces] and
    [operator_audit]; requests are already shaped by the schema validators of the
    source.  Signature verification is the parameter [verify]. *)

From stdpp Require Import base list strings sorting sets relations.
From Stdlib Require Import ZArith Lia.
From S2P Require Import Prelude Decimal Canonical.

#[local] Open Scope Z_scope.

Inductive OperatorStatus := OpPending | OpActive | OpSuspended | OpExited.
#[global] Instance OperatorStatus_eq_dec : EqDecision OperatorStatus.
Proof. solve_decision. Defined.

Definition ALLOWED_TRANSITIONS (s : OperatorStatus) : list OperatorStatus :=
  match s with
  | OpPending => [OpActive; OpExited]
  | OpActive => [OpSuspended; OpExited]
  | OpSuspended => [OpActive; OpExited]
  | OpExited => []
  end.

Definition opStatusText (s : OperatorStatus) : string :=
  match s with OpPending => "pending" | OpActive => "active" | OpSuspended => "suspended" | OpExited => "exited" end.

Definition REGISTRATION_WINDOW_MS : Z := 300000.

Record RegisterOperatorDto := mkRegister {
  ro_submissionKey : string; ro_supportedFeeds : list string; ro_nonce : string; ro_timestamp : Z; ro_signature : string }.

Record OperatorRow := mkOperator {
  or_submissionKey : string; or_supportedFeeds : list string; or_status : OperatorStatus; or_registeredAt : Z }.

Record AuditRow := mkAudit {
  oa_operatorId : string; oa_event : string; oa_from : option OperatorStatus; oa_to : OperatorStatus;
  oa_actor : string; oa_reason : option string }.

Record Db := mkDb {
  db_operators : list (string * OperatorRow);
  db_nonces : list (string * string);
  db_audit : list AuditRow }.

Definition newline : string := String.String (Ascii.ascii_of_nat 10) "".

(** [[...].join("\n")] over the sorted feeds. *)
Definition registrationMessage (dto : RegisterOperatorDto) : string :=
  joinWith newline ["refract-operator-register"; ro_submissionKey dto;
    joinWith "," (sort_strings (ro_supportedFeeds dto)); ro_nonce dto; showZ (ro_timestamp dto)].

Inductive Failure := Unauthorized (msg : string) | Conflict (msg : string) | NotFound (msg : string).

Section Registry.
(** [Keypair.fromPublicKey(key).verify(message, signature)], [false] when it throws. *)
Variable verify : string -> string -> string -> bool.

Definition verifyRegistrationSignature (dto : RegisterOperatorDto) : bool :=
  verify (ro_submissionKey dto) (registrationMessage dto) (ro_signature dto).

(** [newId] is the generated primary key; the unique constraints of the tables
    give the two conflicts. *)
Definition register (db : Db) (newId : string) (now : Z) (dto : RegisterOperatorDto) : res Failure (Db * string) :=
  if REGISTRATION_WINDOW_MS <? Z.abs (now - ro_timestamp dto)
  then Err (Unauthorized "registration timestamp is outside the accepted window")
  else if negb (verifyRegistrationSignature dto) then Err (Unauthorized "signature does not verify against submissionKey")
  else if bool_decide ((ro_submissionKey dto, ro_nonce dto) ∈ db_nonces db)
  then Err (Conflict "registration request has already been used")
  else if bool_decide (ro_submissionKey dto ∈ map or_submissionKey (jm_values (db_operators db))) || jm_has (db_operators db) newId
  then Err (Conflict "submission key is already registered")
  else Ok (mkDb (jm_set (db_operators db) newId (mkOperator (ro_submissionKey dto) (ro_supportedFeeds dto) OpPending now))
             (db_nonces db ++ [(ro_submissionKey dto, ro_nonce dto)])
             (db_audit db ++ [mkAudit newId "registered" None OpPending "self" None]), newId).

Definition setStatus (db : Db) (operatorId : string) (next : OperatorStatus) (actor : string) (reason : option string) :
    res Failure (Db * OperatorStatus) :=
  match jm_get (db_operators db) operatorId with
  | None => Err (NotFound "operator not found")
  | Some op =>
      let current := or_status op in
      if negb (bool_decide (next ∈ ALLOWED_TRANSITIONS current))
      then Err (Conflict ("invalid status transition " +:+ opStatusText current +:+ " -> " +:+ opStatusText next))
      else Ok (mkDb (jm_set (db_operators db) operatorId
                       (mkOperator (or_submissionKey op) (or_supportedFeeds op) next (or_registeredAt op)))
                 (db_nonces db)
                 (db_audit db ++ [mkAudit operatorId "status_changed" (Some current) next actor reason]), next)
  end.
End Registry.

(** * Operator quorum *)

Definition countQuorumOperators (readings : list (string * OperatorStatus)) : Z :=
  Z.of_nat (length (setOf (map fst (filter (fun r => r.2 = OpActive) readings)))).

Definition meetsOperatorQuorum (readings : list (string * OperatorStatus)) (required : Z) : bool :=
  required <=? countQuorumOperators readings.

(** * Histories *)
Section Histories.
Variable verify : string -> string -> string -> bool.

Inductive rstep (db : Db) : Db -> Prop :=
| step_register newId now dto db' id : register verify db newId now dto = Ok (db', id) -> rstep db db'
| step_status id next actor reason db' st : setStatus db id next actor reason = Ok (db', st) -> rstep db db'.

Definition emptyDb : Db := mkDb [] [] [].

(** The status the audit trail says an operator has. *)
Definition auditStatus (audit : list AuditRow) (id : string) : option OperatorStatus :=
  last (omap (fun a => if bool_decide (oa_operatorId a = id) then Some (oa_to a) else None) audit).

(** Every row is chained to the one before it for the same operator, and the chain
    follows the transition table. *)
Definition chained (audit : list AuditRow) : Prop :=
  forall l a r, audit = l ++ a :: r ->
    oa_from a = auditStatus l (oa_operatorId a) ∧
    (forall st, oa_from a = Some st -> oa_to a ∈ ALLOWED_TRANSITIONS st) ∧ (oa_from a = None -> oa_to a = OpPending).

Record wf (db : Db) : Prop := {
  wf_keys : NoDup (jm_keys (db_operators db));
  wf_submission : NoDup (map or_submissionKey (jm_values (db_operators db)));
  wf_nonces : NoDup (db_nonces db);
  wf_audited : forall id, auditStatus (db_audit db) id = or_status <$> jm_get (db_operators db) id;
  wf_chained : chained (db_audit db) }.

Lemma auditStatus_snoc audit a id :
  auditStatus (audit ++ [a]) id = if bool_decide (oa_operatorId a = id) then Some (oa_to a) else auditStatus audit id.
Proof.
  unfold auditStatus. rewrite omap_app. cbn. case_bool_decide; cbn; [by rewrite last_snoc|by rewrite app_nil_r].
Qed.

Lemma chained_snoc audit a : chained audit -> oa_from a = auditStatus audit (oa_operatorId a) ->
  (forall st, oa_from a = Some st -> oa_to a ∈ ALLOWED_TRANSITIONS st) -> (oa_from a = None -> oa_to a = OpPending) ->
  chained (audit ++ [a]).
Proof.
  intros Hc H1 H2 H3 l b r E. destruct r as [|x r] using rev_ind.
  - apply app_inj_tail in E as [-> ->]. done.
  - clear IHr. rewrite app_comm_cons, app_assoc in E. apply app_inj_tail in E as [E _]. by eapply Hc.
Qed.

Lemma registry_empty_wf : wf emptyDb.
Proof. split; cbn; try apply NoDup_nil_2; [done|]. intros l a r E. by destruct l. Qed.

Lemma jm_values_set_fresh {V} (m : list (string * V)) k v : jm_get m k = None -> jm_values (jm_set m k v) = jm_values m ++ [v].
Proof. intros H. rewrite jm_set_fresh by done. unfold jm_values. by rewrite fmap_app. Qed.

Lemma register_wf db newId now dto db' id : wf db -> register verify db newId now dto = Ok (db', id) -> wf db'.
Proof.
  intros Hwf. unfold register. destruct (_ <? _); [done|]. destruct (negb _); [done|].
  destruct (bool_decide_reflect ((ro_submissionKey dto, ro_nonce dto) ∈ db_nonces db)) as [|Hn]; [done|].
  destruct (bool_decide_reflect (ro_submissionKey dto ∈ map or_submissionKey (jm_values (db_operators db)))) as [|Hk]; [done|].
  destruct (jm_has (db_operators db) newId) eqn:Eh; [done|]. cbn [orb]. intros [= <- <-].
  unfold jm_has in Eh. apply bool_decide_eq_false, eq_None_not_Some in Eh. destruct Hwf. split; cbn [db_operators db_nonces db_audit].
  - by apply jm_set_NoDup.
  - rewrite jm_values_set_fresh, map_app by done. apply NoDup_app. split_and!; [done| |apply NoDup_singleton].
    intros x Hx ->%list_elem_of_singleton. done.
  - apply NoDup_app. split_and!; [done| |apply NoDup_singleton]. intros x Hx ->%list_elem_of_singleton. done.
  - intros id. rewrite auditStatus_snoc, jm_get_set. cbn [oa_operatorId oa_to].
    destruct (bool_decide_reflect (newId = id)); [by rewrite decide_True|by rewrite decide_False].
  - apply chained_snoc; cbn; [done| |done|done]. by rewrite wf_audited0, Eh.
Qed.

Lemma jm_map_set_same {V} (m : list (string * V)) k v v' (f : V -> string) : jm_get m k = Some v -> f v' = f v ->
  map f (jm_values (jm_set m k v')) = map f (jm_values m).
Proof.
  unfold jm_values. intros Hg Hf. induction m as [|[k' w] m IH]; [done|]. cbn in *. case_decide; simplify_eq/=; [by rewrite Hf|].
  by rewrite IH.
Qed.

Lemma setStatus_wf db id next actor reason db' st : wf db -> setStatus db id next actor reason = Ok (db', st) -> wf db'.
Proof.
  intros Hwf. unfold setStatus. destruct (jm_get (db_operators db) id) as [op|] eqn:Eo; [|done].
  destruct (bool_decide_reflect (next ∈ ALLOWED_TRANSITIONS (or_status op))) as [Hok|]; cbn [negb]; [|done].
  intros [= <- <-]. destruct Hwf. split; cbn [db_operators db_nonces db_audit].
  - by apply jm_set_NoDup.
  - by rewrite (jm_map_set_same _ _ op).
  - done.
  - intros id'. rewrite auditStatus_snoc, jm_get_set. cbn [oa_operatorId oa_to].
    destruct (bool_decide_reflect (id = id')); [by rewrite decide_True|by rewrite decide_False].
  - apply chained_snoc; cbn; [done| |by intros ? [= <-]|done]. by rewrite wf_audited0, Eo.
Qed.

Lemma registry_reachable_wf db : rtc rstep emptyDb db -> wf db.
Proof.
  intros Hr. remember emptyDb as e. assert (wf e) as Hw by (subst; apply registry_empty_wf). clear Heqe.
  induction Hr as [|x y z []]; eauto using register_wf, setStatus_wf.
Qed.

Lemma register_nonce db newId now dto db' id : register verify db newId now dto = Ok (db', id) ->
  db_nonces db' = db_nonces db ++ [(ro_submissionKey dto, ro_nonce dto)].
Proof.
  unfold register. destruct (_ <? _); [done|]. destruct (negb _); [done|].
  destruct (bool_decide _); [done|]. destruct (_ || _); [done|]. by intros [= <- _].
Qed.

(** The registry, after any history of registrations and status changes: a
    submission key is registered once and a nonce used once, the status of every
    operator is the one its last audit row records, and each operator's audit rows
    form a path of the transition table that starts with its registration. *)
Theorem registry_wf (db : Db) (Hr : rtc rstep emptyDb db) : wf db.
Proof. by apply registry_reachable_wf. Qed.

(** A registration request is accepted once: after any history that began with
    accepting it, the same request is refused, whatever identifier and time it
    comes with, and no matter what became of the operator. *)
Theorem registration_not_replayed (db db1 db2 : Db) (newId : string) (now : Z) (dto : RegisterOperatorDto) (id : string)
    (Hr : rtc rstep emptyDb db) (Hreg : register verify db newId now dto = Ok (db1, id)) (Hlater : rtc rstep db1 db2) :
  forall newId' now', is_ok (register verify db2 newId' now' dto) = false.
Proof.
  assert ((ro_submissionKey dto, ro_nonce dto) ∈ db_nonces db1) as Hn.
  { rewrite (register_nonce _ _ _ _ _ _ Hreg). set_solver. }
  assert ((ro_submissionKey dto, ro_nonce dto) ∈ db_nonces db2) as Hn2.
  { clear Hreg Hr. induction Hlater as [|x y z Hxy _ IH]; [done|]. apply IH. destruct Hxy as [? ? ? ? ? Hreg|? ? ? ? ? ? Hset].
    - rewrite (register_nonce _ _ _ _ _ _ Hreg). set_solver.
    - revert Hset. unfold setStatus. destruct (jm_get _ _); [|done]. destruct (negb _); [done|]. by intros [= <- _]. }
  intros newId' now'. unfold register. destruct (_ <? _); [done|]. destruct (negb _); [done|]. by rewrite bool_decide_eq_true_2.
Qed.
End Histories.

(** The quorum is met exactly when that many different operators have an active
    reading, however the readings are repeated or ordered. *)
Lemma meetsOperatorQuorum_spec readings (required : nat) :
  meetsOperatorQuorum readings (Z.of_nat required) = true <->
  ∃ ops, length ops = required ∧ NoDup ops ∧ forall o, o ∈ ops -> (o, OpActive) ∈ readings.
Proof.
  unfold meetsOperatorQuorum, countQuorumOperators. rewrite Z.leb_le, <- Nat2Z.inj_le.
  set (s := setOf _). assert (forall o, o ∈ s <-> (o, OpActive) ∈ readings) as Hs.
  { intros o. unfold s. rewrite elem_of_setOf. split.
    - intros ((o' & st) & -> & [Hst Hin]%list_elem_of_filter)%list_elem_of_fmap. by cbn in *; subst.
    - intros Hin. apply list_elem_of_fmap. exists (o, OpActive). split; [done|]. by apply list_elem_of_filter. }
  split.
  - intros Hle. exists (take required s). split_and!; [rewrite length_take; lia| |].
    + eapply sublist_NoDup; [apply setOf_NoDup|]. apply sublist_take.
    + intros o Ho. apply Hs. by apply (subseteq_take required).
  - intros (ops & <- & Hn & Hall). apply (submseteq_length ops s). apply NoDup_submseteq; [done|]. intros o Ho. by apply Hs, Hall.
Qed.

(** * Witnesses *)

Definition demoVerify (key message signature : string) : bool := bool_decide (signature = message).
Definition demoRegister : RegisterOperatorDto :=
  mkRegister "GKEY" ["b"; "a"] "nonce-0123456789" 1000
    (registrationMessage (mkRegister "GKEY" ["a"; "b"] "nonce-0123456789" 1000 "")).
Definition demoDb1 : Db := match register demoVerify emptyDb "op1" 1000 demoRegister with Ok (db, _) => db | Err _ => emptyDb end.
Definition demoDb2 : Db := match setStatus demoDb1 "op1" OpActive "ops" None with Ok (db, _) => db | Err _ => demoDb1 end.

Lemma demoDb2_reachable : rtc (rstep demoVerify) emptyDb demoDb2.
Proof.
  eapply rtc_l; [apply (step_register demoVerify _ "op1" 1000 demoRegister demoDb1 "op1"); vm_compute; reflexivity|].
  apply rtc_once. apply (step_status demoVerify _ "op1" OpActive "ops" None demoDb2 OpActive). vm_compute. reflexivity.
Qed.

Lemma registry_wf_witness : wf demoDb2 ∧ (or_status <$> jm_get (db_operators demoDb2) "op1") = Some OpActive.
Proof. split; [apply (registry_wf demoVerify); apply demoDb2_reachable|vm_compute; reflexivity]. Defined.

Lemma registration_not_replayed_witness : is_ok (register demoVerify demoDb2 "op2" 1001 demoRegister) = false.
Proof.
  apply (registration_not_replayed demoVerify emptyDb demoDb1 demoDb2 "op1" 1000 demoRegister "op1");
    [done|vm_compute; reflexivity|].
  apply rtc_once. apply (step_status demoVerify _ "op1" OpActive "ops" None demoDb2 OpActive). vm_compute. reflexivity.
Defined.

(** The signed text joins feeds with commas and fields with line breaks without
    escaping them, so it does not determine the request that was signed. *)
Lemma registrationMessage_ambiguous :
  registrationMessage (mkRegister "G" ["a"; "b"] "n" 1 "s") = registrationMessage (mkRegister "G" ["a,b"] "n" 1 "s").
Proof. vm_compute. reflexivity. Qed.
