(* ===== verification/ConsensusWindows.v ===== *)
(** Event-time consensus windows (src/oracle/windowing): assignment of readings to
    epoch-aligned windows, watermark and late arrivals, suppression of a second
    reading of a source, and the median decision of a closed window with its replay
    hash.

    The three tables are association lists in insertion order.  Times are integer
    milliseconds; on such operands the source's floating division followed by
    [Math.floor] is the integer quotient.  The database supplies row ids, the
    collation of [ORDER BY] and the text of a stored NUMERIC, which the driver
    returns as a string; [a.value - b.value] converts both, [a.value + b.value]
    concatenates them. *)

From stdpp Require Import base list strings sorting relations.
From Stdlib Require Import ZArith Lia Ascii Floats.
From S2P Require Import Prelude Decimal JsNum JsParse JsDate Canonical.

#[local] Open Scope Z_scope.

(** * Configuration *)

Inductive LateArrivalPolicy := Drop | CarryNext.
#[global] Instance LateArrivalPolicy_eq_dec : EqDecision LateArrivalPolicy.
Proof. solve_decision. Defined.

Record FeedWindowConfig := mkFeedWindow {
  fw_feedId : string; fw_windowDurationMs : Z; fw_allowedLatenessMs : Z;
  fw_lateArrivalPolicy : LateArrivalPolicy; fw_bestEffort : bool }.

Definition DEFAULT_FEED_WINDOW_CONFIGS : list FeedWindowConfig :=
  [ mkFeedWindow "StablecoinDepeg" 30000 5000 Drop false;
    mkFeedWindow "MarketCrash" 30000 5000 Drop false;
    mkFeedWindow "LiquidationShield" 30000 5000 CarryNext false;
    mkFeedWindow "SmartContractRisk" 30000 5000 Drop false;
    mkFeedWindow "FlightDelay" 60000 10000 CarryNext true ].

Definition getFeedConfig (feedId : string) (configs : list FeedWindowConfig) : FeedWindowConfig :=
  match list_find (fun c => fw_feedId c = feedId) configs with
  | Some (_, c) => c
  | None => mkFeedWindow feedId 30000 5000 Drop false
  end.

(** * Window identity *)

Record WindowBounds := mkBounds { wb_windowId : string; wb_windowStart : Z; wb_windowEnd : Z }.

(** A zero duration or a time outside the range of [Date] makes the start an
    invalid date, on which [toISOString] throws. *)
Definition computeWindowBounds (feedId : string) (ts windowDurationMs : Z) : res string WindowBounds :=
  if negb (validTime ts) || (windowDurationMs =? 0) then Err "Invalid time value"
  else
    let windowStart := ts / windowDurationMs * windowDurationMs in
    iso ← toISOString windowStart;
    Ok (mkBounds (feedId +:+ ":" +:+ iso) windowStart (windowStart + windowDurationMs)).

Definition computeWatermark (windowEnd allowedLatenessMs : Z) : Z := windowEnd + allowedLatenessMs.

(** An out-of-range watermark is an invalid date: every comparison is false. *)
Definition isArrivedTooLate (arrivalTime windowEnd allowedLatenessMs : Z) : bool :=
  let w := computeWatermark windowEnd allowedLatenessMs in validTime w && (w <? arrivalTime).

Definition isLateArrival (arrivalTime windowEnd : Z) : bool := windowEnd <? arrivalTime.
Definition isWindowClosed (windowEnd now : Z) : bool := windowEnd <=? now.

(** * Tables *)

Inductive WindowStatus := WOpen | WClosed | WEvaluated.
#[global] Instance WindowStatus_eq_dec : EqDecision WindowStatus.
Proof. solve_decision. Defined.

Record WindowRow := mkWindow {
  wr_feedId : string; wr_windowStart : Z; wr_windowEnd : Z; wr_status : WindowStatus;
  wr_createdAt : Z; wr_closedAt : option Z; wr_evaluatedAt : option Z }.

Record WindowReadingRow := mkReading {
  rr_id : string; rr_windowId : string; rr_feedId : string; rr_source : string; rr_value : string;
  rr_severity : string; rr_sourceTimestamp : Z; rr_arrivalTimestamp : Z; rr_isLate : bool; rr_isDropped : bool }.

(** [value] is what the driver is given: the text of a stored value, or a number. *)
Inductive jsValue := VText (s : string) | VNum (n : num).

Record ConsensusDecisionRow := mkDecision {
  dr_feedId : string; dr_windowStart : Z; dr_windowEnd : Z; dr_readingCount : Z; dr_lateReadingCount : Z;
  dr_value : jsValue; dr_severity : string; dr_decidedAt : Z; dr_inputHash : string }.

Record Tables := mkTables {
  tb_windows : list (string * WindowRow);
  tb_readings : list WindowReadingRow;
  tb_decisions : list (string * ConsensusDecisionRow) }.
Definition emptyTables : Tables := mkTables [] [] [].

Definition setWindow (db : Tables) (windowId : string) (w : WindowRow) : Tables :=
  mkTables (jm_set (tb_windows db) windowId w) (tb_readings db) (tb_decisions db).

(** [storeNumeric v] is the text read back after storing [v] in a NUMERIC(20,6)
    column, [None] when the column refuses it; [collateLe] is the order of
    [ORDER BY source]. *)
Class Postgres := { storeNumeric : num -> option string; collateLe : string -> string -> bool }.

Definition fits (n : Z) (s : string) : bool := Z.of_nat (String.length s) <=? n.

Section Windows.
Context `{JsHost} `{Postgres}.

Definition upsertWindow (db : Tables) (feedId windowId : string) (windowStart windowEnd now : Z) : res string Tables :=
  if negb (fits 40 feedId) then Err "value too long for type character varying(40)"
  else if negb (validTime windowEnd) then Err "invalid input syntax for type timestamp with time zone"
  else if negb (windowStart <? windowEnd) then Err "violates check constraint chk_window_bounds"
  else Ok (setWindow db windowId
    match jm_get (tb_windows db) windowId with
    | Some w => mkWindow feedId (wr_windowStart w) (wr_windowEnd w) (wr_status w) (wr_createdAt w) (wr_closedAt w) (wr_evaluatedAt w)
    | None => mkWindow feedId windowStart windowEnd WOpen now None None
    end).

Definition closeWindow (db : Tables) (windowId : string) (now : Z) : Tables :=
  match jm_get (tb_windows db) windowId with
  | Some w =>
      if bool_decide (wr_status w = WOpen)
      then setWindow db windowId (mkWindow (wr_feedId w) (wr_windowStart w) (wr_windowEnd w) WClosed (wr_createdAt w) (Some now) (wr_evaluatedAt w))
      else db
  | None => db
  end.

Definition markEvaluated (db : Tables) (windowId : string) (now : Z) : Tables :=
  match jm_get (tb_windows db) windowId with
  | Some w => setWindow db windowId (mkWindow (wr_feedId w) (wr_windowStart w) (wr_windowEnd w) WEvaluated (wr_createdAt w) (wr_closedAt w) (Some now))
  | None => db
  end.

Definition getWindow (db : Tables) (windowId : string) : option WindowRow := jm_get (tb_windows db) windowId.

Definition windowStartLe (a b : string * WindowRow) : bool := wr_windowStart a.2 <=? wr_windowStart b.2.
Definition getClosedUnevaluatedWindows (db : Tables) (feedId : string) : list (string * WindowRow) :=
  sort_by windowStartLe (filter (fun w => wr_feedId w.2 = feedId ∧ wr_status w.2 = WClosed) (tb_windows db)).

(** The row is refused when the source is already in the window (a duplicate) and
    when the database rejects it (the error is logged); both return [null]. *)
Definition insertReading (db : Tables) (id windowId feedId source : string) (value : num) (severity : string)
    (sourceTimestamp arrivalTimestamp : Z) (isLate isDropped : bool) : Tables * option WindowReadingRow :=
  match storeNumeric value with
  | None => (db, None)
  | Some v =>
      if negb (fits 40 feedId && fits 40 source && fits 10 severity) || bool_decide (id ∈ map rr_id (tb_readings db))
         || negb (jm_has (tb_windows db) windowId)
         || bool_decide ((windowId, source) ∈ map (fun r => (rr_windowId r, rr_source r)) (tb_readings db))
      then (db, None)
      else
        let row := mkReading id windowId feedId source v severity sourceTimestamp arrivalTimestamp isLate isDropped in
        (mkTables (tb_windows db) (tb_readings db ++ [row]) (tb_decisions db), Some row)
  end.

Definition sourceLe (a b : WindowReadingRow) : bool := collateLe (rr_source a) (rr_source b).
Definition getEligibleReadings (db : Tables) (windowId : string) : list WindowReadingRow :=
  sort_by sourceLe (filter (fun r => rr_windowId r = windowId ∧ rr_isDropped r = false) (tb_readings db)).
Definition getAllReadings (db : Tables) (windowId : string) : list WindowReadingRow :=
  sort_by sourceLe (filter (fun r => rr_windowId r = windowId) (tb_readings db)).

(** On conflict the bounds and the feed of the first decision stay. *)
Definition recordDecision (db : Tables) (windowId : string) (d : ConsensusDecisionRow) : Tables :=
  let row := match jm_get (tb_decisions db) windowId with
    | Some d0 => mkDecision (dr_feedId d0) (dr_windowStart d0) (dr_windowEnd d0) (dr_readingCount d)
                   (dr_lateReadingCount d) (dr_value d) (dr_severity d) (dr_decidedAt d) (dr_inputHash d)
    | None => d
    end in
  mkTables (tb_windows db) (tb_readings db) (jm_set (tb_decisions db) windowId row).

Definition getDecision (db : Tables) (windowId : string) : option ConsensusDecisionRow := jm_get (tb_decisions db) windowId.

(** * Service *)

(** [/\[([^\]]+)\]/.exec(message)]: the leftmost ["["] whose text up to the next
    ["]"] is not empty. *)
Fixpoint untilBracket (s : text) : option text :=
  match s with
  | [] => None
  | c :: r => if bool_decide (c = "]"%char) then Some [] else (fun t => c :: t) <$> untilBracket r
  end.
Fixpoint bracketed (s : text) : option text :=
  match s with
  | [] => None
  | c :: r =>
      if bool_decide (c = "["%char) then
        match untilBracket r with Some (x :: t) => Some (x :: t) | _ => bracketed r end
      else bracketed r
  end.
Fixpoint untilSemicolon (s : text) : text :=
  match s with [] => [] | c :: r => if bool_decide (c = ";"%char) then [] else c :: untilSemicolon r end.

Definition extractSource (message : string) : string :=
  match bracketed (String.list_ascii_of_string message) with
  | None => "unknown"
  | Some t => String.string_of_list_ascii (take 40 (trim (untilSemicolon t)))
  end.

Record Reading := mkIncoming {
  in_coverageType : string; in_source : option string; in_value : num; in_severity : string; in_message : string;
  in_sourceTimestamp : option Z }.

Inductive IngestStatus := Accepted | LateAccepted | LateDropped | TooLate | Duplicate.
#[global] Instance IngestStatus_eq_dec : EqDecision IngestStatus.
Proof. solve_decision. Defined.
Record IngestResult := mkIngest { ig_windowId : string; ig_status : IngestStatus; ig_isLate : bool }.

Variable configs : list FeedWindowConfig.

(** [newId] is the row id the database generates for the reading. *)
Definition ingest (db : Tables) (newId : string) (reading : Reading) (arrivalTime : Z) : res string (Tables * IngestResult) :=
  let config := getFeedConfig (in_coverageType reading) configs in
  let sourceTs := default arrivalTime (in_sourceTimestamp reading) in
  b ← computeWindowBounds (in_coverageType reading) sourceTs (fw_windowDurationMs config);
  db1 ← upsertWindow db (in_coverageType reading) (wb_windowId b) (wb_windowStart b) (wb_windowEnd b) arrivalTime;
  let windowAlreadyClosed := isWindowClosed (wb_windowEnd b) arrivalTime in
  let tooLate := isArrivedTooLate arrivalTime (wb_windowEnd b) (fw_allowedLatenessMs config) in
  let late := windowAlreadyClosed && isLateArrival arrivalTime (wb_windowEnd b) in
  if tooLate then Ok (db1, mkIngest (wb_windowId b) TooLate true)
  else
    let isDropped := late && bool_decide (fw_lateArrivalPolicy config = Drop) in
    let '(db2, inserted) := insertReading db1 newId (wb_windowId b) (in_coverageType reading)
      (match in_source reading with Some s => s | None => extractSource (in_message reading) end)
      (in_value reading) (in_severity reading) sourceTs arrivalTime late isDropped in
    Ok (db2, match inserted with
             | None => mkIngest (wb_windowId b) Duplicate late
             | Some _ =>
                 if late && isDropped then mkIngest (wb_windowId b) LateDropped true
                 else if late then mkIngest (wb_windowId b) LateAccepted true
                 else mkIngest (wb_windowId b) Accepted false
             end).

(** [(a, b) => a.value - b.value] *)
Definition valueLe (a b : WindowReadingRow) : bool := nle (toNumber (rr_value a) - toNumber (rr_value b))%float 0%float.

Definition countStep (m : list (string * Z)) (r : WindowReadingRow) : list (string * Z) :=
  jm_set m (rr_severity r) (default 0 (jm_get m (rr_severity r)) + 1).
Definition severityCounts (readings : list WindowReadingRow) : list (string * Z) := foldl countStep [] readings.

Definition voteLe (a b : string * Z) : bool :=
  if negb (b.2 =? a.2) then b.2 - a.2 <=? 0 else localeLe a.1 b.1.

Definition emptyReading : WindowReadingRow := mkReading "" "" "" "" "" "" 0 0 false false.

(** Called on at least one reading. *)
Definition computeMedianConsensus (readings : list WindowReadingRow) : jsValue * string :=
  let sorted := sort_by valueLe readings in
  let mid := (length sorted / 2)%nat in
  let value :=
    if (length sorted mod 2 =? 0)%nat
    then VNum (toNumber (rr_value (nth (mid - 1) sorted emptyReading) +:+ rr_value (nth mid sorted emptyReading)) / 2)%float
    else VText (rr_value (nth mid sorted emptyReading)) in
  (value, match sort_by voteLe (severityCounts readings) with (s, _) :: _ => s | [] => "" end).

Definition computeInputHash (readings : list WindowReadingRow) : string :=
  sha256Hex (joinWith "," (sort_strings (map rr_id readings))).

Record ConsensusResult := mkResult {
  cr_windowId : string; cr_feedId : string; cr_value : jsValue; cr_severity : string; cr_readingCount : Z;
  cr_lateReadingCount : Z; cr_inputHash : string; cr_empty : bool; cr_decision : option ConsensusDecisionRow }.

Definition evaluateWindow (db : Tables) (windowId : string) (now : Z) : res string (Tables * ConsensusResult) :=
  match getWindow db windowId with
  | None => Err ("Window " +:+ windowId +:+ " not found")
  | Some w =>
      let config := getFeedConfig (wr_feedId w) configs in
      let closed := isWindowClosed (wr_windowEnd w) now in
      if negb closed && negb (fw_bestEffort config)
      then Err ("Window " +:+ windowId +:+ " is not yet closed — consensus can only be evaluated on closed windows")
      else
        let readings := getEligibleReadings db windowId in
        let lateReadings := filter (fun r => rr_isLate r = true) readings in
        let inputHash := computeInputHash readings in
        match readings with
        | [] =>
            let db1 := recordDecision db windowId
              (mkDecision (wr_feedId w) (wr_windowStart w) (wr_windowEnd w) 0 0 (VNum 0%float) "low" now inputHash) in
            Ok (markEvaluated db1 windowId now,
                mkResult windowId (wr_feedId w) (VNum 0%float) "low" 0 0 inputHash true (getDecision db1 windowId))
        | _ =>
            let '(value, severity) := computeMedianConsensus readings in
            let n := Z.of_nat (length readings) in
            let nl := Z.of_nat (length lateReadings) in
            let db1 := recordDecision db windowId
              (mkDecision (wr_feedId w) (wr_windowStart w) (wr_windowEnd w) n nl value severity now inputHash) in
            Ok (markEvaluated db1 windowId now,
                mkResult windowId (wr_feedId w) value severity n nl inputHash false (getDecision db1 windowId))
        end
  end.

Definition closeExpiredWindows (db : Tables) (feedId : string) : list string :=
  (getClosedUnevaluatedWindows db feedId).*1.

Definition replayWindow (db : Tables) (windowId : string) (now : Z) : res string (Tables * (ConsensusResult * bool)) :=
  let prior := getDecision db windowId in
  '(db1, result) ← evaluateWindow db windowId now;
  Ok (db1, (result, match prior with Some d => bool_decide (dr_inputHash d = cr_inputHash result) | None => false end)).
End Windows.

(** * Window identity *)

Lemma string_eq_list a b : String.list_ascii_of_string a = String.list_ascii_of_string b -> a = b.
Proof. intros E. by rewrite <- (String.string_of_list_ascii_of_string a), E, String.string_of_list_ascii_of_string. Qed.

Definition windowKey (feedId : string) (start : Z) : text :=
  String.list_ascii_of_string feedId ++ ":"%char :: isoText start.

(** A four-digit year cannot be the end of a signed one: the colon would be a digit. *)
Lemma short_year_not_suffix (f1 f2 : text) c n m : is_digit c = false -> 0 <= n < 10 ^ 4 -> 0 <= m < 10 ^ 6 ->
  f1 ++ ":"%char :: digits 4 n = f2 ++ ":"%char :: c :: digits 6 m -> False.
Proof.
  intros Hc Hn Hm E. destruct (digits_spec 6 m ltac:(lia) ltac:(lia)) as (L & D & _).
  pose proof (digits_length 4 n ltac:(lia) ltac:(lia)) as L4.
  destruct (digits 6 m) as [|d1 [|d2 r]]; [done..|]. cbn in L.
  replace (f1 ++ ":"%char :: digits 4 n) with ((f1 ++ [":"%char]) ++ digits 4 n) in E by by rewrite <- app_assoc.
  replace (f2 ++ ":"%char :: c :: d1 :: d2 :: r) with (((f2 ++ [":"%char; c; d1]) ++ [d2]) ++ r) in E by by rewrite <- !app_assoc.
  apply app_inj_2 in E as [E _]; [|lia]. apply app_inj_tail in E as [_ <-]. cbn in D. by rewrite andb_false_r in D.
Qed.

Lemma windowKey_inj f1 f2 a b : validTime a = true -> validTime b = true ->
  windowKey f1 a = windowKey f2 b -> f1 = f2 ∧ a = b.
Proof.
  intros Ha Hb E. unfold windowKey in E. rewrite !isoText_split in E.
  assert (isoTail a = isoTail b ∧ String.list_ascii_of_string f1 ++ ":"%char :: yearText (civilOfDays (a / MS_PER_DAY)).1.1
          = String.list_ascii_of_string f2 ++ ":"%char :: yearText (civilOfDays (b / MS_PER_DAY)).1.1) as [Et Ey].
  { rewrite !app_comm_cons, !app_assoc in E. apply app_inj_2 in E as [E1 E2]; [done|]. by rewrite !isoTail_length. }
  assert (String.list_ascii_of_string f1 = String.list_ascii_of_string f2 ∧ isoText a = isoText b) as [Hf Hi].
  { rewrite !isoText_split, Et. pose proof (validTime_year a Ha) as Ya. pose proof (validTime_year b Hb) as Yb.
    generalize dependent (civilOfDays (a / MS_PER_DAY)).1.1. generalize dependent (civilOfDays (b / MS_PER_DAY)).1.1. clear.
    intros yb Yb ya _ Ey Ya.
    destruct (yearText_spec ya Ya) as [[B1 E1]|(c1 & E1 & D1 & _)], (yearText_spec yb Yb) as [[B2 E2]|(c2 & E2 & D2 & _)]; rewrite E1, E2 in *.
    - apply app_inj_2 in Ey as [-> [= ->]]; [done|]. cbn. by rewrite !digits_length by lia.
    - exfalso. eapply short_year_not_suffix; [exact D2| | |exact Ey]; lia.
    - exfalso. eapply short_year_not_suffix; [exact D1| | |exact (eq_sym Ey)]; lia.
    - apply app_inj_2 in Ey as [-> [= -> ->]]; [done|]. cbn. by rewrite !digits_length by lia. }
  split; [by apply string_eq_list|by apply isoText_inj].
Qed.

Lemma computeWindowBounds_inv feedId ts dur b : computeWindowBounds feedId ts dur = Ok b ->
  dur ≠ 0 ∧ wb_windowStart b = ts / dur * dur ∧ wb_windowEnd b = wb_windowStart b + dur ∧
  validTime (wb_windowStart b) = true ∧ String.list_ascii_of_string (wb_windowId b) = windowKey feedId (wb_windowStart b).
Proof.
  unfold computeWindowBounds. destruct (validTime ts); [|done]. destruct (Z.eqb_spec dur 0) as [|Hd]; [done|]. cbn [negb orb].
  unfold toISOString. destruct (validTime (ts / dur * dur)) eqn:Ev; [|done]. intros [= <-]. cbn [wb_windowStart wb_windowEnd wb_windowId].
  split_and!; try done. rewrite !list_ascii_append, String.list_ascii_of_string_of_list_ascii. done.
Qed.

(** Window assignment.  A reading falls inside the window it is assigned to,
    whose start is a multiple of the duration, and the window id names the feed and
    the window: two readings, whatever the durations their feeds are configured
    with, get the same id exactly when the feed and the start of the window are the
    same. *)
Theorem window_assignment (f1 f2 : string) (t1 t2 d1 d2 : Z) (b1 b2 : WindowBounds) (Hd : 0 < d1)
    (H1 : computeWindowBounds f1 t1 d1 = Ok b1) (H2 : computeWindowBounds f2 t2 d2 = Ok b2) :
  (d1 | wb_windowStart b1) ∧ wb_windowStart b1 <= t1 < wb_windowEnd b1 ∧
  (wb_windowId b1 = wb_windowId b2 <-> f1 = f2 ∧ wb_windowStart b1 = wb_windowStart b2).
Proof.
  pose proof (computeWindowBounds_inv _ _ _ _ H1) as (_ & S1 & E1 & V1 & I1).
  pose proof (computeWindowBounds_inv _ _ _ _ H2) as (_ & S2 & E2 & V2 & I2).
  pose proof (Z.div_mod t1 d1 ltac:(lia)). pose proof (Z.mod_pos_bound t1 d1 Hd).
  split; [exists (t1 / d1); lia|]. split; [nia|]. split.
  - intros E. rewrite E, I2 in I1. by apply windowKey_inj in I1 as [-> ->].
  - intros [-> E]. apply string_eq_list. by rewrite I1, I2, E.
Qed.

(** * The value of a decision *)

(** What PostgreSQL prints for a NUMERIC with a scale: digits with a decimal point,
    or [NaN]. *)
Definition numericText (t : text) : Prop :=
  t = String.list_ascii_of_string "NaN" \/
  ∃ (neg : bool) w f, t = (if neg then [c_minus] else []) ++ w ++ c_dot :: f ∧
    all_digits w = true ∧ w ≠ [] ∧ all_digits f = true ∧ f ≠ [].

Class PostgresLaws `{Postgres} : Prop :=
  stored_text v t : storeNumeric v = Some t -> numericText (String.list_ascii_of_string t).

Lemma is_digit_space c : is_digit c = true -> is_space c = false.
Proof. unfold is_digit, is_space. rewrite bool_decide_eq_true, bool_decide_eq_false. lia. Qed.

(** The characters of a stored value: digits, the point, the sign and [N], [a]. *)
Definition numericChar (c : ascii) : bool := is_digit c || bool_decide (c ∈ [c_dot; c_minus; "N"%char; "a"%char]).

Lemma numericChar_plain c : numericChar c = true -> is_space c = false ∧ radix_of c = None ∧ bool_decide (c = "I"%char) = false.
Proof.
  unfold numericChar. intros [Hd|Hc%bool_decide_eq_true]%orb_true_iff.
  - split; [by apply is_digit_space|]. unfold radix_of. rewrite !bool_decide_eq_false_2; [done|..]; by intros ->.
  - set_unfold in Hc. destruct Hc as [->|[->|[->|[->|[]]]]]; done.
Qed.

Lemma digits_numeric w : all_digits w = true -> forallb numericChar w = true.
Proof.
  unfold all_digits. induction w as [|c w IH]; [done|]. cbn. intros [Hc Hw]%andb_true_iff.
  unfold numericChar at 1. by rewrite Hc, IH.
Qed.

Lemma numericText_chars t : numericText t -> forallb numericChar t = true ∧ (2 <= length t)%nat.
Proof.
  intros [->|(neg & w & f & -> & Hw & Hwn & Hf & Hfn)]; [split; [done|cbn; lia]|]. split.
  - rewrite !forallb_app. cbn [forallb]. rewrite (digits_numeric w), (digits_numeric f) by done. destruct neg; vm_compute; reflexivity.
  - rewrite !length_app. cbn [length]. destruct w, f; cbn; try done; lia.
Qed.

Lemma numeric_not_literal t : forallb numericChar t = true -> (2 <= length t)%nat ->
  numberOfText t = (let '(neg, r) := drop_sign t in
    match decimal_literal r with Some n => if neg then (- n)%float else n | None => nan end).
Proof.
  intros Hc Hl. destruct t as [|c [|d s]]; [cbn in Hl; lia..|]. unfold numberOfText.
  rewrite trim_id; [|done|].
  2: { apply Forall_forall. intros x Hx%list_elem_of_In. rewrite forallb_forall in Hc. by apply numericChar_plain, Hc. }
  rewrite bool_decide_eq_false_2 by done. cbn in Hc. apply andb_true_iff in Hc as [Hc [Hd Hs]%andb_true_iff].
  assert (radix_literal (c :: d :: s) = None) as ->.
  { cbn. destruct s; [done|]. case_bool_decide; [|done]. by rewrite (proj1 (proj2 (numericChar_plain d Hd))). }
  destruct (drop_sign (c :: d :: s)) as [neg r] eqn:E. rewrite bool_decide_eq_false_2; [done|]. intros ->.
  cbn in E. apply numericChar_plain in Hc as (_ & _ & Hi), Hd as (_ & _ & Hj).
  apply bool_decide_eq_false in Hi, Hj. destruct (is_sign c); injection E; intros; congruence.
Qed.

(** After the fraction of the first value, the text of the second is not an
    exponent. *)
Lemma decimal_then_value w f b : all_digits w = true -> all_digits f = true -> numericText b ->
  decimal_literal (w ++ c_dot :: f ++ b) = None.
Proof.
  intros Hw Hf Hb. unfold decimal_literal. rewrite span_digits_all by done. rewrite bool_decide_eq_true_2 by done.
  assert (∃ d c r, span_digits (f ++ b) = (d, c :: r) ∧ c ≠ "e"%char ∧ c ≠ "E"%char) as (d & c & r & -> & H1 & H2).
  { destruct Hb as [->|([] & w2 & f2 & -> & Hw2 & _)].
    - eexists f, _, _. split; [by apply span_digits_all|done].
    - eexists f, c_minus, _. split; [by apply span_digits_all|done].
    - eexists (f ++ w2), c_dot, _. split; [cbn [app]; rewrite app_assoc; apply span_digits_all; [by rewrite all_digits_app, Hf|done]|done]. }
  destruct (bool_decide _); [done|]. cbn [exponent]. by rewrite !bool_decide_eq_false_2.
Qed.

Lemma concatenated_values a b : numericText a -> numericText b -> numberOfText (a ++ b) = nan.
Proof.
  intros Ha Hb. destruct (numericText_chars a Ha) as [Ca La]. destruct (numericText_chars b Hb) as [Cb _].
  rewrite numeric_not_literal; [|by rewrite forallb_app, Ca|rewrite length_app; lia].
  destruct Ha as [->|(neg & w & f & -> & Hw & Hwn & Hf & _)]; [done|].
  assert (drop_sign (((if neg then [c_minus] else []) ++ w ++ c_dot :: f) ++ b) = (neg, w ++ c_dot :: f ++ b)) as ->.
  { rewrite <- !app_assoc. destruct neg; [done|]. destruct w as [|c w]; [done|]. cbn.
    cbn in Hw. apply andb_true_iff in Hw as [Hc _]. unfold is_sign. rewrite !bool_decide_eq_false_2; [done|..]; by intros ->. }
  by rewrite decimal_then_value.
Qed.

(** * Histories *)
Section Histories.
Context `{JsHost} `{Postgres}.
Variable configs : list FeedWindowConfig.

(** A step of the service at a time. *)
Inductive wstep (t : Z) (db : Tables) : Tables -> Prop :=
| step_ingest newId reading db' r : ingest configs db newId reading t = Ok (db', r) -> wstep t db db'
| step_evaluate windowId db' r : evaluateWindow configs db windowId t = Ok (db', r) -> wstep t db db'
| step_replay windowId db' r : replayWindow configs db windowId t = Ok (db', r) -> wstep t db db'.

Definition anyStep (db db' : Tables) : Prop := ∃ t, wstep t db db'.

(** What the tables hold: a stored reading belongs to a window of its feed and
    bucket, arrived before the watermark, is late exactly when it arrived after the
    end, and is dropped exactly when it is late in a feed that drops; a source
    occurs once per window; a window is open until its first decision. *)
Record readingOk (db : Tables) (r : WindowReadingRow) : Prop := {
  ok_bounds : ∃ b, computeWindowBounds (rr_feedId r) (rr_sourceTimestamp r) (fw_windowDurationMs (getFeedConfig (rr_feedId r) configs)) = Ok b
    ∧ wb_windowId b = rr_windowId r
    ∧ (rr_isLate r = true <-> wb_windowEnd b < rr_arrivalTimestamp r)
    ∧ (validTime (computeWatermark (wb_windowEnd b) (fw_allowedLatenessMs (getFeedConfig (rr_feedId r) configs))) = true ->
       rr_arrivalTimestamp r <= computeWatermark (wb_windowEnd b) (fw_allowedLatenessMs (getFeedConfig (rr_feedId r) configs)));
  ok_dropped : rr_isDropped r = rr_isLate r && bool_decide (fw_lateArrivalPolicy (getFeedConfig (rr_feedId r) configs) = Drop);
  ok_window : is_Some (getWindow db (rr_windowId r));
  ok_value : ∃ v, storeNumeric v = Some (rr_value r) }.

Record windowOk (db : Tables) (windowId : string) (w : WindowRow) : Prop := {
  ok_id : String.list_ascii_of_string windowId = windowKey (wr_feedId w) (wr_windowStart w);
  ok_valid : validTime (wr_windowStart w) = true ∧ validTime (wr_windowEnd w) = true;
  ok_end : wr_windowEnd w = wr_windowStart w + fw_windowDurationMs (getFeedConfig (wr_feedId w) configs);
  ok_status : (wr_status w = WOpen ∧ getDecision db windowId = None)
           \/ (wr_status w = WEvaluated ∧ is_Some (getDecision db windowId)) }.

Record wfTables (db : Tables) : Prop := {
  wf_windows : forall windowId w, getWindow db windowId = Some w -> windowOk db windowId w;
  wf_readings : forall r, r ∈ tb_readings db -> readingOk db r;
  wf_sources : NoDup (map (fun r => (rr_windowId r, rr_source r)) (tb_readings db));
  wf_decided : forall windowId, is_Some (getDecision db windowId) -> is_Some (getWindow db windowId);
  wf_windowKeys : NoDup (jm_keys (tb_windows db)) }.

Lemma upsertWindow_inv db feedId windowId s e now db' : upsertWindow db feedId windowId s e now = Ok db' ->
  validTime e = true ∧ s < e ∧ tb_readings db' = tb_readings db ∧ tb_decisions db' = tb_decisions db ∧
  (NoDup (jm_keys (tb_windows db)) -> NoDup (jm_keys (tb_windows db'))) ∧
  (forall id, getWindow db' id = if decide (windowId = id) then
     Some (match getWindow db id with
           | Some w => mkWindow feedId (wr_windowStart w) (wr_windowEnd w) (wr_status w) (wr_createdAt w) (wr_closedAt w) (wr_evaluatedAt w)
           | None => mkWindow feedId s e WOpen now None None end) else getWindow db id).
Proof.
  unfold upsertWindow. destruct (fits _ _); [|done]. destruct (validTime e) eqn:Ev; [|done]. destruct (Z.ltb_spec s e); [|done].
  cbn [negb]. intros [= <-]. split_and!; try done; cbn.
  - apply jm_set_NoDup.
  - intros id. unfold getWindow. cbn. rewrite jm_get_set. by case_decide; subst.
Qed.

(** What a decision says, as a function of the eligible readings. *)
Definition summary (readings : list WindowReadingRow) : jsValue * string * (Z * Z) * string :=
  (match readings with [] => (VNum 0%float, "low") | _ => computeMedianConsensus readings end,
   (Z.of_nat (length readings), Z.of_nat (length (filter (fun r => rr_isLate r = true) readings))), computeInputHash readings).
Definition summaryOf (r : ConsensusResult) : jsValue * string * (Z * Z) * string :=
  (cr_value r, cr_severity r, (cr_readingCount r, cr_lateReadingCount r), cr_inputHash r).

Lemma markEvaluated_getWindow db windowId now id : getWindow (markEvaluated db windowId now) id =
  if decide (windowId = id) then (fun w => mkWindow (wr_feedId w) (wr_windowStart w) (wr_windowEnd w) WEvaluated (wr_createdAt w)
    (wr_closedAt w) (Some now)) <$> getWindow db id else getWindow db id.
Proof.
  unfold markEvaluated, getWindow. destruct (jm_get (tb_windows db) windowId) as [w|] eqn:E.
  - cbn. rewrite jm_get_set. case_decide; [|done]. subst. by rewrite E.
  - case_decide; [|done]. subst. by rewrite E.
Qed.

Lemma markEvaluated_frame db windowId now : tb_readings (markEvaluated db windowId now) = tb_readings db ∧
  tb_decisions (markEvaluated db windowId now) = tb_decisions db ∧
  (NoDup (jm_keys (tb_windows db)) -> NoDup (jm_keys (tb_windows (markEvaluated db windowId now)))).
Proof. unfold markEvaluated. destruct (jm_get _ _); [|done]. split_and!; [done|done|]. apply jm_set_NoDup. Qed.

Lemma window_evaluate_inv db windowId now db' r : evaluateWindow configs db windowId now = Ok (db', r) ->
  ∃ w d, getWindow db windowId = Some w ∧
    (isWindowClosed (wr_windowEnd w) now || fw_bestEffort (getFeedConfig (wr_feedId w) configs)) = true ∧
    summaryOf r = summary (getEligibleReadings db windowId) ∧ dr_inputHash d = cr_inputHash r ∧
    db' = markEvaluated (mkTables (tb_windows db) (tb_readings db) (jm_set (tb_decisions db) windowId d)) windowId now.
Proof.
  unfold evaluateWindow. destruct (getWindow db windowId) as [w|] eqn:Ew; [|done]. cbv zeta.
  destruct (isWindowClosed (wr_windowEnd w) now || fw_bestEffort (getFeedConfig (wr_feedId w) configs)) eqn:Ec.
  - rewrite <- negb_orb, Ec. cbn [negb].
    destruct (getEligibleReadings db windowId) as [|r0 rs] eqn:Er; [|destruct (computeMedianConsensus (r0 :: rs)) as [v s] eqn:Em];
      intros [= <- <-]; eexists w, _; (split; [done|split; [done|split; [|split; [|reflexivity]]]]).
    + done.
    + by destruct (jm_get (tb_decisions db) windowId).
    + unfold summaryOf, summary. cbn [cr_value cr_severity cr_readingCount cr_lateReadingCount cr_inputHash]. by rewrite Em.
    + by destruct (jm_get (tb_decisions db) windowId).
  - apply orb_false_iff in Ec as [E1 E2]. by rewrite E1, E2.
Qed.

Lemma insertReading_inv db id windowId feedId source value severity st at' late dropped db' o :
  insertReading db id windowId feedId source value severity st at' late dropped = (db', o) ->
  (o = None ∧ db' = db) \/
  ∃ v, storeNumeric value = Some v ∧ is_Some (getWindow db windowId) ∧
    ((windowId, source) ∉ map (fun r => (rr_windowId r, rr_source r)) (tb_readings db)) ∧
    db' = mkTables (tb_windows db) (tb_readings db ++ [mkReading id windowId feedId source v severity st at' late dropped]) (tb_decisions db).
Proof.
  unfold insertReading. destruct (storeNumeric value) as [v|]; [|intros [= <- <-]; by left].
  destruct (fits 40 feedId && fits 40 source && fits 10 severity); [|intros [= <- <-]; by left].
  destruct (bool_decide_reflect (id ∈ map rr_id (tb_readings db))); [intros [= <- <-]; by left|].
  unfold jm_has. destruct (bool_decide_reflect (is_Some (jm_get (tb_windows db) windowId))); [|intros [= <- <-]; by left].
  destruct (bool_decide_reflect ((windowId, source) ∈ map (fun r => (rr_windowId r, rr_source r)) (tb_readings db)));
    intros [= <- <-]; [by left|right]. by exists v.
Qed.

(** An accepted or dropped reading is appended to the tables after the upsert; any
    other outcome leaves the readings as they were. *)
Lemma ingest_inv db newId reading t db' res : ingest configs db newId reading t = Ok (db', res) ->
  let feed := in_coverageType reading in let config := getFeedConfig feed configs in
  let ts := default t (in_sourceTimestamp reading) in
  ∃ b db1, computeWindowBounds feed ts (fw_windowDurationMs config) = Ok b ∧
    upsertWindow db feed (wb_windowId b) (wb_windowStart b) (wb_windowEnd b) t = Ok db1 ∧
    (db' = db1 \/ ∃ row, db' = mkTables (tb_windows db1) (tb_readings db1 ++ [row]) (tb_decisions db1) ∧
      isArrivedTooLate t (wb_windowEnd b) (fw_allowedLatenessMs config) = false ∧
      rr_windowId row = wb_windowId b ∧ rr_feedId row = feed ∧ rr_sourceTimestamp row = ts ∧ rr_arrivalTimestamp row = t ∧
      rr_isLate row = (wb_windowEnd b <? t) ∧
      rr_isDropped row = (wb_windowEnd b <? t) && bool_decide (fw_lateArrivalPolicy config = Drop) ∧
      is_Some (getWindow db1 (wb_windowId b)) ∧ (∃ v, storeNumeric v = Some (rr_value row)) ∧
      ((rr_windowId row, rr_source row) ∉ map (fun r => (rr_windowId r, rr_source r)) (tb_readings db1))).
Proof.
  unfold ingest. cbv zeta. intros (b & Hb & (db1 & Hu & Hi)%res_bind_Ok)%res_bind_Ok. exists b, db1. split; [done|split; [done|]].
  destruct (isArrivedTooLate _ _ _) eqn:El; [injection Hi as <- _; by left|].
  assert (isWindowClosed (wb_windowEnd b) t && isLateArrival t (wb_windowEnd b) = (wb_windowEnd b <? t)) as Hlate.
  { unfold isWindowClosed, isLateArrival. lia. }
  rewrite Hlate in Hi. destruct (insertReading _ _ _ _ _ _ _ _ _ _ _) as [db2 o] eqn:Ei. injection Hi as <- _.
  apply insertReading_inv in Ei as [[-> ->]|(v & Hv & Hw & Hn & ->)]; [by left|right]. eexists. split; [reflexivity|]. cbn. split_and!; eauto.
Qed.
Lemma readingOk_mono db db' r : (forall id, is_Some (getWindow db id) -> is_Some (getWindow db' id)) -> readingOk db r -> readingOk db' r.
Proof. intros Hw []. split; auto. Qed.

Lemma windows_empty_wf : wfTables emptyTables.
Proof. split; cbn; [done|by intros r ?%not_elem_of_nil|apply NoDup_nil_2|by intros ? [? ?]|apply NoDup_nil_2]. Qed.

Lemma upsert_wf db feed ts b t db1 : wfTables db ->
  computeWindowBounds feed ts (fw_windowDurationMs (getFeedConfig feed configs)) = Ok b ->
  upsertWindow db feed (wb_windowId b) (wb_windowStart b) (wb_windowEnd b) t = Ok db1 -> wfTables db1.
Proof.
  intros Hwf (_ & _ & He & Hv & Hid)%computeWindowBounds_inv (Hve & _ & Hr & Hd & Hk & Hg)%upsertWindow_inv. destruct Hwf.
  assert (forall id, is_Some (getWindow db id) -> is_Some (getWindow db1 id)) as Hmono.
  { intros id Hs. rewrite Hg. by case_decide. }
  split.
  - intros id w. rewrite Hg. destruct (decide (wb_windowId b = id)) as [<-|]; cycle 1.
    { intros [H1 H2 H3 H4]%wf_windows0. split; try done. unfold getDecision. by rewrite Hd. }
    intros [= <-]. destruct (getWindow db (wb_windowId b)) as [w|] eqn:Ew.
    + destruct (wf_windows0 _ _ Ew) as [H1 H2 H3 H4]. rewrite Hid in H1. apply windowKey_inj in H1 as [-> H1]; [|done|apply H2].
      split; cbn; try done; [by rewrite Hid, H1|]. unfold getDecision. by rewrite Hd.
    + split; cbn; try done. left. split; [done|]. unfold getDecision. rewrite Hd.
      destruct (jm_get (tb_decisions db) (wb_windowId b)) eqn:Ed; [|done].
      destruct (wf_decided0 (wb_windowId b)) as [? E]; [unfold getDecision; by rewrite Ed|congruence].
  - intros r. rewrite Hr. intros Hin. eapply readingOk_mono; eauto.
  - by rewrite Hr.
  - intros id. unfold getDecision. rewrite Hd. auto.
  - auto.
Qed.

Lemma ingest_wf db newId reading t db' res : wfTables db -> ingest configs db newId reading t = Ok (db', res) -> wfTables db'.
Proof.
  intros Hwf (b & db1 & Hb & Hu & Hcase)%ingest_inv. pose proof (upsert_wf _ _ _ _ _ _ Hwf Hb Hu) as Hwf1. clear Hwf.
  destruct Hcase as [->|(row & -> & Hl & E1 & E2 & E3 & E4 & E5 & E6 & Hw & Hv & Hn)]; [done|].
  destruct Hwf1. split; try done; cbn.
  - intros id w [H1 H2 H3 H4]%wf_windows0. by split.
  - intros r [Hin| ->%list_elem_of_singleton]%elem_of_app; [by eapply readingOk_mono; [|apply wf_readings0]|].
    split; try (rewrite ?E1; done); rewrite ?E2, ?E3, ?E4.
    + exists b. split; [done|split; [done|split; [by rewrite E5, Z.ltb_lt|]]]. intros Hval.
      revert Hl. unfold isArrivedTooLate. rewrite Hval. lia.
    + by rewrite E6, E5.
  - rewrite map_app. apply NoDup_app. split_and!; [done| |apply NoDup_singleton]. intros x Hx ->%list_elem_of_singleton. done.
Qed.

Lemma evaluate_wf db windowId t db' r : wfTables db -> evaluateWindow configs db windowId t = Ok (db', r) -> wfTables db'.
Proof.
  intros Hwf (w & d & Hw & _ & _ & _ & ->)%window_evaluate_inv. destruct Hwf.
  set (db1 := mkTables _ _ _). destruct (markEvaluated_frame db1 windowId t) as (Fr & Fd & Fk).
  assert (forall id, is_Some (getWindow db id) -> is_Some (getWindow (markEvaluated db1 windowId t) id)) as Hmono.
  { intros id [x Hx]. rewrite markEvaluated_getWindow. change (getWindow db1 id) with (getWindow db id). rewrite Hx. case_decide; eauto. }
  split.
  - intros id w'. rewrite markEvaluated_getWindow. change (getWindow db1 id) with (getWindow db id).
    destruct (decide (windowId = id)) as [<-|Hne].
    + rewrite Hw. intros [= <-]. destruct (wf_windows0 _ _ Hw) as [H1 H2 H3 H4]. split; cbn; try done. right. split; [done|].
      unfold getDecision. rewrite Fd. cbn. rewrite jm_get_set_eq. eauto.
    + intros [H1 H2 H3 H4]%wf_windows0. split; try done. unfold getDecision. rewrite Fd. cbn. by rewrite jm_get_set_ne.
  - rewrite Fr. intros r' Hin. eapply readingOk_mono; [exact Hmono|]. by apply wf_readings0.
  - by rewrite Fr.
  - intros id. unfold getDecision. rewrite Fd. cbn. rewrite jm_get_set. case_decide; [subst; eauto|auto].
  - by apply Fk.
Qed.
Lemma replay_inv db windowId t db' r m : replayWindow configs db windowId t = Ok (db', (r, m)) ->
  evaluateWindow configs db windowId t = Ok (db', r) ∧
  m = match getDecision db windowId with Some d => bool_decide (dr_inputHash d = cr_inputHash r) | None => false end.
Proof. unfold replayWindow. intros ([db1 r1] & He & [= <- <- <-])%res_bind_Ok. done. Qed.

Lemma wstep_wf t db db' : wfTables db -> wstep t db db' -> wfTables db'.
Proof. intros Hwf [? ? ? ? Hs|? ? ? Hs|? ? [r m] [Hs _]%replay_inv]; eauto using ingest_wf, evaluate_wf. Qed.

Lemma windows_reachable_wf db db' : wfTables db -> rtc anyStep db db' -> wfTables db'.
Proof. intros Hw Hr. induction Hr as [|x y z [t Ht] _ IH]; [done|]. eapply IH, wstep_wf; eauto. Qed.

(** Two rows of well-formed tables under one id are the same window. *)
Lemma same_window db db' id w w' : wfTables db -> wfTables db' -> getWindow db id = Some w -> getWindow db' id = Some w' ->
  wr_feedId w = wr_feedId w' ∧ wr_windowEnd w = wr_windowEnd w'.
Proof.
  intros Hw Hw' [H1 [H2 _] H3 _]%(wf_windows _ Hw) [H1' [H2' _] H3' _]%(wf_windows _ Hw'). rewrite H1 in H1'.
  apply windowKey_inj in H1' as [Ef Es]; [|done|done]. rewrite H3, H3', Ef, Es. done.
Qed.

Definition watermarkOf (w : WindowRow) : Z :=
  computeWatermark (wr_windowEnd w) (fw_allowedLatenessMs (getFeedConfig (wr_feedId w) configs)).

(** Past the watermark of a window nothing is added to it. *)
Lemma eligible_after_watermark t db db' id w : wfTables db -> getWindow db id = Some w -> validTime (watermarkOf w) = true ->
  watermarkOf w < t -> wstep t db db' -> getEligibleReadings db' id = getEligibleReadings db id.
Proof.
  intros Hwf Hw Hv Ht [? reading ? ? Hs|? ? ? Hs|? ? [r m] [Hs _]%replay_inv].
  2,3: apply window_evaluate_inv in Hs as (? & d & _ & _ & _ & _ & ->); unfold getEligibleReadings; by rewrite (proj1 (markEvaluated_frame _ _ _)).
  apply ingest_inv in Hs as (b & db1 & Hb & Hu & Hcase). pose proof (upsert_wf _ _ _ _ _ _ Hwf Hb Hu) as Hwf1.
  apply upsertWindow_inv in Hu as (_ & _ & Hr & _ & _ & Hg).
  destruct Hcase as [->|(row & -> & Hl & E1 & E2 & _)]; [unfold getEligibleReadings; by rewrite Hr|].
  unfold getEligibleReadings. cbn [tb_readings]. rewrite filter_app, Hr. rewrite (filter_none _ [row]); [by rewrite app_nil_r|].
  apply Forall_singleton. rewrite E1. intros [<- _]. apply computeWindowBounds_inv in Hb as (_ & _ & He & Hvb & Hid).
  destruct (wf_windows _ Hwf _ _ Hw) as [H1 [H2 _] H3 _]. rewrite H1 in Hid. apply windowKey_inj in Hid as [Ef Es]; [|done|done].
  revert Hl. unfold isArrivedTooLate. rewrite He, <- Es, <- Ef, <- H3. change (computeWatermark _ _) with (watermarkOf w). rewrite Hv. lia.
Qed.

(** A decided window: its eligible readings are [E] and its decision carries their
    hash. *)
Definition decided (db : Tables) (id : string) (E : list WindowReadingRow) : Prop :=
  is_Some (getWindow db id) ∧ getEligibleReadings db id = E ∧
  ∃ d, getDecision db id = Some d ∧ dr_inputHash d = computeInputHash E.

Lemma evaluate_decides db id t db' r : evaluateWindow configs db id t = Ok (db', r) -> decided db' id (getEligibleReadings db id).
Proof.
  intros (w & d & Hw & _ & Hs & Hh & ->)%window_evaluate_inv. destruct (markEvaluated_frame (mkTables (tb_windows db) (tb_readings db) (jm_set (tb_decisions db) id d)) id t) as (Fr & Fd & _).
  split_and!.
  - rewrite markEvaluated_getWindow, decide_True by done. change (getWindow _ id) with (getWindow db id). rewrite Hw. eauto.
  - unfold getEligibleReadings. by rewrite Fr.
  - exists d. unfold getDecision. rewrite Fd. cbn. rewrite jm_get_set_eq. split; [done|]. rewrite Hh. by injection Hs.
Qed.

Lemma decided_step t db db' id w E : wfTables db -> getWindow db id = Some w -> validTime (watermarkOf w) = true ->
  watermarkOf w < t -> wstep t db db' -> decided db id E -> decided db' id E.
Proof.
  intros Hwf Hw Hv Ht Hs (_ & HE & d & Hd & Hh). pose proof (eligible_after_watermark _ _ _ _ _ Hwf Hw Hv Ht Hs) as HE'.
  assert (forall id' db2 r, evaluateWindow configs db id' t = Ok (db2, r) -> db' = db2 -> decided db' id E) as Heval.
  { intros id' db2 r He ->. destruct (decide (id' = id)) as [->|Hne]; [rewrite <- HE; by eapply evaluate_decides|].
    apply window_evaluate_inv in He as (w' & d' & _ & _ & _ & _ & ->). unfold decided. rewrite HE', HE.
    split_and!; [rewrite markEvaluated_getWindow, decide_False by done; eauto|done|].
    exists d. unfold getDecision. rewrite (proj1 (proj2 (markEvaluated_frame _ _ _))). cbn. rewrite jm_get_set_ne by done. done. }
  destruct Hs as [? reading ? ? Hs|? ? ? Hs|? ? [r m] [Hs _]%replay_inv]; [|by eapply Heval..]. clear Heval.
  apply ingest_inv in Hs as (b & db1 & _ & Hu & Hcase). apply upsertWindow_inv in Hu as (_ & _ & Hr & Hde & _ & Hg).
  assert (is_Some (getWindow db1 id) ∧ getDecision db1 id = Some d) as [H1 H2].
  { unfold getDecision in *. rewrite Hg, Hde, Hw. split; [|done]. destruct (decide (wb_windowId b = id)); by eexists. }
  unfold decided. rewrite HE', HE. destruct Hcase as [->|(row & -> & _)]; (split; [done|split; [done|by exists d]]).
Qed.
Lemma decided_history db db' id w E : wfTables db -> getWindow db id = Some w -> validTime (watermarkOf w) = true ->
  rtc (fun x y => ∃ t, watermarkOf w < t ∧ wstep t x y) db db' -> decided db id E -> wfTables db' ∧ decided db' id E.
Proof.
  intros Hwf Hw Hv Hr Hd. revert w Hw Hv Hr. intros w Hw Hv Hr. revert Hw.
  assert (forall x, wfTables x -> decided x id E -> (∃ wx, getWindow x id = Some wx ∧ watermarkOf wx = watermarkOf w) ->
    rtc (fun x y => ∃ t, watermarkOf w < t ∧ wstep t x y) x db' -> wfTables db' ∧ decided db' id E) as Hgen; [|eauto].
  clear dependent db. intros x Hwf Hd Hex Hr. induction Hr as [|x y z (t & Ht & Hs) _ IH]; [done|].
  destruct Hex as (wx & Hwx & Ewx). assert (decided y id E) as Hd'.
  { eapply decided_step; [exact Hwf|exact Hwx| | |exact Hs|exact Hd]; by rewrite Ewx. }
  pose proof (wstep_wf _ _ _ Hwf Hs) as Hwf'. apply IH; [done|done|]. destruct Hd' as ([wy Hwy] & _). exists wy. split; [done|].
  destruct (same_window _ _ _ _ _ Hwf Hwf' Hwx Hwy) as [E1 E2]. rewrite <- Ewx. unfold watermarkOf. by rewrite E1, E2.
Qed.

(** The window tables, after any history of ingested readings, evaluations and
    replays: windows have the bounds their id names; a source has at most one
    reading in a window; every stored reading arrived by the watermark, is marked
    late exactly when it came after the end of its window and dropped exactly when
    its feed drops late readings; a window has a decision exactly when it is marked
    evaluated. *)
Theorem window_tables_wf (db : Tables) (Hr : rtc anyStep emptyTables db) : wfTables db.
Proof. eapply windows_reachable_wf; [apply windows_empty_wf|done]. Qed.

(** A decision is final past the watermark.  Once a window is evaluated, and
    whatever is ingested, evaluated or replayed after its watermark, for this and
    every other window, replaying it reproduces the value, the severity, the counts
    and the hash of the evaluation and reports that the hash matches. *)
Theorem decision_final_after_watermark (db db1 db2 : Tables) (id : string) (t t' : Z) (w : WindowRow) (r : ConsensusResult)
    (Hr : rtc anyStep emptyTables db) (He : evaluateWindow configs db id t = Ok (db1, r)) (Hw : getWindow db id = Some w)
    (Hlat : 0 <= fw_allowedLatenessMs (getFeedConfig (wr_feedId w) configs)) (Hv : validTime (watermarkOf w) = true)
    (Hlater : rtc (fun x y => ∃ s, watermarkOf w < s ∧ wstep s x y) db1 db2) (Ht : watermarkOf w < t') :
  ∃ db3 r', replayWindow configs db2 id t' = Ok (db3, (r', true)) ∧ summaryOf r' = summaryOf r.
Proof.
  assert (wfTables db) as Hwf by (eapply windows_reachable_wf; [apply windows_empty_wf|done]).
  pose proof (evaluate_wf _ _ _ _ _ Hwf He) as Hwf1. pose proof (evaluate_decides _ _ _ _ _ He) as Hd1.
  destruct (Hd1) as ([w1 Hw1] & _). destruct (same_window _ _ _ _ _ Hwf Hwf1 Hw Hw1) as [E1 E2].
  assert (watermarkOf w1 = watermarkOf w) as Ewm by (unfold watermarkOf; by rewrite E1, E2).
  destruct (decided_history db1 db2 id w1 (getEligibleReadings db id)) as [Hwf2 ([w2 Hw2] & HE2 & d2 & Hd2 & Hh2)]; try done; [by rewrite Ewm..|].
  destruct (same_window _ _ _ _ _ Hwf1 Hwf2 Hw1 Hw2) as [E3 E4].
  destruct (evaluateWindow configs db2 id t') as [[db3 r']|e] eqn:He2.
  - apply window_evaluate_inv in He as (_ & _ & _ & _ & Hs & _). pose proof He2 as (_ & _ & _ & _ & Hs2 & _)%window_evaluate_inv.
    exists db3, r'. unfold replayWindow. rewrite Hd2, He2. cbn. rewrite Hs2, Hs, HE2. split; [|done].
    rewrite bool_decide_eq_true_2; [done|]. rewrite Hh2. rewrite HE2 in Hs2. by injection Hs2.
  - exfalso. revert He2. unfold evaluateWindow. rewrite Hw2. cbv zeta. unfold watermarkOf, computeWatermark in Ht.
    assert (isWindowClosed (wr_windowEnd w2) t' = true) as -> by (unfold isWindowClosed; lia). cbn [negb andb].
    destruct (getEligibleReadings db2 id); [done|]. by destruct (computeMedianConsensus _).
Qed.

(** [closeExpiredWindows], documented to close the windows that have passed
    their end and to return their ids for evaluation, returns none in any history of
    the service: it lists the windows with status "closed", and no operation of the
    service gives a window that status. *)
Theorem expired_windows_not_returned (db : Tables) (feedId : string) (Hr : rtc anyStep emptyTables db) :
  closeExpiredWindows db feedId = [].
Proof.
  assert (wfTables db) as [Hwf _ _ _ Hk] by (eapply windows_reachable_wf; [apply windows_empty_wf|done]).
  unfold closeExpiredWindows, getClosedUnevaluatedWindows. rewrite filter_none; [done|]. apply Forall_forall.
  intros [id w] Hin [_ Hc]. cbn in Hc. apply jm_in_get in Hin; [|done]. destruct (Hwf _ _ Hin) as [_ _ _ [[Hs _]|[Hs _]]]; congruence.
Qed.
End Histories.

(** * The median of stored values *)
Section Median.
Context `{JsHost} `{Postgres} `{!PostgresLaws}.
Variable configs : list FeedWindowConfig.

(** The driver returns a stored NUMERIC as text, and the median of an even
    number of readings adds the two middle ones with [+]: it concatenates them, the
    text is not a number, and the decision of every window with an even, non-zero
    number of eligible readings is NaN, whatever the readings were. *)
Theorem even_window_is_nan (db db' : Tables) (id : string) (t : Z) (r : ConsensusResult)
    (Hr : rtc (anyStep configs) emptyTables db) (He : evaluateWindow configs db id t = Ok (db', r))
    (Hne : getEligibleReadings db id ≠ []) (Heven : (length (getEligibleReadings db id) mod 2 = 0)%nat) :
  cr_value r = VNum nan.
Proof.
  assert (wfTables configs db) as [_ Hwf _ _ _] by (eapply windows_reachable_wf; [apply windows_empty_wf|done]).
  apply window_evaluate_inv in He as (_ & _ & _ & _ & Hs & _). apply (f_equal (fun x => x.1.1.1)) in Hs. unfold summaryOf, summary in Hs. cbn [fst] in Hs. rewrite Hs. clear Hs.
  set (rs := getEligibleReadings db id) in *.
  assert (forall x, x ∈ sort_by valueLe rs -> numericText (String.list_ascii_of_string (rr_value x))) as Hnum.
  { intros x [_ Hx]%elem_of_sort_by%elem_of_sort_by%list_elem_of_filter. destruct (Hwf x Hx) as [_ _ _ [v Hv]]. by eapply stored_text. }
  assert (length (sort_by valueLe rs) = length rs) as Hl by apply sort_by_length.
  assert (0 < length rs)%nat as Hpos by (destruct rs; [done|cbn; lia]).
  assert (forall i, (i < length rs)%nat -> nth i (sort_by valueLe rs) emptyReading ∈ sort_by valueLe rs) as Hnth.
  { intros i Hi. apply list_elem_of_In, nth_In. lia. }
  assert (match rs with [] => (VNum 0%float, "low") | _ => computeMedianConsensus rs end = computeMedianConsensus rs) as -> by by destruct rs.
  unfold computeMedianConsensus. cbn [fst]. rewrite Hl, Heven. cbn [Nat.eqb]. unfold toNumber. rewrite list_ascii_append.
  rewrite concatenated_values; [done| |]; apply Hnum, Hnth; pose proof (Nat.div_mod_eq (length rs) 2); lia.
Qed.
End Median.

(** * Witnesses *)

(** A column that holds integers; enough for the examples. *)
Definition demoPg : Postgres := {|
  storeNumeric v := match round_to_Z v with
    | Some z => if Z.abs z <? 10 ^ 14 then Some (String.string_of_list_ascii ((if z <? 0 then [c_minus] else []) ++ nat_text (Z.abs z) ++ c_dot :: digits 6 0)) else None
    | None => None end;
  collateLe := string_leb |}.

#[global] Instance demoPg_laws : @PostgresLaws demoPg.
Proof.
  intros v t. cbn. destruct (round_to_Z v) as [z|]; [|done]. destruct (_ <? _); [|done]. intros [= <-].
  rewrite String.list_ascii_of_string_of_list_ascii. right. destruct (nat_text_spec (Z.abs z) ltac:(lia)) as (H1 & H2 & _).
  exists (z <? 0), (nat_text (Z.abs z)), (digits 6 0). split_and!; try done.
Qed.

Definition demoConfigs : list FeedWindowConfig := [mkFeedWindow "Flight" 30000 5000 CarryNext false].
Definition demoIn (source : string) (value : num) (ts : Z) : Reading := mkIncoming "Flight" (Some source) value "low" "" (Some ts).

Definition runIngest (db : Tables) (id : string) (r : Reading) (t : Z) : Tables :=
  match @ingest demoPg demoConfigs db id r t with Ok (db', _) => db' | Err _ => db end.
Definition runEvaluate (db : Tables) (id : string) (t : Z) : Tables :=
  match @evaluateWindow demoHost demoPg demoConfigs db id t with Ok (db', _) => db' | Err _ => db end.

Definition demoWindow : string := "Flight:1970-01-01T00:01:00.000Z".
Definition demoOne : Tables := runIngest emptyTables "r1" (demoIn "a" 7 61000) 62000.
Definition demoDecided : Tables := runEvaluate demoOne demoWindow 91000.
Definition demoLater : Tables := runIngest demoDecided "r3" (demoIn "b" 9 61000) 95001.
Definition demoTwo : Tables := runIngest demoOne "r2" (demoIn "b" 8 61500) 62000.

Abbreviation demoStep := (@anyStep demoHost demoPg demoConfigs).

Lemma demoOne_reachable : rtc demoStep emptyTables demoOne.
Proof.
  apply rtc_once. exists 62000. eapply (step_ingest demoConfigs 62000 emptyTables "r1" (demoIn "a" 7 61000)).
  vm_compute. reflexivity.
Qed.

Lemma demoTwo_reachable : rtc demoStep emptyTables demoTwo.
Proof.
  eapply rtc_r; [apply demoOne_reachable|]. exists 62000.
  eapply (step_ingest demoConfigs 62000 demoOne "r2" (demoIn "b" 8 61500)). vm_compute. reflexivity.
Qed.

Lemma window_assignment_witness : exists b, computeWindowBounds "Flight" 61000 30000 = Ok b ∧ wb_windowStart b <= 61000 < wb_windowEnd b.
Proof.
  eexists. split; [vm_compute; reflexivity|].
  eapply (window_assignment "Flight" "Flight" 61000 61000 30000 30000); [lia|vm_compute; reflexivity..].
Defined.

Lemma window_tables_wf_witness : @wfTables demoPg demoConfigs demoTwo ∧ length (tb_readings demoTwo) = 2%nat.
Proof. split; [apply (@window_tables_wf demoHost demoPg demoConfigs); apply demoTwo_reachable|vm_compute; reflexivity]. Defined.

Lemma expired_windows_not_returned_witness :
  closeExpiredWindows demoTwo "Flight" = [] ∧ (wr_status <$> getWindow demoTwo demoWindow) = Some WOpen.
Proof. split; [apply (@expired_windows_not_returned demoHost demoPg demoConfigs); apply demoTwo_reachable|vm_compute; reflexivity]. Defined.

Lemma decision_final_after_watermark_witness : ∃ db3 r',
  @replayWindow demoHost demoPg demoConfigs demoLater demoWindow 95002 = Ok (db3, (r', true)) ∧ cr_value r' = VText "7.000000".
Proof.
  edestruct (@decision_final_after_watermark demoHost demoPg demoConfigs demoOne demoDecided demoLater demoWindow 91000 95002)
    as (db3 & r' & Hr & Hs).
  - apply demoOne_reachable.
  - vm_compute. reflexivity.
  - vm_compute. reflexivity.
  - vm_compute. discriminate.
  - vm_compute. reflexivity.
  - apply rtc_once. exists 95001. split; [vm_compute; reflexivity|].
    eapply (@step_ingest demoHost demoPg demoConfigs 95001 demoDecided "r3" (demoIn "b" 9 61000)). vm_compute. reflexivity.
  - vm_compute. reflexivity.
  - exists db3, r'. split; [exact Hr|]. by injection Hs.
Defined.

Lemma even_window_is_nan_witness : ∃ db' r,
  @evaluateWindow demoHost demoPg demoConfigs demoTwo demoWindow 91000 = Ok (db', r) ∧ cr_value r = VNum nan.
Proof.
  eexists _, _. split; [vm_compute; reflexivity|].
  eapply (@even_window_is_nan demoHost demoPg demoPg_laws demoConfigs demoTwo _ demoWindow 91000);
    [apply demoTwo_reachable|vm_compute; reflexivity|vm_compute; discriminate|vm_compute; reflexivity].
Defined.

(** Between the end of a window and its watermark a decision is not final: a late
    reading of a feed that carries late readings joins the window that was decided,
    and replaying it overwrites the decision and reports a mismatch. *)
Lemma late_reading_rewrites_decision :
  let db := runIngest (runIngest demoDecided "r2" (demoIn "b" 1 61000) 92000) "r3" (demoIn "c" 2 61000) 92000 in
  (dr_value <$> getDecision db demoWindow) = Some (VText "7.000000") ∧
  match @replayWindow demoHost demoPg demoConfigs db demoWindow 93000 with
  | Ok (db', (r, hashMatch)) => hashMatch = false ∧ (dr_value <$> getDecision db' demoWindow) = Some (VText "2.000000")
  | Err _ => False
  end.
Proof. vm_compute. done. Qed.

(** A value the column refuses is reported as a duplicate. *)
Lemma refused_value_reported_duplicate :
  match @ingest demoPg demoConfigs emptyTables "r1" (demoIn "a" infinity 61000) 62000 with
  | Ok (db, r) => ig_status r = Duplicate ∧ tb_readings db = []
  | Err _ => False
  end.
Proof. vm_compute. done. Qed.
