(* ===== verification/EventHandlers.v ===== *)
(** Projection of on-chain contract events into the database
    (src/stellar/handlers, and the statements of src/policy/policy.repository.ts,
    src/pool/lp-position.repository.ts, src/claim/claim.repository.ts and
    src/stellar/indexer-cursor.repository.ts the handlers and the indexer issue).

    An event value is what [scValToNative] returned.  Every statement is one query:
    it may fail ([fails], by the number of the query), and the tables enforce the
    CHECK constraints of src/db/migrations/001_add_check_constraints.sql.  Statements
    are not grouped in transactions, as in the source. *)

From stdpp Require Import base list strings.
From Stdlib Require Import ZArith Lia Ascii Floats SpecFloat.
From S2P Require Import Prelude Decimal JsNum JsParse JsDate Canonical.

#[local] Open Scope Z_scope.

(** * Decoded values *)

(** [NOther]: any other value (a boolean, a buffer), with its truthiness and its
    [toString]. *)
Inductive native :=
| NStr (s : string) | NNum (n : num) | NBig (z : Z) | NArr (l : list native) | NObj (fields : list (string * native))
| NNull | NOther (truthy : bool) (shown : string).

Inductive Topic := POLICY_PURCHASED | CAPITAL_PROVIDED | CAPITAL_WITHDRAWN | CLAIM_PROCESSED.
Definition EVENT_TOPICS : list (string * Topic) :=
  [("policy_purchased", POLICY_PURCHASED); ("capital_provided", CAPITAL_PROVIDED);
   ("capital_withdrawn", CAPITAL_WITHDRAWN); ("claim_processed", CLAIM_PROCESSED)].

(** The names [in] finds on every object literal, through its prototype. *)
Definition OBJECT_PROTOTYPE : list string :=
  ["constructor"; "__defineGetter__"; "__defineSetter__"; "hasOwnProperty"; "__lookupGetter__"; "__lookupSetter__";
   "isPrototypeOf"; "propertyIsEnumerable"; "toString"; "valueOf"; "__proto__"; "toLocaleString"].

Definition inTopicSet (t : string) : bool := jm_has EVENT_TOPICS t || bool_decide (t ∈ OBJECT_PROTOTYPE).
Definition asText (t : native) : option string := match t with NStr s => Some s | _ => None end.

Definition extractEventTopicName (topics : list native) : option string :=
  match list_find (fun s => inTopicSet s = true) (omap asText topics) with
  | Some (_, s) => Some s
  | None => last (omap asText topics)
  end.

Definition typeOf (v : option native) : string :=
  match v with
  | None => "undefined" | Some (NStr _) => "string" | Some (NNum _) => "number" | Some (NBig _) => "bigint"
  | Some (NArr _) | Some (NObj _) | Some NNull => "object" | Some (NOther _ _) => "object"
  end.

(** [Math.trunc] of a finite number. *)
Definition truncToZ (x : num) : option Z :=
  match Prim2SF x with
  | S754_finite s m e =>
      let a := if 0 <=? e then Z.pos m * 2 ^ e else Z.pos m / 2 ^ (- e) in Some (if s then - a else a)
  | S754_zero _ => Some 0
  | _ => None
  end.

(** [BigInt(text)]: an empty text is 0; a signed decimal, or an unsigned literal with
    a radix prefix. *)
Definition bigIntOfText (s0 : text) : option Z :=
  let s := trim s0 in
  match s with
  | [] => Some 0
  | z :: c :: d :: r =>
      match (if bool_decide (z = c_zero) then radix_of c else None) with
      | Some radix => radix_val radix 0 (d :: r)
      | None => let '(neg, w) := drop_sign s in
                if all_digits w && negb (bool_decide (w = [])) then Some (if neg then - dec_val w else dec_val w) else None
      end
  | _ => let '(neg, w) := drop_sign s in
         if all_digits w && negb (bool_decide (w = [])) then Some (if neg then - dec_val w else dec_val w) else None
  end.

Section Decode.
Context `{JsHost}.

Definition asBigInt (v : option native) (field : string) : res string Z :=
  match v with
  | Some (NBig z) => Ok z
  | Some (NNum n) => match truncToZ n with Some z => Ok z | None => Err "The number cannot be converted to a BigInt because it is not an integer" end
  | Some (NStr s) =>
      if bool_decide (s = "") then Err ("Expected bigint-compatible value for " +:+ field +:+ ", got string")
      else match bigIntOfText (String.list_ascii_of_string s) with Some z => Ok z | None => Err ("Cannot convert " +:+ s +:+ " to a BigInt") end
  | _ => Err ("Expected bigint-compatible value for " +:+ field +:+ ", got " +:+ typeOf v)
  end.

Fixpoint showNative (v : native) : string :=
  match v with
  | NStr s => s
  | NNum n => numToString n
  | NBig z => showZ z
  | NArr l => joinWith "," (map (fun x => match x with NNull => "" | _ => showNative x end) l)
  | NObj _ => "[object Object]"
  | NNull => "null"
  | NOther _ s => s
  end.

Definition asString (v : option native) (field : string) : res string string :=
  match v with
  | Some (NStr s) => Ok s
  | Some (NNum n) => Ok (numToString n)
  | Some (NBig z) => Ok (showZ z)
  | Some (NArr l) => Ok (showNative (NArr l))
  | Some (NObj l) => Ok (showNative (NObj l))
  | Some (NOther true s) => Ok s
  | _ => Err ("Expected string for " +:+ field +:+ ", got " +:+ typeOf v)
  end.

Definition asNumber (v : option native) (field : string) : res string num :=
  match v with
  | Some (NNum n) => Ok n
  | Some (NBig z) => Ok (num_of_Z z)
  | Some (NStr s) => if bool_decide (s = "") then Err ("Expected number for " +:+ field +:+ ", got string") else Ok (toNumber s)
  | _ => Err ("Expected number for " +:+ field +:+ ", got " +:+ typeOf v)
  end.

Definition asRecord (v : native) : res string (list (string * native)) :=
  match v with
  | NObj fields => Ok fields
  | _ => Err ("Expected event value object, got " +:+ typeOf (Some v))
  end.

Definition coverageByName : list (string * Z) :=
  [("StablecoinDepeg", 0); ("stablecoin_depeg", 0); ("MarketCrash", 1); ("market_crash", 1); ("LiquidationShield", 2);
   ("liquidation_shield", 2); ("SmartContractRisk", 3); ("smart_contract_risk", 3); ("FlightDelay", 4); ("flight_delay", 4)].

(** A name of [Object.prototype] yields a function, which no statement accepts. *)
Fixpoint coverageOrdinal (v : native) : res string num :=
  match v with
  | NNum n => Ok n
  | NBig z => Ok (num_of_Z z)
  | NStr s =>
      match jm_get coverageByName s with
      | Some i => Ok (num_of_Z i)
      | None =>
          if bool_decide (s ∈ OBJECT_PROTOTYPE) then Err "Unknown coverage type ordinal"
          else let n := toNumber s in if PrimFloat.is_nan n then Err "Unable to parse coverage_type" else Ok n
      end
  | NArr (x :: _) => coverageOrdinal x
  | _ => Err "Unable to parse coverage_type"
  end.
Definition asCoverageTypeOrdinal (v : option native) : res string num :=
  match v with Some x => coverageOrdinal x | None => Err "Unable to parse coverage_type" end.
End Decode.

(** [a ?? b]. *)
Definition orElse (a b : option native) : option native := match a with None | Some NNull => b | _ => a end.

(** * Tables *)

Definition COVERAGE_TYPE_DB : list string :=
  ["stablecoin_depeg"; "market_crash"; "liquidation_shield"; "smart_contract_risk"; "flight_delay"].

(** [COVERAGE_TYPE_DB[n]]: [undefined] unless [n] is one of the indices. *)
Definition toCoverageTypeDb (n : num) : res string string :=
  match list_find (fun p => neq n (num_of_Z p.1) = true) (zip [0; 1; 2; 3; 4] COVERAGE_TYPE_DB) with
  | Some (_, (_, s)) => Ok s
  | None => Err "Unknown coverage type ordinal"
  end.

Record PolicyRow := mkPolicy {
  pl_id : string; pl_holder : string; pl_coverageType : string; pl_coverageAmount : Z; pl_premium : Z;
  pl_durationDays : num; pl_expiresAt : Z; pl_isActive : bool; pl_createdAt : Z }.
Record PositionRow := mkPosition { ps_shares : Z; ps_usdcDeposited : Z; ps_premiumEarned : Z }.
Record ClaimRow := mkClaim {
  cl_policyUuid : string; cl_holder : string; cl_coverageType : string; cl_payout : Z; cl_triggerValue : num;
  cl_triggerSource : string; cl_txHash : string }.
Record ProcessedRow := mkProcessed {
  pe_eventId : string; pe_ledger : Z; pe_topic : string; pe_contractId : string; pe_txHash : option string }.

Record Db := mkDb {
  db_policies : list (string * PolicyRow);
  db_positions : list (string * PositionRow);
  db_claims : list ClaimRow;
  db_processed : list ProcessedRow;
  db_cursor : option (Z * string);
  db_queries : nat }.
Definition emptyDb : Db := mkDb [] [] [] [] None 0.

Inductive Failure :=
| DbError (message : string) | DecodeError (message : string) | RpcFailure (message : string)
| CursorOutsideRetentionWindow (cursorLedger oldestLedger latestLedger : Z) | OutOfFuel.

(** ** Statements *)

Definition M (A : Type) : Type := Db -> res Failure A * Db.
#[global] Instance M_ret : MRet M := fun A a db => (Ok a, db).
#[global] Instance M_bind : MBind M := fun A B f m db =>
  match m db with (Ok a, db') => f a db' | (Err e, db') => (Err e, db') end.

Definition throw {A} (e : Failure) : M A := fun db => (Err e, db).
(** A pure computation that may throw. *)
Definition lift {A} (r : res string A) : M A := match r with Ok a => mret a | Err m => throw (DecodeError m) end.

Definition policyChecks (p : PolicyRow) : bool :=
  (0 <? pl_coverageAmount p) && (0 <? pl_premium p) && nle 1 (pl_durationDays p) && nle (pl_durationDays p) 365
  && (pl_createdAt p <? pl_expiresAt p).
Definition claimChecks (c : ClaimRow) : bool := (0 <? cl_payout c) && negb (nlt (cl_triggerValue c) 0).
Definition positionChecks (p : PositionRow) : bool :=
  (0 <=? ps_shares p) && (0 <=? ps_usdcDeposited p) && (0 <=? ps_premiumEarned p).

Section Statements.
(** Whether the query with this number fails, and the time of the database. *)
Variable fails : nat -> bool.
Variable now : Z.

Definition query {A} (f : Db -> res string (A * Db)) : M A := fun db =>
  let db1 := mkDb (db_policies db) (db_positions db) (db_claims db) (db_processed db) (db_cursor db) (S (db_queries db)) in
  if fails (db_queries db) then (Err (DbError "query failed"), db1)
  else match f db1 with Ok (a, db2) => (Ok a, db2) | Err m => (Err (DbError m), db1) end.

Definition setPolicies (db : Db) x := mkDb x (db_positions db) (db_claims db) (db_processed db) (db_cursor db) (db_queries db).
Definition setPositions (db : Db) x := mkDb (db_policies db) x (db_claims db) (db_processed db) (db_cursor db) (db_queries db).
Definition setClaims (db : Db) x := mkDb (db_policies db) (db_positions db) x (db_processed db) (db_cursor db) (db_queries db).
Definition setProcessed (db : Db) x := mkDb (db_policies db) (db_positions db) (db_claims db) x (db_cursor db) (db_queries db).
Definition setCursor (db : Db) x := mkDb (db_policies db) (db_positions db) (db_claims db) (db_processed db) x (db_queries db).

(** An invalid date is refused by the database. *)
Definition upsertFromChain (newId onChainPolicyId holder : string) (coverageType : num) (coverageAmount premium : Z)
    (durationDays : num) (expiresAt : option Z) (isActive : bool) : M string :=
  ct ← lift (toCoverageTypeDb coverageType);
  query (fun db =>
    match expiresAt with
    | None => Err "invalid input syntax for type timestamp with time zone"
    | Some e =>
        let row := mkPolicy newId holder ct coverageAmount premium durationDays e isActive now in
        if negb (policyChecks row) then Err "violates check constraint on policies"
        else match jm_get (db_policies db) onChainPolicyId with
        | None => Ok (newId, setPolicies db (jm_set (db_policies db) onChainPolicyId row))
        | Some old =>
            let row' := mkPolicy (pl_id old) holder ct coverageAmount premium durationDays e isActive (pl_createdAt old) in
            if negb (policyChecks row') then Err "violates check constraint on policies"
            else Ok (pl_id old, setPolicies db (jm_set (db_policies db) onChainPolicyId row'))
        end
    end).

Definition findIdByOnChainPolicyId (onChainPolicyId : string) : M (option string) :=
  query (fun db => Ok (pl_id <$> jm_get (db_policies db) onChainPolicyId, db)).

Definition deactivateByOnChainPolicyId (onChainPolicyId : string) : M unit :=
  query (fun db => Ok (tt,
    match jm_get (db_policies db) onChainPolicyId with
    | None => db
    | Some p => setPolicies db (jm_set (db_policies db) onChainPolicyId
        (mkPolicy (pl_id p) (pl_holder p) (pl_coverageType p) (pl_coverageAmount p) (pl_premium p) (pl_durationDays p)
           (pl_expiresAt p) false (pl_createdAt p)))
    end)).

Definition applyProvide (provider : string) (usdcAmount sharesDelta : Z) : M unit :=
  query (fun db =>
    let row := mkPosition sharesDelta usdcAmount 0 in
    let row' := match jm_get (db_positions db) provider with
      | None => row
      | Some p => mkPosition (ps_shares p + sharesDelta) (ps_usdcDeposited p + usdcAmount) (ps_premiumEarned p)
      end in
    if negb (positionChecks row && positionChecks row') then Err "violates check constraint on lp_positions"
    else Ok (tt, setPositions db (jm_set (db_positions db) provider row'))).

Definition applyWithdraw (provider : string) (usdcAmount sharesDelta : Z) : M unit :=
  query (fun db => Ok (tt, setPositions db (jm_set (db_positions db) provider
    match jm_get (db_positions db) provider with
    | None => mkPosition 0 0 0
    | Some p => mkPosition (Z.max (ps_shares p - sharesDelta) 0) (Z.max (ps_usdcDeposited p - usdcAmount) 0) (ps_premiumEarned p)
    end))).

Definition insertFromChain (policyUuid holder : string) (coverageType : num) (payout : Z) (triggerValue : num)
    (triggerSource txHash : string) : M unit :=
  ct ← lift (toCoverageTypeDb coverageType);
  query (fun db =>
    if bool_decide (txHash ∈ map cl_txHash (db_claims db)) then Ok (tt, db)
    else
      let row := mkClaim policyUuid holder ct payout triggerValue triggerSource txHash in
      if negb (claimChecks row) then Err "violates check constraint on claims"
      else Ok (tt, setClaims db (db_claims db ++ [row]))).

(** The cursor row, [(0, "")] before the first save. *)
Definition getCursor : M (Z * string) := query (fun db => Ok (default (0, "") (db_cursor db), db)).
Definition saveCursor (lastLedger : Z) (lastEventId : string) : M unit :=
  query (fun db => Ok (tt, setCursor db (Some (lastLedger, lastEventId)))).
Definition hasProcessed (eventId : string) : M bool :=
  query (fun db => Ok (bool_decide (eventId ∈ map pe_eventId (db_processed db)), db)).
Definition tryMarkProcessed (row : ProcessedRow) : M bool :=
  query (fun db =>
    if bool_decide (pe_eventId row ∈ map pe_eventId (db_processed db)) then Ok (false, db)
    else Ok (true, setProcessed db (db_processed db ++ [row]))).

(** * Handlers *)

Record DecodedContractEvent := mkEvent {
  ev_eventId : string; ev_ledger : Z; ev_ledgerClosedAt : string; ev_contractId : string; ev_txHash : string;
  ev_topics : list native; ev_value : native }.

(** [new Date(seconds * 1000)], [None] when invalid. *)
Definition dateOfSeconds (seconds : num) : option Z :=
  t ← truncToZ (seconds * 1000)%float; if validTime t then Some t else None.

Section Handlers.
Context `{JsHost}.

(** [newId]: the primary key the database generates for a policy row. *)
Definition handlePolicyPurchased (newId : string) (event : DecodedContractEvent) : M unit :=
  v ← lift (asRecord (ev_value event));
  let field := jm_get v in
  onChainPolicyId ← lift (asString (orElse (field "policy_id") (field "policyId")) "policy_id");
  holder ← lift (asString (field "holder") "holder");
  coverageType ← lift (asCoverageTypeOrdinal (orElse (field "coverage_type") (field "coverageType")));
  coverageAmount ← lift (asBigInt (orElse (field "coverage_amount") (field "coverageAmount")) "coverage_amount");
  premium ← lift (asBigInt (field "premium") "premium");
  durationDays ← lift (asNumber (orElse (field "duration_days") (field "durationDays")) "duration_days");
  expiresAtSec ← lift (asNumber (orElse (field "expires_at") (field "expiresAt")) "expires_at");
  _ ← upsertFromChain newId onChainPolicyId holder coverageType coverageAmount premium durationDays (dateOfSeconds expiresAtSec) true;
  mret tt.

Definition capitalFlow (event : DecodedContractEvent) : M (string * Z * Z) :=
  v ← lift (asRecord (ev_value event));
  let field := jm_get v in
  provider ← lift (asString (field "provider") "provider");
  usdcAmount ← lift (asBigInt (orElse (orElse (field "usdc_amount") (field "amount")) (field "usdcAmount")) "usdc_amount");
  shares ← lift (asBigInt (field "shares") "shares");
  mret (provider, usdcAmount, shares).

Definition handleCapitalProvided (event : DecodedContractEvent) : M unit :=
  '(provider, usdcAmount, shares) ← capitalFlow event; applyProvide provider usdcAmount shares.
Definition handleCapitalWithdrawn (event : DecodedContractEvent) : M unit :=
  '(provider, usdcAmount, shares) ← capitalFlow event; applyWithdraw provider usdcAmount shares.

Definition handleClaimProcessed (newId : string) (event : DecodedContractEvent) : M unit :=
  v ← lift (asRecord (ev_value event));
  let field := jm_get v in
  onChainPolicyId ← lift (asString (orElse (field "policy_id") (field "policyId")) "policy_id");
  holder ← lift (asString (field "holder") "holder");
  payout ← lift (asBigInt (field "payout") "payout");
  coverageType ← lift (asCoverageTypeOrdinal (orElse (field "coverage_type") (field "coverageType")));
  triggerValue ← lift (asNumber (orElse (orElse (field "trigger_value") (field "triggerValue")) (Some (NNum 0))) "trigger_value");
  triggerSource ← lift (asString (orElse (orElse (field "trigger_source") (field "triggerSource")) (Some (NStr "on_chain"))) "trigger_source");
  found ← findIdByOnChainPolicyId onChainPolicyId;
  (* An empty id is falsy as well. *)
  policyUuid ← match found with
    | Some id => if bool_decide (id = "") then upsertFromChain newId onChainPolicyId holder coverageType 0 0 0 (Some 0) false else mret id
    | None => upsertFromChain newId onChainPolicyId holder coverageType 0 0 0 (Some 0) false
    end;
  _ ← insertFromChain policyUuid holder coverageType payout triggerValue triggerSource (ev_txHash event);
  deactivateByOnChainPolicyId onChainPolicyId.
End Handlers.
End Statements.
