(* ===== verification/EventIndexer.v ===== *)
(** The Soroban event indexer (src/stellar/event-indexer.service.ts): draining the
    pages of [getEvents] from a persisted cursor, dispatching to the handlers of file
    EventHandlers, backfill, and status.

    The RPC node is the parameter [rpc], one function of the request for the duration
    of a poll; contract values arrive decoded.  One poll reads the clock once. *)

From stdpp Require Import base list strings sorting sets.
From Stdlib Require Import ZArith Lia Ascii Floats.
From S2P Require Import Prelude Decimal JsNum JsParse JsDate Canonical EventHandlers.

#[local] Open Scope Z_scope.

(** * Data *)

Record RawRpcEvent := mkRaw {
  re_id : string; re_ledger : Z; re_ledgerClosedAt : option string; re_contractId : string; re_txHash : option string;
  re_topics : list native; re_value : option native; re_pagingToken : option string }.

Record Request := mkRequest { rq_contractIds : list string; rq_startLedger : option Z; rq_cursor : option string; rq_limit : Z }.
Record Response := mkResponse {
  rs_events : list RawRpcEvent; rs_cursor : option string; rs_latestLedger : option Z; rs_oldestLedger : option Z }.

Record EventIndexerConfigSlice := mkConfig {
  ic_enabled : bool; ic_pollIntervalMs : Z; ic_lagAlertLedgers : Z; ic_pageLimit : Z; ic_contractIds : list string }.

Record Service := mkService {
  sv_running : bool; sv_eventsProcessed : Z; sv_lastProcessedAt : option Z; sv_lastLedger : Z; sv_lastEventId : string;
  sv_latestRpcLedger : option Z; sv_retentionError : option string; sv_lastPollStartedAt : Z }.
Definition newService : Service := mkService false 0 None 0 "" None None 0.

Record EventIndexerStatus := mkStatus {
  is_enabled : bool; is_running : bool; is_eventsProcessed : Z; is_lagLedgers : option Z; is_lastProcessedAt : option string;
  is_lastLedger : Z; is_lastEventId : string; is_latestRpcLedger : option Z; is_retentionError : option string; is_lagAlert : bool }.

(** * Retention errors of the node *)

Fixpoint contains (w s : text) : bool :=
  bool_decide (take (length w) s = w) || match s with [] => false | _ :: r => contains w r end.

(** What follows the first occurrence of [w]. *)
Fixpoint after (w s : text) : option text :=
  if bool_decide (take (length w) s = w) then Some (drop (length w) s)
  else match s with [] => None | _ :: r => after w r end.

Definition lowerAscii (c : ascii) : ascii :=
  let n := N_of_ascii c in if ((65 <=? n)%N && (n <=? 90)%N) then ascii_of_N (n + 32) else c.
Definition lowerText (s : string) : text := map lowerAscii (String.list_ascii_of_string s).
Definition word (s : string) : text := String.list_ascii_of_string s.

Fixpoint untilNewline (s : text) : text :=
  match s with [] => [] | c :: r => if bool_decide (N_of_ascii c = 10%N ∨ N_of_ascii c = 13%N) then [] else c :: untilNewline r end.

(** [/outside.*histor/]: [.] does not match a line break. *)
Fixpoint outsideHistory (s : text) : bool :=
  (bool_decide (take 7 s = word "outside") && contains (word "histor") (untilNewline (drop 7 s)))
  || match s with [] => false | _ :: r => outsideHistory r end.

Definition isRetentionMessage (message : string) : bool :=
  let s := lowerText message in
  contains (word "startledger") s || contains (word "oldest ledger") s || contains (word "retention") s || outsideHistory s.

Fixpoint skipToDigit (s : text) : text :=
  match s with [] => [] | c :: r => if is_digit c then s else skipToDigit r end.

(** [/oldest(?:Ledger)?[^\d]*(\d+)/i]: the first digits after the first occurrence. *)
Definition numberAfter (w : string) (message : string) : Z :=
  match after (word w) (lowerText message) with
  | Some r => match (span_digits (skipToDigit r)).1 with [] => 0 | d => dec_val d end
  | None => 0
  end.

Definition mapRetentionRpcError (message : string) (cursorLedger : Z) : option Failure :=
  if isRetentionMessage message
  then Some (CursorOutsideRetentionWindow cursorLedger (numberAfter "oldest" message) (numberAfter "latest" message)) else None.

Definition retentionMessage (cursorLedger oldest latest : Z) : string :=
  "Indexer cursor ledger " +:+ showZ cursorLedger +:+ " is outside the Soroban RPC retention window (oldestLedger=" +:+
  showZ oldest +:+ ", latestLedger=" +:+ showZ latest +:+ "). Re-backfill from a ledger >= " +:+ showZ oldest +:+
  "; do not silently skip.".

Definition truthy (s : option string) : option string :=
  match s with Some t => if bool_decide (t = "") then None else Some t | None => None end.

Definition nextPageCursor (response : Response) (events : list RawRpcEvent) : option string :=
  match truthy (rs_cursor response) with
  | Some c => Some c
  | None => e ← last events; Some (default (re_id e) (re_pagingToken e))
  end.

Definition isKnownTopic (name : string) : bool := jm_has EVENT_TOPICS name.

Definition lowerThan (a b : string) : bool := negb (string_leb b a).

Definition shouldSkipAlreadySeen (raw : RawRpcEvent) (cursor : Z * string) : bool :=
  let ledger := re_ledger raw in
  if (cursor.1 =? 0) || bool_decide (cursor.2 = "") then false
  else if ledger <? cursor.1 then true
  else if cursor.1 <? ledger then false
  else string_leb (re_id raw) cursor.2.

(** * The service *)

Definition N (A : Type) : Type := Service * Db -> res Failure A * (Service * Db).
#[global] Instance N_ret : MRet N := fun A a s => (Ok a, s).
#[global] Instance N_bind : MBind N := fun A B f m s =>
  match m s with (Ok a, s') => f a s' | (Err e, s') => (Err e, s') end.
Definition raise {A} (e : Failure) : N A := fun s => (Err e, s).
Definition onDb {A} (m : M A) : N A := fun s => let '(r, db) := m s.2 in (r, (s.1, db)).
Definition modify (f : Service -> Service) : N unit := fun s => (Ok tt, (f s.1, s.2)).

Section Indexer.
Context `{JsHost}.
Variable fails : nat -> bool.
Variable now : Z.
(** Primary keys the database generates. *)
Variable genId : nat -> string.
Variable rpc : Request -> res string Response.
(** [getLatestLedger]: absent, or the sequence it returns or its error. *)
Variable latestLedger : option (res string Z).
Variable cfg : EventIndexerConfigSlice.

Definition dispatch (topicName : string) (event : DecodedContractEvent) : M unit := fun db =>
  match jm_get EVENT_TOPICS topicName with
  | Some POLICY_PURCHASED => handlePolicyPurchased fails now (genId (db_queries db)) event db
  | Some CAPITAL_PROVIDED => handleCapitalProvided fails event db
  | Some CAPITAL_WITHDRAWN => handleCapitalWithdrawn fails event db
  | Some CLAIM_PROCESSED => handleClaimProcessed fails now (genId (db_queries db)) event db
  | None => (Ok tt, db)
  end.

Definition decodedEvent (raw : RawRpcEvent) (topicName : string) : DecodedContractEvent :=
  mkEvent (re_id raw) (re_ledger raw) (default "" (re_ledgerClosedAt raw)) (re_contractId raw) (default "" (re_txHash raw))
    (match re_topics raw with [] => [NStr topicName] | ts => ts end) (default NNull (re_value raw)).

Definition countProcessed (sv : Service) : Service :=
  mkService (sv_running sv) (sv_eventsProcessed sv + 1) (Some now) (sv_lastLedger sv) (sv_lastEventId sv)
    (sv_latestRpcLedger sv) (sv_retentionError sv) (sv_lastPollStartedAt sv).

(** [if (topicName && ...)]: an empty topic name is falsy. *)
Definition projectRaw (raw : RawRpcEvent) : M bool :=
  seen ← hasProcessed fails (re_id raw);
  if (seen : bool) then mret false
  else
    let topicName := extractEventTopicName (re_topics raw) in
    _ ← match topicName with
        | Some t => if negb (bool_decide (t = "")) && isKnownTopic t then dispatch t (decodedEvent raw t) else mret tt
        | None => mret tt
        end;
    _ ← tryMarkProcessed fails (mkProcessed (re_id raw) (re_ledger raw) (default "unknown" topicName) (re_contractId raw) (re_txHash raw));
    mret true.

Definition processRawEvent (raw : RawRpcEvent) : N bool :=
  did ← onDb (projectRaw raw);
  if (did : bool) then _ ← modify countProcessed; mret true else mret false.

Definition noteCursor (ledger : Z) (eventId : string) (sv : Service) : Service :=
  mkService (sv_running sv) (sv_eventsProcessed sv) (Some now) ledger eventId (sv_latestRpcLedger sv) (sv_retentionError sv)
    (sv_lastPollStartedAt sv).

Definition advanceCursor (ledger : Z) (eventId : string) : N unit :=
  _ ← onDb (saveCursor fails ledger eventId); modify (noteCursor ledger eventId).

Definition fetchPage (startLedger : option Z) (cursor : option string) : N Response :=
  let request := match truthy cursor with
    | Some c => mkRequest (ic_contractIds cfg) None (Some c) (ic_pageLimit cfg)
    | None => mkRequest (ic_contractIds cfg) startLedger None (ic_pageLimit cfg)
    end in
  match rpc request with
  | Ok r => mret r
  | Err m => raise (default (RpcFailure m) (mapRetentionRpcError m (default 0 startLedger)))
  end.

Definition assertRetention (requestedStart : Z) (response : Response) : N unit :=
  match rs_oldestLedger response with
  | Some oldest =>
      if (0 <? requestedStart) && (requestedStart <? oldest)
      then raise (CursorOutsideRetentionWindow requestedStart oldest (default 0 (rs_latestLedger response)))
      else mret tt
  | None => mret tt
  end.

Definition noteLatest (response : Response) (sv : Service) : Service :=
  mkService (sv_running sv) (sv_eventsProcessed sv) (sv_lastProcessedAt sv) (sv_lastLedger sv) (sv_lastEventId sv)
    (match rs_latestLedger response with Some l => Some l | None => sv_latestRpcLedger sv end) (sv_retentionError sv) (sv_lastPollStartedAt sv).
Definition clearRetention (sv : Service) : Service :=
  mkService (sv_running sv) (sv_eventsProcessed sv) (sv_lastProcessedAt sv) (sv_lastLedger sv) (sv_lastEventId sv)
    (sv_latestRpcLedger sv) None (sv_lastPollStartedAt sv).

(** The loop over one page; returns the new resume point. *)
Fixpoint processPage (resume : Z * string) (events : list RawRpcEvent) : N (Z * string) :=
  match events with
  | [] => mret resume
  | raw :: rest =>
      if shouldSkipAlreadySeen raw resume then processPage resume rest
      else
        _ ← processRawEvent raw;
        _ ← advanceCursor (re_ledger raw) (re_id raw);
        processPage (re_ledger raw, re_id raw) rest
  end.

(** [for (;;)]: [fuel] bounds the number of pages. *)
Fixpoint drainLoop (fuel : nat) (startLedger : Z) (pageCursor : option string) (resume : Z * string) : N unit :=
  match fuel with
  | O => raise OutOfFuel
  | S fuel' =>
      response ← fetchPage (match truthy pageCursor with Some _ => None | None => Some startLedger end) pageCursor;
      _ ← assertRetention startLedger response;
      _ ← modify (fun sv => clearRetention (noteLatest response sv));
      match last (rs_events response) with
      | None => mret tt
      | Some e =>
          resume' ← processPage resume (rs_events response);
          if Z.of_nat (length (rs_events response)) <? ic_pageLimit cfg then mret tt
          else match truthy (nextPageCursor response (rs_events response)) with
          | None => mret tt
          | Some c => drainLoop fuel' (re_ledger e) (Some c) resume'
          end
      end
  end.

Definition resolveStartLedger (cursorLedger : Z) : N Z :=
  if 0 <? cursorLedger then mret cursorLedger
  else match latestLedger with
  | Some (Ok sequence) => mret sequence
  | Some (Err m) => raise (RpcFailure m)
  | None =>
      probe ← fetchPage (Some 1) None;
      mret (match rs_oldestLedger probe, rs_latestLedger probe with Some o, _ => o | None, Some l => l | None, None => 1 end)
  end.

Definition noteResume (cursor : Z * string) (sv : Service) : Service :=
  mkService (sv_running sv) (sv_eventsProcessed sv) (sv_lastProcessedAt sv) cursor.1 cursor.2 (sv_latestRpcLedger sv)
    (sv_retentionError sv) (sv_lastPollStartedAt sv).

Definition drainFromCursor (fuel : nat) : N unit :=
  cursor ← onDb (getCursor fails);
  _ ← modify (noteResume cursor);
  startLedger ← resolveStartLedger cursor.1;
  drainLoop fuel startLedger None cursor.

Definition setRunning (b : bool) (sv : Service) : Service :=
  mkService b (sv_eventsProcessed sv) (sv_lastProcessedAt sv) (sv_lastLedger sv) (sv_lastEventId sv) (sv_latestRpcLedger sv)
    (sv_retentionError sv) (sv_lastPollStartedAt sv).
Definition setRetentionError (m : string) (sv : Service) : Service :=
  mkService (sv_running sv) (sv_eventsProcessed sv) (sv_lastProcessedAt sv) (sv_lastLedger sv) (sv_lastEventId sv) (sv_latestRpcLedger sv)
    (Some m) (sv_lastPollStartedAt sv).

Definition poll (fuel : nat) (s : Service * Db) : Service * Db :=
  if negb (ic_enabled cfg) then s
  else if bool_decide (ic_contractIds cfg = []) then s
  else if sv_running s.1 then s
  else
    let '(r, (sv, db)) := drainFromCursor fuel (setRunning true s.1, s.2) in
    let sv' := match r with Err (CursorOutsideRetentionWindow c o l) => setRetentionError (retentionMessage c o l) sv | _ => sv end in
    (setRunning false sv', db).

Definition setLastPoll (t : Z) (sv : Service) : Service :=
  mkService (sv_running sv) (sv_eventsProcessed sv) (sv_lastProcessedAt sv) (sv_lastLedger sv) (sv_lastEventId sv) (sv_latestRpcLedger sv)
    (sv_retentionError sv) t.

Definition pollTick (fuel : nat) (s : Service * Db) : Service * Db :=
  if now - sv_lastPollStartedAt s.1 <? ic_pollIntervalMs cfg then s
  else poll fuel (setLastPoll now s.1, s.2).

(** * Backfill *)

Fixpoint backfillPage (events : list RawRpcEvent) (processed : Z) : N Z :=
  match events with
  | [] => mret processed
  | raw :: rest =>
      did ← processRawEvent raw;
      _ ← advanceCursor (re_ledger raw) (re_id raw);
      backfillPage rest (if (did : bool) then processed + 1 else processed)
  end.

Fixpoint backfillLoop (fuel : nat) (fromLedger toLedger : Z) (pageCursor : option string) (processed : Z) : N Z :=
  match fuel with
  | O => raise OutOfFuel
  | S fuel' =>
      response ← fetchPage (match truthy pageCursor with Some _ => None | None => Some fromLedger end) pageCursor;
      _ ← assertRetention fromLedger response;
      _ ← modify (noteLatest response);
      match last (rs_events response) with
      | None => mret processed
      | Some e =>
          processed' ← backfillPage (filter (fun r => fromLedger <= re_ledger r <= toLedger) (rs_events response)) processed;
          if (Z.of_nat (length (rs_events response)) <? ic_pageLimit cfg) || (toLedger <? re_ledger e) then mret processed'
          else match truthy (nextPageCursor response (rs_events response)) with
          | None => mret processed'
          | Some c => backfillLoop fuel' fromLedger toLedger (Some c) processed'
          end
      end
  end.

Definition backfill (fuel : nat) (fromLedger toLedger : Z) : N Z :=
  if toLedger <? fromLedger
  then raise (RpcFailure ("backfill fromLedger (" +:+ showZ fromLedger +:+ ") must be <= toLedger (" +:+ showZ toLedger +:+ ")"))
  else if bool_decide (ic_contractIds cfg = []) then raise (RpcFailure "Cannot backfill: no contract IDs configured")
  else backfillLoop fuel fromLedger toLedger None 0.

Definition getStatus (sv : Service) : res string EventIndexerStatus :=
  let lag := (fun l => Z.max 0 (l - sv_lastLedger sv)) <$> sv_latestRpcLedger sv in
  at' ← match sv_lastProcessedAt sv with Some t => (iso ← toISOString t; Ok (Some iso)) | None => Ok None end;
  Ok (mkStatus (ic_enabled cfg) (sv_running sv) (sv_eventsProcessed sv) lag at' (sv_lastLedger sv) (sv_lastEventId sv)
        (sv_latestRpcLedger sv) (sv_retentionError sv) (match lag with Some l => ic_lagAlertLedgers cfg <=? l | None => false end)).
End Indexer.

(** * Lemmas: the monad *)

Lemma N_bind_assoc {A B C} (m : N A) (f : A -> N B) (g : B -> N C) s : ((m ≫= f) ≫= g) s = (m ≫= (fun a => f a ≫= g)) s.
Proof. unfold mbind, N_bind. by destruct (m s) as [[a|e] s']. Qed.

Lemma N_bind_ext {A B} (m : N A) (f g : A -> N B) s :
  (forall a s', m s = (Ok a, s') -> f a s' = g a s') -> (m ≫= f) s = (m ≫= g) s.
Proof. intros Hfg. unfold mbind, N_bind. destruct (m s) as [[a|e] s']; auto. Qed.

Lemma N_ret_bind {A B} (a : A) (f : A -> N B) s : (mret a ≫= f) s = f a s.
Proof. done. Qed.

Section Equivalence.
Context `{JsHost}.
Variable fails : nat -> bool.
Variable now : Z.
Variable genId : nat -> string.

#[local] Abbreviation page := (processPage fails now genId).

Lemma page_app l1 l2 : forall r s, page r (l1 ++ l2) s = (page r l1 ≫= (fun r' => page r' l2)) s.
Proof.
  induction l1 as [|raw l1 IH]; intros r s; [done|]. cbn [app processPage].
  destruct (shouldSkipAlreadySeen raw r); [apply IH|]. rewrite N_bind_assoc. apply N_bind_ext. intros a s' _.
  rewrite N_bind_assoc. apply N_bind_ext. intros [] s2 _. apply IH.
Qed.

Lemma page_bind_app r l1 l2 s : (page r (l1 ++ l2) ≫= (fun _ => mret tt)) s =
  (page r l1 ≫= (fun r' => page r' l2 ≫= (fun _ => mret tt))) s.
Proof. rewrite <- N_bind_assoc. unfold mbind at 1 2, N_bind at 1 2. by rewrite page_app. Qed.

(** What a page leaves alone. *)
Definition sameNode (sv sv' : Service) : Prop :=
  sv_latestRpcLedger sv' = sv_latestRpcLedger sv ∧ sv_retentionError sv' = sv_retentionError sv.

Lemma onDb_service {A} (m : M A) s : (onDb m s).2.1 = s.1.
Proof. unfold onDb. by destruct (m s.2). Qed.

Lemma step_service raw s : sameNode s.1
  ((processRawEvent fails now genId raw ≫= (fun _ => advanceCursor fails now (re_ledger raw) (re_id raw))) s).2.1.
Proof.
  unfold processRawEvent, advanceCursor, mbind, N_bind.
  pose proof (onDb_service (projectRaw fails now genId raw) s) as E1. destruct (onDb (projectRaw fails now genId raw) s) as [[[]|e] s1]; cbn in E1 |- *.
  - pose proof (onDb_service (saveCursor fails (re_ledger raw) (re_id raw)) (countProcessed now s1.1, s1.2)) as E2.
    destruct (onDb _ _) as [[[]|e] s2]; cbn in E2 |- *; by rewrite E2, E1.
  - pose proof (onDb_service (saveCursor fails (re_ledger raw) (re_id raw)) s1) as E2.
    destruct (onDb _ s1) as [[[]|e] s2]; cbn in E2 |- *; by rewrite E2, E1.
  - by rewrite E1.
Qed.

Lemma page_service l : forall r s, sameNode s.1 (page r l s).2.1.
Proof.
  induction l as [|raw l IH]; intros r s; [done|]. cbn [processPage]. destruct (shouldSkipAlreadySeen raw r); [apply IH|].
  pose proof (step_service raw s) as Hs. rewrite <- N_bind_assoc. unfold mbind, N_bind in *.
  destruct (processRawEvent _ _ _ raw s) as [[b|e] s1]; [|exact Hs]. destruct (advanceCursor _ _ _ _ s1) as [[[]|e] s2]; [|exact Hs].
  specialize (IH (re_ledger raw, re_id raw) s2). destruct Hs as [H1 H2], IH as [H3 H4]. cbn in H1, H2. split; congruence.
Qed.

(** * An honest node

    [chain] is the list of the events of the configured contracts, in the order the
    node serves them; [tokenOf e] is the paging token that continues after [e].  The
    node retains the ledgers [oldest .. latest], refuses a start ledger outside them
    with [rejection], and looks through at most [scan] ledgers for one answer. *)
Variable rpc : Request -> res string Response.
Variable cfg : EventIndexerConfigSlice.
Variables (chain : list RawRpcEvent) (oldest latest scan : Z) (rejection : string) (tokenOf : RawRpcEvent -> string).

Definition limit : nat := Z.to_nat (ic_pageLimit cfg).

(** The part of [l] an answer that begins at ledger [from] looks at. *)
Definition scanned (from : Z) (l : list RawRpcEvent) : list RawRpcEvent := filter (fun e => re_ledger e < from + scan) l.

Definition startRequest (start : Z) : Request := mkRequest (ic_contractIds cfg) (Some start) None (ic_pageLimit cfg).
Definition tokenRequest (token : string) : Request := mkRequest (ic_contractIds cfg) None (Some token) (ic_pageLimit cfg).

(** The node returns the first [limit] events that the request selects, says what it
    retains, and hands out a token for the last event of a full page. *)
Definition serves (request : Request) (selected : list RawRpcEvent) : Prop :=
  ∃ r, rpc request = Ok r ∧ rs_events r = take limit selected ∧ rs_latestLedger r = Some latest ∧ rs_oldestLedger r = Some oldest ∧
    ((limit <= length selected)%nat -> forall e, last (rs_events r) = Some e -> nextPageCursor r (rs_events r) = Some (tokenOf e)).

Record HonestNode : Prop := {
  hn_limit : (0 < limit)%nat;
  hn_scan : 0 < scan;
  hn_token : forall e, tokenOf e ≠ "";
  hn_tip : forall e, e ∈ chain -> re_ledger e <= latest;
  hn_start : forall s, oldest <= s <= latest -> serves (startRequest s) (scanned s (filter (fun e => s <= re_ledger e) chain));
  hn_outside : forall s, s < oldest ∨ latest < s -> rpc (startRequest s) = Err rejection;
  hn_rejection : isRetentionMessage rejection = true;
  hn_after : forall pre e post, chain = pre ++ e :: post -> oldest <= re_ledger e ->
    serves (tokenRequest (tokenOf e)) (scanned (re_ledger e) post) }.

(** A page of [events], the retention of the node noted. *)
Definition noteNode (sv : Service) : Service :=
  mkService (sv_running sv) (sv_eventsProcessed sv) (sv_lastProcessedAt sv) (sv_lastLedger sv) (sv_lastEventId sv)
    (Some latest) None (sv_lastPollStartedAt sv).
Definition noted (sv : Service) : Prop := sv_latestRpcLedger sv = Some latest ∧ sv_retentionError sv = None.

Lemma noteNode_id sv : noted sv -> noteNode sv = sv.
Proof. destruct sv. intros [H1 H2]. cbn in *. by subst. Qed.

Hypothesis honest : HonestNode.

(** One round of the loop on a request that selects [selected]. *)
Lemma drainLoop_round fuel start cursor r selected s :
  serves (match truthy cursor with Some c => tokenRequest c | None => startRequest start end) selected ->
  oldest <= start ->
  drainLoop fails now genId rpc cfg (S fuel) start cursor r s =
  (page r (take limit selected) ≫= (fun r' =>
     match last (take limit selected) with
     | Some e => if (length selected <? limit)%nat then mret tt else drainLoop fails now genId rpc cfg fuel (re_ledger e) (Some (tokenOf e)) r'
     | None => mret tt
     end)) (noteNode s.1, s.2).
Proof.
  intros (resp & Hrpc & Hev & Hla & Hol & Htok) Hold. cbn [drainLoop]. unfold fetchPage, assertRetention.
  assert (forall x, (match truthy cursor with
    | Some c => mkRequest (ic_contractIds cfg) None (Some c) (ic_pageLimit cfg)
    | None => mkRequest (ic_contractIds cfg) (match truthy cursor with Some _ => None | None => Some start end) None (ic_pageLimit cfg) end) = x ->
    x = match truthy cursor with Some c => tokenRequest c | None => startRequest start end) as Hreq.
  { intros x <-. by destruct (truthy cursor). }
  rewrite (Hreq _ eq_refl), Hrpc. clear Hreq. rewrite N_ret_bind. unfold mbind at 1, N_bind at 1. rewrite Hol.
  assert ((0 <? start) && (start <? oldest) = false) as -> by lia. cbn [mret N_ret]. unfold mret, N_ret.
  unfold mbind at 1, N_bind at 1. unfold modify. cbn [fst snd].
  assert (clearRetention (noteLatest resp s.1) = noteNode s.1) as -> by (unfold clearRetention, noteLatest, noteNode; cbn; by rewrite Hla).
  rewrite Hev. rewrite Hev in Htok. destruct (last (take limit selected)) as [e|] eqn:El.
  - apply N_bind_ext. intros r' s' _.
    assert ((Z.of_nat (length (take limit selected)) <? ic_pageLimit cfg) = (length selected <? limit)%nat) as ->.
    { pose proof (hn_limit honest). unfold limit in *. rewrite length_take.
      destruct (Nat.ltb_spec (length selected) (Z.to_nat (ic_pageLimit cfg))); [apply Z.ltb_lt|apply Z.ltb_ge]; lia. }
    destruct (Nat.ltb_spec (length selected) limit) as [|Hfull]; [done|]. rewrite (Htok Hfull e eq_refl).
    unfold truthy. by rewrite bool_decide_eq_false_2 by apply (hn_token honest).
  - apply last_None in El. by rewrite El.
Qed.

(** What one drain reaches of [l], the events after its position: pages while they are
    full, each looking [scan] ledgers past the event the last one ended at. *)
Fixpoint reach (fuel : nat) (from : Z) (l : list RawRpcEvent) : list RawRpcEvent :=
  match fuel with
  | O => []
  | S fuel' =>
      let selected := scanned from l in
      if (length selected <? limit)%nat then selected
      else match last (take limit selected) with
        | Some e => take limit selected ++ reach fuel' (re_ledger e) (drop limit l)
        | None => []
        end
  end.

(** * The reference: one pass over the pending events *)

Definition before (a b : RawRpcEvent) : Prop :=
  re_ledger a < re_ledger b ∨ (re_ledger a = re_ledger b ∧ lowerThan (re_id a) (re_id b) = true).

Fixpoint iterEvents (events : list RawRpcEvent) : N unit :=
  match events with
  | [] => mret tt
  | raw :: rest =>
      _ ← processRawEvent fails now genId raw;
      _ ← advanceCursor fails now (re_ledger raw) (re_id raw);
      iterEvents rest
  end.

(** The events from the start ledger that lie past the cursor. *)
Definition pending (start : Z) (cursor : Z * string) : list RawRpcEvent :=
  filter (fun e => shouldSkipAlreadySeen e cursor = false) (filter (fun e => start <= re_ledger e) chain).

Lemma skip_before x y r : before x y -> shouldSkipAlreadySeen x r = false -> shouldSkipAlreadySeen y r = false.
Proof.
  unfold before, shouldSkipAlreadySeen, lowerThan. destruct ((r.1 =? 0) || bool_decide (r.2 = "")); [done|]. intros Hb.
  destruct (Z.ltb_spec (re_ledger x) r.1); [done|]. destruct (Z.ltb_spec (re_ledger y) r.1); [lia|].
  destruct (Z.ltb_spec r.1 (re_ledger x)), (Z.ltb_spec r.1 (re_ledger y)); try done; [intros _; lia|]. intros Hx.
  destruct Hb as [?|[_ Hb]]; [lia|]. destruct (string_leb (re_id y) r.2) eqn:Ey; [|done]. apply negb_true_iff in Hb.
  destruct (string_leb_total (re_id x) (re_id y)) as [Hxy|]; [|congruence].
  pose proof (string_leb_trans _ _ _ Hxy Ey). congruence.
Qed.

Lemma skip_own x y : before x y -> shouldSkipAlreadySeen y (re_ledger x, re_id x) = false.
Proof.
  unfold before, shouldSkipAlreadySeen, lowerThan. cbn [fst snd]. intros Hb. destruct (_ || _); [done|].
  destruct (Z.ltb_spec (re_ledger y) (re_ledger x)); [lia|]. destruct (Z.ltb_spec (re_ledger x) (re_ledger y)); [done|].
  destruct Hb as [?|[_ Hb]]; [lia|]. by apply negb_true_iff in Hb.
Qed.

Lemma page_sorted l : StronglySorted before l -> forall r s,
  (page r l ≫= (fun _ => mret tt)) s = iterEvents (filter (fun e => shouldSkipAlreadySeen e r = false) l) s.
Proof.
  induction 1 as [|x l Hs IH Hx]; intros r s; [done|]. cbn [processPage]. rewrite filter_cons.
  destruct (shouldSkipAlreadySeen x r) eqn:E; [rewrite decide_False by done; apply IH|]. rewrite decide_True by done.
  cbn [iterEvents]. rewrite N_bind_assoc. apply N_bind_ext. intros _ s1 _. rewrite N_bind_assoc. apply N_bind_ext. intros [] s2 _.
  rewrite IH. rewrite Forall_forall in Hx. rewrite !filter_all; [done|..]; apply Forall_forall; intros y Hy.
  - by eapply skip_before, E; apply Hx.
  - by apply skip_own, Hx.
Qed.

Lemma ledger_suffix (st : Z) l : StronglySorted before l -> ∃ pre, l = pre ++ filter (fun e => st <= re_ledger e) l.
Proof.
  induction 1 as [|x l Hs [pre IH] Hx]; [by exists []|]. rewrite filter_cons. destruct (decide (st <= re_ledger x)) as [Hle|].
  - exists []. cbn. f_equal. symmetry. apply filter_all. apply Forall_forall. intros y Hy. rewrite Forall_forall in Hx.
    destruct (Hx y Hy); lia.
  - exists (x :: pre). cbn. f_equal. exact IH.
Qed.

Lemma sorted_suffix (l1 l2 : list RawRpcEvent) : StronglySorted before (l1 ++ l2) -> StronglySorted before l2.
Proof. induction l1 as [|x l1 IH]; [done|]. cbn. intros Hs. apply IH. by inversion Hs. Qed.

Lemma scanned_prefix from l : StronglySorted before l -> scanned from l = take (length (scanned from l)) l.
Proof.
  unfold scanned. induction 1 as [|x l Hs IH Hx]; [done|]. rewrite filter_cons. destruct (decide (re_ledger x < from + scan)) as [Hlt|Hge].
  - cbn. by rewrite <- IH.
  - rewrite (filter_none (fun e => re_ledger e < from + scan)); [done|]. eapply Forall_impl; [exact Hx|]. cbn. intros y [Hy|[Hy _]]; lia.
Qed.

(** A full page ends at an event of the chain and the rest follows it. *)
Lemma full_page from l : StronglySorted before l -> (limit <= length (scanned from l))%nat -> (0 < limit)%nat ->
  ∃ l0 e, take limit (scanned from l) = l0 ++ [e] ∧ last (take limit (scanned from l)) = Some e ∧ l = (l0 ++ [e]) ++ drop limit l ∧
    length (l0 ++ [e]) = limit.
Proof.
  intros Hs Hfull Hlim. assert (take limit (scanned from l) = take limit l) as E.
  { rewrite (scanned_prefix from l Hs), take_take. f_equal. lia. }
  assert (length (take limit (scanned from l)) = limit) as Hlen by (rewrite length_take; lia).
  destruct (last (take limit (scanned from l))) as [e|] eqn:El; [|apply last_None in El; rewrite El in Hlen; cbn in Hlen; lia].
  destruct (proj1 (last_Some _ _) El) as [l0 Hl0]. exists l0, e. split; [done|]. split; [done|].
  rewrite <- Hl0. split; [|done]. rewrite E. by rewrite take_drop.
Qed.

Lemma reach_prefix fuel : forall from l, StronglySorted before l -> reach fuel from l `prefix_of` l.
Proof.
  induction fuel as [|fuel IH]; intros from l Hs; [by apply prefix_nil|]. cbn [reach]. cbv zeta.
  destruct (Nat.ltb_spec (length (scanned from l)) limit) as [|Hfull]; [rewrite (scanned_prefix from l Hs); by apply prefix_take|].
  destruct (last (take limit (scanned from l))) as [e|] eqn:El; [|by apply prefix_nil].
  assert (take limit (scanned from l) = take limit l) as -> by (rewrite (scanned_prefix from l Hs), take_take; f_equal; lia).
  rewrite <- (take_drop limit l) at 3. apply prefix_app, IH. apply (sorted_suffix (take limit l)). by rewrite take_drop.
Qed.

(** A node that looks as far as its tip shows everything. *)
Lemma reach_all fuel : forall from l, StronglySorted before l -> (0 < limit)%nat -> (length l < fuel)%nat ->
  (forall x, x ∈ l -> from <= re_ledger x ∧ re_ledger x < from + scan) -> reach fuel from l = l.
Proof.
  induction fuel as [|fuel IH]; intros from l Hs Hlim Hfuel Hall; [lia|]. cbn [reach]. cbv zeta.
  assert (scanned from l = l) as Esc by (apply filter_all, Forall_forall; intros x Hx; apply (Hall x Hx)).
  destruct (Nat.ltb_spec (length (scanned from l)) limit) as [|Hfull]; [done|].
  destruct (full_page from l Hs Hfull Hlim) as (l0 & e & E1 & E2 & E3 & E4). rewrite E2, E1. rewrite Esc in Hfull.
  rewrite IH; [by rewrite <- E3| |done|rewrite length_drop; lia|].
  - apply (sorted_suffix (l0 ++ [e])). by rewrite <- E3.
  - intros x Hx. assert (from <= re_ledger e) as He by (apply Hall; rewrite E3; set_solver). split.
    + rewrite E3 in Hs. apply (StronglySorted_app_1_elem_of before (l0 ++ [e]) (drop limit l) e x) in Hs; [|set_solver|done].
      destruct Hs; lia.
    + assert (x ∈ l) as Hxl by (rewrite E3; set_solver). specialize (Hall x Hxl). lia.
Qed.

(** The loop goes through what it reaches of the rest of the chain, and one round per
    event and one more are enough. *)
Lemma drainLoop_rest fuel : forall post pre e r s, chain = pre ++ e :: post -> (length post < fuel)%nat -> noted s.1 ->
  StronglySorted before chain -> oldest <= re_ledger e ->
  drainLoop fails now genId rpc cfg fuel (re_ledger e) (Some (tokenOf e)) r s = (page r (reach fuel (re_ledger e) post) ≫= (fun _ => mret tt)) s.
Proof.
  induction fuel as [|fuel IH]; intros post pre e r s Hch Hfuel Hn Hsorted Hold; [lia|].
  assert (StronglySorted before post) as Hpost by (apply (sorted_suffix (pre ++ [e])); rewrite <- app_assoc; cbn; by rewrite <- Hch).
  rewrite (drainLoop_round _ _ _ _ (scanned (re_ledger e) post)); cycle 1.
  { unfold truthy. rewrite bool_decide_eq_false_2 by apply (hn_token honest). by apply (hn_after honest pre). }
  { done. }
  rewrite noteNode_id by done. replace (s.1, s.2) with s by by destruct s. pose proof (hn_limit honest) as Hlim. cbn [reach]. cbv zeta.
  destruct (Nat.ltb_spec (length (scanned (re_ledger e) post)) limit) as [Hlt|Hge].
  - rewrite take_ge by lia. apply N_bind_ext. intros r' s' _. by destruct (last _).
  - destruct (full_page _ _ Hpost Hge Hlim) as (l0 & e' & E1 & E2 & E3 & E4). rewrite E2, E1.
    rewrite page_bind_app. apply N_bind_ext. intros r' s' Hp. pose proof (page_service (l0 ++ [e']) r s) as Hs. rewrite Hp in Hs. cbn in Hs.
    apply IH with (pre := pre ++ e :: l0).
    + rewrite Hch, E3 at 1. rewrite <- !app_assoc. done.
    + apply (f_equal length) in E3. rewrite length_app, E4 in E3. rewrite length_drop in *. lia.
    + destruct Hs as [H1 H2], Hn as [H3 H4]. split; congruence.
    + done.
    + rewrite Hch in Hsorted. apply sorted_suffix in Hsorted. apply StronglySorted_inv in Hsorted as [_ Hf]. rewrite Forall_forall in Hf.
      destruct (Hf e'); [rewrite E3; set_solver|lia|lia].
Qed.

Hypothesis sorted : StronglySorted before chain.

(** The events one drain from [start] reaches, past the cursor. *)
Definition reached (start : Z) (cursor : Z * string) : list RawRpcEvent :=
  filter (fun e => shouldSkipAlreadySeen e cursor = false) (reach (S (length chain)) start (filter (fun e => start <= re_ledger e) chain)).

Lemma drainLoop_reference start r s : oldest <= start <= latest ->
  drainLoop fails now genId rpc cfg (S (length chain)) start None r s = iterEvents (reached start r) (noteNode s.1, s.2).
Proof.
  intros Hin. unfold reached. set (sel := filter (fun e => start <= re_ledger e) chain).
  destruct (ledger_suffix start chain sorted) as [pre Hpre]. fold sel in Hpre.
  assert (StronglySorted before sel) as Hsel by (apply (sorted_suffix pre); by rewrite <- Hpre).
  destruct (reach_prefix (S (length chain)) start sel Hsel) as [k Hk].
  rewrite <- page_sorted; cycle 1.
  { rewrite Hk in Hsel. by apply StronglySorted_app_1_l in Hsel. }
  clear k Hk. rewrite (drainLoop_round _ _ None r (scanned start sel) s); [|by apply (hn_start honest)|lia]. pose proof (hn_limit honest) as Hlim.
  cbn [reach]. cbv zeta. destruct (Nat.ltb_spec (length (scanned start sel)) limit) as [Hlt|Hge].
  - rewrite take_ge by lia. apply N_bind_ext. intros r' s' _. by destruct (last _).
  - destruct (full_page _ _ Hsel Hge Hlim) as (l0 & e' & E1 & E2 & E3 & E4). rewrite E2, E1. set (s0 := (noteNode s.1, s.2)).
    rewrite page_bind_app. apply N_bind_ext. intros r' s' Hp. pose proof (page_service (l0 ++ [e']) r s0) as Hs. rewrite Hp in Hs. cbn in Hs.
    assert (chain = (pre ++ l0) ++ e' :: drop limit sel) as Hch by (rewrite Hpre, E3 at 1; rewrite <- !app_assoc; done).
    apply drainLoop_rest with (pre := pre ++ l0); [done| |by destruct Hs|done|].
    + apply (f_equal length) in Hch. rewrite Hch, !length_app. cbn. lia.
    + assert (e' ∈ sel) as Hin'; [|apply list_elem_of_filter in Hin'; lia]. rewrite E3. set_solver.
Qed.

Lemma reached_prefix start cursor : reached start cursor `prefix_of` pending start cursor.
Proof.
  unfold reached, pending. destruct (ledger_suffix start chain sorted) as [pre Hpre]. set (sel := filter (fun e => start <= re_ledger e) chain) in *.
  destruct (reach_prefix (S (length chain)) start sel) as [k Hk]; [apply (sorted_suffix pre); by rewrite <- Hpre|].
  exists (filter (fun e => shouldSkipAlreadySeen e cursor = false) k). rewrite <- filter_app. by f_equal.
Qed.

Lemma reached_all start cursor : latest < start + scan -> reached start cursor = pending start cursor.
Proof.
  intros Hscan. unfold reached, pending. f_equal. destruct (ledger_suffix start chain sorted) as [pre Hpre].
  set (sel := filter (fun e => start <= re_ledger e) chain) in *. apply reach_all.
  - apply (sorted_suffix pre). by rewrite <- Hpre.
  - apply (hn_limit honest).
  - apply (f_equal length) in Hpre. rewrite length_app in Hpre. lia.
  - intros x [Hx Hc]%list_elem_of_filter. pose proof (hn_tip honest x Hc). lia.
Qed.

(** * No gaps *)

Definition processedIds (db : Db) : list string := map pe_eventId (db_processed db).

(** A statement that touches neither the cursor nor the processed events. *)
Definition keepsIndex {A} (m : M A) : Prop := forall db, db_cursor (m db).2 = db_cursor db ∧ db_processed (m db).2 = db_processed db.

Lemma indexKeeps_ret {A} (a : A) : keepsIndex (mret a).
Proof. done. Qed.
Lemma indexKeeps_lift {A} (r : res string A) : keepsIndex (lift r).
Proof. by destruct r. Qed.
Lemma indexKeeps_bind {A B} (m : M A) (f : A -> M B) : keepsIndex m -> (forall a, keepsIndex (f a)) -> keepsIndex (m ≫= f).
Proof.
  intros Hm Hf db. specialize (Hm db). unfold mbind, M_bind. destruct (m db) as [[a|e] db1]; [|done]. cbn in Hm.
  destruct (Hf a db1) as [H1 H2], Hm. split; congruence.
Qed.
Lemma indexKeeps_query {A} (f : Db -> res string (A * Db)) :
  (forall db a db', f db = Ok (a, db') -> db_cursor db' = db_cursor db ∧ db_processed db' = db_processed db) -> keepsIndex (query fails f).
Proof.
  intros Hf db. unfold query. destruct (fails _); [done|]. set (db1 := mkDb _ _ _ _ _ _). specialize (Hf db1).
  destruct (f db1) as [[a db2]|e]; [by eapply Hf|done].
Qed.

Lemma indexKeeps_upsert newId id holder ct ca pr dd ex act : keepsIndex (upsertFromChain fails now newId id holder ct ca pr dd ex act).
Proof.
  apply indexKeeps_bind; [apply indexKeeps_lift|intros c]. apply indexKeeps_query. intros db a db'. destruct ex; [|done]. cbv zeta.
  destruct (negb _); [done|]. destruct (jm_get _ _); [destruct (negb _); [done|]|]; by intros [= <- <-].
Qed.
Lemma indexKeeps_find id : keepsIndex (findIdByOnChainPolicyId fails id).
Proof. apply indexKeeps_query. by intros db a db' [= <- <-]. Qed.
Lemma indexKeeps_deactivate id : keepsIndex (deactivateByOnChainPolicyId fails id).
Proof. apply indexKeeps_query. intros db a db' [= <- <-]. by destruct (jm_get _ _). Qed.
Lemma indexKeeps_provide p u sh : keepsIndex (applyProvide fails p u sh).
Proof. apply indexKeeps_query. intros db a db'. cbv zeta. destruct (negb _); [done|]. by intros [= <- <-]. Qed.
Lemma indexKeeps_withdraw p u sh : keepsIndex (applyWithdraw fails p u sh).
Proof. apply indexKeeps_query. by intros db a db' [= <- <-]. Qed.
Lemma indexKeeps_claim p h ct pay tv ts tx : keepsIndex (insertFromChain fails p h ct pay tv ts tx).
Proof.
  apply indexKeeps_bind; [apply indexKeeps_lift|intros c]. apply indexKeeps_query. intros db a db'.
  cbv zeta. destruct (bool_decide _); [by intros [= <- <-]|]. destruct (negb _); [done|]. by intros [= <- <-].
Qed.
#[local] Hint Resolve indexKeeps_ret indexKeeps_lift indexKeeps_upsert indexKeeps_find indexKeeps_deactivate indexKeeps_provide indexKeeps_withdraw indexKeeps_claim : refract.
#[local] Hint Extern 2 (keepsIndex (_ ≫= _)) => (apply indexKeeps_bind; [|intros ?]) : refract.

Lemma indexKeeps_flow e : keepsIndex (capitalFlow e).
Proof. unfold capitalFlow. auto 10 with refract. Qed.
#[local] Hint Resolve indexKeeps_flow : refract.

Lemma indexKeeps_dispatch t e : keepsIndex (dispatch fails now genId t e).
Proof.
  assert (forall i, keepsIndex (handlePolicyPurchased fails now i e)) as H1 by (intros; unfold handlePolicyPurchased; auto 20 with refract).
  assert (forall i, keepsIndex (handleClaimProcessed fails now i e)) as H2.
  { intros. unfold handleClaimProcessed. do 7 (apply indexKeeps_bind; [auto with refract|intros ?]).
    apply indexKeeps_bind; [auto with refract|intros found]. apply indexKeeps_bind; [|auto 10 with refract].
    destruct found as [id|]; [destruct (bool_decide _)|]; auto with refract. }
  intros db. unfold dispatch. destruct (jm_get EVENT_TOPICS t) as [[]|]; try done; [apply H1| | |apply H2].
  - apply indexKeeps_bind; [auto with refract|]. intros [[??]?]. auto with refract.
  - apply indexKeeps_bind; [auto with refract|]. intros [[??]?]. auto with refract.
Qed.
Lemma projectRaw_spec raw db :
  let '(r, db') := projectRaw fails now genId raw db in
  db_cursor db' = db_cursor db ∧
  match r with
  | Ok _ => forall id, id ∈ processedIds db' <-> id = re_id raw ∨ id ∈ processedIds db
  | Err _ => db_processed db' = db_processed db
  end.
Proof.
  unfold projectRaw, hasProcessed, tryMarkProcessed, processedIds. unfold mbind at 1, M_bind at 1. unfold query at 1.
  destruct (fails (db_queries db)); [done|]. set (db1 := mkDb _ _ _ _ _ _).
  destruct (bool_decide_reflect (re_id raw ∈ map pe_eventId (db_processed db1))) as [Hin|Hout]; [cbn; split; [done|]; intros id; split; [by right|by intros [->|]]|].
  set (act := match extractEventTopicName (re_topics raw) with Some _ => _ | None => _ end).
  assert (keepsIndex act) as Hk by (unfold act; destruct (extractEventTopicName _); [destruct (_ && _); [apply indexKeeps_dispatch|]|]; done).
  unfold mbind at 1, M_bind at 1. destruct (Hk db1) as [Hc Hp]. destruct (act db1) as [[[]|e] db2]; cbn [snd] in Hc, Hp; [|done].
  unfold mbind, M_bind, query. destruct (fails (db_queries db2)); [done|]. set (db3 := mkDb _ _ _ _ _ _).
  cbn [pe_eventId]. rewrite bool_decide_eq_false_2; [|unfold db3; cbn [db_processed]; by rewrite Hp].
  cbn. split; [done|]. intros id. rewrite Hp, map_app. cbn. set_solver.
Qed.

Lemma saveCursor_spec ledger id db :
  let '(r, db') := saveCursor fails ledger id db in
  db_processed db' = db_processed db ∧ db_cursor db' = match r with Ok _ => Some (ledger, id) | Err _ => db_cursor db end.
Proof. unfold saveCursor, query. by destruct (fails (db_queries db)). Qed.

Lemma step_spec raw s :
  let '(r, s') := (processRawEvent fails now genId raw ≫= (fun _ => advanceCursor fails now (re_ledger raw) (re_id raw))) s in
  match r with
  | Ok _ => db_cursor s'.2 = Some (re_ledger raw, re_id raw) ∧ forall id, id ∈ processedIds s'.2 <-> id = re_id raw ∨ id ∈ processedIds s.2
  | Err _ => db_cursor s'.2 = db_cursor s.2 ∧
      forall id, id ∈ processedIds s'.2 <-> id ∈ processedIds s.2 ∨ (id = re_id raw ∧ id ∈ processedIds s'.2)
  end.
Proof.
  unfold processRawEvent, advanceCursor, processedIds in *. unfold mbind, N_bind, onDb.
  pose proof (projectRaw_spec raw s.2) as Hp. destruct (projectRaw fails now genId raw s.2) as [[did|e] db1]; destruct Hp as [Hc Hp].
  - pose proof (saveCursor_spec (re_ledger raw) (re_id raw) db1) as Hs.
    destruct did; cbn [modify mret N_ret fst snd]; unfold mret, N_ret; cbn [fst snd];
      destruct (saveCursor fails _ _ db1) as [[[]|e] db2]; destruct Hs as [Hs1 Hs2]; cbn [modify fst snd]; rewrite Hs1, Hs2;
      (split; [done|]); intros id; rewrite Hp; tauto.
  - cbn. rewrite Hp. split; [done|]. tauto.
Qed.

(** What a pass leaves in the database: it went through the first events of the list,
    and the cursor is at the last of them. *)
Definition passed (db db' : Db) (finished : bool) (events : list RawRpcEvent) : Prop :=
  ∃ done rest, events = done ++ rest ∧ (finished = true <-> rest = []) ∧
    db_cursor db' = (match last done with Some e => Some (re_ledger e, re_id e) | None => db_cursor db end) ∧
    (forall e, e ∈ done -> re_id e ∈ processedIds db') ∧
    (forall id, id ∈ processedIds db -> id ∈ processedIds db') ∧
    (forall id, id ∈ processedIds db' -> id ∈ processedIds db ∨ ∃ e, e ∈ done ++ take 1 rest ∧ re_id e = id).

Lemma iterEvents_passed evs : forall s,
  let '(r, s') := iterEvents evs s in passed s.2 s'.2 (is_ok r) evs.
Proof.
  induction evs as [|raw evs IH]; intros s.
  - cbn. exists [], []. split_and!; try done; [set_solver|by left].
  - pose proof (step_spec raw s) as Hstep. cbn [iterEvents]. rewrite <- N_bind_assoc. unfold mbind at 1, N_bind at 1.
    destruct ((processRawEvent _ _ _ raw ≫= _) s) as [[[]|e] s1]; destruct Hstep as [Hc Hp].
    + specialize (IH s1). destruct (iterEvents evs s1) as [r s']. destruct IH as (dn & rest & -> & Hf & Hcur & Hdone & Hsub & Hsup).
      exists (raw :: dn), rest. split_and!; [done|done| | | |].
      * rewrite Hcur, Hc. rewrite last_cons. by destruct (last dn).
      * intros x [->|Hx]%elem_of_cons; [apply Hsub, Hp; by left|by apply Hdone].
      * intros id Hid. apply Hsub, Hp. by right.
      * intros id [Hid|(x & Hx & <-)]%Hsup; [|right; exists x; set_solver]. apply Hp in Hid as [->|]; [right; exists raw; set_solver|by left].
    + exists [], (raw :: evs). split_and!; try done; [set_solver| |]; intros id Hid; [apply Hp; by left|].
      apply Hp in Hid as [|[-> _]]; [by left|right]. exists raw. set_solver.
Qed.
(** The drain as one pass: the start ledger from the cursor or the tip, the retention
    check, and every event the node shows from there, in order. *)
Definition startLedgerOf (tip : Z) (cursor : Z * string) : Z := if 0 <? cursor.1 then cursor.1 else tip.

Definition referenceDrain (tip : Z) : N unit :=
  cursor ← onDb (getCursor fails);
  _ ← modify (noteResume cursor);
  let start := startLedgerOf tip cursor in
  if (start <? oldest) || (latest <? start)
  then raise (CursorOutsideRetentionWindow start (numberAfter "oldest" rejection) (numberAfter "latest" rejection))
  else _ ← modify noteNode; iterEvents (reached start cursor).

Lemma drain_reference tip s : 0 < tip ->
  drainFromCursor fails now genId rpc (Some (Ok tip)) cfg (S (length chain)) s = referenceDrain tip s.
Proof.
  intros Htip. unfold drainFromCursor, referenceDrain. apply N_bind_ext. intros cursor s1 _. apply N_bind_ext. intros [] s2 _.
  unfold resolveStartLedger, startLedgerOf.
  assert (((if 0 <? cursor.1 then mret cursor.1 else mret tip) : N Z) = mret (if 0 <? cursor.1 then cursor.1 else tip)) as -> by by destruct (0 <? cursor.1).
  rewrite N_ret_bind. cbv zeta. set (start := if 0 <? cursor.1 then cursor.1 else tip).
  assert (0 < start) as Hpos by (unfold start; destruct (Z.ltb_spec 0 cursor.1); lia).
  destruct ((start <? oldest) || (latest <? start)) eqn:Eout; [|rewrite drainLoop_reference by lia; done].
  cbn [drainLoop truthy]. unfold fetchPage. cbn [truthy]. fold (startRequest start). rewrite (hn_outside honest start) by lia.
  unfold mapRetentionRpcError. rewrite (hn_rejection honest). done.
Qed.

Definition bumped (db : Db) : Db :=
  mkDb (db_policies db) (db_positions db) (db_claims db) (db_processed db) (db_cursor db) (S (db_queries db)).

Lemma referenceDrain_run tip s : let cursor := default (0, "") (db_cursor s.2) in
  fails (db_queries s.2) = false -> oldest <= startLedgerOf tip cursor <= latest ->
  referenceDrain tip s = iterEvents (reached (startLedgerOf tip cursor) cursor) (noteNode (noteResume cursor s.1), bumped s.2).
Proof.
  intros cursor Hf Hold. unfold referenceDrain. unfold mbind at 1, N_bind at 1. unfold onDb, getCursor, query. rewrite Hf.
  cbn [fst snd db_cursor]. fold cursor. unfold mbind at 1, N_bind at 1. cbn [modify fst snd]. cbv zeta.
  by rewrite (proj2 (Z.ltb_ge _ _)), (proj2 (Z.ltb_ge _ _)) by lia.
Qed.

Definition sameTables (db db' : Db) : Prop :=
  db_policies db' = db_policies db ∧ db_positions db' = db_positions db ∧ db_claims db' = db_claims db ∧
  db_processed db' = db_processed db ∧ db_cursor db' = db_cursor db.

Lemma poll_passed tip s (finished : bool) :
  let cursor := default (0, "") (db_cursor s.2) in
  0 < tip -> ic_enabled cfg = true -> ic_contractIds cfg ≠ [] -> sv_running s.1 = false -> oldest <= startLedgerOf tip cursor <= latest ->
  finished = is_ok (drainFromCursor fails now genId rpc (Some (Ok tip)) cfg (S (length chain)) (setRunning true s.1, s.2)).1 ->
  fails (db_queries s.2) = false ->
  passed s.2 (poll fails now genId rpc (Some (Ok tip)) cfg (S (length chain)) s).2 finished (reached (startLedgerOf tip cursor) cursor).
Proof.
  intros cursor Htip He Hc Hr Hold -> Hf. unfold poll. rewrite He, Hr, bool_decide_eq_false_2 by done. cbn [negb].
  rewrite drain_reference, referenceDrain_run by done. cbn [fst snd]. fold cursor.
  pose proof (iterEvents_passed (reached (startLedgerOf tip cursor) cursor) (noteNode (noteResume cursor (setRunning true s.1)), bumped s.2)) as Hp.
  destruct (iterEvents _ _) as [r [sv db]]. exact Hp.
Qed.

Lemma referenceDrain_outside tip s : let start := startLedgerOf tip (default (0, "") (db_cursor s.2)) in
  fails (db_queries s.2) = false -> start < oldest ∨ latest < start ->
  referenceDrain tip s = (Err (CursorOutsideRetentionWindow start (numberAfter "oldest" rejection) (numberAfter "latest" rejection)),
    (noteResume (default (0, "") (db_cursor s.2)) s.1, bumped s.2)).
Proof.
  intros start Hf Hout. unfold referenceDrain. unfold mbind at 1, N_bind at 1. unfold onDb, getCursor, query. rewrite Hf.
  cbn [fst snd db_cursor]. unfold mbind at 1, N_bind at 1. cbn [modify fst snd]. cbv zeta. fold start.
  by assert ((start <? oldest) || (latest <? start) = true) as -> by lia.
Qed.

Lemma poll_outside tip s :
  let start := startLedgerOf tip (default (0, "") (db_cursor s.2)) in
  let s' := poll fails now genId rpc (Some (Ok tip)) cfg (S (length chain)) s in
  0 < tip -> ic_enabled cfg = true -> ic_contractIds cfg ≠ [] -> sv_running s.1 = false -> fails (db_queries s.2) = false ->
  start < oldest ∨ latest < start ->
  is_ok (drainFromCursor fails now genId rpc (Some (Ok tip)) cfg (S (length chain)) (setRunning true s.1, s.2)).1 = false ∧
  db_cursor s'.2 = db_cursor s.2 ∧ db_processed s'.2 = db_processed s.2 ∧ is_Some (sv_retentionError s'.1).
Proof.
  intros start s' Htip He Hc Hr Hf Hout. subst s'. unfold poll. rewrite He, Hr, bool_decide_eq_false_2 by done. cbn [negb].
  rewrite drain_reference, referenceDrain_outside by done. cbn. by split_and!; eauto.
Qed.

(** A poll that reaches nothing changes no table. *)
Lemma poll_nothing tip s : 0 < tip ->
  let cursor := default (0, "") (db_cursor s.2) in
  reached (startLedgerOf tip cursor) cursor = [] ->
  sameTables s.2 (poll fails now genId rpc (Some (Ok tip)) cfg (S (length chain)) s).2.
Proof.
  intros Htip cursor Hnone. unfold poll. destruct (negb _); [by repeat split|]. destruct (bool_decide _); [by repeat split|].
  destruct (sv_running s.1); [by repeat split|]. rewrite drain_reference by done.
  unfold referenceDrain. unfold mbind at 1, N_bind at 1. unfold onDb at 1, getCursor, query. cbn [fst snd].
  destruct (fails (db_queries s.2)); [by repeat split|]. cbn [fst snd db_cursor]. fold cursor. unfold mbind, N_bind. cbn [modify fst snd]. cbv zeta.
  destruct (_ || _); [by repeat split|]. rewrite Hnone. by repeat split.
Qed.

Lemma reached_quiet cursor :
  (forall e, e ∈ pending cursor.1 cursor -> cursor.1 + scan <= re_ledger e) ->
  (length (scanned cursor.1 (filter (fun e => (cursor.1 <= re_ledger e)%Z) chain)) < limit)%nat -> reached cursor.1 cursor = [].
Proof.
  intros Hq Hpage. unfold reached. cbn [reach]. cbv zeta. rewrite (proj2 (Nat.ltb_lt _ _) Hpage).
  apply filter_none, Forall_forall. intros e He Hns. apply list_elem_of_filter in He as [Hlt He].
  specialize (Hq e). unfold pending in Hq. rewrite list_elem_of_filter in Hq. specialize (Hq (conj Hns He)). lia.
Qed.
End Equivalence.

(** * Properties *)
Section Properties.
Context `{JsHost}.
Variables (now : Z) (genId : nat -> string) (cfg : EventIndexerConfigSlice) (tokenOf : RawRpcEvent -> string).

(** Paging is transparent.  Against a node that serves its chain faithfully, one
    drain with pages of any size, whatever statements fail, ends with the same
    outcome and the same state as a single pass over the events that its full pages
    reach: the loop terminates within one page per event and one more, and no event is
    lost or repeated at a page boundary. *)
Theorem paging_is_transparent (fails : nat -> bool) (rpc : Request -> res string Response) (chain : list RawRpcEvent)
    (oldest latest scan : Z) (rejection : string) (tip : Z) (s : Service * Db)
    (Hnode : HonestNode rpc cfg chain oldest latest scan rejection tokenOf)
    (Hsorted : StronglySorted before chain) (Htip : 0 < tip) :
  drainFromCursor fails now genId rpc (Some (Ok tip)) cfg (S (length chain)) s =
  referenceDrain fails now genId cfg chain oldest latest scan rejection tip s.
Proof. by eapply drain_reference. Qed.

(** C16: a poll leaves no gap.  Against a node that serves one sorted chain for the
    duration of the poll, pages it in order, refuses start ledgers outside the ledgers it
    retains and looks through a bounded number of ledgers per answer, and with the cursor
    readable: whatever other statements fail and whatever the handlers refuse, if the
    start ledger is retained the events the poll reaches, a prefix of the events past
    the cursor and all of them if the node looks as far as its tip, split into a first
    part, all of it marked processed, whose last event is the new cursor, and a rest that
    is empty exactly when the drain succeeded; nothing was unmarked, and nothing outside
    the first part was marked except possibly the event after it.  If the start ledger is
    not retained, nothing is marked, the cursor stays, and the retention error is noted. *)
Theorem poll_leaves_no_gap (fails : nat -> bool) (rpc : Request -> res string Response) (chain : list RawRpcEvent)
    (oldest latest scan : Z) (rejection : string) (tip : Z) (s : Service * Db) (cursor : Z * string)
    (Hcursor : cursor = default (0, "") (db_cursor s.2))
    (Hnode : HonestNode rpc cfg chain oldest latest scan rejection tokenOf) (Hsorted : StronglySorted before chain) (Htip : 0 < tip)
    (Hon : ic_enabled cfg = true ∧ ic_contractIds cfg ≠ [] ∧ sv_running s.1 = false) (Hread : fails (db_queries s.2) = false) :
  let start := startLedgerOf tip cursor in
  let s' := poll fails now genId rpc (Some (Ok tip)) cfg (S (length chain)) s in
  let finished := is_ok (drainFromCursor fails now genId rpc (Some (Ok tip)) cfg (S (length chain)) (setRunning true s.1, s.2)).1 in
  (oldest <= start <= latest ->
     passed s.2 s'.2 finished (reached cfg chain scan start cursor) ∧
     reached cfg chain scan start cursor `prefix_of` pending chain start cursor ∧
     (latest < start + scan -> reached cfg chain scan start cursor = pending chain start cursor)) ∧
  (start < oldest ∨ latest < start ->
     finished = false ∧ db_cursor s'.2 = db_cursor s.2 ∧ db_processed s'.2 = db_processed s.2 ∧
     is_Some (sv_retentionError s'.1)).
Proof.
  subst cursor. destruct Hon as (H1 & H2 & H3). intros start s' finished. split.
  - intros Hin. split; [exact (poll_passed fails now genId rpc cfg chain oldest latest scan rejection tokenOf Hnode Hsorted tip s finished Htip H1 H2 H3 Hin eq_refl Hread)|].
    split; [exact (reached_prefix cfg chain scan Hsorted start _)|].
    exact (reached_all fails genId rpc cfg chain oldest latest scan rejection tokenOf Hnode Hsorted start _).
  - exact (poll_outside fails now genId rpc cfg chain oldest latest scan rejection tokenOf Hnode Hsorted tip s Htip H1 H2 H3 Hread).
Qed.

(** A stretch without events longer than the node looks ends the indexing: the page is
    not full, so the drain stops and the cursor stays where it was, and every later poll
    asks from the same ledger again, whatever the chain holds beyond. *)
Theorem quiet_stretch_stalls (rpc : Request -> res string Response) (chain : list RawRpcEvent)
    (oldest latest scan : Z) (rejection : string) (tip : Z) (s : Service * Db) (cursor : Z * string)
    (Hcursor : db_cursor s.2 = Some cursor ∧ 0 < cursor.1)
    (Hnode : HonestNode rpc cfg chain oldest latest scan rejection tokenOf) (Hsorted : StronglySorted before chain) (Htip : 0 < tip)
    (Hquiet : forall e, e ∈ pending chain cursor.1 cursor -> cursor.1 + scan <= re_ledger e)
    (Hpage : (length (scanned scan cursor.1 (filter (fun e => (cursor.1 <= re_ledger e)%Z) chain)) < limit cfg)%nat) (schedule : list ((nat -> bool) * Z)) :
  sameTables s.2 (foldl (fun st ft => poll ft.1 ft.2 genId rpc (Some (Ok tip)) cfg (S (length chain)) st) s schedule).2.
Proof.
  destruct Hcursor as [Hcur Hpos].
  assert (forall st, sameTables s.2 st.2 ->
    sameTables s.2 (foldl (fun st ft => poll ft.1 ft.2 genId rpc (Some (Ok tip)) cfg (S (length chain)) st) st schedule).2) as Hgen;
    [|apply Hgen; by repeat split].
  assert (reached cfg chain scan cursor.1 cursor = []) as Hnone by by apply reached_quiet.
  induction schedule as [|[fails t] schedule IH]; intros st Hst; [done|]. cbn [foldl fst snd]. apply IH.
  assert (sameTables st.2 (poll fails t genId rpc (Some (Ok tip)) cfg (S (length chain)) st).2) as Hp;
    [|destruct Hst as (?&?&?&?&?), Hp as (?&?&?&?&?); by split_and!; congruence].
  destruct Hst as (_ & _ & _ & _ & S5). eapply poll_nothing; [done|done|done|]. rewrite S5, Hcur. cbn. unfold startLedgerOf.
  by rewrite (proj2 (Z.ltb_lt _ _)) by done.
Qed.

(** ** The first polls *)

Lemma pending_ledger chain start cursor e : e ∈ pending chain start cursor -> start <= re_ledger e ∧ e ∈ chain.
Proof. unfold pending. intros [_ [? ?]%list_elem_of_filter]%list_elem_of_filter. done. Qed.

(** The indexer drops live events until it has seen its first one.  A first poll
    that finds no event leaves no cursor, so the next poll starts at the tip of its
    own time: every event in between is not processed, and as soon as an event at or
    after that tip is processed the cursor is past the ones in between. *)
Theorem quiet_start_drops_events (fails1 fails2 : nat -> bool) (rpc1 rpc2 : Request -> res string Response)
    (chain1 chain2 : list RawRpcEvent) (oldest1 latest1 oldest2 latest2 tip1 tip2 scan : Z) (rej1 rej2 : string) (s : Service * Db) (e : RawRpcEvent)
    (Hnode1 : HonestNode rpc1 cfg chain1 oldest1 latest1 scan rej1 tokenOf) (Hnode2 : HonestNode rpc2 cfg chain2 oldest2 latest2 scan rej2 tokenOf)
    (Hsorted1 : StronglySorted before chain1) (Hsorted2 : StronglySorted before chain2) (Hids : NoDup (map re_id chain2))
    (Hon : ic_enabled cfg = true ∧ ic_contractIds cfg ≠ [] ∧ sv_running s.1 = false)
    (Htips : 0 < tip1 ∧ oldest1 <= tip1 <= latest1 ∧ oldest2 <= tip2 <= latest2)
    (Hfresh : db_cursor s.2 = None ∧ re_id e ∉ processedIds s.2)
    (Hquiet : forall x, x ∈ chain1 -> re_ledger x < tip1) (He : e ∈ chain2 ∧ tip1 <= re_ledger e < tip2)
    (Hread : forall n, fails1 n = false ∧ fails2 n = false) :
  let s1 := poll fails1 now genId rpc1 (Some (Ok tip1)) cfg (S (length chain1)) s in
  let s2 := poll fails2 now genId rpc2 (Some (Ok tip2)) cfg (S (length chain2)) s1 in
  db_cursor s1.2 = None ∧ (re_id e ∉ processedIds s2.2) ∧ (forall c, db_cursor s2.2 = Some c -> re_ledger e < c.1).
Proof.
  intros s1 s2. destruct Hon as (On1 & On2 & On3), Htips as (T1 & T2 & T3), Hfresh as (F1 & F2), He as (E1 & E2).
  assert (∃ b, passed s.2 s1.2 b (reached cfg chain1 scan tip1 (0, ""))) as [b1 P1].
  { pose proof (fun b => poll_passed fails1 now genId rpc1 cfg chain1 oldest1 latest1 scan rej1 tokenOf Hnode1 Hsorted1 tip1 s b T1 On1 On2 On3) as P.
    rewrite F1 in P. eexists. eapply P; [done|reflexivity|apply Hread]. }
  assert (reached cfg chain1 scan tip1 (0, "") = []) as E0.
  { apply prefix_nil_inv. pose proof (reached_prefix cfg chain1 scan Hsorted1 tip1 (0, "")) as Hpre. revert Hpre.
    destruct (pending chain1 tip1 (0, "")) as [|x l] eqn:Ep; [done|]. intros _. destruct (pending_ledger chain1 tip1 (0, "") x) as [H1 H2]; [rewrite Ep; by left|].
    specialize (Hquiet x H2). lia. }
  rewrite E0 in P1. destruct P1 as (dn & rest & Es & _ & Hc1 & _ & _ & Hsup1). symmetry in Es. apply app_eq_nil in Es as [-> ->].
  cbn [last] in Hc1. rewrite F1 in Hc1. split; [done|].
  assert (sv_running s1.1 = false) as On3'.
  { unfold s1, poll. rewrite On1, On3, bool_decide_eq_false_2 by done. cbn [negb]. by destruct (drainFromCursor _ _ _ _ _ _ _ _) as [r [sv db]]. }
  assert (∃ b, passed s1.2 s2.2 b (reached cfg chain2 scan tip2 (0, ""))) as [b2 P2].
  { pose proof (fun b => poll_passed fails2 now genId rpc2 cfg chain2 oldest2 latest2 scan rej2 tokenOf Hnode2 Hsorted2 tip2 s1 b ltac:(lia) On1 On2 On3') as P.
    rewrite Hc1 in P. eexists. eapply P; [done|reflexivity|apply Hread]. }
  destruct P2 as (dn & rest & Ep & _ & Hc2 & _ & _ & Hsup2).
  assert (forall x, x ∈ dn ++ rest -> tip2 <= re_ledger x ∧ x ∈ chain2) as Hall by (intros x Hx; apply (pending_ledger _ _ (0, "")); rewrite <- Ep in Hx; destruct (reached_prefix cfg chain2 scan Hsorted2 tip2 (0, "")) as [k ->]; set_solver).
  split.
  - intros [Hin|(x & Hx & Hid)]%Hsup2; [apply Hsup1 in Hin as [|(x & Hx & _)]; [done|set_solver]|].
    destruct (Hall x) as [H1 H2]; [destruct rest; set_solver|]. apply NoDup_map_inj with (f := re_id) (l := chain2) in Hid; [|done..]. subst. lia.
  - intros c. rewrite Hc2. destruct (last dn) as [x|] eqn:El; [|congruence]. intros [= <-]. cbn.
    apply last_Some in El as [l ->]. destruct (Hall x) as [H1 _]; [set_solver|]. lia.
Qed.
(** ** A claim for a policy that was not indexed *)

(** A computation that fails and changes no table. *)
Definition refuses {A} (m : M A) (db : Db) : Prop := is_ok (m db).1 = false ∧ sameTables db (m db).2.

Lemma refuses_lift {A B} (r : res string A) (f : A -> M B) db : (forall a, r = Ok a -> refuses (f a) db) -> refuses (lift r ≫= f) db.
Proof. intros Hf. destruct r as [a|m]; [by apply Hf|by repeat split]. Qed.

Lemma refuses_read {A B} fails (g : Db -> A) (k : A -> M B) db :
  refuses (k (g (bumped db))) (bumped db) -> refuses (query fails (fun d => Ok (g d, d)) ≫= k) db.
Proof.
  intros Hk. unfold refuses, mbind, M_bind, query. destruct (fails (db_queries db)); [by repeat split|exact Hk].
Qed.

Lemma refuses_placeholder fails t newId pid holder ct {B} (f : string -> M B) db :
  refuses (upsertFromChain fails t newId pid holder ct 0 0 0 (Some 0) false ≫= f) db.
Proof.
  unfold upsertFromChain. destruct (toCoverageTypeDb ct) as [c|m]; [|by repeat split]. unfold lift, refuses, mbind, M_bind, mret, M_ret, query.
  destruct (fails (db_queries db)); [done|]. cbn. split_and!; done.
Qed.

Definition claimedPolicy (fields : list (string * native)) : res string string :=
  asString (orElse (jm_get fields "policy_id") (jm_get fields "policyId")) "policy_id".

Lemma claim_unknown_refused fails t newId ev fields pid db : ev_value ev = NObj fields -> claimedPolicy fields = Ok pid ->
  jm_get (db_policies db) pid = None -> refuses (handleClaimProcessed fails t newId ev) db.
Proof.
  intros Hv Hp Hn. unfold handleClaimProcessed. rewrite Hv. apply refuses_lift. intros v [= <-].
  apply refuses_lift. intros p Ep. unfold claimedPolicy in Hp. assert (p = pid) as -> by congruence.
  do 5 (apply refuses_lift; intros ? _).
  apply (refuses_read fails (fun d => pl_id <$> jm_get (db_policies d) pid)). cbn [bumped db_policies]. rewrite Hn.
  apply refuses_placeholder.
Qed.

Lemma projectRaw_refused fails t raw fields pid db : extractEventTopicName (re_topics raw) = Some "claim_processed" ->
  re_value raw = Some (NObj fields) -> claimedPolicy fields = Ok pid -> jm_get (db_policies db) pid = None ->
  (re_id raw ∉ processedIds db) -> refuses (projectRaw fails t genId raw) db.
Proof.
  intros Ht Hv Hp Hn Hnew. unfold projectRaw. rewrite Ht.
  apply (refuses_read fails (fun d => bool_decide (re_id raw ∈ map pe_eventId (db_processed d)))).
  rewrite bool_decide_eq_false_2 by done. change (negb (bool_decide ("claim_processed" = "")) && isKnownTopic "claim_processed") with true. cbv iota zeta.
  assert (refuses (dispatch fails t genId "claim_processed" (decodedEvent raw "claim_processed")) (bumped db)) as [H1 H2].
  { change (refuses (handleClaimProcessed fails t (genId (db_queries (bumped db))) (decodedEvent raw "claim_processed")) (bumped db)).
    apply (claim_unknown_refused fails t _ _ fields pid); [cbn; by rewrite Hv|done|done]. }
  unfold refuses, mbind, M_bind. destruct (dispatch _ _ _ _ _ _) as [[]  db']; [done|]. done.
Qed.
(** One poll that meets such an event first. *)
Lemma poll_refused fails t rpc chain oldest latest scan rejection tip s raw rest :
  HonestNode rpc cfg chain oldest latest scan rejection tokenOf -> StronglySorted before chain -> 0 < tip ->
  pending chain (startLedgerOf tip (default (0, "") (db_cursor s.2))) (default (0, "") (db_cursor s.2)) = raw :: rest ->
  (forall db, sameTables s.2 db -> refuses (projectRaw fails t genId raw) db) ->
  sameTables s.2 (poll fails t genId rpc (Some (Ok tip)) cfg (S (length chain)) s).2.
Proof.
  intros Hnode Hsorted Htip Hpend Href. unfold poll. destruct (negb _); [by repeat split|]. destruct (bool_decide _); [by repeat split|].
  destruct (sv_running s.1); [by repeat split|]. erewrite drain_reference; [|done..].
  unfold referenceDrain. unfold mbind at 1, N_bind at 1. unfold onDb at 1, getCursor, query. cbn [fst snd].
  destruct (fails (db_queries s.2)); [by repeat split|]. cbn [fst snd db_cursor]. unfold mbind at 1, N_bind at 1. cbn [modify fst snd]. cbv zeta.
  destruct (_ || _); [by repeat split|]. unfold mbind at 1, N_bind at 1. cbn [modify fst snd].
  destruct (reached_prefix cfg chain scan Hsorted (startLedgerOf tip (default (0, "") (db_cursor s.2))) (default (0, "") (db_cursor s.2))) as [k Hk].
  rewrite Hpend in Hk. destruct (reached _ _ _ _ _) as [|raw' l]; [by repeat split|]. injection Hk as <- _. cbn [iterEvents].
  destruct (Href (bumped s.2)) as [H1 H2]; [by repeat split|]. unfold processRawEvent, mbind, N_bind, onDb. cbn [fst snd].
  fold (bumped s.2). destruct (projectRaw fails t genId raw (bumped s.2)) as [[b|f] db']; [done|]. exact H2.
Qed.

(** A claim for a policy whose purchase was not indexed stops the indexer.  When
    the next event is such a claim, the handler's placeholder policy (no coverage, no
    premium, no duration) violates the CHECK constraints of the table, so the event
    is neither projected nor skipped: whatever statements fail and however many polls
    follow, no table and not even the cursor changes. *)
Theorem unknown_policy_claim_blocks (rpc : Request -> res string Response) (chain rest : list RawRpcEvent) (oldest latest scan : Z) (rejection : string) (tip : Z)
    (s : Service * Db) (raw : RawRpcEvent) (cursor : Z * string) (fields : list (string * native)) (pid : string)
    (Hnode : HonestNode rpc cfg chain oldest latest scan rejection tokenOf) (Hsorted : StronglySorted before chain) (Htip : 0 < tip)
    (Hcursor : cursor = default (0, "") (db_cursor s.2))
    (Hnext : pending chain (startLedgerOf tip cursor) cursor = raw :: rest)
    (Hclaim : extractEventTopicName (re_topics raw) = Some "claim_processed" ∧ re_value raw = Some (NObj fields) ∧
              claimedPolicy fields = Ok pid)
    (Hunknown : jm_get (db_policies s.2) pid = None ∧ re_id raw ∉ processedIds s.2) (schedule : list ((nat -> bool) * Z)) :
  sameTables s.2 (foldl (fun st ft => poll ft.1 ft.2 genId rpc (Some (Ok tip)) cfg (S (length chain)) st) s schedule).2.
Proof.
  subst cursor. destruct Hclaim as (C1 & C2 & C3), Hunknown as [U1 U2].
  assert (forall st, sameTables s.2 st.2 ->
    sameTables s.2 (foldl (fun st ft => poll ft.1 ft.2 genId rpc (Some (Ok tip)) cfg (S (length chain)) st) st schedule).2) as Hgen;
    [|apply Hgen; by repeat split].
  induction schedule as [|[fails t] schedule IH]; intros st Hst; [done|]. cbn [foldl fst snd]. apply IH.
  destruct Hst as (S1 & S2 & S3 & S4 & S5).
  assert (sameTables st.2 (poll fails t genId rpc (Some (Ok tip)) cfg (S (length chain)) st).2) as (R1 & R2 & R3 & R4 & R5);
    [|by split_and!; congruence].
  eapply poll_refused; [done|done|done|rewrite S5; exact Hnext|]. intros db (D1 & D2 & D3 & D4 & D5).
  apply (projectRaw_refused fails t raw fields pid); [done|done|done|congruence|]. unfold processedIds in *. rewrite D4, S4. done.
Qed.
(** ** Projection and mark are two statements *)

(** The provider, amount and shares of a [capital_provided] event. *)
Definition flowOf (fields : list (string * native)) : res string (string * Z * Z) :=
  p ← asString (jm_get fields "provider") "provider";
  u ← asBigInt (orElse (orElse (jm_get fields "usdc_amount") (jm_get fields "amount")) (jm_get fields "usdcAmount")) "usdc_amount";
  sh ← asBigInt (jm_get fields "shares") "shares";
  Ok (p, u, sh).

Lemma capitalFlow_run ev fields x db : ev_value ev = NObj fields -> flowOf fields = Ok x -> capitalFlow ev db = (Ok x, db).
Proof.
  intros Hv. unfold flowOf, capitalFlow. rewrite Hv. intros (p & Hp & (u & Hu & (sh & Hsh & [= <-])%res_bind_Ok)%res_bind_Ok)%res_bind_Ok.
  unfold lift, mbind, M_bind, asRecord, mret, M_ret. by rewrite Hp, Hu, Hsh.
Qed.

Definition balance (db : Db) (provider : string) : Z * Z :=
  match jm_get (db_positions db) provider with Some p => (ps_shares p, ps_usdcDeposited p) | None => (0, 0) end.

(** The projection of a deposit by its three statements. *)
Lemma projectRaw_deposit fails t raw fields provider usdc shares db :
  extractEventTopicName (re_topics raw) = Some "capital_provided" -> re_value raw = Some (NObj fields) ->
  flowOf fields = Ok (provider, usdc, shares) -> 0 <= usdc -> 0 <= shares ->
  (forall p, jm_get (db_positions db) provider = Some p -> positionChecks p = true) -> (re_id raw ∉ processedIds db) ->
  fails (db_queries db) = false -> fails (S (db_queries db)) = false ->
  let '(r, db') := projectRaw fails t genId raw db in
  is_ok r = negb (fails (S (S (db_queries db)))) ∧
  balance db' provider = ((balance db provider).1 + shares, (balance db provider).2 + usdc) ∧
  (forall p, jm_get (db_positions db') provider = Some p -> positionChecks p = true) ∧
  (fails (S (S (db_queries db))) = true -> db_processed db' = db_processed db) ∧ db_cursor db' = db_cursor db.
Proof.
  intros Ht Hv Hf Hu Hs Hpos Hnew Q1 Q2. unfold projectRaw, hasProcessed. unfold mbind at 1, M_bind at 1. unfold query at 1. rewrite Q1.
  fold (bumped db). rewrite bool_decide_eq_false_2 by done. rewrite Ht.
  change (negb (bool_decide ("capital_provided" = "")) && isKnownTopic "capital_provided") with true. cbv iota zeta.
  assert (dispatch fails t genId "capital_provided" (decodedEvent raw "capital_provided") (bumped db)
          = applyProvide fails provider usdc shares (bumped db)) as Hd.
  { change (handleCapitalProvided fails (decodedEvent raw "capital_provided") (bumped db) = applyProvide fails provider usdc shares (bumped db)).
    unfold handleCapitalProvided, mbind, M_bind. rewrite (capitalFlow_run _ fields (provider, usdc, shares)); [done|cbn; by rewrite Hv|done]. }
  unfold mbind at 1, M_bind at 1. rewrite Hd.
  unfold applyProvide, query at 1. cbn [bumped db_queries db_positions]. rewrite Q2.
  set (row' := match jm_get (db_positions db) provider with Some p => _ | None => _ end).
  assert (positionChecks (mkPosition shares usdc 0) = true) as C1 by (unfold positionChecks; cbn; lia).
  assert (positionChecks row' = true) as C2.
  { unfold row'. destruct (jm_get (db_positions db) provider) as [p|]; [|done]. specialize (Hpos p eq_refl). unfold positionChecks in *. cbn. lia. }
  rewrite C1, C2. cbn [andb negb]. unfold tryMarkProcessed, mbind, M_bind, query.
  cbn [setPositions db_queries db_processed db_positions db_policies db_claims db_cursor].
  assert (forall d, jm_get (db_positions d) provider = Some row' ->
    balance d provider = ((balance db provider).1 + shares, (balance db provider).2 + usdc) ∧
    (forall p, jm_get (db_positions d) provider = Some p -> positionChecks p = true)) as Hbal.
  { intros d Hd2. split; [|by intros p; rewrite Hd2; intros [= <-]]. unfold balance. rewrite Hd2. unfold row'.
    by destruct (jm_get (db_positions db) provider). }
  destruct (fails (S (S (db_queries db)))); cbn [negb].
  - split; [done|]. match goal with |- context [balance ?d _] => destruct (Hbal d) as [B1 B2]; [cbn; by rewrite jm_get_set_eq|] end.
    split; [done|split; [done|done]].
  - cbn [pe_eventId]. rewrite bool_decide_eq_false_2 by done. split; [done|].
    match goal with |- context [balance ?d _] => destruct (Hbal d) as [B1 B2]; [cbn; by rewrite jm_get_set_eq|] end. done.
Qed.

(** A deposit can be credited twice.  Projecting an event and marking it processed
    are two statements without a transaction: when the mark fails after a
    [capital_provided] event was applied, the event is retried, and the next attempt
    credits the same shares and the same USDC again. *)
Theorem failed_mark_credits_twice (raw : RawRpcEvent) (fields : list (string * native)) (provider : string) (usdc shares t t' : Z)
    (db : Db) (Htopic : extractEventTopicName (re_topics raw) = Some "capital_provided") (Hv : re_value raw = Some (NObj fields))
    (Hflow : flowOf fields = Ok (provider, usdc, shares)) (Hamounts : 0 <= usdc ∧ 0 <= shares)
    (Hrow : forall p, jm_get (db_positions db) provider = Some p -> positionChecks p = true) (Hnew : re_id raw ∉ processedIds db) :
  let '(r1, db1) := projectRaw (fun n => bool_decide (n = S (S (db_queries db)))) t genId raw db in
  let '(r2, db2) := projectRaw (fun _ => false) t' genId raw db1 in
  is_ok r1 = false ∧ is_ok r2 = true ∧ (re_id raw ∉ processedIds db1) ∧
  balance db2 provider = ((balance db provider).1 + 2 * shares, (balance db provider).2 + 2 * usdc).
Proof.
  destruct Hamounts as [Hu Hs]. pose proof (projectRaw_deposit (fun n => bool_decide (n = S (S (db_queries db)))) t raw fields provider usdc shares db
    Htopic Hv Hflow Hu Hs Hrow Hnew) as H1. specialize (H1 ltac:(by apply bool_decide_eq_false_2; lia) ltac:(by apply bool_decide_eq_false_2; lia)).
  destruct (projectRaw _ t genId raw db) as [r1 db1]. destruct H1 as (R1 & B1 & P1 & M1 & _). rewrite bool_decide_eq_true_2 in R1, M1 by done.
  assert (re_id raw ∉ processedIds db1) as Hnew1 by (unfold processedIds; by rewrite M1).
  pose proof (projectRaw_deposit (fun _ => false) t' raw fields provider usdc shares db1 Htopic Hv Hflow Hu Hs P1 Hnew1 eq_refl eq_refl) as H2.
  destruct (projectRaw _ t' genId raw db1) as [r2 db2]. destruct H2 as (R2 & B2 & _).
  split_and!; [done|done|done|]. rewrite B2, B1. cbn. f_equal; lia.
Qed.
End Properties.

(** * Witnesses *)

Definition demoToken (e : RawRpcEvent) : string := "t" +:+ re_id e.
Fixpoint afterToken (c : string) (l : list RawRpcEvent) : list RawRpcEvent :=
  match l with [] => [] | e :: r => if bool_decide (demoToken e = c) then r else afterToken c r end.

Fixpoint ofToken (c : string) (l : list RawRpcEvent) : Z :=
  match l with [] => 0 | e :: r => if bool_decide (demoToken e = c) then re_ledger e else ofToken c r end.

Definition demoRejection (oldest latest : Z) : string :=
  "startLedger must be within the ledger range: " +:+ showZ oldest +:+ " - " +:+ showZ latest.

(** A node that holds [chain] in memory and looks [scan] ledgers ahead. *)
Definition demoRpc (cfg : EventIndexerConfigSlice) (chain : list RawRpcEvent) (oldest latest scan : Z) (request : Request) : res string Response :=
  let answer selected :=
    let events := take (limit cfg) selected in Ok (mkResponse events (demoToken <$> last events) (Some latest) (Some oldest)) in
  match rq_cursor request, rq_startLedger request with
  | Some c, _ => answer (scanned scan (ofToken c chain) (afterToken c chain))
  | None, Some s =>
      if (s <? oldest) || (latest <? s) then Err (demoRejection oldest latest)
      else answer (scanned scan s (filter (fun e => s <= re_ledger e) chain))
  | None, None => Err "startLedger or cursor required"
  end.

Lemma demoToken_inj a b : demoToken a = demoToken b -> re_id a = re_id b.
Proof. unfold demoToken. intros E. by injection E. Qed.

Lemma afterToken_split pre e post : NoDup (map re_id (pre ++ e :: post)) ->
  afterToken (demoToken e) (pre ++ e :: post) = post ∧ ofToken (demoToken e) (pre ++ e :: post) = re_ledger e.
Proof.
  induction pre as [|x pre IH]; cbn; [by rewrite !bool_decide_eq_true_2|]. intros [Hx Hn]%NoDup_cons.
  rewrite !bool_decide_eq_false_2; [by apply IH|]; intros E%demoToken_inj; apply Hx; rewrite E; apply list_elem_of_fmap; exists e; set_solver.
Qed.

Lemma demoRejection_retention oldest latest : isRetentionMessage (demoRejection oldest latest) = true.
Proof. reflexivity. Qed.

Lemma demoRpc_honest cfg chain oldest latest scan : 0 < ic_pageLimit cfg -> 0 < scan -> NoDup (map re_id chain) ->
  (forall e, e ∈ chain -> re_ledger e <= latest) ->
  HonestNode (demoRpc cfg chain oldest latest scan) cfg chain oldest latest scan (demoRejection oldest latest) demoToken.
Proof.
  intros Hl Hsc Hn Ht. split; [unfold limit; lia|done|done|done| | |apply demoRejection_retention|].
  - intros s Hs. assert ((s <? oldest) || (latest <? s) = false) as E by lia. eexists. unfold demoRpc. cbn. rewrite E. split; [reflexivity|].
    cbn. split_and!; try done. intros _ e He. unfold nextPageCursor. cbn. by rewrite He.
  - intros s Hs. assert ((s <? oldest) || (latest <? s) = true) as E by lia. unfold demoRpc. cbn. by rewrite E.
  - intros pre e post -> _. destruct (afterToken_split pre e post Hn) as [E1 E2]. eexists. unfold demoRpc. cbn. rewrite E1, E2. split; [reflexivity|].
    cbn. split_and!; try done. intros _ x Hx. unfold nextPageCursor. cbn. by rewrite Hx.
Qed.

Definition demoCfg : EventIndexerConfigSlice := mkConfig true 5000 100 2 ["CPOOL"].
Definition demoDeposit (id : string) (ledger : Z) : RawRpcEvent :=
  mkRaw id ledger None "CPOOL" (Some ("tx" +:+ id)) [NStr "capital_provided"]
    (Some (NObj [("provider", NStr "alice"); ("amount", NBig 5); ("shares", NBig 7)])) None.
Definition demoClaim (id : string) (ledger : Z) (tx : string) (policy : string) : RawRpcEvent :=
  mkRaw id ledger None "CPOOL" (Some tx) [NStr "claim_processed"]
    (Some (NObj [("policy_id", NStr policy); ("holder", NStr "bob"); ("payout", NBig 9); ("coverage_type", NNum 0)])) None.

Definition demoChain : list RawRpcEvent := [demoDeposit "a" 10; demoDeposit "b" 10; demoDeposit "c" 12; demoDeposit "d" 13].
Definition demoNode : Request -> res string Response := demoRpc demoCfg demoChain 1 14 100.
Definition demoState : Service * Db := (newService, setCursor emptyDb (Some (10, "a"))).
Definition demoGen (n : nat) : string := "policy" +:+ showZ (Z.of_nat n).

Lemma demoChain_sorted : StronglySorted before demoChain.
Proof. repeat (constructor; [|repeat constructor; (left; cbn; lia) || (right; split; [done|vm_compute; reflexivity])]). constructor. Qed.
Lemma demoChain_ids : NoDup (map re_id demoChain).
Proof. apply NoDup_ListNoDup. repeat constructor; cbn; intuition discriminate. Qed.
Lemma demoChain_tip e : e ∈ demoChain -> re_ledger e <= 14.
Proof. intros He. unfold demoChain in He. repeat (apply elem_of_cons in He as [->|He]; [cbn; lia|]). by apply not_elem_of_nil in He. Qed.
Lemma demoNode_honest : HonestNode demoNode demoCfg demoChain 1 14 100 (demoRejection 1 14) demoToken.
Proof. apply demoRpc_honest; [cbn; lia|lia|apply demoChain_ids|apply demoChain_tip]. Qed.

Lemma paging_is_transparent_witness :
  @drainFromCursor demoHost (fun _ => false) 0 demoGen demoNode (Some (Ok 14)) demoCfg 5 demoState
  = @referenceDrain demoHost (fun _ => false) 0 demoGen demoCfg demoChain 1 14 100 (demoRejection 1 14) 14 demoState.
Proof.
  apply (@paging_is_transparent demoHost 0 demoGen demoCfg demoToken (fun _ => false) demoNode demoChain 1 14 100 (demoRejection 1 14) 14 demoState);
    [apply demoNode_honest|apply demoChain_sorted|lia].
Defined.

Definition demoAfter : Service * Db := @poll demoHost (fun _ => false) 0 demoGen demoNode (Some (Ok 14)) demoCfg 5 demoState.

Lemma poll_leaves_no_gap_witness : passed demoState.2 demoAfter.2 true (pending demoChain 10 (10, "a")) ∧
  processedIds demoAfter.2 = ["b"; "c"; "d"] ∧ db_cursor demoAfter.2 = Some (13, "d") ∧ balance demoAfter.2 "alice" = (21, 15).
Proof.
  split; [|vm_compute; done].
  destruct (@poll_leaves_no_gap demoHost 0 demoGen demoCfg demoToken (fun _ => false) demoNode demoChain 1 14 100 (demoRejection 1 14) 14 demoState (10, "a"))
    as [Hin _]; [reflexivity|apply demoNode_honest|apply demoChain_sorted|lia|done|reflexivity|].
  destruct Hin as (Hp & _ & Hall); [vm_compute; split; discriminate|]. rewrite Hall in Hp by (vm_compute; reflexivity). exact Hp.
Defined.

(** A node that looks two ledgers ahead never shows this indexer the event four
    ledgers past its cursor. *)
Definition demoGap : list RawRpcEvent := [demoDeposit "a" 10; demoDeposit "g" 14].
Lemma quiet_stretch_stalls_witness : sameTables demoState.2
  (foldl (fun st ft => @poll demoHost ft.1 ft.2 demoGen (demoRpc demoCfg demoGap 1 20 2) (Some (Ok 20)) demoCfg 3 st) demoState
     [((fun _ => false), 0); ((fun _ => false), 5000)]).2.
Proof.
  apply (@quiet_stretch_stalls demoHost demoGen demoCfg demoToken (demoRpc demoCfg demoGap 1 20 2) demoGap 1 20 2 (demoRejection 1 20) 20 demoState (10, "a")).
  - done.
  - apply demoRpc_honest; [cbn; lia|lia| |].
    + apply NoDup_ListNoDup. repeat constructor; cbn; intuition discriminate.
    + intros e He. unfold demoGap in He. repeat (apply elem_of_cons in He as [->|He]; [cbn; lia|]). by apply not_elem_of_nil in He.
  - repeat (constructor; [|repeat constructor; left; cbn; lia]). constructor.
  - lia.
  - intros e He. replace (pending demoGap (10, "a").1 (10, "a")) with [demoDeposit "g" 14] in He by reflexivity.
    apply list_elem_of_singleton in He as ->. cbn. lia.
  - vm_compute. lia.
Defined.

Definition demoQuiet : Service * Db := (newService, emptyDb).

Lemma quiet_start_drops_events_witness :
  let s1 := @poll demoHost (fun _ => false) 0 demoGen (demoRpc demoCfg [] 1 9 100) (Some (Ok 9)) demoCfg 1 demoQuiet in
  let s2 := @poll demoHost (fun _ => false) 0 demoGen demoNode (Some (Ok 13)) demoCfg 5 s1 in
  re_id (demoDeposit "a" 10) ∉ processedIds s2.2.
Proof.
  cbv zeta.
  apply (@quiet_start_drops_events demoHost 0 demoGen demoCfg demoToken (fun _ => false) (fun _ => false) (demoRpc demoCfg [] 1 9 100) demoNode
    [] demoChain 1 9 1 14 9 13 100 (demoRejection 1 9) (demoRejection 1 14) demoQuiet (demoDeposit "a" 10));
    [apply demoRpc_honest; [cbn; lia|lia|constructor|by intros x ?%not_elem_of_nil]|apply demoNode_honest|constructor|apply demoChain_sorted|apply demoChain_ids|done|lia| | | |done].
  - split; [done|apply not_elem_of_nil].
  - intros x Hx. by apply not_elem_of_nil in Hx.
  - split; [by left|cbn; lia].
Defined.

Definition demoBlocked : list RawRpcEvent := [demoClaim "e" 20 "tx1" "77"; demoDeposit "f" 21].

Lemma unknown_policy_claim_blocks_witness : sameTables demoState.2
  (foldl (fun st ft => @poll demoHost ft.1 ft.2 demoGen (demoRpc demoCfg demoBlocked 1 30 100) (Some (Ok 30)) demoCfg 3 st) demoState
     [((fun _ => false), 0); ((fun n => bool_decide (n = 5%nat)), 5000); ((fun _ => false), 10000)]).2.
Proof.
  apply (@unknown_policy_claim_blocks demoHost demoGen demoCfg demoToken (demoRpc demoCfg demoBlocked 1 30 100) demoBlocked [demoDeposit "f" 21]
    1 30 100 (demoRejection 1 30) 30 demoState (demoClaim "e" 20 "tx1" "77") (10, "a")
    [("policy_id", NStr "77"); ("holder", NStr "bob"); ("payout", NBig 9); ("coverage_type", NNum 0)] "77").
  - apply demoRpc_honest; [cbn; lia|lia| |].
    + apply NoDup_ListNoDup. repeat constructor; cbn; intuition discriminate.
    + intros e He. unfold demoBlocked in He. repeat (apply elem_of_cons in He as [->|He]; [cbn; lia|]). by apply not_elem_of_nil in He.
  - repeat (constructor; [|repeat constructor; left; cbn; lia]). constructor.
  - lia.
  - reflexivity.
  - vm_compute. reflexivity.
  - vm_compute. done.
  - split; [reflexivity|apply not_elem_of_nil].
Defined.

Lemma failed_mark_credits_twice_witness :
  let '(r1, db1) := @projectRaw demoHost (fun n => bool_decide (n = 2%nat)) 0 demoGen (demoDeposit "a" 10) emptyDb in
  let '(r2, db2) := @projectRaw demoHost (fun _ => false) 1 demoGen (demoDeposit "a" 10) db1 in
  is_ok r1 = false ∧ is_ok r2 = true ∧ (re_id (demoDeposit "a" 10) ∉ processedIds db1) ∧ balance db2 "alice" = (0 + 2 * 7, 0 + 2 * 5).
Proof.
  apply (@failed_mark_credits_twice demoHost demoGen (demoDeposit "a" 10)
    [("provider", NStr "alice"); ("amount", NBig 5); ("shares", NBig 7)] "alice" 5 7 0 1 emptyDb);
    [vm_compute; reflexivity|reflexivity|vm_compute; reflexivity|lia|done|apply not_elem_of_nil].
Defined.

(** Claims are told apart by their transaction: of two claims settled in one
    transaction only the first is recorded, and both policies are deactivated. *)
Definition demoPolicyRow (id : string) : PolicyRow := mkPolicy id "bob" "stablecoin_depeg" 9 1 30 1000 true 0.
Definition demoInsured : Db := setPolicies emptyDb [("1", demoPolicyRow "u1"); ("2", demoPolicyRow "u2")].

Lemma claims_of_one_transaction :
  let run e db := (@projectRaw demoHost (fun _ => false) 0 demoGen e db).2 in
  let db := run (demoClaim "h" 30 "tx9" "2") (run (demoClaim "g" 30 "tx9" "1") demoInsured) in
  map cl_policyUuid (db_claims db) = ["u1"] ∧ map (fun p => pl_isActive p.2) (db_policies db) = [false; false] ∧
  processedIds db = ["g"; "h"].
Proof. vm_compute. done. Qed.
