(* ===== verification/Attestation.v ===== *)
(** TEE attestation of provider readings
    (src/oracle/attestation/attestation-verifier.ts).

    The per-TEE verifiers, the CRL probe, the replay store and the canonicaliser are
    the injected dependencies of the source; each may throw.  Submissions come from
    outside, so a field may be absent or of another type ([option]).  A quote is the
    list of its bytes; [Buffer.from(s, "base64")] is a parameter. *)

From stdpp Require Import base list strings.
From Stdlib Require Import ZArith Lia Ascii.
From S2P Require Import Prelude Decimal JsNum JsDate Canonical.

#[local] Open Scope Z_scope.

Inductive TeeType := AwsNitro | Sgx.
#[global] Instance TeeType_eq_dec : EqDecision TeeType. Proof. solve_decision. Defined.
Definition teeText (t : TeeType) : string := match t with AwsNitro => "aws-nitro" | Sgx => "sgx" end.
Definition SUPPORTED_TEE_TYPES : list TeeType := [AwsNitro; Sgx].

Inductive AttestationTier := Attested | Base | Failed.

(** [None] for a field that is missing or not a string. *)
Record AttestationSubmission := mkSubmission {
  as_teeType : option string; as_quote : option string; as_nonce : option string; as_payloadHash : option string }.

(** What is supplied: nothing, a value that is not an object, or an object. *)
Inductive Supplied := NotSupplied | NotObject | Object (s : AttestationSubmission).

Inductive HashAlgorithm := SHA256 | SHA384 | SHA512.

Inductive AttestationFailureReason :=
| MissingQuote | UnsupportedTeeType | MalformedQuote | OversizedQuote | InvalidQuoteSignature | QuoteNotYetValid | QuoteExpired
| VendorRootUnavailable | CrlUnavailable | NonceMismatch | NonceReplayed | PayloadHashMismatch | UnknownMeasurement | VerifierError.

Record AttestationVerificationResult := mkResult {
  vr_tier : AttestationTier; vr_attested : bool; vr_failureReason : option AttestationFailureReason; vr_detail : option string;
  vr_measurement : option string; vr_teeType : option TeeType; vr_policyVersion : string }.

Record VendorRoot := mkRoot { vt_id : string; vt_pem : string }.

(** [None] for a measurement that is not a string. *)
Record ParsedQuote := mkQuote {
  pq_measurement : option string; pq_nonce : option string; pq_payloadHash : option string;
  pq_notBefore : option Z; pq_notAfter : option Z }.

Abbreviation bytes := (list Z).

Record TeeVerifier := mkVerifier {
  tv_parseQuote : bytes -> res string ParsedQuote;
  tv_verifySignature : bytes -> VendorRoot -> res string bool }.

Record AttestationVerifierDeps := mkDeps {
  dp_vendorRoots : list (TeeType * VendorRoot);
  dp_measurementAllowlists : list (TeeType * list string);
  dp_verifiers : list (TeeType * TeeVerifier);
  dp_isCrlAvailable : option (TeeType -> res string bool);
  dp_isNonceReplayed : option (string -> res string bool);
  dp_policyVersion : option string;
  dp_defaultMaxQuoteBytes : option Z }.

(** [cx_canonical] is the canonicalised reading, or what [canonicalize] threw. *)
Record AttestationVerificationContext := mkContext {
  cx_expectedNonce : string; cx_canonical : res string string; cx_hashAlgorithm : option HashAlgorithm; cx_now : option Z;
  cx_maxQuoteBytes : option Z }.

Definition DEFAULT_MAX_QUOTE_BYTES : Z := 64 * 1024.
Definition DEFAULT_POLICY_VERSION : string := "attestation-policy-v1".

Class Crypto := { digestHex : HashAlgorithm -> string -> string; base64Bytes : string -> bytes }.

Definition isSupportedTeeType (value : option string) : option TeeType :=
  v ← value; (fun p => p.2) <$> list_find (fun t => teeText t = v) SUPPORTED_TEE_TYPES.

(** [/^[0-9a-fA-F]+$/] and the value of a digit. *)
Definition hexDigit (c : ascii) : option Z :=
  let n := Z.of_N (N_of_ascii c) in
  if (48 <=? n) && (n <=? 57) then Some (n - 48)
  else if (97 <=? n) && (n <=? 102) then Some (n - 87)
  else if (65 <=? n) && (n <=? 70) then Some (n - 55) else None.
Fixpoint hexBytes (s : text) : option bytes :=
  match s with
  | [] => Some []
  | a :: b :: r => x ← hexDigit a; y ← hexDigit b; t ← hexBytes r; Some (16 * x + y :: t)
  | _ => None
  end.

Definition lowerText (s : string) : string :=
  String.string_of_list_ascii (map (fun c => let n := N_of_ascii c in if ((65 <=? n)%N && (n <=? 90)%N) then ascii_of_N (n + 32) else c)
    (String.list_ascii_of_string s)).

Definition trimmed (s : string) : string := String.string_of_list_ascii (trim (String.list_ascii_of_string s)).

(** [typeof v === "string" && v.length > 0] *)
Definition nonEmptyText (v : option string) : option string := s ← v; if bool_decide (s = "") then None else Some s.

(** Equality of the lower-cased texts. *)
Definition constantTimeEqualHex (a b : string) : bool := bool_decide (lowerText a = lowerText b).

Definition failure (reason : AttestationFailureReason) (detail policyVersion : string) (teeType : option TeeType) (measurement : option string) :
    AttestationVerificationResult :=
  mkResult Failed false (Some reason) (Some detail) measurement teeType policyVersion.

Section Verify.
Context `{Crypto}.

Definition decodeQuote (quote : string) : bytes :=
  let t := trimmed quote in
  if bool_decide (t = "") then base64Bytes t
  else match hexBytes (String.list_ascii_of_string t) with Some b => b | None => base64Bytes t end.

(** [clock] is [Date.now()].  The result is [Err] when the function throws: an
    unrepresentable validity bound in a message, or a canonicaliser that throws. *)
Definition verifyAttestation (submission : Supplied) (context : AttestationVerificationContext) (deps : AttestationVerifierDeps) (clock : Z) :
    res string AttestationVerificationResult :=
  let policyVersion := default DEFAULT_POLICY_VERSION (dp_policyVersion deps) in
  let maxQuoteBytes := match cx_maxQuoteBytes context with Some n => n | None => default DEFAULT_MAX_QUOTE_BYTES (dp_defaultMaxQuoteBytes deps) end in
  let now := default clock (cx_now context) in
  let hashAlgorithm := default SHA256 (cx_hashAlgorithm context) in
  match submission with
  | NotSupplied => Ok (mkResult Base false None None None None policyVersion)
  | NotObject => Ok (failure MalformedQuote "attestation object is not an object" policyVersion None None)
  | Object sub =>
  match isSupportedTeeType (as_teeType sub) with
  | None => Ok (failure UnsupportedTeeType ("unsupported tee type: " +:+ default "undefined" (as_teeType sub)) policyVersion None None)
  | Some teeType =>
  let fail r d := Ok (failure r d policyVersion (Some teeType) None) in
  match as_quote sub with
  | None => fail MissingQuote "attestation claims a TEE type but supplies no quote"
  | Some quote =>
  if bool_decide (trimmed quote = "") then fail MissingQuote "attestation claims a TEE type but supplies no quote"
  else match nonEmptyText (as_nonce sub) with
  | None => fail NonceMismatch "attestation is missing a nonce"
  | Some nonce =>
  match nonEmptyText (as_payloadHash sub) with
  | None => fail PayloadHashMismatch "attestation is missing a payload hash"
  | Some payloadHash =>
  let rawQuote := decodeQuote quote in
  if bool_decide (rawQuote = []) then fail MalformedQuote "decoded quote is empty"
  else if maxQuoteBytes <? Z.of_nat (length rawQuote)
  then fail OversizedQuote ("quote size " +:+ showZ (Z.of_nat (length rawQuote)) +:+ " exceeds limit " +:+ showZ maxQuoteBytes)
  else match jm_get (dp_verifiers deps) teeType with
  | None => fail UnsupportedTeeType ("no verifier registered for tee type: " +:+ teeText teeType)
  | Some verifier =>
  match jm_get (dp_vendorRoots deps) teeType with
  | None => fail VendorRootUnavailable ("no pinned vendor root configured for tee type: " +:+ teeText teeType)
  | Some root =>
  if bool_decide (vt_pem root = "") then fail VendorRootUnavailable ("no pinned vendor root configured for tee type: " +:+ teeText teeType)
  else match (match dp_isCrlAvailable deps with None => Ok true | Some probe => probe teeType end) with
  | Err m => fail CrlUnavailable ("CRL availability probe failed: " +:+ m)
  | Ok false => fail CrlUnavailable ("vendor CRL endpoint unavailable for tee type: " +:+ teeText teeType)
  | Ok true =>
  match tv_parseQuote verifier rawQuote with
  | Err m => fail MalformedQuote ("failed to parse quote: " +:+ m)
  | Ok parsed =>
  match nonEmptyText (pq_measurement parsed) with
  | None => fail MalformedQuote "quote did not contain a measurement"
  | Some measured =>
  let measurement := lowerText measured in
  let failm r d := Ok (failure r d policyVersion (Some teeType) (Some measurement)) in
  match tv_verifySignature verifier rawQuote root with
  | Err m => failm VerifierError ("signature verification threw: " +:+ m)
  | Ok false => failm InvalidQuoteSignature ("quote signature did not validate against pinned root " +:+ vt_id root)
  | Ok true =>
  if match pq_notBefore parsed with Some t => now <? t | None => false end
  then iso ← toISOString (default 0 (pq_notBefore parsed)); failm QuoteNotYetValid ("quote not valid until " +:+ iso)
  else if match pq_notAfter parsed with Some t => t <? now | None => false end
  then iso ← toISOString (default 0 (pq_notAfter parsed)); failm QuoteExpired ("quote expired at " +:+ iso)
  else if negb (constantTimeEqualHex (default nonce (pq_nonce parsed)) (cx_expectedNonce context))
  then failm NonceMismatch "attestation nonce does not match the request nonce"
  else match (match dp_isNonceReplayed deps with None => Ok false | Some store => store (cx_expectedNonce context) end) with
  | Err m => failm VerifierError ("nonce replay check failed: " +:+ m)
  | Ok true => failm NonceReplayed "attestation nonce has already been used"
  | Ok false =>
  canonical ← cx_canonical context;
  let expectedPayloadHash := digestHex hashAlgorithm canonical in
  let claimedPayloadHash := lowerText (default payloadHash (pq_payloadHash parsed)) in
  if negb (constantTimeEqualHex claimedPayloadHash expectedPayloadHash)
  then failm PayloadHashMismatch "attestation payload hash does not match the canonicalized reading"
  else match jm_get (dp_measurementAllowlists deps) teeType with
  | None | Some [] => failm UnknownMeasurement ("no measurement allowlist configured for tee type: " +:+ teeText teeType)
  | Some allowed =>
  if negb (bool_decide (measurement ∈ allowed)) then failm UnknownMeasurement ("measurement " +:+ measurement +:+ " is not in the allowlist")
  else Ok (mkResult Attested true None None (Some measurement) (Some teeType) policyVersion)
  end end end end end end end end end end end end end.

(** [createAttestationVerifier(deps).verify]. *)
Definition createAttestationVerifier (deps : AttestationVerifierDeps) (submission : Supplied) (context : AttestationVerificationContext) (clock : Z) :
    res string AttestationVerificationResult := verifyAttestation submission context deps clock.
End Verify.

(** * What an attested result stands for *)
Section Properties.
Context `{Crypto}.

Definition quoteLimit (context : AttestationVerificationContext) (deps : AttestationVerifierDeps) : Z :=
  match cx_maxQuoteBytes context with Some n => n | None => default DEFAULT_MAX_QUOTE_BYTES (dp_defaultMaxQuoteBytes deps) end.

(** The facts about the request, the quote and the dependencies that together make a
    submission attested. *)
Record evidence (sub : AttestationSubmission) (context : AttestationVerificationContext) (deps : AttestationVerifierDeps) (clock : Z)
    (teeType : TeeType) (quote nonce payloadHash canonical measured : string) (verifier : TeeVerifier) (root : VendorRoot)
    (parsed : ParsedQuote) (allowed : list string) : Prop := {
  ev_tee : isSupportedTeeType (as_teeType sub) = Some teeType;
  ev_quote : as_quote sub = Some quote ∧ trimmed quote ≠ "" ∧ decodeQuote quote ≠ [] ∧ Z.of_nat (length (decodeQuote quote)) <= quoteLimit context deps;
  ev_fields : as_nonce sub = Some nonce ∧ nonce ≠ "" ∧ as_payloadHash sub = Some payloadHash ∧ payloadHash ≠ "";
  ev_verifier : jm_get (dp_verifiers deps) teeType = Some verifier;
  ev_root : jm_get (dp_vendorRoots deps) teeType = Some root ∧ vt_pem root ≠ "";
  ev_crl : forall probe, dp_isCrlAvailable deps = Some probe -> probe teeType = Ok true;
  ev_parsed : tv_parseQuote verifier (decodeQuote quote) = Ok parsed ∧ pq_measurement parsed = Some measured ∧ measured ≠ "";
  ev_signature : tv_verifySignature verifier (decodeQuote quote) root = Ok true;
  ev_window : (forall t, pq_notBefore parsed = Some t -> t <= default clock (cx_now context)) ∧
              (forall t, pq_notAfter parsed = Some t -> default clock (cx_now context) <= t);
  ev_nonce : lowerText (default nonce (pq_nonce parsed)) = lowerText (cx_expectedNonce context);
  ev_fresh : forall store, dp_isNonceReplayed deps = Some store -> store (cx_expectedNonce context) = Ok false;
  ev_payload : cx_canonical context = Ok canonical ∧
    lowerText (lowerText (default payloadHash (pq_payloadHash parsed))) = lowerText (digestHex (default SHA256 (cx_hashAlgorithm context)) canonical);
  ev_allowed : jm_get (dp_measurementAllowlists deps) teeType = Some allowed ∧ lowerText measured ∈ allowed }.

Lemma nonEmptyText_Some v s : nonEmptyText v = Some s <-> v = Some s ∧ s ≠ "".
Proof.
  unfold nonEmptyText. destruct v as [t|]; cbn; [|naive_solver]. destruct (bool_decide_reflect (t = "")); naive_solver.
Qed.

Lemma attested_evidence sub context deps clock r : verifyAttestation (Object sub) context deps clock = Ok r -> vr_tier r = Attested ->
  ∃ teeType quote nonce payloadHash canonical measured verifier root parsed allowed,
    evidence sub context deps clock teeType quote nonce payloadHash canonical measured verifier root parsed allowed.
Proof.
  unfold verifyAttestation. fold (quoteLimit context deps). cbv zeta.
  destruct (isSupportedTeeType (as_teeType sub)) as [teeType|] eqn:E1; [|by intros [= <-]].
  destruct (as_quote sub) as [quote|] eqn:E2; [|by intros [= <-]].
  destruct (bool_decide_reflect (trimmed quote = "")) as [|Hq]; [by intros [= <-]|].
  destruct (nonEmptyText (as_nonce sub)) as [nonce|] eqn:E3; [|by intros [= <-]].
  destruct (nonEmptyText (as_payloadHash sub)) as [payloadHash|] eqn:E4; [|by intros [= <-]].
  destruct (bool_decide_reflect (decodeQuote quote = [])) as [|Hd]; [by intros [= <-]|].
  destruct (Z.ltb_spec (quoteLimit context deps) (Z.of_nat (length (decodeQuote quote)))) as [|Hl]; [by intros [= <-]|].
  destruct (jm_get (dp_verifiers deps) teeType) as [verifier|] eqn:E5; [|by intros [= <-]].
  destruct (jm_get (dp_vendorRoots deps) teeType) as [root|] eqn:E6; [|by intros [= <-]].
  destruct (bool_decide_reflect (vt_pem root = "")) as [|Hpem]; [by intros [= <-]|].
  destruct (match dp_isCrlAvailable deps with None => Ok true | Some probe => probe teeType end) as [[]|m] eqn:E7; [|by intros [= <-]..].
  destruct (tv_parseQuote verifier (decodeQuote quote)) as [parsed|m] eqn:E8; [|by intros [= <-]].
  destruct (nonEmptyText (pq_measurement parsed)) as [measured|] eqn:E9; [|by intros [= <-]].
  destruct (tv_verifySignature verifier (decodeQuote quote) root) as [[]|m] eqn:E10; [|by intros [= <-]..].
  destruct (match pq_notBefore parsed with Some t => _ | None => false end) eqn:E11; [destruct (toISOString _); [by intros [= <-]|done]|].
  destruct (match pq_notAfter parsed with Some t => _ | None => false end) eqn:E12; [destruct (toISOString _); [by intros [= <-]|done]|].
  unfold constantTimeEqualHex.
  destruct (bool_decide_reflect (lowerText (default nonce (pq_nonce parsed)) = lowerText (cx_expectedNonce context))) as [Hnonce|]; [|by intros [= <-]].
  cbn [negb]. destruct (match dp_isNonceReplayed deps with None => Ok false | Some store => store (cx_expectedNonce context) end) as [[]|m] eqn:E13; [by intros [= <-]| |by intros [= <-]].
  destruct (cx_canonical context) as [canonical|] eqn:E14; [|done]. cbn [mbind res_bind].
  match goal with |- context [bool_decide ?P] => destruct (bool_decide_reflect P) as [Hhash|]; [|by intros [= <-]] end. cbn [negb].
  destruct (jm_get (dp_measurementAllowlists deps) teeType) as [[|a allowed]|] eqn:E15; [by intros [= <-]| |by intros [= <-]].
  match goal with |- context [bool_decide ?P] => destruct (bool_decide_reflect P) as [Hin|]; [|by intros [= <-]] end. intros _ _.
  apply nonEmptyText_Some in E3 as [E3 Hn], E4 as [E4 Hp], E9 as [E9 Hm].
  exists teeType, quote, nonce, payloadHash, canonical, measured, verifier, root, parsed, (a :: allowed).
  split; try done.
  - intros probe Ep. by rewrite Ep in E7.
  - split; intros t Et; rewrite Et in *; lia.
  - intros store Es. by rewrite Es in E13.
Qed.
Lemma evidence_attested sub context deps clock teeType quote nonce payloadHash canonical measured verifier root parsed allowed :
  evidence sub context deps clock teeType quote nonce payloadHash canonical measured verifier root parsed allowed ->
  verifyAttestation (Object sub) context deps clock
  = Ok (mkResult Attested true None None (Some (lowerText measured)) (Some teeType) (default DEFAULT_POLICY_VERSION (dp_policyVersion deps))).
Proof.
  intros [E1 (E2 & Hq & Hd & Hl) (E3 & Hn & E4 & Hp) E5 [E6 Hpem] E7 (E8 & E9 & Hm) E10 [E11 E12] E13 E14 [E15 E16] [E17 E18]].
  unfold verifyAttestation. fold (quoteLimit context deps). cbv zeta. rewrite E1, E2, bool_decide_eq_false_2 by done.
  rewrite (proj2 (nonEmptyText_Some _ nonce)), (proj2 (nonEmptyText_Some _ payloadHash)) by done. rewrite bool_decide_eq_false_2 by done.
  assert ((quoteLimit context deps <? Z.of_nat (length (decodeQuote quote))) = false) as -> by lia.
  rewrite E5, E6, bool_decide_eq_false_2 by done.
  assert (match dp_isCrlAvailable deps with None => Ok true | Some probe => probe teeType end = Ok true) as ->.
  { destruct (dp_isCrlAvailable deps); [by apply E7|done]. }
  rewrite E8, (proj2 (nonEmptyText_Some _ measured)) by done. rewrite E10.
  assert (match pq_notBefore parsed with Some t => default clock (cx_now context) <? t | None => false end = false) as ->.
  { destruct (pq_notBefore parsed) as [t|]; [|done]. specialize (E11 t eq_refl). lia. }
  assert (match pq_notAfter parsed with Some t => t <? default clock (cx_now context) | None => false end = false) as ->.
  { destruct (pq_notAfter parsed) as [t|]; [|done]. specialize (E12 t eq_refl). lia. }
  unfold constantTimeEqualHex. rewrite E13, bool_decide_eq_true_2 by done. cbn [negb].
  assert (match dp_isNonceReplayed deps with None => Ok false | Some store => store (cx_expectedNonce context) end = Ok false) as ->.
  { destruct (dp_isNonceReplayed deps); [by apply E14|done]. }
  rewrite E15. cbn [mbind res_bind]. rewrite E16, bool_decide_eq_true_2 by done. cbn [negb]. rewrite E17.
  rewrite bool_decide_eq_true_2 by done. destruct allowed; [by apply not_elem_of_nil in E18|done].
Qed.

(** C17: a submission is attested exactly when every check of the module holds: a
    supported TEE with a registered verifier and a pinned root, a quote that decodes
    within the size limit and whose signature validates against that root, a reachable
    CRL, a current validity window, the nonce of the request, unused, the hash of the
    canonical reading, and a measurement on the allowlist.  When it is, the result
    names that measurement and TEE. *)
Theorem attested_iff_evidence (submission : Supplied) (context : AttestationVerificationContext) (deps : AttestationVerifierDeps) (clock : Z)
    (measurement : option string) (tee : option TeeType) :
  verifyAttestation submission context deps clock
    = Ok (mkResult Attested true None None measurement tee (default DEFAULT_POLICY_VERSION (dp_policyVersion deps))) <->
  ∃ sub teeType quote nonce payloadHash canonical measured verifier root parsed allowed,
    submission = Object sub ∧ measurement = Some (lowerText measured) ∧ tee = Some teeType ∧
    evidence sub context deps clock teeType quote nonce payloadHash canonical measured verifier root parsed allowed.
Proof.
  split.
  - intros Hv. destruct submission as [| |sub]; [done|done|].
    destruct (attested_evidence _ _ _ _ _ Hv eq_refl) as (teeType & quote & nonce & payloadHash & canonical & measured & verifier & root & parsed & allowed & He).
    pose proof (evidence_attested _ _ _ _ _ _ _ _ _ _ _ _ _ _ He) as Hv'. rewrite Hv in Hv'. simplify_eq.
    exists sub, teeType, quote, nonce, payloadHash, canonical, measured, verifier, root, parsed, allowed. done.
  - intros (sub & teeType & quote & nonce & payloadHash & canonical & measured & verifier & root & parsed & allowed & -> & -> & -> & He).
    by eapply evidence_attested.
Qed.

(** An attestation whose quote embeds neither a nonce nor a payload hash binds
    nothing: the module then compares the request with the fields of the submission,
    which the hardware did not sign.  Once such a quote is attested, the same quote is
    attested for any other reading and any fresh request nonce, by writing these into
    the submission. *)
Theorem unbound_quote_attests_any_reading (sub : AttestationSubmission) (context : AttestationVerificationContext)
    (deps : AttestationVerifierDeps) (clock : Z) (teeType : TeeType) (quote nonce payloadHash canonical measured : string)
    (verifier : TeeVerifier) (root : VendorRoot) (parsed : ParsedQuote) (allowed : list string)
    (He : evidence sub context deps clock teeType quote nonce payloadHash canonical measured verifier root parsed allowed)
    (Hunbound : pq_nonce parsed = None ∧ pq_payloadHash parsed = None)
    (canonical' nonce' : string) (Hnonce : nonce' ≠ "")
    (Hfresh : forall store, dp_isNonceReplayed deps = Some store -> store nonce' = Ok false)
    (Hhash : digestHex (default SHA256 (cx_hashAlgorithm context)) canonical' ≠ "" ∧
             lowerText (digestHex (default SHA256 (cx_hashAlgorithm context)) canonical')
             = digestHex (default SHA256 (cx_hashAlgorithm context)) canonical') :
  ∃ r, verifyAttestation
         (Object (mkSubmission (as_teeType sub) (as_quote sub) (Some nonce') (Some (digestHex (default SHA256 (cx_hashAlgorithm context)) canonical'))))
         (mkContext nonce' (Ok canonical') (cx_hashAlgorithm context) (cx_now context) (cx_maxQuoteBytes context)) deps clock = Ok r
    ∧ vr_tier r = Attested.
Proof.
  destruct He as [E1 E2 E3 E4 E5 E6 E7 E8 E9 E10 E11 E12 E13], Hunbound as [U1 U2], Hhash as [H1 H2].
  eexists. split; [eapply (evidence_attested _ _ _ _ teeType quote nonce'
    (digestHex (default SHA256 (cx_hashAlgorithm context)) canonical') canonical' measured verifier root parsed allowed)|reflexivity].
  split; cbn [as_teeType as_quote as_nonce as_payloadHash cx_expectedNonce cx_canonical cx_hashAlgorithm cx_now]; try done.
  - by rewrite U1.
  - rewrite U2. set (d := digestHex _ _) in *. split; [done|]. cbn [default from_option]. by rewrite !H2.
Qed.

(** An attested result, or a failure with its reason, or a throw. *)
Definition shaped (v : res string AttestationVerificationResult) : Prop :=
  match v with
  | Ok r => (vr_tier r = Attested ∧ vr_attested r = true ∧ vr_failureReason r = None) ∨ ∃ reason d pv t m, r = failure reason d pv t m
  | Err _ => True
  end.

Lemma shaped_failure reason d pv t m : shaped (Ok (failure reason d pv t m)).
Proof. right. by exists reason, d, pv, t, m. Qed.

Lemma supplied_shaped sub context deps clock : shaped (verifyAttestation (Object sub) context deps clock).
Proof.
  unfold verifyAttestation. cbv zeta.
  repeat match goal with
  | |- shaped (Ok (failure _ _ _ _ _)) => apply shaped_failure
  | |- shaped (Ok (mkResult _ _ _ _ _ _ _)) => by left
  | |- shaped (Err _) => exact I
  | |- shaped (match ?x with _ => _ end) => destruct x
  | |- shaped (?x ≫= _) => destruct x; cbn [mbind res_bind]
  end.
Qed.

(** C40: the result says what it is.  The flag and the tier agree, a failed result has a
    reason, and an attestation that was supplied, however malformed, is never reported
    at the base tier. *)
Theorem verification_result_wf (submission : Supplied) (context : AttestationVerificationContext) (deps : AttestationVerifierDeps) (clock : Z)
    (r : AttestationVerificationResult) (Hv : verifyAttestation submission context deps clock = Ok r) :
  (vr_attested r = true <-> vr_tier r = Attested) ∧ (vr_tier r = Failed <-> is_Some (vr_failureReason r)) ∧
  (vr_tier r = Base <-> submission = NotSupplied).
Proof.
  destruct submission as [| |sub].
  - injection Hv as <-. cbn. split; [done|]. split; [|done]. split; [done|by intros [? ?]].
  - injection Hv as <-. cbn. split; [done|]. split; [|done]. split; [by eauto|done].
  - pose proof (supplied_shaped sub context deps clock) as Hs. rewrite Hv in Hs. destruct Hs as [(H1 & H2 & H3)|(? & ? & ? & ? & ? & ->)].
    + rewrite H1, H2, H3. split; [done|]. split; [|done]. split; [done|by intros [? ?]].
    + cbn. split; [done|]. split; [|done]. split; [by eauto|done].
Qed.
End Properties.

(** * Witnesses *)

(** Digests are the lower-cased text itself; base64 is not used by the examples. *)
Definition demoCrypto : Crypto := {| digestHex _ s := "h" +:+ lowerText s; base64Bytes _ := [] |}.
Definition demoVerifier : TeeVerifier :=
  mkVerifier (fun q => match q with [255; _] => Err "bad quote" | _ => Ok (mkQuote (Some "ABC") None None (Some 10) (Some 1000)) end)
    (fun _ root => Ok (bool_decide (vt_id root = "root-1"))).
Definition demoDeps : AttestationVerifierDeps :=
  mkDeps [(Sgx, mkRoot "root-1" "pem")] [(Sgx, ["abc"])] [(Sgx, demoVerifier)] (Some (fun _ => Ok true))
    (Some (fun n => Ok (bool_decide (n = "used")))) None None.
Definition demoSubmission : AttestationSubmission := mkSubmission (Some "sgx") (Some "0a0B") (Some "n1") (Some "hprice=1").
Definition demoContext : AttestationVerificationContext := mkContext "N1" (Ok "price=1") None (Some 100) None.

Lemma demo_evidence : @evidence demoCrypto demoSubmission demoContext demoDeps 0 Sgx "0a0B" "n1" "hprice=1" "price=1" "ABC" demoVerifier
  (mkRoot "root-1" "pem") (mkQuote (Some "ABC") None None (Some 10) (Some 1000)) ["abc"].
Proof.
  split; try reflexivity.
  - vm_compute. split_and!; done.
  - vm_compute. split_and!; done.
  - vm_compute. split; done.
  - intros probe [= <-]. reflexivity.
  - vm_compute. split_and!; done.
  - split; intros t [= <-]; vm_compute; discriminate.
  - intros store [= <-]. vm_compute. reflexivity.
  - vm_compute. split; reflexivity.
  - split; [reflexivity|]. vm_compute. left.
Qed.

Lemma unbound_quote_attests_any_reading_witness : ∃ r, @verifyAttestation demoCrypto
  (Object (mkSubmission (Some "sgx") (Some "0a0B") (Some "n2") (Some "hprice=999"))) (mkContext "n2" (Ok "price=999") None (Some 100) None) demoDeps 0 = Ok r
  ∧ vr_tier r = Attested.
Proof.
  apply (@unbound_quote_attests_any_reading demoCrypto demoSubmission demoContext demoDeps 0 Sgx "0a0B" "n1" "hprice=1" "price=1" "ABC"
    demoVerifier (mkRoot "root-1" "pem") (mkQuote (Some "ABC") None None (Some 10) (Some 1000)) ["abc"]) with (canonical' := "price=999") (nonce' := "n2").
  - apply demo_evidence.
  - done.
  - done.
  - intros store [= <-]. vm_compute. reflexivity.
  - split; [vm_compute; discriminate|vm_compute; reflexivity].
Defined.

Lemma verification_result_wf_witness : ∃ r, @verifyAttestation demoCrypto (Object (mkSubmission (Some "sgx") (Some "ff00") (Some "n1") (Some "x")))
  demoContext demoDeps 0 = Ok r ∧ vr_tier r = Failed ∧ is_Some (vr_failureReason r).
Proof.
  eexists. split; [vm_compute; reflexivity|]. split; [reflexivity|].
  eapply (@verification_result_wf demoCrypto (Object (mkSubmission (Some "sgx") (Some "ff00") (Some "n1") (Some "x"))) demoContext demoDeps 0);
    [vm_compute; reflexivity|reflexivity].
Defined.

(** An expiry the calendar cannot represent makes the verifier throw instead of
    failing. *)
Lemma huge_expiry_throws :
  let v := mkVerifier (fun _ => Ok (mkQuote (Some "ABC") None None (Some 8640000000000001) None)) (fun _ _ => Ok true) in
  @verifyAttestation demoCrypto (Object demoSubmission) demoContext
    (mkDeps (dp_vendorRoots demoDeps) (dp_measurementAllowlists demoDeps) [(Sgx, v)] None None None None) 0 = Err "Invalid time value".
Proof. vm_compute. reflexivity. Qed.
