(* ===== verification/Calendar.v ===== *)
(** Feed calendars (src/oracle/calendar.ts): active windows in local time, holidays,
    the cached resolver, and the freshness, halt and plausibility decisions that read
    it.

    Times are integer milliseconds.  [Intl.DateTimeFormat(...).formatToParts] is a
    parameter: the numeric parts of an instant in a zone, or the RangeError of an
    unknown zone or an invalid instant.  The clock is read once per call. *)

From stdpp Require Import base list strings sets.
From Stdlib Require Import ZArith Lia.
From S2P Require Import Prelude Decimal JsNum JsDate Canonical.

#[local] Open Scope Z_scope.

(** * Clocks *)

(** [FixedClock]: the current time. *)
Definition FixedClock : Type := Z.
Definition clockSet (_ : FixedClock) (time : Z) : FixedClock := time.
Definition clockAdvance (c : FixedClock) (ms : Z) : FixedClock := c + ms.

(** * Declarations *)

Record ActiveWindow := mkWindow { aw_days : list Z; aw_startMinutes : Z; aw_endMinutes : Z }.

Inductive QuietBehavior := ExpectedQuiet | Relaxed | AlwaysLive.
#[global] Instance QuietBehavior_eq_dec : EqDecision QuietBehavior. Proof. solve_decision. Defined.
Definition quietText (q : QuietBehavior) : string :=
  match q with ExpectedQuiet => "expected-quiet" | Relaxed => "relaxed" | AlwaysLive => "always-live" end.

Record FeedCalendarDeclaration := mkDeclaration {
  fd_timeZone : string; fd_activeWindows : list ActiveWindow; fd_holidaySource : option string; fd_quietBehavior : QuietBehavior;
  fd_gracePeriodMs : Z }.

Record HolidaySet := mkHolidays { hs_dates : list string; hs_available : bool }.

(** What a provider does: throw, return a promise, or return synchronously. *)
Inductive LoadResult := Threw | Promised | Loaded (s : option HolidaySet).
Definition HolidayProvider : Type := string -> LoadResult.
Definition NullHolidayProvider : HolidayProvider := fun _ => Loaded None.
Definition StaticHolidayProvider (bySourceId : list (string * list string)) : HolidayProvider := fun id =>
  Loaded ((fun dates => mkHolidays dates true) <$> jm_get bySourceId id).

(** * Zoned time *)

Inductive Part := PYear (n : Z) | PMonth (n : Z) | PDay (n : Z) | PHour (n : Z) | PMinute (n : Z) | PSecond (n : Z) | PWeekday (s : string) | POther.

Record ZonedParts := mkZoned {
  zp_year : Z; zp_month : Z; zp_day : Z; zp_hour : Z; zp_minute : Z; zp_second : Z; zp_isoWeekday : Z; zp_dateKey : string;
  zp_minutesSinceMidnight : Z }.

Definition WEEKDAY_TO_ISO : list (string * Z) :=
  [("Mon", 1); ("Tue", 2); ("Wed", 3); ("Thu", 4); ("Fri", 5); ("Sat", 6); ("Sun", 7)].

Definition pad2 (n : Z) : string := if n <? 10 then "0" +:+ showZ n else showZ n.

(** The accumulator of the loop: year, month, day, hour, minute, second, weekday. *)
Record Fields := mkFields { f_y : Z; f_mo : Z; f_d : Z; f_h : Z; f_mi : Z; f_s : Z; f_w : string }.
Definition fieldStep (f : Fields) (p : Part) : Fields :=
  match p with
  | PYear n => mkFields n (f_mo f) (f_d f) (f_h f) (f_mi f) (f_s f) (f_w f)
  | PMonth n => mkFields (f_y f) n (f_d f) (f_h f) (f_mi f) (f_s f) (f_w f)
  | PDay n => mkFields (f_y f) (f_mo f) n (f_h f) (f_mi f) (f_s f) (f_w f)
  | PHour n => mkFields (f_y f) (f_mo f) (f_d f) (Z.rem n 24) (f_mi f) (f_s f) (f_w f)
  | PMinute n => mkFields (f_y f) (f_mo f) (f_d f) (f_h f) n (f_s f) (f_w f)
  | PSecond n => mkFields (f_y f) (f_mo f) (f_d f) (f_h f) (f_mi f) n (f_w f)
  | PWeekday s => mkFields (f_y f) (f_mo f) (f_d f) (f_h f) (f_mi f) (f_s f) s
  | POther => f
  end.

(** * Window evaluation *)

Definition minutesInWindow (minutes start end' : Z) : bool :=
  if start =? end' then false
  else if start <? end' then (start <=? minutes) && (minutes <? end')
  else (start <=? minutes) || (minutes <? end').

Definition inWindow (zoned : ZonedParts) (w : ActiveWindow) : bool :=
  if aw_startMinutes w <? aw_endMinutes w then
    bool_decide (zp_isoWeekday zoned ∈ aw_days w) && minutesInWindow (zp_minutesSinceMidnight zoned) (aw_startMinutes w) (aw_endMinutes w)
  else
    (bool_decide (zp_isoWeekday zoned ∈ aw_days w) && (aw_startMinutes w <=? zp_minutesSinceMidnight zoned)) ||
    (let prevIso := if zp_isoWeekday zoned =? 1 then 7 else zp_isoWeekday zoned - 1 in
     bool_decide (prevIso ∈ aw_days w) && (zp_minutesSinceMidnight zoned <? aw_endMinutes w)).

Definition isWithinActiveWindows (zoned : ZonedParts) (windows : list ActiveWindow) : bool :=
  match windows with [] => true | _ => existsb (inWindow zoned) windows end.

Record ActivityEvaluation := mkEvaluation {
  ae_expectedLive : bool; ae_quiet : bool; ae_quietBehavior : QuietBehavior; ae_holiday : bool; ae_weekend : bool;
  ae_calendarAvailable : bool; ae_zoned : ZonedParts; ae_windowOpenedAt : option Z; ae_graceDeadline : option Z }.

Record CalendarResolver := mkResolver {
  rs_holidayCache : list (string * (HolidaySet * Z));
  rs_evaluationCache : list (string * (ActivityEvaluation * Z)) }.
Definition newResolver : CalendarResolver := mkResolver [] [].

Definition HOLIDAY_CACHE_TTL_MS : Z := 6 * 60 * 60 * 1000.
Definition EVALUATION_CACHE_TTL_MS : Z := 30 * 1000.

Section Resolver.
Variable formatToParts : string -> Z -> res string (list Part).
Variable holidayProvider : HolidayProvider.
Variables holidayCacheTtlMs evaluationCacheTtlMs : Z.

Definition toZonedParts (epochMs : Z) (timeZone : string) : res string ZonedParts :=
  parts ← formatToParts timeZone epochMs;
  let f := foldl fieldStep (mkFields 0 0 0 0 0 0 "Mon") parts in
  Ok (mkZoned (f_y f) (f_mo f) (f_d f) (f_h f) (f_mi f) (f_s f) (default 1 (jm_get WEEKDAY_TO_ISO (f_w f)))
        (showZ (f_y f) +:+ "-" +:+ pad2 (f_mo f) +:+ "-" +:+ pad2 (f_d f)) (f_h f * 60 + f_mi f)).

Definition stepMs : Z := 60000.
Definition maxLookbackMs : Z := 26 * 60 * 60 * 1000.

(** The loop runs while [elapsed < maxLookbackMs]: [n] is the number of steps left. *)
Fixpoint walkBack (n : nat) (cursor : Z) (timeZone : string) (windows : list ActiveWindow) : res string Z :=
  match n with
  | O => Ok cursor
  | S n' =>
      let prev := cursor - stepMs in
      prevParts ← toZonedParts prev timeZone;
      if negb (isWithinActiveWindows prevParts windows) then Ok cursor else walkBack n' prev timeZone windows
  end.

Definition findWindowOpenedAt (nowMs : Z) (timeZone : string) (windows : list ActiveWindow) : res string Z :=
  match windows with
  | [] => Ok 0
  | _ => walkBack (Z.to_nat (maxLookbackMs / stepMs)) nowMs timeZone windows
  end.

Definition resolveHolidays (r : CalendarResolver) (now : Z) (source : option string) : CalendarResolver * HolidaySet :=
  match source with
  | None => (r, mkHolidays [] true)
  | Some id =>
      match (match jm_get (rs_holidayCache r) id with
             | Some (s, loadedAt) => if now - loadedAt <? holidayCacheTtlMs then Some s else None
             | None => None
             end) with
      | Some s => (r, s)
      | None =>
          let loaded := match holidayProvider id with Threw | Promised => None | Loaded s => s end in
          let holidaySet := match loaded with Some s => if hs_available s then s else mkHolidays [] false | None => mkHolidays [] false end in
          (mkResolver (jm_set (rs_holidayCache r) id (holidaySet, now)) (rs_evaluationCache r), holidaySet)
      end
  end.

Definition evaluateAt (r : CalendarResolver) (now epochMs : Z) (d : FeedCalendarDeclaration) : res string ActivityEvaluation * CalendarResolver :=
  match toZonedParts epochMs (fd_timeZone d) with
  | Err e => (Err e, r)
  | Ok zoned =>
      let '(r1, holidaySet) := resolveHolidays r now (fd_holidaySource d) in
      let holiday := hs_available holidaySet && bool_decide (zp_dateKey zoned ∈ hs_dates holidaySet) in
      let weekend := (zp_isoWeekday zoned =? 6) || (zp_isoWeekday zoned =? 7) in
      let calendarAvailable := hs_available holidaySet in
      let withinWindows :=
        if negb calendarAvailable then true else if holiday then false else isWithinActiveWindows zoned (fd_activeWindows d) in
      (if withinWindows then
         opened ← findWindowOpenedAt epochMs (fd_timeZone d) (fd_activeWindows d);
         Ok (mkEvaluation true false (fd_quietBehavior d) holiday weekend calendarAvailable zoned (Some opened) (Some (opened + fd_gracePeriodMs d)))
       else Ok (mkEvaluation false true (fd_quietBehavior d) holiday weekend calendarAvailable zoned None None), r1)
  end.

Definition evaluate (r : CalendarResolver) (now : Z) (feedId : string) (d : FeedCalendarDeclaration) : res string ActivityEvaluation * CalendarResolver :=
  match (match jm_get (rs_evaluationCache r) feedId with
         | Some (result, computedAt) => if now - computedAt <? evaluationCacheTtlMs then Some result else None
         | None => None
         end) with
  | Some result => (Ok result, r)
  | None =>
      match evaluateAt r now now d with
      | (Err e, r1) => (Err e, r1)
      | (Ok result, r1) => (Ok result, mkResolver (rs_holidayCache r1) (jm_set (rs_evaluationCache r1) feedId (result, now)))
      end
  end.

Definition clearCache (_ : CalendarResolver) : CalendarResolver := newResolver.
End Resolver.

(** * Decisions that read the calendar *)

(** [None] is [Number.POSITIVE_INFINITY]. *)
Definition effectiveFreshnessWindowMs (baseFreshnessMs : Z) (e : ActivityEvaluation) : option Z :=
  if ae_expectedLive e then Some baseFreshnessMs
  else if bool_decide (ae_quietBehavior e = AlwaysLive) then Some baseFreshnessMs
  else None.

Definition isStale (lastPublishedAt : option Z) (nowMs baseFreshnessMs : Z) (e : ActivityEvaluation) : bool :=
  match lastPublishedAt with
  | None => ae_expectedLive e
  | Some t => match effectiveFreshnessWindowMs baseFreshnessMs e with None => false | Some w => w <? nowMs - t end
  end.

Definition shouldAlertUnscheduledHalt (lastPublishedAt : option Z) (nowMs : Z) (e : ActivityEvaluation) : bool :=
  if negb (ae_expectedLive e) then false
  else match ae_graceDeadline e with
  | None => false
  | Some deadline =>
      if nowMs <? deadline then false
      else match lastPublishedAt with
      | None => true
      | Some t => match ae_windowOpenedAt e with Some o => negb (o <=? t) | None => true end
      end
  end.

Record PlausibilityMode := mkMode { pm_suspended : bool; pm_relaxed : bool; pm_reason : option string }.

Definition plausibilityMode (e : ActivityEvaluation) : PlausibilityMode :=
  if ae_expectedLive e then mkMode false false None
  else match ae_quietBehavior e with
  | ExpectedQuiet => mkMode true false (Some (if ae_holiday e then "holiday-quiet" else if ae_weekend e then "weekend-quiet" else "outside-active-window"))
  | Relaxed => mkMode false true (Some (if ae_holiday e then "holiday-relaxed" else if ae_weekend e then "weekend-relaxed" else "outside-active-window-relaxed"))
  | AlwaysLive => mkMode false false None
  end.

Definition boolText (b : bool) : string := if b then "true" else "false".
Definition calendarMetricLabels (e : ActivityEvaluation) : list (string * string) :=
  [("expected_live", boolText (ae_expectedLive e)); ("quiet", boolText (ae_quiet e)); ("quiet_behavior", quietText (ae_quietBehavior e));
   ("holiday", boolText (ae_holiday e)); ("weekend", boolText (ae_weekend e)); ("calendar_available", boolText (ae_calendarAvailable e));
   ("local_date", zp_dateKey (ae_zoned e))].

(** * Active windows as intervals of the week *)

Definition WEEK : Z := 7 * 1440.

(** The length of a window in minutes; a window that does not end after it starts runs
    past midnight. *)
Definition span (w : ActiveWindow) : Z :=
  if aw_startMinutes w <? aw_endMinutes w then aw_endMinutes w - aw_startMinutes w else 1440 - aw_startMinutes w + aw_endMinutes w.

Definition minuteOfWeek (day minute : Z) : Z := (day - 1) * 1440 + minute.

(** The instant lies within [span w] minutes after the start of the window on [day],
    counting around the week. *)
Definition covers (w : ActiveWindow) (day : Z) (z : ZonedParts) : Prop :=
  (minuteOfWeek (zp_isoWeekday z) (zp_minutesSinceMidnight z) - minuteOfWeek day (aw_startMinutes w)) mod WEEK < span w.

Definition windowOk (w : ActiveWindow) : Prop :=
  0 <= aw_startMinutes w <= 1440 ∧ 0 <= aw_endMinutes w <= 1440 ∧ (forall d, d ∈ aw_days w -> 1 <= d <= 7).
Definition zonedOk (z : ZonedParts) : Prop := 1 <= zp_isoWeekday z <= 7 ∧ 0 <= zp_minutesSinceMidnight z < 1440.

(** Where a window on [day] is open at minute [m] of weekday [wd]. *)
Lemma covers_cases s e m wd day : 0 <= s <= 1440 -> 0 <= e <= 1440 -> 0 <= m < 1440 -> 1 <= wd <= 7 -> 1 <= day <= 7 ->
  ((minuteOfWeek wd m - minuteOfWeek day s) mod WEEK < (if s <? e then e - s else 1440 - s + e) <->
   (wd = day ∧ s <= m ∧ (s < e -> m < e)) ∨ (e <= s ∧ day = (if wd =? 1 then 7 else wd - 1) ∧ m < e)).
Proof.
  intros Hs He Hm Hw Hd. unfold minuteOfWeek, WEEK.
  assert (exists k, wd - day = k ∧ -6 <= k <= 6) as (k & Ek & Hk) by (exists (wd - day); lia).
  replace ((wd - 1) * 1440 + m - ((day - 1) * 1440 + s)) with (k * 1440 + (m - s)) by lia.
  assert (k = -6 \/ k = 0 \/ k = 1 \/ (-5 <= k <= -1) \/ (2 <= k <= 6)) as Hc by lia.
  assert (wd = 1 ∧ (wd =? 1) = true \/ 1 < wd ∧ (wd =? 1) = false) as Hw1 by lia.
  assert (s < e ∧ (s <? e) = true \/ e <= s ∧ (s <? e) = false) as Hse by lia.
  destruct Hw1 as [[Hw1 ->]|[Hw1 ->]], Hse as [[Hse ->]|[Hse ->]], Hc as [->|[->|[->|[Hc|Hc]]]]; split; intros;
    Z.to_euclidean_division_equations; lia.
Qed.

Lemma inWindow_covers z w : zonedOk z -> windowOk w -> inWindow z w = true <-> ∃ day, day ∈ aw_days w ∧ covers w day z.
Proof.
  intros [Hwd Hm] (Hs & He & Hd). unfold inWindow, covers, span, minutesInWindow.
  set (s := aw_startMinutes w) in *. set (e := aw_endMinutes w) in *. set (m := zp_minutesSinceMidnight z) in *. set (wd := zp_isoWeekday z) in *.
  assert (forall day, day ∈ aw_days w -> ((minuteOfWeek wd m - minuteOfWeek day s) mod WEEK < (if s <? e then e - s else 1440 - s + e) <->
    (wd = day ∧ s <= m ∧ (s < e -> m < e)) ∨ (e <= s ∧ day = (if wd =? 1 then 7 else wd - 1) ∧ m < e))) as Hcov
    by (intros day Hin; apply covers_cases; auto).
  transitivity (∃ day, day ∈ aw_days w ∧ ((wd = day ∧ s <= m ∧ (s < e -> m < e)) ∨ (e <= s ∧ day = (if wd =? 1 then 7 else wd - 1) ∧ m < e))).
  2: { split; intros (day & Hin & Hx); exists day; (split; [done|]); by apply Hcov. }
  clear Hcov. destruct (Z.ltb_spec s e).
  - assert ((s =? e) = false) as -> by lia. rewrite andb_true_iff, bool_decide_eq_true, andb_true_iff, Z.leb_le, Z.ltb_lt. split.
    + intros [Hin ?]. exists wd. split; [done|]. left. lia.
    + intros (day & Hin & [(-> & ? & ?)|?]); [|lia]. split; [done|]. lia.
  - cbv zeta. rewrite orb_true_iff, !andb_true_iff, !bool_decide_eq_true, Z.leb_le, Z.ltb_lt. split.
    + intros [[Hin ?]|[Hin ?]]; [exists wd|eexists]; (split; [exact Hin|]); [left; lia|right; done].
    + intros (day & Hin & [(-> & ? & ?)|(? & -> & ?)]); [left|right]; done.
Qed.

(** The window test against its reference.  On well-formed windows and local times,
    a feed is within its active windows exactly when it has none, or some window starts
    on one of its days less than its length before the instant, counting around the
    week; windows that run past midnight, also from Sunday into Monday, included.  A
    window whose start equals its end has length 1440: it is open all day. *)
Theorem active_windows_are_week_intervals (z : ZonedParts) (windows : list ActiveWindow) (Hz : zonedOk z)
    (Hw : forall w, w ∈ windows -> windowOk w) :
  isWithinActiveWindows z windows = true <-> windows = [] ∨ ∃ w day, w ∈ windows ∧ day ∈ aw_days w ∧ covers w day z.
Proof.
  unfold isWithinActiveWindows. destruct windows as [|w0 ws]; [split; [by left|done]|]. rewrite existsb_exists. split.
  - intros (w & Hin%list_elem_of_In & Hx). right. apply inWindow_covers in Hx as (day & ? & ?); eauto 10.
  - intros [?|(w & day & Hin & Hd & Hc)]; [done|]. exists w. split; [by apply list_elem_of_In|]. apply inWindow_covers; eauto.
Qed.

(** * The start of the current window *)
Section WindowStart.
Variable formatToParts : string -> Z -> res string (list Part).
Variable holidayProvider : HolidayProvider.
Variables holidayCacheTtlMs evaluationCacheTtlMs : Z.

(** Whether an instant is within the windows; [None] where the zone has no local time. *)
Definition openAt (timeZone : string) (windows : list ActiveWindow) (t : Z) : option bool :=
  match toZonedParts formatToParts t timeZone with Ok z => Some (isWithinActiveWindows z windows) | Err _ => None end.

Lemma walkBack_spec timeZone windows n : forall cursor opened, walkBack formatToParts n cursor timeZone windows = Ok opened ->
  ∃ j : nat, (j <= n)%nat ∧ opened = cursor - Z.of_nat j * stepMs ∧
    (forall i : nat, (1 <= i <= j)%nat -> openAt timeZone windows (cursor - Z.of_nat i * stepMs) = Some true) ∧
    (j = n ∨ openAt timeZone windows (opened - stepMs) = Some false).
Proof.
  induction n as [|n IH]; intros cursor opened; cbn [walkBack].
  - intros [= <-]. exists 0%nat. split_and!; [lia|lia|lia|by left].
  - intros (z & Hz & Hk)%res_bind_Ok. destruct (isWithinActiveWindows z windows) eqn:Ew; cbn [negb] in Hk.
    + destruct (IH _ _ Hk) as (j & Hj & -> & Hall & Hend). exists (S j). split_and!; [lia|unfold stepMs; lia| |].
      * intros i Hi. destruct (decide (i = 1%nat)) as [->|].
        { replace (cursor - Z.of_nat 1 * stepMs) with (cursor - stepMs) by (unfold stepMs; lia). unfold openAt. by rewrite Hz, Ew. }
        replace (cursor - Z.of_nat i * stepMs) with (cursor - stepMs - Z.of_nat (i - 1) * stepMs) by (unfold stepMs; lia). apply Hall. lia.
      * destruct Hend as [->|He]; [by left|by right].
    + injection Hk as <-. exists 0%nat. split_and!; [lia|lia|lia|]. right. unfold openAt. by rewrite Hz, Ew.
Qed.

Lemma resolveHolidays_same r now source r1 s : resolveHolidays holidayProvider holidayCacheTtlMs r now source = (r1, s) ->
  rs_evaluationCache r1 = rs_evaluationCache r.
Proof. unfold resolveHolidays. destruct source; [|by intros [= <- <-]]. case_match; by intros [= <- <-]. Qed.

(** An unavailable holiday calendar hides a halted feed.  The feed is then reported as
    expected live, so that a dead feed is not taken for a quiet one; but outside its active
    windows the start of the current window is computed as the present instant, the grace
    deadline lies in the future of every evaluation, and no halt alert is raised, however
    long ago the feed last published and even if it never did. *)
Theorem unavailable_calendar_hides_halt (r r1 : CalendarResolver) (now t : Z) (d : FeedCalendarDeclaration) (e : ActivityEvaluation)
    (He : evaluateAt formatToParts holidayProvider holidayCacheTtlMs r now t d = (Ok e, r1)) (Hcal : ae_calendarAvailable e = false)
    (Hwin : fd_activeWindows d ≠ []) (Hquiet : openAt (fd_timeZone d) (fd_activeWindows d) (t - stepMs) = Some false)
    (Hgrace : 0 < fd_gracePeriodMs d) :
  ae_expectedLive e = true ∧ ae_windowOpenedAt e = Some t ∧ forall lastPublishedAt, shouldAlertUnscheduledHalt lastPublishedAt t e = false.
Proof.
  unfold evaluateAt in He. destruct (toZonedParts formatToParts t (fd_timeZone d)) as [z|] eqn:Ez; [|done].
  destruct (resolveHolidays _ _ r now (fd_holidaySource d)) as [r2 hs]. injection He as He _.
  assert (hs_available hs = false) as Ha.
  { revert He. destruct (if negb (hs_available hs) then _ else _); [|by intros [= <-]].
    intros (o & _ & [= <-])%res_bind_Ok. done. }
  rewrite Ha in He. cbn [negb] in He. apply res_bind_Ok in He as (o & Ho & [= <-]).
  assert (o = t) as ->.
  { assert (findWindowOpenedAt formatToParts t (fd_timeZone d) (fd_activeWindows d)
      = walkBack formatToParts (Z.to_nat (maxLookbackMs / stepMs)) t (fd_timeZone d) (fd_activeWindows d)) as Ef
      by (unfold findWindowOpenedAt; by destruct (fd_activeWindows d)).
    rewrite Ef in Ho. revert Ho. assert (∃ n, Z.to_nat (maxLookbackMs / stepMs) = S n) as [n ->] by (exists 1559%nat; vm_compute; reflexivity).
    cbn [walkBack]. unfold openAt in Hquiet.
    destruct (toZonedParts formatToParts (t - stepMs) (fd_timeZone d)); [|done]. cbn [mbind res_bind]. destruct (isWithinActiveWindows _ _); [done|]. by intros [= <-]. }
  cbn. split_and!; [done|done|]. intros lp. unfold shouldAlertUnscheduledHalt. cbn. assert ((t <? t + fd_gracePeriodMs d) = true) as -> by lia. done.
Qed.
(** * The evaluation cache *)

(** Every cached evaluation was computed by [evaluateAt] for the feed's declaration, at
    the time it carries and not after [now]. *)
Definition cacheOk (decl : string -> FeedCalendarDeclaration) (r : CalendarResolver) (now : Z) : Prop :=
  forall feedId e t, jm_get (rs_evaluationCache r) feedId = Some (e, t) ->
    t <= now ∧ ∃ r0, (evaluateAt formatToParts holidayProvider holidayCacheTtlMs r0 t t (decl feedId)).1 = Ok e.

Lemma evaluate_cache decl r now feedId result r' : cacheOk decl r now ->
  evaluate formatToParts holidayProvider holidayCacheTtlMs evaluationCacheTtlMs r now feedId (decl feedId) = (result, r') ->
  cacheOk decl r' now ∧ (forall e, result = Ok e -> ∃ r0 t, (now - evaluationCacheTtlMs < t \/ t = now) ∧ t <= now ∧
    (evaluateAt formatToParts holidayProvider holidayCacheTtlMs r0 t t (decl feedId)).1 = Ok e).
Proof.
  intros Hc. unfold evaluate.
  destruct (match jm_get (rs_evaluationCache r) feedId with Some (x, y) => _ | None => None end) as [e0|] eqn:Eh.
  - intros [= <- <-]. split; [done|]. intros e [= <-]. destruct (jm_get (rs_evaluationCache r) feedId) as [[e t]|] eqn:Eg; [|done].
    destruct (Z.ltb_spec (now - t) evaluationCacheTtlMs) as [Hlt|]; [|done]. injection Eh as ->. destruct (Hc _ _ _ Eg) as [Ht [r0 Hr0]].
    exists r0, t. split_and!; [left; lia|done|done].
  - destruct (evaluateAt formatToParts holidayProvider holidayCacheTtlMs r now now (decl feedId)) as [[e1|m] r1] eqn:Ee.
    + intros [= <- <-].
      assert (rs_evaluationCache r1 = rs_evaluationCache r) as Hsame.
      { revert Ee. unfold evaluateAt. destruct (toZonedParts _ _ _); [|done].
        destruct (resolveHolidays _ _ r now _) as [r2 hs] eqn:Er. apply resolveHolidays_same in Er. by intros [= _ <-]. }
      split.
      * intros f e t. cbn [rs_evaluationCache]. rewrite jm_get_set, Hsame. destruct (decide (feedId = f)) as [<-|]; [|apply Hc].
        intros [= <- <-]. split; [lia|]. exists r. by rewrite Ee.
      * intros e [= <-]. exists r, now. split_and!; [by right|lia|by rewrite Ee].
    + intros [= <- <-]. split; [|done].
      assert (rs_evaluationCache r1 = rs_evaluationCache r) as Hsame.
      { revert Ee. unfold evaluateAt. destruct (toZonedParts _ _ _); [|by intros [= _ <-]].
        destruct (resolveHolidays _ _ r now _) as [r2 hs] eqn:Er. apply resolveHolidays_same in Er. by intros [= _ <-]. }
      intros f e t. rewrite Hsame. apply Hc.
Qed.

(** A schedule of evaluations at given times. *)
Fixpoint runEvaluations (decl : string -> FeedCalendarDeclaration) (r : CalendarResolver) (calls : list (Z * string)) :
    list (res string ActivityEvaluation) :=
  match calls with
  | [] => []
  | (now, feedId) :: rest =>
      let '(result, r') := evaluate formatToParts holidayProvider holidayCacheTtlMs evaluationCacheTtlMs r now feedId (decl feedId) in
      result :: runEvaluations decl r' rest
  end.

(** A cached evaluation is never older than its time to live.  Whatever evaluations
    run on a shared resolver, with a clock that does not go back, every answer for a feed
    is what [evaluateAt] says of that feed at some instant less than the time to live
    before the call. *)
Theorem evaluation_staleness_bounded (decl : string -> FeedCalendarDeclaration) (calls : list (Z * string)) (Httl : 0 < evaluationCacheTtlMs)
    (Hclock : forall i a b, calls !! i = Some a -> calls !! S i = Some b -> a.1 <= b.1) (i : nat) (now : Z) (feedId : string) (e : ActivityEvaluation)
    (Hi : calls !! i = Some (now, feedId)) (He : runEvaluations decl newResolver calls !! i = Some (Ok e)) :
  ∃ r0 t, now - evaluationCacheTtlMs < t <= now ∧
    (evaluateAt formatToParts holidayProvider holidayCacheTtlMs r0 t t (decl feedId)).1 = Ok e.
Proof.
  assert (forall r, (forall c, calls !! 0%nat = Some c -> cacheOk decl r c.1) -> runEvaluations decl r calls !! i = Some (Ok e) ->
    ∃ r0 t, now - evaluationCacheTtlMs < t <= now ∧
      (evaluateAt formatToParts holidayProvider holidayCacheTtlMs r0 t t (decl feedId)).1 = Ok e) as Hgen; [|by eapply Hgen; [|exact He]].
  clear He. revert i Hi. induction calls as [|[n f] rest IH]; intros i Hi r Hr; [done|]. cbn [runEvaluations].
  destruct (evaluate _ _ _ _ r n f (decl f)) as [res r'] eqn:Ee. specialize (Hr (n, f) eq_refl). cbn [fst] in Hr.
  destruct (evaluate_cache _ _ _ _ _ _ Hr Ee) as [Hc' Hres]. destruct i as [|i].
  - cbn. injection Hi as -> ->. intros [= ->]. destruct (Hres e eq_refl) as (r0 & t & Ht & Hle & Hev). exists r0, t. split; [lia|done].
  - cbn. intros Hx. apply (IH (fun j a b Ha Hb => Hclock (S j) a b Ha Hb) i Hi r'); [|done].
    intros c Hc0 f0 e0 t0 Hg. destruct (Hc' _ _ _ Hg) as [Ht Hex]. split; [|done]. specialize (Hclock 0%nat (n, f) c eq_refl Hc0). cbn in Hclock. lia.
Qed.
End WindowStart.

(** * Witnesses *)

(** A zone at offset zero, with the weekday counted from Thursday 1 January 1970. *)
Definition demoParts (timeZone : string) (t : Z) : res string (list Part) :=
  if bool_decide (timeZone = "UTC") then
    let '(y, mo, d) := civilOfDays (t / MS_PER_DAY) in
    let r := t mod MS_PER_DAY in
    Ok [PWeekday (nth (Z.to_nat ((t / MS_PER_DAY) mod 7)) ["Thu"; "Fri"; "Sat"; "Sun"; "Mon"; "Tue"; "Wed"] ""); POther; PMonth mo; PDay d; PYear y;
        PHour (r / 3600000); PMinute (r / 60000 mod 60); PSecond (r / 1000 mod 60)]
  else Err "Invalid time zone specified".

Definition demoWindows : list ActiveWindow := [mkWindow [5; 7] 1320 120; mkWindow [1] 540 1020].
Definition demoDeclaration : FeedCalendarDeclaration := mkDeclaration "UTC" demoWindows (Some "nyse") ExpectedQuiet 300000.
Definition demoZoned (t : Z) : ZonedParts :=
  match toZonedParts demoParts t "UTC" with Ok z => z | Err _ => mkZoned 0 0 0 0 0 0 1 "" 0 end.

Lemma demoWindows_ok w : w ∈ demoWindows -> windowOk w.
Proof. unfold demoWindows, windowOk. intros Hw. set_unfold in Hw. destruct Hw as [->|[->|[]]]; cbn; (split; [lia|split; [lia|]]); intros d Hd; set_unfold in Hd; lia. Qed.

(** Monday 01:30 belongs to the window that opened on Sunday at 22:00. *)
Lemma active_windows_are_week_intervals_witness :
  isWithinActiveWindows (demoZoned 351000000) demoWindows = true ∧ zp_isoWeekday (demoZoned 351000000) = 1.
Proof.
  split; [|vm_compute; reflexivity]. apply active_windows_are_week_intervals.
  - vm_compute. split; split; (discriminate || reflexivity).
  - apply demoWindows_ok.
  - right. exists (mkWindow [5; 7] 1320 120), 7. split; [by left|split; [right; left|vm_compute; reflexivity]].
Defined.

Lemma unavailable_calendar_hides_halt_witness : ∃ e r1,
  evaluateAt demoParts NullHolidayProvider HOLIDAY_CACHE_TTL_MS newResolver 43200000 43200000 demoDeclaration = (Ok e, r1) ∧
  ae_expectedLive e = true ∧ shouldAlertUnscheduledHalt None 43200000 e = false.
Proof.
  eexists _, _. split; [vm_compute; reflexivity|]. split; [reflexivity|].
  eapply (unavailable_calendar_hides_halt demoParts NullHolidayProvider HOLIDAY_CACHE_TTL_MS newResolver _ 43200000 43200000 demoDeclaration);
    [vm_compute; reflexivity|reflexivity|discriminate|vm_compute; reflexivity|vm_compute; reflexivity].
Defined.

Definition demoCalls : list (Z * string) := [(43200000, "fx"); (43205000, "fx"); (43230000, "fx")].

Lemma evaluation_staleness_bounded_witness : ∃ e r0 t, 43230000 - EVALUATION_CACHE_TTL_MS < t <= 43230000 ∧
  (evaluateAt demoParts NullHolidayProvider HOLIDAY_CACHE_TTL_MS r0 t t demoDeclaration).1 = Ok e.
Proof.
  destruct (runEvaluations demoParts NullHolidayProvider HOLIDAY_CACHE_TTL_MS EVALUATION_CACHE_TTL_MS (fun _ => demoDeclaration) newResolver demoCalls !! 2%nat)
    as [[e|m]|] eqn:E; [|vm_compute in E; discriminate E..].
  exists e. apply (evaluation_staleness_bounded demoParts NullHolidayProvider HOLIDAY_CACHE_TTL_MS EVALUATION_CACHE_TTL_MS (fun _ => demoDeclaration) demoCalls)
    with (i := 2%nat) (feedId := "fx"); [vm_compute; reflexivity| |reflexivity|exact E].
  intros [|[|[|i]]] a b Ha Hb; cbn in *; simplify_eq; cbn; lia.
Defined.

(** A window that starts when it ends is open all day, although the helper that tests a
    minute calls such a window never active. *)
Lemma zero_length_window_open_all_day :
  isWithinActiveWindows (demoZoned 351000000) [mkWindow [1] 600 600; mkWindow [7] 600 600] = true ∧ minutesInWindow 90 600 600 = false.
Proof. vm_compute. done. Qed.

(** An always-live feed that is outside its windows and never published is not stale. *)
Lemma always_live_unpublished_not_stale z :
  let e := mkEvaluation false true AlwaysLive false false true z None None in
  isStale None 10 0 e = false ∧ isStale (Some 0) 10 0 e = true.
Proof. done. Qed.
