(* ===== verification/PublishQueue.v ===== *)
(** The durable queue of oracle decisions waiting to be published on chain
    (src/oracle/oracle-publish-queue.repository.ts, and its table
    src/db/migrations/004_oracle_publish_queue.sql).

    A query is one function on the table.  Inserts commit in the order of the ids the
    sequence hands out, and the rows are kept in that order; a duplicate insert still
    consumes an id.  Times are milliseconds.  Error texts are ASCII. *)

From stdpp Require Import base list strings sorting sets.
From Stdlib Require Import ZArith Lia Ascii Floats.
From S2P Require Import Prelude Decimal JsNum.

#[local] Open Scope Z_scope.

Inductive RowStatus := Pending | Inflight | Published | Failed.
#[global] Instance RowStatus_eq_dec : EqDecision RowStatus.
Proof. solve_decision. Defined.

Record QRow := mkQRow {
  q_id : Z; q_decision_key : string; q_feed : string; q_value_scaled : Z; q_priority : Z; q_status : RowStatus; q_attempts : Z;
  q_next_attempt_at : Z; q_last_error : option string; q_tx_hash : option string; q_ledger : option Z;
  q_created_at : Z; q_published_at : option Z }.

Record PendingDecision := mkDecision {
  d_id : Z; d_decisionKey : string; d_feed : string; d_valueScaled : Z; d_priority : Z; d_attempts : Z; d_txHash : option string }.
#[global] Instance PendingDecision_eq_dec : EqDecision PendingDecision.
Proof. solve_decision. Defined.

Record NewDecision := mkNew { nd_decisionKey : string; nd_feed : string; nd_valueScaled : Z; nd_priority : Z }.

Record QueueDepth := mkDepth { dp_high : Z; dp_low : Z }.

Record Queue := mkQueue { qu_rows : list QRow; qu_nextId : Z }.
Definition emptyQueue : Queue := mkQueue [] 1.

Definition toDecision (r : QRow) : PendingDecision :=
  mkDecision (q_id r) (q_decision_key r) (q_feed r) (q_value_scaled r) (q_priority r) (q_attempts r) (q_tx_hash r).

(** [value_scaled NUMERIC(40, 0)] *)
Definition fitsNumeric40 (v : Z) : bool := Z.abs v <? 10 ^ 40.

Definition enqueue (now : Z) (d : NewDecision) (q : Queue) : res string (bool * Queue) :=
  if negb (fitsNumeric40 (nd_valueScaled d)) then Err "numeric field overflow"
  else
    let next := qu_nextId q + 1 in
    if bool_decide (Exists (fun r => q_decision_key r = nd_decisionKey d) (qu_rows q)) then Ok (false, mkQueue (qu_rows q) next)
    else Ok (true, mkQueue (qu_rows q ++
           [mkQRow (qu_nextId q) (nd_decisionKey d) (nd_feed d) (nd_valueScaled d) (nd_priority d) Pending 0 now None None None now None]) next).

(** * Claiming *)

Definition isOpen (r : QRow) : bool := bool_decide (q_status r = Pending) || bool_decide (q_status r = Inflight).
Definition openRows (rows : list QRow) : list QRow := filter (fun r => isOpen r = true) rows.

(** [max(priority) OVER (PARTITION BY feed)]; a [SMALLINT] is at least [-32768]. *)
Definition feedPriority (open : list QRow) (o : QRow) : Z :=
  foldr Z.max (-32768) (q_priority <$> filter (fun e => q_feed e = q_feed o) open).

(** [row_number() OVER (PARTITION BY feed ORDER BY id)] *)
Definition rowNumber (open : list QRow) (o : QRow) : nat :=
  length (filter (fun e => q_feed e = q_feed o ∧ q_id e <= q_id o) open).

Definition blocks (now : Z) (o e : QRow) : bool :=
  bool_decide (q_feed e = q_feed o) && (q_id e <? q_id o)
  && (bool_decide (q_status e = Inflight) || (now <? q_next_attempt_at e)).

Definition eligible (now : Z) (perFeedCap : nat) (excludeFeeds : list string) (open : list QRow) (o : QRow) : bool :=
  bool_decide (q_status o = Pending) && (q_next_attempt_at o <=? now) && bool_decide (rowNumber open o <= perFeedCap)%nat
  && negb (bool_decide (q_feed o ∈ excludeFeeds)) && negb (existsb (blocks now o) open).

Definition pickLe (open : list QRow) (a b : QRow) : bool :=
  (feedPriority open b <? feedPriority open a) || ((feedPriority open a =? feedPriority open b) && (q_id a <=? q_id b)).

Definition picked (now : Z) (limit perFeedCap : nat) (excludeFeeds : list string) (rows : list QRow) : list QRow :=
  let open := openRows rows in
  take limit (sort_by (pickLe open) (filter (fun o => eligible now perFeedCap excludeFeeds open o = true) open)).

Definition setInflight (r : QRow) : QRow :=
  mkQRow (q_id r) (q_decision_key r) (q_feed r) (q_value_scaled r) (q_priority r) Inflight (q_attempts r + 1)
    (q_next_attempt_at r) (q_last_error r) (q_tx_hash r) (q_ledger r) (q_created_at r) (q_published_at r).

(** [UPDATE ... WHERE id = ANY(ids)] *)
Definition updateRows (ids : list Z) (f : QRow -> QRow) (rows : list QRow) : list QRow :=
  map (fun r => if bool_decide (q_id r ∈ ids) then f r else r) rows.

Definition idLe (a b : PendingDecision) : bool := d_id a <=? d_id b.

Definition claim (now : Z) (limit perFeedCap : nat) (excludeFeeds : list string) (rows : list QRow) : list PendingDecision * list QRow :=
  let ids := q_id <$> picked now limit perFeedCap excludeFeeds rows in
  let rows' := updateRows ids setInflight rows in
  (sort_by idLe (toDecision <$> filter (fun r => q_id r ∈ ids) rows'), rows').

(** * The publisher's updates *)

Definition setPublished (now : Z) (txHash : string) (ledger : option Z) (r : QRow) : QRow :=
  mkQRow (q_id r) (q_decision_key r) (q_feed r) (q_value_scaled r) (q_priority r) Published (q_attempts r)
    (q_next_attempt_at r) None (Some txHash) ledger (q_created_at r) (Some now).
Definition setReleased (now delay : Z) (error : string) (txHash : option string) (r : QRow) : QRow :=
  mkQRow (q_id r) (q_decision_key r) (q_feed r) (q_value_scaled r) (q_priority r) Pending (q_attempts r)
    (now + delay) (Some (String.substring 0 500 error)) (match txHash with Some h => Some h | None => q_tx_hash r end)
    (q_ledger r) (q_created_at r) (q_published_at r).
Definition setFailed (error : string) (r : QRow) : QRow :=
  mkQRow (q_id r) (q_decision_key r) (q_feed r) (q_value_scaled r) (q_priority r) Failed (q_attempts r)
    (q_next_attempt_at r) (Some (String.substring 0 500 error)) (q_tx_hash r) (q_ledger r) (q_created_at r) (q_published_at r).

Definition markPublishedRows (now : Z) (ids : list Z) (txHash : string) (ledger : option Z) : list QRow -> list QRow :=
  updateRows ids (setPublished now txHash ledger).
Definition releaseRows (now : Z) (ids : list Z) (delayMs : num) (error : string) (txHash : option string) (rows : list QRow) :
    res string (list QRow) :=
  match round_to_Z delayMs with
  | Some delay => Ok (updateRows ids (setReleased now (Z.max 0 delay) error txHash) rows)
  | None => Err "invalid input syntax for type interval"
  end.
Definition markFailedRows (ids : list Z) (error : string) : list QRow -> list QRow := updateRows ids (setFailed error).

Definition setRecovered (r : QRow) : QRow :=
  if bool_decide (q_status r = Inflight)
  then mkQRow (q_id r) (q_decision_key r) (q_feed r) (q_value_scaled r) (q_priority r) Pending (q_attempts r)
         (q_next_attempt_at r) (q_last_error r) (q_tx_hash r) (q_ledger r) (q_created_at r) (q_published_at r)
  else r.
Definition recoverInflight (rows : list QRow) : Z * list QRow :=
  (Z.of_nat (length (filter (fun r => q_status r = Inflight) rows)), map setRecovered rows).

Definition depth (rows : list QRow) : QueueDepth :=
  let open := openRows rows in
  mkDepth (Z.of_nat (length (filter (fun r => 0 < q_priority r) open))) (Z.of_nat (length (filter (fun r => ¬ 0 < q_priority r) open))).

(** * Lemmas *)

(** The rows are those of a table with ascending ids below the sequence. *)
Definition ascending (rows : list QRow) : Prop := StronglySorted (fun a b => q_id a < q_id b) rows.

Lemma ascending_id_inj rows a b : ascending rows -> a ∈ rows -> b ∈ rows -> q_id a = q_id b -> a = b.
Proof.
  induction 1 as [|x l Hs IH Hall]; [set_solver|]. rewrite Forall_forall in Hall.
  intros [->|Ha]%elem_of_cons [->|Hb]%elem_of_cons E; auto; [apply Hall in Hb|apply Hall in Ha]; lia.
Qed.

Lemma ascending_ids rows : ascending rows -> StronglySorted Z.lt (q_id <$> rows).
Proof. induction 1; cbn; constructor; [done|by apply Forall_fmap]. Qed.

(** An update keeps the ids, keys and feeds. *)
Definition keepsIdentity (f : QRow -> QRow) : Prop :=
  forall r, q_id (f r) = q_id r ∧ q_decision_key (f r) = q_decision_key r ∧ q_feed (f r) = q_feed r ∧ q_value_scaled (f r) = q_value_scaled r.

Lemma updateRows_lookup ids f rows r' :
  r' ∈ updateRows ids f rows <-> ∃ r, r ∈ rows ∧ r' = if bool_decide (q_id r ∈ ids) then f r else r.
Proof. unfold updateRows. rewrite list_elem_of_fmap. naive_solver. Qed.

Lemma map_ascending g rows : (forall r, q_id (g r) = q_id r) -> ascending rows -> ascending (map g rows).
Proof.
  intros Hg. induction 1 as [|x l Hs IH Hall]; cbn; constructor; [done|]. apply Forall_fmap.
  eapply Forall_impl; [done|]. intros y Hy. cbn. by rewrite !Hg.
Qed.

Lemma updateRows_ascending ids f rows : keepsIdentity f -> ascending rows -> ascending (updateRows ids f rows).
Proof. intros Hf. apply map_ascending. intros r. case_bool_decide; [apply Hf|done]. Qed.

Lemma setInflight_id : keepsIdentity setInflight. Proof. done. Qed.
Lemma setPublished_id now h l : keepsIdentity (setPublished now h l). Proof. done. Qed.
Lemma setReleased_id now d e h : keepsIdentity (setReleased now d e h). Proof. done. Qed.
Lemma setFailed_id e : keepsIdentity (setFailed e). Proof. done. Qed.
Lemma setRecovered_id : keepsIdentity setRecovered.
Proof. intros r. unfold setRecovered. by case_bool_decide. Qed.
#[export] Hint Resolve setInflight_id setPublished_id setReleased_id setFailed_id setRecovered_id : refract.

Lemma elem_of_openRows rows r : r ∈ openRows rows <-> r ∈ rows ∧ isOpen r = true.
Proof. unfold openRows. rewrite list_elem_of_filter. naive_solver. Qed.

Lemma pickLe_total open : le_total (pickLe open).
Proof.
  intros x y. unfold pickLe. rewrite !orb_true_iff, !andb_true_iff, !Z.ltb_lt, !Z.eqb_eq, !Z.leb_le.
  generalize (feedPriority open x), (feedPriority open y). lia.
Qed.
Lemma pickLe_trans open : le_trans (pickLe open).
Proof.
  intros x y z. unfold pickLe. rewrite !orb_true_iff, !andb_true_iff, !Z.ltb_lt, !Z.eqb_eq, !Z.leb_le.
  generalize (feedPriority open x), (feedPriority open y), (feedPriority open z). lia.
Qed.

(** What sorts before a taken element is taken. *)
Lemma take_sorted_closed {A} (le : A -> A -> bool) n l x y :
  StronglySorted (fun a b => le a b = true) l -> y ∈ take n l -> x ∈ l -> le y x = false -> x ∈ take n l.
Proof.
  intros Hs Hy Hx Hle. rewrite <- (take_drop n l) in Hs, Hx. apply elem_of_app in Hx as [|Hx]; [done|].
  pose proof (StronglySorted_app_1_elem_of _ _ _ _ _ Hs Hy Hx). congruence.
Qed.

Lemma elem_of_picked now limit cap excl rows o :
  o ∈ picked now limit cap excl rows -> o ∈ openRows rows ∧ eligible now cap excl (openRows rows) o = true.
Proof.
  unfold picked. intros Ho. apply (subseteq_take limit) in Ho. rewrite elem_of_sort_by in Ho.
  apply list_elem_of_filter in Ho as [? ?]. done.
Qed.

Lemma eligible_spec now cap excl open o :
  eligible now cap excl open o = true <->
  q_status o = Pending ∧ q_next_attempt_at o <= now ∧ (rowNumber open o <= cap)%nat ∧ (q_feed o ∉ excl) ∧
  (forall e, e ∈ open -> q_feed e = q_feed o -> q_id e < q_id o -> q_status e ≠ Inflight ∧ q_next_attempt_at e <= now).
Proof.
  unfold eligible. rewrite !andb_true_iff, !negb_true_iff, !bool_decide_eq_true, bool_decide_eq_false, Z.leb_le.
  assert (existsb (blocks now o) open = false <->
    (forall e, e ∈ open -> q_feed e = q_feed o -> q_id e < q_id o -> q_status e ≠ Inflight ∧ q_next_attempt_at e <= now)) as ->; [|tauto].
  rewrite <- not_true_iff_false, existsb_exists. split.
  - intros Hn e He Hf Hi. split; [intros Hst|destruct (Z.le_gt_cases (q_next_attempt_at e) now) as [|Hlt]; [done|exfalso]];
      apply Hn; exists e; (split; [by apply list_elem_of_In|]); unfold blocks; rewrite !andb_true_iff, orb_true_iff, !bool_decide_eq_true, !Z.ltb_lt; auto.
  - intros Hall (e & He%list_elem_of_In & Hb). unfold blocks in Hb.
    rewrite !andb_true_iff, orb_true_iff, !bool_decide_eq_true, !Z.ltb_lt in Hb. destruct Hb as [[Hf Hi] Hb].
    destruct (Hall e He Hf Hi). destruct Hb; [done|lia].
Qed.

Lemma rowNumber_mono open a b : q_feed a = q_feed b -> q_id a <= q_id b -> (rowNumber open a <= rowNumber open b)%nat.
Proof.
  intros Hf Hi. unfold rowNumber. induction open as [|e open IH]; [done|]. rewrite !filter_cons.
  destruct (decide (q_feed e = q_feed a ∧ q_id e <= q_id a)) as [[E1 E2]|]; destruct (decide (q_feed e = q_feed b ∧ q_id e <= q_id b)) as [|Hn]; cbn; try lia.
  destruct Hn. split; [congruence|lia].
Qed.

(** The claimed rows of a feed are a prefix of its open rows. *)
Lemma picked_prefix now limit cap excl rows o r :
  o ∈ picked now limit cap excl rows -> r ∈ openRows rows -> q_feed r = q_feed o -> q_id r < q_id o ->
  r ∈ picked now limit cap excl rows.
Proof.
  intros Ho Hr Hf Hi. destruct (elem_of_picked _ _ _ _ _ _ Ho) as [Hoo (Hst & Hnow & Hrn & Hex & Hfree)%eligible_spec].
  destruct (Hfree r Hr Hf Hi) as [Hni Hnr]. eapply take_sorted_closed; [|exact Ho| |].
  - apply sort_by_sorted; [apply pickLe_total|apply pickLe_trans].
  - rewrite elem_of_sort_by. apply list_elem_of_filter. split; [|done]. apply eligible_spec. split_and!; [|done| |congruence|].
    + apply elem_of_openRows in Hr as [_ Hop]. unfold isOpen in Hop. apply orb_true_iff in Hop as [H|H]; apply bool_decide_eq_true in H; done.
    + etrans; [apply (rowNumber_mono _ r o); [done|lia]|done].
    + intros e He Hfe Hie. apply Hfree; [done|congruence|lia].
  - unfold pickLe, feedPriority. rewrite Hf. rewrite Z.ltb_irrefl, Z.eqb_refl. cbn [orb andb]. apply Z.leb_gt. lia.
Qed.

(** A feed with a more urgent open decision is claimed before another. *)
Lemma picked_priority now limit cap excl rows o r :
  o ∈ picked now limit cap excl rows -> r ∈ openRows rows -> eligible now cap excl (openRows rows) r = true ->
  feedPriority (openRows rows) o < feedPriority (openRows rows) r -> r ∈ picked now limit cap excl rows.
Proof.
  intros Ho Hr Hel Hp. eapply take_sorted_closed; [|exact Ho| |].
  - apply sort_by_sorted; [apply pickLe_total|apply pickLe_trans].
  - rewrite elem_of_sort_by. by apply list_elem_of_filter.
  - unfold pickLe. apply orb_false_iff. split; [apply Z.ltb_ge; lia|]. apply andb_false_iff. left. apply Z.eqb_neq. lia.
Qed.

Lemma ascending_NoDup rows : ascending rows -> NoDup rows.
Proof.
  induction 1 as [|x l Hs IH Hall]; constructor; [|done]. intros Hx. rewrite Forall_forall in Hall. apply Hall in Hx. lia.
Qed.

Lemma picked_NoDup now limit cap excl rows : ascending rows -> NoDup (picked now limit cap excl rows).
Proof.
  intros Ha. unfold picked. eapply sublist_NoDup; [|apply sublist_take]. rewrite sort_by_perm. by apply NoDup_filter, NoDup_filter, ascending_NoDup.
Qed.

Lemma max_id_row (l : list QRow) : l ≠ [] -> ∃ o, o ∈ l ∧ forall e, e ∈ l -> q_id e <= q_id o.
Proof.
  induction l as [|x l IH]; [done|]. intros _. destruct l as [|y l].
  - exists x. split; [set_solver|]. intros e ->%list_elem_of_singleton. lia.
  - destruct IH as (o & Ho & Hmax); [done|]. destruct (Z.le_gt_cases (q_id x) (q_id o)).
    + exists o. split; [set_solver|]. intros e [->|He]%elem_of_cons; auto.
    + exists x. split; [set_solver|]. intros e [->|He]%elem_of_cons; [lia|]. apply Hmax in He. lia.
Qed.

(** No feed takes more than its share of a batch. *)
Lemma picked_feed_cap now limit cap excl rows f :
  ascending rows -> (length (filter (fun r => q_feed r = f) (picked now limit cap excl rows)) <= cap)%nat.
Proof.
  intros Ha. set (l := filter _ _). destruct (decide (l = [])) as [->|Hne]; [cbn; lia|].
  destruct (max_id_row l Hne) as (o & Ho & Hmax). pose proof Ho as [Hfo Hpo]%list_elem_of_filter.
  destruct (elem_of_picked _ _ _ _ _ _ Hpo) as [_ (_ & _ & Hrn & _)%eligible_spec]. etrans; [|exact Hrn]. unfold rowNumber.
  apply submseteq_length, NoDup_submseteq; [by apply NoDup_filter, picked_NoDup|].
  intros e He. pose proof He as [Hfe Hpe]%list_elem_of_filter. apply list_elem_of_filter. split; [split; [congruence|by apply Hmax]|].
  by apply elem_of_picked in Hpe as [? _].
Qed.

(** * The claimed batch *)

Lemma sorted_lt_NoDup (l : list Z) : StronglySorted Z.lt l -> NoDup l.
Proof.
  induction 1 as [|x l Hs IH Hall]; constructor; [|done]. intros Hx. rewrite Forall_forall in Hall. apply Hall in Hx. lia.
Qed.

Abbreviation ids := (fmap (M := list) d_id).

Lemma idLe_total : le_total idLe.
Proof. intros x y. unfold idLe. rewrite !Z.leb_le. lia. Qed.
Lemma idLe_trans : le_trans idLe.
Proof. intros x y z. unfold idLe. rewrite !Z.leb_le. lia. Qed.

Lemma picked_id_inj now limit cap excl rows r :
  ascending rows -> r ∈ rows -> q_id r ∈ (q_id <$> picked now limit cap excl rows) -> r ∈ picked now limit cap excl rows.
Proof.
  intros Ha Hr (o & E & Ho)%list_elem_of_fmap. replace r with o; [done|]. eapply ascending_id_inj; [done| |done|done].
  apply elem_of_picked in Ho as [[? _]%elem_of_openRows _]. done.
Qed.

(** A batch is the picked rows, as they are after the claim. *)
Lemma elem_of_claim now limit cap excl rows d :
  ascending rows ->
  d ∈ (claim now limit cap excl rows).1 <-> ∃ r, r ∈ picked now limit cap excl rows ∧ d = toDecision (setInflight r).
Proof.
  intros Ha. unfold claim. cbn [fst]. rewrite elem_of_sort_by, list_elem_of_fmap. split.
  - intros (r' & -> & [Hid (r & Hr & ->)%updateRows_lookup]%list_elem_of_filter). case_bool_decide as Hin; [|done].
    exists r. split; [by apply picked_id_inj|done].
  - intros (r & Hr & ->). assert (r ∈ rows) as Hrow by (apply elem_of_picked in Hr as [[? _]%elem_of_openRows _]; done).
    assert (q_id r ∈ (q_id <$> picked now limit cap excl rows)) as Hin by (apply list_elem_of_fmap; by exists r).
    exists (setInflight r). split; [done|]. apply list_elem_of_filter. split; [done|]. apply updateRows_lookup. exists r.
    by rewrite bool_decide_eq_true_2.
Qed.

(** The batch is the picked rows up to their order, and its ids determine them. *)
Lemma claim_permuted now limit cap excl rows :
  ascending rows ->
  (claim now limit cap excl rows).1 ≡ₚ (fun r => toDecision (setInflight r)) <$> picked now limit cap excl rows ∧
  forall r, r ∈ picked now limit cap excl rows <-> r ∈ rows ∧ q_id r ∈ ids (claim now limit cap excl rows).1.
Proof.
  intros Ha. assert (NoDup (q_id <$> picked now limit cap excl rows)) as Hnd.
  { apply NoDup_fmap_2_strong; [|by apply picked_NoDup]. intros x y Hx Hy. apply (ascending_id_inj rows); [done| |];
      [apply elem_of_picked in Hx as [[? _]%elem_of_openRows _]|apply elem_of_picked in Hy as [[? _]%elem_of_openRows _]]; done. }
  split.
  - apply NoDup_Permutation.
    + unfold claim. cbn [fst]. rewrite sort_by_perm. apply (NoDup_fmap_1 d_id). rewrite <- list_fmap_compose.
      assert (StronglySorted Z.lt (q_id <$> filter (fun r => q_id r ∈ (q_id <$> picked now limit cap excl rows))
        (updateRows (q_id <$> picked now limit cap excl rows) setInflight rows))) as Hs
        by (apply ascending_ids, StronglySorted_filter, updateRows_ascending; [apply setInflight_id|done]).
      revert Hs. apply sorted_lt_NoDup.
    + apply (NoDup_fmap_1 d_id). by rewrite <- list_fmap_compose.
    + intros d. rewrite elem_of_claim by done. rewrite list_elem_of_fmap. naive_solver.
  - intros r. split.
    + intros Hr. split; [by apply elem_of_picked in Hr as [[? _]%elem_of_openRows _]|]. apply list_elem_of_fmap.
      exists (toDecision (setInflight r)). split; [done|]. apply elem_of_claim; eauto.
    + intros [Hr (d & E & Hd)%list_elem_of_fmap]. apply elem_of_claim in Hd as (o & Ho & ->); [|done]. apply picked_id_inj; [done..|].
      apply list_elem_of_fmap. by exists o.
Qed.

Lemma length_filter_feed f (l : list QRow) :
  length (filter (fun d => d_feed d = f) ((fun r => toDecision (setInflight r)) <$> l)) = length (filter (fun r => q_feed r = f) l).
Proof.
  pose proof (filter_map_comm (fun r => toDecision (setInflight r)) (fun d => d_feed d = f) (fun r => q_feed r = f) l) as E.
  etrans; [apply (f_equal length), E; done|]. apply length_map.
Qed.

Lemma ascending_idLe rows : ascending rows -> StronglySorted (fun a b => idLe a b = true) (toDecision <$> rows).
Proof.
  induction 1 as [|x l Hs IH Hall]; cbn; constructor; [done|]. apply Forall_fmap. eapply Forall_impl; [exact Hall|].
  intros y Hy. apply Z.leb_le. cbn in *. lia.
Qed.

Lemma claim_sorted now limit cap excl rows : ascending rows -> StronglySorted Z.lt (ids (claim now limit cap excl rows).1).
Proof.
  intros Ha. unfold claim. cbn [fst]. set (l := filter _ _). assert (sort_by idLe (toDecision <$> l) = toDecision <$> l) as ->.
  - assert (StronglySorted (fun a b => q_id a < q_id b) l) as Hl.
    { apply StronglySorted_filter, updateRows_ascending; [apply setInflight_id|done]. }
    apply (sorted_perm_unique_on idLe).
    + intros x y Hx Hy E1 E2. unfold idLe in *. apply Z.leb_le in E1, E2. rewrite elem_of_sort_by in Hx, Hy.
      apply list_elem_of_fmap in Hx as (a & -> & Hx), Hy as (b & -> & Hy). f_equal. apply (ascending_id_inj l); [done..|]. cbn in *. lia.
    + apply sort_by_sorted; [apply idLe_total|apply idLe_trans].
    + by apply ascending_idLe.
    + by rewrite sort_by_perm.
  - rewrite <- list_fmap_compose. apply ascending_ids. by apply StronglySorted_filter, updateRows_ascending.
Qed.

Lemma updateRows_keys (ks : list Z) f rows : keepsIdentity f -> q_id <$> updateRows ks f rows = q_id <$> rows.
Proof.
  intros Hf. unfold updateRows. induction rows as [|r rows IH]; [done|]. cbn. f_equal; [|done]. case_bool_decide; [apply Hf|done].
Qed.
