(* ===== verification/BatchPublisher.v ===== *)
(** The batch publisher (src/oracle/oracle-batch-publisher.service.ts): a timer claims
    ordered batches from the queue of file PublishQueue and runs at most [maxInFlight]
    of them concurrently; a batch is reconciled with the chain, submitted, split on a
    size error, and released or dead-lettered on failure.

    An in-flight batch is a program [prog] of the calls it awaits, and the service is a
    step function on a world in which any run may take its next call, with any answer,
    at any time; database calls may fail before or after they were applied.  The two
    ghost fields of the world are the batch of a run and the log of what was sent. *)

From stdpp Require Import base list strings sorting sets.
From Stdlib Require Import ZArith Lia Ascii Floats.
From S2P Require Import Prelude Decimal JsNum JsRegex Encoding PublishQueue.

#[local] Open Scope Z_scope.

Record BatchSubmitResult := mkSubmitted { bs_txHash : string; bs_ledger : option Z }.
Inductive TxLookup := LSuccess (ledger : option Z) | LPending | LFailed | LNotFound.

(** Thrown values: the two classes of the file, and any other error with its message. *)
Inductive thrown := BatchTooLargeError (message : string) | AmbiguousSubmitError (message txHash : string) | OtherError (message : string).

Definition errMsg (e : thrown) : string :=
  match e with BatchTooLargeError m => m | AmbiguousSubmitError m _ => m | OtherError m => m end.

Record Options := mkPublisherOptions {
  bp_maxBatchSize : nat; bp_maxInFlight : nat; bp_maxPerFeedPerBatch : nat; bp_tickIntervalMs : Z; bp_baseBackoffMs : Z; bp_maxBackoffMs : Z;
  bp_maxAttempts : Z; bp_backpressureQueueDepth : Z; bp_backpressureRpcLatencyMs : Z; bp_lowPriorityPollMultiplier : Z }.

(** [Number.parseInt(s, 10)]: the leading digits after white space and a sign. *)
Definition parseIntText (s : string) : option Z :=
  let t := trim_left (String.list_ascii_of_string s) in
  let '(negative, t') := match t with
    | c :: r => if bool_decide (c = "-"%char) then (true, r) else if bool_decide (c = "+"%char) then (false, r) else (false, t)
    | [] => (false, [])
    end in
  match (span_digits t').1 with
  | [] => None
  | ds => Some (if (negative : bool) then - dec_val ds else dec_val ds)
  end.

Definition envInt (value : option string) (fallback : Z) : Z :=
  match n ← parseIntText (default "" value); round_to_Z (num_of_Z n) with
  | Some n => if 0 <? n then n else fallback
  | None => fallback
  end.

Definition defaultPublisherOptions (env : string -> option string) : Options :=
  mkPublisherOptions
    (Z.to_nat (envInt (env "ORACLE_PUBLISH_MAX_BATCH_SIZE") 20))
    (Z.to_nat (envInt (env "ORACLE_PUBLISH_MAX_IN_FLIGHT") 2))
    (Z.to_nat (envInt (env "ORACLE_PUBLISH_MAX_PER_FEED_PER_BATCH") 5))
    (envInt (env "ORACLE_PUBLISH_TICK_MS") 500)
    (envInt (env "ORACLE_PUBLISH_BASE_BACKOFF_MS") 1000)
    (envInt (env "ORACLE_PUBLISH_MAX_BACKOFF_MS") 60000)
    (envInt (env "ORACLE_PUBLISH_MAX_ATTEMPTS") 10)
    (envInt (env "ORACLE_PUBLISH_BACKPRESSURE_QUEUE_DEPTH") 200)
    (envInt (env "ORACLE_PUBLISH_BACKPRESSURE_RPC_LATENCY_MS") 5000)
    (envInt (env "ORACLE_PUBLISH_LOW_PRIORITY_POLL_MULTIPLIER") 4).

(** [base * 2 ** (attempt - 1)] is exact in binary64 up to the overflow, where
    [Math.min] chooses [maxMs] all the same. *)
Definition jitteredBackoff (attempt baseMs maxMs : Z) (random : num) : num :=
  let half := (num_of_Z (Z.min maxMs (baseMs * 2 ^ Z.max 0 (attempt - 1))) / 2)%float in
  mathRound (half + random * half)%float.

(** [/exceeds? .*(size|limit)|tx_?too_?big|resource limit|insufficient.?fee|fee.*(exceed|ceiling)/i] *)
Definition sizeOrFee : regex :=
  alts [RSeq (lit "exceed") (RSeq (opt (lit "s")) (RSeq (lit " ") (RSeq (RStar dot) (RAlt (lit "size") (lit "limit")))));
        RSeq (lit "tx") (RSeq (opt (lit "_")) (RSeq (lit "too") (RSeq (opt (lit "_")) (lit "big"))));
        lit "resource limit";
        RSeq (lit "insufficient") (RSeq (opt dot) (lit "fee"));
        RSeq (lit "fee") (RSeq (RStar dot) (RAlt (lit "exceed") (lit "ceiling")))].
Definition isSizeOrFeeError (e : thrown) : bool := testIgnoringCase sizeOrFee (errMsg e).

Definition isTooLarge (e : thrown) : bool := match e with BatchTooLargeError _ => true | _ => isSizeOrFeeError e end.
Definition ambiguousHash (e : thrown) : option string := match e with AmbiguousSubmitError _ h => Some h | _ => None end.

(** * The calls a run awaits *)

Inductive call :=
| Now | Random | Observe (ms : Z)
| Submit (batch : list PendingDecision) | Lookup (txHash : string)
| MarkPublished (ids : list Z) (txHash : string) (ledger : option Z)
| Release (ids : list Z) (delayMs : num) (error : string) (txHash : option string)
| MarkFailed (ids : list Z) (error : string).

Definition ans (c : call) : Type :=
  match c with Now => Z | Random => num | Submit _ => BatchSubmitResult | Lookup _ => TxLookup | _ => unit end.

(** [Stuck] is a run out of fuel. *)
Inductive prog (A : Type) :=
| Ret (a : A) | Throw (e : thrown) | Stuck
| Vis (c : call) (k : res thrown (ans c) -> prog A).
Arguments Ret {A} a.
Arguments Throw {A} e.
Arguments Stuck {A}.
Arguments Vis {A} c k.

Fixpoint prog_bind_ {A B} (f : A -> prog B) (p : prog A) : prog B :=
  match p with Ret a => f a | Throw e => Throw e | Stuck => Stuck | Vis c k => Vis c (fun r => prog_bind_ f (k r)) end.
#[global] Instance prog_ret : MRet prog := fun A a => Ret a.
#[global] Instance prog_bind : MBind prog := fun A B f p => prog_bind_ f p.

Definition await (c : call) : prog (ans c) := Vis c (fun r => match r with Ok a => Ret a | Err e => Throw e end).

(** [try { p } catch (e) { handler(e) }] *)
Fixpoint tryCatch {A} (p : prog A) (handler : thrown -> prog A) : prog A :=
  match p with Ret a => Ret a | Throw e => handler e | Stuck => Stuck | Vis c k => Vis c (fun r => tryCatch (k r) handler) end.

(** The repository returns before its query when there are no ids. *)
Definition markPublished (l : list Z) (txHash : string) (ledger : option Z) : prog unit :=
  if bool_decide (l = []) then Ret tt else await (MarkPublished l txHash ledger).
Definition release (l : list Z) (delayMs : num) (error : string) (txHash : option string) : prog unit :=
  if bool_decide (l = []) then Ret tt else await (Release l delayMs error txHash).
Definition markFailed (l : list Z) (error : string) : prog unit :=
  if bool_decide (l = []) then Ret tt else await (MarkFailed l error).

(** * One batch *)
Section Batch.
Variable options : Options.

Definition observeSince (startedAt : Z) : prog unit := t ← await Now; await (Observe (t - startedAt)).

Definition retryLater (batch : list PendingDecision) (reason : string) (countAttempt : bool) (txHash : option string) : prog unit :=
  let exhausted := if countAttempt then filter (fun d => bp_maxAttempts options <= d_attempts d) batch else [] in
  let retryable := filter (fun d => d ∉ exhausted) batch in
  _ ← (if bool_decide (exhausted = []) then Ret tt else markFailed (ids exhausted) reason);
  if bool_decide (retryable = []) then Ret tt
  else
    let attempts := foldr Z.max 0 (d_attempts <$> retryable) in
    x ← await Random;
    release (ids retryable) (jitteredBackoff attempts (bp_baseBackoffMs options) (bp_maxBackoffMs options) x) reason txHash.

(** [batch.map(d => d.txHash).filter(h => !!h)], without repetitions. *)
Definition hashesOf (batch : list PendingDecision) : list string :=
  setOf (filter (fun h => h ≠ "") (omap d_txHash batch)).

Fixpoint reconcileLoop (batch : list PendingDecision) (hashes : list string) (done : list Z) : prog (option (list PendingDecision)) :=
  match hashes with
  | [] => Ret (Some (filter (fun d => d_id d ∉ done) batch))
  | hash :: rest =>
      lookup ← tryCatch (l ← await (Lookup hash); Ret (Some l))
        (fun e => _ ← retryLater batch ("reconcile " +:+ hash +:+ " failed: " +:+ errMsg e) true None; Ret None);
      match lookup with
      | None => Ret None
      | Some LPending => _ ← retryLater batch ("tx " +:+ hash +:+ " still pending") false None; Ret None
      | Some (LSuccess ledger) =>
          let l := ids (filter (fun d => d_txHash d = Some hash) batch) in
          _ ← markPublished l hash ledger;
          reconcileLoop batch rest (done ++ l)
      | Some _ => reconcileLoop batch rest done
      end
  end.

Definition reconcile (batch : list PendingDecision) : prog (option (list PendingDecision)) :=
  match hashesOf batch with [] => Ret (Some batch) | hashes => reconcileLoop batch hashes [] end.

Definition half (batch : list PendingDecision) : nat := Nat.div2 (S (length batch)).

(** The [try] block of [process] and [publishOrRelease]. *)
Definition submitAndMark (startedAt : Z) (batch : list PendingDecision) : prog unit :=
  result ← await (Submit batch);
  _ ← observeSince startedAt;
  markPublished (ids batch) (bs_txHash result) (bs_ledger result).

Inductive SplitOutcome := SplitPublished | SplitDeferred.

Definition splitReason : string := "released: earlier split half did not confirm".

Fixpoint publishOrRelease (fuel : nat) (batch : list PendingDecision) : prog SplitOutcome :=
  match fuel with
  | O => Stuck
  | S fuel' =>
      startedAt ← await Now;
      tryCatch (_ ← submitAndMark startedAt batch; Ret SplitPublished) (fun err =>
        _ ← observeSince startedAt;
        if isTooLarge err && bool_decide (1 < length batch)%nat then
          first ← publishOrRelease fuel' (take (half batch) batch);
          match first with
          | SplitDeferred => _ ← release (ids (drop (half batch) batch)) 0%float splitReason None; Ret SplitDeferred
          | SplitPublished => publishOrRelease fuel' (drop (half batch) batch)
          end
        else if isTooLarge err then
          match batch with
          | d :: _ => _ ← markFailed [d_id d] (errMsg err); Ret SplitPublished
          | [] => Throw (OtherError "Cannot read properties of undefined (reading 'id')")
          end
        else _ ← retryLater batch (errMsg err) true (ambiguousHash err); Ret SplitDeferred)
  end.

Section Handle.
Variable process : list PendingDecision -> prog unit.
Variable fuel : nat.

Definition processSplit (head tail : list PendingDecision) : prog unit :=
  outcome ← publishOrRelease fuel head;
  match outcome with
  | SplitPublished => process tail
  | SplitDeferred => release (ids tail) 0%float splitReason None
  end.

Definition handleFailure (batch : list PendingDecision) (err : thrown) : prog unit :=
  if isTooLarge err then
    match batch with
    | [d] => markFailed [d_id d] (errMsg err)
    | _ => processSplit (take (half batch) batch) (drop (half batch) batch)
    end
  else retryLater batch (errMsg err) true (ambiguousHash err).
End Handle.

Fixpoint process (fuel : nat) (batch0 : list PendingDecision) : prog unit :=
  match fuel with
  | O => Stuck
  | S fuel' =>
      reconciled ← reconcile batch0;
      match reconciled with
      | None | Some [] => Ret tt
      | Some batch =>
          startedAt ← await Now;
          tryCatch (submitAndMark startedAt batch) (fun err =>
            _ ← observeSince startedAt;
            handleFailure (process fuel') fuel' batch err)
      end
  end.
End Batch.

(** * The service *)

Record Run := mkRun { rn_feeds : list string; rn_batch : list PendingDecision; rn_prog : prog unit }.

(** Where the single-flight [tick] is: not running, awaiting [depth], or awaiting
    [claim] with the feeds it excluded. *)
Inductive TickPhase := TIdle | TDepth | TClaim (exclude : list string).

Inductive Sent :=
| SentBatch (rows : list QRow) (batch : list PendingDecision) (r : res thrown BatchSubmitResult)
| SentLookup (txHash : string) (r : TxLookup).

Record World := mkWorld {
  w_queue : Queue; w_now : Z; w_inFlight : list Run; w_feedsInFlight : list string; w_phase : TickPhase; w_stopped : bool;
  w_queueDepth : QueueDepth; w_smoothedRpcLatencyMs : num; w_backpressure : bool; w_sent : list Sent }.

Definition withQueue (q : Queue) (w : World) : World :=
  mkWorld q (w_now w) (w_inFlight w) (w_feedsInFlight w) (w_phase w) (w_stopped w) (w_queueDepth w) (w_smoothedRpcLatencyMs w)
    (w_backpressure w) (w_sent w).
Definition withRows (rows : list QRow) (w : World) : World := withQueue (mkQueue rows (qu_nextId (w_queue w))) w.
Definition withRuns (runs : list Run) (feeds : list string) (w : World) : World :=
  mkWorld (w_queue w) (w_now w) runs feeds (w_phase w) (w_stopped w) (w_queueDepth w) (w_smoothedRpcLatencyMs w)
    (w_backpressure w) (w_sent w).
Definition withPhase (p : TickPhase) (w : World) : World :=
  mkWorld (w_queue w) (w_now w) (w_inFlight w) (w_feedsInFlight w) p (w_stopped w) (w_queueDepth w) (w_smoothedRpcLatencyMs w)
    (w_backpressure w) (w_sent w).
Definition withSent (e : Sent) (w : World) : World :=
  mkWorld (w_queue w) (w_now w) (w_inFlight w) (w_feedsInFlight w) (w_phase w) (w_stopped w) (w_queueDepth w)
    (w_smoothedRpcLatencyMs w) (w_backpressure w) (w_sent w ++ [e]).

Definition newWorld : World := mkWorld emptyQueue 0 [] [] TIdle true (mkDepth 0 0) 0%float false [].

(** Of a query outside a run: it works, fails, or is applied and its answer lost. *)
Inductive DbOutcome := DbOk | DbFails | DbLost.
Definition applied (o : DbOutcome) : bool := match o with DbFails => false | _ => true end.

(** How the outside answers a call; a failed database call may have been applied. *)
Inductive reply :=
| Done | Submitted (r : BatchSubmitResult) | Found (l : TxLookup) | Drawn (x : num) | Fails (wasApplied : bool) (e : thrown).

(** [s * 0.7 + ms * 0.3], the constants as binary64. *)
Definition observeLatency (ms : Z) (w : World) : World :=
  let s := w_smoothedRpcLatencyMs w in
  mkWorld (w_queue w) (w_now w) (w_inFlight w) (w_feedsInFlight w) (w_phase w) (w_stopped w) (w_queueDepth w)
    (if neq s 0%float then num_of_Z ms else s * 0x1.6666666666666p-1 + num_of_Z ms * 0x1.3333333333333p-2)%float (w_backpressure w) (w_sent w).

(** A database update that may fail, [f] being what it does to the rows. *)
Definition query (w : World) (f : list QRow -> res string (list QRow)) (a : reply) : option (res thrown unit * World) :=
  let run := match f (qu_rows (w_queue w)) with
    | Ok rows => (Ok tt, withRows rows w)
    | Err m => (Err (OtherError m), w)
    end in
  match a with
  | Done => Some run
  | Fails b e => Some (Err (OtherError (errMsg e)), if b then run.2 else w)
  | _ => None
  end.

(** The answer of a call and the world after it; [None] when [a] does not answer it. *)
Definition answer (w : World) (c : call) (a : reply) : option (res thrown (ans c) * World) :=
  match c with
  | Now => Some (Ok (w_now w), w)
  | Observe ms => Some (Ok tt, observeLatency ms w)
  | Random => match a with Drawn x => Some (Ok x, w) | _ => None end
  | Submit batch =>
      match a with
      | Submitted r => Some (Ok r, withSent (SentBatch (qu_rows (w_queue w)) batch (Ok r)) w)
      | Fails _ e => Some (Err e, withSent (SentBatch (qu_rows (w_queue w)) batch (Err e)) w)
      | _ => None
      end
  | Lookup h =>
      match a with
      | Found l => Some (Ok l, withSent (SentLookup h l) w)
      | Fails _ e => Some (Err e, w)
      | _ => None
      end
  | MarkPublished l h ledger => query w (fun rows => Ok (markPublishedRows (w_now w) l h ledger rows)) a
  | Release l delay error h => query w (releaseRows (w_now w) l delay error h) a
  | MarkFailed l error => query w (fun rows => Ok (markFailedRows l error rows)) a
  end.

(** A run ends, normally or not: the [finally] of [tick]. *)
Definition settle (i : nat) (run : Run) (w : World) : World :=
  withRuns (delete i (w_inFlight w)) (filter (fun f => f ∉ rn_feeds run) (w_feedsInFlight w)) w.

Definition stepRun (i : nat) (a : reply) (w : World) : World :=
  match w_inFlight w !! i with
  | None => w
  | Some run =>
      match rn_prog run with
      | Vis c k =>
          match answer w c a with
          | Some (r, w') => withRuns (<[i := mkRun (rn_feeds run) (rn_batch run) (k r)]> (w_inFlight w')) (w_feedsInFlight w') w'
          | None => w
          end
      | _ => settle i run w
      end
  end.

Section Service.
Variable options : Options.

(** The head of the loop of [tick]. *)
Definition loopHead (w : World) : World :=
  withPhase (if bool_decide (length (w_inFlight w) < bp_maxInFlight options)%nat then TClaim (w_feedsInFlight w) else TIdle) w.

Definition refreshPressure (r : option QueueDepth) (w : World) : World :=
  let qd := default (w_queueDepth w) r in
  let active := (bp_backpressureQueueDepth options <? dp_high qd + dp_low qd)
    || ngt (w_smoothedRpcLatencyMs w) (num_of_Z (bp_backpressureRpcLatencyMs options)) in
  mkWorld (w_queue w) (w_now w) (w_inFlight w) (w_feedsInFlight w) (w_phase w) (w_stopped w) qd (w_smoothedRpcLatencyMs w) active (w_sent w).

Definition pollIntervalMultiplier (high : bool) (w : World) : Z :=
  if high || negb (w_backpressure w) then 1 else bp_lowPriorityPollMultiplier options.

Definition onClaimed (batch : list PendingDecision) (w : World) : World :=
  if bool_decide (batch = []) then withPhase TIdle w
  else
    let feeds := setOf (d_feed <$> batch) in
    loopHead (withRuns (w_inFlight w ++ [mkRun feeds batch (process options (length batch) batch)])
      (foldl (fun s f => addToSet f s) (w_feedsInFlight w) feeds) w).

Record OracleReading := mkPublishReading { pr_coverageType : string; pr_value : num; pr_severity : string; pr_degraded : bool }.

Definition decisionOf (reading : OracleReading) (decisionKey : string) : res string NewDecision :=
  v ← scaleOracleValue (pr_coverageType reading) (pr_value reading);
  Ok (mkNew decisionKey (pr_coverageType reading) v
    (if bool_decide (pr_severity reading = "triggered") || bool_decide (pr_severity reading = "high") then 1 else 0)).

(** [None]: the call threw. *)
Definition publisherEnqueue (reading : OracleReading) (decisionKey : string) (w : World) : option bool * World :=
  if pr_degraded reading then (Some false, w)
  else match decisionOf reading decisionKey with
    | Err _ => (None, w)
    | Ok d => match enqueue (w_now w) d (w_queue w) with Ok (b, q) => (Some b, withQueue q w) | Err _ => (None, w) end
    end.

(** What happens next: time passes, a producer enqueues (with a working database or
    not), the timer fires, the tick's query is answered, a run's call is answered, the
    process stops, or it dies and starts again. *)
Inductive event :=
| EvTime (ms : nat) | EvEnqueue (reading : OracleReading) (decisionKey : string) (db : DbOutcome)
| EvTick | EvDepth (fails : bool) | EvClaim (db : DbOutcome) | EvRun (i : nat) (a : reply) | EvStop | EvRestart (db : DbOutcome).

(** A new process and its [onModuleInit]; when recovery throws it does not start. *)
Definition restart (db : DbOutcome) (w : World) : World :=
  mkWorld (if applied db then mkQueue (recoverInflight (qu_rows (w_queue w))).2 (qu_nextId (w_queue w)) else w_queue w)
    (w_now w) [] [] TIdle (match db with DbOk => false | _ => true end) (mkDepth 0 0) 0%float false (w_sent w).

Definition step (w : World) (e : event) : World :=
  match e with
  | EvTime ms => mkWorld (w_queue w) (w_now w + Z.of_nat ms) (w_inFlight w) (w_feedsInFlight w) (w_phase w) (w_stopped w)
      (w_queueDepth w) (w_smoothedRpcLatencyMs w) (w_backpressure w) (w_sent w)
  | EvEnqueue reading key db => if applied db then (publisherEnqueue reading key w).2 else w
  | EvTick => match w_phase w with TIdle => if w_stopped w then w else withPhase TDepth w | _ => w end
  | EvDepth fails =>
      match w_phase w with
      | TDepth => loopHead (refreshPressure (if fails then None else Some (depth (qu_rows (w_queue w)))) w)
      | _ => w
      end
  | EvClaim db =>
      match w_phase w with
      | TClaim exclude =>
          let '(batch, rows) := claim (w_now w) (bp_maxBatchSize options) (bp_maxPerFeedPerBatch options) exclude (qu_rows (w_queue w)) in
          match db with
          | DbOk => onClaimed batch (withRows rows w)
          | DbLost => withPhase TIdle (withRows rows w)
          | DbFails => withPhase TIdle w
          end
      | _ => w
      end
  | EvRun i a => stepRun i a w
  | EvStop => mkWorld (w_queue w) (w_now w) (w_inFlight w) (w_feedsInFlight w) (w_phase w) true
      (w_queueDepth w) (w_smoothedRpcLatencyMs w) (w_backpressure w) (w_sent w)
  | EvRestart db => restart db w
  end.

Definition runFrom (w : World) (evs : list event) : World := foldl step w evs.
Definition reachable (evs : list event) : World := runFrom newWorld evs.
End Service.

(** * What a run may do

    [wpg p s Q] holds when every call of [p] is allowed by [pre], the state [s] being
    updated by [post] with its answer, and [p] ends in [Q]; a program out of fuel
    never does. *)

(** Only a submission raises an ambiguous outcome. *)
Definition allowed (c : call) (r : res thrown (ans c)) : Prop :=
  match c with
  | Submit _ | Lookup _ => True
  | _ => match r with Err e => ambiguousHash e = None | Ok _ => True end
  end.

Section WpGeneric.
Context {S : Type} (pre : S -> call -> Prop) (post : S -> forall c, res thrown (ans c) -> S).

Fixpoint wpg {A} (p : prog A) (s : S) (Q : S -> res thrown A -> Prop) : Prop :=
  match p with
  | Ret a => Q s (Ok a)
  | Throw e => Q s (Err e)
  | Stuck => False
  | Vis c k => pre s c ∧ forall r, allowed c r -> wpg (k r) (post s c r) Q
  end.

Lemma wp_mono {A} (p : prog A) s (Q Q' : S -> res thrown A -> Prop) :
  wpg p s Q -> (forall s' r, Q s' r -> Q' s' r) -> wpg p s Q'.
Proof. revert s. induction p as [a|e| |c k IH]; cbn; intros s; [auto..|]. intros [Hp Hk] HQ. split; [done|]. eauto. Qed.

Lemma wp_bind {A B} (p : prog A) (f : A -> prog B) s Q :
  wpg p s (fun s' r => match r with Ok a => wpg (f a) s' Q | Err e => Q s' (Err e) end) -> wpg (p ≫= f) s Q.
Proof.
  revert s. induction p as [a|e| |c k IH]; cbn; intros s; [auto..|]. intros [Hp Hk]. split; [done|]. intros r Hr. by apply IH, Hk.
Qed.

Lemma wp_catch {A} (p : prog A) f s (Q : S -> res thrown A -> Prop) :
  wpg p s (fun s' r => match r with Ok a => Q s' (Ok a) | Err e => wpg (f e) s' Q end) -> wpg (tryCatch p f) s Q.
Proof.
  revert s. induction p as [a|e| |c k IH]; cbn; intros s; [auto..|]. intros [Hp Hk]. split; [done|]. intros r Hr. by apply IH, Hk.
Qed.

Lemma wp_await c s Q : pre s c -> (forall r, allowed c r -> Q (post s c r) r) -> wpg (await c) s Q.
Proof. intros Hp HQ. split; [done|]. intros [a|e] Hr; by apply HQ. Qed.
End WpGeneric.

(** [Know] is what a run knows of its batch: the decisions that may still be open, in
    order, and the transactions it saw sent or confirmed for a decision. *)
Record Know := mkKnow { kn_open : list Z; kn_sent : Z -> string -> Prop; kn_confirmed : Z -> string -> Prop }.

Section Wp.
Variable b0 : list PendingDecision.

Definition known (s : Know) (id : Z) (h : string) : Prop :=
  kn_sent s id h ∨ ∃ d, d ∈ b0 ∧ d_id d = id ∧ d_txHash d = Some h.

Definition pre (s : Know) (c : call) : Prop :=
  match c with
  | Submit batch => StronglySorted Z.lt (kn_open s) ∧ (∃ rest, kn_open s = ids batch ++ rest) ∧ batch ⊆ b0
  | MarkPublished l h _ => l ⊆ ids b0 ∧ forall id, id ∈ l -> kn_confirmed s id h
  | Release l _ _ h => l ⊆ ids b0 ∧ match h with Some h => forall id, id ∈ l -> known s id h | None => True end
  | MarkFailed l _ => l ⊆ ids b0
  | _ => True
  end.

Definition openAfter (s : Know) (c : call) (ok : bool) : list Z :=
  match c with
  | MarkPublished l _ _ | MarkFailed l _ => if ok then filter (fun id => id ∉ l) (kn_open s) else kn_open s
  | Release l _ _ _ => l ++ kn_open s
  | _ => kn_open s
  end.

Definition post (s : Know) (c : call) (r : res thrown (ans c)) : Know :=
  mkKnow (openAfter s c (is_ok r))
    (fun id h => kn_sent s id h ∨
       match c return res thrown (ans c) -> Prop with
       | Submit batch => fun r => id ∈ ids batch ∧ match r with Ok a => bs_txHash a = h | Err e => ambiguousHash e = Some h end
       | _ => fun _ => False
       end r)
    (fun id h => kn_confirmed s id h ∨
       match c return res thrown (ans c) -> Prop with
       | Submit batch => fun r => id ∈ ids batch ∧ match r with Ok a => bs_txHash a = h | Err _ => False end
       | Lookup h' => fun r => h = h' ∧ known s id h ∧ match r with Ok (LSuccess _) => True | _ => False end
       | _ => fun _ => False
       end r).

#[local] Abbreviation wp := (wpg pre post).

Lemma known_post s c r id h : known s id h -> known (post s c r) id h.
Proof. intros [?|?]; [left; by left|by right]. Qed.

Lemma sorted_drop_prefix (l rest : list Z) : StronglySorted Z.lt (l ++ rest) -> filter (fun id => id ∉ l) (l ++ rest) = rest.
Proof.
  intros Hs. rewrite filter_app, (filter_none _ l), filter_all; cbn.
  - done.
  - apply Forall_forall. intros x Hx Hin. apply (StronglySorted_app_1_elem_of _ _ _ _ _ Hs Hin) in Hx. lia.
  - apply Forall_forall. intros x Hx Hn. by apply Hn.
Qed.

Lemma ids_subseteq (l l' : list PendingDecision) : l ⊆ l' -> ids l ⊆ ids l'.
Proof. intros Hl x (d & -> & Hd)%list_elem_of_fmap. apply list_elem_of_fmap. eauto. Qed.

Lemma sorted_ids_filter (l : list Z) (batch : list PendingDecision) :
  StronglySorted Z.lt (ids batch) -> StronglySorted Z.lt (ids (filter (fun d => d_id d ∉ l) batch)).
Proof.
  rewrite <- (filter_map_comm d_id (fun id => id ∉ l) (fun d => d_id d ∉ l)) by done. apply StronglySorted_filter.
Qed.

Section Runs.
Variable options : Options.
Implicit Types (batch : list PendingDecision) (s : Know).

Lemma markFailed_wp l e s (Q : Know -> res thrown unit -> Prop) :
  l ⊆ ids b0 -> (l = [] -> Q s (Ok tt)) -> (forall r, allowed (MarkFailed l e) r -> Q (post s (MarkFailed l e) r) r) -> wp (markFailed l e) s Q.
Proof. intros Hl H0 HQ. unfold markFailed. case_bool_decide; [by apply H0|]. by apply wp_await. Qed.

Lemma release_wp l delay e h s : l ⊆ ids b0 -> match h with Some h => forall id, id ∈ l -> known s id h | None => True end ->
  wp (release l delay e h) s (fun _ _ => True).
Proof. intros Hl Hh. unfold release. case_bool_decide; [done|]. by apply wp_await. Qed.

Lemma retryLater_wp batch reason count h s :
  batch ⊆ b0 -> match h with Some h => forall id, id ∈ ids batch -> known s id h | None => True end ->
  wp (retryLater options batch reason count h) s (fun _ _ => True).
Proof.
  intros Hb Hh. unfold retryLater. set (ex := if count then _ else _). set (rt := filter _ batch).
  assert (ex ⊆ batch) as Hex by (subst ex; destruct count; [intros d [_ ?]%list_elem_of_filter; done|set_solver]).
  assert (rt ⊆ batch) as Hrt by (intros d [_ ?]%list_elem_of_filter; done).
  assert (forall l, l ⊆ batch -> ids l ⊆ ids b0) as Hids by (intros l Hl; apply ids_subseteq; set_solver).
  assert (forall s', (forall id h', known s id h' -> known s' id h') ->
    wp (if bool_decide (rt = []) then Ret tt else
        x ← await Random; release (ids rt) (jitteredBackoff (foldr Z.max 0 (d_attempts <$> rt)) (bp_baseBackoffMs options) (bp_maxBackoffMs options) x) reason h)
      s' (fun _ _ => True)) as Hrest.
  { intros s' Hs'. case_bool_decide; [done|]. apply wp_bind, wp_await; [done|]. intros [x|e] _; [|done].
    apply release_wp; [auto|]. destruct h as [h|]; [|done]. intros id Hid. apply known_post, Hs', Hh.
    by apply (ids_subseteq rt batch). }
  apply wp_bind. destruct (bool_decide (ex = [])); [by apply Hrest|]. apply markFailed_wp; [auto| |].
  - intros _. by apply Hrest.
  - intros [[]|e] _; [|done]. apply Hrest. intros id h'. apply known_post.
Qed.

Lemma ids_filter_done (done_ l : list Z) batch :
  filter (fun id => id ∉ l) (ids (filter (fun d => d_id d ∉ done_) batch)) = ids (filter (fun d => d_id d ∉ done_ ++ l) batch).
Proof.
  induction batch as [|d batch IH]; [done|]. rewrite !filter_cons.
  destruct (decide (d_id d ∉ done_)), (decide (d_id d ∉ done_ ++ l)); rewrite ?fmap_cons, ?filter_cons; try set_solver.
  - rewrite decide_True by set_solver. by rewrite IH.
  - rewrite decide_False by set_solver. done.
Qed.

(** After reconciliation the decisions left are those that may still be open. *)
Definition reconciledTo batch (s' : Know) (r : res thrown (option (list PendingDecision))) : Prop :=
  match r with
  | Ok (Some rem) => kn_open s' = ids rem ∧ ∃ done_ : list Z, rem = filter (fun d => d_id d ∉ done_) batch
  | _ => True
  end.

Lemma reconcileLoop_wp batch hashes done_ s :
  batch ⊆ b0 -> kn_open s = ids (filter (fun d => d_id d ∉ done_) batch) ->
  wp (reconcileLoop options batch hashes done_) s (reconciledTo batch).
Proof.
  intros Hb. revert done_ s. induction hashes as [|hash hashes IH]; intros done_ s Ho; cbn [reconcileLoop].
  { cbn. eauto. }
  apply wp_bind, wp_catch, wp_bind, wp_await; [done|]. intros r _. set (s1 := post s (Lookup hash) r).
  assert (kn_open s1 = kn_open s) as Ho1 by done. destruct r as [[ledger| | |]|e]; cbn [wp].
  - set (l := ids (filter (fun d => d_txHash d = Some hash) batch)). apply wp_bind. unfold markPublished. case_bool_decide as Hl.
    + cbn [wp]. apply IH. rewrite Hl, app_nil_r. congruence.
    + apply wp_await.
      * assert (filter (fun d => d_txHash d = Some hash) batch ⊆ batch) as Hsub by (intros d [_ ?]%list_elem_of_filter; done).
        split; [apply ids_subseteq; set_solver|]. intros id (d & -> & [Hd Hin]%list_elem_of_filter)%list_elem_of_fmap.
        right. split_and!; [done| |done]. right. exists d. auto.
      * intros [[]|e] _; [|done]. apply IH. cbn. rewrite Ho. apply ids_filter_done.
  - apply wp_bind. eapply wp_mono; [by apply retryLater_wp|]. by intros s' [[]|e] _.
  - apply IH. congruence.
  - apply IH. congruence.
  - apply wp_bind. eapply wp_mono; [by apply retryLater_wp|]. by intros s' [[]|e'] _.
Qed.

Lemma reconcile_wp batch s : batch ⊆ b0 -> kn_open s = ids batch -> wp (reconcile options batch) s (reconciledTo batch).
Proof.
  intros Hb Ho. assert (filter (fun d => d_id d ∉ ([] : list Z)) batch = batch) as E by (apply filter_all, Forall_forall; set_solver).
  unfold reconcile. destruct (hashesOf batch) as [|h hs].
  - cbn. split; [done|]. by exists [].
  - apply reconcileLoop_wp; [done|]. by rewrite E.
Qed.

Lemma observeSince_wp t s (Q : Know -> res thrown unit -> Prop) :
  (forall s' r, kn_open s' = kn_open s -> (forall id h, known s id h -> known s' id h) ->
     (forall id h, kn_confirmed s id h -> kn_confirmed s' id h) ->
     match r with Ok _ => True | Err e => ambiguousHash e = None end -> Q s' r) ->
  wp (observeSince t) s Q.
Proof.
  intros HQ. unfold observeSince. apply wp_bind, wp_await; [done|]. intros [t'|e] Hr.
  - apply wp_await; [done|]. intros r Hr'. apply HQ; [done|intros; by do 2 apply known_post|intros; left; by left|exact Hr'].
  - apply HQ; [done|intros; by apply known_post|intros; by left|exact Hr].
Qed.

(** The [try] block publishes the batch, or raises with nothing resolved and the
    transaction of an ambiguous outcome known to be sent. *)
Lemma submitAndMark_wp t batch rest s :
  batch ⊆ b0 -> StronglySorted Z.lt (kn_open s) -> kn_open s = ids batch ++ rest ->
  wp (submitAndMark t batch) s (fun s' r =>
    match r with
    | Ok _ => kn_open s' = rest
    | Err e => kn_open s' = kn_open s ∧ match ambiguousHash e with Some h => forall id, id ∈ ids batch -> known s' id h | None => True end
    end).
Proof.
  intros Hb Hs Ho. unfold submitAndMark. apply wp_bind, wp_await; [by split_and!; [|exists rest|]|]. intros [res|e] _.
  - apply wp_bind, observeSince_wp. intros s' r Ho' _ Hconf Hr. destruct r as [[]|e]; [|by rewrite Hr].
    unfold markPublished. case_bool_decide as Hl.
    + cbn [wp]. rewrite Ho'. cbn. by rewrite Ho, Hl.
    + apply wp_await.
      * split; [by apply ids_subseteq|]. intros id Hid. apply Hconf. by right.
      * intros [[]|e] He; cbn in *; [|by rewrite He]. rewrite Ho', Ho. apply sorted_drop_prefix. by rewrite <- Ho.
  - split; [done|]. destruct (ambiguousHash e) as [h|] eqn:E; [|done]. intros id Hid. left. right. by split.
Qed.

Lemma half_split batch : (2 <= length batch)%nat ->
  take (half batch) batch ≠ [] ∧ drop (half batch) batch ≠ [] ∧
  (length (take (half batch) batch) < length batch)%nat ∧ (length (drop (half batch) batch) < length batch)%nat.
Proof.
  intros Hn. unfold half. pose proof (Nat.div2_odd (S (length batch))) as E. set (m := Nat.div2 _) in *.
  assert (Nat.b2n (Nat.odd (S (length batch))) <= 1)%nat by (by destruct (Nat.odd _); cbn; lia).
  rewrite length_take, length_drop. split_and!; try lia; intros E'%(f_equal length); revert E'; rewrite ?length_take, ?length_drop; cbn [length]; lia.
Qed.

Lemma half_app batch : ids batch = ids (take (half batch) batch) ++ ids (drop (half batch) batch).
Proof. by rewrite <- fmap_app, take_drop. Qed.

Lemma take_drop_sub n batch : batch ⊆ b0 -> take n batch ⊆ b0 ∧ drop n batch ⊆ b0.
Proof. intros Hb. split; intros d Hd; apply Hb; [by apply subseteq_take in Hd|by apply subseteq_drop in Hd]. Qed.

Lemma markFailed_single_wp d e rest s :
  d ∈ b0 -> StronglySorted Z.lt (kn_open s) -> kn_open s = d_id d :: rest ->
  wp (markFailed [d_id d] e) s (fun s' r => match r with Ok _ => kn_open s' = rest | Err _ => True end).
Proof.
  intros Hd Hs Ho. apply markFailed_wp; [|done|].
  - intros x ->%list_elem_of_singleton. apply list_elem_of_fmap. by exists d.
  - intros [[]|e'] _; [|done]. cbn. rewrite Ho. apply (sorted_drop_prefix [d_id d] rest). rewrite Ho in Hs. exact Hs.
Qed.

(** A split half that reports "published" left nothing of it open. *)
Lemma publishOrRelease_wp fuel batch rest s :
  batch ≠ [] -> (length batch <= fuel)%nat -> batch ⊆ b0 -> StronglySorted Z.lt (kn_open s) -> kn_open s = ids batch ++ rest ->
  wp (publishOrRelease options fuel batch) s (fun s' r => match r with Ok SplitPublished => kn_open s' = rest | _ => True end).
Proof.
  revert batch rest s. induction fuel as [|fuel IH]; intros batch rest s Hne Hf Hb Hs Ho; [destruct batch; cbn in *; [done|lia]|].
  cbn [publishOrRelease]. apply wp_bind, wp_await; [done|]. intros [t|e0] _; [|done]. apply wp_catch, wp_bind.
  eapply wp_mono; [by apply (submitAndMark_wp t batch rest)|]. intros s1 [[]|err] H; [exact H|]. destruct H as [Ho1 Hk].
  change (kn_open (post _ _ _)) with (kn_open s) in Ho1. apply wp_bind, observeSince_wp. intros s2 [[]|e] Ho2 Hk2 _ _; [|done].
  assert (kn_open s2 = ids batch ++ rest) as Hs2 by congruence. destruct (isTooLarge err); cbn [andb].
  - case_bool_decide as Hlen.
    + destruct (half_split batch ltac:(lia)) as (Hne1 & Hne2 & Hl1 & Hl2). destruct (take_drop_sub (half batch) batch Hb) as [Hb1 Hb2].
      rewrite half_app, <- app_assoc in Hs2. apply wp_bind.
      eapply wp_mono; [apply (IH _ (ids (drop (half batch) batch) ++ rest)); [done|lia|done| |done]; congruence|].
      intros s3 [[|]|e] Ho3; [| |done].
      * apply IH; [done|lia|done| |done]. rewrite Ho3. eapply (StronglySorted_app_1_r _ (ids (take (half batch) batch))). by rewrite <- Hs2, Ho2, Ho1.
      * apply wp_bind. eapply wp_mono; [by apply release_wp; [apply ids_subseteq|]|]. by intros s4 [[]|e] _.
    + destruct batch as [|d [|d' batch]]; cbn in Hlen; [done| |lia]. apply wp_bind.
      eapply wp_mono; [apply (markFailed_single_wp d _ rest); [set_solver|congruence|done]|]. by intros s3 [[]|e] H.
  - apply wp_bind. eapply wp_mono; [apply retryLater_wp; [done|]|by intros s3 [[]|e] _].
    destruct (ambiguousHash err); [|done]. intros id Hid. by apply Hk2, Hk.
Qed.

(** A run submits only the first of its unresolved decisions, and ends. *)
Lemma process_wp fuel batch s :
  batch ≠ [] -> (length batch <= fuel)%nat -> batch ⊆ b0 -> StronglySorted Z.lt (kn_open s) -> kn_open s = ids batch ->
  wp (process options fuel batch) s (fun _ _ => True).
Proof.
  revert batch s. induction fuel as [|fuel IH]; intros batch s Hne Hf Hb Hs Ho; [destruct batch; cbn in *; [done|lia]|].
  cbn [process]. apply wp_bind. eapply wp_mono; [by apply reconcile_wp|]. intros s1 [[rem|]|e] H; [|done..]. destruct H as [Ho1 (done_ & Hrem)].
  destruct rem as [|d rem]; [done|]. set (batch1 := d :: rem) in *.
  assert (batch1 ⊆ b0) as Hb1 by (rewrite Hrem; intros x [_ ?]%list_elem_of_filter; auto).
  assert (length batch1 <= length batch)%nat as Hl1 by (rewrite Hrem; apply length_filter).
  assert (StronglySorted Z.lt (kn_open s1)) as Hs1 by (rewrite Ho1, Hrem; apply sorted_ids_filter; by rewrite <- Ho).
  assert (batch1 ≠ []) as Hne1 by done. clearbody batch1. clear Hrem Ho Hs. rewrite <- (app_nil_r (ids batch1)) in Ho1.
  apply wp_bind, wp_await; [done|]. intros [t|e0] _; [|done]. apply wp_catch.
  eapply wp_mono; [by apply (submitAndMark_wp t batch1 [])|]. intros s2 [[]|err] H; [done|]. destruct H as [Ho2 Hk].
  change (kn_open (post _ _ _)) with (kn_open s1) in Ho2. apply wp_bind, observeSince_wp. intros s3 [[]|e] Ho3 Hk3 _ _; [|done].
  assert (kn_open s3 = ids batch1) as Hs3 by (by rewrite Ho3, Ho2, Ho1, app_nil_r). unfold handleFailure. destruct (isTooLarge err).
  - destruct batch1 as [|d1 [|d2 rest1]] eqn:Eb; [done| |].
    + eapply wp_mono; [apply (markFailed_single_wp d1 _ []); [set_solver|congruence|done]|done].
    + rewrite <- Eb in *. assert (2 <= length batch1)%nat as H2 by (rewrite Eb; cbn; lia).
      destruct (half_split batch1 H2) as (Hn1 & Hn2 & Hh1 & Hh2). destruct (take_drop_sub (half batch1) batch1 Hb1) as [Ht Hd].
      rewrite half_app in Hs3. unfold processSplit. apply wp_bind.
      eapply wp_mono; [apply (publishOrRelease_wp fuel _ (ids (drop (half batch1) batch1))); [done|lia|done|congruence|done]|].
      intros s4 [[|]|e] Ho4; [| |done].
      * apply IH; [done|lia|done| |done]. rewrite Ho4. eapply (StronglySorted_app_1_r _ (ids (take (half batch1) batch1))). by rewrite <- Hs3, Ho3, Ho2.
      * eapply wp_mono; [by apply release_wp; [apply ids_subseteq|]|done].
  - eapply wp_mono; [apply retryLater_wp; [done|]|done]. destruct (ambiguousHash err); [|done]. intros id Hid. by apply Hk3, Hk.
Qed.
End Runs.
End Wp.

Abbreviation wp b0 := (wpg (pre b0) (post b0)).

(** * How many transactions a run may send

    The state is the number of submissions left. *)
Definition mayCall (n : nat) (c : call) : Prop := match c with Submit _ => (0 < n)%nat | _ => True end.
Definition callsLeft (n : nat) (c : call) (_ : res thrown (ans c)) : nat := match c with Submit _ => pred n | _ => n end.
Abbreviation budget := (wpg mayCall callsLeft).

(** A program without submissions. *)
Definition silent {A} (p : prog A) : Prop := forall n, budget p n (fun n' _ => n' = n).

Lemma silent_ret {A} (a : A) : silent (Ret a). Proof. done. Qed.
Lemma silent_bind {A B} (p : prog A) (f : A -> prog B) : silent p -> (forall a, silent (f a)) -> silent (p ≫= f).
Proof. intros Hp Hf n. apply wp_bind. eapply wp_mono; [apply Hp|]. intros n' [a|e] ->; [apply Hf|done]. Qed.
Lemma silent_await c : match c with Submit _ => False | _ => True end -> silent (await c).
Proof. intros Hc n. apply wp_await; by destruct c. Qed.
Lemma silent_if {A} (b : bool) (p q : prog A) : silent p -> silent q -> silent (if b then p else q).
Proof. by destruct b. Qed.

Lemma silent_markFailed l e : silent (markFailed l e).
Proof. apply silent_if; [done|by apply silent_await]. Qed.
Lemma silent_markPublished l h ledger : silent (markPublished l h ledger).
Proof. apply silent_if; [done|by apply silent_await]. Qed.
Lemma silent_release l delay e h : silent (release l delay e h).
Proof. apply silent_if; [done|by apply silent_await]. Qed.
Lemma silent_observeSince t : silent (observeSince t).
Proof. apply silent_bind; [by apply silent_await|]. intros t'. by apply silent_await. Qed.
Lemma silent_retryLater options batch reason count h : silent (retryLater options batch reason count h).
Proof.
  apply silent_bind; [apply silent_if; [done|apply silent_markFailed]|]. intros _. apply silent_if; [done|].
  apply silent_bind; [by apply silent_await|]. intros x. apply silent_release.
Qed.

(** Reconciliation sends nothing and leaves no more decisions than it was given. *)
Definition shrinks (n : nat) (batch : list PendingDecision) (n' : nat) (r : res thrown (option (list PendingDecision))) : Prop :=
  n' = n ∧ match r with Ok (Some rem) => (length rem <= length batch)%nat | _ => True end.

Lemma budget_reconcileLoop options batch hashes l n : budget (reconcileLoop options batch hashes l) n (shrinks n batch).
Proof.
  revert l. induction hashes as [|h hashes IH]; intros l; [split; [done|apply length_filter]|].
  apply wp_bind, wp_catch, wp_bind, wp_await; [done|]. intros [[ledger| | |]|e] _; cbn [wpg callsLeft].
  - apply wp_bind. eapply wp_mono; [apply silent_markPublished|]. intros n' [[]|e] ->; [apply IH|done].
  - apply wp_bind. eapply wp_mono; [apply silent_retryLater|]. by intros n' [[]|e] ->.
  - apply IH.
  - apply IH.
  - apply wp_bind. eapply wp_mono; [apply silent_retryLater|]. by intros n' [[]|e'] ->.
Qed.
Lemma budget_reconcile options batch n : budget (reconcile options batch) n (shrinks n batch).
Proof. unfold reconcile. destruct (hashesOf batch); [by split|apply budget_reconcileLoop]. Qed.

Lemma budget_submitAndMark t batch n : budget (submitAndMark t batch) (S n) (fun n' _ => n' = n).
Proof.
  unfold submitAndMark. apply wp_bind, wp_await; [cbn; lia|]. intros [a|e] _; [|done].
  apply silent_bind; [apply silent_observeSince|]. intros _. apply silent_markPublished.
Qed.

(** Splitting a batch of [n] takes at most [2 n - 1] submissions; [m] are left over. *)
Lemma budget_publishOrRelease options fuel batch n m :
  batch ≠ [] -> (length batch <= fuel)%nat -> (2 * length batch + m <= S n)%nat ->
  budget (publishOrRelease options fuel batch) n (fun n' _ => (m <= n')%nat).
Proof.
  revert batch n m. induction fuel as [|fuel IH]; intros batch n m Hne Hf Hn; [destruct batch; cbn in *; [done|lia]|].
  assert (1 <= length batch)%nat as H1 by (destruct batch; cbn; [done|lia]). destruct n as [|n]; [lia|].
  cbn [publishOrRelease]. apply wp_bind, wp_await; [done|]. intros [t|e0] _; [|cbn; lia]. apply wp_catch, wp_bind.
  eapply wp_mono; [apply budget_submitAndMark|]. intros n' [[]|err] ->; [cbn; lia|].
  apply wp_bind. eapply wp_mono; [apply silent_observeSince|]. intros n' [[]|e] ->; [|cbn; lia].
  destruct (isTooLarge err); cbn [andb]; [case_bool_decide as Hlen|].
  - destruct (half_split batch ltac:(lia)) as (Hne1 & Hne2 & Hl1 & Hl2).
    assert (length (take (half batch) batch) + length (drop (half batch) batch) = length batch)%nat as Hlen2
      by (rewrite <- length_app, take_drop; done).
    apply wp_bind. eapply wp_mono; [apply (IH _ _ (2 * length (drop (half batch) batch) + m - 1)%nat); [done|lia|lia]|].
    intros n' [[|]|e] Hn'; [apply IH; [done|lia|lia]| |cbn; lia].
    apply wp_bind. eapply wp_mono; [apply silent_release|]. intros n2 [[]|e] ->; cbn; lia.
  - destruct batch as [|d batch]; [done|]. apply wp_bind. eapply wp_mono; [apply silent_markFailed|].
    intros n2 [[]|e] ->; cbn in *; lia.
  - apply wp_bind. eapply wp_mono; [apply silent_retryLater|]. intros n2 [[]|e] ->; cbn; lia.
Qed.

Lemma budget_process options fuel batch n :
  batch ≠ [] -> (length batch <= fuel)%nat -> (2 * length batch <= S n)%nat ->
  budget (process options fuel batch) n (fun _ _ => True).
Proof.
  revert batch n. induction fuel as [|fuel IH]; intros batch n Hne Hf Hn; [destruct batch; cbn in *; [done|lia]|].
  cbn [process]. apply wp_bind. eapply wp_mono; [apply budget_reconcile|]. intros n' [[rem|]|e] [-> Hrem]; [|done..].
  destruct rem as [|d rem]; [done|]. set (b := d :: rem) in *. assert (b ≠ []) as Hb by done. clearbody b. clear d rem.
  destruct n as [|n]; [destruct batch; cbn in *; [done|lia]|].
  apply wp_bind, wp_await; [done|]. intros [t|e0] _; [|done]. apply wp_catch.
  eapply wp_mono; [apply budget_submitAndMark|]. intros n' [[]|err] ->; [done|].
  apply wp_bind. eapply wp_mono; [apply silent_observeSince|]. intros n' [[]|e] ->; [|done].
  unfold handleFailure. destruct (isTooLarge err); [|by eapply wp_mono; [apply silent_retryLater|]].
  destruct b as [|d1 [|d2 rest]] eqn:Eb; [done|by eapply wp_mono; [apply silent_markFailed|]|]. rewrite <- Eb in *.
  assert (2 <= length b)%nat as H2 by (rewrite Eb; cbn; lia). destruct (half_split b H2) as (Hn1 & Hn2 & Hh1 & Hh2).
  assert (length (take (half b) b) + length (drop (half b) b) = length b)%nat as Hlen by (rewrite <- length_app, take_drop; done).
  unfold processSplit. apply wp_bind.
  eapply wp_mono; [apply (budget_publishOrRelease _ _ _ _ (2 * length (drop (half b) b) - 1)%nat); [done|lia|lia]|].
  intros n' [[|]|e] Hn'; [apply IH; [done|lia|lia]|by eapply wp_mono; [apply silent_release|]|done].
Qed.
