(* ===== verification/PublishOrder.v ===== *)
(** What the batch publisher of file BatchPublisher guarantees over every interleaving
    of its runs, its timer, its producers and restarts, and where it does not do what
    its comments say. *)

From stdpp Require Import base list strings sorting sets.
From Stdlib Require Import ZArith Lia Ascii Floats.
From S2P Require Import Prelude Decimal JsNum JsRegex Encoding PublishQueue BatchPublisher.

#[local] Open Scope Z_scope.

Abbreviation rowsOf w := (qu_rows (w_queue w)).

(** Transaction [h] was sent with decision [id] in it, and was seen to be confirmed. *)
Definition sentOk (log : list Sent) (id : Z) (h : string) : Prop :=
  ∃ rows batch r, SentBatch rows batch r ∈ log ∧ id ∈ ids batch ∧
    match r with Ok a => bs_txHash a = h | Err e => ambiguousHash e = Some h end.
Definition confirmedOk (log : list Sent) (id : Z) (h : string) : Prop :=
  (∃ rows batch a, SentBatch rows batch (Ok a) ∈ log ∧ id ∈ ids batch ∧ bs_txHash a = h) ∨
  (sentOk log id h ∧ ∃ ledger, SentLookup h (LSuccess ledger) ∈ log).

(** A batch is in publish order and leaves out no earlier open decision of its feeds. *)
Definition ordered (rows : list QRow) (batch : list PendingDecision) : Prop :=
  StronglySorted Z.lt (ids batch) ∧
  forall r d, r ∈ rows -> isOpen r = true -> d ∈ batch -> q_feed r = d_feed d -> q_id r < d_id d -> q_id r ∈ ids batch.

(** What a run's knowledge means in the world. *)
Record knows (rows : list QRow) (log : list Sent) (batch : list PendingDecision) (s : Know) : Prop := {
  kw_sub : kn_open s ⊆ ids batch;
  kw_open : forall r d, r ∈ rows -> isOpen r = true -> d ∈ batch -> q_feed r = d_feed d -> q_id r <= d_id d -> q_id r ∈ kn_open s;
  kw_sent : forall id h, known batch s id h -> sentOk log id h;
  kw_confirmed : forall id h, kn_confirmed s id h -> confirmedOk log id h }.

Record runOk (rows : list QRow) (log : list Sent) (run : Run) : Prop := {
  ro_feeds : forall d, d ∈ rn_batch run -> d_feed d ∈ rn_feeds run;
  ro_rows : forall d, d ∈ rn_batch run -> ∃ r, r ∈ rows ∧ q_id r = d_id d ∧ q_feed r = d_feed d;
  ro_know : ∃ s, wp (rn_batch run) (rn_prog run) s (fun _ _ => True) ∧ knows rows log (rn_batch run) s }.

Record rowsOk (q : Queue) (log : list Sent) : Prop := {
  rw_asc : ascending (qu_rows q);
  rw_next : forall r, r ∈ qu_rows q -> q_id r < qu_nextId q;
  rw_hash : forall r h, r ∈ qu_rows q -> q_tx_hash r = Some h -> sentOk log (q_id r) h;
  rw_published : forall r, r ∈ qu_rows q -> q_status r = Published -> ∃ h, q_tx_hash r = Some h ∧ confirmedOk log (q_id r) h }.

Record slotsOk (maxInFlight : nat) (runs : list Run) (feeds : list string) (phase : TickPhase) : Prop := {
  so_disjoint : forall i j ri rj f, i ≠ j -> runs !! i = Some ri -> runs !! j = Some rj -> f ∈ rn_feeds ri -> f ∉ rn_feeds rj;
  so_feeds : forall i run f, runs !! i = Some run -> f ∈ rn_feeds run -> f ∈ feeds;
  so_count : (length runs <= maxInFlight)%nat;
  so_phase : forall exclude, phase = TClaim exclude -> feeds ⊆ exclude ∧ (length runs < maxInFlight)%nat }.

Record inv (options : Options) (w : World) : Prop := {
  iv_rows : rowsOk (w_queue w) (w_sent w);
  iv_runs : forall i run, w_inFlight w !! i = Some run -> runOk (rowsOf w) (w_sent w) run;
  iv_slots : slotsOk (bp_maxInFlight options) (w_inFlight w) (w_feedsInFlight w) (w_phase w);
  iv_log : forall rows batch r, SentBatch rows batch r ∈ w_sent w -> ordered rows batch }.

(** * The log only grows *)

Lemma sentOk_mono log log' id h : log ⊆ log' -> sentOk log id h -> sentOk log' id h.
Proof. intros Hl (rows & batch & r & Hin & H). exists rows, batch, r. split; [by apply Hl|done]. Qed.
Lemma confirmedOk_mono log log' id h : log ⊆ log' -> confirmedOk log id h -> confirmedOk log' id h.
Proof.
  intros Hl [(rows & batch & a & Hin & H)|[Hs (l & Hin)]]; [left; exists rows, batch, a; split; [by apply Hl|done]|].
  right. split; [by eapply sentOk_mono|]. exists l. by apply Hl.
Qed.
Lemma confirmedOk_sentOk log id h : confirmedOk log id h -> sentOk log id h.
Proof. intros [(rows & batch & a & Hin & Hid & E)|[Hs _]]; [|done]. exists rows, batch, (Ok a). auto. Qed.

Lemma rowsOk_mono q log log' : log ⊆ log' -> rowsOk q log -> rowsOk q log'.
Proof.
  intros Hl []. split; [done..| |].
  - intros r h Hr E. eapply sentOk_mono; eauto.
  - intros r Hr E. destruct (rw_published0 r Hr E) as (h & ? & ?). exists h. split; [done|]. by eapply confirmedOk_mono.
Qed.

(** * Updates of the rows *)

(** [rows'] has the rows of [rows] under the same ids and feeds, and a row of the feeds
    [fs] is open only if it was. *)
Record framed (fs : list string) (rows rows' : list QRow) : Prop := {
  fr_keep : forall r, r ∈ rows -> ∃ r', r' ∈ rows' ∧ q_id r' = q_id r ∧ q_feed r' = q_feed r;
  fr_open : forall r', r' ∈ rows' -> isOpen r' = true -> q_feed r' ∈ fs -> (forall r, r ∈ rows -> q_id r < q_id r') ∨
    ∃ r, r ∈ rows ∧ isOpen r = true ∧ q_id r = q_id r' ∧ q_feed r = q_feed r' }.

Lemma framed_refl fs rows : framed fs rows rows.
Proof. split; [eauto|]. intros r' Hr Ho _. right. eauto. Qed.

(** A run does not notice an update that leaves its feeds alone. *)
Lemma runOk_frame rows rows' log log' run :
  framed (rn_feeds run) rows rows' -> log ⊆ log' -> runOk rows log run -> runOk rows' log' run.
Proof.
  intros [Hkeep Hopen] Hl [Hf Hr (s & Hwp & [Hsub Ho Hs Hc])]. split; [done| |].
  - intros d Hd. destruct (Hr d Hd) as (r & Hin & Hi & Hfd). destruct (Hkeep r Hin) as (r' & Hin' & Hi' & Hf').
    exists r'. split_and!; [done|congruence|congruence].
  - exists s. split; [done|]. split; [done| | |].
    + intros r' d Hr' Hop Hd E Hle. destruct (Hopen r' Hr' Hop) as [Hnew|(r & Hin & Hop1 & Ei & Ef)]; [rewrite E; by apply Hf| |].
      * destruct (Hr d Hd) as (r & Hin & Hi & _). apply Hnew in Hin. lia.
      * rewrite <- Ei. eapply Ho; [done|done|exact Hd|congruence|lia].
    + intros id h Hk. eapply sentOk_mono; [done|]. auto.
    + intros id h Hk. eapply confirmedOk_mono; [done|]. auto.
Qed.

(** An update by id only touches the feeds of those rows. *)
Lemma updateRows_frame fs l f rows :
  keepsIdentity f -> (forall r, r ∈ rows -> q_id r ∈ l -> q_feed r ∉ fs) -> framed fs rows (updateRows l f rows).
Proof.
  intros Hf Hl. split.
  - intros r Hr. exists (if bool_decide (q_id r ∈ l) then f r else r). split; [apply updateRows_lookup; eauto|].
    case_bool_decide; [split; apply Hf|done].
  - intros r' (r & Hr & ->)%updateRows_lookup Hop Hfs. right. case_bool_decide as Hin.
    + destruct (Hf r) as (_ & _ & E & _). rewrite E in Hfs. by destruct (Hl r Hr Hin).
    + eauto.
Qed.

(** An update that opens no row is not noticed by any run. *)
Lemma map_frame fs g rows :
  (forall r, q_id (g r) = q_id r ∧ q_feed (g r) = q_feed r ∧ (isOpen (g r) = true -> isOpen r = true)) -> framed fs rows (map g rows).
Proof.
  intros Hg. split.
  - intros r Hr. exists (g r). split; [by apply list_elem_of_fmap_2|]. split; apply Hg.
  - intros r' (r & -> & Hr)%list_elem_of_fmap Hop _. right. exists r. destruct (Hg r) as (? & ? & ?). auto.
Qed.

(** * One call of a run *)

(** The update a database call makes. *)
Definition writes (now : Z) (c : call) : option (list Z * (QRow -> QRow)) :=
  match c with
  | MarkPublished l h ledger => Some (l, setPublished now h ledger)
  | Release l delay e h => Some (l, setReleased now (Z.max 0 (default 0 (round_to_Z delay))) e h)
  | MarkFailed l e => Some (l, setFailed e)
  | _ => None
  end.

(** What a call adds to the log. *)
Definition logs (rows : list QRow) (c : call) : res thrown (ans c) -> list Sent :=
  match c return res thrown (ans c) -> list Sent with
  | Submit batch => fun r => [SentBatch rows batch r]
  | Lookup h => fun r => match r with Ok l => [SentLookup h l] | Err _ => [] end
  | _ => fun _ => []
  end.

Record answered (w : World) (c : call) (r : res thrown (ans c)) (w' : World) : Prop := {
  an_allowed : allowed c r;
  an_runs : w_inFlight w' = w_inFlight w;
  an_feeds : w_feedsInFlight w' = w_feedsInFlight w;
  an_phase : w_phase w' = w_phase w;
  an_next : qu_nextId (w_queue w') = qu_nextId (w_queue w);
  an_log : w_sent w' = w_sent w ++ logs (rowsOf w) c r;
  an_rows : (rowsOf w' = rowsOf w ∧ (writes (w_now w) c = None ∨ is_ok r = false)) ∨
    ∃ l f, writes (w_now w) c = Some (l, f) ∧ rowsOf w' = updateRows l f (rowsOf w) }.

Lemma query_spec w f l g a r w' :
  (forall rows, f rows = Ok (updateRows l g rows) ∨ ∃ e, f rows = Err e) -> query w f a = Some (r, w') ->
  match r with Err e => ambiguousHash e = None | Ok _ => True end ∧
  ((w' = w ∧ is_ok r = false) ∨ w' = withRows (updateRows l g (rowsOf w)) w).
Proof.
  intros Hf. unfold query. destruct (Hf (rowsOf w)) as [->|[e ->]]; destruct a as [|?|?|?|b e']; intros [= <- <-]; try destruct b; cbn; auto.
Qed.

Ltac answered_query := split; [done..|by cbn; rewrite app_nil_r|cbn; eauto].

Lemma answer_spec w c a r w' : answer w c a = Some (r, w') -> answered w c r w'.
Proof.
  destruct c as [| |ms|batch|h|l h ledger|l delay e h|l e]; cbn [answer]; intros Ha.
  - injection Ha as <- <-. answered_query.
  - destruct a; try discriminate. injection Ha as <- <-. answered_query.
  - injection Ha as <- <-. answered_query.
  - destruct a; try discriminate; injection Ha as <- <-; (split; [done..|cbn; eauto]).
  - destruct a; try discriminate; injection Ha as <- <-; (split; [done..| |cbn; eauto]); [done|by cbn; rewrite app_nil_r].
  - apply (query_spec w _ l (setPublished (w_now w) h ledger)) in Ha as [Hal [[-> Hn]| ->]]; [answered_query..|]. by left.
  - apply (query_spec w _ l (setReleased (w_now w) (Z.max 0 (default 0 (round_to_Z delay))) e h)) in Ha as [Hal [[-> Hn]| ->]];
      [answered_query..|]. intros rows. unfold releaseRows. destruct (round_to_Z delay); eauto.
  - apply (query_spec w _ l (setFailed e)) in Ha as [Hal [[-> Hn]| ->]]; [answered_query..|]. by left.
Qed.

Lemma writes_identity now c l f : writes now c = Some (l, f) -> keepsIdentity f.
Proof. destruct c; cbn; intros [= <- <-]; auto with refract. Qed.

(** A call a run may make leaves the table well formed. *)
Lemma rowsOk_answer w c r w' batch s :
  rowsOk (w_queue w) (w_sent w) -> answered w c r w' -> pre batch s c -> knows (rowsOf w) (w_sent w) batch s ->
  rowsOk (w_queue w') (w_sent w').
Proof.
  intros Hrows Han Hpre [_ _ Hs Hc]. assert (w_sent w ⊆ w_sent w') as Hlog by (rewrite (an_log _ _ _ _ Han); set_solver).
  apply (rowsOk_mono _ _ _ Hlog) in Hrows. destruct Hrows as [Hasc Hnext Hhash Hpub].
  destruct (an_rows _ _ _ _ Han) as [[E _]|(l & f & Hw & E)].
  { split; rewrite ?E, ?(an_next _ _ _ _ Han); done. }
  assert (keepsIdentity f) as Hf by (by eapply writes_identity).
  split; rewrite ?E, ?(an_next _ _ _ _ Han).
  - by apply updateRows_ascending.
  - intros r' (r0 & Hr0 & ->)%updateRows_lookup. case_bool_decide; [destruct (Hf r0) as [-> _]|]; auto.
  - intros r' h (r0 & Hr0 & ->)%updateRows_lookup. case_bool_decide as Hin; [|auto]. destruct (Hf r0) as [-> _].
    destruct c as [| |ms|b|h'|l' h' ledger|l' delay e h'|l' e]; cbn in Hw; simplify_eq; cbn; intros Eh.
    + simplify_eq. eapply confirmedOk_sentOk, confirmedOk_mono; [done|]. by apply Hc, Hpre.
    + destruct h' as [h'|]; [|auto]. simplify_eq. eapply sentOk_mono; [done|]. by apply Hs, Hpre.
    + auto.
  - intros r' (r0 & Hr0 & ->)%updateRows_lookup. case_bool_decide as Hin; [|auto]. destruct (Hf r0) as [-> _].
    destruct c as [| |ms|b|h'|l' h' ledger|l' delay e h'|l' e]; cbn in Hw; simplify_eq; cbn; intros Eh; try discriminate.
    exists h'. split; [done|]. eapply confirmedOk_mono; [done|]. by apply Hc, Hpre.
Qed.

(** What the run knows after the call is true. *)
Lemma knows_answer w c r w' batch s :
  answered w c r w' -> pre batch s c -> knows (rowsOf w) (w_sent w) batch s -> knows (rowsOf w') (w_sent w') batch (post batch s c r).
Proof.
  intros Han Hpre [Hsub Ho Hs Hc]. assert (w_sent w ⊆ w_sent w') as Hlog by (rewrite (an_log _ _ _ _ Han); set_solver).
  split.
  - destruct c as [| |ms|b|h'|l h' ledger|l delay e h'|l e]; cbn in *; try done; [destruct (is_ok r)| |destruct (is_ok r)]; try done;
      [intros x [_ ?]%list_elem_of_filter; auto|intros x [Hx|Hx]%elem_of_app; [by apply Hpre|by apply Hsub]|intros x [_ ?]%list_elem_of_filter; auto].
  - intros r' d Hr' Hop Hd Ef Hle. destruct (an_rows _ _ _ _ Han) as [[E Hn]|(l & f & Hw & E)]; rewrite E in Hr'.
    + pose proof (Ho r' d Hr' Hop Hd Ef Hle) as Hin.
      destruct c as [| |ms|b|h'|l h' ledger|l delay e h'|l e]; cbn in *; try done;
        [destruct Hn as [|Hn]; [done|by rewrite Hn]|by apply elem_of_app; right|destruct Hn as [|Hn]; [done|by rewrite Hn]].
    + apply updateRows_lookup in Hr' as (r0 & Hr0 & ->). assert (keepsIdentity f) as Hf by (by eapply writes_identity).
      case_bool_decide as Hin.
      * destruct (Hf r0) as [-> _]. destruct c; cbn in Hw; simplify_eq. by apply elem_of_app; left.
      * pose proof (Ho r0 d Hr0 Hop Hd Ef Hle) as Hk. destruct c; cbn in Hw; simplify_eq; cbn [post kn_open openAfter];
          [destruct (is_ok r); [by apply list_elem_of_filter|done]|by apply elem_of_app; right|destruct (is_ok r); [by apply list_elem_of_filter|done]].
  - intros id h [[Hk|Hk]|Hk].
    + eapply sentOk_mono; [done|]. apply Hs. by left.
    + destruct c as [| |ms|b|h'|l h' ledger|l delay e h'|l e]; cbn in Hk; try done. destruct Hk as [Hid Hk].
      rewrite (an_log _ _ _ _ Han). exists (rowsOf w), b, r. split; [apply elem_of_app; right; apply list_elem_of_singleton; done|]. done.
    + eapply sentOk_mono; [done|]. apply Hs. by right.
  - intros id h [Hk|Hk]; [eapply confirmedOk_mono; [done|]; by apply Hc|].
    destruct c as [| |ms|b|h'|l h' ledger|l delay e h'|l e]; cbn in Hk; try done.
    + destruct r as [ra|e]; [|by destruct Hk]. destruct Hk as [Hid Hk]. left. exists (rowsOf w), b, ra.
      rewrite (an_log _ _ _ _ Han). split; [apply elem_of_app; right; apply list_elem_of_singleton; done|done].
    + destruct Hk as (-> & Hkn & Hr). destruct r as [[ledger| | |]|e]; try done. right. split; [eapply sentOk_mono; [done|]; by apply Hs|].
      exists ledger. rewrite (an_log _ _ _ _ Han). apply elem_of_app. right. by apply list_elem_of_singleton.
Qed.

(** A submission that a run may make is in order. *)
Lemma ordered_submit rows log b0 s batch : pre b0 s (Submit batch) -> knows rows log b0 s -> ordered rows batch.
Proof.
  intros (Hsort & [rest Ho] & Hb) [_ Hop _ _]. rewrite Ho in Hsort. split; [by eapply StronglySorted_app_1_l|].
  intros r d Hr Hopen Hd Ef Hlt. assert (q_id r ∈ kn_open s) as Hin by (eapply Hop; [done|done|by apply Hb|done|lia]).
  rewrite Ho in Hin. apply elem_of_app in Hin as [|Hin]; [done|].
  assert (d_id d ∈ ids batch) as Hid by (apply list_elem_of_fmap; eauto).
  apply (StronglySorted_app_1_elem_of _ _ _ _ _ Hsort Hid) in Hin. lia.
Qed.

(** A call of one run is not noticed by a run of other feeds. *)
Lemma answer_frame w c r w' run s fs :
  ascending (rowsOf w) -> answered w c r w' -> runOk (rowsOf w) (w_sent w) run -> pre (rn_batch run) s c ->
  (forall f, f ∈ rn_feeds run -> f ∉ fs) -> framed fs (rowsOf w) (rowsOf w').
Proof.
  intros Hasc Han [Hfeeds Hrows _] Hpre Hdis. destruct (an_rows _ _ _ _ Han) as [[-> _]|(l & f & Hw & ->)]; [apply framed_refl|].
  assert (l ⊆ ids (rn_batch run)) as Hl by (destruct c; cbn in Hw; simplify_eq; cbn in Hpre; by destruct_and?).
  apply updateRows_frame; [by eapply writes_identity|]. intros r0 Hr0 (d & E & Hd)%Hl%list_elem_of_fmap.
  destruct (Hrows d Hd) as (r1 & Hr1 & Hi & Hf). apply Hdis.
  rewrite (ascending_id_inj _ r0 r1 Hasc Hr0 Hr1) by congruence. rewrite Hf. by apply Hfeeds.
Qed.

Lemma slotsOk_insert n runs feeds phase i run run' :
  runs !! i = Some run -> rn_feeds run' = rn_feeds run -> slotsOk n runs feeds phase -> slotsOk n (<[i := run']> runs) feeds phase.
Proof.
  intros Hi Ef [Hd Hf Hc Hp]. assert (forall j rj, <[i := run']> runs !! j = Some rj -> ∃ rj', runs !! j = Some rj' ∧ rn_feeds rj' = rn_feeds rj) as Hold.
  { intros j rj [(<- & <- & _)|[_ ?]]%list_lookup_insert_Some; [exists run; by rewrite Ef|by exists rj]. }
  split; [| |by rewrite length_insert|intros; rewrite length_insert; auto].
  - intros j1 j2 r1 r2 f Hne (r1' & H1 & <-)%Hold (r2' & H2 & <-)%Hold. eauto.
  - intros j rj f (rj' & Hj & <-)%Hold. eauto.
Qed.

Lemma slotsOk_delete n runs feeds phase i run :
  runs !! i = Some run -> slotsOk n runs feeds phase ->
  slotsOk n (delete i runs) (filter (fun f => f ∉ rn_feeds run) feeds) phase.
Proof.
  intros Hi [Hd Hf Hc Hp]. assert (length (delete i runs) < length runs)%nat as Hlen.
  { rewrite length_delete by done. apply lookup_lt_Some in Hi. lia. }
  assert (forall j rj, delete i runs !! j = Some rj -> ∃ j', runs !! j' = Some rj ∧ j' ≠ i ∧ j' = if decide (j < i)%nat then j else S j) as Hold.
  { intros j rj Hj. destruct (decide (j < i)%nat) as [Hlt|Hge].
    - rewrite list_lookup_delete_lt in Hj by done. exists j. split_and!; [done|lia|done].
    - rewrite list_lookup_delete_ge in Hj by lia. exists (S j). split_and!; [done|lia|done]. }
  split.
  - intros j1 j2 r1 r2 f Hne (k1 & H1 & _ & E1)%Hold (k2 & H2 & _ & E2)%Hold. apply (Hd k1 k2); [|done..].
    subst. repeat case_decide; lia.
  - intros j rj f (k & Hk & Hne & _)%Hold Hin. apply list_elem_of_filter. split; [by apply (Hd k i rj run)|by eapply Hf].
  - lia.
  - intros excl E. destruct (Hp excl E) as [Hsub Hlt]. split; [|lia]. intros f [_ ?]%list_elem_of_filter. auto.
Qed.

Lemma inv_call options w i run c k a r w' :
  inv options w -> w_inFlight w !! i = Some run -> rn_prog run = Vis c k -> answer w c a = Some (r, w') ->
  inv options (withRuns (<[i := mkRun (rn_feeds run) (rn_batch run) (k r)]> (w_inFlight w')) (w_feedsInFlight w') w').
Proof.
  intros [Hrows Hruns Hslots Hlog] Hi Hp Han%answer_spec. pose proof (Hruns i run Hi) as Hrun.
  destruct (ro_know _ _ _ Hrun) as (s & Hwp & Hkn). rewrite Hp in Hwp. destruct Hwp as [Hpre Hwp].
  assert (w_sent w ⊆ w_sent w') as Hsub by (rewrite (an_log _ _ _ _ Han); set_solver). split; cbn.
  - by eapply rowsOk_answer.
  - rewrite (an_runs _ _ _ _ Han). intros j rj [(<- & <- & _)|[Hne Hj]]%list_lookup_insert_Some.
    + destruct Hrun as [Hf Hr _]. split; cbn; [done| |].
      * intros d Hd. destruct (Hr d Hd) as (r0 & Hr0 & Ei & Ef).
        assert (framed [] (rowsOf w) (rowsOf w')) as [Hkeep _] by (eapply answer_frame; [apply Hrows|done|by apply (Hruns i)|done|set_solver]).
        destruct (Hkeep r0 Hr0) as (r1 & ? & ? & ?). exists r1. split_and!; [done|congruence|congruence].
      * exists (post (rn_batch run) s c r). split; [by apply Hwp, (an_allowed _ _ _ _ Han)|by eapply knows_answer].
    + eapply runOk_frame; [|done|by apply (Hruns j)]. eapply answer_frame; [apply Hrows|done|done|done|].
      intros f Hf. by eapply (so_disjoint _ _ _ _ Hslots i j).
  - rewrite (an_runs _ _ _ _ Han), (an_feeds _ _ _ _ Han), (an_phase _ _ _ _ Han). by eapply slotsOk_insert.
  - intros rows batch r0. rewrite (an_log _ _ _ _ Han). intros [?|Hin]%elem_of_app; [by eapply Hlog|].
    destruct c; cbn in Hin; try (by apply elem_of_nil in Hin).
    + apply list_elem_of_singleton in Hin. simplify_eq. by eapply ordered_submit.
    + destruct r; cbn in Hin; [by apply list_elem_of_singleton in Hin|by apply elem_of_nil in Hin].
Qed.

Lemma inv_stepRun options w i a : inv options w -> inv options (stepRun i a w).
Proof.
  intros Hinv. unfold stepRun. destruct (w_inFlight w !! i) as [run|] eqn:Hi; [|done].
  assert (inv options (settle i run w)) as Hset.
  { destruct Hinv as [Hrows Hruns Hslots Hlog]. split; cbn; [done| |by apply slotsOk_delete|done].
    intros j rj Hj. apply list_elem_of_lookup_2 in Hj. rewrite delete_take_drop in Hj.
    assert (rj ∈ w_inFlight w) as [j' Hj']%list_elem_of_lookup; [|by eapply Hruns].
    apply elem_of_app in Hj as [Hj|Hj]; [by apply subseteq_take in Hj|by apply subseteq_drop in Hj]. }
  destruct (rn_prog run) as [u|e| |c k] eqn:Hp; [exact Hset..|]. destruct (answer w c a) as [[r w']|] eqn:Ha; [|done].
  exact (inv_call _ _ _ _ _ _ _ _ _ Hinv Hi Hp Ha).
Qed.

(** * The other events *)

Lemma inv_phase options w p :
  inv options w -> (forall exclude, p = TClaim exclude -> w_feedsInFlight w ⊆ exclude ∧ (length (w_inFlight w) < bp_maxInFlight options)%nat) ->
  inv options (withPhase p w).
Proof. intros [Hr Hruns [Hd Hf Hc _] Hl] Hp. by split; cbn. Qed.

Lemma inv_loopHead options w : inv options w -> inv options (loopHead options w).
Proof. intros Hinv. apply inv_phase; [done|]. intros exclude. case_bool_decide; [|done]. by intros [= <-]. Qed.

Lemma inv_rows options w q :
  inv options w -> rowsOk q (w_sent w) -> (forall run, run ∈ w_inFlight w -> framed (rn_feeds run) (rowsOf w) (qu_rows q)) ->
  inv options (withQueue q w).
Proof.
  intros [_ Hruns Hs Hl] Hr Hf. split; cbn; [done| |done|done].
  intros i run Hi. eapply runOk_frame; [|done|by eapply Hruns]. apply Hf. by apply list_elem_of_lookup_2 in Hi.
Qed.

Lemma inv_enqueue options w now d b q : inv options w -> enqueue now d (w_queue w) = Ok (b, q) -> inv options (withQueue q w).
Proof.
  intros Hinv. destruct (iv_rows _ _ Hinv) as [Hasc Hnext Hhash Hpub]. unfold enqueue. destruct (negb _); [done|].
  case_bool_decide; intros [= <- <-]; (apply inv_rows; [done| |]); cbn.
  - split; cbn; [done| |done|done]. intros r Hr. apply Hnext in Hr. lia.
  - intros run _. apply framed_refl.
  - set (new := mkQRow _ _ _ _ _ _ _ _ _ _ _ _ _).
    assert (forall r, r ∈ rowsOf w ++ [new] -> r ∈ rowsOf w ∨ r = new) as Hin by (intros r; rewrite elem_of_app, list_elem_of_singleton; done).
    split; cbn.
    + apply StronglySorted_app_2; [|done|repeat constructor]. intros x y Hx ->%list_elem_of_singleton. by apply Hnext.
    + intros r [Hr| ->]%Hin; [apply Hnext in Hr; lia|cbn; lia].
    + intros r h [Hr| ->]%Hin; [auto|done].
    + intros r [Hr| ->]%Hin; [auto|done].
  - intros run _. split.
    + intros r Hr. exists r. split_and!; [apply elem_of_app; by left|done|done].
    + intros r' [Hr| ->%list_elem_of_singleton]%elem_of_app Hop _; [right; eauto|left; exact Hnext].
Qed.

Lemma setInflight_rowsOk q log l : rowsOk q log -> rowsOk (mkQueue (updateRows l setInflight (qu_rows q)) (qu_nextId q)) log.
Proof.
  intros [Hasc Hnext Hhash Hpub]. split; cbn.
  - by apply updateRows_ascending.
  - intros r (r0 & Hr0 & ->)%updateRows_lookup. case_bool_decide; cbn; eauto.
  - intros r h (r0 & Hr0 & ->)%updateRows_lookup. case_bool_decide; cbn; eauto.
  - intros r (r0 & Hr0 & ->)%updateRows_lookup. case_bool_decide; cbn; [done|]. auto.
Qed.

Lemma open_of_picked now limit cap excl rows r :
  ascending rows -> r ∈ rows -> q_id r ∈ (q_id <$> picked now limit cap excl rows) -> isOpen r = true.
Proof. intros Ha Hr Hin. apply picked_id_inj in Hin; [|done..]. by apply elem_of_picked in Hin as [[_ ?]%elem_of_openRows _]. Qed.

Lemma claim_frame now limit cap excl rows fs : ascending rows -> framed fs rows (claim now limit cap excl rows).2.
Proof.
  intros Ha. cbn. set (l := q_id <$> _). split.
  - intros r Hr. exists (if bool_decide (q_id r ∈ l) then setInflight r else r). split; [apply updateRows_lookup; eauto|]. by case_bool_decide.
  - intros r' (r & Hr & ->)%updateRows_lookup Hop _. right. exists r. case_bool_decide as Hin; [|done].
    split_and!; [done|by eapply open_of_picked|done|done].
Qed.

(** The knowledge a run starts with. *)
Definition startKnow (batch : list PendingDecision) : Know := mkKnow (ids batch) (fun _ _ => False) (fun _ _ => False).

Lemma claimed_runOk options w exclude :
  rowsOk (w_queue w) (w_sent w) ->
  let cl := claim (w_now w) (bp_maxBatchSize options) (bp_maxPerFeedPerBatch options) exclude (rowsOf w) in
  cl.1 ≠ [] -> runOk cl.2 (w_sent w) (mkRun (setOf (d_feed <$> cl.1)) cl.1 (process options (length cl.1) cl.1)).
Proof.
  intros [Hasc Hnext Hhash Hpub] cl Hne. subst cl. set (cl := claim _ _ _ _ _) in *.
  assert (forall d, d ∈ cl.1 -> ∃ r, r ∈ picked (w_now w) (bp_maxBatchSize options) (bp_maxPerFeedPerBatch options) exclude (rowsOf w) ∧ d = toDecision (setInflight r))
    as Hcl by (intros d; apply elem_of_claim; done).
  assert (forall r, r ∈ picked (w_now w) (bp_maxBatchSize options) (bp_maxPerFeedPerBatch options) exclude (rowsOf w) -> r ∈ rowsOf w) as Hpick
    by (intros r [[? _]%elem_of_openRows _]%elem_of_picked; done).
  pose proof (fr_keep _ _ _ (claim_frame (w_now w) (bp_maxBatchSize options) (bp_maxPerFeedPerBatch options) exclude (rowsOf w) [] Hasc)) as Hkeep.
  split; cbn.
  - intros d Hd. apply elem_of_setOf. apply list_elem_of_fmap. eauto.
  - intros d (r & Hr & ->)%Hcl. destruct (Hkeep r) as (r' & ? & ? & ?); [auto|]. exists r'. auto.
  - exists (startKnow cl.1). split; [apply process_wp; [done|done|done| |done]; by apply claim_sorted|]. split; cbn; [done| |intros id h [[]|Hk]|done].
    + intros r' d (r & Hr & ->)%updateRows_lookup Hop (o & Ho & ->)%Hcl Ef Hle. apply list_elem_of_fmap.
      assert (r ∈ picked (w_now w) (bp_maxBatchSize options) (bp_maxPerFeedPerBatch options) exclude (rowsOf w)) as Hin.
      { case_bool_decide as Hl; [by apply picked_id_inj|]. cbn in *. destruct (Z.eq_dec (q_id r) (q_id o)) as [E|Hn].
        - rewrite (ascending_id_inj _ r o Hasc Hr (Hpick o Ho) E). done.
        - eapply picked_prefix; [done|by apply elem_of_openRows|done|lia]. }
      exists (toDecision (setInflight r)). split; [by case_bool_decide|]. apply elem_of_claim; eauto.
    + destruct Hk as (d & (r & Hr & ->)%Hcl & <- & E). cbn in *. eauto.
Qed.

Lemma elem_of_addAll f feeds l : f ∈ foldl (fun s x => addToSet x s) l feeds <-> f ∈ l ∨ f ∈ feeds.
Proof.
  revert l. induction feeds as [|x feeds IH]; intros l; cbn; [set_solver|]. rewrite IH, elem_of_addToSet. set_solver.
Qed.

Lemma slotsOk_snoc n runs feeds exclude run :
  slotsOk n runs feeds (TClaim exclude) -> (forall f, f ∈ rn_feeds run -> f ∉ exclude) ->
  slotsOk n (runs ++ [run]) (foldl (fun s f => addToSet f s) feeds (rn_feeds run)) TIdle.
Proof.
  intros [Hd Hf Hc Hp] Hex. destruct (Hp exclude eq_refl) as [Hsub Hlt].
  assert (forall i ri f, runs !! i = Some ri -> f ∈ rn_feeds ri -> f ∉ rn_feeds run) as Hnew.
  { intros i ri f Hi Hin Hr. apply (Hex f Hr), Hsub. by eapply Hf. }
  split; [| |rewrite length_app; cbn; lia|done].
  - intros i j ri rj f Hne [Hi|[Hge Hi]]%lookup_app_Some [Hj|[Hge' Hj]]%lookup_app_Some Hin.
    + by eapply (Hd i j).
    + apply list_lookup_singleton_Some in Hj as [_ <-]. by eapply Hnew.
    + apply list_lookup_singleton_Some in Hi as [_ <-]. intros Hin'. by apply (Hnew _ _ _ Hj Hin').
    + apply list_lookup_singleton_Some in Hi as [Ei <-], Hj as [Ej <-]. lia.
  - intros i ri f [Hi|[_ Hi]]%lookup_app_Some Hin; apply elem_of_addAll; [left; by eapply Hf|right].
    by apply list_lookup_singleton_Some in Hi as [_ <-].
Qed.

Lemma inv_claimed options w exclude :
  inv options w -> w_phase w = TClaim exclude ->
  let cl := claim (w_now w) (bp_maxBatchSize options) (bp_maxPerFeedPerBatch options) exclude (rowsOf w) in
  inv options (withRows cl.2 w) ∧ inv options (onClaimed options cl.1 (withRows cl.2 w)).
Proof.
  intros Hinv Hp cl. assert (inv options (withRows cl.2 w)) as Hw.
  { apply inv_rows; [done|by apply setInflight_rowsOk, Hinv|]. intros run _. apply claim_frame, Hinv. }
  split; [done|]. unfold onClaimed. case_bool_decide as Hne; [by apply inv_phase|].
  destruct Hw as [Hrows Hruns Hslots Hlog]. cbn in Hslots. rewrite Hp in Hslots.
  set (run := mkRun _ _ _). assert (slotsOk (bp_maxInFlight options) (w_inFlight w ++ [run])
    (foldl (fun s f => addToSet f s) (w_feedsInFlight w) (rn_feeds run)) TIdle) as Hsnoc.
  { apply (slotsOk_snoc _ _ _ exclude); [done|]. intros f Hf. unfold run in Hf. cbn in Hf.
    apply elem_of_setOf, list_elem_of_fmap in Hf as (d & -> & Hd). apply elem_of_claim in Hd as (r & Hr & ->); [|apply Hinv].
    by apply elem_of_picked in Hr as [_ (_ & _ & _ & Hex & _)%eligible_spec]. }
  assert (inv options (withPhase TIdle (withRuns (w_inFlight w ++ [run]) (foldl (fun s f => addToSet f s) (w_feedsInFlight w) (rn_feeds run)) (withRows cl.2 w)))) as H0.
  { split; cbn; [done| |done|done]. intros i ri [Hi|[_ Hi]]%lookup_app_Some; [by eapply Hruns|].
    apply list_lookup_singleton_Some in Hi as [_ <-]. by apply claimed_runOk; [apply Hinv|]. }
  apply inv_loopHead in H0. exact H0.
Qed.

Lemma inv_restart options w db : inv options w -> inv options (restart db w).
Proof.
  intros [Hrows Hruns Hslots Hlog]. split; cbn; [|by intros ? ? ?|split; cbn; [by intros ? ? ? ? ? ? ?|by intros ? ? ? ?|lia|done]|done].
  destruct (applied db); [|done]. destruct Hrows as [Hasc Hnext Hhash Hpub]. split; cbn.
  - apply map_ascending; [|done]. intros r. apply setRecovered_id.
  - intros r' (r & -> & Hr)%list_elem_of_fmap. destruct (setRecovered_id r) as [-> _]. auto.
  - intros r' h (r & -> & Hr)%list_elem_of_fmap. destruct (setRecovered_id r) as [-> _]. unfold setRecovered. case_bool_decide; cbn; auto.
  - intros r' (r & -> & Hr)%list_elem_of_fmap. destruct (setRecovered_id r) as [-> _]. unfold setRecovered. case_bool_decide; cbn; [done|auto].
Qed.

Lemma inv_step options w e : inv options w -> inv options (step options w e).
Proof.
  intros Hinv. destruct e as [ms|reading key db| |fails|db|i a| |db]; cbn [step].
  - destruct Hinv. by split.
  - destruct (applied db); [|done]. unfold publisherEnqueue. destruct (pr_degraded reading); [done|].
    destruct (decisionOf reading key) as [d|]; [|done]. destruct (enqueue (w_now w) d (w_queue w)) as [[b q]|] eqn:E; [|done].
    by eapply inv_enqueue.
  - destruct (w_phase w) eqn:Hp; try done. destruct (w_stopped w); [done|]. by apply inv_phase.
  - destruct (w_phase w) eqn:Hp; try done. apply inv_loopHead. destruct Hinv. by split.
  - destruct (w_phase w) as [| |exclude] eqn:Hp; try done. destruct (inv_claimed options w exclude Hinv Hp) as [H1 H2].
    destruct (claim _ _ _ _ _) as [batch rows]. destruct db; cbn in *; [done|by apply inv_phase|by apply inv_phase].
  - by apply inv_stepRun.
  - destruct Hinv. by split.
  - by apply inv_restart.
Qed.

Lemma inv_run options w evs : inv options w -> inv options (runFrom options w evs).
Proof. revert w. induction evs as [|e evs IH]; intros w Hw; [done|]. by apply IH, inv_step. Qed.

Lemma inv_new options : inv options newWorld.
Proof.
  split; cbn; [split; cbn; [constructor|set_solver..]|by intros ? ? ?| |intros ? ? ? []%not_elem_of_nil].
  split; cbn; [by intros ? ? ? ? ? ? ?|by intros ? ? ? ?|lia|done].
Qed.

Lemma inv_reachable options evs : inv options (reachable options evs).
Proof. apply inv_run, inv_new. Qed.

(** * A decision in flight without a run *)

Definition held (id : Z) (f : string) (rows : list QRow) : Prop := ∃ r, r ∈ rows ∧ q_id r = id ∧ q_status r = Inflight ∧ q_feed r = f.

(** No batch in flight holds [id], and none holds a later decision of its feed. *)
Record orphan (id : Z) (f : string) (w : World) : Prop := {
  or_held : held id f (rowsOf w);
  or_free : forall run, run ∈ w_inFlight w -> id ∉ ids (rn_batch run) }.

Lemma orphan_later options id f w run d :
  inv options w -> orphan id f w -> run ∈ w_inFlight w -> d ∈ rn_batch run -> d_feed d = f -> d_id d < id.
Proof.
  intros Hinv [(r & Hr & <- & Hst & <-) Hfree] Hrun Hd Ef. destruct (Z.lt_ge_cases (d_id d) (q_id r)) as [|Hge]; [done|]. exfalso.
  apply (Hfree run Hrun). apply list_elem_of_lookup in Hrun as [i Hi].
  destruct (ro_know _ _ _ (iv_runs _ _ Hinv i run Hi)) as (s & _ & [Hsub Hop _ _]). apply Hsub.
  apply (Hop r d); [done|unfold isOpen; by rewrite Hst|done|done|lia].
Qed.

Lemma held_update id f l g rows : id ∉ l -> held id f rows -> held id f (updateRows l g rows).
Proof.
  intros Hl (r & Hr & Hi & H). exists r. split; [|done]. apply updateRows_lookup. exists r. split; [done|].
  rewrite bool_decide_eq_false_2; [done|congruence].
Qed.

(** What is sent in a step from an orphaned state. *)
Definition sentEarlier (id : Z) (f : string) (new : list Sent) : Prop :=
  forall rows batch r d, SentBatch rows batch r ∈ new -> d ∈ batch -> d_feed d = f -> d_id d < id.

Lemma sentEarlier_nil id f : sentEarlier id f [].
Proof. intros ???? []%not_elem_of_nil. Qed.

Lemma orphan_same id f w w' :
  rowsOf w' = rowsOf w -> w_inFlight w' = w_inFlight w -> w_sent w' = w_sent w ->
  orphan id f w -> orphan id f w' ∧ ∃ new, w_sent w' = w_sent w ++ new ∧ sentEarlier id f new.
Proof.
  intros Er Ei Es [Hh Hf]. split; [split; rewrite ?Er, ?Ei; done|]. exists []. rewrite app_nil_r. split; [done|apply sentEarlier_nil].
Qed.

Lemma orphan_stepRun options id f w i a :
  inv options w -> orphan id f w ->
  orphan id f (stepRun i a w) ∧ ∃ new, w_sent (stepRun i a w) = w_sent w ++ new ∧ sentEarlier id f new.
Proof.
  intros Hinv Hor. unfold stepRun. destruct (w_inFlight w !! i) as [run|] eqn:Hi; [|by apply orphan_same].
  pose proof (list_elem_of_lookup_2 _ _ _ Hi) as Hrun.
  assert (orphan id f (settle i run w) ∧ ∃ new, w_sent (settle i run w) = w_sent w ++ new ∧ sentEarlier id f new) as Hset.
  { split; [split; cbn; [apply Hor|]|exists []; by rewrite app_nil_r; split; [|apply sentEarlier_nil]].
    intros run' Hr'. apply (or_free _ _ _ Hor). rewrite delete_take_drop in Hr'.
    apply elem_of_app in Hr' as [Hj|Hj]; [by apply subseteq_take in Hj|by apply subseteq_drop in Hj]. }
  destruct (rn_prog run) as [u|e| |c k] eqn:Hp; [exact Hset..|]. clear Hset.
  destruct (answer w c a) as [[r w']|] eqn:Ha; [|by apply orphan_same]. apply answer_spec in Ha as Han.
  destruct (ro_know _ _ _ (iv_runs _ _ Hinv i run Hi)) as (s & Hwp & _). rewrite Hp in Hwp. destruct Hwp as [Hpre _].
  split; [split; cbn|].
  - destruct (an_rows _ _ _ _ Han) as [[-> _]|(l & g & Hw & ->)]; [apply Hor|]. apply held_update; [|apply Hor].
    intros Hin. apply (or_free _ _ _ Hor run Hrun). destruct c; cbn in Hw; simplify_eq; cbn in Hpre; destruct_and?; auto.
  - rewrite (an_runs _ _ _ _ Han). intros run' (j & [(-> & <- & _)|[_ Hj]]%list_lookup_insert_Some)%list_elem_of_lookup; cbn.
    + by apply (or_free _ _ _ Hor).
    + apply (or_free _ _ _ Hor). by eapply list_elem_of_lookup_2.
  - exists (logs (rowsOf w) c r). split; [by apply (an_log _ _ _ _ Han)|]. intros rows batch r0 d Hin Hd Ef.
    destruct c; cbn in Hin; try (by apply elem_of_nil in Hin).
    + apply list_elem_of_singleton in Hin. simplify_eq. destruct Hpre as (_ & _ & Hb). eapply (orphan_later options _ (d_feed d)); eauto.
    + destruct r; cbn in Hin; [by apply list_elem_of_singleton in Hin|by apply elem_of_nil in Hin].
Qed.

Lemma orphan_claim options id f w exclude :
  inv options w -> orphan id f w ->
  let cl := claim (w_now w) (bp_maxBatchSize options) (bp_maxPerFeedPerBatch options) exclude (rowsOf w) in
  held id f cl.2 ∧ id ∉ ids cl.1.
Proof.
  intros Hinv [(r & Hr & <- & Hst & <-) _]. cbn zeta. assert (ascending (rowsOf w)) as Hasc by apply Hinv.
  assert (q_id r ∉ (q_id <$> picked (w_now w) (bp_maxBatchSize options) (bp_maxPerFeedPerBatch options) exclude (rowsOf w))) as Hn.
  { intros Hin%picked_id_inj; [|done..]. apply elem_of_picked in Hin as [_ (Hp & _)%eligible_spec]. congruence. }
  split; [apply held_update; [done|]; by exists r|].
  intros (d & E & Hd)%list_elem_of_fmap. apply elem_of_claim in Hd as (o & Ho & ->); [|done]. apply Hn, list_elem_of_fmap. by exists o.
Qed.

Definition isRestart (e : event) : bool := match e with EvRestart _ => true | _ => false end.

Lemma orphan_step options id f w e :
  inv options w -> orphan id f w -> isRestart e = false ->
  orphan id f (step options w e) ∧ ∃ new, w_sent (step options w e) = w_sent w ++ new ∧ sentEarlier id f new.
Proof.
  intros Hinv Hor He. destruct e as [ms|reading key db| |fails|db|i a| |db]; cbn [step]; try done; try by apply orphan_same.
  - destruct (applied db); [|by apply orphan_same]. unfold publisherEnqueue. destruct (pr_degraded reading); [by apply orphan_same|].
    destruct (decisionOf reading key) as [d|]; [|by apply orphan_same]. unfold enqueue. destruct (negb _); [by apply orphan_same|].
    case_bool_decide; cbn [snd]; [by apply orphan_same|]. split; [split; cbn; [|apply Hor]|exists []; by rewrite app_nil_r; split; [|apply sentEarlier_nil]].
    destruct (or_held _ _ _ Hor) as (r & Hr & H'). exists r. split; [apply elem_of_app; by left|done].
  - destruct (w_phase w); try (by apply orphan_same). destruct (w_stopped w); by apply orphan_same.
  - destruct (w_phase w); by apply orphan_same.
  - destruct (w_phase w) as [| |exclude]; try (by apply orphan_same).
    destruct (orphan_claim options id f w exclude Hinv Hor) as [Hheld Hnot]. destruct (claim _ _ _ _ _) as [batch rows]. cbn in Hheld, Hnot.
    destruct db; [|by apply orphan_same|split; [split; [done|apply Hor]|exists []; by rewrite app_nil_r; split; [|apply sentEarlier_nil]]].
    unfold onClaimed. case_bool_decide; (split; [split; [done|]|exists []; by rewrite app_nil_r; split; [|apply sentEarlier_nil]]); [apply Hor|].
    cbn. intros run [Hr| ->%list_elem_of_singleton]%elem_of_app; [by apply (or_free _ _ _ Hor)|done].
  - by eapply orphan_stepRun.
Qed.

Lemma orphan_run options id f w evs :
  inv options w -> orphan id f w -> Forall (fun e => isRestart e = false) evs ->
  orphan id f (runFrom options w evs) ∧ ∃ new, w_sent (runFrom options w evs) = w_sent w ++ new ∧ sentEarlier id f new.
Proof.
  intros Hinv Hor Hevs. revert w Hinv Hor. induction Hevs as [|e evs He Hevs IH]; intros w Hinv Hor; [by apply orphan_same|].
  destruct (orphan_step options id f w e Hinv Hor He) as [Hor1 (new1 & E1 & H1)].
  destruct (IH (step options w e) (inv_step _ _ _ Hinv) Hor1) as [Hor2 (new2 & E2 & H2)]. split; [done|].
  exists (new1 ++ new2). split; [rewrite app_assoc, <- E1; exact E2|].
  intros rows batch r d [Hin|Hin]%elem_of_app; [by eapply H1|by eapply H2].
Qed.

(** * Demonstration traces *)

Definition demoOptions : Options := mkPublisherOptions 20 2 5 500 1000 60000 10 200 5000 4.
Definition demoReading (feed : string) : OracleReading := mkPublishReading feed 5%float "triggered" false.
Definition demoEnqueue (feed key : string) : event := EvEnqueue (demoReading feed) key DbOk.

(** Two decisions of a feed are claimed in one batch. *)
Definition demoClaimed : list event :=
  [EvRestart DbOk; demoEnqueue "FlightDelay" "k1"; demoEnqueue "FlightDelay" "k2"; EvTick; EvDepth false; EvClaim DbOk; EvClaim DbOk].

(** The submission is refused as too large; both halves are confirmed. *)
Definition demoSplit : list event := demoClaimed ++
  [EvRun 0 Done; EvRun 0 (Fails false (BatchTooLargeError "too large")); EvRun 0 Done; EvRun 0 Done;
   EvRun 0 Done; EvRun 0 (Submitted (mkSubmitted "h1" (Some 7))); EvRun 0 Done; EvRun 0 Done; EvRun 0 Done;
   EvRun 0 Done; EvRun 0 (Submitted (mkSubmitted "h2" (Some 8))); EvRun 0 Done; EvRun 0 Done; EvRun 0 Done; EvRun 0 Done].

(** The submission fails, and so does the database when the batch is released. *)
Definition demoStrand : list event := demoClaimed ++
  [EvRun 0 Done; EvRun 0 (Fails false (OtherError "timeout")); EvRun 0 Done; EvRun 0 Done; EvRun 0 (Drawn 0%float);
   EvRun 0 (Fails false (OtherError "connection terminated")); EvRun 0 Done].

(** The transaction is confirmed, the update that records it fails, and the batch is
    sent again. *)
Definition demoTwice : list event :=
  [EvRestart DbOk; demoEnqueue "FlightDelay" "k1"; EvTick; EvDepth false; EvClaim DbOk; EvClaim DbOk;
   EvRun 0 Done; EvRun 0 (Submitted (mkSubmitted "h1" (Some 7))); EvRun 0 Done; EvRun 0 Done;
   EvRun 0 (Fails false (OtherError "connection terminated")); EvRun 0 Done; EvRun 0 Done; EvRun 0 (Drawn 0%float); EvRun 0 Done; EvRun 0 Done;
   EvTime 5000; EvTick; EvDepth false; EvClaim DbOk; EvClaim DbOk;
   EvRun 0 Done; EvRun 0 (Submitted (mkSubmitted "h2" (Some 9))); EvRun 0 Done; EvRun 0 Done; EvRun 0 Done; EvRun 0 Done].

(** Two feeds' ambiguous transactions are reconciled in one batch: the first is found,
    the lookup of the second fails. *)
Definition ambiguousRun (h : string) : list event :=
  [EvRun 0 Done; EvRun 0 (Fails false (AmbiguousSubmitError "timeout" h)); EvRun 0 Done; EvRun 0 Done;
   EvRun 0 (Drawn 0%float); EvRun 0 Done; EvRun 0 Done].
Definition demoDeadLetter : list event :=
  [EvRestart DbOk; demoEnqueue "FlightDelay" "k1"; EvTick; EvDepth false; EvClaim DbOk; EvClaim DbOk;
   demoEnqueue "MarketCrash" "k2"; EvTick; EvDepth false; EvClaim DbOk] ++ ambiguousRun "h1" ++ ambiguousRun "h2" ++
  [EvTime 5000; EvTick; EvDepth false; EvClaim DbOk; EvClaim DbOk;
   EvRun 0 (Found (LSuccess (Some 7))); EvRun 0 Done; EvRun 0 (Fails false (OtherError "rpc down")); EvRun 0 Done; EvRun 0 Done].
Definition twoAttempts : Options := mkPublisherOptions 20 2 5 500 1000 60000 2 200 5000 4.

(** * Theorems *)

(** C13: in every interleaving of runs, ticks, producers, database failures and
    restarts, a batch handed to the submitter is in publish order, and every earlier
    decision of the same feed that is still pending or in flight at that moment is in
    the batch too: a later decision never overtakes an earlier one of its feed. *)
Theorem published_in_order options evs rows batch r :
  SentBatch rows batch r ∈ w_sent (reachable options evs) -> ordered rows batch.
Proof. apply (iv_log _ _ (inv_reachable options evs)). Qed.

Lemma published_in_order_witness :
  ∃ rows batch r, SentBatch rows batch r ∈ w_sent (reachable demoOptions demoSplit) ∧ ids batch = [2] ∧ ordered rows batch.
Proof.
  assert (∃ rows batch r, w_sent (reachable demoOptions demoSplit) !! 2%nat = Some (SentBatch rows batch r) ∧ ids batch = [2]) as (rows & batch & r & Hl & Hi)
    by (do 3 eexists; split; vm_compute; reflexivity).
  exists rows, batch, r. assert (SentBatch rows batch r ∈ w_sent (reachable demoOptions demoSplit)) as Hin by (by eapply list_elem_of_lookup_2).
  split; [exact Hin|]. split; [exact Hi|]. exact (published_in_order demoOptions demoSplit rows batch r Hin).
Defined.

(** A decision marked published carries the hash of a transaction that was sent
    with it and seen confirmed, by the submission itself or, when the submission's
    outcome was unknown, by a later lookup. *)
Theorem published_was_confirmed options evs r :
  r ∈ rowsOf (reachable options evs) -> q_status r = Published ->
  ∃ h, q_tx_hash r = Some h ∧ confirmedOk (w_sent (reachable options evs)) (q_id r) h.
Proof. apply (rw_published _ _ (iv_rows _ _ (inv_reachable options evs))). Qed.

Lemma published_was_confirmed_witness :
  ∃ r, r ∈ rowsOf (reachable demoOptions demoSplit) ∧ q_status r = Published ∧
    ∃ h, q_tx_hash r = Some h ∧ confirmedOk (w_sent (reachable demoOptions demoSplit)) (q_id r) h.
Proof.
  assert (∃ r, rowsOf (reachable demoOptions demoSplit) !! 1%nat = Some r ∧ q_status r = Published) as (r & Hl & Hs)
    by (eexists; split; vm_compute; reflexivity).
  assert (r ∈ rowsOf (reachable demoOptions demoSplit)) as Hin by (by eapply list_elem_of_lookup_2).
  exists r. split; [exact Hin|]. split; [exact Hs|]. exact (published_was_confirmed demoOptions demoSplit r Hin Hs).
Defined.

(** C14: however the submitter, the lookups and the database answer, the program of a
    claimed batch of [n] decisions ends, never runs out of fuel, and sends at most
    [2 n - 1] transactions, all splits included. *)
Theorem run_ends_with_bounded_sends options batch :
  batch ≠ [] -> budget (process options (length batch) batch) (2 * length batch - 1)%nat (fun _ _ => True).
Proof. intros Hne. apply budget_process; [done|done|lia]. Qed.

Definition demoDecision : PendingDecision := mkDecision 1 "k1" "FlightDelay" 5 1 1 None.
Lemma run_ends_with_bounded_sends_witness :
  [demoDecision] ≠ [] ∧ budget (process demoOptions (length [demoDecision]) [demoDecision]) (2 * length [demoDecision] - 1)%nat (fun _ _ => True).
Proof. split; [discriminate|]. apply (run_ends_with_bounded_sends demoOptions [demoDecision]). discriminate. Defined.

(** At most [maxInFlight] batches are in flight, and no two of them hold decisions
    of one feed. *)
Theorem in_flight_bounded options evs :
  let w := reachable options evs in
  (length (w_inFlight w) <= bp_maxInFlight options)%nat ∧
  forall i j ri rj di dj, i ≠ j -> w_inFlight w !! i = Some ri -> w_inFlight w !! j = Some rj ->
    di ∈ rn_batch ri -> dj ∈ rn_batch rj -> d_feed di ≠ d_feed dj.
Proof.
  intros w. destruct (inv_reachable options evs) as [_ Hruns [Hd _ Hc _] _]. split; [exact Hc|].
  intros i j ri rj di dj Hne Hi Hj Hdi Hdj E. apply (Hd i j ri rj (d_feed di) Hne Hi Hj).
  - by apply (ro_feeds _ _ _ (Hruns i ri Hi)).
  - rewrite E. by apply (ro_feeds _ _ _ (Hruns j rj Hj)).
Qed.

(** A decision that is in flight in the table while no batch holds it (the
    database failed when its batch was released, or the answer of a claim was lost)
    stays in flight, and no later decision of its feed is ever sent, until the process
    restarts: the comment on [process] says that what is not confirmed is released,
    never dropped. *)
Theorem unreleased_decision_blocks_feed options evs evs' r :
  let w := reachable options evs in
  let w' := runFrom options w evs' in
  r ∈ rowsOf w -> q_status r = Inflight -> (forall run, run ∈ w_inFlight w -> q_id r ∉ ids (rn_batch run)) ->
  Forall (fun e => isRestart e = false) evs' ->
  held (q_id r) (q_feed r) (rowsOf w') ∧ ∃ new, w_sent w' = w_sent w ++ new ∧ sentEarlier (q_id r) (q_feed r) new.
Proof.
  intros w w' Hr Hst Hfree Hevs. destruct (orphan_run options (q_id r) (q_feed r) w evs') as [Hor Hnew]; [apply inv_reachable| |done|].
  - split; [by exists r|done].
  - split; [apply Hor|exact Hnew].
Qed.

Definition demoLater : list event :=
  [demoEnqueue "FlightDelay" "k3"; EvTime 5000; EvTick; EvDepth false; EvClaim DbOk].
Lemma unreleased_decision_blocks_feed_witness :
  ∃ r, q_id r = 2 ∧ held 2 "FlightDelay" (rowsOf (runFrom demoOptions (reachable demoOptions demoStrand) demoLater)) ∧
    ∃ new, w_sent (runFrom demoOptions (reachable demoOptions demoStrand) demoLater) = w_sent (reachable demoOptions demoStrand) ++ new ∧
      sentEarlier 2 "FlightDelay" new.
Proof.
  assert (∃ r, rowsOf (reachable demoOptions demoStrand) !! 1%nat = Some r ∧ q_status r = Inflight ∧ q_id r = 2 ∧ q_feed r = "FlightDelay") as (r & Hl & Hs & Hi & Hf)
    by (eexists; split_and!; vm_compute; reflexivity).
  exists r. split; [exact Hi|]. rewrite <- Hi, <- Hf. apply (unreleased_decision_blocks_feed demoOptions demoStrand demoLater r).
  - exact (list_elem_of_lookup_2 _ _ _ Hl).
  - exact Hs.
  - assert (w_inFlight (reachable demoOptions demoStrand) = []) as E by (vm_compute; reflexivity). rewrite E. intros run Hrun. inversion Hrun.
  - unfold demoLater. repeat constructor.
Defined.

(** A decision whose transaction is confirmed is sent and confirmed again in a
    second transaction when the update that marks it published fails: the failure is
    handled as if the submission had failed, without the transaction hash that
    reconciliation would look up. *)
Theorem confirmed_decision_sent_twice :
  ∃ rows1 rows2 d1 d2 a1 a2,
    w_sent (reachable demoOptions demoTwice) = [SentBatch rows1 [d1] (Ok a1); SentBatch rows2 [d2] (Ok a2)] ∧
    d_decisionKey d1 = d_decisionKey d2 ∧ d_txHash d2 = None ∧ bs_txHash a1 ≠ bs_txHash a2.
Proof. do 6 eexists. split; [vm_compute; reflexivity|]. split_and!; [reflexivity|reflexivity|discriminate]. Qed.

(** A decision found confirmed during reconciliation is dead-lettered with the rest
    of its batch when the lookup of another transaction then fails and the attempts are
    used up. *)
Theorem confirmed_decision_dead_lettered :
  ∃ r h, rowsOf (reachable twoAttempts demoDeadLetter) !! 0%nat = Some r ∧ q_status r = Failed ∧ q_tx_hash r = Some h ∧
    q_published_at r ≠ None ∧ SentLookup h (LSuccess (Some 7)) ∈ w_sent (reachable twoAttempts demoDeadLetter).
Proof.
  do 2 eexists. split_and!; [vm_compute; reflexivity|reflexivity|reflexivity|discriminate|].
  apply list_elem_of_lookup. exists 2%nat. vm_compute. reflexivity.
Qed.

(** A claim returns the decisions in publish order; of each feed a prefix of its
    open decisions, at most [perFeedCap] of them; and every eligible decision of a
    feed with a more urgent decision before those of another. *)
Theorem claim_contract now limit cap excl rows :
  ascending rows ->
  let batch := (claim now limit cap excl rows).1 in
  let open := openRows rows in
  StronglySorted Z.lt (ids batch) ∧ (length batch <= limit)%nat ∧
  (forall f, (length (filter (fun d => d_feed d = f) batch) <= cap)%nat) ∧
  (forall r d, r ∈ open -> d ∈ batch -> q_feed r = d_feed d -> q_id r < d_id d -> q_id r ∈ ids batch) ∧
  (forall r o, r ∈ open -> o ∈ open -> q_id o ∈ ids batch -> eligible now cap excl open r = true ->
     feedPriority open o < feedPriority open r -> q_id r ∈ ids batch).
Proof.
  intros Ha batch open. destruct (claim_permuted now limit cap excl rows Ha) as [Hperm Hin]. fold batch in Hperm.
  assert (forall r, r ∈ picked now limit cap excl rows <-> r ∈ rows ∧ q_id r ∈ ids batch) as Hids by exact Hin.
  split_and!.
  - by apply claim_sorted.
  - rewrite Hperm, length_fmap. apply firstn_le_length.
  - intros f. rewrite Hperm, (length_filter_feed f). by apply picked_feed_cap.
  - intros r d Hr Hd E Hlt. apply Hids. apply (elem_of_claim now limit cap excl rows d Ha) in Hd as (o & Ho & ->).
    by eapply picked_prefix.
  - intros r o [Hr Hor]%elem_of_openRows [Ho _]%elem_of_openRows Hio Hel Hp. apply Hids. eapply picked_priority; [by apply Hids|by apply elem_of_openRows|done|done].
Qed.

Definition demoRow (id : Z) (feed : string) (priority : Z) : QRow :=
  mkQRow id "" feed 0 priority Pending 0 0 None None None 0 None.
Lemma claim_contract_witness :
  let rows := [demoRow 1 "FlightDelay" 0; demoRow 2 "MarketCrash" 0; demoRow 3 "MarketCrash" 1] in
  let batch := (claim 0 2 5 [] rows).1 in
  ids batch = [2; 3] ∧ (length batch <= 2)%nat ∧
  (forall r d, r ∈ openRows rows -> d ∈ batch -> q_feed r = d_feed d -> q_id r < d_id d -> q_id r ∈ ids batch).
Proof.
  cbn zeta. split; [vm_compute; reflexivity|].
  destruct (claim_contract 0 2 5 [] [demoRow 1 "FlightDelay" 0; demoRow 2 "MarketCrash" 0; demoRow 3 "MarketCrash" 1]) as (_ & Hlen & _ & Hpre & _).
  - repeat constructor.
  - split; [exact Hlen|exact Hpre].
Defined.
