(* ===== verification/Confirmation.v ===== *)
(** Waiting for a transaction to land (src/stellar/soroban-confirmation.util.ts), the
    shared submission loop (src/stellar/transaction-submitter.ts), and the errors shown
    to callers (src/common/soroban-error.ts).

    The RPC node is a [Node]: what it answers to the n-th probe for a hash or to a send,
    and how long that and each sleep take; a request that never settles is not modelled.  Time is in milliseconds.  Recursion has fuel; both loops
    are shown to return within it. *)

From stdpp Require Import base list strings sorting sets.
From Stdlib Require Import ZArith Lia Ascii Floats.
From S2P Require Import Prelude Decimal JsNum JsRegex Canonical.

#[local] Open Scope Z_scope.

(** * Data *)

Inductive ConfirmationOutcome :=
| Success | FailedOnChain | NotFoundYetDeadlineExceeded | AbortedPolling | SubmissionRejected | UnexpectedStatus.
#[global] Instance ConfirmationOutcome_eq_dec : EqDecision ConfirmationOutcome.
Proof. solve_decision. Defined.

(** A contract value as far as the callers look at it. *)
Inductive ScVal := ScU64 (n : Z) | ScOther (name : string).

Record ConfirmationResult := mkConfirmation {
  cf_confirmed : bool; cf_outcome : ConfirmationOutcome; cf_txHash : string; cf_error : option string; cf_returnValue : option ScVal }.

Record PollOptions := mkPollOptions {
  pl_initialIntervalMs : num; pl_backoffMultiplier : num; pl_maxIntervalMs : num; pl_deadlineMs : Z; pl_jitterRatio : num; pl_minIntervalMs : num }.

Definition DEFAULT_CONFIRMATION_POLL : PollOptions :=
  mkPollOptions 400%float 0x1.ccccccccccccdp+0%float 8000%float 30000 0x1.999999999999ap-3%float 100%float.

(** [getTransaction]: a status, or an exception. *)
Inductive TxStatus := StSuccess (returnValue : option ScVal) | StFailed | StOther.

Record Node := mkNode {
  (** The answer to the n-th probe, for the transaction of that hash. *)
  nd_getTransaction : string -> nat -> option TxStatus;
  nd_probeMs : nat -> Z;
  (** How long the n-th sleep of [d] milliseconds takes. *)
  nd_slept : nat -> num -> Z;
  nd_random : nat -> num;
  (** The abort signal, read twice per round. *)
  nd_abortedBefore : nat -> bool;
  nd_abortedAfter : nat -> bool }.

(** Time passes: a probe takes no negative time, a timer at least one millisecond. *)
Record nodeOk (node : Node) : Prop := {
  no_probe : forall n, 0 <= nd_probeMs node n;
  no_slept : forall n d, 1 <= nd_slept node n d }.

(** * Polling *)

Definition withJitter (intervalMs jitterRatio minIntervalMs random : num) : num :=
  let delta := (intervalMs * jitterRatio * (2 * random - 1))%float in
  nmax minIntervalMs (mathRound (intervalMs + delta)%float).

Definition aborted (hash : string) : ConfirmationResult := mkConfirmation false AbortedPolling hash (Some "Confirmation polling aborted") None.

(** Where a poll ended: the result, the probes made and the time, or out of fuel. *)
Definition PollEnd : Type := option (ConfirmationResult * nat * Z).

Section Poll.
Variable node : Node.
Variable o : PollOptions.
Variable hash : string.
Variable deadlineAt : Z.

Fixpoint pollLoop (fuel n : nat) (t : Z) (intervalMs : num) : PollEnd :=
  match fuel with
  | O => None
  | S fuel' =>
      if nd_abortedBefore node n then Some (aborted hash, n, t)
      else
        let t1 := t + nd_probeMs node n in
        match nd_getTransaction node hash n with
        | Some (StSuccess v) => Some (mkConfirmation true Success hash None v, S n, t1)
        | Some StFailed => Some (mkConfirmation false FailedOnChain hash (Some "Transaction failed on-chain") None, S n, t1)
        | _ =>
            let remaining := deadlineAt - t1 in
            if remaining <=? 0
            then Some (mkConfirmation false NotFoundYetDeadlineExceeded hash (Some "Timed out waiting for confirmation") None, S n, t1)
            else
              let sleepMs := nmin (withJitter intervalMs (pl_jitterRatio o) (pl_minIntervalMs o) (nd_random node n)) (num_of_Z remaining) in
              let t2 := t1 + nd_slept node n sleepMs in
              if nd_abortedAfter node n then Some (aborted hash, S n, t2)
              else pollLoop fuel' (S n) t2 (nmin (pl_maxIntervalMs o) (intervalMs * pl_backoffMultiplier o))%float
        end
  end.
End Poll.

(** A timer fires after at least a millisecond, so the deadline bounds the rounds. *)
Definition pollFuel (o : PollOptions) : nat := S (S (Z.to_nat (pl_deadlineMs o))).

Definition pollForConfirmation (node : Node) (hash : string) (o : PollOptions) (now : Z) : PollEnd :=
  pollLoop node o hash (now + pl_deadlineMs o) (pollFuel o) 0 now (pl_initialIntervalMs o).

(** * Errors shown to callers *)

Record SorobanErrorResponse := mkSorobanError { sb_code : string; sb_error : string }.

Definition POOL_ERROR_MESSAGES : list (string * SorobanErrorResponse) :=
  [("InsufficientCapacity", mkSorobanError "POOL_INSUFFICIENT_CAPACITY" "The pool does not have enough available capacity for this operation.");
   ("CapitalLocked", mkSorobanError "POOL_CAPITAL_LOCKED" "Pool capital is locked and cannot be withdrawn yet.")].
Definition UNKNOWN_SOROBAN_ERROR : SorobanErrorResponse :=
  mkSorobanError "SOROBAN_REQUEST_FAILED" "The Soroban request failed. Please retry later or contact support.".

Definition wordChar (c : ascii) : bool :=
  let n := N_of_ascii c in
  ((48 <=? n)%N && (n <=? 57)%N) || ((65 <=? n)%N && (n <=? 90)%N) || ((97 <=? n)%N && (n <=? 122)%N) || (n =? 95)%N.

(** [new RegExp("\\b" + w + "\\b", "i").test(s)] for a word [w]. *)
Fixpoint hasWordAt (w : text) (prev : option ascii) (s : text) : bool :=
  (bool_decide (take (length w) s = w) && negb (match prev with Some c => wordChar c | None => false end)
    && negb (match drop (length w) s with c :: _ => wordChar c | [] => false end))
  || match s with [] => false | c :: r => hasWordAt w (Some c) r end.
Definition hasWord (w s : string) : bool :=
  hasWordAt (map lowerAscii (String.list_ascii_of_string w)) None (map lowerAscii (String.list_ascii_of_string s)).

(** [rawMessage] is the message of an [Error], the string, or the JSON text. *)
Definition decodeSorobanError (rawMessage : string) : SorobanErrorResponse :=
  match list_find (fun vr => hasWord vr.1 rawMessage = true) POOL_ERROR_MESSAGES with
  | Some (_, (_, response)) => response
  | None => UNKNOWN_SOROBAN_ERROR
  end.

(** * Submitting *)

Inductive SendStatus := SendPending | SendDuplicate | SendTryAgainLater | SendError | SendOther (status : string).
Record SendResult := mkSend { sr_status : SendStatus; sr_hash : string; sr_errorName : option (res string string) }.

Definition knownCodes : list string :=
  ["txINSUFFICIENT_FEE"; "txBAD_SEQ"; "txNO_ACCOUNT"; "txINSUFFICIENT_BALANCE"; "txFAILED"; "txTOO_LATE"; "txTOO_EARLY"; "txMALFORMED"].

Definition lowerWord (s : string) : text := map lowerAscii (String.list_ascii_of_string s).
Fixpoint containsText (w s : text) : bool :=
  bool_decide (take (length w) s = w) || match s with [] => false | _ :: r => containsText w r end.

(** The [errorResult] is absent, or its switch name, or decoding it throws. *)
Definition decodeErrorResult (errorResult : option (res string string)) : string * string :=
  match errorResult with
  | None => ("UNKNOWN", "No errorResult attached to ERROR status")
  | Some (Err m) => ("UNKNOWN", "Failed to decode errorResult: " +:+ m)
  | Some (Ok name) =>
      let code :=
        if bool_decide (name ∈ knownCodes) then name
        else match list_find (fun k => containsText (drop 2 (lowerWord k)) (lowerWord name) = true) knownCodes with
          | Some (_, k) => k
          | None => "UNKNOWN"
          end in
      (code, "Transaction rejected: " +:+ code)
  end.

Record SubmitOptions := mkSubmitOptions { so_validityWindowMs : Z; so_initialBackoffMs : Z; so_maxRetries : nat }.
Definition defaultSubmitOptions : SubmitOptions := mkSubmitOptions 30000 500 5.

Record SubmitAndConfirmResult := mkSubmitResult {
  sc_result : ConfirmationResult; sc_resultCode : option string; sc_httpStatus : option Z; sc_retryAfterSeconds : option Z }.
Definition confirmedResult (c : ConfirmationResult) : SubmitAndConfirmResult := mkSubmitResult c None None None.

(** The submitting side of the node: the n-th send and the envelope at that moment. *)
Record Sender := mkSender {
  sn_send : nat -> res string SendResult; sn_sendMs : nat -> Z; sn_slept : nat -> Z -> Z; sn_envelope : nat -> option string;
  sn_node : nat -> Node }.

Record senderOk (s : Sender) : Prop := {
  sk_send : forall n, 0 <= sn_sendMs s n;
  sk_node : forall n, nodeOk (sn_node s n) }.

Definition envelopeChanged : string :=
  "INVARIANT VIOLATION: signed envelope changed during TRY_AGAIN_LATER retry — resubmission must reuse the identical envelope (no rebuild).".

Definition statusText (s : SendStatus) : string :=
  match s with
  | SendPending => "PENDING" | SendDuplicate => "DUPLICATE" | SendTryAgainLater => "TRY_AGAIN_LATER" | SendError => "ERROR" | SendOther t => t
  end.

(** [Math.ceil(x / 1000)] *)
Definition ceilSeconds (ms : Z) : Z := (ms + 999) / 1000.

(** How the submission ended, and the times and envelopes of its sends. *)
Definition SubmitEnd : Type := option (res string SubmitAndConfirmResult) * list (Z * option string).

Section Submit.
Variable sender : Sender.
Variable o : SubmitOptions.
Variable deadline : Z.
Variable fingerprint : option string.

Definition afterPoll (n : nat) (hash : string) (t : Z) : option (res string SubmitAndConfirmResult) :=
  match pollForConfirmation (sn_node sender n) hash DEFAULT_CONFIRMATION_POLL t with
  | Some (c, _, _) => Some (Ok (confirmedResult c))
  | None => None
  end.

Fixpoint submitLoop (fuel n : nat) (t backoff : Z) (sends : list (Z * option string)) : SubmitEnd :=
  match fuel with
  | O => (None, sends)
  | S fuel' =>
      if bool_decide (fingerprint ≠ None ∧ sn_envelope sender n ≠ fingerprint) then (Some (Err envelopeChanged), sends)
      else
        let sends' := sends ++ [(t, sn_envelope sender n)] in
        let t1 := t + sn_sendMs sender n in
        match sn_send sender n with
        | Err m => (Some (Err m), sends')
        | Ok r =>
            match sr_status r with
            | SendPending | SendDuplicate => (afterPoll n (sr_hash r) t1, sends')
            | SendTryAgainLater =>
                let attempt := S n in
                let remaining := deadline - t1 in
                if bool_decide (so_maxRetries o < attempt)%nat || (remaining <=? backoff) then
                  let retryAfter := Z.max 1 (ceilSeconds (Z.min backoff (Z.max remaining 1000))) in
                  (Some (Ok (mkSubmitResult (mkConfirmation false NotFoundYetDeadlineExceeded (sr_hash r)
                     (Some ("RPC congested (TRY_AGAIN_LATER) after " +:+ showZ (Z.of_nat attempt) +:+ " attempt(s); retry after " +:+ showZ retryAfter +:+ "s")) None)
                     None (Some 503) (Some retryAfter))), sends')
                else submitLoop fuel' (S n) (t1 + sn_slept sender n (Z.min backoff remaining)) (Z.min (backoff * 2) remaining) sends'
            | SendError =>
                let '(code, detail) := decodeErrorResult (sr_errorName r) in
                (Some (Ok (mkSubmitResult (mkConfirmation false SubmissionRejected (sr_hash r) (Some detail) None) (Some code) (Some 400) None)), sends')
            | SendOther s =>
                (Some (Ok (mkSubmitResult (mkConfirmation false UnexpectedStatus (sr_hash r)
                   (Some ("Unexpected sendTransaction status: " +:+ s)) None) None (Some 502) None)), sends')
            end
        end
  end.
End Submit.

Definition submitAndConfirm (sender : Sender) (o : SubmitOptions) (now : Z) : SubmitEnd :=
  submitLoop sender o (now + so_validityWindowMs o) (sn_envelope sender 0) (S (so_maxRetries o)) 0 now (so_initialBackoffMs o) [].

(** * Lemmas *)

Definition terminal (s : option TxStatus) : bool := match s with Some (StSuccess _) | Some StFailed => true | _ => false end.

(** Round [j] of a poll for [hash] went on: the abort signal was off both times it was
    read and the probe was not conclusive. *)
Record wentOn (node : Node) (hash : string) (j : nat) : Prop := {
  wo_before : nd_abortedBefore node j = false;
  wo_probe : terminal (nd_getTransaction node hash j) = false;
  wo_after : nd_abortedAfter node j = false }.

(** What a result of a poll says of its [k] probes: every round but the last went on,
    and the outcome is what ended the last one.  An aborted poll saw no conclusive
    answer, and the signal was on when it was read: before the next probe, or after
    the sleep that followed the last one. *)
Record pollSpec (node : Node) (hash : string) (deadlineAt : Z) (c : ConfirmationResult) (k : nat) (t : Z) : Prop := {
  ps_hash : cf_txHash c = hash;
  ps_confirmed : cf_confirmed c = true <-> cf_outcome c = Success;
  ps_earlier : forall j, (S j < k)%nat -> wentOn node hash j;
  ps_outcome :
    match cf_outcome c with
    | Success => (0 < k)%nat ∧ nd_abortedBefore node (pred k) = false ∧
        nd_getTransaction node hash (pred k) = Some (StSuccess (cf_returnValue c))
    | FailedOnChain => (0 < k)%nat ∧ nd_abortedBefore node (pred k) = false ∧ nd_getTransaction node hash (pred k) = Some StFailed
    | NotFoundYetDeadlineExceeded =>
        deadlineAt <= t ∧ (0 < k)%nat ∧ nd_abortedBefore node (pred k) = false ∧ terminal (nd_getTransaction node hash (pred k)) = false
    | AbortedPolling =>
        (nd_abortedBefore node k = true ∧ forall j, (j < k)%nat -> wentOn node hash j) ∨
        ((0 < k)%nat ∧ nd_abortedBefore node (pred k) = false ∧ terminal (nd_getTransaction node hash (pred k)) = false ∧
         nd_abortedAfter node (pred k) = true)
    | _ => False
    end }.

Lemma pollLoop_spec node o hash deadlineAt fuel n t i c k t' :
  (forall j, (j < n)%nat -> wentOn node hash j) ->
  pollLoop node o hash deadlineAt fuel n t i = Some (c, k, t') -> pollSpec node hash deadlineAt c k t'.
Proof.
  revert n t i. induction fuel as [|fuel IH]; intros n t i Hj; [done|]. cbn [pollLoop].
  destruct (nd_abortedBefore node n) eqn:Ha.
  { intros [= <- <- <-]. split; cbn; [done|done|intros j Hlt; apply Hj; lia|by left]. }
  assert (forall j, (S j < S n)%nat -> wentOn node hash j) as Hprev by (intros j Hlt; apply Hj; lia).
  assert (terminal (nd_getTransaction node hash n) = false ->
    (if deadlineAt - (t + nd_probeMs node n) <=? 0
     then Some (mkConfirmation false NotFoundYetDeadlineExceeded hash (Some "Timed out waiting for confirmation") None, S n, t + nd_probeMs node n)
     else let d := nmin (withJitter i (pl_jitterRatio o) (pl_minIntervalMs o) (nd_random node n)) (num_of_Z (deadlineAt - (t + nd_probeMs node n))) in
       if nd_abortedAfter node n then Some (aborted hash, S n, t + nd_probeMs node n + nd_slept node n d)
       else pollLoop node o hash deadlineAt fuel (S n) (t + nd_probeMs node n + nd_slept node n d)
         (nmin (pl_maxIntervalMs o) (i * pl_backoffMultiplier o)%float)) = Some (c, k, t') -> pollSpec node hash deadlineAt c k t') as Hrest.
  { intros Hterm. destruct (_ <=? 0) eqn:Er.
    { apply Z.leb_le in Er. intros [= <- <- <-]. split; cbn; [done|done|done|]. split_and!; [lia|lia|done|done]. }
    destruct (nd_abortedAfter node n) eqn:Hb.
    { intros [= <- <- <-]. split; cbn; [done|done|done|]. right. split_and!; [lia|done..]. }
    intros Hp. eapply IH; [|exact Hp]. intros j Hlt. destruct (Nat.eq_dec j n) as [->|]; [by split|apply Hj; lia]. }
  destruct (nd_getTransaction node hash n) as [[v| |]|] eqn:E; [| |by apply Hrest|by apply Hrest];
    intros [= <- <- <-]; (split; cbn; [done|done|done|split_and!; [lia|done|done]]).
Qed.

Lemma pollLoop_returns node o hash deadlineAt fuel n t i :
  nodeOk node -> (1 <= fuel)%nat -> deadlineAt - t < Z.of_nat fuel -> ∃ c k t', pollLoop node o hash deadlineAt fuel n t i = Some (c, k, t').
Proof.
  intros [Hp Hs]. revert n t i. induction fuel as [|fuel IH]; intros n t i H1 Hf; [lia|]. cbn [pollLoop].
  destruct (nd_abortedBefore node n); [eauto|].
  assert (forall i', ∃ c k t', (if deadlineAt - (t + nd_probeMs node n) <=? 0
      then Some (mkConfirmation false NotFoundYetDeadlineExceeded hash (Some "Timed out waiting for confirmation") None, S n, t + nd_probeMs node n)
      else if nd_abortedAfter node n then Some (aborted hash, S n, t + nd_probeMs node n + nd_slept node n i')
      else pollLoop node o hash deadlineAt fuel (S n) (t + nd_probeMs node n + nd_slept node n i')
        (nmin (pl_maxIntervalMs o) (i * pl_backoffMultiplier o)%float)) = Some (c, k, t')) as Hrest.
  { intros i'. pose proof (Hp n). pose proof (Hs n i'). destruct (deadlineAt - (t + nd_probeMs node n) <=? 0) eqn:Er; [eauto|].
    apply Z.leb_gt in Er. destruct (nd_abortedAfter node n); [eauto|]. apply IH; lia. }
  destruct (nd_getTransaction node hash n) as [[v| |]|]; [eauto|eauto|apply Hrest|apply Hrest].
Qed.

Lemma submitLoop_returns sender o deadline fp fuel n t backoff sends :
  senderOk sender -> (n + fuel = S (so_maxRetries o))%nat -> (1 <= fuel)%nat ->
  (submitLoop sender o deadline fp fuel n t backoff sends).1 ≠ None.
Proof.
  intros [Hms Hnode]. revert n t backoff sends. induction fuel as [|fuel IH]; intros n t backoff sends Hn Hf; [lia|]. cbn [submitLoop].
  destruct (bool_decide _); [done|]. destruct (sn_send sender n) as [r|m]; [|done].
  assert (forall h, afterPoll sender n h (t + sn_sendMs sender n) ≠ None) as Hpoll.
  { intros h. unfold afterPoll, pollForConfirmation. edestruct (pollLoop_returns (sn_node sender n) DEFAULT_CONFIRMATION_POLL h) as (c & k & t' & ->);
      [apply Hnode| | |done]; [unfold pollFuel; lia|]. unfold pollFuel, DEFAULT_CONFIRMATION_POLL. cbn [pl_deadlineMs]. lia. }
  destruct (sr_status r); [apply Hpoll|apply Hpoll| |destruct (decodeErrorResult _); done|done].
  destruct (bool_decide (so_maxRetries o < S n)%nat || _) eqn:E; [done|].
  apply orb_false_iff in E as [E _]. apply bool_decide_eq_false in E. apply IH; lia.
Qed.

(** The sends of a submission: how many, which envelope, and when. *)
Lemma submitLoop_sends sender o deadline fp slack fuel n t backoff sends (P : Z * option string -> Prop) :
  (forall k d, sn_slept sender k d <= d + slack) ->
  (forall k tk, tk <= t ∨ tk < deadline + slack -> fp = None ∨ sn_envelope sender k = fp -> P (tk, sn_envelope sender k)) ->
  Forall P sends ->
  let sends' := (submitLoop sender o deadline fp fuel n t backoff sends).2 in
  (length sends' <= length sends + fuel)%nat ∧ Forall P sends'.
Proof.
  intros Hsl HP. revert n t backoff sends HP. induction fuel as [|fuel IH]; intros n t backoff sends HP Hs; cbn zeta; cbn [submitLoop]; [cbn; split; [lia|done]|].
  case_bool_decide as Hfp; [cbn; split; [lia|done]|].
  assert (Forall P (sends ++ [(t, sn_envelope sender n)])) as Hs'.
  { apply Forall_app. split; [done|]. apply Forall_singleton, HP; [by left; lia|].
    destruct fp as [f|]; [|by left]. right. destruct (decide (sn_envelope sender n = Some f)); [done|]. by destruct Hfp. }
  assert (length (sends ++ [(t, sn_envelope sender n)]) = S (length sends)) as Hlen by (rewrite length_app; cbn; lia).
  assert (forall A (x : A), (length (x, sends ++ [(t, sn_envelope sender n)]).2 <= length sends + S fuel)%nat ∧
    Forall P (x, sends ++ [(t, sn_envelope sender n)]).2) as Hdone by (intros A x; cbn [snd]; split; [lia|done]).
  destruct (sn_send sender n) as [r|m]; [|apply Hdone].
  destruct (sr_status r); [apply Hdone|apply Hdone| |destruct (decodeErrorResult _); apply Hdone|apply Hdone].
  destruct (bool_decide (so_maxRetries o < S n)%nat || _) eqn:E; [apply Hdone|]. apply orb_false_iff in E as [_ E]. apply Z.leb_gt in E.
  match goal with |- context [submitLoop _ _ _ _ fuel ?n' ?t' ?b' ?l'] => destruct (IH n' t' b' l') as [Hl Hf]; [|done|] end.
  - intros k tk Htk Hk. apply HP; [|done]. pose proof (Hsl n (Z.min backoff (deadline - (t + sn_sendMs sender n)))). lia.
  - split; [lia|done].
Qed.

(** * Theorems *)

(** C18: polling returns, and its outcome is what ended it.  As long as every probe
    settles (with a status or an exception) in no negative time and every timer takes at
    least a millisecond, the poll ends in one of four ways: success or on-chain failure,
    which is the first conclusive answer to a probe for the hash that was asked about;
    the deadline, when it has passed and no probe was conclusive; or an abort, when the
    signal was on at the moment it was read and no probe before it was conclusive.  No
    round before the last had a conclusive answer or an abort, and RPC errors never end
    the poll. *)
Theorem poll_reports_observed_outcome (node : Node) (hash : string) (o : PollOptions) (now : Z) :
  nodeOk node -> ∃ c k t, pollForConfirmation node hash o now = Some (c, k, t) ∧ pollSpec node hash (now + pl_deadlineMs o) c k t.
Proof.
  intros Hok. unfold pollForConfirmation.
  destruct (pollLoop_returns node o hash (now + pl_deadlineMs o) (pollFuel o) 0 now (pl_initialIntervalMs o) Hok) as (c & k & t & E);
    [unfold pollFuel; lia|unfold pollFuel; lia|].
  exists c, k, t. split; [exact E|]. eapply pollLoop_spec; [|exact E]. lia.
Qed.

(** A node that fails, then does not find the transaction, then reports success. *)
Definition demoNode : Node :=
  mkNode (fun _ n => match n with O => None | 1%nat => Some StOther | _ => Some (StSuccess (Some (ScU64 7))) end)
    (fun _ => 20) (fun _ _ => 400) (fun _ => 0%float) (fun _ => false) (fun _ => false).
Lemma demoNode_ok : nodeOk demoNode.
Proof. split; cbn; lia. Qed.
(** The same node with the abort signal raised during the second sleep. *)
Definition abortingNode : Node :=
  mkNode (nd_getTransaction demoNode) (nd_probeMs demoNode) (nd_slept demoNode) (nd_random demoNode) (fun _ => false) (fun n => (n =? 1)%nat).
Example aborted_poll : pollForConfirmation abortingNode "h" DEFAULT_CONFIRMATION_POLL 0 = Some (aborted "h", 2%nat, 840).
Proof. vm_compute. reflexivity. Qed.
Lemma poll_reports_observed_outcome_witness :
  ∃ c k t, pollForConfirmation demoNode "h" DEFAULT_CONFIRMATION_POLL 0 = Some (c, k, t) ∧ pollSpec demoNode "h" (0 + 30000) c k t.
Proof. exact (poll_reports_observed_outcome demoNode "h" DEFAULT_CONFIRMATION_POLL 0 demoNode_ok). Defined.

(** A submission returns after at most one more send than its retries; every send
    carries the envelope that was given; and each happens at the start or, up to the
    time a timer fires late, inside the validity window of the transaction. *)
Theorem resubmission_stays_in_window (sender : Sender) (o : SubmitOptions) (now slack : Z) :
  senderOk sender -> (forall n d, sn_slept sender n d <= d + slack) ->
  (submitAndConfirm sender o now).1 ≠ None ∧
  (length (submitAndConfirm sender o now).2 <= S (so_maxRetries o))%nat ∧
  Forall (fun '(t, envelope) => (t <= now ∨ t < now + so_validityWindowMs o + slack) ∧
    (sn_envelope sender 0 = None ∨ envelope = sn_envelope sender 0)) (submitAndConfirm sender o now).2.
Proof.
  intros Hok Hsl. unfold submitAndConfirm.
  destruct (submitLoop_sends sender o (now + so_validityWindowMs o) (sn_envelope sender 0) slack (S (so_maxRetries o)) 0 now (so_initialBackoffMs o) []
    (fun '(t, envelope) => (t <= now ∨ t < now + so_validityWindowMs o + slack) ∧ (sn_envelope sender 0 = None ∨ envelope = sn_envelope sender 0))) as [Hlen Hall];
    [done|by intros k tk|constructor|].
  split_and!; [apply submitLoop_returns; [done|done|lia]|exact Hlen|exact Hall].
Qed.

Definition demoSender : Sender :=
  mkSender (fun n => match n with O => Ok (mkSend SendTryAgainLater "h" None) | _ => Ok (mkSend SendPending "h" None) end)
    (fun _ => 10) (fun _ d => d + 5) (fun _ => Some "xdr") (fun _ => demoNode).
Lemma resubmission_stays_in_window_witness :
  (submitAndConfirm demoSender defaultSubmitOptions 0).2 = [(0, Some "xdr"); (515, Some "xdr")] ∧
  (length (submitAndConfirm demoSender defaultSubmitOptions 0).2 <= 6)%nat.
Proof.
  split; [vm_compute; reflexivity|]. apply (resubmission_stays_in_window demoSender defaultSubmitOptions 0 5).
  - split; [intros n; vm_compute; discriminate|intros n; exact demoNode_ok].
  - intros n d. cbn. lia.
Defined.

Example decodeSorobanError_examples :
  decodeSorobanError "HostError: Error(Contract, insufficientcapacity)" = mkSorobanError "POOL_INSUFFICIENT_CAPACITY"
    "The pool does not have enough available capacity for this operation." ∧
  decodeSorobanError "CapitalLockedUntil" = UNKNOWN_SOROBAN_ERROR ∧
  decodeErrorResult (Some (Ok "txBadSeq")) = ("UNKNOWN", "Transaction rejected: UNKNOWN").
Proof. vm_compute. done. Qed.
