(* ===== verification/RpcPool.v ===== *)
(** The health-checked pool of Soroban RPC endpoints
    (src/stellar/rpc-endpoint-pool.ts): ranking, rotation on transient failures
    with bounded retries, passive and active health.

    An operation's answers are the function [op] from the number of the call made
    so far and the endpoint's index to a result, so a theorem holds for every
    pattern of failures; [clock] gives one reading of the time for each section of
    code that runs without awaiting. *)

From stdpp Require Import base list strings sorting sets.
From Stdlib Require Import ZArith Lia Floats Ascii.
From S2P Require Import Prelude Decimal JsNum Canonical.

#[local] Open Scope Z_scope.

Inductive RpcPurpose := Read | Events | Submit.
Inductive EndpointState := Healthy | Lagging | Unhealthy | Unknown.
#[global] Instance RpcPurpose_eq_dec : EqDecision RpcPurpose.
Proof. solve_decision. Defined.
#[global] Instance EndpointState_eq_dec : EqDecision EndpointState.
Proof. solve_decision. Defined.

Definition STATE_RANK (s : EndpointState) : Z :=
  match s with Healthy => 0 | Unknown => 1 | Lagging => 2 | Unhealthy => 3 end.

Record Options := mkOptions {
  po_maxLedgerLag : Z; po_failureThreshold : Z; po_cooldownMs : Z; po_maxAttempts : nat;
  po_baseRetryDelayMs : Z; po_maxRetryDelayMs : Z }.

Definition RPC_POOL_DEFAULTS : Options := mkOptions 10 3 30000 3 250 2000.

Record EndpointEntry := mkEndpoint {
  en_url : string; en_priority : Z; en_state : EndpointState; en_latestLedger : option Z; en_latencyMs : option Z;
  en_consecutiveFailures : Z; en_lastError : option string; en_lastCheckedAt : option Z; en_cooldownUntil : option Z }.

Record Pool := mkPool { pl_endpoints : list EndpointEntry; pl_active : list (RpcPurpose * nat) }.

(** * Errors *)

(** The fields of a thrown value that the classification reads; [false] for a
    value that is not an object. *)
Record RpcError := mkRpcError {
  er_isObject : bool; er_status : option num; er_statusCode : option num; er_code : option string; er_message : option string;
  er_text : string }.

Definition TRANSIENT_CODES : list string :=
  ["ECONNRESET"; "ECONNREFUSED"; "EHOSTUNREACH"; "ENETUNREACH"; "ETIMEDOUT"; "EAI_AGAIN"; "UND_ERR_CONNECT_TIMEOUT"; "UND_ERR_SOCKET"].

Definition transientWords : list string :=
  ["timeout"; "timed out"; "network"; "connection reset"; "connection refused"; "fetch failed"; "temporarily unavailable";
   "rate limit"; "too many requests"; "bad gateway"; "service unavailable"; "gateway timeout";
   "408"; "425"; "429"; "500"; "502"; "503"; "504"].

Definition lowerChar (c : ascii) : ascii :=
  let n := N_of_ascii c in if ((65 <=? n)%N && (n <=? 90)%N) then ascii_of_N (n + 32) else c.
Definition wordChar (c : ascii) : bool :=
  let n := N_of_ascii c in
  ((48 <=? n)%N && (n <=? 57)%N) || ((65 <=? n)%N && (n <=? 90)%N) || ((97 <=? n)%N && (n <=? 122)%N) || (n =? 95)%N.

(** [\b(w)\b] at the start of [s], [prev] being the character before it. *)
Definition wordAt (w : text) (prev : option ascii) (s : text) : bool :=
  bool_decide (take (length w) s = w)
  && negb (match prev with Some c => wordChar c | None => false end)
  && negb (match drop (length w) s with c :: _ => wordChar c | [] => false end).

Fixpoint hasWord (words : list text) (prev : option ascii) (s : text) : bool :=
  existsb (fun w => wordAt w prev s) words
  || match s with [] => false | c :: r => hasWord words (Some c) r end.

Definition isTransientRpcError (e : RpcError) : bool :=
  if negb (er_isObject e) then false
  else
    let status := default PrimFloat.nan (match er_status e with Some s => Some s | None => er_statusCode e end) in
    if neq status 408%float || neq status 425%float || neq status 429%float || nge status 500%float then true
    else if match er_code e with Some c => bool_decide (c ∈ TRANSIENT_CODES) | None => false end then true
    else match er_message e with
      | Some msg => hasWord (map String.list_ascii_of_string transientWords) None (map lowerChar (String.list_ascii_of_string msg))
      | None => false
      end.

(** * Construction *)

Definition trimUrl (u : string) : string := String.string_of_list_ascii (trim (String.list_ascii_of_string u)).

Definition freshEndpoint (i : nat) (url : string) : EndpointEntry :=
  mkEndpoint url (Z.of_nat i) Unknown None None 0 None None None.

Definition newPool (urls : list string) : res string Pool :=
  let uniqueUrls := setOf (filter (fun u => u ≠ "") (map trimUrl urls)) in
  if bool_decide (uniqueUrls = []) then Err "At least one Soroban RPC URL must be configured"
  else Ok (mkPool (imap freshEndpoint uniqueUrls) []).

(** * Ranking *)
Section PoolOps.
Variable options : Options.

(** An unhealthy endpoint whose cooldown has expired is retried as unknown. *)
Definition effectiveState (now : Z) (e : EndpointEntry) : EndpointState :=
  match en_state e, en_cooldownUntil e with
  | Unhealthy, Some t => if t <=? now then Unknown else Unhealthy
  | st, _ => st
  end.

Definition rankAt (now : Z) (pool : Pool) (i : nat) : Z :=
  match pl_endpoints pool !! i with Some e => STATE_RANK (effectiveState now e) | None => 4 end.
Definition priorityAt (pool : Pool) (i : nat) : Z :=
  match pl_endpoints pool !! i with Some e => en_priority e | None => 0 end.

(** comparator(a, b) <= 0 *)
Definition candidateLe (now : Z) (pool : Pool) (sticky : option nat) (a b : nat) : bool :=
  if negb (rankAt now pool a =? rankAt now pool b) then rankAt now pool a <? rankAt now pool b
  else if bool_decide (sticky = Some a) then true
  else if bool_decide (sticky = Some b) then false
  else priorityAt pool a <=? priorityAt pool b.

Definition candidateOrder (now : Z) (pool : Pool) (purpose : RpcPurpose) : list nat :=
  sort_by (candidateLe now pool (jm_get (pl_active pool) purpose)) (seq 0 (length (pl_endpoints pool))).

Definition rankedUrls (now : Z) (pool : Pool) (purpose : RpcPurpose) : list string :=
  omap (fun i => en_url <$> pl_endpoints pool !! i) (candidateOrder now pool purpose).

Definition isServiceable (now : Z) (pool : Pool) : bool :=
  existsb (fun e => bool_decide (effectiveState now e = Healthy) || bool_decide (effectiveState now e = Unknown)) (pl_endpoints pool).

(** * Passive health *)

Definition markUnhealthy (now : Z) (e : EndpointEntry) : EndpointEntry :=
  mkEndpoint (en_url e) (en_priority e) Unhealthy (en_latestLedger e) (en_latencyMs e) (en_consecutiveFailures e)
    (en_lastError e) (en_lastCheckedAt e) (Some (now + po_cooldownMs options)).

Definition recordSuccess (e : EndpointEntry) : EndpointEntry :=
  if bool_decide (en_state e = Unhealthy)
  then mkEndpoint (en_url e) (en_priority e) Unknown (en_latestLedger e) (en_latencyMs e) 0 None (en_lastCheckedAt e) None
  else mkEndpoint (en_url e) (en_priority e) (en_state e) (en_latestLedger e) (en_latencyMs e) 0 None (en_lastCheckedAt e) (en_cooldownUntil e).

Definition recordFailure (now : Z) (message : string) (e : EndpointEntry) : EndpointEntry :=
  let e' := mkEndpoint (en_url e) (en_priority e) (en_state e) (en_latestLedger e) (en_latencyMs e)
              (en_consecutiveFailures e + 1) (Some message) (en_lastCheckedAt e) (en_cooldownUntil e) in
  if po_failureThreshold options <=? en_consecutiveFailures e' then markUnhealthy now e' else e'.

Definition updateAt (pool : Pool) (i : nat) (f : EndpointEntry -> EndpointEntry) : Pool :=
  mkPool (alter f i (pl_endpoints pool)) (pl_active pool).

(** * Calls *)
Section Calls.
Context {T : Type} (op : nat -> nat -> res RpcError T) (clock : nat -> Z) (purpose : RpcPurpose).

(** What one pass over the candidates ends with. *)
Inductive RoundEnd := Returned (v : T) | Thrown (e : RpcError) | Exhausted (lastError : option RpcError).

(** The inner loop; [n] operations were started before it. *)
Fixpoint tryEach (order : list nat) (pool : Pool) (n : nat) (lastError : option RpcError) : Pool * nat * RoundEnd :=
  match order with
  | [] => (pool, n, Exhausted lastError)
  | i :: rest =>
      match op n i with
      | Ok v =>
          let pool' := updateAt pool i recordSuccess in
          (mkPool (pl_endpoints pool') (jm_set (pl_active pool') purpose i), S n, Returned v)
      | Err e =>
          if negb (isTransientRpcError e) then (pool, S n, Thrown e)
          else tryEach rest (updateAt pool i (recordFailure (clock n) (er_text e))) (S n) (Some e)
      end
  end.

Definition retryDelay (attempt : nat) : Z :=
  Z.min (po_baseRetryDelayMs options * 2 ^ Z.of_nat attempt) (po_maxRetryDelayMs options).

(** The outer loop from [attempt] on, [fuel] rounds being left: the pool, the
    operations started, the delays waited, and the outcome. *)
Fixpoint callLoop (fuel attempt : nat) (pool : Pool) (n : nat) (delays : list Z) (lastError : option RpcError) :
    Pool * nat * list Z * RoundEnd :=
  match fuel with
  | O => (pool, n, delays, Exhausted lastError)
  | S fuel' =>
      match tryEach (candidateOrder (clock n) pool purpose) pool n lastError with
      | (pool', n', Exhausted le) =>
          callLoop fuel' (S attempt) pool' n' (if bool_decide (fuel' = 0%nat) then delays else delays ++ [retryDelay attempt]) le
      | (pool', n', r) => (pool', n', delays, r)
      end
  end.

Definition call (pool : Pool) : Pool * nat * list Z * RoundEnd := callLoop (po_maxAttempts options) 0 pool 0 [] None.
End Calls.

(** * Active health *)

Inductive ProbeResult := ProbeStatus (status : string) (latestLedger : option Z) | ProbeFailed (message : string).

Definition dq : string := String.String (ascii_of_nat 34) "".

Definition probe (started finished : Z) (r : ProbeResult) (e : EndpointEntry) : EndpointEntry :=
  match r with
  | ProbeStatus status ledger =>
      if negb (bool_decide (status = "healthy")) then
        markUnhealthy finished
          (mkEndpoint (en_url e) (en_priority e) (en_state e) (match ledger with Some l => Some l | None => en_latestLedger e end)
             (Some (finished - started)) (en_consecutiveFailures e)
             (Some ("reported status " +:+ dq +:+ status +:+ dq)) (Some finished) (en_cooldownUntil e))
      else mkEndpoint (en_url e) (en_priority e) Healthy ledger (Some (finished - started)) 0 None (Some finished) None
  | ProbeFailed msg =>
      markUnhealthy finished
        (mkEndpoint (en_url e) (en_priority e) (en_state e) (en_latestLedger e) None (en_consecutiveFailures e)
           (Some msg) (Some finished) (en_cooldownUntil e))
  end.

Definition headLedger (l : list EndpointEntry) : option Z :=
  foldl (fun head e =>
    if bool_decide (en_state e = Unhealthy) then head
    else match en_latestLedger e, head with
         | None, _ => head
         | Some v, None => Some v
         | Some v, Some h => if h <? v then Some v else head
         end) None l.

Definition withState (st : EndpointState) (e : EndpointEntry) : EndpointEntry :=
  mkEndpoint (en_url e) (en_priority e) st (en_latestLedger e) (en_latencyMs e) (en_consecutiveFailures e)
    (en_lastError e) (en_lastCheckedAt e) (en_cooldownUntil e).

Definition resolveLag (head : option Z) (e : EndpointEntry) : EndpointEntry :=
  if bool_decide (en_state e = Unhealthy) then e
  else match en_latestLedger e, head with
       | Some l, Some h => withState (if po_maxLedgerLag options <? h - l then Lagging else Healthy) e
       | _, _ => e
       end.

(** [probeAll]: every endpoint is probed, then the lags are resolved against the
    most advanced one. *)
Definition probeAll (results : nat -> Z * Z * ProbeResult) (pool : Pool) : Pool :=
  let probed := imap (fun i e => let '(s, f, r) := results i in probe s f r e) (pl_endpoints pool) in
  mkPool (map (resolveLag (headLedger probed)) probed) (pl_active pool).

Record EndpointHealthSnapshot := mkSnapshot {
  sn_url : string; sn_priority : Z; sn_state : EndpointState; sn_latestLedger : option Z; sn_ledgerLag : option Z;
  sn_latencyMs : option Z; sn_consecutiveFailures : Z; sn_lastError : option string }.

Definition snapshot (now : Z) (pool : Pool) : list EndpointHealthSnapshot :=
  let head := headLedger (pl_endpoints pool) in
  map (fun e => mkSnapshot (en_url e) (en_priority e) (effectiveState now e) (en_latestLedger e)
         (h ← head; l ← en_latestLedger e; Some (h - l)) (en_latencyMs e) (en_consecutiveFailures e) (en_lastError e))
    (pl_endpoints pool).
End PoolOps.

(** * Lemmas: ranking *)

(** The comparator is the lexicographic order on health, stickiness and priority. *)
Definition candidateKey (now : Z) (pool : Pool) (sticky : option nat) (i : nat) : Z * Z * Z :=
  (rankAt now pool i, if bool_decide (sticky = Some i) then 0 else 1, if bool_decide (sticky = Some i) then 0 else priorityAt pool i).

Lemma candidateLe_key now pool sticky a b :
  candidateLe now pool sticky a b = match lex3 (candidateKey now pool sticky a) (candidateKey now pool sticky b) with Gt => false | _ => true end.
Proof.
  unfold candidateLe, candidateKey, lex3.
  destruct (Z.eqb_spec (rankAt now pool a) (rankAt now pool b)) as [->|Hne]; cbn [negb].
  - rewrite Z.compare_refl. repeat case_bool_decide; simplify_eq/=; done.
  - unfold Z.ltb. destruct (Z.compare_spec (rankAt now pool a) (rankAt now pool b)); done.
Qed.

Lemma candidateLe_total now pool sticky : le_total (candidateLe now pool sticky).
Proof.
  intros a b. rewrite !candidateLe_key, (lex3_antisym (candidateKey now pool sticky a) (candidateKey now pool sticky b)).
  destruct (lex3 _ _); auto.
Qed.

Lemma candidateLe_trans now pool sticky : le_trans (candidateLe now pool sticky).
Proof.
  intros a b c. rewrite !candidateLe_key.
  pose proof (lex3_le_trans (candidateKey now pool sticky a) (candidateKey now pool sticky b) (candidateKey now pool sticky c)).
  repeat case_match; naive_solver.
Qed.

Lemma candidateOrder_perm now pool purpose : candidateOrder now pool purpose ≡ₚ seq 0 (length (pl_endpoints pool)).
Proof. apply sort_by_perm. Qed.

Lemma candidateOrder_length now pool purpose : length (candidateOrder now pool purpose) = length (pl_endpoints pool).
Proof. by rewrite candidateOrder_perm, length_seq. Qed.

(** Better health first; the other endpoints are kept as a last resort. *)
Lemma candidateOrder_ranked now pool purpose l1 a l2 b l3 :
  candidateOrder now pool purpose = l1 ++ a :: l2 ++ b :: l3 -> rankAt now pool a <= rankAt now pool b.
Proof.
  intros E. pose proof (sort_by_sorted (candidateLe now pool (jm_get (pl_active pool) purpose)) (seq 0 (length (pl_endpoints pool)))
    (candidateLe_total _ _ _) (candidateLe_trans _ _ _)) as Hs.
  fold (candidateOrder now pool purpose) in Hs. rewrite E in Hs. apply StronglySorted_app in Hs as (_ & _ & Hs).
  inversion Hs as [|? ? _ Hall]; subst. rewrite Forall_forall in Hall. specialize (Hall b ltac:(set_solver)).
  unfold candidateLe in Hall. destruct (Z.eqb_spec (rankAt now pool a) (rankAt now pool b)); cbn [negb] in Hall; lia.
Qed.

(** * Lemmas: calls *)
Section CallLemmas.
Context (options : Options) {T : Type} (op : nat -> nat -> res RpcError T) (clock : nat -> Z) (purpose : RpcPurpose).

Lemma tryEach_spec order : forall pool n le,
  match tryEach options op clock purpose order pool n le with
  | (pool', n', r) =>
      length (pl_endpoints pool') = length (pl_endpoints pool) ∧ (n' <= n + length order)%nat ∧
      match r with
      | Exhausted le' => n' = (n + length order)%nat ∧ (order ≠ [] -> is_Some le') ∧ (is_Some le -> is_Some le')
      | Returned v => ∃ i, i ∈ order ∧ op (n' - 1)%nat i = Ok v ∧ jm_get (pl_active pool') purpose = Some i
      | Thrown e => ∃ i, i ∈ order ∧ op (n' - 1)%nat i = Err e ∧ isTransientRpcError e = false
      end
  end.
Proof.
  induction order as [|i rest IH]; intros pool n le; cbn [tryEach].
  { cbn [length]. split_and!; [done|lia|lia|done|done]. }
  destruct (op n i) as [v|e] eqn:Eo.
  - cbn. split_and!; [by rewrite length_alter|lia|]. exists i. rewrite Nat.sub_0_r, jm_get_set_eq. split_and!; [set_solver|done|done].
  - destruct (isTransientRpcError e) eqn:Et; cbn [negb].
    + specialize (IH (updateAt pool i (recordFailure options (clock n) (er_text e))) (S n) (Some e)).
      destruct (tryEach _ _ _ _ _ _ _) as [[pool' n'] r]. destruct IH as (Hl & Hn & Hr).
      cbn in Hl. rewrite length_alter in Hl. split_and!; [done|cbn; lia|].
      destruct r as [v|e'|le'].
      * destruct Hr as (j & Hj & ?). exists j. split; [set_solver|done].
      * destruct Hr as (j & Hj & ?). exists j. split; [set_solver|done].
      * destruct Hr as (-> & _ & Hs). split_and!; [cbn; lia|intros _; by apply Hs|intros _; by apply Hs].
    + cbn. split_and!; [done|lia|]. exists i. rewrite Nat.sub_0_r. split_and!; [set_solver|done|done].
Qed.

Lemma tryEach_reaches order i : forall pool n le,
  i ∈ order -> (forall m, ∃ v, op m i = Ok v) -> (forall m j e, op m j = Err e -> isTransientRpcError e = true) ->
  ∃ pool' n' v, tryEach options op clock purpose order pool n le = (pool', n', Returned v).
Proof.
  induction order as [|j rest IH]; intros pool n le Hi Hok Htr; [by apply not_elem_of_nil in Hi|]. cbn [tryEach].
  destruct (op n j) as [v|e] eqn:Eo; [eauto|]. rewrite (Htr _ _ _ Eo). cbn [negb].
  apply elem_of_cons in Hi as [->|Hi]; [|by apply IH]. destruct (Hok n) as [v Hv]. congruence.
Qed.

Lemma callLoop_spec fuel : forall attempt pool n delays le,
  match callLoop options op clock purpose fuel attempt pool n delays le with
  | (pool', n', ds, r) =>
      let size := length (pl_endpoints pool) in
      (n' <= n + fuel * size)%nat ∧
      (∃ more, ds = delays ++ more ∧ (length more <= fuel - 1)%nat ∧ Forall (fun d => d <= po_maxRetryDelayMs options) more) ∧
      match r with
      | Exhausted le' => n' = (n + fuel * size)%nat ∧ ((0 < size)%nat -> (0 < fuel)%nat ∨ is_Some le -> is_Some le')
      | Returned v => ∃ i, (i < size)%nat ∧ op (n' - 1)%nat i = Ok v
      | Thrown e => ∃ i, (i < size)%nat ∧ op (n' - 1)%nat i = Err e ∧ isTransientRpcError e = false
      end
  end.
Proof.
  induction fuel as [|fuel IH]; intros attempt pool n delays le; cbn [callLoop]; cbv zeta.
  { split_and!; [lia|exists []; rewrite app_nil_r; split_and!; [done|cbn; lia|done]|lia|]. intros _ [?|?]; [lia|done]. }
  pose proof (tryEach_spec (candidateOrder (clock n) pool purpose) pool n le) as Ht.
  assert (forall i, i ∈ candidateOrder (clock n) pool purpose -> (i < length (pl_endpoints pool))%nat) as Hin.
  { intros i. rewrite candidateOrder_perm. rewrite list_elem_of_In, in_seq. lia. }
  destruct (tryEach _ _ _ _ _ _ _ _) as [[pool1 n1] r1]. destruct Ht as (Hl & Hn & Hr). rewrite candidateOrder_length in *.
  destruct r1 as [v|e|le1].
  - split_and!; [lia|exists []; rewrite app_nil_r; split_and!; [done|cbn; lia|done]|]. destruct Hr as (i & Hi & Ho & _). exists i. auto.
  - split_and!; [lia|exists []; rewrite app_nil_r; split_and!; [done|cbn; lia|done]|]. destruct Hr as (i & Hi & Ho & Hx). exists i. auto.
  - destruct Hr as (-> & Hne & Hsome).
    specialize (IH (S attempt) pool1 (n + length (pl_endpoints pool))%nat
      (if bool_decide (fuel = 0%nat) then delays else delays ++ [retryDelay options attempt]) le1).
    destruct (callLoop _ _ _ _ _ _ _ _ _ _) as [[[pool2 n2] ds] r2]. cbv zeta in IH. rewrite Hl in IH. destruct IH as (Hn2 & (more & -> & Hlen & Hf) & Hr2).
    split_and!; [lia| |].
    + case_bool_decide as Ef; [exists more; split_and!; [done|lia|done]|].
      exists (retryDelay options attempt :: more). rewrite <- app_assoc. split_and!; [done|cbn; lia|].
      constructor; [unfold retryDelay; lia|done].
    + destruct r2 as [v|e|le2]; [done|done|]. destruct Hr2 as (-> & Hs). split; [lia|]. intros Hsz _. apply Hs; [done|]. right. apply Hne.
      intros E. apply (f_equal length) in E. rewrite candidateOrder_length in E. cbn in E. lia.
Qed.
End CallLemmas.

(** A call is bounded and gives up last.  For every pattern of answers it starts
    at most [maxAttempts * size] operations and waits at most [maxAttempts - 1]
    times, never longer than [maxRetryDelayMs]; what it returns or throws is the
    answer of its last operation, a thrown error not being transient; and it
    reports failure only after every endpoint was tried in each of the
    [maxAttempts] rounds, with the last transient error to show for it. *)
Theorem call_bounded (options : Options) {T : Type} (op : nat -> nat -> res RpcError T) (clock : nat -> Z)
    (purpose : RpcPurpose) (pool : Pool) :
  let size := length (pl_endpoints pool) in
  let '(_, n, delays, r) := call options op clock purpose pool in
  (n <= po_maxAttempts options * size)%nat ∧ (length delays <= po_maxAttempts options - 1)%nat ∧
  Forall (fun d => d <= po_maxRetryDelayMs options) delays ∧
  match r with
  | Returned v => ∃ i, (i < size)%nat ∧ op (n - 1)%nat i = Ok v
  | Thrown e => ∃ i, (i < size)%nat ∧ op (n - 1)%nat i = Err e ∧ isTransientRpcError e = false
  | Exhausted last => n = (po_maxAttempts options * size)%nat ∧
      ((0 < size)%nat -> (0 < po_maxAttempts options)%nat -> is_Some last)
  end.
Proof.
  cbv zeta. unfold call. pose proof (callLoop_spec options op clock purpose (po_maxAttempts options) 0 pool 0 [] None) as H.
  destruct (callLoop _ _ _ _ _ _ _ _ _ _) as [[[pool' n] ds] r]. destruct H as (Hn & (more & -> & Hl & Hf) & Hr).
  split_and!; [done|done|done|]. destruct r; [done|done|]. destruct Hr as [-> Hs]. split; [done|]. auto.
Qed.

(** Progress while one provider works.  If some endpoint answers every
    operation and all failures are transient, a call returns in its first round, with
    at most one operation per endpoint and without waiting, whatever health the
    pool attributes to the endpoints; and the endpoint that answered becomes the
    sticky one for the purpose. *)
Theorem call_reaches_working_endpoint (options : Options) {T : Type} (op : nat -> nat -> res RpcError T) (clock : nat -> Z)
    (purpose : RpcPurpose) (pool : Pool) (i : nat)
    (Hi : (i < length (pl_endpoints pool))%nat) (Hrounds : (0 < po_maxAttempts options)%nat)
    (Hok : forall m, ∃ v, op m i = Ok v) (Htr : forall m j e, op m j = Err e -> isTransientRpcError e = true) :
  ∃ pool' n v, call options op clock purpose pool = (pool', n, [], Returned v) ∧
    (n <= length (pl_endpoints pool))%nat ∧
    ∃ j, jm_get (pl_active pool') purpose = Some j ∧ op (n - 1)%nat j = Ok v.
Proof.
  unfold call. destruct (po_maxAttempts options) as [|fuel]; [lia|]. cbn [callLoop].
  destruct (tryEach_reaches options op clock purpose (candidateOrder (clock 0%nat) pool purpose) i pool 0 None) as (pool' & n & v & E).
  - rewrite candidateOrder_perm, list_elem_of_In, in_seq. lia.
  - done.
  - done.
  - pose proof (tryEach_spec options op clock purpose (candidateOrder (clock 0%nat) pool purpose) pool 0 None) as Ht. rewrite E in *.
    destruct Ht as (_ & Hn & j & _ & Ho & Ha). rewrite candidateOrder_length in Hn. exists pool', n, v. split_and!; [done|lia|].
    exists j. done.
Qed.

(** * Witness *)

Definition demoTransient : RpcError := mkRpcError true (Some 503%float) None None None "Service Unavailable".
Definition demoPool : Pool :=
  match newPool ["https://a"; " https://b "; "https://a"; ""] with Ok p => p | Err _ => mkPool [] [] end.
Definition demoOp (n i : nat) : res RpcError string := if bool_decide (i = 1%nat) then Ok "b" else Err demoTransient.

Lemma call_reaches_working_endpoint_witness :
  ∃ pool' n v, call RPC_POOL_DEFAULTS demoOp (fun _ => 0) Submit demoPool = (pool', n, [], Returned v) ∧
    (n <= 2)%nat ∧ rankedUrls 0 pool' Submit = ["https://b"; "https://a"].
Proof.
  destruct (call_reaches_working_endpoint RPC_POOL_DEFAULTS demoOp (fun _ => 0) Submit demoPool 1) as (pool' & n & v & E & Hn & _).
  - vm_compute. lia.
  - cbn. lia.
  - intros m. by exists "b".
  - intros m j e. unfold demoOp. case_bool_decide; [done|]. intros [= <-]. vm_compute. reflexivity.
  - exists pool', n, v. split_and!; [done|exact Hn|]. vm_compute in E. injection E as <- <- <-. vm_compute. reflexivity.
Defined.
