(* ===== verification/ClaimProcessor.v ===== *)
(** The claim processor and its dry-run preview (src/services/claimProcessor.ts,
    the second of the two copies of the module that file holds).

    The two tables it touches are the record [Db]; a query that fails is the
    index [failAt] of the statement within its transaction (0 is the connection),
    so a transaction either returns its new tables or leaves the old ones.
    [dbLe] is the database's collation of [ORDER BY id]. *)

From stdpp Require Import base list strings sorting sets.
From Stdlib Require Import ZArith Lia Floats Ascii.
From S2P Require Import Prelude Decimal JsNum JsInt JsParse JsDate Canonical Encoding.

#[local] Open Scope Z_scope.

(** * Data *)

Record FeedState := mkFeed { fs_feedId : string; fs_value : option num; fs_suppressed : bool }.

Record ProposedOverride := mkOverride {
  ov_feedId : string; ov_value : option num; ov_suppressed : bool;
  ov_effectiveFrom : string; ov_effectiveUntil : string }.

Record PolicyForEvaluation := mkPolicy {
  pe_id : string; pe_feedId : string; pe_operator : string; pe_threshold : num;
  pe_payoutAmount : num; pe_active : bool; pe_updatedAt : string }.

Record PolicyTriggerResult := mkResult {
  pt_policyId : string; pt_triggered : bool; pt_observedValue : option num; pt_suppressed : bool }.

Record TriggerEvaluation := mkEvaluation {
  te_results : list PolicyTriggerResult; te_triggeredPolicyIds : list string;
  te_totalExposure : num; te_truncated : bool }.

Record PreviewPolicyEntry := mkEntry {
  pp_policyId : string; pp_triggersUnderCurrent : bool; pp_triggersUnderProposed : bool;
  pp_changed : bool; pp_payoutAmount : num }.

Record OverridePreview := mkPreview {
  pv_feedId : string; pv_proposed : ProposedOverride; pv_inputHash : string;
  pv_affectedPolicies : list PreviewPolicyEntry;
  pv_currentExposure : num; pv_proposedExposure : num; pv_exposureDelta : num;
  pv_truncated : bool; pv_scannedCount : Z; pv_generatedAt : string }.

Record ClaimDecision := mkDecision {
  cd_policyId : string; cd_feedId : string; cd_triggered : bool;
  cd_observedValue : option num; cd_payoutAmount : num }.

(** A row of [policies] and a row of [claim_decisions]; numerics arrive as text. *)
Record PolicyRow := mkPolicyRow {
  pr_id : string; pr_feed_id : string; pr_operator : string; pr_threshold : string;
  pr_payout_amount : string; pr_active : bool; pr_updated_at : string }.

Record DecisionRow := mkDecisionRow {
  dr_policy_id : string; dr_feed_id : string; dr_observed_value : option num;
  dr_payout_amount : num; dr_created_at : Z }.

Record Db := mkDb { db_policies : list PolicyRow; db_decisions : list DecisionRow }.

(** * Trigger evaluation *)

Definition DEFAULT_MAX_POLICIES : Z := 5000.

Definition compare (value : num) (operator : string) (threshold : num) : res string bool :=
  if bool_decide (operator = "gt") then Ok (ngt value threshold)
  else if bool_decide (operator = "gte") then Ok (nge value threshold)
  else if bool_decide (operator = "lt") then Ok (nlt value threshold)
  else if bool_decide (operator = "lte") then Ok (nle value threshold)
  else if bool_decide (operator = "eq") then Ok (neq value threshold)
  else if bool_decide (operator = "neq") then Ok (negb (neq value threshold))
  else Err ("Unknown operator: " +:+ operator).

Definition evaluatePolicy (policy : PolicyForEvaluation) (feed : FeedState) : res string PolicyTriggerResult :=
  if negb (pe_active policy) then Ok (mkResult (pe_id policy) false (fs_value feed) (fs_suppressed feed))
  else match (if fs_suppressed feed then None else fs_value feed) with
  | None => Ok (mkResult (pe_id policy) false None true)
  | Some value =>
      triggered ← compare value (pe_operator policy) (pe_threshold policy);
      Ok (mkResult (pe_id policy) triggered (Some value) false)
  end.

(** [l.slice(0, n)]: a negative end counts from the back. *)
Definition slice0 {A} (n : Z) (l : list A) : list A :=
  take (Z.to_nat (if n <? 0 then Z.of_nat (length l) + n else n)) l.

(** The loop of evaluatePolicyTriggers over the accumulators. *)
Fixpoint evaluateLoop (feed : FeedState) (policies : list PolicyForEvaluation)
    (results : list PolicyTriggerResult) (ids : list string) (total : num) :
    res string (list PolicyTriggerResult * list string * num) :=
  match policies with
  | [] => Ok (results, ids, total)
  | policy :: rest =>
      result ← evaluatePolicy policy feed;
      if pt_triggered result
      then evaluateLoop feed rest (results ++ [result]) (ids ++ [pe_id policy]) (PrimFloat.add total (pe_payoutAmount policy))
      else evaluateLoop feed rest (results ++ [result]) ids total
  end.

Definition evaluatePolicyTriggers (policies : list PolicyForEvaluation) (feed : FeedState) (options : option Z) :
    res string TriggerEvaluation :=
  let maxPolicies := default DEFAULT_MAX_POLICIES options in
  let bounded := slice0 maxPolicies policies in
  let truncated := maxPolicies <? Z.of_nat (length policies) in
  r ← evaluateLoop feed bounded [] [] PrimFloat.zero;
  Ok (mkEvaluation r.1.1 r.1.2 r.2 truncated).

Definition feedStateFromOverride (o : ProposedOverride) : FeedState :=
  mkFeed (ov_feedId o) (if ov_suppressed o then None else ov_value o) (ov_suppressed o).

Definition currentFeedState (feed : FeedState) : FeedState :=
  mkFeed (fs_feedId feed) (fs_value feed) (fs_suppressed feed).

(** * Input hash *)

Definition jsonNum (v : option num) : json := match v with Some n => JNum n | None => JNull end.

Definition policyJson (p : PolicyForEvaluation) : json :=
  JObj [("id", JStr (pe_id p)); ("feedId", JStr (pe_feedId p)); ("operator", JStr (pe_operator p));
        ("threshold", JNum (pe_threshold p)); ("payoutAmount", JNum (pe_payoutAmount p));
        ("active", JBool (pe_active p)); ("updatedAt", JStr (pe_updatedAt p))].

Definition idLe (a b : PolicyForEvaluation) : bool := string_leb (pe_id a) (pe_id b).

Definition previewInputs (feedId : string) (o : ProposedOverride) (policies : list PolicyForEvaluation) : json :=
  JObj [("feedId", JStr feedId);
        ("proposed", JObj [("feedId", JStr (ov_feedId o)); ("value", jsonNum (ov_value o));
           ("suppressed", JBool (ov_suppressed o)); ("effectiveFrom", JStr (ov_effectiveFrom o));
           ("effectiveUntil", JStr (ov_effectiveUntil o))]);
        ("policies", JArr (map policyJson (sort_by idLe policies)))].

Definition FNV_OFFSET : Z := 0x811c9dc5.
Definition FNV_PRIME : Z := 0x01000193.

(** [hash ^= code; hash = Math.imul(hash, 0x01000193) >>> 0] *)
Definition hashStep (hash code : Z) : Z := ushr0 (imul (bxor hash code) FNV_PRIME).

Definition hashText (canonical : string) : Z := foldl hashStep FNV_OFFSET (utf8 canonical).

Definition hashPreviewInputs `{JsHost} (feedId : string) (o : ProposedOverride) (policies : list PolicyForEvaluation) : string :=
  let canonical := default "" (stringify (previewInputs feedId o policies)) in
  String.string_of_list_ascii (padStart 8 (hex_text (hashText canonical))).

(** * Database transactions *)
Section Transactions.
Context `{JsHost} (dbLe : string -> string -> bool).

(** The [k]-th statement of a transaction. *)
Definition query (failAt : option nat) (k : nat) : res string unit :=
  guard_res (negb (bool_decide (failAt = Some k))) "query failed".

Definition policyOfRow (r : PolicyRow) : PolicyForEvaluation :=
  mkPolicy (pr_id r) (pr_feed_id r) (pr_operator r) (toNumber (pr_threshold r))
    (toNumber (pr_payout_amount r)) (pr_active r) (pr_updated_at r).

(** [WHERE feed_id = $1 AND active = TRUE ORDER BY id] *)
Definition selectActive (db : Db) (feedId : string) : list PolicyRow :=
  sort_by (fun a b => dbLe (pr_id a) (pr_id b))
    (filter (fun r => pr_feed_id r = feedId ∧ pr_active r = true) (db_policies db)).

(** [LIMIT n] *)
Definition limitRows (n : Z) (rows : list PolicyRow) : res string (list PolicyRow) :=
  if n <? 0 then Err "LIMIT must not be negative" else Ok (take (Z.to_nat n) rows).

Definition currentById (results : list PolicyTriggerResult) : list (string * bool) :=
  foldl (fun m r => jm_set m (pt_policyId r) (pt_triggered r)) [] results.

Definition findPolicy (policies : list PolicyForEvaluation) (id : string) : option PolicyForEvaluation :=
  head (filter (fun p => pe_id p = id) policies).

Fixpoint affectedLoop (current : list (string * bool)) (policies : list PolicyForEvaluation)
    (results : list PolicyTriggerResult) : list PreviewPolicyEntry :=
  match results with
  | [] => []
  | result :: rest =>
      let triggersUnderCurrent := default false (jm_get current (pt_policyId result)) in
      let triggersUnderProposed := pt_triggered result in
      if bool_decide (triggersUnderCurrent ≠ triggersUnderProposed)
      then mkEntry (pt_policyId result) triggersUnderCurrent triggersUnderProposed true
             (default PrimFloat.zero (pe_payoutAmount <$> findPolicy policies (pt_policyId result)))
           :: affectedLoop current policies rest
      else affectedLoop current policies rest
  end.

Definition previewOverrideImpact (failAt : option nat) (db : Db) (currentFeed : FeedState)
    (proposed : ProposedOverride) (options : option Z) (now : Z) : res string OverridePreview :=
  if bool_decide (ov_feedId proposed ≠ fs_feedId currentFeed) then 
    Err ("Override feedId " +:+ ov_feedId proposed +:+ " does not match current feed " +:+ fs_feedId currentFeed)
  else if ov_suppressed proposed && bool_decide (is_Some (ov_value proposed)) then Err "A suppression override must not carry a value"
  else if negb (ov_suppressed proposed) && bool_decide (ov_value proposed = None) then Err "A non-suppression override must carry a value"
  else
    let maxPolicies := default DEFAULT_MAX_POLICIES options in
    _ ← query failAt 0;
    _ ← query failAt 1;
    _ ← query failAt 2;
    rows ← limitRows (maxPolicies + 1) (selectActive db (fs_feedId currentFeed));
    _ ← query failAt 3;
    let policies := map policyOfRow rows in
    let truncated := maxPolicies <? Z.of_nat (length policies) in
    let boundedPolicies := if truncated then slice0 maxPolicies policies else policies in
    currentEval ← evaluatePolicyTriggers boundedPolicies (currentFeedState currentFeed) (Some maxPolicies);
    proposedEval ← evaluatePolicyTriggers boundedPolicies (feedStateFromOverride proposed) (Some maxPolicies);
    let affected := affectedLoop (currentById (te_results currentEval)) boundedPolicies (te_results proposedEval) in
    generatedAt ← toISOString now;
    Ok (mkPreview (fs_feedId currentFeed) proposed
          (hashPreviewInputs (fs_feedId currentFeed) proposed boundedPolicies) affected
          (te_totalExposure currentEval) (te_totalExposure proposedEval)
          (PrimFloat.sub (te_totalExposure proposedEval) (te_totalExposure currentEval))
          truncated (Z.of_nat (length boundedPolicies)) generatedAt).

(** The INSERT loop from statement [k] on: the rows inserted, the decisions and
    the index of the next statement. *)
Fixpoint insertLoop (failAt : option nat) (feed : FeedState) (policies : list PolicyForEvaluation) (now : Z)
    (results : list PolicyTriggerResult) (k : nat) : res string (list DecisionRow * list ClaimDecision * nat) :=
  match results with
  | [] => Ok ([], [], k)
  | result :: rest =>
      if negb (pt_triggered result) then insertLoop failAt feed policies now rest k
      else match findPolicy policies (pt_policyId result) with
      | None => insertLoop failAt feed policies now rest k
      | Some policy =>
          _ ← query failAt k;
          r ← insertLoop failAt feed policies now rest (S k);
          Ok (mkDecisionRow (pe_id policy) (fs_feedId feed) (pt_observedValue result) (pe_payoutAmount policy) now :: r.1.1,
              mkDecision (pe_id policy) (fs_feedId feed) true (pt_observedValue result) (pe_payoutAmount policy) :: r.1.2, r.2)
      end
  end.

(** The transaction: what it commits, or the error after which it rolls back. *)
Definition processBody (failAt : option nat) (db : Db) (feed : FeedState) (options : option Z) (now : Z) :
    res string (list DecisionRow * list ClaimDecision) :=
  _ ← query failAt 0;
  _ ← query failAt 1;
  _ ← query failAt 2;
  let policies := map policyOfRow (selectActive db (fs_feedId feed)) in
  evaluation ← evaluatePolicyTriggers policies feed options;
  r ← insertLoop failAt feed policies now (te_results evaluation) 3;
  _ ← query failAt r.2;
  Ok r.1.

Definition processClaims (failAt : option nat) (db : Db) (feed : FeedState) (options : option Z) (now : Z) :
    Db * res string (list ClaimDecision) :=
  match processBody failAt db feed options now with
  | Ok (rows, decisions) => (mkDb (db_policies db) (db_decisions db ++ rows), Ok decisions)
  | Err e => (db, Err e)
  end.
End Transactions.

(** * Reference definitions *)

(** The operators the source knows. *)
Definition knownOperator (op : string) : Prop := op ∈ ["gt"; "gte"; "lt"; "lte"; "eq"; "neq"].

(** Whether a policy triggers, and the result recorded for it. *)
Definition triggers (feed : FeedState) (p : PolicyForEvaluation) : bool :=
  match evaluatePolicy p feed with Ok r => pt_triggered r | Err _ => false end.
Definition resultOf (feed : FeedState) (p : PolicyForEvaluation) : PolicyTriggerResult :=
  match evaluatePolicy p feed with Ok r => r | Err _ => mkResult (pe_id p) false None true end.

Definition total (l : list num) : num := foldl PrimFloat.add PrimFloat.zero l.

(** FNV-1a over bytes, as published: 32-bit arithmetic modulo 2^32. *)
Definition fnv1a (bytes : list Z) : Z := foldl (fun h b => (Z.lxor h b * 16777619) mod 2 ^ 32) 2166136261 bytes.

(** * Lemmas: evaluation *)

Lemma compare_known value op threshold : knownOperator op -> is_ok (compare value op threshold) = true.
Proof.
  unfold knownOperator, compare. rewrite !elem_of_cons, elem_of_nil. intros H.
  destruct_or?; subst; done.
Qed.

Lemma evaluatePolicy_known p feed : knownOperator (pe_operator p) -> evaluatePolicy p feed = Ok (resultOf feed p).
Proof.
  intros Hk. unfold resultOf. destruct (evaluatePolicy p feed) eqn:E; [done|].
  unfold evaluatePolicy in E. destruct (pe_active p); [|done]. simpl in E.
  destruct (if fs_suppressed feed then None else fs_value feed) as [v|]; [|done].
  pose proof (compare_known v _ (pe_threshold p) Hk). by destruct (compare v _ _).
Qed.

Lemma resultOf_id feed p : pt_policyId (resultOf feed p) = pe_id p.
Proof.
  unfold resultOf, evaluatePolicy. destruct (pe_active p); [|done]. simpl.
  destruct (if fs_suppressed feed then None else fs_value feed); [|done]. by destruct (compare _ _ _).
Qed.

Lemma resultOf_triggered feed p : pt_triggered (resultOf feed p) = triggers feed p.
Proof. unfold resultOf, triggers. by destruct (evaluatePolicy p feed). Qed.

Lemma resultOf_observed feed p : triggers feed p = true -> pt_observedValue (resultOf feed p) = fs_value feed.
Proof.
  unfold resultOf, triggers, evaluatePolicy. destruct (pe_active p); [|done]. simpl.
  destruct (fs_suppressed feed); [done|]. destruct (fs_value feed); [|done]. by destruct (compare _ _ _).
Qed.

Lemma evaluateLoop_known feed l : Forall (fun p => knownOperator (pe_operator p)) l -> forall rs ids t,
  evaluateLoop feed l rs ids t =
  Ok (rs ++ map (resultOf feed) l, ids ++ map pe_id (filter (fun p => triggers feed p = true) l),
      foldl PrimFloat.add t (map pe_payoutAmount (filter (fun p => triggers feed p = true) l))).
Proof.
  induction 1 as [|p l Hp _ IH]; intros rs ids t; [simpl; by rewrite !app_nil_r|].
  cbn [evaluateLoop]. rewrite (evaluatePolicy_known p feed Hp). cbn [mbind res_bind].
  rewrite resultOf_triggered. destruct (triggers feed p) eqn:E.
  - rewrite IH, filter_cons_True by done. cbn [map foldl]. by rewrite <- !app_assoc.
  - rewrite IH, filter_cons_False by (by rewrite E). cbn [map]. by rewrite <- !app_assoc.
Qed.

Lemma slice0_take {A} n (l : list A) : 0 <= n -> slice0 n l = take (Z.to_nat n) l.
Proof. unfold slice0. intros Hn. by rewrite (proj2 (Z.ltb_ge n 0) Hn). Qed.

Lemma evaluatePolicyTriggers_known l feed n :
  0 <= n -> Forall (fun p => knownOperator (pe_operator p)) l ->
  let b := take (Z.to_nat n) l in
  evaluatePolicyTriggers l feed (Some n) =
  Ok (mkEvaluation (map (resultOf feed) b) (map pe_id (filter (fun p => triggers feed p = true) b))
        (total (map pe_payoutAmount (filter (fun p => triggers feed p = true) b))) (n <? Z.of_nat (length l))).
Proof.
  intros Hn Hl b. unfold evaluatePolicyTriggers.
  change (default DEFAULT_MAX_POLICIES (Some n)) with n. cbv zeta.
  rewrite (slice0_take n l Hn), evaluateLoop_known by (by apply Forall_take). done.
Qed.

(** * Lemmas: lookups by id *)

Lemma findPolicy_in l p : NoDup (map pe_id l) -> p ∈ l -> findPolicy l (pe_id p) = Some p.
Proof.
  unfold findPolicy. induction l as [|q l IH]; [by intros _ ?%not_elem_of_nil|].
  intros [Hn Hd]%NoDup_cons [->|Hp]%elem_of_cons.
  - by rewrite filter_cons_True.
  - rewrite filter_cons_False; [by apply IH|].
    intros E. apply Hn. fold map. rewrite E. by apply (list_elem_of_fmap_2 pe_id).
Qed.

Lemma currentById_get feed l p : NoDup (map pe_id l) -> p ∈ l ->
  jm_get (currentById (map (resultOf feed) l)) (pe_id p) = Some (triggers feed p).
Proof.
  intros Hd. unfold currentById. induction l as [|q l IH] using rev_ind; [by intros ?%not_elem_of_nil|].
  rewrite map_app in Hd. apply NoDup_app in Hd as (Hd & Hn & _).
  rewrite map_app, foldl_app. cbn [map foldl]. rewrite resultOf_id, resultOf_triggered.
  intros [Hp|Hq%list_elem_of_singleton]%elem_of_app.
  - rewrite jm_get_set_ne; [by apply IH|].
    intros E. apply (Hn (pe_id p)); [by apply (list_elem_of_fmap_2 pe_id)|]. cbn [map]. rewrite E. set_solver.
  - subst q. by rewrite jm_get_set_eq.
Qed.

(** * Lemmas: the loops on evaluated policies *)

Definition differs (cur prop : FeedState) (p : PolicyForEvaluation) : Prop := triggers cur p ≠ triggers prop p.
#[global] Instance differs_dec cur prop p : Decision (differs cur prop p).
Proof. unfold differs. apply _. Defined.

Definition entryOf (cur prop : FeedState) (p : PolicyForEvaluation) : PreviewPolicyEntry :=
  mkEntry (pe_id p) (triggers cur p) (triggers prop p) true (pe_payoutAmount p).

Lemma affectedLoop_spec cur prop l : NoDup (map pe_id l) -> forall k, k ⊆ l ->
  affectedLoop (currentById (map (resultOf cur) l)) l (map (resultOf prop) k)
  = map (entryOf cur prop) (filter (differs cur prop) k).
Proof.
  intros Hd k. induction k as [|p k IH]; [done|]. intros Hk.
  assert (p ∈ l) as Hp by set_solver. specialize (IH ltac:(set_solver)).
  cbn [map affectedLoop]. rewrite resultOf_id, resultOf_triggered, currentById_get, IH by done. cbn [default from_option].
  destruct (decide (differs cur prop p)) as [H|H].
  - rewrite filter_cons_True, bool_decide_eq_true_2 by done. cbn [map]. by rewrite findPolicy_in.
  - by rewrite filter_cons_False, bool_decide_eq_false_2.
Qed.

Definition decisionOf (feed : FeedState) (p : PolicyForEvaluation) : ClaimDecision :=
  mkDecision (pe_id p) (fs_feedId feed) true (fs_value feed) (pe_payoutAmount p).
Definition rowOf (feed : FeedState) (now : Z) (p : PolicyForEvaluation) : DecisionRow :=
  mkDecisionRow (pe_id p) (fs_feedId feed) (fs_value feed) (pe_payoutAmount p) now.

Lemma insertLoop_spec feed l now : NoDup (map pe_id l) -> forall k i, k ⊆ l ->
  let trig := filter (fun p => triggers feed p = true) k in
  insertLoop None feed l now (map (resultOf feed) k) i
  = Ok (map (rowOf feed now) trig, map (decisionOf feed) trig, (i + length trig)%nat).
Proof.
  intros Hd k. induction k as [|p k IH]; intros i Hk; [simpl; by rewrite Nat.add_0_r|].
  assert (p ∈ l) as Hp by set_solver. cbv zeta in *.
  cbn [map insertLoop]. rewrite resultOf_triggered, resultOf_id, findPolicy_in by done.
  destruct (triggers feed p) eqn:E; cbn [negb].
  - rewrite filter_cons_True by done. cbn [query guard_res mbind res_bind]. rewrite IH by set_solver.
    rewrite resultOf_observed by done. cbn [map length]. by rewrite Nat.add_succ_r.
  - rewrite filter_cons_False by (by rewrite E). apply IH. set_solver.
Qed.

(** * Lemmas: what a transaction reads *)
Section Reads.
Context `{JsHost} (dbLe : string -> string -> bool).

Definition activePolicies (db : Db) (feedId : string) : list PolicyForEvaluation :=
  map policyOfRow (selectActive dbLe db feedId).

Lemma activePolicies_ids db feedId : NoDup (map pr_id (db_policies db)) -> NoDup (map pe_id (activePolicies db feedId)).
Proof.
  intros Hd. unfold activePolicies. rewrite map_map. unfold selectActive.
  change (NoDup (pr_id <$> sort_by (fun a b => dbLe (pr_id a) (pr_id b))
    (filter (fun r => pr_feed_id r = feedId ∧ pr_active r = true) (db_policies db)))).
  rewrite sort_by_perm. eapply sublist_NoDup; [exact Hd|]. apply fmap_sublist, sublist_filter.
Qed.

Lemma activePolicies_known db feedId : Forall (fun r => knownOperator (pr_operator r)) (db_policies db) ->
  Forall (fun p => knownOperator (pe_operator p)) (activePolicies db feedId).
Proof.
  intros Hk. unfold activePolicies, selectActive.
  apply Forall_forall. intros p (r & -> & Hr%elem_of_sort_by)%list_elem_of_fmap. apply list_elem_of_filter in Hr as [_ Hr].
  rewrite Forall_forall in Hk. by apply Hk.
Qed.

(** The decisions of an undisturbed run: one per triggered policy among the
    first [n] active ones, in id order. *)
Definition decided (db : Db) (feed : FeedState) (n : Z) : list PolicyForEvaluation :=
  filter (fun p => triggers feed p = true) (take (Z.to_nat n) (activePolicies db (fs_feedId feed))).

Section Run.
Context (db : Db) (n : Z) (now : Z).
Hypothesis (Hids : NoDup (map pr_id (db_policies db))).
Hypothesis (Hops : Forall (fun r => knownOperator (pr_operator r)) (db_policies db)).
Hypothesis (Hn : 0 <= n).

Lemma processClaims_spec feed :
  processClaims dbLe None db feed (Some n) now
  = (mkDb (db_policies db) (db_decisions db ++ map (rowOf feed now) (decided db feed n)),
     Ok (map (decisionOf feed) (decided db feed n))).
Proof using Hids Hops Hn.
  unfold processClaims, processBody. cbn [query guard_res mbind res_bind bool_decide negb].
  fold (activePolicies db (fs_feedId feed)).
  rewrite evaluatePolicyTriggers_known by auto using activePolicies_known. cbn [mbind res_bind te_results].
  rewrite insertLoop_spec by (auto using activePolicies_ids; apply subseteq_take). done.
Qed.

(** What is left to the dry run of the rows limited to one more than it needs. *)
Lemma preview_bound feedId rows :
  limitRows (n + 1) (selectActive dbLe db feedId) = Ok rows ->
  (if n <? Z.of_nat (length (map policyOfRow rows)) then slice0 n (map policyOfRow rows) else map policyOfRow rows)
  = take (Z.to_nat n) (activePolicies db feedId) ∧
  (n <? Z.of_nat (length (map policyOfRow rows))) = (n <? Z.of_nat (length (activePolicies db feedId))).
Proof using Hn.
  unfold limitRows. rewrite (proj2 (Z.ltb_ge (n + 1) 0)) by lia. intros [= <-].
  unfold activePolicies. rewrite !length_map, length_take. set (sel := selectActive dbLe db feedId).
  assert ((n <? Z.of_nat (Nat.min (Z.to_nat (n + 1)) (length sel))) = (n <? Z.of_nat (length sel))) as ->
    by (apply Bool.eq_true_iff_eq; rewrite !Z.ltb_lt; lia).
  split; [|done]. rewrite slice0_take by done. rewrite !firstn_map.
  destruct (Z.ltb_spec n (Z.of_nat (length sel))).
  - rewrite take_take. by rewrite Nat.min_l by lia.
  - by rewrite !take_ge by lia.
Qed.
End Run.
End Reads.

Lemma elem_of_ids_filter (P : PolicyForEvaluation -> Prop) `{forall p, Decision (P p)} l p :
  NoDup (map pe_id l) -> p ∈ l -> pe_id p ∈ map pe_id (filter P l) <-> P p.
Proof.
  intros Hd Hp. split.
  - intros (q & E & [Hq Hql]%list_elem_of_filter)%list_elem_of_fmap.
    by rewrite (NoDup_map_inj pe_id l p q Hd Hp Hql E).
  - intros. apply (list_elem_of_fmap_2 pe_id), list_elem_of_filter. done.
Qed.

Definition decidedIds (l : list ClaimDecision) : list string := map cd_policyId l.

Lemma decidedIds_of feed l : decidedIds (map (decisionOf feed) l) = map pe_id l.
Proof. unfold decidedIds. by rewrite map_map. Qed.

(** The dry run shows exactly what applying the override would do.  For an
    override of the previewed feed that carries a value or suppresses it, policies
    with known operators and distinct ids, and any bound on the scan: the preview
    succeeds; its exposures are the totals a live run would decide before and
    after the override; a policy is listed as newly triggering (newly silent)
    exactly when the live run decides it only after (only before) the override;
    and the live run after the override inserts its decisions and nothing else. *)
Theorem preview_matches_processing `{JsHost} (dbLe : string -> string -> bool) (db : Db) (cur : FeedState)
    (o : ProposedOverride) (n now : Z)
    (Hids : NoDup (map pr_id (db_policies db)))
    (Hops : Forall (fun r => knownOperator (pr_operator r)) (db_policies db))
    (Hfeed : ov_feedId o = fs_feedId cur)
    (Hshape : ov_suppressed o = bool_decide (ov_value o = None))
    (Hn : 0 <= n) (Hnow : validTime now = true) :
  ∃ p before after,
    previewOverrideImpact dbLe None db cur o (Some n) now = Ok p ∧
    (processClaims dbLe None db cur (Some n) now).2 = Ok before ∧
    processClaims dbLe None db (feedStateFromOverride o) (Some n) now
      = (mkDb (db_policies db) (db_decisions db ++
           map (fun d => mkDecisionRow (cd_policyId d) (cd_feedId d) (cd_observedValue d) (cd_payoutAmount d) now) after), Ok after) ∧
    pv_currentExposure p = total (map cd_payoutAmount before) ∧
    pv_proposedExposure p = total (map cd_payoutAmount after) ∧
    (forall id, (∃ e, e ∈ pv_affectedPolicies p ∧ pp_policyId e = id ∧ pp_triggersUnderProposed e = true)
                <-> id ∈ decidedIds after ∧ id ∉ decidedIds before) ∧
    (forall id, (∃ e, e ∈ pv_affectedPolicies p ∧ pp_policyId e = id ∧ pp_triggersUnderProposed e = false)
                <-> id ∈ decidedIds before ∧ id ∉ decidedIds after).
Proof.
  rewrite !processClaims_spec by done. set (new := feedStateFromOverride o).
  set (b := take (Z.to_nat n) (activePolicies dbLe db (fs_feedId cur))).
  assert (decided dbLe db new n = filter (fun p => triggers new p = true) b) as -> by (unfold decided, b; simpl; by rewrite Hfeed).
  assert (decided dbLe db cur n = filter (fun p => triggers cur p = true) b) as -> by done.
  assert (NoDup (map pe_id b)) as Hb.
  { unfold b. rewrite <- firstn_map. eapply sublist_NoDup; [apply (activePolicies_ids dbLe db (fs_feedId cur) Hids)|].
    apply sublist_take. }
  destruct (limitRows (n + 1) (selectActive dbLe db (fs_feedId cur))) as [rows|] eqn:Hrows;
    [|unfold limitRows in Hrows; rewrite (proj2 (Z.ltb_ge (n + 1) 0)) in Hrows by lia; done].
  destruct (preview_bound dbLe db n Hn _ _ Hrows) as [Hbound Htrunc]. fold b in Hbound.
  unfold previewOverrideImpact. rewrite (bool_decide_eq_false_2 (ov_feedId o ≠ _)) by (by intros []).
  assert (ov_suppressed o && bool_decide (is_Some (ov_value o)) = false) as ->
    by (rewrite Hshape; by destruct (ov_value o)).
  assert (negb (ov_suppressed o) && bool_decide (ov_value o = None) = false) as ->
    by (rewrite Hshape; by destruct (ov_value o)).
  cbn [query guard_res mbind res_bind bool_decide negb].
  change (default DEFAULT_MAX_POLICIES (Some n)) with n. cbv zeta. rewrite Hrows. cbn [mbind res_bind].
  rewrite Hbound. rewrite !evaluatePolicyTriggers_known by (try done; unfold b; apply Forall_take; by apply activePolicies_known).
  cbn [mbind res_bind te_results te_totalExposure]. unfold toISOString. rewrite Hnow. cbn [mbind res_bind].
  assert (take (Z.to_nat n) b = b) as -> by (unfold b; rewrite take_take; by rewrite Nat.min_id).
  change (currentFeedState cur) with (mkFeed (fs_feedId cur) (fs_value cur) (fs_suppressed cur)).
  assert (mkFeed (fs_feedId cur) (fs_value cur) (fs_suppressed cur) = cur) as -> by (by destruct cur).
  fold new. rewrite affectedLoop_spec by done.
  eexists _, (map (decisionOf cur) (filter (fun p => triggers cur p = true) b)),
    (map (decisionOf new) (filter (fun p => triggers new p = true) b)).
  split_and!; [done|done|by rewrite map_map|cbn; by rewrite map_map|cbn; by rewrite map_map|..];
    intros id; cbn [pv_affectedPolicies]; rewrite !decidedIds_of.
  all: split;
    [intros (e & (p & -> & [Hdiff Hp]%list_elem_of_filter)%list_elem_of_fmap & <- & Ht); cbn in *;
     rewrite !elem_of_ids_filter by done; unfold differs in Hdiff;
     destruct (triggers cur p), (triggers new p); naive_solver
    |intros [(p & -> & [Ht Hp]%list_elem_of_filter)%list_elem_of_fmap Hno];
     rewrite elem_of_ids_filter in Hno by done;
     exists (entryOf cur new p); split_and!; [|done|cbn; first [done|by destruct (triggers new p)]];
     apply (list_elem_of_fmap_2 (entryOf cur new)), list_elem_of_filter; split; [|done]; unfold differs; congruence].
Qed.

Definition demoRow (id : string) (op threshold : string) : PolicyRow := mkPolicyRow id "depeg" op threshold "100" true "t".
Definition demoDb : Db := mkDb [demoRow "b" "lt" "0.5"; demoRow "a" "gt" "2"; demoRow "c" "neq" "1"] [].

Lemma preview_matches_processing_witness :
  ∃ p before after,
    @previewOverrideImpact demoHost string_leb None demoDb (mkFeed "depeg" (Some 1%float) false)
      (mkOverride "depeg" (Some 0.25%float) false "f" "u") (Some 3) 0 = Ok p ∧
    (processClaims string_leb None demoDb (mkFeed "depeg" (Some 1%float) false) (Some 3) 0).2 = Ok before ∧
    decidedIds before = [] ∧ decidedIds after = ["b"; "c"] ∧ map pp_policyId (pv_affectedPolicies p) = ["b"; "c"] ∧
    pv_proposedExposure p = total (map cd_payoutAmount after).
Proof.
  destruct (@preview_matches_processing demoHost string_leb demoDb (mkFeed "depeg" (Some 1%float) false)
    (mkOverride "depeg" (Some 0.25%float) false "f" "u") 3 0) as (p & before & after & Hp & Hb & Ha & _ & He & _).
  - apply (bool_decide_unpack _). by vm_compute.
  - repeat constructor; apply (bool_decide_unpack _); by vm_compute.
  - done.
  - done.
  - lia.
  - done.
  - exists p, before, after. split; [exact Hp|]. split; [exact Hb|].
    apply (f_equal snd) in Ha. vm_compute in Hp, Hb, Ha. injection Hp as <-. injection Hb as <-. injection Ha as <-.
    split_and!; [done..|exact He].
Defined.

(** * The input hash *)

Lemma hashStep_spec h c : 0 <= h < 2 ^ 32 -> 0 <= c < 2 ^ 32 ->
  hashStep h c = (Z.lxor h c * 16777619) mod 2 ^ 32.
Proof.
  intros Hh Hc. unfold hashStep. rewrite ushr0_imul, toUint32_bxor.
  by rewrite !(toUint32_small h), (toUint32_small c) by done.
Qed.

Lemma utf8_bytes s : Forall (fun c => 0 <= c < 2 ^ 32) (utf8 s).
Proof.
  apply Forall_forall. intros c (a & -> & _)%list_elem_of_fmap.
  destruct a as [[] [] [] [] [] [] [] []]; by vm_compute.
Qed.

Lemma hashText_fnv s : hashText s = fnv1a (utf8 s) ∧ 0 <= hashText s < 2 ^ 32.
Proof.
  unfold hashText, fnv1a. change FNV_OFFSET with 2166136261.
  assert (0 <= 2166136261 < 2 ^ 32) as Hb by lia. revert Hb. generalize 2166136261.
  induction (utf8_bytes s) as [|c l Hc _ IH]; intros h Hh; [done|].
  cbn [foldl]. rewrite hashStep_spec by done. apply IH. apply Z.mod_pos_bound. lia.
Qed.

(** The preview hash.  The 32-bit loop (signed exclusive or, [Math.imul],
    [>>> 0]) computes FNV-1a modulo 2^32 of the canonical inputs; the printed hash
    is always eight hexadecimal digits denoting that number; and it does not
    depend on the order in which the policies were read when their ids are
    distinct. *)
Theorem preview_hash_spec `{JsHost} (feedId : string) (o : ProposedOverride) (policies policies' : list PolicyForEvaluation)
    (Hids : NoDup (map pe_id policies)) (Hperm : policies ≡ₚ policies') :
  let h := String.list_ascii_of_string (hashPreviewInputs feedId o policies) in
  let inputs := default "" (stringify (previewInputs feedId o policies)) in
  length h = 8%nat ∧ forallb is_hex h = true ∧ hex_val h = fnv1a (utf8 inputs) ∧
  hashPreviewInputs feedId o policies' = hashPreviewInputs feedId o policies.
Proof.
  cbv zeta. assert (sort_by idLe policies' = sort_by idLe policies) as Hsort.
  { symmetry. apply (sorted_perm_unique_on idLe).
    - intros x y Hx%elem_of_sort_by Hy%elem_of_sort_by Hxy Hyx.
      apply (NoDup_map_inj pe_id policies); try done. by apply string_leb_antisym.
    - apply sort_by_sorted; intros x; intros; [apply string_leb_total|by eapply string_leb_trans].
    - apply sort_by_sorted; intros x; intros; [apply string_leb_total|by eapply string_leb_trans].
    - by rewrite !sort_by_perm. }
  unfold hashPreviewInputs at 1 2 3. rewrite String.list_ascii_of_string_of_list_ascii.
  destruct (hashText_fnv (default "" (stringify (previewInputs feedId o policies)))) as [Hf Hb].
  destruct (hex_print 8 (hashText (default "" (stringify (previewInputs feedId o policies))))) as (Hl & Hx & Hv); [lia|done|].
  split_and!; [done|done|congruence|]. unfold hashPreviewInputs, previewInputs. by rewrite Hsort.
Qed.

Lemma preview_hash_spec_witness :
  let l := map policyOfRow (db_policies demoDb) in
  @hashPreviewInputs demoHost "depeg" (mkOverride "depeg" None true "f" "u") (rev l)
  = @hashPreviewInputs demoHost "depeg" (mkOverride "depeg" None true "f" "u") l.
Proof.
  cbv zeta. apply (@preview_hash_spec demoHost "depeg" (mkOverride "depeg" None true "f" "u") (map policyOfRow (db_policies demoDb))).
  - apply (bool_decide_unpack _). by vm_compute.
  - apply Permutation_rev.
Defined.

(** A live run does not evaluate "all active policies": those after the
    first [maxPolicies] (5000 by default) in id order are decided in no run, however
    often it is repeated, and nothing reports it; while every policy that triggers
    is decided again, with a new payout row, by each repetition. *)
Theorem live_run_truncates_and_repeats (dbLe : string -> string -> bool) (db : Db) (feed : FeedState) (now now' : Z)
    (Hids : NoDup (map pr_id (db_policies db)))
    (Hops : Forall (fun r => knownOperator (pr_operator r)) (db_policies db)) :
  let run db t := processClaims dbLe None db feed None t in
  let first := run db now in
  let second := run first.1 now' in
  first.2 = second.2 ∧
  (length (db_decisions second.1) + length (db_decisions db) = 2 * length (db_decisions first.1))%nat ∧
  match first.2 with
  | Err _ => False
  | Ok ds => (length ds <= 5000)%nat ∧
      (forall p, p ∈ drop 5000 (activePolicies dbLe db (fs_feedId feed)) -> pe_id p ∉ decidedIds ds) ∧
      (forall p, p ∈ take 5000 (activePolicies dbLe db (fs_feedId feed)) -> triggers feed p = true -> pe_id p ∈ decidedIds ds)
  end.
Proof.
  cbv beta zeta.
  assert (forall d t, processClaims dbLe None d feed None t = processClaims dbLe None d feed (Some 5000) t) as Hdef by done.
  rewrite !Hdef, !processClaims_spec by done. cbn [fst snd db_decisions].
  assert (decided dbLe (mkDb (db_policies db) (db_decisions db ++ map (rowOf feed now) (decided dbLe db feed 5000))) feed 5000
          = decided dbLe db feed 5000) as -> by done.
  split; [done|]. split; [rewrite !length_app, !length_map; lia|].
  rewrite !decidedIds_of. pose proof (activePolicies_ids dbLe db (fs_feedId feed) Hids) as Hd.
  set (l := activePolicies dbLe db (fs_feedId feed)) in *. unfold decided. fold l.
  change (Z.to_nat 5000) with 5000%nat. split_and!.
  - rewrite length_map. etransitivity; [apply length_filter|]. rewrite length_take. lia.
  - intros p Hp (q & E & [_ Hq]%list_elem_of_filter)%list_elem_of_fmap.
    rewrite <- (take_drop 5000 l), map_app in Hd. apply NoDup_app in Hd as (_ & Hn & _).
    apply (Hn (pe_id q)); [by apply (list_elem_of_fmap_2 pe_id)|]. rewrite <- E. by apply (list_elem_of_fmap_2 pe_id).
  - intros p Hp Ht. apply (list_elem_of_fmap_2 pe_id), list_elem_of_filter. done.
Qed.

Lemma live_run_truncates_and_repeats_witness :
  let feed := mkFeed "depeg" (Some 0.25%float) false in
  let first := processClaims string_leb None demoDb feed None 0 in
  first.2 = (processClaims string_leb None first.1 feed None 1).2 ∧ length (db_decisions first.1) = 2%nat.
Proof.
  cbv zeta. split; [|by vm_compute].
  apply (live_run_truncates_and_repeats string_leb demoDb (mkFeed "depeg" (Some 0.25%float) false) 0 1).
  - apply (bool_decide_unpack _). by vm_compute.
  - repeat constructor; apply (bool_decide_unpack _); by vm_compute.
Defined.
