(* ===== verification/Policies.v ===== *)
(** Policies from purchase to settlement: the policy service
    (src/policy/policy.service.ts), submission of the holder's signed transaction
    (src/tx/tx.service.ts) and the settlement transaction
    (src/claim/claim-settlement.service.ts).

    What the Stellar SDK does (building, preparing and hashing transactions, reading the
    pool's configuration) is the record [Chain]; the node that a transaction is sent to
    is that of file Confirmation.  A transaction is identified by its hash. *)

From stdpp Require Import base list strings sorting sets.
From Stdlib Require Import ZArith Lia Ascii Floats.
From S2P Require Import Prelude Decimal JsNum JsParse JsDate JsRegex Canonical Safeguards TriggerStability ClaimHold ClaimScan EventHandlers Confirmation.

#[local] Open Scope Z_scope.

(** * Catalogue

    The icons of the catalogue are left out. *)

Definition FLIGHT_DELAY_COVERAGE_TYPE : Z := 4.
Definition COVERAGE_TYPE_VARIANTS : list string :=
  ["StablecoinDepeg"; "MarketCrash"; "LiquidationShield"; "SmartContractRisk"; "FlightDelay"].
Definition TRIGGER_THRESHOLDS : list Z := [500; 3000; 500; 500; 120].
Definition RISK_MULTIPLIERS : list num := [1; 0x1.8p+0; 2; 3; 0x1.999999999999ap-1]%float.
Definition BASE_RATE_BPS_PARAM_KEY : string := "base_rate_bps".
Definition DEFAULT_BASE_RATE_BPS : num := 300%float.
Definition COVERAGE_NAMES : list string :=
  ["Stablecoin Depeg"; "Market Crash"; "Liquidation Shield"; "Smart Contract Risk"; "Flight Delay"].

Record CoverageTypeCatalogEntry := mkEntry {
  ce_id : Z; ce_name : string; ce_description : string; ce_riskLevel : string; ce_riskMultiplier : num; ce_baseRatePct : num;
  ce_maxCoverage : Z; ce_trigger : string; ce_available : bool; ce_requiredFeeds : list string; ce_unavailableReason : option string }.

Definition COVERAGE_TYPES : list CoverageTypeCatalogEntry :=
  [mkEntry 0 "Stablecoin Depeg" "Pays out if a major stablecoin depegs below $0.95" "medium" 1%float 3%float 100000
     "USDC price < $0.95 for 15+ minutes" true [] None;
   mkEntry 1 "Market Crash" "Covers catastrophic market downturns exceeding 30% in 24h" "high" 0x1.8p+0%float 0x1.2p+2%float 50000
     "Market index 24h return < -30%" true [] None;
   mkEntry 2 "Liquidation Shield" "Pays out if your DeFi position gets liquidated" "high" 2%float 6%float 200000
     "Collateral ratio drops below maintenance threshold" true [] None;
   mkEntry 3 "Smart Contract Risk" "Protection against smart contract exploits and hacks" "critical" 3%float 9%float 500000
     "Covered protocol TVL drops >50% in <1 hour" true [] None;
   mkEntry 4 "Flight Delay" "Automatic payout for flight delays over 2 hours" "low" 0x1.999999999999ap-1%float 0x1.3333333333333p+1%float 2000
     "Flight delayed > 120 minutes per AviationStack data" true [] None].

(** * State *)

Inductive ParamValue := PStr (s : string) | PNum (n : num) | PBool (b : bool).

Record Policy := mkStored {
  sp_id : string; sp_holder : string; sp_coverageType : Z; sp_coverageTypeName : string; sp_coverageAmount : string; sp_premium : string;
  sp_durationDays : Z; sp_expiresAt : Z; sp_isActive : bool; sp_createdAt : string; sp_triggerParams : option (list (string * ParamValue)) }.

Record PolicyService := mkPolicyService { ps_policies : list (string * Policy); ps_pendingBuys : list (string * Policy) }.
Definition newPolicyService : PolicyService := mkPolicyService [] [].

Record BuyPolicyDto := mkBuy {
  by_holder : string; by_coverageType : Z; by_coverageAmount : string; by_durationDays : Z; by_triggerParams : option (list (string * ParamValue)) }.

Record CoverageAvailability := mkAvailability {
  av_available : bool; av_requiredFeeds : list string; av_unavailableFeeds : list string; av_reason : option string }.

(** [buildPolicyParamsScVal] *)
Record PolicyParams := mkParams { pp_coverage_amount : Z; pp_coverage_type : string; pp_duration_days : Z; pp_trigger_threshold : Z }.

(** What a purchase asks of the SDK, the node and the process. *)
Record Chain := mkChain {
  ch_poolContractId : string;
  ch_poolConfig : option string -> res string (option (Z * Z));
  ch_prepare : string -> PolicyParams -> res string string;
  ch_hash : string -> string;
  ch_baseRateBps : option num;
  ch_availability : option (string -> CoverageAvailability);
  ch_nowMs : Z;
  ch_uuid : string }.

(** * Reading *)

Definition listTypes (availability : option (string -> CoverageAvailability)) : list CoverageTypeCatalogEntry :=
  map (fun e =>
    let a := f ← availability; v ← COVERAGE_TYPE_VARIANTS !! Z.to_nat (ce_id e); Some (f v) in
    mkEntry (ce_id e) (ce_name e) (ce_description e) (ce_riskLevel e) (ce_riskMultiplier e) (ce_baseRatePct e) (ce_maxCoverage e) (ce_trigger e)
      (match a with Some v => av_available v | None => true end) (match a with Some v => av_requiredFeeds v | None => [] end) (a ≫= av_reason))
    COVERAGE_TYPES.

Definition findByHolder (address : string) (s : PolicyService) : list Policy := filter (fun p => sp_holder p = address) (jm_values (ps_policies s)).
Definition findById (id : string) (s : PolicyService) : option Policy := jm_get (ps_policies s) id.
Definition nowSeconds (nowMs : Z) : Z := nowMs / 1000.
Definition listActivePolicies (nowMs : Z) (s : PolicyService) : list Policy :=
  filter (fun p => sp_isActive p = true ∧ nowSeconds nowMs < sp_expiresAt p) (jm_values (ps_policies s)).
Definition getExpiredActive (nowMs : Z) (s : PolicyService) : list Policy :=
  filter (fun p => sp_isActive p = true ∧ sp_expiresAt p <= nowSeconds nowMs) (jm_values (ps_policies s)).

Definition withActive (active : bool) (p : Policy) : Policy :=
  mkStored (sp_id p) (sp_holder p) (sp_coverageType p) (sp_coverageTypeName p) (sp_coverageAmount p) (sp_premium p) (sp_durationDays p)
    (sp_expiresAt p) active (sp_createdAt p) (sp_triggerParams p).
Definition withId (id : string) (p : Policy) : Policy :=
  mkStored id (sp_holder p) (sp_coverageType p) (sp_coverageTypeName p) (sp_coverageAmount p) (sp_premium p) (sp_durationDays p)
    (sp_expiresAt p) (sp_isActive p) (sp_createdAt p) (sp_triggerParams p).

Definition deactivatePolicy (id : string) (s : PolicyService) : PolicyService :=
  match jm_get (ps_policies s) id with
  | Some p => mkPolicyService (jm_set (ps_policies s) id (withActive false p)) (ps_pendingBuys s)
  | None => s
  end.

(** * Activation *)

Definition U64_MAX : Z := 18446744073709551615.

(** [scValToNative] of a u64 is a bigint. *)
Definition activateFromBuyConfirmation (txHash : string) (returnValue : option ScVal) (s : PolicyService) : option string * PolicyService :=
  match jm_get (ps_pendingBuys s) txHash with
  | None => (None, s)
  | Some pending =>
      let s' := mkPolicyService (ps_policies s) (jm_delete (ps_pendingBuys s) txHash) in
      match returnValue with
      | Some (ScU64 n) =>
          let policyId := showZ n in
          if (U64_MAX <? n) || jm_has (ps_policies s') policyId then (None, s')
          else (Some policyId, mkPolicyService (jm_set (ps_policies s') policyId (withActive true (withId policyId pending))) (ps_pendingBuys s'))
      | _ => (None, s')
      end
  end.

(** * Purchase *)

Definition onChainCoverageBounds (chain : Chain) (holder : option string) : res string (option (Z * Z)) :=
  if bool_decide (ch_poolContractId chain = "") then Ok None
  else match ch_poolConfig chain holder with
    | Ok b => Ok b
    | Err m => Err ("Failed to read pool config: " +:+ m)
    end.

Definition buildUnsignedBuyInvoke (chain : Chain) (holder : string) (params : PolicyParams) : res string string :=
  if bool_decide (ch_poolContractId chain = "") then Err "Pool contract not configured (missing REFRACT_POOL_CONTRACT_ID)"
  else match ch_prepare chain holder params with
    | Ok xdr => Ok xdr
    | Err m => Err ("Failed to build Soroban transaction: " +:+ m)
    end.

Definition baseRateBps (chain : Chain) : num := default DEFAULT_BASE_RATE_BPS (ch_baseRateBps chain).

(** [BigInt(Math.floor(Number(coverage) * premiumFraction))] *)
Definition premiumOf (baseRate multiplier : num) (durationDays coverage : Z) : res string Z :=
  let annualRate := (baseRate / 10000 * multiplier)%float in
  let dailyRate := (annualRate / 365)%float in
  let premiumFraction := (dailyRate * num_of_Z durationDays)%float in
  match floor_to_Z (num_of_Z coverage * premiumFraction)%float with
  | Some z => Ok z
  | None => Err "RangeError: the number cannot be converted to a BigInt because it is not an integer"
  end.

Definition isString (v : option ParamValue) : bool := match v with Some (PStr _) => true | _ => false end.

(** [COVERAGE_TYPES[coverageType]] *)
Definition indexed {A} (l : list A) (i : Z) : option A := if i <? 0 then None else l !! Z.to_nat i.

(** The coverage a purchase may ask for. *)
Definition checkCoverage (chain : Chain) (dto : BuyPolicyDto) (entry : CoverageTypeCatalogEntry) : res string Z :=
  coverage ← match bigIntOfText (String.list_ascii_of_string (by_coverageAmount dto)) with
    | Some c => Ok c
    | None => Err ("SyntaxError: Cannot convert " +:+ by_coverageAmount dto +:+ " to a BigInt")
    end;
  _ ← guard_res (0 <? coverage) "coverageAmount must be greater than zero";
  _ ← guard_res (coverage <=? ce_maxCoverage entry * 10000000)
        ("coverageAmount exceeds the " +:+ default "undefined" (indexed COVERAGE_NAMES (by_coverageType dto)) +:+ " maximum of " +:+ showZ (ce_maxCoverage entry) +:+ " USDC");
  bounds ← onChainCoverageBounds chain (Some (by_holder dto));
  match bounds with
  | Some (lo, hi) =>
      _ ← guard_res ((lo <=? coverage) && (coverage <=? hi))
        ("coverageAmount must be between " +:+ showZ lo +:+ " and " +:+ showZ hi +:+ " (pool contract units) per the pool's current configuration");
      Ok coverage
  | None => Ok coverage
  end.

(** [buildBuy] up to its last effect: the policy and the unsigned transaction. *)
Definition purchase (chain : Chain) (dto : BuyPolicyDto) : res string (Policy * string) :=
  entry ← match indexed COVERAGE_TYPES (by_coverageType dto) with Some e => Ok e | None => Err "coverageType must be between 0 and 4" end;
  _ ← guard_res (match f ← ch_availability chain; v ← indexed COVERAGE_TYPE_VARIANTS (by_coverageType dto); Some (f v) with
                 | Some a => av_available a | None => true end) (ce_name entry +:+ " coverage is unavailable");
  _ ← guard_res (negb (by_coverageType dto =? FLIGHT_DELAY_COVERAGE_TYPE)
                 || isString (ps ← by_triggerParams dto; jm_get ps "flightNumber")) "Flight Delay coverage requires triggerParams.flightNumber";
  coverage ← checkCoverage chain dto entry;
  premium ← premiumOf (baseRateBps chain) (default PrimFloat.nan (indexed RISK_MULTIPLIERS (by_coverageType dto))) (by_durationDays dto) coverage;
  createdAt ← toISOString (ch_nowMs chain);
  let policy := mkStored (ch_uuid chain) (by_holder dto) (by_coverageType dto) (default "undefined" (indexed COVERAGE_NAMES (by_coverageType dto)))
    (by_coverageAmount dto) (showZ premium) (by_durationDays dto) (nowSeconds (ch_nowMs chain) + by_durationDays dto * 86400) false createdAt (by_triggerParams dto) in
  let params := mkParams coverage (default "undefined" (indexed COVERAGE_TYPE_VARIANTS (by_coverageType dto))) (by_durationDays dto)
    (default 0 (indexed TRIGGER_THRESHOLDS (by_coverageType dto))) in
  txXdr ← buildUnsignedBuyInvoke chain (by_holder dto) params;
  Ok (policy, txXdr).

Definition buildBuy (chain : Chain) (dto : BuyPolicyDto) (storePolicy : bool) (s : PolicyService) : res string (Policy * string) * PolicyService :=
  match purchase chain dto with
  | Ok (policy, txXdr) =>
      (Ok (policy, txXdr), if storePolicy then mkPolicyService (ps_policies s) (jm_set (ps_pendingBuys s) (ch_hash chain txXdr) policy) else s)
  | Err e => (Err e, s)
  end.

Definition buy (chain : Chain) (dto : BuyPolicyDto) : PolicyService -> res string (Policy * string) * PolicyService := buildBuy chain dto true.
Definition simulateBuy (chain : Chain) (dto : BuyPolicyDto) : PolicyService -> res string (Policy * string) * PolicyService := buildBuy chain dto false.

(** * Submission of a signed transaction *)

(** How a submission goes: malformed text, a failing or answered send, and the node. *)
Record Submission := mkSubmission {
  su_wellFormed : bool; su_send : res string SendResult; su_node : Node; su_sentAt : Z; su_pollOptions : PollOptions }.

(** [None]: a bad request, or a poll out of fuel. *)
Definition txSubmit (sub : Submission) (s : PolicyService) : option (ConfirmationResult * option string) * PolicyService :=
  if negb (su_wellFormed sub) then (None, s)
  else match su_send sub with
  | Err m => (Some (mkConfirmation false FailedOnChain "" (Some m) None, None), s)
  | Ok r =>
      match sr_status r with
      | SendError | SendTryAgainLater =>
          (Some (mkConfirmation false FailedOnChain (sr_hash r) (Some ("Submission not accepted: " +:+ statusText (sr_status r))) None, None), s)
      | _ =>
          match pollForConfirmation (su_node sub) (sr_hash r) (su_pollOptions sub) (su_sentAt sub) with
          | None => (None, s)
          | Some (c, _, _) =>
              if bool_decide (cf_outcome c = Success)
              then let '(activated, s') := activateFromBuyConfirmation (cf_txHash c) (cf_returnValue c) s in (Some (c, activated), s')
              else (Some (c, None), s)
          end
      end
  end.

(** * Settlement *)

(** [contract.call(name, ...args)] *)
Record Invocation := mkInvocation { iv_contract : string; iv_function : string; iv_args : list ScVal }.
Definition processClaim (poolContractId : string) (id : Z) : Invocation := mkInvocation poolContractId "process_claim" [ScU64 id].

Record SettlementEnv := mkSettlementEnv {
  st_poolContractId : string; st_relayerSecret : string; st_relayerSecretId : string;
  st_awsSecret : res string string;
  (** [Keypair.fromSecret], [getAccount], building, preparing and signing a
      transaction with that one invocation: the signed transaction. *)
  st_prepare : string -> Invocation -> res string string;
  (** [sendTransaction] of a signed transaction. *)
  st_send : string -> res string SendResult; st_rawError : string; st_node : Node; st_sentAt : Z }.

Record SettlementReport := mkReport { rp_settled : bool; rp_txHash : option string; rp_error : option string; rp_code : option string }.

Definition isConfigured (e : SettlementEnv) : bool :=
  negb (bool_decide (st_poolContractId e = ""))
  && (negb (bool_decide (st_relayerSecret e = "")) || negb (bool_decide (st_relayerSecretId e = ""))).

(** [loadSecretFromAws] *)
Definition loadSecretFromAws (e : SettlementEnv) : res string string :=
  if bool_decide (st_relayerSecretId e = "") then Ok "" else st_awsSecret e.
Definition resolveSecret (e : SettlementEnv) : res string string :=
  if bool_decide (st_relayerSecret e = "") then loadSecretFromAws e else Ok (st_relayerSecret e).

(** [/^\d+$/.test(id) && BigInt(id) <= 2n ** 64n - 1n] *)
Definition onChainId (policyId : string) : option Z :=
  let t := String.list_ascii_of_string policyId in
  if negb (bool_decide (t = [])) && all_digits t && (dec_val t <=? U64_MAX) then Some (dec_val t) else None.

Definition requestFailed : SettlementReport :=
  mkReport false None (Some "The Soroban request failed. Please retry later or contact support.") (Some "SOROBAN_REQUEST_FAILED").

Definition refused (s : SendStatus) : bool :=
  match s with SendError | SendTryAgainLater => true | SendOther t => bool_decide (t = "FAILED") | _ => false end.

(** [None]: a poll out of fuel. *)
Definition settleClaim (e : SettlementEnv) (policyId : string) : option SettlementReport :=
  if negb (isConfigured e)
  then Some (mkReport false None (Some "Soroban relayer not configured (missing REFRACT_POOL_CONTRACT_ID or ORACLE_RELAYER_SECRET / ORACLE_RELAYER_SECRET_ID)") None)
  else match onChainId policyId with
  | None => Some (mkReport false None (Some "Policy ID must be an on-chain u64") None)
  | Some id =>
      match resolveSecret e with
      | Err _ => Some requestFailed
      | Ok secret =>
          if bool_decide (secret = "") then Some (mkReport false None (Some "Soroban relayer not configured (missing relayer secret)") None)
          else match st_prepare e secret (processClaim (st_poolContractId e) id) with
          | Err _ => Some requestFailed
          | Ok preparedTx =>
              match st_send e preparedTx with
              | Err _ => Some requestFailed
              | Ok r =>
                  if refused (sr_status r)
                  then let d := decodeSorobanError (st_rawError e) in Some (mkReport false (Some (sr_hash r)) (Some (sb_error d)) (Some (sb_code d)))
                  else match pollForConfirmation (st_node e) (sr_hash r) DEFAULT_CONFIRMATION_POLL (st_sentAt e) with
                    | Some (c, _, _) => Some (mkReport (cf_confirmed c) (Some (cf_txHash c)) (cf_error c) None)
                    | None => None
                    end
              end
          end
      end
  end.

(** * Runs of the service *)

Inductive Command :=
| CBuy (chain : Chain) (dto : BuyPolicyDto) | CSimulate (chain : Chain) (dto : BuyPolicyDto) | CSubmit (sub : Submission) | CDeactivate (id : string).

Definition exec (s : PolicyService) (c : Command) : PolicyService :=
  match c with
  | CBuy chain dto => (buy chain dto s).2
  | CSimulate chain dto => (simulateBuy chain dto s).2
  | CSubmit sub => (txSubmit sub s).2
  | CDeactivate id => deactivatePolicy id s
  end.
Definition runCommands (cmds : list Command) : PolicyService := foldl exec newPolicyService cmds.

(** Command [c] is a purchase that built transaction [h] for policy [q]. *)
Definition purchased (c : Command) (h : string) (q : Policy) : Prop :=
  ∃ chain dto xdr, c = CBuy chain dto ∧ purchase chain dto = Ok (q, xdr) ∧ h = ch_hash chain xdr.

(** Command [c] submitted transaction [h] and the node reported its success with the
    return value [n]. *)
Definition confirmedBy (c : Command) (h : string) (n : Z) : Prop :=
  ∃ sub r k, c = CSubmit sub ∧ su_send sub = Ok r ∧ sr_hash r = h ∧
    nd_getTransaction (su_node sub) h k = Some (StSuccess (Some (ScU64 n))).

(** The coverage a sold policy has. *)
Definition coverageSold (q : Policy) : Prop :=
  ∃ entry c, indexed COVERAGE_TYPES (sp_coverageType q) = Some entry ∧
    bigIntOfText (String.list_ascii_of_string (sp_coverageAmount q)) = Some c ∧ 0 < c <= ce_maxCoverage entry * 10000000.

Lemma guard_res_Ok {E} b (e : E) u : guard_res b e = Ok u -> b = true.
Proof. by destruct b. Qed.

Lemma checkCoverage_spec chain dto entry c :
  checkCoverage chain dto entry = Ok c ->
  bigIntOfText (String.list_ascii_of_string (by_coverageAmount dto)) = Some c ∧ 0 < c <= ce_maxCoverage entry * 10000000 ∧
  match onChainCoverageBounds chain (Some (by_holder dto)) with Ok (Some (lo, hi)) => lo <= c <= hi | Ok None => True | Err _ => False end.
Proof.
  unfold checkCoverage. intros (c0 & Hc & H)%res_bind_Ok. destruct (bigIntOfText _) as [c1|] eqn:Eb; [|done]. injection Hc as ->.
  apply res_bind_Ok in H as (? & H1%guard_res_Ok%Z.ltb_lt & H). apply res_bind_Ok in H as (? & H2%guard_res_Ok%Z.leb_le & H).
  apply res_bind_Ok in H as (bounds & Hb & H). destruct bounds as [[lo hi]|].
  - apply res_bind_Ok in H as (? & H3%guard_res_Ok & [= ->]). apply andb_true_iff in H3 as [?%Z.leb_le ?%Z.leb_le]. rewrite Hb. done.
  - injection H as ->. by rewrite Hb.
Qed.

Lemma purchase_coverage chain dto q xdr : purchase chain dto = Ok (q, xdr) -> coverageSold q ∧ sp_isActive q = false.
Proof.
  unfold purchase. intros (entry & He & H)%res_bind_Ok. destruct (indexed COVERAGE_TYPES (by_coverageType dto)) as [e|] eqn:Ei; [|done]. injection He as ->.
  apply res_bind_Ok in H as (? & _ & H). apply res_bind_Ok in H as (? & _ & H). apply res_bind_Ok in H as (c & (Hc & Hb & _)%checkCoverage_spec & H).
  apply res_bind_Ok in H as (premium & _ & H). apply res_bind_Ok in H as (created & _ & H). apply res_bind_Ok in H as (tx & _ & H).
  injection H as <- <-. split; [|done]. by exists entry, c.
Qed.

(** Where the entries of the service come from. *)
Definition pendingFrom (cmds : list Command) (h : string) (q : Policy) : Prop := ∃ i c, cmds !! i = Some c ∧ purchased c h q.
Definition activeFrom (cmds : list Command) (id : string) (p : Policy) : Prop :=
  ∃ i j ci cj h q n b, (i < j)%nat ∧ cmds !! i = Some ci ∧ purchased ci h q ∧ cmds !! j = Some cj ∧ confirmedBy cj h n ∧
    n <= U64_MAX ∧ id = showZ n ∧ p = withActive b (withId id q).

Record traced (cmds : list Command) (s : PolicyService) : Prop := {
  tc_keys : NoDup (jm_keys (ps_policies s));
  tc_pendingKeys : NoDup (jm_keys (ps_pendingBuys s));
  tc_pending : forall h q, jm_get (ps_pendingBuys s) h = Some q -> pendingFrom cmds h q;
  tc_active : forall id p, jm_get (ps_policies s) id = Some p -> activeFrom cmds id p }.

Lemma pendingFrom_snoc cmds c h q : pendingFrom cmds h q -> pendingFrom (cmds ++ [c]) h q.
Proof. intros (i & ci & Hi & H). exists i, ci. split; [by apply lookup_app_l_Some|done]. Qed.
Lemma activeFrom_snoc cmds c id p : activeFrom cmds id p -> activeFrom (cmds ++ [c]) id p.
Proof.
  intros (i & j & ci & cj & h & q & n & b & Hlt & Hi & Hp & Hj & Hc & H). exists i, j, ci, cj, h, q, n, b.
  split_and!; [done|by apply lookup_app_l_Some|done|by apply lookup_app_l_Some|done|apply H|apply H|apply H].
Qed.
Lemma traced_snoc cmds c s : traced cmds s -> traced (cmds ++ [c]) s.
Proof. intros [H1 H2 H3 H4]. split; [done|done|intros; by apply pendingFrom_snoc, H3|intros; by apply activeFrom_snoc, H4]. Qed.

Lemma traced_buy cmds s chain dto : traced cmds s -> traced (cmds ++ [CBuy chain dto]) (buy chain dto s).2.
Proof.
  intros Ht. unfold buy, buildBuy. destruct (purchase chain dto) as [[q xdr]|e] eqn:E; [|by apply traced_snoc].
  destruct (traced_snoc _ (CBuy chain dto) _ Ht) as [H1 H2 H3 H4]. split; cbn; [done|by apply jm_set_NoDup| |done].
  intros h q'. rewrite jm_get_set. case_decide as Hh; [|apply H3]. intros [= <-].
  exists (length cmds), (CBuy chain dto). split; [by apply list_lookup_middle|]. subst h. by exists chain, dto, xdr.
Qed.

Lemma traced_activate cmds s c h v :
  traced cmds s -> (forall n, v = Some (ScU64 n) -> confirmedBy c h n) -> traced (cmds ++ [c]) (activateFromBuyConfirmation h v s).2.
Proof.
  intros Ht Hv. unfold activateFromBuyConfirmation. destruct (jm_get (ps_pendingBuys s) h) as [q|] eqn:Eq; [|by apply traced_snoc].
  set (s' := mkPolicyService _ (jm_delete _ _)). assert (traced (cmds ++ [c]) s') as Hs'.
  { destruct (traced_snoc _ c _ Ht) as [H1 H2 H3 H4]. split; cbn; [done|by apply jm_delete_NoDup| |done].
    intros h' q' Hg. apply H3. destruct (decide (h = h')) as [<-|Hne]; [by rewrite jm_get_delete_eq in Hg|by rewrite jm_get_delete_ne in Hg]. }
  destruct v as [[n|name]|]; [|done..]. destruct (U64_MAX <? n) eqn:Hn; [done|]. apply Z.ltb_ge in Hn. cbn [orb].
  destruct (jm_has (ps_policies s') (showZ n)) eqn:Hh; [done|].
  destruct Hs' as [H1 H2 H3 H4]. split; cbn; [by apply jm_set_NoDup|done|done|].
  intros id p. rewrite jm_get_set. case_decide as Hid; [|apply H4]. intros [= <-]. subst id.
  destruct (tc_pending _ _ Ht h q Eq) as (i & ci & Hi & Hp). exists i, (length cmds), ci, c, h, q, n, true.
  split_and!; [by apply lookup_lt_Some in Hi|by apply lookup_app_l_Some|done|by apply list_lookup_middle|by apply Hv|done|done|done].
Qed.

Lemma poll_success node h o now c k t :
  pollForConfirmation node h o now = Some (c, k, t) -> cf_outcome c = Success ->
  cf_txHash c = h ∧ ∃ j, nd_getTransaction node h j = Some (StSuccess (cf_returnValue c)).
Proof.
  intros Hp Ho. assert (pollSpec node h (now + pl_deadlineMs o) c k t) as [Hh _ _ Hout] by (eapply pollLoop_spec; [|exact Hp]; lia).
  rewrite Ho in Hout. split; [done|]. exists (pred k). apply Hout.
Qed.

Lemma traced_submit cmds s sub : traced cmds s -> traced (cmds ++ [CSubmit sub]) (txSubmit sub s).2.
Proof.
  intros Ht. pose proof (traced_snoc _ (CSubmit sub) _ Ht) as Hsame. unfold txSubmit. destruct (su_wellFormed sub); [|done].
  cbn [negb]. destruct (su_send sub) as [r|m] eqn:Es; [|done].
  assert (traced (cmds ++ [CSubmit sub]) (match pollForConfirmation (su_node sub) (sr_hash r) (su_pollOptions sub) (su_sentAt sub) with
    | None => (None, s)
    | Some (c, _, _) => if bool_decide (cf_outcome c = Success)
        then let '(activated, s') := activateFromBuyConfirmation (cf_txHash c) (cf_returnValue c) s in (Some (c, activated), s') else (Some (c, None), s)
    end).2) as Hpoll; [|by destruct (sr_status r)].
  destruct (pollForConfirmation _ _ _ _) as [[[c k] t]|] eqn:Ep; [|done]. case_bool_decide as Ho; [|done].
  destruct (poll_success _ _ _ _ _ _ _ Ep Ho) as [Hh [j Hj]].
  pose proof (traced_activate cmds s (CSubmit sub) (cf_txHash c) (cf_returnValue c) Ht) as Hact.
  destruct (activateFromBuyConfirmation _ _ _) as [act s']. apply Hact. intros n Hn. exists sub, r, j.
  split_and!; [done|done|done|]. by rewrite Hh, Hj, Hn.
Qed.

Lemma traced_deactivate cmds s c id : traced cmds s -> traced (cmds ++ [c]) (deactivatePolicy id s).
Proof.
  intros Ht. unfold deactivatePolicy. destruct (jm_get (ps_policies s) id) as [p|] eqn:Ep; [|by apply traced_snoc].
  destruct (traced_snoc _ c _ Ht) as [H1 H2 H3 H4]. split; cbn; [by apply jm_set_NoDup|done|done|].
  intros id' p'. rewrite jm_get_set. case_decide as Hid; [|apply H4]. intros [= <-]. subst id'.
  destruct (H4 id p Ep) as (i & j & ci & cj & h & q & n & b & Hlt & Hi & Hp & Hj & Hc & Hn & Eid & ->).
  exists i, j, ci, cj, h, q, n, false. done.
Qed.

Lemma traced_run cmds : traced cmds (runCommands cmds).
Proof.
  induction cmds as [|c cmds IH] using rev_ind; [split; cbn; [constructor|constructor|done|done]|].
  unfold runCommands. rewrite foldl_app. cbn [foldl]. fold (runCommands cmds).
  destruct c as [chain dto|chain dto|sub|id]; cbn [exec];
    [by apply traced_buy| |by apply traced_submit|by apply traced_deactivate].
  unfold simulateBuy, buildBuy. destruct (purchase chain dto) as [[q xdr]|e]; by apply traced_snoc.
Qed.

(** The claim scan's view of a policy, and that both lists of active policies agree. *)
Definition paramText (key : string) (p : Policy) : option string :=
  match ps ← sp_triggerParams p; jm_get ps key with Some (PStr t) => Some t | _ => None end.
Definition toScan (p : Policy) : StoredPolicy :=
  ClaimScan.mkPolicy (sp_id p) (sp_holder p) (sp_coverageType p) (default 0 (bigIntOfText (String.list_ascii_of_string (sp_coverageAmount p))))
    (sp_expiresAt p) (sp_isActive p) (paramText "flightNumber" p) (paramText "protocolSlug" p).
Definition scanView (s : PolicyService) : list (string * StoredPolicy) := (fun kv => (kv.1, toScan kv.2)) <$> ps_policies s.

Lemma scanView_listActive nowMs s : listActive (nowSeconds nowMs) (scanView s) = map toScan (listActivePolicies nowMs s).
Proof.
  unfold listActive, listActivePolicies, jm_values, scanView. rewrite <- list_fmap_compose.
  rewrite <- (filter_map_comm toScan (fun p => po_isActive p = true ∧ nowSeconds nowMs < po_expiresAt p)) by done.
  f_equal. induction (ps_policies s) as [|[k p] l IH]; [done|]. cbn. by f_equal.
Qed.

(** The purchases and scans agree on deactivation. *)
Lemma scanView_deactivate id s : scanView (deactivatePolicy id s) = deactivate id (scanView s).
Proof.
  unfold scanView, deactivatePolicy, deactivate. destruct s as [ps pend]. cbn [ps_policies ps_pendingBuys].
  assert (jm_get ((fun kv => (kv.1, toScan kv.2)) <$> ps) id = toScan <$> jm_get ps id) as ->.
  { induction ps as [|[k p] l IH]; [done|]. cbn. by destruct (decide (id = k)). }
  destruct (jm_get ps id) as [p|]; [|done]. cbn [fmap option_fmap option_map ps_policies].
  induction ps as [|[k p'] l IH]; [done|]. cbn. destruct (decide (id = k)); cbn; [done|]. by f_equal.
Qed.

(** * Settlement *)

Definition settlementResult (r : option SettlementReport) : SettlementResult :=
  match r with
  | Some r => mkSettlement (rp_settled r) (rp_txHash r) (rp_error r)
  | None => mkSettlement false None None
  end.

(** The node reported the success of the settlement transaction of [policyId]: the
    transaction signed with the relayer's secret that calls [process_claim] of the pool
    contract with the policy's on-chain id was sent, the node took it, and the hash it
    gave for it is the one reported successful. *)
Definition settledOnChain (e : SettlementEnv) (policyId : string) : Prop :=
  ∃ n secret tx r j v, onChainId policyId = Some n ∧ 0 <= n <= U64_MAX ∧ resolveSecret e = Ok secret ∧
    st_prepare e secret (processClaim (st_poolContractId e) n) = Ok tx ∧
    st_send e tx = Ok r ∧ refused (sr_status r) = false ∧
    nd_getTransaction (st_node e) (sr_hash r) j = Some (StSuccess v).

Lemma dec_val_nonneg t : all_digits t = true -> 0 <= dec_val t.
Proof.
  unfold dec_val. assert (forall acc, 0 <= acc -> all_digits t = true -> 0 <= foldl (fun a c => 10 * a + digit_val c) acc t) as H; [|intros; by apply H].
  induction t as [|c t IH]; intros acc Ha Hd; [done|]. cbn in Hd. apply andb_true_iff in Hd as [Hc Hd]. apply IH; [|done].
  unfold is_digit in Hc. unfold digit_val. apply bool_decide_eq_true in Hc. lia.
Qed.

Lemma onChainId_range policyId n : onChainId policyId = Some n -> 0 <= n <= U64_MAX.
Proof.
  unfold onChainId. destruct (_ && _) eqn:E; [|done]. intros [= <-]. apply andb_true_iff in E as [[_ Hd]%andb_true_iff Hn%Z.leb_le].
  split; [by apply dec_val_nonneg|done].
Qed.

Lemma settleClaim_spec e policyId r : settleClaim e policyId = Some r -> rp_settled r = true -> settledOnChain e policyId.
Proof.
  unfold settleClaim. destruct (isConfigured e); [|by intros [= <-]]. cbn [negb].
  destruct (onChainId policyId) as [n|] eqn:En; [|by intros [= <-]]. destruct (resolveSecret e) as [secret|] eqn:Er; [|by intros [= <-]].
  case_bool_decide; [by intros [= <-]|]. destruct (st_prepare e secret _) as [tx|] eqn:Et; [|by intros [= <-]].
  destruct (st_send e tx) as [sr|] eqn:Es; [|by intros [= <-]]. destruct (refused (sr_status sr)) eqn:Ef; [by intros [= <-]|].
  destruct (pollForConfirmation _ _ _ _) as [[[c k] t]|] eqn:Ep; [|done]. intros [= <-]. cbn. intros Hc.
  assert (pollSpec (st_node e) (sr_hash sr) (st_sentAt e + pl_deadlineMs DEFAULT_CONFIRMATION_POLL) c k t) as [_ Hconf _ _]
    by (eapply pollLoop_spec; [|exact Ep]; lia).
  destruct (poll_success _ _ _ _ _ _ _ Ep (proj1 Hconf Hc)) as [_ [j Hj]].
  pose proof (onChainId_range _ _ En). exists n, secret, tx, sr, j, (cf_returnValue c). by split_and!; try lia.
Qed.

(** * Theorems *)

(** C10: a policy is in the service only if an earlier purchase built its transaction
    and a later submission saw that transaction succeed with the policy's u64 id as its
    return value; its terms are those of the purchase, its coverage positive and within
    the catalogue's maximum; and ids are never shared. *)
Theorem policy_needs_confirmed_purchase cmds id p :
  findById id (runCommands cmds) = Some p ->
  activeFrom cmds id p ∧ coverageSold p ∧ NoDup (jm_keys (ps_policies (runCommands cmds))).
Proof.
  destruct (traced_run cmds) as [Hk _ _ Ha]. intros Hf. pose proof (Ha id p Hf) as Hact. split; [done|]. split; [|done].
  destruct Hact as (i & j & ci & cj & h & q & n & b & _ & _ & (chain & dto & xdr & _ & Hp & _) & _ & _ & _ & _ & ->).
  destruct (purchase_coverage _ _ _ _ Hp) as [(entry & c & H1 & H2 & H3) _]. by exists entry, c.
Qed.

Definition demoChain : Chain :=
  mkChain "CPOOL" (fun _ => Ok (Some (1, 1000000000000))) (fun holder _ => Ok ("xdr:" +:+ holder)) (fun xdr => "hash:" +:+ xdr) None None 0 "uuid".
Definition demoDto : BuyPolicyDto := mkBuy "GHOLDER" 0 "500000000" 30 None.
Definition demoSubmission : Submission :=
  mkSubmission true (Ok (mkSend SendPending "hash:xdr:GHOLDER" None)) demoNode 0 DEFAULT_CONFIRMATION_POLL.
Definition demoCommands : list Command := [CBuy demoChain demoDto; CSubmit demoSubmission].
Lemma policy_needs_confirmed_purchase_witness :
  ∃ p, findById "7" (runCommands demoCommands) = Some p ∧ sp_isActive p = true ∧ activeFrom demoCommands "7" p.
Proof.
  assert (∃ p, findById "7" (runCommands demoCommands) = Some p ∧ sp_isActive p = true) as (p & Hf & Ha) by (eexists; split; vm_compute; reflexivity).
  exists p. split; [exact Hf|]. split; [exact Ha|]. apply (policy_needs_confirmed_purchase demoCommands "7" p Hf).
Defined.

(** The scan's environment with settlement through this service. *)
Definition withSettlement (se : StoredPolicy -> SettlementEnv) (env : ScanEnv) : ScanEnv :=
  mkEnv (en_nowSeconds env) (en_fetchedAt env) (en_evaluatedAt env) (en_nowMs env) (en_reading env) (en_decide env) (en_paused env) (en_trust env)
    (en_breakerReadable env) (en_breakerWritable env) (fun p => settlementResult (settleClaim (se p) (po_id p))).

(** C8: with settlement through the settlement service, a scan records a payment of a
    policy only when the policy's id is an on-chain u64, the transaction sent is the one
    prepared for [process_claim] of the pool contract with exactly that id, the node
    took it, and the node reported success for the hash it gave for that transaction. *)
Theorem payment_confirmed_on_chain `{JsHost} `{ConsensusSvc} holdService holdMaxDurationMs pow2 toFixed2 rules overrides holdOnUntrustedFeed
    (se : StoredPolicy -> SettlementEnv) (env : ScanEnv) (p : StoredPolicy) (s : ScanState) :
  let s' := (scanPolicy holdService holdMaxDurationMs pow2 toFixed2 rules overrides holdOnUntrustedFeed (withSettlement se env) p s).2 in
  cs_paid s' = cs_paid s ∨ settledOnChain (se p) (po_id p).
Proof.
  intros s'. destruct (scanPolicy_cases holdService holdMaxDurationMs pow2 toFixed2 rules overrides holdOnUntrustedFeed (withSettlement se env) p s s' eq_refl)
    as [[Hs _]|[_ Hg]]; [by left|right].
  pose proof (gd_settled _ _ _ _ _ _ _ _ _ _ Hg) as Hset. cbn in Hset.
  destruct (settleClaim (se p) (po_id p)) as [r|] eqn:E; [|done]. by eapply settleClaim_spec.
Qed.

(** A congested node's answer is reported as a failure on chain, the state unchanged:
    the outcome's documentation reserves that for a transaction that must not be sent
    again. *)
Lemma congestion_reported_as_failure sub r s :
  su_wellFormed sub = true -> su_send sub = Ok r -> sr_status r = SendTryAgainLater ->
  ∃ c, txSubmit sub s = (Some (c, None), s) ∧ cf_outcome c = FailedOnChain ∧ cf_txHash c = sr_hash r.
Proof. intros Hw Hs Hst. unfold txSubmit. rewrite Hw, Hs, Hst. cbn. eauto. Qed.

(** A purchase that landed while the poll timed out is lost: a second submission of the
    same transaction is refused by the node, and no policy becomes active. *)
Definition silentNode : Node := mkNode (fun _ _ => Some StOther) (fun _ => 1000) (fun _ _ => 10000) (fun _ => 0%float) (fun _ => false) (fun _ => false).
Definition lostCommands : list Command :=
  [CBuy demoChain demoDto; CSubmit (mkSubmission true (Ok (mkSend SendPending "hash:xdr:GHOLDER" None)) silentNode 0 DEFAULT_CONFIRMATION_POLL);
   CSubmit (mkSubmission true (Ok (mkSend SendError "hash:xdr:GHOLDER" (Some (Ok "txBadSeq")))) demoNode 40000 DEFAULT_CONFIRMATION_POLL)].
Lemma landed_purchase_lost :
  ps_policies (runCommands lostCommands) = [] ∧ jm_has (ps_pendingBuys (runCommands lostCommands)) "hash:xdr:GHOLDER" = true.
Proof. vm_compute. done. Qed.

(** A settlement whose poll times out counts as a failed one: the policy stays active
    and the next scan sends a second transaction, without asking about the first. *)
Definition demoSettlement (hash : string) (node : Node) : SettlementEnv :=
  mkSettlementEnv "CPOOL" "SECRET" "" (Ok "") (fun _ _ => Ok "xdr") (fun _ => Ok (mkSend SendPending hash None)) "" node 0.
Definition settlingEnv (t : Z) (hash : string) (node : Node) : ScanEnv := withSettlement (fun _ => demoSettlement hash node) (ClaimScan.demoEnv t 0.75%float).
Lemma timed_out_settlement_sent_again :
  let s1 := demoRun [settlingEnv 1 "h1" silentNode] (demoScan (fun _ => true) []) in
  let s2 := demoRun [settlingEnv 2 "h2" demoNode] s1 in
  cs_paid s1 = [] ∧ length (listActive 2 (cs_policies s1)) = 1%nat ∧
  cl_settlementTxHash <$> cs_history s2 = [Some "h2"] ∧ cs_paid s2 = [("1", 500)].
Proof. vm_compute. done. Qed.
