(* ===== verification/Relayer.v ===== *)
(** The relayer's account and fees: the fee strategy over the network's statistics
    (src/stellar/fee-strategy.service.ts), and the service that owns the relayer's
    sequence number and serialises its submissions
    (src/stellar/relayer-account.service.ts).

    The node's answers are functions of the number of calls made so far and, for the
    account and submissions, of the transactions it has accepted; the caller's builder
    is a function from the account's sequence number and the fee to a transaction and
    the sequence number it leaves in the account object. *)

From stdpp Require Import base list strings sorting sets.
From Stdlib Require Import ZArith Lia Ascii Floats.
From S2P Require Import Prelude Decimal JsNum JsParse JsRegex Canonical EventHandlers.

#[local] Open Scope Z_scope.

Definition BASE_FEE : Z := 100.

(** * Fee strategy *)

Record FeeBuckets := mkBuckets {
  fb_max : string; fb_p99 : option string; fb_p90 : option string; fb_p10 : option string; fb_min : string; fb_mode : string }.
Record CachedFeeStats := mkFeeStats { fs_fetchedAt : Z; fs_inclusionFee : FeeBuckets }.
Record FeeProfileConfig := mkProfile { fp_percentile : num; fp_multiplier : num }.

(** [FeeCeilingExceededError], or another exception. *)
Inductive FeeError := FeeCeilingExceeded (inclusion resource ceiling : Z) | FeeThrown (message : string).

Definition bigIntOf (s : string) : res FeeError Z :=
  match bigIntOfText (String.list_ascii_of_string s) with Some z => Ok z | None => Err (FeeThrown ("Cannot convert " +:+ s +:+ " to a BigInt")) end.

(** A present, non-empty text. *)
Definition truthyText (s : option string) : option string := t ← s; if bool_decide (t = "") then None else Some t.
Definition orText (s fallback : string) : string := if bool_decide (s = "") then fallback else s.

Definition pickPercentile (fees : FeeBuckets) (percentile : num) : res FeeError Z :=
  match (if nge percentile 99%float then truthyText (fb_p99 fees) else None) with
  | Some t => bigIntOf t
  | None =>
      match (if nge percentile 90%float then truthyText (fb_p90 fees) else None) with
      | Some t => bigIntOf t
      | None =>
          if nge percentile 50%float then bigIntOf (orText (fb_mode fees) (fb_min fees))
          else match truthyText (fb_p10 fees) with
            | Some t => bigIntOf t
            | None => bigIntOf (orText (fb_min fees) (showZ BASE_FEE))
            end
      end
  end.

Definition applyMultiplier (fee : Z) (multiplier : num) : res FeeError Z :=
  if negb (isFinite multiplier) || nle multiplier 0%float then Ok fee
  else match round_to_Z (multiplier * 1000)%float with
    | Some numerator => Ok (Z.quot (fee * numerator) 1000)
    | None => Err (FeeThrown "The number Infinity cannot be converted to a BigInt because it is not an integer")
    end.

(** What [getFeeStats] answered: an exception, no buckets, or buckets. *)
Definition getFeeStatsCached (ttlMs now : Z) (answer : res string (option FeeBuckets)) (cache : option CachedFeeStats) :
    option CachedFeeStats * option CachedFeeStats :=
  match cache with
  | Some c => if now - fs_fetchedAt c <? ttlMs then (cache, cache)
              else match answer with Ok (Some b) => (Some (mkFeeStats now b), Some (mkFeeStats now b)) | _ => (None, cache) end
  | None => match answer with Ok (Some b) => (Some (mkFeeStats now b), Some (mkFeeStats now b)) | _ => (None, cache) end
  end.

Definition estimateInclusionFee (ttlMs ceiling : Z) (profile : FeeProfileConfig) (now : Z) (answer : res string (option FeeBuckets))
    (cache : option CachedFeeStats) : res FeeError Z * option CachedFeeStats :=
  let '(stats, cache') := getFeeStatsCached ttlMs now answer cache in
  (match stats with
   | None => Ok BASE_FEE
   | Some st =>
       raw ← pickPercentile (fs_inclusionFee st) (fp_percentile profile);
       multiplied ← applyMultiplier raw (fp_multiplier profile);
       let floored := if multiplied <? BASE_FEE then BASE_FEE else multiplied in
       if ceiling <? floored then Err (FeeCeilingExceeded floored 0 ceiling) else Ok floored
   end, cache').

Definition assertTotalUnderCeiling (ceiling inclusionFee : Z) (minResourceFee : option Z) : res FeeError unit :=
  let resource := default 0 minResourceFee in
  if ceiling <? inclusionFee + resource then Err (FeeCeilingExceeded inclusionFee resource ceiling) else Ok tt.

(** * The relayer's account *)

Record RelayerConfig := mkRelayerConfig {
  rc_feeMultiplier : num; rc_feeCeiling : num; rc_idleResyncMs : Z; rc_minBalance : Z; rc_maxAttempts : nat }.

Record BuiltTx := mkBuilt { bt_sequence : Z; bt_fee : Z }.

(** [feeStats]: the [p50] and [mode] of the Soroban and the classic buckets. *)
Record FeeStats := mkNetFees { nf_sorobanP50 : option string; nf_sorobanMode : option string; nf_p50 : option string; nf_mode : option string }.

(** The account as the node returns it, with its native balance when it has one. *)
Record AccountAnswer := mkAccount { ac_sequence : Z; ac_native : option string }.

(** [Buffer.toString("base64")]: three bytes to four characters, padded. *)
Definition base64Alphabet : text := String.list_ascii_of_string "ABCDEFGHIJKLMNOPQRSTUVWXYZabcdefghijklmnopqrstuvwxyz0123456789+/".
Definition base64Char (n : Z) : ascii := nth (Z.to_nat n) base64Alphabet "="%char.
Fixpoint base64 (bytes : list Z) : text :=
  match bytes with
  | a :: b :: c :: rest =>
      base64Char (Z.shiftr a 2) :: base64Char (Z.lor (Z.shiftl (Z.land a 3) 4) (Z.shiftr b 4))
        :: base64Char (Z.lor (Z.shiftl (Z.land b 15) 2) (Z.shiftr c 6)) :: base64Char (Z.land c 63) :: base64 rest
  | [a; b] =>
      [base64Char (Z.shiftr a 2); base64Char (Z.lor (Z.shiftl (Z.land a 3) 4) (Z.shiftr b 4)); base64Char (Z.shiftl (Z.land b 15) 2); "="%char]
  | [a] => [base64Char (Z.shiftr a 2); base64Char (Z.shiftl (Z.land a 3) 4); "="%char; "="%char]
  | [] => []
  end.

(** [errorResult]: absent, a text, an XDR object with the bytes of its [toXDR()], or an
    object with its [String(..)]. *)
Inductive ErrorResult := NoResult | TextResult (s : string) | XdrResult (bytes : list Z) | ObjectResult (s : string).
Definition detailOf (r : ErrorResult) : string :=
  match r with NoResult => "" | TextResult s | ObjectResult s => s | XdrResult b => String.string_of_list_ascii (base64 b) end.

(** The statuses the source treats as refusals. *)
Inductive Refusal := StError | StTryAgainLater.
Definition refusalName (r : Refusal) : string := match r with StError => "ERROR" | StTryAgainLater => "TRY_AGAIN_LATER" end.

Inductive SendAnswer := Accepted (hash : string) | Refused (status : Refusal) (errorResult : ErrorResult) | SendThrows (message : string).

(** [ra_accepted] is the log of what the network took. *)
Record Relayer := mkRelayer {
  ra_cachedSequence : option Z; ra_lastSyncedAt : Z; ra_cachedBalanceStroops : option Z;
  ra_calls : nat; ra_sent : nat; ra_accepted : list BuiltTx }.
Definition newRelayer : Relayer := mkRelayer None 0 None 0 0 [].

Inductive RelayerError :=
| RelayerNotReady (message : string) | RelayerInsufficientBalance (message : string) | RelayerSequenceExhausted (message : string)
| RelayerThrown (message : string) (badSeq : bool).

Definition messageOf (e : RelayerError) : string :=
  match e with RelayerNotReady m | RelayerInsufficientBalance m | RelayerSequenceExhausted m | RelayerThrown m _ => m end.

(** [/txBAD_SEQ|BAD_SEQ/i] *)
Definition badSeqText (s : string) : bool := testIgnoringCase (lit "bad_seq") s.
Definition isBadSeq (e : RelayerError) : bool :=
  match e with RelayerThrown m true => true | _ => badSeqText (messageOf e) end.

(** The world outside, by the number of the call. *)
Record RelayerEnv := mkRelayerEnv {
  re_clock : nat -> Z;
  re_getAccount : nat -> list BuiltTx -> res string AccountAnswer;
  re_feeStats : nat -> res string FeeStats;
  (** Whether the network took the transaction, and what the caller hears. *)
  re_send : nat -> list BuiltTx -> BuiltTx -> bool * SendAnswer }.

Definition Builder : Type := Z -> Z -> res string (BuiltTx * Z).

Definition R (A : Type) : Type := Relayer -> res RelayerError A * Relayer.
#[global] Instance R_ret : MRet R := fun A a s => (Ok a, s).
#[global] Instance R_bind : MBind R := fun A B f m s => match m s with (Ok a, s') => f a s' | (Err e, s') => (Err e, s') end.
Definition rthrow {A} (e : RelayerError) : R A := fun s => (Err e, s).
Definition rget : R Relayer := fun s => (Ok s, s).
Definition rmodify (f : Relayer -> Relayer) : R unit := fun s => (Ok tt, f s).

Definition tick (s : Relayer) : Relayer :=
  mkRelayer (ra_cachedSequence s) (ra_lastSyncedAt s) (ra_cachedBalanceStroops s) (S (ra_calls s)) (ra_sent s) (ra_accepted s).
Definition setSequence (seq : option Z) (s : Relayer) : Relayer :=
  mkRelayer seq (ra_lastSyncedAt s) (ra_cachedBalanceStroops s) (ra_calls s) (ra_sent s) (ra_accepted s).
Definition setSynced (t : Z) (s : Relayer) : Relayer :=
  mkRelayer (ra_cachedSequence s) t (ra_cachedBalanceStroops s) (ra_calls s) (ra_sent s) (ra_accepted s).
Definition setBalance (b : Z) (s : Relayer) : Relayer :=
  mkRelayer (ra_cachedSequence s) (ra_lastSyncedAt s) (Some b) (ra_calls s) (ra_sent s) (ra_accepted s).
Definition recordSend (took : bool) (tx : BuiltTx) (s : Relayer) : Relayer :=
  mkRelayer (ra_cachedSequence s) (ra_lastSyncedAt s) (ra_cachedBalanceStroops s) (S (ra_calls s)) (S (ra_sent s))
    (if took then ra_accepted s ++ [tx] else ra_accepted s).

Section Account.
Variable cfg : RelayerConfig.
Variable env : RelayerEnv.

Definition now : R Z := fun s => (Ok (re_clock env (ra_calls s)), s).
Definition getAccount : R AccountAnswer := fun s =>
  match re_getAccount env (ra_calls s) (ra_accepted s) with Ok a => (Ok a, tick s) | Err m => (Err (RelayerThrown m false), tick s) end.

Definition isReady (configured : bool) (s : Relayer) : bool :=
  configured && match ra_cachedBalanceStroops s with None => true | Some b => BASE_FEE <=? b end.
Definition balanceReady (configured : bool) (s : Relayer) : bool :=
  configured && match ra_cachedBalanceStroops s with Some b => rc_minBalance cfg <=? b | None => false end.

(** [BigInt(Math.floor(parseFloat(balance) * 1e7))]; [parseFloat] of a decimal. *)
Definition stroopsOf (balance : string) : option Z := floor_to_Z (toNumber balance * 10000000)%float.

(** Failures of the refresh are logged only. *)
Definition refreshBalance : R unit := fun s =>
  match re_getAccount env (ra_calls s) (ra_accepted s) with
  | Err _ => (Ok tt, tick s)
  | Ok a =>
      match ac_native a with
      | None => (Ok tt, match ra_cachedBalanceStroops s with None => setBalance (rc_minBalance cfg) (tick s) | Some _ => tick s end)
      | Some b => (Ok tt, match stroopsOf b with Some z => setBalance z (tick s) | None => tick s end)
      end
  end.

Definition resyncFromNetwork : R unit :=
  account ← getAccount;
  _ ← rmodify (setSequence (Some (ac_sequence account)));
  t ← now; _ ← rmodify (setSynced t);
  refreshBalance.

Definition checkoutAccount (forceResync : bool) : R Z :=
  s ← rget; t ← now;
  let idleExpired := rc_idleResyncMs cfg <? t - ra_lastSyncedAt s in
  _ ← (if forceResync || bool_decide (ra_cachedSequence s = None) || idleExpired then resyncFromNetwork else mret tt);
  s' ← rget;
  match ra_cachedSequence s' with Some q => mret q | None => rthrow (RelayerThrown "sequence must be a string" false) end.

(** [Number(x ?? y ?? 0)], and whether it is truthy. *)
Definition numberOr (a b : option string) : num := match a with Some t => toNumber t | None => match b with Some t => toNumber t | None => 0%float end end.
Definition truthyNum (x : num) : bool := negb (PrimFloat.is_nan x) && negb (neq x 0%float).

(** [Math.ceil] *)
Definition mathCeil (x : num) : num := PrimFloat.opp (mathFloor (PrimFloat.opp x)).

Definition selectFeeNum (stats : res string FeeStats) : num :=
  let floor := num_of_Z BASE_FEE in
  let raw := match stats with
    | Ok f =>
        let soroban := numberOr (nf_sorobanP50 f) (nf_sorobanMode f) in
        let classic := numberOr (nf_p50 f) (nf_mode f) in
        mathCeil ((if truthyNum soroban then soroban else if truthyNum classic then classic else floor) * rc_feeMultiplier cfg)%float
    | Err _ => floor
    end in
  nmin (nmax raw floor) (rc_feeCeiling cfg).

(** [BigInt(String(clamped))]: integers print without an exponent below 1e21. *)
Definition bigIntOfNum (x : num) : res RelayerError Z :=
  match round_to_Z x with
  | Some z => if neq (num_of_Z z) x && (Z.abs z <? 10 ^ 21) then Ok z else Err (RelayerThrown "Cannot convert to a BigInt" false)
  | None => Err (RelayerThrown "Cannot convert to a BigInt" false)
  end.
Definition selectFee : R Z := fun s => (bigIntOfNum (selectFeeNum (re_feeStats env (ra_calls s))), tick s).

Definition ensureBalanceCovers (feeStroops : Z) : R unit :=
  s ← rget;
  _ ← (if bool_decide (ra_cachedBalanceStroops s = None) then refreshBalance else mret tt);
  s' ← rget;
  let balance := default 0 (ra_cachedBalanceStroops s') in
  if balance <? feeStroops
  then rthrow (RelayerInsufficientBalance ("Relayer balance " +:+ showZ balance +:+ " stroops cannot cover fee " +:+ showZ feeStroops))
  else mret tt.

Definition notAccepted (status : Refusal) (detail : string) : string :=
  "Submission not accepted: " +:+ refusalName status +:+ (if bool_decide (detail = "") then "" else " " +:+ detail).

Definition sendSigned (tx : BuiltTx) : R string := fun s =>
  let '(took, a) := re_send env (ra_calls s) (ra_accepted s) tx in
  (match a with
   | Accepted h => Ok h
   | Refused status raw =>
       let detail := detailOf raw in
       Err (RelayerThrown (notAccepted status detail) (badSeqText detail || badSeqText (notAccepted status detail)))
   | SendThrows m => Err (RelayerThrown m false)
   end, recordSend took tx s).

(** [account.incrementSequenceNumber()] after the builder left [accountSeq] in it. *)
Definition advanceSequenceAfterSuccess (accountSeq : Z) : R unit :=
  _ ← rmodify (setSequence (Some (accountSeq + 1)));
  t ← now; rmodify (setSynced t).

Definition feeBump (configured : bool) (newFee innerSequence : Z) : R string :=
  if negb configured then rthrow (RelayerNotReady "Relayer is not configured")
  else _ ← ensureBalanceCovers newFee; sendSigned (mkBuilt innerSequence newFee).

Section Submit.
Variable build : Builder.

Definition attemptOnce (attempt : nat) : R string :=
  seq ← checkoutAccount (bool_decide (1 < attempt)%nat);
  fee ← selectFee;
  _ ← ensureBalanceCovers fee;
  match build seq fee with
  | Err m => rthrow (RelayerThrown m false)
  | Ok (tx, accountSeq) =>
      h ← sendSigned tx;
      _ ← advanceSequenceAfterSuccess accountSeq;
      mret h
  end.

Definition exhausted (e : RelayerError) : RelayerError :=
  RelayerSequenceExhausted ("Relayer submission failed after " +:+ showZ (Z.of_nat (rc_maxAttempts cfg)) +:+ " attempts: " +:+ messageOf e).

(** The loop from [attempt] on, [more] attempts being left after it. *)
Fixpoint submitFrom (more attempt : nat) : R string := fun s =>
  match attemptOnce attempt s with
  | (Ok h, s') => (Ok h, s')
  | (Err e, s') =>
      match e with
      | RelayerInsufficientBalance _ | RelayerNotReady _ => (Err e, s')
      | _ =>
          match more with
          | S more' => if isBadSeq e then submitFrom more' (S attempt) (setSequence None s') else (Err e, s')
          | O => (Err (exhausted e), s')
          end
      end
  end.

Definition submitWithRetries (configured : bool) : R string :=
  if negb configured then rthrow (RelayerNotReady "Relayer is not configured")
  else match rc_maxAttempts cfg with
    | O => rthrow (RelayerSequenceExhausted "Relayer submission failed after 0 attempts: undefined")
    | S more => submitFrom more 1
    end.
End Submit.

(** What callers enqueue. *)
Inductive Job := SubmitJob (build : Builder) | FeeBumpJob (newFee innerSequence : Z).
Definition runJob (configured : bool) (j : Job) : R string :=
  match j with SubmitJob b => submitWithRetries b configured | FeeBumpJob fee q => feeBump configured fee q end.

(** The promise chain: jobs run one after the other, whatever their outcome. *)
Fixpoint runQueue (configured : bool) (jobs : list Job) (s : Relayer) : list (res RelayerError string) * Relayer :=
  match jobs with
  | [] => ([], s)
  | j :: rest =>
      let '(r, s1) := runJob configured j s in
      let '(rs, s2) := runQueue configured rest s1 in (r :: rs, s2)
  end.
End Account.

(** ** What each step leaves alone *)

(** Nothing was sent. *)
Definition quiet (s s' : Relayer) : Prop := ra_accepted s' = ra_accepted s ∧ ra_sent s' = ra_sent s.
#[global] Instance quiet_preorder : PreOrder quiet.
Proof. split; [by split|]. intros a b c [H1 H2] [H3 H4]. split; congruence. Qed.

Definition pure {A} (m : R A) : Prop := ∀ s, quiet s (m s).2.

Lemma pure_ret {A} (a : A) : pure (mret a).
Proof. by intros s. Qed.
Lemma pure_throw {A} e : pure (rthrow (A := A) e).
Proof. by intros s. Qed.
Lemma pure_bind {A B} (m : R A) (f : A -> R B) : pure m -> (∀ a, pure (f a)) -> pure (m ≫= f).
Proof.
  intros Hm Hf s. specialize (Hm s). unfold mbind, R_bind. destruct (m s) as [[a|e] s']; [|exact Hm]. etransitivity; [exact Hm|apply Hf].
Qed.
Create HintDb relayer.
#[export] Hint Resolve pure_ret pure_throw pure_bind : relayer.

Section Quiet.
Variable cfg : RelayerConfig.
Variable env : RelayerEnv.

Lemma pure_get : pure rget.
Proof. by intros s. Qed.
Lemma pure_now : pure (now env).
Proof. by intros s. Qed.
Lemma pure_setSequence q : pure (rmodify (setSequence q)).
Proof. by intros s. Qed.
Lemma pure_setSynced t : pure (rmodify (setSynced t)).
Proof. by intros s. Qed.
Lemma pure_getAccount : pure (getAccount env).
Proof. intros s. unfold getAccount. by destruct (re_getAccount _ _ _). Qed.
Lemma pure_refreshBalance : pure (refreshBalance cfg env).
Proof.
  intros s. unfold refreshBalance. destruct (re_getAccount _ _ _) as [a|]; [|done]. destruct (ac_native a); [by destruct (stroopsOf _)|by destruct (ra_cachedBalanceStroops s)].
Qed.
Hint Resolve pure_get pure_now pure_setSequence pure_setSynced pure_getAccount pure_refreshBalance : relayer.

Lemma pure_resync : pure (resyncFromNetwork cfg env).
Proof. unfold resyncFromNetwork. auto 10 with relayer. Qed.
Hint Resolve pure_resync : relayer.

Lemma pure_checkout b : pure (checkoutAccount cfg env b).
Proof.
  unfold checkoutAccount. apply pure_bind; [auto with relayer|intros s]. apply pure_bind; [auto with relayer|intros t].
  apply pure_bind; [destruct (_ || _); auto with relayer|intros _]. apply pure_bind; [auto with relayer|intros s']. destruct (ra_cachedSequence s'); auto with relayer.
Qed.
Lemma pure_selectFee : pure (selectFee cfg env).
Proof. by intros s. Qed.
Lemma pure_ensureBalance fee : pure (ensureBalanceCovers cfg env fee).
Proof.
  unfold ensureBalanceCovers. apply pure_bind; [auto with relayer|intros s].
  apply pure_bind; [destruct (bool_decide _); auto with relayer|intros _]. apply pure_bind; [auto with relayer|intros s']. destruct (_ <? _); auto with relayer.
Qed.
End Quiet.

(** ** A submission reaches the network at most once *)

(** The error the caller of [sendSigned] sees for an answer. *)
Definition answerOf (a : SendAnswer) : res RelayerError string :=
  match a with
  | Accepted h => Ok h
  | Refused status raw => Err (RelayerThrown (notAccepted status (detailOf raw)) (badSeqText (detailOf raw) || badSeqText (notAccepted status (detailOf raw))))
  | SendThrows m => Err (RelayerThrown m false)
  end.

(** An answer that makes the service rebuild and send again. *)
Definition retriable (a : SendAnswer) : bool := match answerOf a with Ok _ => false | Err e => isBadSeq e end.

Section AtMostOnce.
Variable cfg : RelayerConfig.
Variable env : RelayerEnv.
Variable build : Builder.

(** One attempt sends nothing and fails, or sends one transaction and returns the answer. *)
Inductive attempted (s : Relayer) : res RelayerError string * Relayer -> Prop :=
| attempted_nothing e s' : quiet s s' -> attempted s (Err e, s')
| attempted_send n tx took a s' :
    re_send env n (ra_accepted s) tx = (took, a) -> ra_sent s' = S (ra_sent s) ->
    ra_accepted s' = (if took then ra_accepted s ++ [tx] else ra_accepted s) -> attempted s (answerOf a, s').

Lemma attempt_cases attempt s : attempted s (attemptOnce cfg env build attempt s).
Proof.
  unfold attemptOnce, mbind, R_bind.
  pose proof (pure_checkout cfg env (bool_decide (1 < attempt)%nat) s) as H1. destruct (checkoutAccount _ _ _ s) as [[q|e] s1]; [|by constructor].
  pose proof (pure_selectFee cfg env s1) as H2. destruct (selectFee _ _ s1) as [[fee|e] s2]; [|constructor; by etransitivity].
  pose proof (pure_ensureBalance cfg env fee s2) as H3. destruct (ensureBalanceCovers _ _ fee s2) as [[[]|e] s3]; [|constructor; etransitivity; [exact H1|by etransitivity]].
  assert (quiet s s3) as Hq by (etransitivity; [exact H1|by etransitivity]). destruct Hq as [Ha Hs].
  destruct (build q fee) as [[tx aq]|m]; [|by constructor].
  unfold sendSigned. rewrite Ha. destruct (re_send env (ra_calls s3) (ra_accepted s) tx) as [took a] eqn:E.
  destruct a; cbn; eapply (attempted_send _ _ _ _ _ _ E); cbn; rewrite ?Hs, ?Ha; done.
Qed.

(** The network never takes a transaction and answers that its sequence number is bad. *)
Hypothesis honest : ∀ n acc tx a, re_send env n acc tx = (true, a) -> retriable a = false.

(** At most one transaction taken and [k] sent. *)
Definition once (s : Relayer) (k : nat) (s' : Relayer) : Prop :=
  (ra_accepted s' = ra_accepted s ∨ ∃ tx, ra_accepted s' = ra_accepted s ++ [tx]) ∧ (ra_sent s' <= ra_sent s + k)%nat.

Lemma once_after s s1 j k s' : ra_accepted s1 = ra_accepted s -> (ra_sent s1 <= ra_sent s + j)%nat -> once s1 k s' -> once s (j + k) s'.
Proof. intros Ha Hs [H1 H2]. rewrite Ha in H1. split; [exact H1|lia]. Qed.

(** What an attempt leaves: at most one sent; nothing taken if the service goes on. *)
Lemma attempt_once attempt s r s1 : attemptOnce cfg env build attempt s = (r, s1) ->
  once s 1 s1 ∧ (∀ e, r = Err e -> isBadSeq e = true -> ra_accepted s1 = ra_accepted s).
Proof.
  intros E. pose proof (attempt_cases attempt s) as Hc. rewrite E in Hc.
  inversion Hc as [e s' [Ha Hs]|n tx took a s' Es Hs Ha]; subst; [by split; [split; [by left|lia]|]|].
  split; [split; [destruct took; eauto|lia]|]. intros e Ee Hb. destruct took; [|done].
  apply honest in Es. unfold retriable in Es. rewrite Ee in Es. congruence.
Qed.

Lemma once_more s k k' s' : (k <= k')%nat -> once s k s' -> once s k' s'.
Proof. intros Hk [H1 H2]. split; [exact H1|lia]. Qed.

Lemma submitFrom_once more : ∀ attempt s, once s (S more) (submitFrom cfg env build more attempt s).2.
Proof.
  induction more as [|more IH]; intros attempt s; cbn [submitFrom]; destruct (attemptOnce cfg env build attempt s) as [r s1] eqn:E;
    apply attempt_once in E as [Ho Hn]; destruct r as [h|e].
  - exact Ho.
  - by destruct e.
  - apply (once_more _ 1); [lia|exact Ho].
  - assert (once s (S (S more)) s1) as G by (apply (once_more _ 1); [lia|exact Ho]).
    assert (isBadSeq e = true -> once s (S (S more)) (submitFrom cfg env build more (S attempt) (setSequence None s1)).2) as Hr.
    { intros Hb. apply (once_after s (setSequence None s1) 1); [exact (Hn e eq_refl Hb)|exact (proj2 Ho)|apply IH]. }
    destruct e; try exact G; (destruct (isBadSeq _); [by apply Hr|exact G]).
Qed.
End AtMostOnce.

(** When the network never takes a transaction that it answers with a bad sequence
    number, one call of submitRelayerTransaction has at most one transaction taken,
    however many times it rebuilds, and sends at most maxAttempts. *)
Theorem submission_taken_at_most_once cfg env build configured s :
  (∀ n acc tx a, re_send env n acc tx = (true, a) -> retriable a = false) ->
  let s' := (submitWithRetries cfg env build configured s).2 in
  (ra_accepted s' = ra_accepted s ∨ ∃ tx, ra_accepted s' = ra_accepted s ++ [tx]) ∧
  (ra_sent s' <= ra_sent s + rc_maxAttempts cfg)%nat.
Proof.
  intros H. unfold submitWithRetries. destruct (negb configured); [cbn; split; [by left|lia]|].
  destruct (rc_maxAttempts cfg) as [|more]; [cbn; split; [by left|lia]|]. by apply submitFrom_once.
Qed.

(** ** Sequence numbers *)

Section Sequence.
Variable cfg : RelayerConfig.
Variable env : RelayerEnv.
(** The account's sequence number before anything was taken. *)
Variable base : Z.

Definition current (acc : list BuiltTx) : Z := base + Z.of_nat (length acc).

(** A healthy node: the account's number counts what was taken, and a transaction with
    the next number is taken. *)
Record HealthyNode : Prop := {
  hn_account : ∀ n acc a, re_getAccount env n acc = Ok a -> ac_sequence a = current acc;
  hn_send : ∀ n acc tx, bt_sequence tx = current acc + 1 -> ∃ h, re_send env n acc tx = (true, Accepted h) }.

(** A builder that numbers its transaction from the account and leaves [d] more in it. *)
Definition leaves (d : Z) (build : Builder) : Prop := ∀ seq fee tx seq', build seq fee = Ok (tx, seq') -> bt_sequence tx = seq + 1 ∧ seq' = seq + d.

(** The cached number, when there is one, is the account's. *)
Definition inStep (s : Relayer) : Prop := ∀ q, ra_cachedSequence s = Some q -> q = current (ra_accepted s).

(** [s'] took what was sent since [s], numbered without a gap. *)
Definition extends (s s' : Relayer) : Prop :=
  ∃ txs, ra_accepted s' = ra_accepted s ++ txs ∧ ra_sent s' = (ra_sent s + length txs)%nat ∧
    ∀ i tx, txs !! i = Some tx -> bt_sequence tx = current (ra_accepted s) + 1 + Z.of_nat i.

Lemma extends_quiet s s' : quiet s s' -> extends s s'.
Proof. intros [Ha Hs]. exists []. rewrite app_nil_r, Nat.add_0_r. repeat split; [done..|]. intros i tx H. by rewrite lookup_nil in H. Qed.

Lemma extends_trans s s1 s' : extends s s1 -> extends s1 s' -> extends s s'.
Proof.
  intros (l1 & A1 & S1 & N1) (l2 & A2 & S2 & N2). exists (l1 ++ l2). rewrite A2, S2, A1, S1, length_app, app_assoc. split; [done|]. split; [lia|].
  intros i tx [H|[Hl H]]%lookup_app_Some; [by apply N1|]. rewrite (N2 _ _ H), A1. unfold current. rewrite length_app. lia.
Qed.

Hypothesis node : HealthyNode.

Lemma inStep_quiet s s' : quiet s s' -> ra_cachedSequence s' = ra_cachedSequence s -> inStep s -> inStep s'.
Proof. intros [Ha _] Hc H q. rewrite Hc, Ha. apply H. Qed.

Lemma refresh_sequence s : ra_cachedSequence (refreshBalance cfg env s).2 = ra_cachedSequence s.
Proof.
  unfold refreshBalance. destruct (re_getAccount _ _ _) as [a|]; [|done]. destruct (ac_native a); [by destruct (stroopsOf _)|by destruct (ra_cachedBalanceStroops s) eqn:E].
Qed.

Lemma ensureBalance_sequence fee s : ra_cachedSequence (ensureBalanceCovers cfg env fee s).2 = ra_cachedSequence s.
Proof.
  unfold ensureBalanceCovers, mbind, R_bind, rget. destruct (bool_decide _).
  - pose proof (refresh_sequence s) as H. destruct (refreshBalance cfg env s) as [[|] s']; [|exact H]. cbn in *. by destruct (_ <? _).
  - cbn. by destruct (_ <? _).
Qed.

Lemma resync_inStep s : inStep s -> inStep (resyncFromNetwork cfg env s).2.
Proof.
  intros Hs. unfold resyncFromNetwork, mbind, R_bind, getAccount. destruct (re_getAccount _ _ _) as [a|] eqn:E; cbn [fst snd]; [|exact Hs].
  cbn. match goal with |- inStep (refreshBalance _ _ ?st).2 => set (s2 := st) end.
  apply (inStep_quiet s2); [apply pure_refreshBalance|apply refresh_sequence|]. intros q [= <-]. exact (hn_account node _ _ _ E).
Qed.

(** The number handed to the builder is the account's. *)
Lemma checkout_inStep force s : inStep s ->
  let r := checkoutAccount cfg env force s in inStep r.2 ∧ ∀ q, r.1 = Ok q -> q = current (ra_accepted s).
Proof.
  intros Hs r. pose proof (pure_checkout cfg env force s) as [Ha _]. fold r in Ha.
  assert (inStep r.2 ∧ ∀ q, r.1 = Ok q -> ra_cachedSequence r.2 = Some q) as [H1 H2].
  { subst r. clear Ha. unfold checkoutAccount, mbind, R_bind, rget. cbn. destruct (_ || _).
    - pose proof (resync_inStep s Hs) as H. destruct (resyncFromNetwork cfg env s) as [[[]|e] s']; cbn in *; [|by split].
      destruct (ra_cachedSequence s') eqn:Ec; cbn; (split; [exact H|]); intros q E; inversion E; congruence.
    - cbn. destruct (ra_cachedSequence s) eqn:Ec; cbn; (split; [exact Hs|]); intros q E; inversion E; congruence. }
  split; [exact H1|]. intros q E. rewrite <- Ha. by apply H1, H2.
Qed.

Section Builders.
Variable build : Builder.
Variable d : Z.
Hypothesis hb : leaves d build.

(** From a cache in step, an attempt fails before it sends, or its transaction is taken
    and the cache is left [d] ahead of the account. *)
Lemma attempt_inStep attempt s : inStep s -> let '(r, s') := attemptOnce cfg env build attempt s in
  (∃ e, r = Err e ∧ quiet s s' ∧ inStep s') ∨
  (∃ h tx, r = Ok h ∧ ra_accepted s' = ra_accepted s ++ [tx] ∧ ra_sent s' = S (ra_sent s) ∧
     bt_sequence tx = current (ra_accepted s) + 1 ∧ ra_cachedSequence s' = Some (current (ra_accepted s') + d)).
Proof.
  intros Hs. unfold attemptOnce, mbind, R_bind.
  pose proof (pure_checkout cfg env (bool_decide (1 < attempt)%nat) s) as H1. pose proof (checkout_inStep (bool_decide (1 < attempt)%nat) s Hs) as [I1 V1].
  destruct (checkoutAccount _ _ _ s) as [[q|e] s1]; [|left; by exists e]. cbn [fst snd] in *. specialize (V1 q eq_refl).
  pose proof (pure_selectFee cfg env s1) as H2. assert (inStep (selectFee cfg env s1).2) as I2 by exact (inStep_quiet _ _ H2 eq_refl I1).
  destruct (selectFee _ _ s1) as [[fee|e] s2]; [|left; exists e; split; [done|]; split; [by etransitivity|done]]. cbn [fst snd] in *.
  pose proof (pure_ensureBalance cfg env fee s2) as H3. pose proof (inStep_quiet _ _ H3 (ensureBalance_sequence fee s2) I2) as I3.
  destruct (ensureBalanceCovers _ _ fee s2) as [[[]|e] s3]; cbn [fst snd] in *; assert (quiet s s3) as Hq by (etransitivity; [exact H1|by etransitivity]); [|left; by exists e].
  destruct (build q fee) as [[tx aq]|m] eqn:Eb; [|left; eexists; split; [reflexivity|by split]].
  destruct (hb _ _ _ _ Eb) as [Hn Hq']. destruct Hq as [Ha Hsent]. rewrite V1 in Hn, Hq'.
  unfold sendSigned. rewrite Ha. destruct (hn_send node (ra_calls s3) _ _ Hn) as [h ->]. cbn. right. exists h, tx. cbn. rewrite Ha, Hsent.
  split; [done|]. split; [done|]. split; [done|]. split; [exact Hn|]. unfold current in *. rewrite length_app. cbn. f_equal. lia.
Qed.
End Builders.

Definition tidy (j : Job) : Prop := match j with SubmitJob b => leaves 0 b | FeeBumpJob _ _ => False end.

Lemma submitFrom_inStep build more : leaves 0 build -> ∀ attempt s, inStep s ->
  let s' := (submitFrom cfg env build more attempt s).2 in inStep s' ∧ extends s s'.
Proof.
  intros hb. induction more as [|more IH]; intros attempt s Hs; cbn [submitFrom]; pose proof (attempt_inStep build 0 hb attempt s Hs) as Hc;
    destruct (attemptOnce cfg env build attempt s) as [r s1]; destruct Hc as [(e & -> & Hq & Hi)|(h & tx & -> & Ha & Hn & Ht & Hc)].
  1: by destruct e; (split; [|apply extends_quiet]).
  2: { assert (inStep s1 ∧ extends s s1) as G by (split; [done|by apply extends_quiet]).
       assert (let s' := (submitFrom cfg env build more (S attempt) (setSequence None s1)).2 in inStep s' ∧ extends s s') as Hr.
       { destruct (IH (S attempt) (setSequence None s1)) as [I E]; [by intros q|]. split; [exact I|]. exact (extends_trans _ _ _ (extends_quiet s (setSequence None s1) Hq) E). }
       destruct e; try exact G; (destruct (isBadSeq _); [exact Hr|exact G]). }
  all: split; [intros q; cbn; rewrite Hc; intros [= <-]; lia|exists [tx]; split; [done|]; split; [cbn; lia|]].
  all: intros i t [-> <-]%list_lookup_singleton_Some; lia.
Qed.

Lemma queue_inStep configured jobs : Forall tidy jobs -> ∀ s, inStep s ->
  let s' := (runQueue cfg env configured jobs s).2 in inStep s' ∧ extends s s'.
Proof.
  induction 1 as [|j jobs Hj _ IH]; intros s Hs; cbn [runQueue]; [split; [done|by apply extends_quiet]|].
  destruct (runJob cfg env configured j s) as [r s1] eqn:E.
  assert (inStep s1 ∧ extends s s1) as [I1 E1].
  { destruct j as [b|]; [|done]. cbn in E. unfold submitWithRetries in E. replace s1 with (submitWithRetries cfg env b configured s).2 by (unfold submitWithRetries; by rewrite E).
    unfold submitWithRetries. destruct (negb configured); [split; [done|by apply extends_quiet]|].
    destruct (rc_maxAttempts cfg); [split; [done|by apply extends_quiet]|by apply submitFrom_inStep]. }
  specialize (IH s1 I1). destruct (runQueue cfg env configured jobs s1) as [rs s2]. cbn in *. split; [apply IH|exact (extends_trans _ _ _ E1 (proj2 IH))].
Qed.
End Sequence.

(** On a healthy node, a queue of submissions whose builders number from the account
    and leave it as it was never sends out of sequence: every transaction sent is taken,
    the sequence numbers taken follow the account's without a gap, and the cached
    number stays the account's. *)
Theorem queue_sends_in_sequence cfg env base configured jobs s :
  HealthyNode env base -> Forall tidy jobs -> inStep base s ->
  let s' := (runQueue cfg env configured jobs s).2 in inStep base s' ∧ extends base s s'.
Proof. intros Hn Hj Hs. by apply queue_inStep. Qed.

(** ** Fees *)

(** An estimate is the degraded base fee, or lies between the base fee and the ceiling. *)
Lemma estimate_within_ceiling ttl ceiling profile now answer cache f :
  (estimateInclusionFee ttl ceiling profile now answer cache).1 = Ok f ->
  f = BASE_FEE ∨ (BASE_FEE <= f <= ceiling).
Proof.
  unfold estimateInclusionFee. destruct (getFeeStatsCached ttl now answer cache) as [[st|] c']; cbn [fst]; [|intros [= <-]; by left].
  intros (raw & _ & (mult & _ & H)%res_bind_Ok)%res_bind_Ok. revert H. cbv zeta. destruct (Z.ltb_spec mult BASE_FEE), (Z.ltb_spec ceiling BASE_FEE), (Z.ltb_spec ceiling mult);
    intros [= <-]; try (by left); right; lia.
Qed.

(** The total that passes the check is under the ceiling, and nothing else passes. *)
Lemma total_checked ceiling inclusion resource :
  assertTotalUnderCeiling ceiling inclusion resource = Ok tt <-> inclusion + default 0 resource <= ceiling.
Proof. unfold assertTotalUnderCeiling. destruct (Z.ltb_spec ceiling (inclusion + default 0 resource)); split; intros H'; try discriminate; try lia; done. Qed.

(** ** Refusals carried as XDR *)

Definition underscore : ascii := "_"%char.

(** Somewhere a [d] stands before an underscore. *)
Fixpoint dUnder (l : text) : bool :=
  match l with
  | c :: ((e :: _) as rest) => (bool_decide (c = "d"%char) && bool_decide (e = underscore)) || dUnder rest
  | _ => false
  end.

Lemma dUnder_cons c e l : dUnder (c :: e :: l) = (bool_decide (c = "d"%char) && bool_decide (e = underscore)) || dUnder (e :: l).
Proof. reflexivity. Qed.

Lemma dUnder_skip c e l : e ≠ underscore -> dUnder (c :: e :: l) = dUnder (e :: l).
Proof. intros He. rewrite dUnder_cons, (bool_decide_eq_false_2 _ He), andb_false_r. done. Qed.

Lemma dUnder_none l : underscore ∉ l -> dUnder l = false.
Proof.
  induction l as [|c [|e l] IH]; [done..|]. intros [_ H]%not_elem_of_cons.
  rewrite dUnder_skip; [by apply IH|]. intros ->. apply H. left.
Qed.

Lemma dUnder_app p l : underscore ∉ l -> dUnder (p ++ l) = dUnder p.
Proof.
  intros Hl. induction p as [|c [|e p] IH]; [by apply dUnder_none| |].
  - destruct l as [|e l]; [done|]. cbn [app]. rewrite dUnder_skip; [by apply dUnder_none|]. intros ->. apply Hl. left.
  - cbn [app] in *. by rewrite !dUnder_cons, IH.
Qed.

Lemma dUnder_mid p l : dUnder (p ++ String.list_ascii_of_string "bad_seq" ++ l) = true.
Proof.
  induction p as [|c p IH]; [done|]. cbn [app]. destruct (p ++ _) as [|e r]; [done|]. rewrite dUnder_cons, IH. apply orb_true_r.
Qed.

Lemma lit_matches s t : matches (lit s) t -> t = String.list_ascii_of_string s.
Proof.
  unfold lit. revert t. induction (String.list_ascii_of_string s) as [|c l IH]; cbn; intros t H; inversion H as [| |a b s1 s2 H1 H2| | | |]; subst; [done|].
  inversion H1; subst. apply bool_decide_eq_true in H3 as <-. cbn. f_equal. by apply IH.
Qed.

Lemma badSeq_dUnder s : badSeqText s = true -> dUnder (map lowerAscii (String.list_ascii_of_string s)) = true.
Proof. intros (p & m & l & E & ->%lit_matches)%search_spec. rewrite E. apply dUnder_mid. Qed.

Lemma base64Char_plain n : lowerAscii (base64Char n) ≠ underscore.
Proof.
  unfold base64Char. destruct (nth_in_or_default (Z.to_nat n) base64Alphabet "="%char) as [H| ->]; [|done].
  assert (Forall (fun c => lowerAscii c ≠ underscore) base64Alphabet) as HF by (repeat constructor; discriminate).
  rewrite Forall_forall in HF. apply HF. by apply list_elem_of_In.
Qed.

Lemma base64_plain_all n : ∀ b, (length b <= n)%nat -> Forall (fun c => lowerAscii c ≠ underscore) (base64 b).
Proof.
  induction n as [|n IH]; intros [|x [|y [|z l]]] Hl; cbn [length] in Hl; try lia; cbn [base64];
    repeat (apply Forall_cons; split; [by (apply base64Char_plain || discriminate)|]); try apply Forall_nil_2.
  apply IH. lia.
Qed.

Lemma base64_plain b : underscore ∉ map lowerAscii (base64 b).
Proof.
  intros (c & Ec & Hc)%list_elem_of_fmap. pose proof (base64_plain_all (length b) b (le_n _)) as H. rewrite Forall_forall in H. by apply (H c).
Qed.

(** A refusal whose result is an XDR object is never recognised as a bad sequence
    number, whatever its bytes: base64 has no underscore, so the service neither
    re-synchronises nor rebuilds, and keeps the sequence number that was refused. *)
Theorem xdr_refusal_never_retried status bytes : retriable (Refused status (XdrResult bytes)) = false.
Proof.
  assert (badSeqText (detailOf (XdrResult bytes)) = false) as Hd.
  { apply not_true_is_false. intros H%badSeq_dUnder. cbn in H. rewrite String.list_ascii_of_string_of_list_ascii, dUnder_none in H; [done|apply base64_plain]. }
  assert (badSeqText (notAccepted status (detailOf (XdrResult bytes))) = false) as Hm.
  { apply not_true_is_false. intros H%badSeq_dUnder. unfold notAccepted in H. cbn [detailOf] in H. rewrite !list_ascii_append, !map_app, app_assoc, dUnder_app in H.
    - by destruct status.
    - destruct (bool_decide _); [apply not_elem_of_nil|]. rewrite list_ascii_append, map_app, String.list_ascii_of_string_of_list_ascii.
      intros [H'|H']%elem_of_app; [|by apply base64_plain in H']. apply list_elem_of_singleton in H'. discriminate. }
  unfold retriable, answerOf. rewrite Hd, Hm. exact Hm.
Qed.

(** ** Examples *)

Definition demoRelayerConfig : RelayerConfig := mkRelayerConfig 0x1.8p0%float 100000%float 30000 1000 3.
(** A node that answers a bad sequence number with [refusal]; nothing idles. *)
Definition demoRelayerEnv (refusal : ErrorResult) : RelayerEnv := mkRelayerEnv
  (fun _ => 1000) (fun _ acc => Ok (mkAccount (500 + Z.of_nat (length acc)) None)) (fun _ => Err "no fee statistics")
  (fun _ acc tx => if bool_decide (bt_sequence tx = 500 + Z.of_nat (length acc) + 1) then (true, Accepted "hash") else (false, Refused StError refusal)).
Definition demoBuilder (d : Z) : Builder := fun seq fee => Ok (mkBuilt (seq + 1) fee, seq + d).
(** [txBAD_SEQ] as the SDK returns it. *)
Definition badSeqXdr : ErrorResult := XdrResult [0; 0; 0; 0; 0; 0; 0; 100; 255; 255; 255; 251; 0; 0; 0; 0].

Lemma demo_healthy refusal : HealthyNode (demoRelayerEnv refusal) 500.
Proof.
  split; [by intros n acc a [= <-]|]. intros n acc tx H. exists "hash". cbn. unfold current in H. by rewrite (bool_decide_eq_true_2 _ H).
Qed.

Lemma submission_taken_at_most_once_witness :
  let s' := (submitWithRetries demoRelayerConfig (demoRelayerEnv (TextResult "txBAD_SEQ")) (demoBuilder 0) true (setSequence (Some 700) newRelayer)).2 in
  (ra_accepted s' = [] ∨ ∃ tx, ra_accepted s' = [] ++ [tx]) ∧ (ra_sent s' <= 0 + 3)%nat.
Proof.
  apply (submission_taken_at_most_once demoRelayerConfig (demoRelayerEnv (TextResult "txBAD_SEQ"))). intros n acc tx a. cbn. destruct (bool_decide _); [by intros [= <-]|discriminate].
Defined.

Lemma queue_sends_in_sequence_witness :
  let s' := (runQueue demoRelayerConfig (demoRelayerEnv NoResult) true [SubmitJob (demoBuilder 0); SubmitJob (demoBuilder 0)] newRelayer).2 in
  inStep 500 s' ∧ extends 500 newRelayer s'.
Proof.
  apply (queue_sends_in_sequence demoRelayerConfig (demoRelayerEnv NoResult)); [apply demo_healthy| |by intros q].
  repeat apply Forall_cons_2; [..|apply Forall_nil_2]; intros seq fee tx seq' [= <- <-]; cbn; lia.
Defined.

Example queue_demo :
  map bt_sequence (ra_accepted (runQueue demoRelayerConfig (demoRelayerEnv NoResult) true [SubmitJob (demoBuilder 0); SubmitJob (demoBuilder 0)] newRelayer).2) = [501; 502].
Proof. vm_compute. reflexivity. Qed.

(** A builder that increments the account itself, as the SDK's transaction builder
    does, has it incremented twice: the cache runs ahead of the account. *)
Lemma builder_increment_runs_ahead cfg env base build attempt s h s' :
  HealthyNode env base -> leaves 1 build -> inStep base s -> attemptOnce cfg env build attempt s = (Ok h, s') ->
  ra_cachedSequence s' = Some (current base (ra_accepted s') + 1).
Proof.
  intros Hn Hb Hs E. pose proof (attempt_inStep cfg env base Hn build 1 Hb attempt s Hs) as H. rewrite E in H.
  destruct H as [(e & [=] & _)|(h' & tx & _ & _ & _ & _ & H)]. exact H.
Qed.

(** With the refusal carried as XDR, every later submission then fails. *)
Example builder_increment_stalls :
  let '(rs, s') := runQueue demoRelayerConfig (demoRelayerEnv badSeqXdr) true [SubmitJob (demoBuilder 1); SubmitJob (demoBuilder 1); SubmitJob (demoBuilder 1)] newRelayer in
  map (fun r => match r with Ok _ => true | Err _ => false end) rs = [true; false; false] ∧ length (ra_accepted s') = 1%nat ∧ ra_cachedSequence s' = Some 502.
Proof. vm_compute. repeat split. Qed.

(** An answer without balances fills the cache with the minimum: the balance is reported
    ready although it was never read. *)
Lemma unread_balance_reported_ready cfg env s a :
  re_getAccount env (ra_calls s) (ra_accepted s) = Ok a -> ac_native a = None -> ra_cachedBalanceStroops s = None ->
  balanceReady cfg true (refreshBalance cfg env s).2 = true.
Proof. intros E En Ec. unfold refreshBalance. rewrite E, En, Ec. cbn. apply Z.leb_refl. Qed.
