(* ===== verification/LeaderElection.v ===== *)
(** Leader election between replicas (src/leader/leader-elector.service.ts) and the
    claim scheduler it gates (src/claim/claim.scheduler.ts), as an interleaving of the
    replicas' asynchronous steps with the Redis server's.

    Every [await] of the source is two events, the server executing the request and the
    replica resuming with the answer; a request may also fail at the replica, and then
    still execute later.  The replicas' clocks and the server's are one clock. *)

From stdpp Require Import base list strings sorting functions.
From Stdlib Require Import ZArith Lia Floats.
From S2P Require Import Prelude Decimal JsNum JsParse.

#[local] Open Scope Z_scope.

(** * Configuration *)

(** [intFromEnv]: the error is thrown by the constructor. *)
Definition intFromEnv (key : string) (raw : option string) (fallback : Z) : res string Z :=
  match raw with
  | None => Ok fallback
  | Some t =>
      if bool_decide (trim (String.list_ascii_of_string t) = []) then Ok fallback
      else match round_to_Z (toNumber t) with
        | Some z => if neq (num_of_Z z) (toNumber t) && (0 <? z) then Ok z else Err (key +:+ " must be a positive integer")
        | None => Err (key +:+ " must be a positive integer")
        end
  end.

Definition DEFAULT_LEASE_TTL_MS : Z := 15000.
Definition DEFAULT_LEASE_RENEW_MS : Z := 5000.

(** The constructor: the lease's and the renewal's milliseconds. *)
Definition configure (ttl renew : option string) : res string (Z * Z) :=
  leaseTtlMs ← intFromEnv "ORACLE_LEASE_TTL_MS" ttl DEFAULT_LEASE_TTL_MS;
  renewMs ← intFromEnv "ORACLE_LEASE_RENEW_MS" renew DEFAULT_LEASE_RENEW_MS;
  if leaseTtlMs <=? renewMs then Err "ORACLE_LEASE_RENEW_MS must be less than ORACLE_LEASE_TTL_MS" else Ok (leaseTtlMs, renewMs).

(** * Replicas and the server *)

(** Where a tick is suspended; [startedAt] is read before the request is sent. *)
Inductive TickState :=
| NotTicking
| SetCalled (startedAt : Z) | SetAnswered (startedAt : Z) (ok : bool)
| IncrCalled (startedAt : Z) | IncrAnswered (startedAt : Z) (epoch : Z)
| RenewCalled (startedAt : Z) | RenewAnswered (startedAt : Z) (ok : bool).

(** [Abandoned]: stopped after the release failed at the replica, its request still
    travelling. *)
Inductive ShutdownState := Running | ReleaseCalled | ReleaseExecuted | Abandoned | Stopped.

Record Replica := mkReplica {
  rp_fencingToken : option Z; rp_leaseDeadline : Z; rp_tick : TickState; rp_shutdown : ShutdownState;
  (** The claim scheduler of the same process. *)
  rp_inFlight : bool; rp_shuttingDown : bool }.
Definition newReplica : Replica := mkReplica None 0 NotTicking Running false false.

(** The lease key's owner and expiry, the epoch counter, and the replicas; [w_writes] is
    the log of the steps that [assertLeadership] let through, with their tokens. *)
Record World := mkWorld { w_now : Z; w_lease : option (nat * Z); w_epoch : Z; w_replica : nat -> Replica; w_writes : list (nat * Z) }.

Definition setTick (t : TickState) (r : Replica) : Replica :=
  mkReplica (rp_fencingToken r) (rp_leaseDeadline r) t (rp_shutdown r) (rp_inFlight r) (rp_shuttingDown r).
Definition setShutdown (sd : ShutdownState) (r : Replica) : Replica :=
  mkReplica (rp_fencingToken r) (rp_leaseDeadline r) (rp_tick r) sd (rp_inFlight r) (rp_shuttingDown r).
Definition setLeadership (token : option Z) (deadline : Z) (r : Replica) : Replica :=
  mkReplica token deadline (rp_tick r) (rp_shutdown r) (rp_inFlight r) (rp_shuttingDown r).
Definition setInFlight (b : bool) (r : Replica) : Replica :=
  mkReplica (rp_fencingToken r) (rp_leaseDeadline r) (rp_tick r) (rp_shutdown r) b (rp_shuttingDown r).
Definition setShuttingDown (r : Replica) : Replica :=
  mkReplica (rp_fencingToken r) (rp_leaseDeadline r) (rp_tick r) (rp_shutdown r) (rp_inFlight r) true.
Definition stepDown (r : Replica) : Replica := setLeadership None 0 r.

Definition updateReplica (i : nat) (f : Replica -> Replica) (w : World) : World :=
  mkWorld (w_now w) (w_lease w) (w_epoch w) (<[i := f (w_replica w i)]> (w_replica w)) (w_writes w).
Definition setLease (l : option (nat * Z)) (w : World) : World := mkWorld (w_now w) l (w_epoch w) (w_replica w) (w_writes w).
Definition setEpoch (n : Z) (w : World) : World := mkWorld (w_now w) (w_lease w) n (w_replica w) (w_writes w).

(** ** The replica's own view *)

Definition isLeader (enabled : bool) (now : Z) (r : Replica) : bool :=
  if negb enabled then true else bool_decide (rp_fencingToken r ≠ None) && (now <? rp_leaseDeadline r).
Definition assertLeadership (enabled : bool) (now : Z) (r : Replica) : res string Z :=
  if negb enabled then Ok 0
  else match rp_fencingToken r with
    | Some t => if isLeader enabled now r then Ok t else Err "Oracle leadership not held; refusing side-effecting step"
    | None => Err "Oracle leadership not held; refusing side-effecting step"
    end.

(** ** The server *)

(** The owner of an unexpired key. *)
Definition owner (w : World) : option nat := '(i, expiry) ← w_lease w; if w_now w <=? expiry then Some i else None.

Section Events.
Variable ttl : Z.

(** [SET key id PX ttl NX] *)
Definition redisSetNx (i : nat) (w : World) : bool * World :=
  match owner w with Some _ => (false, w) | None => (true, setLease (Some (i, w_now w + ttl)) w) end.
(** [RENEW_SCRIPT] and [RELEASE_SCRIPT] *)
Definition redisRenew (i : nat) (w : World) : bool * World :=
  if bool_decide (owner w = Some i) then (true, setLease (Some (i, w_now w + ttl)) w) else (false, w).
Definition redisRelease (i : nat) (w : World) : World := if bool_decide (owner w = Some i) then setLease None w else w.
Definition redisIncr (w : World) : Z * World := (w_epoch w + 1, setEpoch (w_epoch w + 1) w).

(** ** Events *)

Inductive Event :=
| Advance (ms : N)
| TickStart (i : nat) | TickServed (i : nat) | TickResumed (i : nat) | TickFailed (i : nat)
| LateSet (i : nat) | LateIncr | LateRenew (i : nat) | LateRelease (i : nat)
| Shutdown (i : nat) | ReleaseServed (i : nat) | ReleaseResumed (i : nat) | ReleaseFailed (i : nat)
| AssertedWrite (i : nat)
| StartScan (i : nat) | EndScan (i : nat) | SchedulerShutdown (i : nat).

(** [tick] up to its first request; the interval is cleared by the shutdown. *)
Definition tickStart (i : nat) (w : World) : World :=
  let r := w_replica w i in
  match rp_tick r, rp_shutdown r with
  | NotTicking, Running =>
      updateReplica i (setTick (match rp_fencingToken r with None => SetCalled (w_now w) | Some _ => RenewCalled (w_now w) end)) w
  | _, _ => w
  end.

(** The server executes the pending request of the tick. *)
Definition tickServed (i : nat) (w : World) : World :=
  match rp_tick (w_replica w i) with
  | SetCalled t => let '(ok, w') := redisSetNx i w in updateReplica i (setTick (SetAnswered t ok)) w'
  | IncrCalled t => let '(n, w') := redisIncr w in updateReplica i (setTick (IncrAnswered t n)) w'
  | RenewCalled t => let '(ok, w') := redisRenew i w in updateReplica i (setTick (RenewAnswered t ok)) w'
  | _ => w
  end.

(** The tick goes on with the answer. *)
Definition tickResumed (i : nat) (w : World) : World :=
  match rp_tick (w_replica w i) with
  | SetAnswered t true => updateReplica i (setTick (IncrCalled t)) w
  | SetAnswered _ false => updateReplica i (setTick NotTicking) w
  | IncrAnswered t n => updateReplica i (fun r => setTick NotTicking (setLeadership (Some n) (t + ttl) r)) w
  | RenewAnswered t true => updateReplica i (fun r => setTick NotTicking (setLeadership (rp_fencingToken r) (t + ttl) r)) w
  | RenewAnswered _ false => updateReplica i (fun r => setTick NotTicking (stepDown r)) w
  | _ => w
  end.

(** [handleRedisError] *)
Definition tickFailed (i : nat) (w : World) : World :=
  match rp_tick (w_replica w i) with
  | NotTicking => w
  | _ => updateReplica i (fun r => setTick NotTicking (match rp_fencingToken r with Some _ => stepDown r | None => r end)) w
  end.

(** [onApplicationShutdown]: nothing to release without a token. *)
Definition shutdown (i : nat) (w : World) : World :=
  match rp_shutdown (w_replica w i) with
  | Running => updateReplica i (fun r => setShutdown (match rp_fencingToken r with Some _ => ReleaseCalled | None => Stopped end) r) w
  | _ => w
  end.
Definition releaseServed (i : nat) (w : World) : World :=
  match rp_shutdown (w_replica w i) with ReleaseCalled => updateReplica i (setShutdown ReleaseExecuted) (redisRelease i w) | _ => w end.
Definition releaseResumed (i : nat) (w : World) : World :=
  match rp_shutdown (w_replica w i) with ReleaseExecuted => updateReplica i (fun r => setShutdown Stopped (stepDown r)) w | _ => w end.
Definition releaseFailed (i : nat) (w : World) : World :=
  match rp_shutdown (w_replica w i) with
  | ReleaseCalled => updateReplica i (fun r => setShutdown Abandoned (stepDown r)) w
  | ReleaseExecuted => updateReplica i (fun r => setShutdown Stopped (stepDown r)) w
  | _ => w
  end.
Definition lateRelease (i : nat) (w : World) : World :=
  match rp_shutdown (w_replica w i) with Abandoned => updateReplica i (setShutdown Stopped) (redisRelease i w) | _ => w end.

(** A step the replica takes after [assertLeadership]. *)
Definition assertedWrite (i : nat) (w : World) : World :=
  match assertLeadership true (w_now w) (w_replica w i) with
  | Ok t => mkWorld (w_now w) (w_lease w) (w_epoch w) (w_replica w) (w_writes w ++ [(i, t)])
  | Err _ => w
  end.

(** [handleClaimSettlement] up to the run, and its end. *)
Definition startScan (i : nat) (w : World) : World :=
  let r := w_replica w i in
  if rp_shuttingDown r || negb (isLeader true (w_now w) r) || rp_inFlight r then w else updateReplica i (setInFlight true) w.

Definition exec (e : Event) (w : World) : World :=
  match e with
  | Advance ms => mkWorld (w_now w + Z.of_N ms) (w_lease w) (w_epoch w) (w_replica w) (w_writes w)
  | TickStart i => tickStart i w | TickServed i => tickServed i w | TickResumed i => tickResumed i w | TickFailed i => tickFailed i w
  | LateSet i => (redisSetNx i w).2 | LateIncr => (redisIncr w).2 | LateRenew i => (redisRenew i w).2 | LateRelease i => lateRelease i w
  | Shutdown i => shutdown i w | ReleaseServed i => releaseServed i w | ReleaseResumed i => releaseResumed i w | ReleaseFailed i => releaseFailed i w
  | AssertedWrite i => assertedWrite i w
  | StartScan i => startScan i w | EndScan i => updateReplica i (setInFlight false) w | SchedulerShutdown i => updateReplica i setShuttingDown w
  end.

Definition initial (now : Z) : World := mkWorld now None 0 (fun _ => newReplica) [].
Definition runEvents (es : list Event) (w : World) : World := foldl (fun w e => exec e w) w es.
End Events.

(** * One leader at a time *)

Section Exclusion.
Variable ttl : Z.

(** The lease is [i]'s until [d] at least. *)
Definition holds (w : World) (i : nat) (d : Z) : Prop := ∃ expiry, w_lease w = Some (i, expiry) ∧ d <= expiry.

Definition fresh (sd : ShutdownState) : Prop := sd = Running ∨ sd = Stopped.

(** What holds of a replica whose lease runs to [d] exactly when [H d]. *)
Record replicaOk (now : Z) (H : Z -> Prop) (r : Replica) : Prop := {
  ro_deadline : rp_fencingToken r ≠ None -> rp_leaseDeadline r <= now + ttl;
  ro_leading : rp_fencingToken r ≠ None -> now < rp_leaseDeadline r -> rp_shutdown r ≠ ReleaseExecuted -> H (rp_leaseDeadline r);
  ro_abandoned : rp_shutdown r = Abandoned -> rp_fencingToken r = None;
  ro_tick : match rp_tick r with
    | NotTicking => True
    | SetCalled t | SetAnswered t false => t <= now ∧ rp_fencingToken r = None ∧ fresh (rp_shutdown r)
    | SetAnswered t true | IncrCalled t | IncrAnswered t _ => t <= now ∧ rp_fencingToken r = None ∧ fresh (rp_shutdown r) ∧ (now < t + ttl -> H (t + ttl))
    | RenewCalled t | RenewAnswered t false => t <= now
    | RenewAnswered t true => t <= now ∧ (rp_fencingToken r ≠ None -> now < t + ttl -> rp_shutdown r ≠ ReleaseExecuted -> H (t + ttl))
    end }.

Definition Inv (w : World) : Prop := ∀ i, replicaOk (w_now w) (holds w i) (w_replica w i).

(** A replica's facts survive a lease that still covers what the old one did, and time. *)
Lemma replicaOk_mono now now' (H H' : Z -> Prop) r :
  now <= now' -> (∀ d, now' < d -> d <= now + ttl -> H d -> H' d) -> replicaOk now H r -> replicaOk now' H' r.
Proof.
  intros Hn HH [A B C D]. split; [intros Ht; specialize (A Ht); lia| |done|].
  - intros Ht Hd Hs. apply HH; [done|by apply A|]. apply B; [done|lia|done].
  - assert (∀ t, t <= now -> (now < t + ttl -> H (t + ttl)) -> now' < t + ttl -> H' (t + ttl)) as G by (intros t Ht HG Hl; apply HH; [done|lia|apply HG; lia]).
    destruct (rp_tick r) as [|t|t []|t|t n|t|t []]; [done|destruct D; split; [lia|done]|..|lia| |lia];
      [|destruct D; split; [lia|done]|..]; destruct D as (D1 & D2); (split; [lia|]); [..|intros Ht Hl Hs; apply (G t); [done|by auto|done]].
    all: destruct D2 as (D2 & D3 & D4); (split; [done|]); (split; [done|]); by apply G.
Qed.

Lemma holds_owner w i d : holds w i d -> w_now w < d -> owner w = Some i.
Proof. intros (e & E & Hd) Hn. unfold owner. rewrite E. cbn. destruct (Z.leb_spec (w_now w) e); [done|lia]. Qed.

(** Lease changes keep the other facts: [i] alone may lose its lease, by its release. *)
Lemma setNx_holds i j w d : w_now w < d -> holds w j d -> holds (redisSetNx ttl i w).2 j d.
Proof. intros Hd H. unfold redisSetNx. by rewrite (holds_owner w j d H Hd). Qed.
Lemma renew_holds i j w d : w_now w < d -> d <= w_now w + ttl -> holds w j d -> holds (redisRenew ttl i w).2 j d.
Proof.
  intros Hd Ht H. unfold redisRenew. rewrite (holds_owner w j d H Hd). destruct (bool_decide_reflect (Some j = Some i)) as [[= ->]|]; [|done]. cbn. by eexists.
Qed.
Lemma release_holds i j w d : i ≠ j -> w_now w < d -> holds w j d -> holds (redisRelease i w) j d.
Proof. intros Hij Hd H. unfold redisRelease. rewrite (holds_owner w j d H Hd). destruct (bool_decide_reflect (Some j = Some i)); [congruence|done]. Qed.

Lemma setNx_frame i w : w_now (redisSetNx ttl i w).2 = w_now w ∧ w_replica (redisSetNx ttl i w).2 = w_replica w.
Proof. unfold redisSetNx. by destruct (owner w). Qed.
Lemma renew_frame i w : w_now (redisRenew ttl i w).2 = w_now w ∧ w_replica (redisRenew ttl i w).2 = w_replica w.
Proof. unfold redisRenew. by destruct (bool_decide _). Qed.
Lemma release_frame i w : w_now (redisRelease i w) = w_now w ∧ w_replica (redisRelease i w) = w_replica w.
Proof. unfold redisRelease. by destruct (bool_decide _). Qed.

Lemma Inv_server w w' : w_now w' = w_now w -> w_replica w' = w_replica w ->
  (∀ j d, w_now w < d -> d <= w_now w + ttl -> holds w j d -> holds w' j d) -> Inv w -> Inv w'.
Proof. intros En Er H Hi j. rewrite En, Er. apply (replicaOk_mono (w_now w) _ (holds w j)); [lia|by apply H|apply Hi]. Qed.

(** Updating one replica. *)
Lemma Inv_update i f w : (∀ j, j ≠ i -> replicaOk (w_now w) (holds w j) (w_replica w j)) ->
  replicaOk (w_now w) (holds w i) (f (w_replica w i)) -> Inv (updateReplica i f w).
Proof.
  intros Ho Hi j. cbn. destruct (decide (j = i)) as [->|Hne]; [by rewrite fn_lookup_insert|]. rewrite fn_lookup_insert_ne by done. by apply Ho.
Qed.
Lemma Inv_local i f w : Inv w -> (replicaOk (w_now w) (holds w i) (w_replica w i) -> replicaOk (w_now w) (holds w i) (f (w_replica w i))) -> Inv (updateReplica i f w).
Proof. intros H Hf. apply Inv_update; [by intros j _|by apply Hf]. Qed.

Ltac local_step := intros [HA HB HC HD]; destruct (w_replica _ _) as [token dl tk sd fl sh]; cbn in *.

Lemma Inv_tickStart i w : Inv w -> Inv (tickStart i w).
Proof.
  intros Hw. unfold tickStart. destruct (rp_tick (w_replica w i)) eqn:Et; try done. destruct (rp_shutdown (w_replica w i)) eqn:Es; try done.
  apply Inv_local; [done|]. local_step. subst. split; cbn; try done. destruct token; [lia|]. repeat split; [lia|by left].
Qed.

Lemma Inv_tickServed i w : Inv w -> Inv (tickServed ttl i w).
Proof.
  intros Hw. unfold tickServed. pose proof (ro_tick _ _ _ (Hw i)) as Hi. destruct (rp_tick (w_replica w i)) as [|t| |t| |t|] eqn:Et; try done.
  - destruct Hi as (Ht & Hk & Hf). destruct (redisSetNx ttl i w) as [ok w'] eqn:E.
    assert (Inv w') as Hw'. { replace w' with (redisSetNx ttl i w).2 by by rewrite E. apply (Inv_server w); [apply setNx_frame..| |done]. intros j d Hd _. by apply setNx_holds. }
    apply Inv_local; [done|]. assert (ok = true -> holds w' i (t + ttl)) as Ho.
    { unfold redisSetNx in E. destruct (owner w); injection E as <- <-; [done|]. intros _. eexists. split; [reflexivity|]. cbn. lia. }
    assert (w_now w' = w_now w ∧ w_replica w' = w_replica w) as [En Er] by (replace w' with (redisSetNx ttl i w).2 by (by rewrite E); apply setNx_frame).
    rewrite <- Er in Hk, Hf. rewrite <- En in Ht. local_step. split; cbn; try done. destruct ok; [|done]. repeat split; [done..|]. intros _. by apply Ho.
  - apply Inv_local; [exact Hw|]. cbn in *. local_step. subst. split; cbn; done.
  - destruct (redisRenew ttl i w) as [ok w'] eqn:E.
    assert (Inv w') as Hw'. { replace w' with (redisRenew ttl i w).2 by by rewrite E. apply (Inv_server w); [apply renew_frame..| |done]. intros j d. by apply renew_holds. }
    apply Inv_local; [done|]. assert (ok = true -> holds w' i (t + ttl)) as Ho.
    { unfold redisRenew in E. destruct (bool_decide _); injection E as <- <-; [|done]. intros _. eexists. split; [reflexivity|]. cbn. lia. }
    assert (w_now w' = w_now w) as En by (replace w' with (redisRenew ttl i w).2 by (by rewrite E); apply renew_frame).
    rewrite <- En in Hi. local_step. split; cbn; try done. destruct ok; [|done]. split; [done|]. intros _ _ _. by apply Ho.
Qed.

Lemma Inv_tickResumed i w : Inv w -> Inv (tickResumed ttl i w).
Proof.
  intros Hw. unfold tickResumed. destruct (rp_tick (w_replica w i)) as [|t|t []|t|t n|t|t []] eqn:Et; try done; apply Inv_local; try done; local_step; subst; split; cbn; try done; try lia.
  - intros _ Hd _. apply HD. lia.
  - intros ->. by destruct HD as (_ & _ & [Hf|Hf] & _).
  - intros Hk Hd Hs. by apply HD.
Qed.

(** Giving up leadership keeps the facts. *)
Lemma stepDown_ok now H r : replicaOk now H r -> (match rp_tick r with NotTicking | RenewCalled _ | RenewAnswered _ _ => True | _ => False end) ->
  ∀ sd, replicaOk now H (setShutdown sd (stepDown r)).
Proof.
  intros [HA HB HC HD] Ht sd. destruct r as [token dl tk s fl sh]; cbn in *. split; cbn; try done.
  destruct tk as [|t| |t| |t|t []]; try done. split; [apply HD|done].
Qed.

Lemma Inv_tickFailed i w : Inv w -> Inv (tickFailed i w).
Proof.
  intros Hw. unfold tickFailed. assert (Inv (updateReplica i (fun r => setTick NotTicking (match rp_fencingToken r with Some _ => stepDown r | None => r end)) w)) as G.
  { apply Inv_local; [done|]. local_step. destruct token; split; cbn; done. }
  by destruct (rp_tick (w_replica w i)).
Qed.

(** While a release is under way the replica is not acquiring. *)
Lemma releasing_tick w i : Inv w -> rp_shutdown (w_replica w i) = ReleaseCalled ∨ rp_shutdown (w_replica w i) = ReleaseExecuted ->
  match rp_tick (w_replica w i) with NotTicking | RenewCalled _ | RenewAnswered _ _ => True | _ => False end.
Proof.
  intros Hw Hs. pose proof (ro_tick _ _ _ (Hw i)) as Hi. destruct (rp_tick (w_replica w i)) as [|t|t []|t|t n|t|t []]; try done.
  all: destruct Hi as (_ & _ & Hf); try (destruct Hf as [Hf _]); destruct Hf as [Hf|Hf], Hs as [Hs|Hs]; congruence.
Qed.

Lemma Inv_shutdown i w : Inv w -> Inv (shutdown i w).
Proof.
  intros Hw. unfold shutdown. destruct (rp_shutdown (w_replica w i)) eqn:Es; try done. apply Inv_local; [done|]. local_step. subst.
  destruct token as [n|]; split; cbn; try done.
  - intros _ Hd _. by apply HB.
  - destruct tk as [|t|t []|t|t n'|t|t []]; try done; try by (destruct HD as (_ & [=] & _)). destruct HD as [HD1 HD2]. split; [done|]. intros _ Hl _. by apply HD2.
  - destruct tk as [|t|t []|t|t n'|t|t []]; try done.
    all: try (destruct HD as (HD1 & HD2 & HD3 & HD4); repeat split; [done|by right|done]).
    all: try (destruct HD as (HD1 & HD2 & HD3); repeat split; [done|by right]). split; [apply HD|done].
Qed.

Lemma Inv_releaseServed i w : Inv w -> Inv (releaseServed i w).
Proof.
  intros Hw. unfold releaseServed. destruct (rp_shutdown (w_replica w i)) eqn:Es; try done. pose proof (releasing_tick w i Hw (or_introl Es)) as Ht.
  destruct (release_frame i w) as [En Er]. apply Inv_update; rewrite Er, En.
  - intros j Hj. apply (replicaOk_mono (w_now w) _ (holds w j)); [lia| |apply Hw]. intros d Hd _. by apply release_holds.
  - destruct (Hw i) as [HA HB HC HD]. destruct (w_replica w i) as [token dl tk sd fl sh]; cbn in *. split; cbn; try done.
    destruct tk as [|t| |t| |t|t []]; try done. split; [apply HD|done].
Qed.

Lemma Inv_releaseResumed i w : Inv w -> Inv (releaseResumed i w).
Proof.
  intros Hw. unfold releaseResumed. destruct (rp_shutdown (w_replica w i)) eqn:Es; try done. apply Inv_local; [done|].
  intros H. apply stepDown_ok; [done|]. apply releasing_tick; auto.
Qed.
Lemma Inv_releaseFailed i w : Inv w -> Inv (releaseFailed i w).
Proof.
  intros Hw. unfold releaseFailed. destruct (rp_shutdown (w_replica w i)) eqn:Es; try done; (apply Inv_local; [done|]);
    intros H; (apply stepDown_ok; [done|]); apply releasing_tick; auto.
Qed.
Lemma Inv_lateRelease i w : Inv w -> Inv (lateRelease i w).
Proof.
  intros Hw. unfold lateRelease. destruct (rp_shutdown (w_replica w i)) eqn:Es; try done. destruct (release_frame i w) as [En Er].
  apply Inv_update; rewrite Er, En.
  - intros j Hj. apply (replicaOk_mono (w_now w) _ (holds w j)); [lia| |apply Hw]. intros d Hd _. by apply release_holds.
  - destruct (Hw i) as [HA HB HC HD]. destruct (w_replica w i) as [token dl tk sd fl sh]; cbn in *. subst. specialize (HC eq_refl). subst. split; cbn; try done.
    destruct tk as [|t|t []|t|t n|t|t []]; try done; try by (destruct HD as (_ & _ & [Hf|Hf] & _)). 
    all: try by (destruct HD as (_ & _ & [Hf|Hf])). split; [apply HD|done].
Qed.

Lemma Inv_frame w w' : w_now w' = w_now w -> w_replica w' = w_replica w -> w_lease w' = w_lease w -> Inv w -> Inv w'.
Proof. intros En Er El. apply Inv_server; [done|done|]. intros j d _ _ (e & E & Hd). exists e. by rewrite El. Qed.

Lemma Inv_exec e w : Inv w -> Inv (exec ttl e w).
Proof.
  intros Hw. destruct e; cbn [exec]; auto using Inv_tickStart, Inv_tickServed, Inv_tickResumed, Inv_tickFailed, Inv_shutdown, Inv_releaseServed, Inv_releaseResumed, Inv_releaseFailed, Inv_lateRelease.
  - intros j. cbn. apply (replicaOk_mono (w_now w) _ (holds w j)); [lia|done|apply Hw].
  - apply (Inv_server w); [apply setNx_frame..| |done]. intros j d Hd _. by apply setNx_holds.
  - apply (Inv_server w); [apply renew_frame..| |done]. intros j d. by apply renew_holds.
  - unfold assertedWrite. destruct (assertLeadership _ _ _); [exact (Inv_frame w _ eq_refl eq_refl eq_refl Hw)|done].
  - unfold startScan. destruct (_ || _); [done|]. apply Inv_local; [done|]. local_step. by split.
  - apply Inv_local; [done|]. local_step. by split.
  - apply Inv_local; [done|]. local_step. by split.
Qed.

Lemma Inv_run es : ∀ w, Inv w -> Inv (runEvents ttl es w).
Proof. induction es as [|e es IH]; intros w Hw; [done|]. apply IH, Inv_exec, Hw. Qed.

Lemma Inv_initial now : Inv (initial now).
Proof. by split. Qed.

Lemma leader_holds w i : Inv w -> isLeader true (w_now w) (w_replica w i) = true -> rp_shutdown (w_replica w i) ≠ ReleaseExecuted -> owner w = Some i.
Proof.
  intros Hw [Ht Hd%Z.ltb_lt]%andb_true_iff Hs. apply bool_decide_eq_true in Ht. apply (holds_owner w i (rp_leaseDeadline (w_replica w i))); [|done].
  by apply (ro_leading _ _ _ (Hw i)).
Qed.
End Exclusion.

(** C6: However the replicas' steps, failures, delayed requests, shutdowns and the
    server's interleave, a replica that considers itself the leader owns the unexpired
    lease, so no two do, except a replica that waits for the answer to its own release:
    the server has deleted its lease and it still reports leadership. *)
Theorem one_leader_at_a_time ttl now es i j :
  let w := runEvents ttl es (initial now) in
  isLeader true (w_now w) (w_replica w i) = true -> isLeader true (w_now w) (w_replica w j) = true ->
  i = j ∨ rp_shutdown (w_replica w i) = ReleaseExecuted ∨ rp_shutdown (w_replica w j) = ReleaseExecuted.
Proof.
  intros w Hi Hj. assert (Inv ttl w) as Hw by apply Inv_run, Inv_initial.
  assert (∀ k, rp_shutdown (w_replica w k) = ReleaseExecuted ∨ rp_shutdown (w_replica w k) ≠ ReleaseExecuted) as Hd by (intros k; destruct (rp_shutdown _); auto).
  destruct (Hd i) as [?|Ni]; [by right; left|]. destruct (Hd j) as [?|Nj]; [by right; right|]. left.
  pose proof (leader_holds ttl w i Hw Hi Ni). pose proof (leader_holds ttl w j Hw Hj Nj). congruence.
Qed.

(** * Fencing tokens *)

(** Every logged token is below [n], or [n] itself by the same replica. *)
Definition above (n : Z) (i : nat) (log : list (nat * Z)) : Prop := ∀ j a, (j, a) ∈ log -> a <= n ∧ (j ≠ i -> a < n).

(** Tokens never decrease along the log, and grow when the writer changes. *)
Definition fenced (log : list (nat * Z)) : Prop :=
  ∀ before j b, before ++ [(j, b)] `prefix_of` log -> above b j before.

Lemma fenced_snoc log j b : fenced log -> above b j log -> fenced (log ++ [(j, b)]).
Proof.
  intros Hf Ha before k c Hp. destruct (decide (before ++ [(k, c)] `prefix_of` log)) as [H|H]; [exact (Hf _ _ _ H)|].
  destruct Hp as [rest E]. destruct rest as [|x rest _] using rev_ind.
  - rewrite app_nil_r in E. apply app_inj_tail in E as [-> [= -> ->]]. exact Ha.
  - rewrite app_assoc in E. apply app_inj_tail in E as [-> _]. destruct H. by eexists.
Qed.

Section Fencing.
Variable ttl : Z.

Definition running (w : World) : Prop := ∀ i, rp_shutdown (w_replica w i) = Running.
(** No shutdown, and no abandoned [SET] that the server executes later. *)
Definition ordinary (e : Event) : Prop := match e with Shutdown _ | LateSet _ => False | _ => True end.

Lemma running_update i f w : running w -> rp_shutdown (f (w_replica w i)) = Running -> running (updateReplica i f w).
Proof. intros Hr Hf j. cbn. destruct (decide (j = i)) as [->|Hne]; [by rewrite fn_lookup_insert|]. rewrite fn_lookup_insert_ne by done. apply Hr. Qed.

Lemma running_exec e w : ordinary e -> running w -> running (exec ttl e w).
Proof.
  intros He Hr. destruct e as [ms|i|i|i|i|i| |i|i|i|i|i|i|i|i|i|i]; cbn [exec]; try done; try (by (apply running_update; [done|apply (Hr i)])).
  - unfold tickStart. destruct (rp_tick (w_replica w i)), (rp_shutdown (w_replica w i)); try done. apply running_update; [done|apply (Hr i)].
  - unfold tickServed, redisSetNx, redisRenew, redisIncr. destruct (rp_tick (w_replica w i)); try done; [destruct (owner w)| |destruct (bool_decide _)]; (apply running_update; [done|apply (Hr i)]).
  - unfold tickResumed. destruct (rp_tick (w_replica w i)) as [| |? []| | | |? []]; try done; (apply running_update; [done|apply (Hr i)]).
  - unfold tickFailed. destruct (rp_tick (w_replica w i)); try done; (apply running_update; [done|]); destruct (rp_fencingToken (w_replica w i)); apply (Hr i).
  - unfold redisRenew. by destruct (bool_decide _).
  - unfold lateRelease. by rewrite (Hr i).
  - unfold releaseServed. by rewrite (Hr i).
  - unfold releaseResumed. by rewrite (Hr i).
  - unfold releaseFailed. by rewrite (Hr i).
  - unfold assertedWrite. by destruct (assertLeadership _ _ _).
  - unfold startScan. destruct (_ || _); [done|]. apply running_update; [done|apply (Hr i)].
Qed.

(** [own]: the replica owns the unexpired lease. *)
Record replicaFenced (epoch : Z) (log : list (nat * Z)) (i : nat) (own : Prop) (r : Replica) : Prop := {
  rf_token : ∀ n, rp_fencingToken r = Some n -> n <= epoch ∧ (own -> above n i log);
  rf_answered : ∀ t n, rp_tick r = IncrAnswered t n -> n <= epoch ∧ (own -> above n i log) }.

Record Fenced (w : World) : Prop := {
  fd_inv : Inv ttl w; fd_running : running w; fd_log : fenced (w_writes w);
  fd_below : ∀ j a, (j, a) ∈ w_writes w -> a <= w_epoch w;
  fd_replica : ∀ i, replicaFenced (w_epoch w) (w_writes w) i (owner w = Some i) (w_replica w i) }.

Lemma replicaFenced_mono epoch epoch' log i (own own' : Prop) r :
  epoch <= epoch' -> (own' -> own) -> replicaFenced epoch log i own r -> replicaFenced epoch' log i own' r.
Proof.
  intros He Ho [A B]. split; [intros n Hn; destruct (A n Hn)|intros t n Hn; destruct (B t n Hn)]; (split; [lia|auto]).
Qed.

(** A step of [i] that writes nothing. *)
Lemma Fenced_update i f w w' : Fenced w -> Inv ttl (updateReplica i f w') -> running (updateReplica i f w') ->
  w_replica w' = w_replica w -> w_writes w' = w_writes w -> w_epoch w <= w_epoch w' ->
  (∀ j, j ≠ i -> owner w' = Some j -> owner w = Some j) ->
  replicaFenced (w_epoch w') (w_writes w') i (owner w' = Some i) (f (w_replica w i)) -> Fenced (updateReplica i f w').
Proof.
  intros [I R L B F] Hi Hr Er Ew Ee Ho Hf. split; [done|done|..]; cbn [updateReplica w_writes w_epoch]; rewrite ?Ew.
  - exact L.
  - intros j a Hj. specialize (B j a Hj). lia.
  - intros j. change (owner (updateReplica i f w')) with (owner w'). cbn [updateReplica w_replica]. rewrite Er. destruct (decide (j = i)) as [->|Hne].
    + rewrite fn_lookup_insert. by rewrite <- Ew.
    + rewrite fn_lookup_insert_ne by done. apply (replicaFenced_mono (w_epoch w) _ _ _ (owner w = Some j)); [lia|by apply Ho|apply F].
Qed.

Lemma Fenced_server w w' : Fenced w -> Inv ttl w' -> running w' -> w_replica w' = w_replica w -> w_writes w' = w_writes w -> w_epoch w <= w_epoch w' ->
  (∀ j, owner w' = Some j -> owner w = Some j) -> Fenced w'.
Proof.
  intros [I R L B F] Hi Hr Er Ew Ee Ho. split; [done|done|by rewrite Ew|rewrite Ew; intros j a Hj; specialize (B j a Hj); lia|].
  intros j. rewrite Er, Ew. apply (replicaFenced_mono (w_epoch w) _ _ _ (owner w = Some j)); [lia|apply Ho|apply F].
Qed.

Lemma Fenced_write w i : Fenced w -> Fenced (assertedWrite i w).
Proof.
  intros [I R L B F]. unfold assertedWrite, assertLeadership. cbn [negb]. destruct (rp_fencingToken (w_replica w i)) as [n|] eqn:Et; [|by split].
  destruct (isLeader true (w_now w) (w_replica w i)) eqn:El; [|by split].
  assert (owner w = Some i) as Ho by (apply (leader_holds ttl w i I El); by rewrite R).
  destruct (rf_token _ _ _ _ _ (F i) n Et) as [Hn Ha]. specialize (Ha Ho).
  split; [exact (Inv_frame ttl w _ eq_refl eq_refl eq_refl I)|exact R|by apply fenced_snoc|..].
  - cbn. intros j a [Hj|[= -> ->]%list_elem_of_singleton]%elem_of_app; [by apply (B j)|done].
  - intros j. change (owner _) with (owner w). cbn [w_replica w_epoch w_writes]. destruct (decide (j = i)) as [->|Hne].
    + assert (∀ m, (owner w = Some i -> above m i (w_writes w)) -> n <= m -> (owner w = Some i -> above m i (w_writes w ++ [(i, n)]))) as G.
      { intros m Hm Hle How k a [Hk|[= -> ->]%list_elem_of_singleton]%elem_of_app; [by apply Hm|by split]. }
      pose proof (ro_tick _ _ _ _ (I i)) as Hk. destruct (F i) as [A C]. split; [intros m E; rewrite E in Et; injection Et as ->; destruct (A n E); split; [done|by apply G]|].
      intros t m E. rewrite E in Hk. destruct Hk as (_ & Hk & _). congruence.
    + destruct (F j) as [A C]. split; [intros m E; destruct (A m E)|intros t m E; destruct (C t m E)]; (split; [done|]); congruence.
Qed.

Lemma renew_owner i w j : owner (redisRenew ttl i w).2 = Some j -> owner w = Some j.
Proof.
  unfold redisRenew. destruct (bool_decide_reflect (owner w = Some i)) as [E|E]; [|done]. cbn. unfold owner at 1. cbn. by destruct (_ <=? _); [intros [= <-]|].
Qed.
Lemma setNx_owner i w j : j ≠ i -> owner (redisSetNx ttl i w).2 = Some j -> owner w = Some j.
Proof. intros Hne. unfold redisSetNx. destruct (owner w) eqn:E; [cbn; congruence|]. cbn. unfold owner. cbn. destruct (_ <=? _); congruence. Qed.

(** Dropping the answer of a finished or failed tick. *)
Lemma replicaFenced_idle epoch log i own r tk : replicaFenced epoch log i own r -> (∀ t n, tk ≠ IncrAnswered t n) -> replicaFenced epoch log i own (setTick tk r).
Proof. intros [A B] Ht. split; [exact A|]. intros t n E. by destruct (Ht t n). Qed.
Lemma replicaFenced_stepDown epoch log i own r : replicaFenced epoch log i own r -> replicaFenced epoch log i own (stepDown r).
Proof. intros [A B]. by split. Qed.

Lemma Fenced_tickServed i w : Fenced w -> Inv ttl (tickServed ttl i w) -> running (tickServed ttl i w) -> Fenced (tickServed ttl i w).
Proof.
  intros Hw HI HR. pose proof (fd_replica w Hw i) as Hf. unfold tickServed in *. destruct (rp_tick (w_replica w i)) as [|t| |t| |t|] eqn:Et; try done.
  - destruct (setNx_frame ttl i w) as [En Er]. pose proof (setNx_owner i w) as Ho. pose proof (ro_tick _ _ _ _ (fd_inv w Hw i)) as Hk. rewrite Et in Hk. destruct Hk as (_ & Hk & _).
    assert (w_writes (redisSetNx ttl i w).2 = w_writes w ∧ w_epoch (redisSetNx ttl i w).2 = w_epoch w) as [Ew Ee] by (unfold redisSetNx; by destruct (owner w)).
    destruct (redisSetNx ttl i w) as [ok w']. cbn in *. apply (Fenced_update i _ w); try done; [lia|]. split; cbn; [|done]. intros n E. congruence.
  - apply (Fenced_update i _ w); try done; [cbn; lia|]. pose proof (ro_tick _ _ _ _ (fd_inv w Hw i)) as Hk. rewrite Et in Hk. destruct Hk as (_ & Hk & _). split; cbn.
    + intros n E. congruence.
    + intros t' n [= <- <-]. split; [lia|]. intros _ j a Hj. pose proof (fd_below w Hw j a Hj). lia.
  - destruct (renew_frame ttl i w) as [En Er]. pose proof (renew_owner i w) as Ho.
    assert (w_writes (redisRenew ttl i w).2 = w_writes w ∧ w_epoch (redisRenew ttl i w).2 = w_epoch w) as [Ew Ee] by (unfold redisRenew; by destruct (bool_decide _)).
    destruct (redisRenew ttl i w) as [ok w']. cbn in *. apply (Fenced_update i _ w); try done; [lia|by intros j _; apply Ho|]. rewrite Ee, Ew. apply replicaFenced_idle; [|done].
    by apply (replicaFenced_mono (w_epoch w) _ _ _ (owner w = Some i)); [lia|apply Ho|].
Qed.

Lemma Fenced_tickResumed i w : Fenced w -> Inv ttl (tickResumed ttl i w) -> running (tickResumed ttl i w) -> Fenced (tickResumed ttl i w).
Proof.
  intros Hw HI HR. pose proof (fd_replica w Hw i) as Hf. unfold tickResumed in *.
  destruct (rp_tick (w_replica w i)) as [|t|t []|t|t n|t|t []] eqn:Et; try done; apply (Fenced_update i _ w); try done.
  - by apply replicaFenced_idle.
  - by apply replicaFenced_idle.
  - destruct Hf as [A B]. split; cbn; [|done]. intros m [= <-]. exact (B t n Et).
  - destruct Hf as [A B]. by split.
Qed.

Lemma Fenced_exec e w : ordinary e -> Fenced w -> Fenced (exec ttl e w).
Proof.
  intros He Hw. pose proof (Inv_exec ttl e w (fd_inv w Hw)) as HI. pose proof (running_exec e w He (fd_running w Hw)) as HR.
  destruct e as [ms|i|i|i|i|i| |i|i|i|i|i|i|i|i|i|i]; cbn [exec] in *; try done; auto using Fenced_tickServed, Fenced_tickResumed, Fenced_write;
    try (pose proof (fd_replica w Hw i) as Hf).
  - apply (Fenced_server w); try done. unfold owner. cbn. intros j. destruct (w_lease w) as [[k x]|]; [|done]. cbn.
    destruct (Z.leb_spec (w_now w + Z.of_N ms) x), (Z.leb_spec (w_now w) x); try done; lia.
  - unfold tickStart in *. destruct (rp_tick (w_replica w i)), (rp_shutdown (w_replica w i)); try done. apply (Fenced_update i _ w); try done.
    apply replicaFenced_idle; [done|]. by destruct (rp_fencingToken _).
  - unfold tickFailed in *. destruct (rp_tick (w_replica w i)); try done; (apply (Fenced_update i _ w); try done); (apply replicaFenced_idle; [|done]);
      (destruct (rp_fencingToken _); [by apply replicaFenced_stepDown|done]).
  - apply (Fenced_server w); try done. cbn. lia.
  - destruct (renew_frame ttl i w) as [En Er]. apply (Fenced_server w); try done; [unfold redisRenew; by destruct (bool_decide _)..|apply renew_owner].
  - unfold lateRelease in *. by rewrite (fd_running w Hw i).
  - unfold releaseServed in *. by rewrite (fd_running w Hw i).
  - unfold releaseResumed in *. by rewrite (fd_running w Hw i).
  - unfold releaseFailed in *. by rewrite (fd_running w Hw i).
  - unfold startScan in *. destruct (_ || _); [done|]. apply (Fenced_update i _ w); try done. by destruct Hf as [A B].
  - apply (Fenced_update i _ w); try done. by destruct Hf as [A B].
  - apply (Fenced_update i _ w); try done. by destruct Hf as [A B].
Qed.

Lemma Fenced_run es : Forall ordinary es -> ∀ w, Fenced w -> Fenced (runEvents ttl es w).
Proof. induction 1 as [|e es He _ IH]; intros w Hw; [done|]. apply IH, Fenced_exec; done. Qed.

Lemma Fenced_initial now : Fenced (initial now).
Proof.
  split; [apply Inv_initial|done| |by intros j a ?%not_elem_of_nil|by split]. intros before j b [rest E]. by destruct before.
Qed.
End Fencing.

(** As long as no replica shuts down and no abandoned SET is executed later, the
    tokens of the writes that assertLeadership lets through never decrease, and a write
    by another replica than an earlier one carries a larger token. *)
Theorem fencing_tokens_grow ttl now es :
  Forall ordinary es -> fenced (w_writes (runEvents ttl es (initial now))).
Proof. intros He. apply (fd_log ttl), Fenced_run; [done|apply Fenced_initial]. Qed.

(** * Examples *)

(** A tick that acquires the lease, and one that renews it. *)
Definition acquires (i : nat) : list Event := [TickStart i; TickServed i; TickResumed i; TickServed i; TickResumed i].
Definition renews (i : nat) : list Event := [TickStart i; TickServed i; TickResumed i].

Lemma one_leader_at_a_time_witness :
  let w := runEvents 15000 (acquires 0 ++ [Advance 16000] ++ acquires 1 ++ renews 0) (initial 1000) in
  isLeader true (w_now w) (w_replica w 1) = true ∧ isLeader true (w_now w) (w_replica w 0) = false ∧
  (1%nat = 1%nat ∨ rp_shutdown (w_replica w 1) = ReleaseExecuted ∨ rp_shutdown (w_replica w 1) = ReleaseExecuted).
Proof.
  split; [vm_compute; reflexivity|]. split; [vm_compute; reflexivity|].
  apply (one_leader_at_a_time 15000 1000 (acquires 0 ++ [Advance 16000] ++ acquires 1 ++ renews 0) 1 1); vm_compute; reflexivity.
Defined.

Lemma fencing_tokens_grow_witness :
  let w := runEvents 15000 (acquires 0 ++ [AssertedWrite 0; Advance 16000] ++ acquires 1 ++ [AssertedWrite 1; AssertedWrite 0]) (initial 1000) in
  w_writes w = [(0%nat, 1); (1%nat, 2)] ∧ fenced (w_writes w).
Proof.
  split; [vm_compute; reflexivity|]. apply (fencing_tokens_grow 15000 1000). repeat apply Forall_cons_2; try exact I; apply Forall_nil_2.
Defined.

(** A release that the server has executed leaves the replica reporting leadership:
    another one acquires the lease meanwhile, and a write of the first follows one of
    the second with an older token. *)
Example release_leaves_two_leaders :
  let w := runEvents 15000 (acquires 0 ++ [Shutdown 0; ReleaseServed 0] ++ acquires 1 ++ [AssertedWrite 1; AssertedWrite 0]) (initial 1000) in
  isLeader true (w_now w) (w_replica w 0) = true ∧ isLeader true (w_now w) (w_replica w 1) = true ∧ w_writes w = [(1%nat, 2); (0%nat, 1)].
Proof. vm_compute. repeat split. Qed.

(** The scheduler asks only when a run starts: runs of two replicas overlap when the
    lease moves during the first. *)
Example scans_of_two_replicas_overlap :
  let w := runEvents 15000 (acquires 0 ++ [StartScan 0; Advance 16000] ++ acquires 1 ++ [StartScan 1]) (initial 1000) in
  rp_inFlight (w_replica w 0) = true ∧ rp_inFlight (w_replica w 1) = true ∧ isLeader true (w_now w) (w_replica w 0) = false.
Proof. vm_compute. repeat split. Qed.

(** An INCR that fails leaves the lease with a replica that does not lead, until it expires. *)
Example failed_epoch_blocks_lease :
  let w := runEvents 15000 ([TickStart 0; TickServed 0; TickResumed 0; TickFailed 0] ++ [Advance 14000] ++ acquires 0 ++ acquires 1) (initial 1000) in
  isLeader true (w_now w) (w_replica w 0) = false ∧ isLeader true (w_now w) (w_replica w 1) = false ∧ owner w = Some 0%nat.
Proof. vm_compute. repeat split. Qed.

(** The configuration that the constructor accepts renews before the lease ends. *)
Lemma configured_renews_in_time ttl renew l r : configure ttl renew = Ok (l, r) -> 0 < r < l.
Proof.
  unfold configure. intros (a & Ha & (b & Hb & H)%res_bind_Ok)%res_bind_Ok. destruct (Z.leb_spec a b) as [|Hlt]; [done|]. injection H as <- <-. split; [|done].
  unfold intFromEnv in Hb. destruct renew as [x|]; [|by injection Hb as <-]. destruct (bool_decide _); [by injection Hb as <-|].
  destruct (round_to_Z _) as [z|]; [|done]. destruct (neq _ _ && (0 <? z)) eqn:E; [|done]. injection Hb as <-. apply andb_true_iff in E as [_ E]. by apply Z.ltb_lt.
Qed.
