(* ===== verification/Alerting.v ===== *)
(** Alerting and incident routing (src/alerting/alerting.service.ts): the ring buffer of
    recent alerts, fingerprints, severities, and the routing service that deduplicates
    alerts into incidents and drives them through open, acknowledged, escalated and
    resolved, with its notifications and its store.

    Times are milliseconds; the source keeps some of them as ISO text and parses it back,
    which is the identity.  The notifiers and the audit log are outside: their failures
    are swallowed, and the calls to the notifiers are a log of the state. *)

From stdpp Require Import base list strings sorting.
From Stdlib Require Import ZArith Lia Ascii.
From S2P Require Import Prelude Decimal.

#[local] Open Scope Z_scope.

Inductive AlertSeverity := Info | Warning | Critical.

(** * The alerting sink *)

Record AlertEvent := mkAlertEvent { ae_severity : AlertSeverity; ae_title : string; ae_message : string; ae_at : Z }.
Definition maxRecent : nat := 100.

(** [recent.unshift(event)], and [pop] beyond the capacity. *)
Definition emitEvent (e : AlertEvent) (recent : list AlertEvent) : list AlertEvent :=
  let l := e :: recent in if bool_decide (maxRecent < length l)%nat then removelast l else l.
Definition listRecent (limit : nat) (recent : list AlertEvent) : list AlertEvent := take limit recent.

(** * Routing *)

Inductive AlertClass := Staleness | Divergence | Quorum | Anomaly | Degraded | Other.
Inductive RoutingSeverity := Page | Ticket | Informational.
Inductive IncidentState := Open | Acknowledged | Escalated | Resolved.
Inductive IncidentTransition := Opened | Deduped | Grouped | Notified | AcknowledgedT | Renotified | EscalatedT | ResolvedT | AutoResolved.
#[global] Instance IncidentState_eq : EqDecision IncidentState.
Proof. solve_decision. Defined.
#[global] Instance IncidentTransition_eq : EqDecision IncidentTransition.
Proof. solve_decision. Defined.

Record RawAlert := mkRaw {
  al_feedId : string; al_alertClass : AlertClass; al_source : string; al_severity : option AlertSeverity;
  al_title : string; al_message : string; al_payoutTriggering : bool; al_resolved : bool }.

Record IncidentTimelineEntry := mkEntry { te_at : Z; te_transition : IncidentTransition; te_detail : option string; te_actor : option string }.

Record Incident := mkIncident {
  in_id : string; in_fingerprint : string; in_severity : RoutingSeverity; in_state : IncidentState; in_alert : RawAlert;
  in_createdAt : Z; in_updatedAt : Z; in_lastNotifiedAt : option Z; in_acknowledgedAt : option Z; in_acknowledgedBy : option string;
  in_escalatedAt : option Z; in_resolvedAt : option Z; in_notificationCount : Z; in_timeline : list IncidentTimelineEntry }.

Record RoutingConfig := mkRouting {
  ro_dedupWindowMs : Z; ro_renotifyDelayMs : Z; ro_escalationDelayMs : Z; ro_maxNotificationsPerIncident : Z; ro_maxIncidentsPerWindow : nat }.
Definition DEFAULT_ROUTING_CONFIG : RoutingConfig := mkRouting (5 * 60 * 1000) (10 * 60 * 1000) (20 * 60 * 1000) 5 50.

Definition className (c : AlertClass) : string :=
  match c with Staleness => "staleness" | Divergence => "divergence" | Quorum => "quorum" | Anomaly => "anomaly" | Degraded => "degraded" | Other => "other" end.
Definition fingerprintAlert (a : RawAlert) : string := al_feedId a +:+ "::" +:+ className (al_alertClass a) +:+ "::" +:+ al_source a.

Definition routeSeverity (a : RawAlert) : RoutingSeverity :=
  if al_payoutTriggering a then Page
  else match al_alertClass a with
    | Divergence => Page
    | Degraded | Staleness | Quorum => Ticket
    | Anomaly | Other => match al_severity a with Some Critical => Page | Some Warning => Ticket | Some Info | None => Informational end
    end.

(** [n.toString(36)] of a non-negative integer. *)
Definition digit36 (d : Z) : ascii := ascii_of_N (Z.to_N (if d <? 10 then 48 + d else 87 + d)).
Fixpoint digits36 (fuel : nat) (n : Z) (acc : text) : text :=
  match fuel with
  | O => acc
  | S f => let acc' := digit36 (n mod 36) :: acc in if n <? 36 then acc' else digits36 f (n / 36) acc'
  end.
Definition show36 (n : Z) : string := String.string_of_list_ascii (digits36 (S (Z.to_nat (Z.log2 n))) n []).
Definition incidentId (now counter : Z) : string := "inc_" +:+ show36 now +:+ "_" +:+ show36 counter.

Record Delivery := mkDelivery { dl_incident : string; dl_transition : IncidentTransition; dl_at : Z }.

(** The routing service, the module's counter, and what is outside the process: the
    store, the notifications and the sink. *)
Record Routing := mkRoutingState {
  rs_initialized : bool; rs_openByFingerprint : list (string * string); rs_incidents : list (string * Incident);
  rs_lastEmitAt : list (string * Z); rs_creationTimestamps : list Z; rs_incidentCounter : Z;
  rs_store : list (string * Incident); rs_saves : nat; rs_deliveries : list Delivery; rs_recent : list AlertEvent }.
Definition newRouting (store : list (string * Incident)) : Routing := mkRoutingState false [] [] [] [] 0 store 0 [] [].

(** ** Updates of the incident *)

Definition pushTimeline (now : Z) (e : IncidentTimelineEntry) (i : Incident) : Incident :=
  mkIncident (in_id i) (in_fingerprint i) (in_severity i) (in_state i) (in_alert i) (in_createdAt i) now (in_lastNotifiedAt i) (in_acknowledgedAt i)
    (in_acknowledgedBy i) (in_escalatedAt i) (in_resolvedAt i) (in_notificationCount i) (in_timeline i ++ [e]).
(** [recordTransition]; the audit log is outside. *)
Definition recordTransition (tr : IncidentTransition) (now : Z) (detail actor : option string) (i : Incident) : Incident :=
  pushTimeline now (mkEntry now tr detail actor) i.
Definition countNotification (now : Z) (i : Incident) : Incident :=
  mkIncident (in_id i) (in_fingerprint i) (in_severity i) (in_state i) (in_alert i) (in_createdAt i) now (Some now) (in_acknowledgedAt i)
    (in_acknowledgedBy i) (in_escalatedAt i) (in_resolvedAt i) (in_notificationCount i + 1) (in_timeline i).
Definition markAcknowledged (now : Z) (actor : string) (i : Incident) : Incident :=
  mkIncident (in_id i) (in_fingerprint i) (in_severity i) Acknowledged (in_alert i) (in_createdAt i) now (in_lastNotifiedAt i) (Some now)
    (Some actor) (in_escalatedAt i) (in_resolvedAt i) (in_notificationCount i) (in_timeline i).
Definition markEscalated (now : Z) (i : Incident) : Incident :=
  mkIncident (in_id i) (in_fingerprint i) (in_severity i) Escalated (in_alert i) (in_createdAt i) now (in_lastNotifiedAt i) (in_acknowledgedAt i)
    (in_acknowledgedBy i) (Some now) (in_resolvedAt i) (in_notificationCount i) (in_timeline i).
Definition markResolved (now : Z) (i : Incident) : Incident :=
  mkIncident (in_id i) (in_fingerprint i) (in_severity i) Resolved (in_alert i) (in_createdAt i) now (in_lastNotifiedAt i) (in_acknowledgedAt i)
    (in_acknowledgedBy i) (in_escalatedAt i) (Some now) (in_notificationCount i) (in_timeline i).

(** ** Updates of the service *)

Definition setIncident (i : Incident) (s : Routing) : Routing :=
  mkRoutingState (rs_initialized s) (rs_openByFingerprint s) (jm_set (rs_incidents s) (in_id i) i) (rs_lastEmitAt s) (rs_creationTimestamps s)
    (rs_incidentCounter s) (rs_store s) (rs_saves s) (rs_deliveries s) (rs_recent s).
Definition setOpen (f : list (string * string) -> list (string * string)) (s : Routing) : Routing :=
  mkRoutingState (rs_initialized s) (f (rs_openByFingerprint s)) (rs_incidents s) (rs_lastEmitAt s) (rs_creationTimestamps s)
    (rs_incidentCounter s) (rs_store s) (rs_saves s) (rs_deliveries s) (rs_recent s).
Definition setLastEmit (fp : string) (now : Z) (s : Routing) : Routing :=
  mkRoutingState (rs_initialized s) (rs_openByFingerprint s) (rs_incidents s) (jm_set (rs_lastEmitAt s) fp now) (rs_creationTimestamps s)
    (rs_incidentCounter s) (rs_store s) (rs_saves s) (rs_deliveries s) (rs_recent s).
Definition setCreated (l : list Z) (counter : Z) (s : Routing) : Routing :=
  mkRoutingState (rs_initialized s) (rs_openByFingerprint s) (rs_incidents s) (rs_lastEmitAt s) l
    counter (rs_store s) (rs_saves s) (rs_deliveries s) (rs_recent s).

Section Service.
Variable cfg : RoutingConfig.
(** Whether the base sink is wired, and whether the n-th [save] succeeds. *)
Variable hasAlerting : bool.
Variable saveOk : nat -> bool.

Definition transitionName (t : IncidentTransition) : string :=
  match t with
  | Opened => "opened" | Deduped => "deduped" | Grouped => "grouped" | Notified => "notified" | AcknowledgedT => "acknowledged"
  | Renotified => "renotified" | EscalatedT => "escalated" | ResolvedT => "resolved" | AutoResolved => "auto_resolved"
  end.
Definition stateName (s : IncidentState) : string :=
  match s with Open => "open" | Acknowledged => "acknowledged" | Escalated => "escalated" | Resolved => "resolved" end.
Definition mirrorSeverity (s : RoutingSeverity) : AlertSeverity := match s with Page => Critical | Ticket => Warning | Informational => Info end.

Definition logDelivery (tr : IncidentTransition) (now : Z) (i : Incident) (s : Routing) : Routing :=
  mkRoutingState (rs_initialized s) (rs_openByFingerprint s) (rs_incidents s) (rs_lastEmitAt s) (rs_creationTimestamps s)
    (rs_incidentCounter s) (rs_store s) (rs_saves s) (rs_deliveries s ++ [mkDelivery (in_id i) tr now])
    (if hasAlerting
     then emitEvent (mkAlertEvent (mirrorSeverity (in_severity i)) ("[incident " +:+ in_id i +:+ "] " +:+ al_title (in_alert i))
            (transitionName tr +:+ " (" +:+ stateName (in_state i) +:+ ")") now) (rs_recent s)
     else rs_recent s).

(** The incident is mutated in place: the pair carries it until it is put back. *)
Definition deliver (tr : IncidentTransition) (now : Z) (p : Incident * Routing) : Incident * Routing :=
  let '(i, s) := p in
  if ro_maxNotificationsPerIncident cfg <=? in_notificationCount i then p
  else let i' := countNotification now i in (i', logDelivery tr now i' s).

(** [store.save] of the in-memory store; a failing save is swallowed. *)
Definition persist (p : Incident * Routing) : Incident * Routing :=
  let '(i, s) := p in
  (i, mkRoutingState (rs_initialized s) (rs_openByFingerprint s) (rs_incidents s) (rs_lastEmitAt s) (rs_creationTimestamps s) (rs_incidentCounter s)
        (if saveOk (rs_saves s) then jm_set (rs_store s) (in_id i) i else rs_store s) (S (rs_saves s)) (rs_deliveries s) (rs_recent s)).

Definition putBack (p : Incident * Routing) : Incident * Routing := (p.1, setIncident p.1 p.2).

Definition loadOpen (store : list (string * Incident)) : list Incident := filter (fun i => in_state i ≠ Resolved) (jm_values store).

(** [init] up to the load, and its end. *)
Definition beginInit (s : Routing) : Routing :=
  mkRoutingState true (rs_openByFingerprint s) (rs_incidents s) (rs_lastEmitAt s) (rs_creationTimestamps s)
    (rs_incidentCounter s) (rs_store s) (rs_saves s) (rs_deliveries s) (rs_recent s).
Definition restore (s : Routing) (i : Incident) : Routing :=
  setLastEmit (in_fingerprint i) (in_updatedAt i) (setOpen (fun m => jm_set m (in_fingerprint i) (in_id i)) (setIncident i s)).
Definition finishInit (s : Routing) : Routing := foldl restore s (loadOpen (rs_store s)).
Definition init (s : Routing) : Routing := if rs_initialized s then s else finishInit (beginInit s).

Definition maybeRenotify (now : Z) (i : Incident) (s : Routing) : Routing :=
  if ro_maxNotificationsPerIncident cfg <=? in_notificationCount i then s
  else (putBack (persist (deliver Renotified now (recordTransition Renotified now None None i, s)))).2.

Definition escalate (now : Z) (i : Incident) (s : Routing) : Routing :=
  match in_state i with
  | Escalated | Resolved => s
  | _ => (putBack (persist (deliver EscalatedT now (recordTransition EscalatedT now (Some "secondary on-call") None (markEscalated now i), s)))).2
  end.

Definition finalizeResolution (now : Z) (tr : IncidentTransition) (actor : string) (i : Incident) (s : Routing) : Incident * Routing :=
  putBack (persist (deliver tr now (recordTransition tr now None (Some actor) (markResolved now i),
    setOpen (fun m => jm_delete m (in_fingerprint i)) s))).

Definition resolveByFingerprint (fp : string) (now : Z) (s : Routing) : option Incident * Routing :=
  match jm_get (rs_openByFingerprint s) fp with
  | None => (None, s)
  | Some id =>
      match jm_get (rs_incidents s) id with
      | None => (None, s)
      | Some i => if bool_decide (in_state i = Resolved) then (Some i, s)
                  else let '(i', s') := finalizeResolution now AutoResolved "system" i s in (Some i', s')
      end
  end.

Definition severityText (v : RoutingSeverity) : string := match v with Page => "severity=page" | Ticket => "severity=ticket" | Informational => "severity=info" end.

Definition createIncident (a : RawAlert) (fp : string) (now : Z) (s : Routing) : Incident * Routing :=
  let counter := (rs_incidentCounter s + 1) mod 1000000 in
  let severity := routeSeverity a in
  let i := mkIncident (incidentId now counter) fp severity Open a now now None None None None None 0 [] in
  let s1 := setCreated (rs_creationTimestamps s ++ [now]) counter
              (setLastEmit fp now (setOpen (fun m => jm_set m fp (in_id i)) (setIncident i s))) in
  putBack (persist (deliver Notified now (recordTransition Opened now (Some (severityText severity)) None i, s1))).

Fixpoint pruneCreationTimestamps (cutoff : Z) (l : list Z) : list Z :=
  match l with t :: l' => if t <? cutoff then pruneCreationTimestamps cutoff l' else l | [] => [] end.

(** [emit] after [init]. *)
Definition emitReady (a : RawAlert) (now : Z) (s : Routing) : option Incident * Routing :=
  let fp := fingerprintAlert a in
  if al_resolved a then resolveByFingerprint fp now s
  else
    let existing := id ← jm_get (rs_openByFingerprint s) fp; i ← jm_get (rs_incidents s) id; if bool_decide (in_state i = Resolved) then None else Some i in
    match existing with
    | Some i =>
        let last := default 0 (jm_get (rs_lastEmitAt s) fp) in
        if now - last <? ro_dedupWindowMs cfg
        then let i' := recordTransition Deduped now (Some "within dedup window") None i in
             (Some i', setLastEmit fp now (setIncident i' s))
        else let s' := maybeRenotify now i (setLastEmit fp now s) in (jm_get (rs_incidents s') (in_id i), s')
    | None =>
        let created := pruneCreationTimestamps (now - ro_dedupWindowMs cfg) (rs_creationTimestamps s) in
        let s1 := setCreated created (rs_incidentCounter s) s in
        if bool_decide (ro_maxIncidentsPerWindow cfg <= length created)%nat then (None, s1)
        else let '(i, s2) := createIncident a fp now s1 in (Some i, s2)
    end.
Definition emit (a : RawAlert) (now : Z) (s : Routing) : option Incident * Routing := emitReady a now (init s).

Definition acknowledge (id actor : string) (now : Z) (s0 : Routing) : option Incident * Routing :=
  let s := init s0 in
  match jm_get (rs_incidents s) id with
  | None => (None, s)
  | Some i =>
      if bool_decide (in_state i = Resolved) then (Some i, s)
      else let '(i', s') := putBack (persist (recordTransition AcknowledgedT now None (Some actor) (markAcknowledged now actor i), s)) in (Some i', s')
  end.

Definition resolve (id actor : string) (now : Z) (s0 : Routing) : option Incident * Routing :=
  let s := init s0 in
  match jm_get (rs_incidents s) id with
  | None => (None, s)
  | Some i =>
      if bool_decide (in_state i = Resolved) then (Some i, s)
      else let '(i', s') := finalizeResolution now ResolvedT actor i s in (Some i', s')
  end.

Definition tickIncident (now : Z) (s : Routing) (id : string) : Routing :=
  match jm_get (rs_incidents s) id with
  | None => s
  | Some i =>
      match in_state i with
      | Resolved | Acknowledged => s
      | st =>
          let lastNotified := default (in_createdAt i) (in_lastNotifiedAt i) in
          let elapsed := now - lastNotified in
          if bool_decide (st = Open) && (ro_escalationDelayMs cfg <=? elapsed) then escalate now i s
          else if ro_renotifyDelayMs cfg <=? elapsed then maybeRenotify now i s
          else s
      end
  end.
Definition tick (now : Z) (s0 : Routing) : Routing := let s := init s0 in foldl (tickIncident now) s (jm_keys (rs_incidents s)).

Definition listIncidents (st : option IncidentState) (s : Routing) : list Incident :=
  match st with None => jm_values (rs_incidents s) | Some x => filter (fun i => in_state i = x) (jm_values (rs_incidents s)) end.

(** ** What callers do; a restart keeps the store and the deliveries. *)

Inductive RoutingOp := EmitOp (a : RawAlert) | AcknowledgeOp (id actor : string) | ResolveOp (id actor : string) | TickOp.
Definition runOp (now : Z) (o : RoutingOp) (s : Routing) : Routing :=
  match o with
  | EmitOp a => (emit a now s).2
  | AcknowledgeOp id actor => (acknowledge id actor now s).2
  | ResolveOp id actor => (resolve id actor now s).2
  | TickOp => tick now s
  end.
Definition runOps (ops : list (Z * RoutingOp)) (s : Routing) : Routing := foldl (fun s '(now, o) => runOp now o s) s ops.
Definition restart (s : Routing) : Routing :=
  mkRoutingState false [] [] [] [] 0 (rs_store s) (rs_saves s) (rs_deliveries s) [].
End Service.

(** * What the last steps of an operation leave *)

Section Finish.
Variable cfg : RoutingConfig.
Variable hasAlerting : bool.
Variable saveOk : nat -> bool.

Definition notified (now : Z) (i : Incident) : Incident := if ro_maxNotificationsPerIncident cfg <=? in_notificationCount i then i else countNotification now i.
Definition notifications (tr : IncidentTransition) (now : Z) (i : Incident) : list Delivery :=
  if ro_maxNotificationsPerIncident cfg <=? in_notificationCount i then [] else [mkDelivery (in_id i) tr now].
Definition finish (tr : IncidentTransition) (now : Z) (i : Incident) (s : Routing) : Incident * Routing :=
  putBack (persist saveOk (deliver cfg hasAlerting tr now (i, s))).

Lemma notified_id now i : in_id (notified now i) = in_id i ∧ in_fingerprint (notified now i) = in_fingerprint i ∧ in_state (notified now i) = in_state i.
Proof. unfold notified. by destruct (_ <=? _). Qed.

Lemma finish_fields tr now i s : let '(i', s') := finish tr now i s in
  i' = notified now i ∧ rs_incidents s' = jm_set (rs_incidents s) (in_id i) i' ∧ rs_openByFingerprint s' = rs_openByFingerprint s ∧
  rs_deliveries s' = rs_deliveries s ++ notifications tr now i ∧ rs_creationTimestamps s' = rs_creationTimestamps s ∧
  rs_initialized s' = rs_initialized s ∧ rs_lastEmitAt s' = rs_lastEmitAt s.
Proof.
  unfold finish, deliver, notified, notifications. destruct (_ <=? _); cbn; rewrite ?app_nil_r; repeat split.
Qed.
End Finish.

(** * One open incident per fingerprint *)

(** Incidents are stored under their ids, and an unresolved one is the open incident of
    its fingerprint. *)
Definition wellRouted (s : Routing) : Prop :=
  ∀ id i, jm_get (rs_incidents s) id = Some i -> in_id i = id ∧ (in_state i ≠ Resolved -> jm_get (rs_openByFingerprint s) (in_fingerprint i) = Some id).

Lemma wellRouted_frame s s' : rs_incidents s' = rs_incidents s -> rs_openByFingerprint s' = rs_openByFingerprint s -> wellRouted s -> wellRouted s'.
Proof. intros Ei Eo H id i. rewrite Ei, Eo. apply H. Qed.

(** An incident put back with its id and fingerprint, not reopened. *)
Lemma wellRouted_put s s' i i' :
  wellRouted s -> jm_get (rs_incidents s) (in_id i) = Some i -> in_id i' = in_id i -> in_fingerprint i' = in_fingerprint i ->
  (in_state i' ≠ Resolved -> in_state i ≠ Resolved) ->
  rs_incidents s' = jm_set (rs_incidents s) (in_id i) i' -> rs_openByFingerprint s' = rs_openByFingerprint s -> wellRouted s'.
Proof.
  intros Hs Hi Eid Ef Hst Ei Eo id j. rewrite Ei, Eo, jm_get_set. destruct (decide (in_id i = id)) as [<-|Hne].
  - intros [= <-]. split; [done|]. rewrite Ef. intros H. by apply (Hs _ _ Hi), Hst.
  - apply Hs.
Qed.

Section OneOpen.
Variable cfg : RoutingConfig.
Variable hasAlerting : bool.
Variable saveOk : nat -> bool.
Abbreviation fin := (finish cfg hasAlerting saveOk).

Lemma wellRouted_finish tr now i i0 s : wellRouted s -> jm_get (rs_incidents s) (in_id i0) = Some i0 -> in_id i = in_id i0 -> in_fingerprint i = in_fingerprint i0 ->
  (in_state i ≠ Resolved -> in_state i0 ≠ Resolved) -> wellRouted (fin tr now i s).2.
Proof.
  intros Hs Hi Eid Ef Hst. pose proof (finish_fields cfg hasAlerting saveOk tr now i s) as F. destruct (fin tr now i s) as [i' s']. destruct F as (-> & Ei & Eo & _).
  destruct (notified_id cfg now i) as (N1 & N2 & N3). apply (wellRouted_put s s' i0 (notified cfg now i) Hs Hi); [congruence..|by rewrite N3|by rewrite <- Eid|done].
Qed.

Lemma wellRouted_renotify now i s : wellRouted s -> jm_get (rs_incidents s) (in_id i) = Some i -> wellRouted (maybeRenotify cfg hasAlerting saveOk now i s).
Proof. intros Hs Hi. unfold maybeRenotify. destruct (_ <=? _); [done|]. by apply (wellRouted_finish _ _ _ i). Qed.

Lemma wellRouted_escalate now i s : wellRouted s -> jm_get (rs_incidents s) (in_id i) = Some i -> wellRouted (escalate cfg hasAlerting saveOk now i s).
Proof. intros Hs Hi. unfold escalate. destruct (in_state i) eqn:Es; try done; (apply (wellRouted_finish _ _ _ i); [done..|]); by rewrite Es. Qed.

(** The incident leaves the index as it is resolved. *)
Lemma wellRouted_resolution now tr actor i s : wellRouted s -> jm_get (rs_incidents s) (in_id i) = Some i -> in_state i ≠ Resolved ->
  wellRouted (finalizeResolution cfg hasAlerting saveOk now tr actor i s).2.
Proof.
  intros Hs Hi Hr. unfold finalizeResolution. set (i1 := recordTransition _ _ _ _ _). set (s1 := setOpen _ s).
  pose proof (finish_fields cfg hasAlerting saveOk tr now i1 s1) as F. unfold finish in F. destruct (putBack _) as [i' s']. destruct F as (-> & Ei & Eo & _). cbn [snd].
  destruct (notified_id cfg now i1) as (N1 & N2 & N3). intros id j. rewrite Ei, Eo. cbn. rewrite jm_get_set. destruct (decide (in_id i = id)) as [<-|Hne].
  - intros [= <-]. split; [exact N1|]. intros []. exact N3.
  - intros Hj. destruct (Hs _ _ Hj) as [Ej Ho]. split; [done|]. intros Hjr. specialize (Ho Hjr). rewrite jm_get_delete_ne; [done|].
    intros Ef. destruct (Hs _ _ Hi) as [_ Hoi]. specialize (Hoi Hr). rewrite Ef in Hoi. congruence.
Qed.

(** A new incident is the only unresolved one of its fingerprint. *)
Lemma wellRouted_create a fp now s : wellRouted s -> (∀ id i, jm_get (rs_incidents s) id = Some i -> in_fingerprint i = fp -> in_state i = Resolved) ->
  wellRouted (createIncident cfg hasAlerting saveOk a fp now s).2.
Proof.
  intros Hs Hn. unfold createIncident. set (i := mkIncident _ _ _ _ _ _ _ _ _ _ _ _ _ _). set (s1 := setCreated _ _ _). set (i1 := recordTransition _ _ _ _ i).
  pose proof (finish_fields cfg hasAlerting saveOk Notified now i1 s1) as F. unfold finish in F. destruct (putBack _) as [i' s']. destruct F as (-> & Ei & Eo & _). cbn [snd].
  destruct (notified_id cfg now i1) as (N1 & N2 & N3). intros id j. rewrite Ei, Eo. cbn. rewrite !jm_get_set. change (incidentId now _) with (in_id i). destruct (decide (in_id i = id)) as [<-|Hne].
  - intros [= <-]. split; [exact N1|]. intros _. rewrite N2. by rewrite decide_True.
  - intros Hj. destruct (Hs _ _ Hj) as [Ej Ho]. split; [done|]. intros Hr. destruct (decide (fp = in_fingerprint j)) as [Ef|_]; [|by apply Ho].
    destruct Hr. by apply (Hn id).
Qed.

(** With no unresolved incident indexed, none has the fingerprint. *)
Lemma no_open fp s : wellRouted s ->
  (id ← jm_get (rs_openByFingerprint s) fp; i ← jm_get (rs_incidents s) id; if bool_decide (in_state i = Resolved) then None else Some i) = None ->
  ∀ id i, jm_get (rs_incidents s) id = Some i -> in_fingerprint i = fp -> in_state i = Resolved.
Proof.
  intros Hs Hn id i Hi Ef. destruct (decide (in_state i = Resolved)) as [|Hr]; [done|]. destruct (Hs _ _ Hi) as [_ Ho]. specialize (Ho Hr).
  rewrite Ef in Ho. rewrite Ho in Hn. cbn in Hn. rewrite Hi in Hn. cbn in Hn. rewrite bool_decide_eq_false_2 in Hn; done.
Qed.

Lemma wellRouted_emit a now s : wellRouted s -> wellRouted (emitReady cfg hasAlerting saveOk a now s).2.
Proof.
  intros Hs. unfold emitReady. destruct (al_resolved a).
  - unfold resolveByFingerprint. destruct (jm_get (rs_openByFingerprint s) _) as [id|]; [|done]. destruct (jm_get (rs_incidents s) id) as [i|] eqn:Ei; [|done].
    destruct (Hs _ _ Ei) as [Eid _]. rewrite <- Eid in Ei. destruct (bool_decide_reflect (in_state i = Resolved)); [done|].
    pose proof (wellRouted_resolution now AutoResolved "system" i s Hs Ei ltac:(done)) as G. by destruct (finalizeResolution _ _ _ _ _ _ _ _).
  - destruct (id ← _; _) as [i|] eqn:Ex.
    + apply bind_Some in Ex as (id & Eo & (i0 & Ei & Er)%bind_Some). destruct (bool_decide_reflect (in_state i0 = Resolved)); [done|]. injection Er as ->.
      destruct (Hs _ _ Ei) as [Eid _]. rewrite <- Eid in Ei. destruct (_ <? _); cbn [snd].
      * by apply (wellRouted_put s _ i (recordTransition Deduped now (Some "within dedup window") None i)).
      * apply wellRouted_renotify; [by apply (wellRouted_frame s)|done].
    + destruct (bool_decide _); [by apply (wellRouted_frame s)|]. set (s1 := setCreated _ _ s).
      pose proof (wellRouted_create a (fingerprintAlert a) now s1 ltac:(by apply (wellRouted_frame s)) (no_open _ s Hs Ex)) as G.
      by destruct (createIncident _ _ _ _ _ _ _).
Qed.

Lemma wellRouted_tickIncident now s id : wellRouted s -> wellRouted (tickIncident cfg hasAlerting saveOk now s id).
Proof.
  intros Hs. unfold tickIncident. destruct (jm_get (rs_incidents s) id) as [i|] eqn:Ei; [|done]. destruct (Hs _ _ Ei) as [Eid _]. rewrite <- Eid in Ei.
  destruct (in_state i); try done; destruct (_ && _); try (by apply wellRouted_escalate); destruct (_ <=? _); try done; by apply wellRouted_renotify.
Qed.
End OneOpen.

(** ** The store *)

(** Stored incidents are under their ids, and no two open ones share a fingerprint. *)
Record storeOk (store : list (string * Incident)) : Prop := {
  so_nodup : NoDup (jm_keys store);
  so_ids : ∀ id i, jm_get store id = Some i -> in_id i = id;
  so_unique : ∀ a b i j, jm_get store a = Some i -> jm_get store b = Some j -> in_state i ≠ Resolved -> in_state j ≠ Resolved ->
    in_fingerprint i = in_fingerprint j -> a = b }.

(** An incident open in the store is open in the service. *)
Definition mirrored (s : Routing) : Prop :=
  ∀ id i, jm_get (rs_store s) id = Some i -> in_state i ≠ Resolved ->
    ∃ j, jm_get (rs_incidents s) id = Some j ∧ in_fingerprint j = in_fingerprint i ∧ in_state j ≠ Resolved.

Lemma mirrored_unique s : wellRouted s -> mirrored s -> NoDup (jm_keys (rs_store s)) -> (∀ id i, jm_get (rs_store s) id = Some i -> in_id i = id) -> storeOk (rs_store s).
Proof.
  intros Hw Hm Hd Hi. split; [done|done|]. intros a b i j Ha Hb Hri Hrj Ef.
  destruct (Hm _ _ Ha Hri) as (i' & Gi & Fi & Ri). destruct (Hm _ _ Hb Hrj) as (j' & Gj & Fj & Rj).
  pose proof (proj2 (Hw _ _ Gi) Ri) as Oi. pose proof (proj2 (Hw _ _ Gj) Rj) as Oj. congruence.
Qed.

Lemma restore_all l : ∀ s, wellRouted s -> (∀ i, i ∈ l -> in_state i ≠ Resolved) -> (∀ i j, i ∈ l -> j ∈ l -> in_id i = in_id j -> i = j) ->
  (∀ i j, i ∈ l -> j ∈ l -> in_fingerprint i = in_fingerprint j -> in_id i = in_id j) ->
  (∀ i id k, i ∈ l -> jm_get (rs_incidents s) id = Some k -> in_state k ≠ Resolved -> in_fingerprint k = in_fingerprint i -> id = in_id i) ->
  let s' := foldl restore s l in wellRouted s' ∧ (∀ i, i ∈ l -> jm_get (rs_incidents s') (in_id i) = Some i) ∧
    (∀ id k, (∀ i, i ∈ l -> in_id i ≠ id) -> jm_get (rs_incidents s) id = Some k -> jm_get (rs_incidents s') id = Some k) ∧ rs_store s' = rs_store s.
Proof.
  induction l as [|x l IH]; intros s Hw Hr Hid Hf Hc; cbn [foldl]; [split; [done|]; split; [by intros i ?%not_elem_of_nil|done]|].
  assert (wellRouted (restore s x)) as Hw'.
  { intros id k. cbn. rewrite !jm_get_set. destruct (decide (in_id x = id)) as [<-|Hne]; [intros [= <-]; by rewrite decide_True|].
    intros Hk. destruct (Hw _ _ Hk) as [E Ho]. split; [done|]. intros Hkr. rewrite decide_False; [by apply Ho|]. intros Ef. destruct Hne.
    symmetry. by apply (Hc x id k); [left|..]. }
  destruct (IH (restore s x)) as (I1 & I2 & I3 & I4); [done|by intros i Hi; apply Hr; right|by intros i j Hi Hj; apply Hid; right|by intros i j Hi Hj; apply Hf; right| |].
  { intros i id k Hi. cbn. rewrite jm_get_set. destruct (decide (in_id x = id)) as [<-|Hne].
    - intros [= <-] _ Ef. apply Hf; [left|by right|done].
    - intros Hk Hkr Ef. apply (Hc i id k); [by right|done..]. }
  split; [exact I1|]. split; [|split; [|by rewrite I4]].
  - intros i [->|Hi]%elem_of_cons; [|by apply I2]. destruct (decide (in_id x ∈ in_id <$> l)) as [(j & Ej & Hj)%list_elem_of_fmap|Hn].
    + assert (x = j) as -> by (apply Hid; [left|by right|done]). by apply I2.
    + apply I3; [intros j Hj Ej; apply Hn, list_elem_of_fmap; by exists j|]. cbn. by rewrite jm_get_set_eq.
  - intros id k Hn Hk. apply I3; [by intros i Hi; apply Hn; right|]. cbn. rewrite jm_get_set_ne; [done|]. intros E. by apply (Hn x); [left|].
Qed.

Definition Good (s : Routing) : Prop :=
  storeOk (rs_store s) ∧ if rs_initialized s then wellRouted s ∧ mirrored s else rs_incidents s = [] ∧ rs_openByFingerprint s = [].

Lemma loadOpen_in store i : storeOk store -> i ∈ loadOpen store <-> in_state i ≠ Resolved ∧ jm_get store (in_id i) = Some i.
Proof.
  intros Hs. unfold loadOpen. rewrite list_elem_of_filter. unfold jm_values. split; intros [Hr H]; (split; [done|]).
  - apply list_elem_of_fmap in H as ([k i'] & -> & Hk). apply jm_in_get in Hk; [|by apply so_nodup]. cbn in *. by rewrite (so_ids _ Hs _ _ Hk).
  - apply jm_get_Some_in in H. apply list_elem_of_fmap. by exists (in_id i, i).
Qed.

Lemma Good_init s : Good s -> wellRouted (init s) ∧ mirrored (init s) ∧ rs_initialized (init s) = true ∧ rs_store (init s) = rs_store s ∧ storeOk (rs_store s).
Proof.
  intros [Hst Hs]. unfold init. destruct (rs_initialized s) eqn:E; [by destruct Hs|]. destruct Hs as [Hi Ho]. unfold finishInit. change (rs_store (beginInit s)) with (rs_store s).
  destruct (restore_all (loadOpen (rs_store s)) (beginInit s)) as (I1 & I2 & _ & I4).
  - intros id i. cbn. by rewrite Hi.
  - intros i Hl. by apply loadOpen_in in Hl as [? _].
  - intros i j [_ Gi]%loadOpen_in [_ Gj]%loadOpen_in Eid; [|done..]. congruence.
  - intros i j [Ri Gi]%loadOpen_in [Rj Gj]%loadOpen_in; [|done..]. by apply (so_unique _ Hst).
  - intros i id k _. cbn. by rewrite Hi.
  - split; [exact I1|]. assert (rs_initialized (foldl restore (beginInit s) (loadOpen (rs_store s))) = true) as Ei.
    { generalize (loadOpen (rs_store s)). intros l. assert (rs_initialized (beginInit s) = true) as H by done. revert H. generalize (beginInit s). by induction l as [|x l IH]; intros s0 H; [|apply IH]. }
    split; [|by split]. intros id i. rewrite I4. intros Hg Hr. exists i. rewrite <- (so_ids _ Hst _ _ Hg). split; [|done]. apply I2, loadOpen_in; [done|]. split; [done|]. by rewrite (so_ids _ Hst _ _ Hg).
Qed.

(** ** A reliable store *)

Section Reliable.
Variable cfg : RoutingConfig.
Variable hasAlerting : bool.
Abbreviation reliable := (fun _ : nat => true).

Definition keyed (store : list (string * Incident)) : Prop := NoDup (jm_keys store) ∧ ∀ id i, jm_get store id = Some i -> in_id i = id.

(** The service is ready, its incidents indexed and mirrored. *)
Definition ready (s : Routing) : Prop := wellRouted s ∧ mirrored s ∧ rs_initialized s = true ∧ keyed (rs_store s).

Lemma ready_Good s : ready s -> Good s.
Proof. intros (Hw & Hm & Hi & Hd & Hk). split; [by apply mirrored_unique|]. by rewrite Hi. Qed.
Lemma Good_ready s : Good s -> ready (init s).
Proof. intros H. destruct (Good_init s H) as (Hw & Hm & Hi & Hs & Ho). split; [done|]. split; [done|]. split; [done|]. rewrite Hs. split; [by apply so_nodup|by apply so_ids]. Qed.

Lemma finish_mirrored tr now i s : (∀ id j, id ≠ in_id i -> jm_get (rs_store s) id = Some j -> in_state j ≠ Resolved ->
    ∃ k, jm_get (rs_incidents s) id = Some k ∧ in_fingerprint k = in_fingerprint j ∧ in_state k ≠ Resolved) ->
  keyed (rs_store s) -> rs_initialized s = true ->
  let s' := (finish cfg hasAlerting reliable tr now i s).2 in mirrored s' ∧ rs_initialized s' = true ∧ keyed (rs_store s').
Proof.
  intros Hm [Hd Hk] Hi. pose proof (finish_fields cfg hasAlerting reliable tr now i s) as F.
  assert (rs_store (finish cfg hasAlerting reliable tr now i s).2 = jm_set (rs_store s) (in_id i) (notified cfg now i)) as Es.
  { unfold finish, deliver, notified. by destruct (_ <=? _). }
  destruct (finish _ _ _ _ _ _ _) as [i' s']. destruct F as (-> & Ei & _ & _ & _ & Ein & _). cbn [snd] in *. destruct (notified_id cfg now i) as (N1 & _ & _).
  split; [|split; [congruence|]].
  - intros id j. rewrite Es, Ei, !jm_get_set. destruct (decide (in_id i = id)) as [<-|Hne]; [intros [= <-] Hr; by eexists|]. by apply Hm.
  - rewrite Es. split; [by apply jm_set_NoDup|]. intros id j. rewrite jm_get_set. destruct (decide (in_id i = id)) as [<-|]; [by intros [= <-]|apply Hk].
Qed.

Lemma ready_finish tr now i i0 s : ready s -> jm_get (rs_incidents s) (in_id i0) = Some i0 -> in_id i = in_id i0 -> in_fingerprint i = in_fingerprint i0 ->
  (in_state i ≠ Resolved -> in_state i0 ≠ Resolved) -> ready (finish cfg hasAlerting reliable tr now i s).2.
Proof.
  intros (Hw & Hm & Hi & Hk) H0 E1 E2 E3. split; [by apply (wellRouted_finish _ _ _ _ _ _ i0)|]. apply finish_mirrored; [|done|done]. intros id j _. apply Hm.
Qed.

Lemma ready_frame s s' : ready s -> rs_incidents s' = rs_incidents s -> rs_openByFingerprint s' = rs_openByFingerprint s -> rs_store s' = rs_store s -> rs_initialized s' = rs_initialized s -> ready s'.
Proof.
  intros (Hw & Hm & Hi & Hk) Ei Eo Es En. split; [by apply (wellRouted_frame s)|]. split; [intros id i; rewrite Es, Ei; apply Hm|]. by rewrite En, Es.
Qed.

Lemma ready_renotify now i s : ready s -> jm_get (rs_incidents s) (in_id i) = Some i -> ready (maybeRenotify cfg hasAlerting reliable now i s).
Proof. intros Hs Hi. unfold maybeRenotify. destruct (_ <=? _); [done|]. by apply (ready_finish _ _ _ i). Qed.
Lemma ready_escalate now i s : ready s -> jm_get (rs_incidents s) (in_id i) = Some i -> ready (escalate cfg hasAlerting reliable now i s).
Proof. intros Hs Hi. unfold escalate. destruct (in_state i) eqn:Es; try done; (apply (ready_finish _ _ _ i); [done..|]); by rewrite Es. Qed.

Lemma ready_resolution now tr actor i s : ready s -> jm_get (rs_incidents s) (in_id i) = Some i -> in_state i ≠ Resolved ->
  ready (finalizeResolution cfg hasAlerting reliable now tr actor i s).2.
Proof.
  intros (Hw & Hm & Hi & Hk) H0 Hr. split; [by apply wellRouted_resolution|]. unfold finalizeResolution. apply finish_mirrored; [|done|done]. intros id j _. apply Hm.
Qed.

Lemma ready_create a fp now s : ready s -> (∀ id i, jm_get (rs_incidents s) id = Some i -> in_fingerprint i = fp -> in_state i = Resolved) ->
  ready (createIncident cfg hasAlerting reliable a fp now s).2.
Proof.
  intros (Hw & Hm & Hi & Hk) Hn. split; [by apply wellRouted_create|]. unfold createIncident. apply finish_mirrored; [|done|done].
  intros id j Hne. cbn in *. rewrite jm_get_set_ne by done. apply Hm.
Qed.

Lemma ready_emit a now s : ready s -> ready (emitReady cfg hasAlerting reliable a now s).2.
Proof.
  intros Hs. pose proof Hs as (Hw & Hm & Hin & Hk). unfold emitReady. destruct (al_resolved a).
  - unfold resolveByFingerprint. destruct (jm_get (rs_openByFingerprint s) _) as [id|]; [|done]. destruct (jm_get (rs_incidents s) id) as [i|] eqn:Ei; [|done].
    destruct (Hw _ _ Ei) as [Eid _]. rewrite <- Eid in Ei. destruct (bool_decide_reflect (in_state i = Resolved)); [done|].
    pose proof (ready_resolution now AutoResolved "system" i s Hs Ei ltac:(done)) as G. by destruct (finalizeResolution _ _ _ _ _ _ _ _).
  - destruct (id ← _; _) as [i|] eqn:Ex.
    + apply bind_Some in Ex as (id & Eo & (i0 & Ei & Er)%bind_Some). destruct (bool_decide_reflect (in_state i0 = Resolved)) as [|Hr]; [done|]. injection Er as ->.
      destruct (Hw _ _ Ei) as [Eid _]. rewrite <- Eid in Ei. destruct (_ <? _); cbn [snd].
      * set (i' := recordTransition _ _ _ _ i). split; [by apply (wellRouted_put s _ i i')|]. split; [|done].
        intros k j. cbn. rewrite jm_get_set. destruct (decide (in_id i = k)) as [<-|]; [|apply Hm]. intros Hj Hjr. exists i'. destruct (Hm _ _ Hj Hjr) as (i2 & Ei2 & Ef & _).
        replace i2 with i in Ef by congruence. done.
      * apply ready_renotify; [by apply (ready_frame s)|done].
    + destruct (bool_decide _); [by apply (ready_frame s)|]. set (s1 := setCreated _ _ s).
      pose proof (ready_create a (fingerprintAlert a) now s1 ltac:(by apply (ready_frame s)) (no_open _ s Hw Ex)) as G. by destruct (createIncident _ _ _ _ _ _ _).
Qed.

Lemma ready_tickIncident now s id : ready s -> ready (tickIncident cfg hasAlerting reliable now s id).
Proof.
  intros Hs. unfold tickIncident. destruct (jm_get (rs_incidents s) id) as [i|] eqn:Ei; [|done]. destruct (proj1 Hs _ _ Ei) as [Eid _]. rewrite <- Eid in Ei.
  destruct (in_state i); try done; destruct (_ && _); try (by apply ready_escalate); destruct (_ <=? _); try done; by apply ready_renotify.
Qed.

Lemma ready_op now o s : Good s -> ready (runOp cfg hasAlerting reliable now o s).
Proof.
  intros Hg. apply Good_ready in Hg. destruct o as [a|id actor|id actor|]; cbn [runOp].
  - by apply ready_emit.
  - unfold acknowledge. destruct (jm_get _ id) as [i|] eqn:Ei; [|done]. destruct (proj1 Hg _ _ Ei) as [Eid _]. rewrite <- Eid in Ei.
    destruct (bool_decide_reflect (in_state i = Resolved)) as [|Hr]; [done|]. set (i' := recordTransition _ _ _ _ _). destruct Hg as (Hw & Hm & Hi & Hd & Hk). cbn.
    split; [by apply (wellRouted_put (init s) _ i i')|]. split; [|split; [done|]]; cbn.
    + intros k j. cbn. rewrite !jm_get_set. destruct (decide (in_id i = k)) as [<-|]; [|apply Hm]. intros [= <-] _. by eexists.
    + split; [by apply jm_set_NoDup|]. intros k j. rewrite jm_get_set. change (in_id i') with (in_id i). destruct (decide (in_id i = k)) as [<-|]; [by intros [= <-]|apply Hk].
  - unfold resolve. destruct (jm_get _ id) as [i|] eqn:Ei; [|done]. destruct (proj1 Hg _ _ Ei) as [Eid _]. rewrite <- Eid in Ei.
    destruct (bool_decide_reflect (in_state i = Resolved)) as [|Hr]; [done|]. pose proof (ready_resolution now ResolvedT actor i _ Hg Ei Hr) as G. by destruct (finalizeResolution _ _ _ _ _ _ _ _).
  - unfold tick. generalize (jm_keys (rs_incidents (init s))). intros l. revert Hg. generalize (init s). induction l as [|x l IH]; intros s0 Hs; [done|]. by apply IH, ready_tickIncident.
Qed.

(** Operations at given times, and restarts of the process. *)
Inductive RoutingEvent := OpAt (now : Z) (o : RoutingOp) | Restart.
Definition routingStep (s : Routing) (e : RoutingEvent) : Routing := match e with OpAt now o => runOp cfg hasAlerting reliable now o s | Restart => restart s end.

Lemma Good_run es : ∀ s, Good s -> Good (foldl routingStep s es).
Proof.
  induction es as [|e es IH]; intros s Hs; [done|]. apply IH. destruct e as [now o|]; [by apply ready_Good, ready_op|]. split; [apply Hs|done].
Qed.
End Reliable.

(** With a store that keeps what is saved, whatever alerts, acknowledgements,
    resolutions, ticks and restarts happen, two unresolved incidents never share a
    fingerprint, and the open incident of a fingerprint is the one alerts are folded
    into. *)
Theorem one_open_incident_per_fingerprint cfg hasAlerting es now o a b i j :
  let s := runOp cfg hasAlerting (fun _ => true) now o (foldl (routingStep cfg hasAlerting) (newRouting []) es) in
  jm_get (rs_incidents s) a = Some i -> jm_get (rs_incidents s) b = Some j -> in_state i ≠ Resolved -> in_state j ≠ Resolved ->
  in_fingerprint i = in_fingerprint j -> a = b ∧ jm_get (rs_openByFingerprint s) (in_fingerprint i) = Some a.
Proof.
  intros s Hi Hj Ri Rj Ef. assert (ready s) as (Hw & _).
  { apply ready_op, Good_run. split; [|done]. split; [constructor|done|done]. }
  pose proof (proj2 (Hw _ _ Hi) Ri) as Oi. pose proof (proj2 (Hw _ _ Hj) Rj) as Oj. rewrite Ef in Oi. split; congruence.
Qed.

(** * Escalations *)

Section Escalation.
Variable cfg : RoutingConfig.
Variable hasAlerting : bool.
Variable saveOk : nat -> bool.
Variable gap : Z.
Hypothesis renotify_pos : 0 < ro_renotifyDelayMs cfg.
Hypothesis renotify_first : ro_renotifyDelayMs cfg + gap <= ro_escalationDelayMs cfg.

Definition lastNotified (i : Incident) : Z := default (in_createdAt i) (in_lastNotifiedAt i).

(** Notified less than the renotification delay before [p], or its budget is spent. *)
Definition recently (p : Z) (i : Incident) : Prop :=
  in_state i = Open -> in_notificationCount i < ro_maxNotificationsPerIncident cfg -> p - lastNotified i < ro_renotifyDelayMs cfg.

(** At the last tick [p]; no escalation was delivered. *)
Record Calm (p : Z) (s : Routing) : Prop := {
  ca_ids : ∀ id i, jm_get (rs_incidents s) id = Some i -> in_id i = id;
  ca_recent : ∀ id i, jm_get (rs_incidents s) id = Some i -> recently p i;
  ca_quiet : Forall (fun d => dl_transition d ≠ EscalatedT) (rs_deliveries s);
  ca_ready : rs_initialized s = true }.

(** Operations come after the last tick, and ticks at most [gap] apart. *)
Fixpoint ticksWithin (p : Z) (ops : list (Z * RoutingOp)) : Prop :=
  match ops with
  | [] => True
  | (m, TickOp) :: r => p <= m <= p + gap ∧ ticksWithin m r
  | (m, _) :: r => p <= m ∧ ticksWithin p r
  end.

(** Putting back an incident just notified, or whose budget is spent. *)
Lemma Calm_finish p m tr i s : p <= m -> (tr ≠ EscalatedT ∨ ro_maxNotificationsPerIncident cfg <= in_notificationCount i) ->
  (∀ id j, id ≠ in_id i -> jm_get (rs_incidents s) id = Some j -> in_id j = id ∧ recently p j) ->
  Forall (fun d => dl_transition d ≠ EscalatedT) (rs_deliveries s) -> rs_initialized s = true -> Calm p (finish cfg hasAlerting saveOk tr m i s).2.
Proof.
  intros Hp Ht Ho Hd Hi. pose proof (finish_fields cfg hasAlerting saveOk tr m i s) as F. destruct (finish _ _ _ _ _ _ _) as [i' s']. destruct F as (-> & Ei & _ & Ed & _ & En & _). cbn [snd].
  destruct (notified_id cfg m i) as (N1 & _ & _). split.
  - intros id j. rewrite Ei, jm_get_set. destruct (decide (in_id i = id)) as [<-|Hne]; [intros [= <-]; done|]. intros Hj. by apply (Ho id j).
  - intros id j. rewrite Ei, jm_get_set. destruct (decide (in_id i = id)) as [<-|Hne]; [intros [= <-]|intros Hj; by apply (Ho id j)].
    unfold notified. destruct (Z.leb_spec (ro_maxNotificationsPerIncident cfg) (in_notificationCount i)); intros _ Hc; [lia|]. cbn. lia.
  - rewrite Ed. apply Forall_app_2; [done|]. unfold notifications. destruct (Z.leb_spec (ro_maxNotificationsPerIncident cfg) (in_notificationCount i)); [constructor|].
    destruct Ht as [Ht|Ht]; [|lia]. by repeat constructor.
  - congruence.
Qed.

Lemma Calm_others p s i : Calm p s -> ∀ id j, id ≠ i -> jm_get (rs_incidents s) id = Some j -> in_id j = id ∧ recently p j.
Proof. intros [A B C D] id j _ Hj. split; [by apply A|by apply (B id)]. Qed.

Lemma Calm_renotify p m i s : p <= m -> Calm p s -> Calm p (maybeRenotify cfg hasAlerting saveOk m i s).
Proof.
  intros Hp Hs. unfold maybeRenotify. destruct (_ <=? _); [done|]. apply (Calm_finish p m Renotified); [done|by left|exact (Calm_others p s _ Hs)|apply Hs|apply Hs].
Qed.

Lemma Calm_resolution p m tr actor i s : p <= m -> tr ≠ EscalatedT -> Calm p s -> Calm p (finalizeResolution cfg hasAlerting saveOk m tr actor i s).2.
Proof. intros Hp Ht Hs. apply (Calm_finish p m tr); [done|by left|exact (Calm_others p s _ Hs)|apply Hs|apply Hs]. Qed.

Lemma Calm_put p s i : Calm p s -> recently p i -> Calm p (setIncident i s).
Proof.
  intros [A B C D] Hi. split; [| |done|done]; intros id j; cbn; rewrite jm_get_set; destruct (decide (in_id i = id)) as [<-|]; [by intros [= <-]|apply A|by intros [= <-]|apply B].
Qed.

Lemma Calm_emit p m a s : p <= m -> Calm p s -> Calm p (emitReady cfg hasAlerting saveOk a m s).2.
Proof.
  intros Hp Hs. unfold emitReady. destruct (al_resolved a).
  - unfold resolveByFingerprint. destruct (jm_get (rs_openByFingerprint s) _) as [id|]; [|done]. destruct (jm_get (rs_incidents s) id) as [i|]; [|done].
    destruct (bool_decide _); [done|]. pose proof (Calm_resolution p m AutoResolved "system" i s Hp ltac:(done) Hs) as G. by destruct (finalizeResolution _ _ _ _ _ _ _ _).
  - destruct (id ← _; _) as [i|] eqn:Ex.
    + apply bind_Some in Ex as (id & _ & (i0 & Ei & Er)%bind_Some). destruct (bool_decide _); [done|]. injection Er as ->. destruct (_ <? _); cbn [snd].
      * destruct (Calm_put p s (recordTransition Deduped m (Some "within dedup window") None i) Hs (ca_recent _ _ Hs _ _ Ei)) as [A B C D]. by split.
      * apply Calm_renotify; [done|]. by destruct Hs.
    + destruct (bool_decide _); [by destruct Hs|]. unfold createIncident.
      match goal with |- context [putBack (persist saveOk (deliver cfg hasAlerting Notified m (?i, ?s1)))] =>
        assert (Calm p (finish cfg hasAlerting saveOk Notified m i s1).2) as G by
          (apply Calm_finish; [done|by left|intros id j Hne; cbn in *; rewrite jm_get_set_ne by done; intros Hj; split; [by apply (ca_ids _ _ Hs)|by apply (ca_recent _ _ Hs id)]|apply Hs|apply Hs]) end.
      unfold finish in G. by destruct (putBack _).
Qed.

(** A tick at [n]: the incidents still to visit were recent at the last tick. *)
Definition midTick (p n : Z) (rest : list string) (s : Routing) : Prop :=
  (∀ id i, jm_get (rs_incidents s) id = Some i -> in_id i = id ∧ (recently n i ∨ id ∈ rest ∧ recently p i)) ∧
  Forall (fun d => dl_transition d ≠ EscalatedT) (rs_deliveries s) ∧ rs_initialized s = true.

Lemma midTick_finish p n x rest tr i s : in_id i = x -> (tr ≠ EscalatedT ∨ ro_maxNotificationsPerIncident cfg <= in_notificationCount i) ->
  midTick p n (x :: rest) s -> midTick p n rest (finish cfg hasAlerting saveOk tr n i s).2.
Proof.
  intros <- Ht (Hs & Hd & Hi). pose proof (finish_fields cfg hasAlerting saveOk tr n i s) as F. destruct (finish _ _ _ _ _ _ _) as [i' s']. destruct F as (-> & Ei & _ & Ed & _ & En & _). cbn [snd].
  destruct (notified_id cfg n i) as (N1 & _ & _). split; [|split; [|congruence]].
  - intros id j. rewrite Ei, jm_get_set. destruct (decide (in_id i = id)) as [<-|Hne].
    + intros [= <-]. split; [done|]. left. unfold notified. destruct (Z.leb_spec (ro_maxNotificationsPerIncident cfg) (in_notificationCount i)); intros _ Hc; [lia|]. cbn. lia.
    + intros Hj. destruct (Hs _ _ Hj) as [E [H|[H1 H2]]]; (split; [done|]); [by left|right]. split; [|done]. apply elem_of_cons in H1 as [->|]; done.
  - rewrite Ed. apply Forall_app_2; [done|]. unfold notifications. destruct (Z.leb_spec (ro_maxNotificationsPerIncident cfg) (in_notificationCount i)); [constructor|].
    destruct Ht as [Ht|Ht]; [|lia]. by repeat constructor.
Qed.

Lemma midTick_skip p n x rest s : (∀ i, jm_get (rs_incidents s) x = Some i -> recently n i) -> midTick p n (x :: rest) s -> midTick p n rest s.
Proof.
  intros Hx (Hs & Hd). split; [|done]. intros id i Hi. destruct (Hs _ _ Hi) as [E H]. split; [done|]. destruct (decide (id = x)) as [->|Hne]; [left; by apply Hx|].
  destruct H as [H|[[->|H1]%elem_of_cons H2]]; [by left|done|by right].
Qed.

Lemma midTick_incident p n x rest s : p <= n <= p + gap -> midTick p n (x :: rest) s -> midTick p n rest (tickIncident cfg hasAlerting saveOk n s x).
Proof.
  intros Hn Hs. unfold tickIncident. destruct (jm_get (rs_incidents s) x) as [i|] eqn:Ei; [|apply (midTick_skip p n x); [congruence|done]].
  destruct (proj1 Hs _ _ Ei) as [Eid Hr]. assert (in_state i ≠ Open -> midTick p n rest s) as Hskip.
  { intros Hne. apply (midTick_skip p n x); [|done]. intros j Hj E. congruence. }
  fold (lastNotified i). assert (n - lastNotified i < ro_renotifyDelayMs cfg -> midTick p n rest s) as Hfresh.
  { intros Hl. apply (midTick_skip p n x); [|done]. intros j Hj _ _. by replace j with i by congruence. }
  assert (midTick p n rest (maybeRenotify cfg hasAlerting saveOk n i s)) as Hren.
  { unfold maybeRenotify. destruct (Z.leb_spec (ro_maxNotificationsPerIncident cfg) (in_notificationCount i)).
    - apply (midTick_skip p n x); [|done]. intros j Hj _ Hc. replace j with i in Hc by congruence. lia.
    - apply (midTick_finish p n x); [done|by left|done]. }
  destruct (in_state i) eqn:Es; try (by apply Hskip); cbn [bool_decide andb].
  - rewrite bool_decide_eq_true_2 by done. cbn [andb]. destruct (Z.leb_spec (ro_escalationDelayMs cfg) (n - lastNotified i)) as [He|He].
    + unfold escalate. rewrite Es. apply (midTick_finish p n x); [done| |done]. right. cbn.
      destruct (Z.le_gt_cases (ro_maxNotificationsPerIncident cfg) (in_notificationCount i)) as [|Hc]; [done|].
      destruct Hr as [Hr|[_ Hr]]; specialize (Hr Es ltac:(lia)); lia.
    + destruct (Z.leb_spec (ro_renotifyDelayMs cfg) (n - lastNotified i)); [done|by apply Hfresh].
  - rewrite bool_decide_eq_false_2 by done. cbn [andb]. destruct (Z.leb_spec (ro_renotifyDelayMs cfg) (n - lastNotified i)); [done|by apply Hfresh].
Qed.

Lemma Calm_tick p n s : p <= n <= p + gap -> Calm p s -> Calm n (foldl (tickIncident cfg hasAlerting saveOk n) s (jm_keys (rs_incidents s))).
Proof.
  intros Hn [A B C D]. assert (midTick p n (jm_keys (rs_incidents s)) s) as Hm.
  { split; [|by split]. intros id i Hi. split; [by apply A|]. right. split; [|by apply (B id)]. destruct (decide (id ∈ jm_keys (rs_incidents s))) as [|Hk]; [done|].
    apply jm_get_None_notin in Hk. congruence. }
  revert Hm. generalize (jm_keys (rs_incidents s)). intros l. clear A B C D. revert s. induction l as [|x l IH]; intros s Hm; cbn [foldl].
  - destruct Hm as (Hs & Hd & Hi). split; [by intros id i Hj; apply (Hs id)| |done|done]. intros id i Hj. destruct (Hs _ _ Hj) as [_ [H|[[]%not_elem_of_nil _]]]. exact H.
  - apply IH. by apply midTick_incident.
Qed.

Lemma Calm_op p m o s : (o = TickOp -> p <= m <= p + gap) -> p <= m -> Calm p s -> Calm (match o with TickOp => m | _ => p end) (runOp cfg hasAlerting saveOk m o s).
Proof.
  intros Ht Hm Hs. assert (init s = s) as Ei by (unfold init; by rewrite (ca_ready _ _ Hs)). destruct o as [a|id actor|id actor|]; cbn [runOp].
  - unfold emit. rewrite Ei. by apply Calm_emit.
  - unfold acknowledge. rewrite Ei. destruct (jm_get _ id) as [i|]; [|done]. destruct (bool_decide _); [done|]. cbn.
    set (i' := recordTransition _ _ _ _ _). destruct (Calm_put p s i' Hs ltac:(done)) as [A B C D]. by split.
  - unfold resolve. rewrite Ei. destruct (jm_get _ id) as [i|]; [|done]. destruct (bool_decide _); [done|].
    pose proof (Calm_resolution p m ResolvedT actor i s Hm ltac:(done) Hs) as G. by destruct (finalizeResolution _ _ _ _ _ _ _ _).
  - unfold tick. rewrite Ei. apply (Calm_tick p); [by apply Ht|done].
Qed.

Lemma Calm_run ops : ∀ p s, Calm p s -> ticksWithin p ops -> ∃ q, Calm q (runOps cfg hasAlerting saveOk ops s).
Proof.
  induction ops as [|[m o] ops IH]; intros p s Hs Ht; [by exists p|]. cbn [runOps foldl].
  apply (IH (match o with TickOp => m | _ => p end)); [apply Calm_op; [|destruct o; apply Ht|done]|by destruct o; destruct Ht]. intros ->. apply Ht.
Qed.
End Escalation.

(** When the timer runs at most escalationDelayMs - renotifyDelayMs apart, as with
    the defaults and any period up to ten minutes, no escalation is ever delivered:
    every renotification restarts the delay, and an incident that escalates has already
    spent its notifications. *)
Theorem escalation_never_delivered cfg hasAlerting saveOk gap start ops :
  0 < ro_renotifyDelayMs cfg -> ro_renotifyDelayMs cfg + gap <= ro_escalationDelayMs cfg -> ticksWithin gap start ops ->
  Forall (fun d => dl_transition d ≠ EscalatedT) (rs_deliveries (runOps cfg hasAlerting saveOk ops (newRouting []))).
Proof.
  intros Hp Hg Ht. destruct ops as [|[m o] ops]; [constructor|].
  replace (runOps cfg hasAlerting saveOk ((m, o) :: ops) (newRouting [])) with (runOps cfg hasAlerting saveOk ((m, o) :: ops) (init (newRouting []))) by (by destruct o).
  destruct (Calm_run cfg hasAlerting saveOk gap Hp Hg ((m, o) :: ops) start (init (newRouting []))) as [q Hq]; [by split|done|apply Hq].
Qed.

(** * The storm guard *)

Section Storm.
Variable cfg : RoutingConfig.
Variable hasAlerting : bool.
Variable saveOk : nat -> bool.

(** The times at which an incident was first notified. *)
Definition opened (s : Routing) : list Z := dl_at <$> filter (fun d => dl_transition d = Notified) (rs_deliveries s).
Definition since (cut : Z) (l : list Z) : nat := length (filter (fun t => cut <= t) l).

#[local] Arguments since : simpl never.
#[local] Arguments opened : simpl never.

Lemma since_app cut l k : since cut (l ++ k) = (since cut l + since cut k)%nat.
Proof. unfold since. by rewrite filter_app, length_app. Qed.
Lemma since_le cut l : (since cut l <= length l)%nat.
Proof. apply length_filter. Qed.

(** Openings from [c] on are all recorded, and the record is bounded. *)
Record Guarded (c : Z) (s : Routing) : Prop := {
  gd_recorded : ∀ cut, c <= cut -> (since cut (opened s) <= since cut (rs_creationTimestamps s))%nat;
  gd_bounded : (length (rs_creationTimestamps s) <= ro_maxIncidentsPerWindow cfg)%nat }.

Lemma Guarded_same c c' s s' : c <= c' -> opened s' = opened s -> rs_creationTimestamps s' = rs_creationTimestamps s -> Guarded c s -> Guarded c' s'.
Proof. intros Hc Eo Ec [A B]. split; [|by rewrite Ec]. intros cut H. rewrite Eo, Ec. apply A. lia. Qed.

Lemma prune_since cut c l : c <= cut -> since cut (pruneCreationTimestamps c l) = since cut l.
Proof.
  intros Hc. induction l as [|t l IH]; [done|]. cbn [pruneCreationTimestamps]. destruct (Z.ltb_spec t c); [|done]. rewrite IH. unfold since. rewrite filter_cons_False; [done|lia].
Qed.
Lemma prune_length c l : (length (pruneCreationTimestamps c l) <= length l)%nat.
Proof. induction l as [|t l IH]; [done|]. cbn. destruct (_ <? _); cbn; lia. Qed.

Lemma Guarded_prune c c' s : c <= c' -> Guarded c s -> Guarded c' (setCreated (pruneCreationTimestamps c' (rs_creationTimestamps s)) (rs_incidentCounter s) s).
Proof.
  intros Hc [A B]. split; cbn.
  - intros cut H. rewrite prune_since by done. apply A. lia.
  - pose proof (prune_length c' (rs_creationTimestamps s)). lia.
Qed.

(** A delivery other than the first opens nothing. *)
Lemma opened_finish tr now i s : tr ≠ Notified -> opened (finish cfg hasAlerting saveOk tr now i s).2 = opened s ∧
  rs_creationTimestamps (finish cfg hasAlerting saveOk tr now i s).2 = rs_creationTimestamps s.
Proof.
  intros Ht. pose proof (finish_fields cfg hasAlerting saveOk tr now i s) as F. destruct (finish _ _ _ _ _ _ _) as [i' s']. destruct F as (_ & _ & _ & Ed & Ec & _). cbn [snd].
  split; [|done]. unfold opened. rewrite Ed, filter_app. replace (filter _ (notifications cfg tr now i)) with (@nil Delivery); [by rewrite app_nil_r|].
  unfold notifications. destruct (_ <=? _); [done|]. by rewrite filter_cons_False.
Qed.

Lemma Guarded_finish c tr now i s : tr ≠ Notified -> Guarded c s -> Guarded c (finish cfg hasAlerting saveOk tr now i s).2.
Proof. intros Ht. destruct (opened_finish tr now i s Ht) as [Eo Ec]. by apply Guarded_same. Qed.

Lemma Guarded_renotify c now i s : Guarded c s -> Guarded c (maybeRenotify cfg hasAlerting saveOk now i s).
Proof. intros Hs. unfold maybeRenotify. destruct (_ <=? _); [done|]. by apply (Guarded_finish c Renotified). Qed.
Lemma Guarded_escalate c now i s : Guarded c s -> Guarded c (escalate cfg hasAlerting saveOk now i s).
Proof. intros Hs. unfold escalate. destruct (in_state i); try done; by apply (Guarded_finish c EscalatedT). Qed.
Lemma Guarded_resolution c now tr actor i s : tr ≠ Notified -> Guarded c s -> Guarded c (finalizeResolution cfg hasAlerting saveOk now tr actor i s).2.
Proof. intros Ht Hs. apply (Guarded_finish c tr); [done|]. by apply (Guarded_same c c s). Qed.

Lemma Guarded_create c a fp now s : Guarded c s -> (length (rs_creationTimestamps s) < ro_maxIncidentsPerWindow cfg)%nat -> Guarded c (createIncident cfg hasAlerting saveOk a fp now s).2.
Proof.
  intros [A B] Hl. unfold createIncident. set (s1 := setCreated _ _ _). set (i1 := recordTransition _ _ _ _ _).
  pose proof (finish_fields cfg hasAlerting saveOk Notified now i1 s1) as F. unfold finish in F. destruct (putBack _) as [i' s']. destruct F as (_ & _ & _ & Ed & Ec & _). cbn [snd].
  split; rewrite Ec; cbn; [|rewrite length_app; cbn; lia]. intros cut H. specialize (A cut H). unfold opened in *. rewrite Ed. cbn. rewrite since_app, filter_app, fmap_app, since_app.
  enough (since cut (dl_at <$> filter (fun d => dl_transition d = Notified) (notifications cfg Notified now i1)) <= since cut [now])%nat by lia.
  unfold notifications. destruct (_ <=? _); [unfold since at 1; cbn; lia|]. by rewrite filter_cons_True.
Qed.

Lemma Guarded_emit c a now s : c <= now - ro_dedupWindowMs cfg -> Guarded c s -> Guarded (now - ro_dedupWindowMs cfg) (emitReady cfg hasAlerting saveOk a now s).2.
Proof.
  intros Hc Hs. assert (Guarded (now - ro_dedupWindowMs cfg) s) as Hs' by by apply (Guarded_same c _ s). unfold emitReady. destruct (al_resolved a).
  - unfold resolveByFingerprint. destruct (jm_get _ _) as [id|]; [|done]. destruct (jm_get _ id) as [i|]; [|done]. destruct (bool_decide _); [done|].
    pose proof (Guarded_resolution _ now AutoResolved "system" i s ltac:(done) Hs') as G. by destruct (finalizeResolution _ _ _ _ _ _ _ _).
  - destruct (id ← _; _) as [i|].
    + destruct (_ <? _); cbn [snd]; [apply (Guarded_same c _ s); done|]. apply Guarded_renotify. apply (Guarded_same c _ s); done.
    + pose proof (Guarded_prune c _ s Hc Hs) as Hp. destruct (bool_decide_reflect (ro_maxIncidentsPerWindow cfg <= length (pruneCreationTimestamps (now - ro_dedupWindowMs cfg) (rs_creationTimestamps s)))%nat); [done|].
      pose proof (Guarded_create _ a (fingerprintAlert a) now _ Hp ltac:(cbn; lia)) as G. by destruct (createIncident _ _ _ _ _ _ _).
Qed.

(** Restored incidents open nothing. *)
Lemma restore_opened l : ∀ s, opened (foldl restore s l) = opened s ∧ rs_creationTimestamps (foldl restore s l) = rs_creationTimestamps s.
Proof. induction l as [|i l IH]; intros s; [done|]. cbn [foldl]. destruct (IH (restore s i)) as [E1 E2]. by rewrite E1, E2. Qed.
Lemma Guarded_init c s : Guarded c s -> Guarded c (init s).
Proof.
  intros Hs. unfold init. destruct (rs_initialized s); [done|]. unfold finishInit. destruct (restore_opened (loadOpen (rs_store (beginInit s))) (beginInit s)) as [Eo Ec].
  by apply (Guarded_same c c s).
Qed.

Lemma Guarded_op c now o s : c <= now - ro_dedupWindowMs cfg -> Guarded c s -> Guarded (now - ro_dedupWindowMs cfg) (runOp cfg hasAlerting saveOk now o s).
Proof.
  intros Hc Hs%Guarded_init. assert (Guarded (now - ro_dedupWindowMs cfg) (init s)) as Hs' by by apply (Guarded_same c _ (init s)). destruct o as [a|id actor|id actor|]; cbn [runOp].
  - by apply (Guarded_emit c).
  - unfold acknowledge. destruct (jm_get _ id) as [i|]; [|done]. destruct (bool_decide _); [done|]. apply (Guarded_same c _ (init s)); done.
  - unfold resolve. destruct (jm_get _ id) as [i|]; [|done]. destruct (bool_decide _); [done|].
    pose proof (Guarded_resolution _ now ResolvedT actor i _ ltac:(done) Hs') as G. by destruct (finalizeResolution _ _ _ _ _ _ _ _).
  - unfold tick. generalize (jm_keys (rs_incidents (init s))). intros l. revert Hs'. generalize (init s). clear Hs Hc. induction l as [|x l IH]; intros s0 Hs; [done|]. apply IH.
    unfold tickIncident. destruct (jm_get _ x) as [i|]; [|done]. destruct (in_state i); try done; destruct (_ && _); try (by apply Guarded_escalate);
      destruct (_ <=? _); try done; by apply Guarded_renotify.
Qed.

(** The clock does not go back. *)
Fixpoint clockOrdered (t0 : Z) (ops : list (Z * RoutingOp)) : Prop := match ops with [] => True | (m, _) :: r => t0 <= m ∧ clockOrdered m r end.

Lemma Guarded_run ops now o : ∀ t0 s, Guarded (t0 - ro_dedupWindowMs cfg) s -> clockOrdered t0 (ops ++ [(now, o)]) ->
  Guarded (now - ro_dedupWindowMs cfg) (runOps cfg hasAlerting saveOk (ops ++ [(now, o)]) s).
Proof.
  induction ops as [|[m o'] ops IH]; intros t0 s Hs [Hm Ho].
  - apply (Guarded_op (t0 - ro_dedupWindowMs cfg)); [lia|done].
  - apply (IH m); [|done]. apply (Guarded_op (t0 - ro_dedupWindowMs cfg)); [lia|done].
Qed.
End Storm.

(** When the clock does not go back, at any moment at most maxIncidentsPerWindow
    incidents were first notified in the preceding deduplication window, however many
    distinct alerts arrived. *)
Theorem storm_guard_bounds_openings cfg hasAlerting saveOk start ops now o :
  clockOrdered start (ops ++ [(now, o)]) ->
  (since (now - ro_dedupWindowMs cfg) (opened (runOps cfg hasAlerting saveOk (ops ++ [(now, o)]) (newRouting []))) <= ro_maxIncidentsPerWindow cfg)%nat.
Proof.
  intros Ho. destruct (Guarded_run cfg hasAlerting saveOk ops now o start (newRouting [])) as [A B]; [split; [done|cbn; lia]|done|].
  specialize (A _ (Z.le_refl _)). pose proof (since_le (now - ro_dedupWindowMs cfg) (rs_creationTimestamps (runOps cfg hasAlerting saveOk (ops ++ [(now, o)]) (newRouting [])))). lia.
Qed.

(** * Examples *)

Definition demoAlert (feed : string) : RawAlert := mkRaw feed Divergence "oracle" None "Divergence" "providers disagree" true false.
Definition clears (a : RawAlert) : RawAlert := mkRaw (al_feedId a) (al_alertClass a) (al_source a) (al_severity a) (al_title a) (al_message a) (al_payoutTriggering a) true.
Definition minutes (n : Z) : Z := n * 60000.

Lemma one_open_incident_per_fingerprint_witness :
  let s := runOp DEFAULT_ROUTING_CONFIG true (fun _ => true) (minutes 2) (EmitOp (demoAlert "rain"))
             (foldl (routingStep DEFAULT_ROUTING_CONFIG true) (newRouting []) [OpAt (minutes 1) (EmitOp (demoAlert "rain")); Restart]) in
  ∃ id i, jm_get (rs_incidents s) id = Some i ∧ in_state i = Open ∧ length (rs_incidents s) = 1%nat ∧ (id = id ∧ jm_get (rs_openByFingerprint s) (in_fingerprint i) = Some id).
Proof.
  assert (∃ id i, jm_get (rs_incidents (runOp DEFAULT_ROUTING_CONFIG true (fun _ => true) (minutes 2) (EmitOp (demoAlert "rain"))
    (foldl (routingStep DEFAULT_ROUTING_CONFIG true) (newRouting []) [OpAt (minutes 1) (EmitOp (demoAlert "rain")); Restart]))) id = Some i ∧ in_state i = Open) as (id & i & Hi & Hs).
  { exists "inc_1aao_1". eexists. split; [vm_compute; reflexivity|reflexivity]. }
  exists id, i. split; [exact Hi|]. split; [exact Hs|]. split; [vm_compute; reflexivity|].
  apply (one_open_incident_per_fingerprint DEFAULT_ROUTING_CONFIG true [OpAt (minutes 1) (EmitOp (demoAlert "rain")); Restart] (minutes 2) (EmitOp (demoAlert "rain")) id id i i Hi Hi); [rewrite Hs; discriminate..|reflexivity].
Defined.

(** Ticks every five minutes for more than an hour. *)
Definition unattended : list (Z * RoutingOp) :=
  (0, EmitOp (demoAlert "rain")) :: map (fun n => (minutes (5 * Z.of_nat n), TickOp)) (seq 1 16).

Lemma escalation_never_delivered_witness :
  let s := runOps DEFAULT_ROUTING_CONFIG true (fun _ => true) unattended (newRouting []) in
  map (fun i => in_state i) (jm_values (rs_incidents s)) = [Escalated] ∧ length (rs_deliveries s) = 5%nat ∧
  Forall (fun d => dl_transition d ≠ EscalatedT) (rs_deliveries s).
Proof.
  split; [vm_compute; reflexivity|]. split; [vm_compute; reflexivity|].
  apply (escalation_never_delivered DEFAULT_ROUTING_CONFIG true (fun _ => true) (minutes 10) 0 unattended); [reflexivity|vm_compute; discriminate|].
  vm_compute. repeat (split; try discriminate).
Defined.

Definition stormConfig : RoutingConfig := mkRouting 1000 2000 4000 3 2.
Definition stormBefore : list (Z * RoutingOp) := [(1, EmitOp (demoAlert "a")); (2, EmitOp (demoAlert "b")); (3, EmitOp (demoAlert "c"))].

Lemma storm_guard_bounds_openings_witness :
  let s := runOps stormConfig false (fun _ => true) (stormBefore ++ [(4, EmitOp (demoAlert "d"))]) (newRouting []) in
  opened s = [1; 2] ∧ (since (4 - ro_dedupWindowMs stormConfig) (opened s) <= ro_maxIncidentsPerWindow stormConfig)%nat.
Proof.
  split; [vm_compute; reflexivity|].
  apply (storm_guard_bounds_openings stormConfig false (fun _ => true) 0 stormBefore 4 (EmitOp (demoAlert "d"))). cbn. lia.
Defined.

(** The clearing of an incident that has spent its notifications is not delivered. *)
Lemma spent_incident_clears_silently cfg hasAlerting saveOk now tr actor i s :
  ro_maxNotificationsPerIncident cfg <= in_notificationCount i ->
  rs_deliveries (finalizeResolution cfg hasAlerting saveOk now tr actor i s).2 = rs_deliveries s.
Proof. intros H. unfold finalizeResolution, deliver. cbn. by rewrite (proj2 (Z.leb_le _ _) H). Qed.

(** Deduplicated alerts are not saved: after a restart the next alert is notified again,
    which the same alert without the restart is not. *)
Example restart_notifies_again :
  let alert := EmitOp (demoAlert "rain") in
  let before := [OpAt 0 alert; OpAt (minutes 4) alert; OpAt (minutes 8) alert] in
  let run es := length (rs_deliveries (foldl (routingStep DEFAULT_ROUTING_CONFIG false) (newRouting []) es)) in
  run (before ++ [OpAt (minutes 12) alert]) = 1%nat ∧ run (before ++ [Restart; OpAt (minutes 12) alert]) = 2%nat.
Proof. vm_compute. split; reflexivity. Qed.

(** [init] marks the service initialised before the open incidents are loaded: an alert
    that arrives meanwhile opens, and pages, a second incident of its fingerprint. *)
Example alert_during_init_pages_again :
  let saved := rs_store (runOp DEFAULT_ROUTING_CONFIG false (fun _ => true) 0 (EmitOp (demoAlert "rain")) (newRouting [])) in
  let s := finishInit (emit DEFAULT_ROUTING_CONFIG false (fun _ => true) (demoAlert "rain") 1000 (beginInit (newRouting saved))).2 in
  map in_fingerprint (listIncidents (Some Open) s) = ["rain::divergence::oracle"; "rain::divergence::oracle"] ∧ length (rs_deliveries s) = 1%nat.
Proof. vm_compute. split; reflexivity. Qed.

(** The sink keeps the newest alerts, newest first. *)
Lemma emitEvent_newest e recent : (length recent <= maxRecent)%nat -> emitEvent e recent = take maxRecent (e :: recent).
Proof.
  intros H. unfold emitEvent. destruct (bool_decide_reflect (maxRecent < length (e :: recent))%nat) as [Hl|Hl].
  - rewrite <- (take_app_length (removelast (e :: recent)) [List.last (e :: recent) e]), <- app_removelast_last by done. f_equal.
    assert (length (removelast (e :: recent)) = length recent) as E; [|cbn [length] in Hl; lia].
    pose proof (app_removelast_last (l := e :: recent) e ltac:(done)) as Ea. apply (f_equal length) in Ea. rewrite length_app in Ea. cbn [length] in Ea. lia.
  - by rewrite take_ge by lia.
Qed.
