(* ===== verification/HorizonFinality.v ===== *)
(** Finality of the readings derived from Horizon (src/oracle/horizon-finality.service.ts)
    over its tables (src/db/migrations/004_horizon_ledger_finality.sql): provisional
    readings, promotion at the confirmation depth, reorganisations, and the decisions
    built on the readings.

    Every operation is one transaction, so a failing one changes nothing; the times the
    tables keep are left out.  A decision also carries the readings it was recorded
    with, which the tables do not keep. *)

From stdpp Require Import base gmap list strings sorting.
From Stdlib Require Import ZArith Lia Floats.
From S2P Require Import Prelude Decimal JsNum JsParse Canonical EventHandlers.

#[local] Open Scope Z_scope.

Definition DEFAULT_FINALITY_DEPTH : Z := 5.

Inductive FinalityPolicy := FinalOnly | AllowProvisional.
Inductive ReadingFinality := Provisional | Final | Invalidated.
#[global] Instance ReadingFinality_eq : EqDecision ReadingFinality.
Proof. solve_decision. Defined.
Inductive DecisionStatus := Active | Superseded.
#[global] Instance DecisionStatus_eq : EqDecision DecisionStatus.
Proof. solve_decision. Defined.

Record HorizonReading := mkHorizonReading {
  hr_id : Z; hr_coverageType : string; hr_source : string; hr_value : num; hr_ledgerSequence : Z; hr_ledgerHash : string;
  hr_finality : ReadingFinality; hr_decisionId : option Z }.
Record OracleDecision := mkDecision { od_id : Z; od_coverageType : string; od_status : DecisionStatus; od_readings : list Z }.
Inductive FinalityEvidence :=
| LedgerReorg (sequence : Z) (oldHash newHash : string)
| ReadingInvalidated (sequence reading : Z) (oldHash newHash : string)
| DecisionSuperseded (sequence decision : Z) (oldHash newHash : string).
Record Checkpoint := mkCheckpoint { ck_lastFinalLedger : Z; ck_lastFinalHash : option string }.

Record FinalityDb := mkFinalityDb {
  fb_ledgers : gmap Z string; fb_readings : list HorizonReading; fb_decisions : list OracleDecision; fb_evidence : list FinalityEvidence;
  fb_checkpoint : option Checkpoint }.
Definition emptyFinalityDb : FinalityDb := mkFinalityDb ∅ [] [] [] None.

(** [BIGSERIAL] over a table that is never deleted from. *)
Definition nextReadingId (db : FinalityDb) : Z := Z.of_nat (length (fb_readings db)) + 1.
Definition nextDecisionId (db : FinalityDb) : Z := Z.of_nat (length (fb_decisions db)) + 1.

Definition withFinality (f : ReadingFinality) (r : HorizonReading) : HorizonReading :=
  mkHorizonReading (hr_id r) (hr_coverageType r) (hr_source r) (hr_value r) (hr_ledgerSequence r) (hr_ledgerHash r) f (hr_decisionId r).
Definition withDecision (d : Z) (r : HorizonReading) : HorizonReading :=
  mkHorizonReading (hr_id r) (hr_coverageType r) (hr_source r) (hr_value r) (hr_ledgerSequence r) (hr_ledgerHash r) (hr_finality r) (Some d).
Definition supersede (d : OracleDecision) : OracleDecision := mkDecision (od_id d) (od_coverageType d) Superseded (od_readings d).

Record HorizonReadingInput := mkInput { hi_coverageType : string; hi_value : num; hi_ledgerSequence : Z; hi_ledgerHash : string; hi_source : option string }.

Definition recordReading (i : HorizonReadingInput) (db : FinalityDb) : Z * FinalityDb :=
  let id := nextReadingId db in
  (id, mkFinalityDb (fb_ledgers db)
         (fb_readings db ++ [mkHorizonReading id (hi_coverageType i) (default "Horizon" (hi_source i)) (hi_value i) (hi_ledgerSequence i) (hi_ledgerHash i) Provisional None])
         (fb_decisions db) (fb_evidence db) (fb_checkpoint db)).

Record ReorgResult := mkReorg { rg_reorged : bool; rg_ledgerSequence : option Z; rg_invalidated : list Z; rg_superseded : list Z }.
Definition noReorg : ReorgResult := mkReorg false None [] [].

(** ** Reorganisation of one ledger *)

(** [WHERE ledger_sequence = $1 AND ledger_hash <> $2 AND finality <> 'invalidated'] *)
Definition affectedBy (sequence : Z) (newHash : string) (r : HorizonReading) : bool :=
  bool_decide (hr_ledgerSequence r = sequence) && negb (bool_decide (hr_ledgerHash r = newHash)) && negb (bool_decide (hr_finality r = Invalidated)).

Definition addId (l : list Z) (x : Z) : list Z := if bool_decide (x ∈ l) then l else l ++ [x].
(** The [Set] of the decisions linked to the affected rows; ids are never 0. *)
Definition linkedDecisions (rows : list HorizonReading) : list Z := foldl addId [] (omap hr_decisionId rows).

(** One [UPDATE oracle_decisions .. AND status = 'active']. *)
Definition supersedeOne (sequence : Z) (oldHash newHash : string) (st : list OracleDecision * list FinalityEvidence * list Z) (d : Z) :
    list OracleDecision * list FinalityEvidence * list Z :=
  let '(ds, ev, ids) := st in
  if existsb (fun x => bool_decide (od_id x = d) && bool_decide (od_status x = Active)) ds
  then (map (fun x => if bool_decide (od_id x = d) && bool_decide (od_status x = Active) then supersede x else x) ds,
        ev ++ [DecisionSuperseded sequence d oldHash newHash], ids ++ [d])
  else (ds, ev, ids).

Definition handleReorg (sequence : Z) (oldHash newHash : string) (st : FinalityDb * ReorgResult) : FinalityDb * ReorgResult :=
  let '(db, result) := st in
  let affected := List.filter (affectedBy sequence newHash) (fb_readings db) in
  let readings := map (fun r => if affectedBy sequence newHash r then withFinality Invalidated r else r) (fb_readings db) in
  let evidence := fb_evidence db ++ [LedgerReorg sequence oldHash newHash] ++ map (fun r => ReadingInvalidated sequence (hr_id r) oldHash newHash) affected in
  let '(decisions, evidence', superseded) := foldl (supersedeOne sequence oldHash newHash) (fb_decisions db, evidence, []) (linkedDecisions affected) in
  let checkpoint := match fb_checkpoint db with
    | Some c => if sequence <=? ck_lastFinalLedger c then Some (mkCheckpoint (Z.max (sequence - 1) 0) None) else Some c
    | None => None
    end in
  let ledgers := match fb_ledgers db !! sequence with Some _ => <[sequence := newHash]> (fb_ledgers db) | None => fb_ledgers db end in
  (mkFinalityDb ledgers readings decisions evidence' checkpoint,
   mkReorg true (Some sequence) (rg_invalidated result ++ map hr_id affected) (rg_superseded result ++ superseded)).

(** A stored hash that is present, non-empty and different. *)
Definition diverges (stored : option string) (hash : string) : option string :=
  match stored with Some h => if bool_decide (h = "") || bool_decide (h = hash) then None else Some h | None => None end.

Definition observeLedger (sequence : Z) (hash : string) (prevHash : option string) (db : FinalityDb) : FinalityDb * ReorgResult :=
  let st1 := match diverges (fb_ledgers db !! sequence) hash with Some old => handleReorg sequence old hash (db, noReorg) | None => (db, noReorg) end in
  let st2 := match prevHash with
    | Some p =>
        if negb (bool_decide (p = "")) && (1 <? sequence)
        then match diverges (fb_ledgers st1.1 !! (sequence - 1)) p with Some old => handleReorg (sequence - 1) old p st1 | None => st1 end
        else st1
    | None => st1
    end in
  let db2 := st2.1 in
  (mkFinalityDb (<[sequence := hash]> (fb_ledgers db2)) (fb_readings db2) (fb_decisions db2) (fb_evidence db2) (fb_checkpoint db2), st2.2).

(** ** Promotion, resume point, eligibility and decisions *)

Section Service.
Variable depth : Z.
Variable policy : FinalityPolicy.

Definition promotable (ledgers : gmap Z string) (upTo : Z) (r : HorizonReading) : bool :=
  bool_decide (hr_finality r = Provisional) && (hr_ledgerSequence r <=? upTo) && bool_decide (ledgers !! hr_ledgerSequence r = Some (hr_ledgerHash r)).

Definition promoteFinalized (latestLedger : Z) (db : FinalityDb) : list Z * FinalityDb :=
  let upTo := latestLedger - depth in
  if upTo <? 1 then ([], db)
  else
    let hit := promotable (fb_ledgers db) upTo in
    let checkpoint := match fb_checkpoint db with
      | None => mkCheckpoint upTo (fb_ledgers db !! upTo)
      | Some c => mkCheckpoint (Z.max (ck_lastFinalLedger c) upTo) (if ck_lastFinalLedger c <=? upTo then fb_ledgers db !! upTo else ck_lastFinalHash c)
      end in
    (map hr_id (List.filter hit (fb_readings db)),
     mkFinalityDb (fb_ledgers db) (map (fun r => if hit r then withFinality Final r else r) (fb_readings db)) (fb_decisions db) (fb_evidence db) (Some checkpoint)).

Definition getResumeLedger (db : FinalityDb) : option Z := (fun c => ck_lastFinalLedger c + 1) <$> fb_checkpoint db.

Definition eligible (f : ReadingFinality) : bool :=
  match f, policy with Final, _ => true | Provisional, AllowProvisional => true | _, _ => false end.

Definition newestFirst (a b : HorizonReading) : bool :=
  (hr_ledgerSequence b <? hr_ledgerSequence a) || ((hr_ledgerSequence a =? hr_ledgerSequence b) && (hr_id b <=? hr_id a)).
Definition getQuorumEligibleReadings (coverageType : string) (db : FinalityDb) : list HorizonReading :=
  sort_by newestFirst (List.filter (fun r => bool_decide (hr_coverageType r = coverageType) && eligible (hr_finality r)) (fb_readings db)).

Definition finalityName (f : ReadingFinality) : string := match f with Provisional => "provisional" | Final => "final" | Invalidated => "invalidated" end.
Definition policyName : string := match policy with FinalOnly => "final_only" | AllowProvisional => "allow_provisional" end.

Definition recordDecision (coverageType : string) (ids : list Z) (db : FinalityDb) : res string (Z * FinalityDb) :=
  if bool_decide (ids = []) then Err "A decision must reference at least one reading"
  else
    let rows := List.filter (fun r => bool_decide (hr_id r ∈ ids)) (fb_readings db) in
    let ineligible := List.filter (fun r => negb (eligible (hr_finality r))) rows in
    if negb (length rows =? length (remove_dups ids))%nat || negb (bool_decide (ineligible = []))
    then Err ("Readings not eligible under " +:+ String.String quoteChar policyName +:+ String.String quoteChar " policy: " +:+
              (match ineligible with [] => "unknown ids" | _ => String.concat ", " (map (fun r => showZ (hr_id r) +:+ "(" +:+ finalityName (hr_finality r) +:+ ")") ineligible) end))
    else
      let d := nextDecisionId db in
      Ok (d, mkFinalityDb (fb_ledgers db) (map (fun r => if bool_decide (hr_id r ∈ ids) then withDecision d r else r) (fb_readings db))
               (fb_decisions db ++ [mkDecision d coverageType Active ids]) (fb_evidence db) (fb_checkpoint db)).

(** ** Runs *)

Inductive FinalityOp :=
| RecordReading (i : HorizonReadingInput) | ObserveLedger (sequence : Z) (hash : string) (prevHash : option string)
| PromoteFinalized (latestLedger : Z) | RecordDecision (coverageType : string) (ids : list Z).
Definition finalityStep (db : FinalityDb) (o : FinalityOp) : FinalityDb :=
  match o with
  | RecordReading i => (recordReading i db).2
  | ObserveLedger q h p => (observeLedger q h p db).1
  | PromoteFinalized l => (promoteFinalized l db).2
  | RecordDecision c ids => match recordDecision c ids db with Ok (_, db') => db' | Err _ => db end
  end.
Definition runFinality (ops : list FinalityOp) : FinalityDb := foldl finalityStep emptyFinalityDb ops.
End Service.

(** * What a reorganisation does to the decisions *)

Lemma supersedeOne_spec q o n ds ev ids d x' :
  x' ∈ (supersedeOne q o n (ds, ev, ids) d).1.1 -> ∃ x, x ∈ ds ∧ od_id x' = od_id x ∧ od_readings x' = od_readings x ∧
    (od_status x = Superseded -> od_status x' = Superseded) ∧ (od_id x = d -> od_status x' = Superseded).
Proof.
  unfold supersedeOne. destruct (existsb _ ds) eqn:E; cbn; intros H.
  - apply list_elem_of_In, in_map_iff in H as (x & <- & Hx). apply list_elem_of_In in Hx. exists x.
    destruct (bool_decide_reflect (od_id x = d)), (bool_decide_reflect (od_status x = Active)); cbn; (split; [done|]); (split; [done|]); (split; [done|]); (split; [done|]); try done.
    intros _. by destruct (od_status x).
  - exists x'. split_and!; try done. intros <-. destruct (od_status x') eqn:Es; [|done]. exfalso. apply not_true_iff_false in E. apply E, existsb_exists. exists x'.
    split; [by apply list_elem_of_In|]. by rewrite Es, !bool_decide_eq_true_2.
Qed.

Lemma supersede_fold q o n l : ∀ st x', x' ∈ (foldl (supersedeOne q o n) st l).1.1 -> ∃ x, x ∈ st.1.1 ∧ od_id x' = od_id x ∧ od_readings x' = od_readings x ∧
    (od_status x = Superseded -> od_status x' = Superseded) ∧ (od_id x ∈ l -> od_status x' = Superseded).
Proof.
  induction l as [|d l IH]; intros [[ds ev] ids] x' Hx; cbn [foldl] in Hx.
  { exists x'. split_and!; [done..|]. intros H. by apply not_elem_of_nil in H. }
  apply IH in Hx as (y & Hy & E1 & R1 & S1 & L1). apply supersedeOne_spec in Hy as (x & Hx & E2 & R2 & S2 & L2).
  exists x. split; [done|]. split; [congruence|]. split; [congruence|]. split; [auto|].
  intros [Hd|Hl]%elem_of_cons; [by apply S1, L2|]. apply L1. by rewrite E2.
Qed.

Lemma supersede_fold_length q o n l : ∀ st, length (foldl (supersedeOne q o n) st l).1.1 = length st.1.1.
Proof.
  induction l as [|d l IH]; intros [[ds ev] ids]; cbn [foldl]; [done|]. rewrite IH. unfold supersedeOne. destruct (existsb _ ds); cbn; [by rewrite length_map|done].
Qed.

Lemma addId_elem l x y : y ∈ addId l x <-> y ∈ l ∨ y = x.
Proof. unfold addId. destruct (bool_decide_reflect (x ∈ l)); [|rewrite elem_of_app, list_elem_of_singleton; done]. split; [by left|intros [| ->]; done]. Qed.

Lemma linked_elem rows r d : r ∈ rows -> hr_decisionId r = Some d -> d ∈ linkedDecisions rows.
Proof.
  intros Hr Hd. assert (d ∈ omap hr_decisionId rows) as Ho by (apply list_elem_of_omap; by exists r). unfold linkedDecisions.
  assert (∀ l acc, d ∈ l ∨ d ∈ acc -> d ∈ foldl addId acc l) as G; [|apply G; by left].
  intros l. induction l as [|x l IH]; intros acc [H|H]; cbn [foldl]; [by apply not_elem_of_nil in H|done|..]; apply IH; rewrite addId_elem.
  - apply elem_of_cons in H as [-> |]; auto.
  - auto.
Qed.

(** * Invariant *)

Record FinalityOk (db : FinalityDb) : Prop := {
  fo_hashes : ∀ q h, fb_ledgers db !! q = Some h -> h ≠ "";
  fo_final : ∀ r, r ∈ fb_readings db -> hr_finality r = Final -> fb_ledgers db !! hr_ledgerSequence r = Some (hr_ledgerHash r);
  fo_checkpoint : ∀ l h, fb_checkpoint db = Some (mkCheckpoint l (Some h)) -> fb_ledgers db !! l = Some h;
  fo_superseded : ∀ r d x, r ∈ fb_readings db -> hr_finality r = Invalidated -> hr_decisionId r = Some d -> x ∈ fb_decisions db -> od_id x = d -> od_status x = Superseded;
  fo_ids : ∀ x, x ∈ fb_decisions db -> od_id x < nextDecisionId db;
  fo_linked : ∀ r x, r ∈ fb_readings db -> x ∈ fb_decisions db -> hr_id r ∈ od_readings x -> ∃ d, hr_decisionId r = Some d ∧ od_id x <= d < nextDecisionId db;
  fo_readings : ∀ r, r ∈ fb_readings db -> hr_id r < nextReadingId db;
  fo_known : ∀ x i, x ∈ fb_decisions db -> i ∈ od_readings x -> i < nextReadingId db;
  fo_nodup : NoDup (map hr_id (fb_readings db));
  fo_bound : ∀ r d, r ∈ fb_readings db -> hr_decisionId r = Some d -> d < nextDecisionId db }.

Lemma map_elem {A B} (f : A -> B) l y : y ∈ map f l <-> ∃ x, y = f x ∧ x ∈ l.
Proof. rewrite list_elem_of_In, in_map_iff. setoid_rewrite list_elem_of_In. split; intros (x & ? & ?); exists x; auto. Qed.

Lemma map_id_same (f : HorizonReading -> HorizonReading) l : (∀ r, hr_id (f r) = hr_id r) -> map hr_id (map f l) = map hr_id l.
Proof. intros H. rewrite map_map. by apply map_ext. Qed.

Lemma handleReorg_ok q old new st : new ≠ "" -> FinalityOk st.1 -> FinalityOk (handleReorg q old new st).1 ∧
  (is_Some (fb_ledgers st.1 !! q) -> fb_ledgers (handleReorg q old new st).1 !! q = Some new) ∧
  (∀ k, k ≠ q -> fb_ledgers (handleReorg q old new st).1 !! k = fb_ledgers st.1 !! k).
Proof.
  destruct st as [db result]. cbn [fst]. intros Hnew [H1 H2 H3 H4 H5 H6 H7 H8 H9 HB]. unfold handleReorg. set (aff := List.filter _ _).
  pose proof (supersede_fold q old new (linkedDecisions aff)) as HF. pose proof (supersede_fold_length q old new (linkedDecisions aff)) as HL.
  match goal with |- context [foldl (supersedeOne q old new) ?s0 (linkedDecisions aff)] => specialize (HF s0); specialize (HL s0); destruct (foldl (supersedeOne q old new) s0 (linkedDecisions aff)) as [[ds ev] sup] end.
  cbn [fst snd] in *.
  set (lg := match fb_ledgers db !! q with Some _ => _ | None => _ end).
  assert (is_Some (fb_ledgers db !! q) -> lg !! q = Some new) as Hq by (intros [h E]; subst lg; rewrite E; by rewrite lookup_insert_eq).
  assert (∀ k, k ≠ q -> lg !! k = fb_ledgers db !! k) as Hk by (intros k Hne; subst lg; destruct (fb_ledgers db !! q); [by rewrite lookup_insert_ne|done]).
  split; [|by split]. split; unfold nextDecisionId, nextReadingId in *; cbn [fb_ledgers fb_readings fb_decisions fb_checkpoint]; rewrite ?HL, ?length_map.
  - intros k h. destruct (decide (k = q)) as [->|Hne]; [|rewrite Hk by done; apply H1]. intros E. destruct (fb_ledgers db !! q) eqn:Eq; [rewrite Hq in E by done; by injection E as <-|].
    subst lg. congruence.
  - intros r' (r & -> & Hr)%map_elem Hf. destruct (affectedBy q new r) eqn:Ea; [done|]. specialize (H2 r Hr Hf). destruct (decide (hr_ledgerSequence r = q)) as [Es|Hne]; [|by rewrite Hk].
    unfold affectedBy in Ea. rewrite (bool_decide_eq_true_2 _ Es), Hf in Ea. destruct (bool_decide_reflect (hr_ledgerHash r = new)) as [->|]; [|done].
    rewrite Es in *. apply Hq. by rewrite H2.
  - intros l h. destruct (fb_checkpoint db) as [[l0 h0]|]; [|done]. cbn. destruct (Z.leb_spec q l0); [done|]. intros [= -> ->]. rewrite Hk by lia. by apply H3.
  - intros r' d x' (r & -> & Hr)%map_elem Hf Hd Hx Ex. apply HF in Hx as (x & Hx & Eid & _ & Hs & Hlk). destruct (affectedBy q new r) eqn:Ea; cbn in Hf, Hd.
    + apply Hlk. rewrite <- Eid, Ex. apply (linked_elem aff r); [|done]. subst aff. apply list_elem_of_In, filter_In. split; [by apply list_elem_of_In|done].
    + apply Hs. apply (H4 r d); congruence || done.
  - intros x' Hx. apply HF in Hx as (x & Hx & -> & _). by apply H5.
  - intros r' x' (r & -> & Hr)%map_elem Hx Hin. apply HF in Hx as (x & Hx & -> & Er & _). rewrite Er in Hin. destruct (affectedBy q new r); exact (H6 r x Hr Hx Hin).
  - intros r' (r & -> & Hr)%map_elem. destruct (affectedBy q new r); exact (H7 r Hr).
  - intros x' i Hx. apply HF in Hx as (x & Hx & _ & -> & _). by apply H8.
  - rewrite map_id_same; [done|]. intros r. by destruct (affectedBy q new r).
  - intros r' d (r & -> & Hr)%map_elem. destruct (affectedBy q new r); exact (HB r d Hr).
Qed.

Lemma diverges_Some s h old : diverges s h = Some old -> is_Some s.
Proof. destruct s; [by eexists|done]. Qed.
Lemma diverges_None s h : (∀ x, s = Some x -> x ≠ "") -> diverges s h = None -> s = None ∨ s = Some h.
Proof.
  intros Hne. destruct s as [x|]; [|by left]. cbn. rewrite (bool_decide_eq_false_2 (x = "")) by by apply Hne. cbn. destruct (bool_decide_reflect (x = h)) as [->|]; [by right|done].
Qed.

Lemma observe_ok q h p db : h ≠ "" -> FinalityOk db -> FinalityOk (observeLedger q h p db).1.
Proof.
  intros Hh Hdb. unfold observeLedger. set (st1 := match diverges _ h with Some _ => _ | None => _ end).
  assert (FinalityOk st1.1 ∧ (fb_ledgers st1.1 !! q = None ∨ fb_ledgers st1.1 !! q = Some h)) as [O1 E1].
  { subst st1. destruct (diverges (fb_ledgers db !! q) h) as [old|] eqn:Ed; cbn [fst].
    - destruct (handleReorg_ok q old h (db, noReorg) Hh Hdb) as (A & B & _). split; [done|]. right. apply B. by apply diverges_Some in Ed.
    - split; [done|]. apply diverges_None in Ed; [done|]. by apply fo_hashes. }
  set (st2 := match p with Some _ => _ | None => _ end).
  assert (FinalityOk st2.1 ∧ fb_ledgers st2.1 !! q = fb_ledgers st1.1 !! q) as [O2 E2].
  { subst st2. destruct p as [p|]; [|done]. destruct (bool_decide_reflect (p = "")) as [|Hp]; [done|]. cbn [negb andb]. destruct (1 <? q); [|done].
    destruct (diverges _ p) as [old|]; [|done]. destruct (handleReorg_ok (q - 1) old p st1 Hp O1) as (A & _ & B). split; [done|]. apply B. lia. }
  destruct O2 as [H1 H2 H3 H4 H5 H6 H7 H8 H9 HB]. rewrite <- E2 in E1. cbn [fst].
  assert (∀ k v, fb_ledgers st2.1 !! k = Some v -> <[q := h]> (fb_ledgers st2.1) !! k = Some v) as Hi.
  { intros k v Hv. destruct (decide (k = q)) as [->|Hne]; [|by rewrite lookup_insert_ne]. rewrite lookup_insert_eq. destruct E1; congruence. }
  split; unfold nextDecisionId, nextReadingId in *; cbn [fb_ledgers fb_readings fb_decisions fb_checkpoint]; auto.
  intros k v. destruct (decide (k = q)) as [->|Hne]; [rewrite lookup_insert_eq; by intros [= <-]|rewrite lookup_insert_ne by done; apply H1].
Qed.

Lemma recordReading_ok i db : FinalityOk db -> FinalityOk (recordReading i db).2.
Proof.
  intros [H1 H2 H3 H4 H5 H6 H7 H8 H9 HB]. split; unfold nextDecisionId, nextReadingId in *; cbn [recordReading snd fb_ledgers fb_readings fb_decisions fb_checkpoint]; try done.
  - intros r [Hr| ->%list_elem_of_singleton]%elem_of_app; [by apply H2|done].
  - intros r d x [Hr| ->%list_elem_of_singleton]%elem_of_app; [by apply H4|done].
  - intros r x [Hr| ->%list_elem_of_singleton]%elem_of_app; [by apply H6|]. cbn. intros Hx Hin. specialize (H8 x _ Hx Hin). unfold nextReadingId in H8. lia.
  - rewrite length_app. cbn. intros r [Hr| ->%list_elem_of_singleton]%elem_of_app; [specialize (H7 r Hr); lia|]. cbn. unfold nextReadingId. lia.
  - rewrite length_app. cbn. intros x j Hx Hj. specialize (H8 x j Hx Hj). lia.
  - rewrite map_app. apply NoDup_app. split; [done|]. split; [|apply NoDup_singleton]. intros k (r & -> & Hr)%map_elem Hi%list_elem_of_singleton. specialize (H7 r Hr). cbn in Hi. unfold nextReadingId in Hi. lia.
  - intros r d [Hr| ->%list_elem_of_singleton]%elem_of_app; [by apply HB|done].
Qed.

Section Ops.
Variable depth : Z.
Variable policy : FinalityPolicy.

Lemma promote_ok l db : FinalityOk db -> FinalityOk (promoteFinalized depth l db).2.
Proof.
  intros H. unfold promoteFinalized. destruct (_ <? 1); [done|]. destruct H as [H1 H2 H3 H4 H5 H6 H7 H8 H9 HB].
  split; unfold nextDecisionId, nextReadingId in *; cbn [snd fb_ledgers fb_readings fb_decisions fb_checkpoint]; rewrite ?length_map; try done.
  - intros r' (r & -> & Hr)%map_elem. destruct (promotable _ _ r) eqn:Ep; [|by apply H2]. intros _. unfold promotable in Ep. apply andb_true_iff in Ep as [_ Ep]. by apply bool_decide_eq_true in Ep.
  - intros k h. destruct (fb_checkpoint db) as [[l0 h0]|]; cbn; [|intros [= <- E]; done].
    destruct (Z.leb_spec l0 (l - depth)); intros [= <- E]; [by rewrite Z.max_r|]. rewrite Z.max_l by lia. apply H3. by rewrite E.
  - intros r' d x (r & -> & Hr)%map_elem. destruct (promotable _ _ r); [done|]. by apply H4.
  - intros r' x (r & -> & Hr)%map_elem Hx Hin. destruct (promotable _ _ r); exact (H6 r x Hr Hx Hin).
  - intros r' (r & -> & Hr)%map_elem. destruct (promotable _ _ r); exact (H7 r Hr).
  - rewrite map_id_same; [done|]. intros r. by destruct (promotable _ _ r).
  - intros r' d (r & -> & Hr)%map_elem. destruct (promotable _ _ r); exact (HB r d Hr).
Qed.

Lemma eligible_valid f : eligible policy f = true -> f ≠ Invalidated.
Proof. by destruct f, policy. Qed.

(** The rows found have exactly the ids asked for. *)
Lemma rows_known db ids i : NoDup (map hr_id (fb_readings db)) ->
  length (List.filter (fun r => bool_decide (hr_id r ∈ ids)) (fb_readings db)) = length (remove_dups ids) -> i ∈ ids -> ∃ r, r ∈ fb_readings db ∧ hr_id r = i.
Proof.
  intros Hd Hl Hi. set (rows := List.filter _ _) in *.
  assert (∀ r, r ∈ rows -> r ∈ fb_readings db ∧ hr_id r ∈ ids) as Hr.
  { intros r H. apply list_elem_of_In, filter_In in H as [H1 H2]. apply bool_decide_eq_true in H2. split; [by apply list_elem_of_In|done]. }
  assert (NoDup (map hr_id rows)) as Hn.
  { subst rows. clear Hl Hr. induction (fb_readings db) as [|r l IH]; [constructor|]. cbn in *. apply NoDup_cons in Hd as [Hd1 Hd2]. destruct (bool_decide _); [|by apply IH]. cbn. constructor; [|by apply IH].
    intros (x & Ex & Hx)%map_elem. apply list_elem_of_In, filter_In in Hx as [Hx _]. apply Hd1, map_elem. exists x. split; [done|by apply list_elem_of_In]. }
  assert (map hr_id rows ≡ₚ remove_dups ids) as HP.
  { apply submseteq_length_Permutation; [|rewrite length_map; lia]. apply NoDup_submseteq; [done|]. intros x (r & -> & Hx)%map_elem. apply elem_of_remove_dups. by apply Hr. }
  assert (i ∈ map hr_id rows) as (r & -> & Hx)%map_elem by (rewrite HP; by apply elem_of_remove_dups). exists r. split; [by apply Hr|done].
Qed.

Lemma decision_ok c ids db d db' : recordDecision policy c ids db = Ok (d, db') -> FinalityOk db -> FinalityOk db'.
Proof.
  unfold recordDecision. intros E H. destruct (bool_decide _); [done|]. destruct (length _ =? _)%nat eqn:El; [|done]. apply Nat.eqb_eq in El.
  destruct (bool_decide_reflect (List.filter (fun r => negb (eligible policy (hr_finality r))) (List.filter (fun r => bool_decide (hr_id r ∈ ids)) (fb_readings db)) = [])) as [Ei|]; [|done].
  cbn in E. injection E as <- <-. destruct H as [H1 H2 H3 H4 H5 H6 H7 H8 H9 HB].
  assert (∀ r, r ∈ fb_readings db -> hr_id r ∈ ids -> hr_finality r ≠ Invalidated) as Hel.
  { intros r Hr Hin. apply eligible_valid. destruct (eligible policy (hr_finality r)) eqn:Ee; [done|]. exfalso.
    assert (r ∈ ([] : list HorizonReading)) as []%not_elem_of_nil. rewrite <- Ei. apply list_elem_of_In, filter_In. rewrite Ee. split; [|done]. apply filter_In.
    split; [by apply list_elem_of_In|]. by apply bool_decide_eq_true_2. }
  split; unfold nextDecisionId, nextReadingId in *; cbn [fb_ledgers fb_readings fb_decisions fb_checkpoint]; rewrite ?length_map, ?length_app; cbn [length]; try done.
  - intros r' (r & -> & Hr)%map_elem. destruct (bool_decide _); exact (H2 r Hr).
  - intros r' e x (r & -> & Hr)%map_elem. destruct (bool_decide_reflect (hr_id r ∈ ids)) as [Hin|Hn]; cbn; [by intros Hf; destruct (Hel r Hr Hin)|].
    intros Hf Hd [Hx| ->%list_elem_of_singleton]%elem_of_app; [by apply (H4 r)|]. cbn. intros <-. specialize (HB r _ Hr Hd). unfold nextDecisionId in HB. lia.
  - intros x [Hx| ->%list_elem_of_singleton]%elem_of_app; [specialize (H5 x Hx); lia|]. cbn. unfold nextDecisionId. lia.
  - intros r' x (r & -> & Hr)%map_elem. destruct (bool_decide_reflect (hr_id r ∈ ids)) as [Hin|Hn]; cbn.
    + intros Hx _. exists (nextDecisionId db). unfold nextDecisionId. split; [done|]. apply elem_of_app in Hx as [Hx| ->%list_elem_of_singleton]; [specialize (H5 x Hx)|cbn; unfold nextDecisionId]; lia.
    + intros [Hx| ->%list_elem_of_singleton]%elem_of_app Hi; [|done]. destruct (H6 r x Hr Hx Hi) as (e & He & Hb). exists e. split; [done|lia].
  - intros r' (r & -> & Hr)%map_elem. destruct (bool_decide _); exact (H7 r Hr).
  - intros x i [Hx| ->%list_elem_of_singleton]%elem_of_app Hi; [by apply (H8 x)|]. cbn in Hi. destruct (rows_known db ids i H9 El Hi) as (r & Hr & <-). by apply H7.
  - rewrite map_id_same; [done|]. intros r. by destruct (bool_decide _).
  - intros r' e (r & -> & Hr)%map_elem. destruct (bool_decide _); cbn; [intros [= <-]; unfold nextDecisionId; lia|]. intros He. specialize (HB r e Hr He). lia.
Qed.

(** Horizon's hashes are not empty. *)
Definition validOp (o : FinalityOp) : Prop := match o with ObserveLedger _ h _ => h ≠ "" | _ => True end.

Lemma step_ok o db : validOp o -> FinalityOk db -> FinalityOk (finalityStep depth policy db o).
Proof.
  intros Hv H. destruct o as [i|q h p|l|c ids]; cbn [finalityStep].
  - by apply recordReading_ok.
  - by apply observe_ok.
  - by apply promote_ok.
  - destruct (recordDecision policy c ids db) as [[d db']|] eqn:E; [|done]. by apply decision_ok in E.
Qed.

Lemma run_ok ops : Forall validOp ops -> FinalityOk (runFinality depth policy ops).
Proof.
  intros Hv. unfold runFinality. assert (FinalityOk emptyFinalityDb) as H0 by (split; intros; try done; by (apply not_elem_of_nil in H || constructor)).
  revert Hv H0. generalize emptyFinalityDb. induction ops as [|o ops IH]; intros db Hv Hd; [done|]. apply Forall_cons in Hv as [Ho Hv]. apply IH; [done|]. by apply step_ok.
Qed.
End Ops.

(** Whatever readings, ledgers, promotions and decisions are recorded, a final
    reading's ledger still has the hash the reading was derived from, and so has the
    ledger of the resume point: a reorganisation that is observed takes them back. *)
Theorem final_readings_canonical depth policy ops :
  Forall validOp ops -> let db := runFinality depth policy ops in
  (∀ r, r ∈ fb_readings db -> hr_finality r = Final -> fb_ledgers db !! hr_ledgerSequence r = Some (hr_ledgerHash r)) ∧
  (∀ l h, fb_checkpoint db = Some (mkCheckpoint l (Some h)) -> fb_ledgers db !! l = Some h).
Proof. intros Hv db. destruct (run_ok depth policy ops Hv) as [H1 H2 H3 _ _ _ _ _ _ _]. by split. Qed.

(** C15: A decision that is still active although one of its readings was invalidated is
    one whose reading a later decision has used: the link to the earlier decision is
    overwritten, and only the later one is superseded. *)
Theorem active_decision_rests_on_valid_readings depth policy ops x r :
  Forall validOp ops -> let db := runFinality depth policy ops in
  x ∈ fb_decisions db -> od_status x = Active -> r ∈ fb_readings db -> hr_id r ∈ od_readings x -> hr_finality r = Invalidated ->
  ∃ d, hr_decisionId r = Some d ∧ od_id x < d.
Proof.
  intros Hv db Hx Ha Hr Hin Hf. pose proof (run_ok depth policy ops Hv) as H. destruct (fo_linked _ H r x Hr Hx Hin) as (d & Hd & Hb & _). exists d. split; [done|].
  destruct (Z.eq_dec (od_id x) d) as [E|]; [|lia]. pose proof (fo_superseded _ H r d x Hr Hf Hd Hx E). congruence.
Qed.

(** * Examples *)

Definition demoInput : HorizonReadingInput := mkInput "StablecoinDepeg" 1%float 10 "aa" None.
Definition settledOps : list FinalityOp := [RecordReading demoInput; ObserveLedger 10 "aa" None; PromoteFinalized 15; RecordDecision "StablecoinDepeg" [1]].
(** The reading is used by a second decision, and its ledger is then reorganised. *)
Definition relinkedOps : list FinalityOp := settledOps ++ [RecordDecision "StablecoinDepeg" [1]; ObserveLedger 10 "bb" None].

Lemma settledOps_valid : Forall validOp relinkedOps.
Proof. repeat apply Forall_cons_2; try exact I; try discriminate; apply Forall_nil_2. Qed.

Lemma final_readings_canonical_witness :
  let db := runFinality 5 FinalOnly settledOps in
  map hr_finality (fb_readings db) = [Final] ∧ getResumeLedger db = Some 11 ∧
  (∀ r, r ∈ fb_readings db -> hr_finality r = Final -> fb_ledgers db !! hr_ledgerSequence r = Some (hr_ledgerHash r)) ∧
  (∀ l h, fb_checkpoint db = Some (mkCheckpoint l (Some h)) -> fb_ledgers db !! l = Some h).
Proof.
  split; [vm_compute; reflexivity|]. split; [vm_compute; reflexivity|]. apply (final_readings_canonical 5 FinalOnly settledOps).
  repeat apply Forall_cons_2; try exact I; try discriminate; apply Forall_nil_2.
Defined.

Lemma active_decision_rests_on_valid_readings_witness : ∃ x r,
  x ∈ fb_decisions (runFinality 5 FinalOnly relinkedOps) ∧ od_status x = Active ∧ r ∈ fb_readings (runFinality 5 FinalOnly relinkedOps) ∧ hr_finality r = Invalidated ∧
  ∃ d, hr_decisionId r = Some d ∧ od_id x < d.
Proof.
  assert (∃ x r, x ∈ fb_decisions (runFinality 5 FinalOnly relinkedOps) ∧ od_status x = Active ∧ r ∈ fb_readings (runFinality 5 FinalOnly relinkedOps) ∧
    hr_id r ∈ od_readings x ∧ hr_finality r = Invalidated) as (x & r & Hx & Ha & Hr & Hi & Hf).
  { eexists _, _. split; [vm_compute; left|]. split; [reflexivity|]. split; [vm_compute; left|]. split; [vm_compute; left|reflexivity]. }
  exists x, r. split; [exact Hx|]. split; [exact Ha|]. split; [exact Hr|]. split; [exact Hf|].
  exact (active_decision_rests_on_valid_readings 5 FinalOnly relinkedOps x r settledOps_valid Hx Ha Hr Hi Hf).
Defined.

(** The first decision stays active on an invalidated reading. *)
Example shared_reading_keeps_first_decision :
  let db := runFinality 5 FinalOnly relinkedOps in
  map (fun d => (od_id d, od_status d)) (fb_decisions db) = [(1, Active); (2, Superseded)] ∧ map hr_finality (fb_readings db) = [Invalidated].
Proof. vm_compute. split; reflexivity. Qed.

(** With the default policy a decision rests on readings that were final. *)
Lemma decision_needs_final_readings c ids db d db' : recordDecision FinalOnly c ids db = Ok (d, db') ->
  ∀ r, r ∈ fb_readings db -> hr_id r ∈ ids -> hr_finality r = Final.
Proof.
  unfold recordDecision. intros E r Hr Hin. destruct (bool_decide _); [done|]. destruct (length _ =? _)%nat; [|done].
  destruct (bool_decide_reflect (List.filter (fun r => negb (eligible FinalOnly (hr_finality r))) (List.filter (fun r => bool_decide (hr_id r ∈ ids)) (fb_readings db)) = [])) as [Ei|]; [|done].
  destruct (hr_finality r) eqn:Ef; try done; exfalso; (assert (r ∈ ([] : list HorizonReading)) as []%not_elem_of_nil); rewrite <- Ei;
    (apply list_elem_of_In, filter_In; rewrite Ef; split; [|done]); (apply filter_In; split; [by apply list_elem_of_In|by apply bool_decide_eq_true_2]).
Qed.
