(* ===== verification/EvidenceBuffer.v ===== *)
(** The durable evidence trail of the oracle: the local write-ahead spool
    (src/oracle/evidence/evidence-spool.ts) and the buffer that numbers evidence, spools
    it and flushes it to the database in order
    (src/oracle/evidence/oracle-evidence-buffer.ts).

    The spool file is a list of lines, unreadable ones included, and possibly an
    unterminated fragment left by a write that failed halfway; the outcome of every file
    and database operation is chosen by the environment.  The size of a line is a
    parameter. *)

From stdpp Require Import base list strings sorting.
From Stdlib Require Import ZArith Lia.
From S2P Require Import Prelude Decimal Canonical EventHandlers.

#[local] Open Scope Z_scope.

Definition EVIDENCE_COVERAGE_TYPES : list string := ["StablecoinDepeg"; "MarketCrash"; "LiquidationShield"; "SmartContractRisk"; "FlightDelay"].

Record EvidenceEntry := mkEvidence { ee_coverageType : string; ee_source : string; ee_recordedAt : Z; ee_payload : string }.
Inductive EvidenceRecord :=
| Sequenced (seq : Z) (entry : EvidenceEntry)
| Gap (seq firstSeq lastSeq lostCount openedAt closedAt : Z) (reason : string).
Definition seqOf (r : EvidenceRecord) : Z := match r with Sequenced s _ => s | Gap s _ _ _ _ _ _ => s end.
Definition isGap (r : EvidenceRecord) : bool := match r with Gap _ _ _ _ _ _ _ => true | Sequenced _ _ => false end.

(** * The spool *)

(** The file: its lines ([None]: not parseable), and whether a fragment follows them;
    the mark of the acknowledged ones. *)
Record Disk := mkDisk { dk_lines : list (option EvidenceRecord); dk_fragment : bool; dk_acked : Z }.
(** The process's handle and its count of bytes. *)
Record Spool := mkSpool { sp_open : bool; sp_bytes : Z }.

Section Spool.
Variable sizeOf : EvidenceRecord -> Z.
Variable maxBytes : Z.

Definition bytesOf (l : list EvidenceRecord) : Z := sumZ (map sizeOf l).
Definition readable (l : list (option EvidenceRecord)) : list EvidenceRecord := omap id l.
Definition unreadable (d : Disk) : Z :=
  Z.of_nat (length (dk_lines d)) - Z.of_nat (length (readable (dk_lines d))) + (if dk_fragment d then 1 else 0).

Definition seqLe (a b : EvidenceRecord) : bool := seqOf a <=? seqOf b.

Record SpoolRecovery := mkRecovery { rv_pending : list EvidenceRecord; rv_highWaterSeq : Z; rv_discardedLines : Z }.

(** [open]: the file is rewritten when it holds anything but the pending records. *)
Definition openSpool (d : Disk) : SpoolRecovery * Disk * Spool :=
  let records := readable (dk_lines d) in
  let pending := sort_by seqLe (List.filter (fun r => dk_acked d <? seqOf r) records) in
  let highWater := foldl (fun h r => Z.max h (seqOf r)) (dk_acked d) records in
  let discarded := unreadable d in
  let needsRewrite := (0 <? discarded) || negb (length pending =? length (dk_lines d))%nat || dk_fragment d in
  let d' := if needsRewrite then mkDisk (map Some pending) false (dk_acked d) else d in
  (mkRecovery pending highWater discarded, d', mkSpool true (bytesOf (readable (dk_lines d')))).

(** How a write ends: written, refused with nothing written, cut after the first [n]
    records and a fragment with an error, or short: [FileHandle.write] resolves with
    fewer bytes than it was given, a count the code does not read. *)
Inductive WriteOutcome := Written | NotWritten (message : string) | Torn (n : nat) (message : string) | Short (n : nat).

(** After a fragment the first line that is written ends the fragment's. *)
Definition writeLines (rs : list EvidenceRecord) (d : Disk) : Disk :=
  if dk_fragment d
  then match rs with [] => d | _ :: rest => mkDisk (dk_lines d ++ None :: map Some rest) false (dk_acked d) end
  else mkDisk (dk_lines d ++ map Some rs) false (dk_acked d).
Definition writeTorn (n : nat) (rs : list EvidenceRecord) (d : Disk) : Disk :=
  let d' := writeLines (take n rs) d in mkDisk (dk_lines d') true (dk_acked d').

Definition spoolAppend (o : WriteOutcome) (rs : list EvidenceRecord) (s : Spool) (d : Disk) : res string unit * Spool * Disk :=
  if negb (sp_open s) then (Err "evidence spool is not open", s, d)
  else if maxBytes <? sp_bytes s + bytesOf rs then (Err ("evidence spool is full (" +:+ showZ (sp_bytes s) +:+ " of " +:+ showZ maxBytes +:+ " bytes)"), s, d)
  else match o with
    | Written => (Ok tt, mkSpool true (sp_bytes s + bytesOf rs), writeLines rs d)
    | NotWritten m => (Err m, s, d)
    | Torn n m => (Err m, s, writeTorn n rs d)
    | Short n => (Ok tt, mkSpool true (sp_bytes s + bytesOf rs), writeTorn n rs d)
    end.

Inductive AckOutcome := AckWritten | AckFailed | CompactFailed.

(** [ack]: the mark first; the handle is closed before the file is read back, so a line
    that does not parse leaves it closed. *)
Definition spoolAck (o : AckOutcome) (seq : Z) (compact : bool) (s : Spool) (d : Disk) : res string unit * Spool * Disk :=
  match o with
  | AckFailed => (Err "ack failed", s, d)
  | _ =>
      let d1 := mkDisk (dk_lines d) (dk_fragment d) seq in
      if negb compact then (Ok tt, s, d1)
      else if (0 <? unreadable d) || match o with CompactFailed => true | _ => false end
      then (Err "compaction failed", mkSpool false (sp_bytes s), d1)
      else
        let remaining := List.filter (fun r => seq <? seqOf r) (readable (dk_lines d)) in
        (Ok tt, mkSpool true (bytesOf remaining), mkDisk (map Some remaining) false seq)
  end.

(** * The buffer *)

Record OpenGap := mkGap { og_firstSeq : Z; og_lastSeq : Z; og_lostCount : Z; og_since : Z; og_reason : string }.
Record Buffer := mkBuffer {
  bf_pending : list EvidenceRecord; bf_lastSeq : Z; bf_lastStoredSeq : Z; bf_opened : bool; bf_failures : Z; bf_batchesSinceCompact : Z;
  bf_storeHealthy : bool; bf_openGap : option OpenGap; bf_lostTotal : Z; bf_spool : Spool }.
Definition newBuffer : Buffer := mkBuffer [] 0 0 false 0 0 true None 0 (mkSpool false 0).

Record EvidenceBufferOptions := mkBufferOptions { eo_batchSize : nat; eo_compactEveryBatches : Z }.
Variable options : EvidenceBufferOptions.

Definition noteLoss (firstSeq lastSeq count now : Z) (reason : string) (b : Buffer) : Buffer :=
  mkBuffer (bf_pending b) (bf_lastSeq b) (bf_lastStoredSeq b) (bf_opened b) (bf_failures b) (bf_batchesSinceCompact b) (bf_storeHealthy b)
    (Some (match bf_openGap b with
           | Some g => mkGap (og_firstSeq g) (Z.max (og_lastSeq g) lastSeq) (og_lostCount g + count) (og_since g) reason
           | None => mkGap firstSeq lastSeq count now reason
           end)) (bf_lostTotal b + count) (bf_spool b).

(** [start] *)
Definition start (now : Z) (d : Disk) (b : Buffer) : Buffer * Disk :=
  let '(rv, d', s) := openSpool d in
  let b1 := mkBuffer (rv_pending rv) (rv_highWaterSeq rv) (match rv_pending rv with r :: _ => seqOf r - 1 | [] => rv_highWaterSeq rv end) true (bf_failures b)
              (bf_batchesSinceCompact b) (bf_storeHealthy b) (bf_openGap b) (bf_lostTotal b) s in
  (if 0 <? rv_discardedLines rv
   then noteLoss (bf_lastSeq b1 + 1) (bf_lastSeq b1) (rv_discardedLines rv) now "unreadable spool lines discarded on recovery" b1 else b1, d').

Inductive EvidenceError := NotDurable (detail : string) | UnknownCoverage (message : string).

Fixpoint number (seq : Z) (entries : list EvidenceEntry) : list EvidenceRecord :=
  match entries with [] => [] | e :: rest => Sequenced (seq + 1) e :: number (seq + 1) rest end.

(** [append]: the gap record is numbered before the entries. *)
Definition append (o : WriteOutcome) (now : Z) (entries : list EvidenceEntry) (b : Buffer) (d : Disk) : res EvidenceError (list Z) * Buffer * Disk :=
  if negb (bf_opened b) then (Err (NotDurable "evidence buffer not started"), b, d)
  else match entries with
  | [] => (Ok [], b, d)
  | _ =>
      match List.find (fun e => negb (bool_decide (ee_coverageType e ∈ EVIDENCE_COVERAGE_TYPES))) entries with
      | Some e => (Err (UnknownCoverage ("Unknown coverageType " +:+ String.String quoteChar (ee_coverageType e) +:+ String.String quoteChar " for oracle evidence")), b, d)
      | None =>
          let gapSeq := bf_lastSeq b + 1 in
          let gap := (fun g => Gap gapSeq (og_firstSeq g) (og_lastSeq g) (og_lostCount g) (og_since g) now (og_reason g)) <$> bf_openGap b in
          let base := match gap with Some _ => gapSeq | None => bf_lastSeq b end in
          let entriesSeq := number base entries in
          let records := option_list gap ++ entriesSeq in
          let lastSeq := base + Z.of_nat (length entries) in
          match spoolAppend o records (bf_spool b) d with
          | (Ok _, s, d') =>
              (Ok (map seqOf entriesSeq),
               mkBuffer (bf_pending b ++ records) lastSeq (bf_lastStoredSeq b) true (bf_failures b) (bf_batchesSinceCompact b) (bf_storeHealthy b) None (bf_lostTotal b) s, d')
          | (Err m, s, d') =>
              let reopened := match bf_openGap b with Some g => Some (mkGap (og_firstSeq g) gapSeq (og_lostCount g + 1) (og_since g) (og_reason g)) | None => None end in
              let b1 := mkBuffer (bf_pending b) lastSeq (bf_lastStoredSeq b) true (bf_failures b) (bf_batchesSinceCompact b) (bf_storeHealthy b) reopened (bf_lostTotal b) s in
              (Err (NotDurable m), noteLoss (base + 1) lastSeq (Z.of_nat (length entries)) now m b1, d')
          end
      end
  end.

(** The database, by sequence number; inserts are idempotent. *)
Definition persist (batch stored : list EvidenceRecord) : list EvidenceRecord :=
  foldl (fun st r => if existsb (fun x => seqOf x =? seqOf r) st then st else st ++ [r]) stored batch.

(** How a flush of one batch ends: stored, or an error with or without the rows. *)
Inductive PersistOutcome := Stored | PersistFailed (committed : bool).

(** The flush of a batch that is not empty. *)
Definition flushBatch (po : PersistOutcome) (ao : AckOutcome) (batch : list EvidenceRecord) (b : Buffer) (d : Disk) (stored : list EvidenceRecord) :
    Buffer * Disk * list EvidenceRecord :=
  match po with
  | PersistFailed committed =>
      (mkBuffer (bf_pending b) (bf_lastSeq b) (bf_lastStoredSeq b) (bf_opened b) (bf_failures b + 1) (bf_batchesSinceCompact b) false (bf_openGap b) (bf_lostTotal b) (bf_spool b),
       d, if committed then persist batch stored else stored)
  | Stored =>
      let lastSeq := List.last (map seqOf batch) 0 in
      let pending := drop (length batch) (bf_pending b) in
      let compact := eo_compactEveryBatches options <=? bf_batchesSinceCompact b + 1 in
      let finish := compact || bool_decide (pending = []) in
      let '(_, s, d') := spoolAck ao lastSeq finish (bf_spool b) d in
      (mkBuffer pending (bf_lastSeq b) lastSeq (bf_opened b) 0 (if finish then 0 else bf_batchesSinceCompact b + 1) true (bf_openGap b) (bf_lostTotal b) s,
       d', persist batch stored)
  end.

(** One round of [drain]. *)
Definition drainStep (po : PersistOutcome) (ao : AckOutcome) (b : Buffer) (d : Disk) (stored : list EvidenceRecord) : Buffer * Disk * list EvidenceRecord :=
  match take (eo_batchSize options) (bf_pending b) with [] => (b, d, stored) | batch => flushBatch po ao batch b d stored end.

(** ** Runs: [tr_accepted] is what [append] reported durable. *)

Record Trail := mkTrail { tr_buffer : Buffer; tr_disk : Disk; tr_stored : list EvidenceRecord; tr_accepted : list EvidenceRecord }.
Inductive TrailOp := AppendOp (o : WriteOutcome) (now : Z) (entries : list EvidenceEntry) | DrainOp (po : PersistOutcome) (ao : AckOutcome) | CrashOp (now : Z) | CrashInAppendOp (n : nat) (now : Z) (entries : list EvidenceEntry).

Definition newRecords (b : Buffer) (now : Z) (entries : list EvidenceEntry) : list EvidenceRecord :=
  let gap := (fun g => Gap (bf_lastSeq b + 1) (og_firstSeq g) (og_lastSeq g) (og_lostCount g) (og_since g) now (og_reason g)) <$> bf_openGap b in
  option_list gap ++ number (match gap with Some _ => bf_lastSeq b + 1 | None => bf_lastSeq b end) entries.

Definition trailStep (t : Trail) (o : TrailOp) : Trail :=
  match o with
  | AppendOp w now entries =>
      let '(r, b, d) := append w now entries (tr_buffer t) (tr_disk t) in
      mkTrail b d (tr_stored t) (match r with Ok (_ :: _) => tr_accepted t ++ newRecords (tr_buffer t) now entries | _ => tr_accepted t end)
  | DrainOp po ao =>
      let '(b, d, st) := drainStep po ao (tr_buffer t) (tr_disk t) (tr_stored t) in mkTrail b d st (tr_accepted t)
  | CrashOp now => let '(b, d) := start now (tr_disk t) newBuffer in mkTrail b d (tr_stored t) (tr_accepted t)
  | CrashInAppendOp n now entries =>
      let '(_, b, d0) := append (Torn n "crash") now entries (tr_buffer t) (tr_disk t) in
      let '(b', d) := start now d0 newBuffer in mkTrail b' d (tr_stored t) (tr_accepted t)
  end.
Definition newTrail (now : Z) : Trail :=
  let '(b, d) := start now (mkDisk [] false 0) newBuffer in mkTrail b d [] [].
Definition runTrail (now : Z) (ops : list TrailOp) : Trail := foldl trailStep (newTrail now) ops.
End Spool.

(** * Durability *)

Abbreviation seqs l := (map seqOf l).

Lemma readable_all l : readable (map Some l) = l.
Proof. unfold readable. induction l as [|r l IH]; [done|]. cbn. by rewrite IH. Qed.

Lemma number_seqs entries : ∀ s r, r ∈ number s entries -> s < seqOf r <= s + Z.of_nat (length entries).
Proof.
  induction entries as [|e entries IH]; intros s r Hr; cbn in Hr; [by apply not_elem_of_nil in Hr|]. cbn [length]. apply elem_of_cons in Hr as [->|Hr]; [cbn; lia|].
  apply IH in Hr. lia.
Qed.
Lemma number_sorted entries : ∀ s, StronglySorted Z.lt (seqs (number s entries)).
Proof.
  induction entries as [|e entries IH]; intros s; cbn; constructor; [apply IH|]. apply Forall_forall. intros x (r & -> & Hr)%list_elem_of_fmap. apply number_seqs in Hr. lia.
Qed.

Lemma sorted_app l k : StronglySorted Z.lt (seqs l) -> StronglySorted Z.lt (seqs k) -> (∀ x y, x ∈ l -> y ∈ k -> seqOf x < seqOf y) -> StronglySorted Z.lt (seqs (l ++ k)).
Proof.
  intros Hl Hk Hx. induction l as [|a l IH]; [done|]. cbn in *. apply StronglySorted_inv in Hl as [Hl Ha]. constructor; [apply IH; [done|]; intros x y Hin; apply Hx; by right|].
  rewrite map_app. apply Forall_app. split; [done|]. apply Forall_forall. intros z (y & -> & Hy)%list_elem_of_fmap. apply Hx; [left|done].
Qed.
Lemma sorted_app_inv l k : StronglySorted Z.lt (seqs (l ++ k)) ->
  StronglySorted Z.lt (seqs l) ∧ StronglySorted Z.lt (seqs k) ∧ ∀ x y, x ∈ l -> y ∈ k -> seqOf x < seqOf y.
Proof.
  rewrite map_app. intros H. split; [by apply StronglySorted_app_1_l in H|]. split; [by apply StronglySorted_app_1_r in H|].
  intros x y Hx Hy. refine (StronglySorted_app_1_elem_of Z.lt (seqs l) (seqs k) (seqOf x) (seqOf y) H _ _); apply list_elem_of_fmap; eauto.
Qed.
Lemma sorted_eq l x y : StronglySorted Z.lt (seqs l) -> x ∈ l -> y ∈ l -> seqOf x = seqOf y -> x = y.
Proof.
  induction l as [|a l IH]; intros Hs Hx Hy E; [by apply not_elem_of_nil in Hx|]. cbn in Hs. apply StronglySorted_inv in Hs as [Hs Ha]. rewrite Forall_forall in Ha.
  assert (∀ z, z ∈ l -> seqOf a < seqOf z) as Hlt by (intros z Hz; apply Ha, list_elem_of_fmap; eauto).
  apply elem_of_cons in Hx as [->|Hx], Hy as [->|Hy]; [done|specialize (Hlt y Hy); lia|specialize (Hlt x Hx); lia|by apply IH].
Qed.

(** [sort_by] leaves a list in order alone. *)
Lemma sort_sorted l : StronglySorted Z.lt (seqs l) -> sort_by seqLe l = l.
Proof.
  induction l as [|a l IH]; intros Hs; [done|]. cbn in *. apply StronglySorted_inv in Hs as [Hs Ha]. rewrite IH by done. destruct l as [|b l]; [done|]. cbn.
  apply Forall_inv in Ha. unfold seqLe. by rewrite (proj2 (Z.leb_le _ _)) by lia.
Qed.
Lemma filter_sorted p l : StronglySorted Z.lt (seqs l) -> StronglySorted Z.lt (seqs (List.filter p l)).
Proof.
  induction l as [|a l IH]; intros Hs; [done|]. cbn in *. apply StronglySorted_inv in Hs as [Hs Ha]. destruct (p a); [|by apply IH]. cbn. constructor; [by apply IH|].
  rewrite Forall_forall in *. intros z (y & -> & Hy)%list_elem_of_fmap. apply Ha, list_elem_of_fmap. exists y. split; [done|]. apply list_elem_of_In in Hy. apply filter_In in Hy as [Hy _]. by apply list_elem_of_In.
Qed.

Lemma persist_keeps b : ∀ st x, x ∈ st -> x ∈ persist b st.
Proof. induction b as [|r b IH]; intros st x Hx; [done|]. cbn. apply IH. destruct (existsb _ _); [done|]. apply elem_of_app. by left. Qed.
Lemma persist_only b : ∀ st x, x ∈ persist b st -> x ∈ st ∨ x ∈ b.
Proof.
  induction b as [|r b IH]; intros st x Hx; [by left|]. cbn in Hx. apply IH in Hx as [Hx|Hx]; [|right; by right].
  destruct (existsb _ _); [by left|]. apply elem_of_app in Hx as [|Hx]; [by left|]. apply list_elem_of_singleton in Hx as ->. right. left.
Qed.
(** A batch whose numbers the database has only for the same records ends up stored. *)
Lemma persist_adds b : ∀ st, (∀ x r, x ∈ st -> r ∈ b -> seqOf x = seqOf r -> x = r) -> StronglySorted Z.lt (seqs b) -> ∀ r, r ∈ b -> r ∈ persist b st.
Proof.
  induction b as [|a b IH]; intros st Hu Hs r Hr; [by apply not_elem_of_nil in Hr|]. cbn in *. apply StronglySorted_inv in Hs as [Hs Ha]. rewrite Forall_forall in Ha.
  set (st' := if existsb _ _ then _ else _). assert (a ∈ st') as Hin.
  { subst st'. destruct (existsb (fun x => seqOf x =? seqOf a) st) eqn:E; [|apply elem_of_app; right; by left]. apply existsb_exists in E as (x & Hx%list_elem_of_In & Ex%Z.eqb_eq).
    rewrite <- (Hu x a Hx) by (done || left). done. }
  apply elem_of_cons in Hr as [->|Hr]; [by apply persist_keeps|]. apply IH; [|done|done]. intros x r' Hx Hr' Ex.
  assert (x ∈ st ∨ x = a) as [Hx'| ->]; [|apply Hu; [done|by right|done]|].
  - subst st'. destruct (existsb _ _); [by left|]. apply elem_of_app in Hx as [|Hx]; [by left|]. apply list_elem_of_singleton in Hx. by right.
  - assert (seqOf a < seqOf r'); [|lia]. apply Ha, list_elem_of_fmap. by exists r'.
Qed.

(** The trail at rest: the file holds [L1], all of it stored, and the pending records. *)
Record TrailOk (t : Trail) (L1 : list EvidenceRecord) : Prop := {
  to_lines : dk_lines (tr_disk t) = map Some (L1 ++ bf_pending (tr_buffer t));
  to_fragment : dk_fragment (tr_disk t) = false;
  to_sorted : StronglySorted Z.lt (seqs (L1 ++ bf_pending (tr_buffer t)));
  to_last : ∀ r, r ∈ L1 ++ bf_pending (tr_buffer t) -> seqOf r <= bf_lastSeq (tr_buffer t);
  to_acked : dk_acked (tr_disk t) <= bf_lastSeq (tr_buffer t);
  to_unacked : ∀ r, r ∈ bf_pending (tr_buffer t) -> dk_acked (tr_disk t) < seqOf r;
  to_l1 : ∀ r, r ∈ L1 -> r ∈ tr_stored t;
  to_stored : ∀ x, x ∈ tr_stored t -> seqOf x <= dk_acked (tr_disk t) ∨ x ∈ L1 ++ bf_pending (tr_buffer t);
  to_accepted : ∀ r, r ∈ tr_accepted t -> r ∈ tr_stored t ∨ r ∈ bf_pending (tr_buffer t);
  to_order : ∀ x r, x ∈ tr_stored t -> r ∈ bf_pending (tr_buffer t) -> r ∉ tr_stored t -> seqOf x < seqOf r;
  to_seqs : StronglySorted Z.lt (seqs (tr_accepted t));
  to_opened : bf_opened (tr_buffer t) = true }.

Lemma stored_bound t L1 x : TrailOk t L1 -> x ∈ tr_stored t -> seqOf x <= bf_lastSeq (tr_buffer t).
Proof. intros H Hx. destruct (to_stored _ _ H x Hx) as [Hs|Hs]; [pose proof (to_acked _ _ H); lia|by apply (to_last _ _ H)]. Qed.
Lemma accepted_bound t L1 r : TrailOk t L1 -> r ∈ tr_accepted t -> seqOf r <= bf_lastSeq (tr_buffer t).
Proof.
  intros H Hr. destruct (to_accepted _ _ H r Hr) as [Hs|Hs]; [by apply (stored_bound t L1)|]. apply (to_last _ _ H), elem_of_app. by right.
Qed.

(** What the database holds under a pending record's number is that record. *)
Lemma stored_same t L1 x r : TrailOk t L1 -> x ∈ tr_stored t -> r ∈ bf_pending (tr_buffer t) -> seqOf x = seqOf r -> x = r.
Proof.
  intros H Hx Hr E. pose proof (to_unacked _ _ H r Hr). destruct (to_stored _ _ H x Hx) as [Hs|Hs]; [lia|].
  apply (sorted_eq _ x r (to_sorted _ _ H)); [done|apply elem_of_app; by right|done].
Qed.

(** ** Recovery *)

Lemma highWater_spec l : ∀ h, h <= foldl (fun h r => Z.max h (seqOf r)) h l ∧ ∀ r, r ∈ l -> seqOf r <= foldl (fun h r => Z.max h (seqOf r)) h l.
Proof.
  induction l as [|a l IH]; intros h; cbn; [split; [lia|by intros r ?%not_elem_of_nil]|]. destruct (IH (Z.max h (seqOf a))) as [H1 H2]. split; [lia|].
  intros r [->|Hr]%elem_of_cons; [lia|by apply H2].
Qed.
Lemma highWater_eq l b h : (∀ r, r ∈ l -> seqOf r <= b) -> h <= b -> foldl (fun h r => Z.max h (seqOf r)) h l <= b.
Proof. revert h. induction l as [|a l IH]; intros h Hl Hh; cbn; [done|]. apply IH; [intros r Hr; apply Hl; by right|]. specialize (Hl a ltac:(left)). lia. Qed.

Section Steps.
Variable sizeOf : EvidenceRecord -> Z.
Variable maxBytes : Z.
Variable options : EvidenceBufferOptions.

(** Opening a file of readable lines in order keeps the records past the mark. *)
Lemma openSpool_ok L acked fragment : StronglySorted Z.lt (seqs L) ->
  let '(rv, d', s) := openSpool sizeOf (mkDisk (map Some L) fragment acked) in
  rv_pending rv = List.filter (fun r => acked <? seqOf r) L ∧ rv_highWaterSeq rv = foldl (fun h r => Z.max h (seqOf r)) acked L ∧
  d' = mkDisk (map Some (List.filter (fun r => acked <? seqOf r) L)) false acked.
Proof.
  intros Hs. unfold openSpool. cbn [dk_lines dk_acked dk_fragment]. rewrite readable_all, sort_sorted by by apply filter_sorted. split; [done|]. split; [done|].
  destruct ((0 <? _) || _ || fragment) eqn:E; [done|]. apply orb_false_iff in E as [E ->]. apply orb_false_iff in E as [_ E]. apply negb_false_iff, Nat.eqb_eq in E. rewrite length_map in E.
  replace (List.filter (fun r => acked <? seqOf r) L) with L; [done|]. clear Hs. symmetry. revert E. induction L as [|a L IH]; [done|]. cbn.
  pose proof (filter_length_le (fun r => acked <? seqOf r) L). destruct (acked <? seqOf a); cbn; [intros [= E]; by rewrite IH|lia].
Qed.

(** After a restart the records past the mark are pending again; [extra] are records a
    crash cut off before they were reported. *)
Lemma start_ok t L1 extra fragment now : TrailOk t L1 ->
  StronglySorted Z.lt (seqs ((L1 ++ bf_pending (tr_buffer t)) ++ extra)) -> (∀ r, r ∈ extra -> bf_lastSeq (tr_buffer t) < seqOf r) ->
  let '(b, d) := start sizeOf now (mkDisk (map Some ((L1 ++ bf_pending (tr_buffer t)) ++ extra)) fragment (dk_acked (tr_disk t))) newBuffer in
  TrailOk (mkTrail b d (tr_stored t) (tr_accepted t)) [].
Proof.
  intros H Hsort Hex. set (L := (L1 ++ bf_pending (tr_buffer t)) ++ extra) in *. unfold start.
  pose proof (openSpool_ok L (dk_acked (tr_disk t)) fragment Hsort) as Ho. destruct (openSpool _ _) as [[rv d'] s]. destruct Ho as (Ep & Ew & ->).
  set (P := List.filter (fun r => dk_acked (tr_disk t) <? seqOf r) L) in *.
  assert (∀ r, r ∈ P <-> r ∈ L ∧ dk_acked (tr_disk t) < seqOf r) as HP by (intros r; subst P; by rewrite list_elem_of_In, filter_In, <- list_elem_of_In, Z.ltb_lt).
  destruct (highWater_spec L (dk_acked (tr_disk t))) as [W1 W2].
  assert (∀ x, x ∈ tr_stored t -> seqOf x <= dk_acked (tr_disk t) ∨ x ∈ P) as HS.
  { intros x Hx. destruct (to_stored _ _ H x Hx) as [|Hx']; [by left|]. destruct (Z.le_gt_cases (seqOf x) (dk_acked (tr_disk t))); [by left|]. right. apply HP. split; [apply elem_of_app; by left|lia]. }
  assert (∀ b, bf_pending b = P -> bf_lastSeq b = foldl (fun h r => Z.max h (seqOf r)) (dk_acked (tr_disk t)) L -> bf_opened b = true ->
    TrailOk (mkTrail b (mkDisk (map Some P) false (dk_acked (tr_disk t))) (tr_stored t) (tr_accepted t)) []) as G.
  { intros b E1 E2 E3. split; cbn [tr_disk tr_buffer tr_stored tr_accepted dk_lines dk_fragment dk_acked app]; rewrite ?E1, ?E2; try done.
    - subst P. by apply filter_sorted.
    - intros r [Hr _]%HP. by apply W2.
    - intros r [_ Hr]%HP. exact Hr.
    - intros r Hr. by apply not_elem_of_nil in Hr.
    - intros r Hr. destruct (to_accepted _ _ H r Hr) as [Hs|Hs]; [by left|]. right. apply HP. split; [apply elem_of_app; left; apply elem_of_app; by right|by apply (to_unacked _ _ H)].
    - intros x r Hx [Hr Hu]%HP Hn. apply elem_of_app in Hr as [Hr|Hr]; [|pose proof (stored_bound t L1 x H Hx); specialize (Hex r Hr); lia].
      apply elem_of_app in Hr as [Hr|Hr]; [by destruct Hn; apply (to_l1 _ _ H)|by apply (to_order _ _ H)].
    - apply (to_seqs _ _ H). }
  destruct (0 <? rv_discardedLines rv); apply G; cbn; congruence.
Qed.

(** ** Appending *)

Definition lastOf (b : Buffer) (entries : list EvidenceEntry) : Z :=
  bf_lastSeq b + Z.of_nat (length entries) + match bf_openGap b with Some _ => 1 | None => 0 end.

Lemma newRecords_ok b now entries : StronglySorted Z.lt (seqs (newRecords b now entries)) ∧
  ∀ r, r ∈ newRecords b now entries -> bf_lastSeq b < seqOf r <= lastOf b entries.
Proof.
  unfold newRecords, lastOf. destruct (bf_openGap b) as [g|]; cbn.
  - split; [constructor; [apply number_sorted|]|].
    + apply Forall_forall. intros x (r & -> & Hr)%list_elem_of_fmap. apply number_seqs in Hr. lia.
    + intros r [->|Hr]%elem_of_cons; [cbn; lia|]. apply number_seqs in Hr. lia.
  - split; [apply number_sorted|]. intros r Hr. apply number_seqs in Hr. lia.
Qed.

(** An append changes nothing but the numbering, or adds its records everywhere. *)
Inductive appended (w : WriteOutcome) (b : Buffer) (d : Disk) (now : Z) (entries : list EvidenceEntry) : res EvidenceError (list Z) * Buffer * Disk -> Prop :=
| appended_not r b' d' : (∀ x l, r ≠ Ok (x :: l)) -> bf_pending b' = bf_pending b -> bf_lastSeq b <= bf_lastSeq b' -> bf_opened b' = bf_opened b ->
    dk_lines d' = dk_lines d ∧ dk_fragment d' = dk_fragment d ∧ dk_acked d' = dk_acked d ∨ (∃ n m, w = Torn n m ∧ d' = writeTorn n (newRecords b now entries) d) -> appended w b d now entries (r, b', d')
| appended_all x l b' : bf_pending b' = bf_pending b ++ newRecords b now entries -> bf_lastSeq b' = lastOf b entries -> bf_opened b' = bf_opened b ->
    appended w b d now entries (Ok (x :: l), b', writeLines (newRecords b now entries) d).

Lemma append_cases w now entries b d : (∀ n, w ≠ Short n) -> appended w b d now entries (append sizeOf maxBytes w now entries b d).
Proof.
  intros Hns. unfold append. destruct (bf_opened b) eqn:Eo; cbn [negb]; [|apply appended_not; [done..|by left]].
  destruct entries as [|e entries]; [apply appended_not; [done..|by left]|]. destruct (List.find _ _); [apply appended_not; [done..|by left]|].
  fold (newRecords b now (e :: entries)).
  assert (∀ (m : string) s d', dk_lines d' = dk_lines d ∧ dk_fragment d' = dk_fragment d ∧ dk_acked d' = dk_acked d ∨ (∃ n m, w = Torn n m ∧ d' = writeTorn n (newRecords b now (e :: entries)) d) ->
    appended w b d now (e :: entries) (Err (NotDurable m), noteLoss (match bf_openGap b with Some _ => bf_lastSeq b + 1 | None => bf_lastSeq b end + 1)
      (match bf_openGap b with Some _ => bf_lastSeq b + 1 | None => bf_lastSeq b end + Z.of_nat (length (e :: entries))) (Z.of_nat (length (e :: entries))) now m
      (mkBuffer (bf_pending b) (match bf_openGap b with Some _ => bf_lastSeq b + 1 | None => bf_lastSeq b end + Z.of_nat (length (e :: entries))) (bf_lastStoredSeq b) true (bf_failures b) (bf_batchesSinceCompact b)
        (bf_storeHealthy b) (match bf_openGap b with Some g => Some (mkGap (og_firstSeq g) (bf_lastSeq b + 1) (og_lostCount g + 1) (og_since g) (og_reason g)) | None => None end) (bf_lostTotal b) s), d')) as Hfail.
  { intros m s d' Hd. apply appended_not; [done..|cbn [noteLoss bf_lastSeq]; destruct (bf_openGap b); lia|by rewrite Eo|done]. }
  unfold spoolAppend. destruct (sp_open (bf_spool b)); cbn [negb]; [|destruct (bf_openGap b); apply Hfail; by left].
  destruct (maxBytes <? _); [destruct (bf_openGap b); apply Hfail; by left|].
  destruct w as [|m|n m|n]; [|destruct (bf_openGap b); apply Hfail; by left|destruct (bf_openGap b) eqn:Eg; apply Hfail; right; exists n, m; unfold newRecords; by rewrite Eg|by destruct (Hns n)].
  destruct (bf_openGap b) eqn:Eg; cbn [fmap option_fmap option_map number map]; unfold newRecords; rewrite Eg;
    (replace (option_list _ ++ _) with (newRecords b now (e :: entries)) by (unfold newRecords; by rewrite Eg)); apply appended_all; unfold lastOf, newRecords; rewrite ?Eg; cbn; try done; lia.
Qed.

Lemma TrailOk_appended t L1 now entries b' : TrailOk t L1 -> bf_pending b' = bf_pending (tr_buffer t) ++ newRecords (tr_buffer t) now entries ->
  bf_lastSeq b' = lastOf (tr_buffer t) entries -> bf_opened b' = true ->
  TrailOk (mkTrail b' (writeLines (newRecords (tr_buffer t) now entries) (tr_disk t)) (tr_stored t) (tr_accepted t ++ newRecords (tr_buffer t) now entries)) L1.
Proof.
  intros H Ep El Eo. destruct (newRecords_ok (tr_buffer t) now entries) as [Ns Nb]. set (N := newRecords _ _ _) in *.
  assert (bf_lastSeq (tr_buffer t) <= lastOf (tr_buffer t) entries) as Hle by (unfold lastOf; destruct (bf_openGap _); lia).
  unfold writeLines. rewrite (to_fragment _ _ H). split; cbn [tr_disk tr_buffer tr_stored tr_accepted dk_lines dk_fragment dk_acked]; rewrite ?Ep, ?El, ?app_assoc; try done.
  - by rewrite (to_lines _ _ H), !map_app.
  - apply sorted_app; [apply (to_sorted _ _ H)|done|]. intros x y Hx Hy. pose proof (to_last _ _ H x Hx). specialize (Nb y Hy). lia.
  - intros r [Hr|Hr]%elem_of_app; [pose proof (to_last _ _ H r Hr); lia|specialize (Nb r Hr); lia].
  - pose proof (to_acked _ _ H). lia.
  - intros r [Hr|Hr]%elem_of_app; [by apply (to_unacked _ _ H)|]. specialize (Nb r Hr). pose proof (to_acked _ _ H). lia.
  - apply (to_l1 _ _ H).
  - intros x Hx. destruct (to_stored _ _ H x Hx); [by left|right; apply elem_of_app; by left].
  - intros r [Hr|Hr]%elem_of_app; [|right; apply elem_of_app; by right]. destruct (to_accepted _ _ H r Hr); [by left|right; apply elem_of_app; by left].
  - intros x r Hx [Hr|Hr]%elem_of_app Hn; [by apply (to_order _ _ H)|]. pose proof (stored_bound t L1 x H Hx). specialize (Nb r Hr). lia.
  - apply sorted_app; [apply (to_seqs _ _ H)|done|]. intros x y Hx Hy. pose proof (accepted_bound t L1 x H Hx). specialize (Nb y Hy). lia.
Qed.

(** Numbers skipped, nothing else changed. *)
Lemma TrailOk_skipped t L1 b' d' : TrailOk t L1 -> bf_pending b' = bf_pending (tr_buffer t) -> bf_lastSeq (tr_buffer t) <= bf_lastSeq b' -> bf_opened b' = true ->
  dk_lines d' = dk_lines (tr_disk t) -> dk_fragment d' = dk_fragment (tr_disk t) -> dk_acked d' = dk_acked (tr_disk t) ->
  TrailOk (mkTrail b' d' (tr_stored t) (tr_accepted t)) L1.
Proof.
  intros [H1 H2 H3 H4 H5 H6 H7 H8 H9 HA HB HC] Ep El Eo D1 D2 D3. split; cbn [tr_disk tr_buffer tr_stored tr_accepted]; rewrite ?Ep, ?D1, ?D2, ?D3; try done; [|lia].
  intros r Hr. specialize (H4 r Hr). lia.
Qed.

Lemma TrailOk_append t L1 w now entries : (∀ n m, w ≠ Torn n m) -> (∀ n, w ≠ Short n) -> TrailOk t L1 -> TrailOk (trailStep sizeOf maxBytes options t (AppendOp w now entries)) L1.
Proof.
  intros Hw Hsh H. cbn [trailStep]. pose proof (append_cases w now entries (tr_buffer t) (tr_disk t) Hsh) as Hc. destruct (append _ _ _ _ _ _ _) as [[r b] d].
  inversion Hc as [r' b' d' Hr Ep El Eo Hd|x l b' Ep El Eo]; subst.
  - destruct Hd as [(D1 & D2 & D3)|(n & m & -> & _)]; [|by destruct (Hw n m)].
    destruct r as [[|x l]|e]; [|by destruct (Hr x l)|]; (apply TrailOk_skipped; try done); by rewrite Eo, (to_opened _ _ H).
  - apply TrailOk_appended; [done..|]. by rewrite Eo, (to_opened _ _ H).
Qed.

(** ** Crashes *)

Lemma TrailOk_restart t L1 extra fragment now d : TrailOk t L1 -> StronglySorted Z.lt (seqs extra) -> (∀ r, r ∈ extra -> bf_lastSeq (tr_buffer t) < seqOf r) ->
  dk_lines d = dk_lines (tr_disk t) ++ map Some extra -> dk_fragment d = fragment -> dk_acked d = dk_acked (tr_disk t) ->
  let '(b, d') := start sizeOf now d newBuffer in TrailOk (mkTrail b d' (tr_stored t) (tr_accepted t)) [].
Proof.
  intros H He Hx D1 D2 D3. destruct d as [dl df da]. cbn in *. subst. rewrite (to_lines _ _ H), <- map_app. apply (start_ok t L1); [done| |done].
  apply sorted_app; [apply (to_sorted _ _ H)|done|]. intros x y Hx' Hy. pose proof (to_last _ _ H x Hx'). specialize (Hx y Hy). lia.
Qed.

Lemma TrailOk_crash t L1 now : TrailOk t L1 -> TrailOk (trailStep sizeOf maxBytes options t (CrashOp now)) [].
Proof.
  intros H. cbn [trailStep]. pose proof (TrailOk_restart t L1 [] (dk_fragment (tr_disk t)) now (tr_disk t) H) as G.
  destruct (start _ _ _ _) as [b d]. apply G; [constructor|by intros r Hr%not_elem_of_nil|by rewrite app_nil_r|done..].
Qed.

Lemma take_sorted n l : StronglySorted Z.lt (seqs l) -> StronglySorted Z.lt (seqs (take n l)).
Proof. intros H. rewrite <- (take_drop n l) in H. by apply sorted_app_inv in H as [H _]. Qed.

Lemma TrailOk_crashInAppend t L1 n now entries : TrailOk t L1 -> TrailOk (trailStep sizeOf maxBytes options t (CrashInAppendOp n now entries)) [].
Proof.
  intros H. cbn [trailStep]. pose proof (append_cases (Torn n "crash") now entries (tr_buffer t) (tr_disk t) ltac:(done)) as Hc.
  destruct (newRecords_ok (tr_buffer t) now entries) as [Ns Nb]. set (N := newRecords _ _ _) in *.
  destruct (append _ _ _ _ _ _ _) as [[r b] d0]. inversion Hc as [r' b' d' Hr Ep El Eo Hd|x l b' Ep El Eo]; subst.
  - destruct Hd as [(D1 & D2 & D3)|(k & m & _ & ->)].
    + pose proof (TrailOk_restart t L1 [] (dk_fragment (tr_disk t)) now d0 H) as G. destruct (start _ _ _ _) as [b1 d1]. apply G; [constructor|by intros z Hz%not_elem_of_nil|by rewrite app_nil_r|done..].
    + pose proof (TrailOk_restart t L1 (take k N) true now (writeTorn k N (tr_disk t)) H (take_sorted k N Ns)) as G. destruct (start _ _ _ _) as [b1 d1]. apply G.
      * intros z Hz. apply Nb. by apply (subseteq_take k N).
      * unfold writeTorn, writeLines. rewrite (to_fragment _ _ H). done.
      * done.
      * unfold writeTorn, writeLines. rewrite (to_fragment _ _ H). done.
  - pose proof (TrailOk_restart t L1 N false now (writeLines N (tr_disk t)) H Ns) as G. destruct (start _ _ _ _) as [b1 d1]. apply G; [apply Nb|..]; unfold writeLines; by rewrite (to_fragment _ _ H).
Qed.

(** ** Draining *)

Lemma last_seq l : l ≠ [] -> ∃ r, r ∈ l ∧ List.last (seqs l) 0 = seqOf r ∧ (StronglySorted Z.lt (seqs l) -> ∀ x, x ∈ l -> seqOf x <= seqOf r).
Proof.
  intros Hl. destruct (exists_last Hl) as (l' & r & ->). exists r. split; [apply elem_of_app; right; by left|]. rewrite map_app. cbn [map]. rewrite last_last. split; [done|].
  intros Hs x [Hx| ->%list_elem_of_singleton]%elem_of_app; [|lia]. change [seqOf r] with (seqs [r]) in Hs. rewrite <- map_app in Hs. apply sorted_app_inv in Hs as (_ & _ & Hs). specialize (Hs x r Hx ltac:(left)). lia.
Qed.

(** The batch is stored and the mark is at its end, or where it was. *)
Lemma TrailOk_marked t L1 z batch rest mark b' d' L1' : TrailOk t L1 -> z ∈ batch -> bf_pending (tr_buffer t) = batch ++ rest -> bf_pending b' = rest -> bf_lastSeq b' = bf_lastSeq (tr_buffer t) -> bf_opened b' = true ->
  (∀ x, x ∈ batch -> seqOf x <= mark) -> (∀ x, x ∈ rest -> mark < seqOf x) -> mark <= bf_lastSeq (tr_buffer t) -> dk_acked (tr_disk t) <= mark ->
  (dk_acked d' = mark ∨ dk_acked d' = dk_acked (tr_disk t) ∧ L1' = L1 ++ batch) -> (L1' = L1 ++ batch ∨ L1' = []) ->
  dk_lines d' = map Some (L1' ++ rest) -> dk_fragment d' = false -> TrailOk (mkTrail b' d' (persist batch (tr_stored t)) (tr_accepted t)) L1'.
Proof.
  intros H Hz Ep Er El Eo Hb Hr Hm Ha HA HL Hl Hf. pose proof (to_sorted _ _ H) as Hs. rewrite Ep, app_assoc in Hs. apply sorted_app_inv in Hs as (Hs1 & Hs2 & Hs3).
  assert (∀ r, r ∈ batch -> r ∈ persist batch (tr_stored t)) as Hst.
  { apply persist_adds; [|by apply sorted_app_inv in Hs1 as (_ & ? & _)]. intros x r Hx Hrb. apply (stored_same t L1 x r H Hx). rewrite Ep. apply elem_of_app. by left. }
  assert (dk_acked d' <= mark) as Hdm by (destruct HA as [->|[-> _]]; lia).
  split; cbn [tr_disk tr_buffer tr_stored tr_accepted]; rewrite ?Er, ?El; try done.
  - destruct HL as [-> | ->]; [|done]. by apply sorted_app.
  - intros r Hin. apply (to_last _ _ H). rewrite Ep. destruct HL as [-> | ->]; [by rewrite <- app_assoc in Hin|]. rewrite !elem_of_app. auto.
  - lia.
  - intros r Hin. specialize (Hr r Hin). lia.
  - destruct HL as [-> | ->]; [|by intros r Hin%not_elem_of_nil]. intros r [Hin|Hin]%elem_of_app; [by apply persist_keeps, (to_l1 _ _ H)|by apply Hst].
  - intros x Hx. assert (x ∈ L1 ++ batch ∨ x ∈ rest ∨ seqOf x <= dk_acked (tr_disk t)) as [Hx'|[Hx'|Hx']].
    { apply persist_only in Hx as [Hx|Hx]; [|left; apply elem_of_app; by right]. destruct (to_stored _ _ H x Hx) as [|Hx']; [by right; right|]. rewrite Ep, app_assoc in Hx'. apply elem_of_app in Hx' as [|]; auto. }
    + destruct HA as [->|[_ ->]]; [left|right; apply elem_of_app; by left]. apply elem_of_app in Hx' as [Hx'|Hx']; [|by apply Hb].
      apply sorted_app_inv in Hs1 as (_ & _ & Hs1). specialize (Hs1 x z Hx' Hz). specialize (Hb z Hz). lia.
    + right. apply elem_of_app. by right.
    + left. destruct HA as [->|[-> _]]; lia.
  - intros r Hin. destruct (to_accepted _ _ H r Hin) as [Hr'|Hr']; [left; by apply persist_keeps|]. rewrite Ep in Hr'. apply elem_of_app in Hr' as [Hr'|Hr']; [left; by apply Hst|by right].
  - intros x r Hx Hin Hn. apply persist_only in Hx as [Hx|Hx].
    + apply (to_order _ _ H); [done|rewrite Ep; apply elem_of_app; by right|]. intros Hc. by apply Hn, persist_keeps.
    + apply Hs3; [apply elem_of_app; by right|done].
  - apply (to_seqs _ _ H).
Qed.

Lemma filter_split (p : EvidenceRecord -> bool) a b : (∀ x, x ∈ a -> p x = false) -> (∀ x, x ∈ b -> p x = true) -> List.filter p (a ++ b) = b.
Proof.
  intros Ha Hb. induction a as [|x a IH]; cbn.
  - induction b as [|x b IH]; [done|]. cbn. rewrite (Hb x) by left. rewrite IH; [done|]. intros y Hy. apply Hb. by right.
  - rewrite (Ha x) by left. apply IH. intros y Hy. apply Ha. by right.
Qed.

(** A flush that fails after the rows were committed leaves them pending. *)
Lemma TrailOk_committed t L1 batch rest b' : TrailOk t L1 -> bf_pending (tr_buffer t) = batch ++ rest -> bf_pending b' = bf_pending (tr_buffer t) ->
  bf_lastSeq b' = bf_lastSeq (tr_buffer t) -> bf_opened b' = true -> TrailOk (mkTrail b' (tr_disk t) (persist batch (tr_stored t)) (tr_accepted t)) L1.
Proof.
  intros H Ep Er El Eo. pose proof (to_sorted _ _ H) as Hs. rewrite Ep, app_assoc in Hs. apply sorted_app_inv in Hs as (Hs1 & _ & Hs3).
  assert (∀ r, r ∈ batch -> r ∈ persist batch (tr_stored t)) as Hst.
  { apply persist_adds; [|by apply sorted_app_inv in Hs1 as (_ & ? & _)]. intros x r Hx Hrb. apply (stored_same t L1 x r H Hx). rewrite Ep. apply elem_of_app. by left. }
  destruct H as [H1 H2 H3 H4 H5 H6 H7 H8 H9 HA HB HC]. split; cbn [tr_disk tr_buffer tr_stored tr_accepted]; rewrite ?Er, ?El; try done.
  - intros r Hr. by apply persist_keeps, H7.
  - intros x [Hx|Hx]%persist_only; [by apply H8|]. right. rewrite Ep, !elem_of_app. auto.
  - intros r Hr. destruct (H9 r Hr); [left; by apply persist_keeps|by right].
  - intros x r Hx Hr Hn. rewrite Ep in Hr. apply elem_of_app in Hr as [Hr|Hr]; [by destruct Hn; apply Hst|]. apply persist_only in Hx as [Hx|Hx].
    + apply HA; [done|rewrite Ep; apply elem_of_app; by right|]. intros Hc. by apply Hn, persist_keeps.
    + apply Hs3; [apply elem_of_app; by right|done].
Qed.

Lemma TrailOk_flush t L1 po ao z batch rest : TrailOk t L1 -> bf_pending (tr_buffer t) = (z :: batch) ++ rest -> ∃ L1',
  let '(b, d, st) := flushBatch sizeOf options po ao (z :: batch) (tr_buffer t) (tr_disk t) (tr_stored t) in TrailOk (mkTrail b d st (tr_accepted t)) L1'.
Proof.
  set (full := z :: batch). intros H Ep. assert (z ∈ full) as Hz by left. destruct (last_seq full ltac:(done)) as (l & Hl & El & Hmax).
  pose proof (to_sorted _ _ H) as Hs. rewrite Ep, app_assoc in Hs. apply sorted_app_inv in Hs as (Hs1 & Hs2 & Hs3).
  assert (StronglySorted Z.lt (seqs full)) as Hsb by by apply sorted_app_inv in Hs1 as (_ & ? & _). specialize (Hmax Hsb).
  assert (∀ x, x ∈ rest -> seqOf l < seqOf x) as Hrest by (intros x Hx; apply Hs3; [apply elem_of_app; by right|done]).
  assert (l ∈ bf_pending (tr_buffer t)) as Hlp by (rewrite Ep; apply elem_of_app; by left).
  assert (seqOf l <= bf_lastSeq (tr_buffer t)) as Hll by (apply (to_last _ _ H), elem_of_app; by right).
  pose proof (to_unacked _ _ H l Hlp) as Hla. pose proof (to_lines _ _ H) as HL. pose proof (to_fragment _ _ H) as HF. pose proof (to_opened _ _ H) as HO. rewrite Ep, app_assoc in HL.
  unfold flushBatch. destruct po as [|[]].
  - rewrite El, Ep, drop_app_length. set (fin := _ || _). clearbody fin. unfold spoolAck.
    assert (unreadable (tr_disk t) = 0) as Hun by (unfold unreadable; rewrite HL, HF, readable_all, length_map; lia).
    rewrite Hun. cbn [Z.ltb Z.compare orb].
    assert (∀ s d' n L1', (dk_acked d' = seqOf l ∨ dk_acked d' = dk_acked (tr_disk t) ∧ L1' = L1 ++ full) -> (L1' = L1 ++ full ∨ L1' = []) -> dk_lines d' = map Some (L1' ++ rest) -> dk_fragment d' = false ->
      TrailOk (mkTrail (mkBuffer rest (bf_lastSeq (tr_buffer t)) (seqOf l) (bf_opened (tr_buffer t)) 0 n true (bf_openGap (tr_buffer t)) (bf_lostTotal (tr_buffer t)) s) d' (persist full (tr_stored t)) (tr_accepted t)) L1') as G.
    { intros s d' n L1' HA HB HC HD. apply (TrailOk_marked t L1 z full rest (seqOf l)); try done. lia. }
    destruct ao; [|exists (L1 ++ full); apply G; [by right|by left|done..]|]; (destruct fin; cbn [negb]; [|exists (L1 ++ full); apply G; [by left|by left|done..]]).
    + exists []. apply G; [by left|by right| |done]. cbn. rewrite HL, readable_all. f_equal. apply filter_split; [|intros x Hx; apply Z.ltb_lt; by apply Hrest].
      intros x Hx. apply Z.ltb_ge. apply elem_of_app in Hx as [Hx|Hx]; [|by apply Hmax]. apply sorted_app_inv in Hs1 as (_ & _ & Hs1). specialize (Hs1 x l Hx Hl). lia.
    + exists (L1 ++ full). apply G; [by left|by left|done..].
  - exists L1. by apply (TrailOk_committed t L1 full rest).
  - exists L1. by apply TrailOk_skipped.
Qed.

Lemma TrailOk_drain t L1 po ao : TrailOk t L1 -> ∃ L1', TrailOk (trailStep sizeOf maxBytes options t (DrainOp po ao)) L1'.
Proof.
  intros H. cbn [trailStep]. unfold drainStep. destruct (take (eo_batchSize options) (bf_pending (tr_buffer t))) as [|z batch] eqn:Eb; [exists L1; by destruct t|].
  destruct (TrailOk_flush t L1 po ao z batch (drop (eo_batchSize options) (bf_pending (tr_buffer t))) H) as [L1' G]; [by rewrite <- Eb, take_drop|].
  exists L1'. by destruct (flushBatch _ _ _ _ _ _ _ _) as [[b d] st].
Qed.

(** No write stops halfway, with an error or without, unless the process stops with it. *)
Definition wholeWrites (o : TrailOp) : Prop := match o with AppendOp (Torn _ _ | Short _) _ _ => False | _ => True end.

Lemma TrailOk_step t L1 o : wholeWrites o -> TrailOk t L1 -> ∃ L1', TrailOk (trailStep sizeOf maxBytes options t o) L1'.
Proof.
  intros Ho H. destruct o as [w now entries|po ao|now|n now entries].
  - exists L1. apply TrailOk_append; [| |done]; [intros n m ->|intros n ->]; done.
  - by apply (TrailOk_drain t L1).
  - exists []. by apply (TrailOk_crash t L1).
  - exists []. by apply (TrailOk_crashInAppend t L1).
Qed.

Lemma TrailOk_run now ops : Forall wholeWrites ops -> ∃ L1, TrailOk (runTrail sizeOf maxBytes options now ops) L1.
Proof.
  intros Ho. unfold runTrail. assert (∃ L1, TrailOk (newTrail sizeOf now) L1) as H0.
  { exists []. split; cbn; try done; try lia; try (by constructor); by intros r Hr%not_elem_of_nil. }
  revert Ho H0. generalize (newTrail sizeOf now). induction ops as [|o ops IH]; intros t Ho [L1 H]; [by exists L1|]. apply Forall_cons in Ho as [Ho Hr]. apply IH; [done|]. by apply (TrailOk_step t L1).
Qed.
End Steps.

(** C11: On a disk that writes a batch whole or not at all while the process lives,
    every record that append reported durable is in the database or readable in the spool
    past the mark, through refused writes, store failures, crashes, crashes in the middle
    of a write, failed acknowledgements and compactions; no two records reported durable
    share a number, and a record is stored only after every reported record with a
    smaller number.  Both limits are needed: see [torn_write_loses_next_record] and
    [short_write_loses_reported_record] for a write that stops halfway, and
    [restart_forgets_open_gap] for the number of a record that was refused, which a
    restart gives to the next one. *)
Theorem accepted_evidence_durable sizeOf maxBytes options now ops :
  Forall wholeWrites ops -> let t := runTrail sizeOf maxBytes options now ops in
  (∀ r, r ∈ tr_accepted t -> r ∈ tr_stored t ∨ Some r ∈ dk_lines (tr_disk t) ∧ dk_acked (tr_disk t) < seqOf r) ∧
  StronglySorted Z.lt (map seqOf (tr_accepted t)) ∧
  (∀ x r, x ∈ tr_stored t -> r ∈ tr_accepted t -> r ∉ tr_stored t -> seqOf x < seqOf r).
Proof.
  intros Ho t. destruct (TrailOk_run sizeOf maxBytes options now ops Ho) as [L1 H]. fold t in H. split; [|split; [apply (to_seqs _ _ H)|]].
  - intros r Hr. destruct (to_accepted _ _ H r Hr) as [|Hp]; [by left|]. right. split; [|by apply (to_unacked _ _ H)]. rewrite (to_lines _ _ H).
    apply list_elem_of_In, in_map, list_elem_of_In, elem_of_app. by right.
  - intros x r Hx Hr Hn. destruct (to_accepted _ _ H r Hr) as [|Hp]; [done|]. by apply (to_order _ _ H).
Qed.

(** * Examples *)

Definition demoEvidence (p : string) : EvidenceEntry := mkEvidence "StablecoinDepeg" "coingecko" 0 p.
Definition demoOptions : EvidenceBufferOptions := mkBufferOptions 2 10.
Definition demoTrail (ops : list TrailOp) : Trail := runTrail (fun _ => 100) 100000 demoOptions 0 ops.

Definition outageOps : list TrailOp :=
  [AppendOp Written 1 [demoEvidence "a"; demoEvidence "b"; demoEvidence "c"]; DrainOp (PersistFailed false) AckWritten; CrashOp 2;
   DrainOp Stored AckFailed; CrashInAppendOp 1 3 [demoEvidence "d"; demoEvidence "e"]; DrainOp Stored AckWritten; DrainOp Stored AckWritten].

Lemma accepted_evidence_durable_witness :
  let t := demoTrail outageOps in
  map seqOf (tr_accepted t) = [1; 2; 3] ∧ map seqOf (tr_stored t) = [1; 2; 3; 4] ∧
  ((∀ r, r ∈ tr_accepted t -> r ∈ tr_stored t ∨ Some r ∈ dk_lines (tr_disk t) ∧ dk_acked (tr_disk t) < seqOf r) ∧
   StronglySorted Z.lt (map seqOf (tr_accepted t)) ∧ (∀ x r, x ∈ tr_stored t -> r ∈ tr_accepted t -> r ∉ tr_stored t -> seqOf x < seqOf r)).
Proof.
  split; [vm_compute; reflexivity|]. split; [vm_compute; reflexivity|].
  apply (accepted_evidence_durable (fun _ => 100) 100000 demoOptions 0 outageOps). repeat apply Forall_cons_2; try exact I; apply Forall_nil_2.
Defined.

(** A write that fails halfway leaves a fragment, and the next compaction fails on it
    with the handle closed: every later append is refused until a restart. *)
Example torn_write_closes_spool :
  let t := demoTrail [AppendOp (Torn 0 "ENOSPC") 1 [demoEvidence "a"]; AppendOp Written 2 [demoEvidence "b"]; DrainOp Stored AckWritten; AppendOp Written 3 [demoEvidence "c"]] in
  sp_open (bf_spool (tr_buffer t)) = false ∧ (append (fun _ => 100) 100000 Written 4 [demoEvidence "d"] (tr_buffer t) (tr_disk t)).1.1 = Err (NotDurable "evidence spool is not open").
Proof. vm_compute. split; reflexivity. Qed.

(** The same fragment swallows the first line written after it, here the gap record
    that accounts for the loss. *)
Example torn_write_loses_next_record :
  let t := demoTrail [AppendOp (Torn 0 "ENOSPC") 1 [demoEvidence "a"]; AppendOp Written 2 [demoEvidence "b"]; CrashOp 3] in
  map seqOf (tr_accepted t) = [2; 3] ∧ map seqOf (bf_pending (tr_buffer t)) = [3] ∧ bf_openGap (tr_buffer t) = Some (mkGap 4 3 1 3 "unreadable spool lines discarded on recovery").
Proof. vm_compute. split_and!; reflexivity. Qed.

(** A short write is reported durable although its record is not in the file: after a
    restart it is in neither place. *)
Example short_write_loses_reported_record :
  let t := demoTrail [AppendOp (Short 0) 1 [demoEvidence "a"]; CrashOp 2] in
  tr_accepted t = [Sequenced 1 (demoEvidence "a")] ∧ tr_stored t = [] ∧ dk_lines (tr_disk t) = [].
Proof. vm_compute. split_and!; reflexivity. Qed.

(** A gap that is still open is forgotten by a restart, and its numbers are used again. *)
Example restart_forgets_open_gap :
  let t1 := demoTrail [AppendOp (NotWritten "disk full") 1 [demoEvidence "a"]] in
  let t2 := demoTrail [AppendOp (NotWritten "disk full") 1 [demoEvidence "a"]; CrashOp 2; AppendOp Written 3 [demoEvidence "b"]] in
  (og_firstSeq <$> bf_openGap (tr_buffer t1)) = Some 1 ∧ tr_accepted t2 = [Sequenced 1 (demoEvidence "b")] ∧ bf_openGap (tr_buffer t2) = None.
Proof. vm_compute. split_and!; reflexivity. Qed.

(** While the process lives, a loss is accounted for by the next record written. *)
Lemma loss_recorded_next sizeOf maxBytes now entries b d g x l b' d' :
  bf_openGap b = Some g -> append sizeOf maxBytes Written now entries b d = (Ok (x :: l), b', d') ->
  bf_openGap b' = None ∧ Gap (bf_lastSeq b + 1) (og_firstSeq g) (og_lastSeq g) (og_lostCount g) (og_since g) now (og_reason g) ∈ bf_pending b'.
Proof.
  intros Eg. unfold append. destruct (negb _); [done|]. destruct entries as [|e entries]; [done|]. destruct (List.find _ _); [done|]. rewrite Eg. cbn [fmap option_fmap option_map].
  destruct (spoolAppend _ _ _ _ _ _) as [[[u|m] s] d1]; [|done]. intros [= _ _ <- _]. cbn. split; [done|]. apply elem_of_app. right. left.
Qed.
