(* ===== verification/Reconciliation.v ===== *)
(** Reconciliation of what the backend published with what the chain holds: the pure diff
    (src/oracle/reconciliation/chain-diff.ts), the receipts, the run store and the lease
    (reconciliation.stores.ts, reconciliation-lease.ts), and a run of the reconciler
    (oracle-chain-reconciler.service.ts).

    The chain reader and the receipt writes are the environment's; findings are objects,
    so the sample compares them by their position. *)

From stdpp Require Import base list strings sorting.
From Stdlib Require Import ZArith Lia.
From S2P Require Import Prelude Decimal Canonical EventHandlers Attestation Alerting.

#[local] Open Scope Z_scope.

Inductive PublishKind := ReadingKind | DecisionKind.
#[global] Instance PublishKind_eq : EqDecision PublishKind.
Proof. solve_decision. Defined.
Definition kindName (k : PublishKind) : string := match k with ReadingKind => "reading" | DecisionKind => "decision" end.
Inductive ReceiptSource := FromPublisher | FromBackfill.

Record LocalPublishRecord := mkLocal {
  lp_feedId : string; lp_kind : PublishKind; lp_value : string; lp_publishedAt : Z; lp_txHash : string; lp_submitter : string; lp_source : ReceiptSource }.
Record OnChainOracleEntry := mkOnChain {
  oc_feedId : string; oc_kind : PublishKind; oc_value : string; oc_ledger : Z; oc_ledgerClosedAt : Z; oc_txHash : string; oc_submitter : option string }.

Inductive DriftClass := MissingLocalReceipt | MissingOnChainValue | ValueMismatch | TimestampMismatch | UnexpectedWriter.
#[global] Instance DriftClass_eq : EqDecision DriftClass.
Proof. solve_decision. Defined.
Definition DRIFT_CLASSES : list DriftClass := [MissingLocalReceipt; MissingOnChainValue; ValueMismatch; TimestampMismatch; UnexpectedWriter].
Record DriftFinding := mkFinding {
  df_driftClass : DriftClass; df_feedId : string; df_kind : PublishKind; df_txHash : string;
  df_local : option LocalPublishRecord; df_onChain : option OnChainOracleEntry; df_autoRepairable : bool }.

Record ChainDiffOptions := mkDiffOptions {
  do_nowSec : Z; do_lookbackSeconds : Z; do_finalityBufferSeconds : Z; do_timestampToleranceSeconds : Z; do_authorizedWriters : list string }.

(** * The diff *)

Definition diffWindow (o : ChainDiffOptions) : Z * Z := (do_nowSec o - do_lookbackSeconds o, do_nowSec o - do_finalityBufferSeconds o).
Definition inWindow (o : ChainDiffOptions) (t : Z) : bool := ((diffWindow o).1 <=? t) && (t <=? (diffWindow o).2).

Definition keyOf (txHash : string) (kind : PublishKind) (feedId : string) : string := lowerText txHash +:+ ":" +:+ kindName kind +:+ ":" +:+ feedId.
Definition localKey (r : LocalPublishRecord) : string := keyOf (lp_txHash r) (lp_kind r) (lp_feedId r).
Definition chainKey (e : OnChainOracleEntry) : string := keyOf (oc_txHash e) (oc_kind e) (oc_feedId e).

Definition normaliseValue (value : string) : string :=
  match bigIntOfText (trim (String.list_ascii_of_string value)) with Some z => showZ z | None => String.string_of_list_ascii (trim (String.list_ascii_of_string value)) end.

Definition indexChain (l : list OnChainOracleEntry) : list (string * OnChainOracleEntry) := foldl (fun m e => jm_set m (chainKey e) e) [] l.

Section Diff.
Variable opts : ChainDiffOptions.

Definition localFinding (c : DriftClass) (r : LocalPublishRecord) (e : option OnChainOracleEntry) : DriftFinding :=
  mkFinding c (lp_feedId r) (lp_kind r) (lp_txHash r) (Some r) e false.
Definition chainFinding (c : DriftClass) (e : OnChainOracleEntry) (repairable : bool) : DriftFinding :=
  mkFinding c (oc_feedId e) (oc_kind e) (oc_txHash e) None (Some e) repairable.

(** What one receipt gives. *)
Definition diffLocal (allChain : list (string * OnChainOracleEntry)) (r : LocalPublishRecord) : list DriftFinding :=
  if negb (inWindow opts (lp_publishedAt r)) then []
  else match jm_get allChain (localKey r) with
    | None => [localFinding MissingOnChainValue r None]
    | Some e =>
        if negb (bool_decide (normaliseValue (oc_value e) = normaliseValue (lp_value r))) then [localFinding ValueMismatch r (Some e)]
        else if do_timestampToleranceSeconds opts <? Z.abs (oc_ledgerClosedAt e - lp_publishedAt r) then [localFinding TimestampMismatch r (Some e)]
        else []
    end.

Definition writerKnown (e : OnChainOracleEntry) : bool :=
  match do_authorizedWriters opts with
  | [] => true
  | ws => match oc_submitter e with Some s => bool_decide (s ∈ ws) | None => false end
  end.

(** What one chain entry without a receipt gives. *)
Definition diffChain (localKeys : list string) (ke : string * OnChainOracleEntry) : list DriftFinding :=
  let '(key, e) := ke in
  if bool_decide (key ∈ localKeys) then []
  else if negb (writerKnown e) then [chainFinding UnexpectedWriter e false]
  else [chainFinding MissingLocalReceipt e (bool_decide (oc_kind e = ReadingKind))].

Definition diffChainState (local : list LocalPublishRecord) (onChain : list OnChainOracleEntry) : list DriftFinding :=
  let chainByKey := indexChain (List.filter (fun e => inWindow opts (oc_ledgerClosedAt e)) onChain) in
  let allChainByKey := indexChain onChain in
  flat_map (diffLocal allChainByKey) local ++ flat_map (diffChain (map localKey local)) chainByKey.
End Diff.

Definition receiptFromChain (e : OnChainOracleEntry) : LocalPublishRecord :=
  mkLocal (oc_feedId e) (oc_kind e) (oc_value e) (oc_ledgerClosedAt e) (oc_txHash e) (default "unknown" (oc_submitter e)) FromBackfill.

(** * Receipts and the lease *)

Definition Ledger : Type := list (string * LocalPublishRecord).
Definition listPublishedBetween (fromSec toSec : Z) (l : Ledger) : list LocalPublishRecord :=
  List.filter (fun r => (fromSec <=? lp_publishedAt r) && (lp_publishedAt r <=? toSec)) (jm_values l).
Definition recordReceipt (r : LocalPublishRecord) (l : Ledger) : bool * Ledger :=
  if jm_has l (localKey r) then (false, l) else (true, jm_set l (localKey r) r).

Definition Leases : Type := list (string * (string * Z)).
Definition acquireLease (name owner : string) (ttlMs now : Z) (held : Leases) : bool * Leases :=
  match jm_get held name with
  | Some (o, expiresAt) => if (now <? expiresAt) && negb (bool_decide (o = owner)) then (false, held) else (true, jm_set held name (owner, now + ttlMs))
  | None => (true, jm_set held name (owner, now + ttlMs))
  end.
Definition releaseLease (name owner : string) (held : Leases) : Leases :=
  match jm_get held name with Some (o, _) => if bool_decide (o = owner) then jm_delete held name else held | None => held end.

(** * A run *)

(** Whether the write of the n-th receipt succeeds. *)
Section Run.
Variable writeOk : nat -> bool.

Definition repairable (f : DriftFinding) : option OnChainOracleEntry :=
  if df_autoRepairable f && bool_decide (df_driftClass f = MissingLocalReceipt) && bool_decide (df_kind f = ReadingKind) then df_onChain f else None.

Fixpoint repairFrom (n : nat) (findings : list DriftFinding) (l : Ledger) : Z * Ledger :=
  match findings with
  | [] => (0, l)
  | f :: rest =>
      match repairable f with
      | Some e =>
          if writeOk n then let '(k, l') := repairFrom (S n) rest (recordReceipt (receiptFromChain e) l).2 in (k + 1, l')
          else repairFrom (S n) rest l
      | None => repairFrom n rest l
      end
  end.
Definition repair (findings : list DriftFinding) (l : Ledger) : Z * Ledger := repairFrom 0 findings l.

Definition countClass (c : DriftClass) (fs : list DriftFinding) : Z := Z.of_nat (length (List.filter (fun f => bool_decide (df_driftClass f = c)) fs)).

(** [sampleFindings], over positions. *)
Fixpoint sampleClasses (size : nat) (fs : list (nat * DriftFinding)) (seen : list DriftClass) (sample : list (nat * DriftFinding)) : list (nat * DriftFinding) :=
  match fs with
  | [] => sample
  | f :: rest =>
      if (size <=? length sample)%nat then sample
      else if bool_decide (df_driftClass f.2 ∈ seen) then sampleClasses size rest seen sample
      else sampleClasses size rest (seen ++ [df_driftClass f.2]) (sample ++ [f])
  end.
Fixpoint sampleRest (size : nat) (fs sample : list (nat * DriftFinding)) : list (nat * DriftFinding) :=
  match fs with
  | [] => sample
  | f :: rest =>
      if (size <=? length sample)%nat then sample
      else if bool_decide (f.1 ∈ sample.*1) then sampleRest size rest sample else sampleRest size rest (sample ++ [f])
  end.
Definition sampleFindings (fs : list DriftFinding) (size : nat) : list DriftFinding :=
  if (length fs <=? size)%nat then fs
  else let l := imap pair fs in (sampleRest size l (sampleClasses size l [] [])).*2.

Definition ALERT_SEVERITY (c : DriftClass) : AlertSeverity :=
  match c with MissingLocalReceipt | TimestampMismatch => Warning | MissingOnChainValue | ValueMismatch | UnexpectedWriter => Critical end.

(** [alertOnDrift]: the class and severity of each alert. *)
Definition alertOnDrift (fs : list DriftFinding) : list (AlertSeverity * DriftClass * bool) :=
  omap (fun c =>
    if countClass c fs =? 0 then None
    else
      let examples := take 3 (List.filter (fun f => bool_decide (df_driftClass f = c)) fs) in
      let autoRepaired := bool_decide (c = MissingLocalReceipt) && forallb df_autoRepairable examples in
      Some (if autoRepaired then Info else ALERT_SEVERITY c, c, autoRepaired)) DRIFT_CLASSES.

Record ReconciliationConfig := mkReconConfig {
  rn_enabled : bool; rn_lookbackSeconds : Z; rn_finalityBufferSeconds : Z; rn_timestampToleranceSeconds : Z; rn_maxEntriesPerRun : nat;
  rn_sampleSize : nat; rn_leaseTtlSeconds : Z; rn_authorizedWriters : list string }.
Inductive RunStatus := Completed | Failed (error : string).
Record ReconciliationRun := mkRun {
  ru_status : RunStatus; ru_windowStart : Z; ru_windowEnd : Z; ru_localCompared : nat; ru_onChainCompared : nat; ru_truncated : bool;
  ru_findings : list DriftFinding; ru_counts : list (DriftClass * Z); ru_repaired : Z; ru_pendingReview : Z; ru_sampled : list DriftFinding;
  ru_alerts : list (AlertSeverity * DriftClass * bool) }.

Variable cfg : ReconciliationConfig.
(** [readSince]: the entries, oldest first, and whether more existed. *)
Variable readSince : Z -> nat -> res string (list OnChainOracleEntry * bool).

Definition diffOpts (startedAt : Z) : ChainDiffOptions :=
  mkDiffOptions (startedAt / 1000) (rn_lookbackSeconds cfg) (rn_finalityBufferSeconds cfg) (rn_timestampToleranceSeconds cfg) (rn_authorizedWriters cfg).

Definition runOnce (startedAt : Z) (l : Ledger) : ReconciliationRun * Ledger :=
  let opts := diffOpts startedAt in
  let '(wStart, wEnd) := diffWindow opts in
  match readSince wStart (rn_maxEntriesPerRun cfg) with
  | Err m => (mkRun (Failed m) wStart wEnd 0 0 false [] (map (fun c => (c, 0)) DRIFT_CLASSES) 0 0 [] [], l)
  | Ok (entries, truncated) =>
      let local := listPublishedBetween wStart wEnd l in
      let findings := diffChainState opts local entries in
      let '(repaired, l') := repair findings l in
      (mkRun Completed wStart wEnd (length local) (length entries) truncated findings (map (fun c => (c, countClass c findings)) DRIFT_CLASSES) repaired
         (Z.of_nat (length findings) - repaired) (sampleFindings findings (rn_sampleSize cfg)) (alertOnDrift findings), l')
  end.

Inductive ReconcileOutcome := Skipped (reason : string) | Ran (run : ReconciliationRun).
Definition reconcile (owner : string) (startedAt : Z) (l : Ledger) (held : Leases) : ReconcileOutcome * Ledger * Leases :=
  if negb (rn_enabled cfg) then (Skipped "disabled", l, held)
  else match acquireLease "oracle-chain-reconciliation" owner (rn_leaseTtlSeconds cfg * 1000) startedAt held with
    | (false, held') => (Skipped "lease_held", l, held')
    | (true, held') =>
        let '(run, l') := runOnce startedAt l in (Ran run, l', releaseLease "oracle-chain-reconciliation" owner held')
    end.
End Run.

(** * What a repair writes *)

(** Receipts are stored under their keys. *)
Definition keyedLedger (l : Ledger) : Prop := NoDup (jm_keys l) ∧ ∀ k r, jm_get l k = Some r -> localKey r = k.

Lemma receipt_key e : localKey (receiptFromChain e) = chainKey e.
Proof. done. Qed.

Lemma recordReceipt_spec r l : let l' := (recordReceipt r l).2 in
  is_Some (jm_get l' (localKey r)) ∧ (∀ k x, jm_get l k = Some x -> jm_get l' k = Some x) ∧ (∀ k x, jm_get l' k = Some x -> jm_get l k = Some x ∨ k = localKey r ∧ x = r) ∧ (keyedLedger l -> keyedLedger l').
Proof.
  unfold recordReceipt, jm_has. destruct (bool_decide_reflect (is_Some (jm_get l (localKey r)))) as [H|H]; cbn; [by auto|].
  assert (jm_get l (localKey r) = None) as Hn by (destruct (jm_get l (localKey r)); [by destruct H|done]).
  split; [by rewrite jm_get_set_eq|]. split; [|split].
  - intros k x Hx. rewrite jm_get_set_ne; [done|]. intros <-. congruence.
  - intros k x. rewrite jm_get_set. destruct (decide (localKey r = k)) as [<-|]; [intros [= <-]; by right|by left].
  - intros [Hd Hk]. split; [by apply jm_set_NoDup|]. intros k x. rewrite jm_get_set. destruct (decide (localKey r = k)) as [<-|]; [by intros [= <-]|apply Hk].
Qed.

Section Repair.
Variable writeOk : nat -> bool.

(** Existing receipts stay; a new one is copied from the entry of a repairable finding. *)
Lemma repair_spec fs : ∀ n l, let l' := (repairFrom writeOk n fs l).2 in
  (∀ k x, jm_get l k = Some x -> jm_get l' k = Some x) ∧
  (∀ k x, jm_get l' k = Some x -> jm_get l k = Some x ∨ ∃ f e, f ∈ fs ∧ repairable f = Some e ∧ k = chainKey e ∧ x = receiptFromChain e) ∧
  (keyedLedger l -> keyedLedger l') ∧
  ((∀ m, writeOk m = true) -> ∀ f e, f ∈ fs -> repairable f = Some e -> is_Some (jm_get l' (chainKey e))).
Proof.
  induction fs as [|f fs IH]; intros n l; cbn [repairFrom]; [split_and!; try done; [by left|intros _ f e Hf; by apply not_elem_of_nil in Hf]|].
  destruct (repairable f) as [e|] eqn:Er; [destruct (writeOk n) eqn:Ew|].
  - destruct (recordReceipt_spec (receiptFromChain e) l) as (R1 & R2 & R3 & R4). set (l1 := (recordReceipt (receiptFromChain e) l).2) in *. specialize (IH (S n) l1).
    destruct (repairFrom writeOk (S n) fs l1) as [k l']. cbn [snd] in *. destruct IH as (I1 & I2 & I3 & I4). split; [by auto|]. split; [|split; [by auto|]].
    + intros key x Hx. destruct (I2 _ _ Hx) as [Hx'|(f' & e' & Hf & Rest)]; [|right; exists f', e'; split; [by right|done]].
      destruct (R3 _ _ Hx') as [|[-> ->]]; [by left|]. right. exists f, e. by split; [left|].
    + intros Hw f' e' [->|Hf]%elem_of_cons Hr; [|by apply (I4 Hw f')]. rewrite Er in Hr. injection Hr as <-. destruct R1 as [x Hx]. exists x. by apply I1.
  - destruct (IH (S n) l) as (I1 & I2 & I3 & I4). split; [done|]. split; [|split; [done|intros Hw; specialize (Hw n); congruence]].
    intros key x Hx. destruct (I2 _ _ Hx) as [|(f' & e' & Hf & Rest)]; [by left|right; exists f', e'; split; [by right|done]].
  - destruct (IH n l) as (I1 & I2 & I3 & I4). split; [done|]. split; [|split; [done|]].
    + intros key x Hx. destruct (I2 _ _ Hx) as [|(f' & e' & Hf & Rest)]; [by left|right; exists f', e'; split; [by right|done]].
    + intros Hw f' e' [->|Hf]%elem_of_cons Hr; [congruence|by apply (I4 Hw f')].
Qed.

Lemma repair_nothing fs n l : (∀ f, f ∈ fs -> repairable f = None) -> repairFrom writeOk n fs l = (0, l).
Proof. revert n. induction fs as [|f fs IH]; intros n H; [done|]. cbn. rewrite (H f) by left. apply IH. intros f' Hf. apply H. by right. Qed.
End Repair.

(** ** Where a repairable finding comes from *)

Lemma indexChain_spec l : NoDup (jm_keys (indexChain l)) ∧ ∀ k e, (k, e) ∈ indexChain l -> k = chainKey e ∧ e ∈ l.
Proof.
  unfold indexChain. assert (∀ l0 m, NoDup (jm_keys m) -> (∀ k e, (k, e) ∈ m -> k = chainKey e ∧ e ∈ l) -> (∀ e, e ∈ l0 -> e ∈ l) ->
    NoDup (jm_keys (foldl (fun m e => jm_set m (chainKey e) e) m l0)) ∧ ∀ k e, (k, e) ∈ foldl (fun m e => jm_set m (chainKey e) e) m l0 -> k = chainKey e ∧ e ∈ l) as G.
  { intros l0. induction l0 as [|e l0 IH]; intros m Hd Hm Hl; [done|]. cbn [foldl]. apply IH; [by apply jm_set_NoDup| |intros x Hx; apply Hl; by right].
    intros k x Hx. apply jm_in_get in Hx; [|by apply jm_set_NoDup]. rewrite jm_get_set in Hx. destruct (decide (chainKey e = k)) as [<-|]; [injection Hx as <-; split; [done|apply Hl; left]|].
    apply Hm. by apply jm_get_Some_in. }
  apply G; [constructor|intros k e H; by apply not_elem_of_nil in H|done].
Qed.

Lemma flat_map_elem {A B} (f : A -> list B) l y : y ∈ flat_map f l <-> ∃ x, x ∈ l ∧ y ∈ f x.
Proof. rewrite list_elem_of_In, in_flat_map. setoid_rewrite list_elem_of_In. done. Qed.

(** A repairable finding is an authorised reading on the chain, in the window, that no
    listed receipt has the key of; and each of those gives one. *)
Lemma repairable_finding opts local entries f e : f ∈ diffChainState opts local entries -> repairable f = Some e ->
  (chainKey e, e) ∈ indexChain (List.filter (fun e => inWindow opts (oc_ledgerClosedAt e)) entries) ∧ e ∈ entries ∧ inWindow opts (oc_ledgerClosedAt e) = true ∧
  oc_kind e = ReadingKind ∧ writerKnown opts e = true ∧ chainKey e ∉ map localKey local.
Proof.
  unfold diffChainState. intros [Hf|Hf]%elem_of_app Hr.
  - apply flat_map_elem in Hf as (r & _ & Hf). unfold diffLocal in Hf. destruct (negb (inWindow _ _)); [by apply not_elem_of_nil in Hf|].
    destruct (jm_get _ _); [destruct (negb _); [|destruct (_ <? _); [|by apply not_elem_of_nil in Hf]]|]; apply list_elem_of_singleton in Hf as ->; done.
  - apply flat_map_elem in Hf as ([k e0] & Hk & Hf). destruct (proj2 (indexChain_spec _) k e0 Hk) as [-> He]. cbn in Hf.
    destruct (bool_decide_reflect (chainKey e0 ∈ map localKey local)) as [|Hn]; [by apply not_elem_of_nil in Hf|].
    destruct (writerKnown opts e0) eqn:Ew; cbn in Hf; apply list_elem_of_singleton in Hf as ->; [|done].
    unfold repairable, chainFinding in Hr. cbn in Hr. destruct (bool_decide_reflect (oc_kind e0 = ReadingKind)) as [Hkd|]; [|done]. cbn in Hr. injection Hr as <-.
    apply list_elem_of_In, filter_In in He as [He Hw]. apply list_elem_of_In in He. done.
Qed.

Lemma finding_exists opts local entries e : (chainKey e, e) ∈ indexChain (List.filter (fun e => inWindow opts (oc_ledgerClosedAt e)) entries) -> oc_kind e = ReadingKind -> writerKnown opts e = true ->
  chainKey e ∉ map localKey local -> ∃ f, f ∈ diffChainState opts local entries ∧ repairable f = Some e.
Proof.
  intros Hi Hk Hw Hn. exists (chainFinding MissingLocalReceipt e true). split; [|unfold repairable; cbn; by rewrite Hk].
  unfold diffChainState. apply elem_of_app. right. apply flat_map_elem. exists (chainKey e, e). split; [done|]. cbn. rewrite (bool_decide_eq_false_2 _ Hn), Hw. cbn. rewrite (bool_decide_eq_true_2 _ Hk). left.
Qed.

Lemma listed wStart wEnd l r : r ∈ listPublishedBetween wStart wEnd l <-> r ∈ jm_values l ∧ wStart <= lp_publishedAt r <= wEnd.
Proof. unfold listPublishedBetween. rewrite list_elem_of_In, filter_In, <- list_elem_of_In, andb_true_iff, !Z.leb_le. done. Qed.
Lemma values_elem (l : Ledger) k r : jm_get l k = Some r -> r ∈ jm_values l.
Proof. intros H%jm_get_Some_in. unfold jm_values. apply list_elem_of_fmap. by exists (k, r). Qed.
Lemma inWindow_spec opts t : inWindow opts t = true <-> (diffWindow opts).1 <= t <= (diffWindow opts).2.
Proof. unfold inWindow. by rewrite andb_true_iff, !Z.leb_le. Qed.

(** A run never changes or removes a receipt, and every receipt it adds is copied from
    a reading, never a decision, that the chain holds in the compared window, written by
    an authorised writer, and for which no receipt was listed. *)
Theorem repair_backfills_readings_only writeOk cfg readSince startedAt l k r :
  let l' := (runOnce writeOk cfg readSince startedAt l).2 in
  (∀ k0 x, jm_get l k0 = Some x -> jm_get l' k0 = Some x) ∧
  (jm_get l k = None -> jm_get l' k = Some r ->
   ∃ entries truncated e, readSince (diffWindow (diffOpts cfg startedAt)).1 (rn_maxEntriesPerRun cfg) = Ok (entries, truncated) ∧ e ∈ entries ∧ r = receiptFromChain e ∧ k = chainKey e ∧
     oc_kind e = ReadingKind ∧ inWindow (diffOpts cfg startedAt) (oc_ledgerClosedAt e) = true ∧ writerKnown (diffOpts cfg startedAt) e = true).
Proof.
  unfold runOnce. destruct (diffWindow (diffOpts cfg startedAt)) as [ws we] eqn:Ew. cbn [fst]. destruct (readSince ws _) as [[entries truncated]|m] eqn:Er; [|cbn; split; [done|congruence]].
  set (fs := diffChainState _ _ _). unfold repair. pose proof (repair_spec writeOk fs 0 l) as (H1 & H2 & _). destruct (repairFrom writeOk 0 fs l) as [n l']. cbn [snd] in *. split; [done|].
  intros Hn Hk. destruct (H2 _ _ Hk) as [|(f & e & Hf & Hr & -> & ->)]; [congruence|]. apply (repairable_finding _ _ _ f e Hf) in Hr as (_ & He & Hw & Hkd & Hwr & _). by exists entries, truncated, e.
Qed.

(** With distinct keys the index has every entry. *)
Lemma indexChain_has l e : NoDup (map chainKey l) -> e ∈ l -> (chainKey e, e) ∈ indexChain l.
Proof.
  intros Hd He. apply jm_get_Some_in. unfold indexChain. induction l as [|x l IH] using rev_ind; [by apply not_elem_of_nil in He|].
  rewrite foldl_app. cbn. rewrite jm_get_set. rewrite map_app in Hd. apply NoDup_app in Hd as (Hd & Hx & _).
  apply elem_of_app in He as [He| ->%list_elem_of_singleton]; [|by rewrite decide_True].
  rewrite decide_False; [by apply IH|]. intros E. apply (Hx (chainKey e)); [apply list_elem_of_fmap; by exists e|]. apply list_elem_of_singleton. by rewrite E.
Qed.

(** What a successful run left for a later one: an entry it compared has a receipt. *)
Lemma run_leaves_receipt writeOk opts1 opts2 l entries1 e :
  let '(ws, we) := diffWindow opts1 in
  let l1 := (repair writeOk (diffChainState opts1 (listPublishedBetween ws we l) entries1) l).2 in
  (∀ m, writeOk m = true) -> keyedLedger l -> NoDup (map chainKey entries1) ->
  (∀ r, jm_get l (chainKey e) = Some r -> inWindow opts2 (lp_publishedAt r) = true) ->
  e ∈ entries1 -> inWindow opts1 (oc_ledgerClosedAt e) = true -> inWindow opts2 (oc_ledgerClosedAt e) = true ->
  oc_kind e = ReadingKind -> writerKnown opts1 e = true ->
  ∃ r, jm_get l1 (chainKey e) = Some r ∧ inWindow opts2 (lp_publishedAt r) = true.
Proof.
  destruct (diffWindow opts1) as [ws we] eqn:Ew. intros l1 Hok Hl Hd Hdated He Hw1 Hw2 Hk Hwr.
  set (fs := diffChainState opts1 (listPublishedBetween ws we l) entries1) in *. pose proof (repair_spec writeOk fs 0 l) as (H1 & H2 & _ & H4).
  fold (repair writeOk fs l) in H1, H2, H4. fold l1 in H1, H2, H4. specialize (H4 Hok).
  destruct (decide (chainKey e ∈ map localKey (listPublishedBetween ws we l))) as [Hin|Hin].
  - apply list_elem_of_In, in_map_iff in Hin as (r & Ek & Hr%list_elem_of_In). apply listed in Hr as [Hv _]. unfold jm_values in Hv.
    apply list_elem_of_fmap in Hv as ([k r'] & -> & Hv). apply jm_in_get in Hv; [|apply Hl]. pose proof (proj2 Hl _ _ Hv) as Ek'. cbn in *.
    assert (jm_get l (chainKey e) = Some r') as Hg by congruence. exists r'. split; [by apply H1|by apply Hdated].
  - assert (NoDup (map chainKey (List.filter (fun e => inWindow opts1 (oc_ledgerClosedAt e)) entries1))) as Hdf by by apply NoDup_map_filter_bool.
    destruct (finding_exists opts1 (listPublishedBetween ws we l) entries1 e) as (f0 & Hf0 & Hr0); [|done..|].
    { apply indexChain_has; [done|]. apply list_elem_of_In, filter_In. split; [by apply list_elem_of_In|done]. }
    destruct (H4 f0 e Hf0 Hr0) as [r Hr]. exists r. split; [done|]. destruct (H2 _ _ Hr) as [Hold|(f1 & e1 & Hf1 & Hr1 & Ek & ->)]; [by apply Hdated|].
    apply (repairable_finding _ _ _ f1 e1 Hf1) in Hr1 as (_ & He1 & _). rewrite (NoDup_map_inj chainKey entries1 e e1 Hd He He1 Ek) in Hw2. exact Hw2.
Qed.

(** C33: Reconciliation converges.  After a run whose receipt writes all succeeded, over
    chain entries with distinct keys and a ledger that holds each receipt under its key,
    any later run, with whatever writes fail, repairs
    only what the first did not compare: entries it did not read, or that were outside
    its window (too recent then, say).  In particular, if the later run reads nothing in
    its window that the first had not in its own, it repairs nothing and leaves the
    receipts as they are.  The receipts of what the later run reads must be dated in its
    window, as their writes are: otherwise see [late_receipt_repaired_forever]. *)
Theorem reconciliation_converges writeOk1 writeOk2 cfg read1 read2 s1 s2 l entries1 truncated1 entries2 truncated2
    (Hwrites : ∀ n, writeOk1 n = true) (Hl : keyedLedger l) (Hkeys : NoDup (map chainKey entries1))
    (Hread1 : read1 (diffWindow (diffOpts cfg s1)).1 (rn_maxEntriesPerRun cfg) = Ok (entries1, truncated1))
    (Hread2 : read2 (diffWindow (diffOpts cfg s2)).1 (rn_maxEntriesPerRun cfg) = Ok (entries2, truncated2))
    (Hdated : ∀ e r, e ∈ entries2 -> inWindow (diffOpts cfg s2) (oc_ledgerClosedAt e) = true -> jm_get l (chainKey e) = Some r ->
       inWindow (diffOpts cfg s2) (lp_publishedAt r) = true) :
  let l1 := (runOnce writeOk1 cfg read1 s1 l).2 in
  let '(run2, l2) := runOnce writeOk2 cfg read2 s2 l1 in
  (∀ f e, f ∈ ru_findings run2 -> repairable f = Some e -> e ∈ entries2 ∧ (e ∉ entries1 ∨ inWindow (diffOpts cfg s1) (oc_ledgerClosedAt e) = false)) ∧
  ((∀ e, e ∈ entries2 -> inWindow (diffOpts cfg s2) (oc_ledgerClosedAt e) = true -> e ∈ entries1 ∧ inWindow (diffOpts cfg s1) (oc_ledgerClosedAt e) = true) ->
   ru_repaired run2 = 0 ∧ l2 = l1).
Proof.
  unfold runOnce. set (opts1 := diffOpts cfg s1) in *. set (opts2 := diffOpts cfg s2) in *.
  pose proof (run_leaves_receipt writeOk1 opts1 opts2 l entries1) as Hleft.
  destruct (diffWindow opts1) as [ws1 we1] eqn:E1. destruct (diffWindow opts2) as [ws2 we2] eqn:E2. cbn [fst] in Hread1, Hread2. rewrite Hread1, Hread2.
  pose proof (proj1 (proj2 (proj2 (repair_spec writeOk1 (diffChainState opts1 (listPublishedBetween ws1 we1 l) entries1) 0 l))) Hl) as Hl1.
  fold (repair writeOk1 (diffChainState opts1 (listPublishedBetween ws1 we1 l) entries1) l) in Hl1.
  destruct (repair writeOk1 _ l) as [n1 l1]. cbn [snd] in Hleft, Hl1 |- *. set (fs2 := diffChainState opts2 (listPublishedBetween ws2 we2 l1) entries2).
  assert (∀ f e, f ∈ fs2 -> repairable f = Some e -> e ∈ entries2 ∧ inWindow opts2 (oc_ledgerClosedAt e) = true ∧
    (e ∉ entries1 ∨ inWindow opts1 (oc_ledgerClosedAt e) = false)) as Hnew.
  { intros f e Hf Hr. destruct (repairable_finding _ _ _ f e Hf Hr) as (_ & He & Hw & Hk & Hwr & Hn). split_and!; [done|done|].
    destruct (inWindow opts1 (oc_ledgerClosedAt e)) eqn:Hw1; [|by right]. left. intros He1.
    destruct (Hleft e Hwrites Hl Hkeys (fun r => Hdated e r He Hw) He1 Hw1 Hw Hk Hwr) as (r & Hr1 & Hin).
    apply Hn. rewrite <- (proj2 Hl1 _ _ Hr1). apply list_elem_of_In, in_map, list_elem_of_In, listed. split; [by apply (values_elem _ (chainKey e))|].
    apply inWindow_spec in Hin. by rewrite E2 in Hin. }
  assert ((∀ f, f ∈ fs2 -> repairable f = None) -> repair writeOk2 fs2 l1 = (0, l1)) as Hnothing by apply repair_nothing.
  destruct (repair writeOk2 fs2 l1) as [n2 l2]. cbn. split; [intros f e Hf Hr; destruct (Hnew f e Hf Hr) as (? & _ & ?); done|].
  intros Hall. assert (∀ f, f ∈ fs2 -> repairable f = None) as Hnone; [|by injection (Hnothing Hnone) as -> ->].
  intros f Hf. destruct (repairable f) as [e|] eqn:Er; [exfalso|done]. destruct (Hnew f e Hf Er) as (He & Hw & [Hn|Hn]); destruct (Hall e He Hw); congruence.
Qed.

(** ** The audit sample *)

Lemma class_listed (c : DriftClass) : c ∈ DRIFT_CLASSES.
Proof. destruct c; unfold DRIFT_CLASSES; rewrite !elem_of_cons; auto 10. Qed.
Lemma classes_exhausted (seen : list DriftClass) c : NoDup seen -> (5 <= length seen)%nat -> c ∈ seen.
Proof.
  intros Hd Hl. assert (seen ≡ₚ DRIFT_CLASSES) as HP; [|rewrite HP; apply class_listed].
  apply submseteq_length_Permutation; [|done]. apply NoDup_submseteq; [done|]. intros x _. apply class_listed.
Qed.

Lemma sampleClasses_covers size l : (5 <= size)%nat -> ∀ seen sample, NoDup seen -> map (fun f => df_driftClass f.2) sample = seen ->
  let s := sampleClasses size l seen sample in ∀ f, f ∈ l ++ sample -> df_driftClass f.2 ∈ map (fun f => df_driftClass f.2) s.
Proof.
  intros Hs. induction l as [|x l IH]; intros seen sample Hd Hm; cbn [sampleClasses].
  - intros f Hf. apply list_elem_of_In, in_map_iff. exists f. split; [done|]. by apply list_elem_of_In.
  - destruct (Nat.leb_spec size (length sample)) as [Hle|Hlt].
    + intros f _. rewrite Hm. apply classes_exhausted; [done|]. rewrite <- Hm, length_map. lia.
    + destruct (bool_decide_reflect (df_driftClass x.2 ∈ seen)) as [Hin|Hn].
      * intros f [[->|Hf]%elem_of_cons|Hf]%elem_of_app; [|apply (IH seen sample Hd Hm), elem_of_app; by left|apply (IH seen sample Hd Hm), elem_of_app; by right].
        rewrite <- Hm in Hin. apply list_elem_of_In, in_map_iff in Hin as (y & Ey & Hy%list_elem_of_In). rewrite <- Ey. apply (IH seen sample Hd Hm), elem_of_app. by right.
      * intros f Hf. apply (IH (seen ++ [df_driftClass x.2]) (sample ++ [x])).
        -- apply NoDup_app. split; [done|]. split; [|apply NoDup_singleton]. intros c Hc ->%list_elem_of_singleton. done.
        -- by rewrite map_app, Hm.
        -- rewrite !elem_of_app in *. rewrite elem_of_cons in Hf. rewrite list_elem_of_singleton. naive_solver.
Qed.

Lemma sampleRest_keeps size l : ∀ sample f, f ∈ sample -> f ∈ sampleRest size l sample.
Proof.
  induction l as [|x l IH]; intros sample f Hf; [done|]. cbn. destruct (_ <=? _)%nat; [done|]. destruct (bool_decide _); [by apply IH|]. apply IH, elem_of_app. by left.
Qed.

(** With room for the five classes, the sample has an example of every class found. *)
Lemma sample_covers_classes fs size f : (5 <= size)%nat -> f ∈ fs -> ∃ g, g ∈ sampleFindings fs size ∧ df_driftClass g = df_driftClass f.
Proof.
  intros Hs Hf. unfold sampleFindings. destruct (length fs <=? size)%nat; [by exists f|]. cbv zeta.
  apply list_elem_of_lookup in Hf as [i Hi]. assert ((i, f) ∈ imap pair fs) as Hin by (apply list_elem_of_lookup; exists i; by rewrite list_lookup_imap, Hi).
  pose proof (sampleClasses_covers size (imap pair fs) Hs [] [] (NoDup_nil_2) eq_refl (i, f)) as Hc. cbv zeta in Hc. rewrite app_nil_r in Hc. specialize (Hc Hin).
  apply list_elem_of_In, in_map_iff in Hc as (g & Eg & Hg%list_elem_of_In). exists g.2. split; [|done]. apply list_elem_of_fmap. exists g. split; [done|]. by apply sampleRest_keeps.
Qed.

(** * Examples *)

Definition demoRecon : ReconciliationConfig := mkReconConfig true 3600 30 10 2 20 600 ["GRELAYER"].
Definition demoEntry (tx : string) (at_ : Z) (submitter : string) : OnChainOracleEntry := mkOnChain "StablecoinDepeg" ReadingKind "9900000" 1 at_ tx (Some submitter).
(** The documented reader over a chain listed oldest first. *)
Definition readerOf (chain : list OnChainOracleEntry) (since : Z) (maxEntries : nat) : res string (list OnChainOracleEntry * bool) :=
  let l := List.filter (fun e => since <=? oc_ledgerClosedAt e) chain in Ok (take maxEntries l, (maxEntries <? length l)%nat).
Definition nowMs : Z := 10000 * 1000.
Definition publisherReceipt (tx : string) (at_ : Z) : LocalPublishRecord := mkLocal "StablecoinDepeg" ReadingKind "9900000" at_ tx "GRELAYER" FromPublisher.
Definition ledgerOf (rs : list LocalPublishRecord) : Ledger := foldl (fun l r => (recordReceipt r l).2) [] rs.

Lemma repair_backfills_readings_only_witness :
  let l' := (runOnce (fun _ => true) demoRecon (readerOf [demoEntry "AA" 9000 "GRELAYER"]) nowMs []).2 in
  jm_get l' "aa:reading:StablecoinDepeg" = Some (receiptFromChain (demoEntry "AA" 9000 "GRELAYER")) ∧
  ∃ entries truncated e, readerOf [demoEntry "AA" 9000 "GRELAYER"] (diffWindow (diffOpts demoRecon nowMs)).1 2 = Ok (entries, truncated) ∧ e ∈ entries ∧
    receiptFromChain (demoEntry "AA" 9000 "GRELAYER") = receiptFromChain e ∧ oc_kind e = ReadingKind.
Proof.
  assert (jm_get (runOnce (fun _ => true) demoRecon (readerOf [demoEntry "AA" 9000 "GRELAYER"]) nowMs []).2 "aa:reading:StablecoinDepeg" = Some (receiptFromChain (demoEntry "AA" 9000 "GRELAYER"))) as E by (vm_compute; reflexivity).
  split; [exact E|].
  destruct (repair_backfills_readings_only (fun _ => true) demoRecon (readerOf [demoEntry "AA" 9000 "GRELAYER"]) nowMs [] "aa:reading:StablecoinDepeg" (receiptFromChain (demoEntry "AA" 9000 "GRELAYER"))) as [_ H].
  destruct (H eq_refl E) as (entries & truncated & e & H1 & H2 & H3 & _ & H4 & _). exists entries, truncated, e. split; [exact H1|]. split; [exact H2|]. split; [exact H3|exact H4].
Defined.

(** The second run a minute later: the entry of the first is left alone, and one that
    was too recent then is repaired. *)
Definition demoLater : list OnChainOracleEntry := [demoEntry "AA" 9000 "GRELAYER"; demoEntry "BB" 9990 "GRELAYER"].
Definition demoChain : list OnChainOracleEntry := [demoEntry "AA" 9000 "GRELAYER"].
Definition demoFirst : Ledger := (runOnce (fun _ => true) demoRecon (readerOf demoLater) nowMs []).2.
Definition demoSecond (chain : list OnChainOracleEntry) : ReconciliationRun * Ledger := runOnce (fun _ => true) demoRecon (readerOf chain) (nowMs + 60000) demoFirst.
Lemma reconciliation_converges_witness :
  jm_keys demoFirst = ["aa:reading:StablecoinDepeg"] ∧ ru_repaired (demoSecond demoLater).1 = 1 ∧
  (∀ f e, f ∈ ru_findings (demoSecond demoLater).1 -> repairable f = Some e -> e ∈ demoLater ∧
     (e ∉ demoLater ∨ inWindow (diffOpts demoRecon nowMs) (oc_ledgerClosedAt e) = false)) ∧
  ru_repaired (demoSecond demoChain).1 = 0 ∧ (demoSecond demoChain).2 = demoFirst.
Proof.
  assert (keyedLedger []) as Hk by (split; [constructor|discriminate]).
  assert (NoDup (map chainKey demoLater)) as Hd by (apply (bool_decide_unpack _); vm_compute; exact I).
  split; [vm_compute; reflexivity|]. split; [vm_compute; reflexivity|].
  pose proof (reconciliation_converges (fun _ => true) (fun _ => true) demoRecon (readerOf demoLater) (readerOf demoLater) nowMs (nowMs + 60000) []
    demoLater false demoLater false (fun _ => eq_refl) Hk Hd eq_refl eq_refl ltac:(discriminate)) as Hall.
  pose proof (reconciliation_converges (fun _ => true) (fun _ => true) demoRecon (readerOf demoLater) (readerOf demoChain) nowMs (nowMs + 60000) []
    demoLater false demoChain false (fun _ => eq_refl) Hk Hd eq_refl eq_refl ltac:(discriminate)) as Hsame.
  cbv zeta in Hall, Hsame. fold demoFirst in Hall, Hsame. fold (demoSecond demoLater) in Hall. fold (demoSecond demoChain) in Hsame.
  destruct (demoSecond demoLater) as [run2 l2]. destruct (demoSecond demoChain) as [run3 l3]. split; [exact (proj1 Hall)|].
  apply Hsame. intros e He _. apply list_elem_of_singleton in He as ->. split; [left|vm_compute; reflexivity].
Defined.

(** A receipt dated after the window although its write is in it is not listed: every
    run reports it missing and counts it as repaired. *)
Example late_receipt_repaired_forever :
  let chain := [demoEntry "AA" 9968 "GRELAYER"] in
  let l := ledgerOf [publisherReceipt "AA" 9972] in
  let '(run1, l1) := runOnce (fun _ => true) demoRecon (readerOf chain) nowMs l in
  let '(run2, l2) := runOnce (fun _ => true) demoRecon (readerOf chain) nowMs l1 in
  ru_repaired run1 = 1 ∧ ru_repaired run2 = 1 ∧ l2 = l.
Proof. vm_compute. split_and!; reflexivity. Qed.

(** A truncated read keeps the oldest entries: the receipts of the newer ones are
    reported as missing on the chain. *)
Example truncated_read_reports_missing :
  let chain := [demoEntry "AA" 9000 "GRELAYER"; demoEntry "BB" 9100 "GRELAYER"; demoEntry "CC" 9200 "GRELAYER"] in
  let l := ledgerOf [publisherReceipt "AA" 9000; publisherReceipt "BB" 9100; publisherReceipt "CC" 9200] in
  let run := (runOnce (fun _ => true) demoRecon (readerOf chain) nowMs l).1 in
  map df_driftClass (ru_findings run) = [MissingOnChainValue] ∧ map df_txHash (ru_findings run) = ["CC"] ∧ ru_truncated run = true.
Proof. vm_compute. split_and!; reflexivity. Qed.

(** The writer of an entry that has a receipt is not checked. *)
Example matched_writer_unchecked :
  ru_findings (runOnce (fun _ => true) demoRecon (readerOf [demoEntry "AA" 9000 "GATTACKER"]) nowMs (ledgerOf [publisherReceipt "AA" 9000])).1 = [] ∧
  map df_driftClass (ru_findings (runOnce (fun _ => true) demoRecon (readerOf [demoEntry "AA" 9000 "GATTACKER"]) nowMs []).1) = [UnexpectedWriter].
Proof. vm_compute. split; reflexivity. Qed.

(** While another owner's lease runs, a run is skipped and changes nothing. *)
Lemma held_lease_skips writeOk cfg readSince owner other expiry startedAt l held :
  rn_enabled cfg = true -> jm_get held "oracle-chain-reconciliation" = Some (other, expiry) -> other ≠ owner -> startedAt < expiry ->
  reconcile writeOk cfg readSince owner startedAt l held = (Skipped "lease_held", l, held).
Proof.
  intros He Hh Hne Hlt. unfold reconcile, acquireLease. rewrite He, Hh. cbn [negb]. by rewrite (proj2 (Z.ltb_lt _ _) Hlt), (bool_decide_eq_false_2 _ Hne).
Qed.
