(* ===== verification/FeedConfig.v ===== *)
(** The oracle feed configuration: the definitions of feeds and their resolution against the
    defaults (src/oracle/config/oracle-feed-config.ts), the validator
    (oracle-config.validator.ts) and the start-up check (oracle-config.startup.ts).

    A configured integer is a [Z]: the code compares such numbers, and doubles some of them,
    which is exact on doubles.  Weights are doubles.  Messages of issues are left out.  Reading
    the file, JSON parsing and the schema library are parameters of [loadOracleConfig]. *)

From stdpp Require Import base list strings sets.
From Stdlib Require Import ZArith Lia Floats.
From S2P Require Import Prelude Decimal JsNum JsParse Canonical Consensus ClaimHold Attestation.

#[local] Open Scope Z_scope.

Definition TRUST_MODES : list string := ["single_source"; "median_quorum"; "weighted_quorum"].
Definition KNOWN_ADAPTERS : list string := ["coingecko"; "defillama"; "horizon"; "mock"].

Inductive PublishMode := OnChange | EveryPoll.
#[global] Instance PublishMode_eq : EqDecision PublishMode.
Proof. solve_decision. Defined.

Record OracleSourceDefinition := mkSourceDef {
  so_id : string; so_adapter : string; so_operator : option string; so_params : option (list (string * string));
  so_enabled : option bool; so_weight : option num }.
Record QuorumDefinition := mkQuorumDef { qd_minSources : Z; qd_maxDeviationBps : option Z }.
Record PublishDefinition := mkPublishDef { pd_mode : option PublishMode; pd_minIntervalMs : option Z }.
Record OracleFeedDefinition := mkFeedDef {
  fd_id : string; fd_coverageType : string; fd_trustMode : option string; fd_pollIntervalMs : option Z;
  fd_freshnessWindowMs : option Z; fd_quorum : option QuorumDefinition; fd_sources : list OracleSourceDefinition;
  fd_publish : option PublishDefinition; fd_settlesClaims : option bool }.
Record FeedDefaults := mkFeedDefaults {
  de_trustMode : option string; de_pollIntervalMs : option Z; de_freshnessWindowMs : option Z; de_maxDeviationBps : option Z;
  de_publish : option PublishDefinition }.
Record OracleConfigFile := mkConfigFile { cf_defaults : option FeedDefaults; cf_feeds : list OracleFeedDefinition }.

Record ResolvedSource := mkResolvedSource {
  rs_id : string; rs_adapter : string; rs_operator : string; rs_params : option (list (string * string)); rs_enabled : bool; rs_weight : option num }.
Record ResolvedFeed := mkResolvedFeed {
  rf_id : string; rf_coverageType : string; rf_trustMode : option string; rf_pollIntervalMs : Z; rf_freshnessWindowMs : Z;
  rf_minSources : Z; rf_maxDeviationBps : Z; rf_publishMode : PublishMode; rf_publishMinIntervalMs : Z; rf_settlesClaims : bool;
  rf_sources : list ResolvedSource }.

Definition DEFAULT_pollIntervalMs : Z := 60000.
Definition DEFAULT_freshnessWindowMs : Z := 300000.
Definition DEFAULT_maxDeviationBps : Z := 100.
Definition DEFAULT_publishMinIntervalMs : Z := 300000.

(** The variables of the environment that the code reads. *)
Record ConfigEnv := mkConfigEnv {
  ev_publishMode : option string; ev_publishMinIntervalMs : option string;
  ev_feedsFile : option string; ev_feedsJson : option string; ev_network : option string; ev_strict : option string }.
Definition emptyEnv : ConfigEnv := mkConfigEnv None None None None None None.

(** * Resolution *)

(** [a ?? b] *)
Definition orElse {A} (a b : option A) : option A := match a with Some _ => a | None => b end.

(** [Number.isInteger(Number(v)) ? Number(v) : fallback] *)
Definition envPublishInterval (env : ConfigEnv) : Z :=
  match ev_publishMinIntervalMs env with
  | Some s => let x := toNumber s in if isInteger x then default DEFAULT_publishMinIntervalMs (round_to_Z x) else DEFAULT_publishMinIntervalMs
  | None => DEFAULT_publishMinIntervalMs
  end.
Definition envPublishMode (env : ConfigEnv) : PublishMode :=
  if bool_decide (ev_publishMode env = Some "every_poll") then EveryPoll else OnChange.

Definition noDefaults : FeedDefaults := mkFeedDefaults None None None None None.

Definition resolveSource (s : OracleSourceDefinition) : ResolvedSource :=
  mkResolvedSource (so_id s) (so_adapter s) (default (so_adapter s) (so_operator s)) (so_params s) (default true (so_enabled s)) (so_weight s).

Definition resolveFeed (defaults : FeedDefaults) (env : ConfigEnv) (f : OracleFeedDefinition) : ResolvedFeed :=
  mkResolvedFeed (fd_id f) (fd_coverageType f)
    (orElse (fd_trustMode f) (de_trustMode defaults))
    (default DEFAULT_pollIntervalMs (orElse (fd_pollIntervalMs f) (de_pollIntervalMs defaults)))
    (default DEFAULT_freshnessWindowMs (orElse (fd_freshnessWindowMs f) (de_freshnessWindowMs defaults)))
    (default 1 (qd_minSources <$> fd_quorum f))
    (default DEFAULT_maxDeviationBps (orElse (fd_quorum f ≫= qd_maxDeviationBps) (de_maxDeviationBps defaults)))
    (default (envPublishMode env) (orElse (fd_publish f ≫= pd_mode) (de_publish defaults ≫= pd_mode)))
    (default (envPublishInterval env) (orElse (fd_publish f ≫= pd_minIntervalMs) (de_publish defaults ≫= pd_minIntervalMs)))
    (default true (fd_settlesClaims f))
    (map resolveSource (fd_sources f)).

Definition resolveFeeds (config : OracleConfigFile) (env : ConfigEnv) : list ResolvedFeed :=
  map (resolveFeed (default noDefaults (cf_defaults config)) env) (cf_feeds config).

Definition builtInFeed (id coverageType source adapter : string) (params : option (list (string * string))) : OracleFeedDefinition :=
  mkFeedDef id coverageType None None None None [mkSourceDef source adapter None params None None] None None.
Definition BUILT_IN_ORACLE_CONFIG : OracleConfigFile :=
  mkConfigFile (Some (mkFeedDefaults (Some "single_source") None None None None))
    [builtInFeed "stablecoin-depeg" "StablecoinDepeg" "coingecko-usdc" "coingecko" (Some [("coinId", "usd-coin")]);
     builtInFeed "market-crash" "MarketCrash" "coingecko-xlm" "coingecko" (Some [("coinId", "stellar")]);
     builtInFeed "smart-contract-risk" "SmartContractRisk" "defillama-tvl" "defillama" (Some [("protocolSlug", "aave")]);
     builtInFeed "liquidation-shield" "LiquidationShield" "mock-liquidations" "mock" None;
     builtInFeed "flight-delay" "FlightDelay" "mock-flights" "mock" None].

(** * The validator *)

Inductive IssueSeverity := SevError | SevWarning.
#[global] Instance IssueSeverity_eq : EqDecision IssueSeverity.
Proof. solve_decision. Defined.
Inductive IssueCode :=
| NO_FEEDS | DUPLICATE_FEED_ID | UNKNOWN_COVERAGE_TYPE | MISSING_TRUST_MODE | UNKNOWN_TRUST_MODE | DUPLICATE_SOURCE_ID
| UNKNOWN_ADAPTER | MOCK_SOURCE_ON_MAINNET | NO_ENABLED_SOURCES | SHARED_OPERATOR | QUORUM_TOO_SMALL
| QUORUM_EXCEEDS_INDEPENDENT_SOURCES | NO_QUORUM_HEADROOM | DEVIATION_OUT_OF_RANGE | TRUST_MODE_QUORUM_CONFLICT
| SINGLE_SOURCE_ON_MAINNET | SINGLE_SOURCE | UNUSED_SOURCES | QUORUM_MODE_WITHOUT_QUORUM | MINORITY_QUORUM
| MISSING_SOURCE_WEIGHT | OPERATOR_CONTROLS_QUORUM | POLL_INTERVAL_TOO_SHORT | FRESHNESS_SHORTER_THAN_POLL
| FRESHNESS_WINDOW_TIGHT | PUBLISH_INTERVAL_NEGATIVE | PUBLISH_INTERVAL_EXCEEDS_FRESHNESS.
#[global] Instance IssueCode_eq : EqDecision IssueCode.
Proof. solve_decision. Defined.

Record OracleConfigIssue := mkIssue { is_severity : IssueSeverity; is_code : IssueCode; is_feed : string }.
Record OracleConfigReport := mkReport { rp_feedCount : Z; rp_errors : list OracleConfigIssue; rp_warnings : list OracleConfigIssue }.
Record ValidationContext := mkContext { vc_network : string; vc_knownAdapters : option (list string); vc_env : option ConfigEnv }.

Definition MIN_POLL_INTERVAL_MS : Z := 1000.

Definition enabledSources (f : ResolvedFeed) : list ResolvedSource := List.filter rs_enabled (rf_sources f).
Definition independentSourceCount (f : ResolvedFeed) : Z := Z.of_nat (length (setOf (map rs_operator (enabledSources f)))).

(** [if (b) add(severity, code, …)] *)
Definition add (b : bool) (sev : IssueSeverity) (code : IssueCode) : list (IssueSeverity * IssueCode) := if b then [(sev, code)] else [].

Definition isMainnet (network : string) : bool := bool_decide (lowerText (trimmed network) = "mainnet").

(** The trust mode, when it is one of the known ones. *)
Definition knownTrustMode (f : ResolvedFeed) : option string :=
  match rf_trustMode f with
  | Some t => if bool_decide (t = "") then None else if bool_decide (t ∈ TRUST_MODES) then Some t else None
  | None => None
  end.
Definition trustModeIssues (f : ResolvedFeed) : list (IssueSeverity * IssueCode) :=
  match rf_trustMode f with
  | Some t => if bool_decide (t = "") then add true SevError MISSING_TRUST_MODE else add (negb (bool_decide (t ∈ TRUST_MODES))) SevError UNKNOWN_TRUST_MODE
  | None => add true SevError MISSING_TRUST_MODE
  end.

Section Rules.
Variables (known : list string) (mainnet : bool).

Fixpoint sourceIssues (f : ResolvedFeed) (seen : list string) (sources : list ResolvedSource) : list (IssueSeverity * IssueCode) :=
  match sources with
  | [] => []
  | s :: rest =>
      add (bool_decide (rs_id s ∈ seen)) SevError DUPLICATE_SOURCE_ID ++
      add (negb (bool_decide (rs_adapter s ∈ known))) SevError UNKNOWN_ADAPTER ++
      add (rs_enabled s && bool_decide (rs_adapter s = "mock") && mainnet && rf_settlesClaims f) SevError MOCK_SOURCE_ON_MAINNET ++
      sourceIssues f (rs_id s :: seen) rest
  end.

(** The ids of the enabled sources of each operator. *)
Definition byOperatorIds (f : ResolvedFeed) : list (string * list string) :=
  foldl (fun m s => jm_set m (rs_operator s) (default [] (jm_get m (rs_operator s)) ++ [rs_id s])) [] (enabledSources f).
Definition operatorIssues (f : ResolvedFeed) : list (IssueSeverity * IssueCode) :=
  flat_map (fun kv => add (1 <? Z.of_nat (length kv.2)) SevWarning SHARED_OPERATOR) (byOperatorIds f).

Definition quorumIssues (f : ResolvedFeed) : list (IssueSeverity * IssueCode) :=
  let independent := independentSourceCount f in
  (if rf_minSources f <? 1 then add true SevError QUORUM_TOO_SMALL
   else if (independent <? rf_minSources f) && (0 <? Z.of_nat (length (enabledSources f))) then add true SevError QUORUM_EXCEEDS_INDEPENDENT_SOURCES
   else add ((1 <? rf_minSources f) && (rf_minSources f =? independent)) SevWarning NO_QUORUM_HEADROOM) ++
  add ((rf_maxDeviationBps f <=? 0) || (10000 <? rf_maxDeviationBps f)) SevError DEVIATION_OUT_OF_RANGE.

Definition singleSourceIssues (f : ResolvedFeed) : list (IssueSeverity * IssueCode) :=
  add (1 <? rf_minSources f) SevError TRUST_MODE_QUORUM_CONFLICT ++
  (if mainnet && rf_settlesClaims f then add true SevError SINGLE_SOURCE_ON_MAINNET else add (rf_settlesClaims f) SevWarning SINGLE_SOURCE) ++
  add (1 <? Z.of_nat (length (enabledSources f))) SevWarning UNUSED_SOURCES.

Definition quorumModeIssues (f : ResolvedFeed) : list (IssueSeverity * IssueCode) :=
  if rf_minSources f <? 2 then add true SevError QUORUM_MODE_WITHOUT_QUORUM
  else add (rf_minSources f * 2 <=? independentSourceCount f) SevWarning MINORITY_QUORUM.

(** [w === undefined || !(w > 0)] *)
Definition badWeight (w : option num) : bool := match w with Some x => negb (ngt x 0%float) | None => true end.
Definition weightOf (s : ResolvedSource) : num := default 0%float (rs_weight s).
Definition totalWeight (f : ResolvedFeed) : num := foldl (fun sum s => (sum + weightOf s)%float) 0%float (enabledSources f).
Definition weightByOperator (f : ResolvedFeed) : list (string * num) :=
  foldl (fun m s => jm_set m (rs_operator s) (default 0%float (jm_get m (rs_operator s)) + weightOf s)%float) [] (enabledSources f).
Definition weightIssues (f : ResolvedFeed) : list (IssueSeverity * IssueCode) :=
  if existsb (fun s => badWeight (rs_weight s)) (enabledSources f) then add true SevError MISSING_SOURCE_WEIGHT
  else flat_map (fun kv => add (ngt (kv.2 / totalWeight f)%float 0.5%float) SevError OPERATOR_CONTROLS_QUORUM) (weightByOperator f).

Definition timingIssues (f : ResolvedFeed) : list (IssueSeverity * IssueCode) :=
  add (rf_pollIntervalMs f <? MIN_POLL_INTERVAL_MS) SevError POLL_INTERVAL_TOO_SHORT ++
  (if rf_freshnessWindowMs f <? rf_pollIntervalMs f then add true SevError FRESHNESS_SHORTER_THAN_POLL
   else add (rf_freshnessWindowMs f <? rf_pollIntervalMs f * 2) SevWarning FRESHNESS_WINDOW_TIGHT) ++
  (if rf_publishMinIntervalMs f <? 0 then add true SevError PUBLISH_INTERVAL_NEGATIVE
   else add ((rf_freshnessWindowMs f <? rf_publishMinIntervalMs f) && bool_decide (rf_publishMode f = OnChange)) SevWarning PUBLISH_INTERVAL_EXCEEDS_FRESHNESS).

(** The rules that look at one feed only. *)
Definition ownIssues (f : ResolvedFeed) : list (IssueSeverity * IssueCode) :=
  let trustMode := knownTrustMode f in
  add (negb (bool_decide (rf_coverageType f ∈ COVERAGE_FEEDS))) SevError UNKNOWN_COVERAGE_TYPE ++
  trustModeIssues f ++
  sourceIssues f [] (rf_sources f) ++
  add (Z.of_nat (length (enabledSources f)) =? 0) SevError NO_ENABLED_SOURCES ++
  operatorIssues f ++
  quorumIssues f ++
  (if bool_decide (trustMode = Some "single_source") then singleSourceIssues f else []) ++
  (if bool_decide (trustMode = Some "median_quorum" ∨ trustMode = Some "weighted_quorum") then quorumModeIssues f else []) ++
  (if bool_decide (trustMode = Some "weighted_quorum") then weightIssues f else []) ++
  timingIssues f.

Definition labelOf (f : ResolvedFeed) (index : Z) : string := if bool_decide (rf_id f = "") then "feeds[" +:+ showZ index +:+ "]" else rf_id f.

Definition feedIssues (f : ResolvedFeed) (index : Z) (seen : list string) : list OracleConfigIssue :=
  map (fun sc => mkIssue sc.1 sc.2 (labelOf f index)) (add (bool_decide (rf_id f ∈ seen)) SevError DUPLICATE_FEED_ID ++ ownIssues f).

Fixpoint feedsIssues (index : Z) (seen : list string) (feeds : list ResolvedFeed) : list OracleConfigIssue :=
  match feeds with
  | [] => []
  | f :: rest => feedIssues f index seen ++ feedsIssues (index + 1) (rf_id f :: seen) rest
  end.
End Rules.

Definition isError (i : OracleConfigIssue) : bool := bool_decide (is_severity i = SevError).

Definition validateOracleConfig (config : OracleConfigFile) (context : ValidationContext) : OracleConfigReport :=
  let feeds := resolveFeeds config (default emptyEnv (vc_env context)) in
  let issues :=
    (if (length feeds =? 0)%nat then [mkIssue SevError NO_FEEDS "(config)"] else []) ++
    feedsIssues (default KNOWN_ADAPTERS (vc_knownAdapters context)) (isMainnet (vc_network context)) 0 [] feeds in
  mkReport (Z.of_nat (length feeds)) (List.filter isError issues) (List.filter (fun i => negb (isError i)) issues).

(** * Loading and start-up *)

Section Startup.
(** Reading a file, and parsing and checking a document's structure; [None] when it throws. *)
Variables (readFile : string -> option string) (parseDocument : string -> option OracleConfigFile).

Inductive ConfigParseError := BothSet | CannotRead (file : string) | Malformed (origin : string).
Definition givenText (v : option string) : option string := v ≫= fun s => let t := trimmed s in if bool_decide (t = "") then None else Some t.

Definition loadOracleConfig (env : ConfigEnv) : res ConfigParseError (OracleConfigFile * string) :=
  match givenText (ev_feedsFile env), givenText (ev_feedsJson env) with
  | Some _, Some _ => Err BothSet
  | None, None => Ok (BUILT_IN_ORACLE_CONFIG, "built-in defaults")
  | Some file, None =>
      match readFile file with
      | None => Err (CannotRead file)
      | Some text => match parseDocument text with Some c => Ok (c, "file " +:+ file) | None => Err (Malformed ("file " +:+ file)) end
      end
  | None, Some inline => match parseDocument inline with Some c => Ok (c, "ORACLE_FEEDS_JSON") | None => Err (Malformed "ORACLE_FEEDS_JSON") end
  end.

Definition truthy (v : option string) : bool := bool_decide (lowerText (trimmed (default "" v)) ∈ ["1"; "true"; "yes"; "on"]).

Inductive StartupError := ConfigUnreadable (e : ConfigParseError) | ConfigInvalid (report : OracleConfigReport).

Definition assertOracleConfigAtStartup (env : ConfigEnv) : res StartupError (OracleConfigFile * string * OracleConfigReport) :=
  match loadOracleConfig env with
  | Err e => Err (ConfigUnreadable e)
  | Ok (config, origin) =>
      let report := validateOracleConfig config (mkContext (default "testnet" (ev_network env)) None (Some env)) in
      if negb (length (rp_errors report) =? 0)%nat || (truthy (ev_strict env) && negb (length (rp_warnings report) =? 0)%nat)
      then Err (ConfigInvalid report) else Ok (config, origin, report)
  end.
End Startup.

(** * What a report without errors says *)

(** No error among the issues. *)
Definition clean (l : list (IssueSeverity * IssueCode)) : Prop := Forall (fun sc => sc.1 ≠ SevError) l.

Lemma clean_app l1 l2 : clean (l1 ++ l2) <-> clean l1 ∧ clean l2.
Proof. apply Forall_app. Qed.

Lemma clean_error b c : clean (add b SevError c) <-> b = false.
Proof.
  destruct b; cbn; split; try done; [|intros; by constructor].
  intros H. by apply Forall_cons in H as [H _].
Qed.

Lemma clean_warning b c : clean (add b SevWarning c).
Proof. destruct b; repeat constructor; done. Qed.

Lemma clean_if (b : bool) l1 l2 : clean (if b then l1 else l2) <-> (b = true -> clean l1) ∧ (b = false -> clean l2).
Proof. destruct b; naive_solver. Qed.

Lemma clean_nil : clean [] <-> True.
Proof. split; [done|]. intros _; apply Forall_nil; done. Qed.

Lemma clean_when (P : Prop) `{Decision P} l : clean (if bool_decide P then l else []) <-> (P -> clean l).
Proof. destruct (bool_decide_reflect P); [naive_solver|]. rewrite clean_nil. naive_solver. Qed.

Lemma clean_flat_map {A} (g : A -> list (IssueSeverity * IssueCode)) l : clean (flat_map g l) <-> Forall (fun x => clean (g x)) l.
Proof. induction l as [|x l IH]; cbn; [by rewrite clean_nil, Forall_nil|]. by rewrite clean_app, Forall_cons, IH. Qed.

Lemma sourceIssues_clean known mainnet f sources : forall seen, clean (sourceIssues known mainnet f seen sources) <->
  NoDup (map rs_id sources) ∧ Forall (fun s => (rs_id s ∉ seen) ∧ (rs_adapter s ∈ known)
    ∧ (rs_enabled s = true -> mainnet = true -> rf_settlesClaims f = true -> rs_adapter s ≠ "mock")) sources.
Proof.
  induction sources as [|s rest IH]; intros seen; cbn [sourceIssues map].
  { rewrite clean_nil. split; [|done]. intros _. split; constructor. }
  rewrite !clean_app, !clean_error, IH, NoDup_cons, Forall_cons, negb_false_iff, bool_decide_eq_false, bool_decide_eq_true, !Forall_forall.
  rewrite !andb_false_iff, bool_decide_eq_false. setoid_rewrite not_elem_of_cons. split.
  - intros (Hs & Ha & Hm & Hnd & Hr). split_and!; [|done|done|done| |intros x Hx; destruct (Hr x Hx); naive_solver].
    + intros (x & He & Hx)%list_elem_of_In%in_map_iff. apply list_elem_of_In in Hx. naive_solver.
    + intros E1 E2 E3. rewrite E1, E2, E3 in Hm. naive_solver.
  - intros [[Hn Hnd] [(Hs & Ha & Hm) Hr]]. split_and!; [done|done| |done|].
    + destruct (rs_enabled s), mainnet, (rf_settlesClaims f); naive_solver.
    + intros x Hx. destruct (Hr x Hx) as (H1 & H2 & H3). split_and!; [|done|done|done].
      intros E. apply Hn. apply list_elem_of_In, in_map_iff. exists x. split; [done|]. by apply list_elem_of_In.
Qed.

(** What the rules guarantee of one feed. *)
Record FeedOk (known : list string) (mainnet : bool) (f : ResolvedFeed) : Prop := {
  ok_coverage : rf_coverageType f ∈ COVERAGE_FEEDS;
  ok_mode : ∃ t, rf_trustMode f = Some t ∧ t ∈ TRUST_MODES;
  ok_ids : NoDup (map rs_id (rf_sources f));
  ok_adapters : ∀ s, s ∈ rf_sources f -> rs_adapter s ∈ known;
  ok_quorum : 1 <= rf_minSources f <= independentSourceCount f;
  ok_deviation : 1 <= rf_maxDeviationBps f <= 10000;
  ok_timing : MIN_POLL_INTERVAL_MS <= rf_pollIntervalMs f <= rf_freshnessWindowMs f ∧ 0 <= rf_publishMinIntervalMs f;
  ok_modeQuorum : (rf_trustMode f = Some "single_source" <-> rf_minSources f = 1);
  ok_mainnet : mainnet = true -> rf_settlesClaims f = true ->
    rf_trustMode f ≠ Some "single_source" ∧ ∀ s, s ∈ enabledSources f -> rs_adapter s ≠ "mock";
  ok_weights : rf_trustMode f = Some "weighted_quorum" ->
    (∀ s, s ∈ enabledSources f -> ∃ w, rs_weight s = Some w ∧ ngt w 0%float = true)
    ∧ ∀ o w, (o, w) ∈ weightByOperator f -> ngt (w / totalWeight f)%float 0.5%float = false }.

Lemma elem_of_enabledSources f s : s ∈ enabledSources f <-> s ∈ rf_sources f ∧ rs_enabled s = true.
Proof. unfold enabledSources. rewrite !list_elem_of_In. apply filter_In. Qed.

Lemma independent_none f : enabledSources f = [] -> independentSourceCount f = 0.
Proof. unfold independentSourceCount. by intros ->. Qed.

Lemma quorumIssues_clean f : enabledSources f ≠ [] ->
  (clean (quorumIssues f) <-> 1 <= rf_minSources f <= independentSourceCount f ∧ 1 <= rf_maxDeviationBps f <= 10000).
Proof.
  intros He. unfold quorumIssues. rewrite clean_app, !clean_if, !clean_error, orb_false_iff.
  assert ((0 <? Z.of_nat (length (enabledSources f))) = true) as -> by (apply Z.ltb_lt; destruct (enabledSources f); [done|cbn; lia]).
  rewrite andb_true_r. split.
  - intros [[H1 H2] H3]. destruct (rf_minSources f <? 1) eqn:E; [by specialize (H1 eq_refl)|].
    destruct (H2 eq_refl) as [H4 _]. destruct (independentSourceCount f <? rf_minSources f) eqn:E2; [by specialize (H4 eq_refl)|]. lia.
  - intros [H1 H2]. split_and!; try lia. intros _. split; [lia|]. intros _. apply clean_warning.
Qed.

Lemma timingIssues_clean f : clean (timingIssues f) <->
  MIN_POLL_INTERVAL_MS <= rf_pollIntervalMs f <= rf_freshnessWindowMs f ∧ 0 <= rf_publishMinIntervalMs f.
Proof.
  unfold timingIssues. rewrite !clean_app, clean_error.
  destruct (rf_freshnessWindowMs f <? rf_pollIntervalMs f) eqn:E1, (rf_publishMinIntervalMs f <? 0) eqn:E2;
    rewrite ?(clean_error true); (split; [intros (H1 & H2 & H3); first [done | split; lia]|]); intros [H1 H2]; try lia.
  split_and!; [lia|apply clean_warning|apply clean_warning].
Qed.

Lemma empty_not_mode : "" ∉ TRUST_MODES.
Proof. apply (bool_decide_unpack _). vm_compute. exact I. Qed.

Lemma knownTrustMode_Some f t : t ∈ TRUST_MODES -> (knownTrustMode f = Some t <-> rf_trustMode f = Some t).
Proof.
  intros Ht. unfold knownTrustMode. destruct (rf_trustMode f) as [t'|]; [|done].
  destruct (bool_decide_reflect (t' = "")) as [->|Hn]; [split; [done|]; intros [= <-]; by destruct empty_not_mode|].
  destruct (bool_decide_reflect (t' ∈ TRUST_MODES)); naive_solver.
Qed.

Lemma trustModeIssues_clean f : clean (trustModeIssues f) <-> ∃ t, rf_trustMode f = Some t ∧ t ∈ TRUST_MODES.
Proof.
  unfold trustModeIssues. destruct (rf_trustMode f) as [t|]; [|rewrite clean_error; naive_solver].
  rewrite clean_if, !clean_error, bool_decide_eq_true, bool_decide_eq_false, negb_false_iff, bool_decide_eq_true. split.
  - intros [H1 H2]. exists t. split; [done|]. destruct (decide (t = "")) as [E|E]; [by specialize (H1 E)|]. by apply H2.
  - intros (? & [= <-] & Ht). split; [|done]. intros ->. by destruct empty_not_mode.
Qed.

Lemma weightIssues_clean f : clean (weightIssues f) <->
  (∀ s, s ∈ enabledSources f -> ∃ w, rs_weight s = Some w ∧ ngt w 0%float = true)
  ∧ ∀ o w, (o, w) ∈ weightByOperator f -> ngt (w / totalWeight f)%float 0.5%float = false.
Proof.
  unfold weightIssues. rewrite clean_if, clean_error, clean_flat_map. setoid_rewrite clean_error. rewrite Forall_forall.
  destruct (existsb _ _) eqn:E.
  - split; [by intros [H _]; specialize (H eq_refl)|]. intros [H _]. apply existsb_exists in E as (s & Hs & Hb).
    destruct (H s) as (w & Hw & Hp); [by apply list_elem_of_In|]. rewrite Hw in Hb. unfold badWeight in Hb. by rewrite Hp in Hb.
  - split; [|intros [_ H]; split; [done|]; intros _ [o w]; apply H].
    intros [_ H]. split; [|intros o w Hw; exact (H eq_refl _ Hw)]. intros s Hs.
    assert (¬ badWeight (rs_weight s) = true) as Hn.
    { intros Hb. assert (existsb (fun s => badWeight (rs_weight s)) (enabledSources f) = true); [|congruence].
      apply existsb_exists. exists s. by rewrite <- list_elem_of_In. }
    destruct (rs_weight s) as [w|]; [|by destruct Hn]. exists w. split; [done|]. unfold badWeight in Hn. by destruct (ngt w 0).
Qed.

Lemma singleSource_clean mainnet f : clean (singleSourceIssues mainnet f) -> rf_minSources f <= 1 ∧ (mainnet = true -> rf_settlesClaims f = false).
Proof.
  unfold singleSourceIssues. rewrite !clean_app, clean_error, clean_if, clean_error. intros (H1 & [H2 _] & _). split; [lia|].
  intros Hm. destruct (rf_settlesClaims f); [|done]. rewrite Hm in H2. by specialize (H2 eq_refl).
Qed.

Lemma quorumMode_clean f : clean (quorumModeIssues f) -> 2 <= rf_minSources f.
Proof. unfold quorumModeIssues. rewrite clean_if, clean_error. intros [H _]. destruct (rf_minSources f <? 2) eqn:E; [by specialize (H eq_refl)|lia]. Qed.

(** The four parts of the rules that depend on the trust mode. *)
Lemma modeIssues_clean mainnet f : (∃ t, rf_trustMode f = Some t ∧ t ∈ TRUST_MODES) -> 1 <= rf_minSources f ->
  clean (if bool_decide (knownTrustMode f = Some "single_source") then singleSourceIssues mainnet f else []) ->
  clean (if bool_decide (knownTrustMode f = Some "median_quorum" ∨ knownTrustMode f = Some "weighted_quorum") then quorumModeIssues f else []) ->
  (rf_trustMode f = Some "single_source" <-> rf_minSources f = 1)
  ∧ (mainnet = true -> rf_settlesClaims f = true -> rf_trustMode f ≠ Some "single_source").
Proof.
  intros (t & Ht & Hin) Hmin. rewrite !clean_when, !knownTrustMode_Some by (apply (bool_decide_unpack _); vm_compute; exact I).
  rewrite Ht. intros H1 H2. unfold TRUST_MODES in Hin. rewrite !elem_of_cons in Hin.
  destruct Hin as [-> | [-> | [-> | Hin]]]; [| | |by apply not_elem_of_nil in Hin].
  - destruct (singleSource_clean _ _ (H1 eq_refl)) as [Hs Hm]. split; [split; [lia|done]|]. intros E1 E2. by rewrite (Hm E1) in E2.
  - apply quorumMode_clean in H2; [|by left]. split; [split; [done|lia]|done].
  - apply quorumMode_clean in H2; [|by right]. split; [split; [done|lia]|done].
Qed.

Lemma ownIssues_ok known mainnet f : clean (ownIssues known mainnet f) -> FeedOk known mainnet f.
Proof.
  unfold ownIssues. rewrite !clean_app, !clean_error, negb_false_iff, bool_decide_eq_true, trustModeIssues_clean, sourceIssues_clean, timingIssues_clean, Forall_forall.
  intros (Hc & Ht & (Hnd & Hs) & He & _ & Hq & H1 & H2 & H3 & Htm).
  apply quorumIssues_clean in Hq as [Hq Hd]; [|intros E; by rewrite E in He].
  destruct (modeIssues_clean mainnet f Ht (proj1 Hq) H1 H2) as [Hmode Hmain]. rewrite clean_when, weightIssues_clean in H3.
  constructor; [done|done|done|intros s Hi; apply (Hs s Hi)|done|done|done|done| |].
  - intros E1 E2. split; [by apply Hmain|]. intros s [Hi En]%elem_of_enabledSources. by apply (Hs s Hi).
  - intros E. apply H3. apply knownTrustMode_Some; [apply (bool_decide_unpack _); vm_compute; exact I|done].
Qed.

Lemma feedIssues_noError known mainnet f i seen :
  (∀ x, x ∈ feedIssues known mainnet f i seen -> isError x = false) <-> (rf_id f ∉ seen) ∧ clean (ownIssues known mainnet f).
Proof.
  unfold feedIssues. setoid_rewrite list_elem_of_In. setoid_rewrite in_map_iff. setoid_rewrite <- list_elem_of_In.
  rewrite <- (bool_decide_eq_false (rf_id f ∈ seen)), <- clean_error with (c := DUPLICATE_FEED_ID), <- clean_app.
  unfold clean. rewrite Forall_forall. split.
  - intros H sc Hsc E. specialize (H (mkIssue sc.1 sc.2 (labelOf f i)) (ex_intro _ sc (conj eq_refl Hsc))).
    unfold isError in H. cbn in H. by rewrite E in H.
  - intros H x (sc & <- & Hsc). unfold isError. cbn. apply bool_decide_eq_false. by apply H.
Qed.

Lemma feedsIssues_noError known mainnet feeds : forall i seen,
  (∀ x, x ∈ feedsIssues known mainnet i seen feeds -> isError x = false) <->
  NoDup (map rf_id feeds) ∧ Forall (fun f => (rf_id f ∉ seen) ∧ clean (ownIssues known mainnet f)) feeds.
Proof.
  induction feeds as [|f rest IH]; intros i seen; cbn [feedsIssues map].
  { split; [|by intros _ x Hx%not_elem_of_nil]. intros _. split; constructor. }
  setoid_rewrite elem_of_app. rewrite NoDup_cons, Forall_cons.
  transitivity ((∀ x, x ∈ feedIssues known mainnet f i seen -> isError x = false)
    ∧ ∀ x, x ∈ feedsIssues known mainnet (i + 1) (rf_id f :: seen) rest -> isError x = false); [naive_solver|].
  rewrite feedIssues_noError, IH, !Forall_forall. setoid_rewrite not_elem_of_cons. split.
  - intros [[Hs Hc] [Hnd Hr]]. split_and!; [|done|done|done|intros x Hx; split; apply (Hr x Hx)].
    intros (x & He & Hx)%list_elem_of_In%in_map_iff. apply list_elem_of_In in Hx. destruct (Hr x Hx). naive_solver.
  - intros [[Hn Hnd] [Hf Hr]]. split; [done|]. split; [done|]. intros x Hx. destruct (Hr x Hx) as [H1 H2]. split_and!; [|done|done].
    intros E. apply Hn. apply list_elem_of_In, in_map_iff. exists x. split; [done|]. by apply list_elem_of_In.
Qed.

Lemma validate_noErrors config ctx :
  rp_errors (validateOracleConfig config ctx) = [] <->
  let feeds := resolveFeeds config (default emptyEnv (vc_env ctx)) in
  feeds ≠ [] ∧ NoDup (map rf_id feeds)
  ∧ Forall (fun f => clean (ownIssues (default KNOWN_ADAPTERS (vc_knownAdapters ctx)) (isMainnet (vc_network ctx)) f)) feeds.
Proof.
  cbn. rewrite filter_nil_iff. setoid_rewrite elem_of_app. set (feeds := resolveFeeds _ _).
  pose proof (feedsIssues_noError (default KNOWN_ADAPTERS (vc_knownAdapters ctx)) (isMainnet (vc_network ctx)) feeds 0 []) as Hf.
  rewrite Forall_forall in *. split.
  - intros H. destruct (proj1 Hf (fun x Hx => H x (or_intror Hx))) as [Hnd Hc]. split_and!; [|done|intros f Hi; apply (Hc f Hi)].
    intros E. specialize (H (mkIssue SevError NO_FEEDS "(config)")). rewrite E in H. cbn in H.
    assert (isError (mkIssue SevError NO_FEEDS "(config)") = false); [apply H; left; by left|done].
  - intros (Hne & Hnd & Hc) x [Hx|Hx].
    + destruct feeds; [done|]. by apply not_elem_of_nil in Hx.
    + refine (proj2 Hf _ x Hx). split; [done|]. intros f Hi. split; [apply not_elem_of_nil|by apply Hc].
Qed.

Lemma setOf_two l : 2 <= Z.of_nat (length (setOf l)) -> ∃ a b, a ∈ l ∧ b ∈ l ∧ a ≠ b.
Proof.
  intros H. pose proof (setOf_NoDup l) as Hnd. pose proof (fun x => proj1 (elem_of_setOf x l)) as Hin.
  destruct (setOf l) as [|a [|b r]]; [cbn in H; lia|cbn in H; lia|]. exists a, b. split_and!; [apply Hin; set_solver|apply Hin; set_solver|].
  apply NoDup_cons in Hnd as [Hn _]. set_solver.
Qed.

Lemma two_operators f : 2 <= independentSourceCount f -> ∃ s1 s2, s1 ∈ enabledSources f ∧ s2 ∈ enabledSources f ∧ rs_operator s1 ≠ rs_operator s2.
Proof.
  intros (a & b & Ha & Hb & Hne)%setOf_two. apply list_elem_of_In, in_map_iff in Ha as (s1 & <- & H1), Hb as (s2 & <- & H2).
  exists s1, s2. by rewrite !list_elem_of_In.
Qed.

(** When the validator reports no error, feed ids are unique and every feed satisfies the rules [FeedOk]: a known trust mode
    whose quorum is between one and the number of independent operators (exactly one for a single source), known adapters, a
    deviation of 1 to 10000 basis points, a freshness window no shorter than the poll interval of at least a second, positive
    weights and no operator with more than half of them.  On mainnet a feed that settles claims moreover needs at least two
    sources, has enabled sources of two different operators, and none of its enabled sources is a mock. *)
Theorem valid_config_is_safe config ctx f :
  rp_errors (validateOracleConfig config ctx) = [] ->
  f ∈ resolveFeeds config (default emptyEnv (vc_env ctx)) ->
  NoDup (map rf_id (resolveFeeds config (default emptyEnv (vc_env ctx))))
  ∧ FeedOk (default KNOWN_ADAPTERS (vc_knownAdapters ctx)) (isMainnet (vc_network ctx)) f
  ∧ (isMainnet (vc_network ctx) = true -> rf_settlesClaims f = true ->
      2 <= rf_minSources f
      ∧ (∀ s, s ∈ enabledSources f -> rs_adapter s ≠ "mock")
      ∧ ∃ s1 s2, s1 ∈ enabledSources f ∧ s2 ∈ enabledSources f ∧ rs_operator s1 ≠ rs_operator s2).
Proof.
  rewrite validate_noErrors. intros (_ & Hnd & Hc) Hf. rewrite Forall_forall in Hc. pose proof (ownIssues_ok _ _ _ (Hc f Hf)) as Hok.
  split_and!; [done|done|]. intros Hm Hs. destruct (ok_mainnet _ _ _ Hok Hm Hs) as [Hmode Hmock].
  pose proof (ok_quorum _ _ _ Hok) as Hq. pose proof (ok_modeQuorum _ _ _ Hok) as [_ Hone].
  assert (2 <= rf_minSources f) by (destruct (decide (rf_minSources f = 1)) as [E|]; [by specialize (Hone E)|lia]).
  split_and!; [done|done|]. apply two_operators. lia.
Qed.

Definition demoSource (id adapter : string) (weight : option num) : OracleSourceDefinition := mkSourceDef id adapter None None None weight.
Definition demoFeed (sources : list OracleSourceDefinition) (mode : string) (minSources : Z) : OracleFeedDefinition :=
  mkFeedDef "depeg" "StablecoinDepeg" (Some mode) None None (Some (mkQuorumDef minSources None)) sources None None.
Definition demoConfig : OracleConfigFile :=
  mkConfigFile None [demoFeed [demoSource "a" "coingecko" None; demoSource "b" "defillama" None; demoSource "c" "horizon" None] "median_quorum" 2].
Definition demoMainnet : ValidationContext := mkContext "Mainnet" None None.

Lemma valid_config_is_safe_witness : ∃ f, f ∈ resolveFeeds demoConfig emptyEnv
  ∧ rp_errors (validateOracleConfig demoConfig demoMainnet) = [] ∧ 2 <= rf_minSources f.
Proof.
  assert (rp_errors (validateOracleConfig demoConfig demoMainnet) = []) as H by (vm_compute; reflexivity).
  eexists. split_and!; [apply list_elem_of_here|done|].
  destruct (valid_config_is_safe demoConfig demoMainnet _ H (list_elem_of_here _ _)) as (_ & _ & Hm).
  apply (Hm eq_refl eq_refl).
Defined.

(** The built-in configuration starts on testnet and is refused on mainnet. *)
Lemma built_in_config_testnet_only :
  rp_errors (validateOracleConfig BUILT_IN_ORACLE_CONFIG (mkContext "testnet" None None)) = []
  ∧ is_ok (assertOracleConfigAtStartup (fun _ => None) (fun _ => None) (mkConfigEnv None None None None (Some "mainnet") None)) = false
  ∧ is_ok (assertOracleConfigAtStartup (fun _ => None) (fun _ => None) emptyEnv) = true.
Proof. vm_compute. repeat split. Qed.

(** Weights whose sum overflows: every share is 0, and an operator with most of the weight passes. *)
Definition overflowConfig : OracleConfigFile :=
  mkConfigFile None [demoFeed [demoSource "a" "coingecko" (Some 0x1.8p1023%float); demoSource "b" "defillama" (Some 0x1p1022%float);
    demoSource "c" "horizon" (Some 0x1p1022%float)] "weighted_quorum" 2].
Lemma overflowing_weights_pass :
  rp_errors (validateOracleConfig overflowConfig demoMainnet) = []
  ∧ is_code <$> rp_errors (validateOracleConfig (mkConfigFile None [demoFeed [demoSource "a" "coingecko" (Some 6%float);
      demoSource "b" "defillama" (Some 1%float); demoSource "c" "horizon" (Some 1%float)] "weighted_quorum" 2]) demoMainnet)
    = [OPERATOR_CONTROLS_QUORUM].
Proof. vm_compute. repeat split. Qed.
