(* ===== verification/ControlRegistry.v ===== *)
(** The operator-controlled oracle state (src/oracle/admin/oracle-control.registry.ts): feed
    definitions and quorum policy, and the pauses, quarantine overrides and manual value
    overrides layered on top.

    An operation is a function of the registry's maps; [now k] is the k-th reading of the clock
    during the operation, so an operation that reads it several times sees several values.  A
    time is its milliseconds; expiry timestamps are texts, as the code stores and re-parses
    them, and [Date.parse] is a parameter.  [clone] goes through JSON, which turns a weight that
    is not finite into [null]; it is the NaN weight here, since both compare as not positive. *)

From stdpp Require Import base list strings sets.
From Stdlib Require Import ZArith Lia Floats.
From S2P Require Import Prelude Decimal JsNum JsDate Canonical Consensus Attestation FeedConfig.

#[local] Open Scope Z_scope.

Inductive ControlError :=
| ControlNotFoundError (what : string)
| ControlConflictError (actual expected : Z)
| ControlValidationError (message : string) (issues : list OracleConfigIssue).

Record PauseState := mkPause { ps_paused : bool; ps_reason : option string; ps_by : string; ps_at : Z }.
Inductive QuarantineAction := DoQuarantine | DoRelease.
Record QuarantineOverride := mkQuarantine { qo_action : QuarantineAction; qo_reason : string; qo_expiresAt : option string; qo_by : string; qo_at : Z }.
Record ManualOverride := mkManual { mo_value : num; mo_reason : string; mo_expiresAt : string; mo_by : string; mo_at : Z }.
Record FeedRecord := mkFeedRecord { fr_definition : OracleFeedDefinition; fr_revision : Z; fr_updatedBy : string; fr_updatedAt : Z }.
Record FeedView := mkFeedView {
  fv_record : FeedRecord; fv_pause : option PauseState; fv_quarantine : list (string * QuarantineOverride); fv_manual : option ManualOverride }.

Definition MAX_MANUAL_OVERRIDE_MS : Z := 24 * 60 * 60 * 1000.

(** The before/after records of the request's audit event. *)
Inductive AuditChange :=
| FeedChange (id : string) (before after : option OracleFeedDefinition)
| QuorumChange (id : string) (before after : option string * option QuorumDefinition)
| PauseChange (id : string) (before : option PauseState) (after : PauseState)
| QuarantineChange (feedId sourceId : string) (before after : option QuarantineOverride)
| ManualChange (id : string) (before after : option ManualOverride).

Record Registry := mkRegistry {
  rg_defaults : option FeedDefaults;
  rg_feeds : list (string * FeedRecord);
  rg_pauses : list (string * PauseState);
  rg_quarantine : list (string * list (string * QuarantineOverride));
  rg_manual : list (string * ManualOverride);
  rg_audit : list AuditChange }.

(** * [clone] *)

Definition cloneWeight (w : num) : num := if isFinite w then w else nan.
Definition cloneSource (s : OracleSourceDefinition) : OracleSourceDefinition :=
  mkSourceDef (so_id s) (so_adapter s) (so_operator s) (so_params s) (so_enabled s) (cloneWeight <$> so_weight s).
Definition clone (d : OracleFeedDefinition) : OracleFeedDefinition :=
  mkFeedDef (fd_id d) (fd_coverageType d) (fd_trustMode d) (fd_pollIntervalMs d) (fd_freshnessWindowMs d) (fd_quorum d)
    (map cloneSource (fd_sources d)) (fd_publish d) (fd_settlesClaims d).

Section Registry.
(** [Date.parse], [None] for NaN; the network; the acting operator. *)
Variables (dateParse : string -> option Z) (network : string) (actor : string).

Definition newRegistry (config : OracleConfigFile) (now : Z) : Registry :=
  mkRegistry (cf_defaults config)
    (foldl (fun m f => jm_set m (fd_id f) (mkFeedRecord (clone f) 1 "config" now)) [] (cf_feeds config)) [] [] [] [].

(** * Reads *)

Definition isPaused (r : Registry) (feedId : string) : bool := match jm_get (rg_pauses r) feedId with Some p => ps_paused p | None => false end.

(** [Date.parse(text) <= now]: false when the text does not parse. *)
Definition expired (text : string) (now : Z) : bool := match dateParse text with Some t => t <=? now | None => false end.

Definition quarantineOverride (r : Registry) (feedId sourceId : string) (now : Z) : option QuarantineOverride :=
  match jm_get (rg_quarantine r) feedId ≫= fun m => jm_get m sourceId with
  | None => None
  | Some o =>
      match qo_expiresAt o with
      | Some e => if negb (bool_decide (e = "")) && expired e now then None else Some o
      | None => Some o
      end
  end.

Definition activeManualOverride (r : Registry) (feedId : string) (now : Z) : option ManualOverride :=
  match jm_get (rg_manual r) feedId with
  | None => None
  | Some o => if expired (mo_expiresAt o) now then None else Some o
  end.

(** [view]; the clock is read once per override and once at the end. *)
Definition viewQuarantine (r : Registry) (feedId : string) (now : nat -> Z) : list (string * QuarantineOverride) :=
  omap (fun '(i, (s, _)) => pair s <$> quarantineOverride r feedId s (now i)) (imap pair (default [] (jm_get (rg_quarantine r) feedId))).
Definition view (r : Registry) (feedId : string) (now : nat -> Z) : option FeedView :=
  (fun rec => mkFeedView rec (jm_get (rg_pauses r) feedId) (viewQuarantine r feedId now)
    (activeManualOverride r feedId (now (length (default [] (jm_get (rg_quarantine r) feedId))))))
  <$> jm_get (rg_feeds r) feedId.

Definition require (r : Registry) (feedId : string) : res ControlError FeedRecord :=
  match jm_get (rg_feeds r) feedId with Some rec => Ok rec | None => Err (ControlNotFoundError feedId) end.

Definition getFeed (r : Registry) (feedId : string) (now : nat -> Z) : res ControlError (option FeedView) :=
  _ ← require r feedId; Ok (view r feedId now).

Definition listFeeds (r : Registry) (now : nat -> nat -> Z) : list (option FeedView) :=
  imap (fun i id => view r id (now i)) (sort_strings (jm_keys (rg_feeds r))).

(** * Changes of definitions *)

Definition checkRevision (existing : option FeedRecord) (expected : option Z) : res ControlError unit :=
  match expected with
  | None => Ok ()
  | Some e => let actual := default 0 (fr_revision <$> existing) in guard_res (actual =? e) (ControlConflictError actual e)
  end.

(** The feed set a change leads to. *)
Definition feedSetWith (r : Registry) (feedId : string) (definition : option OracleFeedDefinition) : list OracleFeedDefinition :=
  map (fun kv => fr_definition kv.2) (List.filter (fun kv => negb (bool_decide (kv.1 = feedId))) (rg_feeds r))
  ++ match definition with Some d => [d] | None => [] end.

Definition relevant (feedId : string) (i : OracleConfigIssue) : bool := bool_decide (is_feed i = feedId) || bool_decide (is_feed i = "(config)").

Definition validateWith (r : Registry) (feedId : string) (definition : option OracleFeedDefinition) : res ControlError (list OracleConfigIssue) :=
  let report := validateOracleConfig (mkConfigFile (rg_defaults r) (feedSetWith r feedId definition)) (mkContext network None None) in
  let errors := List.filter (relevant feedId) (rp_errors report) in
  if (0 <? length errors)%nat then Err (ControlValidationError "Change rejected by oracle config validation" errors)
  else Ok (List.filter (relevant feedId) (rp_warnings report)).

Definition audit (c : AuditChange) (r : Registry) : Registry :=
  mkRegistry (rg_defaults r) (rg_feeds r) (rg_pauses r) (rg_quarantine r) (rg_manual r) (rg_audit r ++ [c]).
Definition setFeed (feedId : string) (rec : FeedRecord) (r : Registry) : Registry :=
  mkRegistry (rg_defaults r) (jm_set (rg_feeds r) feedId rec) (rg_pauses r) (rg_quarantine r) (rg_manual r) (rg_audit r).

(** Overrides of the sources that the new definition removed go. *)
Definition dropStaleOverrides (feedId : string) (sourceIds : list string) (r : Registry) : Registry :=
  match jm_get (rg_quarantine r) feedId with
  | None => r
  | Some m =>
      mkRegistry (rg_defaults r) (rg_feeds r) (rg_pauses r) (jm_set (rg_quarantine r) feedId (filter (fun kv => kv.1 ∈ sourceIds) m)) (rg_manual r) (rg_audit r)
  end.

(** The sources handed to [onSourcesAdded]. *)
Definition addedSources (before : option OracleFeedDefinition) (definition : OracleFeedDefinition) : list OracleSourceDefinition :=
  let previousIds := match before with Some b => map so_id (fd_sources b) | None => [] end in
  List.filter (fun s => negb (bool_decide (so_id s ∈ previousIds)) && negb (bool_decide (so_enabled s = Some false))) (fd_sources definition).

Definition upsertFeed (r : Registry) (feedId : string) (definition : OracleFeedDefinition) (expectedRevision : option Z) (now : nat -> Z) :
    res ControlError (Registry * list OracleSourceDefinition * list OracleConfigIssue) :=
  _ ← guard_res (bool_decide (fd_id definition = feedId)) (ControlValidationError "id mismatch" []);
  let existing := jm_get (rg_feeds r) feedId in
  _ ← checkRevision existing expectedRevision;
  warnings ← validateWith r feedId (Some definition);
  let before := clone ∘ fr_definition <$> existing in
  let r1 := setFeed feedId (mkFeedRecord (clone definition) (default 0 (fr_revision <$> existing) + 1) actor (now 0%nat)) r in
  let r2 := audit (FeedChange feedId before (Some (clone definition))) r1 in
  let r3 := dropStaleOverrides feedId (map so_id (fd_sources definition)) r2 in
  Ok (r3, map cloneSource (addedSources before definition), warnings).

Definition deleteFeed (r : Registry) (feedId : string) (expectedRevision : option Z) : res ControlError (Registry * list OracleConfigIssue) :=
  existing ← require r feedId;
  _ ← checkRevision (Some existing) expectedRevision;
  warnings ← validateWith r feedId None;
  let r1 := mkRegistry (rg_defaults r) (jm_delete (rg_feeds r) feedId) (jm_delete (rg_pauses r) feedId) (jm_delete (rg_quarantine r) feedId)
    (jm_delete (rg_manual r) feedId) (rg_audit r) in
  Ok (audit (FeedChange feedId (Some (clone (fr_definition existing))) None) r1, warnings).

Record QuorumUpdate := mkQuorumUpdate { qu_trustMode : option string; qu_minSources : Z; qu_maxDeviationBps : option Z }.

(** The definition with its trust mode and quorum replaced. *)
Definition withQuorum (change : QuorumUpdate) (d : OracleFeedDefinition) : OracleFeedDefinition :=
  let c := clone d in
  mkFeedDef (fd_id c) (fd_coverageType c) (orElse (qu_trustMode change) (fd_trustMode c)) (fd_pollIntervalMs c) (fd_freshnessWindowMs c)
    (Some (mkQuorumDef (qu_minSources change) (orElse (qu_maxDeviationBps change) (fd_quorum d ≫= qd_maxDeviationBps))))
    (fd_sources c) (fd_publish c) (fd_settlesClaims c).

Definition updateQuorum (r : Registry) (feedId : string) (change : QuorumUpdate) (expectedRevision : option Z) (now : nat -> Z) :
    res ControlError (Registry * list OracleConfigIssue) :=
  existing ← require r feedId;
  _ ← guard_res (match qu_trustMode change with Some t => bool_decide (t ∈ TRUST_MODES) | None => true end) (ControlValidationError "unknown trust mode" []);
  let definition := withQuorum change (fr_definition existing) in
  _ ← checkRevision (Some existing) expectedRevision;
  warnings ← validateWith r feedId (Some definition);
  let r1 := setFeed feedId (mkFeedRecord definition (fr_revision existing + 1) actor (now 0%nat)) r in
  Ok (audit (QuorumChange feedId (fd_trustMode (fr_definition existing), fd_quorum (fr_definition existing)) (fd_trustMode definition, fd_quorum definition)) r1, warnings).

(** * Runtime controls *)

Definition setPause (r : Registry) (feedId : string) (paused : bool) (reason : option string) (now : nat -> Z) : Registry :=
  let next := mkPause paused reason actor (now 0%nat) in
  audit (PauseChange feedId (jm_get (rg_pauses r) feedId) next)
    (mkRegistry (rg_defaults r) (rg_feeds r) (jm_set (rg_pauses r) feedId next) (rg_quarantine r) (rg_manual r) (rg_audit r)).
Definition pause (r : Registry) (feedId reason : string) (now : nat -> Z) : res ControlError Registry :=
  _ ← require r feedId; Ok (setPause r feedId true (Some reason) now).
Definition resume (r : Registry) (feedId : string) (reason : option string) (now : nat -> Z) : res ControlError Registry :=
  _ ← require r feedId; Ok (setPause r feedId false reason now).

Definition setQuarantine (feedId : string) (m : list (string * QuarantineOverride)) (r : Registry) : Registry :=
  mkRegistry (rg_defaults r) (rg_feeds r) (rg_pauses r) (jm_set (rg_quarantine r) feedId m) (rg_manual r) (rg_audit r).

Definition setQuarantineOverride (r : Registry) (feedId sourceId : string) (action : QuarantineAction) (reason : string) (expiresAt : option string)
    (now : nat -> Z) : res ControlError Registry :=
  feed ← require r feedId;
  _ ← guard_res (existsb (fun s => bool_decide (so_id s = sourceId)) (fd_sources (fr_definition feed))) (ControlNotFoundError sourceId);
  _ ← guard_res (match expiresAt with Some e => bool_decide (e = "") || negb (expired e (now 0%nat)) | None => true end)
        (ControlValidationError "expiresAt must be in the future" []);
  let bySource := default [] (jm_get (rg_quarantine r) feedId) in
  let next := mkQuarantine action reason expiresAt actor (now 1%nat) in
  Ok (audit (QuarantineChange feedId sourceId (jm_get bySource sourceId) (Some next)) (setQuarantine feedId (jm_set bySource sourceId next) r)).

Definition clearQuarantineOverride (r : Registry) (feedId sourceId : string) : res ControlError Registry :=
  _ ← require r feedId;
  let bySource := default [] (jm_get (rg_quarantine r) feedId) in
  match jm_get bySource sourceId with
  | None => Err (ControlNotFoundError sourceId)
  | Some before => Ok (audit (QuarantineChange feedId sourceId (Some before) None) (setQuarantine feedId (jm_delete bySource sourceId) r))
  end.

Definition setManual (m : list (string * ManualOverride)) (r : Registry) : Registry :=
  mkRegistry (rg_defaults r) (rg_feeds r) (rg_pauses r) (rg_quarantine r) m (rg_audit r).

Definition setManualOverride (r : Registry) (feedId : string) (value : num) (reason expiresAt : string) (now : nat -> Z) : res ControlError Registry :=
  _ ← require r feedId;
  _ ← guard_res (isFinite value) (ControlValidationError "value must be a finite number" []);
  match dateParse expiresAt with
  | None => Err (ControlValidationError "expiresAt must be a future ISO-8601 timestamp" [])
  | Some e =>
      _ ← guard_res (now 0%nat <? e) (ControlValidationError "expiresAt must be a future ISO-8601 timestamp" []);
      _ ← guard_res (e - now 1%nat <=? MAX_MANUAL_OVERRIDE_MS) (ControlValidationError "Manual overrides may last at most 24 hours" []);
      match toISOString e with
      | Err _ => Err (ControlValidationError "Invalid time value" [])
      | Ok text =>
          let next := mkManual value reason text actor (now 2%nat) in
          Ok (audit (ManualChange feedId (jm_get (rg_manual r) feedId) (Some next)) (setManual (jm_set (rg_manual r) feedId next) r))
      end
  end.

Definition clearManualOverride (r : Registry) (feedId : string) : res ControlError Registry :=
  _ ← require r feedId;
  match jm_get (rg_manual r) feedId with
  | None => Err (ControlNotFoundError feedId)
  | Some before => Ok (audit (ManualChange feedId (Some before) None) (setManual (jm_delete (rg_manual r) feedId) r))
  end.

(** * Sequences of operations *)

Inductive Operation :=
| OpUpsert (feedId : string) (definition : OracleFeedDefinition) (expected : option Z)
| OpDelete (feedId : string) (expected : option Z)
| OpQuorum (feedId : string) (change : QuorumUpdate) (expected : option Z)
| OpPause (feedId reason : string)
| OpResume (feedId : string) (reason : option string)
| OpSetQuarantine (feedId sourceId : string) (action : QuarantineAction) (reason : string) (expiresAt : option string)
| OpClearQuarantine (feedId sourceId : string)
| OpSetManual (feedId : string) (value : num) (reason expiresAt : string)
| OpClearManual (feedId : string).

Definition applyOp (r : Registry) (op : Operation) (now : nat -> Z) : res ControlError Registry :=
  match op with
  | OpUpsert id d e => '(r', _, _) ← upsertFeed r id d e now; Ok r'
  | OpDelete id e => '(r', _) ← deleteFeed r id e; Ok r'
  | OpQuorum id c e => '(r', _) ← updateQuorum r id c e now; Ok r'
  | OpPause id reason => pause r id reason now
  | OpResume id reason => resume r id reason now
  | OpSetQuarantine id s a reason e => setQuarantineOverride r id s a reason e now
  | OpClearQuarantine id s => clearQuarantineOverride r id s
  | OpSetManual id v reason e => setManualOverride r id v reason e now
  | OpClearManual id => clearManualOverride r id
  end.

(** A refused operation throws before it changes anything. *)
Definition stepOp (r : Registry) (op : Operation) (now : nat -> Z) : Registry := match applyOp r op now with Ok r' => r' | Err _ => r end.
Definition runOps (r : Registry) (ops : list (Operation * (nat -> Z))) : Registry := foldl (fun r '(op, now) => stepOp r op now) r ops.
End Registry.

(** * The edited feed set *)

Lemma feedsIssues_own known mainnet feeds f sc : f ∈ feeds -> sc ∈ ownIssues known mainnet f -> forall i seen,
  ∃ idx, mkIssue sc.1 sc.2 (labelOf f idx) ∈ feedsIssues known mainnet i seen feeds.
Proof.
  intros Hf Hsc. induction feeds as [|g rest IH]; intros i seen; [by apply not_elem_of_nil in Hf|]. cbn [feedsIssues].
  apply elem_of_cons in Hf as [-> | Hf].
  - exists i. apply elem_of_app. left. unfold feedIssues. apply list_elem_of_In, in_map_iff. exists sc. split; [done|].
    apply in_app_iff. right. by apply list_elem_of_In.
  - destruct (IH Hf (i + 1) (rf_id g :: seen)) as [idx H]. exists idx. apply elem_of_app. by right.
Qed.

Lemma labelOf_id f i : rf_id f ≠ "" -> labelOf f i = rf_id f.
Proof. intros H. unfold labelOf. by destruct (bool_decide_reflect (rf_id f = "")). Qed.

Definition finiteWeights (d : OracleFeedDefinition) : Prop := Forall (fun s => match so_weight s with Some w => isFinite w = true | None => True end) (fd_sources d).

Lemma clone_finite d : finiteWeights d -> clone d = d.
Proof.
  intros H. destruct d as [a b c d e f ss g h]. unfold clone. cbn in *. f_equal. unfold finiteWeights in H. cbn in H.
  induction H as [|s ss Hs _ IH]; [done|]. cbn. f_equal; [|done]. destruct s as [s1 s2 s3 s4 s5 w]. unfold cloneSource. cbn in *. f_equal.
  destruct w as [w|]; [|done]. cbn. unfold cloneWeight. by rewrite Hs.
Qed.

Section Invariant.
Variables (dateParse : string -> option Z) (network : string) (actor : string).

(** A definition whose feed passes the validator's own rules on this network. *)
Definition goodDefinition (defaults : option FeedDefaults) (d : OracleFeedDefinition) : Prop :=
  clean (ownIssues KNOWN_ADAPTERS (isMainnet network) (resolveFeed (default noDefaults defaults) emptyEnv d)).

Lemma validateWith_good r feedId d w : validateWith network r feedId (Some d) = Ok w -> fd_id d = feedId -> feedId ≠ "" -> goodDefinition (rg_defaults r) d.
Proof.
  unfold validateWith. set (report := validateOracleConfig _ _). destruct (0 <? length _)%nat eqn:E; [done|]. intros _ Hid Hne.
  apply Nat.ltb_ge, Nat.le_0_r, nil_length_inv in E. rewrite filter_nil_iff in E.
  apply Forall_forall. intros sc Hsc Hsev. set (f := resolveFeed _ _ _) in Hsc.
  assert (f ∈ resolveFeeds (mkConfigFile (rg_defaults r) (feedSetWith r feedId (Some d))) emptyEnv) as Hf.
  { unfold resolveFeeds, feedSetWith. cbn [cf_defaults cf_feeds]. rewrite map_app. apply elem_of_app. right. apply list_elem_of_here. }
  destruct (feedsIssues_own _ _ _ _ _ Hf Hsc 0 []) as [idx Hin].
  assert (mkIssue sc.1 sc.2 (labelOf f idx) ∈ rp_errors report) as Hr.
  { apply list_elem_of_In, filter_In. split; [|unfold isError; cbn; by rewrite Hsev]. apply in_app_iff. right. by apply list_elem_of_In. }
  specialize (E _ Hr). unfold relevant in E. cbn [is_feed] in E. rewrite labelOf_id in E by (cbn; by rewrite Hid).
  replace (rf_id f) with feedId in E by done. by rewrite bool_decide_eq_true_2 in E.
Qed.

Lemma validateWith_nonempty r feedId w : validateWith network r feedId None = Ok w -> feedSetWith r feedId None ≠ [].
Proof.
  assert (relevant feedId (mkIssue SevError NO_FEEDS "(config)") = true) as Hr.
  { unfold relevant. cbn [is_feed]. rewrite (bool_decide_eq_true_2 ("(config)" = "(config)")) by done. apply orb_true_r. }
  unfold validateWith. intros H E. rewrite E in H.
  change (rp_errors (validateOracleConfig (mkConfigFile (rg_defaults r) []) (mkContext network None None))) with [mkIssue SevError NO_FEEDS "(config)"] in H.
  cbn [List.filter] in H. by rewrite Hr in H.
Qed.

(** * The invariant of the maps *)

Definition defined (r : Registry) (k : string) : Prop := is_Some (jm_get (rg_feeds r) k).

Record FeedsInv (r : Registry) : Prop := {
  fi_nodup : NoDup (jm_keys (rg_feeds r));
  fi_nonempty : rg_feeds r ≠ [];
  fi_record : ∀ k rec, jm_get (rg_feeds r) k = Some rec ->
    fd_id (fr_definition rec) = k ∧ k ≠ "" ∧ finiteWeights (fr_definition rec) ∧ goodDefinition (rg_defaults r) (fr_definition rec) }.

Record ControlsInv (r : Registry) : Prop := {
  ci_pause : ∀ k p, jm_get (rg_pauses r) k = Some p -> defined r k;
  ci_quarantine : ∀ k m s o, jm_get (rg_quarantine r) k = Some m -> jm_get m s = Some o ->
    ∃ rec, jm_get (rg_feeds r) k = Some rec ∧ s ∈ map so_id (fd_sources (fr_definition rec));
  ci_manual : ∀ k o, jm_get (rg_manual r) k = Some o ->
    defined r k ∧ isFinite (mo_value o) = true ∧ ∃ e, dateParse (mo_expiresAt o) = Some e ∧ e <= mo_at o + MAX_MANUAL_OVERRIDE_MS }.

Definition schemaOk (op : Operation) : Prop :=
  match op with OpUpsert _ d _ => fd_id d ≠ "" ∧ finiteWeights d | _ => True end.

Lemma setFeed_inv r id rec : FeedsInv r -> fd_id (fr_definition rec) = id -> id ≠ "" -> finiteWeights (fr_definition rec) ->
  goodDefinition (rg_defaults r) (fr_definition rec) -> FeedsInv (setFeed id rec r).
Proof.
  intros [H1 H2 H3] Hid Hne Hf Hg. constructor; cbn.
  - by apply jm_set_NoDup.
  - destruct (rg_feeds r) as [|[k v] l]; [done|]. cbn. by destruct (decide (id = k)).
  - intros k rec'. rewrite jm_get_set. destruct (decide (id = k)) as [<- | Hn]; [intros [= <-]; done|apply H3].
Qed.
Lemma FeedsInv_same r r' : rg_feeds r' = rg_feeds r -> rg_defaults r' = rg_defaults r -> FeedsInv r -> FeedsInv r'.
Proof. intros E1 E2 [H1 H2 H3]. constructor; rewrite ?E1, ?E2; done. Qed.

Lemma jm_delete_filter {V} (m : list (string * V)) k : jm_delete m k = List.filter (fun kv => negb (bool_decide (kv.1 = k))) m.
Proof.
  unfold jm_delete. induction m as [|[k' v] m IH]; [done|]. rewrite filter_cons. cbn.
  destruct (bool_decide_reflect (k' = k)) as [-> | Hn]; [rewrite decide_False by (intros []; done)|rewrite decide_True by done]; cbn; by rewrite IH.
Qed.

Lemma deleteFeed_inv r r' id e w : deleteFeed network r id e = Ok (r', w) -> FeedsInv r -> FeedsInv r'.
Proof.
  unfold deleteFeed. intros (rec & _ & (_ & _ & (w' & Hv & [= <- _])%res_bind_Ok)%res_bind_Ok)%res_bind_Ok [H1 H2 H3]. constructor; cbn.
  - by apply jm_delete_NoDup.
  - apply validateWith_nonempty in Hv. unfold feedSetWith in Hv. rewrite app_nil_r, <- jm_delete_filter in Hv. intros E. by rewrite E in Hv.
  - intros k rec'. rewrite jm_get_delete. destruct (decide (id = k)); [done|apply H3].
Qed.

Lemma dropStale_feeds id ids r : rg_feeds (dropStaleOverrides id ids r) = rg_feeds r ∧ rg_defaults (dropStaleOverrides id ids r) = rg_defaults r
  ∧ rg_pauses (dropStaleOverrides id ids r) = rg_pauses r ∧ rg_manual (dropStaleOverrides id ids r) = rg_manual r.
Proof. unfold dropStaleOverrides. by destruct (jm_get (rg_quarantine r) id). Qed.

(** What an accepted upsert stores. *)
Lemma upsertFeed_inv r id d e now r' a w : upsertFeed network actor r id d e now = Ok (r', a, w) ->
  fd_id d = id ∧ validateWith network r id (Some d) = Ok w
  ∧ ∃ rec c, fr_definition rec = clone d ∧ fr_revision rec = default 0 (fr_revision <$> jm_get (rg_feeds r) id) + 1
    ∧ r' = dropStaleOverrides id (map so_id (fd_sources d)) (audit c (setFeed id rec r)).
Proof.
  unfold upsertFeed. intros ([] & Hid & (_ & _ & (w' & Hv & H)%res_bind_Ok)%res_bind_Ok)%res_bind_Ok. simplify_eq.
  unfold guard_res in Hid. destruct (bool_decide_reflect (fd_id d = id)) as [E|]; [|done]. split_and!; [done|done|]. eexists _, _. split_and!; [| |done]; done.
Qed.

Lemma updateQuorum_inv r id c e now r' w : updateQuorum network actor r id c e now = Ok (r', w) ->
  ∃ old rec ch, jm_get (rg_feeds r) id = Some old ∧ fr_definition rec = withQuorum c (fr_definition old) ∧ fr_revision rec = fr_revision old + 1
    ∧ validateWith network r id (Some (fr_definition rec)) = Ok w ∧ r' = audit ch (setFeed id rec r).
Proof.
  unfold updateQuorum. intros (old & Hr & (_ & _ & (_ & _ & (w' & Hv & H)%res_bind_Ok)%res_bind_Ok)%res_bind_Ok)%res_bind_Ok. simplify_eq.
  unfold require in Hr. destruct (jm_get (rg_feeds r) id) as [o|]; [|done]. injection Hr as ->. eexists old, _, _. split_and!; [done| | | |done]; done.
Qed.

Lemma clone_ids d : map so_id (fd_sources (clone d)) = map so_id (fd_sources d).
Proof. cbn. rewrite map_map. by apply map_ext. Qed.

Lemma require_Ok r id rec : require r id = Ok rec -> jm_get (rg_feeds r) id = Some rec.
Proof. unfold require. by destruct (jm_get (rg_feeds r) id) as [o|]; [intros [= ->]|]. Qed.

(** The feed maps of the operations on controls. *)
Lemma applyOp_feeds r op now r' : applyOp dateParse network actor r op now = Ok r' ->
  match op with OpUpsert _ _ _ | OpDelete _ _ | OpQuorum _ _ _ => True | _ => rg_feeds r' = rg_feeds r ∧ rg_defaults r' = rg_defaults r end.
Proof.
  destruct op as [| | |id reason|id reason|id s a reason e|id s|id v reason e|id]; cbn [applyOp]; try done.
  - by intros (_ & _ & [= <-])%res_bind_Ok.
  - by intros (_ & _ & [= <-])%res_bind_Ok.
  - by intros (_ & _ & (_ & _ & (_ & _ & [= <-])%res_bind_Ok)%res_bind_Ok)%res_bind_Ok.
  - intros (_ & _ & H)%res_bind_Ok. cbv zeta in H. by case_match; [injection H as <-|].
  - intros (_ & _ & (_ & _ & H)%res_bind_Ok)%res_bind_Ok. destruct (dateParse e); [|done].
    apply res_bind_Ok in H as (_ & _ & (_ & _ & H)%res_bind_Ok). by destruct (toISOString _); [injection H as <-|].
  - intros (_ & _ & H)%res_bind_Ok. by case_match; [injection H as <-|].
Qed.

Lemma applyOp_FeedsInv r op now r' : applyOp dateParse network actor r op now = Ok r' -> schemaOk op -> FeedsInv r -> FeedsInv r'.
Proof.
  intros Ha Hs Hi. pose proof (applyOp_feeds _ _ _ _ Ha) as Hsame.
  destruct op as [id d e|id e|id c e| | | | | |]; try (by destruct Hsame; eapply FeedsInv_same).
  - apply res_bind_Ok in Ha as ([[r1 a] w] & Hu & [= <-]). destruct (upsertFeed_inv _ _ _ _ _ _ _ _ Hu) as (Hid & Hv & rec & ch & Hd & _ & ->).
    destruct Hs as [Hne Hfin]. rewrite (clone_finite _ Hfin) in Hd. apply (FeedsInv_same (audit ch (setFeed id rec r))); [apply dropStale_feeds|apply dropStale_feeds|].
    apply (FeedsInv_same (setFeed id rec r)); [done|done|].
    rewrite Hid in Hne. apply setFeed_inv; rewrite ?Hd; try done. by eapply validateWith_good.
  - apply res_bind_Ok in Ha as ([r1 w] & Hd & [= <-]). by eapply deleteFeed_inv.
  - apply res_bind_Ok in Ha as ([r1 w] & Hu & [= <-]). destruct (updateQuorum_inv _ _ _ _ _ _ _ Hu) as (old & rec & ch & Ho & Hd & _ & Hv & ->).
    destruct (fi_record _ Hi _ _ Ho) as (Hid & Hne & Hfin & _). apply (FeedsInv_same (setFeed id rec r)); [done|done|].
    assert (fd_id (fr_definition rec) = id) as Hid' by (by rewrite Hd).
    apply setFeed_inv; [done|done|done| |by eapply validateWith_good]. rewrite Hd. unfold finiteWeights, withQuorum. cbn [fd_sources]. by rewrite clone_finite.
Qed.
(** * The controls *)

Lemma defined_setFeed r id rec k : defined r k -> defined (setFeed id rec r) k.
Proof. unfold defined. cbn. rewrite jm_get_set. by destruct (decide (id = k)). Qed.

(** Replacing a definition keeps the controls in their scope when the sources with an override stay. *)
Lemma setFeed_controls r id rec c :
  ControlsInv r -> (∀ m s o, jm_get (rg_quarantine r) id = Some m -> jm_get m s = Some o -> s ∈ map so_id (fd_sources (fr_definition rec))) ->
  ControlsInv (audit c (setFeed id rec r)).
Proof.
  intros [H1 H2 H3] Hq. constructor; cbn.
  - intros k p Hp. apply (defined_setFeed r id rec k). by eapply H1.
  - intros k m s o Hm Ho. rewrite jm_get_set. destruct (decide (id = k)) as [-> | Hn]; [|by eapply H2]. exists rec. split; [done|]. by eapply Hq.
  - intros k o Ho. destruct (H3 k o Ho) as [Hd Hr]. split; [by apply (defined_setFeed r id rec k)|done].
Qed.

Lemma upsertFeed_controls r id rec c d : fr_definition rec = clone d -> ControlsInv r ->
  ControlsInv (dropStaleOverrides id (map so_id (fd_sources d)) (audit c (setFeed id rec r))).
Proof.
  intros Hd [H1 H2 H3]. destruct (dropStale_feeds id (map so_id (fd_sources d)) (audit c (setFeed id rec r))) as (E1 & E2 & E3 & E4).
  constructor; unfold defined; rewrite ?E1, ?E3, ?E4; cbn.
  - intros k p Hp. apply (defined_setFeed r id rec k). by eapply H1.
  - intros k m s o. unfold dropStaleOverrides. cbn. destruct (jm_get (rg_quarantine r) id) as [m0|] eqn:Em; cbn; rewrite jm_get_set.
    + rewrite jm_get_set. destruct (decide (id = k)) as [-> | Hn]; [|intros Hm Ho; by eapply H2].
      intros [= <-] Ho. exists rec. split; [done|]. rewrite Hd, clone_ids. apply jm_get_Some_in, list_elem_of_filter in Ho. apply Ho.
    + intros Hm Ho. destruct (decide (id = k)) as [-> | Hn]; [congruence|]. by eapply H2.
  - intros k o Ho. destruct (H3 k o Ho) as [Hdf Hr]. split; [by apply (defined_setFeed r id rec k)|done].
Qed.

Lemma setPause_controls r id b reason now rec : jm_get (rg_feeds r) id = Some rec -> ControlsInv r -> ControlsInv (setPause actor r id b reason now).
Proof.
  intros Hr [H1 H2 H3]. constructor; cbn; [|done|done]. intros k p.
  rewrite jm_get_set. destruct (decide (id = k)) as [<- | Hn]; [by exists rec|apply H1].
Qed.

Lemma deleteFeed_controls r r' id e w : deleteFeed network r id e = Ok (r', w) -> ControlsInv r -> ControlsInv r'.
Proof.
  unfold deleteFeed. intros (rec & _ & (_ & _ & (w' & _ & [= <- _])%res_bind_Ok)%res_bind_Ok)%res_bind_Ok [H1 H2 H3].
  constructor; cbn; unfold defined; cbn; intros k; rewrite !jm_get_delete; destruct (decide (id = k)); try done; naive_solver.
Qed.

Lemma setQuarantine_controls r id sid next c rec : ControlsInv r -> jm_get (rg_feeds r) id = Some rec -> sid ∈ map so_id (fd_sources (fr_definition rec)) ->
  ControlsInv (audit c (setQuarantine id (jm_set (default [] (jm_get (rg_quarantine r) id)) sid next) r)).
Proof.
  intros [H1 H2 H3] Hr Hs. constructor; cbn; [done| |done]. intros k m s o. rewrite jm_get_set.
  destruct (decide (id = k)) as [-> | Hn]; [|apply H2]. intros [= <-]. rewrite jm_get_set.
  destruct (decide (sid = s)) as [<- | Hn]; [by exists rec|]. destruct (jm_get (rg_quarantine r) k) as [m0|] eqn:Em; cbn; [|done]. by apply H2.
Qed.

Lemma clearQuarantine_controls r id sid c : ControlsInv r ->
  ControlsInv (audit c (setQuarantine id (jm_delete (default [] (jm_get (rg_quarantine r) id)) sid) r)).
Proof.
  intros [H1 H2 H3]. constructor; cbn; [done| |done]. intros k m s o. rewrite jm_get_set.
  destruct (decide (id = k)) as [-> | Hn]; [|apply H2]. intros [= <-]. rewrite jm_get_delete.
  destruct (decide (sid = s)) as [<- | Hn]; [done|]. destruct (jm_get (rg_quarantine r) k) as [m0|] eqn:Em; cbn; [|done]. by apply H2.
Qed.

(** [Date.parse] reads back what [toISOString] prints. *)
Hypothesis readsIso : ∀ ms text, toISOString ms = Ok text -> dateParse text = Some ms.

Lemma setManualOverride_controls r id v reason e now r' : now 1%nat <= now 2%nat ->
  setManualOverride dateParse actor r id v reason e now = Ok r' -> ControlsInv r -> ControlsInv r'.
Proof.
  unfold setManualOverride. intros Hnow (rec & Hr & ([] & Hv & H)%res_bind_Ok)%res_bind_Ok [H1 H2 H3].
  destruct (dateParse e) as [ms|]; [|done]. apply res_bind_Ok in H as (_ & _ & ([] & Hlim & H)%res_bind_Ok).
  destruct (toISOString ms) as [text|] eqn:Et; [|done]. injection H as <-. constructor; cbn; [done|done|]. intros k o. rewrite jm_get_set.
  destruct (decide (id = k)) as [<- | Hn]; [|apply H3]. intros [= <-]. cbn. split_and!.
  - exists rec. by apply require_Ok.
  - unfold guard_res in Hv. by destruct (isFinite v).
  - exists ms. split; [by apply readsIso|]. unfold guard_res in Hlim. destruct (ms - now 1%nat <=? MAX_MANUAL_OVERRIDE_MS) eqn:E; [lia|done].
Qed.

Lemma applyOp_ControlsInv r op now r' : now 1%nat <= now 2%nat -> applyOp dateParse network actor r op now = Ok r' -> ControlsInv r -> ControlsInv r'.
Proof.
  intros Hnow Ha Hi. destruct op as [id d e|id e|id c e|id reason|id reason|id s a reason e|id s|id v reason e|id]; cbn [applyOp] in Ha.
  - apply res_bind_Ok in Ha as ([[r1 a] w] & Hu & [= <-]). destruct (upsertFeed_inv _ _ _ _ _ _ _ _ Hu) as (_ & _ & rec & ch & Hd & _ & ->).
    by apply upsertFeed_controls.
  - apply res_bind_Ok in Ha as ([r1 w] & Hd & [= <-]). by eapply deleteFeed_controls.
  - apply res_bind_Ok in Ha as ([r1 w] & Hu & [= <-]). destruct (updateQuorum_inv _ _ _ _ _ _ _ Hu) as (old & rec & ch & Ho & Hd & _ & _ & ->).
    apply setFeed_controls; [done|]. intros m s o Hm Hs. destruct (ci_quarantine _ Hi _ _ _ _ Hm Hs) as (rec' & Hr & Hin).
    rewrite Ho in Hr. injection Hr as <-. rewrite Hd. unfold withQuorum. cbn [fd_sources]. by rewrite clone_ids.
  - apply res_bind_Ok in Ha as (rec & Hr%require_Ok & [= <-]). by eapply setPause_controls.
  - apply res_bind_Ok in Ha as (rec & Hr%require_Ok & [= <-]). by eapply setPause_controls.
  - apply res_bind_Ok in Ha as (rec & Hr%require_Ok & ([] & Hs & (_ & _ & [= <-])%res_bind_Ok)%res_bind_Ok).
    apply setQuarantine_controls with rec; [done|done|]. unfold guard_res in Hs. destruct (existsb _ _) eqn:E; [|done].
    apply existsb_exists in E as (x & Hx & Hb%bool_decide_eq_true). apply list_elem_of_In, in_map_iff. by exists x.
  - apply res_bind_Ok in Ha as (rec & _ & H). cbv zeta in H. case_match; [|done]. injection H as <-. by apply clearQuarantine_controls.
  - by eapply setManualOverride_controls.
  - apply res_bind_Ok in Ha as (rec & _ & H). case_match; [|done]. injection H as <-. destruct Hi as [H1 H2 H3]. constructor; cbn; [done|done|].
    intros k o. rewrite jm_get_delete. destruct (decide (id = k)); [done|apply H3].
Qed.
(** * Runs *)

Lemma runOps_ind (P : Registry -> Prop) (good : Operation * (nat -> Z) -> Prop) r ops :
  (∀ r op now r', good (op, now) -> applyOp dateParse network actor r op now = Ok r' -> P r -> P r') ->
  Forall good ops -> P r -> P (runOps dateParse network actor r ops).
Proof.
  intros Hstep Hg. revert r. induction Hg as [|[op now] ops Hop _ IH]; intros r Hr; [done|]. cbn. apply IH. unfold stepOp.
  destruct (applyOp dateParse network actor r op now) as [r'|] eqn:E; [|done]. by eapply Hstep.
Qed.

Definition newFeeds (now : Z) (feeds : list OracleFeedDefinition) (m : list (string * FeedRecord)) : list (string * FeedRecord) :=
  foldl (fun m f => jm_set m (fd_id f) (mkFeedRecord (clone f) 1 "config" now)) m feeds.

Lemma newFeeds_get now feeds : forall m k rec, jm_get (newFeeds now feeds m) k = Some rec ->
  jm_get m k = Some rec ∨ ∃ f, f ∈ feeds ∧ fd_id f = k ∧ fr_definition rec = clone f.
Proof.
  induction feeds as [|f feeds IH]; intros m k rec H; [by left|]. cbn in H. destruct (IH _ _ _ H) as [Hm|(g & Hg & Hr)].
  - rewrite jm_get_set in Hm. destruct (decide (fd_id f = k)) as [<- | Hn]; [|by left]. injection Hm as <-. right. exists f. split; [apply list_elem_of_here|done].
  - right. exists g. split; [by apply list_elem_of_further|done].
Qed.

Lemma newFeeds_NoDup now feeds : forall m, NoDup (jm_keys m) -> NoDup (jm_keys (newFeeds now feeds m)).
Proof. induction feeds as [|f feeds IH]; intros m Hm; [done|]. cbn. by apply IH, jm_set_NoDup. Qed.

Lemma newFeeds_nonempty now feeds m : feeds ≠ [] ∨ m ≠ [] -> newFeeds now feeds m ≠ [].
Proof.
  revert m. induction feeds as [|f feeds IH]; intros m H; [by destruct H|]. cbn. apply IH. right.
  destruct m as [|[k v] m]; [done|]. cbn. by destruct (decide (fd_id f = k)).
Qed.

Lemma newRegistry_inv config now : rp_errors (validateOracleConfig config (mkContext network None None)) = [] ->
  Forall (fun d => fd_id d ≠ "" ∧ finiteWeights d) (cf_feeds config) -> FeedsInv (newRegistry config now).
Proof.
  rewrite validate_noErrors. intros (Hne & _ & Hc) Hs. rewrite Forall_forall in Hs. cbn in Hne, Hc. constructor.
  - apply newFeeds_NoDup. constructor.
  - apply newFeeds_nonempty. left. intros E. apply Hne. unfold resolveFeeds. by rewrite E.
  - intros k rec Hk. apply newFeeds_get in Hk as [Hk|(f & Hf & <- & Hd)]; [done|]. destruct (Hs f Hf) as [Hid Hfin].
    rewrite Hd, (clone_finite _ Hfin). split_and!; [done|done|done|]. rewrite Forall_forall in Hc. apply Hc.
    apply list_elem_of_In, in_map_iff. exists f. split; [done|]. by apply list_elem_of_In.
Qed.

(** The environment reaches an error only through a negative publish interval. *)
Lemma goodDefinition_env defaults d env : 0 <= envPublishInterval env -> goodDefinition defaults d ->
  clean (ownIssues KNOWN_ADAPTERS (isMainnet network) (resolveFeed (default noDefaults defaults) env d)).
Proof.
  unfold goodDefinition, ownIssues. rewrite !clean_app, !timingIssues_clean, !sourceIssues_clean. intros He H. split_and!; try apply H.
  assert (0 <= rf_publishMinIntervalMs (resolveFeed (default noDefaults defaults) emptyEnv d)) as Hp by apply H. revert Hp. clear H.
  unfold resolveFeed. cbn [rf_publishMinIntervalMs].
  destruct (orElse (fd_publish d ≫= pd_minIntervalMs) (de_publish (default noDefaults defaults) ≫= pd_minIntervalMs)); cbn [from_option]; auto.
Qed.

Definition currentConfig (r : Registry) : OracleConfigFile := mkConfigFile (rg_defaults r) (map (fun kv => fr_definition kv.2) (rg_feeds r)).

Lemma FeedsInv_ids r : FeedsInv r -> map (fun kv => fd_id (fr_definition kv.2)) (rg_feeds r) = jm_keys (rg_feeds r).
Proof.
  intros [H1 _ H3]. apply map_ext_in. intros [k rec] Hin%list_elem_of_In. by apply (H3 k rec), jm_in_get.
Qed.

Lemma FeedsInv_valid r env : FeedsInv r -> 0 <= envPublishInterval env ->
  rp_errors (validateOracleConfig (currentConfig r) (mkContext network None (Some env))) = [].
Proof.
  intros Hi He. rewrite validate_noErrors. cbn. unfold resolveFeeds. cbn. rewrite !map_map. cbn. split_and!.
  - intros E. apply map_eq_nil in E. by apply (fi_nonempty _ Hi).
  - rewrite (FeedsInv_ids r Hi). apply Hi.
  - apply Forall_forall. intros f ([k rec] & <- & Hin%list_elem_of_In)%list_elem_of_In%in_map_iff.
    apply goodDefinition_env; [done|]. apply (fi_record _ Hi k rec). apply jm_in_get; [apply Hi|done].
Qed.
End Invariant.

(** C32: A registry built from a configuration that the validator accepts, with feed ids that are not empty and finite source
    weights, changed by any sequence of operator requests whose definitions passed the request schema and have finite
    weights, always holds a configuration the process would start with: the validator reports no error for the whole feed
    set, in every environment whose publish interval is not negative.  This holds although an accepted change is checked only
    against the issues of the edited feed.  Both conditions are needed: [infinite_weight_stored_invalid] and
    [registry_accepts_unbootable] are the counterexamples without them. *)
Theorem registry_stays_bootable dateParse network actor config start ops env :
  rp_errors (validateOracleConfig config (mkContext network None None)) = [] ->
  Forall (fun d => fd_id d ≠ "" ∧ finiteWeights d) (cf_feeds config) ->
  Forall (fun op => schemaOk op.1) ops ->
  0 <= envPublishInterval env ->
  rp_errors (validateOracleConfig (currentConfig (runOps dateParse network actor (newRegistry config start) ops)) (mkContext network None (Some env))) = [].
Proof.
  intros Hv Hs Hops He. apply FeedsInv_valid; [|done].
  apply (runOps_ind dateParse network actor (FeedsInv network) (fun op => schemaOk op.1)); [|done|by apply newRegistry_inv].
  intros r op now r' Hop Ha. by eapply applyOp_FeedsInv.
Qed.

Definition demoUpsert : OracleFeedDefinition :=
  mkFeedDef "crash" "MarketCrash" (Some "weighted_quorum") None None (Some (mkQuorumDef 2 None))
    [demoSource "a" "coingecko" (Some 1%float); demoSource "b" "defillama" (Some 1%float)] None None.
Definition demoOps : list (Operation * (nat -> Z)) :=
  map (fun op => (op, fun _ => 5000))
    [OpUpsert "crash" demoUpsert None; OpPause "crash" "incident"; OpQuorum "depeg" (mkQuorumUpdate None 3 None) (Some 1);
     OpSetQuarantine "depeg" "a" DoQuarantine "stale" None; OpDelete "crash" (Some 1); OpDelete "depeg" None].

Lemma registry_stays_bootable_witness :
  let r := runOps (fun _ => None) "mainnet" "op" (newRegistry demoConfig 0) demoOps in
  map (fun kv => fr_revision kv.2) (rg_feeds r) = [2]
  ∧ rp_errors (validateOracleConfig (currentConfig r) (mkContext "mainnet" None (Some emptyEnv))) = [].
Proof.
  split; [vm_compute; reflexivity|].
  apply registry_stays_bootable; [vm_compute; reflexivity|repeat constructor; discriminate|repeat constructor; discriminate|vm_compute; discriminate].
Defined.

(** Along any sequence of operator requests, pauses and overrides belong to feeds that exist, a quarantine override names a
    source of its feed's current definition, and a manual override that is in force was set less than 24 hours before and has a
    finite value. *)
Theorem controls_scoped_and_bounded dateParse network actor config start ops :
  (∀ ms text, toISOString ms = Ok text -> dateParse text = Some ms) ->
  Forall (fun op => op.2 1%nat <= op.2 2%nat) ops ->
  let r := runOps dateParse network actor (newRegistry config start) ops in
  (∀ k, isPaused r k = true -> is_Some (jm_get (rg_feeds r) k))
  ∧ (∀ k s now o, quarantineOverride dateParse r k s now = Some o ->
      ∃ rec, jm_get (rg_feeds r) k = Some rec ∧ s ∈ map so_id (fd_sources (fr_definition rec)))
  ∧ (∀ k now o, activeManualOverride dateParse r k now = Some o ->
      is_Some (jm_get (rg_feeds r) k) ∧ isFinite (mo_value o) = true ∧ now < mo_at o + MAX_MANUAL_OVERRIDE_MS).
Proof.
  intros Hp Hops r. assert (ControlsInv dateParse r) as [H1 H2 H3].
  { apply (runOps_ind dateParse network actor (ControlsInv dateParse) (fun op => op.2 1%nat <= op.2 2%nat)); [|done|by constructor].
    intros r0 op now r' Hnow Ha. by eapply applyOp_ControlsInv. }
  split_and!.
  - intros k Hk. unfold isPaused in Hk. destruct (jm_get (rg_pauses r) k) as [p|] eqn:E; [by eapply H1|done].
  - intros k s now o. unfold quarantineOverride. destruct (jm_get (rg_quarantine r) k) as [m|] eqn:Em; cbn; [|done].
    destruct (jm_get m s) as [o'|] eqn:Es; [|done]. intros _. by eapply H2.
  - intros k now o. unfold activeManualOverride. destruct (jm_get (rg_manual r) k) as [o'|] eqn:Em; [|done].
    destruct (H3 k o' Em) as (Hd & Hf & e & He & Hle). unfold expired. rewrite He. destruct (e <=? now) eqn:E; [done|]. intros [= <-].
    split_and!; [done|done|lia].
Qed.

Definition demoControls (now : Z) : list (Operation * (nat -> Z)) :=
  [(OpSetManual "depeg" 0.9375%float "incident" "1970-01-01T01:00:00.000Z", fun _ => now); (OpPause "depeg" "incident", fun _ => now);
   (OpSetQuarantine "depeg" "b" DoQuarantine "stale" None, fun _ => now)].

Lemma controls_scoped_and_bounded_witness :
  let r := runOps parseIso "mainnet" "op" (newRegistry demoConfig 0) (demoControls 5000) in
  mo_at <$> activeManualOverride parseIso r "depeg" 10000 = Some 5000
  ∧ activeManualOverride parseIso r "depeg" 3600000 = None
  ∧ isPaused r "depeg" = true ∧ is_Some (quarantineOverride parseIso r "depeg" "b" 0)
  ∧ ∀ o now, activeManualOverride parseIso r "depeg" now = Some o -> now < mo_at o + MAX_MANUAL_OVERRIDE_MS.
Proof.
  cbv zeta. split_and!; [vm_compute; reflexivity|vm_compute; reflexivity|vm_compute; reflexivity|eexists; vm_compute; reflexivity|]. intros o now.
  apply (controls_scoped_and_bounded parseIso "mainnet" "op" demoConfig 0 (demoControls 5000) parseIso_toISOString);
    repeat constructor; cbn; lia.
Defined.

(** * Behaviours that differ from the documentation *)

(** An infinite weight passes the validation, where its share is NaN, and is stored as [null]: the stored set is invalid. *)
Definition infiniteUpsert : OracleFeedDefinition :=
  mkFeedDef "crash" "MarketCrash" (Some "weighted_quorum") None None (Some (mkQuorumDef 2 None))
    [demoSource "a" "coingecko" (Some infinity); demoSource "b" "defillama" (Some 1%float)] None None.
Lemma infinite_weight_stored_invalid :
  let r := runOps parseIso "mainnet" "op" (newRegistry demoConfig 0) [(OpUpsert "crash" infiniteUpsert None, fun _ => 5000)] in
  map is_code (rp_errors (validateOracleConfig (currentConfig r) (mkContext "mainnet" None None))) = [MISSING_SOURCE_WEIGHT].
Proof. vm_compute. reflexivity. Qed.

(** A feed without a publish interval of its own is accepted while the environment's interval is negative. *)
Definition ownIntervalConfig : OracleConfigFile :=
  mkConfigFile None [mkFeedDef "depeg" "StablecoinDepeg" (Some "median_quorum") None None (Some (mkQuorumDef 2 None))
    [demoSource "a" "coingecko" None; demoSource "b" "defillama" None] (Some (mkPublishDef None (Some 1000))) None].
Definition negativeEnv : ConfigEnv := mkConfigEnv None (Some "-5") None None None None.
Lemma registry_accepts_unbootable :
  let ctx := mkContext "mainnet" None (Some negativeEnv) in
  let r := runOps parseIso "mainnet" "op" (newRegistry ownIntervalConfig 0) [(OpUpsert "crash" demoUpsert None, fun _ => 5000)] in
  rp_errors (validateOracleConfig ownIntervalConfig ctx) = []
  ∧ map is_code (rp_errors (validateOracleConfig (currentConfig r) ctx)) = [PUBLISH_INTERVAL_NEGATIVE].
Proof. vm_compute. split; reflexivity. Qed.

(** An expiry that does not parse is accepted and never expires. *)
Lemma unparsed_expiry_never_expires r feed source rec reason e now :
  jm_get (rg_feeds r) feed = Some rec -> source ∈ map so_id (fd_sources (fr_definition rec)) -> parseIso e = None ->
  ∃ r', setQuarantineOverride parseIso "op" r feed source DoQuarantine reason (Some e) now = Ok r'
    ∧ ∀ later, is_Some (quarantineOverride parseIso r' feed source later).
Proof.
  intros Hr Hs He. unfold setQuarantineOverride, require. rewrite Hr. cbn -[jm_set jm_get]. unfold expired. rewrite He, orb_true_r.
  apply list_elem_of_In, in_map_iff in Hs as (x & Hx & Hin).
  assert (existsb (fun s => bool_decide (so_id s = source)) (fd_sources (fr_definition rec)) = true) as ->.
  { apply existsb_exists. exists x. split; [done|]. by apply bool_decide_eq_true. }
  cbn -[jm_set jm_get]. eexists. split; [done|]. intros later. unfold quarantineOverride. cbn -[jm_set jm_get]. rewrite jm_get_set_eq. cbn -[jm_set jm_get].
  rewrite jm_get_set_eq. cbn -[jm_set jm_get]. unfold expired. rewrite He, andb_false_r. by eexists.
Qed.

(** After a deletion the revisions start again, so an edit prepared for the deleted feed is taken for the new one. *)
Lemma recreated_feed_reuses_revisions :
  let now := fun _ : nat => 5000 in
  let ops := [(OpUpsert "crash" demoUpsert None, now); (OpDelete "crash" (Some 1), now); (OpUpsert "crash" demoUpsert None, now)] in
  let r := runOps parseIso "mainnet" "op" (newRegistry demoConfig 0) ops in
  is_ok (applyOp parseIso "mainnet" "op" r (OpQuorum "crash" (mkQuorumUpdate (Some "median_quorum") 2 None) (Some 1)) now) = true.
Proof. vm_compute. reflexivity. Qed.
