(* ===== verification/RecoveryGate.v ===== *)
(** The payout admission gate of the oracle (src/oracle/oracle-recovery-gate.ts): a breaker per
    coverage type that, after a trip and a cooldown, admits healthy readings as canaries and
    returns to publishing after a sustained corroborated interval.

    Times and durations are milliseconds; a number of peers that is not an integer is [None]. *)

From stdpp Require Import base list strings sorting.
From Stdlib Require Import ZArith Lia.
From S2P Require Import Prelude.

#[local] Open Scope Z_scope.

Inductive OracleAdmission := Publish | Canary | Hold.
#[global] Instance OracleAdmission_eq : EqDecision OracleAdmission.
Proof. solve_decision. Defined.
Inductive Severity := Low | Medium | High | Triggered.
#[global] Instance Severity_eq : EqDecision Severity.
Proof. solve_decision. Defined.

(** What the gate reads of an [OracleReading]. *)
Record GateReading := mkGateReading { gr_coverageType : string; gr_severity : Severity; gr_degraded : bool }.

Record OracleRecoveryConfig := mkRecoveryConfig {
  rc_cooldownMs : Z; rc_healthyReadingsToGraduate : Z; rc_minimumCanaryDurationMs : Z; rc_minimumCorroboratingPeers : Z }.
Definition DEFAULT_CONFIG : OracleRecoveryConfig := mkRecoveryConfig 60000 5 (5 * 60000) 2.
Definition validConfig (c : OracleRecoveryConfig) : bool :=
  (2 <=? rc_healthyReadingsToGraduate c) && (1 <=? rc_minimumCorroboratingPeers c) && (0 <=? rc_cooldownMs c) && (0 <=? rc_minimumCanaryDurationMs c).

Inductive Mode := Normal | Open | InCanary.
Record CoverageRecoveryState := mkRecoveryState {
  st_mode : Mode; st_resumeAt : Z; st_canaryStartedAt : Z; st_healthyReadings : Z; st_lastCanaryReadingAt : Z; st_reason : option string }.
Definition Gate : Type := list (string * CoverageRecoveryState).

Definition freshState : CoverageRecoveryState := mkRecoveryState Normal 0 0 0 0 None.
Definition stateFor (g : Gate) (coverageType : string) : CoverageRecoveryState := default freshState (jm_get g coverageType).

Section Gate.
Variable config : OracleRecoveryConfig.

Definition trippedState (reason : string) (now : Z) : CoverageRecoveryState := mkRecoveryState Open (now + rc_cooldownMs config) 0 0 0 (Some reason).
Definition trip (g : Gate) (coverageType reason : string) (now : Z) : Gate := jm_set g coverageType (trippedState reason now).

Definition unhealthy (r : GateReading) : bool := bool_decide (gr_severity r = Triggered) || gr_degraded r.
Definition corroborated (peers : option Z) : bool := match peers with Some p => rc_minimumCorroboratingPeers config <=? p | None => false end.

(** One reading on the state of its coverage type. *)
Definition admitState (s : CoverageRecoveryState) (r : GateReading) (peers : option Z) (now : Z) : OracleAdmission * CoverageRecoveryState :=
  if unhealthy r then (Hold, trippedState (if gr_degraded r then "degraded reading" else "triggered reading") now)
  else match st_mode s with
    | Normal => (if corroborated peers then Publish else Hold, s)
    | Open =>
        if (now <? st_resumeAt s) || negb (corroborated peers) then (Hold, s)
        else (Canary, mkRecoveryState InCanary (st_resumeAt s) now 1 now (st_reason s))
    | InCanary =>
        if negb (corroborated peers) || (now <=? st_lastCanaryReadingAt s) then (Hold, trippedState "canary corroboration lost" now)
        else
          let n := st_healthyReadings s + 1 in
          if (rc_healthyReadingsToGraduate config <=? n) && (rc_minimumCanaryDurationMs config <=? now - st_canaryStartedAt s)
          then (Canary, mkRecoveryState Normal (st_resumeAt s) (st_canaryStartedAt s) 0 now None)
          else (Canary, mkRecoveryState InCanary (st_resumeAt s) (st_canaryStartedAt s) n now (st_reason s))
    end.

Definition admit_ (g : Gate) (r : GateReading) (peers : option Z) (now : Z) : OracleAdmission * Gate :=
  let '(a, s) := admitState (stateFor g (gr_coverageType r)) r peers now in (a, jm_set g (gr_coverageType r) s).

(** * Runs *)

Inductive GateEvent :=
| EvTrip (coverageType reason : string) (now : Z)
| EvReading (r : GateReading) (peers : option Z) (now : Z).

Definition gateStep (g : Gate) (e : GateEvent) : option OracleAdmission * Gate :=
  match e with
  | EvTrip c reason now => (None, trip g c reason now)
  | EvReading r peers now => let '(a, g') := admit_ g r peers now in (Some a, g')
  end.
Definition gateAfter (g : Gate) (es : list GateEvent) : Gate := foldl (fun g e => (gateStep g e).2) g es.
Definition answer (g : Gate) (e : GateEvent) : option OracleAdmission := (gateStep g e).1.

Definition eventCoverage (e : GateEvent) : string := match e with EvTrip c _ _ => c | EvReading r _ _ => gr_coverageType r end.
Definition eventTime (e : GateEvent) : Z := match e with EvTrip _ _ now | EvReading _ _ now => now end.
(** An explicit trip, or a reading that is triggered or degraded. *)
Definition trips (e : GateEvent) : bool := match e with EvTrip _ _ _ => true | EvReading r _ _ => unhealthy r end.
(** The time of a healthy, corroborated reading of a coverage type. *)
Definition healthyTime (c : string) (e : GateEvent) : option Z :=
  match e with
  | EvReading r peers now => if bool_decide (gr_coverageType r = c) && negb (unhealthy r) && corroborated peers then Some now else None
  | EvTrip _ _ _ => None
  end.

(** * One coverage type at a time *)

Definition stepState (s : CoverageRecoveryState) (e : GateEvent) : CoverageRecoveryState :=
  match e with EvTrip _ reason now => trippedState reason now | EvReading r peers now => (admitState s r peers now).2 end.

Lemma stateFor_set g k s c : stateFor (jm_set g k s) c = if decide (k = c) then s else stateFor g c.
Proof. unfold stateFor. rewrite jm_get_set. by destruct (decide (k = c)). Qed.

(** An event acts on its own coverage type only. *)
Lemma stateFor_step g e c : stateFor (gateStep g e).2 c = if decide (eventCoverage e = c) then stepState (stateFor g c) e else stateFor g c.
Proof.
  destruct e as [k reason now|r peers now]; cbn [gateStep eventCoverage stepState].
  - apply stateFor_set.
  - unfold admit_. destruct (admitState _ r peers now) as [a s] eqn:E. cbn [snd]. rewrite stateFor_set.
    destruct (decide (gr_coverageType r = c)) as [<- | Hn]; [by rewrite E|done].
Qed.

Lemma trips_state s e : trips e = true -> st_mode (stepState s e) = Open ∧ st_resumeAt (stepState s e) = eventTime e + rc_cooldownMs config.
Proof. destruct e as [k reason now|r peers now]; cbn; [done|]. unfold admitState. by intros ->. Qed.

(** * Recovery *)

(** The evidence a return to publishing rests on: strictly increasing times, the first after the cooldown. *)
Definition Streak (from : Z) (ts : list Z) (n first last : Z) : Prop :=
  Z.of_nat (length ts) = n ∧ StronglySorted Z.lt ts ∧ head ts = Some first ∧ list.last ts = Some last ∧ from <= first.

Lemma Streak_one from t : from <= t -> Streak from [t] 1 t t.
Proof. intros H. repeat split; try done. repeat constructor. Qed.

Lemma increasing_snoc (ts : list Z) t l : StronglySorted Z.lt ts -> list.last ts = Some l -> l < t -> StronglySorted Z.lt (ts ++ [t]).
Proof.
  intros Hs Hl Ht. induction Hs as [|x ts Hs IH Hx]; [repeat constructor|]. cbn. constructor.
  - destruct ts as [|y ts']; [repeat constructor|]. apply IH. by rewrite last_cons_cons in Hl.
  - apply Forall_app. split; [done|]. constructor; [|done]. destruct ts as [|y ts']; [cbn in Hl; injection Hl; lia|].
    rewrite last_cons_cons in Hl. assert (l ∈ y :: ts') as Hin by (by apply last_Some_elem_of). rewrite Forall_forall in Hx. specialize (Hx l Hin). lia.
Qed.

Lemma Streak_snoc from ts n f l t : Streak from ts n f l -> l < t -> Streak from (ts ++ [t]) (n + 1) f t.
Proof.
  intros (Hn & Hs & Hh & Hl & Hf) Ht. repeat split; [rewrite length_app; cbn; lia|by eapply increasing_snoc| |by rewrite last_snoc|done].
  by destruct ts.
Qed.

(** What the state says about the events of a coverage type since a trip at [t0]. *)
Definition RecoveryInv (t0 : Z) (times : list Z) (s : CoverageRecoveryState) : Prop :=
  match st_mode s with
  | Open => t0 + rc_cooldownMs config <= st_resumeAt s
  | InCanary => ∃ ts, ts `sublist_of` times ∧ Streak (t0 + rc_cooldownMs config) ts (st_healthyReadings s) (st_canaryStartedAt s) (st_lastCanaryReadingAt s)
  | Normal => ∃ ts n f l, ts `sublist_of` times ∧ Streak (t0 + rc_cooldownMs config) ts n f l
      ∧ rc_healthyReadingsToGraduate config <= n ∧ rc_minimumCanaryDurationMs config <= l - f
  end.

Lemma RecoveryInv_more t0 times x s : RecoveryInv t0 times s -> RecoveryInv t0 (times ++ x) s.
Proof.
  assert (∀ ts, ts `sublist_of` times -> ts `sublist_of` (times ++ x)) as Hm by (intros ts H; by apply sublist_inserts_r).
  unfold RecoveryInv. destruct (st_mode s); [|done|].
  - intros (ts & n & f & l & H & HH). exists ts, n, f, l. split; [by apply Hm|done].
  - intros (ts & H & HH). exists ts. split; [by apply Hm|done].
Qed.

Lemma RecoveryInv_step c t0 times s e : eventCoverage e = c -> t0 <= eventTime e -> RecoveryInv t0 times s ->
  RecoveryInv t0 (times ++ match healthyTime c e with Some t => [t] | None => [] end) (stepState s e).
Proof.
  intros Hc Ht Hi. destruct (trips e) eqn:Htrip.
  { destruct (trips_state s e Htrip) as [E1 E2]. unfold RecoveryInv. rewrite E1, E2. lia. }
  destruct e as [k reason now|r peers now]; [done|]. cbn in Hc, Ht, Htrip. cbn [stepState healthyTime].
  rewrite bool_decide_eq_true_2, Htrip by done. unfold admitState. rewrite Htrip. cbn [andb negb].
  destruct (st_mode s) eqn:Em.
  - by apply RecoveryInv_more.
  - destruct (now <? st_resumeAt s) eqn:E1; cbn [orb]; [by apply RecoveryInv_more|].
    destruct (corroborated peers); cbn [negb]; [|by apply RecoveryInv_more].
    unfold RecoveryInv in Hi |- *. rewrite Em in Hi. cbn. exists [now]. split; [by apply sublist_inserts_l|]. apply Streak_one. lia.
  - destruct (corroborated peers); cbn [negb orb snd]; [|unfold RecoveryInv; cbn; lia].
    destruct (now <=? st_lastCanaryReadingAt s) eqn:E1; [unfold RecoveryInv; cbn; lia|].
    unfold RecoveryInv in Hi. rewrite Em in Hi. destruct Hi as (ts & Hsub & Hst). apply (Streak_snoc _ _ _ _ _ now) in Hst; [|lia].
    assert ((ts ++ [now]) `sublist_of` (times ++ [now])) as Hsub' by (by apply sublist_app).
    destruct ((rc_healthyReadingsToGraduate config <=? _) && _) eqn:E2; unfold RecoveryInv; cbn.
    + exists (ts ++ [now]), (st_healthyReadings s + 1), (st_canaryStartedAt s), now. split_and!; [done|done|lia|lia].
    + by exists (ts ++ [now]).
Qed.

Lemma recovery_since c t0 es : forall times g, Forall (fun e => eventCoverage e = c -> t0 <= eventTime e) es ->
  RecoveryInv t0 times (stateFor g c) -> RecoveryInv t0 (times ++ omap (healthyTime c) es) (stateFor (gateAfter g es) c).
Proof.
  induction es as [|e es IH]; intros times g Ht Hi; [cbn; by rewrite app_nil_r|]. apply Forall_cons in Ht as [He Ht].
  cbn [gateAfter foldl]. assert (RecoveryInv t0 (times ++ match healthyTime c e with Some t => [t] | None => [] end) (stateFor (gateStep g e).2 c)) as Hs.
  { rewrite stateFor_step. destruct (decide (eventCoverage e = c)) as [E|E]; [apply RecoveryInv_step; auto|by apply RecoveryInv_more]. }
  apply IH in Hs; [|done]. cbn [omap list_omap]. destruct (healthyTime c e); [by rewrite <- app_assoc in Hs|by rewrite app_nil_r in Hs].
Qed.
End Gate.

(** After a trip of a coverage type (explicit, or by a triggered or degraded reading), nothing of that type is published
    until the inputs contain a full recovery: at least [healthyReadingsToGraduate] healthy, corroborated readings at strictly
    increasing times, the first no earlier than the cooldown after the trip, spanning at least the minimum canary duration. The
    published reading is itself healthy and corroborated. *)
Theorem publish_requires_recovery config g e0 mid r peers now :
  trips e0 = true -> eventCoverage e0 = gr_coverageType r ->
  Forall (fun e => eventCoverage e = gr_coverageType r -> eventTime e0 <= eventTime e) mid ->
  answer config (gateAfter config g (e0 :: mid)) (EvReading r peers now) = Some Publish ->
  unhealthy r = false ∧ corroborated config peers = true
  ∧ ∃ ts first last, ts `sublist_of` omap (healthyTime config (gr_coverageType r)) mid
    ∧ rc_healthyReadingsToGraduate config <= Z.of_nat (length ts) ∧ StronglySorted Z.lt ts ∧ head ts = Some first ∧ list.last ts = Some last
    ∧ eventTime e0 + rc_cooldownMs config <= first ∧ rc_minimumCanaryDurationMs config <= last - first.
Proof.
  intros Htrip Hc Ht Ha. cbn [gateAfter foldl] in Ha. change (foldl _ ?g' mid) with (gateAfter config g' mid) in Ha.
  assert (RecoveryInv config (eventTime e0) [] (stateFor (gateStep config g e0).2 (gr_coverageType r))) as Hi.
  { rewrite stateFor_step, decide_True by done. destruct (trips_state config (stateFor g (gr_coverageType r)) e0 Htrip) as [E1 E2].
    unfold RecoveryInv. rewrite E1, E2. lia. }
  apply (recovery_since config (gr_coverageType r) (eventTime e0) mid) in Hi; [|done]. cbn [app] in Hi.
  unfold answer, gateStep, admit_ in Ha. set (s := stateFor (gateAfter _ _ mid) _) in *.
  destruct (admitState config s r peers now) as [a s'] eqn:E. cbn in Ha. injection Ha as ->. unfold admitState in E.
  destruct (unhealthy r); [done|]. destruct (st_mode s) eqn:Em.
  - destruct (corroborated config peers); [|done]. unfold RecoveryInv in Hi. rewrite Em in Hi.
    destruct Hi as (ts & n & f & l & Hsub & (Hn & Hs & Hh & Hl & Hf) & HN & Hd). split_and!; [done|done|]. exists ts, f, l. split_and!; done || lia.
  - by destruct ((now <? st_resumeAt s) || negb (corroborated config peers)).
  - destruct (negb (corroborated config peers) || _); [done|]. cbv zeta in E. by destruct ((rc_healthyReadingsToGraduate config <=? _) && _).
Qed.

(** * A recovery completes *)

Section Completes.
Variable config : OracleRecoveryConfig.

(** A healthy, corroborated reading of a coverage type. *)
Definition healthyEvent (c : string) (e : GateEvent) (t : Z) : Prop := eventCoverage e = c ∧ healthyTime config c e = Some t.

Lemma healthyEvent_reading c e t : healthyEvent c e t -> ∃ r peers, e = EvReading r peers t ∧ unhealthy r = false ∧ corroborated config peers = true.
Proof.
  intros [Hc Ht]. destruct e as [|r peers now]; [done|]. cbn in Hc, Ht. rewrite bool_decide_eq_true_2 in Ht by done. cbn in Ht.
  destruct (unhealthy r) eqn:E1; [done|]. destruct (corroborated config peers) eqn:E2; [|done]. cbn in Ht. injection Ht as ->. by exists r, peers.
Qed.

Definition runState (s : CoverageRecoveryState) (es : list GateEvent) : CoverageRecoveryState := foldl (stepState config) s es.

Lemma stateFor_run c es : forall g, Forall (fun e => eventCoverage e = c) es -> stateFor (gateAfter config g es) c = runState (stateFor g c) es.
Proof.
  induction es as [|e es IH]; intros g Hc; [done|]. apply Forall_cons in Hc as [He Hc]. cbn [gateAfter runState foldl].
  change (foldl _ ?g' es) with (gateAfter config g' es) at 1. rewrite IH by done. by rewrite stateFor_step, decide_True.
Qed.

Lemma normal_stays c es : forall ts s, Forall2 (healthyEvent c) es ts -> st_mode s = Normal -> st_mode (runState s es) = Normal.
Proof.
  induction es as [|e es IH]; intros ts s H Hm; [done|]. apply Forall2_cons_inv_l in H as (t & ts' & He & H & ->). cbn. apply (IH ts'); [done|].
  apply healthyEvent_reading in He as (r & peers & -> & Hu & Hcor). cbn. unfold admitState. by rewrite Hu, Hm.
Qed.

(** From a canary state, readings at increasing times either graduate or stay short of the requirements. *)
Lemma canary_run c es : forall ts s, Forall2 (healthyEvent c) es ts -> st_mode s = InCanary ->
  StronglySorted Z.lt (st_lastCanaryReadingAt s :: ts) -> ts ≠ [] ->
  rc_healthyReadingsToGraduate config <= st_healthyReadings s + Z.of_nat (length ts) ->
  (∀ l, list.last ts = Some l -> rc_minimumCanaryDurationMs config <= l - st_canaryStartedAt s) ->
  st_mode (runState s es) = Normal.
Proof.
  induction es as [|e es IH]; intros ts s H Hm Hs Hne HN Hd; apply Forall2_length in H as Hlen; [by destruct ts|].
  apply Forall2_cons_inv_l in H as (t & ts' & He & H & ->). apply healthyEvent_reading in He as (r & peers & -> & Hu & Hcor). cbn [runState foldl].
  change (foldl (stepState config) ?x es) with (runState x es). cbn [stepState]. unfold admitState. rewrite Hu, Hm, Hcor. cbn [negb orb].
  apply StronglySorted_inv in Hs as [Hs Hall]. apply Forall_cons in Hall as [Hlt _].
  assert ((t <=? st_lastCanaryReadingAt s) = false) as -> by lia. cbv zeta.
  destruct ((rc_healthyReadingsToGraduate config <=? st_healthyReadings s + 1) && (rc_minimumCanaryDurationMs config <=? t - st_canaryStartedAt s)) eqn:E.
  { by apply (normal_stays c es ts'). }
  destruct ts' as [|t' ts'].
  { specialize (Hd t eq_refl). cbn in HN. lia. }
  apply (IH (t' :: ts')); [done|done|done|done|cbn [snd st_healthyReadings length] in *; lia|].
  intros l Hl. apply Hd. by rewrite last_cons_cons.
Qed.

Lemma recovery_run c es t ts s t' : Forall2 (healthyEvent c) es (t :: ts) -> st_mode s = Open -> st_resumeAt s <= t -> StronglySorted Z.lt (t :: ts) ->
  2 <= rc_healthyReadingsToGraduate config <= Z.of_nat (length (t :: ts)) -> list.last (t :: ts) = Some t' -> rc_minimumCanaryDurationMs config <= t' - t ->
  st_mode (runState s es) = Normal.
Proof.
  intros H Hm Hr Hs HN Hl Hd. destruct es as [|e es]; [by apply Forall2_length in H|]. apply Forall2_cons in H as [He H].
  apply healthyEvent_reading in He as (r & peers & -> & Hu & Hcor). cbn [runState foldl]. change (foldl (stepState config) ?x es) with (runState x es).
  cbn [stepState]. unfold admitState. rewrite Hu, Hm, Hcor. assert ((t <? st_resumeAt s) = false) as -> by lia. cbn [orb negb snd].
  destruct ts as [|t2 ts]; [cbn in HN; lia|].
  apply (canary_run c es (t2 :: ts)); [done|done|done|done|cbn [st_healthyReadings length] in *; lia|].
  intros l Hl2. rewrite last_cons_cons in Hl. rewrite Hl in Hl2. injection Hl2 as <-. done.
Qed.
End Completes.

(** A recovery completes: after a trip, healthy corroborated readings at strictly increasing times, the first after the
    cooldown, as many as required and spanning the minimum duration, bring the gate back, and the next healthy corroborated
    reading of the coverage type is published. *)
Theorem recovery_completes config g e0 es t ts last r peers now :
  validConfig config = true -> trips e0 = true -> eventCoverage e0 = gr_coverageType r ->
  Forall2 (healthyEvent config (gr_coverageType r)) es (t :: ts) -> StronglySorted Z.lt (t :: ts) -> list.last (t :: ts) = Some last ->
  eventTime e0 + rc_cooldownMs config <= t -> rc_minimumCanaryDurationMs config <= last - t ->
  rc_healthyReadingsToGraduate config <= Z.of_nat (length (t :: ts)) ->
  unhealthy r = false -> corroborated config peers = true ->
  answer config (gateAfter config g (e0 :: es)) (EvReading r peers now) = Some Publish.
Proof.
  intros Hv Htrip Hc H Hs Hl Hcool Hd HN Hu Hcor. cbn [gateAfter foldl]. change (foldl _ ?g' es) with (gateAfter config g' es).
  assert (st_mode (stateFor (gateAfter config (gateStep config g e0).2 es) (gr_coverageType r)) = Normal) as Hm.
  { rewrite stateFor_run; [|by apply (Forall2_Forall_l (healthyEvent config (gr_coverageType r)) _ _ (t :: ts)); [|apply Forall_forall; intros ? _ e' []]].
    rewrite stateFor_step, decide_True by done. destruct (trips_state config (stateFor g (gr_coverageType r)) e0 Htrip) as [E1 E2].
    unfold validConfig in Hv. eapply (recovery_run config (gr_coverageType r) es t ts); [done|done|by rewrite E2|done|lia|done|done]. }
  revert Hm. generalize (gateAfter config (gateStep config g e0).2 es). intros g' Hm. unfold answer, gateStep, admit_, admitState. by rewrite Hu, Hm, Hcor.
Qed.

(** The configuration of the module's own scenario. *)
Definition demoConfig : OracleRecoveryConfig := mkRecoveryConfig 100 3 200 2.
Definition demoReading : GateReading := mkGateReading "StablecoinDepeg" Low false.
Definition demoEvents : list GateEvent := map (fun t => EvReading demoReading (Some 3) t) [1100; 1200; 1300].

Lemma publish_requires_recovery_witness :
  answer demoConfig (gateAfter demoConfig [] (EvTrip "StablecoinDepeg" "anomaly" 1000 :: demoEvents)) (EvReading demoReading (Some 3) 1301) = Some Publish
  ∧ ∃ ts first last, ts `sublist_of` omap (healthyTime demoConfig "StablecoinDepeg") demoEvents
    ∧ 3 <= Z.of_nat (length ts) ∧ StronglySorted Z.lt ts ∧ head ts = Some first ∧ list.last ts = Some last ∧ 1000 + 100 <= first ∧ 200 <= last - first.
Proof.
  split; [vm_compute; reflexivity|].
  apply (publish_requires_recovery demoConfig [] (EvTrip "StablecoinDepeg" "anomaly" 1000) demoEvents demoReading (Some 3) 1301);
    [reflexivity|reflexivity|repeat constructor; cbn; lia|vm_compute; reflexivity].
Defined.

Lemma recovery_completes_witness :
  answer demoConfig (gateAfter demoConfig [] (EvTrip "StablecoinDepeg" "anomaly" 1000 :: demoEvents)) (EvReading demoReading (Some 2) 5000) = Some Publish.
Proof.
  apply (recovery_completes demoConfig [] (EvTrip "StablecoinDepeg" "anomaly" 1000) demoEvents 1100 [1200; 1300] 1300 demoReading (Some 2) 5000);
    [reflexivity|reflexivity|reflexivity|repeat (apply Forall2_cons; split; [split; reflexivity|]); apply Forall2_nil; exact I
    |repeat constructor; lia|reflexivity|cbn; lia|cbn; lia|cbn; lia|reflexivity|reflexivity].
Defined.

(** A reading that triggers a payout is never published. *)
Lemma triggered_never_published config g r peers now : gr_severity r = Triggered -> answer config g (EvReading r peers now) = Some Hold.
Proof. intros H. unfold answer, gateStep, admit_, admitState, unhealthy. by rewrite H, bool_decide_eq_true_2. Qed.
