(* ===== verification/Gossip.v ===== *)
(** Signed readings exchanged between oracle peers (src/oracle/signed-reading-gossip.ts) and the
    database guard against replays (src/oracle/oracle-gossip-replay.repository.ts).

    [accept] waits for the guard in the middle, so calls interleave: a call is three steps, the
    checks up to the guard ([beginAccept]), the guard's transaction, and the rest
    ([finishAccept]).  The lists of pending entries are shared mutable arrays, held by the map
    of pending rounds and by calls that wait; they live in a store and are named by their index.

    Signature verification is a parameter; a peer's key is its configured text. *)

From stdpp Require Import base list strings sorting sets.
From Stdlib Require Import ZArith Lia Floats Ascii.
From S2P Require Import Prelude Decimal JsNum Canonical Consensus ClaimHold.

#[local] Open Scope Z_scope.

Record SignedReadingEnvelope := mkEnvelope {
  en_version : Z; en_peerId : string; en_sequence : Z; en_roundId : string; en_issuedAt : Z; en_coverageType : string;
  en_value : num; en_threshold : num; en_severity : string; en_message : string; en_signature : string }.
Record CorroboratedReading := mkCorroborated {
  cr_roundId : string; cr_peerIds : list string; cr_coverageType : string; cr_value : num; cr_threshold : num; cr_severity : string }.
Record SignedReadingGossipConfig := mkGossipConfig {
  gc_peers : list (string * string); gc_minimumPeers : Z; gc_toleranceByCoverage : list (string * num); gc_maximumMessageAgeMs : Z;
  gc_maximumFutureSkewMs : Z; gc_maximumEnvelopeBytes : Z; gc_maximumPendingRounds : Z }.

Definition ALLOWED_COVERAGE : list string := COVERAGE_FEEDS.
Definition ALLOWED_SEVERITY : list string := ["low"; "medium"; "high"; "triggered"].
Definition MAX_PEERS : Z := 32.
Definition MAX_VALUE : num := 1000000000000%float.
Definition MAX_FINALIZED : nat := 4096.
Definition MAX_SAFE_INTEGER : Z := 2 ^ 53 - 1.

(** * Shapes of texts *)

Definition alnum (c : ascii) : bool := let n := N_of_ascii c in ((48 <=? n) && (n <=? 57) || (65 <=? n) && (n <=? 90) || (97 <=? n) && (n <=? 122))%N.
Definition shaped (ok : ascii -> bool) (lo hi : nat) (s : string) : bool :=
  let t := String.list_ascii_of_string s in (lo <=? length t)%nat && (length t <=? hi)%nat && forallb ok t.
Definition peerIdShape : string -> bool := shaped (fun c => alnum c || bool_decide (c = "_"%char) || bool_decide (c = "-"%char)) 1 64.
Definition roundIdShape : string -> bool :=
  shaped (fun c => alnum c || bool_decide (c = ":"%char) || bool_decide (c = "_"%char) || bool_decide (c = "-"%char)) 1 96.

(** The value of a base64 digit. *)
Definition base64Digit (c : ascii) : option Z :=
  let n := Z.of_N (N_of_ascii c) in
  if (65 <=? n) && (n <=? 90) then Some (n - 65) else if (97 <=? n) && (n <=? 122) then Some (n - 71)
  else if (48 <=? n) && (n <=? 57) then Some (n + 4) else if n =? 43 then Some 62 else if n =? 47 then Some 63 else None.
(** [decodeSignature] accepts: 86 digits and two pads, and a last digit without stray bits, so that encoding the 64 decoded bytes gives the text back. *)
Definition signatureShape (s : string) : bool :=
  let t := String.list_ascii_of_string s in
  (length t =? 88)%nat && forallb (fun c => bool_decide (is_Some (base64Digit c))) (take 86 t) && bool_decide (drop 86 t = ["="%char; "="%char])
  && match list.last (take 86 t) ≫= base64Digit with Some d => d mod 16 =? 0 | None => false end.

(** * The replay guard *)

(** What [accept] relies on.  [used g peer seq]: the peer's last sequence is at least [seq];
    [holds g pair expires]: the pair of peer and round is reserved until [expires].  A grant
    needs an unused sequence and a pair with no reservation that still runs; it keeps every
    reservation that still runs, and forgets others. *)
Class ReplayGuard (G : Type) := {
  reserve : G -> string -> Z -> string -> Z -> Z -> bool * G; used : G -> string -> Z -> Prop; holds : G -> string * string -> Z -> Prop }.
Class ReplayGuardLaws (G : Type) `{ReplayGuard G} : Prop := {
  reserve_sequence : ∀ g peer seq round expires now g', reserve g peer seq round expires now = (true, g') ->
    ¬ used g peer seq ∧ used g' peer seq ∧ ∀ p s, used g p s -> used g' p s;
  reserve_pair : ∀ g peer seq round expires now g', reserve g peer seq round expires now = (true, g') ->
    (∀ old, holds g (peer, round) old -> old < now) ∧ holds g' (peer, round) expires ∧ ∀ p old, holds g p old -> old < now ∨ holds g' p old;
  reserve_refused : ∀ g peer seq round expires now g', reserve g peer seq round expires now = (false, g') -> g' = g }.

(** The two tables; the deletion of expired rows is in the same transaction. *)
Record ReplayTables := mkReplayTables { rt_sequences : list (string * Z); rt_replays : list ((string * string) * Z) }.
Definition reserveRow (t : ReplayTables) (peer : string) (seq : Z) (round : string) (expires now : Z) : bool * ReplayTables :=
  let live := List.filter (fun r => negb (r.2 <? now)) (rt_replays t) in
  if match jm_get (rt_sequences t) peer with Some last => negb (last <? seq) | None => false end then (false, t)
  else if jm_has live (peer, round) then (false, t)
  else (true, mkReplayTables (jm_set (rt_sequences t) peer seq) (live ++ [((peer, round), expires)])).

Section Gossip.
Context `{JsHost} {G : Type} `{ReplayGuard G}.
Variables (config : SignedReadingGossipConfig) (verifySignature : string -> string -> string -> bool).

(** * Construction *)

Definition newGossip : res string unit :=
  let n := Z.of_nat (length (gc_peers config)) in
  _ ← guard_res ((2 <=? n) && (n <=? MAX_PEERS) && (2 <=? gc_minimumPeers config) && (gc_minimumPeers config <=? n)
      && (256 <=? gc_maximumEnvelopeBytes config) && (gc_maximumEnvelopeBytes config <=? 16384)
      && (1 <=? gc_maximumPendingRounds config) && (gc_maximumPendingRounds config <=? 1024)
      && (1 <=? gc_maximumMessageAgeMs config) && (0 <=? gc_maximumFutureSkewMs config)) "Invalid signed reading gossip configuration";
  _ ← guard_res (forallb (fun p => peerIdShape p.1) (gc_peers config)) "Invalid configured peer identifier";
  guard_res (forallb (fun ct => bool_decide (ct.1 ∈ ALLOWED_COVERAGE) && isFinite ct.2 && negb (nlt ct.2 0%float)) (gc_toleranceByCoverage config))
    "Invalid configured gossip tolerance".

(** * The checks *)

Definition isSafeInteger (z : Z) : bool := Z.abs z <=? MAX_SAFE_INTEGER.
Definition isValidEnvelope (e : SignedReadingEnvelope) (now : Z) : bool :=
  (en_version e =? 1) && peerIdShape (en_peerId e) && isSafeInteger (en_sequence e) && (1 <=? en_sequence e) && roundIdShape (en_roundId e)
  && isSafeInteger (en_issuedAt e) && (now - gc_maximumMessageAgeMs config <=? en_issuedAt e) && (en_issuedAt e <=? now + gc_maximumFutureSkewMs config)
  && bool_decide (en_coverageType e ∈ ALLOWED_COVERAGE) && isFinite (en_value e) && negb (ngt (PrimFloat.abs (en_value e)) MAX_VALUE)
  && isFinite (en_threshold e) && negb (ngt (PrimFloat.abs (en_threshold e)) MAX_VALUE) && bool_decide (en_severity e ∈ ALLOWED_SEVERITY)
  && (Z.of_nat (String.length (en_message e)) <=? 512) && (Z.of_nat (String.length (en_signature e)) <=? 128).

Definition canonicalReading (e : SignedReadingEnvelope) : string :=
  "[" +:+ joinWith "," [showZ (en_version e); quoted (en_peerId e); showZ (en_sequence e); quoted (en_roundId e); showZ (en_issuedAt e);
    quoted (en_coverageType e); numToString (en_value e); numToString (en_threshold e); quoted (en_severity e); quoted (en_message e)] +:+ "]".

Record GossipState := mkGossip {
  gs_store : list (list SignedReadingEnvelope);
  gs_pending : list (string * nat);
  gs_finalized : list string }.
Definition array (s : GossipState) (ref : nat) : list SignedReadingEnvelope := default [] (gs_store s !! ref).

Definition allocate (entries : list SignedReadingEnvelope) (s : GossipState) : nat * GossipState :=
  (length (gs_store s), mkGossip (gs_store s ++ [entries]) (gs_pending s) (gs_finalized s)).

(** A pruned round gets a new array, an empty one is dropped. *)
Definition pruneRound (staleBefore : Z) (s : GossipState) (kr : string * nat) : GossipState :=
  let live := List.filter (fun e => staleBefore <=? en_issuedAt e) (array s kr.2) in
  if (length live =? 0)%nat then mkGossip (gs_store s) (jm_delete (gs_pending s) kr.1) (gs_finalized s)
  else let '(ref, s') := allocate live s in mkGossip (gs_store s') (jm_set (gs_pending s') kr.1 ref) (gs_finalized s').
Definition pruneExpired (now : Z) (s : GossipState) : GossipState := foldl (pruneRound (now - gc_maximumMessageAgeMs config)) s (gs_pending s).

Definition tooMany (s : GossipState) : bool := gc_maximumPendingRounds config <=? Z.of_nat (length (gs_pending s)).

(** The signature checks, in order. *)
Definition authenticate (e : SignedReadingEnvelope) (now : Z) : res string unit :=
  _ ← guard_res (isValidEnvelope e now) "Invalid signed reading envelope";
  _ ← guard_res (Z.of_nat (String.length (canonicalReading e)) + Z.of_nat (String.length (en_signature e)) <=? gc_maximumEnvelopeBytes config)
        "Signed reading envelope exceeds configured size limit";
  match jm_get (gc_peers config) (en_peerId e) with
  | None => Err "Unknown oracle peer"
  | Some key =>
      _ ← guard_res (signatureShape (en_signature e)) "Invalid oracle peer signature encoding";
      guard_res (verifySignature key (canonicalReading e) (en_signature e)) "Invalid oracle peer signature"
  end.

(** [accept] up to the guard: the state (pruned when the map was full) and the array the call holds. *)
Definition beginAccept (s : GossipState) (e : SignedReadingEnvelope) (now : Z) : GossipState * res string nat :=
  match authenticate e now with
  | Err m => (s, Err m)
  | Ok _ =>
      if bool_decide (en_roundId e ∈ gs_finalized s) then (s, Err "Oracle consensus round is already finalized")
      else
        let full := match jm_get (gs_pending s) (en_roundId e) with Some _ => false | None => tooMany s end in
        let s1 := if full then pruneExpired now s else s in
        if full && tooMany s1 then (s1, Err "Oracle gossip pending-round capacity reached")
        else
          let '(ref, s2) := match jm_get (gs_pending s1) (en_roundId e) with Some ref => (ref, s1) | None => allocate [] s1 end in
          if existsb (fun x => bool_decide (en_peerId x = en_peerId e) || negb (bool_decide (en_coverageType x = en_coverageType e))) (array s2 ref)
          then (s2, Err "Duplicate peer or mismatched coverage in consensus round")
          else (s2, Ok ref)
  end.

(** * Consensus *)

Definition tolerance (coverageType : string) : num := default 0%float (jm_get (gc_toleranceByCoverage config) coverageType).
Definition agrees (tol : num) (candidate other : SignedReadingEnvelope) : bool :=
  bool_decide (en_coverageType other = en_coverageType candidate) && neq (en_threshold other) (en_threshold candidate)
  && bool_decide (en_severity other = en_severity candidate) && nle (PrimFloat.abs (en_value other - en_value candidate)%float) tol.
Definition matching (tol : num) (entries : list SignedReadingEnvelope) (candidate : SignedReadingEnvelope) : list SignedReadingEnvelope :=
  List.filter (agrees tol candidate) entries.
Definition groupKey (l : list SignedReadingEnvelope) : string := joinWith "," (sort_strings (map en_peerId l)).
Definition groupsOf (tol : num) (entries : list SignedReadingEnvelope) : list (string * list SignedReadingEnvelope) :=
  foldl (fun m c => let g := matching tol entries c in if gc_minimumPeers config <=? Z.of_nat (length g) then jm_set m (groupKey g) g else m) [] entries.

Definition medianOf (values : list num) : num := default nan (sort_by ascending values !! (length values / 2)%nat).

Definition findUniqueConsensus (roundId : string) (entries : list SignedReadingEnvelope) : option CorroboratedReading :=
  let tol := match entries with e :: _ => tolerance (en_coverageType e) | [] => 0%float end in
  match groupsOf tol entries with
  | [(_, g)] =>
      match g with
      | [] => None
      | first :: _ => Some (mkCorroborated roundId (sort_strings (map en_peerId g)) (en_coverageType first) (medianOf (map en_value g))
          (en_threshold first) (en_severity first))
      end
  | _ => None
  end.

(** The rest of [accept] after the guard granted the reservation. *)
Definition finishAccept (s : GossipState) (e : SignedReadingEnvelope) (ref : nat) : GossipState * option CorroboratedReading :=
  let entries := array s ref ++ [e] in
  let s1 := mkGossip (<[ref := entries]> (gs_store s)) (jm_set (gs_pending s) (en_roundId e) ref) (gs_finalized s) in
  match findUniqueConsensus (en_roundId e) entries with
  | None => (s1, None)
  | Some c =>
      let finalized := addToSet (en_roundId e) (gs_finalized s1) in
      (mkGossip (gs_store s1) (jm_delete (gs_pending s1) (en_roundId e))
        (if (MAX_FINALIZED <? length finalized)%nat then tail finalized else finalized), Some c)
  end.

(** * Interleavings *)

(** A call: waiting for the guard, or granted and about to continue. *)
Inductive Flight := Waiting (e : SignedReadingEnvelope) (ref : nat) | Granted (e : SignedReadingEnvelope) (ref : nat).
(** [wo_clock] is the latest clock a guard transaction has read; [wo_late] the envelopes granted late (below). *)
Record World := mkWorld {
  wo_gossip : GossipState; wo_guard : G; wo_flights : list Flight; wo_emitted : list CorroboratedReading; wo_clock : Z; wo_late : list SignedReadingEnvelope }.

Definition pairOf (e : SignedReadingEnvelope) : string * string := (en_peerId e, en_roundId e).
Definition expiry (e : SignedReadingEnvelope) : Z := en_issuedAt e + gc_maximumMessageAgeMs config.
(** The envelopes of an array, and those of the calls that are about to push to it. *)
Definition grantedOn (ref : nat) (fs : list Flight) : list SignedReadingEnvelope :=
  omap (fun f => match f with Granted e r => if (r =? ref)%nat then Some e else None | Waiting _ _ => None end) fs.
Definition inPlay (s : GossipState) (fs : list Flight) (ref : nat) : list SignedReadingEnvelope := array s ref ++ grantedOn ref fs.
(** A grant is late when, while its call waited, another call of the same peer and round was granted for the same array, and
    that envelope has expired by the clock of a guard transaction since. *)
Definition lateGrant (w : World) (e : SignedReadingEnvelope) (ref : nat) (now : Z) : bool :=
  existsb (fun e' => bool_decide (pairOf e' = pairOf e) && (expiry e' <? Z.max (wo_clock w) now)) (inPlay (wo_gossip w) (wo_flights w) ref).

(** [StepOther]: a transaction of another process on the same tables.  [StepDrop]: the guard's call throws. *)
Inductive step : World -> World -> Prop :=
| StepBegin w e now ref s : beginAccept (wo_gossip w) e now = (s, Ok ref) ->
    step w (mkWorld s (wo_guard w) (wo_flights w ++ [Waiting e ref]) (wo_emitted w) (wo_clock w) (wo_late w))
| StepRefuse w e now m s : beginAccept (wo_gossip w) e now = (s, Err m) ->
    step w (mkWorld s (wo_guard w) (wo_flights w) (wo_emitted w) (wo_clock w) (wo_late w))
| StepReserve w l1 e ref l2 now g : wo_flights w = l1 ++ Waiting e ref :: l2 ->
    reserve (wo_guard w) (en_peerId e) (en_sequence e) (en_roundId e) (expiry e) now = (true, g) ->
    step w (mkWorld (wo_gossip w) g (l1 ++ Granted e ref :: l2) (wo_emitted w) (Z.max (wo_clock w) now)
      (if lateGrant w e ref now then e :: wo_late w else wo_late w))
| StepReplay w l1 e ref l2 now g : wo_flights w = l1 ++ Waiting e ref :: l2 ->
    reserve (wo_guard w) (en_peerId e) (en_sequence e) (en_roundId e) (expiry e) now = (false, g) ->
    step w (mkWorld (wo_gossip w) g (l1 ++ l2) (wo_emitted w) (Z.max (wo_clock w) now) (wo_late w))
| StepDrop w l1 e ref l2 : wo_flights w = l1 ++ Waiting e ref :: l2 ->
    step w (mkWorld (wo_gossip w) (wo_guard w) (l1 ++ l2) (wo_emitted w) (wo_clock w) (wo_late w))
| StepOther w peer seq round expires now ok g : reserve (wo_guard w) peer seq round expires now = (ok, g) ->
    step w (mkWorld (wo_gossip w) g (wo_flights w) (wo_emitted w) (Z.max (wo_clock w) now) (wo_late w))
| StepFinish w l1 e ref l2 s c : wo_flights w = l1 ++ Granted e ref :: l2 -> finishAccept (wo_gossip w) e ref = (s, c) ->
    step w (mkWorld s (wo_guard w) (l1 ++ l2) (wo_emitted w ++ match c with Some x => [x] | None => [] end) (wo_clock w) (wo_late w)).

Definition initial (g : G) : World := mkWorld (mkGossip [] [] []) g [] [] 0 [].

Inductive reachable (g : G) : World -> Prop :=
| ReachInit : reachable g (initial g)
| ReachStep w w' : reachable g w -> step w w' -> reachable g w'.
(** * What a corroborated reading rests on *)

Definition idOf (e : SignedReadingEnvelope) : string * Z := (en_peerId e, en_sequence e).
Definition authenticated (e : SignedReadingEnvelope) : Prop := ∃ now, authenticate e now = Ok ().

(** The participants of a reading: enough envelopes of the round from allow-listed peers, each verified, no peer's sequence
    twice, and no peer twice unless one of them was granted late; all in agreement with one of them, and the value is one that
    a participant signed. *)
Definition wellFounded (late : list SignedReadingEnvelope) (c : CorroboratedReading) : Prop := ∃ candidate group,
  cr_peerIds c = sort_strings (map en_peerId group) ∧ NoDup (map idOf group) ∧ gc_minimumPeers config <= Z.of_nat (length group)
  ∧ ((∀ e, e ∈ group -> e ∉ late) -> NoDup (map en_peerId group))
  ∧ Forall (fun e => authenticated e ∧ en_roundId e = cr_roundId c ∧ en_coverageType e = cr_coverageType c) group
  ∧ (∃ first, authenticated first ∧ en_roundId first = cr_roundId c ∧ Forall (fun e => agrees (tolerance (en_coverageType first)) candidate e = true) group)
  ∧ cr_value c ∈ map en_value group.

Lemma wellFounded_mono late late' c : (∀ e, e ∈ late -> e ∈ late') -> wellFounded late c -> wellFounded late' c.
Proof. intros Hl (cand & g & H1 & H2 & H3 & H4 & H5). exists cand, g. split_and!; [done..| |apply H5|apply H5|apply H5]. intros Hg. apply H4. naive_solver. Qed.

(** Of one round, envelopes with the same peer are the same or one is late. *)
Definition peersDistinct (late l : list SignedReadingEnvelope) : Prop :=
  ∀ x y, x ∈ l -> y ∈ l -> pairOf x = pairOf y -> x = y ∨ x ∈ late ∨ y ∈ late.

Lemma peersDistinct_sub late late' l l' : (∀ x, x ∈ l' -> x ∈ l) -> (∀ x, x ∈ late -> x ∈ late') -> peersDistinct late l -> peersDistinct late' l'.
Proof. intros H1 H2 H3 x y Hx Hy E. destruct (H3 x y (H1 _ Hx) (H1 _ Hy) E) as [|[|]]; auto. Qed.
Lemma peersDistinct_NoDup late l round : peersDistinct late l -> NoDup (map idOf l) -> (∀ e, e ∈ l -> en_roundId e = round) -> (∀ e, e ∈ l -> e ∉ late) ->
  NoDup (map en_peerId l).
Proof.
  intros Hd Hnd Hr Hl. induction l as [|x l IH]; [constructor|]. cbn in *. apply NoDup_cons in Hnd as [Hx Hnd]. apply NoDup_cons. split.
  - intros (y & Ey & Hy%list_elem_of_In)%list_elem_of_In%in_map_iff. destruct (Hd x y) as [->|[Hn|Hn]]; [apply list_elem_of_here|by apply list_elem_of_further| | | |].
    + unfold pairOf. rewrite Ey, (Hr x), (Hr y); [done|by apply list_elem_of_further|apply list_elem_of_here].
    + apply Hx. apply list_elem_of_In, in_map. by apply list_elem_of_In.
    + by apply (Hl x), Hn; apply list_elem_of_here.
    + by apply (Hl y), Hn; apply list_elem_of_further.
  - apply IH; [|done|intros; apply Hr; by apply list_elem_of_further|intros; apply Hl; by apply list_elem_of_further].
    eapply peersDistinct_sub; [|done|exact Hd]. intros; by apply list_elem_of_further.
Qed.

Lemma groupsOf_spec tol entries k g : (k, g) ∈ groupsOf tol entries -> ∃ c, c ∈ entries ∧ g = matching tol entries c ∧ gc_minimumPeers config <= Z.of_nat (length g).
Proof.
  unfold groupsOf. assert (∀ l m, (∀ x, x ∈ l -> x ∈ entries) -> (∀ k g, (k, g) ∈ m -> ∃ c, c ∈ entries ∧ g = matching tol entries c ∧ gc_minimumPeers config <= Z.of_nat (length g)) ->
    ∀ k g, (k, g) ∈ foldl (fun m c => let g := matching tol entries c in if gc_minimumPeers config <=? Z.of_nat (length g) then jm_set m (groupKey g) g else m) m l ->
    ∃ c, c ∈ entries ∧ g = matching tol entries c ∧ gc_minimumPeers config <= Z.of_nat (length g)) as Hgen.
  { induction l as [|x l IH]; intros m Hl Hm; [done|]. cbn. apply IH; [intros y Hy; apply Hl; by apply list_elem_of_further|].
    destruct (gc_minimumPeers config <=? _) eqn:E; [|done]. intros k' g' [Heq|Hin]%elem_of_jm_set; [|by apply (Hm k')].
    injection Heq as -> ->. exists x. split_and!; [apply Hl, list_elem_of_here|done|lia]. }
  apply Hgen; [done|]. by intros k' g' Hn%not_elem_of_nil.
Qed.
Lemma medianOf_elem values : values ≠ [] -> medianOf values ∈ values.
Proof.
  intros Hne. unfold medianOf. assert (0 < length values)%nat as Hl by (destruct values; [done|cbn; lia]).
  destruct (lookup_lt_is_Some_2 (sort_by ascending values) (length values / 2)) as [x Hx].
  { rewrite sort_by_length. apply Nat.div_lt; lia. }
  rewrite Hx. cbn. apply list_elem_of_lookup_2 in Hx. by apply elem_of_sort_by in Hx.
Qed.

(** A consensus over verified entries of one round is well founded. *)
Lemma findUniqueConsensus_founded late round entries c : findUniqueConsensus round entries = Some c -> 1 <= gc_minimumPeers config ->
  Forall (fun e => authenticated e ∧ en_roundId e = round) entries -> NoDup (map idOf entries) -> peersDistinct late entries -> cr_roundId c = round ∧ wellFounded late c.
Proof.
  unfold findUniqueConsensus. intros Hf Hmin Hall Hnd Hpd. set (tol := match entries with e :: _ => _ | [] => _ end) in Hf.
  destruct (groupsOf tol entries) as [|[k g] [|]] eqn:Eg; [done| |done]. destruct g as [|first rest] eqn:E; [done|]. rewrite <- E in *.
  injection Hf as <-. split; [done|]. destruct (groupsOf_spec tol entries k g) as (cand & Hc & Hg & Hn); [rewrite Eg; apply list_elem_of_here|].
  assert (∀ e, e ∈ g -> e ∈ entries ∧ agrees tol cand e = true) as Hin.
  { intros e He. rewrite Hg in He. apply list_elem_of_In, filter_In in He. by rewrite list_elem_of_In. }
  assert (first ∈ g) as Hfirst by (rewrite E; apply list_elem_of_here). rewrite Forall_forall in Hall.
  assert (NoDup (map idOf g)) as Hids by (rewrite Hg; by apply NoDup_map_filter_bool).
  exists cand, g. cbn. split_and!; [done|done|done| | | |].
  - intros Hlate. apply (peersDistinct_NoDup late g round); [|done|intros e He; by apply Hall, Hin|done]. eapply peersDistinct_sub; [|done|exact Hpd]. intros e He. by apply Hin.
  - apply Forall_forall. intros e He. destruct (Hin e He) as [He1 He2]. destruct (Hall e He1). split_and!; [done|done|].
    destruct (Hin first Hfirst) as [_ Hf2]. unfold agrees in He2, Hf2. rewrite !andb_true_iff, bool_decide_eq_true in He2, Hf2. destruct He2 as [[[-> _] _] _], Hf2 as [[[-> _] _] _]. done.
  - destruct entries as [|e0 es] eqn:Ee; [by destruct (Hin first Hfirst) as [?%not_elem_of_nil _]|]. destruct (Hall e0 (list_elem_of_here _ _)) as [Ha Hr].
    exists e0. split_and!; [done|done|]. apply Forall_forall. intros e He. by apply Hin.
  - apply medianOf_elem. by rewrite E.
Qed.
(** * The invariant of every interleaving *)

(** The entries of an array: verified, of the round the array was made for, their sequences used ([u]), none twice. *)
Definition goodArray (u : string * Z -> Prop) (round : string) (a : list SignedReadingEnvelope) : Prop :=
  NoDup (map idOf a) ∧ Forall (fun e => authenticated e ∧ en_roundId e = round ∧ u (idOf e)) a.

(** [rounds] gives the round of each array of the store. *)
Record StoreInv (rounds : list string) (u : string * Z -> Prop) (s : GossipState) : Prop := {
  si_length : length rounds = length (gs_store s);
  si_array : ∀ ref a r, gs_store s !! ref = Some a -> rounds !! ref = Some r -> goodArray u r a;
  si_pending : ∀ k ref, (k, ref) ∈ gs_pending s -> rounds !! ref = Some k }.

Definition flightEnvelope (f : Flight) : SignedReadingEnvelope := match f with Waiting e _ | Granted e _ => e end.
Definition flightRef (f : Flight) : nat := match f with Waiting _ r | Granted _ r => r end.
Definition granted (f : Flight) : option (string * Z) := match f with Granted e _ => Some (idOf e) | Waiting _ _ => None end.
Definition absent (p : string * Z) (s : GossipState) : Prop := ∀ ref, p ∉ map idOf (array s ref).

Record FlightInv (rounds : list string) (u : string * Z -> Prop) (s : GossipState) (fs : list Flight) : Prop := {
  fl_each : Forall (fun f => authenticated (flightEnvelope f) ∧ rounds !! flightRef f = Some (en_roundId (flightEnvelope f))) fs;
  fl_nodup : NoDup (omap granted fs);
  fl_granted : ∀ p, p ∈ omap granted fs -> u p ∧ absent p s }.

(** An envelope in play is reserved until it expires. *)
Record PlayInv (g : G) (clock : Z) (late : list SignedReadingEnvelope) (s : GossipState) (fs : list Flight) : Prop := {
  pl_distinct : ∀ ref, peersDistinct late (inPlay s fs ref);
  pl_reserved : ∀ ref x, x ∈ inPlay s fs ref -> holds g (pairOf x) (expiry x) ∨ expiry x < clock }.

Lemma goodArray_filter u round p a : goodArray u round a -> goodArray u round (List.filter p a).
Proof.
  intros [Hnd Hall]. split; [by apply NoDup_map_filter_bool|]. rewrite Forall_forall in *. intros e He. apply Hall.
  apply list_elem_of_In in He. apply filter_In in He as [He _]. by apply list_elem_of_In.
Qed.

Lemma goodArray_used (u u' : string * Z -> Prop) round a : (∀ p, u p -> u' p) -> goodArray u round a -> goodArray u' round a.
Proof. intros Hp [Hnd Hall]. split; [done|]. eapply Forall_impl; [exact Hall|]. naive_solver. Qed.

Lemma array_good rounds u s ref r : StoreInv rounds u s -> rounds !! ref = Some r -> goodArray u r (array s ref).
Proof.
  intros Hs Hr. unfold array. destruct (gs_store s !! ref) as [a|] eqn:E; [by eapply si_array|]. split; constructor.
Qed.

(** A new array of the store, holding entries that were there already or none. *)
Lemma allocate_inv rounds u s entries r ref s' : StoreInv rounds u s -> goodArray u r entries -> allocate entries s = (ref, s') ->
  StoreInv (rounds ++ [r]) u s' ∧ (rounds ++ [r]) !! ref = Some r ∧ gs_pending s' = gs_pending s ∧ gs_finalized s' = gs_finalized s.
Proof.
  intros [H1 H2 H3] Hg [= <- <-]. assert ((rounds ++ [r]) !! length (gs_store s) = Some r) as Hl by (rewrite <- H1; by rewrite list_lookup_middle).
  split_and!; [|done|done|done]. constructor; cbn; [rewrite !length_app; cbn; lia| |].
  - intros ref a r' Ha Hr'. apply lookup_app_Some in Ha as [Ha|[Hle Ha]].
    + apply (H2 ref a r' Ha). apply lookup_lt_Some in Ha as Hlt. by rewrite lookup_app_l in Hr' by lia.
    + apply list_lookup_singleton_Some in Ha as [Hz <-]. assert (ref = length (gs_store s)) as -> by lia. rewrite Hl in Hr'. by injection Hr' as <-.
  - intros k ref Hk. by apply lookup_app_l_Some, H3.
Qed.

Lemma pending_smaller rounds u s pending finalized : StoreInv rounds u s -> (∀ k ref, (k, ref) ∈ pending -> rounds !! ref = Some k) ->
  StoreInv rounds u (mkGossip (gs_store s) pending finalized).
Proof. intros [H1 H2 _] Hp. by constructor. Qed.

(** The store grew by arrays of entries it had. *)
Record grows (rounds : list string) (s : GossipState) (rounds' : list string) (s' : GossipState) : Prop := {
  gr_rounds : rounds `prefix_of` rounds';
  gr_old : ∀ ref, (ref < length rounds)%nat -> array s' ref = array s ref;
  gr_new : ∀ ref, (length rounds <= ref)%nat -> ∃ ref0, ∀ x, x ∈ array s' ref -> x ∈ array s ref0;
  gr_finalized : gs_finalized s' = gs_finalized s }.

Lemma grows_sub rounds s rounds' s' ref : grows rounds s rounds' s' -> ∃ ref0, ∀ x, x ∈ array s' ref -> x ∈ array s ref0.
Proof. intros Hg. destruct (decide (ref < length rounds)%nat); [exists ref; intros x; by rewrite (gr_old _ _ _ _ Hg)|apply (gr_new _ _ _ _ Hg); lia]. Qed.
Lemma grows_absent rounds s rounds' s' p : grows rounds s rounds' s' -> absent p s -> absent p s'.
Proof.
  intros Hg Hp ref (x & <- & Hx%list_elem_of_In)%list_elem_of_In%in_map_iff. destruct (grows_sub _ _ _ _ ref Hg) as [ref0 Hs].
  apply (Hp ref0), list_elem_of_In, in_map, list_elem_of_In. by apply Hs.
Qed.
Lemma grows_refl rounds s : grows rounds s rounds s.
Proof. constructor; [done|done| |done]. intros ref _. by exists ref. Qed.
#[local] Hint Resolve grows_refl : core.
Lemma grows_trans r1 s1 r2 s2 r3 s3 : grows r1 s1 r2 s2 -> grows r2 s2 r3 s3 -> grows r1 s1 r3 s3.
Proof.
  intros G1 G2. pose proof (prefix_length _ _ (gr_rounds _ _ _ _ G1)) as Hlen. constructor.
  - etrans; [apply G1|apply G2].
  - intros ref Hr. rewrite (gr_old _ _ _ _ G2) by lia. by apply G1.
  - intros ref _. destruct (grows_sub _ _ _ _ ref G2) as [ref1 H1]. destruct (grows_sub _ _ _ _ ref1 G1) as [ref0 Href0]. exists ref0. auto.
  - rewrite (gr_finalized _ _ _ _ G2). apply G1.
Qed.
Lemma grows_pending rounds s rounds' s' pending : grows rounds s rounds' s' -> grows rounds s rounds' (mkGossip (gs_store s') pending (gs_finalized s')).
Proof. intros [H1 H2 H3 H4]. by constructor. Qed.

Lemma allocate_grows rounds s entries r ref s' ref0 : length rounds = length (gs_store s) -> (∀ x, x ∈ entries -> x ∈ array s ref0) ->
  allocate entries s = (ref, s') -> grows rounds s (rounds ++ [r]) s'.
Proof.
  intros Hlen He [= <- <-]. constructor; [by apply prefix_app_r| | |done]; intros i Hi; unfold array; cbn.
  - by rewrite lookup_app_l by lia.
  - exists ref0. intros x. rewrite lookup_app_r by lia. destruct (i - length (gs_store s))%nat; cbn; [apply He|intros Hx%not_elem_of_nil; done].
Qed.

Lemma pruneRound_inv t rounds u s kr : StoreInv rounds u s -> rounds !! kr.2 = Some kr.1 ->
  ∃ rounds', StoreInv rounds' u (pruneRound t s kr) ∧ grows rounds s rounds' (pruneRound t s kr).
Proof.
  intros Hs Hkr. unfold pruneRound. set (live := List.filter _ _). destruct (length live =? 0)%nat.
  - exists rounds. split; [|apply grows_pending, grows_refl]. apply pending_smaller; [done|]. intros k ref Hk%elem_of_jm_delete. by eapply si_pending.
  - destruct (allocate live s) as [ref s'] eqn:E. assert (goodArray u kr.1 live) as Hg by (apply goodArray_filter; by eapply array_good).
    destruct (allocate_inv _ _ _ _ _ _ _ Hs Hg E) as (Hs' & Hr & Hp & Hf). exists (rounds ++ [kr.1]). split.
    + apply pending_smaller; [done|]. intros k ref' [[= -> ->]|Hk]%elem_of_jm_set; [done|]. by eapply si_pending.
    + apply grows_pending. apply (allocate_grows rounds s live kr.1 ref s' kr.2); [apply Hs| |done]. intros x Hx%list_elem_of_In. apply filter_In in Hx as [Hx _]. by apply list_elem_of_In.
Qed.

Lemma pruneRounds_inv t u l : forall rounds s, StoreInv rounds u s -> (∀ kr, kr ∈ l -> rounds !! kr.2 = Some kr.1) ->
  ∃ rounds', StoreInv rounds' u (foldl (pruneRound t) s l) ∧ grows rounds s rounds' (foldl (pruneRound t) s l).
Proof.
  induction l as [|kr l IH]; intros rounds s Hs Hp; [exists rounds; split; [done|apply grows_refl]|].
  destruct (pruneRound_inv t rounds u s kr Hs) as (r1 & Hs1 & Hg1); [apply Hp, list_elem_of_here|].
  destruct (IH r1 _ Hs1) as (r2 & Hs2 & Hg2); [|exists r2; split; [done|by eapply grows_trans]].
  intros kr' Hk. eapply prefix_lookup_Some; [apply Hp; by apply list_elem_of_further|apply Hg1].
Qed.

Lemma pruneExpired_inv now rounds u s : StoreInv rounds u s ->
  ∃ rounds', StoreInv rounds' u (pruneExpired now s) ∧ grows rounds s rounds' (pruneExpired now s).
Proof. intros Hs. apply pruneRounds_inv; [done|]. intros [k ref] Hk. exact (si_pending _ _ _ Hs k ref Hk). Qed.

Lemma pruneExpired_finalized now s : gs_finalized (pruneExpired now s) = gs_finalized s.
Proof.
  unfold pruneExpired. generalize (gs_pending s) at 1. intros l. revert s. induction l as [|kr l IH]; intros s; [done|]. cbn [foldl]. rewrite IH.
  unfold pruneRound. by destruct (length _ =? 0)%nat.
Qed.

(** The checks leave the call with an array of its round. *)
Lemma beginAccept_inv rounds u s e now s' out : StoreInv rounds u s -> beginAccept s e now = (s', out) ->
  ∃ rounds', StoreInv rounds' u s' ∧ grows rounds s rounds' s'
    ∧ match out with Ok ref => authenticated e ∧ rounds' !! ref = Some (en_roundId e) ∧ en_roundId e ∉ gs_finalized s | Err _ => True end.
Proof.
  intros Hs. unfold beginAccept. destruct (authenticate e now) as [[]|] eqn:Ea; [|intros [= <- <-]; by exists rounds].
  destruct (bool_decide_reflect (en_roundId e ∈ gs_finalized s)) as [|Hnf]; [intros [= <- <-]; by exists rounds|].
  set (full := match jm_get (gs_pending s) (en_roundId e) with Some _ => _ | None => _ end).
  assert (∃ r1, StoreInv r1 u (if full then pruneExpired now s else s) ∧ grows rounds s r1 (if full then pruneExpired now s else s)) as (r1 & Hs1 & Hg1).
  { destruct full; [by apply pruneExpired_inv|by exists rounds]. }
  set (s1 := if full then _ else s) in *. destruct (full && tooMany s1); [intros [= <- <-]; by exists r1|].
  destruct (jm_get (gs_pending s1) (en_roundId e)) as [ref|] eqn:Ep.
  - assert (r1 !! ref = Some (en_roundId e)) by (eapply si_pending; [done|by apply jm_get_Some_in]).
    destruct (existsb _ _); intros [= <- <-]; exists r1; split_and!; try done. by exists now.
  - destruct (allocate [] s1) as [ref s2] eqn:E. destruct (allocate_inv r1 u s1 [] (en_roundId e) ref s2 Hs1) as (Hs2 & Hr & _); [by repeat constructor|done|].
    apply (allocate_grows r1 s1 [] (en_roundId e) ref s2 0) in E as Hg2; [|apply Hs1|intros x Hx%not_elem_of_nil; done].
    destruct (existsb _ _); intros [= <- <-]; exists (r1 ++ [en_roundId e]); split_and!; try done; try (by eapply grows_trans). by exists now.
Qed.
(** Appending an envelope whose sequence no array holds. *)
Lemma array_push s ref x pending finalized ref' : (ref < length (gs_store s))%nat ->
  array (mkGossip (<[ref := x]> (gs_store s)) pending finalized) ref' = if (ref' =? ref)%nat then x else array s ref'.
Proof.
  intros Hl. unfold array. cbn. destruct (Nat.eqb_spec ref' ref) as [->|Hne]; [by rewrite list_lookup_insert_eq|by rewrite list_lookup_insert_ne].
Qed.

Lemma push_inv rounds u s e ref pending finalized : StoreInv rounds u s -> authenticated e -> rounds !! ref = Some (en_roundId e) -> u (idOf e) ->
  absent (idOf e) s -> (∀ k r, (k, r) ∈ pending -> (k, r) ∈ gs_pending s ∨ (k, r) = (en_roundId e, ref)) ->
  goodArray u (en_roundId e) (array s ref ++ [e]) ∧ StoreInv rounds u (mkGossip (<[ref := array s ref ++ [e]]> (gs_store s)) pending finalized).
Proof.
  intros Hs Ha Hr Hp Hab Hpend. destruct (array_good _ _ _ _ _ Hs Hr) as [Hnd Hall].
  assert (goodArray u (en_roundId e) (array s ref ++ [e])) as Hg.
  { split; [|apply Forall_app; split; [done|by repeat constructor]]. rewrite map_app. apply NoDup_app. split_and!; [done| |repeat constructor; set_solver].
    intros x Hx Hin. cbn in Hin. apply list_elem_of_singleton in Hin as ->. by apply (Hab ref). }
  split; [done|]. constructor; cbn; [rewrite length_insert; apply Hs| |].
  - intros ref' a r' Ha' Hr'. apply list_lookup_insert_Some in Ha' as [(<- & <- & _)|[_ Ha']]; [rewrite Hr in Hr'; by injection Hr' as <-|by eapply si_array].
  - intros k r Hk. destruct (Hpend k r Hk) as [Hk'|[= -> ->]]; [by eapply si_pending|done].
Qed.

Lemma finishAccept_inv late rounds u s e ref s' c : 1 <= gc_minimumPeers config -> StoreInv rounds u s -> authenticated e -> rounds !! ref = Some (en_roundId e) ->
  u (idOf e) -> absent (idOf e) s -> peersDistinct late (array s ref ++ [e]) -> finishAccept s e ref = (s', c) ->
  StoreInv rounds u s' ∧ (∀ ref', array s' ref' = if (ref' =? ref)%nat then array s ref ++ [e] else array s ref')
  ∧ match c with Some x => wellFounded late x ∧ cr_roundId x = en_roundId e | None => True end.
Proof.
  intros Hmin Hs Ha Hr Hp Hab Hpd. assert (ref < length (gs_store s))%nat as Hlt by (rewrite <- (si_length _ _ _ Hs); by eapply lookup_lt_Some). unfold finishAccept.
  assert (∀ k r, (k, r) ∈ jm_set (gs_pending s) (en_roundId e) ref -> (k, r) ∈ gs_pending s ∨ (k, r) = (en_roundId e, ref)) as Hset.
  { intros k r [Heq|Hk]%elem_of_jm_set; [by right|by left]. }
  destruct (findUniqueConsensus _ _) as [x|] eqn:Ef; intros [= <- <-].
  - cbn [gs_store gs_pending gs_finalized]. set (fin := if (_ <? _)%nat then _ else _).
    destruct (push_inv rounds u s e ref (jm_delete (jm_set (gs_pending s) (en_roundId e) ref) (en_roundId e)) fin) as ([Hnd Hall] & H2);
      [done|done|done|done|done|intros k r Hk%elem_of_jm_delete; by apply Hset|].
    split_and!; [done|intros ref'; by apply array_push|..]; apply (findUniqueConsensus_founded late) in Ef; try done; try apply Ef;
      (eapply Forall_impl; [exact Hall|naive_solver]).
  - destruct (push_inv rounds u s e ref (jm_set (gs_pending s) (en_roundId e) ref) (gs_finalized s)) as (_ & H2); [done..|]. split_and!; [done|intros ref'; by apply array_push|done].
Qed.

Lemma FlightInv_grows rounds u s fs rounds' s' : FlightInv rounds u s fs -> grows rounds s rounds' s' -> FlightInv rounds' u s' fs.
Proof.
  intros [H1 H2 H3] Hg. constructor; [|done|].
  - eapply Forall_impl; [exact H1|]. intros f [Ha Hr]. split; [done|]. eapply prefix_lookup_Some; [done|apply Hg].
  - intros p Hp. destruct (H3 p Hp) as [Hin Hab]. split; [done|by eapply grows_absent].
Qed.

Lemma StoreInv_used rounds (u u' : string * Z -> Prop) s : (∀ p, u p -> u' p) -> StoreInv rounds u s -> StoreInv rounds u' s.
Proof. intros Hp [H1 H2 H3]. constructor; [done| |done]. intros ref a r Ha Hr. eapply goodArray_used; [exact Hp|by eapply H2]. Qed.
Lemma FlightInv_used rounds (u u' : string * Z -> Prop) s fs : (∀ p, u p -> u' p) -> FlightInv rounds u s fs -> FlightInv rounds u' s fs.
Proof. intros Hp [H1 H2 H3]. constructor; [done|done|]. intros p Hin. destruct (H3 p Hin). auto. Qed.

Lemma StoreInv_absent rounds u s p : StoreInv rounds u s -> ¬ u p -> absent p s.
Proof.
  intros Hs Hp ref (e & <- & Hin)%list_elem_of_In%in_map_iff. unfold array in Hin. destruct (gs_store s !! ref) as [a|] eqn:Ha; [|done].
  apply lookup_lt_Some in Ha as Hlt. rewrite <- (si_length _ _ _ Hs) in Hlt. apply lookup_lt_is_Some_2 in Hlt as [r Hr].
  destruct (si_array _ _ _ Hs _ _ _ Ha Hr) as [_ Hall]. rewrite Forall_forall in Hall. destruct (Hall e) as (_ & _ & Hin'); [by apply list_elem_of_In|done].
Qed.

(** Removing a call. *)
Lemma FlightInv_remove rounds u s l1 f l2 : FlightInv rounds u s (l1 ++ f :: l2) -> FlightInv rounds u s (l1 ++ l2).
Proof.
  intros [H1 H2 H3]. assert (∀ p, p ∈ omap granted (l1 ++ l2) -> p ∈ omap granted (l1 ++ f :: l2)) as Hsub.
  { intros p. rewrite !omap_app. cbn. destruct (granted f); set_solver. }
  constructor; [|rewrite omap_app in *|intros p Hp; by apply H3, Hsub].
  - apply Forall_app in H1 as [Ha [_ Hb]%Forall_cons]. by apply Forall_app.
  - cbn in H2. destruct (granted f); [|done]. apply NoDup_app in H2 as (Ha & Hb & Hc%NoDup_cons). apply NoDup_app. split_and!; [done|set_solver|apply Hc].
Qed.
Lemma flight_at rounds u s l1 f l2 : FlightInv rounds u s (l1 ++ f :: l2) ->
  authenticated (flightEnvelope f) ∧ rounds !! flightRef f = Some (en_roundId (flightEnvelope f)).
Proof. intros [H1 _ _]. by apply Forall_app in H1 as [_ [? _]%Forall_cons]. Qed.

(** The guard grants the sequence of a waiting call. *)
Lemma FlightInv_grant rounds (u u' : string * Z -> Prop) s l1 e ref l2 : FlightInv rounds u s (l1 ++ Waiting e ref :: l2) -> ¬ u (idOf e) -> absent (idOf e) s ->
  u' (idOf e) -> (∀ p, u p -> u' p) -> FlightInv rounds u' s (l1 ++ Granted e ref :: l2).
Proof.
  intros [H1 H2 H3] Hp Hab Hu Huu. constructor.
  - apply Forall_app in H1 as [Ha [Hb Hc]%Forall_cons]. apply Forall_app. split; [done|]. by constructor.
  - rewrite omap_app in H2 |- *. cbn in H2 |- *. rewrite <- Permutation_middle. apply NoDup_cons. split; [|done].
    intros Hin. apply Hp. apply (H3 (idOf e)). by rewrite omap_app.
  - intros p. rewrite omap_app. cbn. rewrite elem_of_app, elem_of_cons. intros Hin.
    destruct (decide (p = idOf e)) as [-> | Hne]; [done|]. destruct (H3 p) as [Hin' Hab']; [rewrite omap_app; cbn; set_solver|]. auto.
Qed.
(** The call that continues holds a sequence of its own. *)
Lemma FlightInv_finish rounds u s s' l1 e ref l2 : FlightInv rounds u s (l1 ++ Granted e ref :: l2) ->
  (∀ ref', array s' ref' = if (ref' =? ref)%nat then array s ref ++ [e] else array s ref') -> FlightInv rounds u s' (l1 ++ l2).
Proof.
  intros Hf Harr. pose proof (fl_nodup _ _ _ _ Hf) as Hnd. destruct (FlightInv_remove _ _ _ _ _ _ Hf) as [H1 H2 H3]. constructor; [done|done|].
  intros p Hin. destruct (H3 p Hin) as [Hpp Hpa]. split; [done|]. intros ref'. rewrite Harr. destruct (ref' =? ref)%nat; [|apply Hpa].
  rewrite map_app. cbn. intros [Hx|Hx%list_elem_of_singleton]%elem_of_app; [by apply (Hpa ref)|]. subst p.
  rewrite omap_app in Hnd, Hin. cbn in Hnd. rewrite <- Permutation_middle in Hnd. by apply NoDup_cons in Hnd as [Hnd _].
Qed.

(** ** Envelopes in play *)

Lemma elem_of_grantedOn ref fs x : x ∈ grantedOn ref fs <-> Granted x ref ∈ fs.
Proof.
  unfold grantedOn. rewrite list_elem_of_omap. split.
  - intros (f & Hf & E). destruct f as [|e r]; [done|]. destruct (Nat.eqb_spec r ref); [|done]. by simplify_eq.
  - intros Hf. exists (Granted x ref). split; [done|]. by rewrite Nat.eqb_refl.
Qed.
Lemma elem_of_inPlay s fs ref x : x ∈ inPlay s fs ref <-> x ∈ array s ref ∨ Granted x ref ∈ fs.
Proof. unfold inPlay. by rewrite elem_of_app, elem_of_grantedOn. Qed.

(** Nothing new is in play. *)
Lemma PlayInv_sub g clock late s fs s' fs' : PlayInv g clock late s fs -> (∀ ref, ∃ ref0, ∀ x, x ∈ inPlay s' fs' ref -> x ∈ inPlay s fs ref0) -> PlayInv g clock late s' fs'.
Proof.
  intros [H1 H2] Hsub. constructor.
  - intros ref. destruct (Hsub ref) as [ref0 Hs]. by eapply peersDistinct_sub; [exact Hs|..].
  - intros ref x Hx. destruct (Hsub ref) as [ref0 Hs]. by apply (H2 ref0), Hs.
Qed.
Lemma PlayInv_grows rounds u g clock late s fs rounds' s' fs' : PlayInv g clock late s fs -> FlightInv rounds u s fs -> grows rounds s rounds' s' ->
  (∀ x ref, Granted x ref ∈ fs' -> Granted x ref ∈ fs) -> PlayInv g clock late s' fs'.
Proof.
  intros Hp Hf Hg Hfs. apply (PlayInv_sub _ _ _ _ _ _ _ Hp). intros ref. destruct (decide (ref < length rounds)%nat) as [Hlt|Hge].
  - exists ref. intros x. rewrite !elem_of_inPlay, (gr_old _ _ _ _ Hg) by done. naive_solver.
  - destruct (gr_new _ _ _ _ Hg ref ltac:(lia)) as [ref0 Hs]. exists ref0. intros x. rewrite !elem_of_inPlay. intros [Hx|Hx%Hfs]; [auto|].
    pose proof (fl_each _ _ _ _ Hf) as Hall. rewrite Forall_forall in Hall. destruct (Hall _ Hx) as [_ Hr]. apply lookup_lt_Some in Hr. cbn in Hr. lia.
Qed.

Context `{!ReplayGuardLaws G}.

(** A transaction of the guard keeps what has not expired. *)
Lemma PlayInv_guard g clock late s fs peer seq round expires now ok g' : PlayInv g clock late s fs -> reserve g peer seq round expires now = (ok, g') ->
  PlayInv g' (Z.max clock now) late s fs.
Proof.
  intros [H1 H2] Hr. constructor; [done|]. intros ref x Hx. destruct ok; [|rewrite (reserve_refused _ _ _ _ _ _ _ Hr); destruct (H2 ref x Hx); [by left|right; lia]].
  destruct (reserve_pair _ _ _ _ _ _ _ Hr) as (_ & _ & Hk). destruct (H2 ref x Hx) as [Hh|]; [|right; lia]. destruct (Hk _ _ Hh); [right; lia|by left].
Qed.
(** A grant: the pair had no reservation that still ran, so whoever of the same peer is in play has expired. *)
Lemma PlayInv_grant w l1 e ref l2 now g' : PlayInv (wo_guard w) (wo_clock w) (wo_late w) (wo_gossip w) (wo_flights w) -> wo_flights w = l1 ++ Waiting e ref :: l2 ->
  reserve (wo_guard w) (en_peerId e) (en_sequence e) (en_roundId e) (expiry e) now = (true, g') ->
  PlayInv g' (Z.max (wo_clock w) now) (if lateGrant w e ref now then e :: wo_late w else wo_late w) (wo_gossip w) (l1 ++ Granted e ref :: l2).
Proof.
  intros Hp Hl Hr. set (late := if lateGrant w e ref now then _ else _).
  assert (∀ x, x ∈ wo_late w -> x ∈ late) as Hmono by (intros x Hx; unfold late; destruct (lateGrant _ _ _ _); [by apply list_elem_of_further|done]).
  assert (∀ ref' x, x ∈ inPlay (wo_gossip w) (l1 ++ Granted e ref :: l2) ref' -> x ∈ inPlay (wo_gossip w) (wo_flights w) ref' ∨ (x = e ∧ ref' = ref)) as Hnew.
  { intros ref' x. rewrite !elem_of_inPlay, Hl. rewrite !elem_of_app, !elem_of_cons. naive_solver. }
  assert (∀ x, x ∈ inPlay (wo_gossip w) (wo_flights w) ref -> pairOf x = pairOf e -> e ∈ late) as Hlate.
  { intros x Hx Epair. unfold late. destruct (lateGrant w e ref now) eqn:El; [apply list_elem_of_here|exfalso].
    assert (lateGrant w e ref now = true) as Ht; [|congruence]. apply existsb_exists. exists x. split; [by apply list_elem_of_In|].
    rewrite bool_decide_eq_true_2 by done. cbn. destruct (pl_reserved _ _ _ _ _ Hp ref x Hx) as [Hh|Hlt]; [|lia].
    rewrite Epair in Hh. apply (proj1 (reserve_pair _ _ _ _ _ _ _ Hr)) in Hh. lia. }
  destruct (PlayInv_guard _ _ _ _ _ _ _ _ _ _ _ _ Hp Hr) as [H1 H2]. constructor.
  - intros ref' x y Hx%Hnew Hy%Hnew E. destruct Hx as [Hx|[-> ->]], Hy as [Hy|[-> He]].
    + destruct (H1 ref' x y Hx Hy E) as [|[|]]; auto.
    + subst ref'. right; right. by apply (Hlate x).
    + right; left. by apply (Hlate y).
    + by left.
  - intros ref' x [Hx|[-> ->]]%Hnew; [by apply (H2 ref')|]. left. apply (reserve_pair _ _ _ _ _ _ _ Hr).
Qed.

Definition usedBy (g : G) (p : string * Z) : Prop := used g p.1 p.2.
Definition GossipInv (w : World) : Prop := ∃ rounds,
  StoreInv rounds (usedBy (wo_guard w)) (wo_gossip w)
  ∧ FlightInv rounds (usedBy (wo_guard w)) (wo_gossip w) (wo_flights w)
  ∧ PlayInv (wo_guard w) (wo_clock w) (wo_late w) (wo_gossip w) (wo_flights w)
  ∧ Forall (wellFounded (wo_late w)) (wo_emitted w).

Lemma reserve_used g peer seq round expires now ok g' p : reserve g peer seq round expires now = (ok, g') -> usedBy g p -> usedBy g' p.
Proof. intros Hr. destruct ok; [apply (reserve_sequence _ _ _ _ _ _ _ Hr)|by rewrite (reserve_refused _ _ _ _ _ _ _ Hr)]. Qed.

Lemma GossipInv_begin w e now s out fs' : GossipInv w -> beginAccept (wo_gossip w) e now = (s, out) ->
  fs' = match out with Ok ref => wo_flights w ++ [Waiting e ref] | Err _ => wo_flights w end ->
  GossipInv (mkWorld s (wo_guard w) fs' (wo_emitted w) (wo_clock w) (wo_late w)).
Proof.
  intros (rounds & Hs & Hf & Hp & He) Hb ->. destruct (beginAccept_inv _ _ _ _ _ _ _ Hs Hb) as (rounds' & Hs' & Hg & Ho). exists rounds'. split_and!; [done| | |done].
  - pose proof (FlightInv_grows _ _ _ _ _ _ Hf Hg) as Hf'. destruct out as [ref|m]; [|done]. destruct Hf' as [H1 H2 H3].
    constructor; cbn; [|rewrite omap_app; cbn; by rewrite app_nil_r..]. apply Forall_app. split; [done|]. repeat constructor; apply Ho.
  - eapply PlayInv_grows; [done|done|done|]. intros x r. cbn. destruct out; [|done]. by intros [Hx|Hx%list_elem_of_singleton]%elem_of_app.
Qed.

Lemma GossipInv_remove w l1 e ref l2 : GossipInv w -> wo_flights w = l1 ++ Waiting e ref :: l2 ->
  GossipInv (mkWorld (wo_gossip w) (wo_guard w) (l1 ++ l2) (wo_emitted w) (wo_clock w) (wo_late w)).
Proof.
  intros (rounds & Hs & Hf & Hp & He) Hl. exists rounds. split_and!; [done|rewrite Hl in Hf; by eapply FlightInv_remove| |done].
  eapply PlayInv_grows; [done|done|apply grows_refl|]. intros x r. cbn. rewrite Hl, !elem_of_app, elem_of_cons. naive_solver.
Qed.

Lemma GossipInv_guard w peer seq round expires now ok g : GossipInv w -> reserve (wo_guard w) peer seq round expires now = (ok, g) ->
  GossipInv (mkWorld (wo_gossip w) g (wo_flights w) (wo_emitted w) (Z.max (wo_clock w) now) (wo_late w)).
Proof.
  intros (rounds & Hs & Hf & Hp & He) Hr. exists rounds. split_and!; [|by eapply FlightInv_used; [intros p; by eapply reserve_used|]|by eapply PlayInv_guard|done].
  eapply StoreInv_used; [intros p; by eapply reserve_used|done].
Qed.

Lemma GossipInv_finish w l1 e ref l2 s c : 1 <= gc_minimumPeers config -> GossipInv w -> wo_flights w = l1 ++ Granted e ref :: l2 -> finishAccept (wo_gossip w) e ref = (s, c) ->
  GossipInv (mkWorld s (wo_guard w) (l1 ++ l2) (wo_emitted w ++ match c with Some x => [x] | None => [] end) (wo_clock w) (wo_late w)).
Proof.
  intros Hmin (rounds & Hs & Hf & Hp & He) Hl Hfin. assert (Granted e ref ∈ wo_flights w) as Hin by (rewrite Hl, elem_of_app, elem_of_cons; auto).
  assert (∀ x, x ∈ array (wo_gossip w) ref ++ [e] -> x ∈ inPlay (wo_gossip w) (wo_flights w) ref) as Hsub.
  { intros x Hx. rewrite elem_of_inPlay. apply elem_of_app in Hx as [Hx|Hx]; [by left|]. apply list_elem_of_singleton in Hx as ->. by right. }
  rewrite Hl in Hf. destruct (flight_at _ _ _ _ _ _ Hf) as [Ha Hr]. cbn [flightEnvelope flightRef] in Ha, Hr. destruct (fl_granted _ _ _ _ Hf (idOf e)) as [Hu Hab]; [rewrite omap_app; cbn; set_solver|].
  destruct (finishAccept_inv (wo_late w) _ _ _ _ _ s c Hmin Hs Ha Hr Hu Hab) as (Hs' & Harr & Hc); [|done|].
  { eapply peersDistinct_sub; [exact Hsub|done|apply Hp]. }
  exists rounds. split_and!; [done|by eapply FlightInv_finish| |].
  - apply (PlayInv_sub _ _ _ _ _ _ _ Hp). intros ref'. exists ref'. intros x. rewrite elem_of_inPlay. cbn. rewrite Harr. intros [Hx|Hx].
    + destruct (Nat.eqb_spec ref' ref) as [->|]; [by apply Hsub|]. apply elem_of_inPlay. by left.
    + apply elem_of_inPlay. right. rewrite Hl, elem_of_app, elem_of_cons. apply elem_of_app in Hx as []; auto.
  - apply Forall_app. split; [done|]. destruct c as [x|]; [|constructor]. constructor; [apply Hc|constructor].
Qed.

Lemma GossipInv_step w w' : 1 <= gc_minimumPeers config -> step w w' -> GossipInv w -> GossipInv w'.
Proof.
  intros Hmin Hstep Hinv. destruct Hstep as [w e now ref s Hb|w e now m s Hb|w l1 e ref l2 now g Hl Hr|w l1 e ref l2 now g Hl Hr|w l1 e ref l2 Hl|w peer seq round expires now ok g Hr|w l1 e ref l2 s c Hl Hfin].
  - by eapply GossipInv_begin.
  - by eapply GossipInv_begin.
  - destruct Hinv as (rounds & Hs & Hf & Hp & He). destruct (reserve_sequence _ _ _ _ _ _ _ Hr) as (Hn & Hu & Huu). exists rounds. cbn.
    assert (∀ p, usedBy (wo_guard w) p -> usedBy g p) as Hmono by (intros p; by apply Huu).
    split_and!; [by eapply StoreInv_used| |by apply PlayInv_grant|].
    + rewrite Hl in Hf. eapply FlightInv_grant; [done|done|by eapply StoreInv_absent|done|done].
    + eapply Forall_impl; [exact He|]. intros c. apply wellFounded_mono. intros x Hx. destruct (lateGrant _ _ _ _); [by apply list_elem_of_further|done].
  - exact (GossipInv_guard _ _ _ _ _ _ _ _ (GossipInv_remove w l1 e ref l2 Hinv Hl) Hr).
  - by eapply GossipInv_remove.
  - by eapply GossipInv_guard.
  - by eapply GossipInv_finish.
Qed.

Lemma GossipInv_reachable g w : 1 <= gc_minimumPeers config -> reachable g w -> GossipInv w.
Proof.
  intros Hmin Hr. induction Hr as [|w w' _ IH Hs]; [|by eapply GossipInv_step]. exists []. split_and!; [| | |constructor].
  - constructor; [done|done|]. by intros k ref Hk%not_elem_of_nil.
  - constructor; [constructor|constructor|by intros p Hp%not_elem_of_nil].
  - constructor; [intros ref x y Hx|intros ref x Hx]; rewrite elem_of_inPlay in Hx; cbn in Hx; destruct Hx as [Hx|Hx]; by apply not_elem_of_nil in Hx.
Qed.

(** A call that begins and is granted with no other step in between is not late: no envelope of its peer is in its array. *)
Lemma undisturbed_grant_not_late w e now s ref now' : beginAccept (wo_gossip w) e now = (s, Ok ref) -> wo_flights w = [] ->
  lateGrant (mkWorld s (wo_guard w) [Waiting e ref] (wo_emitted w) (wo_clock w) (wo_late w)) e ref now' = false.
Proof.
  intros Hb Hf. apply not_true_is_false. intros (x & Hx & [Ep%bool_decide_eq_true _]%andb_prop)%existsb_exists. cbn in Hx. unfold inPlay in Hx. cbn in Hx. rewrite app_nil_r in Hx.
  revert Hb. unfold beginAccept. destruct (authenticate e now); [|done]. destruct (bool_decide _); [done|]. cbv zeta. destruct (_ && _); [done|].
  destruct (match jm_get _ _ with Some ref => (ref, _) | None => _ end) as [ref' s2]. destruct (existsb _ (array s2 ref')) eqn:Ex; [done|]. intros [= -> ->].
  assert (existsb (fun x => bool_decide (en_peerId x = en_peerId e) || negb (bool_decide (en_coverageType x = en_coverageType e))) (array s ref) = true) as Ht; [|congruence].
  apply existsb_exists. exists x. split; [done|]. unfold pairOf in Ep. rewrite bool_decide_eq_true_2 by congruence. done.
Qed.
End Gossip.

(** * The database guard *)

(** What the two tables remember. *)
#[export] Instance replayRepository : ReplayGuard ReplayTables := {|
  reserve := reserveRow;
  used t peer seq := ∃ last, jm_get (rt_sequences t) peer = Some last ∧ seq <= last;
  holds t pair expires := (pair, expires) ∈ rt_replays t |}.

(** The repository keeps the guard's promises, and refuses sequences that do not grow and pairs that have not expired. *)
Lemma reserveRow_granted t peer seq round expires now t' : reserveRow t peer seq round expires now = (true, t') ->
  let live := List.filter (fun r => negb (r.2 <? now)) (rt_replays t) in
  (∀ last, jm_get (rt_sequences t) peer = Some last -> last < seq) ∧ jm_get live (peer, round) = None
  ∧ t' = mkReplayTables (jm_set (rt_sequences t) peer seq) (live ++ [((peer, round), expires)]).
Proof.
  unfold reserveRow. set (live := List.filter _ _). destruct (match jm_get (rt_sequences t) peer with Some _ => _ | None => _ end) eqn:E1; [done|].
  unfold jm_has. destruct (jm_get live (peer, round)) eqn:E2; [done|]. cbn. intros [= <-]. split_and!; [|done|done].
  intros last Hl. rewrite Hl in E1. lia.
Qed.

#[export] Instance replayRepositoryLaws : ReplayGuardLaws ReplayTables.
Proof.
  constructor; intros t peer seq round expires now t'; cbn.
  - intros (H1 & _ & ->)%reserveRow_granted. cbn. split_and!.
    + intros (last & Hl%H1 & Hle). lia.
    + exists seq. by rewrite jm_get_set_eq.
    + intros p s (last & Hl & Hle). destruct (decide (p = peer)) as [->|Hne]; [|exists last; by rewrite jm_get_set_ne]. rewrite jm_get_set_eq. apply H1 in Hl. exists seq. split; [done|lia].
  - intros (_ & Hnone%jm_get_None_notin & ->)%reserveRow_granted. cbn. set (live := List.filter _ _) in *.
    assert (∀ p old, (p, old) ∈ rt_replays t -> old < now ∨ (p, old) ∈ live) as Hlive.
    { intros p old Hin. destruct (Z.ltb_spec old now); [by left|right]. apply list_elem_of_In, filter_In. split; [by apply list_elem_of_In|]. cbn. lia. }
    split_and!.
    + intros old [|Hin]%Hlive; [done|]. destruct Hnone. unfold jm_keys. apply list_elem_of_fmap. by exists ((peer, round), old).
    + apply elem_of_app. right. apply list_elem_of_here.
    + intros p old [|Hin]%Hlive; [by left|right]. apply elem_of_app. by left.
  - unfold reserveRow. destruct (match jm_get _ _ with Some _ => _ | None => _ end); [by intros [= <-]|]. by destruct (jm_has _ _); intros [=].
Qed.

(** C35: However calls interleave at the wait for the replay guard, with transactions of other processes on its tables and with
    calls of the guard that throw, every reading the gossip emits, under a configuration its
    constructor accepts, has a quorum behind it: at least [minimumPeers] envelopes of
    allow-listed peers for that round, each with a verified signature and none used twice, all of the same coverage and in
    agreement (threshold, severity, value within the tolerance) with one candidate, and the value is one that a participant
    signed.  The peers are distinct unless one of the envelopes was granted late: while its call waited, another call of the
    same peer and round was granted for the same array, and expired.  The guard is the repository, which forgets a pair of peer
    and round when it expires; what happens then is [late_grant_counts_peer_twice]. *)
Theorem gossip_reading_has_quorum `{JsHost} config verifySignature (t : ReplayTables) w c :
  newGossip config = Ok () -> reachable config verifySignature t w -> c ∈ wo_emitted w ->
  wellFounded config verifySignature (wo_late w) c ∧ 2 <= Z.of_nat (length (cr_peerIds c)).
Proof.
  unfold newGossip. intros Hnew Hr Hc. apply res_bind_Ok in Hnew as ([] & Hcfg & _). unfold guard_res in Hcfg. destruct (_ && (0 <=? gc_maximumFutureSkewMs config)) eqn:E; [|done].
  rewrite !andb_true_iff in E. assert (2 <= gc_minimumPeers config) as Hmin by lia.
  destruct (GossipInv_reachable config verifySignature t w ltac:(lia) Hr) as (rounds & _ & _ & _ & He). rewrite Forall_forall in He. pose proof (He c Hc) as Hw.
  split; [done|]. destruct Hw as (cand & group & Hp & _ & Hn & _). rewrite Hp. unfold sort_strings. rewrite sort_by_length, length_map. lia.
Qed.

(** * Scheduling *)

Section Schedule.
Context `{JsHost} {G : Type} `{ReplayGuard G}.
Variables (config : SignedReadingGossipConfig) (verifySignature : string -> string -> string -> bool).

(** A schedule: a call begins, the guard answers the i-th call, its call throws, the i-th call continues, another process
    reserves. *)
Inductive Schedule := SBegin (e : SignedReadingEnvelope) (now : Z) | SGuard (i : nat) (now : Z) | SDrop (i : nat) | SFinish (i : nat)
  | SOther (peer : string) (seq : Z) (round : string) (expires now : Z).

Definition execute (w : World) (ev : Schedule) : World :=
  match ev with
  | SBegin e now =>
      let '(s, out) := beginAccept config verifySignature (wo_gossip w) e now in
      mkWorld s (wo_guard w) (match out with Ok ref => wo_flights w ++ [Waiting e ref] | Err _ => wo_flights w end) (wo_emitted w) (wo_clock w) (wo_late w)
  | SGuard i now =>
      match wo_flights w !! i with
      | Some (Waiting e ref) =>
          let '(ok, g) := reserve (wo_guard w) (en_peerId e) (en_sequence e) (en_roundId e) (expiry config e) now in
          mkWorld (wo_gossip w) g (take i (wo_flights w) ++ (if ok : bool then [Granted e ref] else []) ++ drop (S i) (wo_flights w)) (wo_emitted w)
            (Z.max (wo_clock w) now) (if ok && lateGrant config w e ref now then e :: wo_late w else wo_late w)
      | _ => w
      end
  | SDrop i =>
      match wo_flights w !! i with
      | Some (Waiting e ref) => mkWorld (wo_gossip w) (wo_guard w) (take i (wo_flights w) ++ drop (S i) (wo_flights w)) (wo_emitted w) (wo_clock w) (wo_late w)
      | _ => w
      end
  | SFinish i =>
      match wo_flights w !! i with
      | Some (Granted e ref) =>
          let '(s, c) := finishAccept config (wo_gossip w) e ref in
          mkWorld s (wo_guard w) (take i (wo_flights w) ++ drop (S i) (wo_flights w)) (wo_emitted w ++ match c with Some x => [x] | None => [] end) (wo_clock w) (wo_late w)
      | _ => w
      end
  | SOther peer seq round expires now =>
      mkWorld (wo_gossip w) (reserve (wo_guard w) peer seq round expires now).2 (wo_flights w) (wo_emitted w) (Z.max (wo_clock w) now) (wo_late w)
  end.
Definition executeAll (g : G) (evs : list Schedule) : World := foldl execute (initial g) evs.

Lemma execute_reachable g w ev : reachable config verifySignature g w -> reachable config verifySignature g (execute w ev).
Proof.
  intros Hr. destruct ev as [e now|i now|i|i|peer seq round expires now]; cbn [execute].
  - destruct (beginAccept config verifySignature (wo_gossip w) e now) as [s [ref|m]] eqn:E; (eapply ReachStep; [exact Hr|]); [by eapply StepBegin|by eapply StepRefuse].
  - destruct (wo_flights w !! i) as [[e ref|e ref]|] eqn:El; [|done|done]. apply take_drop_middle in El. symmetry in El.
    destruct (reserve (wo_guard w) _ _ _ _ now) as [[] g'] eqn:E; (eapply ReachStep; [exact Hr|]); [by eapply StepReserve|by eapply StepReplay].
  - destruct (wo_flights w !! i) as [[e ref|e ref]|] eqn:El; [|done|done]. apply take_drop_middle in El. symmetry in El. eapply ReachStep; [exact Hr|]. by eapply StepDrop.
  - destruct (wo_flights w !! i) as [[e ref|e ref]|] eqn:El; [done| |done]. apply take_drop_middle in El. symmetry in El.
    destruct (finishAccept config (wo_gossip w) e ref) as [s c] eqn:E. eapply ReachStep; [exact Hr|]. by eapply StepFinish.
  - eapply ReachStep; [exact Hr|]. apply (StepOther _ _ w peer seq round expires now _ _ (surjective_pairing _)).
Qed.

Lemma executeAll_reachable g evs : reachable config verifySignature g (executeAll g evs).
Proof.
  unfold executeAll. assert (reachable config verifySignature g (initial g)) as Hinit by constructor. revert Hinit. generalize (initial g).
  induction evs as [|ev evs IH]; intros w Hw; [done|]. by apply IH, execute_reachable.
Qed.

(** * Calls one after the other *)

(** A whole call without another in between. *)
Definition accept (s : GossipState) (g : G) (e : SignedReadingEnvelope) (now dbNow : Z) : GossipState * G * res string (option CorroboratedReading) :=
  match beginAccept config verifySignature s e now with
  | (s1, Err m) => (s1, g, Err m)
  | (s1, Ok ref) =>
      match reserve g (en_peerId e) (en_sequence e) (en_roundId e) (expiry config e) dbNow with
      | (false, g1) => (s1, g1, Err "Replayed or out-of-order oracle peer sequence")
      | (true, g1) => let '(s2, c) := finishAccept config s1 e ref in (s2, g1, Ok c)
      end
  end.

(** The rounds emitted by a sequence of calls. *)
Fixpoint acceptAll (s : GossipState) (g : G) (calls : list (SignedReadingEnvelope * Z * Z)) (emitted : list string) : GossipState * list string :=
  match calls with
  | [] => (s, emitted)
  | (e, now, dbNow) :: rest =>
      let '(s', g', out) := accept s g e now dbNow in
      acceptAll s' g' rest (match out with Ok (Some c) => emitted ++ [cr_roundId c] | _ => emitted end)
  end.

(** The set of finalized rounds is the window of the last emitted ones, without repetition. *)
Definition Window (finalized emitted : list string) : Prop :=
  finalized = drop (length emitted - MAX_FINALIZED) emitted
  ∧ ∀ i j r, emitted !! i = Some r -> emitted !! j = Some r -> (i < j)%nat -> (MAX_FINALIZED < j - i)%nat.

Lemma Window_snoc finalized emitted r : Window finalized emitted -> r ∉ finalized ->
  let f := addToSet r finalized in Window (if (MAX_FINALIZED <? length f)%nat then tail f else f) (emitted ++ [r]).
Proof.
  intros [-> Hw] Hr. cbv zeta. unfold addToSet. rewrite bool_decide_eq_false_2 by done. set (n := length emitted).
  assert (length (drop (n - MAX_FINALIZED) emitted ++ [r]) = S (n `min` MAX_FINALIZED)) as -> by (rewrite length_app, length_drop; cbn; fold n; lia).
  split.
  - rewrite length_app. cbn [length]. fold n. rewrite <- drop_app_le by (fold n; lia). destruct (Nat.ltb_spec MAX_FINALIZED (S (n `min` MAX_FINALIZED))).
    + assert (∀ l : list string, tail l = drop 1 l) as -> by (by intros []). rewrite drop_drop. f_equal. lia.
    + f_equal. lia.
  - intros i j x Hi Hj Hij. apply lookup_app_Some in Hj as [Hj|[Hle Hj]].
    { apply lookup_lt_Some in Hj as Hlt. rewrite lookup_app_l in Hi by lia. by eapply Hw. }
    apply list_lookup_singleton_Some in Hj as [Hz <-]. assert (j = n) as -> by lia. rewrite lookup_app_l in Hi by (fold n; lia).
    destruct (decide (MAX_FINALIZED < n - i)%nat); [done|]. destruct Hr. apply (list_elem_of_lookup_2 _ (i - (n - MAX_FINALIZED))).
    rewrite lookup_drop. fold n. by replace (n - MAX_FINALIZED + (i - (n - MAX_FINALIZED)))%nat with i by lia.
Qed.
Lemma accept_finalized s g e now dbNow s' g' out : accept s g e now dbNow = (s', g', out) ->
  match out with
  | Ok (Some c) => (cr_roundId c ∉ gs_finalized s) ∧ let f := addToSet (cr_roundId c) (gs_finalized s) in
      gs_finalized s' = if (MAX_FINALIZED <? length f)%nat then tail f else f
  | _ => gs_finalized s' = gs_finalized s
  end.
Proof.
  unfold accept. destruct (beginAccept config verifySignature s e now) as [s1 out1] eqn:Eb.
  assert (gs_finalized s1 = gs_finalized s ∧ match out1 with Ok _ => en_roundId e ∉ gs_finalized s | Err _ => True end) as [Hf Ho].
  { revert Eb. unfold beginAccept. destruct (authenticate config verifySignature e now); [|by intros [= <- <-]].
    destruct (bool_decide_reflect (en_roundId e ∈ gs_finalized s)) as [|Hn]; [by intros [= <- <-]|].
    set (full := match jm_get (gs_pending s) (en_roundId e) with Some _ => _ | None => _ end).
    assert (gs_finalized (if full then pruneExpired config now s else s) = gs_finalized s) as Hp by (destruct full; [apply pruneExpired_finalized|done]).
    set (s0 := if full then _ else s) in *. destruct (full && tooMany config s0); [by intros [= <- <-]|].
    destruct (jm_get (gs_pending s0) (en_roundId e)); cbn; destruct (existsb _ _); by intros [= <- <-]. }
  destruct out1 as [ref|m]; [|by intros [= <- _ <-]]. destruct (reserve g _ _ _ _ dbNow) as [[] g1]; [|by intros [= <- _ <-]].
  unfold finishAccept. destruct (findUniqueConsensus config (en_roundId e) _) as [c|] eqn:Ef; intros [= <- _ <-]; [|done].
  assert (cr_roundId c = en_roundId e) as ->; [|by cbn; rewrite Hf].
  unfold findUniqueConsensus in Ef. destruct (groupsOf config _ _) as [|[k g0] [|]]; [done| |done]. destruct g0; [done|]. by injection Ef as <-.
Qed.

Lemma acceptAll_window calls : forall s g emitted s' emitted', Window (gs_finalized s) emitted -> acceptAll s g calls emitted = (s', emitted') ->
  Window (gs_finalized s') emitted'.
Proof.
  induction calls as [|[[e now] dbNow] calls IH]; intros s g emitted s' emitted' Hw; [by intros [= <- <-]|]. cbn.
  destruct (accept s g e now dbNow) as [[s1 g1] out] eqn:Ea. apply accept_finalized in Ea. apply IH.
  destruct out as [[c|]|m]; [|by rewrite Ea|by rewrite Ea]. destruct Ea as [Hn ->]. by apply Window_snoc.
Qed.
End Schedule.

(** When calls do not overlap, a round is emitted at most once within any 4096 consecutive emissions (the number of finalized
    rounds the gossip remembers). *)
Theorem serial_round_emitted_once `{JsHost} {G : Type} `{ReplayGuard G} config verifySignature (g : G) calls i j r :
  (acceptAll config verifySignature (mkGossip [] [] []) g calls []).2 !! i = Some r ->
  (acceptAll config verifySignature (mkGossip [] [] []) g calls []).2 !! j = Some r ->
  (i < j)%nat -> (4096 < j - i)%nat.
Proof.
  destruct (acceptAll config verifySignature _ g calls []) as [s emitted] eqn:E. cbn. apply acceptAll_window in E as [_ Hw]; [|by split].
  apply Hw.
Qed.

(** * Examples *)

Definition demoSignature : string := String.string_of_list_ascii (replicate 86 "A"%char ++ ["="%char; "="%char]).
Definition demoEnvelope (peer round : string) (seq : Z) (v : num) : SignedReadingEnvelope :=
  mkEnvelope 1 peer seq round 1000 "StablecoinDepeg" v 0.5%float "low" "" demoSignature.
Definition demoGossip : SignedReadingGossipConfig := mkGossipConfig [("a", "ka"); ("b", "kb"); ("c", "kc")] 2 [("StablecoinDepeg", 0.5%float)] 60000 1000 4096 16.
Definition noTables : ReplayTables := mkReplayTables [] [].
#[local] Existing Instance demoHost.
Definition demoRun (evs : list Schedule) : World := executeAll demoGossip (fun _ _ _ => true) noTables evs.
(** The call of a peer for a round, begun and run to its end as the only one waiting. *)
Definition demoCall (peer round : string) (seq : Z) (v : num) : list Schedule := [SBegin (demoEnvelope peer round seq v) 1000; SGuard 0 1000; SFinish 0].

Lemma gossip_reading_has_quorum_witness :
  let w := demoRun (demoCall "a" "r1" 1 1%float ++ demoCall "b" "r1" 1 1.25%float) in
  ∃ c, wo_emitted w = [c] ∧ wo_late w = [] ∧ wellFounded demoGossip (fun _ _ _ => true) (wo_late w) c ∧ 2 <= Z.of_nat (length (cr_peerIds c)).
Proof.
  set (w := demoRun _). assert (∃ c, wo_emitted w = [c]) as [c Hc] by (eexists; vm_compute; reflexivity). exists c. split; [done|]. split; [vm_compute; reflexivity|].
  apply (gossip_reading_has_quorum demoGossip (fun _ _ _ => true) noTables w c); [vm_compute; reflexivity|apply executeAll_reachable|].
  rewrite Hc. apply list_elem_of_here.
Defined.

Lemma serial_round_emitted_once_witness :
  let calls := [(demoEnvelope "a" "r1" 1 1%float, 1000, 1000); (demoEnvelope "b" "r1" 1 1%float, 1000, 1000); (demoEnvelope "c" "r1" 1 1%float, 1000, 1000)] in
  let run := acceptAll demoGossip (fun _ _ _ => true) (mkGossip [] [] []) noTables calls [] in
  run.2 = ["r1"] ∧ ∀ i j r, run.2 !! i = Some r -> run.2 !! j = Some r -> (i < j)%nat -> (4096 < j - i)%nat.
Proof. split; [vm_compute; reflexivity|]. intros i j r. apply serial_round_emitted_once. Defined.

(** * Races *)

(** A call that waits while another finalizes its round appends to the same array and emits the round again. *)
Lemma overlapping_calls_emit_twice :
  map cr_roundId (wo_emitted (demoRun (demoCall "a" "r1" 1 1%float ++
    [SBegin (demoEnvelope "b" "r1" 1 1%float) 1000; SBegin (demoEnvelope "c" "r1" 1 1%float) 1000; SGuard 0 1000; SGuard 1 1000; SFinish 0; SFinish 0]))) = ["r1"; "r1"].
Proof. vm_compute. reflexivity. Qed.

(** Two calls that open a round together hold different arrays: the second replaces the first, whose reading is lost, and the
    guard refuses to take it again. *)
Lemma overlapping_first_calls_lose_reading :
  let w := demoRun [SBegin (demoEnvelope "a" "r1" 1 1%float) 1000; SBegin (demoEnvelope "b" "r1" 1 1%float) 1000; SGuard 0 1000; SGuard 1 1000; SFinish 0; SFinish 0] in
  wo_emitted w = [] ∧ (map en_peerId <$> ((jm_get (gs_pending (wo_gossip w)) "r1") ≫= fun ref => gs_store (wo_gossip w) !! ref)) = Some ["b"]
  ∧ wo_emitted (foldl (execute demoGossip (fun _ _ _ => true)) w (demoCall "a" "r1" 2 1%float)) = [].
Proof. vm_compute. repeat split. Qed.

(** The repository forgets a pair when it expires and grants it again, although the interface asks for durable rejection.  Two
    calls of one peer wait together; the first is granted when its envelope expires, the second a millisecond later: the
    reading corroborated "by two independently signed peers" is one peer's, [["a"; "a"]]. *)
Example late_grant_counts_peer_twice :
  let first := mkEnvelope 1 "a" 1 "r1" 1000 "StablecoinDepeg" 1%float 0.5%float "low" "" demoSignature in
  let second := mkEnvelope 1 "a" 2 "r1" 61000 "StablecoinDepeg" 1%float 0.5%float "low" "" demoSignature in
  let w := demoRun (demoCall "c" "r1" 1 9%float ++ [SBegin first 61000; SBegin second 61000; SGuard 0 61000; SGuard 1 61001; SFinish 0; SFinish 0]) in
  map cr_peerIds (wo_emitted w) = [["a"; "a"]] ∧ wo_late w = [second].
Proof. vm_compute. split; reflexivity. Qed.
