(* ===== verification/PauseControl.v ===== *)
(** Operator pause and resume of oracle-driven payouts (src/oracle/control.ts): the table of
    pauses with its audit trail in Postgres, and the snapshot of it that Redis keeps for 30
    seconds.

    Reads and writes interleave: a read that misses the cache queries the table and stores what it
    saw later, a change commits and invalidates the cache later.  The world keeps the reads that
    have queried and not stored yet.  Times are milliseconds. *)

From stdpp Require Import base list strings.
From Stdlib Require Import ZArith Lia.
From S2P Require Import Prelude Safeguards.

#[local] Open Scope Z_scope.

Definition GLOBAL_PAUSE_SCOPE : string := "global".
Definition PAUSE_SCOPES : list string := GLOBAL_PAUSE_SCOPE :: map fst COVERAGE_TYPE_CODE.
Definition PAUSE_STATE_CACHE_TTL_SECONDS : Z := 30.
Definition TTL_MS : Z := PAUSE_STATE_CACHE_TTL_SECONDS * 1000.

(** A pause and the row of it, keyed by scope. *)
Record PauseState := mkPauseState { pz_paused : bool; pz_reason : option string; pz_actor : option string; pz_updatedAt : option Z }.
Definition Table : Type := list (string * PauseState).
Record AuditRow := mkAuditRow { ar_scope : string; ar_pause : bool; ar_actor : string; ar_reason : string; ar_priorPaused : bool }.
Record PauseChange := mkPauseChange { pc_scope : string; pc_paused : bool; pc_priorPaused : bool; pc_actor : string; pc_reason : string; pc_updatedAt : Z }.

Definition NOT_PAUSED : PauseState := mkPauseState false None None None.

(** [entry?.paused === true] *)
Definition pausedIn (t : Table) (scope : string) : bool := match jm_get t scope with Some e => pz_paused e | None => false end.

(** * Decisions on a snapshot *)

Definition pausedCode (t : Table) (coverageCode : Z) : res string bool :=
  if pausedIn t GLOBAL_PAUSE_SCOPE then Ok true else name ← codeToSoroban coverageCode; Ok (pausedIn t name).

Definition toPauseState (e : option PauseState) : PauseState := default NOT_PAUSED e.
Record OracleStatus := mkOracleStatus { os_global : PauseState; os_coverageTypes : list (string * Z * PauseState * bool) }.
Definition getStatusOf (t : Table) : OracleStatus :=
  mkOracleStatus (toPauseState (jm_get t GLOBAL_PAUSE_SCOPE))
    (map (fun '(name, id) => (name, id, toPauseState (jm_get t name), pausedIn t GLOBAL_PAUSE_SCOPE || pausedIn t name)) COVERAGE_TYPE_CODE).

(** * The world *)

Record World := mkWorld {
  wd_now : Z;
  wd_table : Table;
  wd_audit : list AuditRow;
  wd_cache : option (Table * Z);
  wd_loads : list (Table * Z) }.

Definition liveCache (w : World) : option Table := match wd_cache w with Some (t, expires) => if wd_now w <? expires then Some t else None | None => None end.

(** The transaction of [setPaused]: the prior state, the upsert and the audit row. *)
Definition setPaused (w : World) (scope : string) (paused : bool) (actor reason : string) : World * PauseChange :=
  let prior := pausedIn (wd_table w) scope in
  (mkWorld (wd_now w) (jm_set (wd_table w) scope (mkPauseState paused (Some reason) (Some actor) (Some (wd_now w))))
     (wd_audit w ++ [mkAuditRow scope paused actor reason prior]) (wd_cache w) (wd_loads w),
   mkPauseChange scope paused prior actor reason (wd_now w)).

(** The deletion of the cached snapshot, when it reaches Redis. *)
Definition invalidateCache (w : World) : World := mkWorld (wd_now w) (wd_table w) (wd_audit w) None (wd_loads w).

(** [loadEntries] up to the store: the snapshot it answers with.  A Redis failure is a miss, a Postgres failure is thrown. *)
Definition loadEntries (w : World) (redisOk postgresOk : bool) : res string Table :=
  match (if redisOk then liveCache w else None) with
  | Some t => Ok t
  | None => if postgresOk then Ok (wd_table w) else Err "connection refused"
  end.
Definition beginLoad (w : World) : World := mkWorld (wd_now w) (wd_table w) (wd_audit w) (wd_cache w) (wd_loads w ++ [(wd_table w, wd_now w)]).
(** The i-th load stores its snapshot. *)
Definition storeLoad (w : World) (i : nat) : World :=
  match wd_loads w !! i with
  | Some (t, _) => mkWorld (wd_now w) (wd_table w) (wd_audit w) (Some (t, wd_now w + TTL_MS)) (take i (wd_loads w) ++ drop (S i) (wd_loads w))
  | None => w
  end.
Definition dropLoad (w : World) (i : nat) : World := mkWorld (wd_now w) (wd_table w) (wd_audit w) (wd_cache w) (take i (wd_loads w) ++ drop (S i) (wd_loads w)).
Definition tick (w : World) (d : Z) : World := mkWorld (wd_now w + d) (wd_table w) (wd_audit w) (wd_cache w) (wd_loads w).

Definition isPaused (w : World) (redisOk postgresOk : bool) (coverageCode : Z) : res string bool :=
  t ← loadEntries w redisOk postgresOk; pausedCode t coverageCode.

(** * Interleavings *)

Inductive Event :=
| EvSet (scope : string) (paused : bool) (actor reason : string)
| EvInvalidate
| EvLoad
| EvStore (i : nat)
| EvStoreFails (i : nat)
| EvTick (d : Z).

Definition perform (w : World) (ev : Event) : World :=
  match ev with
  | EvSet scope paused actor reason => (setPaused w scope paused actor reason).1
  | EvInvalidate => invalidateCache w
  | EvLoad => beginLoad w
  | EvStore i => storeLoad w i
  | EvStoreFails i => dropLoad w i
  | EvTick d => tick w d
  end.
Definition performAll (w : World) (evs : list Event) : World := foldl perform w evs.

(** Time does not go back, and a load stores what it saw within [delay] of its query. *)
Definition allowed (delay : Z) (w : World) (ev : Event) : Prop :=
  match ev with
  | EvTick d => 0 <= d
  | EvStore i => ∀ t q, wd_loads w !! i = Some (t, q) -> wd_now w <= q + delay
  | _ => True
  end.
Fixpoint allAllowed (delay : Z) (w : World) (evs : list Event) : Prop :=
  match evs with [] => True | ev :: rest => allowed delay w ev ∧ allAllowed delay (perform w ev) rest end.

(** Events that do not resume a scope. *)
Definition keepsPaused (scope : string) (ev : Event) : Prop := match ev with EvSet s paused _ _ => s = scope -> paused = true | _ => True end.

(** * Bounded staleness *)

(** What holds since a scope was paused at [t0]: snapshots that miss the pause were taken before, and expire in time. *)
Record PausedSince (delay : Z) (scope : string) (t0 : Z) (w : World) : Prop := {
  since_now : t0 <= wd_now w;
  since_table : pausedIn (wd_table w) scope = true;
  since_cache : ∀ t e, wd_cache w = Some (t, e) -> pausedIn t scope = true ∨ e <= t0 + TTL_MS + delay;
  since_loads : ∀ t q, (t, q) ∈ wd_loads w -> pausedIn t scope = true ∨ q <= t0 }.

Lemma pausedIn_set t k e scope : pausedIn (jm_set t k e) scope = if decide (k = scope) then pz_paused e else pausedIn t scope.
Proof. unfold pausedIn. rewrite jm_get_set. by destruct (decide (k = scope)). Qed.

Lemma elem_of_delete {A} (l : list A) i x : x ∈ take i l ++ drop (S i) l -> x ∈ l.
Proof.
  intros [H|H]%elem_of_app; [by apply (subseteq_take i l)|].
  apply list_elem_of_lookup in H as [j Hj]. rewrite lookup_drop in Hj. by apply list_elem_of_lookup_2 in Hj.
Qed.

Lemma PausedSince_perform delay scope t0 w ev : 0 <= delay -> PausedSince delay scope t0 w -> allowed delay w ev -> keepsPaused scope ev ->
  PausedSince delay scope t0 (perform w ev).
Proof.
  intros Hd [H1 H2 H3 H4] Ha Hk. destruct ev as [s paused actor reason| | |i|i|d]; cbn in Ha, Hk |- *.
  - constructor; cbn; [done| |done|done]. rewrite pausedIn_set. destruct (decide (s = scope)); [by apply Hk|done].
  - by constructor.
  - constructor; cbn; [done|done|done|]. intros t q [Hin|Hin%list_elem_of_singleton]%elem_of_app; [by apply H4|]. injection Hin as -> ->. by left.
  - unfold storeLoad. destruct (wd_loads w !! i) as [[t q]|] eqn:E; [|by constructor]. constructor; cbn; [done|done| |].
    + intros t' e [= <- <-]. destruct (H4 t q) as [Hp|Hq]; [by eapply list_elem_of_lookup_2|by left|right]. specialize (Ha t q eq_refl). lia.
    + intros t' q' Hin. by apply H4, (elem_of_delete _ i).
  - constructor; cbn; [done|done|done|]. intros t' q' Hin. by apply H4, (elem_of_delete _ i).
  - constructor; cbn; [lia|done|done|done].
Qed.

Lemma PausedSince_run delay scope t0 evs : 0 <= delay -> Forall (keepsPaused scope) evs -> forall w, PausedSince delay scope t0 w -> allAllowed delay w evs ->
  PausedSince delay scope t0 (performAll w evs).
Proof.
  intros Hd Hk. induction Hk as [|ev evs Hev _ IH]; intros w Hw Ha; [done|]. destruct Ha as [Ha Hr]. cbn. apply IH; [|done]. by apply PausedSince_perform.
Qed.

(** Snapshots come from the past, and expire within the time to live. *)
Record WorldOk (w : World) : Prop := {
  ok_cache : ∀ t e, wd_cache w = Some (t, e) -> e <= wd_now w + TTL_MS;
  ok_loads : ∀ t q, (t, q) ∈ wd_loads w -> q <= wd_now w }.

Lemma WorldOk_perform w ev delay : WorldOk w -> allowed delay w ev -> WorldOk (perform w ev).
Proof.
  intros [H1 H2] Ha. destruct ev as [s paused actor reason| | |i|i|d]; cbn in Ha |- *; [by constructor|by constructor| | | |].
  - constructor; cbn; [done|]. intros t q [Hin|Hin%list_elem_of_singleton]%elem_of_app; [by eapply H2|]. injection Hin as -> ->. lia.
  - unfold storeLoad. destruct (wd_loads w !! i) as [[t q]|] eqn:E; [|by constructor]. constructor; cbn; [intros t' e [= _ <-]; lia|].
    intros t' q' Hin. by eapply H2, (elem_of_delete _ i).
  - constructor; cbn; [done|]. intros t' q' Hin. by eapply H2, (elem_of_delete _ i).
  - constructor; cbn; [intros t e He; specialize (H1 t e He); lia|intros t q Hin; specialize (H2 t q Hin); lia].
Qed.

Lemma WorldOk_run delay evs : forall w, WorldOk w -> allAllowed delay w evs -> WorldOk (performAll w evs).
Proof. induction evs as [|ev evs IH]; intros w Hw; [done|]. intros [Ha Hr]. cbn. apply IH; [by eapply WorldOk_perform|done]. Qed.

Definition start (now : Z) : World := mkWorld now [] [] None [].

Lemma allAllowed_app delay evs1 : forall w evs2, allAllowed delay w (evs1 ++ evs2) -> allAllowed delay w evs1 ∧ allAllowed delay (performAll w evs1) evs2.
Proof. induction evs1 as [|ev evs IH]; intros w evs2 H; [done|]. destruct H as [Ha H]. destruct (IH _ _ H). done. Qed.

(** C36: A pause takes effect within the cache's time to live: however reads and changes interleave and whatever Redis operations
    fail, once 30 seconds plus the longest delay between a read's query and its store have passed since the pause of a scope
    was committed, every answer for a coverage type of that scope (all of them for the global scope) is that it is paused, or
    the database error, until the scope is resumed. *)
Theorem pause_effective_within_ttl delay start_at before scope actor reason after code redisOk postgresOk :
  let w0 := performAll (start start_at) before in
  let w := performAll w0 (EvSet scope true actor reason :: after) in
  0 <= delay -> allAllowed delay (start start_at) (before ++ EvSet scope true actor reason :: after) -> Forall (keepsPaused scope) after ->
  wd_now w0 + TTL_MS + delay <= wd_now w ->
  scope = GLOBAL_PAUSE_SCOPE ∨ codeToSoroban code = Ok scope ->
  isPaused w redisOk postgresOk code = Ok true ∨ ∃ e, isPaused w redisOk postgresOk code = Err e.
Proof.
  intros w0 w Hd Ha Hk Ht Hscope. apply allAllowed_app in Ha as [Ha0 [_ Ha1]]. fold w0 in Ha1.
  assert (WorldOk w0) as [Hc Hl] by (eapply WorldOk_run; [|exact Ha0]; constructor; [done|by intros t q ?%not_elem_of_nil]).
  assert (PausedSince delay scope (wd_now w0) w) as [H1 H2 H3 H4].
  { change w with (performAll (perform w0 (EvSet scope true actor reason)) after). apply PausedSince_run; [done|done| |exact Ha1]. constructor; cbn; [lia|rewrite pausedIn_set; by rewrite decide_True| |].
    - intros t e He. right. specialize (Hc t e He). lia.
    - intros t q Hq. right. by apply (Hl t q). }
  assert (∀ t, pausedIn t scope = true -> pausedCode t code = Ok true ∨ ∃ e, pausedCode t code = Err e) as Hans.
  { intros t Hp. unfold pausedCode. destruct (pausedIn t GLOBAL_PAUSE_SCOPE) eqn:E; [by left|]. destruct Hscope as [-> | Hcode]; [congruence|]. rewrite Hcode. cbn. rewrite Hp. by left. }
  unfold isPaused, loadEntries, liveCache. destruct redisOk; [|destruct postgresOk; [by apply Hans|right; by eexists]].
  destruct (wd_cache w) as [[t e]|]; [|destruct postgresOk; [by apply Hans|right; by eexists]].
  destruct (wd_now w <? e) eqn:E; [|destruct postgresOk; [by apply Hans|right; by eexists]].
  destruct (H3 t e eq_refl) as [Hp|He]; [by apply Hans|lia].
Qed.

Definition demoEvents : list Event := [EvInvalidate; EvTick 30100].
Lemma pause_effective_within_ttl_witness :
  isPaused (performAll (performAll (start 0) [EvLoad; EvTick 50; EvStore 0]) (EvSet "StablecoinDepeg" true "op" "incident" :: demoEvents)) true true 0 = Ok true
  ∨ ∃ e, isPaused (performAll (performAll (start 0) [EvLoad; EvTick 50; EvStore 0]) (EvSet "StablecoinDepeg" true "op" "incident" :: demoEvents)) true true 0 = Err e.
Proof.
  apply (pause_effective_within_ttl 100 0 [EvLoad; EvTick 50; EvStore 0] "StablecoinDepeg" "op" "incident" demoEvents 0 true true);
    [lia| |repeat constructor|vm_compute; discriminate|right; vm_compute; reflexivity].
  cbn. split_and!; try done. intros t q [= <- <-]. lia.
Defined.

(** A read that queried before the pause stores its snapshot after the invalidation: the pause has been confirmed and payouts go on. *)
Lemma confirmed_pause_ignored :
  isPaused (performAll (start 0) [EvLoad; EvSet "StablecoinDepeg" true "op" "incident"; EvInvalidate; EvStore 0; EvTick 29999]) true true 0 = Ok false.
Proof. vm_compute. reflexivity. Qed.

(** * The audit trail *)

(** The state a scope has after the rows of the trail. *)
Definition lastAction (rows : list AuditRow) (scope : string) : bool :=
  foldl (fun acc r => if bool_decide (ar_scope r = scope) then ar_pause r else acc) false rows.
#[global] Arguments lastAction : simpl never.
#[global] Arguments pausedIn : simpl never.
(** Every row's prior state is what the rows before it left. *)
Definition Chained (rows : list AuditRow) : Prop := ∀ l1 r l2, rows = l1 ++ r :: l2 -> ar_priorPaused r = lastAction l1 (ar_scope r).

Lemma lastAction_snoc rows r scope : lastAction (rows ++ [r]) scope = if bool_decide (ar_scope r = scope) then ar_pause r else lastAction rows scope.
Proof. unfold lastAction. by rewrite foldl_snoc. Qed.

Lemma audit_explains_table evs : forall w, (∀ s, pausedIn (wd_table w) s = lastAction (wd_audit w) s) -> Chained (wd_audit w) ->
  (∀ s, pausedIn (wd_table (performAll w evs)) s = lastAction (wd_audit (performAll w evs)) s) ∧ Chained (wd_audit (performAll w evs)).
Proof.
  induction evs as [|ev evs IH]; intros w Hl Hc; [done|]. cbn. apply IH; destruct ev as [s paused actor reason| | |i|i|d]; cbn; try done;
    try (unfold storeLoad; destruct (wd_loads w !! i) as [[]|]; done).
  - intros s'. rewrite pausedIn_set, lastAction_snoc. cbn. destruct (decide (s = s')); [by rewrite bool_decide_eq_true_2|by rewrite bool_decide_eq_false_2].
  - intros l1 r l2 E. destruct l2 as [|x l2 _] using rev_ind.
    + apply app_inj_tail in E as [<- <-]. cbn. apply Hl.
    + rewrite app_comm_cons, app_assoc in E. apply app_inj_tail in E as [E _]. by eapply Hc.
Qed.
