(* ===== verification/IndependenceGraph.v ===== *)
(** Independence of oracle sources (src/oracle/independence-graph.ts): sources that share an
    operator, an upstream origin or a hosting network are put in one cluster by a union-find
    structure, and votes are corroborated by cluster.

    The parent map is threaded through [find] and [union] as the code mutates it; [find] recurses
    along parents, with the number of entries as its fuel. *)

From stdpp Require Import base list strings relations sets.
From Stdlib Require Import ZArith Lia Floats.
From S2P Require Import Prelude Decimal JsNum Canonical Consensus.

#[local] Open Scope nat_scope.

Record SourceIdentity := mkIdentity {
  sid_sourceId : string; sid_operatorId : option string; sid_upstreamOrigin : option string; sid_hostingAsn : option string; sid_declaredCluster : option string }.
Record SourceResolution := mkResolution { sr_sourceId : string; sr_clusterId : string; sr_weight : num; sr_verified : bool }.

Definition VERIFIED_WEIGHT : num := 1%float.
Definition UNVERIFIED_WEIGHT : num := 0.5%float.

(** * Union-find *)

Definition Parents : Type := list (string * string).

(** The root of a node, and the parents after path compression; [None] when the fuel runs out. *)
Fixpoint findFrom (fuel : nat) (parent : Parents) (node : string) : option (string * Parents) :=
  match fuel with
  | 0 => None
  | S fuel' =>
      match jm_get parent node with
      | None => Some (node, parent)
      | Some p =>
          if bool_decide (p = node) then Some (node, parent)
          else '(root, parent') ← findFrom fuel' parent p; Some (root, jm_set parent' node root)
      end
  end.
Definition find (parent : Parents) (node : string) : option (string * Parents) := findFrom (S (length parent)) parent node.
#[global] Arguments find : simpl never.

Definition union (parent : Parents) (a b : string) : option Parents :=
  '(ra, p1) ← find parent a; '(rb, p2) ← find p1 b;
  Some (if bool_decide (ra = rb) then p2 else jm_set p2 rb ra).

(** * Clusters *)

(** [v && `prefix${v}`], kept when truthy. *)
Definition attribute (prefix : string) (v : option string) : list string :=
  match v with Some s => if bool_decide (s = "") then [] else [prefix +:+ s] | None => [] end.
Definition sourceNode (s : SourceIdentity) : string := "source:" +:+ sid_sourceId s.
Definition attributes (s : SourceIdentity) : list string :=
  attribute "operator:" (sid_operatorId s) ++ attribute "origin:" (sid_upstreamOrigin s) ++ attribute "asn:" (sid_hostingAsn s).

(** The edges between sources and their attributes. *)
Definition edgesOf (sources : list SourceIdentity) : list (string * string) := flat_map (fun s => map (pair (sourceNode s)) (attributes s)) sources.

Fixpoint unionAll (parent : Parents) (edges : list (string * string)) : option Parents :=
  match edges with [] => Some parent | (a, b) :: rest => parent' ← union parent a b; unionAll parent' rest end.

Section Resolve.
Context `{JsHost}.

Definition sortSources (sources : list SourceIdentity) : list SourceIdentity := sort_by (fun a b => localeLe (sid_sourceId a) (sid_sourceId b)) sources.
Definition inferred (sources : list SourceIdentity) : list SourceIdentity := filter (fun s => sid_declaredCluster s = None) sources.

(** The first source of each root names the cluster. *)
Fixpoint nameClusters (parent : Parents) (sources : list SourceIdentity) (names : list (string * string)) : option (Parents * list (string * string)) :=
  match sources with
  | [] => Some (parent, names)
  | s :: rest =>
      '(root, parent') ← find parent (sourceNode s);
      nameClusters parent' rest (if jm_has names root then names else jm_set names root ("auto:" +:+ sid_sourceId s))
  end.

Fixpoint resolveAll (parent : Parents) (names : list (string * string)) (sources : list SourceIdentity) (acc : list (string * SourceResolution)) :
    option (list (string * SourceResolution)) :=
  match sources with
  | [] => Some acc
  | s :: rest =>
      match sid_declaredCluster s with
      | Some d => resolveAll parent names rest (jm_set acc (sid_sourceId s) (mkResolution (sid_sourceId s) ("declared:" +:+ d) VERIFIED_WEIGHT true))
      | None =>
          '(root, parent') ← find parent (sourceNode s);
          resolveAll parent' names rest (jm_set acc (sid_sourceId s)
            (mkResolution (sid_sourceId s) (default ("auto:" +:+ sid_sourceId s) (jm_get names root)) UNVERIFIED_WEIGHT false))
      end
  end.

Definition resolveIndependence (sources : list SourceIdentity) : option (list (string * SourceResolution)) :=
  let sorted := sortSources sources in
  parent ← unionAll [] (edgesOf (inferred sorted));
  '(parent', names) ← nameClusters parent (inferred sorted) [];
  resolveAll parent' names sorted [].
End Resolve.

(** * Votes *)

Record CorroborationVote := mkVote { vo_sourceId : string; vo_clusterId : string; vo_weight : num; vo_value : num; vo_observedAt : option Z; vo_payloadHash : option string }.
Inductive CorrelationKind := IdenticalPayload | TimingJitter.
Record CorrelationFlag := mkFlag { fg_kind : CorrelationKind; fg_sourceIds : list string }.
Inductive CorroborationReason := NoReadings | InsufficientIndependentClusters.
Record CorroborationResult := mkResult {
  co_value : option num; co_clusterCount : nat; co_independentWeight : num; co_quorumMet : bool; co_reason : option CorroborationReason; co_correlated : list CorrelationFlag }.
Definition DEFAULT_JITTER_MS : Z := 50.

(** Votes in order of the first vote with their key. *)
Definition groupVotes (key : CorroborationVote -> string) (votes : list CorroborationVote) : list (string * list CorroborationVote) :=
  foldl (fun m v => jm_set m (key v) (default [] (jm_get m (key v)) ++ [v])) [] votes.

Fixpoint jitterFlags (jitterMs : Z) (timed : list (Z * CorroborationVote)) : list CorrelationFlag :=
  match timed with
  | (t1, v1) :: (((t2, v2) :: _) as rest) =>
      (if negb (bool_decide (vo_clusterId v1 = vo_clusterId v2)) && (t2 - t1 <=? jitterMs)%Z then [mkFlag TimingJitter [vo_sourceId v1; vo_sourceId v2]] else [])
      ++ jitterFlags jitterMs rest
  | _ => []
  end.

Definition detectCorrelatedSubmissions (votes : list CorroborationVote) (jitterMs : Z) : list CorrelationFlag :=
  let hashed := List.filter (fun v => match vo_payloadHash v with Some h => negb (bool_decide (h = "")) | None => false end) votes in
  let byPayload := groupVotes (fun v => default "" (vo_payloadHash v)) hashed in
  flat_map (fun kv => let ids := setOf (map vo_sourceId kv.2) in if (1 <? length ids) then [mkFlag IdenticalPayload ids] else []) byPayload
  ++ jitterFlags jitterMs (sort_by (fun a b => (a.1 <=? b.1)%Z) (omap (fun v => (fun t => (t, v)) <$> vo_observedAt v) votes)).

Definition median (values : list num) : num :=
  let sorted := sort_by ascending values in
  let mid := length sorted / 2 in
  let below := default nan (sorted !! (mid - 1)) in
  let upper := default nan (sorted !! mid) in
  if Nat.even (length sorted) then ((below + upper) / 2)%float else upper.

Definition corroborate (votes : list CorroborationVote) (minClusters : num) : res string CorroborationResult :=
  if negb (isInteger minClusters) || nlt minClusters 1%float then Err "minClusters must be a positive integer"
  else
    let correlated := detectCorrelatedSubmissions votes DEFAULT_JITTER_MS in
    match votes with
    | [] => Ok (mkResult None 0 0%float false (Some NoReadings) correlated)
    | _ =>
        let byCluster := groupVotes vo_clusterId votes in
        let medians := map (fun kv => median (map vo_value kv.2)) byCluster in
        let weight := foldl (fun acc kv => (acc + foldl nmax (PrimFloat.opp infinity) (map vo_weight kv.2))%float) 0%float byCluster in
        let quorumMet := nge weight minClusters in
        Ok (mkResult (if quorumMet then Some (median medians) else None) (length byCluster) weight quorumMet
          (if quorumMet then None else Some InsufficientIndependentClusters) correlated)
    end.

(** * Forests *)

(** A parent map is a forest with a root for each node: along parents the depth decreases and the root stays. *)
Record Forest (parent : Parents) (root : string -> string) (depth : string -> nat) : Prop := {
  fo_step : ∀ a b, jm_get parent a = Some b -> a ≠ b -> root a = root b ∧ depth b < depth a;
  fo_root : ∀ a, jm_get parent a = None ∨ jm_get parent a = Some a -> root a = a;
  fo_nodup : NoDup (jm_keys parent) }.

Lemma Forest_empty : Forest [] id (fun _ => 0).
Proof. constructor; [done|done|constructor]. Qed.

(** A root is its own root, and no deeper than its nodes. *)
Lemma Forest_root parent root depth : Forest parent root depth -> ∀ a,
  root (root a) = root a ∧ (root a = a ∨ depth (root a) < depth a) ∧ (jm_get parent (root a) = None ∨ jm_get parent (root a) = Some (root a)).
Proof.
  intros Hf a. remember (depth a) as n eqn:E. revert a E. induction n as [n IH] using lt_wf_ind. intros a ->.
  destruct (jm_get parent a) as [b|] eqn:Eb; [destruct (decide (a = b)) as [<- | Hne]|].
  - rewrite (fo_root _ _ _ Hf a) by (by right). rewrite (fo_root _ _ _ Hf a) by (by right). auto.
  - destruct (fo_step _ _ _ Hf a b Eb Hne) as [Hr Hd]. rewrite Hr. destruct (IH (depth b) Hd b eq_refl) as (H1 & H2 & H3).
    split_and!; [done| |done]. right. destruct H2 as [-> | H2]; lia.
  - rewrite (fo_root _ _ _ Hf a) by (by left). rewrite (fo_root _ _ _ Hf a) by (by left). auto.
Qed.

(** Pointing a node at its root keeps the forest. *)
Lemma Forest_compress parent root depth a : Forest parent root depth -> root a ≠ a -> Forest (jm_set parent a (root a)) root depth.
Proof.
  intros Hf Hne. destruct (Forest_root _ _ _ Hf a) as (H1 & H2 & H3). constructor; [| |apply jm_set_NoDup, Hf].
  - intros x y. rewrite jm_get_set. destruct (decide (a = x)) as [<- | Hx]; [|apply Hf]. intros [= <-] _. split; [done|]. by destruct H2.
  - intros x. rewrite jm_get_set. destruct (decide (a = x)) as [<- | Hx]; [|apply Hf]. intros [?|[= E]]; [done|]. by rewrite E in Hne.
Qed.

(** The nodes of the map that are no deeper than a node: the fuel a search from it needs. *)
Definition reach (parent : Parents) (depth : string -> nat) (a : string) : nat := length (filter (fun k => depth k <= depth a) (jm_keys parent)).

Lemma reach_parent parent root depth a b : Forest parent root depth -> jm_get parent a = Some b -> a ≠ b -> reach parent depth b < reach parent depth a.
Proof.
  intros Hf Hb Hne. destruct (fo_step _ _ _ Hf a b Hb Hne) as [_ Hd]. unfold reach. apply jm_get_Some_in in Hb.
  assert (a ∈ jm_keys parent) as Ha by (apply list_elem_of_fmap; by exists (a, b)). pose proof (fo_nodup _ _ _ Hf) as Hnd.
  set (small := filter (fun k => depth k <= depth b) (jm_keys parent)). set (big := filter (fun k => depth k <= depth a) (jm_keys parent)).
  assert (a :: small ⊆+ big) as Hs.
  { apply NoDup_submseteq.
    - apply NoDup_cons. split; [|by apply NoDup_filter]. intros [? _]%list_elem_of_filter. lia.
    - intros x [-> | [Hx Hin]%list_elem_of_filter]%elem_of_cons; apply list_elem_of_filter; split; [lia|done|lia|done]. }
  apply submseteq_length in Hs. cbn in Hs. lia.
Qed.

Lemma reach_bound parent depth a : reach parent depth a <= length parent.
Proof. unfold reach. rewrite length_filter. unfold jm_keys. by rewrite length_fmap. Qed.

(** [find] terminates, answers the root and keeps the forest. *)
Lemma findFrom_spec fuel : forall parent root depth a, Forest parent root depth -> reach parent depth a < fuel ->
  ∃ parent', findFrom fuel parent a = Some (root a, parent') ∧ Forest parent' root depth.
Proof.
  induction fuel as [|fuel IH]; intros parent root depth a Hf Hfuel; [lia|]. cbn. destruct (jm_get parent a) as [b|] eqn:Eb.
  - destruct (bool_decide_reflect (b = a)) as [-> | Hne].
    + exists parent. by rewrite (fo_root _ _ _ Hf a) by (by right).
    + assert (a ≠ b) as Hne' by done. pose proof (reach_parent _ _ _ _ _ Hf Eb Hne') as Hlt. destruct (IH parent root depth b Hf ltac:(lia)) as (p' & Hp & Hf').
      destruct (fo_step _ _ _ Hf a b Eb Hne') as [Hr Hd]. rewrite Hp, <- Hr. cbn. eexists. split; [done|]. apply Forest_compress; [done|].
      rewrite Hr. intros E. destruct (Forest_root _ _ _ Hf b) as (_ & [H2|H2] & _); [congruence|]. rewrite E in H2. lia.
  - exists parent. by rewrite (fo_root _ _ _ Hf a) by (by left).
Qed.

Lemma find_spec parent root depth a : Forest parent root depth -> ∃ parent', find parent a = Some (root a, parent') ∧ Forest parent' root depth.
Proof. intros Hf. apply findFrom_spec; [done|]. pose proof (reach_bound parent depth a). lia. Qed.

(** Linking one root under another. *)
Lemma Forest_link parent root depth ra rb : Forest parent root depth -> root ra = ra -> root rb = rb -> ra ≠ rb ->
  Forest (jm_set parent rb ra) (fun x => if decide (root x = rb) then ra else root x) (fun x => if decide (root x = rb) then depth x + depth ra + 1 else depth x).
Proof.
  intros Hf Ha Hb Hne. constructor; [| |apply jm_set_NoDup, Hf].
  - intros x y. rewrite jm_get_set. destruct (decide (rb = x)) as [<- | Hx].
    + intros [= <-] _. cbv beta. rewrite Hb, Ha. destruct (decide (ra = rb)); [done|]. destruct (decide (rb = rb)); [split; [done|lia]|done].
    + intros Hy Hxy. destruct (fo_step _ _ _ Hf x y Hy Hxy) as [Hr Hd]. cbv beta. rewrite Hr. split; [done|]. destruct (decide (root y = rb)); lia.
  - intros x. rewrite jm_get_set. destruct (decide (rb = x)) as [<- | Hx]; [by intros [?|[= ?]]|]. intros Hg.
    rewrite (fo_root _ _ _ Hf x Hg). by rewrite decide_False.
Qed.

(** * Roots and connection *)

(** Nodes connected by edges. *)
Definition connected (edges : list (string * string)) : string -> string -> Prop := rtsc (fun a b => (a, b) ∈ edges).
(** The roots decide connection. *)
Definition decides (root : string -> string) (edges : list (string * string)) : Prop := ∀ a b, root a = root b <-> connected edges a b.

Lemma decides_least (root : string -> string) edges : (∀ a b, (a, b) ∈ edges -> root a = root b) -> ∀ a b, connected edges a b -> root a = root b.
Proof. intros H a b Hc. induction Hc as [a|a b c Hab _ IH]; [done|]. rewrite <- IH. destruct Hab as [Hab|Hab]; [by apply H|symmetry; by apply H]. Qed.

Lemma connected_more edges edges' a b : edges ⊆ edges' -> connected edges a b -> connected edges' a b.
Proof.
  intros Hs Hc. induction Hc as [x|x y z Hxy _ IH]; [reflexivity|]. etrans; [|exact IH]. destruct Hxy as [H|H]; [apply rtsc_lr|apply rtsc_rl]; by apply Hs.
Qed.

Lemma union_spec parent root depth edges a b : Forest parent root depth -> decides root edges ->
  ∃ parent' root' depth', union parent a b = Some parent' ∧ Forest parent' root' depth' ∧ decides root' (edges ++ [(a, b)]).
Proof.
  intros Hf Hd. unfold union. destruct (find_spec _ _ _ a Hf) as (p1 & -> & Hf1). cbn. destruct (find_spec _ _ _ b Hf1) as (p2 & -> & Hf2). cbn.
  assert (∀ x y, connected edges x y -> connected (edges ++ [(a, b)]) x y) as Hmore by (intros x y; apply connected_more; set_solver).
  assert (connected (edges ++ [(a, b)]) a b) as Hab by (apply rtsc_lr; set_solver).
  destruct (bool_decide_reflect (root a = root b)) as [E|Hne].
  - eexists _, root, depth. split_and!; [done|done|]. intros x y. split; [intros Hx; by apply Hmore, Hd|].
    apply decides_least. intros x' y' [Hin|Hin%list_elem_of_singleton]%elem_of_app; [by apply Hd, rtsc_lr|]. by injection Hin as -> ->.
  - destruct (Forest_root _ _ _ Hf2 a) as (Ha & _), (Forest_root _ _ _ Hf2 b) as (Hb & _).
    pose (root' := fun x => if decide (root x = root b) then root a else root x).
    eexists _, root', _. split_and!; [done|by apply Forest_link|]. intros x y. split.
    + assert (∀ z, root z = root b -> connected (edges ++ [(a, b)]) z a) as Hz.
      { intros z Hz%Hd%Hmore. etrans; [exact Hz|]. by symmetry. }
      unfold root'. destruct (decide (root x = root b)) as [Ex|Ex], (decide (root y = root b)) as [Ey|Ey]; intros E.
      * etrans; [by apply Hz|]. symmetry. by apply Hz.
      * etrans; [by apply Hz|]. by apply Hmore, Hd.
      * symmetry. etrans; [by apply Hz|]. by apply Hmore, Hd.
      * by apply Hmore, Hd.
    + apply (decides_least root'). unfold root'. intros x' y' [Hin|Hin%list_elem_of_singleton]%elem_of_app.
      * assert (root x' = root y') as -> by (by apply Hd, rtsc_lr). done.
      * injection Hin as -> ->. rewrite (decide_True (P := root b = root b)) by done. by destruct (decide (root a = root b)).
Qed.

Lemma unionAll_spec edges : forall parent root depth before, Forest parent root depth -> decides root before ->
  ∃ parent' root' depth', unionAll parent edges = Some parent' ∧ Forest parent' root' depth' ∧ decides root' (before ++ edges).
Proof.
  induction edges as [|[a b] edges IH]; intros parent root depth before Hf Hd; [exists parent, root, depth; by rewrite app_nil_r|]. cbn.
  destruct (union_spec _ _ _ _ a b Hf Hd) as (p1 & r1 & d1 & -> & Hf1 & Hd1). cbn. destruct (IH _ _ _ _ Hf1 Hd1) as (p2 & r2 & d2 & Hu & Hf2 & Hd2).
  exists p2, r2, d2. by rewrite <- app_assoc in Hd2.
Qed.

(** * Names of clusters *)

(** The first source of a list with a given root. *)
Fixpoint firstWith (root : string -> string) (r : string) (sources : list SourceIdentity) : option string :=
  match sources with [] => None | s :: rest => if decide (root (sourceNode s) = r) then Some (sid_sourceId s) else firstWith root r rest end.

Lemma firstWith_app root r l1 l2 : firstWith root r (l1 ++ l2) = match firstWith root r l1 with Some x => Some x | None => firstWith root r l2 end.
Proof. induction l1 as [|s l1 IH]; [done|]. cbn. by destruct (decide (root (sourceNode s) = r)). Qed.

Lemma nameClusters_spec sources root depth : forall parent names before, Forest parent root depth ->
  (∀ r, jm_get names r = String.append "auto:" <$> firstWith root r before) ->
  ∃ parent' names', nameClusters parent sources names = Some (parent', names') ∧ Forest parent' root depth
    ∧ ∀ r, jm_get names' r = String.append "auto:" <$> firstWith root r (before ++ sources).
Proof.
  induction sources as [|s sources IH]; intros parent names before Hf Hn; [exists parent, names; by rewrite app_nil_r|]. cbn.
  destruct (find_spec _ _ _ (sourceNode s) Hf) as (p1 & -> & Hf1). cbn. set (names1 := if jm_has names _ then names else _).
  destruct (IH p1 names1 (before ++ [s]) Hf1) as (p2 & n2 & H1 & H2 & H3); [|exists p2, n2; rewrite <- app_assoc in H3; by split_and!].
  intros r. unfold names1, jm_has. rewrite firstWith_app. cbn.
  destruct (bool_decide_reflect (is_Some (jm_get names (root (sourceNode s))))) as [[x Hx]|Hnone].
  - rewrite Hn. destruct (firstWith root r before) eqn:E; [done|]. destruct (decide (root (sourceNode s) = r)) as [<- | Hne]; [|done].
    rewrite Hn, E in Hx. done.
  - rewrite jm_get_set. destruct (decide (root (sourceNode s) = r)) as [<- | Hne]; [|rewrite Hn; by destruct (firstWith root r before)].
    apply eq_None_not_Some in Hnone. rewrite Hn in Hnone. by destruct (firstWith root (root (sourceNode s)) before).
Qed.

(** What the resolution of a source is. *)
Definition resolutionOf (root : string -> string) (named : list SourceIdentity) (s : SourceIdentity) : SourceResolution :=
  match sid_declaredCluster s with
  | Some d => mkResolution (sid_sourceId s) ("declared:" +:+ d) VERIFIED_WEIGHT true
  | None => mkResolution (sid_sourceId s) ("auto:" +:+ default (sid_sourceId s) (firstWith root (root (sourceNode s)) named)) UNVERIFIED_WEIGHT false
  end.

Lemma resolveAll_spec sources root depth names named : (∀ r, jm_get names r = String.append "auto:" <$> firstWith root r named) ->
  forall parent acc, Forest parent root depth ->
  resolveAll parent names sources acc = Some (foldl (fun m s => jm_set m (sid_sourceId s) (resolutionOf root named s)) acc sources).
Proof.
  intros Hn. induction sources as [|s sources IH]; intros parent acc Hf; [done|]. cbn. unfold resolutionOf at 2. destruct (sid_declaredCluster s) as [d|]; [by apply (IH parent)|].
  destruct (find_spec _ _ _ (sourceNode s) Hf) as (p1 & -> & Hf1). cbn. rewrite Hn. rewrite (IH p1) by done. do 4 f_equal.
  by destruct (firstWith root (root (sourceNode s)) named).
Qed.

(** * The clusters are the connected components *)

Lemma foldl_set_get {A B} (key : A -> string) (f : A -> B) l : NoDup (map key l) -> forall m x, x ∈ l ->
  jm_get (foldl (fun m s => jm_set m (key s) (f s)) m l) (key x) = Some (f x).
Proof.
  induction l as [|y l IH]; intros Hnd m x Hx; [by apply not_elem_of_nil in Hx|]. cbn in Hnd |- *. apply NoDup_cons in Hnd as [Hy Hnd].
  apply elem_of_cons in Hx as [-> | Hx]; [|by apply IH]. clear IH.
  assert (∀ m', jm_get m' (key y) = Some (f y) -> jm_get (foldl (fun m s => jm_set m (key s) (f s)) m' l) (key y) = Some (f y)) as Hkeep.
  { clear -Hy. induction l as [|z l IH]; intros m' Hm'; [done|]. cbn in Hy |- *. apply not_elem_of_cons in Hy as [Hz Hy]. apply IH; [done|].
    rewrite jm_get_set_ne; [done|congruence]. }
  apply Hkeep, jm_get_set_eq.
Qed.

Lemma firstWith_root root r sources id : firstWith root r sources = Some id -> root ("source:" +:+ id) = r.
Proof. induction sources as [|s sources IH]; [done|]. cbn. destruct (decide (root (sourceNode s) = r)) as [E|]; [by intros [= <-]|done]. Qed.

Lemma firstWith_some root s sources : s ∈ sources -> is_Some (firstWith root (root (sourceNode s)) sources).
Proof.
  induction sources as [|x sources IH]; intros Hs; [by apply not_elem_of_nil in Hs|]. cbn. destruct (decide (root (sourceNode x) = root (sourceNode s))); [by eexists|].
  apply elem_of_cons in Hs as [-> | Hs]; [done|by apply IH].
Qed.

(** Two inferred sources have the same name of cluster when they have the same root. *)
Lemma resolutionOf_cluster root named s t : s ∈ named -> t ∈ named -> sid_declaredCluster s = None -> sid_declaredCluster t = None ->
  (sr_clusterId (resolutionOf root named s) = sr_clusterId (resolutionOf root named t) <-> root (sourceNode s) = root (sourceNode t)).
Proof.
  intros Hs Ht Ds Dt. unfold resolutionOf. rewrite Ds, Dt. cbn. destruct (firstWith_some root s named Hs) as [a Ha], (firstWith_some root t named Ht) as [b Hb].
  rewrite Ha, Hb. cbn. split.
  - intros E. assert (a = b) as -> by (by injection E). apply firstWith_root in Ha, Hb. congruence.
  - intros E. rewrite E, Hb in Ha. by injection Ha as ->.
Qed.

Section Components.
Context `{JsHost}.

Lemma elem_of_inferred s sources : s ∈ inferred (sortSources sources) <-> s ∈ sources ∧ sid_declaredCluster s = None.
Proof. unfold inferred, sortSources. rewrite list_elem_of_filter, elem_of_sort_by. tauto. Qed.

Lemma elem_of_edges e sources : e ∈ edgesOf sources <-> ∃ s a, s ∈ sources ∧ a ∈ attributes s ∧ e = (sourceNode s, a).
Proof.
  unfold edgesOf. rewrite list_elem_of_In, in_flat_map. setoid_rewrite in_map_iff. setoid_rewrite <- list_elem_of_In. naive_solver.
Qed.

Lemma edges_sorted sources : edgesOf (inferred (sortSources sources)) ⊆ edgesOf (inferred sources) ∧ edgesOf (inferred sources) ⊆ edgesOf (inferred (sortSources sources)).
Proof.
  split; intros e; rewrite !elem_of_edges; unfold inferred, sortSources;
    setoid_rewrite list_elem_of_filter; setoid_rewrite elem_of_sort_by; naive_solver.
Qed.

(** The resolution is total, and is [resolutionOf] for roots that decide connection. *)
Lemma resolveIndependence_spec sources : ∃ root, decides root (edgesOf (inferred (sortSources sources)))
  ∧ resolveIndependence sources = Some (foldl (fun m s => jm_set m (sid_sourceId s) (resolutionOf root (inferred (sortSources sources)) s)) [] (sortSources sources)).
Proof.
  unfold resolveIndependence. destruct (unionAll_spec (edgesOf (inferred (sortSources sources))) [] id (fun _ => 0) [] Forest_empty) as (p & root & depth & -> & Hf & Hd).
  { intros a b. unfold id. split; [intros ->; reflexivity|]. apply (decides_least (fun x => x)). by intros ?? ?%not_elem_of_nil. }
  cbn. destruct (nameClusters_spec (inferred (sortSources sources)) root depth p [] [] Hf) as (p' & names & -> & Hf' & Hn); [done|]. cbn.
  exists root. split; [done|]. by apply (resolveAll_spec _ root depth).
Qed.
End Components.

(** C31: The union-find of [resolveIndependence] always terminates with a cluster for every source, and its clusters are exactly
    the connected components of the shared attributes: two undeclared sources are in the same cluster if and only if a chain
    of sources, each sharing an operator, an upstream origin or a hosting network with the next, joins them.  A declared source
    is in its declared cluster with full weight, apart from every inferred one. *)
Theorem clusters_are_components `{JsHost} sources : NoDup (map sid_sourceId sources) ->
  ∃ m, resolveIndependence sources = Some m
  ∧ (∀ s, s ∈ sources -> ∃ r, jm_get m (sid_sourceId s) = Some r ∧
      match sid_declaredCluster s with
      | Some d => sr_clusterId r = "declared:" +:+ d ∧ sr_verified r = true ∧ sr_weight r = VERIFIED_WEIGHT
      | None => (∃ id, sr_clusterId r = "auto:" +:+ id) ∧ sr_verified r = false ∧ sr_weight r = UNVERIFIED_WEIGHT
      end)
  ∧ (∀ s t rs rt, s ∈ sources -> t ∈ sources -> sid_declaredCluster s = None -> sid_declaredCluster t = None ->
      jm_get m (sid_sourceId s) = Some rs -> jm_get m (sid_sourceId t) = Some rt ->
      (sr_clusterId rs = sr_clusterId rt <-> connected (edgesOf (inferred sources)) (sourceNode s) (sourceNode t))).
Proof.
  intros Hnd. destruct (resolveIndependence_spec sources) as (root & Hd & Hm). eexists. split; [exact Hm|].
  assert (∀ s, s ∈ sources -> jm_get (foldl (fun m s => jm_set m (sid_sourceId s) (resolutionOf root (inferred (sortSources sources)) s)) [] (sortSources sources)) (sid_sourceId s)
    = Some (resolutionOf root (inferred (sortSources sources)) s)) as Hget.
  { intros s Hs. apply foldl_set_get; [|by apply elem_of_sort_by]. unfold sortSources.
    assert (map sid_sourceId (sort_by (fun a b => localeLe (sid_sourceId a) (sid_sourceId b)) sources) ≡ₚ map sid_sourceId sources) as -> by (apply Permutation_map, sort_by_perm).
    done. }
  split.
  - intros s Hs. eexists. split; [by apply Hget|]. unfold resolutionOf. destruct (sid_declaredCluster s); cbn; [done|]. split_and!; [by eexists|done|done].
  - intros s t rs rt Hs Ht Ds Dt. rewrite (Hget s Hs), (Hget t Ht). intros [= <-] [= <-].
    rewrite resolutionOf_cluster by (rewrite ?elem_of_inferred; done). rewrite (Hd _ _). destruct (edges_sorted sources). split; by apply connected_more.
Qed.

#[local] Existing Instance demoHost.
Definition demoIdentity (id : string) (operator asn declared : option string) : SourceIdentity := mkIdentity id operator None asn declared.
Definition demoSources : list SourceIdentity :=
  [demoIdentity "c" (Some "op2") (Some "AS1") None; demoIdentity "a" (Some "op1") None None; demoIdentity "b" (Some "op1") (Some "AS1") None;
   demoIdentity "d" (Some "op1") None (Some "exchange"); demoIdentity "e" None None None].

Lemma clusters_are_components_witness : ∃ m, resolveIndependence demoSources = Some m
  ∧ map (fun kv => sr_clusterId kv.2) m = ["auto:a"; "auto:a"; "auto:a"; "declared:exchange"; "auto:e"]
  ∧ connected (edgesOf (inferred demoSources)) "source:a" "source:c".
Proof.
  destruct (clusters_are_components demoSources) as (m & Hm & _ & Hc); [apply (bool_decide_unpack _); vm_compute; exact I|].
  exists m. split; [done|]. vm_compute in Hm. injection Hm as <-. split; [reflexivity|].
  refine (proj1 (Hc (demoIdentity "a" (Some "op1") None None) (demoIdentity "c" (Some "op2") (Some "AS1") None) _ _ _ _ eq_refl eq_refl eq_refl eq_refl) _);
    [by repeat constructor|by repeat constructor|reflexivity].
Defined.

(** The result does not depend on the order of the sources, when collation separates their ids. *)
Lemma resolveIndependence_order `{JsHost} `{!LocaleOrder} l1 l2 : l1 ≡ₚ l2 -> NoDup (map sid_sourceId l1) ->
  (∀ a b, localeLe a b = true -> localeLe b a = true -> a = b) -> resolveIndependence l1 = resolveIndependence l2.
Proof.
  intros Hp Hnd Hanti. unfold resolveIndependence. assert (sortSources l1 = sortSources l2) as ->; [|done]. unfold sortSources.
  apply (sorted_perm_unique_on (fun a b => localeLe (sid_sourceId a) (sid_sourceId b))).
  - intros x y Hx Hy H1 H2. rewrite elem_of_sort_by in Hx, Hy. eapply NoDup_map_inj; [exact Hnd|done|done|by apply Hanti].
  - apply sort_by_sorted; [intros x y; apply locale_total|intros x y z; apply locale_trans].
  - apply sort_by_sorted; [intros x y; apply locale_total|intros x y z; apply locale_trans].
  - by rewrite !sort_by_perm.
Qed.
