(* ===== verification/Freshness.v ===== *)
(** The ingestion-side freshness guard (src/oracle/freshnessPolicy.ts): a reading is usable only
    when its timestamp is present, not in the future, within the feed's window, and its source
    has been reporting without a gap; a sweep marks feeds without a recent usable reading stale.

    Times are milliseconds.  The per-feed defaults are imported from the coverage catalog, which
    does not define them: they are a parameter of [resolveFreshnessPolicies]. *)

From stdpp Require Import base list strings.
From Stdlib Require Import ZArith Lia Floats Ascii.
From S2P Require Import Prelude Decimal JsNum JsParse Canonical Consensus Attestation.

#[local] Open Scope Z_scope.

Record FreshnessPolicy := mkPolicy { fp_freshnessWindowSeconds : Z; fp_maxClockSkewSeconds : Z; fp_heartbeatIntervalSeconds : Z }.
Inductive FreshnessRejectionReason := MissingTimestamp | FutureDated | TooOld | HeartbeatGap.
Record FreshnessInput := mkInput { fi_coverageType : string; fi_source : string; fi_observedAt : option Z; fi_ingestedAt : Z }.
Record FreshnessVerdict := mkVerdict { fv_usable : bool; fv_reason : option FreshnessRejectionReason; fv_observedAt : Z }.

(** * Policies *)

Definition isLower (c : ascii) : bool := let n := N_of_ascii c in ((97 <=? n) && (n <=? 122))%N.
Definition isUpper (c : ascii) : bool := let n := N_of_ascii c in ((65 <=? n) && (n <=? 90))%N.
Definition upperAscii (c : ascii) : ascii := if isLower c then ascii_of_N (N_of_ascii c - 32) else c.
(** [name.replace(/([a-z0-9])([A-Z])/g, "$1_$2").toUpperCase()]: matches consume both characters. *)
Fixpoint snake (s : text) : text :=
  match s with
  | a :: ((b :: rest) as r) => if (isLower a || is_digit a) && isUpper b then a :: "_"%char :: b :: snake rest else a :: snake r
  | _ => s
  end.
Definition toSnakeCase (name : string) : string := String.string_of_list_ascii (map upperAscii (snake (String.list_ascii_of_string name))).

Definition readSeconds (env : string -> option string) (key : string) (fallback : Z) : res string Z :=
  match env key with
  | None => Ok fallback
  | Some raw =>
      if bool_decide (trimmed raw = "") then Ok fallback
      else let v := toNumber raw in
        if negb (isInteger v) || nle v 0%float then Err (key +:+ " must be a positive integer number of seconds")
        else Ok (default fallback (round_to_Z v))
  end.

Definition ENV_PREFIX : string := "ORACLE_FRESHNESS_".
Definition resolveFreshnessPolicies (defaults : list (string * FreshnessPolicy)) (env : string -> option string) : res string (list (string * FreshnessPolicy)) :=
  collect (fun fd : string * FreshnessPolicy =>
    let prefix := ENV_PREFIX +:+ toSnakeCase fd.1 +:+ "_" in
    w ← readSeconds env (prefix +:+ "WINDOW_SECONDS") (fp_freshnessWindowSeconds fd.2);
    k ← readSeconds env (prefix +:+ "MAX_CLOCK_SKEW_SECONDS") (fp_maxClockSkewSeconds fd.2);
    h ← readSeconds env (prefix +:+ "HEARTBEAT_INTERVAL_SECONDS") (fp_heartbeatIntervalSeconds fd.2);
    Ok (fd.1, mkPolicy w k h)) defaults.

(** * The guard *)

Record FreshnessGuard := mkGuard { fg_lastArrival : list (string * string * Z); fg_lastUsable : list (string * Z); fg_stale : list string }.
Definition newGuard : FreshnessGuard := mkGuard [] [] [].

(** The series of a feed and source; the code joins them with a bar that no feed name contains. *)
Definition seriesKey (i : FreshnessInput) : string * string := (fi_coverageType i, fi_source i).

Section Guard.
Variable policies : list (string * FreshnessPolicy).

(** The rules in order; [gap] is whether the source was silent for too long. *)
Definition judge (p : FreshnessPolicy) (i : FreshnessInput) (gap : bool) : option FreshnessRejectionReason :=
  match fi_observedAt i with
  | None => Some MissingTimestamp
  | Some observed =>
      if fp_maxClockSkewSeconds p * 1000 <? observed - fi_ingestedAt i then Some FutureDated
      else if fp_freshnessWindowSeconds p * 1000 <? Z.max 0 (fi_ingestedAt i - observed) then Some TooOld
      else if gap then Some HeartbeatGap else None
  end.

Definition evaluate (g : FreshnessGuard) (i : FreshnessInput) : res string (FreshnessVerdict * FreshnessGuard) :=
  match jm_get policies (fi_coverageType i) with
  | None => Err ("No freshness policy declared for coverageType: " +:+ fi_coverageType i)
  | Some p =>
      let gap := match jm_get (fg_lastArrival g) (seriesKey i) with Some prev => fp_heartbeatIntervalSeconds p * 1000 <? fi_ingestedAt i - prev | None => false end in
      let arrivals := jm_set (fg_lastArrival g) (seriesKey i) (fi_ingestedAt i) in
      let observed := default (fi_ingestedAt i) (fi_observedAt i) in
      match judge p i gap with
      | Some reason => Ok (mkVerdict false (Some reason) observed, mkGuard arrivals (fg_lastUsable g) (fg_stale g))
      | None =>
          let usable := match jm_get (fg_lastUsable g) (fi_coverageType i) with
            | Some prev => if prev <? observed then jm_set (fg_lastUsable g) (fi_coverageType i) observed else fg_lastUsable g
            | None => jm_set (fg_lastUsable g) (fi_coverageType i) observed end in
          Ok (mkVerdict true None observed, mkGuard arrivals usable (filter (.≠ fi_coverageType i) (fg_stale g)))
      end
  end.

(** The latest arrival over the sources of a feed. *)
Definition latestArrival (g : FreshnessGuard) (feed : string) : option Z :=
  foldl (fun latest ka => if bool_decide (ka.1.1 = feed) then match latest with Some l => if l <? ka.2 then Some ka.2 else latest | None => Some ka.2 end else latest)
    None (fg_lastArrival g).

Definition stalled (g : FreshnessGuard) (now : Z) (feed : string) (p : FreshnessPolicy) : bool :=
  match jm_get (fg_lastUsable g) feed with Some last => fp_freshnessWindowSeconds p * 1000 <? now - last | None => true end
  || match latestArrival g feed with Some last => fp_heartbeatIntervalSeconds p * 1000 <? now - last | None => false end.

Definition sweep (g : FreshnessGuard) (now : Z) : FreshnessGuard :=
  mkGuard (fg_lastArrival g) (fg_lastUsable g)
    (foldl (fun s fp => if stalled g now fp.1 fp.2 then addToSet fp.1 s else s) (fg_stale g) policies).

Definition isStale (g : FreshnessGuard) (feed : string) : bool := bool_decide (feed ∈ fg_stale g).

(** * Runs *)

Inductive GuardEvent := Reading (i : FreshnessInput) | Sweep (now : Z).
(** A reading of a feed without a policy throws and changes nothing. *)
Definition guardStep (g : FreshnessGuard) (e : GuardEvent) : FreshnessGuard :=
  match e with Reading i => match evaluate g i with Ok (_, g') => g' | Err _ => g end | Sweep now => sweep g now end.
Definition guardAfter (es : list GuardEvent) : FreshnessGuard := foldl guardStep newGuard es.

(** The time a series was last heard of in a list of events. *)
Fixpoint lastHeard (key : string * string) (es : list GuardEvent) : option Z :=
  match es with
  | [] => None
  | e :: rest =>
      match lastHeard key rest with
      | Some t => Some t
      | None => match e with Reading i => if decide (seriesKey i = key) then (if jm_has policies (fi_coverageType i) then Some (fi_ingestedAt i) else None) else None | Sweep _ => None end
      end
  end.

Lemma lastHeard_snoc key es e : lastHeard key (es ++ [e]) =
  match lastHeard key [e] with Some t => Some t | None => lastHeard key es end.
Proof.
  induction es as [|x es IH]; cbn -[decide]; [by destruct e; try destruct (decide _); try destruct (jm_has _ _)|]. cbn -[decide] in IH. rewrite IH.
  destruct e as [i|]; [|done]. destruct (decide (seriesKey i = key)); [|done]. by destruct (jm_has policies (fi_coverageType i)).
Qed.

(** The state remembers when each series was last heard of. *)
Lemma guard_lastHeard es key : jm_get (fg_lastArrival (guardAfter es)) key = lastHeard key es.
Proof.
  unfold guardAfter. induction es as [|e es IH] using rev_ind; [done|]. rewrite foldl_snoc, lastHeard_snoc. set (g := foldl guardStep newGuard es) in *.
  destruct e as [i|now]; [|exact IH]. cbn -[decide]. unfold evaluate, jm_has. destruct (jm_get policies (fi_coverageType i)) as [p|] eqn:Ep.
  - rewrite bool_decide_eq_true_2 by (by eexists). set (gap := match jm_get (fg_lastArrival g) (seriesKey i) with Some _ => _ | None => _ end).
    destruct (judge p i gap); cbn -[decide]; rewrite jm_get_set; destruct (decide (seriesKey i = key)); done.
  - rewrite bool_decide_eq_false_2 by (by intros []). by destruct (decide (seriesKey i = key)).
Qed.

(** The usable readings of a list of events. *)
Definition usableAt (before : list GuardEvent) (i : FreshnessInput) (observed : Z) : Prop :=
  ∃ g', evaluate (guardAfter before) i = Ok (mkVerdict true None observed, g').

(** A usable reading is fresh and contiguous: after any sequence of readings and sweeps, it carries a timestamp of its source,
    at most the clock skew ahead of its ingestion and at most the window behind, and if its series was heard of before, the
    last time is at most the heartbeat interval ago. *)
Theorem usable_reading_fresh before i observed p : usableAt before i observed -> jm_get policies (fi_coverageType i) = Some p ->
  fi_observedAt i = Some observed
  ∧ observed <= fi_ingestedAt i + fp_maxClockSkewSeconds p * 1000
  ∧ (0 <= fp_freshnessWindowSeconds p -> fi_ingestedAt i - fp_freshnessWindowSeconds p * 1000 <= observed)
  ∧ ∀ t, lastHeard (seriesKey i) before = Some t -> fi_ingestedAt i <= t + fp_heartbeatIntervalSeconds p * 1000.
Proof.
  intros (g' & He) Hp. unfold evaluate in He. rewrite Hp, guard_lastHeard in He. set (gap := match lastHeard _ _ with Some _ => _ | None => _ end) in He.
  destruct (judge p i gap) as [r|] eqn:Ej; [done|]. unfold judge in Ej. destruct (fi_observedAt i) as [o|]; [|done].
  injection He as <- _. cbn. destruct (_ <? o - fi_ingestedAt i) eqn:E1; [done|]. destruct (_ <? Z.max 0 _) eqn:E2; [done|]. destruct gap eqn:Eg; [done|].
  split_and!; [done|lia|lia|]. intros t Ht. unfold gap in Eg. rewrite Ht in Eg. lia.
Qed.
(** The last usable time of a feed comes from a usable reading. *)
Lemma guard_lastUsable es feed o : jm_get (fg_lastUsable (guardAfter es)) feed = Some o ->
  ∃ before i after, es = before ++ Reading i :: after ∧ fi_coverageType i = feed ∧ usableAt before i o.
Proof.
  revert o. induction es as [|e es IH] using rev_ind; intros o; [done|]. unfold guardAfter. rewrite foldl_snoc. fold (guardAfter es).
  assert (∀ o, jm_get (fg_lastUsable (guardAfter es)) feed = Some o -> ∃ before i after, es ++ [e] = before ++ Reading i :: after ∧ fi_coverageType i = feed ∧ usableAt before i o) as Hold.
  { intros o' Ho. destruct (IH o' Ho) as (b & i & a & -> & H1 & H2). exists b, i, (a ++ [e]). by rewrite <- app_assoc. }
  destruct e as [i|now]; [|apply Hold]. cbn. destruct (evaluate (guardAfter es) i) as [[v g']|] eqn:Ee; [|apply Hold]. intros Ho.
  destruct (decide (jm_get (fg_lastUsable (guardAfter es)) feed = Some o)) as [E|E]; [by apply Hold|].
  exists es, i, []. unfold evaluate in Ee. destruct (jm_get policies (fi_coverageType i)) as [p|] eqn:Ep; [|done].
  set (gap := match jm_get (fg_lastArrival _) _ with Some _ => _ | None => _ end) in Ee. destruct (judge p i gap) eqn:Ej; [by simplify_eq|].
  assert (fi_coverageType i = feed ∧ default (fi_ingestedAt i) (fi_observedAt i) = o) as [Hf Hd].
  { injection Ee as <- <-. cbn in Ho. destruct (jm_get (fg_lastUsable (guardAfter es)) (fi_coverageType i)) as [prev|] eqn:Eu;
      [destruct (prev <? _); [|done]|]; rewrite jm_get_set in Ho; destruct (decide (fi_coverageType i = feed)); by simplify_eq. }
  split_and!; [done|done|]. eexists. unfold evaluate. rewrite Ep. fold gap. rewrite Ej, Hd. done.
Qed.

Lemma sweep_marks g now feed p : (feed, p) ∈ policies -> stalled g now feed p = true -> isStale (sweep g now) feed = true.
Proof.
  intros Hin Hs. apply bool_decide_eq_true. cbn.
  assert (∀ l acc, feed ∈ acc ∨ (feed, p) ∈ l -> feed ∈ foldl (fun s fp => if stalled g now fp.1 fp.2 then addToSet fp.1 s else s) acc l) as Hgen; [|apply Hgen; by right].
  induction l as [|[f q] l IH]; intros acc Hacc; [destruct Hacc as [?|?%not_elem_of_nil]; done|]. cbn. apply IH.
  destruct Hacc as [Hacc|[Heq|Hl]%elem_of_cons]; [left|left|by right].
  - destruct (stalled g now f q); [apply elem_of_addToSet; by right|done].
  - injection Heq as <- <-. rewrite Hs. apply elem_of_addToSet. by left.
Qed.

(** A feed that a sweep leaves live has a recent usable reading: among the events so far there is a reading of the feed that
    was usable when it arrived and whose timestamp is at most the window old, so a source that stops reporting, or reports only
    rejected readings, turns its feed stale. *)
Theorem live_feed_has_recent_reading es now feed p : (feed, p) ∈ policies -> isStale (guardAfter (es ++ [Sweep now])) feed = false ->
  ∃ before i after observed, es = before ++ Reading i :: after ∧ fi_coverageType i = feed ∧ usableAt before i observed
    ∧ now - observed <= fp_freshnessWindowSeconds p * 1000.
Proof.
  intros Hp Hs. unfold guardAfter in Hs. rewrite foldl_snoc in Hs. fold (guardAfter es) in Hs. cbn [guardStep] in Hs.
  destruct (stalled (guardAfter es) now feed p) eqn:E; [by rewrite (sweep_marks _ _ _ _ Hp E) in Hs|].
  unfold stalled in E. apply orb_false_iff in E as [E _]. destruct (jm_get (fg_lastUsable (guardAfter es)) feed) as [o|] eqn:Eo; [|done].
  destruct (guard_lastUsable _ _ _ Eo) as (b & i & a & H1 & H2 & H3). exists b, i, a, o. split_and!; [done|done|done|lia].
Qed.
End Guard.

Definition demoPolicies : list (string * FreshnessPolicy) := [("StablecoinDepeg", mkPolicy 60 5 30)].
Definition demoReading (t : Z) : FreshnessInput := mkInput "StablecoinDepeg" "CoinGecko" (Some t) t.

Lemma usable_reading_fresh_witness : ∀ t, lastHeard demoPolicies ("StablecoinDepeg", "CoinGecko") [Reading (demoReading 1000)] = Some t -> 20000 <= t + 30 * 1000.
Proof.
  destruct (usable_reading_fresh demoPolicies [Reading (demoReading 1000)] (demoReading 20000) 20000 (mkPolicy 60 5 30)) as (_ & _ & _ & H);
    [eexists; vm_compute; reflexivity|reflexivity|exact H].
Defined.

Lemma live_feed_has_recent_reading_witness : ∃ before i after observed, [Reading (demoReading 1000)] = before ++ Reading i :: after
  ∧ fi_coverageType i = "StablecoinDepeg" ∧ usableAt demoPolicies before i observed ∧ 30000 - observed <= 60 * 1000.
Proof.
  apply (live_feed_has_recent_reading demoPolicies [Reading (demoReading 1000)] 30000 "StablecoinDepeg" (mkPolicy 60 5 30));
    [apply list_elem_of_here|vm_compute; reflexivity].
Defined.

(** After a silence the first reading is rejected, the second is usable again; and before the first sweep a feed without any reading is not stale. *)
Lemma heartbeat_gap_quarantines_one :
  let g := guardAfter demoPolicies [Reading (demoReading 1000)] in
  let g' := guardAfter demoPolicies [Reading (demoReading 1000); Reading (demoReading 40000)] in
  match evaluate demoPolicies g (demoReading 40000) with Ok (v, _) => fv_reason v | Err _ => None end = Some HeartbeatGap
  ∧ match evaluate demoPolicies g' (demoReading 41000) with Ok (v, _) => fv_usable v | Err _ => false end = true
  ∧ isStale newGuard "StablecoinDepeg" = false ∧ isStale (sweep demoPolicies newGuard 0) "StablecoinDepeg" = true
  ∧ toSnakeCase "StablecoinDepeg" = "STABLECOIN_DEPEG".
Proof. vm_compute. repeat split. Qed.
