(* ===== verification/Corroboration.v ===== *)
(** Corroboration of the readings of one metric (src/oracle/corroboration.ts) and the reliability
    states of a source (src/oracle/sourceHealth.ts).

    Both are pure; values, rates and deviations are doubles, counts are integers.  The defaults
    per coverage type are imported from the coverage catalog, which does not define them: they
    are a parameter. *)

From stdpp Require Import base list strings.
From Stdlib Require Import ZArith Lia Floats.
From S2P Require Import Prelude Decimal JsNum JsParse Canonical Consensus Freshness.

#[local] Open Scope Z_scope.

Record SourceReading := mkSourceReading { sr_sourceId : string; sr_value : num; sr_observedAt : Z }.
Record CorroborationConfig := mkCorroborationConfig { cc_minSources : Z; cc_toleranceBps : num; cc_maxReadingAgeMs : Z }.
Inductive CorroborationStatus := Corroborated | InsufficientQuorum | Divergent.
Inductive RejectionReason := InvalidValue | Stale | ConflictingDuplicate | Outlier.
Record CorroborationResult := mkCorroborationResult {
  cr_status : CorroborationStatus; cr_value : option num; cr_participating : list SourceReading; cr_rejected : list (string * RejectionReason); cr_dispersionBps : num }.

Definition median (values : list num) : num :=
  let sorted := sort_by ascending values in
  let mid := (length sorted / 2)%nat in
  let below := default nan (sorted !! (mid - 1)%nat) in
  let upper := default nan (sorted !! mid) in
  if Nat.even (length sorted) then ((below + upper) / 2)%float else upper.

Definition deviationBps (value reference : num) : num :=
  (PrimFloat.abs (value - reference) / nmax (PrimFloat.abs reference) 1 * 10000)%float.

Definition emptyResult (status : CorroborationStatus) (rejected : list (string * RejectionReason)) : CorroborationResult :=
  mkCorroborationResult status None [] rejected 0%float.

(** The readings kept per source, the sources in conflict, the rejections. *)
Record Intake := mkIntake { in_bySource : list (string * SourceReading); in_conflicted : list string; in_rejected : list (string * RejectionReason) }.

Definition fresh (config : CorroborationConfig) (now : Z) (r : SourceReading) : bool :=
  let age := now - sr_observedAt r in (0 <=? age) && (age <=? cc_maxReadingAgeMs config).
Definition validValue (r : SourceReading) : bool := isFinite (sr_value r) && negb (nlt (sr_value r) 0%float).

Definition take_ (config : CorroborationConfig) (now : Z) (s : Intake) (r : SourceReading) : Intake :=
  if negb (validValue r) then mkIntake (in_bySource s) (in_conflicted s) (in_rejected s ++ [(sr_sourceId r, InvalidValue)])
  else if negb (fresh config now r) then mkIntake (in_bySource s) (in_conflicted s) (in_rejected s ++ [(sr_sourceId r, Stale)])
  else match jm_get (in_bySource s) (sr_sourceId r) with
    | None => mkIntake (jm_set (in_bySource s) (sr_sourceId r) r) (in_conflicted s) (in_rejected s)
    | Some existing =>
        if negb (neq (sr_value existing) (sr_value r)) then mkIntake (in_bySource s) (addToSet (sr_sourceId r) (in_conflicted s)) (in_rejected s) else s
    end.
Definition intake (config : CorroborationConfig) (now : Z) (readings : list SourceReading) : Intake := foldl (take_ config now) (mkIntake [] [] []) readings.

Definition dropConflicted (s : Intake) : list (string * SourceReading) := foldl jm_delete (in_bySource s) (in_conflicted s).

Definition corroborate (readings : list SourceReading) (config : CorroborationConfig) (now : Z) : CorroborationResult :=
  let s := intake config now readings in
  let rejected := in_rejected s ++ map (fun id => (id, ConflictingDuplicate)) (in_conflicted s) in
  let freshReadings := jm_values (dropConflicted s) in
  if Z.of_nat (length freshReadings) <? cc_minSources config then emptyResult InsufficientQuorum rejected
  else
    let provisional := median (map sr_value freshReadings) in
    let inBand r := nle (deviationBps (sr_value r) provisional) (cc_toleranceBps config) in
    let accepted := List.filter inBand freshReadings in
    let rejected' := rejected ++ map (fun r => (sr_sourceId r, Outlier)) (List.filter (fun r => negb (inBand r)) freshReadings) in
    if Z.of_nat (length accepted) <? cc_minSources config then emptyResult Divergent rejected'
    else
      let values := map sr_value accepted in
      let value := median values in
      let spread := (foldl nmax (PrimFloat.opp infinity) values - foldl nmin infinity values)%float in
      mkCorroborationResult Corroborated (Some value) accepted rejected' (deviationBps spread value).

(** * Configuration *)

Definition readBoundedInt (env : string -> option string) (key : string) (fallback lo hi : Z) : res string Z :=
  match env key with
  | None => Ok fallback
  | Some raw =>
      if bool_decide (raw = "") then Ok fallback
      else match (if isInteger (toNumber raw) then round_to_Z (toNumber raw) else None) with
        | Some z => if (lo <=? z) && (z <=? hi) then Ok z else Err (key +:+ " must be an integer")
        | None => Err (key +:+ " must be an integer")
        end
  end.
Definition corroborationConfigFor (coverageType : string) (defaults : Z * Z * Z) (env : string -> option string) : res string (Z * Z * Z) :=
  let prefix := "ORACLE_CORROBORATION_" +:+ toSnakeCase coverageType +:+ "_" in
  m ← readBoundedInt env (prefix +:+ "MIN_SOURCES") defaults.1.1 2 50;
  t ← readBoundedInt env (prefix +:+ "TOLERANCE_BPS") defaults.1.2 1 10000;
  a ← readBoundedInt env (prefix +:+ "MAX_AGE_MS") defaults.2 1000 86400000;
  Ok (m, t, a).

(** * What the intake keeps *)

Section Intake.
Variables (config : CorroborationConfig) (now : Z).

(** A reading that passes the value and age checks. *)
Definition admissible (r : SourceReading) : Prop := validValue r = true ∧ fresh config now r = true.

Record IntakeInv (seen : list SourceReading) (s : Intake) : Prop := {
  ii_nodup : NoDup (jm_keys (in_bySource s));
  ii_kept : ∀ k r, jm_get (in_bySource s) k = Some r -> sr_sourceId r = k ∧ r ∈ seen ∧ admissible r;
  ii_agree : ∀ r, r ∈ seen -> admissible r ->
    ∃ r', jm_get (in_bySource s) (sr_sourceId r) = Some r' ∧ (r' = r ∨ neq (sr_value r') (sr_value r) = true ∨ sr_sourceId r ∈ in_conflicted s) }.

Lemma take_inv seen s r : IntakeInv seen s -> IntakeInv (seen ++ [r]) (take_ config now s r).
Proof.
  intros [H1 H2 H3]. unfold take_.
  assert (¬ admissible r -> IntakeInv (seen ++ [r]) s) as Hskip.
  { intros Hn. constructor; [done| |].
    - intros k x Hk. destruct (H2 k x Hk) as (E & Hi & Ha). split_and!; [done|apply elem_of_app; by left|done].
    - intros x [Hx|Hx%list_elem_of_singleton]%elem_of_app Ha; [by apply H3|]. by subst x. }
  destruct (validValue r) eqn:Ev; cbn [negb]; [|destruct Hskip as [? ? ?]; [intros [? _]; congruence|by constructor]].
  destruct (fresh config now r) eqn:Ef; cbn [negb]; [|destruct Hskip as [? ? ?]; [intros [_ ?]; congruence|by constructor]]. clear Hskip.
  destruct (jm_get (in_bySource s) (sr_sourceId r)) as [old|] eqn:Eo.
  - assert (∀ k x, jm_get (in_bySource s) k = Some x -> sr_sourceId x = k ∧ x ∈ seen ++ [r] ∧ admissible x) as H2'.
    { intros k x Hk. destruct (H2 k x Hk) as (E & Hi & Ha). split_and!; [done|apply elem_of_app; by left|done]. }
    destruct (neq (sr_value old) (sr_value r)) eqn:En; cbn [negb].
    + constructor; [done|done|]. intros x [Hx|Hx%list_elem_of_singleton]%elem_of_app Ha; [by apply H3|]. subst x. exists old. auto.
    + constructor; cbn; [done|done|]. intros x [Hx|Hx%list_elem_of_singleton]%elem_of_app Ha.
      * destruct (H3 x Hx Ha) as (x' & Hx' & Hor). exists x'. split; [done|]. destruct Hor as [?|[?|Hc]]; [auto|auto|]. right. right. apply elem_of_addToSet. by right.
      * subst x. exists old. split; [done|]. right. right. apply elem_of_addToSet. by left.
  - constructor; cbn; [by apply jm_set_NoDup| |].
    + intros k x. rewrite jm_get_set. destruct (decide (sr_sourceId r = k)) as [E|E].
      * intros [= <-]. split_and!; [done|apply elem_of_app; right; apply list_elem_of_here|done].
      * intros Hk. destruct (H2 k x Hk) as (E' & Hi & Ha). split_and!; [done|apply elem_of_app; by left|done].
    + intros x [Hx|Hx%list_elem_of_singleton]%elem_of_app Ha.
      * destruct (H3 x Hx Ha) as (x' & Hx' & Hor). exists x'. rewrite jm_get_set_ne; [done|]. intros E. rewrite <- E in Hx'. congruence.
      * subst x. exists r. rewrite jm_get_set_eq. auto.
Qed.

Lemma intake_inv readings : IntakeInv readings (intake config now readings).
Proof.
  unfold intake. induction readings as [|r readings IH] using rev_ind; [|rewrite foldl_snoc; by apply take_inv].
  constructor; [constructor|done|by intros r ?%not_elem_of_nil].
Qed.

Lemma foldl_delete_get {V} (keys : list string) : forall (m : list (string * V)) k v, jm_get (foldl jm_delete m keys) k = Some v -> jm_get m k = Some v ∧ k ∉ keys.
Proof.
  induction keys as [|x keys IH]; intros m k v; [intros; split; [done|apply not_elem_of_nil]|]. cbn. intros [H1 H2]%IH.
  destruct (decide (x = k)) as [-> | Hn]; [by rewrite jm_get_delete_eq in H1|]. rewrite jm_get_delete_ne in H1 by done. split; [done|]. by apply not_elem_of_cons.
Qed.

Lemma foldl_delete_NoDup {V} (keys : list string) : forall (m : list (string * V)), NoDup (jm_keys m) -> NoDup (jm_keys (foldl jm_delete m keys)).
Proof. induction keys as [|x keys IH]; intros m Hm; [done|]. by apply IH, jm_delete_NoDup. Qed.
End Intake.

Lemma NoDup_ids (m : list (string * SourceReading)) : NoDup (jm_keys m) -> (∀ k r, (k, r) ∈ m -> sr_sourceId r = k) -> NoDup (map sr_sourceId (jm_values m)).
Proof.
  intros Hnd Hid. assert (map sr_sourceId (jm_values m) = jm_keys m) as ->; [|done]. unfold jm_values, jm_keys. clear Hnd.
  induction m as [|[k r] m IH]; [done|]. cbn. f_equal; [apply (Hid k r), list_elem_of_here|]. apply IH. intros k' r' Hin. by apply Hid, list_elem_of_further.
Qed.

(** A corroborated value rests on a quorum of distinct, fresh, unambiguous sources: at least [minSources] participating
    readings of different sources, all among the inputs, finite, not negative, within the maximum age and within the tolerance
    of the provisional median, and no participating source has another admissible reading with a different value. *)
Theorem corroborated_quorum readings config now : cr_status (corroborate readings config now) = Corroborated ->
  let p := cr_participating (corroborate readings config now) in
  cc_minSources config <= Z.of_nat (length p) ∧ NoDup (map sr_sourceId p) ∧ cr_value (corroborate readings config now) = Some (median (map sr_value p))
  ∧ ∃ provisional, ∀ r, r ∈ p -> r ∈ readings ∧ admissible config now r ∧ nle (deviationBps (sr_value r) provisional) (cc_toleranceBps config) = true
      ∧ ∀ r', r' ∈ readings -> admissible config now r' -> sr_sourceId r' = sr_sourceId r -> r' = r ∨ neq (sr_value r) (sr_value r') = true.
Proof.
  unfold corroborate. set (s := intake config now readings). set (fresh := jm_values (dropConflicted s)).
  destruct (Z.of_nat (length fresh) <? cc_minSources config); [done|]. set (inBand := fun r => nle _ _).
  destruct (Z.of_nat (length (List.filter inBand fresh)) <? cc_minSources config) eqn:E; [done|]. intros _. cbn.
  destruct (intake_inv config now readings) as [H1 H2 H3]. fold s in H1, H2, H3.
  assert (NoDup (jm_keys (dropConflicted s))) as Hnd by (by apply foldl_delete_NoDup).
  assert (∀ k r, (k, r) ∈ dropConflicted s -> jm_get (in_bySource s) k = Some r ∧ k ∉ in_conflicted s) as Hin.
  { intros k r Hk. apply foldl_delete_get. by apply jm_in_get. }
  split_and!; [lia| |done|exists (median (map sr_value fresh))].
  - apply NoDup_map_filter_bool. apply NoDup_ids; [done|]. intros k r Hk. destruct (Hin k r Hk) as [Hg _]. by apply (H2 k r).
  - intros r Hr. apply list_elem_of_In, filter_In in Hr as [Hr Hb]. apply list_elem_of_In, list_elem_of_fmap in Hr as ([k r'] & E1 & Hk). cbn in E1. subst r'.
    destruct (Hin k r Hk) as [Hg Hnc]. destruct (H2 k r Hg) as (Hid & Hread & Hadm). split_and!; [done|done|done|].
    intros r' Hr' Hadm' Hid'. destruct (H3 r' Hr' Hadm') as (x & Hx & Hor). rewrite Hid', Hid in Hx. rewrite Hg in Hx. injection Hx as <-.
    destruct Hor as [<- |[Hv|Hc]]; [by left|by right|]. rewrite Hid', Hid in Hc. done.
Qed.

Definition demoQuorum : CorroborationConfig := mkCorroborationConfig 2 100%float 60000.
Definition demoReadings : list SourceReading :=
  [mkSourceReading "a" 100%float 1000; mkSourceReading "b" 100.5%float 1000; mkSourceReading "c" 100%float 1000; mkSourceReading "c" 90%float 1500;
   mkSourceReading "d" 200%float 1000].
Lemma corroborated_quorum_witness :
  map sr_sourceId (cr_participating (corroborate (take 4 demoReadings) demoQuorum 2000)) = ["a"; "b"]
  ∧ cr_rejected (corroborate (take 4 demoReadings) demoQuorum 2000) = [("c", ConflictingDuplicate)]
  ∧ cc_minSources demoQuorum <= Z.of_nat (length (cr_participating (corroborate (take 4 demoReadings) demoQuorum 2000))).
Proof.
  split; [vm_compute; reflexivity|]. split; [vm_compute; reflexivity|].
  apply (corroborated_quorum (take 4 demoReadings) demoQuorum 2000). vm_compute. reflexivity.
Defined.

(** The median of two large readings overflows, so readings that agree are reported divergent. *)
Lemma median_overflows :
  cr_value (corroborate [mkSourceReading "a" 0x1p1023%float 0; mkSourceReading "b" 0x1p1023%float 0] (mkCorroborationConfig 2 10000%float 1000) 0) = None
  ∧ median [0x1p1023%float; 0x1p1023%float] = infinity.
Proof. vm_compute. split; reflexivity. Qed.

(** * Source health *)

Inductive SourceState := Healthy | Degraded | Quarantined.
Record SourceHealthCounters := mkCounters { ct_failures : Z; ct_successes : Z; ct_errorRate : num; ct_divergenceRate : num; ct_sampleCount : Z }.
Record SourceHealthThresholds := mkThresholds {
  th_degradeFailures : Z; th_quarantineFailures : Z; th_degradeErrorRate : num; th_quarantineErrorRate : num; th_degradeDivergence : num;
  th_quarantineDivergence : num; th_recoverSuccesses : Z; th_minSamples : Z }.
Definition DEFAULT_SOURCE_HEALTH_THRESHOLDS : SourceHealthThresholds :=
  mkThresholds 2 5 0x1.999999999999ap-3%float 0.5%float 0x1.999999999999ap-3%float 0.5%float 10 20.
Record SourceHealthTransition := mkTransition { tr_state : SourceState; tr_alert : bool }.

Definition classify (c : SourceHealthCounters) (t : SourceHealthThresholds) : bool * bool :=
  let rated := th_minSamples t <=? ct_sampleCount c in
  ((th_degradeFailures t <=? ct_failures c) || (rated && (nge (ct_errorRate c) (th_degradeErrorRate t) || nge (ct_divergenceRate c) (th_degradeDivergence t))),
   (th_quarantineFailures t <=? ct_failures c) || (rated && (nge (ct_errorRate c) (th_quarantineErrorRate t) || nge (ct_divergenceRate c) (th_quarantineDivergence t)))).

Definition nextSourceState (current : SourceState) (c : SourceHealthCounters) (t : SourceHealthThresholds) (soleParticipant : bool) : SourceHealthTransition :=
  let '(bad, severe) := classify c t in
  let clean := negb bad && (th_recoverSuccesses t <=? ct_successes c) in
  match current with
  | Healthy => mkTransition (if bad then Degraded else Healthy) false
  | Degraded =>
      if severe then (if soleParticipant then mkTransition Degraded true else mkTransition Quarantined false)
      else mkTransition (if clean then Healthy else Degraded) false
  | Quarantined => mkTransition (if clean then Degraded else Quarantined) false
  end.

Definition applyPollOutcome (c : SourceHealthCounters) (succeeded : bool) : SourceHealthCounters :=
  mkCounters (if succeeded then 0 else ct_failures c + 1) (if succeeded then ct_successes c + 1 else 0) (ct_errorRate c) (ct_divergenceRate c) (ct_sampleCount c).

Definition relativeDeviation (value consensus : num) : num :=
  if neq consensus 0%float then (if neq value 0%float then 0%float else infinity) else (PrimFloat.abs (value - consensus) / PrimFloat.abs consensus)%float.

(** [a - b] as a comparator: NaN counts as equal. *)
Definition compareLe (a b : num) : bool := negb (ngt (a - b)%float 0%float).
Definition ceilZ (x : num) : Z := match floor_to_Z x with Some z => if isInteger x then z else z + 1 | None => 0 end.
Definition noiseBand (deviations : list num) (percentile : num) : num :=
  if (length deviations =? 0)%nat then 0%float
  else
    let sorted := sort_by compareLe deviations in
    let rank := ceilZ (percentile * num_of_Z (Z.of_nat (length sorted)))%float - 1 in
    default nan (sorted !! Z.to_nat (Z.min (Z.of_nat (length sorted) - 1) (Z.max 0 rank))).
Definition outsideBandRate (deviations : list num) (band : num) : num :=
  if (length deviations =? 0)%nat then 0%float
  else (num_of_Z (Z.of_nat (length (List.filter (fun d => ngt d band) deviations))) / num_of_Z (Z.of_nat (length deviations)))%float.

(** A poll with its rates as the caller maintains them, and whether the source is the feed's only one. *)
Record Poll := mkPoll { po_succeeded : bool; po_errorRate : num; po_divergenceRate : num; po_sampleCount : Z; po_sole : bool }.
Definition pollCounters (c : SourceHealthCounters) (p : Poll) : SourceHealthCounters :=
  let c' := applyPollOutcome c (po_succeeded p) in mkCounters (ct_failures c') (ct_successes c') (po_errorRate p) (po_divergenceRate p) (po_sampleCount p).
Definition pollStep (t : SourceHealthThresholds) (s : SourceState * SourceHealthCounters) (p : Poll) : SourceState * SourceHealthCounters :=
  let c := pollCounters s.2 p in (tr_state (nextSourceState s.1 c t (po_sole p)), c).

(** The clean streak at the end of a list of polls. *)
Fixpoint streak (polls : list Poll) (before : Z) : Z :=
  match polls with [] => before | p :: rest => streak rest (if po_succeeded p then before + 1 else 0) end.

Lemma pollStep_successes t polls : forall s, ct_successes (foldl (pollStep t) s polls).2 = streak polls (ct_successes s.2).
Proof. induction polls as [|p polls IH]; intros s; [done|]. cbn. rewrite IH. by destruct p as [[] ? ? ? ?]. Qed.

(** A quarantined source gets out only at the end of a streak of clean polls, one step, and never on a failed poll or
    while its rates are bad. *)
Lemma quarantine_left_after_streak t polls p c : th_recoverSuccesses t >= 1 ->
  let s := foldl (pollStep t) (Quarantined, c) polls in
  s.1 = Quarantined -> (pollStep t s p).1 ≠ Quarantined ->
  (pollStep t s p).1 = Degraded ∧ po_succeeded p = true ∧ th_recoverSuccesses t <= streak (polls ++ [p]) (ct_successes c)
  ∧ (classify (pollStep t s p).2 t).1 = false.
Proof.
  intros Hpos s Hq Hne. assert (ct_successes (pollStep t s p).2 = streak (polls ++ [p]) (ct_successes c)) as Hstreak.
  { transitivity (ct_successes (foldl (pollStep t) (Quarantined, c) (polls ++ [p])).2); [by rewrite foldl_snoc|apply pollStep_successes]. }
  rewrite <- Hstreak. unfold pollStep in *. rewrite Hq in *. cbn [fst snd] in *. set (c' := pollCounters s.2 p) in *. unfold nextSourceState in *.
  destruct (classify c' t) as [bad severe]. destruct (negb bad && (th_recoverSuccesses t <=? ct_successes c')) eqn:E; cbn in *; [|done].
  apply andb_true_iff in E as [Hb Hr]. split_and!; [done| |lia|by destruct bad]. unfold c', pollCounters in Hr. cbn in Hr. destruct (po_succeeded p); [done|lia].
Qed.

(** The only source of a feed is not quarantined. *)
Lemma sole_participant_stays t s p : s.1 ≠ Quarantined -> po_sole p = true -> (pollStep t s p).1 ≠ Quarantined.
Proof.
  intros Hs Hp. unfold pollStep, nextSourceState. destruct (classify _ t) as [bad severe]. rewrite Hp. destruct s as [[] c]; cbn in *; [by destruct bad| |done].
  destruct severe; [done|]. by destruct (negb bad && _).
Qed.

(** Recovery from quarantine to healthy takes one poll more than the streak, not a second streak. *)
Lemma two_steps_in_one_streak :
  let polls := replicate 11 (mkPoll true 0%float 0%float 100 false) in
  (foldl (pollStep DEFAULT_SOURCE_HEALTH_THRESHOLDS) (Quarantined, mkCounters 5 0 0%float 0%float 100) (take 9 polls)).1 = Quarantined
  ∧ (foldl (pollStep DEFAULT_SOURCE_HEALTH_THRESHOLDS) (Quarantined, mkCounters 5 0 0%float 0%float 100) polls).1 = Healthy.
Proof. vm_compute. split; reflexivity. Qed.
