(* ===== verification/Submissions.v ===== *)
(** Signed submissions of third-party data providers: the canonical form that is signed
    (src/oracle/submission-canonical.ts), the verifier (src/oracle/submission-verifier.ts), the
    record with its nonces (src/oracle/oracle-submission.repository.ts), and the route that
    composes them (oracle-submissions.controller.ts).

    [Date.parse], the base64 decoder and signature verification are parameters; a provider's key is
    its text.  Times are milliseconds; the database reads its own clock. *)

From stdpp Require Import base list strings sets.
From Stdlib Require Import ZArith Lia Floats Ascii.
From S2P Require Import Prelude Decimal JsNum JsParse JsDate Canonical Safeguards Gossip.

#[local] Open Scope Z_scope.

Definition SUBMISSION_MAX_AGE_MS : Z := 5 * 60000.
Definition SUBMISSION_MAX_CLOCK_SKEW_MS : Z := 30000.
Definition PROVIDER_RATE_LIMIT_PER_MINUTE : Z := 60.

Inductive SubmissionErrorCode :=
| INVALID_SUBMISSION | UNKNOWN_PROVIDER | RATE_LIMITED | INVALID_SIGNATURE | STALE_OBSERVED_AT | UNSUPPORTED_COVERAGE_TYPE
| UNIT_MISMATCH | VALUE_OUT_OF_BOUNDS | REPLAYED_NONCE.

(** * The canonical form *)

Record SignedSubmissionFields := mkFields {
  sf_provider_id : string; sf_coverage_type : string; sf_value : string; sf_unit : string; sf_observed_at : string; sf_nonce : string }.

(** The keys in ascending order. *)
Definition canonicalizeSubmission (f : SignedSubmissionFields) : string :=
  "{" +:+ joinWith "," (map (fun kv => quoted kv.1 +:+ ":" +:+ quoted kv.2)
    [("coverage_type", sf_coverage_type f); ("nonce", sf_nonce f); ("observed_at", sf_observed_at f); ("provider_id", sf_provider_id f);
     ("unit", sf_unit f); ("value", sf_value f)]) +:+ "}".

(** [/^(?!-0$)-?(0|[1-9]\d{0,13})(\.\d{0,5}[1-9])?$/] *)
Definition decimalValuePattern (s : string) : bool :=
  let t := String.list_ascii_of_string s in
  let '(int, rest) := span_digits (drop_minus t) in
  negb (bool_decide (s = "-0"))
  && match int with [] => false | c :: ds => if bool_decide (c = c_zero) then (length ds =? 0)%nat else (length ds <=? 13)%nat end
  && match rest with
     | [] => true
     | c :: frac => bool_decide (c = c_dot) && all_digits frac && (1 <=? length frac)%nat && (length frac <=? 6)%nat
         && negb (bool_decide (list.last frac = Some c_zero))
     end.

Definition digitsThen (k : nat) (c : ascii) (s : text) : option text :=
  if (length (take k s) =? k)%nat && all_digits (take k s) then expectChar c (drop k s) else None.
(** [/^\d{4}-\d{2}-\d{2}T\d{2}:\d{2}:\d{2}(\.\d{1,3})?Z$/] *)
Definition observedAtPattern (s : string) : bool :=
  match s1 ← digitsThen 4 "-" (String.list_ascii_of_string s); s2 ← digitsThen 2 "-" s1; s3 ← digitsThen 2 "T" s2; s4 ← digitsThen 2 ":" s3; digitsThen 2 ":" s4 with
  | None => false
  | Some r =>
      let '(d, rest) := span_digits r in
      (length d =? 2)%nat &&
      match rest with
      | [z] => bool_decide (z = "Z"%char)
      | c :: r' => bool_decide (c = c_dot) && let '(f, rest') := span_digits r' in
          (1 <=? length f)%nat && (length f <=? 3)%nat && bool_decide (rest' = ["Z"%char])
      | [] => false
      end
  end.
Definition noncePattern : string -> bool := shaped (fun c => alnum c || bool_decide (c = "_"%char) || bool_decide (c = "-"%char)) 16 64.

Definition OBSERVATION_RULES : list (string * (string * num * num)) :=
  [("StablecoinDepeg", ("usd", 0%float, 2%float)); ("MarketCrash", ("percent", (-100)%float, 1000%float)); ("LiquidationShield", ("ratio", 0%float, 1%float));
   ("SmartContractRisk", ("percent", (-100)%float, 100%float)); ("FlightDelay", ("minutes", 0%float, 10080%float))].

(** * The verifier *)

Record SubmissionBody := mkBody { sb_fields : SignedSubmissionFields; sb_signature : string }.
Record SubmissionProvider := mkProvider { pv_id : string; pv_publicKey : string; pv_coverageTypes : list string }.
Record VerifiedSubmission := mkVerified {
  vs_providerId : string; vs_coverageType : string; vs_value : string; vs_unit : string; vs_observedAt : Z; vs_nonce : string; vs_signature : string }.

Definition within (lo hi : nat) (s : string) : bool := (lo <=? String.length s)%nat && (String.length s <=? hi)%nat.
(** The shape of the body; unknown keys and other types are refused before. *)
Definition submissionBodySchema (b : SubmissionBody) : bool :=
  let f := sb_fields b in
  within 1 64 (sf_provider_id f) && within 1 40 (sf_coverage_type f) && (String.length (sf_value f) <=? 24)%nat && decimalValuePattern (sf_value f)
  && within 1 16 (sf_unit f) && observedAtPattern (sf_observed_at f) && noncePattern (sf_nonce f) && within 1 128 (sb_signature b).

(** A configured provider: id, key in base64, coverage types. *)
Definition loadSubmissionProviders (decodeBase64 : string -> list Z) (entries : list (string * string * list string)) : res string (list (string * SubmissionProvider)) :=
  foldl (fun acc '(id, key, types) =>
    m ← acc;
    _ ← guard_res (negb (jm_has m id)) ("ORACLE_SUBMISSION_PROVIDERS contains duplicate provider id " +:+ id);
    _ ← guard_res (length (decodeBase64 key) =? 32)%nat ("Provider publicKey must be a base64-encoded 32-byte Ed25519 key: " +:+ id);
    Ok (jm_set m id (mkProvider id key types))) (Ok []) entries.

Definition Buckets : Type := list (string * (Z * Z)).

(** The count is kept even when the call is refused. *)
Definition consumeRateBudget (buckets : Buckets) (providerId : string) (now : Z) : Buckets * bool :=
  let '(count, resetAt) := match jm_get buckets providerId with Some (c, r) => if r <=? now then (0, now + 60000) else (c, r) | None => (0, now + 60000) end in
  (jm_set buckets providerId (count + 1, resetAt), count + 1 <=? PROVIDER_RATE_LIMIT_PER_MINUTE).

Section Verifier.
Variables (dateParse : string -> option Z) (decodeBase64 : string -> list Z) (verifySignature : string -> string -> list Z -> bool).
Variable providers : list (string * SubmissionProvider).

(** The checks after the rate budget. *)
Definition verifyBody (provider : SubmissionProvider) (b : SubmissionBody) (now : Z) : res SubmissionErrorCode VerifiedSubmission :=
  let f := sb_fields b in
  let signature := decodeBase64 (sb_signature b) in
  _ ← guard_res ((length signature =? 64)%nat && verifySignature (pv_publicKey provider) (canonicalizeSubmission f) signature) INVALID_SIGNATURE;
  match dateParse (sf_observed_at f) with
  | None => Err INVALID_SUBMISSION
  | Some observedMs =>
      _ ← guard_res ((now - observedMs <=? SUBMISSION_MAX_AGE_MS) && (observedMs - now <=? SUBMISSION_MAX_CLOCK_SKEW_MS)) STALE_OBSERVED_AT;
      match jm_get OBSERVATION_RULES (sf_coverage_type f) with
      | None => Err UNSUPPORTED_COVERAGE_TYPE
      | Some (unit, lo, hi) =>
          _ ← guard_res (bool_decide (sf_coverage_type f ∈ pv_coverageTypes provider)) UNSUPPORTED_COVERAGE_TYPE;
          _ ← guard_res (bool_decide (sf_unit f = unit)) UNIT_MISMATCH;
          let numeric := toNumber (sf_value f) in
          _ ← guard_res (negb (nlt numeric lo || ngt numeric hi)) VALUE_OUT_OF_BOUNDS;
          Ok (mkVerified (pv_id provider) (sf_coverage_type f) (sf_value f) (sf_unit f) observedMs (sf_nonce f) (sb_signature b))
      end
  end.

Definition verify (buckets : Buckets) (b : SubmissionBody) (now : Z) : Buckets * res SubmissionErrorCode VerifiedSubmission :=
  if negb (submissionBodySchema b) then (buckets, Err INVALID_SUBMISSION)
  else match jm_get providers (sf_provider_id (sb_fields b)) with
    | None => (buckets, Err UNKNOWN_PROVIDER)
    | Some provider =>
        match consumeRateBudget buckets (pv_id provider) now with
        | (buckets', false) => (buckets', Err RATE_LIMITED)
        | (buckets', true) => (buckets', verifyBody provider b now)
        end
    end.

(** * The record *)

Record Tables := mkTables { tb_nonces : list ((string * string) * Z); tb_submissions : list VerifiedSubmission }.

(** One transaction, at the database's time. *)
Definition recordIfNonceUnused (t : Tables) (v : VerifiedSubmission) (dbNow : Z) : Tables * bool :=
  let live := List.filter (fun r => negb (r.2 <? dbNow)) (tb_nonces t) in
  if jm_has live (vs_providerId v, vs_nonce v) then (t, false)
  else (mkTables (live ++ [((vs_providerId v, vs_nonce v), vs_observedAt v + SUBMISSION_MAX_AGE_MS)]) (tb_submissions t ++ [v]), true).

(** * The route *)

Record Request := mkRequest { rq_body : SubmissionBody; rq_now : Z; rq_dbNow : Z }.
Definition submit (s : Buckets * Tables) (r : Request) : (Buckets * Tables) * res SubmissionErrorCode VerifiedSubmission :=
  match verify s.1 (rq_body r) (rq_now r) with
  | (buckets, Err e) => ((buckets, s.2), Err e)
  | (buckets, Ok v) => let '(t, recorded) := recordIfNonceUnused s.2 v (rq_dbNow r) in ((buckets, t), if recorded then Ok v else Err REPLAYED_NONCE)
  end.
Definition submitAll (s : Buckets * Tables) (rs : list Request) : Buckets * Tables := foldl (fun s r => (submit s r).1) s rs.
End Verifier.

(** * Replays *)

Section Replays.
Variables (dateParse : string -> option Z) (decodeBase64 : string -> list Z) (verifySignature : string -> string -> list Z -> bool).
Variable providers : list (string * SubmissionProvider).

(** The submission was signed by its registered provider over exactly its fields, and was fresh when it was verified. *)
Definition authentic (v : VerifiedSubmission) : Prop := ∃ b provider now,
  jm_get providers (sf_provider_id (sb_fields b)) = Some provider ∧ vs_providerId v = pv_id provider
  ∧ verifySignature (pv_publicKey provider) (canonicalizeSubmission (sb_fields b)) (decodeBase64 (sb_signature b)) = true
  ∧ sf_nonce (sb_fields b) = vs_nonce v ∧ sf_value (sb_fields b) = vs_value v ∧ sf_coverage_type (sb_fields b) = vs_coverageType v
  ∧ dateParse (sf_observed_at (sb_fields b)) = Some (vs_observedAt v)
  ∧ vs_coverageType v ∈ pv_coverageTypes provider
  ∧ now - SUBMISSION_MAX_AGE_MS <= vs_observedAt v <= now + SUBMISSION_MAX_CLOCK_SKEW_MS.

Lemma guard_res_true {E} (b : bool) (e : E) u : guard_res b e = Ok u -> b = true.
Proof. unfold guard_res. by destruct b. Qed.

Lemma verifyBody_ok provider b now v : verifyBody dateParse decodeBase64 verifySignature provider b now = Ok v ->
  dateParse (sf_observed_at (sb_fields b)) = Some (vs_observedAt v)
  ∧ (jm_get providers (sf_provider_id (sb_fields b)) = Some provider -> authentic v).
Proof.
  unfold verifyBody. intros (u & Hsig%guard_res_true & H)%res_bind_Ok. destruct (dateParse (sf_observed_at (sb_fields b))) as [ms|] eqn:Ed; [|done].
  apply res_bind_Ok in H as (u1 & Hf%guard_res_true & H). destruct (jm_get OBSERVATION_RULES _) as [[[unit lo] hi]|]; [|done].
  apply res_bind_Ok in H as (u2 & Hc%guard_res_true & (u3 & _ & (u4 & _ & [= <-])%res_bind_Ok)%res_bind_Ok). cbn. split; [done|]. intros Hp.
  exists b, provider, now. cbn. apply andb_true_iff in Hsig as [_ Hsig]. apply bool_decide_eq_true in Hc. split_and!; try done; lia.
Qed.

Lemma verify_ok buckets b now buckets' v : verify dateParse decodeBase64 verifySignature providers buckets b now = (buckets', Ok v) ->
  dateParse (sf_observed_at (sb_fields b)) = Some (vs_observedAt v) ∧ authentic v.
Proof.
  unfold verify. destruct (submissionBodySchema b); [|done]. cbn. destruct (jm_get providers (sf_provider_id (sb_fields b))) as [provider|] eqn:Ep; [|done].
  destruct (consumeRateBudget buckets (pv_id provider) now) as [bs []]; [|done]. intros [= _ H]. apply verifyBody_ok in H as [H1 H2]. split; [done|by apply H2].
Qed.

(** The nonces that have not expired at [now] are those of all submissions whose window is still open. *)
Definition Remembered (t : Tables) (now : Z) : Prop := ∀ v, v ∈ tb_submissions t -> now <= vs_observedAt v + SUBMISSION_MAX_AGE_MS ->
  ((vs_providerId v, vs_nonce v), vs_observedAt v + SUBMISSION_MAX_AGE_MS) ∈ tb_nonces t.

Definition identity (v : VerifiedSubmission) : string * string * Z := (vs_providerId v, vs_nonce v, vs_observedAt v).

Record TablesInv (t : Tables) (now : Z) : Prop := {
  ti_remembered : Remembered t now;
  ti_distinct : NoDup (map identity (tb_submissions t));
  ti_authentic : Forall authentic (tb_submissions t) }.

Lemma record_inv t now v dbNow t' ok : TablesInv t now -> now <= dbNow -> dbNow <= vs_observedAt v + SUBMISSION_MAX_AGE_MS -> authentic v ->
  recordIfNonceUnused t v dbNow = (t', ok) -> TablesInv t' dbNow.
Proof.
  intros [H1 H2 H3] Hle Hprompt Ha. unfold recordIfNonceUnused. set (live := List.filter _ _).
  assert (∀ x, x ∈ tb_submissions t -> dbNow <= vs_observedAt x + SUBMISSION_MAX_AGE_MS -> ((vs_providerId x, vs_nonce x), vs_observedAt x + SUBMISSION_MAX_AGE_MS) ∈ live) as Hlive.
  { intros x Hx Hd. apply list_elem_of_In, filter_In. split; [apply list_elem_of_In, H1; [done|lia]|]. cbn. lia. }
  unfold jm_has. destruct (bool_decide_reflect (is_Some (jm_get live (vs_providerId v, vs_nonce v)))) as [|Hn]; intros [= <- <-].
  - constructor; [|done|done]. intros x Hx Hd. specialize (Hlive x Hx Hd). apply list_elem_of_In in Hlive. apply filter_In in Hlive as [Hl _]. by apply list_elem_of_In.
  - constructor; cbn.
    + intros x [Hx|Hx%list_elem_of_singleton]%elem_of_app Hd; apply elem_of_app; [left; by apply Hlive|right]. subst x. apply list_elem_of_here.
    + rewrite map_app. apply NoDup_app. split_and!; [done| |apply NoDup_singleton]. intros k (x & <- & Hx)%list_elem_of_In%in_map_iff Hk. cbn in Hk.
      apply list_elem_of_singleton in Hk. unfold identity in Hk. injection Hk as E1 E2 E3. apply list_elem_of_In in Hx. apply Hn, not_eq_None_Some. intros Hnone.
      apply jm_get_None_notin in Hnone. apply Hnone, list_elem_of_fmap. exists ((vs_providerId x, vs_nonce x), vs_observedAt x + SUBMISSION_MAX_AGE_MS).
      split; [cbn; congruence|]. apply Hlive; [done|lia].
    + apply Forall_app. split; [done|by repeat constructor].
Qed.

(** The transaction of a request runs before the submission's window closes. *)
Definition prompt (r : Request) : Prop := ∀ ms, dateParse (sf_observed_at (sb_fields (rq_body r))) = Some ms -> rq_dbNow r <= ms + SUBMISSION_MAX_AGE_MS.

Fixpoint ordered (now : Z) (rs : list Request) : Prop := match rs with [] => True | r :: rest => now <= rq_dbNow r ∧ ordered (rq_dbNow r) rest end.

Lemma TablesInv_later t now now' : TablesInv t now -> now <= now' -> TablesInv t now'.
Proof. intros [H1 H2 H3] Hle. constructor; [|done|done]. intros v Hv Hd. apply H1; [done|lia]. Qed.

Lemma submitAll_inv rs : forall s now, TablesInv s.2 now -> ordered now rs -> Forall prompt rs ->
  ∃ now', TablesInv (submitAll dateParse decodeBase64 verifySignature providers s rs).2 now'.
Proof.
  induction rs as [|r rs IH]; intros s now Hs Ho Hp; [by exists now|]. destruct Ho as [Hle Ho]. apply Forall_cons in Hp as [Hr Hp]. cbn.
  apply (IH _ (rq_dbNow r)); [|done|done]. unfold submit. destruct (verify dateParse decodeBase64 verifySignature providers s.1 (rq_body r) (rq_now r)) as [buckets [v|e]] eqn:Ev.
  - apply verify_ok in Ev as [Hd Ha]. destruct (recordIfNonceUnused s.2 v (rq_dbNow r)) as [t ok] eqn:Er. cbn. eapply record_inv; [exact Hs|done|by apply Hr|done|exact Er].
  - cbn. by eapply TablesInv_later.
Qed.
End Replays.

(** C34: Every recorded submission is authentic (signed by its registered provider over its canonical form, for a coverage type it
    may report, and within the freshness window when verified), and no signed submission is recorded twice: over any sequence
    of requests whose transactions run before the submission's window closes, the records differ in provider, nonce or
    observation time. *)
Theorem submissions_recorded_once dateParse decodeBase64 verifySignature providers rs start :
  ordered start rs -> Forall (prompt dateParse) rs ->
  let t := (submitAll dateParse decodeBase64 verifySignature providers ([], mkTables [] []) rs).2 in
  NoDup (map identity (tb_submissions t)) ∧ Forall (authentic dateParse decodeBase64 verifySignature providers) (tb_submissions t).
Proof.
  intros Ho Hp t. destruct (submitAll_inv dateParse decodeBase64 verifySignature providers rs ([], mkTables [] []) start) as (now & [_ H2 H3]); [|done|done|done].
  constructor; [by intros v ?%not_elem_of_nil|constructor|constructor].
Qed.

Definition demoFields (nonce : string) : SignedSubmissionFields := mkFields "acme" "StablecoinDepeg" "0.97" "usd" "1970-01-01T00:10:00.000Z" nonce.
Definition demoBody (nonce : string) : SubmissionBody := mkBody (demoFields nonce) "c2ln".
Definition demoProviders : list (string * SubmissionProvider) := [("acme", mkProvider "acme" "key" ["StablecoinDepeg"])].
Definition demoDecode (s : string) : list Z := replicate 64 0.
Definition demoSubmit (rs : list Request) : Buckets * Tables := submitAll parseIso demoDecode (fun _ _ _ => true) demoProviders ([], mkTables [] []) rs.
Definition demoRequests : list Request :=
  [mkRequest (demoBody "nonce-0123456789a") 600000 600010; mkRequest (demoBody "nonce-0123456789a") 700000 700010; mkRequest (demoBody "nonce-0123456789b") 700000 700020].

Lemma submissions_recorded_once_witness :
  map vs_nonce (tb_submissions (demoSubmit demoRequests).2) = ["nonce-0123456789a"; "nonce-0123456789b"]
  ∧ NoDup (map identity (tb_submissions (demoSubmit demoRequests).2)).
Proof.
  split; [vm_compute; reflexivity|]. apply (submissions_recorded_once parseIso demoDecode (fun _ _ _ => true) demoProviders demoRequests 0).
  - cbn. lia.
  - repeat constructor; intros ms Hms; vm_compute in Hms; injection Hms as <-; vm_compute; discriminate.
Defined.

(** A replay verified in the last milliseconds of the window, whose transaction runs after it, is recorded again. *)
Lemma replay_at_window_end_recorded :
  map identity (tb_submissions (demoSubmit [mkRequest (demoBody "nonce-0123456789a") 600000 600010; mkRequest (demoBody "nonce-0123456789a") 900000 900001]).2)
  = [("acme", "nonce-0123456789a", 600000); ("acme", "nonce-0123456789a", 600000)].
Proof. vm_compute. reflexivity. Qed.

(** * The canonical form determines the fields *)

Definition allChars : list ascii := map ascii_of_nat (seq 0 256).
Lemma elem_of_allChars c : In c allChars.
Proof. apply in_map_iff. exists (nat_of_ascii c). split; [apply ascii_nat_embedding|]. apply in_seq. pose proof (nat_ascii_bounded c). lia. Qed.

(** One of the texts is a prefix of the other. *)
Definition comparable (a b : text) : bool := bool_decide (take (length b) a = take (length a) b).
Lemma comparable_app a r b s : a ++ r = b ++ s -> comparable a b = true.
Proof.
  intros E. apply bool_decide_eq_true. destruct (decide (length a <= length b)%nat) as [H|H].
  - rewrite (take_ge a) by lia. transitivity (take (length a) (a ++ r)); [by rewrite take_app_length|]. rewrite E, take_app_le by lia. done.
  - rewrite (take_ge b) by lia. transitivity (take (length b) (b ++ s)); [|by rewrite take_app_length]. rewrite <- E, take_app_le by lia. done.
Qed.

Lemma escape_codes : forallb (fun c => forallb (fun d => bool_decide (c = d) || negb (comparable (escapeChar c) (escapeChar d))) allChars
  && negb (bool_decide (head (escapeChar c) = Some quoteChar))) allChars = true.
Proof. vm_compute. reflexivity. Qed.

Lemma escape_prefix_free c d r s : escapeChar c ++ r = escapeChar d ++ s -> c = d ∧ r = s.
Proof.
  intros E. pose proof escape_codes as H. rewrite forallb_forall in H. specialize (H c (elem_of_allChars c)). apply andb_true_iff in H as [H _].
  rewrite forallb_forall in H. specialize (H d (elem_of_allChars d)). rewrite (comparable_app _ _ _ _ E) in H.
  rewrite orb_false_r in H. apply bool_decide_eq_true in H as ->. split; [done|]. by apply app_inv_head in E.
Qed.

Lemma escape_not_quote c r : escapeChar c ++ r ≠ [] ∧ head (escapeChar c ++ r) ≠ Some quoteChar.
Proof.
  pose proof escape_codes as H. rewrite forallb_forall in H. specialize (H c (elem_of_allChars c)). apply andb_true_iff in H as [_ H].
  apply negb_true_iff, bool_decide_eq_false in H. assert (escapeChar c ≠ []) as Hne.
  { unfold escapeChar. repeat (case_match; try done). }
  destruct (escapeChar c); [done|]. done.
Qed.

Definition quotedText (s : string) : text := quoteChar :: flat_map escapeChar (String.list_ascii_of_string s) ++ [quoteChar].
Lemma quotedText_inj a b r s : quotedText a ++ r = quotedText b ++ s -> a = b ∧ r = s.
Proof.
  unfold quotedText. intros E. cbn in E. injection E as E. rewrite <- !app_assoc in E.
  assert (String.list_ascii_of_string a = String.list_ascii_of_string b ∧ r = s) as [Ha Hr].
  { revert E. generalize (String.list_ascii_of_string a) (String.list_ascii_of_string b). intros la. induction la as [|c la IH]; intros [|d lb] E; cbn in E.
    - by injection E as ->.
    - rewrite <- app_assoc in E. destruct (escape_not_quote d (flat_map escapeChar lb ++ [quoteChar] ++ s)) as [_ Hn]. cbn in Hn. by rewrite <- E in Hn.
    - rewrite <- app_assoc in E. destruct (escape_not_quote c (flat_map escapeChar la ++ [quoteChar] ++ r)) as [_ Hn]. cbn in Hn. by rewrite E in Hn.
    - rewrite <- !app_assoc in E. apply escape_prefix_free in E as [-> E]. destruct (IH lb E) as [-> ->]. done. }
  split; [|done]. rewrite <- (String.string_of_list_ascii_of_string a), Ha. apply String.string_of_list_ascii_of_string.
Qed.

(** The text of a field that follows its key. *)
Definition fieldText (key value : string) (rest : text) : text := String.list_ascii_of_string (quoted key +:+ ":") ++ quotedText value ++ rest.
Lemma fieldText_inj key a b r s : fieldText key a r = fieldText key b s -> a = b ∧ r = s.
Proof. intros E. apply app_inv_head in E. by apply quotedText_inj. Qed.

Lemma commaField_inj c key a b r s : c :: fieldText key a r = c :: fieldText key b s -> a = b ∧ r = s.
Proof. intros E. apply (f_equal tail) in E. by apply fieldText_inj in E. Qed.

Lemma canonicalize_text f : String.list_ascii_of_string (canonicalizeSubmission f) =
  "{"%char :: fieldText "coverage_type" (sf_coverage_type f) (","%char :: fieldText "nonce" (sf_nonce f) (","%char :: fieldText "observed_at" (sf_observed_at f)
    (","%char :: fieldText "provider_id" (sf_provider_id f) (","%char :: fieldText "unit" (sf_unit f) (","%char :: fieldText "value" (sf_value f) ["}"%char]))))).
Proof.
  assert (∀ v, String.list_ascii_of_string (quoted v) = quotedText v) as Hq by (intros v; apply String.list_ascii_of_string_of_list_ascii).
  unfold canonicalizeSubmission, fieldText. cbn [map joinWith fst snd]. repeat rewrite list_ascii_append. rewrite !Hq. cbn [String.list_ascii_of_string app].
  repeat (rewrite <- app_assoc || rewrite <- app_comm_cons). done.
Qed.

(** The signed text determines the submission: two submissions with the same canonical form have the same fields, whatever
    characters they contain, so a signature for one submission is not a signature for another. *)
Theorem canonical_form_injective f g : canonicalizeSubmission f = canonicalizeSubmission g -> f = g.
Proof.
  intros E. apply (f_equal String.list_ascii_of_string) in E. rewrite !canonicalize_text in E.
  apply commaField_inj in E as [E1 E]. apply commaField_inj in E as [E2 E]. apply commaField_inj in E as [E3 E].
  apply commaField_inj in E as [E4 E]. apply commaField_inj in E as [E5 E]. apply commaField_inj in E as [E6 _].
  destruct f, g. cbn in *. congruence.
Qed.

Lemma canonical_form_injective_witness :
  canonicalizeSubmission (demoFields "n") = canonicalizeSubmission (demoFields "n") ∧ demoFields "n" = demoFields "n".
Proof. split; [reflexivity|]. apply canonical_form_injective. reflexivity. Defined.
