(* ===== verification/JsOrder.v ===== *)
(** Sorting numbers with the comparator [(a, b) => a - b].  The comparator decides
    by the sign of a rounded difference; on finite numbers this is the order of the
    numbers, because a difference of two distinct numbers never rounds to zero.
    With that, the middle of a sorted list is bracketed by any majority of it. *)

From stdpp Require Import base list sorting.
From Stdlib Require Import ZArith Lia Floats SpecFloat.
From S2P Require Import Prelude JsNum Consensus.

#[local] Open Scope Z_scope.

(** * Positive mantissas stay positive *)

Lemma digits2_pos_bounds m : 2 ^ (Z.pos (digits2_pos m) - 1) <= Z.pos m < 2 ^ Z.pos (digits2_pos m).
Proof.
  induction m as [p IH|p IH|]; cbn [digits2_pos]; [| |cbn; lia]; rewrite Pos2Z.inj_succ.
  all: replace (Z.succ (Z.pos (digits2_pos p)) - 1) with (Z.succ (Z.pos (digits2_pos p) - 1)) by lia.
  all: rewrite !Z.pow_succ_r by lia; lia.
Qed.

Lemma shr_1_m r : 0 <= shr_m r -> shr_m (shr_1 r) = shr_m r / 2 ∧ 0 <= shr_m (shr_1 r).
Proof.
  destruct r as [m b s]. destruct m as [|[p|p|]|p]; cbn [shr_1 shr_m]; intros Hm; (split; [|lia]).
  - done.
  - apply Z.div_unique with 1; lia.
  - apply Z.div_unique with 0; lia.
  - done.
  - lia.
Qed.

Lemma iter_shr_m p : forall r, 0 <= shr_m r ->
  shr_m (iter_pos shr_1 p r) = shr_m r / 2 ^ Z.pos p ∧ 0 <= shr_m (iter_pos shr_1 p r).
Proof.
  assert (forall a, 0 <= a -> 0 < 2 ^ a) as Hpow by (intros; apply Z.pow_pos_nonneg; lia).
  induction p as [p IH|p IH|]; intros r Hr; cbn [iter_pos].
  - destruct (shr_1_m r Hr) as [E0 P0]. destruct (IH _ P0) as [E1 P1]. destruct (IH _ P1) as [E2 P2]. split; [|done].
    rewrite E2, E1, E0, !Z.div_div by (try apply Z.mul_pos_pos; first [lia|apply Hpow; lia]). f_equal.
    replace (Z.pos p~1) with (1 + (Z.pos p + Z.pos p)) by lia. rewrite !Z.pow_add_r by lia. lia.
  - destruct (IH _ Hr) as [E1 P1]. destruct (IH _ P1) as [E2 P2]. split; [|done].
    rewrite E2, E1, Z.div_div by (first [lia|apply Hpow; lia]). f_equal.
    replace (Z.pos p~0) with (Z.pos p + Z.pos p) by lia. rewrite Z.pow_add_r by lia. lia.
  - change (2 ^ Z.pos 1) with 2. by apply shr_1_m.
Qed.

(** Shifting right to the exponent of the format leaves a mantissa that is not
    zero, and an exponent of the format. *)
Lemma shr_fexp_pos m e l : 1 <= m -> emin prec emax <= e ->
  1 <= shr_m (shr_fexp prec emax m e l).1 ∧ emin prec emax <= (shr_fexp prec emax m e l).2.
Proof.
  intros Hm He. unfold shr_fexp, shr. set (n := fexp prec emax (Zdigits2 m + e) - e).
  assert (shr_m (shr_record_of_loc m l) = m) as Hr by (by destruct l as [|[]]).
  destruct n as [|p|p] eqn:En; cbn [fst snd]; [rewrite Hr; lia| |rewrite Hr; lia].
  destruct m as [|m|m]; [lia| |lia]. destruct (iter_shr_m p (shr_record_of_loc (Z.pos m) l)) as [E _]; [rewrite Hr; lia|].
  rewrite E, Hr. unfold n, fexp, prec in En. cbn [Zdigits2] in En. pose proof (digits2_pos_bounds m) as [Hlo _].
  assert (Z.pos p < Z.pos (digits2_pos m)) as Hp by (unfold emin, prec, emax in *; lia).
  split; [|lia]. apply Z.div_le_lower_bound; [apply Z.pow_pos_nonneg; lia|]. rewrite Z.mul_1_r.
  eapply Z.le_trans; [|exact Hlo]. apply Z.pow_le_mono_r; lia.
Qed.

(** A rounded value of the format keeps the sign and is not zero. *)
Definition signed (s : bool) (f : spec_float) : Prop := (∃ m e, f = S754_finite s m e) ∨ f = S754_infinity s.

Lemma binary_round_signed s m e : emin prec emax <= e -> signed s (binary_round prec emax s m e).
Proof.
  intros He. unfold binary_round. set (e0 := fexp prec emax (Z.pos (digits2_pos m) + e)).
  assert (emin prec emax <= e0) as He0 by (unfold e0, fexp; lia).
  destruct (shl_align m e e0) as [mz ez] eqn:Es.
  assert (emin prec emax <= ez) as Hez by (unfold shl_align in Es; destruct (e0 - e); injection Es as <- <-; lia).
  unfold binary_round_aux. destruct (shr_fexp prec emax (Z.pos mz) ez loc_Exact) as [r1 e1] eqn:E1.
  pose proof (shr_fexp_pos (Z.pos mz) ez loc_Exact ltac:(lia) Hez) as [H1 H1e]. rewrite E1 in H1, H1e. cbn in H1, H1e.
  set (rm := round_nearest_even _ _). assert (1 <= rm) as Hrm by (unfold rm, round_nearest_even; destruct (loc_of_shr_record r1) as [|[]]; [lia|case_match; lia|lia|lia]).
  destruct (shr_fexp prec emax rm e1 loc_Exact) as [r2 e2] eqn:E2.
  pose proof (shr_fexp_pos rm e1 loc_Exact Hrm H1e) as [H2 _]. rewrite E2 in H2. cbn in H2.
  destruct (shr_m r2) as [|m2|m2]; [lia| |lia]. case_match; [left; eauto|by right].
Qed.

(** * The value of a finite number *)

(** The integer [m * 2^(e - ez)] with its sign. *)
Definition scaled (s : bool) (m : positive) (e ez : Z) : Z := cond_Zopp s (Z.pos m * 2 ^ (e - ez)).

Lemma shl_align_value m e ez : ez <= e -> Z.pos (fst (shl_align m e ez)) = Z.pos m * 2 ^ (e - ez).
Proof.
  intros He. unfold shl_align. destruct (ez - e) as [|d|d] eqn:E; cbn; [replace (e - ez) with 0 by lia; lia|lia|].
  replace (e - ez) with (Z.pos d) by lia. rewrite <- Z.pow_pos_fold. unfold Z.pow_pos.
  clear. revert m. induction d as [|d IH] using Pos.peano_ind; intros m; [cbn; lia|].
  rewrite Pos.iter_succ, Pos2Z.inj_xO, IH. rewrite Pos.iter_succ. lia.
Qed.

Lemma valid_exponent s m e : valid_binary prec emax (S754_finite s m e) = true ->
  emin prec emax <= e ∧ Z.pos (digits2_pos m) <= prec ∧ (emin prec emax < e -> Z.pos (digits2_pos m) = prec).
Proof. cbn. unfold bounded, canonical_mantissa, fexp. rewrite andb_true_iff, Z.eqb_eq. lia. Qed.

(** Among numbers of the format the smaller exponent belongs to the smaller
    magnitude. *)
Lemma magnitude_lt m1 e1 m2 e2 : (∃ s, valid_binary prec emax (S754_finite s m1 e1) = true) -> (∃ s, valid_binary prec emax (S754_finite s m2 e2) = true) ->
  e1 < e2 -> Z.pos m1 < Z.pos m2 * 2 ^ (e2 - e1).
Proof.
  intros [s1 (H1 & D1 & _)%valid_exponent] [s2 (_ & _ & D2)%valid_exponent] He. specialize (D2 ltac:(lia)).
  destruct (digits2_pos_bounds m1) as [_ U1], (digits2_pos_bounds m2) as [L2 _]. rewrite D2 in L2.
  assert (2 ^ Z.pos (digits2_pos m1) <= 2 ^ (prec - 1) * 2 ^ (e2 - e1)) as Hb.
  { rewrite <- Z.pow_add_r by (unfold prec; lia). apply Z.pow_le_mono_r; [lia|]. lia. }
  assert (2 ^ (prec - 1) * 2 ^ (e2 - e1) <= Z.pos m2 * 2 ^ (e2 - e1)) by (apply Z.mul_le_mono_nonneg_r; [apply Z.pow_nonneg; lia|done]). lia.
Qed.

(** The comparison of two numbers of the format is the comparison of their values. *)
Lemma SFcompare_scaled s1 m1 e1 s2 m2 e2 :
  valid_binary prec emax (S754_finite s1 m1 e1) = true -> valid_binary prec emax (S754_finite s2 m2 e2) = true ->
  SFcompare (S754_finite s1 m1 e1) (S754_finite s2 m2 e2) =
    Some (scaled s1 m1 e1 (Z.min e1 e2) ?= scaled s2 m2 e2 (Z.min e1 e2)).
Proof.
  intros V1 V2. cbn. f_equal. unfold scaled.
  assert (0 < 2 ^ (e1 - Z.min e1 e2)) as P1 by (apply Z.pow_pos_nonneg; lia).
  assert (0 < 2 ^ (e2 - Z.min e1 e2)) as P2 by (apply Z.pow_pos_nonneg; lia).
  destruct (Z.compare_spec e1 e2) as [->|He|He].
  - rewrite Z.min_id in *. rewrite Z.sub_diag, !Z.mul_1_r. destruct s1, s2; cbn; try done.
  - rewrite Z.min_l in * by lia. rewrite Z.sub_diag, Z.mul_1_r.
    pose proof (magnitude_lt m1 e1 m2 e2 (ex_intro _ _ V1) (ex_intro _ _ V2) He) as Hm.
    destruct s1, s2; cbn [cond_Zopp]; symmetry; [apply Z.compare_gt_iff|apply Z.compare_lt_iff|apply Z.compare_gt_iff|apply Z.compare_lt_iff]; lia.
  - rewrite Z.min_r in * by lia. rewrite Z.sub_diag, Z.mul_1_r.
    pose proof (magnitude_lt m2 e2 m1 e1 (ex_intro _ _ V2) (ex_intro _ _ V1) He) as Hm.
    destruct s1, s2; cbn [cond_Zopp]; symmetry; [apply Z.compare_lt_iff|apply Z.compare_lt_iff|apply Z.compare_gt_iff|apply Z.compare_gt_iff]; lia.
Qed.

(** * The comparator is the order *)

Definition finiteSF (f : spec_float) : Prop := match f with S754_zero _ | S754_finite _ _ _ => True | _ => False end.

Lemma isFinite_SF x : isFinite x = true -> finiteSF (Prim2SF x).
Proof.
  unfold isFinite, PrimFloat.is_finite, PrimFloat.is_nan, PrimFloat.is_infinity. rewrite !eqb_spec, abs_spec.
  change (Prim2SF infinity) with (S754_infinity false). destruct (Prim2SF x) as [[]|[]| |[] m e]; cbn; intros Hx; try done; discriminate Hx.
Qed.

Lemma SFleb_signed_zero s f : signed s f -> SFleb f (S754_zero false) = s.
Proof. intros [(m & e & ->)| ->]; by destruct s. Qed.

Lemma SFleb_sub f g : finiteSF f -> finiteSF g -> valid_binary prec emax f = true -> valid_binary prec emax g = true ->
  SFleb (SFsub prec emax f g) (S754_zero false) = SFleb f g.
Proof.
  destruct f as [sf|sf| |sf mf ef], g as [sg|sg| |sg mg eg]; cbn [finiteSF]; try done; intros _ _ Vf Vg.
  - destruct sf, sg; reflexivity.
  - destruct sf, sg; reflexivity.
  - pose proof (SFcompare_scaled _ _ _ _ _ _ Vf Vg) as Hc.
    assert (emin prec emax <= Z.min ef eg) as He by (apply valid_exponent in Vf as [? _], Vg as [? _]; lia).
    cbn [SFsub]. rewrite !shl_align_value by lia. unfold scaled in Hc. unfold SFleb at 2. rewrite Hc.
    set (a := cond_Zopp sf _). set (b := cond_Zopp sg _). unfold binary_normalize.
    destruct (a - b) as [|p|p] eqn:E; cbn beta iota.
    + rewrite (proj2 (Z.compare_eq_iff a b)) by lia. reflexivity.
    + rewrite (SFleb_signed_zero false) by (by apply binary_round_signed). rewrite (proj2 (Z.compare_gt_iff a b)) by lia. done.
    + rewrite (SFleb_signed_zero true) by (by apply binary_round_signed). rewrite (proj2 (Z.compare_lt_iff a b)) by lia. done.
Qed.

Lemma ascending_nle a b : isFinite a = true -> isFinite b = true -> ascending a b = nle a b.
Proof.
  intros Ha Hb. unfold ascending, nle. rewrite !leb_spec, sub_spec. unfold SF64sub.
  change (Prim2SF 0%float) with (S754_zero false). apply SFleb_sub; auto using isFinite_SF, Prim2SF_valid.
Qed.

(** * Sorted lists of finite numbers *)

Definition finites (l : list num) : Prop := Forall (fun v => isFinite v = true) l.

Lemma insert_by_ext {A} (le1 le2 : A -> A -> bool) (P : A -> Prop) x l :
  (forall a b, P a -> P b -> le1 a b = le2 a b) -> P x -> Forall P l -> insert_by le1 x l = insert_by le2 x l.
Proof. intros He Hx. induction 1 as [|y l Hy Hl IH]; cbn; [done|]. rewrite He by done. destruct (le2 x y); [done|]. by rewrite IH. Qed.

Lemma sort_by_ext {A} (le1 le2 : A -> A -> bool) (P : A -> Prop) l :
  (forall a b, P a -> P b -> le1 a b = le2 a b) -> Forall P l -> sort_by le1 l = sort_by le2 l.
Proof.
  intros He. induction 1 as [|x l Hx Hl IH]; cbn; [done|]. rewrite IH. apply insert_by_ext with P; [done..|]. by rewrite sort_by_perm.
Qed.

(** On a set where the comparison is a total preorder, sorting sorts. *)
Lemma sort_by_sorted_on {A} (le : A -> A -> bool) (P : A -> Prop) l :
  (forall a b, P a -> P b -> le a b = true ∨ le b a = true) ->
  (forall a b c, P a -> P b -> P c -> le a b = true -> le b c = true -> le a c = true) ->
  Forall P l -> StronglySorted (fun a b => le a b = true) (sort_by le l).
Proof.
  intros Htot Htr. induction 1 as [|x l Hx Hl IH]; cbn; [constructor|].
  assert (Forall P (sort_by le l)) as Hp by (by rewrite sort_by_perm). clear Hl. induction IH as [|y s Hs IHs Hall]; cbn; [repeat constructor|].
  apply Forall_cons in Hp as [Hy Hp]. destruct (le x y) eqn:E.
  - constructor; [by constructor|]. constructor; [done|]. rewrite Forall_forall in *. intros z Hz. eapply Htr; [..|apply E|by apply Hall]; auto.
  - constructor; [by apply IHs|]. rewrite insert_by_perm. constructor; [|done]. destruct (Htot x y); [done|done|congruence|done].
Qed.

Lemma sort_ascending_sorted l : finites l -> StronglySorted (fun a b => nle a b = true) (sort_by ascending l).
Proof.
  intros Hl. rewrite (sort_by_ext ascending nle (fun v => isFinite v = true)) by (auto using ascending_nle).
  apply sort_by_sorted_on with (fun v => isFinite v = true); [| |done].
  - intros a b Ha Hb. by apply nle_total; apply isFinite_notNaN.
  - intros a b c Ha Hb Hc. by apply nle_trans; apply isFinite_notNaN.
Qed.

(** How many entries of a list fail a test. *)
Definition misses {A} (p : A -> bool) (l : list A) : nat := length (List.filter (fun v => negb (p v)) l).

Lemma misses_perm {A} (p : A -> bool) l1 l2 : l1 ≡ₚ l2 -> misses p l1 = misses p l2.
Proof. unfold misses. induction 1; cbn; repeat (case_match; cbn); lia. Qed.

Lemma misses_app {A} (p : A -> bool) l1 l2 : misses p (l1 ++ l2) = (misses p l1 + misses p l2)%nat.
Proof. unfold misses. by rewrite List.filter_app, length_app. Qed.

Lemma misses_all {A} (p : A -> bool) l : Forall (fun v => p v = false) l -> misses p l = length l.
Proof. unfold misses. induction 1 as [|v l Hv Hl IH]; cbn; [done|]. rewrite Hv. cbn. by rewrite IH. Qed.

Lemma StronglySorted_split {A} (R : A -> A -> Prop) l1 x l2 : StronglySorted R (l1 ++ x :: l2) -> Forall (fun y => R y x) l1 ∧ Forall (R x) l2.
Proof.
  induction l1 as [|y l1 IH]; cbn; inversion_clear 1 as [|? ? Hs Hall]; [done|]. destruct (IH Hs) as [H1 H2]. split; [|done].
  constructor; [|done]. rewrite Forall_app, Forall_cons in Hall. tauto.
Qed.

Section Middle.
Context (l : list num) (Hfin : finites l) (Hs : StronglySorted (fun a b => nle a b = true) l).

Lemma finite_lookup i x : l !! i = Some x -> notNaN x.
Proof. intros Hi. unfold finites in Hfin. rewrite Forall_lookup in Hfin. eapply isFinite_notNaN, Hfin, Hi. Qed.

(** The entry at position [i] is at least [lo] when at most [i] entries are below. *)
Lemma index_lower i x lo : notNaN lo -> l !! i = Some x -> (misses (nle lo) l <= i)%nat -> nle lo x = true.
Proof.
  intros Hlo Hi Hm. destruct (nle lo x) eqn:E; [done|]. exfalso. rewrite <- (take_drop_middle l i x Hi) in Hs, Hm.
  apply StronglySorted_split in Hs as [Hb _].
  assert (Forall (fun v => nle lo v = false) (take i l)) as Hbad.
  { rewrite Forall_forall in Hb |- *. intros v Hv. destruct (nle lo v) eqn:Ev; [|done]. exfalso.
    assert (notNaN v) as Hnv by (apply list_elem_of_lookup in Hv as [j Hj]; apply lookup_take_Some in Hj as [Hj _]; by eapply finite_lookup).
    rewrite (nle_trans lo v x Hlo Hnv (finite_lookup _ _ Hi) Ev (Hb v Hv)) in E. done. }
  rewrite misses_app in Hm. rewrite (misses_all _ (take i l)) in Hm by done. rewrite length_take in Hm. unfold misses in Hm. cbn [List.filter] in Hm.
  rewrite E in Hm. cbn in Hm. apply lookup_lt_Some in Hi. lia.
Qed.

(** Dually from above. *)
Lemma index_upper i x hi : notNaN hi -> l !! i = Some x -> (misses (fun v => nle v hi) l + i < length l)%nat -> nle x hi = true.
Proof.
  intros Hhi Hi Hm. destruct (nle x hi) eqn:E; [done|]. exfalso. rewrite <- (take_drop_middle l i x Hi) in Hs, Hm.
  apply StronglySorted_split in Hs as [_ Ha].
  assert (Forall (fun v => nle v hi = false) (drop (S i) l)) as Hbad.
  { rewrite Forall_forall in Ha |- *. intros v Hv. destruct (nle v hi) eqn:Ev; [|done]. exfalso.
    assert (notNaN v) as Hnv by (apply list_elem_of_lookup in Hv as [j Hj]; rewrite lookup_drop in Hj; by eapply finite_lookup).
    rewrite (nle_trans x v hi (finite_lookup _ _ Hi) Hnv Hhi (Ha v Hv) Ev) in E. done. }
  rewrite misses_app, length_app in Hm. cbn [length] in Hm.
  assert (misses (fun v => nle v hi) (x :: drop (S i) l) = S (length (drop (S i) l))) as Hc.
  { unfold misses. cbn [List.filter]. rewrite E. cbn. f_equal. apply (misses_all (fun v => nle v hi)). done. }
  rewrite Hc, length_take, length_drop in Hm. apply lookup_lt_Some in Hi. lia.
Qed.
End Middle.

Definition between (lo hi v : num) : bool := nle lo v && nle v hi.

Lemma misses_between lo hi l : (misses (nle lo) l <= misses (between lo hi) l)%nat ∧ (misses (fun v => nle v hi) l <= misses (between lo hi) l)%nat.
Proof.
  unfold misses, between. induction l as [|v l [IH1 IH2]]; [done|]. cbn [List.filter]. destruct (nle lo v), (nle v hi); cbn [andb negb length]; lia.
Qed.

(** The two middle positions of the sorted list are bracketed by every strict
    majority: if fewer than half of the values lie outside [lo, hi], the values at
    positions [n/2] and [(n-1)/2] are inside. *)
Lemma middle_bracketed values lo hi i x :
  finites values -> notNaN lo -> notNaN hi -> (2 * misses (between lo hi) values < length values)%nat ->
  (i = length values / 2 ∨ i = (length values - 1) / 2)%nat -> sort_by ascending values !! i = Some x -> between lo hi x = true.
Proof.
  intros Hf Hlo Hhi Hm Hi Hx. set (l := sort_by ascending values) in *.
  assert (l ≡ₚ values) as Hp by apply sort_by_perm. assert (finites l) as Hfl by (unfold finites; by rewrite Hp).
  assert (length l = length values) as Hl by (apply sort_by_length). pose proof (sort_ascending_sorted values Hf) as Hs. fold l in Hs.
  rewrite <- (misses_perm _ _ _ Hp), <- Hl in Hm. rewrite <- Hl in Hi. destruct (misses_between lo hi l) as [H1 H2].
  assert (2 * i <= length l /\ length l <= 2 * i + 2)%nat as [Hi1 Hi2].
  { destruct Hi as [-> | ->].
    - pose proof (Nat.div_mod_eq (length l) 2). pose proof (Nat.mod_upper_bound (length l) 2 ltac:(lia)). lia.
    - pose proof (Nat.div_mod_eq (length l - 1) 2). pose proof (Nat.mod_upper_bound (length l - 1) 2 ltac:(lia)). lia. }
  unfold between. rewrite andb_true_iff. split.
  - apply (index_lower l Hfl Hs i x lo Hlo Hx). lia.
  - apply (index_upper l Hfl Hs i x hi Hhi Hx). lia.
Qed.
