(* ===== verification/JsMean.v ===== *)
(** The mean [(a + b) / 2] of two numbers, as the medians of an even number of values take
    it: when the sum does not overflow, the mean lies in every interval that has both.
    Rounding is monotone towards the numbers of the format; doubling a number of the format
    and halving are exact, up to half a unit in the last place of a subnormal. *)

From stdpp Require Import base list.
From Stdlib Require Import ZArith Lia Floats SpecFloat.
From S2P Require Import Prelude JsNum Consensus JsOrder.

#[local] Open Scope Z_scope.

(** * Values in units of the least positive number *)

Definition val (f : spec_float) : Z := match f with S754_finite s m e => scaled s m e (emin prec emax) | _ => 0 end.

Lemma pow2_pos n : 0 <= n -> 0 < 2 ^ n.
Proof. intros. apply Z.pow_pos_nonneg; lia. Qed.
Lemma pow2_split a b c : c <= b -> b <= a -> 2 ^ (a - c) = 2 ^ (a - b) * 2 ^ (b - c).
Proof. intros. rewrite <- Z.pow_add_r by lia. f_equal. lia. Qed.

Lemma scaled_rescale s m e ez eu : eu <= ez -> ez <= e -> scaled s m e eu = scaled s m e ez * 2 ^ (ez - eu).
Proof. intros. unfold scaled. rewrite (pow2_split e ez eu) by lia. destruct s; cbn [cond_Zopp]; lia. Qed.

Lemma SFleb_val f g : finiteSF f -> finiteSF g -> valid_binary prec emax f = true -> valid_binary prec emax g = true -> SFleb f g = (val f <=? val g).
Proof.
  assert (∀ s m e, valid_binary prec emax (S754_finite s m e) = true -> 0 < Z.pos m * 2 ^ (e - emin prec emax)) as Hpos.
  { intros s m e [He _]%valid_exponent. pose proof (pow2_pos (e - emin prec emax) ltac:(lia)). lia. }
  destruct f as [sf|sf| |sf mf ef], g as [sg|sg| |sg mg eg]; cbn [finiteSF]; try done; intros _ _ Vf Vg.
  - specialize (Hpos _ _ _ Vg). cbn [val]. unfold SFleb, scaled. destruct sg; cbn [SFcompare cond_Zopp]; symmetry; [apply Z.leb_gt|apply Z.leb_le]; lia.
  - specialize (Hpos _ _ _ Vf). cbn [val]. unfold SFleb, scaled. destruct sf; cbn [SFcompare cond_Zopp]; symmetry; [apply Z.leb_le|apply Z.leb_gt]; lia.
  - unfold SFleb. rewrite (SFcompare_scaled _ _ _ _ _ _ Vf Vg). apply valid_exponent in Vf as [Hf _], Vg as [Hg _]. cbn [val].
    rewrite (scaled_rescale sf mf ef (Z.min ef eg) (emin prec emax)), (scaled_rescale sg mg eg (Z.min ef eg) (emin prec emax)) by lia.
    pose proof (pow2_pos (Z.min ef eg - emin prec emax) ltac:(lia)) as Hp. set (x := scaled sf _ _ _). set (y := scaled sg _ _ _).
    destruct (Z.compare_spec x y); symmetry; [apply Z.leb_le|apply Z.leb_le|apply Z.leb_gt]; nia.
Qed.

(** * Rounding *)

Lemma iter_pos_ind {A} (f : A -> A) (I : Z -> A -> Prop) p : (∀ k x, I k x -> I (k + 1) (f x)) -> ∀ k x, I k x -> I (k + Z.pos p) (iter_pos f p x).
Proof.
  intros Hf. induction p as [p IH|p IH|]; intros k x Hx; cbn [iter_pos].
  - replace (k + Z.pos p~1) with (k + 1 + Z.pos p + Z.pos p) by lia. by apply IH, IH, Hf.
  - replace (k + Z.pos p~0) with (k + Z.pos p + Z.pos p) by lia. by apply IH, IH.
  - by apply Hf.
Qed.

(** The bits shifted out are remembered. *)
Definition remembers (m k : Z) (r : shr_record) : Prop :=
  0 <= k ∧ 0 <= shr_m r ∧ shr_m r * 2 ^ k <= m ∧ (shr_r r || shr_s r = true -> shr_m r * 2 ^ k < m).
Lemma remembers_shr m k r : remembers m k r -> remembers m (k + 1) (shr_1 r).
Proof.
  intros (Hk & H0 & H1 & H2). assert (2 ^ (k + 1) = 2 * 2 ^ k) as Ep by (rewrite Z.pow_add_r by lia; lia). pose proof (pow2_pos k Hk) as Hp.
  unfold remembers. rewrite Ep. destruct r as [m0 b s]. cbn in *. destruct m0 as [|[p|p|]|p]; cbn; [| | | |lia].
  - split_and!; [lia|lia|lia|]. intros Hs. specialize (H2 Hs). lia.
  - split_and!; [lia|lia|nia|]. intros _. nia.
  - split_and!; [lia|lia|nia|]. intros Hs. specialize (H2 Hs). nia.
  - split_and!; [lia|lia|nia|]. intros _. nia.
Qed.

(** An exact mantissa shifted right by [n] and rounded. *)
Lemma shr_rounded m e n : 0 <= m -> let '(r, e') := shr (Build_shr_record m false false) e n in let k := Z.max 0 n in let m2 := round_nearest_even (shr_m r) (loc_of_shr_record r) in
  e' = e + k ∧ shr_m r = m / 2 ^ k ∧ m / 2 ^ k <= m2 <= m / 2 ^ k + 1 ∧ (m2 ≠ m / 2 ^ k -> m / 2 ^ k * 2 ^ k < m).
Proof.
  intros Hm. unfold shr. destruct n as [|p|p]; [| |].
  1,3: cbn; rewrite Z.div_1_r; split_and!; lia.
  destruct (iter_shr_m p (Build_shr_record m false false) Hm) as [E _].
  destruct (iter_pos_ind shr_1 (remembers m) p (remembers_shr m) 0 (Build_shr_record m false false)) as (_ & _ & _ & Hr).
  { unfold remembers. cbn. split_and!; [lia|lia|lia|done]. }
  cbn [shr_m] in E. rewrite Z.add_0_l in Hr. cbv zeta. rewrite Z.max_r by lia. set (r := iter_pos shr_1 p _) in *. rewrite <- E.
  split_and!; [lia|done|..].
  1,2: destruct r as [m0 [] []]; cbn; try case_match; lia.
  intros Hne. apply Hr. destruct r as [m0 [] []]; cbn in *; done.
Qed.

Lemma digits_bound m d : 0 < m -> m < 2 ^ d -> 0 <= d -> Zdigits2 m <= d.
Proof.
  intros Hm Hd H0. destruct m as [|m|]; [lia| |lia]. cbn. destruct (digits2_pos_bounds m) as [Hl _]. apply Z.lt_succ_r.
  assert (Z.pos (digits2_pos m) - 1 < d); [|lia]. apply (Z.pow_lt_mono_r_iff 2); lia.
Qed.

(** The second normalisation of a rounding keeps the value. *)
Lemma round_twice_val s m e f : 0 <= m <= 2 ^ 53 -> emin prec emax <= e ->
  f = (let '(r, e') := shr_fexp prec emax m e loc_Exact in
       match shr_m r with Z0 => S754_zero s | Z.pos p => if e' <=? emax - prec then S754_finite s p e' else S754_infinity s | _ => S754_nan end) ->
  finiteSF f -> val f = cond_Zopp s (m * 2 ^ (e - emin prec emax)).
Proof.
  intros Hm He Ef Hfin. unfold shr_fexp in Ef. cbn [shr_record_of_loc] in Ef. destruct (decide (m = 2 ^ 53)) as [->|E53].
  - change (Zdigits2 (2 ^ 53)) with 54 in Ef. replace (fexp prec emax (54 + e) - e) with 1 in Ef by (unfold fexp, prec in *; lia).
    cbn [shr iter_pos] in Ef. change (shr_m (shr_1 _)) with 4503599627370496 in Ef. destruct (e + 1 <=? emax - prec); subst f; [|done]. cbn [val]. unfold scaled. f_equal.
    change 4503599627370496 with (2 ^ 52). rewrite <- !Z.pow_add_r by lia. f_equal. lia.
  - assert (fexp prec emax (Zdigits2 m + e) - e <= 0) as Hn.
    { assert (Zdigits2 m <= 53) as Hd by (destruct (decide (m = 0)) as [->|]; [done|apply digits_bound; lia]). unfold fexp, prec in *. lia. }
    unfold shr in Ef. destruct (fexp prec emax (Zdigits2 m + e) - e); [|lia|]; cbn [shr_m] in Ef; (destruct m as [|p2|p2]; [subst f; by destruct s| |lia]);
      destruct (e <=? emax - prec); subst f; done.
Qed.

(** Rounding an exact positive mantissa: the exponent [e1] of the format, and the mantissa
    or the next one. *)
Lemma round_aux_spec s m e : 0 < m -> emin prec emax <= e -> finiteSF (binary_round_aux prec emax s m e loc_Exact) ->
  let e1 := Z.max e (fexp prec emax (Zdigits2 m + e)) in let m1 := m / 2 ^ (e1 - e) in
  ∃ m2, m1 <= m2 <= m1 + 1 ∧ (m2 ≠ m1 -> m1 * 2 ^ (e1 - e) < m) ∧
    val (binary_round_aux prec emax s m e loc_Exact) = cond_Zopp s (m2 * 2 ^ (e1 - emin prec emax)).
Proof.
  intros Hm He Hfin. cbv zeta. set (e1 := Z.max e (fexp prec emax (Zdigits2 m + e))). remember (binary_round_aux prec emax s m e loc_Exact) as f eqn:Ef.
  unfold binary_round_aux, shr_fexp at 1 in Ef. cbn [shr_record_of_loc] in Ef.
  pose proof (shr_rounded m e (fexp prec emax (Zdigits2 m + e) - e) ltac:(lia)) as H1.
  replace (Z.max 0 (fexp prec emax (Zdigits2 m + e) - e)) with (e1 - e) in H1 by lia.
  destruct (shr _ e _) as [r e']. cbv zeta in H1. set (m2 := round_nearest_even _ _) in *. destruct H1 as (-> & _ & Hm2 & Hx). replace (e + (e1 - e)) with e1 in Ef by lia.
  assert (m / 2 ^ (e1 - e) < 2 ^ 53) as Hsmall.
  { apply Z.div_lt_upper_bound; [apply pow2_pos; lia|]. destruct m as [|p|]; [lia| |lia]. destruct (digits2_pos_bounds p) as [_ Hu]. rewrite <- Z.pow_add_r by lia.
    eapply Z.lt_le_trans; [exact Hu|]. apply Z.pow_le_mono_r; [lia|]. unfold e1, fexp, prec. cbn [Zdigits2]. lia. }
  assert (0 <= m / 2 ^ (e1 - e)) as Hnn by (apply Z.div_pos; [lia|apply pow2_pos; lia]).
  exists m2. split_and!; [lia|lia|done|]. apply (round_twice_val s m2 e1 f); [lia|lia|done|done].
Qed.

(** A value below (above) a number of the format, or of the format with larger exponents,
    rounds to one below (above) it. *)
Lemma round_aux_monotone s m e : 0 < m -> emin prec emax <= e -> finiteSF (binary_round_aux prec emax s m e loc_Exact) ->
  ∃ M, 0 <= M ∧ val (binary_round_aux prec emax s m e loc_Exact) = cond_Zopp s M ∧
    ∀ mg eg, 0 <= mg < 2 ^ 53 -> emin prec emax <= eg -> let g := mg * 2 ^ (eg - emin prec emax) in let x := m * 2 ^ (e - emin prec emax) in
      (g <= x -> g <= M) ∧ (x <= g -> M <= g).
Proof.
  intros Hm He Hfin. destruct (round_aux_spec s m e Hm He Hfin) as (m2 & Hm2 & Hx & Hv). set (e1 := Z.max e (fexp prec emax (Zdigits2 m + e))) in *.
  set (k := e1 - e) in *. set (m1 := m / 2 ^ k) in *. assert (0 <= k) as Hk by lia. pose proof (pow2_pos k Hk) as Pk.
  assert (m1 * 2 ^ k <= m < (m1 + 1) * 2 ^ k) as Hm1.
  { unfold m1. pose proof (Z.div_mod m (2 ^ k) ltac:(lia)). pose proof (Z.mod_pos_bound m (2 ^ k) Pk). nia. }
  assert (0 <= m1) as H0 by nia. set (a := 2 ^ (e - emin prec emax)). assert (0 < a) as Pa by (apply pow2_pos; lia).
  assert (2 ^ (e1 - emin prec emax) = 2 ^ k * a) as Ek by (apply pow2_split; lia). rewrite Ek in Hv.
  exists (m2 * (2 ^ k * a)). split_and!; [nia|done|]. intros mg eg Hmg Heg. cbv zeta. destruct (Z_le_gt_dec e1 eg) as [Hge|Hlt].
  - rewrite (pow2_split eg e1 (emin prec emax)), Ek by lia. set (t := mg * 2 ^ (eg - e1)). rewrite !Z.mul_assoc. fold t. split.
    + intros Hg. assert (t * 2 ^ k <= m) as Ht by nia. assert (t < m1 + 1) by nia. nia.
    + intros Hg. assert (m <= t * 2 ^ k) as Ht by nia. destruct (decide (m2 = m1)) as [->|Hne]; [assert (m1 <= t) by nia; nia|].
      specialize (Hx Hne). assert (m1 < t) by nia. nia.
  - destruct (decide (k = 0)) as [E0|Hk0].
    { rewrite E0 in *. change (2 ^ 0) with 1 in *. assert (m2 = m) as -> by lia. split; lia. }
    assert (2 ^ 52 <= m1) as Hbig.
    { apply Z.div_le_lower_bound; [done|]. destruct m as [|p|]; [lia| |lia]. destruct (digits2_pos_bounds p) as [Hl _]. rewrite <- Z.pow_add_r by lia.
      eapply Z.le_trans; [|exact Hl]. apply Z.pow_le_mono_r; [lia|]. unfold k, e1, fexp, prec in *. cbn [Zdigits2] in *. lia. }
    assert (mg * 2 ^ (eg - emin prec emax) < 2 ^ 52 * (2 ^ k * a)) as Hlt'; [|split; nia].
    rewrite <- Ek, <- Z.pow_add_r by lia. eapply Z.lt_le_trans with (2 ^ 53 * 2 ^ (eg - emin prec emax)).
    + pose proof (pow2_pos (eg - emin prec emax) ltac:(lia)). nia.
    + rewrite <- Z.pow_add_r by lia. apply Z.pow_le_mono_r; lia.
Qed.

(** A signed multiple of a power of two with at most 53 bits. *)
Definition representable (g : Z) : Prop := ∃ s mg eg, 0 <= mg < 2 ^ 53 ∧ emin prec emax <= eg ∧ g = cond_Zopp s (mg * 2 ^ (eg - emin prec emax)).

Lemma twice_representable f : finiteSF f -> valid_binary prec emax f = true -> representable (2 * val f).
Proof.
  destruct f as [| | |s m e]; cbn [finiteSF]; try done; intros _ V.
  - exists false, 0, (emin prec emax). split_and!; [lia|lia|lia|done].
  - apply valid_exponent in V as (He & Hd & _). destruct (digits2_pos_bounds m) as [_ Hu]. exists s, (Z.pos m), (e + 1). split_and!; [lia| |lia|].
    + eapply Z.lt_le_trans; [exact Hu|]. apply Z.pow_le_mono_r; [lia|done].
    + cbn [val]. unfold scaled. replace (e + 1 - emin prec emax) with (Z.succ (e - emin prec emax)) by lia. rewrite Z.pow_succ_r by lia. destruct s; cbn [cond_Zopp]; lia.
Qed.

Lemma shl_align_same m e ez : let '(mz, e') := shl_align m e ez in e' = Z.min e ez ∧ Z.pos mz * 2 ^ (e' - Z.min e ez) = Z.pos m * 2 ^ (e - Z.min e ez).
Proof.
  pose proof (shl_align_value m e ez) as Hv. unfold shl_align in *. destruct (ez - e) as [|d|d] eqn:E.
  - rewrite Z.min_l by lia. done.
  - rewrite Z.min_l by lia. done.
  - rewrite Z.min_r in * by lia. cbn [fst] in Hv. rewrite Hv by lia. split; [done|]. rewrite Z.sub_diag. lia.
Qed.

(** Rounding a sum towards representable bounds. *)
Lemma normalize_monotone n e z g : emin prec emax <= e -> finiteSF (binary_normalize prec emax n e z) -> representable g ->
  let x := n * 2 ^ (e - emin prec emax) in let v := val (binary_normalize prec emax n e z) in (g <= x -> g <= v) ∧ (x <= g -> v <= g).
Proof.
  intros He. unfold binary_normalize. destruct n as [|p|p]; cbv zeta; [done| |].
  all: unfold binary_round; set (e0 := fexp prec emax (Z.pos (digits2_pos p) + e)); assert (emin prec emax <= e0) as He0 by (unfold e0, fexp; lia);
    pose proof (shl_align_same p e e0) as Hs; destruct (shl_align p e e0) as [mz ez]; destruct Hs as [-> Hs]; rewrite Z.sub_diag, Z.mul_1_r in Hs;
    intros Hfin (s & mg & eg & Hmg & Heg & ->);
    destruct (round_aux_monotone _ (Z.pos mz) (Z.min e e0) ltac:(lia) ltac:(lia) Hfin) as (M & HM & -> & Hb); specialize (Hb mg eg Hmg Heg); cbv zeta in Hb;
    rewrite Hs, <- Z.mul_assoc, <- pow2_split in Hb by lia;
    pose proof (pow2_pos (e - emin prec emax) ltac:(lia)); pose proof (pow2_pos (eg - emin prec emax) ltac:(lia));
    assert (0 <= mg * 2 ^ (eg - emin prec emax)) by nia; rewrite ?Pos2Z.opp_pos, <- ?Pos2Z.opp_pos; destruct s; cbn [cond_Zopp]; lia.
Qed.

Lemma SFadd_monotone f h g : finiteSF f -> finiteSF h -> valid_binary prec emax f = true -> valid_binary prec emax h = true -> finiteSF (SFadd prec emax f h) -> representable g ->
  (g <= val f + val h -> g <= val (SFadd prec emax f h)) ∧ (val f + val h <= g -> val (SFadd prec emax f h) <= g).
Proof.
  destruct f as [sf|sf| |sf mf ef], h as [sh|sh| |sh mh eh]; cbn [finiteSF]; try done; intros _ _ Vf Vh.
  - by destruct sf, sh.
  - cbn [SFadd val]. by rewrite Z.add_0_r.
  - apply valid_exponent in Vf as [Hf _], Vh as [Hh _]. cbn [SFadd]. rewrite !shl_align_value by lia. intros Hfin Hg. cbn [val].
    rewrite (scaled_rescale sf mf ef (Z.min ef eh) (emin prec emax)), (scaled_rescale sh mh eh (Z.min ef eh) (emin prec emax)) by lia. rewrite <- Z.mul_add_distr_r.
    apply normalize_monotone; [lia|done|done].
Qed.

(** * Halving *)

Definition SFtwo : spec_float := S754_finite false 4503599627370496 (-51).

Lemma round_aux_half s q e l : 0 <= q <= 2 ^ 52 -> e = emin prec emax ->
  ∃ m2, val (binary_round_aux prec emax s q e l) = cond_Zopp s m2 ∧ q <= m2 <= q + 1 ∧ (l = loc_Exact -> m2 = q).
Proof.
  intros Hq ->. assert (∀ n, 0 <= n <= 2 ^ 53 - 1 -> fexp prec emax (Zdigits2 n + emin prec emax) - emin prec emax = 0) as Hn.
  { intros n Hn. assert (Zdigits2 n <= 53) as Hd by (destruct (decide (n = 0)) as [->|]; [done|apply digits_bound; lia]). unfold fexp, prec in *. lia. }
  unfold binary_round_aux, shr_fexp. rewrite (Hn q) by lia. cbn [shr]. set (m2 := round_nearest_even _ _).
  assert (q <= m2 <= q + 1 ∧ (l = loc_Exact -> m2 = q)) as [Hm2 Hex].
  { unfold m2. destruct l as [|[]]; cbn; try case_match; (split; [lia|done || lia]). }
  exists m2. rewrite (Hn m2) by lia. cbn [shr shr_record_of_loc shr_m]. split; [|done]. destruct m2 as [|p|p]; [by destruct s| |lia].
  replace (emin prec emax <=? emax - prec) with true by done. cbn [val]. unfold scaled. by rewrite Z.sub_diag, Z.mul_1_r.
Qed.

(** Halving a number of the format is exact, up to half the least positive number. *)
Lemma SFhalf f : finiteSF f -> valid_binary prec emax f = true -> Z.abs (2 * val (SFdiv prec emax f SFtwo) - val f) <= 1.
Proof.
  destruct f as [sf|sf| |s m e]; cbn [finiteSF]; try done; intros _ V.
  assert (e <= emax - prec) as Hmax by (cbn in V; unfold bounded in V; apply andb_true_iff in V as [_ V]; lia). apply valid_exponent in V as (He & Hd & Hn). unfold prec in Hd.
  destruct (digits2_pos_bounds m) as [_ Hu]. assert (Z.pos m < 2 ^ 53) as Hm by (eapply Z.lt_le_trans; [exact Hu|apply Z.pow_le_mono_r; lia]).
  unfold SFdiv, SFtwo. rewrite xorb_false_r. unfold SFdiv_core_binary. change (Zdigits2 4503599627370496) with 53. cbn [Zdigits2].
  set (e' := Z.min _ _). assert (e' = Z.max (e - 2) (emin prec emax)) as Ee.
  { unfold e', fexp, prec in *. destruct (decide (emin 53 emax < e)); [rewrite Hn by done; lia|lia]. }
  set (sh := e - -51 - e'). assert (51 <= sh <= 53) as Hsh by lia.
  replace (match sh with Z0 => Z.pos m | Z.pos _ => Z.shiftl (Z.pos m) sh | Z.neg _ => 0 end) with (Z.pos m * 2 ^ sh) by (rewrite <- Z.shiftl_mul_pow2 by lia; destruct sh; [lia|done|lia]).
  pose proof (Z_div_mod (Z.pos m * 2 ^ sh) 4503599627370496 ltac:(lia)) as Hdm. destruct (Z.div_eucl _ _) as [q r]. destruct Hdm as [Hq Hr].
  assert (sh = 51 ∨ sh = 52 ∨ sh = 53) as [E|[E|E]] by lia; rewrite E in Hq.
  - assert (e = emin prec emax ∧ e' = emin prec emax) as [-> ->] by lia. change (2 ^ 51) with 2251799813685248 in Hq.
    destruct (round_aux_half s q (emin prec emax) (new_location 4503599627370496 r)) as (m2 & -> & Hm2 & Hex); [lia|done|].
    cbn [val]. unfold scaled. rewrite Z.sub_diag, Z.mul_1_r. destruct (decide (r = 0)) as [->|Hr0]; [rewrite Hex by done; destruct s; cbn [cond_Zopp]; lia|].
    assert (r = 2251799813685248) by lia. destruct s; cbn [cond_Zopp]; lia.
  - change (2 ^ 52) with 4503599627370496 in Hq. assert (r = 0 ∧ q = Z.pos m) as [-> ->] by lia.
    assert (e = emin prec emax + 1) as -> by lia. assert (e' = emin prec emax) as -> by lia. change (new_location 4503599627370496 0) with loc_Exact.
    specialize (Hn ltac:(lia)). unfold binary_round_aux, shr_fexp. cbn [Zdigits2]. unfold prec in Hn. rewrite Hn.
    replace (fexp prec emax (53 + emin prec emax) - emin prec emax) with 0 by done. cbn [shr shr_record_of_loc shr_m loc_of_shr_record round_nearest_even Zdigits2]. rewrite Hn.
    replace (fexp prec emax (53 + emin prec emax) - emin prec emax) with 0 by done. cbn [shr shr_record_of_loc shr_m].
    replace (emin prec emax <=? emax - prec) with true by done. cbn [val]. unfold scaled. rewrite Z.sub_diag. replace (emin prec emax + 1 - emin prec emax) with 1 by lia.
    destruct s; cbn [cond_Zopp]; lia.
  - change (2 ^ 53) with (2 * 4503599627370496) in Hq. assert (r = 0 ∧ q = 2 * Z.pos m) as [-> ->] by lia. assert (e' = e - 2) as -> by lia.
    change (new_location 4503599627370496 0) with loc_Exact. specialize (Hn ltac:(lia)). unfold prec in Hn.
    unfold binary_round_aux, shr_fexp. change (2 * Z.pos m) with (Z.pos m~0). cbn [Zdigits2 digits2_pos]. rewrite Pos2Z.inj_succ, Hn.
    replace (fexp prec emax (Z.succ 53 + (e - 2)) - (e - 2)) with 1 by (unfold fexp, prec in *; lia).
    cbn [shr shr_record_of_loc iter_pos shr_1 shr_m loc_of_shr_record round_nearest_even orb Zdigits2]. rewrite Hn.
    replace (fexp prec emax (53 + (e - 2 + 1)) - (e - 2 + 1)) with 0 by (unfold fexp, prec in *; lia). cbn [shr shr_record_of_loc shr_m].
    destruct (e - 2 + 1 <=? emax - prec) eqn:El.
    + cbn [val]. unfold scaled. replace (e - emin prec emax) with (Z.succ (e - 2 + 1 - emin prec emax)) by lia. rewrite Z.pow_succ_r by lia. destruct s; cbn [cond_Zopp]; lia.
    + lia.
Qed.

(** * The mean *)

Lemma nle_val x y : isFinite x = true -> isFinite y = true -> nle x y = (val (Prim2SF x) <=? val (Prim2SF y)).
Proof. intros Hx Hy. unfold nle. rewrite leb_spec. apply SFleb_val; auto using isFinite_SF, Prim2SF_valid. Qed.

(** A finite mean of two numbers of an interval is in the interval; the mean is finite
    exactly when the sum does not overflow. *)
Lemma mean_between lo hi a b : isFinite lo = true -> isFinite hi = true -> isFinite a = true -> isFinite b = true -> isFinite ((a + b) / 2)%float = true ->
  between lo hi a = true -> between lo hi b = true -> between lo hi ((a + b) / 2)%float = true.
Proof.
  intros Hlo Hhi Ha Hb Hv. unfold between. rewrite !nle_val by done. rewrite !andb_true_iff, !Z.leb_le. intros [La Ua] [Lb Ub].
  pose proof (isFinite_SF _ Hv) as Hfin. assert (Prim2SF 2 = SFtwo) as E2 by reflexivity.
  assert (finiteSF (SFadd prec emax (Prim2SF a) (Prim2SF b))) as Hs.
  { rewrite div_spec, add_spec, E2 in Hfin. unfold SF64div, SF64add in Hfin. destruct (SFadd prec emax (Prim2SF a) (Prim2SF b)); done. }
  pose proof (Prim2SF_valid (a + b)) as Vs. rewrite add_spec in Vs. pose proof (SFhalf _ Hs Vs) as Hh.
  rewrite div_spec, add_spec, E2. unfold SF64div, SF64add.
  pose proof (SFadd_monotone (Prim2SF a) (Prim2SF b)) as Hm. specialize (fun g => Hm g (isFinite_SF _ Ha) (isFinite_SF _ Hb) (Prim2SF_valid _) (Prim2SF_valid _) Hs).
  destruct (Hm _ (twice_representable _ (isFinite_SF _ Hlo) (Prim2SF_valid lo))) as [Hl _]. destruct (Hm _ (twice_representable _ (isFinite_SF _ Hhi) (Prim2SF_valid hi))) as [_ Hu].
  unfold SF64add in *. lia.
Qed.
