(* ===== verification/ProviderKeys.v ===== *)
(** Provider credentials (src/oracle/providers/credentials.ts,
    credential.repository.ts, provider-credential.service.ts): the identities of
    oracle providers, their versioned API keys, and the revocation, reversal and
    rotation of keys.

    A service call is a sequence of statements on the tables, without a
    transaction around them: a statement that fails leaves what the earlier ones
    wrote.  [World] holds the tables and what the outside supplies: which
    statements fail (connection lost, value too long for its column), the clock
    readings, the generated row ids and the random raw keys. *)

From stdpp Require Import base list strings sorting sets.
From Stdlib Require Import ZArith Lia Ascii.
From S2P Require Import Prelude Decimal JsNum Canonical Encoding.

#[local] Open Scope Z_scope.

(** * Data *)

Inductive KeyStatus := Active | Rotating | Revoked | Superseded.
#[global] Instance KeyStatus_eq_dec : EqDecision KeyStatus.
Proof. solve_decision. Defined.

Record ProviderIdentity := mkProvider {
  pi_id : string; pi_name : string; pi_contact : string; pi_createdAt : Z; pi_updatedAt : Z; pi_isActive : bool }.

Record ProviderKey := mkKey {
  pk_id : string; pk_providerId : string; pk_keyHash : string; pk_version : Z; pk_status : KeyStatus; pk_createdAt : Z;
  pk_rotatingAt : option Z; pk_revokedAt : option Z; pk_effectiveUntilSequence : option Z }.

Record RevocationRecord := mkRevocation {
  rr_id : string; rr_keyId : string; rr_providerId : string; rr_reason : string; rr_actor : string;
  rr_effectiveFromSequence : Z; rr_revokedAt : Z; rr_supersedesRevocationId : option string }.

Record KeyRotationRecord := mkRotation {
  kr_id : string; kr_providerId : string; kr_oldKeyId : string; kr_newKeyId : string; kr_overlapWindowEndsAt : Z;
  kr_actor : string; kr_initiatedAt : Z; kr_completedAt : option Z }.

(** Rows of [oracle_events] and [claims] as the forensic queries read them. *)
Record EventRow := mkEvent { ev_id : Z; ev_coverageType : string; ev_value : num; ev_source : string; ev_recordedAt : Z }.
Record ClaimRow := mkClaim { cl_id : string; cl_policyId : string; cl_coverageType : string; cl_triggerSource : string; cl_processedAt : Z }.

Record Tables := mkTables {
  t_providers : list ProviderIdentity; t_keys : list ProviderKey; t_revocations : list RevocationRecord;
  t_rotations : list KeyRotationRecord; t_events : list EventRow; t_claims : list ClaimRow }.

Record World := mkWorld {
  w_tables : Tables; w_faults : list bool; w_clock : list Z; w_ids : list string; w_randoms : list string }.

Inductive Failure := NotFound | Conflict | BadRequest | Unauthorized | DbError.

(** * Service calls as state passing with exceptions *)

Definition M (A : Type) : Type := World -> World * res Failure A.
#[global] Instance M_ret : MRet M := fun A a w => (w, Ok a).
#[global] Instance M_bind : MBind M := fun A B f m w =>
  match m w with (w', Ok a) => f a w' | (w', Err e) => (w', Err e) end.

Definition throw {A} (e : Failure) : M A := fun w => (w, Err e).
Definition readClock : M Z := fun w =>
  (mkWorld (w_tables w) (w_faults w) (tail (w_clock w)) (w_ids w) (w_randoms w), Ok (default 0 (head (w_clock w)))).
Definition freshId : M string := fun w =>
  (mkWorld (w_tables w) (w_faults w) (w_clock w) (tail (w_ids w)) (w_randoms w), Ok (default ""%string (head (w_ids w)))).
(** [randomBytes(32).toString("hex")]. *)
Definition generateRawKey : M string := fun w =>
  (mkWorld (w_tables w) (w_faults w) (w_clock w) (w_ids w) (tail (w_randoms w)), Ok (default ""%string (head (w_randoms w)))).

(** One statement: it fails as the world says, or runs [f] on the tables. *)
Definition query {A} (f : Tables -> res Failure (Tables * A)) : M A := fun w =>
  let w' := mkWorld (w_tables w) (tail (w_faults w)) (w_clock w) (w_ids w) (w_randoms w) in
  if default false (head (w_faults w)) then (w', Err DbError)
  else match f (w_tables w) with
       | Err e => (w', Err e)
       | Ok (t, a) => (mkWorld t (w_faults w') (w_clock w) (w_ids w) (w_randoms w), Ok a)
       end.
Definition select {A} (f : Tables -> A) : M A := query (fun t => Ok (t, f t)).

(** * Hashing *)
Section Hashing.
Context `{JsHost}.

Definition hashKey (rawKey : string) : string := sha256Hex rawKey.

(** [Buffer.from(s, "hex")]: pairs of digits up to the first that is none. *)
Definition nibble (c : ascii) : option Z :=
  let n := Z.of_N (N_of_ascii c) in
  if is_hex c then Some (hex_digit_val c) else if (65 <=? n) && (n <=? 70) then Some (n - 55) else None.
Fixpoint bufferHex (l : list ascii) : list Z :=
  match l with
  | a :: b :: l' => match nibble a, nibble b with Some x, Some y => (16 * x + y) :: bufferHex l' | _, _ => [] end
  | _ => []
  end.

Definition verifyKey (rawKey storedHash : string) : bool :=
  let candidate := bufferHex (String.list_ascii_of_string (hashKey rawKey)) in
  let stored := bufferHex (String.list_ascii_of_string storedHash) in
  Nat.eqb (length candidate) (length stored) && bool_decide (candidate = stored).
End Hashing.

(** * Repository *)

Definition providerById (t : Tables) (id : string) : option ProviderIdentity :=
  List.find (fun p => bool_decide (pi_id p = id)) (t_providers t).
Definition keyById (t : Tables) (id : string) : option ProviderKey := List.find (fun k => bool_decide (pk_id k = id)) (t_keys t).

Definition withKeys (t : Tables) (ks : list ProviderKey) : Tables :=
  mkTables (t_providers t) ks (t_revocations t) (t_rotations t) (t_events t) (t_claims t).
Definition withRotations (t : Tables) (rs : list KeyRotationRecord) : Tables :=
  mkTables (t_providers t) (t_keys t) (t_revocations t) rs (t_events t) (t_claims t).

(** The primary key of the table and the unique constraint on the name. *)
Definition insertProvider (row : ProviderIdentity) (t : Tables) : res Failure (Tables * ProviderIdentity) :=
  if bool_decide (pi_id row ∈ map pi_id (t_providers t)) || bool_decide (pi_name row ∈ map pi_name (t_providers t)) then Err DbError
  else Ok (mkTables (t_providers t ++ [row]) (t_keys t) (t_revocations t) (t_rotations t) (t_events t) (t_claims t), row).

Definition createProvider (name contact : string) : M ProviderIdentity :=
  id ← freshId; created ← readClock;
  query (insertProvider (mkProvider id name contact created created true)).

Definition getProvider_ (providerId : string) : M (option ProviderIdentity) := select (fun t => providerById t providerId).

Definition listProviders : M (list ProviderIdentity) :=
  select (fun t => sort_by (fun a b => pi_createdAt b <=? pi_createdAt a) (t_providers t)).

(** Primary key, [key_hash] and [(provider_id, version)] are unique, the provider
    must exist. *)
Definition insertKey (row : ProviderKey) (t : Tables) : res Failure (Tables * ProviderKey) :=
  if bool_decide (pk_id row ∈ map pk_id (t_keys t)) || bool_decide (pk_keyHash row ∈ map pk_keyHash (t_keys t)) ||
     bool_decide ((pk_providerId row, pk_version row) ∈ map (fun k => (pk_providerId k, pk_version k)) (t_keys t)) ||
     negb (bool_decide (pk_providerId row ∈ map pi_id (t_providers t))) then Err DbError
  else Ok (withKeys t (t_keys t ++ [row]), row).

Definition createKey (providerId keyHash : string) (version : Z) : M ProviderKey :=
  id ← freshId; created ← readClock;
  query (insertKey (mkKey id providerId keyHash version Active created None None None)).

Definition getKey (keyId : string) : M (option ProviderKey) := select (fun t => keyById t keyId).

Definition keysOf (t : Tables) (providerId : string) : list ProviderKey :=
  sort_by (fun a b => pk_version b <=? pk_version a) (List.filter (fun k => bool_decide (pk_providerId k = providerId)) (t_keys t)).
Definition listKeysByProvider (providerId : string) : M (list ProviderKey) := select (fun t => keysOf t providerId).

Definition acceptable (s : KeyStatus) : bool := match s with Active | Rotating => true | _ => false end.
Definition acceptableKeys (t : Tables) (providerId : string) : list ProviderKey :=
  List.filter (fun k => bool_decide (pk_providerId k = providerId) && acceptable (pk_status k)) (t_keys t).
Definition getAcceptableKeys (providerId : string) : M (list ProviderKey) := select (fun t => acceptableKeys t providerId).

(** [COALESCE(new, old)]. *)
Definition coalesce {A} (new old : option A) : option A := match new with Some _ => new | None => old end.

Definition restatus (keyId : string) (status : KeyStatus) (rotatingAt revokedAt until : option Z) (k : ProviderKey) : ProviderKey :=
  if bool_decide (pk_id k = keyId)
  then mkKey (pk_id k) (pk_providerId k) (pk_keyHash k) (pk_version k) status (pk_createdAt k)
         (coalesce rotatingAt (pk_rotatingAt k)) (coalesce revokedAt (pk_revokedAt k)) (coalesce until (pk_effectiveUntilSequence k))
  else k.
Definition updateKeyStatus (keyId : string) (status : KeyStatus) (rotatingAt revokedAt until : option Z) : M unit :=
  query (fun t => Ok (withKeys t (map (restatus keyId status rotatingAt revokedAt until) (t_keys t)), tt)).

(** The references of a revocation must exist. *)
Definition insertRevocation (row : RevocationRecord) (t : Tables) : res Failure (Tables * RevocationRecord) :=
  if bool_decide (rr_id row ∈ map rr_id (t_revocations t)) || negb (bool_decide (rr_keyId row ∈ map pk_id (t_keys t))) ||
     negb (bool_decide (rr_providerId row ∈ map pi_id (t_providers t))) ||
     match rr_supersedesRevocationId row with Some s => negb (bool_decide (s ∈ map rr_id (t_revocations t))) | None => false end
  then Err DbError
  else Ok (mkTables (t_providers t) (t_keys t) (t_revocations t ++ [row]) (t_rotations t) (t_events t) (t_claims t), row).

Definition recordRevocation (keyId providerId reason actor : string) (effectiveFrom : Z) (supersedes : option string) : M RevocationRecord :=
  id ← freshId; at_ ← readClock;
  query (insertRevocation (mkRevocation id keyId providerId reason actor effectiveFrom at_ supersedes)).

Definition newestFirst (rows : list RevocationRecord) : list RevocationRecord :=
  sort_by (fun a b => rr_revokedAt b <=? rr_revokedAt a) rows.
Definition getRevocationsForKey (keyId : string) : M (list RevocationRecord) :=
  select (fun t => newestFirst (List.filter (fun r => bool_decide (rr_keyId r = keyId)) (t_revocations t))).
Definition getRevocationsForProvider (providerId : string) : M (list RevocationRecord) :=
  select (fun t => newestFirst (List.filter (fun r => bool_decide (rr_providerId r = providerId)) (t_revocations t))).

Definition insertRotation (row : KeyRotationRecord) (t : Tables) : res Failure (Tables * KeyRotationRecord) :=
  if bool_decide (kr_id row ∈ map kr_id (t_rotations t)) || negb (bool_decide (kr_oldKeyId row ∈ map pk_id (t_keys t))) ||
     negb (bool_decide (kr_newKeyId row ∈ map pk_id (t_keys t))) || negb (bool_decide (kr_providerId row ∈ map pi_id (t_providers t)))
  then Err DbError
  else Ok (withRotations t (t_rotations t ++ [row]), row).

Definition recordRotation (providerId oldKeyId newKeyId : string) (endsAt : Z) (actor : string) : M KeyRotationRecord :=
  id ← freshId; at_ ← readClock;
  query (insertRotation (mkRotation id providerId oldKeyId newKeyId endsAt actor at_ None)).

Definition finishRotation (rotationId : string) (now : Z) (r : KeyRotationRecord) : KeyRotationRecord :=
  if bool_decide (kr_id r = rotationId)
  then mkRotation (kr_id r) (kr_providerId r) (kr_oldKeyId r) (kr_newKeyId r) (kr_overlapWindowEndsAt r) (kr_actor r) (kr_initiatedAt r) (Some now)
  else r.
Definition completeRotationRow (rotationId : string) : M unit :=
  now ← readClock; query (fun t => Ok (withRotations t (map (finishRotation rotationId now) (t_rotations t)), tt)).

Definition inProgress (providerId : string) (r : KeyRotationRecord) : bool :=
  bool_decide (kr_providerId r = providerId) && bool_decide (kr_completedAt r = None).
Definition activeRotation (t : Tables) (providerId : string) : option KeyRotationRecord :=
  head (sort_by (fun a b => kr_initiatedAt b <=? kr_initiatedAt a) (List.filter (inProgress providerId) (t_rotations t))).
Definition getActiveRotation (providerId : string) : M (option KeyRotationRecord) := select (fun t => activeRotation t providerId).

(** The provider's rows of the last [lookbackSeconds]; the sequence the caller
    passes is not part of the statement. *)
Definition providerNames (t : Tables) (providerId : string) : list string :=
  map pi_name (List.filter (fun p => bool_decide (pi_id p = providerId)) (t_providers t)).
Definition findAffectedEvents (providerId : string) (effectiveFromSequence lookbackSeconds : Z) : M (list EventRow) :=
  now ← readClock;
  select (fun t => sort_by (fun a b => ev_recordedAt b <=? ev_recordedAt a)
    (List.filter (fun e => bool_decide (ev_source e ∈ providerNames t providerId) && (now - lookbackSeconds * 1000 <=? ev_recordedAt e)) (t_events t))).
Definition findAffectedClaims (providerId : string) (lookbackSeconds : Z) : M (list ClaimRow) :=
  now ← readClock;
  select (fun t => sort_by (fun a b => cl_processedAt b <=? cl_processedAt a)
    (List.filter (fun c => bool_decide (cl_triggerSource c ∈ providerNames t providerId) && (now - lookbackSeconds * 1000 <=? cl_processedAt c)) (t_claims t))).

(** * Service *)
Section Service.
Context `{JsHost}.

Definition DEFAULT_OVERLAP_WINDOW_SECONDS : Z := 300.
Definition DEFAULT_LOOKBACK_SECONDS : Z := 86400 * 7.

Definition registerProvider (name contact : string) : M (ProviderIdentity * string) :=
  provider ← createProvider name contact;
  rawKey ← generateRawKey;
  createKey (pi_id provider) (hashKey rawKey) 1 ≫= fun _ => mret (provider, rawKey).

Definition orThrow {A} (e : Failure) (o : option A) : M A := match o with Some a => mret a | None => throw e end.

Definition getProvider (providerId : string) : M ProviderIdentity := getProvider_ providerId ≫= orThrow NotFound.

Definition validateSubmission (providerId rawKey : string) : M ProviderKey :=
  acceptableKeys ← getAcceptableKeys providerId;
  orThrow Unauthorized (List.find (fun key => verifyKey rawKey (pk_keyHash key)) acceptableKeys).

Record ForensicReport := mkReport {
  fr_provider : ProviderIdentity; fr_revocation : RevocationRecord; fr_affectedEvents : list EventRow;
  fr_affectedClaims : list ClaimRow; fr_generatedAt : Z }.

Definition buildForensicReport (provider : ProviderIdentity) (revocation : RevocationRecord) (lookbackSeconds : Z) : M ForensicReport :=
  affectedEvents ← findAffectedEvents (pi_id provider) (rr_effectiveFromSequence revocation) lookbackSeconds;
  affectedClaims ← findAffectedClaims (pi_id provider) lookbackSeconds;
  now ← readClock;
  mret (mkReport provider revocation affectedEvents affectedClaims now).

Definition revokeKey (keyId reason actor : string) (effectiveFrom : Z) (lookback : option Z) : M ForensicReport :=
  key ← getKey keyId ≫= orThrow NotFound;
  if bool_decide (pk_status key = Revoked) then throw Conflict
  else
    provider ← getProvider_ (pk_providerId key) ≫= orThrow NotFound;
    now ← readClock;
    updateKeyStatus keyId Revoked None (Some now) (Some effectiveFrom) ≫= fun _ =>
    revocation ← recordRevocation keyId (pk_providerId key) reason actor effectiveFrom None;
    buildForensicReport provider revocation (default DEFAULT_LOOKBACK_SECONDS lookback).

Definition reverseRevocation (keyId supersedes reason actor : string) (effectiveFrom : Z) : M RevocationRecord :=
  key ← getKey keyId ≫= orThrow NotFound;
  if negb (bool_decide (pk_status key = Revoked)) then throw BadRequest
  else
    updateKeyStatus keyId Active None None None ≫= fun _ =>
    recordRevocation keyId (pk_providerId key) reason actor effectiveFrom (Some supersedes).

Record RotationResult := mkRotationResult {
  ro_oldKey : ProviderKey; ro_newKey : ProviderKey; ro_rawKey : string; ro_rotation : KeyRotationRecord; ro_overlapWindowEndsAt : Z }.

(** [Math.max(...versions)] of a list that is not empty. *)
Definition maxVersion (keys : list ProviderKey) : Z :=
  match keys with [] => 0 | k :: ks => foldr (fun k m => Z.max (pk_version k) m) (pk_version k) ks end.

(** What [initiateRotation] reads and checks before it writes: the active key and
    the next version. *)
Definition planRotation (providerId : string) : M (ProviderKey * Z) :=
  (getProvider_ providerId ≫= orThrow NotFound) ≫= fun _ =>
  existing ← getActiveRotation providerId;
  match existing with
  | Some _ => throw Conflict
  | None =>
      currentKeys ← listKeysByProvider providerId;
      activeKey ← orThrow BadRequest (List.find (fun k => bool_decide (pk_status k = Active)) currentKeys);
      mret (activeKey, maxVersion currentKeys + 1)
  end.

Definition asRotating (k : ProviderKey) : ProviderKey :=
  mkKey (pk_id k) (pk_providerId k) (pk_keyHash k) (pk_version k) Rotating (pk_createdAt k) (pk_rotatingAt k) (pk_revokedAt k) (pk_effectiveUntilSequence k).

Definition writeRotation (providerId actor : string) (overlapWindowSeconds : option Z) (plan : ProviderKey * Z) : M RotationResult :=
  let '(activeKey, nextVersion) := plan in
  rawKey ← generateRawKey;
  newKey ← createKey providerId (hashKey rawKey) nextVersion;
  now ← readClock;
  let endsAt := now + default DEFAULT_OVERLAP_WINDOW_SECONDS overlapWindowSeconds * 1000 in
  now2 ← readClock;
  updateKeyStatus (pk_id activeKey) Rotating (Some now2) None None ≫= fun _ =>
  rotation ← recordRotation providerId (pk_id activeKey) (pk_id newKey) endsAt actor;
  mret (mkRotationResult (asRotating activeKey) newKey rawKey rotation endsAt).

Definition initiateRotation (providerId actor : string) (overlapWindowSeconds : option Z) : M RotationResult :=
  planRotation providerId ≫= writeRotation providerId actor overlapWindowSeconds.

Definition completeRotation (providerId : string) : M unit :=
  rotation ← getActiveRotation providerId ≫= orThrow NotFound;
  now ← readClock;
  updateKeyStatus (kr_oldKeyId rotation) Superseded None (Some now) None ≫= fun _ =>
  completeRotationRow (kr_id rotation).

Record TrustStatus := mkTrustStatus {
  ts_providerId : string; ts_isActive : bool; ts_activeKeyCount : Z; ts_revokedKeyCount : Z; ts_rotatingKeyCount : Z;
  ts_inProgressRotation : option KeyRotationRecord; ts_revocationHistory : list RevocationRecord }.

Definition countStatus (s : KeyStatus) (keys : list ProviderKey) : Z :=
  Z.of_nat (length (List.filter (fun k => bool_decide (pk_status k = s)) keys)).

Definition getTrustStatus (providerId : string) : M TrustStatus :=
  provider ← getProvider_ providerId ≫= orThrow NotFound;
  keys ← listKeysByProvider providerId;
  revocations ← getRevocationsForProvider providerId;
  rotation ← getActiveRotation providerId;
  mret (mkTrustStatus providerId (pi_isActive provider) (countStatus Active keys) (countStatus Revoked keys) (countStatus Rotating keys)
          rotation revocations).
End Service.

(** * Histories of calls *)
Section Calls.
Context `{JsHost}.

Inductive Call :=
| CRegister (name contact : string)
| CRevoke (keyId reason actor : string) (effectiveFrom : Z) (lookback : option Z)
| CReverse (keyId supersedes reason actor : string) (effectiveFrom : Z)
| CInitiate (providerId actor : string) (overlap : option Z)
| CComplete (providerId : string)
| CValidate (providerId rawKey : string)
| CStatus (providerId : string).

Definition runCall (w : World) (c : Call) : World :=
  match c with
  | CRegister name contact => (registerProvider name contact w).1
  | CRevoke k reason actor from lookback => (revokeKey k reason actor from lookback w).1
  | CReverse k sup reason actor from => (reverseRevocation k sup reason actor from w).1
  | CInitiate p actor overlap => (initiateRotation p actor overlap w).1
  | CComplete p => (completeRotation p w).1
  | CValidate p raw => (validateSubmission p raw w).1
  | CStatus p => (getTrustStatus p w).1
  end.
Definition runCalls (w : World) (cs : list Call) : World := foldl runCall w cs.

Definition reverses (keyId : string) (c : Call) : bool := match c with CReverse k _ _ _ _ => bool_decide (k = keyId) | _ => false end.

Definition noCredentials (t : Tables) : Prop := t_providers t = [] ∧ t_keys t = [] ∧ t_revocations t = [] ∧ t_rotations t = [].

(** ** Triples

    [triple P m Q E]: from tables satisfying [P], the call ends in [Q] with its
    value, or throws in [E]. *)
Definition triple {A} (P : Tables -> Prop) (m : M A) (Q : A -> Tables -> Prop) (E : Tables -> Prop) : Prop :=
  forall w, P (w_tables w) -> match m w with (w', Ok a) => Q a (w_tables w') | (w', Err _) => E (w_tables w') end.

Lemma triple_bind {A B} (P : Tables -> Prop) (m : M A) (R : A -> Tables -> Prop) (k : A -> M B) Q E :
  triple P m R E -> (forall a, triple (R a) (k a) Q E) -> triple P (m ≫= k) Q E.
Proof. intros Hm Hk w Hw. specialize (Hm w Hw). unfold mbind, M_bind. destruct (m w) as [w' [a|e]]; [by apply Hk|done]. Qed.

Lemma triple_ret {A} (a : A) P (Q : A -> Tables -> Prop) E : (forall t, P t -> Q a t) -> triple P (mret a) Q E.
Proof. intros HQ w Hw. by apply HQ. Qed.

Lemma triple_throw {A} e P (Q : A -> Tables -> Prop) (E : Tables -> Prop) : (forall t, P t -> E t) -> triple P (throw e) Q E.
Proof. intros HE w Hw. by apply HE. Qed.

Lemma triple_query {A} f P (Q : A -> Tables -> Prop) (E : Tables -> Prop) :
  (forall t, P t -> E t) -> (forall t t' a, P t -> f t = Ok (t', a) -> Q a t') -> triple P (query f) Q E.
Proof.
  intros HE HQ w Hw. unfold query. destruct (default false _); [by apply HE|].
  destruct (f (w_tables w)) as [[t a]|e] eqn:Ef; [by eapply HQ|by apply HE].
Qed.

Lemma triple_select {A} (f : Tables -> A) P (E : Tables -> Prop) : (forall t, P t -> E t) -> triple P (select f) (fun a t => P t ∧ a = f t) E.
Proof. intros HE. apply triple_query; [done|]. intros t t' a Ht [= <- <-]. done. Qed.

Lemma triple_conseq {A} (P P' : Tables -> Prop) (m : M A) (Q Q' : A -> Tables -> Prop) E :
  triple P' m Q' E -> (forall t, P t -> P' t) -> (forall a t, Q' a t -> Q a t) -> triple P m Q E.
Proof. intros Hm HP HQ w Hw. specialize (Hm w (HP _ Hw)). destruct (m w) as [w' [a|e]]; auto. Qed.

(** The supplies of the world do not touch the tables. *)
Lemma triple_clock P E : triple P readClock (fun _ => P) E. Proof. by intros w Hw. Qed.
Lemma triple_id P E : triple P freshId (fun _ => P) E. Proof. by intros w Hw. Qed.
Lemma triple_random P E : triple P generateRawKey (fun _ => P) E. Proof. by intros w Hw. Qed.

Lemma triple_orThrow {A} e (o : option A) P (E : Tables -> Prop) :
  (forall t, P t -> E t) -> triple P (orThrow e o) (fun a t => P t ∧ o = Some a) E.
Proof. intros HE. destruct o; [by apply triple_ret|by apply triple_throw]. Qed.

Lemma triple_find {A} e (f : Tables -> option A) P (E : Tables -> Prop) :
  (forall t, P t -> E t) -> triple P (select f ≫= orThrow e) (fun a t => P t ∧ f t = Some a) E.
Proof.
  intros HE. eapply triple_bind; [by apply triple_select|]. intros o. cbn beta.
  eapply triple_conseq; [apply (triple_orThrow e o (fun t => P t ∧ o = f t)); naive_solver|done|]. cbn. intros a t [[? ->] ?]. done.
Qed.

(** Runs the supplies and reads of a call, leaving its writes. *)
Ltac tbind := lazymatch goal with
  | |- triple _ (readClock ≫= _) _ _ => eapply triple_bind; [apply triple_clock|intros ?; cbn beta]
  | |- triple _ (freshId ≫= _) _ _ => eapply triple_bind; [apply triple_id|intros ?; cbn beta]
  | |- triple _ (generateRawKey ≫= _) _ _ => eapply triple_bind; [apply triple_random|intros ?; cbn beta]
  | |- triple _ (orThrow _ _ ≫= _) _ _ => eapply triple_bind; [apply triple_orThrow; naive_solver|intros ?; cbn beta]
  | |- triple _ (select _ ≫= _) _ _ => eapply triple_bind; [apply triple_select; naive_solver|intros ?; cbn beta]
  | |- triple _ ((select _ ≫= _) ≫= _) _ _ =>
      eapply triple_bind; [apply triple_find; naive_solver|intros ?; cbn beta]
  end.

(** ** The tables stay well formed *)
Record wf (t : Tables) : Prop := {
  wf_ids : NoDup (map pk_id (t_keys t));
  wf_hashes : NoDup (map pk_keyHash (t_keys t));
  wf_versions : NoDup (map (fun k => (pk_providerId k, pk_version k)) (t_keys t));
  wf_digests : forall k, k ∈ t_keys t -> ∃ raw, pk_keyHash k = hashKey raw;
  wf_owner : forall k, k ∈ t_keys t -> pk_providerId k ∈ map pi_id (t_providers t) }.

Lemma NoDup_snoc {A} (l : list A) x : NoDup l -> x ∉ l -> NoDup (l ++ [x]).
Proof. intros Hl Hx. apply NoDup_app. split_and!; [done| |apply NoDup_singleton]. intros y Hy ->%list_elem_of_singleton. done. Qed.

(** Tables that differ only in rows other than keys, keeping the providers. *)
Lemma wf_same_keys t t' : wf t -> t_keys t' = t_keys t -> (forall x, x ∈ t_providers t -> x ∈ t_providers t') -> wf t'.
Proof.
  intros [H1 H2 H3 H4 H5] Hk Hp. split; rewrite ?Hk; auto.
  intros k Hin. specialize (H5 k Hin). apply list_elem_of_fmap in H5 as (x & -> & Hx). apply list_elem_of_fmap. eauto.
Qed.

Lemma restatus_fields keyId s a b c k :
  pk_id (restatus keyId s a b c k) = pk_id k ∧ pk_providerId (restatus keyId s a b c k) = pk_providerId k ∧
  pk_keyHash (restatus keyId s a b c k) = pk_keyHash k ∧ pk_version (restatus keyId s a b c k) = pk_version k ∧
  pk_status (restatus keyId s a b c k) = if bool_decide (pk_id k = keyId) then s else pk_status k.
Proof. unfold restatus. case_bool_decide; done. Qed.

Lemma wf_restatus keyId s a b c t : wf t -> wf (withKeys t (map (restatus keyId s a b c) (t_keys t))).
Proof.
  intros [H1 H2 H3 H4 H5]. split; cbn; rewrite ?map_map_same by (intros x; destruct (restatus_fields keyId s a b c x) as (?&?&?&?&?); congruence); auto.
  - intros k (x & -> & Hx)%list_elem_of_fmap. destruct (restatus_fields keyId s a b c x) as (_&_&->&_). auto.
  - intros k (x & -> & Hx)%list_elem_of_fmap. destruct (restatus_fields keyId s a b c x) as (_&->&_). auto.
Qed.

Lemma wf_insertKey row t t' k : (∃ raw, pk_keyHash row = hashKey raw) -> wf t -> insertKey row t = Ok (t', k) -> wf t' ∧ k = row ∧ t_keys t' = t_keys t ++ [row].
Proof.
  intros Hraw [H1 H2 H3 H4 H5]. unfold insertKey.
  destruct (bool_decide (pk_id row ∈ _)) eqn:E1; [done|]. destruct (bool_decide (pk_keyHash row ∈ _)) eqn:E2; [done|].
  destruct (bool_decide ((pk_providerId row, _) ∈ _)) eqn:E3; [done|]. destruct (bool_decide (pk_providerId row ∈ _)) eqn:E4; [|done].
  intros [= <- <-]. apply bool_decide_eq_false in E1, E2, E3. apply bool_decide_eq_true in E4.
  split; [|done]. split; cbn; rewrite ?map_app; cbn; [apply NoDup_snoc; done..| |].
  - intros k [Hk|Hk%list_elem_of_singleton]%elem_of_app; subst; auto.
  - intros k [Hk|Hk%list_elem_of_singleton]%elem_of_app; subst; auto.
Qed.

(** ** A key that is no longer accepted *)

(** The row of the key is there, with its hash, and its status is not accepted. *)
Definition dead (keyId h : string) (t : Tables) : Prop :=
  ∃ k, k ∈ t_keys t ∧ pk_id k = keyId ∧ pk_keyHash k = h ∧ acceptable (pk_status k) = false.

(** The tables are well formed and, if a key is named, it is dead. *)
Definition inv (o : option (string * string)) (t : Tables) : Prop :=
  wf t ∧ match o with Some (keyId, h) => dead keyId h t | None => True end.

(** A write to key [k] keeps the named key dead: another key, or a status that is
    not accepted. *)
Definition spares (o : option (string * string)) (keyId : string) (s : KeyStatus) : Prop :=
  match o with Some (named, _) => keyId ≠ named ∨ acceptable s = false | None => True end.

Lemma inv_restatus o keyId s a b c t : spares o keyId s -> inv o t -> inv o (withKeys t (map (restatus keyId s a b c) (t_keys t))).
Proof.
  intros Hs [Hw Hd]. split; [by apply wf_restatus|]. destruct o as [[named h]|]; [|done].
  destruct Hd as (k & Hk & <- & <- & Ha). exists (restatus keyId s a b c k). destruct (restatus_fields keyId s a b c k) as (E1&_&E2&_&E3).
  split_and!; [by apply list_elem_of_fmap_2|done|done|]. rewrite E3. case_bool_decide; [|done]. subst. by destruct Hs.
Qed.

Lemma inv_same_keys o t t' : inv o t -> t_keys t' = t_keys t -> (forall x, x ∈ t_providers t -> x ∈ t_providers t') -> inv o t'.
Proof. intros [Hw Hd] Hk Hp. split; [by eapply wf_same_keys|]. destruct o as [[named h]|]; [|done]. unfold dead. by rewrite Hk. Qed.

Lemma inv_insertKey o row t t' k : (∃ raw, pk_keyHash row = hashKey raw) -> inv o t -> insertKey row t = Ok (t', k) ->
  inv o t' ∧ k = row ∧ t_keys t' = t_keys t ++ [row].
Proof.
  intros Hr [Hw Hd] Hi. destruct (wf_insertKey _ _ _ _ Hr Hw Hi) as (Hw' & Hk & He). split_and!; [|done..].
  split; [done|]. destruct o as [[named h]|]; [|done]. destruct Hd as (x & Hx & ?). exists x. rewrite He. set_solver.
Qed.

Lemma triple_createKey o p raw v : triple (inv o) (createKey p (hashKey raw) v) (fun _ => inv o) (inv o).
Proof.
  unfold createKey. tbind. tbind. apply triple_query; [done|]. intros t t' k Ht Hi.
  by eapply inv_insertKey in Hi as (? & _); [|by exists raw|].
Qed.

Lemma triple_createProvider o n c : triple (inv o) (createProvider n c) (fun _ => inv o) (inv o).
Proof.
  unfold createProvider. tbind. tbind. apply triple_query; [done|]. intros t t' p Ht. unfold insertProvider.
  destruct (_ || _); [done|]. intros [= <- <-]. eapply inv_same_keys; [done..|]. cbn. set_solver.
Qed.

Lemma triple_recordRevocation o k p r a e s : triple (inv o) (recordRevocation k p r a e s) (fun _ => inv o) (inv o).
Proof.
  unfold recordRevocation. tbind. tbind. apply triple_query; [done|]. intros t t' row Ht. unfold insertRevocation.
  destruct (_ || _); [done|]. intros [= <- <-]. by eapply inv_same_keys.
Qed.

Lemma triple_recordRotation o p old new e a : triple (inv o) (recordRotation p old new e a) (fun _ => inv o) (inv o).
Proof.
  unfold recordRotation. tbind. tbind. apply triple_query; [done|]. intros t t' row Ht. unfold insertRotation.
  destruct (_ || _); [done|]. intros [= <- <-]. by eapply inv_same_keys.
Qed.

Lemma triple_updateKeyStatus o keyId s a b c : spares o keyId s -> triple (inv o) (updateKeyStatus keyId s a b c) (fun _ => inv o) (inv o).
Proof. intros Hs. apply triple_query; [done|]. intros t t' u Ht [= <- <-]. by apply inv_restatus. Qed.

(** The key a rotation picks is an active row. *)
Lemma triple_planRotation o p :
  triple (inv o) (planRotation p) (fun plan t => inv o t ∧ plan.1 ∈ t_keys t ∧ pk_status plan.1 = Active) (inv o).
Proof.
  unfold planRotation, getProvider_, getActiveRotation, listKeysByProvider. tbind. tbind.
  match goal with |- context [match ?e with Some _ => _ | None => _ end] => destruct e end; [apply triple_throw; naive_solver|].
  tbind. tbind. apply triple_ret. cbn. intros t [[[[Ht ?] ?] ->] Hf].
  split; [done|]. apply List.find_some in Hf as [Hin Hs]. apply bool_decide_eq_true in Hs. split; [|done].
  apply list_elem_of_In in Hin. unfold keysOf in Hin. rewrite elem_of_sort_by in Hin. apply list_elem_of_In, filter_In in Hin as [Hin _].
  by apply list_elem_of_In.
Qed.

Lemma active_not_dead named h t k : inv (Some (named, h)) t -> k ∈ t_keys t -> pk_status k = Active -> pk_id k ≠ named.
Proof.
  intros [Hw (d & Hd & Hid & _ & Ha)] Hk Hs E. assert (k = d) as <-; [|by rewrite Hs in Ha].
  eapply NoDup_map_inj; [apply (wf_ids _ Hw)|done|done|congruence].
Qed.

Lemma triple_writeRotation o p a ov plan :
  spares o (pk_id plan.1) Rotating -> triple (inv o) (writeRotation p a ov plan) (fun _ => inv o) (inv o).
Proof.
  destruct plan as [k v]. cbn. intros Hs. tbind. eapply triple_bind; [apply triple_createKey|intros new; cbn beta]. tbind. tbind.
  eapply triple_bind; [by apply triple_updateKeyStatus|intros []; cbn beta].
  eapply triple_bind; [apply triple_recordRotation|intros r; cbn beta]. by apply triple_ret.
Qed.

Lemma triple_initiate o p a ov : triple (inv o) (initiateRotation p a ov) (fun _ => inv o) (inv o).
Proof.
  eapply triple_bind; [apply triple_planRotation|]. intros plan w (Hi & Hk & Hs). revert w Hi Hk. cbn beta.
  intros w Hi Hk. apply triple_writeRotation; [|done]. destruct o as [[named h]|]; [|done]. left. by eapply active_not_dead.
Qed.

Lemma triple_complete o p : triple (inv o) (completeRotation p) (fun _ => inv o) (inv o).
Proof.
  unfold completeRotation, getActiveRotation. tbind. tbind.
  eapply triple_conseq with (P' := inv o) (Q' := fun _ => inv o); [|naive_solver|done].
  eapply triple_bind; [apply triple_updateKeyStatus; destruct o as [[]|]; [by right|done]|intros []; cbn beta].
  unfold completeRotationRow. tbind. apply triple_query; [done|]. intros t t' u Ht [= <- <-]. by eapply inv_same_keys.
Qed.

Lemma triple_report o pr rev lb : triple (inv o) (buildForensicReport pr rev lb) (fun _ => inv o) (inv o).
Proof.
  unfold buildForensicReport, findAffectedEvents, findAffectedClaims.
  eapply triple_bind with (R := fun _ => inv o); [tbind; eapply triple_conseq; [apply triple_select|..]; naive_solver|intros evs; cbn beta].
  eapply triple_bind with (R := fun _ => inv o); [tbind; eapply triple_conseq; [apply triple_select|..]; naive_solver|intros cls; cbn beta].
  tbind. by apply triple_ret.
Qed.

Lemma triple_revoke o k r a e lb : triple (inv o) (revokeKey k r a e lb) (fun _ => inv o) (inv o).
Proof.
  unfold revokeKey, getKey, getProvider_. tbind. case_bool_decide; [apply triple_throw; naive_solver|]. tbind. tbind.
  eapply triple_conseq with (P' := inv o) (Q' := fun _ => inv o); [|naive_solver|done].
  eapply triple_bind; [apply triple_updateKeyStatus; destruct o as [[]|]; [by right|done]|intros []; cbn beta].
  eapply triple_bind; [apply triple_recordRevocation|intros rev; cbn beta]. apply triple_report.
Qed.

Lemma triple_reverse o k s r a e : spares o k Active -> triple (inv o) (reverseRevocation k s r a e) (fun _ => inv o) (inv o).
Proof.
  intros Hs. unfold reverseRevocation, getKey. tbind. destruct (negb _); [apply triple_throw; naive_solver|].
  eapply triple_conseq with (P' := inv o) (Q' := fun _ => inv o); [|naive_solver|done].
  eapply triple_bind; [by apply triple_updateKeyStatus|intros []; cbn beta]. apply triple_recordRevocation.
Qed.

Lemma runCall_inv o w c : match o with Some (named, _) => reverses named c = false | None => True end ->
  inv o (w_tables w) -> inv o (w_tables (runCall w c)).
Proof.
  intros Hc Hi.
  assert (forall A (m : M A), triple (inv o) m (fun _ => inv o) (inv o) -> inv o (w_tables (m w).1)) as Hrun.
  { intros A m Hm. specialize (Hm w Hi). by destruct (m w) as [w' [x|e]]. }
  destruct c as [name contact|k r a e lb|k s r a e|p a ov|p|p raw|p]; cbn; apply Hrun.
  - eapply triple_bind; [apply triple_createProvider|intros pr; cbn beta]. tbind.
    eapply triple_bind; [apply triple_createKey|intros key; cbn beta]. by apply triple_ret.
  - apply triple_revoke.
  - apply triple_reverse. destruct o as [[named h]|]; [|done]. left. by apply bool_decide_eq_false in Hc.
  - apply triple_initiate.
  - apply triple_complete.
  - unfold validateSubmission, getAcceptableKeys. tbind. eapply triple_conseq; [apply triple_orThrow with (P := inv o)|..]; naive_solver.
  - unfold getTrustStatus, getProvider_, listKeysByProvider, getRevocationsForProvider, getActiveRotation.
    do 4 tbind. apply triple_ret. naive_solver.
Qed.

Lemma runCalls_inv o cs w : match o with Some (named, _) => forallb (fun c => negb (reverses named c)) cs = true | None => True end ->
  inv o (w_tables w) -> inv o (w_tables (runCalls w cs)).
Proof.
  revert w. induction cs as [|c cs IH]; intros w Hc Hi; [done|]. cbn. apply IH.
  - destruct o as [[]|]; [|done]. by apply andb_true_iff in Hc as [_ ?].
  - apply runCall_inv; [|done]. destruct o as [[]|]; [|done]. cbn in Hc. apply andb_true_iff in Hc as [?%negb_true_iff _]. done.
Qed.

Lemma reachable_wf w cs : noCredentials (w_tables w) -> wf (w_tables (runCalls w cs)).
Proof.
  intros (_ & Hk & _). apply (runCalls_inv None); [done|]. split; [|done].
  split; rewrite ?Hk; cbn; first [apply NoDup_nil_2|by intros k ?%not_elem_of_nil].
Qed.
End Calls.

(** ** The hash tells keys apart *)
Lemma nibble_hex c : is_hex c = true -> nibble c = Some (hex_digit_val c).
Proof. unfold nibble. by intros ->. Qed.

Lemma bufferHex_inj n : forall l1 l2, length l1 = (2 * n)%nat -> length l2 = (2 * n)%nat ->
  forallb is_hex l1 = true -> forallb is_hex l2 = true -> bufferHex l1 = bufferHex l2 -> l1 = l2.
Proof.
  induction n as [|n IH]; intros l1 l2 H1 H2 X1 X2 E.
  { destruct l1, l2; done. }
  destruct l1 as [|a1 [|b1 l1]]; [cbn in H1; lia..|]. destruct l2 as [|a2 [|b2 l2]]; [cbn in H2; lia..|].
  cbn [forallb] in X1, X2. apply andb_true_iff in X1 as [A1 [B1 X1]%andb_true_iff]. apply andb_true_iff in X2 as [A2 [B2 X2]%andb_true_iff].
  cbn [bufferHex] in E. rewrite !nibble_hex in E by done. injection E as Ev E.
  apply hex_val_char in A1 as [Ra1 Ea1], B1 as [Rb1 Eb1], A2 as [Ra2 Ea2], B2 as [Rb2 Eb2].
  assert (hex_digit_val a1 = hex_digit_val a2) as Ea by lia. assert (hex_digit_val b1 = hex_digit_val b2) as Eb by lia.
  f_equal; [congruence|]. f_equal; [congruence|]. apply IH; cbn in H1, H2; [lia..|done|done|done].
Qed.

Lemma verifyKey_iff `{HexDigest} raw raw' : verifyKey raw (hashKey raw') = true <-> hashKey raw = hashKey raw'.
Proof.
  unfold verifyKey, hashKey. rewrite andb_true_iff, bool_decide_eq_true. split; [|by intros ->; rewrite Nat.eqb_refl].
  intros [_ E]. destruct (digest_hex raw) as [X1 L1], (digest_hex raw') as [X2 L2].
  apply (bufferHex_inj 32) in E; [|done..]. rewrite <- (String.string_of_list_ascii_of_string (sha256Hex raw)), E.
  apply String.string_of_list_ascii_of_string.
Qed.

(** No submission under a dead key is accepted. *)
Lemma dead_refused `{HexDigest} w p raw keyId : inv (Some (keyId, hashKey raw)) (w_tables w) -> is_ok (validateSubmission p raw w).2 = false.
Proof.
  intros [Hw (d & Hd & _ & Hh & Ha)]. unfold validateSubmission, getAcceptableKeys, select, query. unfold mbind, M_bind.
  destruct (default false _); [done|]. cbn. destruct (List.find _ _) as [k|] eqn:Ef; [|done]. exfalso.
  apply List.find_some in Ef as [Hin Hv]. unfold acceptableKeys in Hin. apply filter_In in Hin as [Hin [_ Hs]%andb_true_iff].
  apply list_elem_of_In in Hin. destruct (wf_digests _ Hw k Hin) as [raw' Hr]. rewrite Hr in Hv. apply verifyKey_iff in Hv.
  assert (k = d) as ->; [|congruence]. eapply NoDup_map_inj; [apply (wf_hashes _ Hw)|done|done|congruence].
Qed.

(** * Revocation and rotation *)
Section Lifecycle.
Context `{HexDigest}.

Lemma triple_any {A} P (m : M A) Q (E : Tables -> Prop) : triple P m Q E -> triple P m Q (fun _ => True).
Proof. intros Hm w Hw. specialize (Hm w Hw). by destruct (m w) as [w' [a|e]]. Qed.

Lemma keyById_in t keyId key : keyById t keyId = Some key -> key ∈ t_keys t ∧ pk_id key = keyId.
Proof. intros [Hin Hid]%List.find_some. split; [by apply list_elem_of_In|by apply bool_decide_eq_true in Hid]. Qed.

(** Writing a status that is not accepted kills the key. *)
Lemma triple_kill key s a b c : acceptable s = false ->
  triple (fun t => wf t ∧ key ∈ t_keys t) (updateKeyStatus (pk_id key) s a b c) (fun _ => inv (Some (pk_id key, pk_keyHash key))) (fun _ => True).
Proof.
  intros Hs. apply triple_query; [done|]. intros t t' u [Hw Hk] [= <- <-]. split; [by apply wf_restatus|].
  exists (restatus (pk_id key) s a b c key). destruct (restatus_fields (pk_id key) s a b c key) as (E1&_&E2&_&E3).
  split_and!; [by apply list_elem_of_fmap_2|done|done|]. by rewrite E3, bool_decide_eq_true_2.
Qed.

Lemma triple_revoked keyId r a e lb key :
  triple (fun t => wf t ∧ keyById t keyId = Some key) (revokeKey keyId r a e lb) (fun _ => inv (Some (keyId, pk_keyHash key))) (fun _ => True).
Proof.
  unfold revokeKey, getKey, getProvider_. eapply triple_bind; [by apply triple_find|intros k; cbn beta].
  case_bool_decide; [by apply triple_throw|]. eapply triple_bind; [by apply triple_find|intros p; cbn beta].
  eapply triple_bind; [apply triple_clock|intros now; cbn beta].
  intros w (((Hw & Hk) & _) & _). destruct (keyById_in _ _ _ Hk) as [Hin Hid]. subst keyId. revert w Hw Hk Hin.
  assert (triple (fun t => wf t ∧ key ∈ t_keys t)
     (updateKeyStatus (pk_id key) Revoked None (Some now) (Some e) ≫= (fun _ =>
      revocation ← recordRevocation (pk_id key) (pk_providerId k) r a e None;
      buildForensicReport p revocation (default DEFAULT_LOOKBACK_SECONDS lb)))
     (fun _ => inv (Some (pk_id key, pk_keyHash key))) (fun _ => True)) as Ht; [|intros w Hw _ Hin; exact (Ht w (conj Hw Hin))].
  eapply triple_bind; [by apply triple_kill|intros []; cbn beta]. eapply triple_any.
  eapply triple_bind; [apply triple_recordRevocation|intros rev; cbn beta]. apply triple_report.
Qed.

(** C23: A revoked key stays refused.  After any history of service calls, with any
    statements failing, once [revokeKey] has reported success for a key, no
    submission presenting its raw value is accepted under any provider, after any
    further calls none of which reverses that revocation. *)
Theorem revoked_key_refused w0 calls1 keyId reason actor from lookback w report calls2 key raw providerId
    (Hinit : noCredentials (w_tables w0))
    (Hk : keyById (w_tables (runCalls w0 calls1)) keyId = Some key)
    (Hr : revokeKey keyId reason actor from lookback (runCalls w0 calls1) = (w, Ok report))
    (Hn : forallb (fun c => negb (reverses keyId c)) calls2 = true)
    (Hraw : hashKey raw = pk_keyHash key) :
  is_ok (validateSubmission providerId raw (runCalls w calls2)).2 = false.
Proof.
  apply dead_refused with (keyId := keyId). apply runCalls_inv; [done|].
  pose proof (triple_revoked keyId reason actor from lookback key _ (conj (reachable_wf w0 calls1 Hinit) Hk)) as Ht.
  rewrite Hr in Ht. by rewrite Hraw.
Qed.

(** *** Rotation *)

(** A row of the provider that is in the table with this id, digest and status. *)
Definition hasKey (t : Tables) (p id h : string) (s : KeyStatus) : Prop :=
  ∃ k, k ∈ t_keys t ∧ pk_providerId k = p ∧ pk_id k = id ∧ pk_keyHash k = h ∧ pk_status k = s.

Lemma hasKey_accepted w p id raw s : wf (w_tables w) -> hasKey (w_tables w) p id (hashKey raw) s -> acceptable s = true ->
  default false (head (w_faults w)) = false -> ∃ k, (validateSubmission p raw w).2 = Ok k ∧ pk_id k = id.
Proof.
  intros Hw (k & Hk & Hp & Hid & Hh & <-) Ha Hf. exists k. split; [|done].
  unfold validateSubmission, getAcceptableKeys, select, query. unfold mbind, M_bind. rewrite Hf. cbn.
  destruct (List.find _ _) as [k'|] eqn:Ef.
  - cbn. apply List.find_some in Ef as [Hin Hv]. unfold acceptableKeys in Hin. apply filter_In in Hin as [Hin _]. apply list_elem_of_In in Hin.
    destruct (wf_digests _ Hw k' Hin) as [raw' Hr]. rewrite Hr in Hv. apply verifyKey_iff in Hv. do 2 f_equal.
    eapply NoDup_map_inj; [apply (wf_hashes _ Hw)|done|done|congruence].
  - exfalso. eapply List.find_none in Ef as Hn; [|unfold acceptableKeys; apply filter_In; split; [by apply list_elem_of_In|]].
    + rewrite Hh in Hn. assert (verifyKey raw (hashKey raw) = true) as Hv by (by apply verifyKey_iff). congruence.
    + rewrite andb_true_iff, bool_decide_eq_true. done.
Qed.

Lemma hasKey_restatus t p id h s keyId s' a b c : hasKey t p id h s ->
  hasKey (withKeys t (map (restatus keyId s' a b c) (t_keys t))) p id h (if bool_decide (id = keyId) then s' else s).
Proof.
  intros (k & Hk & <- & <- & <- & <-). exists (restatus keyId s' a b c k). destruct (restatus_fields keyId s' a b c k) as (E1&E2&E3&_&E4).
  split_and!; [by apply list_elem_of_fmap_2|done..].
Qed.

Lemma activeRotation_none t p : activeRotation t p = None -> List.filter (inProgress p) (t_rotations t) = [].
Proof.
  unfold activeRotation. intros Hh. destruct (List.filter _ _) as [|r l] eqn:E; [done|]. exfalso.
  pose proof (sort_by_length (fun a b => kr_initiatedAt b <=? kr_initiatedAt a) (r :: l)) as Hl. destruct (sort_by _ (r :: l)); done.
Qed.

(** What the tables hold once a rotation has been initiated. *)
Definition rotationOpen (p : string) (r : RotationResult) (t : Tables) : Prop :=
  wf t ∧ pk_id (ro_newKey r) ≠ pk_id (ro_oldKey r) ∧
  hasKey t p (pk_id (ro_oldKey r)) (pk_keyHash (ro_oldKey r)) Rotating ∧
  hasKey t p (pk_id (ro_newKey r)) (hashKey (ro_rawKey r)) Active ∧
  ∃ rot, activeRotation t p = Some rot ∧ kr_oldKeyId rot = pk_id (ro_oldKey r).

Lemma triple_plan_exact p : triple wf (planRotation p)
  (fun plan t => wf t ∧ hasKey t p (pk_id plan.1) (pk_keyHash plan.1) Active ∧ List.filter (inProgress p) (t_rotations t) = []) (fun _ => True).
Proof.
  unfold planRotation, getProvider_, getActiveRotation, listKeysByProvider.
  eapply triple_bind; [by apply triple_find|intros pr; cbn beta]. eapply triple_bind; [by apply triple_select|intros ex; cbn beta].
  destruct ex; [by apply triple_throw|]. eapply triple_bind; [by apply triple_select|intros ks; cbn beta].
  eapply triple_bind; [by apply triple_orThrow|intros k; cbn beta]. apply triple_ret. cbn. intros t [[[[Ht _] Hr] ->] Hf].
  split; [done|]. split; [|by apply activeRotation_none]. apply List.find_some in Hf as [Hin Hs]. apply bool_decide_eq_true in Hs.
  apply list_elem_of_In in Hin. unfold keysOf in Hin. rewrite elem_of_sort_by in Hin.
  apply list_elem_of_In, filter_In in Hin as [Hin Hp%bool_decide_eq_true]. exists k. split_and!; [by apply list_elem_of_In|done..].
Qed.

Lemma triple_createKey_exact p raw v old h :
  triple (fun t => wf t ∧ hasKey t p old h Active ∧ List.filter (inProgress p) (t_rotations t) = []) (createKey p (hashKey raw) v)
    (fun k t => wf t ∧ hasKey t p old h Active ∧ hasKey t p (pk_id k) (hashKey raw) Active ∧ pk_id k ≠ old ∧ List.filter (inProgress p) (t_rotations t) = [])
    (fun _ => True).
Proof.
  unfold createKey. eapply triple_bind; [apply triple_id|intros id; cbn beta]. eapply triple_bind; [apply triple_clock|intros now; cbn beta].
  apply triple_query; [done|]. intros t t' k (Hw & Ho & Hr) Hi. pose proof Hi as Hi2. apply wf_insertKey in Hi as (Hw' & -> & Hks); [|by eexists|done].
  destruct Ho as (o & Hin & <- & <- & <- & Hs).
  assert (id ≠ pk_id o) as Hne.
  { intros ->. unfold insertKey in Hi2. rewrite bool_decide_eq_true_2 in Hi2; [done|]. cbn. by apply list_elem_of_fmap_2. }
  split_and!; [done| | |done|].
  - exists o. rewrite Hks. set_solver.
  - eexists. rewrite Hks. split; [apply elem_of_app; right; by apply list_elem_of_singleton|done].
  - unfold insertKey in Hi2. destruct (_ || _); [done|]. by injection Hi2 as <-.
Qed.

Lemma triple_rotationOpen p actor ov : triple wf (initiateRotation p actor ov) (rotationOpen p) (fun _ => True).
Proof.
  eapply triple_bind; [apply triple_plan_exact|intros [old v]; cbn]. eapply triple_bind; [apply triple_random|intros raw; cbn beta].
  eapply triple_bind; [apply triple_createKey_exact|intros new; cbn beta].
  eapply triple_bind; [apply triple_clock|intros now; cbn beta]. eapply triple_bind; [apply triple_clock|intros now2; cbn beta].
  eapply triple_bind with (R := fun _ t => wf t ∧ pk_id new ≠ pk_id old ∧ hasKey t p (pk_id old) (pk_keyHash old) Rotating ∧
    hasKey t p (pk_id new) (hashKey raw) Active ∧ List.filter (inProgress p) (t_rotations t) = []).
  { apply triple_query; [done|]. intros t t' u (Hw & Ho & Hn & Hne & Hr) [= <- <-]. split_and!; [by apply wf_restatus|done| | |done].
    - pose proof (hasKey_restatus _ _ _ _ _ (pk_id old) Rotating (Some now2) None None Ho) as Hx. by rewrite bool_decide_eq_true_2 in Hx.
    - pose proof (hasKey_restatus _ _ _ _ _ (pk_id old) Rotating (Some now2) None None Hn) as Hx. by rewrite bool_decide_eq_false_2 in Hx. }
  intros _. cbn beta. unfold recordRotation. set (rec := _ ≫= _).
  eapply triple_bind with (R := fun rot t => (wf t ∧ pk_id new ≠ pk_id old ∧ hasKey t p (pk_id old) (pk_keyHash old) Rotating ∧
    hasKey t p (pk_id new) (hashKey raw) Active) ∧ activeRotation t p = Some rot ∧ kr_oldKeyId rot = pk_id old).
  - unfold rec. eapply triple_bind; [apply triple_id|intros id; cbn beta]. eapply triple_bind; [apply triple_clock|intros at_; cbn beta].
    apply triple_query; [done|]. intros t t' rot (Hw & Hne & Ho & Hn & Hr). unfold insertRotation. destruct (_ || _); [done|].
    intros [= <- <-]. split; [split_and!; [by eapply wf_same_keys|done..]|]. split; [|done].
    unfold activeRotation. cbn [t_rotations withRotations]. rewrite List.filter_app, Hr. cbn. unfold inProgress. cbn. by rewrite bool_decide_eq_true_2.
  - intros rot. cbn beta. apply triple_ret. intros t ((Hw & Hne & Ho & Hn) & Ha & Hk). split_and!; [done..|]. by exists rot.
Qed.

(** The tables after the rotation is completed: the old key is dead, the new one active. *)
Lemma triple_rotationClosed p r : triple (rotationOpen p r) (completeRotation p)
  (fun _ t => inv (Some (pk_id (ro_oldKey r), pk_keyHash (ro_oldKey r))) t ∧ hasKey t p (pk_id (ro_newKey r)) (hashKey (ro_rawKey r)) Active) (fun _ => True).
Proof.
  unfold completeRotation, getActiveRotation. eapply triple_bind; [by apply triple_find|intros rot; cbn beta].
  eapply triple_bind; [apply triple_clock|intros now; cbn beta].
  eapply triple_bind with (R := fun _ t => inv (Some (pk_id (ro_oldKey r), pk_keyHash (ro_oldKey r))) t ∧ hasKey t p (pk_id (ro_newKey r)) (hashKey (ro_rawKey r)) Active).
  - apply triple_query; [done|]. intros t t' u [(Hw & Hne & Ho & Hn & rot' & Ha & Hid) Hf] [= <- <-]. rewrite Ha in Hf. injection Hf as <-.
    rewrite Hid. split.
    + split; [by apply wf_restatus|]. pose proof (hasKey_restatus _ _ _ _ _ (pk_id (ro_oldKey r)) Superseded None (Some now) None Ho) as (k & ?&_&?&?&Hs).
      exists k. rewrite bool_decide_eq_true_2 in Hs by done. split_and!; [done..|]. by rewrite Hs.
    + pose proof (hasKey_restatus _ _ _ _ _ (pk_id (ro_oldKey r)) Superseded None (Some now) None Hn) as Hx. by rewrite bool_decide_eq_false_2 in Hx.
  - intros _. cbn beta. unfold completeRotationRow. eapply triple_bind; [apply triple_clock|intros at_; cbn beta].
    apply triple_query; [done|]. intros t t' u [Hi Hn] [= <- <-]. split; [by eapply inv_same_keys|done].
Qed.

(** A rotation hands over without a gap.  After any history, once
    [initiateRotation] has succeeded both the old and the new raw key are accepted,
    each as its own row; once [completeRotation] has succeeded the new key is still
    accepted, and the old one is refused after any further calls that do not
    reverse a revocation of it. *)
Theorem rotation_hands_over w0 calls p actor overlap w1 r oldRaw wa w2
    (Hinit : noCredentials (w_tables w0))
    (Hr : initiateRotation p actor overlap (runCalls w0 calls) = (w1, Ok r))
    (Hold : hashKey oldRaw = pk_keyHash (ro_oldKey r))
    (Hwa : w_tables wa = w_tables w1) (Hfault : default false (head (w_faults wa)) = false)
    (Hc : completeRotation p w1 = (w2, Ok tt)) :
  (∃ k, (validateSubmission p oldRaw wa).2 = Ok k ∧ pk_id k = pk_id (ro_oldKey r)) ∧
  (∃ k, (validateSubmission p (ro_rawKey r) wa).2 = Ok k ∧ pk_id k = pk_id (ro_newKey r)) ∧
  (∀ wb, w_tables wb = w_tables w2 -> default false (head (w_faults wb)) = false ->
     ∃ k, (validateSubmission p (ro_rawKey r) wb).2 = Ok k ∧ pk_id k = pk_id (ro_newKey r)) ∧
  (∀ calls2 q, forallb (fun c => negb (reverses (pk_id (ro_oldKey r)) c)) calls2 = true ->
     is_ok (validateSubmission q oldRaw (runCalls w2 calls2)).2 = false).
Proof.
  pose proof (triple_rotationOpen p actor overlap _ (reachable_wf w0 calls Hinit)) as Ho. rewrite Hr in Ho.
  pose proof (triple_rotationClosed p r w1 Ho) as Hcl. rewrite Hc in Hcl. destruct Hcl as [Hi Hn2].
  destruct Ho as (Hw & _ & Hko & Hkn & _). split_and!.
  - eapply hasKey_accepted with (s := Rotating); [by rewrite Hwa|rewrite Hwa, Hold; done|done|done].
  - eapply hasKey_accepted with (s := Active); [by rewrite Hwa|by rewrite Hwa|done|done].
  - intros wb Hwb Hf. eapply hasKey_accepted with (s := Active); [rewrite Hwb; apply Hi|by rewrite Hwb|done|done].
  - intros calls2 q Hn. apply dead_refused with (keyId := pk_id (ro_oldKey r)). apply runCalls_inv; [done|]. by rewrite Hold.
Qed.
End Lifecycle.

(** * Examples *)

(** A host whose digest tells the raw key ["old"] from the others. *)
Definition keyHost : JsHost := {|
  localeLe := string_leb; numToString := @numToString demoHost;
  sha256Hex s := String.string_of_list_ascii (replicate 63 c_zero ++ [if bool_decide (s = "old"%string) then c_zero else "1"%char]) |}.
#[global] Instance keyHost_digest : @HexDigest keyHost.
Proof. intros s. cbn. case_bool_decide; by vm_compute. Qed.

Definition demoWorld : World := mkWorld (mkTables [] [] [] [] [] []) [] (seqZ 1 40) ["p1"; "k1"; "x1"; "x2"; "x3"; "x4"; "x5"; "x6"]%string ["old"; "new"]%string.
Definition registered : list Call := [CRegister "acme" "ops@acme"].

Lemma revoked_key_refused_witness :
  is_ok (@validateSubmission keyHost "p1" "old"
    (@runCalls keyHost (@revokeKey "k1" "leaked" "ops" 7 None (@runCalls keyHost demoWorld registered)).1
       [CInitiate "p1" "ops" None; CRegister "other" "x"])).2 = false.
Proof.
  eapply (@revoked_key_refused keyHost keyHost_digest demoWorld registered "k1" "leaked" "ops" 7 None); try (vm_compute; reflexivity).
  vm_compute. auto.
Defined.

Lemma rotation_hands_over_witness :
  let w := (@initiateRotation keyHost "p1" "ops" None (@runCalls keyHost demoWorld registered)).1 in
  (∃ k, (@validateSubmission keyHost "p1" "old" w).2 = Ok k ∧ pk_id k = "k1"%string) ∧
  is_ok (@validateSubmission keyHost "p1" "old" (completeRotation "p1" w).1).2 = false.
Proof.
  pose proof (@rotation_hands_over keyHost keyHost_digest demoWorld registered "p1" "ops" None _ _ "old"
    (@initiateRotation keyHost "p1" "ops" None (@runCalls keyHost demoWorld registered)).1 _
    ltac:(vm_compute; auto) ltac:(vm_compute; reflexivity) ltac:(vm_compute; reflexivity) ltac:(vm_compute; reflexivity)
    ltac:(vm_compute; reflexivity) ltac:(vm_compute; reflexivity)) as (Ho & _ & _ & Hd).
  split; [exact Ho|]. exact (Hd [] "p1"%string eq_refl).
Defined.

(** The statements of a rotation are not in a transaction: a key revoked between
    the reads and the writes of a rotation becomes acceptable again, although no
    one reversed the revocation. *)
Theorem rotation_race_restores_revoked_key :
  match planRotation "p1" (@runCalls keyHost demoWorld registered) with
  | (w1, Ok plan) =>
      let w2 := revokeKey "k1" "leaked" "ops" 7 None w1 in
      let w3 := @writeRotation keyHost "p1" "ops" None plan w2.1 in
      is_ok w2.2 = true ∧ is_ok (@validateSubmission keyHost "p1" "old" w2.1).2 = false ∧
      is_ok w3.2 = true ∧ is_ok (@validateSubmission keyHost "p1" "old" w3.1).2 = true
  | _ => False
  end.
Proof. vm_compute. auto. Qed.

(** Revoking and reversing is possible for a key that a rotation has retired, and
    makes it active: the retired key is accepted beside its successor. *)
Theorem retired_key_restored_by_reversal :
  let w := @runCalls keyHost demoWorld (registered ++ [CInitiate "p1" "ops" None; CComplete "p1"]) in
  is_ok (@validateSubmission keyHost "p1" "old" w).2 = false ∧
  let w' := @runCalls keyHost w [CRevoke "k1" "mistake" "ops" 7 None; CReverse "k1" "x3" "mistake" "ops" 8] in
  is_ok (@validateSubmission keyHost "p1" "old" w').2 = true ∧ is_ok (@validateSubmission keyHost "p1" "new" w').2 = true.
Proof. vm_compute. auto. Qed.

(** A reversed key keeps the revocation time and the sequence it was revoked at:
    the statement cannot clear a column. *)
Theorem reversal_keeps_revocation_columns :
  (fun k => (pk_status k, pk_revokedAt k, pk_effectiveUntilSequence k)) <$>
    keyById (w_tables (@runCalls keyHost demoWorld (registered ++ [CRevoke "k1" "mistake" "ops" 7 None; CReverse "k1" "x1" "mistake" "ops" 8]))) "k1"
  = Some (Active, Some 3, Some 7).
Proof. vm_compute. reflexivity. Qed.
