(* ===== verification/SourceRegistry.v ===== *)
(** The ingestion path of oracle sources (src/oracle/adapters/source-adapter.ts,
    metric-specs.ts, source-registry.ts): the quarantine gate, the checks that turn
    a raw response into a canonical observation, and the health of a source per
    metric.

    The registry awaits the adapter between its gate and its checks.  [beginObserve]
    is the part before the await and [finishObserve] the part after it, so that
    observations of one source may overlap.  The health objects are shared through
    the map, and both parts address them by key. *)

From stdpp Require Import base list strings sorting sets.
From Stdlib Require Import ZArith Lia Floats.
From S2P Require Import Prelude Decimal JsNum JsDate Canonical.

#[local] Open Scope Z_scope.

(** * Metrics *)

Inductive MetricId := UsdcPrice | XlmChange | TvlChange | LedgerLatest.
#[global] Instance MetricId_eq_dec : EqDecision MetricId.
Proof. solve_decision. Defined.

Definition metricText (m : MetricId) : string :=
  match m with
  | UsdcPrice => "usdc.usd.price" | XlmChange => "xlm.usd.change_24h_pct"
  | TvlChange => "protocol.tvl.change_24h_pct" | LedgerLatest => "stellar.ledger.latest"
  end.

Inductive Unit_ := Usd | Percent | Ledger.
Record MetricSpec := mkSpec { ms_unit : Unit_; ms_decimals : Z; ms_min : num; ms_max : num; ms_maxAgeMs : Z }.

Definition METRIC_SPECS (m : MetricId) : MetricSpec :=
  match m with
  | UsdcPrice => mkSpec Usd 6 0 2 (10 * 60000)
  | XlmChange => mkSpec Percent 4 (-100) 1000 (10 * 60000)
  | TvlChange => mkSpec Percent 4 (-100) 1000 (6 * 60 * 60000)
  | LedgerLatest => mkSpec Ledger 0 1 9007199254740991 (2 * 60000)
  end%float%Z.

Definition MAX_FUTURE_SKEW_MS : Z := 30000.

(** [10 ** decimals] is exact for the few places the specs use. *)
Definition roundTo (value : num) (decimals : Z) : num :=
  let factor := num_of_Z (10 ^ decimals) in
  let rounded := (mathRound (value * factor) / factor)%float in
  if neq rounded 0%float then 0%float else rounded.

(** * Adapters and observations *)

Inductive TrustTier := Live | Mock.
Record ObservationEvidence := mkEvidence {
  oe_url : string; oe_status : Z; oe_bodySha256 : string; oe_bytes : Z; oe_excerpt : string; oe_capturedAt : Z }.
Record ObservationRequest := mkRequest { rq_metric : MetricId; rq_subject : option string }.
Record RawObservation := mkRaw { ra_value : num; ra_observedAt : option Z; ra_evidence : ObservationEvidence; ra_context : list (string * string) }.
Record SourceObservation := mkObservation {
  so_sourceId : string; so_trustTier : TrustTier; so_metric : MetricId; so_subject : option string; so_value : num; so_observedAt : Z;
  so_fetchedAt : Z; so_hasUpstreamTimestamp : bool; so_evidence : ObservationEvidence; so_context : list (string * string) }.
Record OracleSourceAdapter := mkAdapter { oa_id : string; oa_displayName : string; oa_trustTier : TrustTier; oa_metrics : list MetricId }.

(** What [adapter.fetch] settles to: a response, a schema error or another error. *)
Inductive Fetched := Response (raw : RawObservation) | SchemaError (message : string) | OtherError (message : string).

Inductive FailureReason := Quarantined | FetchError | Invalid | Stale.
#[global] Instance FailureReason_eq_dec : EqDecision FailureReason.
Proof. solve_decision. Defined.
Definition reasonText (r : FailureReason) : string :=
  match r with Quarantined => "quarantined" | FetchError => "fetch_error" | Invalid => "invalid" | Stale => "stale" end.

Inductive ObservationResult :=
| Observed (observation : SourceObservation)
| Failed (sourceId : string) (metric : MetricId) (reason : FailureReason) (detail : string).

Record HealthState := mkHealth { hs_consecutiveFailures : Z; hs_quarantinedUntil : Z; hs_lastReason : option string }.
Record RegistryOptions := mkOptions { op_timeoutMs : Z; op_quarantineAfterFailures : Z; op_quarantineMs : Z }.
Record SourceHealth := mkSourceHealth {
  sh_sourceId : string; sh_metric : string; sh_consecutiveFailures : Z; sh_quarantinedUntil : option Z; sh_lastReason : option string }.

Record Registry := mkRegistry { rg_adapters : list (string * OracleSourceAdapter); rg_health : list (string * HealthState) }.

Definition quote : string := String.String (Ascii.ascii_of_nat 34) "".

Section Registry.
Context `{JsHost} (options : RegistryOptions).

Definition register (r : Registry) (adapter : OracleSourceAdapter) : res string Registry :=
  if jm_has (rg_adapters r) (oa_id adapter) then Err ("Oracle source " +:+ quote +:+ oa_id adapter +:+ quote +:+ " is already registered")
  else Ok (mkRegistry (jm_set (rg_adapters r) (oa_id adapter) adapter) (rg_health r)).

Definition adaptersFor (r : Registry) (metric : MetricId) : list OracleSourceAdapter :=
  List.filter (fun a => bool_decide (metric ∈ oa_metrics a)) (jm_values (rg_adapters r)).

Definition healthKey (sourceId : string) (metric : MetricId) : string := sourceId +:+ "|" +:+ metricText metric.
Definition freshHealth : HealthState := mkHealth 0 0 None.
Definition stateFor (r : Registry) (sourceId : string) (metric : MetricId) : HealthState :=
  default freshHealth (jm_get (rg_health r) (healthKey sourceId metric)).
Definition setState (r : Registry) (sourceId : string) (metric : MetricId) (s : HealthState) : Registry :=
  mkRegistry (rg_adapters r) (jm_set (rg_health r) (healthKey sourceId metric) s).

(** The state after a failure at [now]. *)
Definition failedState (s : HealthState) (reason : FailureReason) (detail : string) (now : Z) : HealthState :=
  let failures := hs_consecutiveFailures s + 1 in
  let why := Some (reasonText reason +:+ ": " +:+ detail) in
  let shouldQuarantine := bool_decide (reason = Invalid) || (op_quarantineAfterFailures options <=? failures) in
  mkHealth failures (if shouldQuarantine && (0 <? op_quarantineMs options) then now + op_quarantineMs options else hs_quarantinedUntil s) why.

Definition fail (r : Registry) (sourceId : string) (metric : MetricId) (reason : FailureReason) (detail : string) (now : Z) :
    Registry * ObservationResult :=
  (setState r sourceId metric (failedState (stateFor r sourceId metric) reason detail now), Failed sourceId metric reason detail).

(** Up to the await: the answer of the gate, or the fetch goes on.  [stateFor]
    creates the entry it does not find. *)
Definition beginObserve (r : Registry) (adapter : OracleSourceAdapter) (request : ObservationRequest) (started : Z) :
    Registry * option ObservationResult :=
  let metric := rq_metric request in
  let state := stateFor r (oa_id adapter) metric in
  let r' := setState r (oa_id adapter) metric state in
  if started <? hs_quarantinedUntil state
  then (r', Some (Failed (oa_id adapter) metric Quarantined
          ("quarantined until " +:+ String.string_of_list_ascii (isoText (hs_quarantinedUntil state)) +:+ " (" +:+ default "unknown"%string (hs_lastReason state) +:+ ")")))
  else (r', None).

Inductive Judged := Accept (value : num) (observedAt : Z) (hasUpstream : bool) | Refuse (reason : FailureReason) (detail : string).

(** The checks of a response received at [fetchedAt]. *)
Definition judge (metric : MetricId) (raw : RawObservation) (fetchedAt : Z) : Judged :=
  let spec := METRIC_SPECS metric in
  if negb (isFinite (ra_value raw)) then Refuse Invalid ("non-finite value " +:+ numToString (ra_value raw))
  else
    let value := roundTo (ra_value raw) (ms_decimals spec) in
    if nlt value (ms_min spec) || ngt value (ms_max spec)
    then Refuse Invalid ("value " +:+ numToString value +:+ " outside [" +:+ numToString (ms_min spec) +:+ ", " +:+ numToString (ms_max spec) +:+ "]")
    else
      let observedAt := default fetchedAt (ra_observedAt raw) in
      if fetchedAt + MAX_FUTURE_SKEW_MS <? observedAt then Refuse Invalid ("timestamp " +:+ showZ observedAt +:+ " is in the future")
      else
        let ageMs := fetchedAt - observedAt in
        if ms_maxAgeMs spec <? ageMs
        then Refuse Stale ("value is " +:+ showZ ((ageMs + 500) / 1000) +:+ "s old (max " +:+ showZ (ms_maxAgeMs spec / 1000) +:+ "s)")
        else Accept value observedAt (bool_decide (is_Some (ra_observedAt raw))).

(** After the await; [failedAt] is the clock when a failure is recorded. *)
Definition finishObserve (r : Registry) (adapter : OracleSourceAdapter) (request : ObservationRequest) (fetched : Fetched) (now failedAt : Z) :
    Registry * ObservationResult :=
  let metric := rq_metric request in
  match fetched with
  | SchemaError detail => fail r (oa_id adapter) metric Invalid detail failedAt
  | OtherError detail => fail r (oa_id adapter) metric FetchError detail failedAt
  | Response raw =>
      match judge metric raw now with
      | Refuse reason detail => fail r (oa_id adapter) metric reason detail failedAt
      | Accept value observedAt hasUpstream =>
          (setState r (oa_id adapter) metric (mkHealth 0 0 None),
           Observed (mkObservation (oa_id adapter) (oa_trustTier adapter) metric (rq_subject request) value observedAt now hasUpstream
                       (ra_evidence raw) (ra_context raw)))
      end
  end.

Definition sourceOf (key : string) : string * string :=
  match String.index 0 "|" key with
  | Some i => (String.substring 0 i key, String.substring (i + 1) (String.length key - i - 1) key)
  | None => (key, ""%string)
  end.
Definition healthSnapshot (r : Registry) (now : Z) : list SourceHealth :=
  map (fun kv => let '(sourceId, metric) := sourceOf kv.1 in
    mkSourceHealth sourceId metric (hs_consecutiveFailures kv.2)
      (if now <? hs_quarantinedUntil kv.2 then Some (hs_quarantinedUntil kv.2) else None) (hs_lastReason kv.2)) (rg_health r).
End Registry.

(** * Keys tell sources and metrics apart *)

Lemma split_at_last {A} (c : A) : forall a b x y, c ∉ x -> c ∉ y -> a ++ c :: x = b ++ c :: y -> a = b ∧ x = y.
Proof.
  induction a as [|u a IH]; intros [|v b] x y Hx Hy E; simplify_eq/=.
  - done.
  - exfalso. apply Hx. rewrite elem_of_app, elem_of_cons. auto.
  - exfalso. apply Hy. rewrite elem_of_app, elem_of_cons. auto.
  - match goal with E2 : _ ++ _ = _ ++ _ |- _ => destruct (IH b x y Hx Hy E2) as [-> ->] end. done.
Qed.

Lemma metricText_inj m1 m2 : metricText m1 = metricText m2 -> m1 = m2.
Proof. by destruct m1, m2. Qed.

Lemma healthKey_inj s1 m1 s2 m2 : healthKey s1 m1 = healthKey s2 m2 -> s1 = s2 ∧ m1 = m2.
Proof.
  unfold healthKey. intros E. apply (f_equal String.list_ascii_of_string) in E. rewrite !list_ascii_append in E.
  assert (forall m, Ascii.ascii_of_nat 124 ∉ String.list_ascii_of_string (metricText m)) as Hm.
  { intros m. apply (bool_decide_eq_false_1 (_ ∈ _)). by destruct m; vm_compute. }
  cbn [String.list_ascii_of_string app] in E. apply split_at_last in E as [E1 E2]; [|apply Hm..].
  apply (f_equal String.string_of_list_ascii) in E1, E2. rewrite !String.string_of_list_ascii_of_string in E1, E2. split; [done|by apply metricText_inj].
Qed.

Section RegistryFacts.
Context `{JsHost} (options : RegistryOptions).

Lemma stateFor_setState r s m st s' m' : stateFor (setState r s m st) s' m' = if decide (s = s' ∧ m = m') then st else stateFor r s' m'.
Proof.
  unfold stateFor, setState. cbn. rewrite jm_get_set. case_decide as E; case_decide as E2; try done.
  - by apply healthKey_inj in E.
  - destruct E2 as [-> ->]. done.
Qed.

(** One observation without overlap: the gate, the fetch and the checks. *)
Record Attempt := mkAttempt { at_adapter : OracleSourceAdapter; at_request : ObservationRequest; at_started : Z; at_fetched : Fetched; at_now : Z; at_failedAt : Z }.

Definition observeOne (r : Registry) (a : Attempt) : Registry * ObservationResult :=
  match beginObserve r (at_adapter a) (at_request a) (at_started a) with
  | (r', Some result) => (r', result)
  | (r', None) => finishObserve options r' (at_adapter a) (at_request a) (at_fetched a) (at_now a) (at_failedAt a)
  end.

Definition about (s : string) (m : MetricId) (a : Attempt) : Prop := oa_id (at_adapter a) = s ∧ rq_metric (at_request a) = m.

(** An observation touches the health of its own source and metric only. *)
Lemma observeOne_frame r a s m : ¬ about s m a -> stateFor (observeOne r a).1 s m = stateFor r s m.
Proof.
  intros Hn. unfold observeOne, beginObserve, finishObserve, fail. unfold about in Hn.
  repeat case_match; simplify_eq/=; rewrite ?stateFor_setState, ?decide_False by done; done.
Qed.

(** Under quarantine the gate answers and the health stays. *)
Lemma observeOne_quarantined r a s m : about s m a -> at_started a < hs_quarantinedUntil (stateFor r s m) ->
  stateFor (observeOne r a).1 s m = stateFor r s m ∧ ∃ detail, (observeOne r a).2 = Failed s m Quarantined detail.
Proof.
  intros [<- <-] Hq. unfold observeOne, beginObserve. apply Z.ltb_lt in Hq. rewrite Hq. cbn -[stateFor setState]. split; [|by eexists].
  rewrite stateFor_setState, decide_True by done. done.
Qed.

Definition run (r : Registry) (history : list Attempt) : Registry := foldl (fun r a => (observeOne r a).1) r history.

Lemma quarantine_persists until s m history : forall r, hs_quarantinedUntil (stateFor r s m) = until ->
  Forall (fun a => at_started a < until) history -> hs_quarantinedUntil (stateFor (run r history) s m) = until.
Proof.
  induction history as [|a history IH]; intros r Hr Hall; [done|]. apply Forall_cons in Hall as [Ha Hall]. cbn. apply IH; [|done].
  assert (about s m a ∨ ¬ about s m a) as [Hab|Hab] by (unfold about; destruct (decide (oa_id (at_adapter a) = s ∧ rq_metric (at_request a) = m)); auto).
  - destruct (observeOne_quarantined r a s m Hab) as [-> _]; [by rewrite Hr|done].
  - by rewrite observeOne_frame.
Qed.

(** A malformed, out-of-bounds or future-dated response quarantines its source
    at once: when an observation fails as invalid, every later observation of that
    source and metric that starts before the quarantine ends is refused by the gate,
    whatever the upstream answers and whatever other observations run in between.
    The health of every other source and metric is untouched. *)
Theorem invalid_source_quarantined r a s m detail history a'
    (Hms : 0 < op_quarantineMs options) (Ha : about s m a)
    (Hinv : (observeOne r a).2 = Failed s m Invalid detail)
    (Hhist : Forall (fun b => at_started b < at_failedAt a + op_quarantineMs options) history)
    (Ha' : about s m a') (Hstart : at_started a' < at_failedAt a + op_quarantineMs options) :
  (∃ why, (observeOne (run (observeOne r a).1 history) a').2 = Failed s m Quarantined why) ∧
  ∀ s' m', (s', m') ≠ (s, m) -> stateFor (observeOne r a).1 s' m' = stateFor r s' m'.
Proof.
  assert (hs_quarantinedUntil (stateFor (observeOne r a).1 s m) = at_failedAt a + op_quarantineMs options) as Hq.
  { destruct Ha as [<- <-]. revert Hinv. unfold observeOne, beginObserve, finishObserve, fail. apply Z.ltb_lt in Hms.
    repeat case_match; simplify_eq/=; intros; simplify_eq/=; rewrite stateFor_setState, decide_True by done; cbn; unfold failedState; cbn;
      rewrite Hms; try done. }
  split.
  - apply observeOne_quarantined; [done|]. by rewrite (quarantine_persists (at_failedAt a + op_quarantineMs options)).
  - intros s' m' Hne. apply observeOne_frame. unfold about in *. intros [? ?]. destruct Ha. congruence.
Qed.

(** An accepted observation is within the bounds of its metric and fresh. *)
Lemma observed_canonical r a o (Ho : (observeOne r a).2 = Observed o) :
  let spec := METRIC_SPECS (rq_metric (at_request a)) in
  nlt (so_value o) (ms_min spec) = false ∧ ngt (so_value o) (ms_max spec) = false ∧
  (∃ raw, at_fetched a = Response raw ∧ so_value o = roundTo (ra_value raw) (ms_decimals spec)) ∧
  so_fetchedAt o - ms_maxAgeMs spec <= so_observedAt o <= so_fetchedAt o + MAX_FUTURE_SKEW_MS ∧ so_sourceId o = oa_id (at_adapter a).
Proof.
  revert Ho. unfold observeOne, beginObserve. repeat case_match; simplify_eq/=; intros Ho; simplify_eq/=. revert Ho. unfold finishObserve, fail.
  destruct (at_fetched a) as [raw|d|d]; [|done..]. destruct (judge _ _ _) as [v oa h|rs d] eqn:Ej; [|done]. cbn. intros [= <-]. cbn.
  unfold judge in Ej. destruct (negb _); [done|]. destruct (nlt _ _) eqn:E1; [done|]. cbn [orb] in Ej. destruct (ngt _ _) eqn:E2; [done|].
  destruct (_ <? default _ _) eqn:E3; [done|]. destruct (ms_maxAgeMs _ <? _) eqn:E4; [done|]. injection Ej as <- <- <-.
  apply Z.ltb_ge in E3, E4. split_and!; [done|done|by exists raw|lia|lia|done].
Qed.
End RegistryFacts.

(** * Examples *)

Definition demoAdapter : OracleSourceAdapter := mkAdapter "coingecko" "CoinGecko" Live [UsdcPrice].
Definition demoOptions : RegistryOptions := mkOptions 1000 3 60000.
Definition demoEvidence : ObservationEvidence := mkEvidence "u" 200 "" 0 "" 0.
Definition demoAttempt (v : num) (t : Z) : Attempt :=
  mkAttempt demoAdapter (mkRequest UsdcPrice None) t (Response (mkRaw v (Some t) demoEvidence [])) t t.

Lemma invalid_source_quarantined_witness :
  ∃ why, (@observeOne demoHost demoOptions
    (@run demoHost demoOptions (@observeOne demoHost demoOptions (mkRegistry [] []) (demoAttempt 9 1000)).1 [demoAttempt 1 2000]) (demoAttempt 1 60999)).2
    = Failed "coingecko" UsdcPrice Quarantined why.
Proof.
  refine (proj1 (@invalid_source_quarantined demoHost demoOptions (mkRegistry [] []) (demoAttempt 9 1000) "coingecko" UsdcPrice _ [demoAttempt 1 2000] (demoAttempt 1 60999) _ _ _ _ _ _)).
  - done.
  - done.
  - vm_compute. reflexivity.
  - constructor; [done|constructor].
  - done.
  - done.
Defined.

(** Observations that overlap share the health of their source: a response that was
    under way when another one was found invalid lifts the quarantine when it is
    accepted. *)
Theorem inflight_success_lifts_quarantine :
  let '(r1, g1) := beginObserve (mkRegistry [] []) demoAdapter (mkRequest UsdcPrice None) 1000 in
  let '(r2, g2) := beginObserve r1 demoAdapter (mkRequest UsdcPrice None) 1001 in
  let '(r3, _) := @finishObserve demoHost demoOptions r2 demoAdapter (mkRequest UsdcPrice None) (Response (mkRaw 9 (Some 1000) demoEvidence [])) 1010 1010 in
  let '(r4, _) := @finishObserve demoHost demoOptions r3 demoAdapter (mkRequest UsdcPrice None) (Response (mkRaw 1 (Some 1000) demoEvidence [])) 1020 1020 in
  g1 = None ∧ g2 = None ∧ hs_quarantinedUntil (stateFor r3 "coingecko" UsdcPrice) = 61010 ∧
  (beginObserve r4 demoAdapter (mkRequest UsdcPrice None) 1021).2 = None.
Proof. vm_compute. auto. Qed.
