(* ===== verification/Smoothing.v ===== *)
(** Smoothing and deduplication of readings before consensus
    (src/oracle/consensus/temporal-smoother.ts, sourceReadingDeduplicator.ts): the
    rolling window of samples per source, whose median is what the source
    contributes, and the collapse of repeated readings of a source in a window. *)

From stdpp Require Import base list strings sorting sets.
From Stdlib Require Import ZArith Lia Floats.
From S2P Require Import Prelude Decimal JsNum Canonical Consensus JsOrder JsMean SourceRegistry.

#[local] Open Scope Z_scope.

(** * Temporal smoothing *)

Record SmoothingOptions := mkSmoothing { sm_windowMs : Z; sm_minSamples : Z; sm_minSpanMs : Z; sm_maxSamples : Z }.
Record Sample := mkSample { sa_value : num; sa_observedAt : Z }.
Record SmoothedValue := mkSmoothed {
  sv_sourceId : string; sv_value : option num; sv_latest : num; sv_samples : Z; sv_spanMs : Z; sv_ready : bool; sv_reason : option string }.

Definition keyOf (sourceId : string) (metric : MetricId) (subject : option string) : string :=
  sourceId +:+ "|" +:+ metricText metric +:+ "|" +:+ default ""%string subject.

Definition median (values : list num) : num :=
  let sorted := sort_by ascending values in
  let mid := (length sorted / 2)%nat in
  if Nat.odd (length sorted) then default nan (sorted !! mid)
  else ((default nan (sorted !! (mid - 1)%nat) + default nan (sorted !! mid)) / 2)%float.

(** The samples per key; [windows] of the smoother. *)
Definition Windows := list (string * list Sample).

Section Smoother.
Context (options : SmoothingOptions).

(** The number of leading samples older than the cutoff. *)
Fixpoint countOld (cutoff : Z) (window : list Sample) : nat :=
  match window with
  | s :: rest => if sa_observedAt s <? cutoff then S (countOld cutoff rest) else 0
  | [] => 0
  end.

Definition prune (now : Z) (window : list Sample) : list Sample :=
  let cutoff := now - sm_windowMs options in
  drop (Z.to_nat (Z.max (Z.of_nat (countOld cutoff window)) (Z.of_nat (length window) - sm_maxSamples options))) window.

Definition byTime (a b : Sample) : bool := sa_observedAt a <=? sa_observedAt b.

Definition ingestWindow (now : Z) (window : list Sample) (value : num) (observedAt : Z) : list Sample :=
  if existsb (fun s => sa_observedAt s =? observedAt) window then window
  else prune now (sort_by byTime (window ++ [mkSample value observedAt])).

Definition windowOf (w : Windows) (key : string) : list Sample := default [] (jm_get w key).

Definition ingest (w : Windows) (obs : SourceObservation) (now : Z) : Windows :=
  let key := keyOf (so_sourceId obs) (so_metric obs) (so_subject obs) in
  let window := windowOf w key in
  if existsb (fun s => sa_observedAt s =? so_observedAt obs) window then w
  else jm_set w key (ingestWindow now window (so_value obs) (so_observedAt obs)).

Definition seconds (ms : Z) : string := showZ ((ms + 500) / 1000).

Definition spanOf (window : list Sample) : Z :=
  match window with
  | [] => 0
  | first :: _ => match last window with Some l => sa_observedAt l - sa_observedAt first | None => 0 end
  end.

Definition smoothWindow (sourceId : string) (latest : num) (window : list Sample) : SmoothedValue :=
  let samples := Z.of_nat (length window) in
  let spanMs := spanOf window in
  if samples <? sm_minSamples options
  then mkSmoothed sourceId None latest samples spanMs false
         (Some ("warming up: " +:+ showZ samples +:+ "/" +:+ showZ (sm_minSamples options) +:+ " samples"))
  else if spanMs <? sm_minSpanMs options
  then mkSmoothed sourceId None latest samples spanMs false
         (Some ("warming up: samples span " +:+ seconds spanMs +:+ "s of " +:+ seconds (sm_minSpanMs options) +:+ "s"))
  else mkSmoothed sourceId (Some (median (map sa_value window))) latest samples spanMs true None.

(** [now1] and [now2] are the clock readings of the ingestion and of the second
    pruning. *)
Definition smooth (w : Windows) (obs : SourceObservation) (now1 now2 : Z) : Windows * SmoothedValue :=
  let w' := ingest w obs now1 in
  (w', smoothWindow (so_sourceId obs) (so_value obs) (prune now2 (windowOf w' (keyOf (so_sourceId obs) (so_metric obs) (so_subject obs))))).

Definition windowSize (w : Windows) (sourceId : string) (metric : MetricId) (subject : option string) (now : Z) : nat :=
  length (prune now (windowOf w (keyOf sourceId metric subject))).

(** ** Windows are ordered and bounded *)

Definition ordered (l : list Sample) : Prop := StronglySorted (fun a b => sa_observedAt a < sa_observedAt b) l.

Lemma ordered_drop n l : ordered l -> ordered (drop n l).
Proof. revert n. induction l as [|x l IH]; intros [|n] Hl; try done. cbn. inversion_clear Hl. by apply IH. Qed.

Lemma byTime_total : le_total byTime. Proof. intros a b. unfold byTime. rewrite !Z.leb_le. lia. Qed.
Lemma byTime_trans : le_trans byTime. Proof. intros a b c. unfold byTime. rewrite !Z.leb_le. lia. Qed.

Lemma existsb_time t l : existsb (fun s => sa_observedAt s =? t) l = false <-> t ∉ map sa_observedAt l.
Proof.
  split.
  - intros He Hin. apply list_elem_of_fmap in Hin as (s & -> & Hs). apply list_elem_of_In in Hs.
    assert (existsb (fun s0 => sa_observedAt s0 =? sa_observedAt s) l = true) by (apply existsb_exists; exists s; split; [done|by apply Z.eqb_eq]). congruence.
  - intros Hn. apply not_true_is_false. intros (s & Hs & He%Z.eqb_eq)%existsb_exists. apply Hn. subst t. apply list_elem_of_fmap. exists s. split; [done|by apply list_elem_of_In].
Qed.

Lemma ordered_NoDup l : ordered l -> NoDup (map sa_observedAt l).
Proof.
  induction 1 as [|x l Hl IH Hall]; cbn; [constructor|]. apply NoDup_cons. split; [|done].
  intros (y & Hy & Hin)%list_elem_of_fmap. rewrite Forall_forall in Hall. specialize (Hall y Hin). lia.
Qed.

Lemma sorted_ordered l : NoDup (map sa_observedAt l) -> StronglySorted (fun a b => byTime a b = true) l -> ordered l.
Proof.
  intros Hn. induction 1 as [|x l Hl IH Hall]; [constructor|]. cbn in Hn. apply NoDup_cons in Hn as [Hx Hn]. constructor; [by apply IH|].
  rewrite Forall_forall in Hall |- *. intros y Hy. specialize (Hall y Hy). unfold byTime in Hall. apply Z.leb_le in Hall.
  assert (sa_observedAt x ≠ sa_observedAt y); [|lia]. intros E. apply Hx. rewrite E. by apply list_elem_of_fmap_2.
Qed.

Definition inserted (window : list Sample) (value : num) (t : Z) : list Sample := sort_by byTime (window ++ [mkSample value t]).

Lemma inserted_perm window v t : inserted window v t ≡ₚ mkSample v t :: window.
Proof. unfold inserted. rewrite sort_by_perm. symmetry. apply Permutation_cons_append. Qed.

Lemma inserted_ordered window v t : ordered window -> t ∉ map sa_observedAt window -> ordered (inserted window v t).
Proof.
  intros Ho Hn. apply sorted_ordered; [|apply sort_by_sorted; [apply byTime_total|apply byTime_trans]].
  change (NoDup (sa_observedAt <$> inserted window v t)). rewrite inserted_perm. cbn. apply NoDup_cons. split; [done|by apply ordered_NoDup].
Qed.

Lemma ingestWindow_ordered now window v t : ordered window -> ordered (ingestWindow now window v t).
Proof.
  intros Ho. unfold ingestWindow. destruct (existsb _ _) eqn:E; [done|]. apply existsb_time in E. apply ordered_drop. by apply inserted_ordered.
Qed.

Lemma prune_short now l : 0 <= sm_maxSamples options -> Z.of_nat (length (prune now l)) <= sm_maxSamples options.
Proof. intros Hm. unfold prune. rewrite length_drop. lia. Qed.

(** ** The first value at a time is final *)

Lemma countOld_old cutoff l i s : l !! i = Some s -> (i < countOld cutoff l)%nat -> sa_observedAt s < cutoff.
Proof.
  revert i. induction l as [|x l IH]; intros i Hi Hc; [done|]. cbn in Hc. destruct (_ <? _) eqn:E; [|lia]. apply Z.ltb_lt in E.
  destruct i as [|i]; [by injection Hi as <-|]. apply (IH i); [done|lia].
Qed.

Lemma countOld_length cutoff l : (countOld cutoff l <= length l)%nat.
Proof. induction l as [|x l IH]; cbn; [lia|]. case_match; lia. Qed.

Lemma countOld_fresh cutoff l i s : ordered l -> l !! i = Some s -> (countOld cutoff l <= i)%nat -> cutoff <= sa_observedAt s.
Proof.
  revert i. induction l as [|x l IH]; intros i Ho Hi Hc; [done|]. cbn in Hc. inversion_clear Ho as [|? ? Ho' Hall].
  destruct (_ <? _) eqn:E; [apply Z.ltb_lt in E|apply Z.ltb_ge in E].
  - destruct i as [|i]; [lia|]. apply (IH i); [done|done|lia].
  - destruct i as [|i]; [injection Hi as <-; lia|]. rewrite Forall_forall in Hall.
    specialize (Hall s (list_elem_of_lookup_2 l i _ Hi)). lia.
Qed.

Lemma ordered_lookup l i j x y : ordered l -> l !! i = Some x -> l !! j = Some y -> (i < j)%nat -> sa_observedAt x < sa_observedAt y.
Proof.
  revert i j. induction l as [|z l IH]; intros i j Ho Hi Hj Hij; [done|]. inversion_clear Ho as [|? ? Ho' Hall].
  destruct j as [|j]; [lia|]. destruct i as [|i]; [|apply (IH i j); [done..|lia]]. injection Hi as <-. rewrite Forall_forall in Hall.
  apply Hall. by eapply list_elem_of_lookup_2.
Qed.

(** The number of samples after time [t]. *)
Definition later (t : Z) (l : list Sample) : nat := length (List.filter (fun s => t <? sa_observedAt s) l).

Lemma later_perm t l1 l2 : l1 ≡ₚ l2 -> later t l1 = later t l2.
Proof. unfold later. induction 1; cbn; repeat (case_match; cbn); lia. Qed.

Lemma later_all t l : Forall (fun s => t < sa_observedAt s) l -> later t l = length l.
Proof. unfold later. induction 1 as [|s l Hs Hl IH]; cbn; [done|]. apply Z.ltb_lt in Hs. rewrite Hs. cbn. by rewrite IH. Qed.

Lemma later_bound t l i s : ordered l -> l !! i = Some s -> sa_observedAt s <= t -> (later t l + i < length l)%nat.
Proof.
  intros Ho Hi Hs. rewrite <- (take_drop_middle l i s Hi). rewrite length_app. unfold later. rewrite List.filter_app, length_app.
  assert (List.filter (fun x => t <? sa_observedAt x) (take i l) = []) as ->.
  { apply filter_nil_iff. intros x [j Hj]%list_elem_of_lookup. apply lookup_take_Some in Hj as [Hj Hlt]. apply Z.ltb_ge.
    pose proof (ordered_lookup l j i x s Ho Hj Hi Hlt). lia. }
  cbn [List.filter length app]. rewrite (proj2 (Z.ltb_ge t (sa_observedAt s))) by done.
  pose proof (List.filter_length_le (fun x => t <? sa_observedAt x) (drop (S i) l)). rewrite length_take. apply lookup_lt_Some in Hi. lia.
Qed.

Definition crowded (t : Z) (l : list Sample) : Prop := sm_maxSamples options <= Z.of_nat (later t l).

(** What is known of time [t] once [v] was taken for it: the sample is there, or
    the time is too old, or enough later samples keep it out. *)
Definition gone (t now : Z) (l : list Sample) : Prop := (t ∉ map sa_observedAt l) ∧ (t < now - sm_windowMs options ∨ crowded t l).
Definition settled (v : num) (t now : Z) (l : list Sample) : Prop := mkSample v t ∈ l ∨ gone t now l.

Lemma prune_crowded t now l : 0 <= sm_maxSamples options -> ordered l -> crowded t l -> gone t now (prune now l).
Proof.
  intros Hmax Ho Hc. unfold crowded in Hc. set (c := now - sm_windowMs options).
  assert (later t l <= length l)%nat as Hg by (unfold later; apply List.filter_length_le).
  assert (forall i s, l !! i = Some s -> (length l <= later t l + i)%nat -> t < sa_observedAt s) as Hafter.
  { intros i s Hi Hk. destruct (Z.lt_ge_cases t (sa_observedAt s)) as [|Hs]; [done|]. pose proof (later_bound t l i s Ho Hi Hs). lia. }
  unfold prune. fold c. set (d := Z.to_nat _).
  assert (Forall (fun s => t < sa_observedAt s) (drop d l)) as Hall.
  { rewrite Forall_lookup. intros i s Hi. rewrite lookup_drop in Hi. apply (Hafter (d + i)%nat); [done|]. unfold d. lia. }
  split; [intros (s & -> & Hs)%list_elem_of_fmap; rewrite Forall_forall in Hall; specialize (Hall s Hs); lia|].
  destruct (decide (countOld c l <= d /\ d = Z.to_nat (Z.of_nat (length l) - sm_maxSamples options))%nat) as [[Hd1 Hd2]|Hd].
  - right. unfold crowded. rewrite later_all by done. rewrite length_drop, Hd2. lia.
  - left. destruct (lookup_lt_is_Some_2 l (length l - later t l)%nat) as [s Hs].
    { pose proof (countOld_length c l). unfold d in Hd. lia. }
    pose proof (Hafter _ s Hs ltac:(lia)). pose proof (countOld_old c l _ s Hs ltac:(unfold d in Hd; lia)). unfold c in *. lia.
Qed.

Lemma prune_old t now l : ordered l -> t < now - sm_windowMs options -> gone t now (prune now l).
Proof.
  intros Ho Ht. split; [|by left]. intros (s & Ht' & [i Hi]%list_elem_of_lookup)%list_elem_of_fmap. subst t. unfold prune in Hi. rewrite lookup_drop in Hi.
  pose proof (countOld_fresh (now - sm_windowMs options) l _ s Ho Hi ltac:(lia)). lia.
Qed.

Lemma prune_settled v t now l : 0 <= sm_maxSamples options -> ordered l -> mkSample v t ∈ l -> settled v t now (prune now l).
Proof.
  intros Hmax Ho [i Hi]%list_elem_of_lookup. set (c := now - sm_windowMs options).
  destruct (decide (i < countOld c l)%nat) as [Hc|Hc]; [right; apply prune_old; [done|]; by apply (countOld_old c l i _ Hi)|].
  destruct (decide (Z.of_nat i < Z.of_nat (length l) - sm_maxSamples options)) as [Hm|Hm].
  - right. apply prune_crowded; [done..|]. unfold crowded.
    assert (length l = later t l + S i)%nat as E; [|lia].
    rewrite <- (take_drop_middle l i _ Hi) at 2. unfold later. rewrite List.filter_app, length_app.
    assert (List.filter (fun x => t <? sa_observedAt x) (take i l) = []) as ->.
    { apply filter_nil_iff. intros x [j Hj]%list_elem_of_lookup. apply lookup_take_Some in Hj as [Hj Hlt]. apply Z.ltb_ge.
      pose proof (ordered_lookup l j i x _ Ho Hj Hi Hlt) as Hx. cbn in Hx. lia. }
    cbn [List.filter sa_observedAt]. rewrite Z.ltb_irrefl. change (0 + ?n)%nat with n.
    change (length (List.filter (fun x => t <? sa_observedAt x) (drop (S i) l))) with (later t (drop (S i) l)). rewrite later_all.
    + rewrite length_drop. apply lookup_lt_Some in Hi. cbn [length]. lia.
    + rewrite Forall_lookup. intros j x Hj. rewrite lookup_drop in Hj. apply (ordered_lookup l i (S i + j)%nat _ _ Ho Hi Hj). lia.
  - left. unfold prune. fold c. apply list_elem_of_lookup. exists (i - Z.to_nat (Z.max (Z.of_nat (countOld c l)) (Z.of_nat (length l) - sm_maxSamples options)))%nat.
    rewrite lookup_drop. replace (_ + _)%nat with i by lia. done.
Qed.

Lemma settled_step v t now now' l v' t' : 0 <= sm_maxSamples options -> now <= now' -> ordered l -> settled v t now l ->
  settled v t now' (ingestWindow now' l v' t').
Proof.
  intros Hmax Hnow Ho Hs. unfold ingestWindow. destruct (existsb _ _) eqn:E.
  { destruct Hs as [Hs|[Hn [Ht|Hc]]]; [by left|right; split; [done|left; lia]|right; split; [done|by right]]. }
  apply existsb_time in E. fold (inserted l v' t'). pose proof (inserted_ordered l v' t' Ho E) as Hio. pose proof (inserted_perm l v' t') as Hp.
  destruct Hs as [Hs|[Hn [Ht|Hc]]].
  - apply prune_settled; [done..|]. rewrite Hp. by right.
  - right. apply prune_old; [done|lia].
  - right. apply prune_crowded; [done..|]. unfold crowded in *. rewrite (later_perm _ _ _ Hp). unfold later in *. cbn [List.filter]. case_match; cbn [length]; lia.
Qed.
End Smoother.

Section SmootherTheorems.
Context (options : SmoothingOptions).

Definition ingests (w : Windows) (history : list (SourceObservation * Z)) : Windows := foldl (fun w on => ingest options w on.1 on.2) w history.

Definition obsKey (o : SourceObservation) : string := keyOf (so_sourceId o) (so_metric o) (so_subject o).

Lemma windowOf_ingest w o now key :
  windowOf (ingest options w o now) key =
    if decide (obsKey o = key) then ingestWindow options now (windowOf w key) (so_value o) (so_observedAt o) else windowOf w key.
Proof.
  unfold ingest. fold (obsKey o). unfold ingestWindow at 2. destruct (decide (obsKey o = key)) as [<- | Hn].
  - destruct (existsb _ _) eqn:E; [done|]. unfold windowOf at 1. rewrite jm_get_set_eq. cbn. unfold ingestWindow. by rewrite E.
  - destruct (existsb _ _); [done|]. unfold windowOf. by rewrite jm_get_set_ne.
Qed.

Lemma ingests_ordered history w key : ordered (windowOf w key) -> ordered (windowOf (ingests w history) key).
Proof.
  revert w. induction history as [|[o now] history IH]; intros w Hw; [done|]. cbn. apply IH. rewrite windowOf_ingest.
  case_decide; [by apply ingestWindow_ordered|done].
Qed.

Lemma ingests_settled history v t key : forall w now, 0 <= sm_maxSamples options -> StronglySorted Z.le (now :: map snd history) ->
  ordered (windowOf w key) -> settled options v t now (windowOf w key) ->
  ∃ now', settled options v t now' (windowOf (ingests w history) key).
Proof.
  induction history as [|[o now'] history IH]; intros w now Hmax Hmono Ho Hs; [by exists now|].
  cbn in Hmono. inversion_clear Hmono as [|? ? Hm' Hall]. apply Forall_cons in Hall as [Hle _]. cbn. apply (IH _ now'); [done|done| |].
  - rewrite windowOf_ingest. case_decide; [by apply ingestWindow_ordered|done].
  - rewrite windowOf_ingest. case_decide; [by apply settled_step with now|].
    destruct Hs as [Hs|[Hn [Ht|Hc]]]; [by left|right; split; [done|left; lia]|right; split; [done|by right]].
Qed.

(** A replay cannot rewrite history.  Under a clock that does not go back,
    once a value is in the window of a source for an upstream time, every later
    window that has a sample for this time has this value, whatever is ingested
    afterwards: conflicting responses for the same time, floods of newer samples
    that push the old one out, or responses that arrive after it expired. *)
Theorem replay_never_overwrites hist1 hist2 key v t s
    (Hmax : 0 <= sm_maxSamples options)
    (Hmono : StronglySorted Z.le (map snd (hist1 ++ hist2)))
    (Hin : mkSample v t ∈ windowOf (ingests [] hist1) key)
    (Hs : s ∈ windowOf (ingests [] (hist1 ++ hist2)) key) (Ht : sa_observedAt s = t) :
  sa_value s = v.
Proof.
  assert (ordered (windowOf (ingests [] hist1) key)) as Ho by (apply ingests_ordered; constructor).
  assert (ingests [] (hist1 ++ hist2) = ingests (ingests [] hist1) hist2) as E by (unfold ingests; apply foldl_app). rewrite E in Hs.
  assert (∃ now, StronglySorted Z.le (now :: map snd hist2)) as [now Hnow].
  { rewrite map_app in Hmono. revert Hmono. clear. intros Hmono. induction (map snd hist1) as [|n l IH]; cbn in Hmono.
    - destruct (map snd hist2) as [|n l]; [exists 0; repeat constructor|]. exists n. constructor; [done|]. inversion_clear Hmono.
      constructor; [lia|done].
    - inversion_clear Hmono. by apply IH. }
  destruct (ingests_settled hist2 v t key _ now Hmax Hnow Ho (or_introl Hin)) as [now' [Hv|[Hn _]]].
  - pose proof (ingests_ordered hist2 _ key Ho) as Ho2. apply ordered_NoDup in Ho2.
    pose proof (NoDup_map_inj sa_observedAt _ s (mkSample v t) Ho2 Hs Hv Ht) as ->. done.
  - exfalso. apply Hn. subst t. by apply list_elem_of_fmap_2.
Qed.

(** The values of the window behind a smoothed value. *)
Definition windowValues (w : Windows) (o : SourceObservation) (now1 now2 : Z) : list num :=
  map sa_value (prune options now2 (windowOf (ingest options w o now1) (obsKey o))).

(** C37: A minority of samples cannot move a source.  A smoothed value is given only
    once the window has the configured number of samples and span.  If every value of
    the window is finite and fewer than half of them lie outside an interval, the
    smoothed value lies inside it, for an odd and for an even number of samples; the
    one exception is an even number whose two middle samples, both inside, have a sum
    that overflows, when the value is not finite ([even_window_overflows]). *)
Theorem minority_cannot_move_source w o now1 now2 v lo hi
    (Hv : sv_value (smooth options w o now1 now2).2 = Some v)
    (Hfin : finites (windowValues w o now1 now2)) (Hlo : isFinite lo = true) (Hhi : isFinite hi = true)
    (Hmin : (2 * misses (between lo hi) (windowValues w o now1 now2) < length (windowValues w o now1 now2))%nat) :
  (sm_minSamples options <= Z.of_nat (length (windowValues w o now1 now2))) ∧
  (sm_minSpanMs options <= sv_spanMs (smooth options w o now1 now2).2) ∧
  (between lo hi v = true ∨
   isFinite v = false ∧ Nat.even (length (windowValues w o now1 now2)) = true ∧
     ∃ a b, v = ((a + b) / 2)%float ∧ between lo hi a = true ∧ between lo hi b = true).
Proof.
  unfold smooth in *. fold (obsKey o) in *. cbn [snd] in *. unfold windowValues in *. set (win := prune options now2 _) in *.
  unfold smoothWindow in Hv |- *. rewrite length_map in *. destruct (_ <? sm_minSamples options) eqn:E1; [done|]. destruct (_ <? sm_minSpanMs options) eqn:E2; [done|].
  apply Z.ltb_ge in E1, E2. split_and!; [done|done|]. cbn [sv_value] in Hv. injection Hv as <-. unfold median.
  set (vals := map sa_value win) in *. assert (length vals = length win) as Hl by apply length_map.
  rewrite <- Hl in Hmin. rewrite sort_by_length.
  assert (0 < length vals)%nat as Hpos by lia.
  assert (forall i, (i = length vals / 2 ∨ i = (length vals - 1) / 2)%nat -> between lo hi (default nan (sort_by ascending vals !! i)) = true) as Hmid.
  { intros i Hi. destruct (lookup_lt_is_Some_2 (sort_by ascending vals) i) as [x Hx].
    - rewrite sort_by_length. pose proof (Nat.div_mod_eq (length vals) 2). pose proof (Nat.div_mod_eq (length vals - 1) 2).
      pose proof (Nat.mod_upper_bound (length vals) 2). destruct Hi; lia.
    - rewrite Hx. cbn. eapply middle_bracketed with (i := i); [done|by apply isFinite_notNaN..|done|done|done]. }
  assert (forall i, (i < length vals)%nat -> isFinite (default nan (sort_by ascending vals !! i)) = true) as Hfins.
  { intros i Hi. destruct (lookup_lt_is_Some_2 (sort_by ascending vals) i) as [x Hx]; [by rewrite sort_by_length|]. rewrite Hx. cbn.
    unfold finites in Hfin. rewrite Forall_forall in Hfin. apply Hfin. apply list_elem_of_lookup_2 in Hx. by apply elem_of_sort_by in Hx. }
  rewrite <- Nat.negb_even in *. destruct (Nat.even (length vals)) eqn:Eo; cbn [negb]; [|left; apply Hmid; by left].
  apply Nat.even_spec in Eo as [k Hk]. assert (length vals / 2 = k)%nat as Ek by (rewrite Hk, Nat.mul_comm, Nat.div_mul by lia; done).
  assert (k - 1 = (length vals - 1) / 2)%nat as Ek1 by (rewrite Hk; apply (Nat.div_unique _ 2 (k - 1) 1); lia). rewrite Ek.
  set (a := default nan (_ !! (k - 1)%nat)). set (b := default nan (_ !! k)).
  assert (between lo hi a = true ∧ between lo hi b = true) as [Ha Hb] by (split; apply Hmid; [by right|by left]).
  destruct (isFinite ((a + b) / 2)%float) eqn:Ef; [left; apply mean_between; try done; apply Hfins; lia|right]. split_and!; [done|apply Nat.even_spec; exists k; lia|]. by exists a, b.
Qed.
End SmootherTheorems.

Definition demoObs (v : num) (t : Z) : SourceObservation := mkObservation "coingecko" Live UsdcPrice None v t t true demoEvidence [].
Definition demoSmoothing : SmoothingOptions := mkSmoothing 1000 3 10 3.

Lemma replay_never_overwrites_witness :
  ∀ s, s ∈ windowOf (ingests demoSmoothing [] ([(demoObs 1 100, 110)] ++ [(demoObs 2 100, 120); (demoObs 3 105, 121)])) (obsKey (demoObs 1 100)) ->
  sa_observedAt s = 100 -> sa_value s = 1%float.
Proof.
  intros s Hs Ht. eapply (replay_never_overwrites demoSmoothing _ _ _ 1%float 100 s); [done| | |exact Hs|exact Ht].
  - cbn. repeat constructor; lia.
  - vm_compute. left.
Defined.

Definition demoWindow : Windows := ingests demoSmoothing [] [(demoObs 1 100, 110); (demoObs 1000 105, 112)].
(** Three samples, one of them an outlier; and four samples with one outlier. *)
Definition demoEven : SmoothingOptions := mkSmoothing 1000 3 10 4.
Definition demoEvenWindow : Windows := ingests demoEven [] [(demoObs 1 100, 110); (demoObs 1000 105, 112); (demoObs 1.25 108, 112)].
Lemma minority_cannot_move_source_witness :
  sv_value (smooth demoSmoothing demoWindow (demoObs 1.25 111) 113 113).2 = Some 1.25%float ∧ between 1 1.5 1.25 = true ∧
  sv_value (smooth demoEven demoEvenWindow (demoObs 1.5 111) 113 113).2 = Some 1.375%float ∧ between 1 1.5 1.375 = true.
Proof.
  assert (sv_value (smooth demoSmoothing demoWindow (demoObs 1.25 111) 113 113).2 = Some 1.25%float) as Ho by (vm_compute; reflexivity).
  assert (sv_value (smooth demoEven demoEvenWindow (demoObs 1.5 111) 113 113).2 = Some 1.375%float) as He by (vm_compute; reflexivity).
  split; [exact Ho|]. split; [|split; [exact He|]].
  - destruct (minority_cannot_move_source demoSmoothing demoWindow (demoObs 1.25 111) 113 113 1.25 1 1.5 Ho) as (_ & _ & [Hb|[Hn _]]);
      [repeat constructor|reflexivity|reflexivity|apply Nat.ltb_lt; vm_compute; reflexivity|exact Hb|vm_compute in Hn; discriminate Hn].
  - destruct (minority_cannot_move_source demoEven demoEvenWindow (demoObs 1.5 111) 113 113 1.375 1 1.5 He) as (_ & _ & [Hb|[Hn _]]);
      [repeat constructor|reflexivity|reflexivity|apply Nat.ltb_lt; vm_compute; reflexivity|exact Hb|vm_compute in Hn; discriminate Hn].
Defined.

(** The median of the smoother has no guard against an overflowing sum, which the one of
    the consensus has: two samples of 2^1023 smooth to infinity. *)
#[local] Existing Instance demoHost.
Example even_window_overflows :
  sv_value (smooth (mkSmoothing 1000 2 10 4) (ingests (mkSmoothing 1000 2 10 4) [] [(demoObs 0x1p1023 100, 110)]) (demoObs 0x1p1023 111) 113 113).2 = Some infinity ∧
  Consensus.median [0x1p1023; 0x1p1023]%float = Ok 0x1p1023%float.
Proof. split; vm_compute; reflexivity. Qed.

(** * Deduplication of readings *)

Record RawWindowReading := mkRawReading {
  rw_sourceId : string; rw_canonicalWindowTs : Z; rw_payloadHash : string; rw_normalizedValue : num; rw_receivedAtMs : Z }.

Inductive DeduplicationReason := AcceptedFirstSourceVote | DuplicateSameSourceWindow | ConflictingSameSourceWindow.
Definition dedupReasonText (r : DeduplicationReason) : string :=
  match r with
  | AcceptedFirstSourceVote => "accepted_first_source_vote" | DuplicateSameSourceWindow => "duplicate_same_source_window"
  | ConflictingSameSourceWindow => "conflicting_same_source_window"
  end.

Record DeduplicationEvidence := mkDedupEvidence {
  de_sourceId : string; de_canonicalWindowTs : Z; de_payloadHash : string; de_reason : DeduplicationReason; de_contributedVote : bool }.
Record DeduplicationResult := mkDedupResult {
  dr_deduplicatedReadings : list RawWindowReading; dr_collapsedDuplicateCount : Z; dr_conflictingSources : list string;
  dr_evidence : list DeduplicationEvidence }.

Definition MAX_SAFE_INTEGER : Z := 2 ^ 53 - 1.

Definition canonicalizeObservationTime (observedAtMs resolutionMs : Z) : res string Z :=
  if (MAX_SAFE_INTEGER <? Z.abs observedAtMs) || (observedAtMs <? 0) then Err "observedAtMs must be a non-negative safe integer"%string
  else if (MAX_SAFE_INTEGER <? Z.abs resolutionMs) || (resolutionMs <? 1) then Err "resolutionMs must be a positive safe integer"%string
  else Ok (observedAtMs / resolutionMs * resolutionMs).

(** [/^[a-f0-9]{64}$/i]. *)
Definition hexDigitAnyCase (c : Ascii.ascii) : bool :=
  let n := Z.of_N (Ascii.N_of_ascii c) in
  ((48 <=? n) && (n <=? 57)) || ((97 <=? n) && (n <=? 102)) || ((65 <=? n) && (n <=? 70)).
Definition sha256Shape (s : string) : bool :=
  Nat.eqb (String.length s) 64 && forallb hexDigitAnyCase (String.list_ascii_of_string s).

Section Dedup.
Context `{JsHost}.
(** The trimmed string is empty. *)
Definition blank (s : string) : bool := match trim (String.list_ascii_of_string s) with [] => true | _ => false end.

Definition checkReading (r : RawWindowReading) : res string unit :=
  if blank (rw_sourceId r) then Err "sourceId is required"%string
  else if negb (isFinite (rw_normalizedValue r)) then Err "normalizedValue must be finite"%string
  else if (MAX_SAFE_INTEGER <? Z.abs (rw_canonicalWindowTs r)) || (rw_canonicalWindowTs r <? 0)
  then Err "canonicalWindowTs must be a non-negative safe integer"%string
  else if negb (sha256Shape (rw_payloadHash r)) then Err "payloadHash must be a SHA-256 hex digest"%string
  else Ok tt.

(** Readings by source and window, in order of arrival. *)
Definition BySourceAndWindow := list (string * list (Z * list RawWindowReading)).
Definition addReading (m : BySourceAndWindow) (r : RawWindowReading) : BySourceAndWindow :=
  let sourceWindows := default [] (jm_get m (rw_sourceId r)) in
  let windowReadings := default [] (jm_get sourceWindows (rw_canonicalWindowTs r)) in
  jm_set m (rw_sourceId r) (jm_set sourceWindows (rw_canonicalWindowTs r) (windowReadings ++ [r])).

Fixpoint groupReadings (m : BySourceAndWindow) (readings : list RawWindowReading) : res string BySourceAndWindow :=
  match readings with
  | [] => Ok m
  | r :: rest => _ ← checkReading r; groupReadings (addReading m r) rest
  end.

Definition differs (primary r : RawWindowReading) : bool :=
  negb (bool_decide (rw_payloadHash r = rw_payloadHash primary)) || negb (neq (rw_normalizedValue r) (rw_normalizedValue primary)).

Definition evidenceOf (sourceId : string) (ts : Z) (reason : DeduplicationReason) (vote : bool) (r : RawWindowReading) : DeduplicationEvidence :=
  mkDedupEvidence sourceId ts (rw_payloadHash r) reason vote.

(** One group: the vote if there is one, and the evidence of every reading. *)
Definition judgeGroup (sourceId : string) (ts : Z) (group : list RawWindowReading) : option RawWindowReading * list DeduplicationEvidence :=
  match sort_by (fun a b => rw_receivedAtMs a <=? rw_receivedAtMs b) group with
  | [] => (None, [])
  | primary :: others =>
      if existsb (differs primary) (primary :: others)
      then (None, map (evidenceOf sourceId ts ConflictingSameSourceWindow false) (primary :: others))
      else (Some primary, evidenceOf sourceId ts AcceptedFirstSourceVote true primary
              :: map (evidenceOf sourceId ts DuplicateSameSourceWindow false) others)
  end.

(** The groups in the order the two maps are walked. *)
Definition groupsOf (m : BySourceAndWindow) : list (string * Z * list RawWindowReading) :=
  flat_map (fun sw => map (fun tg => (sw.1, tg.1, tg.2)) sw.2) m.

Definition cmpThen (lt eq : bool) (next : bool) : bool := lt || (eq && next).
Definition localeEq (a b : string) : bool := localeLe a b && localeLe b a.
Definition readingLe (a b : RawWindowReading) : bool :=
  cmpThen (rw_canonicalWindowTs a <? rw_canonicalWindowTs b) (rw_canonicalWindowTs a =? rw_canonicalWindowTs b) (localeLe (rw_sourceId a) (rw_sourceId b)).
Definition evidenceLe (a b : DeduplicationEvidence) : bool :=
  cmpThen (de_canonicalWindowTs a <? de_canonicalWindowTs b) (de_canonicalWindowTs a =? de_canonicalWindowTs b)
    (cmpThen (negb (localeLe (de_sourceId b) (de_sourceId a))) (localeEq (de_sourceId a) (de_sourceId b))
      (cmpThen (negb (localeLe (de_payloadHash b) (de_payloadHash a))) (localeEq (de_payloadHash a) (de_payloadHash b))
        (localeLe (dedupReasonText (de_reason a)) (dedupReasonText (de_reason b))))).

Definition judged (m : BySourceAndWindow) : list (string * (option RawWindowReading * list DeduplicationEvidence)) :=
  map (fun g => (g.1.1, judgeGroup g.1.1 g.1.2 g.2)) (groupsOf m).

Definition isDuplicate (e : DeduplicationEvidence) : bool := match de_reason e with DuplicateSameSourceWindow => true | _ => false end.

Definition deduplicateWindowReadings (readings : list RawWindowReading) : res string DeduplicationResult :=
  m ← groupReadings [] readings;
  let js := judged m in
  let evidence := flat_map (fun j => j.2.2) js in
  Ok (mkDedupResult
        (sort_by readingLe (omap (fun j => j.2.1) js))
        (Z.of_nat (length (List.filter isDuplicate evidence)))
        (sort_strings (setOf (map fst (List.filter (fun j => match j.2.1 with None => true | Some _ => false end) js))))
        (sort_by evidenceLe evidence)).
End Dedup.

(** ** One vote per source and window *)
Section DedupFacts.
Context `{JsHost}.

Definition slot (r : RawWindowReading) : string * Z := (rw_sourceId r, rw_canonicalWindowTs r).
Definition groupOf (m : BySourceAndWindow) (s : string) (t : Z) : list RawWindowReading := default [] (jm_get (default [] (jm_get m s)) t).

(** The map is well formed and holds, per slot, the readings of the slot. *)
Definition grouped (readings : list RawWindowReading) (m : BySourceAndWindow) : Prop :=
  NoDup (jm_keys m) ∧ (forall s ws, jm_get m s = Some ws -> NoDup (jm_keys ws)) ∧
  (forall s t, groupOf m s t = filter (fun r => slot r = (s, t)) readings) ∧
  (forall s ws t g, jm_get m s = Some ws -> jm_get ws t = Some g -> g ≠ []).

Lemma grouped_add readings m r : grouped readings m -> grouped (readings ++ [r]) (addReading m r).
Proof.
  intros (H1 & H2 & H3 & H4). unfold addReading. set (sw := default [] (jm_get m (rw_sourceId r))).
  assert (NoDup (jm_keys sw)) as Hsw by (unfold sw; destruct (jm_get m (rw_sourceId r)) eqn:E; [by eapply H2|apply NoDup_nil_2]).
  split_and!.
  - by apply jm_set_NoDup.
  - intros s ws. rewrite jm_get_set. case_decide; [|apply H2]. intros [= <-]. by apply jm_set_NoDup.
  - intros s t. unfold groupOf. rewrite filter_app, <- H3, filter_cons, filter_nil. unfold groupOf. rewrite jm_get_set.
    destruct (decide (rw_sourceId r = s)) as [<- |Hs]; cbn.
    + fold sw. rewrite jm_get_set. destruct (decide (rw_canonicalWindowTs r = t)) as [<- |Ht]; cbn.
      * by rewrite decide_True.
      * rewrite decide_False by (unfold slot; congruence). by rewrite app_nil_r.
    + rewrite decide_False by (unfold slot; congruence). by rewrite app_nil_r.
  - intros s ws t g. rewrite jm_get_set. case_decide as Hs; [|apply H4]. intros [= <-]. rewrite jm_get_set. case_decide as Ht.
    + intros [= <-] Hn%app_eq_nil. by destruct Hn.
    + unfold sw. subst s. destruct (jm_get m (rw_sourceId r)) eqn:E; [by eapply H4|done].
Qed.

Lemma groupReadings_grouped readings : forall done_ m m', grouped done_ m -> groupReadings m readings = Ok m' -> grouped (done_ ++ readings) m'.
Proof.
  induction readings as [|r rest IH]; intros done_ m m' Hg Hr; cbn in Hr; [injection Hr as <-; by rewrite app_nil_r|].
  apply res_bind_Ok in Hr as ([] & _ & Hr). eapply IH in Hr; [|by apply grouped_add]. by rewrite <- app_assoc in Hr.
Qed.

Lemma elem_of_groupsOf readings m s t g : grouped readings m -> (s, t, g) ∈ groupsOf m <-> g = groupOf m s t ∧ g ≠ [].
Proof.
  intros (H1 & H2 & _ & H4). unfold groupsOf. rewrite list_elem_of_In, in_flat_map. split.
  - intros ([s' ws] & Hin%list_elem_of_In & Hg). cbn in Hg. apply in_map_iff in Hg as ([t' g'] & [= -> -> ->] & Ht%list_elem_of_In).
    apply jm_in_get in Hin; [|done]. apply jm_in_get in Ht; [|by eapply H2]. split; [|by eapply H4]. unfold groupOf. rewrite Hin. cbn. by rewrite Ht.
  - intros [-> Hn]. unfold groupOf in *. destruct (jm_get m s) as [ws|] eqn:Es; [|done]. cbn in *. destruct (jm_get ws t) as [g|] eqn:Et; [|done]. cbn in *.
    exists (s, ws). split; [by apply list_elem_of_In, jm_get_Some_in|]. cbn. apply in_map_iff. exists (t, g). split; [done|by apply list_elem_of_In, jm_get_Some_in].
Qed.

Lemma groupsOf_NoDup m : NoDup (jm_keys m) -> (forall s ws, (s, ws) ∈ m -> NoDup (jm_keys ws)) -> NoDup (map fst (groupsOf m)).
Proof.
  induction m as [|[s ws] m IH]; intros Hk Hw; [apply NoDup_nil_2|]. cbn in Hk. apply NoDup_cons in Hk as [Hs Hk].
  unfold groupsOf. cbn [flat_map]. rewrite map_app, map_map. cbn. apply NoDup_app. split_and!.
  - pose proof (Hw s ws (list_elem_of_here _ _)) as Hws. clear -Hws. unfold jm_keys in Hws. induction ws as [|[t g] ws IH]; cbn in *; [constructor|].
    apply NoDup_cons in Hws as [Ht Hws]. apply NoDup_cons. split; [|by apply IH].
    intros ([t' g'] & [= ->] & Hin)%list_elem_of_fmap. apply Ht. apply list_elem_of_fmap. by exists (t', g').
  - intros [s' t] ([t' g'] & [= -> ->] & _)%list_elem_of_fmap Hin2. apply list_elem_of_fmap in Hin2 as ([[s2 t2] g2] & [= <- <-] & Hin2).
    apply list_elem_of_In, in_flat_map in Hin2 as ([s3 ws3] & Hin3 & Hin4). apply in_map_iff in Hin4 as (? & [= <- _ _] & _).
    apply Hs. apply list_elem_of_fmap. exists (s3, ws3). split; [done|by apply list_elem_of_In].
  - apply IH; [done|]. intros s' ws' Hin. eapply Hw. by right.
Qed.

(** Replacing the entry of a key in a map of lists replaces its part of the whole. *)
Lemma flat_set {K V B} `{EqDecision K} (f : V -> list B) (d : V) (m : list (K * V)) k v : f d = [] ->
  flat_map (fun kv => f kv.2) (jm_set m k v) ++ f (default d (jm_get m k)) ≡ₚ flat_map (fun kv => f kv.2) m ++ f v.
Proof.
  intros Hd. induction m as [|[k' v'] m IH]; cbn; [by rewrite Hd, !app_nil_r|]. case_decide; cbn.
  - rewrite (Permutation_app_comm (f v ++ _)), <- app_assoc. apply Permutation_app_head, Permutation_app_comm.
  - by rewrite <- !app_assoc, IH.
Qed.

Definition allReadings (m : BySourceAndWindow) : list RawWindowReading := flat_map (fun sw => flat_map snd sw.2) m.

Lemma allReadings_groups m : allReadings m = flat_map snd (groupsOf m).
Proof.
  unfold allReadings, groupsOf. induction m as [|[s ws] m IH]; [done|]. cbn [flat_map]. rewrite flat_map_app, <- IH. f_equal. cbn.
  clear IH. induction ws as [|[t g] ws IH]; [done|]. cbn. by rewrite IH.
Qed.

Lemma allReadings_add m r : allReadings (addReading m r) ≡ₚ r :: allReadings m.
Proof.
  unfold allReadings, addReading. set (sw := default [] (jm_get m (rw_sourceId r))). set (g := default [] (jm_get sw (rw_canonicalWindowTs r))).
  pose proof (flat_set (fun ws : list (Z * list RawWindowReading) => flat_map snd ws) [] m (rw_sourceId r) (jm_set sw (rw_canonicalWindowTs r) (g ++ [r])) eq_refl) as Ho.
  fold sw in Ho. pose proof (flat_set (fun x : list RawWindowReading => x) [] sw (rw_canonicalWindowTs r) (g ++ [r]) eq_refl) as Hi. fold g in Hi.
  apply (Permutation_app_inv_r (flat_map snd sw)). rewrite Ho. cbn. apply (Permutation_app_inv_r g).
  change (flat_map (fun kv : Z * list RawWindowReading => kv.2)) with (flat_map (@snd Z (list RawWindowReading))) in Hi.
  rewrite <- app_assoc, Hi. etransitivity; [|symmetry; apply Permutation_cons_append]. by rewrite <- !app_assoc.
Qed.

Lemma groupReadings_all readings : forall m m', groupReadings m readings = Ok m' -> allReadings m' ≡ₚ allReadings m ++ readings.
Proof.
  induction readings as [|r rest IH]; intros m m' Hr; cbn in Hr; [injection Hr as <-; by rewrite app_nil_r|].
  apply res_bind_Ok in Hr as ([] & _ & Hr). rewrite (IH _ _ Hr), allReadings_add. apply Permutation_middle.
Qed.

Lemma judgeGroup_spec s t g : g ≠ [] ->
  length (judgeGroup s t g).2 = length g ∧
  match (judgeGroup s t g).1 with Some p => p ∈ g ∧ forall x, x ∈ g -> differs p x = false | None => True end.
Proof.
  intros Hg. unfold judgeGroup. set (le := fun a b : RawWindowReading => _). pose proof (sort_by_perm le g) as Hp. destruct (sort_by le g) as [|p others].
  { apply Permutation_nil_l in Hp. congruence. }
  rewrite <- (Permutation_length Hp). destruct (existsb _ _) eqn:E; cbn; rewrite length_map; [done|]. split; [done|].
  split; [rewrite <- Hp; left|]. intros x Hx. rewrite <- Hp in Hx. destruct (differs p x) eqn:Ed; [|done].
  assert (existsb (differs p) (p :: others) = true) by (apply existsb_exists; exists x; split; [by apply list_elem_of_In|done]). congruence.
Qed.

Lemma flat_map_length_ext {A B C} (f : A -> list B) (g : A -> list C) l : (forall x, x ∈ l -> length (f x) = length (g x)) -> length (flat_map f l) = length (flat_map g l).
Proof. induction l as [|x l IH]; intros Hx; [done|]. cbn. rewrite !length_app, (Hx x), IH; [done|set_solver..]. Qed.

(** One vote per source and window.  When the readings are accepted, at most
    one reading of a source in a window votes, it is one of the readings, and every
    reading of that source in that window agrees with it in payload and value; every
    reading is represented by a vote or belongs to a source reported as conflicting;
    and every reading has its evidence. *)
Theorem one_vote_per_source_window readings r (Hr : deduplicateWindowReadings readings = Ok r) :
  NoDup (map slot (dr_deduplicatedReadings r)) ∧
  (∀ v, v ∈ dr_deduplicatedReadings r -> v ∈ readings ∧
     ∀ x, x ∈ readings -> slot x = slot v -> rw_payloadHash x = rw_payloadHash v ∧ neq (rw_normalizedValue x) (rw_normalizedValue v) = true) ∧
  (∀ x, x ∈ readings -> (∃ v, v ∈ dr_deduplicatedReadings r ∧ slot v = slot x) ∨ rw_sourceId x ∈ dr_conflictingSources r) ∧
  length (dr_evidence r) = length readings.
Proof.
  unfold deduplicateWindowReadings in Hr. apply res_bind_Ok in Hr as (m & Hm & [= <-]). cbn.
  assert (grouped [] []) as Hg0 by (split_and!; [apply NoDup_nil_2|done..]).
  pose proof (groupReadings_grouped readings [] [] m Hg0 Hm) as Hg. cbn in Hg. pose proof (groupReadings_all readings [] m Hm) as Hall. cbn in Hall.
  assert (forall s t g, (s, t, g) ∈ groupsOf m -> g ≠ [] ∧ forall x, x ∈ g <-> x ∈ readings ∧ slot x = (s, t)) as Hgr.
  { intros s t g [-> Hn]%(elem_of_groupsOf readings); [|done]. split; [done|]. intros x. destruct Hg as (_ & _ & H3 & _). rewrite H3, list_elem_of_filter. tauto. }
  assert (forall v, v ∈ omap (fun j => j.2.1) (judged m) <-> ∃ s t g, (s, t, g) ∈ groupsOf m ∧ (judgeGroup s t g).1 = Some v) as Hv.
  { intros v. rewrite list_elem_of_omap. unfold judged. split.
    - intros (j & ([[s t] g] & -> & Hin)%list_elem_of_fmap & Hj). eauto.
    - intros (s & t & g & Hin & Hj). exists (s, judgeGroup s t g). split; [apply list_elem_of_fmap; by exists (s, t, g)|done]. }
  assert (forall s t g v, (s, t, g) ∈ groupsOf m -> (judgeGroup s t g).1 = Some v -> slot v = (s, t)) as Hsl.
  { intros s t g v Hin Hj. destruct (Hgr s t g Hin) as [Hn Hx]. destruct (judgeGroup_spec s t g Hn) as [_ Hs]. rewrite Hj in Hs. destruct Hs as [Hs _]. by apply Hx in Hs as [_ ?]. }
  split_and!.
  - change (NoDup (slot <$> sort_by readingLe (omap (fun j => j.2.1) (judged m)))). rewrite sort_by_perm.
    assert (NoDup (map fst (groupsOf m))) as Hnd.
    { destruct Hg as (H1 & H2 & _). apply groupsOf_NoDup; [done|]. intros s ws Hin%jm_in_get; [|done]. by eapply H2. }
    unfold judged. clear Hv Hall Hgr. revert Hnd Hsl. induction (groupsOf m) as [|[[s t] g] gs IH]; intros Hnd Hsl; [constructor|].
    cbn in Hnd. apply NoDup_cons in Hnd as [Hin Hnd]. cbn [map omap list_omap]. cbn [fst snd].
    assert (NoDup (slot <$> omap (fun j => j.2.1) (map (fun g0 => (g0.1.1, judgeGroup g0.1.1 g0.1.2 g0.2)) gs))) as IH' by (apply IH; [done|intros; eapply Hsl; [by right|done]]).
    destruct (judgeGroup s t g).1 as [v|] eqn:Ej; [|done]. cbn. apply NoDup_cons. split; [|done].
    rewrite (Hsl s t g v (list_elem_of_here _ _) Ej). intros (v' & Hv' & Hin')%list_elem_of_fmap.
    apply list_elem_of_omap in Hin' as (j & ([[s' t'] g'] & -> & Hin')%list_elem_of_fmap & Hj'). cbn in Hj'.
    rewrite (Hsl s' t' g' v') in Hv'; [|by right|done]. injection Hv' as -> ->. apply Hin. apply list_elem_of_fmap. by exists (s', t', g').
  - intros v Hin. rewrite elem_of_sort_by, Hv in Hin. destruct Hin as (s & t & g & Hin & Hj). destruct (Hgr s t g Hin) as [Hn Hx].
    destruct (judgeGroup_spec s t g Hn) as [_ Hs]. rewrite Hj in Hs. destruct Hs as [Hvg Hag]. split; [by apply Hx|].
    intros x Hxr Hsx. rewrite (Hsl s t g v Hin Hj) in Hsx. assert (x ∈ g) as Hxg by (by apply Hx). apply Hag in Hxg. unfold differs in Hxg.
    apply orb_false_iff in Hxg as [E1%negb_false_iff%bool_decide_eq_true E2%negb_false_iff]. done.
  - intros x Hx. assert ((rw_sourceId x, rw_canonicalWindowTs x, groupOf m (rw_sourceId x) (rw_canonicalWindowTs x)) ∈ groupsOf m) as Hin.
    { apply (elem_of_groupsOf readings); [done|]. split; [done|]. destruct Hg as (_ & _ & H3 & _). rewrite H3. intros Hn.
      assert (x ∈ filter (fun r => slot r = (rw_sourceId x, rw_canonicalWindowTs x)) readings) as Hf by (by apply list_elem_of_filter). rewrite Hn in Hf. by apply not_elem_of_nil in Hf. }
    destruct (judgeGroup (rw_sourceId x) (rw_canonicalWindowTs x) (groupOf m (rw_sourceId x) (rw_canonicalWindowTs x))).1 as [v|] eqn:Ej.
    + left. exists v. split; [rewrite elem_of_sort_by, Hv; eauto 10|]. by rewrite (Hsl _ _ _ _ Hin Ej).
    + right. rewrite elem_of_sort_strings, elem_of_setOf. apply list_elem_of_fmap. eexists (_, _). split; [|apply list_elem_of_In, filter_In; split;
        [apply in_map_iff; eexists (_, _, _); split; [done|by apply list_elem_of_In]|]]; cbn; [done|]. by rewrite Ej.
  - rewrite sort_by_length. unfold judged. rewrite flat_map_concat_map, map_map, <- flat_map_concat_map. cbn.
    rewrite <- (Permutation_length Hall), allReadings_groups. apply flat_map_length_ext. intros [[s t] g] Hin. cbn.
    destruct (Hgr s t g Hin) as [Hn _]. apply (judgeGroup_spec s t g Hn).
Qed.
End DedupFacts.

Definition demoHash : string := String.string_of_list_ascii (replicate 64 c_zero).
Definition demoReadings : list RawWindowReading :=
  [mkRawReading "a" 60000 demoHash 1 61000; mkRawReading "a" 60000 demoHash 1 60500;
   mkRawReading "b" 60000 demoHash 1 60700; mkRawReading "b" 60000 demoHash 2 60800].

Lemma one_vote_per_source_window_witness :
  ∃ r, @deduplicateWindowReadings demoHost demoReadings = Ok r ∧ map rw_receivedAtMs (dr_deduplicatedReadings r) = [60500] ∧
    dr_conflictingSources r = ["b"%string] ∧ length (dr_evidence r) = 4%nat.
Proof.
  eexists. split; [vm_compute; reflexivity|]. split_and!; [vm_compute; reflexivity..|].
  apply (@one_vote_per_source_window demoHost demoReadings _ ltac:(vm_compute; reflexivity)).
Defined.
