(* ===== verification/DirectPublisher.v ===== *)
(** Trust in feeds and the direct publication path
    (src/config/oracle-feed.config.ts, src/oracle/oracle-trust.service.ts,
    src/oracle/oracle-publisher.service.ts): what is known of each feed, whether a
    coverage type is available, and the publication of a reading on chain.

    [maybePublish] awaits [publish] between claiming the coverage type and recording
    the outcome.  [beginPublish] is the part before the await, [finishPublish] the
    part after it.  [publish] is the sequence of RPC calls under the latency budget;
    its clock readings are given by [clk] in program order. *)

From stdpp Require Import base list strings sorting sets relations.
From Stdlib Require Import ZArith Lia Floats.
From S2P Require Import Prelude Decimal JsNum Canonical Encoding Confirmation.

#[local] Open Scope Z_scope.

(** * Feeds *)

Inductive SourceType := Http | MockSource.
Record OracleFeedConfiguration := mkFeedConfiguration { fc_latencyBudgetMs : Z; fc_requiredQuorum : Z; fc_unit : string; fc_sourceType : SourceType }.

Definition ORACLE_FEEDS : list (string * OracleFeedConfiguration) :=
  [("coingecko-usdc", mkFeedConfiguration 30000 1 "USD" Http);
   ("coingecko-stellar", mkFeedConfiguration 30000 1 "percent_change_24h" Http);
   ("defillama-aave", mkFeedConfiguration 45000 1 "percent_change_24h" Http);
   ("nexus-liquidations", mkFeedConfiguration 10000 1 "collateral_ratio" MockSource);
   ("aviationstack", mkFeedConfiguration 10000 1 "minutes" MockSource)]%string.

Definition COVERAGE_REQUIRED_FEEDS : list (string * list string) :=
  [("StablecoinDepeg", ["coingecko-usdc"]); ("MarketCrash", ["coingecko-stellar"]); ("LiquidationShield", ["nexus-liquidations"]);
   ("SmartContractRisk", ["defillama-aave"]); ("FlightDelay", ["aviationstack"])]%string.

(** Overrides given by the configuration, then by the environment as parsed JSON
    ([Err] when it does not parse); a value that is not a positive integer throws. *)
Definition feedLatencyBudgetMs (feedId : string) (configured : list (string * num)) (environment : option (res string (list (string * num)))) : res string Z :=
  let check v :=
    match floor_to_Z v with
    | Some z => if neq v (num_of_Z z) && (0 <? z) then Ok z else Err ("Latency budget for " +:+ feedId +:+ " must be a positive integer")
    | None => Err ("Latency budget for " +:+ feedId +:+ " must be a positive integer")
    end in
  let builtIn := Ok (match jm_get ORACLE_FEEDS feedId with Some c => fc_latencyBudgetMs c | None => 30000 end) in
  match jm_get configured feedId with
  | Some v => check v
  | None =>
      match environment with
      | None => builtIn
      | Some (Err _) => Err "ORACLE_FEED_LATENCY_BUDGETS_MS must be a JSON object of feed IDs to positive integer milliseconds"
      | Some (Ok budgets) => match jm_get budgets feedId with Some v => check v | None => builtIn end
      end
  end.

(** * Trust *)

Record FeedTrustStatus := mkStatus {
  fs_feedId : string; fs_healthy : bool; fs_confirmed : bool; fs_quorumRequired : Z; fs_quorumAvailable : Z;
  fs_observedAt : option Z; fs_confirmedAt : option Z; fs_reason : option string }.
Record CoverageAvailability := mkAvailability { av_available : bool; av_requiredFeeds : list string; av_unavailableFeeds : list string; av_reason : option string }.
Record Trust := mkTrust { tr_feedStatuses : list (string * FeedTrustStatus); tr_publisherConfigured : bool }.

Definition setPublisherConfigured (t : Trust) (configured : bool) : Trust := mkTrust (tr_feedStatuses t) configured.

Definition recordObservation (t : Trust) (feedId : string) (healthy : bool) (reason : option string) (observedAt : Z) : res string Trust :=
  match jm_get ORACLE_FEEDS feedId with
  | None => Err ("No oracle feed configuration exists for " +:+ feedId)
  | Some configuration =>
      Ok (mkTrust (jm_set (tr_feedStatuses t) feedId
            (mkStatus feedId healthy false (fc_requiredQuorum configuration) (if healthy then 1 else 0) (Some observedAt) None
               (if healthy then None else Some (default "source is unreachable or payload was rejected"%string reason))))
            (tr_publisherConfigured t))
  end.

Definition recordPublication (t : Trust) (feedId : string) (confirmed : bool) (reason : option string) (now : Z) : Trust :=
  match jm_get (tr_feedStatuses t) feedId with
  | None => t
  | Some current =>
      mkTrust (jm_set (tr_feedStatuses t) feedId
        (mkStatus (fs_feedId current) (fs_healthy current) confirmed (fs_quorumRequired current) (fs_quorumAvailable current) (fs_observedAt current)
           (if confirmed then Some now else None)
           (if confirmed then None else Some (default "on-chain publication is not confirmed"%string reason)))) (tr_publisherConfigured t)
  end.

Definition feedStatus (t : Trust) (feedId : string) : FeedTrustStatus :=
  match jm_get (tr_feedStatuses t) feedId with
  | Some s => s
  | None => mkStatus feedId false false (match jm_get ORACLE_FEEDS feedId with Some c => fc_requiredQuorum c | None => 1 end) 0 None None
              (Some "no accepted observation or on-chain confirmation"%string)
  end.

Definition freshWithin (budget : Z) (observedAt : option Z) (now : Z) : bool :=
  match observedAt with Some o => now - o <=? budget | None => false end.

Definition canPublish (t : Trust) (feedId : string) (now : Z) : bool :=
  let status := feedStatus t feedId in
  match jm_get ORACLE_FEEDS feedId with
  | None => false
  | Some c => fs_healthy status && (fs_quorumRequired status <=? fs_quorumAvailable status) && freshWithin (fc_latencyBudgetMs c) (fs_observedAt status) now
  end.

(** What makes a required feed unavailable. *)
Definition feedUnavailable (t : Trust) (now : Z) (feedId : string) : bool :=
  let status := feedStatus t feedId in
  let budget := match jm_get ORACLE_FEEDS feedId with Some c => fc_latencyBudgetMs c | None => 0 end in
  negb (fs_healthy status) || negb (fs_confirmed status) || (fs_quorumAvailable status <? fs_quorumRequired status) || negb (freshWithin budget (fs_observedAt status) now).

Definition getCoverageAvailability (t : Trust) (coverageType : string) (now : Z) : CoverageAvailability :=
  match jm_get COVERAGE_REQUIRED_FEEDS coverageType with
  | None => mkAvailability false [] [] (Some "coverage type has no configured feed dependencies"%string)
  | Some requiredFeeds =>
      let unavailableFeeds := List.filter (feedUnavailable t now) requiredFeeds in
      mkAvailability (match unavailableFeeds with [] => true | _ => false end) requiredFeeds unavailableFeeds
        (match unavailableFeeds with [] => None | _ => Some ("required feed(s) unavailable or unconfirmed: " +:+ joinWith ", " unavailableFeeds) end)
  end.

Inductive TrustMode := Strict | QuorumMode | Development.
Definition parseTrustMode (value : option string) : TrustMode :=
  match value with
  | Some v => if bool_decide (v = "quorum"%string) then QuorumMode else if bool_decide (v = "development"%string) then Development else Strict
  | None => Strict
  end.

Record Readiness := mkReadiness {
  rd_sourcesReachable : bool; rd_quorumSatisfiable : bool; rd_publisherConfigured : bool; rd_feeds : list FeedTrustStatus; rd_trustMode : TrustMode }.

Definition readinessFeed (t : Trust) (now : Z) (kv : string * OracleFeedConfiguration) : FeedTrustStatus :=
  let status := feedStatus t kv.1 in
  if negb (freshWithin (fc_latencyBudgetMs kv.2) (fs_observedAt status) now)
  then mkStatus (fs_feedId status) false (fs_confirmed status) (fs_quorumRequired status) 0 (fs_observedAt status) (fs_confirmedAt status)
         (Some "source observation is missing or stale"%string)
  else status.

Definition readiness (t : Trust) (mode : option string) (now : Z) : Readiness :=
  let trustMode := parseTrustMode mode in
  let entries := List.filter (fun kv => match trustMode, fc_sourceType kv.2 with Development, MockSource => false | _, _ => true end) ORACLE_FEEDS in
  let feeds := map (readinessFeed t now) entries in
  mkReadiness (forallb fs_healthy feeds) (forallb (fun f => fs_quorumRequired f <=? fs_quorumAvailable f) feeds) (tr_publisherConfigured t) feeds trustMode.

(** * The publisher *)

Record PublishReading := mkReading { re_coverageType : string; re_feedId : option string; re_value : num; re_degraded : bool; re_deadlineAt : option Z }.

Record OraclePublishRecord := mkRecord {
  op_coverageType : string; op_scaledValue : Z; op_txHash : option string; op_confirmed : bool; op_outcome : option ConfirmationOutcome;
  op_error : option string; op_attemptedAt : Z }.

Inductive PublishMode := OnChange | EveryInterval.
Record PublisherConfig := mkPublisherConfig {
  pc_configured : bool; pc_mode : PublishMode; pc_minIntervalMs : Z; pc_confirmation : PollOptions }.

Record Publisher := mkPublisher {
  pu_lastScaled : list (string * Z); pu_lastPublishedAt : list (string * Z); pu_inFlight : list string; pu_auditLog : list OraclePublishRecord;
  pu_trust : option Trust }.

Definition deadlineExpired (deadlineAt : option Z) (now : Z) : bool := match deadlineAt with None => false | Some d => 0 <=? now - d end.

(** ** One publication *)

(** An RPC call: what it settles to, and after how many milliseconds. *)
Record Answer (A : Type) := mkAnswer { an_result : res string A; an_ms : Z }.
Arguments mkAnswer {A}.
Arguments an_result {A}.
Arguments an_ms {A}.

Record Rpc := mkRpc {
  rp_getAccount : Answer unit; rp_prepareTransaction : Answer unit; rp_sendTransaction : Answer SendResult; rp_node : Node; rp_clock : nat -> Z }.

(** A transaction handed to the node: the call's arguments and the validity it was
    built with. *)
Record Sent := mkSent { se_coverageType : Z; se_value : Z; se_timeoutSeconds : Z }.

(** The operation races against the budget that is left at [start]. *)
Definition withinDeadline {A} (stage : string) (deadlineAt : option Z) (start : Z) (a : Answer A) : res string A :=
  match deadlineAt with
  | None => an_result a
  | Some d =>
      let remainingMs := d - start in
      if remainingMs <=? 0 then Err ("Feed latency budget expired during " +:+ stage)
      else if an_ms a <? remainingMs then an_result a else Err ("Feed latency budget expired during " +:+ stage)
  end.

Section Publish.
Variable config : PublisherConfig.

Definition pollAnswer (rpc : Rpc) (hash : string) (deadlineMs start : Z) : Answer ConfirmationResult :=
  let o := pc_confirmation config in
  match pollForConfirmation (rp_node rpc) hash
          (mkPollOptions (pl_initialIntervalMs o) (pl_backoffMultiplier o) (pl_maxIntervalMs o) deadlineMs (pl_jitterRatio o) (pl_minIntervalMs o)) start with
  | Some (c, _, t) => mkAnswer (Ok c) (t - start)
  | None => mkAnswer (Err "confirmation polling did not end"%string) 0
  end.

Definition sendStatusText (s : SendStatus) : string :=
  match s with SendPending => "PENDING" | SendDuplicate => "DUPLICATE" | SendTryAgainLater => "TRY_AGAIN_LATER" | SendError => "ERROR" | SendOther t => t end.

Definition failedRecord (base : OraclePublishRecord) (hash : option string) (outcome : option ConfirmationOutcome) (error : string) : OraclePublishRecord :=
  mkRecord (op_coverageType base) (op_scaledValue base) hash false outcome (Some error) (op_attemptedAt base).

(** After the node accepted the transaction. *)
Definition awaitConfirmation (rpc : Rpc) (base : OraclePublishRecord) (deadlineAt : option Z) (hash : string) : OraclePublishRecord :=
  let clk := rp_clock rpc in
  let settlement := pl_deadlineMs (pc_confirmation config) in
  let confirmationDeadlineMs := match deadlineAt with None => settlement | Some d => Z.min settlement (d - clk 8%nat) end in
  if confirmationDeadlineMs <=? 0 then failedRecord base (Some hash) None "Feed publication was submitted but its confirmation deadline expired"
  else
    match withinDeadline "confirmation" deadlineAt (clk 9%nat) (pollAnswer rpc hash confirmationDeadlineMs (clk 9%nat)) with
    | Err e => failedRecord base None None e
    | Ok c =>
        if deadlineExpired deadlineAt (clk 10%nat)
        then failedRecord base (Some (cf_txHash c)) (Some (cf_outcome c)) "Feed publication confirmation arrived after its deadline"
        else mkRecord (op_coverageType base) (op_scaledValue base) (Some (cf_txHash c)) (cf_confirmed c) (Some (cf_outcome c)) (cf_error c) (op_attemptedAt base)
    end.

(** The record, and the transaction if one was handed to the node. *)
Definition publish (rpc : Rpc) (coverageType : string) (scaledValue : Z) (deadlineAt : option Z) : OraclePublishRecord * option Sent :=
  let clk := rp_clock rpc in
  let base := mkRecord coverageType scaledValue None false None None (clk 0%nat) in
  if deadlineExpired deadlineAt (clk 1%nat) then (failedRecord base None None "Feed publication deadline expired before RPC account lookup", None)
  else
    match withinDeadline "publication" deadlineAt (clk 2%nat) (rp_getAccount rpc) with
    | Err e => (failedRecord base None None e, None)
    | Ok _ =>
        if deadlineExpired deadlineAt (clk 3%nat) then (failedRecord base None None "Feed publication deadline expired before transaction preparation", None)
        else
          match coverageTypeToU32 coverageType with
          | Err e => (failedRecord base None None e, None)
          | Ok code =>
              let remainingMs := match deadlineAt with None => 30000 | Some d => d - clk 4%nat end in
              let timeoutSeconds := Z.min 30 (remainingMs / 1000) in
              if timeoutSeconds <? 1 then (failedRecord base None None "Insufficient latency budget remains for an on-chain transaction", None)
              else
                match withinDeadline "publication" deadlineAt (clk 5%nat) (rp_prepareTransaction rpc) with
                | Err e => (failedRecord base None None e, None)
                | Ok _ =>
                    if deadlineExpired deadlineAt (clk 6%nat) then (failedRecord base None None "Feed publication deadline expired before transaction submission", None)
                    else
                      let sent := match deadlineAt with Some d => if d - clk 7%nat <=? 0 then None else Some (mkSent code scaledValue timeoutSeconds)
                                                      | None => Some (mkSent code scaledValue timeoutSeconds) end in
                      match withinDeadline "publication" deadlineAt (clk 7%nat) (rp_sendTransaction rpc) with
                      | Err e => (failedRecord base None None e, sent)
                      | Ok result =>
                          match sr_status result with
                          | SendError | SendTryAgainLater =>
                              (failedRecord base (Some (sr_hash result)) None ("Submission not accepted: " +:+ sendStatusText (sr_status result)), sent)
                          | _ => (awaitConfirmation rpc base deadlineAt (sr_hash result), sent)
                          end
                      end
                end
          end
    end.

(** ** Deciding to publish *)

(** A publication under way. *)
Record Ticket := mkTicket { ti_reading : PublishReading; ti_feedId : string; ti_scaled : Z; ti_deadlineAt : option Z; ti_startedAt : Z; ti_trusted : bool }.

Definition noteTrust (p : Publisher) (feedId : string) (confirmed : bool) (reason : option string) (now : Z) : Publisher :=
  mkPublisher (pu_lastScaled p) (pu_lastPublishedAt p) (pu_inFlight p) (pu_auditLog p)
    ((fun t => recordPublication t feedId confirmed reason now) <$> pu_trust p).

Definition claim (p : Publisher) (coverageType : string) : Publisher :=
  mkPublisher (pu_lastScaled p) (pu_lastPublishedAt p) (addToSet coverageType (pu_inFlight p)) (pu_auditLog p) (pu_trust p).

(** Up to the await; [now] is the clock of this synchronous part. *)
Definition beginPublish (p : Publisher) (reading : PublishReading) (now : Z) : Publisher * option Ticket :=
  let feedId := default (re_coverageType reading) (re_feedId reading) in
  let deadlineAt := re_deadlineAt reading in
  if re_degraded reading then (noteTrust p feedId false (Some "provider reading is degraded"%string) now, None)
  else if match pu_trust p with Some t => negb (canPublish t feedId now) | None => false end then (p, None)
  else if deadlineExpired deadlineAt now then (noteTrust p feedId false (Some "publication deadline expired"%string) now, None)
  else if negb (pc_configured config) then (p, None)
  else
    match scaleOracleValue (re_coverageType reading) (re_value reading) with
    | Err _ => (p, None)
    | Ok scaled =>
        let lastAt := default 0 (jm_get (pu_lastPublishedAt p) (re_coverageType reading)) in
        let unchanged := bool_decide (jm_get (pu_lastScaled p) (re_coverageType reading) = Some scaled) in
        let p1 := if unchanged then noteTrust p feedId true None now else p in
        if unchanged && match pc_mode config with OnChange => true | EveryInterval => false end then (p1, None)
        else if now - lastAt <? pc_minIntervalMs config then (p1, None)
        else if bool_decide (re_coverageType reading ∈ pu_inFlight p) then (p1, None)
        else (claim p1 (re_coverageType reading), Some (mkTicket reading feedId scaled deadlineAt now
               (match pu_trust p with Some t => canPublish t feedId now | None => true end)))
    end.

Definition confirmationText (o : ConfirmationOutcome) : string :=
  match o with
  | Success => "success" | FailedOnChain => "failed_on_chain" | NotFoundYetDeadlineExceeded => "not_found_yet_deadline_exceeded"
  | AbortedPolling => "aborted" | SubmissionRejected => "submission_rejected" | UnexpectedStatus => "unexpected_status"
  end.

(** After the await: the audit log keeps the last 500 records. *)
Definition finishPublish (p : Publisher) (k : Ticket) (record : OraclePublishRecord) (now : Z) : Publisher :=
  let ct := re_coverageType (ti_reading k) in
  let log := pu_auditLog p ++ [record] in
  let log' := if 500 <? Z.of_nat (length log) then tail log else log in
  let p1 := mkPublisher (if op_confirmed record then jm_set (pu_lastScaled p) ct (ti_scaled k) else pu_lastScaled p)
              (if op_confirmed record then jm_set (pu_lastPublishedAt p) ct now else pu_lastPublishedAt p)
              (List.filter (fun c => negb (bool_decide (c = ct))) (pu_inFlight p)) log' (pu_trust p) in
  noteTrust p1 (ti_feedId k) (op_confirmed record)
    (match op_error record with Some e => Some e | None => confirmationText <$> op_outcome record end) now.
End Publish.

(** * Histories

    Any number of readings may be in [maybePublish] at a time. *)

(** A publication that was seen confirmed. *)
Record Published := mkPublished { pd_ticket : Ticket; pd_confirmedAt : Z }.
Definition pd_type (e : Published) : string := re_coverageType (ti_reading (pd_ticket e)).

Record System := mkSystem { sy_publisher : Publisher; sy_tickets : list Ticket; sy_published : list Published; sy_now : Z }.

Definition withTrust (p : Publisher) (t : Trust) : Publisher :=
  mkPublisher (pu_lastScaled p) (pu_lastPublishedAt p) (pu_inFlight p) (pu_auditLog p) (Some t).

Section Histories.
Variable config : PublisherConfig.

(** The record of a finished publication is that of [publish] under some behaviour
    of the node. *)
Inductive pstep : System -> System -> Prop :=
| step_begin s reading now p k : sy_now s <= now -> beginPublish config (sy_publisher s) reading now = (p, k) ->
    pstep s (mkSystem p (sy_tickets s ++ match k with Some k => [k] | None => [] end) (sy_published s) now)
| step_finish s l1 k l2 rpc now : sy_now s <= now -> sy_tickets s = l1 ++ k :: l2 ->
    let record := (publish config rpc (re_coverageType (ti_reading k)) (ti_scaled k) (ti_deadlineAt k)).1 in
    pstep s (mkSystem (finishPublish (sy_publisher s) k record now) (l1 ++ l2)
               (sy_published s ++ if op_confirmed record then [mkPublished k now] else []) now)
| step_observe s t feedId healthy reason observedAt t' : pu_trust (sy_publisher s) = Some t ->
    recordObservation t feedId healthy reason observedAt = Ok t' ->
    pstep s (mkSystem (withTrust (sy_publisher s) t') (sy_tickets s) (sy_published s) (sy_now s)).

Definition initial (trust : option Trust) (now : Z) : System := mkSystem (mkPublisher [] [] [] [] trust) [] [] now.

(** The last confirmed publication of a coverage type. *)
Definition lastOf (ct : string) (l : list Published) : option Published := last (List.filter (fun e => bool_decide (pd_type e = ct)) l).
#[local] Arguments lastOf : simpl never.

Lemma lastOf_app ct l e : lastOf ct (l ++ [e]) = if bool_decide (pd_type e = ct) then Some e else lastOf ct l.
Proof.
  unfold lastOf. rewrite List.filter_app. cbn. case_bool_decide; [apply last_snoc|by rewrite app_nil_r].
Qed.

(** What the checks before the await established for a ticket. *)
Definition admitted (k : Ticket) : Prop :=
  re_degraded (ti_reading k) = false ∧ pc_configured config = true ∧ ti_trusted k = true ∧
  scaleOracleValue (re_coverageType (ti_reading k)) (re_value (ti_reading k)) = Ok (ti_scaled k) ∧
  (forall d, ti_deadlineAt k = Some d -> ti_startedAt k < d).

(** A ticket after the previous publication of its type. *)
Definition spaced (k : Ticket) (previous : option Published) : Prop :=
  match previous with
  | None => True
  | Some e => pd_confirmedAt e + pc_minIntervalMs config <= ti_startedAt k ∧ (pc_mode config = OnChange -> ti_scaled k ≠ ti_scaled (pd_ticket e))
  end.

Record sysInv (s : System) : Prop := {
  iv_flight : pu_inFlight (sy_publisher s) ≡ₚ map (fun k => re_coverageType (ti_reading k)) (sy_tickets s);
  iv_nodup : NoDup (pu_inFlight (sy_publisher s));
  iv_at : forall ct, jm_get (pu_lastPublishedAt (sy_publisher s)) ct = pd_confirmedAt <$> lastOf ct (sy_published s);
  iv_scaled : forall ct, jm_get (pu_lastScaled (sy_publisher s)) ct = (fun e => ti_scaled (pd_ticket e)) <$> lastOf ct (sy_published s);
  iv_tickets : forall k, k ∈ sy_tickets s -> admitted k ∧ spaced k (lastOf (re_coverageType (ti_reading k)) (sy_published s));
  iv_log : forall l1 e l2, sy_published s = l1 ++ e :: l2 -> admitted (pd_ticket e) ∧ spaced (pd_ticket e) (lastOf (pd_type e) l1) }.

Lemma noteTrust_fields p f c r now :
  pu_lastScaled (noteTrust p f c r now) = pu_lastScaled p ∧ pu_lastPublishedAt (noteTrust p f c r now) = pu_lastPublishedAt p ∧
  pu_inFlight (noteTrust p f c r now) = pu_inFlight p.
Proof. done. Qed.

(** What [beginPublish] does: nothing the invariant sees, or a ticket. *)
Lemma beginPublish_spec p reading now p' k : beginPublish config p reading now = (p', k) ->
  pu_lastScaled p' = pu_lastScaled p ∧ pu_lastPublishedAt p' = pu_lastPublishedAt p ∧
  match k with
  | None => pu_inFlight p' = pu_inFlight p
  | Some k =>
      let ct := re_coverageType reading in
      (ct ∉ pu_inFlight p) ∧ pu_inFlight p' = pu_inFlight p ++ [ct] ∧ ti_reading k = reading ∧ admitted k ∧
      pc_minIntervalMs config <= ti_startedAt k - default 0 (jm_get (pu_lastPublishedAt p) ct) ∧
      (pc_mode config = OnChange -> jm_get (pu_lastScaled p) ct ≠ Some (ti_scaled k))
  end.
Proof.
  unfold beginPublish. destruct (re_degraded reading) eqn:Ed; [by intros [= <- <-]|].
  destruct (match pu_trust p with Some t => _ | None => _ end) eqn:Et; [by intros [= <- <-]|].
  destruct (deadlineExpired _ _) eqn:Ex; [by intros [= <- <-]|]. destruct (pc_configured config) eqn:Ec; [|by intros [= <- <-]]. cbn [negb].
  destruct (scaleOracleValue _ _) as [scaled|] eqn:Es; [|by intros [= <- <-]].
  set (unchanged := bool_decide _). set (p1 := if unchanged then _ else _).
  assert (pu_lastScaled p1 = pu_lastScaled p ∧ pu_lastPublishedAt p1 = pu_lastPublishedAt p ∧ pu_inFlight p1 = pu_inFlight p) as (H1 & H2 & H3)
    by (unfold p1; by destruct unchanged).
  destruct (unchanged && _) eqn:Eu; [by intros [= <- <-]|]. destruct (_ <? _) eqn:Ei; [by intros [= <- <-]|]. apply Z.ltb_ge in Ei.
  case_bool_decide as Ef; [by intros [= <- <-]|]. intros [= <- <-]. cbn. rewrite H1, H2, H3. split_and!; [done|done|done| |done| |done|].
  - unfold addToSet. by rewrite bool_decide_eq_false_2.
  - split_and!; [done|done| |done|].
    + cbn. destruct (pu_trust p); [by apply negb_false_iff in Et|done].
    + cbn. intros d Hd. unfold deadlineExpired in Ex. rewrite Hd in Ex. apply Z.leb_gt in Ex. lia.
  - intros Hm. rewrite Hm, andb_true_r in Eu. unfold unchanged in Eu. by apply bool_decide_eq_false in Eu.
Qed.

Lemma sysInv_begin s reading now p k : sysInv s -> beginPublish config (sy_publisher s) reading now = (p, k) ->
  sysInv (mkSystem p (sy_tickets s ++ match k with Some k => [k] | None => [] end) (sy_published s) now).
Proof.
  intros [H1 H2 H3 H4 H5 H6] (E1 & E2 & E3)%beginPublish_spec. destruct k as [k|].
  - destruct E3 as (Hn & Hf & Hr & Ha & Hi & Hc). split; cbn; rewrite ?E1, ?E2, ?Hf; [| |done|done| |done].
    + rewrite map_app. cbn. rewrite Hr. by rewrite H1.
    + apply NoDup_app. split_and!; [done| |apply NoDup_singleton]. intros x Hx ->%list_elem_of_singleton. done.
    + intros k' [Hk'|Hk'%list_elem_of_singleton]%elem_of_app; [by apply H5|]. subst k'. split; [done|]. rewrite Hr. unfold spaced.
      rewrite H3 in Hi. rewrite H4 in Hc. destruct (lastOf _ _) as [e|]; [|done]. cbn in Hi, Hc. split; [lia|].
      intros Hm E. by apply (Hc Hm); rewrite E.
  - split; cbn; rewrite ?E1, ?E2, ?E3, ?app_nil_r; done.
Qed.

Lemma sysInv_finish s l1 k l2 record now : sysInv s -> sy_tickets s = l1 ++ k :: l2 ->
  sysInv (mkSystem (finishPublish (sy_publisher s) k record now) (l1 ++ l2) (sy_published s ++ if op_confirmed record then [mkPublished k now] else []) now).
Proof.
  intros [H1 H2 H3 H4 H5 H6] Ht. rewrite Ht in H1. rewrite Ht in H5. set (ct := re_coverageType (ti_reading k)).
  assert (forall x, x ∈ l1 ++ l2 -> re_coverageType (ti_reading x) ≠ ct) as Hother.
  { rewrite H1, map_app in H2. cbn in H2. rewrite <- Permutation_middle in H2. apply NoDup_cons in H2 as [Hn _].
    intros x Hx E. apply Hn. fold ct. rewrite <- E, <- map_app. apply list_elem_of_fmap. by exists x. }
  assert (k ∈ l1 ++ k :: l2) as Hk by (rewrite elem_of_app, elem_of_cons; auto).
  split; cbn.
  - rewrite <- (filter_ext_in (fun c => bool_decide (c ≠ ct))) by (intros c _; rewrite bool_decide_not; done).
    assert (List.filter (fun c => bool_decide (c ≠ ct)) (pu_inFlight (sy_publisher s)) ≡ₚ List.filter (fun c => bool_decide (c ≠ ct)) (map (fun k => re_coverageType (ti_reading k)) (l1 ++ k :: l2))) as ->.
    { clear -H1. induction H1; cbn; repeat case_match; rewrite ?IHPermutation; try done; [by apply Permutation_swap|by etransitivity]. }
    rewrite map_app. cbn. rewrite List.filter_app. cbn. fold ct. rewrite bool_decide_eq_false_2 by (intros Hc; by apply Hc).
    rewrite <- List.filter_app, <- map_app. rewrite (forallb_filter_id). done.
    apply forallb_forall. intros c Hc. apply bool_decide_eq_true. apply in_map_iff in Hc as (x & <- & Hx%list_elem_of_In). by apply Hother.
  - apply NoDup_ListNoDup, List.NoDup_filter, NoDup_ListNoDup, H2.
  - intros c. destruct (op_confirmed record); [|rewrite app_nil_r; apply H3]. rewrite lastOf_app, jm_get_set. unfold pd_type. cbn. fold ct.
    destruct (decide (ct = c)); [by rewrite bool_decide_eq_true_2|rewrite bool_decide_eq_false_2 by done; apply H3].
  - intros c. destruct (op_confirmed record); [|rewrite app_nil_r; apply H4]. rewrite lastOf_app, jm_get_set. unfold pd_type. cbn. fold ct.
    destruct (decide (ct = c)); [by rewrite bool_decide_eq_true_2|rewrite bool_decide_eq_false_2 by done; apply H4].
  - intros x Hx. assert (x ∈ l1 ++ k :: l2) as Hx' by (rewrite elem_of_app in Hx; rewrite elem_of_app, elem_of_cons; tauto).
    destruct (H5 x Hx') as [Ha Hs]. split; [done|]. destruct (op_confirmed record); [|by rewrite app_nil_r].
    rewrite lastOf_app, bool_decide_eq_false_2; [done|]. unfold pd_type. cbn. intros E. by apply (Hother x Hx).
  - intros m1 e m2 E. destruct (op_confirmed record); [|rewrite app_nil_r in E; by apply (H6 m1 e m2)].
    destruct m2 as [|y m2 _] using rev_ind.
    + apply app_inj_tail in E as [<- <-]. cbn. by apply H5.
    + rewrite app_comm_cons, app_assoc in E. apply app_inj_tail in E as [E _]. by apply (H6 m1 e m2).
Qed.

Lemma pstep_inv s s' : sysInv s -> pstep s s' -> sysInv s'.
Proof.
  intros Hs Hp. destruct Hp as [s0 reading now p k Hn Hb|s0 l1 k l2 rpc now Hn Ht record|s0 t f h r o t' Ht Hr].
  - exact (sysInv_begin _ _ _ _ _ Hs Hb).
  - exact (sysInv_finish _ _ _ _ _ _ Hs Ht).
  - destruct Hs. by split.
Qed.

Lemma reachable_inv s0 s : sysInv s0 -> rtc pstep s0 s -> sysInv s.
Proof. intros H0 Hr. induction Hr; [done|]. eauto using pstep_inv. Qed.

Lemma initial_inv trust now : sysInv (initial trust now).
Proof. split; cbn; [done|constructor|done|done|by intros k ?%not_elem_of_nil|by intros [] ?]. Qed.

(** C26: Direct publications are admitted, spaced and never concurrent.  However
    readings, answers of the node and trust updates interleave, at most one
    publication of a coverage type is under way; every publication that confirmed
    came from a reading that was not degraded, was trusted and within its deadline,
    with its value scaled for the chain; it began at least the minimum interval after
    the previous confirmed publication of its coverage type was recorded and, when
    only changes are published, with another value. *)
Theorem publications_admitted_and_spaced trust now s
    (Hr : rtc pstep (initial trust now) s) :
  NoDup (map (fun k => re_coverageType (ti_reading k)) (sy_tickets s)) ∧
  ∀ l1 e l2, sy_published s = l1 ++ e :: l2 -> admitted (pd_ticket e) ∧ spaced (pd_ticket e) (lastOf (pd_type e) l1).
Proof.
  pose proof (reachable_inv _ _ (initial_inv trust now) Hr) as [H1 H2 _ _ _ H6]. split; [by rewrite <- H1|exact H6].
Qed.
End Histories.

(** * One publication *)

(** A transaction handed to the node carries the scaled value under its on-chain
    code, was handed over before the deadline, and is valid for at most thirty seconds
    that end before the deadline, counted from when the validity was computed. *)
Definition sentOk (rpc : Rpc) (ct : string) (scaled : Z) (deadlineAt : option Z) (t : Sent) : Prop :=
  se_value t = scaled ∧ coverageTypeToU32 ct = Ok (se_coverageType t) ∧ 1 <= se_timeoutSeconds t <= 30 ∧
  forall d, deadlineAt = Some d -> rp_clock rpc 7%nat < d ∧ rp_clock rpc 4%nat + 1000 * se_timeoutSeconds t <= d.

(** What a publication reports: the value it was asked to publish; confirmed only
    when a transaction was handed over and the node reported success, in time. *)
Definition publishSpec (rpc : Rpc) (ct : string) (scaled : Z) (deadlineAt : option Z) (result : OraclePublishRecord * option Sent) : Prop :=
  op_scaledValue result.1 = scaled ∧ op_coverageType result.1 = ct ∧
  (op_confirmed result.1 = true ->
     is_Some result.2 ∧
     (∃ sent k v, an_result (rp_sendTransaction rpc) = Ok sent ∧ nd_getTransaction (rp_node rpc) (sr_hash sent) k = Some (StSuccess v)) ∧
     (forall d, deadlineAt = Some d -> rp_clock rpc 10%nat < d)) ∧
  (forall t, result.2 = Some t -> sentOk rpc ct scaled deadlineAt t).

Lemma awaitConfirmation_spec config rpc base deadlineAt hash :
  op_confirmed base = false ->
  let r := awaitConfirmation config rpc base deadlineAt hash in
  op_scaledValue r = op_scaledValue base ∧ op_coverageType r = op_coverageType base ∧
  (op_confirmed r = true -> (∃ k v, nd_getTransaction (rp_node rpc) hash k = Some (StSuccess v)) ∧ (forall d, deadlineAt = Some d -> rp_clock rpc 10%nat < d)).
Proof.
  intros Hb. unfold awaitConfirmation. cbv zeta. destruct (_ <=? 0); [done|]. set (ms := match deadlineAt with Some d => _ | None => _ end).
  destruct (withinDeadline _ _ _ (pollAnswer _ _ _ _ _)) as [c|] eqn:Ep; [|done]. destruct (deadlineExpired _ _) eqn:Ed; [done|].
  cbn. split_and!; [done|done|]. intros Hc. split.
  - assert (an_result (pollAnswer config rpc hash ms (rp_clock rpc 9%nat)) = Ok c) as Ha by (unfold withinDeadline in Ep; repeat case_match; congruence).
    unfold pollAnswer in Ha. destruct (pollForConfirmation _ _ _ _) as [[[c' k] t]|] eqn:Eq; [|done]. cbn in Ha. injection Ha as ->.
    apply pollLoop_spec in Eq as [_ Hcs _ Ho]; [|lia]. apply Hcs in Hc. rewrite Hc in Ho. destruct Ho as (_ & _ & Ho). eauto.
  - intros d Hd. unfold deadlineExpired in Ed. rewrite Hd in Ed. apply Z.leb_gt in Ed. lia.
Qed.

(** A direct publication is confirmed only on the node's word and in time, and sends
    what it was asked to send, within its budget. *)
Theorem publish_outcome config rpc ct scaled deadlineAt : publishSpec rpc ct scaled deadlineAt (publish config rpc ct scaled deadlineAt).
Proof.
  unfold publish. cbv zeta. set (base := mkRecord ct scaled None false None None _).
  assert (forall h o e s, (forall t, s = Some t -> sentOk rpc ct scaled deadlineAt t) -> publishSpec rpc ct scaled deadlineAt (failedRecord base h o e, s)) as Hfail by done.
  destruct (deadlineExpired deadlineAt (rp_clock rpc 1%nat)); [by apply Hfail|].
  destruct (withinDeadline _ _ _ (rp_getAccount rpc)); [|by apply Hfail]. destruct (deadlineExpired deadlineAt (rp_clock rpc 3%nat)); [by apply Hfail|].
  destruct (coverageTypeToU32 ct) as [code|] eqn:Ec; [|by apply Hfail]. destruct (_ <? 1) eqn:Et; [by apply Hfail|]. apply Z.ltb_ge in Et.
  destruct (withinDeadline _ _ _ (rp_prepareTransaction rpc)); [|by apply Hfail]. destruct (deadlineExpired deadlineAt (rp_clock rpc 6%nat)); [by apply Hfail|].
  set (sentTx := match deadlineAt with Some d => _ | None => _ end).
  assert (forall t, sentTx = Some t -> sentOk rpc ct scaled deadlineAt t) as Hsent.
  { unfold sentTx, sentOk. intros t Ht.
    assert (t = mkSent code scaled (Z.min 30 (match deadlineAt with Some d => d - rp_clock rpc 4%nat | None => 30000 end / 1000))) as ->
      by (destruct deadlineAt; [case_match; [done|]|]; congruence).
    cbn. split_and!; [done|done|lia|lia|]. intros d ->. destruct (_ <=? 0) eqn:E7; [done|]. apply Z.leb_gt in E7. split; [lia|].
    pose proof (Z.mul_div_le (d - rp_clock rpc 4%nat) 1000). lia. }
  destruct (withinDeadline _ _ _ (rp_sendTransaction rpc)) as [result|e] eqn:Ew; [|by apply Hfail].
  assert (an_result (rp_sendTransaction rpc) = Ok result) as Hres by (unfold withinDeadline in Ew; repeat case_match; congruence).
  assert (is_Some sentTx) as Hsome.
  { unfold sentTx. unfold withinDeadline in Ew. destruct deadlineAt as [d|]; [|done]. destruct (d - rp_clock rpc 7%nat <=? 0); [done|done]. }
  assert (publishSpec rpc ct scaled deadlineAt (awaitConfirmation config rpc base deadlineAt (sr_hash result), sentTx)) as Hconf.
  { destruct (awaitConfirmation_spec config rpc base deadlineAt (sr_hash result) eq_refl) as (H1 & H2 & H3). unfold publishSpec. cbn [fst snd]. naive_solver. }
  destruct (sr_status result); [exact Hconf|exact Hconf|by apply Hfail|by apply Hfail|exact Hconf].
Qed.

(** * Trust and availability *)

(** A coverage type is available exactly when it has required feeds and each of them
    is healthy, has its quorum, was confirmed on chain after its last observation, and
    was observed within its latency budget. *)
Theorem available_iff_feeds_confirmed t coverageType now :
  av_available (getCoverageAvailability t coverageType now) = true <->
  ∃ feeds, jm_get COVERAGE_REQUIRED_FEEDS coverageType = Some feeds ∧
    ∀ f, f ∈ feeds -> ∃ s c o, jm_get (tr_feedStatuses t) f = Some s ∧ jm_get ORACLE_FEEDS f = Some c ∧ fs_observedAt s = Some o ∧
      fs_healthy s = true ∧ fs_confirmed s = true ∧ fs_quorumRequired s <= fs_quorumAvailable s ∧ now - o <= fc_latencyBudgetMs c.
Proof.
  unfold getCoverageAvailability. destruct (jm_get COVERAGE_REQUIRED_FEEDS coverageType) as [feeds|] eqn:Ef; [|split; [done|intros (? & [=] & _)]].
  cbn. assert (match List.filter (feedUnavailable t now) feeds with [] => true | _ :: _ => false end = true <-> forall f, f ∈ feeds -> feedUnavailable t now f = false) as ->.
  { rewrite <- filter_nil_iff. destruct (List.filter _ _); naive_solver. }
  assert (forall f, f ∈ feeds -> is_Some (jm_get ORACLE_FEEDS f)) as Hcfg.
  { intros f Hf. apply jm_get_Some_in in Ef. unfold COVERAGE_REQUIRED_FEEDS in Ef. rewrite !elem_of_cons in Ef.
    destruct Ef as [[= _ ->]|[[= _ ->]|[[= _ ->]|[[= _ ->]|[[= _ ->]|[]%not_elem_of_nil]]]]]; apply list_elem_of_singleton in Hf as ->; vm_compute; eauto. }
  assert (forall f, f ∈ feeds -> feedUnavailable t now f = false <-> ∃ s c o, jm_get (tr_feedStatuses t) f = Some s ∧ jm_get ORACLE_FEEDS f = Some c ∧ fs_observedAt s = Some o ∧
      fs_healthy s = true ∧ fs_confirmed s = true ∧ fs_quorumRequired s <= fs_quorumAvailable s ∧ now - o <= fc_latencyBudgetMs c) as Hiff.
  { intros f Hf. destruct (Hcfg f Hf) as [c Hc]. unfold feedUnavailable, feedStatus. rewrite Hc. destruct (jm_get (tr_feedStatuses t) f) as [s|]; [|split; [done|intros (? & ? & ? & [=] & _)]].
    rewrite !orb_false_iff, !negb_false_iff, Z.ltb_ge. unfold freshWithin. destruct (fs_observedAt s) as [o|] eqn:Eo; [rewrite Z.leb_le|]; split.
    - intros [[[Hh Hk] Hq] Hb]. by exists s, c, o.
    - intros (s' & c' & o' & [= <-] & [= <-] & Ho & Hh & Hk & Hq & Hb). rewrite Eo in Ho. injection Ho as <-. done.
    - by intros [_ [=]].
    - intros (s' & c' & o' & [= <-] & _ & Ho & _). congruence. }
  split; [intros Ha; exists feeds; split; [done|]; intros f Hf; by apply Hiff, Ha|]. intros (l & [= <-] & Ha) f Hf. by apply Hiff, Ha.
Qed.

(** * Examples *)

Definition demoReading (v : num) : PublishReading := mkReading "StablecoinDepeg" (Some "coingecko-usdc"%string) v false None.
Definition demoConfig : PublisherConfig := mkPublisherConfig true OnChange 1000 DEFAULT_CONFIRMATION_POLL.
Definition demoRpc : Rpc :=
  mkRpc (mkAnswer (Ok tt) 10) (mkAnswer (Ok tt) 10) (mkAnswer (Ok (mkSend SendPending "h" None)) 10) demoNode (fun n => 2000 + Z.of_nat n).

Lemma publications_admitted_and_spaced_witness :
  ∃ s, rtc (pstep demoConfig) (initial None 0) s ∧ map (fun e => ti_scaled (pd_ticket e)) (sy_published s) = [12500000] ∧
    NoDup (map (fun k => re_coverageType (ti_reading k)) (sy_tickets s)).
Proof.
  assert (∃ s, rtc (pstep demoConfig) (initial None 0) s ∧ map (fun e => ti_scaled (pd_ticket e)) (sy_published s) = [12500000]) as (s & Hr & Hm).
  { eexists. split; [|].
    - eapply rtc_l; [eapply (step_begin demoConfig (initial None 0) (demoReading 1.25) 2000); [cbn; lia|vm_compute; reflexivity]|].
      eapply rtc_l; [eapply (step_finish demoConfig _ [] _ [] demoRpc 3000); [cbn; lia|reflexivity]|]. apply rtc_refl.
    - vm_compute. reflexivity. }
  exists s. split_and!; [exact Hr|exact Hm|]. exact (proj1 (publications_admitted_and_spaced demoConfig None 0 s Hr)).
Defined.
