(* ===== verification/Quotes.v ===== *)
(** The product catalog and the pricing of quotes (src/common/coverage-types.ts,
    src/quote/oracle-confidence.ts, src/quote/quote.service.ts): looking up, drafting
    and publishing a coverage type, how the confidence in its oracle data bounds the
    premium, and when a quote is refused.

    The catalog is a mutable array of objects, here the list [Catalog]; the list of
    live products is computed once when the module is loaded and keeps references to
    the same objects, so [liveAtLoad] is the list of their ids. *)

From stdpp Require Import base list strings sorting sets.
From Stdlib Require Import ZArith Lia Floats.
From S2P Require Import Prelude Decimal JsNum JsParse JsDate Canonical JsOrder DirectPublisher.

#[local] Open Scope Z_scope.

(** * Decimal rounding *)

(** The integer [n] for which [n / 10^k] is closest to a number that is not negative,
    the larger of two. *)
Definition fixedInt (k : Z) (x : num) : option Z :=
  match Prim2SF x with
  | S754_finite false m e =>
      Some (if (0 <=? e) then Z.pos m * 2 ^ e * 10 ^ k else (2 * Z.pos m * 10 ^ k + 2 ^ (- e)) / 2 ^ (- e + 1))
  | S754_zero _ => Some 0
  | _ => None
  end.

(** [x.toFixed(k)] of a number from 0 to [10^21]; larger numbers and the others print
    as [numToString]. *)
Definition toFixed `{JsHost} (k : Z) (x : num) : string :=
  match fixedInt k x with
  | Some n => if n <? 10 ^ (21 + k) then showZ (n / 10 ^ k) +:+ "." +:+ String.string_of_list_ascii (padStart (Z.to_nat k) (z_text (n mod 10 ^ k))) else numToString x
  | None => numToString x
  end.

(** [parseFloat(x.toFixed(k))]: the number nearest to the printed decimal. *)
Definition fixedNum (k : Z) (x : num) : num :=
  match fixedInt k x with
  | Some n => if n <? 10 ^ (21 + k) then (if n =? 0 then 0%float else num_of_ratio n (10 ^ k)) else x
  | None => if nlt x 0%float then PrimFloat.opp (match fixedInt k (PrimFloat.opp x) with Some n => if n =? 0 then 0%float else num_of_ratio n (10 ^ k) | None => PrimFloat.opp x end) else x
  end.

(** * The catalog *)

Inductive CoverageTypeStatus := Draft | LiveProduct.
#[global] Instance CoverageTypeStatus_eq_dec : EqDecision CoverageTypeStatus.
Proof. solve_decision. Defined.
Inductive TriggerSource := LiveTrigger | MockedTrigger.
Record CoverageTypeApproval := mkApproval { ap_draftedBy : string; ap_draftedAt : string; ap_publishedBy : string; ap_publishedAt : string }.

Record CoverageType := mkCoverageType {
  ct_id : Z; ct_key : string; ct_name : string; ct_description : string; ct_riskLevel : string; ct_riskMultiplier : num; ct_baseRatePct : num;
  ct_maxCoverage : Z; ct_maxDuration : Z; ct_maxPoolExposurePct : Z; ct_trigger : string; ct_triggerSource : TriggerSource;
  ct_status : CoverageTypeStatus; ct_approval : option CoverageTypeApproval }.
Definition Catalog := list CoverageType.

(** The numbers 0.8 and 2.4 are written as the doubles they denote. *)
Definition COVERAGE_TYPES : Catalog :=
  [mkCoverageType 0 "StablecoinDepeg" "Stablecoin Depeg" "Pays out if a major stablecoin depegs below $0.95" "medium" 1 3 100000 365 40
     "USDC price < $0.95 for 15+ minutes" LiveTrigger LiveProduct None;
   mkCoverageType 1 "MarketCrash" "Market Crash" "Covers catastrophic market downturns exceeding 30% in 24h" "high" 1.5 4.5 50000 90 30
     "Market index 24h return < -30%" LiveTrigger LiveProduct None;
   mkCoverageType 2 "LiquidationShield" "Liquidation Shield" "Pays out if your DeFi position gets liquidated" "high" 2 6 200000 30 30
     "Collateral ratio drops below maintenance threshold" MockedTrigger LiveProduct None;
   mkCoverageType 3 "SmartContractRisk" "Smart Contract Risk" "Protection against smart contract exploits and hacks" "critical" 3 9 500000 180 30
     "Covered protocol TVL drops >50% in <1 hour" LiveTrigger LiveProduct None;
   mkCoverageType 4 "FlightDelay" "Flight Delay" "Automatic payout for flight delays over 2 hours" "low" 0x1.999999999999ap-1 0x1.3333333333333p+1 2000 1 10
     "Flight delayed > 120 minutes per AviationStack data" MockedTrigger LiveProduct None].

Definition liveAtLoad (catalog : Catalog) : list Z := map ct_id (List.filter (fun t => bool_decide (ct_status t = LiveProduct)) catalog).

Definition coverageTypeById (catalog : Catalog) (id : Z) : option CoverageType := List.find (fun t => ct_id t =? id) catalog.
Definition coverageTypeByName (catalog : Catalog) (name : string) : option CoverageType := List.find (fun t => bool_decide (ct_key t = name)) catalog.
(** The live list holds references, so a lookup in it sees the current object. *)
Definition liveEntries (live : list Z) (catalog : Catalog) : Catalog := List.filter (fun t => bool_decide (ct_id t ∈ live)) catalog.
Definition liveCoverageTypeById (live : list Z) (catalog : Catalog) (id : Z) : option CoverageType := List.find (fun t => ct_id t =? id) (liveEntries live catalog).
Definition liveCoverageTypeByName (live : list Z) (catalog : Catalog) (name : string) : option CoverageType :=
  List.find (fun t => bool_decide (ct_key t = name)) (liveEntries live catalog).

Definition withStatus (t : CoverageType) (status : CoverageTypeStatus) (approval : option CoverageTypeApproval) : CoverageType :=
  mkCoverageType (ct_id t) (ct_key t) (ct_name t) (ct_description t) (ct_riskLevel t) (ct_riskMultiplier t) (ct_baseRatePct t) (ct_maxCoverage t)
    (ct_maxDuration t) (ct_maxPoolExposurePct t) (ct_trigger t) (ct_triggerSource t) status approval.

Definition draftCoverageType (input : CoverageType) (draftedBy draftedAt : string) : CoverageType :=
  withStatus input Draft (Some (mkApproval draftedBy draftedAt "" "")).

Definition published (t : CoverageType) (publishedBy publishedAt : string) : CoverageType :=
  withStatus t LiveProduct (Some (mkApproval (default ""%string (ap_draftedBy <$> ct_approval t)) (default ""%string (ap_draftedAt <$> ct_approval t)) publishedBy publishedAt)).

(** Updates the first entry with the id in place. *)
Fixpoint publishCoverageType (catalog : Catalog) (id : Z) (publishedBy publishedAt : string) : Catalog * option CoverageType :=
  match catalog with
  | [] => ([], None)
  | t :: rest =>
      if ct_id t =? id
      then match ct_status t with
           | LiveProduct => (t :: rest, None)
           | Draft => let t' := published t publishedBy publishedAt in (t' :: rest, Some t')
           end
      else let '(rest', r) := publishCoverageType rest id publishedBy publishedAt in (t :: rest', r)
  end.

(** * Oracle confidence *)

Record OracleConfidenceSignals := mkSignals {
  si_sourceCount : num; si_independentClusters : num; si_freshnessSeconds : num; si_recentlyDiverged : bool; si_quarantined : bool; si_paused : bool }.
Record OracleConfidenceConfig := mkConfidenceConfig {
  oc_minSources : num; oc_minIndependentClusters : num; oc_maxFreshnessSeconds : num; oc_divergencePenalty : num; oc_degradedBelow : num;
  oc_unavailableBelow : num; oc_maxPremiumMultiplier : num }.
Inductive Verdict := Available | Degraded | Unavailable.
#[global] Instance Verdict_eq_dec : EqDecision Verdict.
Proof. solve_decision. Defined.
Inductive ConfidenceReason := QuarantinedFeed | PausedFeed | NoSources | InsufficientSources | InsufficientIndependence | StaleFeed | RecentDivergence.
#[global] Instance ConfidenceReason_eq_dec : EqDecision ConfidenceReason.
Proof. solve_decision. Defined.
Record OracleConfidenceAssessment := mkAssessment { as_verdict : Verdict; as_reason : option ConfidenceReason; as_score : num; as_multiplier : num }.

Definition confidenceReasonText (r : ConfidenceReason) : string :=
  match r with
  | QuarantinedFeed => "quarantined" | PausedFeed => "paused" | NoSources => "no_sources" | InsufficientSources => "insufficient_sources"
  | InsufficientIndependence => "insufficient_independence" | StaleFeed => "stale_feed" | RecentDivergence => "recent_divergence"
  end.

(** 2, 2, 300, 0.5, 0.8, 0.5 and 1.5. *)
Definition DEFAULT_ORACLE_CONFIDENCE_CONFIG : OracleConfidenceConfig := mkConfidenceConfig 2 2 300 0.5 0x1.999999999999ap-1 0.5 1.5.

Definition clamp (value min max : num) : num := nmin max (nmax min value).

(** [env] is the process environment. *)
Definition oracleConfidenceConfigFromEnv (env : string -> option string) : OracleConfidenceConfig :=
  let num_ key fallback :=
    match env key with
    | None => fallback
    | Some raw =>
        match trim (String.list_ascii_of_string raw) with
        | [] => fallback
        | _ => let parsed := toNumber raw in if isFinite parsed then parsed else fallback
        end
    end in
  let d := DEFAULT_ORACLE_CONFIDENCE_CONFIG in
  mkConfidenceConfig
    (num_ "ORACLE_CONFIDENCE_MIN_SOURCES" (oc_minSources d)) (num_ "ORACLE_CONFIDENCE_MIN_INDEPENDENT_CLUSTERS" (oc_minIndependentClusters d))
    (num_ "ORACLE_CONFIDENCE_MAX_FRESHNESS_SECONDS" (oc_maxFreshnessSeconds d)) (clamp (num_ "ORACLE_CONFIDENCE_DIVERGENCE_PENALTY" (oc_divergencePenalty d)) 0 1)
    (clamp (num_ "ORACLE_CONFIDENCE_DEGRADED_BELOW" (oc_degradedBelow d)) 0 1) (clamp (num_ "ORACLE_CONFIDENCE_UNAVAILABLE_BELOW" (oc_unavailableBelow d)) 0 1)
    (nmax 1 (num_ "ORACLE_CONFIDENCE_MAX_PREMIUM_MULTIPLIER" (oc_maxPremiumMultiplier d)))%string%float.

Definition factorsOf (s : OracleConfidenceSignals) (c : OracleConfidenceConfig) : list (ConfidenceReason * num) :=
  [(InsufficientSources, clamp (si_sourceCount s / oc_minSources c) 0 1);
   (InsufficientIndependence, clamp (si_independentClusters s / oc_minIndependentClusters c) 0 1);
   (StaleFeed, clamp (1 - (si_freshnessSeconds s - oc_maxFreshnessSeconds c) / oc_maxFreshnessSeconds c) 0 1);
   (RecentDivergence, if si_recentlyDiverged s then oc_divergencePenalty c else 1)]%float.

Definition scoreOf (factors : list (ConfidenceReason * num)) : num := foldl (fun product f => (product * f.2)%float) 1%float factors.

(** The first factor that no other is below. *)
Definition weakestOf (factors : list (ConfidenceReason * num)) : option ConfidenceReason :=
  match factors with
  | [] => None
  | f :: rest => Some (foldl (fun m f => if nlt f.2 m.2 then f else m) f rest).1
  end.

Definition multiplierOf (score maxMultiplier : num) : num := fixedNum 4 (clamp (1 + (1 - score) * (maxMultiplier - 1)) 1 maxMultiplier)%float.

Definition assessOracleConfidence (signals : OracleConfidenceSignals) (config : OracleConfidenceConfig) : OracleConfidenceAssessment :=
  let unavailable reason := mkAssessment Unavailable (Some reason) 0 (oc_maxPremiumMultiplier config) in
  if si_quarantined signals then unavailable QuarantinedFeed
  else if si_paused signals then unavailable PausedFeed
  else if nle (si_sourceCount signals) 0%float then unavailable NoSources
  else
    let factors := factorsOf signals config in
    let score := scoreOf factors in
    let multiplier := multiplierOf score (oc_maxPremiumMultiplier config) in
    if nlt score (oc_unavailableBelow config) then mkAssessment Unavailable (weakestOf factors) score (oc_maxPremiumMultiplier config)
    else if nlt score (oc_degradedBelow config) then mkAssessment Degraded (weakestOf factors) score multiplier
    else mkAssessment Available None score multiplier.

(** * Quotes *)

Record CreateQuoteDto := mkQuoteDto { qd_coverageType : string; qd_coverageAmount : num; qd_durationDays : Z; qd_triggerThreshold : option num }.
Record QuoteResult := mkQuote {
  qr_coverageType : string; qr_coverageAmount : num; qr_premium : num; qr_premiumPct : string; qr_durationDays : Z; qr_triggerThreshold : option num;
  qr_expiresAt : string; qr_poolUtilization : string; qr_availableCapacity : string;
  qr_oracleConfidence : option (Verdict * option ConfidenceReason * num); qr_warning : option string }.

(** The body of a [BadRequestException]. *)
Inductive QuoteError :=
| UnknownCoverage (error : string)
| FeedsUnavailable (error : string) (availability : CoverageAvailability)
| DurationTooLong (error : string) (maxDuration : Z)
| MockedSource (error : string)
| LowConfidence (error : string) (reason : option ConfidenceReason).
Definition errorText (e : QuoteError) : string :=
  match e with UnknownCoverage s | FeedsUnavailable s _ | DurationTooLong s _ | MockedSource s | LowConfidence s _ => s end.

Definition DEFAULT_THRESHOLDS : list (string * num) :=
  [("StablecoinDepeg", 500); ("MarketCrash", 3000); ("LiquidationShield", 100); ("SmartContractRisk", 100); ("FlightDelay", 120)]%string%float.

(** 0.03. *)
Definition BASE_RATE : num := 0x1.eb851eb851eb8p-6%float.

Definition calcPremium (coverageAmount riskMultiplier : num) (durationDays : Z) : num :=
  let annualPremium := (coverageAmount * BASE_RATE * riskMultiplier)%float in
  let dailyPremium := (annualPremium / 365)%float in
  fixedNum 4 (dailyPremium * num_of_Z durationDays)%float.

Section Service.
Context `{JsHost} (catalog : Catalog) (config : OracleConfidenceConfig).

Definition createQuote (trust : option Trust) (dto : CreateQuoteDto) (signals : option OracleConfidenceSignals) (now : Z) : res QuoteError QuoteResult :=
  let coverageType := qd_coverageType dto in
  match coverageTypeByName catalog coverageType with
  | None => Err (UnknownCoverage ("Unknown coverage type: " +:+ coverageType))
  | Some entry =>
      let availability := (fun t => getCoverageAvailability t coverageType now) <$> trust in
      match availability with
      | Some (mkAvailability false _ _ _ as a) => Err (FeedsUnavailable (ct_name entry +:+ " coverage is unavailable") a)
      | _ =>
          if ct_maxDuration entry <? qd_durationDays dto
          then Err (DurationTooLong (ct_name entry +:+ " coverage is limited to " +:+ showZ (ct_maxDuration entry) +:+ " day(s)") (ct_maxDuration entry))
          else
            match ct_triggerSource entry with
            | MockedTrigger => Err (MockedSource (ct_name entry +:+ " coverage is unavailable: its trigger data is not live"))
            | LiveTrigger =>
                let oracleConfidence := (fun s => assessOracleConfidence s config) <$> signals in
                match oracleConfidence with
                | Some (mkAssessment Unavailable reason _ _) => Err (LowConfidence (ct_name entry +:+ " coverage is unavailable: oracle confidence is too low") reason)
                | _ =>
                    let multiplier := match oracleConfidence with Some a => as_multiplier a | None => 1%float end in
                    let premium := calcPremium (qd_coverageAmount dto) (ct_riskMultiplier entry * multiplier)%float (qd_durationDays dto) in
                    Ok (mkQuote coverageType (qd_coverageAmount dto) premium
                          (toFixed 4 (premium / qd_coverageAmount dto * 100)%float) (qd_durationDays dto)
                          (match qd_triggerThreshold dto with Some x => Some x | None => jm_get DEFAULT_THRESHOLDS coverageType end)
                          (String.string_of_list_ascii (isoText (now + qd_durationDays dto * 86400000)))
                          "42%" "4,200,000"
                          ((fun a => (as_verdict a, as_reason a, as_multiplier a)) <$> oracleConfidence)
                          (match oracleConfidence with
                           | Some (mkAssessment Degraded reason _ m) =>
                               Some ("Oracle confidence is degraded (" +:+ match reason with Some r => confidenceReasonText r | None => "null" end +:+
                                     "); premium includes a " +:+ numToString m +:+ "x multiplier")
                           | _ => None
                           end))
                end
            end
      end
  end.

Inductive QuoteComparisonEntry :=
| Quoted (coverageType : string) (quote : QuoteResult)
| Rejected (coverageType : string) (error : string) (maxDuration : option Z).

Definition CoverageTypeName : list string := ["StablecoinDepeg"; "MarketCrash"; "LiquidationShield"; "SmartContractRisk"; "FlightDelay"]%string.

Definition compareEntry (trust : option Trust) (amount : num) (days now : Z) (coverageType : string) : QuoteComparisonEntry :=
  match createQuote trust (mkQuoteDto coverageType amount days None) None now with
  | Ok quote => Quoted coverageType quote
  | Err e => Rejected coverageType (errorText e) (match e with DurationTooLong _ m => Some m | _ => None end)
  end.

Definition compareQuotes (trust : option Trust) (amount : num) (days : Z) (coverageTypes : option (list string)) (now : Z) : list QuoteComparisonEntry :=
  let requested := default CoverageTypeName coverageTypes in
  map (compareEntry trust amount days now) (List.filter (fun c => bool_decide (c ∈ requested)) CoverageTypeName).

Record CoverageTypeInfo := mkInfo {
  ci_id : string; ci_name : string; ci_description : string; ci_trigger : string; ci_riskLevel : string; ci_maxDuration : Z; ci_riskMultiplier : num;
  ci_available : bool; ci_requiredFeeds : list string; ci_unavailableReason : option string }.

Definition listCoverageTypes (trust : option Trust) (now : Z) : list CoverageTypeInfo :=
  map (fun t =>
    let availability := (fun tr => getCoverageAvailability tr (ct_key t) now) <$> trust in
    mkInfo (ct_key t) (ct_name t) (ct_description t) (ct_trigger t) (ct_riskLevel t) (ct_maxDuration t) (ct_riskMultiplier t)
      (match availability with Some a => av_available a | None => true end) (match availability with Some a => av_requiredFeeds a | None => [] end)
      (match availability with Some a => av_reason a | None => None end)) catalog.
End Service.

(** * When a quote is given *)

(** A quote is issued exactly on its terms: the product exists, each of its
    required feeds is available when a trust service is wired, the duration is within
    the product's limit, its trigger data is live, and the oracle confidence, when
    signals are given, is not too low; the premium is then the base rate on the amount
    under the product's risk and the confidence multiplier. *)
Theorem quote_iff_terms_hold `{JsHost} catalog config trust dto signals now :
  (∀ q, createQuote catalog config trust dto signals now = Ok q ->
     ∃ entry, coverageTypeByName catalog (qd_coverageType dto) = Some entry ∧
       qr_premium q = calcPremium (qd_coverageAmount dto)
         (ct_riskMultiplier entry * match signals with Some s => as_multiplier (assessOracleConfidence s config) | None => 1 end)%float (qd_durationDays dto)) ∧
  (is_ok (createQuote catalog config trust dto signals now) = true <->
     ∃ entry, coverageTypeByName catalog (qd_coverageType dto) = Some entry ∧
       (∀ t, trust = Some t -> av_available (getCoverageAvailability t (qd_coverageType dto) now) = true) ∧
       qd_durationDays dto <= ct_maxDuration entry ∧ ct_triggerSource entry = LiveTrigger ∧
       (∀ s, signals = Some s -> as_verdict (assessOracleConfidence s config) ≠ Unavailable)).
Proof.
  unfold createQuote. destruct (coverageTypeByName _ _) as [entry|]; [|split; [done|split; [done|naive_solver]]].
  destruct (match (fun t => getCoverageAvailability t (qd_coverageType dto) now) <$> trust with Some (mkAvailability false _ _ _) => false | _ => true end) eqn:Ea.
  - assert (forall t, trust = Some t -> av_available (getCoverageAvailability t (qd_coverageType dto) now) = true) as Hav.
    { intros t ->. cbn in Ea. by destruct (getCoverageAvailability _ _ _) as [[] ? ? ?]. }
    assert (forall A (x : CoverageAvailability -> A) (y : A), match (fun t => getCoverageAvailability t (qd_coverageType dto) now) <$> trust with Some (mkAvailability false _ _ _ as a) => x a | _ => y end = y) as Hm.
    { intros A x y. destruct trust; [|done]. cbn in *. by destruct (getCoverageAvailability _ _ _) as [[] ? ? ?]. }
    rewrite (Hm _ (fun a => Err _)). clear Hm Ea. destruct (ct_maxDuration entry <? _) eqn:Ed.
    { apply Z.ltb_lt in Ed. split; [done|]. split; [done|]. intros (e & [= <-] & _ & Hd & _). lia. }
    apply Z.ltb_ge in Ed. destruct (ct_triggerSource entry) eqn:Es; [|split; [done|]; split; [done|]; intros (e & [= <-] & _ & _ & Ht & _); congruence].
    destruct signals as [s|]; cbn.
    + destruct (assessOracleConfidence s config) as [[] reason score m] eqn:Eas; cbn.
      * split; [intros q [= <-]; by exists entry|]. split; [|done]. intros _. exists entry. split_and!; [done..|]. intros s' [= <-]. by rewrite Eas.
      * split; [intros q [= <-]; by exists entry|]. split; [|done]. intros _. exists entry. split_and!; [done..|]. intros s' [= <-]. by rewrite Eas.
      * split; [done|]. split; [done|]. intros (e & _ & _ & _ & _ & Hs). specialize (Hs s eq_refl). by rewrite Eas in Hs.
    + split; [intros q [= <-]; by exists entry|]. split; [|done]. intros _. exists entry. split_and!; done.
  - destruct trust as [t|]; [|done]. cbn in *. destruct (getCoverageAvailability t _ _) as [[] req un why] eqn:Eg; [done|].
    split; [done|]. split; [done|]. intros (e & _ & Ht & _). specialize (Ht t eq_refl). by rewrite Eg in Ht.
Qed.

Lemma quote_terms_demo : is_ok (@createQuote demoHost COVERAGE_TYPES DEFAULT_ORACLE_CONFIDENCE_CONFIG None
  (mkQuoteDto "MarketCrash" 1000 30 None) (Some (mkSignals 3 2 60 false false false)) 0) = true.
Proof. vm_compute. reflexivity. Qed.

(** * The premium multiplier stays within its cap *)

(** The rounding of [m * 2^e] over any common exponent. *)
Lemma fixedInt_scaled k m e ez : 0 <= k -> ez <= e -> ez <= 0 ->
  (if 0 <=? e then Z.pos m * 2 ^ e * 10 ^ k else (2 * Z.pos m * 10 ^ k + 2 ^ (- e)) / 2 ^ (- e + 1))
  = (2 * (Z.pos m * 2 ^ (e - ez)) * 10 ^ k + 2 ^ (- ez)) / 2 ^ (- ez + 1).
Proof.
  intros Hk He Hz. assert (0 < 2 ^ (- ez)) as P by (apply Z.pow_pos_nonneg; lia). destruct (Z.leb_spec 0 e) as [Hp|Hn].
  - replace (e - ez) with (e + - ez) by lia. rewrite Z.pow_add_r, (Z.pow_add_r 2 (- ez) 1) by lia. change (2 ^ 1) with 2.
    set (p := 2 ^ (- ez)) in *. apply (Z.div_unique _ _ _ p); [left; clearbody p; lia|ring].
  - replace (- ez) with (- e + (e - ez)) at 1 by lia. replace (- ez + 1) with (- e + 1 + (e - ez)) by lia. rewrite !(Z.pow_add_r 2 _ (e - ez)) by lia.
    assert (0 < 2 ^ (e - ez)) as P2 by (apply Z.pow_pos_nonneg; lia). assert (0 < 2 ^ (- e + 1)) as P3 by (apply Z.pow_pos_nonneg; lia).
    rewrite <- (Z.div_mul_cancel_r _ (2 ^ (- e + 1)) (2 ^ (e - ez))) by (clear -P2 P3; lia). f_equal. ring.
Qed.

Lemma fixedInt_mono k x y nx ny : 0 <= k -> nle x y = true -> fixedInt k x = Some nx -> fixedInt k y = Some ny -> nlt 0%float x = true -> nx <= ny.
Proof.
  intros Hk Hle Hx Hy Hpos. unfold nle in Hle. unfold nlt in Hpos. rewrite leb_spec in Hle. rewrite ltb_spec in Hpos. change (Prim2SF 0%float) with (S754_zero false) in Hpos.
  unfold fixedInt in Hx, Hy. pose proof (Prim2SF_valid x) as Vx. pose proof (Prim2SF_valid y) as Vy.
  destruct (Prim2SF x) as [|[]| |[] mx ex]; try done. destruct (Prim2SF y) as [|[]| |[] my ey]; try done.
  pose proof (SFcompare_scaled _ _ _ _ _ _ Vx Vy) as Hc. unfold SFleb in Hle. rewrite Hc in Hle. unfold scaled, cond_Zopp in Hle.
  set (e0 := Z.min ex ey) in *. assert (Z.pos mx * 2 ^ (ex - e0) <= Z.pos my * 2 ^ (ey - e0)) as Hm.
  { destruct (Z.compare_spec (Z.pos mx * 2 ^ (ex - e0)) (Z.pos my * 2 ^ (ey - e0))); [lia|lia|done]. }
  set (ez := Z.min e0 0). injection Hx as <-. injection Hy as <-. rewrite (fixedInt_scaled k mx ex ez), (fixedInt_scaled k my ey ez) by lia.
  apply Z.div_le_mono; [apply Z.pow_pos_nonneg; lia|]. apply Z.add_le_mono_r. apply Z.mul_le_mono_nonneg_r; [apply Z.pow_nonneg; lia|].
  apply Z.mul_le_mono_nonneg_l; [lia|]. replace (ex - ez) with (ex - e0 + (e0 - ez)) by lia. replace (ey - ez) with (ey - e0 + (e0 - ez)) by lia.
  rewrite !Z.pow_add_r by lia. rewrite !Z.mul_assoc. apply Z.mul_le_mono_nonneg_r; [apply Z.pow_nonneg; lia|done].
Qed.

Lemma is_nan_notNaN x : notNaN x -> PrimFloat.is_nan x = false.
Proof. intros Hx. unfold PrimFloat.is_nan. rewrite eqb_spec. unfold SFeqb. rewrite SFcompare_key by done. by rewrite lex3_refl. Qed.

Lemma neq_nle x y : notNaN x -> notNaN y -> neq x y = true -> nle x y = true ∧ nle y x = true.
Proof.
  intros Hx Hy. unfold neq. rewrite eqb_spec. unfold SFeqb. rewrite SFcompare_key by done. rewrite !nle_key by done.
  rewrite (lex3_antisym (sf_key (Prim2SF x)) (sf_key (Prim2SF y))). by destruct (lex3 _ _).
Qed.

(** A clamped number is between the bounds. *)
Lemma clamp_between v lo hi : notNaN v -> notNaN lo -> notNaN hi -> nle lo hi = true -> notNaN (clamp v lo hi) ∧ nle lo (clamp v lo hi) = true ∧ nle (clamp v lo hi) hi = true.
Proof.
  intros Hv Hl Hh Hle. unfold clamp. assert (notNaN (nmax lo v) ∧ nle lo (nmax lo v) = true) as [Hm1 Hm2].
  { unfold nmax. rewrite (is_nan_notNaN lo), (is_nan_notNaN v) by done. destruct (nlt lo v) eqn:E.
    - split; [done|]. rewrite nlt_not_nle in E by done. destruct (nle_total lo v); [done..|]. apply negb_true_iff in E. congruence.
    - destruct (neq lo v) eqn:E2; [|split; [done|by apply nle_refl]]. destruct (neq_nle lo v Hl Hv E2). destruct (PrimFloat.get_sign lo); [done|split; [done|by apply nle_refl]]. }
  set (m := nmax lo v) in *. clearbody m. unfold nmin. rewrite (is_nan_notNaN hi), (is_nan_notNaN m) by done. destruct (nlt m hi) eqn:E.
  - rewrite nlt_not_nle in E by done. apply negb_true_iff in E. destruct (nle_total m hi); [done..| |congruence]. done.
  - destruct (neq hi m) eqn:E2; [|split_and!; [done|done|by apply nle_refl]]. destruct (neq_nle hi m Hh Hm1 E2).
    destruct (PrimFloat.get_sign m); [done|split_and!; [done|done|by apply nle_refl]].
Qed.

(** The premium multiplier respects its cap, up to the rounding of the cap to
    four decimals: whenever a quote is not refused, the multiplier is a number of
    ten-thousandths, at least one and at most the cap so rounded. *)
Theorem multiplier_within_cap signals config cap
    (Hq : as_verdict (assessOracleConfidence signals config) ≠ Unavailable)
    (Hcap : fixedInt 4 (oc_maxPremiumMultiplier config) = Some cap) (Hmax : cap < 10 ^ 25)
    (Hone : nle 1 (oc_maxPremiumMultiplier config) = true)
    (Hscore : notNaN (1 + (1 - as_score (assessOracleConfidence signals config)) * (oc_maxPremiumMultiplier config - 1))%float) :
  ∃ n, as_multiplier (assessOracleConfidence signals config) = num_of_ratio n (10 ^ 4) ∧ 10 ^ 4 <= n <= cap.
Proof.
  set (mx := oc_maxPremiumMultiplier config) in *.
  assert (as_multiplier (assessOracleConfidence signals config) = multiplierOf (as_score (assessOracleConfidence signals config)) mx) as ->.
  { revert Hq. unfold assessOracleConfidence. repeat (case_match; [done|]). repeat case_match; done. }
  unfold multiplierOf. set (v := (1 + _)%float) in *. assert (notNaN 1%float) as H1 by by vm_compute.
  assert (notNaN mx) as Hmx by (intros E; unfold fixedInt in Hcap; by rewrite E in Hcap).
  destruct (clamp_between v 1 mx Hscore H1 Hmx Hone) as (Hc & Hlo & Hhi). set (c := clamp v 1 mx) in *. clearbody c.
  assert (notNaN 0%float) as H0 by by vm_compute.
  assert (nlt 0%float c = true) as Hpos.
  { rewrite (nlt_not_nle 0 c H0 Hc). apply negb_true_iff. destruct (nle c 0) eqn:E; [|done].
    pose proof (nle_trans 1 c 0 H1 Hc H0 Hlo E) as Hx. by vm_compute in Hx. }
  assert (∃ n, fixedInt 4 c = Some n) as [n Hn].
  { unfold nle in Hhi. unfold nlt in Hpos. rewrite leb_spec in Hhi. rewrite ltb_spec in Hpos. change (Prim2SF 0%float) with (S754_zero false) in Hpos. unfold fixedInt in *.
    destruct (Prim2SF c) as [|[]| |[] m e]; [eauto|done| |done|done|eauto]. destruct (Prim2SF mx) as [|[]| |[] m e]; done. }
  exists n. pose proof (fixedInt_mono 4 c mx n cap ltac:(lia) Hhi Hn Hcap Hpos).
  pose proof (fixedInt_mono 4 1 c (10 ^ 4) n ltac:(lia) Hlo ltac:(by vm_compute) Hn ltac:(by vm_compute)).
  unfold fixedNum. rewrite Hn. rewrite (proj2 (Z.ltb_lt n (10 ^ (21 + 4)))) by lia. rewrite (proj2 (Z.eqb_neq n 0)) by lia. split; [done|lia].
Qed.

Lemma multiplier_within_cap_witness :
  let s := mkSignals 3 2 330 false false false in
  as_verdict (assessOracleConfidence s DEFAULT_ORACLE_CONFIDENCE_CONFIG) = Available ∧
  ∃ n, as_multiplier (assessOracleConfidence s DEFAULT_ORACLE_CONFIDENCE_CONFIG) = num_of_ratio n (10 ^ 4) ∧ 10 ^ 4 <= n <= 15000.
Proof.
  split; [vm_compute; reflexivity|]. apply multiplier_within_cap.
  - vm_compute. discriminate.
  - vm_compute. reflexivity.
  - lia.
  - vm_compute. reflexivity.
  - vm_compute. discriminate.
Defined.

(** * Behaviour the comments do not describe *)

(** A configured freshness window of zero, which the environment reader accepts, makes
    the score of a perfectly fresh feed NaN; no comparison holds, so the feed counts as
    available, and the premium of its quote is NaN. *)
Theorem zero_window_prices_nan :
  let config := mkConfidenceConfig 2 2 0 0.5 0x1.999999999999ap-1 0.5 1.5 in
  let signals := mkSignals 3 2 0 false false false in
  oc_maxFreshnessSeconds (oracleConfidenceConfigFromEnv (fun k => if bool_decide (k = "ORACLE_CONFIDENCE_MAX_FRESHNESS_SECONDS"%string) then Some "0"%string else None)) = 0%float ∧
  as_verdict (assessOracleConfidence signals config) = Available ∧
  match @createQuote demoHost COVERAGE_TYPES config None (mkQuoteDto "MarketCrash" 1000 30 None) (Some signals) 0 with
  | Ok q => PrimFloat.is_nan (qr_premium q) = true
  | Err _ => False
  end.
Proof. vm_compute. auto. Qed.

(** The multiplier is rounded after it was clamped: a cap with more than four decimals
    can be exceeded. *)
Theorem rounding_exceeds_cap :
  let cap := toNumber "1.23456" in
  let config := mkConfidenceConfig 2 2 300 0.5 0x1.999999999999ap-1 0 cap in
  let a := assessOracleConfidence (mkSignals 3 0 0 false false false) config in
  as_verdict a = Degraded ∧ nlt cap (as_multiplier a) = true.
Proof. vm_compute. auto. Qed.

(** Drafts are looked up like live products by the quote service, and a product that
    is published does not enter the live list, which was computed at load. *)
Theorem drafts_are_quoted_and_stay_hidden :
  let draft := draftCoverageType (mkCoverageType 5 "Hail" "Hail" "" "low" 1 3 1000 30 10 "" LiveTrigger Draft None) "alice" "t0" in
  let catalog := COVERAGE_TYPES ++ [draft] in
  let live := liveAtLoad catalog in
  is_ok (@createQuote demoHost catalog DEFAULT_ORACLE_CONFIDENCE_CONFIG None (mkQuoteDto "Hail" 100 10 None) None 0) = true ∧
  is_Some (publishCoverageType catalog 5 "bob" "t1").2 ∧
  liveCoverageTypeByName live (publishCoverageType catalog 5 "bob" "t1").1 "Hail" = None.
Proof. vm_compute. eauto. Qed.
