(* ===== verification/ActivityAnomaly.v ===== *)
(** Claim activity anomalies (src/claim/claim-activity-anomaly-detector.ts): a sliding
    window of claims whose volume, concentration and frequency per coverage type are
    checked against limits; a breach trips the payout breaker, once per window.

    The key of a tripped window is the text "window:coverage:code"; here it is the
    triple, which the text determines.  Payouts are binary64 numbers. *)

From stdpp Require Import base list strings sorting sets.
From Stdlib Require Import ZArith Lia Floats.
From S2P Require Import Prelude Decimal JsNum Canonical.

#[local] Open Scope Z_scope.

Record ClaimActivity := mkActivity {
  ca_claimId : string; ca_policyId : string; ca_coverageType : string; ca_payout : num; ca_triggeredAt : Z; ca_settledAt : Z }.

Record ClaimAnomalyConfig := mkAnomalyConfig {
  ac_windowMs : Z; ac_maximumSettlementVolumeByCoverage : list (string * num); ac_maximumTriggersByCoverage : list (string * Z);
  ac_maximumPolicyPayoutShare : num; ac_minimumPolicyVolumeForConcentration : num; ac_maximumObservations : Z }.

Inductive AnomalyCode := SettlementVolume | PolicyConcentration | TriggerFrequency.
#[global] Instance AnomalyCode_eq_dec : EqDecision AnomalyCode.
Proof. solve_decision. Defined.
Record ClaimActivityAnomaly := mkAnomaly { an_coverageType : string; an_code : AnomalyCode; an_observed : num; an_limit : num; an_message : string }.

Definition COVERAGE_TYPES : list string := ["StablecoinDepeg"; "MarketCrash"; "LiquidationShield"; "SmartContractRisk"; "FlightDelay"]%string.
Definition MAX_PAYOUT : num := 1000000000000000000%float.
Definition MAX_SAFE_INTEGER : Z := 2 ^ 53 - 1.

Definition WindowKey : Type := Z * string * AnomalyCode.
Record Detector := mkDetector { dt_observations : list (string * ClaimActivity); dt_trippedWindows : list WindowKey }.
(** [payoutBreaker.trip(coverageType, reason, now)]. *)
Record Trip := mkTrip { tp_coverageType : string; tp_reason : string; tp_now : Z }.

Section Detector.
Context `{JsHost} (config : ClaimAnomalyConfig).
(** [(share * 100).toFixed(2)]. *)
Variable toFixed2 : num -> string.

(** The checks of the constructor. *)
Definition validConfig : bool :=
  (1 <=? ac_windowMs config) && (1 <=? ac_maximumObservations config) &&
  isFinite (ac_maximumPolicyPayoutShare config) && nlt 0 (ac_maximumPolicyPayoutShare config) && nle (ac_maximumPolicyPayoutShare config) 1 &&
  isFinite (ac_minimumPolicyVolumeForConcentration config) && nle 0 (ac_minimumPolicyVolumeForConcentration config) &&
  forallb (fun kv => bool_decide (kv.1 ∈ COVERAGE_TYPES) && isFinite kv.2 && nlt 0 kv.2) (ac_maximumSettlementVolumeByCoverage config) &&
  forallb (fun kv => bool_decide (kv.1 ∈ COVERAGE_TYPES) && (1 <=? kv.2)) (ac_maximumTriggersByCoverage config).

Definition idOk (s : string) : bool := Nat.leb 1 (String.length s) && Nat.leb (String.length s) 128.
Definition timeOk (t : Z) : bool := (0 <=? t) && (t <=? MAX_SAFE_INTEGER).
Definition activityOk (a : ClaimActivity) : bool :=
  idOk (ca_claimId a) && idOk (ca_policyId a) && bool_decide (ca_coverageType a ∈ COVERAGE_TYPES) &&
  isFinite (ca_payout a) && nle 0 (ca_payout a) && nle (ca_payout a) MAX_PAYOUT && timeOk (ca_triggeredAt a) && timeOk (ca_settledAt a).

(** A new claim is appended and the oldest entries beyond the maximum are dropped. *)
Definition record (d : Detector) (a : ClaimActivity) : res string Detector :=
  if negb (activityOk a) then Err "Invalid claim activity observation"%string
  else if jm_has (dt_observations d) (ca_claimId a) then Ok d
  else
    let all := jm_set (dt_observations d) (ca_claimId a) a in
    Ok (mkDetector (drop (Z.to_nat (Z.of_nat (length all) - ac_maximumObservations config)) all) (dt_trippedWindows d)).

Definition inWindow (windowStart now t : Z) : bool := (windowStart <=? t) && (t <=? now).

Definition live (windowStart : Z) (a : ClaimActivity) : bool := (windowStart <=? ca_triggeredAt a) || (windowStart <=? ca_settledAt a).
Definition prune (d : Detector) (windowStart : Z) : list (string * ClaimActivity) := List.filter (fun kv => live windowStart kv.2) (dt_observations d).

Definition coverageEvents (active : list ClaimActivity) (coverageType : string) : list ClaimActivity :=
  List.filter (fun e => bool_decide (ca_coverageType e = coverageType)) active.
Definition settledIn (active : list ClaimActivity) (coverageType : string) (windowStart now : Z) : list ClaimActivity :=
  List.filter (fun e => inWindow windowStart now (ca_settledAt e)) (coverageEvents active coverageType).
Definition triggersIn (active : list ClaimActivity) (coverageType : string) (windowStart now : Z) : list ClaimActivity :=
  List.filter (fun e => inWindow windowStart now (ca_triggeredAt e)) (coverageEvents active coverageType).
Definition volumeOf (settled : list ClaimActivity) : num := foldl (fun sum e => (sum + ca_payout e)%float) 0%float settled.
Definition byPolicy (settled : list ClaimActivity) : list (string * num) :=
  foldl (fun m e => jm_set m (ca_policyId e) (default 0 (jm_get m (ca_policyId e)) + ca_payout e)%float) [] settled.

Definition volumeAnomalies (coverageType : string) (volume : num) : list ClaimActivityAnomaly :=
  match jm_get (ac_maximumSettlementVolumeByCoverage config) coverageType with
  | Some limit => if ngt volume limit then [mkAnomaly coverageType SettlementVolume volume limit
                    ("Settlement volume " +:+ numToString volume +:+ " exceeds limit " +:+ numToString limit)] else []
  | None => []
  end.
Definition frequencyAnomalies (coverageType : string) (count : Z) : list ClaimActivityAnomaly :=
  match jm_get (ac_maximumTriggersByCoverage config) coverageType with
  | Some limit => if limit <? count then [mkAnomaly coverageType TriggerFrequency (num_of_Z count) (num_of_Z limit)
                    ("Trigger frequency " +:+ showZ count +:+ " exceeds limit " +:+ showZ limit)] else []
  | None => []
  end.
Definition concentrationAnomalies (coverageType : string) (volume : num) (settled : list ClaimActivity) : list ClaimActivityAnomaly :=
  if nge volume (ac_minimumPolicyVolumeForConcentration config)
  then flat_map (fun kv =>
         let share := (kv.2 / volume)%float in
         if ngt share (ac_maximumPolicyPayoutShare config)
         then [mkAnomaly coverageType PolicyConcentration share (ac_maximumPolicyPayoutShare config)
                 ("Policy " +:+ kv.1 +:+ " accounts for " +:+ toFixed2 (share * 100)%float +:+ "% of settled payouts")]
         else []) (byPolicy settled)
  else [].

Definition anomaliesOf (active : list ClaimActivity) (windowStart now : Z) (coverageType : string) : list ClaimActivityAnomaly :=
  let settled := settledIn active coverageType windowStart now in
  let volume := volumeOf settled in
  volumeAnomalies coverageType volume ++
  frequencyAnomalies coverageType (Z.of_nat (length (triggersIn active coverageType windowStart now))) ++
  concentrationAnomalies coverageType volume settled.

Definition monitored : list string :=
  setOf (jm_keys (ac_maximumSettlementVolumeByCoverage config) ++ jm_keys (ac_maximumTriggersByCoverage config)).

(** One anomaly against the windows already tripped. *)
Definition tripOne (windowId now : Z) (st : list WindowKey * list Trip) (a : ClaimActivityAnomaly) : list WindowKey * list Trip :=
  let key := (windowId, an_coverageType a, an_code a) in
  if bool_decide (key ∈ st.1) then st else (st.1 ++ [key], st.2 ++ [mkTrip (an_coverageType a) (an_message a) now]).

Definition pruneTrippedWindows (currentWindow : Z) (keys : list WindowKey) : list WindowKey :=
  List.filter (fun k => negb (k.1.1 <? currentWindow - 1)) keys.

Definition evaluate (d : Detector) (now : Z) : Detector * list ClaimActivityAnomaly * list Trip :=
  let windowStart := now - ac_windowMs config in
  let observations := prune d windowStart in
  let anomalies := flat_map (anomaliesOf (jm_values observations) windowStart now) monitored in
  let windowId := now / ac_windowMs config in
  let '(tripped, trips) := foldl (tripOne windowId now) (dt_trippedWindows d, []) anomalies in
  (mkDetector observations (pruneTrippedWindows windowId tripped), anomalies, trips).

(** * The observations are bounded *)

Lemma record_bounded d a d' : 1 <= ac_maximumObservations config ->
  Z.of_nat (length (dt_observations d)) <= ac_maximumObservations config -> record d a = Ok d' ->
  Z.of_nat (length (dt_observations d')) <= ac_maximumObservations config.
Proof.
  intros Hmax Hd. unfold record. destruct (negb _); [done|]. destruct (jm_has _ _); [by intros [= <-]|]. intros [= <-]. cbn. rewrite length_drop. lia.
Qed.

(** A trigger limit the buffer cannot exceed is never reported: the count of triggers
    is at most the number of observations kept. *)
Lemma frequency_needs_room d now a :
  Z.of_nat (length (dt_observations d)) <= ac_maximumObservations config ->
  a ∈ (evaluate d now).1.2 -> an_code a = TriggerFrequency ->
  ∃ limit, jm_get (ac_maximumTriggersByCoverage config) (an_coverageType a) = Some limit ∧ limit < ac_maximumObservations config.
Proof.
  intros Hd. unfold evaluate. destruct (foldl _ _ _) as [tripped trips] eqn:Ef. cbn. intros Ha Hc.
  apply list_elem_of_In, in_flat_map in Ha as (ct & _ & Ha). unfold anomaliesOf in Ha. rewrite !in_app_iff in Ha. destruct Ha as [Ha|[Ha|Ha]].
  - unfold volumeAnomalies in Ha. repeat case_match; [|done..]. destruct Ha as [<-|[]]. done.
  - unfold frequencyAnomalies in Ha. destruct (jm_get _ ct) as [limit|] eqn:El; [|done]. destruct (limit <? _) eqn:Elt; [|done]. destruct Ha as [<-|[]].
    apply Z.ltb_lt in Elt. exists limit. split; [done|].
    assert (length (triggersIn (jm_values (prune d (now - ac_windowMs config))) ct (now - ac_windowMs config) now) <= length (dt_observations d))%nat; [|lia].
    unfold triggersIn, coverageEvents. rewrite !List.filter_length_le. unfold jm_values. rewrite length_fmap. unfold prune. by rewrite List.filter_length_le.
  - unfold concentrationAnomalies in Ha. destruct (nge _ _); [|done]. apply in_flat_map in Ha as (kv & _ & Ha). destruct (ngt _ _); [|done]. destruct Ha as [<-|[]]. done.
Qed.
End Detector.

(** * The breaker trips once per window *)
Section Trips.
Context `{JsHost} (config : ClaimAnomalyConfig) (toFixed2 : num -> string).

(** The trips of a run of anomalies, each with the key it was recorded under. *)
Definition keyed (windowId now : Z) (st : list WindowKey * list (WindowKey * Trip)) (a : ClaimActivityAnomaly) : list WindowKey * list (WindowKey * Trip) :=
  let key := (windowId, an_coverageType a, an_code a) in
  if bool_decide (key ∈ st.1) then st else (st.1 ++ [key], st.2 ++ [(key, mkTrip (an_coverageType a) (an_message a) now)]).

Lemma keyed_trips w now l : forall T log trips, map snd log = trips ->
  foldl (tripOne w now) (T, trips) l = ((foldl (keyed w now) (T, log) l).1, map snd (foldl (keyed w now) (T, log) l).2).
Proof.
  induction l as [|a l IH]; intros T log trips Hl; cbn; [by rewrite Hl|]. unfold tripOne at 2, keyed at 2 4. cbn. case_bool_decide; [by apply IH|].
  apply IH. rewrite map_app. cbn. by rewrite Hl.
Qed.

Inductive Event := ERecord (a : ClaimActivity) | EEvaluate (now : Z).

(** The detector with the log of its trips. *)
Definition stepEvent (s : Detector * list (WindowKey * Trip)) (e : Event) : Detector * list (WindowKey * Trip) :=
  match e with
  | ERecord a => (match record config s.1 a with Ok d => d | Err _ => s.1 end, s.2)
  | EEvaluate now =>
      let anomalies := (evaluate config toFixed2 s.1 now).1.2 in
      ((evaluate config toFixed2 s.1 now).1.1, s.2 ++ (foldl (keyed (now / ac_windowMs config) now) (dt_trippedWindows s.1, []) anomalies).2)
  end.
Definition runEvents (s : Detector * list (WindowKey * Trip)) (es : list Event) : Detector * list (WindowKey * Trip) := foldl stepEvent s es.

(** The log is what the evaluations passed to the breaker. *)
Lemma evaluate_trips d now :
  (evaluate config toFixed2 d now).2 = map snd (foldl (keyed (now / ac_windowMs config) now) (dt_trippedWindows d, []) (evaluate config toFixed2 d now).1.2).2 ∧
  dt_trippedWindows (evaluate config toFixed2 d now).1.1 =
    pruneTrippedWindows (now / ac_windowMs config) (foldl (keyed (now / ac_windowMs config) now) (dt_trippedWindows d, []) (evaluate config toFixed2 d now).1.2).1.
Proof.
  unfold evaluate. rewrite (keyed_trips _ _ _ _ [] []) by done. cbn. done.
Qed.

(** New keys are of this window, distinct, and not yet tripped; every anomaly's key is
    in the set afterwards. *)
Lemma keyed_spec w now l : forall T log0 T' log', foldl (keyed w now) (T, log0) l = (T', log') ->
  ∃ news, T' = T ++ map fst news ∧ log' = log0 ++ news ∧ NoDup (map fst news) ∧
    (forall k, k ∈ map fst news -> (k ∉ T) ∧ k.1.1 = w) ∧ (forall a, a ∈ l -> (w, an_coverageType a, an_code a) ∈ T').
Proof.
  induction l as [|a l IH]; intros T log0 T' log' Hf; cbn in Hf.
  { injection Hf as <- <-. exists []. rewrite !app_nil_r. split_and!; [done|done|constructor|by intros k ?%not_elem_of_nil|by intros a ?%not_elem_of_nil]. }
  unfold keyed at 2 in Hf. cbn in Hf. case_bool_decide as Hin.
  - destruct (IH _ _ _ _ Hf) as (news & -> & -> & Hn & Hk & Ha). exists news. split_and!; [done..|]. intros b [->|Hb]%elem_of_cons; [|by apply Ha].
    apply elem_of_app. by left.
  - destruct (IH _ _ _ _ Hf) as (news & -> & -> & Hn & Hk & Ha). eexists (((w, an_coverageType a, an_code a), _) :: news). rewrite <- !app_assoc. cbn.
    split_and!; [done|done| | |].
    + apply NoDup_cons. split; [|done]. intros Hk'. destruct (Hk _ Hk') as [Hk2 _]. apply Hk2. rewrite elem_of_app, list_elem_of_singleton. by right.
    + intros k [->|Hk']%elem_of_cons; [done|]. destruct (Hk k Hk') as [H1 H2]. split; [|done]. intros HT. apply H1. apply elem_of_app. by left.
    + intros b [->|Hb]%elem_of_cons; [rewrite elem_of_app, elem_of_cons; auto|]. specialize (Ha b Hb). rewrite <- app_assoc in Ha. exact Ha.
Qed.

(** The tripped set holds every logged key of the current and the previous window. *)
Definition tripInv (current : Z) (s : Detector * list (WindowKey * Trip)) : Prop :=
  NoDup (map fst s.2) ∧ (forall k, k ∈ map fst s.2 -> k.1.1 <= current) ∧
  (forall k, k ∈ dt_trippedWindows s.1 -> k ∈ map fst s.2) ∧
  (forall k, k ∈ map fst s.2 -> current - 1 <= k.1.1 -> k ∈ dt_trippedWindows s.1).

Lemma stepEvent_record s a : dt_trippedWindows (stepEvent s (ERecord a)).1 = dt_trippedWindows s.1 ∧ (stepEvent s (ERecord a)).2 = s.2.
Proof. cbn. unfold record. repeat case_match; simplify_eq/=; done. Qed.

Lemma stepEvent_evaluate s now current : current <= now / ac_windowMs config -> tripInv current s ->
  tripInv (now / ac_windowMs config) (stepEvent s (EEvaluate now)) ∧
  forall a, a ∈ (evaluate config toFixed2 s.1 now).1.2 -> (now / ac_windowMs config, an_coverageType a, an_code a) ∈ map fst (stepEvent s (EEvaluate now)).2.
Proof.
  intros Hc (H1 & H2 & H3 & H4). set (w := now / ac_windowMs config) in *. destruct (evaluate_trips s.1 now) as [_ Ht]. fold w in Ht.
  cbn [stepEvent fst snd]. fold w. destruct (foldl (keyed w now) (dt_trippedWindows s.1, []) _) as [T' log'] eqn:Ef. cbn [fst snd] in *.
  destruct (keyed_spec _ _ _ _ _ _ _ Ef) as (news & -> & -> & Hn & Hk & Ha). cbn [app] in *.
  assert (forall k, k ∈ map fst news -> k ∉ map fst s.2) as Hfresh.
  { intros k Hk1 Hk2. destruct (Hk k Hk1) as [HT Hw]. apply HT, H4; [done|]. specialize (H2 k Hk2). lia. }
  unfold tripInv. cbn [fst snd]. rewrite map_app. split; [split_and!|].
  - apply NoDup_app. split_and!; [done| |done]. intros k Hk2 Hk1. by apply (Hfresh k).
  - intros k [Hk2|Hk1]%elem_of_app; [specialize (H2 k Hk2); lia|]. destruct (Hk k Hk1). lia.
  - rewrite Ht. unfold pruneTrippedWindows. intros k [Hk2 _]%list_elem_of_In%filter_In.
    apply list_elem_of_In in Hk2. apply elem_of_app in Hk2 as [Hk2|Hk2]; apply elem_of_app; [left; by apply H3|by right].
  - rewrite Ht. unfold pruneTrippedWindows. intros k Hk2 Hw. apply list_elem_of_In, filter_In. split.
    + apply list_elem_of_In, elem_of_app. apply elem_of_app in Hk2 as [Hk2|Hk2]; [left; apply H4; [done|lia]|by right].
    + apply negb_true_iff, Z.ltb_ge. done.
  - intros a Hin. specialize (Ha a Hin). apply elem_of_app in Ha as [Ha|Ha]; apply elem_of_app; [left; by apply H3|by right].
Qed.

Definition evaluations (es : list Event) : list Z := omap (fun e => match e with EEvaluate now => Some now | _ => None end) es.

Lemma runEvents_inv now es : forall s current, 1 <= ac_windowMs config -> StronglySorted Z.le (evaluations (es ++ [EEvaluate now])) ->
  (forall n, n ∈ evaluations (es ++ [EEvaluate now]) -> current <= n / ac_windowMs config) -> tripInv current s ->
  ∃ current', current' <= now / ac_windowMs config ∧ tripInv current' (runEvents s es).
Proof.
  induction es as [|e es IH]; intros s current Hw Hs Hc Hi; [exists current; split; [apply Hc; cbn; left|done]|]. destruct e as [a|n].
  - cbn in Hs, Hc. apply (IH (stepEvent s (ERecord a)) current); [done..|]. destruct (stepEvent_record s a) as [E1 E2]. unfold tripInv. by rewrite E1, E2.
  - cbn in Hs, Hc. inversion_clear Hs as [|? ? Hs' Hall]. apply (IH (stepEvent s (EEvaluate n)) (n / ac_windowMs config)); [done|done| |].
    + intros m Hm. rewrite Forall_forall in Hall. apply Z.div_le_mono; [lia|by apply Hall].
    + eapply stepEvent_evaluate; [|done]. apply Hc. left.
Qed.

(** The breaker is tripped for every breach, and once per window.  Under a clock
    that does not go back, over any sequence of claims and evaluations, no window,
    coverage type and kind of breach trips the breaker twice, and every anomaly that
    an evaluation reports has tripped the breaker in its window by the end of that
    evaluation. *)
Theorem breach_trips_once_per_window es now
    (Hw : 1 <= ac_windowMs config) (Hs : StronglySorted Z.le (evaluations (es ++ [EEvaluate now]))) :
  let s := runEvents (mkDetector [] [], []) es in
  let s' := runEvents (mkDetector [] [], []) (es ++ [EEvaluate now]) in
  NoDup (map fst s'.2) ∧
  ∀ a, a ∈ (evaluate config toFixed2 s.1 now).1.2 -> (now / ac_windowMs config, an_coverageType a, an_code a) ∈ map fst s'.2.
Proof.
  cbv zeta. set (s := runEvents _ es). assert (runEvents (mkDetector [] [], []) (es ++ [EEvaluate now]) = stepEvent s (EEvaluate now)) as -> by (unfold runEvents; by rewrite foldl_app).
  destruct (evaluations (es ++ [EEvaluate now])) as [|n0 ns] eqn:En; [unfold evaluations in En; rewrite omap_app in En; by destruct (omap _ es)|].
  destruct (runEvents_inv now es (mkDetector [] [], []) (n0 / ac_windowMs config)) as (current & Hle & Hi); [done|by rewrite En| | |].
  - rewrite En. inversion_clear Hs as [|? ? _ Hall]. rewrite Forall_forall in Hall. intros n [->|Hn]%elem_of_cons; [lia|]. apply Z.div_le_mono; [lia|by apply Hall].
  - split_and!; [constructor|..]; by intros k ?%not_elem_of_nil.
  - destruct (stepEvent_evaluate s now current Hle Hi) as [(Hnd & _) Ha]. done.
Qed.
End Trips.

(** * Examples *)

Definition demoClaim (id : string) (t : Z) : ClaimActivity := mkActivity id "p1" "MarketCrash" 10 t t.
Definition demoAnomalyConfig : ClaimAnomalyConfig := mkAnomalyConfig 1000 [("MarketCrash"%string, 15%float)] [("MarketCrash"%string, 2)] 1 0 10.

Lemma breach_trips_once_per_window_witness :
  let es := [ERecord (demoClaim "a" 100); ERecord (demoClaim "b" 110); EEvaluate 200] in
  (0, "MarketCrash"%string, SettlementVolume) ∈ map fst (@runEvents demoHost demoAnomalyConfig (fun _ => ""%string) (mkDetector [] [], []) (es ++ [EEvaluate 300])).2 ∧
  NoDup (map fst (@runEvents demoHost demoAnomalyConfig (fun _ => ""%string) (mkDetector [] [], []) (es ++ [EEvaluate 300])).2).
Proof.
  destruct (@breach_trips_once_per_window demoHost demoAnomalyConfig (fun _ => ""%string)
    [ERecord (demoClaim "a" 100); ERecord (demoClaim "b" 110); EEvaluate 200] 300) as [Hn Ha].
  - cbn. lia.
  - cbn. repeat constructor; lia.
  - split; [|exact Hn]. apply (Ha (mkAnomaly "MarketCrash" SettlementVolume 20 15 "Settlement volume 20 exceeds limit 15")). vm_compute. left.
Defined.

(** A buffer smaller than a trigger limit is accepted by the constructor, and then the
    limit is never reported, however many claims are triggered at once. *)
Theorem small_buffer_hides_frequency :
  let config := mkAnomalyConfig 1000 [] [("MarketCrash"%string, 2)] 1 0 2 in
  let s := @runEvents demoHost config (fun _ => ""%string) (mkDetector [] [], [])
    [ERecord (demoClaim "a" 100); ERecord (demoClaim "b" 101); ERecord (demoClaim "c" 102); ERecord (demoClaim "d" 103)] in
  @validConfig config = true ∧ (@evaluate demoHost config (fun _ => ""%string) s.1 200).1.2 = [].
Proof. vm_compute. auto. Qed.
