(* ===== verification/RateLimits.v ===== *)
(** Fixed-window rate limits: the limiter of the operator endpoints
    (src/oracle/admin/actor-rate-limiter.ts) and the Express middleware
    (src/common/rate-limit.ts).

    Times are milliseconds and counts are integers.  A limiter reads the clock
    once for its window ([now]) and once more for the time it reports back
    ([later]). *)

From stdpp Require Import base list strings.
From Stdlib Require Import ZArith Lia Ascii Sorted.
From S2P Require Import Prelude Decimal JsNum JsParse Canonical Consensus.

#[local] Open Scope Z_scope.

(** * The limiter *)

Record RateLimitBudget := mkBudget { rl_limit : Z; rl_windowMs : Z }.
Record RateLimitDecision := mkDecision { rd_allowed : bool; rd_limit : Z; rd_remaining : Z; rd_retryAfterSeconds : Z }.
Record Window := mkWindow { wd_count : Z; wd_resetAt : Z }.
Definition Windows := list (string * Window).

Definition SWEEP_THRESHOLD : Z := 10000.

(** [Math.ceil(ms / 1000)] *)
Definition ceilSeconds (ms : Z) : Z := - ((- ms) / 1000).

Definition decision (later : Z) (w : Window) (b : RateLimitBudget) : RateLimitDecision :=
  mkDecision (wd_count w <=? rl_limit b) (rl_limit b) (Z.max 0 (rl_limit b - wd_count w)) (Z.max 1 (ceilSeconds (wd_resetAt w - later))).

Definition expired (now : Z) (w : Window) : bool := wd_resetAt w <=? now.

Definition current (now : Z) (ws : Windows) (identity : string) (b : RateLimitBudget) : Windows * Window :=
  let ws := if SWEEP_THRESHOLD <? Z.of_nat (length ws) then List.filter (fun kw => negb (expired now kw.2)) ws else ws in
  let fresh := mkWindow 0 (now + rl_windowMs b) in
  match jm_get ws identity with
  | Some w => if expired now w then (jm_set ws identity fresh, fresh) else (ws, w)
  | None => (jm_set ws identity fresh, fresh)
  end.

(** The window is incremented in place, in the map. *)
Definition hit (now later : Z) (ws : Windows) (identity : string) (b : RateLimitBudget) : Windows * RateLimitDecision :=
  let '(ws, w) := current now ws identity b in
  let w := mkWindow (wd_count w + 1) (wd_resetAt w) in
  (jm_set ws identity w, decision later w b).

Definition peek (now later : Z) (ws : Windows) (identity : string) (b : RateLimitBudget) : RateLimitDecision :=
  let free := mkDecision true (rl_limit b) (rl_limit b) 0 in
  match jm_get ws identity with
  | Some w => if expired now w then free else decision later (mkWindow (wd_count w + 1) (wd_resetAt w)) b
  | None => free
  end.

Definition reset (ws : Windows) (identity : string) : Windows := jm_delete ws identity.

Record OperatorRateLimits := mkLimits { ol_read : RateLimitBudget; ol_write : RateLimitBudget; ol_authFailures : RateLimitBudget }.

(** No text reads as NaN, which is no integer. *)
Definition intFromEnv (raw : option string) (fallback min : Z) : Z :=
  match raw ≫= fun s => if isInteger (toNumber s) then floor_to_Z (toNumber s) else None with
  | Some parsed => if min <=? parsed then parsed else fallback
  | None => fallback
  end.

Definition operatorRateLimitsFromEnv (env : string -> option string) : OperatorRateLimits :=
  mkLimits (mkBudget (intFromEnv (env "ORACLE_OPERATOR_READ_LIMIT_PER_MIN"%string) 120 1) 60000)
    (mkBudget (intFromEnv (env "ORACLE_OPERATOR_WRITE_LIMIT_PER_MIN"%string) 20 1) 60000)
    (mkBudget (intFromEnv (env "ORACLE_OPERATOR_AUTH_FAILURE_LIMIT"%string) 10 1) (15 * 60000)).

(** * The middleware *)

Record RateLimitOptions := mkOptions { ro_max : Z; ro_windowMs : Z; ro_message : option string }.
Definition ANONYMOUS_RATE_LIMIT : RateLimitOptions := mkOptions 60 60000 None.
Definition API_KEY_RATE_LIMIT : RateLimitOptions := mkOptions 600 60000 None.

Record WebRequest := mkWeb { wr_xApiKey : option string; wr_authorization : option string; wr_ip : option string }.

Definition trimOf (s : string) : string := String.string_of_list_ascii (trim (String.list_ascii_of_string s)).
Definition lower (c : ascii) : ascii := let n := N_of_ascii c in if ((65 <=? n) && (n <=? 90))%N then ascii_of_N (n + 32) else c.
Definition lineEnd (c : ascii) : bool := (N_of_ascii c =? 10)%N || (N_of_ascii c =? 13)%N.

(** [/^Bearer\s+(.+)$/i]: the white space is followed by a rest that is not
    empty and holds no line end. *)
Definition bearerKey (s : text) : option text :=
  if bool_decide (map lower (take 6 s) = String.list_ascii_of_string "bearer") then
    match drop 6 s with
    | c :: rest =>
        if is_space c && negb (existsb lineEnd (trim_left rest)) then
          match trim_left rest with [] => None | r => Some r end
        else None
    | [] => None
    end
  else None.

Definition extractApiKey (req : WebRequest) : option string :=
  let given (s : string) : option string := if bool_decide (s = ""%string) then None else Some s in
  match wr_xApiKey req ≫= fun h => given (trimOf h) with
  | Some key => Some key
  | None => wr_authorization req ≫= fun a =>
      k ← bearerKey (trim (String.list_ascii_of_string a)); given (String.string_of_list_ascii (trim k))
  end.

Definition defaultKeyGenerator (req : WebRequest) : string :=
  match extractApiKey req with
  | Some key => "key:" +:+ key
  | None => "ip:" +:+ default "unknown"%string (wr_ip req)
  end.

Inductive WebAnswer := Next | TooManyRequests (retryAfter : Z) (message : string).
Record WebHeaders := mkHeaders { wh_limit : Z; wh_remaining : Z; wh_reset : Z }.

Definition rateLimitMiddleware (o : RateLimitOptions) (keyGenerator : WebRequest -> string) (now : Z) (buckets : Windows) (req : WebRequest) :
    Windows * WebHeaders * WebAnswer :=
  let identity := keyGenerator req in
  let bucket := match jm_get buckets identity with
                | Some w => if wd_resetAt w <=? now then mkWindow 0 (now + ro_windowMs o) else w
                | None => mkWindow 0 (now + ro_windowMs o)
                end in
  let bucket := mkWindow (wd_count bucket + 1) (wd_resetAt bucket) in
  (jm_set buckets identity bucket, mkHeaders (ro_max o) (Z.max 0 (ro_max o - wd_count bucket)) (ceilSeconds (wd_resetAt bucket)),
   if ro_max o <? wd_count bucket then
     TooManyRequests (Z.max 1 (ceilSeconds (wd_resetAt bucket - now))) (default "Rate limit exceeded. Please retry later."%string (ro_message o))
   else Next).

(** * What an identity sees of the map *)

(** The window of [identity] that still counts at [now]. *)
Definition sees (now : Z) (ws : Windows) (identity : string) : option Window :=
  w ← jm_get ws identity; if expired now w then None else Some w.

Definition opened (now : Z) (b : RateLimitBudget) (seen : option Window) : Window :=
  default (mkWindow 0 (now + rl_windowMs b)) seen.
Definition bump (w : Window) : Window := mkWindow (wd_count w + 1) (wd_resetAt w).

Lemma get_swept now (ws : Windows) id :
  NoDup (jm_keys ws) ->
  jm_get (List.filter (fun kw => negb (expired now kw.2)) ws) id = sees now ws id.
Proof.
  unfold sees. induction ws as [|[k w] ws IH]; [done|]. cbn [jm_keys fmap list_fmap jm_get List.filter fst snd].
  intros [Hk Hnd]%NoDup_cons. destruct (decide (id = k)) as [<-|Hne].
  - destruct (expired now w) eqn:E; cbn [negb jm_get].
    + rewrite IH, (proj2 (jm_get_None_notin ws id) Hk) by done. cbn. by rewrite E.
    + rewrite decide_True by done. cbn. by rewrite E.
  - destruct (expired now w); cbn [negb jm_get]; [by apply IH|]. rewrite decide_False by done. by apply IH.
Qed.

Lemma swept_keys now (ws : Windows) : NoDup (jm_keys ws) -> NoDup (jm_keys (List.filter (fun kw => negb (expired now kw.2)) ws)).
Proof. apply NoDup_map_filter_bool. Qed.

(** A window that has expired stays expired. *)
Lemma sees_again now now' ws id : now <= now' -> sees now' ws id = w ← sees now ws id; if expired now' w then None else Some w.
Proof.
  intros Hle. unfold sees, expired. destruct (jm_get ws id) as [w|]; cbn; [|done].
  destruct (Z.leb_spec (wd_resetAt w) now); cbn; [|done]. by rewrite (proj2 (Z.leb_le _ _)) by lia.
Qed.

Lemma sees_later now now' ws ws' id : now <= now' -> sees now ws id = sees now ws' id -> sees now' ws id = sees now' ws' id.
Proof. intros Hle E. rewrite !(sees_again now now') by done. by rewrite E. Qed.

Lemma sees_set now ws id id' w :
  sees now (jm_set ws id w) id' = if decide (id = id') then (if expired now w then None else Some w) else sees now ws id'.
Proof. unfold sees. rewrite jm_get_set. by destruct (decide (id = id')). Qed.

Lemma current_spec now ws id b ws' w :
  NoDup (jm_keys ws) -> current now ws id b = (ws', w) ->
  w = opened now b (sees now ws id) ∧ NoDup (jm_keys ws') ∧ ∀ id', id' ≠ id -> sees now ws' id' = sees now ws id'.
Proof.
  intros Hnd. unfold current.
  assert (∀ v : Windows, NoDup (jm_keys v) -> (∀ i, sees now v i = sees now ws i) ->
    (match jm_get v id with
     | Some w0 => if expired now w0 then (jm_set v id (mkWindow 0 (now + rl_windowMs b)), mkWindow 0 (now + rl_windowMs b)) else (v, w0)
     | None => (jm_set v id (mkWindow 0 (now + rl_windowMs b)), mkWindow 0 (now + rl_windowMs b)) end) = (ws', w) ->
    w = opened now b (sees now ws id) ∧ NoDup (jm_keys ws') ∧ ∀ id', id' ≠ id -> sees now ws' id' = sees now ws id') as H.
  { intros v Hv Hs. rewrite <- Hs. unfold sees at 1. destruct (jm_get v id) as [w0|] eqn:E; [destruct (expired now w0) eqn:E0|]; intros [= <- <-];
      cbn; rewrite ?E0; (split; [done|]); (split; [by try apply jm_set_NoDup|]); intros id' Hne; rewrite ?sees_set, ?decide_False by done; apply Hs. }
  destruct (SWEEP_THRESHOLD <? Z.of_nat (length ws)); apply H; [by apply swept_keys| |done|done].
  intros i. unfold sees at 1. rewrite get_swept by done. unfold sees. destruct (jm_get ws i) as [w0|]; cbn; [|done].
  destruct (expired now w0) eqn:E; cbn; by rewrite ?E.
Qed.

(** A hit looks only at the window its identity sees, and changes no other. *)
Lemma hit_spec now later ws id b :
  NoDup (jm_keys ws) -> 0 < rl_windowMs b ->
  (hit now later ws id b).2 = decision later (bump (opened now b (sees now ws id))) b ∧ NoDup (jm_keys (hit now later ws id b).1) ∧
  ∀ id', sees now (hit now later ws id b).1 id' = if decide (id' = id) then Some (bump (opened now b (sees now ws id))) else sees now ws id'.
Proof.
  intros Hnd Hb. set (w := bump _). unfold hit. destruct (current now ws id b) as [ws' w'] eqn:E.
  apply current_spec in E as (-> & Hnd' & Ho); [|done]. fold (bump (opened now b (sees now ws id))). fold w. cbn [fst snd].
  split; [done|]. split; [by apply jm_set_NoDup|]. intros id'. rewrite sees_set.
  destruct (decide (id = id')) as [<-|Hne]; [|rewrite decide_False by congruence; by apply Ho].
  rewrite decide_True by done. subst w. destruct (expired now _) eqn:Ex; [exfalso|done].
  unfold sees, expired, opened, bump in Ex. cbn in Ex. destruct (jm_get ws id) as [w0|]; cbn in Ex; [|lia].
  destruct (Z.leb_spec (wd_resetAt w0) now); cbn in Ex; lia.
Qed.

Lemma peek_sees now later ws id b :
  peek now later ws id b = match sees now ws id with Some w => decision later (bump w) b | None => mkDecision true (rl_limit b) (rl_limit b) 0 end.
Proof. unfold peek, sees. destruct (jm_get ws id) as [w|]; cbn; [|done]. by destruct (expired now w). Qed.

Lemma sees_reset now ws id id' : sees now (reset ws id) id' = if decide (id = id') then None else sees now ws id'.
Proof. unfold sees, reset. rewrite jm_get_delete. by destruct (decide (id = id')). Qed.

(** * Sequences of operations *)

Inductive Op := Hit (id : string) (b : RateLimitBudget) | Peek (id : string) (b : RateLimitBudget) | Reset (id : string).
(** An operation with its two clock readings. *)
Record Timed := mkTimed { tm_now : Z; tm_later : Z; tm_op : Op }.

Definition idOf (o : Op) : string := match o with Hit id _ | Peek id _ | Reset id => id end.
Definition positiveWindow (o : Op) : Prop := match o with Hit _ b | Peek _ b => 0 < rl_windowMs b | Reset _ => True end.

Definition apply_ (ws : Windows) (t : Timed) : Windows * option RateLimitDecision :=
  match tm_op t with
  | Hit id b => let '(ws, d) := hit (tm_now t) (tm_later t) ws id b in (ws, Some d)
  | Peek id b => (ws, Some (peek (tm_now t) (tm_later t) ws id b))
  | Reset id => (reset ws id, None)
  end.

(** The answers, each with the operation it answers. *)
Fixpoint answers (ws : Windows) (ts : list Timed) : list (Timed * option RateLimitDecision) :=
  match ts with
  | [] => []
  | t :: ts => let '(ws, d) := apply_ ws t in (t, d) :: answers ws ts
  end.

Definition isOf (id : string) (t : Timed) : bool := bool_decide (idOf (tm_op t) = id).
Definition clockForward (now : Z) (ts : list Timed) : Prop := StronglySorted Z.le (now :: map tm_now ts).

Lemma apply_spec ws t id :
  NoDup (jm_keys ws) -> positiveWindow (tm_op t) ->
  let '(ws', d) := apply_ ws t in
  NoDup (jm_keys ws') ∧
  (isOf id t = false -> sees (tm_now t) ws' id = sees (tm_now t) ws id).
Proof.
  intros Hnd Hp. unfold apply_, isOf. destruct (tm_op t) as [i b|i b|i]; cbn in Hp |- *.
  - pose proof (hit_spec (tm_now t) (tm_later t) ws i b Hnd Hp) as (_ & H1 & H2).
    destruct (hit _ _ ws i b) as [ws' d]. split; [done|]. intros Hne%bool_decide_eq_false. cbn [fst] in H2. by rewrite H2, decide_False by done.
  - done.
  - split; [by apply jm_delete_NoDup|]. intros Hne%bool_decide_eq_false. by rewrite sees_reset, decide_False by done.
Qed.

(** Two maps in which an identity sees the same window give it the same answer
    and stay alike for it. *)
Lemma apply_alike ws1 ws2 t :
  NoDup (jm_keys ws1) -> NoDup (jm_keys ws2) -> positiveWindow (tm_op t) ->
  sees (tm_now t) ws1 (idOf (tm_op t)) = sees (tm_now t) ws2 (idOf (tm_op t)) ->
  (apply_ ws1 t).2 = (apply_ ws2 t).2 ∧
  sees (tm_now t) (apply_ ws1 t).1 (idOf (tm_op t)) = sees (tm_now t) (apply_ ws2 t).1 (idOf (tm_op t)).
Proof.
  intros H1 H2 Hp E. unfold apply_. destruct (tm_op t) as [i b|i b|i]; cbn [idOf positiveWindow fst snd] in Hp, E |- *.
  - pose proof (hit_spec (tm_now t) (tm_later t) ws1 i b H1 Hp) as (A1 & _ & A2).
    pose proof (hit_spec (tm_now t) (tm_later t) ws2 i b H2 Hp) as (B1 & _ & B2).
    destruct (hit _ _ ws1 i b), (hit _ _ ws2 i b). cbn [fst snd] in *. by rewrite A1, B1, A2, B2, E, !decide_True by done.
  - by rewrite !peek_sees, E.
  - by rewrite !sees_reset, !decide_True by done.
Qed.

Lemma answers_alike id ts : ∀ now ws1 ws2,
  NoDup (jm_keys ws1) -> NoDup (jm_keys ws2) -> Forall (fun t => positiveWindow (tm_op t)) ts ->
  clockForward now ts -> sees now ws1 id = sees now ws2 id ->
  List.filter (fun a => isOf id a.1) (answers ws1 ts) = answers ws2 (List.filter (isOf id) ts).
Proof.
  induction ts as [|t ts IH]; [done|]. intros now ws1 ws2 N1 N2 [Hp Hps]%Forall_cons Hc E.
  apply StronglySorted_inv in Hc as [Hc Hnow]. cbn [map] in Hnow. apply Forall_cons in Hnow as [Hnow _].
  apply (sees_later now (tm_now t)) in E; [|done]. cbn [answers List.filter].
  pose proof (apply_spec ws1 t id N1 Hp) as A1. pose proof (apply_spec ws2 t id N2 Hp) as A2.
  destruct (isOf id t) eqn:Eo.
  - pose proof Eo as <-%bool_decide_eq_true. pose proof (apply_alike ws1 ws2 t N1 N2 Hp E) as [Ed Es]. cbn [answers].
    destruct (apply_ ws1 t) as [ws1' d1], (apply_ ws2 t) as [ws2' d2]. cbn in Ed, Es. subst d2. cbn [List.filter fst]. rewrite Eo.
    f_equal. eapply IH; [apply A1|apply A2|done|exact Hc|done].
  - destruct (apply_ ws1 t) as [ws1' d1]. cbn [List.filter fst]. rewrite Eo.
    destruct A1 as [A1 A1']. eapply IH; [done|done|done|exact Hc|]. by rewrite A1'.
Qed.

(** While the clock does not run backwards, the answers an identity gets
    from a shared limiter are those it would get alone: no other identity, and
    no sweep of expired windows, changes them. *)
Theorem limiter_isolates_identities id now ts :
  Forall (fun t => positiveWindow (tm_op t)) ts -> clockForward now ts ->
  List.filter (fun a => isOf id a.1) (answers [] ts) = answers [] (List.filter (isOf id) ts).
Proof. intros Hp Hc. by eapply answers_alike; [apply NoDup_nil_2|apply NoDup_nil_2| |exact Hc|]. Qed.

(** * How much an identity can do in an interval *)

(** How many hits within [[t, t + windowMs)] can still be allowed to [id] from
    [now] on. *)
Section Budget.
Context (b : RateLimitBudget) (t : Z).
Hypothesis limit_nonneg : 0 <= rl_limit b.
Hypothesis window_positive : 0 < rl_windowMs b.

Definition inInterval (now : Z) : bool := (t <=? now) && (now <? t + rl_windowMs b).

Definition budgetLeft (now : Z) (seen : option Window) : Z :=
  if t + rl_windowMs b <=? now then 0
  else if now <? t then Z.max 0 (2 * rl_limit b - 1)
  else match seen with
       | None => rl_limit b
       | Some w => Z.max 0 (rl_limit b - wd_count w) + (if wd_resetAt w <? t + rl_windowMs b then rl_limit b else 0)
       end.

Definition countOk (seen : option Window) : Prop := ∀ w, seen = Some w -> 1 <= wd_count w.

Lemma left_nonneg now seen : 0 <= budgetLeft now seen.
Proof. unfold budgetLeft. repeat case_match; lia. Qed.

Lemma left_later now now' ws id : now <= now' -> countOk (sees now ws id) -> budgetLeft now' (sees now' ws id) <= budgetLeft now (sees now ws id).
Proof.
  intros Hle Hc. rewrite (sees_again now now') by done. unfold countOk in Hc. destruct (sees now ws id) as [w|]; cbn; unfold budgetLeft.
  - specialize (Hc w eq_refl). unfold expired. destruct (Z.leb_spec (wd_resetAt w) now'); repeat case_match; lia.
  - repeat case_match; lia.
Qed.

Lemma left_hit now seen :
  countOk seen -> let w := bump (opened now b seen) in
  budgetLeft now (Some w) + (if (wd_count w <=? rl_limit b) && inInterval now then 1 else 0) <= budgetLeft now seen.
Proof.
  intros Hc w. unfold countOk in Hc. subst w. destruct seen as [w|]; [specialize (Hc w eq_refl)|]; unfold budgetLeft, inInterval, bump, opened; cbn;
    repeat case_match; lia.
Qed.

Lemma countOk_hit now seen : countOk seen -> countOk (Some (bump (opened now b seen))).
Proof. intros Hc w [= <-]. destruct seen as [w'|]; cbn; [|lia]. specialize (Hc w' eq_refl). lia. Qed.

Lemma countOk_later now now' ws id : now <= now' -> countOk (sees now ws id) -> countOk (sees now' ws id).
Proof.
  intros Hle Hc w. rewrite (sees_again now now') by done. destruct (sees now ws id) as [w'|]; cbn; [|done].
  destruct (expired now' w'); [done|]. intros [= <-]. by apply Hc.
Qed.
End Budget.

(** The hits allowed to [id] in the interval that starts at [t]. *)
Definition allowedIn (id : string) (b : RateLimitBudget) (t : Z) (a : Timed * option RateLimitDecision) : bool :=
  isOf id a.1 && inInterval b t (tm_now a.1) && match tm_op a.1, a.2 with Hit _ _, Some d => rd_allowed d | _, _ => false end.
Definition usesBudget (id : string) (b : RateLimitBudget) (o : Op) : Prop :=
  match o with Hit i b' => i = id -> b' = b | Peek _ _ => True | Reset i => i ≠ id end.

Lemma allowed_left id b t ts : 0 <= rl_limit b -> 0 < rl_windowMs b -> ∀ now ws,
  NoDup (jm_keys ws) -> Forall (fun x => positiveWindow (tm_op x) ∧ usesBudget id b (tm_op x)) ts ->
  clockForward now ts -> countOk (sees now ws id) ->
  Z.of_nat (length (List.filter (allowedIn id b t) (answers ws ts))) <= budgetLeft b t now (sees now ws id).
Proof.
  intros Hl Hw. induction ts as [|x ts IH]; intros now ws Hnd Hall Hc Hok; [by apply left_nonneg|].
  apply Forall_cons in Hall as [[Hp Hu] Hall]. apply StronglySorted_inv in Hc as [Hc Hnow]. cbn [map] in Hnow. apply Forall_cons in Hnow as [Hnow _].
  transitivity (budgetLeft b t (tm_now x) (sees (tm_now x) ws id)); [|by apply left_later].
  apply (countOk_later now (tm_now x)) in Hok; [|done]. cbn [answers]. pose proof (apply_spec ws x id Hnd Hp) as Hs.
  destruct (apply_ ws x) as [ws' d] eqn:E. destruct Hs as [Hnd' Hother]. cbn [List.filter].
  specialize (IH (tm_now x) ws' Hnd' Hall Hc). destruct (isOf id x) eqn:Eo.
  2:{ unfold allowedIn at 1. cbn [fst]. rewrite Eo. cbn [andb]. rewrite <- Hother by done. apply IH. by rewrite Hother. }
  pose proof Eo as Ei%bool_decide_eq_true. unfold apply_ in E. destruct (tm_op x) as [i b'|i b'|i] eqn:Ex; cbn in Ei, Hu, Hp; subst i.
  - specialize (Hu eq_refl) as ->. pose proof (hit_spec (tm_now x) (tm_later x) ws id b Hnd Hp) as (H1 & _ & H2).
    destruct (hit _ _ ws id b) as [ws1 d1]. injection E as <- <-. cbn [fst snd] in H1, H2. subst d1. specialize (H2 id) as Hid. rewrite decide_True in Hid by done.
    rewrite Hid in IH. specialize (IH (countOk_hit b (tm_now x) _ Hok)). pose proof (left_hit b t Hl (tm_now x) _ Hok) as Hh. cbn zeta in Hh.
    unfold allowedIn at 1. cbn [fst snd]. rewrite Eo, Ex. cbn [andb decision rd_allowed]. rewrite andb_comm.
    destruct (_ && _); cbn [length]; lia.
  - injection E as <- <-. unfold allowedIn at 1. cbn [fst snd]. rewrite Ex, andb_false_r. by apply IH.
  - done.
Qed.

(** Whatever else the limiter serves, fewer than twice its limit of
    an identity's hits are allowed in any interval of one window's length (none
    when the limit is zero). *)
Theorem allowed_hits_bounded id b t now ts :
  0 <= rl_limit b -> 0 < rl_windowMs b ->
  Forall (fun x => positiveWindow (tm_op x) ∧ usesBudget id b (tm_op x)) ts -> clockForward now ts ->
  Z.of_nat (length (List.filter (allowedIn id b t) (answers [] ts))) <= Z.max 0 (2 * rl_limit b - 1).
Proof.
  intros Hl Hw Hall Hc. etransitivity; [by apply (allowed_left id b t ts Hl Hw now [] (NoDup_nil_2) Hall Hc)|].
  unfold budgetLeft. cbn. repeat case_match; lia.
Qed.

(** * Requests through the middleware *)

Section Middleware.
Context (o : RateLimitOptions) (keyGenerator : WebRequest -> string).

Definition budgetOf : RateLimitBudget := mkBudget (ro_max o) (ro_windowMs o).

(** Requests with their times, in order. *)
Fixpoint webAnswers (buckets : Windows) (reqs : list (Z * WebRequest)) : list (Z * WebRequest * WebAnswer) :=
  match reqs with
  | [] => []
  | (now, req) :: reqs =>
      let '(buckets, _, a) := rateLimitMiddleware o keyGenerator now buckets req in (now, req, a) :: webAnswers buckets reqs
  end.

Lemma middleware_spec now buckets req : 0 < ro_windowMs o ->
  let w := bump (opened now budgetOf (sees now buckets (keyGenerator req))) in
  let '(buckets', _, a) := rateLimitMiddleware o keyGenerator now buckets req in
  (∀ id, sees now buckets' id = if decide (id = keyGenerator req) then Some w else sees now buckets id) ∧
  (a = Next <-> wd_count w <= ro_max o).
Proof.
  intros Hw w. unfold rateLimitMiddleware.
  match goal with |- context [mkWindow (wd_count ?v + 1) (wd_resetAt ?v)] => assert (v = opened now budgetOf (sees now buckets (keyGenerator req))) as -> end.
  { unfold sees, opened, expired, budgetOf. destruct (jm_get buckets _) as [v|]; cbn; [|done]. by destruct (wd_resetAt v <=? now). }
  fold (bump (opened now budgetOf (sees now buckets (keyGenerator req)))). fold w. split.
  - intros id. rewrite sees_set. destruct (decide (keyGenerator req = id)) as [<-|Hne]; [|by rewrite decide_False by congruence].
    rewrite decide_True by done. destruct (expired now w) eqn:E; [exfalso|done]. unfold expired, w, opened, bump, sees in E. cbn in E.
    destruct (jm_get buckets _) as [v|]; cbn in E; [|lia]. unfold expired in E. destruct (Z.leb_spec (wd_resetAt v) now); cbn in E; lia.
  - destruct (Z.ltb_spec (ro_max o) (wd_count w)); split; intros; (done || lia).
Qed.

Definition passedIn (id : string) (t : Z) (a : Z * WebRequest * WebAnswer) : bool :=
  bool_decide (keyGenerator a.1.2 = id) && inInterval budgetOf t a.1.1 && match a.2 with Next => true | _ => false end.

Lemma passed_left id t reqs : 0 <= ro_max o -> 0 < ro_windowMs o -> ∀ now buckets,
  StronglySorted Z.le (now :: map fst reqs) -> countOk (sees now buckets id) ->
  Z.of_nat (length (List.filter (passedIn id t) (webAnswers buckets reqs))) <= budgetLeft budgetOf t now (sees now buckets id).
Proof.
  intros Hl Hw. induction reqs as [|[n req] reqs IH]; intros now buckets Hc Hok; [by apply left_nonneg|].
  apply StronglySorted_inv in Hc as [Hc Hnow]. cbn [map fst] in Hc, Hnow. apply Forall_cons in Hnow as [Hnow _].
  transitivity (budgetLeft budgetOf t n (sees n buckets id)); [|by apply left_later].
  apply (countOk_later now n) in Hok; [|done]. cbn [webAnswers]. pose proof (middleware_spec n buckets req Hw) as Hs. cbn zeta in Hs.
  destruct (rateLimitMiddleware _ _ _ _ _) as [[buckets' h] a]. destruct Hs as [Hs Ha]. specialize (Hs id). specialize (IH n buckets' Hc).
  cbn [List.filter]. unfold passedIn at 1. cbn [fst snd]. destruct (decide (id = keyGenerator req)) as [->|Hne].
  - rewrite Hs in IH. specialize (IH (countOk_hit budgetOf n _ Hok)). pose proof (left_hit budgetOf t Hl n _ Hok) as Hh. cbn zeta in Hh.
    rewrite bool_decide_true by done. cbn [andb]. destruct (inInterval budgetOf t n); cbn [andb]; [|rewrite andb_false_r in Hh; lia].
    rewrite andb_true_r in Hh. destruct a; cbn [length]; [|destruct (_ <=? _) in Hh; lia].
    rewrite (proj2 (Z.leb_le _ _)) in Hh by by apply Ha. lia.
  - rewrite bool_decide_false by congruence. cbn [andb]. rewrite <- Hs. apply IH. by rewrite Hs.
Qed.

(** Fewer than twice the budget of the requests accounted against one
    identity pass in any interval of one window's length. *)
Theorem passed_requests_bounded id t now reqs :
  0 <= ro_max o -> 0 < ro_windowMs o -> StronglySorted Z.le (now :: map fst reqs) ->
  Z.of_nat (length (List.filter (passedIn id t) (webAnswers [] reqs))) <= Z.max 0 (2 * ro_max o - 1).
Proof.
  intros Hl Hw Hc. etransitivity; [by apply (passed_left id t reqs Hl Hw now [] Hc)|]. unfold budgetLeft. cbn. repeat case_match; lia.
Qed.

Lemma unseen_pass reqs : 1 <= ro_max o -> ∀ buckets,
  NoDup (map (fun r => keyGenerator r.2) reqs) -> Forall (fun r => jm_get buckets (keyGenerator r.2) = None) reqs ->
  map snd (webAnswers buckets reqs) = map (fun _ => Next) reqs.
Proof.
  intros Hm. induction reqs as [|[n req] reqs IH]; intros buckets Hnd Hf; [done|].
  apply Forall_cons in Hf as [Hn Hf]. cbn [map] in Hnd. apply NoDup_cons in Hnd as [Hk Hnd]. cbn [webAnswers map].
  unfold rateLimitMiddleware at 1. cbn [fst snd] in *. rewrite Hn. cbn. rewrite (proj2 (Z.ltb_ge _ _)) by lia. f_equal.
  apply IH; [done|]. apply Forall_forall. intros r Hr. rewrite jm_get_set, decide_False; [by apply (proj1 (Forall_forall _ _) Hf)|].
  intros E. apply Hk. rewrite E. apply list_elem_of_fmap. by exists r.
Qed.
End Middleware.

(** The key is not checked before it is used as an identity: a caller that
    sends another made-up key with each request is never limited, although
    callers without a registered key are documented as limited per address. *)
Theorem made_up_keys_evade_limit o now ip keys :
  1 <= ro_max o -> NoDup keys -> Forall (fun k => k ≠ ""%string ∧ trimOf k = k) keys ->
  map snd (webAnswers o defaultKeyGenerator [] (map (fun k => (now, mkWeb (Some k) None (Some ip))) keys)) = map (fun _ => Next) keys.
Proof.
  intros Hm Hnd Hk. rewrite unseen_pass; [by rewrite map_map|done| |by apply Forall_true].
  rewrite map_map. cbn [snd]. apply (NoDup_fmap_2_strong (fun k => defaultKeyGenerator (mkWeb (Some k) None (Some ip)))); [|done].
  intros a b Ha Hb. rewrite Forall_forall in Hk. destruct (Hk a Ha) as [Na Ta], (Hk b Hb) as [Nb Tb].
  unfold defaultKeyGenerator, extractApiKey. cbn [wr_xApiKey mbind option_bind]. rewrite Ta, Tb, !bool_decide_false by done. by intros [= E].
Qed.

(** * Examples *)

Definition demoTrace : list Timed :=
  let b := mkBudget 2 1000 in
  [mkTimed 0 0 (Hit "a" b); mkTimed 10 10 (Hit "b" b); mkTimed 20 20 (Hit "a" b); mkTimed 30 31 (Hit "a" b); mkTimed 40 40 (Peek "b" b);
   mkTimed 1000 1000 (Hit "a" b); mkTimed 1001 1001 (Hit "a" b); mkTimed 1002 1002 (Hit "a" b)].

Lemma demoTrace_forward : clockForward 0 demoTrace.
Proof. unfold clockForward. cbn. repeat (apply SSorted_cons; [|repeat constructor; lia]). apply SSorted_nil. Qed.

Lemma limiter_isolates_identities_witness :
  List.filter (fun a => isOf "a" a.1) (answers [] demoTrace) = answers [] (List.filter (isOf "a") demoTrace) ∧
  map (fun a => option_map rd_allowed a.2) (answers [] (List.filter (isOf "a") demoTrace)) =
    [Some true; Some true; Some false; Some true; Some true; Some false].
Proof.
  split; [|by vm_compute]. apply (limiter_isolates_identities "a" 0); [repeat constructor; cbn; lia|apply demoTrace_forward].
Defined.

(** Three hits are allowed within the second that starts at 20: the bound is
    reached across the border of two windows. *)
Lemma allowed_hits_bounded_witness :
  Z.of_nat (length (List.filter (allowedIn "a" (mkBudget 2 1000) 20) (answers [] demoTrace))) <= 3 ∧
  length (List.filter (allowedIn "a" (mkBudget 2 1000) 20) (answers [] demoTrace)) = 3%nat.
Proof.
  split; [|by vm_compute]. apply (allowed_hits_bounded "a" (mkBudget 2 1000) 20 0 demoTrace); [cbn; lia|cbn; lia| |apply demoTrace_forward].
  repeat constructor; cbn; (done || lia).
Defined.
