(* ===== verification/OperatorAccess.v ===== *)
(** Operator access to the oracle controls: the identities of operators
    (src/oracle/admin/operator-identity.ts), the audit trail (oracle-audit.ts)
    and the guard with its interceptor (oracle-operator.guard.ts).

    [canActivate] runs synchronously, so one request reads one time.  Hashing
    and [Date.parse] belong to the host; the handler behind the guard is an
    argument.  A request is a value of what the code reads of it. *)

From stdpp Require Import base list strings sets.
From Stdlib Require Import ZArith Lia Ascii Sorted.
From S2P Require Import Prelude Decimal JsNum JsDate Canonical Encoding ProviderKeys Relayer RateLimits.

#[local] Open Scope Z_scope.
#[local] Notation "'str' s" := (String.string_of_list_ascii s) (at level 10, s at level 9).
#[local] Notation "'chars' s" := (String.list_ascii_of_string s) (at level 10, s at level 9).

(** * Identities *)

Inductive OraclePermission :=
| FeedsRead | FeedsWrite | QuorumWrite | FeedsPause | QuarantineOverride | ManualOverride | BootstrapRun | AuditRead.
Inductive OracleRole := Viewer | Operator | Admin.
#[global] Instance OraclePermission_eq_dec : EqDecision OraclePermission.
Proof. solve_decision. Defined.
#[global] Instance OracleRole_eq_dec : EqDecision OracleRole.
Proof. solve_decision. Defined.

Definition ORACLE_PERMISSIONS : list OraclePermission :=
  [FeedsRead; FeedsWrite; QuorumWrite; FeedsPause; QuarantineOverride; ManualOverride; BootstrapRun; AuditRead].
Definition permissionText (p : OraclePermission) : string :=
  match p with
  | FeedsRead => "feeds:read" | FeedsWrite => "feeds:write" | QuorumWrite => "quorum:write" | FeedsPause => "feeds:pause"
  | QuarantineOverride => "quarantine:override" | ManualOverride => "manual:override" | BootstrapRun => "bootstrap:run" | AuditRead => "audit:read"
  end.
Definition roleText (r : OracleRole) : string :=
  match r with Viewer => "oracle:viewer" | Operator => "oracle:operator" | Admin => "oracle:admin" end.
Definition ROLE_PERMISSIONS (r : OracleRole) : list OraclePermission :=
  match r with Viewer => [FeedsRead] | Operator => [FeedsRead; FeedsPause; BootstrapRun] | Admin => ORACLE_PERMISSIONS end.

Record OperatorCredential := mkCredential {
  oc_keyId : string; oc_actor : string; oc_role : OracleRole; oc_secretSha256 : string; oc_expiresAt : option string; oc_disabled : option bool }.
Record OperatorIdentity := mkIdentity { oi_actor : string; oi_role : OracleRole; oi_keyId : string; oi_permissions : list OraclePermission }.

Definition lowerAlnum (c : ascii) : bool := let n := N_of_ascii c in ((48 <=? n) && (n <=? 57) || (97 <=? n) && (n <=? 122))%N.
Definition upper (c : ascii) : bool := let n := N_of_ascii c in ((65 <=? n) && (n <=? 90))%N.
Definition keyIdChar (c : ascii) : bool := lowerAlnum c || bool_decide (c = "-"%char).
Definition secretChar (c : ascii) : bool := keyIdChar c || upper c || bool_decide (c = "_"%char).

(** [/^[a-z0-9][a-z0-9-]{1,62}$/] *)
Definition KEY_ID_PATTERN (s : string) : bool :=
  match chars s with c :: r => lowerAlnum c && (1 <=? length r)%nat && (length r <=? 62)%nat && forallb keyIdChar r | [] => false end.

Inductive AuthFailureReason := missing_credentials | malformed_token | unknown_key | invalid_secret | key_disabled | key_expired.
Definition reasonText (r : AuthFailureReason) : string :=
  match r with
  | missing_credentials => "missing_credentials" | malformed_token => "malformed_token" | unknown_key => "unknown_key"
  | invalid_secret => "invalid_secret" | key_disabled => "key_disabled" | key_expired => "key_expired"
  end.

(** What [authenticate] throws: its own error, or the range error of comparing
    buffers of different lengths. *)
Inductive AuthThrown := OperatorAuthError (reason : AuthFailureReason) (keyId : option string) | RangeError.

Inductive CredentialsError := NotJson | InvalidCredentials | DuplicateKeyId (keyId : string).

Section Identity.
Context `{JsHost} (dateParse : string -> option Z).

Definition credentialSchema (c : OperatorCredential) : bool :=
  KEY_ID_PATTERN (oc_keyId c) && (1 <=? String.length (oc_actor c))%nat && (String.length (oc_actor c) <=? 128)%nat
  && (String.length (oc_secretSha256 c) =? 64)%nat && forallb is_hex (chars (oc_secretSha256 c))
  && match oc_expiresAt c with Some t => bool_decide (is_Some (dateParse t)) | None => true end.

Fixpoint distinctKeys (seen : list string) (cs : list OperatorCredential) : res CredentialsError unit :=
  match cs with
  | [] => Ok tt
  | c :: cs => if bool_decide (oc_keyId c ∈ seen) then Err (DuplicateKeyId (oc_keyId c)) else distinctKeys (addToSet (oc_keyId c) seen) cs
  end.

(** [parseJson] reads the text as an array of objects with exactly the fields
    of a credential, each of its type. *)
Definition parseOperatorCredentials (parseJson : string -> res CredentialsError (list OperatorCredential)) (raw : option string) :
    res CredentialsError (list OperatorCredential) :=
  match raw with
  | None => Ok []
  | Some raw =>
      if bool_decide (trim (chars raw) = []) then Ok []
      else cs ← parseJson raw; _ ← guard_res (forallb credentialSchema cs) InvalidCredentials; _ ← distinctKeys [] cs; mret cs
  end.

Definition hashSecret (secret : string) : string := sha256Hex secret.

(** [Buffer.toString("base64url")]: the digits of base64 with two others for
    the last two, unpadded. *)
Definition urlChar (c : ascii) : ascii := if bool_decide (c = "+"%char) then "-"%char else if bool_decide (c = "/"%char) then "_"%char else c.
Definition base64url (bytes : list Z) : text := map urlChar (List.filter (fun c => negb (bool_decide (c = "="%char))) (base64 bytes)).

Definition generateOperatorKey (randomBytes : list Z) (keyId actor : string) (role : OracleRole) : res string (string * OperatorCredential) :=
  _ ← guard_res (KEY_ID_PATTERN keyId) "keyId must be 2-63 chars of a-z, 0-9, and '-'"%string;
  let secret := str (base64url randomBytes) in
  mret (keyId +:+ "." +:+ secret, mkCredential keyId actor role (hashSecret secret) None None).

(** The authenticator: its credentials by key id; a later one replaces an
    earlier one of the same id. *)
Definition byKeyId (cs : list OperatorCredential) : list (string * OperatorCredential) := foldl (fun m c => jm_set m (oc_keyId c) c) [] cs.
Definition configured (cs : list OperatorCredential) : bool := (0 <? length (byKeyId cs))%nat.

Fixpoint spanOf (ok : ascii -> bool) (s : text) : text * text :=
  match s with c :: r => if ok c then let '(a, b) := spanOf ok r in (c :: a, b) else ([], s) | [] => ([], []) end.

(** [/^Bearer\s+([a-z0-9-]+)\.([A-Za-z0-9_-]{16,})$/] *)
Definition bearerToken (s : text) : option (string * string) :=
  if bool_decide (take 6 s = chars "Bearer") then
    match drop 6 s with
    | c :: rest =>
        if is_space c then
          let '(keyId, rest) := spanOf keyIdChar (trim_left rest) in
          match keyId, rest with
          | _ :: _, "."%char :: secret => if forallb secretChar secret && (16 <=? length secret)%nat then Some (str keyId, str secret) else None
          | _, _ => None
          end
        else None
    | [] => None
    end
  else None.

Definition bufferOf (hex : string) : list Z := bufferHex (chars hex).

Definition authenticate (cs : list OperatorCredential) (now : Z) (authorization : option string) : res AuthThrown OperatorIdentity :=
  match authorization with
  | None | Some ""%string => Err (OperatorAuthError missing_credentials None)
  | Some a =>
      match bearerToken (trim (chars a)) with
      | None => Err (OperatorAuthError malformed_token None)
      | Some (keyId, secret) =>
          let presented := bufferOf (hashSecret secret) in
          match jm_get (byKeyId cs) keyId with
          | None => Err (OperatorAuthError unknown_key (Some keyId))
          | Some c =>
              let stored := bufferOf (oc_secretSha256 c) in
              if negb (length presented =? length stored)%nat then Err RangeError
              else if negb (bool_decide (presented = stored)) then Err (OperatorAuthError invalid_secret (Some keyId))
              else if default false (oc_disabled c) then Err (OperatorAuthError key_disabled (Some keyId))
              else if match oc_expiresAt c with
                      | Some t => negb (bool_decide (t = ""%string)) && match dateParse t with Some e => e <=? now | None => false end
                      | None => false
                      end then Err (OperatorAuthError key_expired (Some keyId))
              else Ok (mkIdentity (oc_actor c) (oc_role c) keyId (ROLE_PERMISSIONS (oc_role c)))
          end
      end
  end.
End Identity.

(** * The audit trail *)

Section Audit.
(** What a change holds before and after is a value of the handler. *)
Context {Value : Type}.

Record AuditChange := mkChange { ac_entity : string; ac_id : string; ac_before : Value; ac_after : Value }.
Record AuditContext := mkContext { ax_requestId : string; ax_actor : string; ax_role : OracleRole; ax_keyId : string; ax_ip : string }.
Inductive AuditOutcome := Success | Denied | Failed.

Record AuditActor := mkActor { aa_id : string; aa_role : option OracleRole; aa_keyId : option string; aa_ip : string }.
Record OracleAuditEvent := mkEvent {
  ae_timestamp : Z; ae_requestId : string; ae_action : string; ae_method : string; ae_route : string; ae_statusCode : Z; ae_outcome : AuditOutcome;
  ae_reason : option string; ae_actor : AuditActor; ae_target : list (string * string); ae_changes : list AuditChange }.

(** The recent events and everything written to the sink. *)
Record OracleAuditLog := mkLog { al_recent : list OracleAuditEvent; al_sink : list OracleAuditEvent }.

Definition writeEvent (capacity : nat) (log : OracleAuditLog) (e : OracleAuditEvent) : OracleAuditLog :=
  let recent := al_recent log ++ [e] in
  mkLog (if (capacity <? length recent)%nat then drop (length recent - capacity) recent else recent) (al_sink log ++ [e]).

(** [slice(-n)] with [n] zero is [slice(0)]: the whole list. *)
Definition listEvents (log : OracleAuditLog) (limit : Z) : list OracleAuditEvent :=
  let n := Z.to_nat (Z.max 0 limit) in
  rev (if (n =? 0)%nat then al_recent log else drop (length (al_recent log) - n) (al_recent log)).

(** * Requests *)

Record Route := mkRoute { ro_permission : option OraclePermission; ro_action : option string }.
Record OperatorRequest := mkRequest {
  rq_authorization : option string; rq_requestIdHeader : option string; rq_method : string;
  rq_routePath : option string; rq_path : option string; rq_url : string; rq_ip : option string; rq_remoteAddress : option string;
  rq_params : list (string * string); rq_oracleOperator : option OperatorIdentity; rq_oracleRequestId : option string }.

(** [/^[A-Za-z0-9._:-]{1,128}$/] *)
Definition REQUEST_ID_PATTERN (s : string) : bool :=
  let t := chars s in
  (1 <=? length t)%nat && (length t <=? 128)%nat
  && forallb (fun c => lowerAlnum c || upper c || bool_decide (c ∈ ["."%char; "_"%char; ":"%char; "-"%char])) t.

Record HttpError := mkHttp { he_status : Z; he_code : option string; he_error : string; he_retryAfter : option Z }.
Inductive Thrown := Http (e : HttpError) | Raw (e : AuthThrown).

(** The state a request works on: the limiter, the audit log, and the request
    and its response headers. *)
Record GuardState := mkGuard { gs_limiter : Windows; gs_audit : OracleAuditLog; gs_req : OperatorRequest; gs_headers : list (string * string) }.

Definition G (A : Type) : Type := GuardState -> GuardState * res Thrown A.
#[global] Instance G_ret : MRet G := fun A a st => (st, Ok a).
#[global] Instance G_bind : MBind G := fun A B f m st => match m st with (st', Ok a) => f a st' | (st', Err e) => (st', Err e) end.
Definition raise {A} (e : Thrown) : G A := fun st => (st, Err e).
Definition theRequest : G OperatorRequest := fun st => (st, Ok (gs_req st)).

Definition setHeader (k v : string) : G unit := fun st => (mkGuard (gs_limiter st) (gs_audit st) (gs_req st) (jm_set (gs_headers st) k v), Ok tt).
Definition limiterPeek (now : Z) (id : string) (b : RateLimitBudget) : G RateLimitDecision := fun st => (st, Ok (peek now now (gs_limiter st) id b)).
Definition limiterHit (now : Z) (id : string) (b : RateLimitBudget) : G RateLimitDecision := fun st =>
  let '(ws, d) := hit now now (gs_limiter st) id b in (mkGuard ws (gs_audit st) (gs_req st) (gs_headers st), Ok d).
Definition setOperator (i : OperatorIdentity) : G unit := fun st =>
  let r := gs_req st in
  (mkGuard (gs_limiter st) (gs_audit st)
     (mkRequest (rq_authorization r) (rq_requestIdHeader r) (rq_method r) (rq_routePath r) (rq_path r) (rq_url r) (rq_ip r) (rq_remoteAddress r)
        (rq_params r) (Some i) (rq_oracleRequestId r)) (gs_headers st), Ok tt).
Definition setRequestId (id : string) : G unit := fun st =>
  let r := gs_req st in
  (mkGuard (gs_limiter st) (gs_audit st)
     (mkRequest (rq_authorization r) (rq_requestIdHeader r) (rq_method r) (rq_routePath r) (rq_path r) (rq_url r) (rq_ip r) (rq_remoteAddress r)
        (rq_params r) (rq_oracleOperator r) (Some id)) (gs_headers st), Ok tt).

Definition clientIp (r : OperatorRequest) : string :=
  match rq_ip r with Some ip => ip | None => default "unknown"%string (rq_remoteAddress r) end.

(** The time of the request, a fresh identifier, the capacity of the log. *)
Context (now : Z) (uuid : string) (capacity : nat).

Definition requestIdFor : G string :=
  r ← theRequest;
  match rq_oracleRequestId r with
  | Some id => mret id
  | None =>
      let id := match rq_requestIdHeader r with Some h => if REQUEST_ID_PATTERN h then h else uuid | None => uuid end in
      _ ← setRequestId id; _ ← setHeader "X-Request-Id" id; mret id
  end.

Definition READ_METHODS : list string := ["GET"; "HEAD"; "OPTIONS"].
Definition upperText (s : string) : string :=
  str (map (fun c => let n := N_of_ascii c in if ((97 <=? n) && (n <=? 122))%N then ascii_of_N (n - 32) else c) (chars s)).

(** The event of a request, given its status, outcome, reason and changes. *)
Definition eventOf (r : OperatorRequest) (requestId action : string) (status : Z) (outcome : AuditOutcome) (reason : option string)
    (changes : list AuditChange) : OracleAuditEvent :=
  let identity := rq_oracleOperator r in
  mkEvent now requestId action (rq_method r) (default (default (rq_url r) (rq_path r)) (rq_routePath r)) status outcome reason
    (mkActor (match identity with Some i => oi_actor i | None => "anonymous" end) (oi_role <$> identity) (oi_keyId <$> identity) (clientIp r))
    (rq_params r) changes.

Definition pushEvent (e : OracleAuditEvent) : G unit := fun st =>
  (mkGuard (gs_limiter st) (writeEvent capacity (gs_audit st) e) (gs_req st) (gs_headers st), Ok tt).
Definition writeAudit (action : string) (status : Z) (outcome : AuditOutcome) (reason : option string) (changes : list AuditChange) : G unit :=
  id ← requestIdFor; r ← theRequest; pushEvent (eventOf r id action status outcome reason changes).

Definition deny {A} (action : string) (status : Z) (reason : string) (e : HttpError) : G A :=
  _ ← writeAudit action status Denied (Some reason) []; raise (Http e).

(** * The guard *)

Context `{JsHost} (dateParse : string -> option Z) (credentials : list OperatorCredential) (limits : OperatorRateLimits).

Definition failureKey (ip : string) : string := "auth-fail:" +:+ ip.
Inductive Bucket := ReadBucket | WriteBucket.
Definition bucketText (b : Bucket) : string := match b with ReadBucket => "read" | WriteBucket => "write" end.
Definition bucketOf (method : string) : Bucket := if bool_decide (upperText method ∈ READ_METHODS) then ReadBucket else WriteBucket.
Definition budgetFor (b : Bucket) : RateLimitBudget := match b with ReadBucket => ol_read limits | WriteBucket => ol_write limits end.
Definition actorKey (actor : string) (b : Bucket) : string := "actor:" +:+ actor +:+ ":" +:+ bucketText b.
Definition decimalText (z : Z) : string := str (z_text z).

Definition authenticated (action ip : string) : G OperatorIdentity :=
  r ← theRequest;
  match authenticate dateParse credentials now (rq_authorization r) with
  | Ok i => mret i
  | Err (OperatorAuthError reason keyId) =>
      _ ← limiterHit now (failureKey ip) (ol_authFailures limits);
      deny action 401 (reasonText reason +:+ match keyId with Some k => if bool_decide (k = ""%string) then "" else ":" +:+ k | None => "" end)
        (mkHttp 401 (Some "OPERATOR_AUTH_REQUIRED") "A valid operator API key is required." None)
  | Err e => raise (Raw e)
  end.

Definition canActivate (route : Route) : G bool :=
  r ← theRequest;
  let action := default "unknown"%string (ro_action route) in
  match ro_permission route with
  | None => deny action 403 "route_without_permission" (mkHttp 403 None "Operator route is not configured" None)
  | Some permission =>
      if negb (configured credentials) then
        deny action 503 "operator_auth_not_configured"
          (mkHttp 503 (Some "OPERATOR_AUTH_NOT_CONFIGURED") "Operator authentication is not configured (ORACLE_OPERATOR_KEYS)." None)
      else
        let ip := clientIp r in
        lockout ← limiterPeek now (failureKey ip) (ol_authFailures limits);
        if negb (rd_allowed lockout) then
          _ ← setHeader "Retry-After" (decimalText (rd_retryAfterSeconds lockout));
          deny action 429 "auth_failure_lockout" (mkHttp 429 None "Too many failed authentication attempts" None)
        else
          identity ← authenticated action ip;
          _ ← setOperator identity;
          if negb (bool_decide (permission ∈ oi_permissions identity)) then
            deny action 403 ("missing_permission:" +:+ permissionText permission)
              (mkHttp 403 (Some "OPERATOR_FORBIDDEN")
                 ("Role " +:+ roleText (oi_role identity) +:+ " lacks permission " +:+ permissionText permission +:+ ".") None)
          else
            let bucket := bucketOf (rq_method r) in
            d ← limiterHit now (actorKey (oi_actor identity) bucket) (budgetFor bucket);
            _ ← setHeader "X-RateLimit-Limit" (decimalText (rd_limit d));
            _ ← setHeader "X-RateLimit-Remaining" (decimalText (rd_remaining d));
            if negb (rd_allowed d) then
              _ ← setHeader "Retry-After" (decimalText (rd_retryAfterSeconds d));
              deny action 429 ("rate_limited:" +:+ bucketText bucket) (mkHttp 429 None "Operator rate limit exceeded" (Some (rd_retryAfterSeconds d)))
            else mret true
  end.

(** * The interceptor *)

Inductive Issue := IssueCode (code : string) | IssueText (text : string).
(** What a handler throws: an HTTP error with its status, its message and the
    error and issues of its body, or any other error with its message. *)
Inductive HandlerError := HttpException (status : Z) (message : string) (body : option (string * list Issue)) | OtherError (message : string).
(** A handler, in its audit context if there is one: the changes it recorded,
    and its response status or its error. *)
Definition HandlerRun : Type := option AuditContext -> list AuditChange * res HandlerError Z.

Definition failureReason (e : HandlerError) : string :=
  match e with
  | HttpException _ _ (Some (text, issues)) =>
      match issues with
      | [] => text
      | _ => text +:+ " (" +:+ joinWith ", " (map (fun i => match i with IssueCode c => c | IssueText t => t end) issues) +:+ ")"
      end
  | HttpException _ message None | OtherError message => message
  end.

(** An empty reason is left out of the event. *)
Definition someReason (s : string) : option string := if bool_decide (s = ""%string) then None else Some s.

Definition intercept (route : Route) (handler : HandlerRun) : G (res HandlerError Z) :=
  r ← theRequest;
  match rq_oracleOperator r with
  | None => mret (handler None).2
  | Some identity =>
      let action := default "unknown"%string (ro_action route) in
      requestId ← requestIdFor;
      let '(changes, outcome) := handler (Some (mkContext requestId (oi_actor identity) (oi_role identity) (oi_keyId identity) (clientIp r))) in
      _ ← match outcome with
          | Ok status => writeAudit action status Success None changes
          | Err e => writeAudit action (match e with HttpException s _ _ => s | OtherError _ => 500 end) Failed (someReason (failureReason e)) changes
          end;
      mret outcome
  end.

(** A request: the guard, then the handler inside the interceptor. *)
Definition serveRequest (route : Route) (handler : HandlerRun) : G (res HandlerError Z) :=
  _ ← canActivate route; intercept route handler.
End Audit.

(** * One event per request *)

Section Facts.
Context {Value : Type} (now : Z) (uuid : string) (capacity : nat).
Context `{JsHost} (dateParse : string -> option Z) (credentials : list OperatorCredential) (limits : OperatorRateLimits).

(** What a step keeps of a request. *)
Definition sameRequest (r r' : OperatorRequest) : Prop :=
  rq_authorization r' = rq_authorization r ∧ rq_method r' = rq_method r ∧ rq_ip r' = rq_ip r ∧ rq_remoteAddress r' = rq_remoteAddress r ∧
  rq_oracleOperator r' = rq_oracleOperator r.

Lemma sameRequest_refl r : sameRequest r r.
Proof. done. Qed.

Lemma requestIdFor_spec (st : GuardState (Value := Value)) : ∃ st' id, requestIdFor uuid st = (st', Ok id) ∧
  gs_limiter st' = gs_limiter st ∧ gs_audit st' = gs_audit st ∧ sameRequest (gs_req st) (gs_req st').
Proof.
  unfold requestIdFor, mbind, G_bind, theRequest. destruct (rq_oracleRequestId (gs_req st)) as [id|]; cbn.
  - by exists st, id.
  - eexists _, _. done.
Qed.

Lemma writeAudit_spec (st : GuardState (Value := Value)) action status outcome reason changes : ∃ st' ev,
  writeAudit now uuid capacity action status outcome reason changes st = (st', Ok tt) ∧ gs_limiter st' = gs_limiter st ∧ sameRequest (gs_req st) (gs_req st') ∧
  gs_audit st' = writeEvent capacity (gs_audit st) ev ∧ ae_statusCode ev = status ∧ ae_outcome ev = outcome ∧ ae_changes ev = changes ∧
  ae_reason ev = reason ∧ ae_timestamp ev = now ∧
  ae_actor ev = mkActor (match rq_oracleOperator (gs_req st) with Some i => oi_actor i | None => "anonymous"%string end)
    (oi_role <$> rq_oracleOperator (gs_req st)) (oi_keyId <$> rq_oracleOperator (gs_req st)) (clientIp (gs_req st)).
Proof.
  unfold writeAudit, mbind, G_bind. destruct (requestIdFor_spec st) as (st' & id & E & Hl & Ha & Hr). rewrite E. cbn.
  eexists _, _. split; [reflexivity|]. cbn. rewrite Hl, Ha. destruct Hr as (H1 & H2 & H3 & H4 & H5).
  unfold clientIp. rewrite <- H3, <- H4, <- H5. done.
Qed.

(** A denied request: what is written, and what is left alone. *)
Definition deniedBy (st st' : GuardState (Value := Value)) (e : HttpError) : Prop :=
  ∃ ev, gs_audit st' = writeEvent capacity (gs_audit st) ev ∧ ae_outcome ev = Denied ∧ ae_statusCode ev = he_status e ∧ ae_changes ev = [].

Lemma deny_spec {A} (st : GuardState (Value := Value)) action status reason e : he_status e = status -> ∃ st',
  deny (A := A) now uuid capacity action status reason e st = (st', Err (Http e)) ∧ gs_limiter st' = gs_limiter st ∧
  sameRequest (gs_req st) (gs_req st') ∧ deniedBy st st' e.
Proof.
  intros He. unfold deny, mbind, G_bind.
  destruct (writeAudit_spec st action status Denied (Some reason) []) as (st' & ev & E & Hl & Hr & Ha & H1 & H2 & H3 & _).
  rewrite E. cbn. exists st'. split; [done|]. split; [done|]. split; [done|]. exists ev. rewrite He. done.
Qed.

Definition wellConfigured : Prop :=
  Forall (fun c => length (bufferOf (oc_secretSha256 c)) = 32%nat) credentials ∧ ∀ s, length (bufferOf (hashSecret s)) = 32%nat.

Lemma byKeyId_get k c : jm_get (byKeyId credentials) k = Some c -> c ∈ credentials ∧ oc_keyId c = k.
Proof.
  unfold byKeyId. intros Hg. assert (∀ m, jm_get (foldl (fun m c => jm_set m (oc_keyId c) c) m credentials) k = Some c ->
    (c ∈ credentials ∧ oc_keyId c = k) ∨ jm_get m k = Some c) as H'.
  { clear Hg. induction credentials as [|c' cs IH]; cbn; intros m Hm; [by right|]. destruct (IH _ Hm) as [[? ?]|Hg]; [left; split; [by right|done]|].
    rewrite jm_get_set in Hg. destruct (decide (oc_keyId c' = k)) as [E|]; [injection Hg as <-; left; split; [by left|done]|by right]. }
  destruct (H' [] Hg) as [?|?]; done.
Qed.

(** A granted identity is that of a configured, enabled and unexpired key whose
    hash is that of the secret in the token. *)
Lemma authenticate_Ok authorization i : authenticate dateParse credentials now authorization = Ok i ->
  ∃ a keyId secret c, authorization = Some a ∧ bearerToken (trim (chars a)) = Some (keyId, secret) ∧ c ∈ credentials ∧ oc_keyId c = keyId ∧
    bufferOf (hashSecret secret) = bufferOf (oc_secretSha256 c) ∧ default false (oc_disabled c) = false ∧
    (∀ t e, oc_expiresAt c = Some t -> t ≠ ""%string -> dateParse t = Some e -> now < e) ∧
    i = mkIdentity (oc_actor c) (oc_role c) keyId (ROLE_PERMISSIONS (oc_role c)).
Proof.
  unfold authenticate. destruct authorization as [a|]; [|done]. destruct a as [|x a]; [done|].
  destruct (bearerToken _) as [[keyId secret]|] eqn:Eb; [|done]. destruct (jm_get _ keyId) as [c|] eqn:Eg; [|done].
  destruct (_ =? _)%nat; cbn [negb]; [|done]. destruct (bool_decide _) eqn:Ep; cbn [negb]; [|done].
  destruct (default false (oc_disabled c)) eqn:Ed; [done|]. destruct (match oc_expiresAt c with Some _ => _ | None => _ end) eqn:Ee; [done|].
  intros [= <-]. apply byKeyId_get in Eg as [Hc Hk]. exists (String x a), keyId, secret, c. apply bool_decide_eq_true in Ep.
  split_and!; try done. intros t e Ht Hn He. rewrite Ht, bool_decide_false, He in Ee by done. cbn in Ee. lia.
Qed.

Lemma authenticate_no_range authorization : wellConfigured -> authenticate dateParse credentials now authorization ≠ Err RangeError.
Proof.
  intros [Hc Hh]. unfold authenticate. destruct authorization as [a|]; [|done]. destruct a as [|x a]; [done|].
  destruct (bearerToken _) as [[keyId secret]|]; [|done]. destruct (jm_get _ keyId) as [c|] eqn:Eg; [|done]. apply byKeyId_get in Eg as [Hin _].
  rewrite Forall_forall in Hc. rewrite Hh, (Hc c Hin). cbn. by repeat case_match.
Qed.

(** ** The guard, branch by branch *)

Definition keptRequest (r r' : OperatorRequest) : Prop := rq_method r' = rq_method r ∧ clientIp r' = clientIp r.

Inductive GuardStep (route : Route) (st st' : GuardState (Value := Value)) : res Thrown bool -> Prop :=
| Refused e : he_status e ≠ 401 -> deniedBy st st' e -> gs_limiter st' = gs_limiter st -> GuardStep route st st' (Err (Http e))
| Unauthenticated e reason keyId :
    he_status e = 401 -> deniedBy st st' e ->
    authenticate dateParse credentials now (rq_authorization (gs_req st)) = Err (OperatorAuthError reason keyId) ->
    rd_allowed (peek now now (gs_limiter st) (failureKey (clientIp (gs_req st))) (ol_authFailures limits)) = true ->
    gs_limiter st' = (hit now now (gs_limiter st) (failureKey (clientIp (gs_req st))) (ol_authFailures limits)).1 ->
    GuardStep route st st' (Err (Http e))
| Throttled e i :
    he_status e = 429 -> deniedBy st st' e -> authenticate dateParse credentials now (rq_authorization (gs_req st)) = Ok i ->
    let bucket := bucketOf (rq_method (gs_req st)) in
    let h := hit now now (gs_limiter st) (actorKey (oi_actor i) bucket) (budgetFor limits bucket) in
    rd_allowed h.2 = false -> gs_limiter st' = h.1 -> GuardStep route st st' (Err (Http e))
| LetThrough permission i :
    ro_permission route = Some permission -> configured credentials = true ->
    rd_allowed (peek now now (gs_limiter st) (failureKey (clientIp (gs_req st))) (ol_authFailures limits)) = true ->
    authenticate dateParse credentials now (rq_authorization (gs_req st)) = Ok i -> permission ∈ oi_permissions i ->
    let bucket := bucketOf (rq_method (gs_req st)) in
    let h := hit now now (gs_limiter st) (actorKey (oi_actor i) bucket) (budgetFor limits bucket) in
    rd_allowed h.2 = true -> gs_limiter st' = h.1 -> gs_audit st' = gs_audit st -> rq_oracleOperator (gs_req st') = Some i ->
    GuardStep route st st' (Ok true).

Lemma canActivate_spec route (st : GuardState (Value := Value)) : wellConfigured ->
  let '(st', r) := canActivate now uuid capacity dateParse credentials limits route st in
  GuardStep route st st' r ∧ keptRequest (gs_req st) (gs_req st').
Proof.
  intros Hw. unfold canActivate, mbind, G_bind, theRequest. cbn [fst snd].
  assert (∀ r r', sameRequest r r' -> keptRequest r r') as Hkept.
  { intros r r' (_ & H2 & H3 & H4 & _). unfold keptRequest, clientIp. by rewrite H2, H3, H4. }
  destruct (ro_permission route) as [permission|] eqn:Hp.
  2:{ edestruct @deny_spec as (st' & -> & Hl & Hs & Hd); [reflexivity|]. split; [by apply Refused|by apply Hkept]. }
  destruct (configured credentials) eqn:Hconf; cbn [negb].
  2:{ edestruct @deny_spec as (st' & -> & Hl & Hs & Hd); [reflexivity|]. split; [by apply Refused|by apply Hkept]. }
  unfold limiterPeek at 1. set (ip := clientIp (gs_req st)). destruct (rd_allowed (peek _ _ _ _ _)) eqn:Hpeek; cbn [negb].
  2:{ unfold setHeader at 1. edestruct @deny_spec as (st' & -> & Hl & Hs & Hd); [reflexivity|]. split; [by apply Refused|by apply Hkept]. }
  unfold authenticated, mbind, G_bind, theRequest.
  destruct (authenticate dateParse credentials now (rq_authorization (gs_req st))) as [i|[reason keyId|]] eqn:Ha.
  2:{ unfold limiterHit at 1. destruct (hit _ _ _ _ _) as [ws d] eqn:Hh.
      edestruct @deny_spec as (st' & -> & Hl & Hs & Hd); [reflexivity|]. split; [|by apply Hkept].
      eapply Unauthenticated; [reflexivity|exact Hd|exact Ha|done|]. rewrite Hl. fold ip. by rewrite Hh. }
  2:{ by apply authenticate_no_range in Ha. }
  cbn [mret G_ret]. unfold setOperator at 1. cbn [gs_req rq_authorization rq_method].
  destruct (bool_decide (permission ∈ oi_permissions i)) eqn:Hperm; cbn [negb].
  2:{ edestruct @deny_spec as (st' & -> & Hl & Hs & Hd); [reflexivity|]. split; [by apply Refused|]. apply Hkept in Hs. done. }
  unfold limiterHit at 1. cbn [gs_limiter gs_audit gs_req gs_headers]. set (bucket := bucketOf (rq_method (gs_req st))).
  destruct (hit _ _ _ _ _) as [ws d] eqn:Hh. unfold setHeader at 1 2 3. cbn [fst snd gs_limiter gs_audit gs_req gs_headers].
  destruct (rd_allowed d) eqn:Hd; cbn [negb].
  - cbn [mret G_ret]. split; [|done]. apply bool_decide_eq_true in Hperm.
    eapply LetThrough; [done|done|done|exact Ha|done| | | |done]; fold bucket; cbn; rewrite ?Hh; done.
  - edestruct @deny_spec as (st' & -> & Hl & Hs & Hd'); [reflexivity|]. split; [|apply Hkept in Hs; done].
    eapply Throttled; [reflexivity|exact Hd'|exact Ha| |]; fold bucket; cbn; rewrite ?Hh; done.
Qed.

Lemma writeEvent_sink (log : OracleAuditLog (Value := Value)) ev : al_sink (writeEvent capacity log ev) = al_sink log ++ [ev].
Proof. done. Qed.

(** The recent events are the last ones of the sink, as many as fit. *)
Lemma recent_is_suffix (log : OracleAuditLog (Value := Value)) ev :
  al_recent log = drop (length (al_sink log) - capacity) (al_sink log) ->
  al_recent (writeEvent capacity log ev) = drop (length (al_sink (writeEvent capacity log ev)) - capacity) (al_sink (writeEvent capacity log ev)).
Proof.
  intros E. unfold writeEvent. cbn [al_recent al_sink]. rewrite !length_app, E, length_drop. cbn [length].
  destruct (Nat.ltb_spec capacity (length (al_sink log) - (length (al_sink log) - capacity) + 1)) as [Hc|Hc].
  - rewrite <- drop_app_le, drop_drop by lia. f_equal. lia.
  - rewrite <- drop_app_le by lia. f_equal. lia.
Qed.

Lemma intercept_spec route handler (st : GuardState (Value := Value)) i : rq_oracleOperator (gs_req st) = Some i ->
  let '(st', r) := intercept now uuid capacity route handler st in
  ∃ ev o requestId, r = Ok o ∧ gs_limiter st' = gs_limiter st ∧ sameRequest (gs_req st) (gs_req st') ∧ gs_audit st' = writeEvent capacity (gs_audit st) ev ∧
    ae_actor ev = mkActor (oi_actor i) (Some (oi_role i)) (Some (oi_keyId i)) (clientIp (gs_req st)) ∧
    handler (Some (mkContext requestId (oi_actor i) (oi_role i) (oi_keyId i) (clientIp (gs_req st)))) = (ae_changes ev, o) ∧
    match o with
    | Ok status => ae_outcome ev = Success ∧ ae_statusCode ev = status
    | Err e => ae_outcome ev = Failed ∧ ae_statusCode ev = match e with HttpException s _ _ => s | OtherError _ => 500 end
    end.
Proof.
  intros Hi. unfold intercept, mbind, G_bind, theRequest. cbn [fst snd]. rewrite Hi.
  destruct (requestIdFor_spec st) as (st1 & id & E & Hl & Ha & Hr). rewrite E.
  destruct (handler _) as [changes o] eqn:Hh. destruct Hr as (R1 & R2 & R3 & R4 & R5).
  assert (clientIp (gs_req st1) = clientIp (gs_req st)) as Hip by (unfold clientIp; by rewrite R3, R4).
  destruct o as [status|e]; (edestruct @writeAudit_spec as (st2 & ev & E2 & Hl2 & (S1 & S2 & S3 & S4 & S5) & Ha2 & H1 & H2 & H3 & _ & _ & H6));
    rewrite E2; cbn [mret G_ret]; rewrite R5, Hi, Hip in H6; cbn in H6;
    exists ev; eexists _, id; (split; [reflexivity|]); rewrite H3, Hl2, Hl, Ha2, Ha; unfold sameRequest; rewrite S1, S2, S3, S4, S5; done.
Qed.

(** C27: Every request to an operator route writes exactly one audit event: a
    denied one its status and no change, and the handler of the others ran for
    a configured operator whose role has the permission of the route, with the
    event naming that operator and holding the changes the handler recorded. *)
Theorem every_request_audited_once route handler (st : GuardState (Value := Value)) : wellConfigured ->
  let '(st', r) := serveRequest now uuid capacity dateParse credentials limits route handler st in
  ∃ ev, al_sink (gs_audit st') = al_sink (gs_audit st) ++ [ev] ∧
  match r with
  | Err (Http e) => ae_outcome ev = Denied ∧ ae_statusCode ev = he_status e ∧ ae_changes ev = []
  | Err (Raw _) => False
  | Ok o => ∃ permission i requestId,
      ro_permission route = Some permission ∧ authenticate dateParse credentials now (rq_authorization (gs_req st)) = Ok i ∧
      permission ∈ oi_permissions i ∧
      ae_actor ev = mkActor (oi_actor i) (Some (oi_role i)) (Some (oi_keyId i)) (clientIp (gs_req st)) ∧
      handler (Some (mkContext requestId (oi_actor i) (oi_role i) (oi_keyId i) (clientIp (gs_req st)))) = (ae_changes ev, o) ∧
      ae_outcome ev = match o with Ok _ => Success | Err _ => Failed end
  end.
Proof.
  intros Hw. unfold serveRequest, mbind, G_bind. pose proof (canActivate_spec route st Hw) as Hg.
  destruct (canActivate _ _ _ _ _ _ route st) as [st1 r]. destruct Hg as [Hg [_ Hip]].
  destruct Hg as [e H1 (ev & E & ?) H2|e reason k H1 (ev & E & ?) H2 H3 H4|e i H1 (ev & E & ?) H2 b h H3 H4|permission i Hp H1 H2 Ha Hperm b h H3 H4 Haud Hop];
    [exists ev; by rewrite E..|].
  pose proof (intercept_spec route handler st1 i Hop) as Hi. destruct (intercept _ _ _ route handler st1) as [st2 r2].
  destruct Hi as (ev & o & id & -> & _ & _ & E & Hactor & Hh & Ho). exists ev. rewrite E, Haud, Hip in *. split; [done|].
  exists permission, i, id. split_and!; try done. by destruct o, Ho.
Qed.
End Facts.

(** * Sequences of requests *)

Lemma chars_app a b : chars (a +:+ b) = chars a ++ chars b.
Proof. induction a as [|c a IH]; [done|]. exact (f_equal (cons c) IH). Qed.

Lemma actorKey_bucket a a' b b' : actorKey a b = actorKey a' b' -> b = b'.
Proof.
  intros E%(f_equal (fun s => list.last (chars s))). unfold actorKey in E. rewrite !chars_app, !app_assoc in E.
  destruct b, b'; try done; cbn [bucketText] in E; rewrite !last_app in E; discriminate.
Qed.

Lemma failureKey_actorKey ip a b : failureKey ip ≠ actorKey a b.
Proof. done. Qed.

Lemma failureKey_inj ip ip' : failureKey ip = failureKey ip' -> ip = ip'.
Proof. by intros [= ?]. Qed.

Definition limitsOk (l : OperatorRateLimits) : Prop :=
  ∀ b, b ∈ [ol_read l; ol_write l; ol_authFailures l] -> 1 <= rl_limit b ∧ 0 < rl_windowMs b.

Lemma intFromEnv_min raw fallback min : min <= fallback -> min <= intFromEnv raw fallback min.
Proof. intros Hf. unfold intFromEnv. destruct (raw ≫= _) as [z|]; [|done]. by destruct (Z.leb_spec min z). Qed.

(** Whatever the environment holds, the limits can be used. *)
Lemma operatorRateLimitsFromEnv_ok env : limitsOk (operatorRateLimitsFromEnv env).
Proof.
  intros b. rewrite !elem_of_cons, elem_of_nil. intros [->|[->|[->|[]]]]; cbn; (split; [apply intFromEnv_min; lia|lia]).
Qed.

Section Traces.
Context {Value : Type} (capacity : nat) `{JsHost} (dateParse : string -> option Z) (credentials : list OperatorCredential) (limits : OperatorRateLimits).

Record Arrival := mkArrival { ar_now : Z; ar_uuid : string; ar_route : Route; ar_request : OperatorRequest; ar_handler : HandlerRun (Value := Value) }.
(** An arrival, its request after the guard, and its result. *)
Definition Served : Type := Arrival * OperatorRequest * res Thrown (res HandlerError Z).

Definition serveOne (ws : Windows) (log : OracleAuditLog) (a : Arrival) : GuardState * res Thrown (res HandlerError Z) :=
  serveRequest (ar_now a) (ar_uuid a) capacity dateParse credentials limits (ar_route a) (ar_handler a) (mkGuard ws log (ar_request a) []).

Fixpoint serveAll (ws : Windows) (log : OracleAuditLog) (arrivals : list Arrival) : list Served :=
  match arrivals with
  | [] => []
  | a :: arrivals => let '(st, r) := serveOne ws log a in (a, gs_req st, r) :: serveAll (gs_limiter st) (gs_audit st) arrivals
  end.

(** The handler ran for the operator, on the bucket, in the interval. *)
Definition ranFor (actor : string) (bucket : Bucket) (t : Z) (s : Served) : bool :=
  inInterval (budgetFor limits bucket) t (ar_now s.1.1) &&
  match s.2, rq_oracleOperator s.1.2 with
  | Ok _, Some i => bool_decide (oi_actor i = actor) && bool_decide (actorKey actor (bucketOf (rq_method s.1.2)) = actorKey actor bucket)
  | _, _ => false
  end.
(** A credential from the address was checked and refused in the interval. *)
Definition failedFrom (ip : string) (t : Z) (s : Served) : bool :=
  inInterval (ol_authFailures limits) t (ar_now s.1.1) &&
  match s.2 with Err (Http e) => (he_status e =? 401) && bool_decide (clientIp s.1.2 = ip) | _ => false end.

(** Serving a request moves what [id] sees of the limiter by at most one hit,
    and a charged request is an allowed one. *)
Definition charges (id : string) (b : RateLimitBudget) (t : Z) (charged : Served -> bool) : Prop :=
  ∀ ws log a, NoDup (jm_keys ws) ->
  let '(st, r) := serveOne ws log a in
  let w := bump (opened (ar_now a) b (sees (ar_now a) ws id)) in
  NoDup (jm_keys (gs_limiter st)) ∧
  ((sees (ar_now a) (gs_limiter st) id = sees (ar_now a) ws id ∧ charged (a, gs_req st, r) = false) ∨
   (sees (ar_now a) (gs_limiter st) id = Some w ∧
    (charged (a, gs_req st, r) = true -> (wd_count w <=? rl_limit b) && inInterval b t (ar_now a) = true))).

Lemma charged_left id b t charged : 1 <= rl_limit b -> 0 < rl_windowMs b -> charges id b t charged -> ∀ arrivals now ws log,
  NoDup (jm_keys ws) -> StronglySorted Z.le (now :: map ar_now arrivals) -> countOk (sees now ws id) ->
  Z.of_nat (length (List.filter charged (serveAll ws log arrivals))) <= budgetLeft b t now (sees now ws id).
Proof.
  intros Hl Hw Hch. assert (0 <= rl_limit b) as Hl0 by lia.
  induction arrivals as [|a arrivals IH]; intros now ws log Hnd Hc Hok; [by apply left_nonneg|].
  apply StronglySorted_inv in Hc as [Hc Hnow]. cbn [map] in Hc, Hnow. apply Forall_cons in Hnow as [Hnow _].
  transitivity (budgetLeft b t (ar_now a) (sees (ar_now a) ws id)); [|by apply left_later].
  apply (countOk_later now (ar_now a)) in Hok; [|done]. cbn [serveAll]. specialize (Hch ws log a Hnd).
  destruct (serveOne ws log a) as [st r]. destruct Hch as [Hnd' Hs]. specialize (IH (ar_now a) (gs_limiter st) (gs_audit st) Hnd' Hc).
  cbn [List.filter]. destruct Hs as [[Es Ef]|[Es Et]]; rewrite Es in IH.
  - rewrite Ef. by apply IH.
  - specialize (IH (countOk_hit b (ar_now a) _ Hok)). pose proof (left_hit b t Hl0 (ar_now a) _ Hok) as Hh. cbn zeta in Hh.
    destruct (charged _); cbn [length]; [rewrite Et in Hh by done; lia|]. destruct (_ && _) in Hh; lia.
Qed.

Lemma serveOne_spec ws log a : wellConfigured credentials ->
  let '(st, r) := serveOne ws log a in
  ∃ st1 g, GuardStep (ar_now a) capacity dateParse credentials limits (ar_route a) (mkGuard ws log (ar_request a) []) st1 g ∧
    keptRequest (ar_request a) (gs_req st) ∧ gs_limiter st = gs_limiter st1 ∧
    match g with Err e => r = Err e | Ok _ => ∃ o, r = Ok o end ∧
    (g = Ok true -> rq_oracleOperator (gs_req st) = rq_oracleOperator (gs_req st1)).
Proof.
  intros Hw. unfold serveOne, serveRequest, mbind, G_bind.
  pose proof (canActivate_spec (ar_now a) (ar_uuid a) capacity dateParse credentials limits (ar_route a) (mkGuard ws log (ar_request a) []) Hw) as Hg.
  destruct (canActivate _ _ _ _ _ _ _ _) as [st1 [g|e]] eqn:E.
  2:{ destruct Hg as [Hg Hk]. exists st1, (Err e). split; [done|]. split; [done|]. split; [done|]. split; [done|]. by intros. }
  destruct Hg as [Hg [Hk1 Hk2]]. inversion Hg as [| | |p i ? ? ? ? ? ? ? ? ? ? Hop]; subst.
  pose proof (intercept_spec (ar_now a) (ar_uuid a) capacity (ar_route a) (ar_handler a) st1 i Hop) as Hi.
  destruct (intercept _ _ _ _ _ _) as [st r]. destruct Hi as (ev & o & id & -> & Hl & (R1 & R2 & R3 & R4 & R5) & _).
  exists st1, (Ok true). split; [done|]. split; [|split; [done|split; [by exists o|by intros _]]].
  split; [by rewrite R2|]. cbn [gs_req] in Hk2. rewrite <- Hk2. unfold clientIp. by rewrite R3, R4.
Qed.

Lemma actor_charged actor bucket t : wellConfigured credentials -> limitsOk limits ->
  charges (actorKey actor bucket) (budgetFor limits bucket) t (ranFor actor bucket t).
Proof.
  intros Hw Hlim ws log a Hnd. pose proof (serveOne_spec ws log a Hw) as Hs. destruct (serveOne ws log a) as [st r].
  destruct Hs as (st1 & g & Hg & [Hm Hip] & Hl & Hr & Hop). rewrite Hl.
  assert (∀ b, 0 < rl_windowMs (budgetFor limits b)) as Hbw by (intros b; apply Hlim; destruct b; set_solver).
  assert (0 < rl_windowMs (ol_authFailures limits)) as Hfw by (apply Hlim; set_solver).
  assert (∀ e, r = Err e -> ranFor actor bucket t (a, gs_req st, r) = false) as Hno by (intros e ->; unfold ranFor; cbn; apply andb_false_r).
  destruct Hg as [e H1 H2 H3|e reason k H1 H2 H3 H4 H5|e i H1 H2 H3 b h H4 H5|permission i Hp H1 H2 Ha Hperm b h H4 H5 Haud Hreq].
  - rewrite H3. split; [done|]. left. by eauto.
  - rewrite H5. pose proof (hit_spec (ar_now a) (ar_now a) ws (failureKey (clientIp (ar_request a))) (ol_authFailures limits) Hnd Hfw) as (_ & N & S).
    split; [done|]. left. rewrite S, decide_False by done. by eauto.
  - rewrite H5. pose proof (hit_spec (ar_now a) (ar_now a) ws (actorKey (oi_actor i) b) (budgetFor limits b) Hnd (Hbw b)) as (_ & N & S).
    split; [done|]. subst h. cbn [gs_limiter]. rewrite S. destruct (decide _) as [E|Hne]; [|left; by eauto].
    right. apply actorKey_bucket in E as Eb. subst bucket. rewrite <- E. split; [done|]. rewrite (Hno _ Hr). done.
  - destruct Hr as [o ->]. rewrite H5. pose proof (hit_spec (ar_now a) (ar_now a) ws (actorKey (oi_actor i) b) (budgetFor limits b) Hnd (Hbw b)) as (D & N & S).
    split; [done|]. subst h. cbn [gs_limiter] in *. rewrite S. destruct (decide _) as [E|Hne].
    + right. apply actorKey_bucket in E as Eb. subst bucket. rewrite <- E. split; [done|]. rewrite D, <- E in H4.
      unfold ranFor. cbn [fst snd]. rewrite !andb_true_iff. by intros [Hin _].
    + left. split; [done|]. unfold ranFor. cbn [fst snd]. rewrite Hop, Hreq by done. rewrite Hm.
      destruct (bool_decide (oi_actor i = actor)) eqn:E1; [|by rewrite andb_false_r]. apply bool_decide_eq_true in E1 as <-.
      rewrite (bool_decide_false (_ = _)); [by rewrite !andb_false_r|]. intros E2. apply Hne. exact (eq_sym E2).
Qed.

Lemma failure_charged ip t : wellConfigured credentials -> limitsOk limits ->
  charges (failureKey ip) (ol_authFailures limits) t (failedFrom ip t).
Proof.
  intros Hw Hlim ws log a Hnd. pose proof (serveOne_spec ws log a Hw) as Hs. destruct (serveOne ws log a) as [st r].
  destruct Hs as (st1 & g & Hg & [Hm Hip] & Hl & Hr & Hop). rewrite Hl.
  assert (∀ b, 0 < rl_windowMs (budgetFor limits b)) as Hbw by (intros b; apply Hlim; destruct b; set_solver).
  assert (1 <= rl_limit (ol_authFailures limits) ∧ 0 < rl_windowMs (ol_authFailures limits)) as [Hf1 Hfw] by (apply Hlim; set_solver).
  destruct Hg as [e H1 H2 H3|e reason k H1 H2 H3 H4 H5|e i H1 H2 H3 b h H4 H5|permission i Hp H1 H2 Ha Hperm b h H4 H5 Haud Hreq].
  - rewrite H3. split; [done|]. left. subst r. unfold failedFrom. cbn. rewrite (proj2 (Z.eqb_neq _ _)) by done. by rewrite andb_false_r.
  - rewrite H5. cbn [gs_limiter gs_req] in *.
    pose proof (hit_spec (ar_now a) (ar_now a) ws (failureKey (clientIp (ar_request a))) (ol_authFailures limits) Hnd Hfw) as (D & N & S).
    split; [done|]. rewrite S. destruct (decide _) as [E|Hne].
    + right. apply failureKey_inj in E as ->. split; [done|]. unfold failedFrom. cbn [fst snd]. rewrite !andb_true_iff. intros [Hin _]. split; [|done].
      rewrite peek_sees in H4. destruct (sees (ar_now a) ws _) as [w|]; [exact H4|]. cbn. by apply Z.leb_le.
    + left. split; [done|]. subst r. unfold failedFrom. cbn [fst snd]. rewrite Hip, (bool_decide_false (_ = ip)), !andb_false_r; [done|]. intros <-. by apply Hne.
  - rewrite H5. pose proof (hit_spec (ar_now a) (ar_now a) ws (actorKey (oi_actor i) b) (budgetFor limits b) Hnd (Hbw b)) as (_ & N & S).
    split; [done|]. left. subst h r. cbn [gs_limiter]. rewrite S, decide_False by done. unfold failedFrom. cbn. rewrite H1. by rewrite andb_false_r.
  - destruct Hr as [o ->]. rewrite H5. pose proof (hit_spec (ar_now a) (ar_now a) ws (actorKey (oi_actor i) b) (budgetFor limits b) Hnd (Hbw b)) as (_ & N & S).
    split; [done|]. left. subst h. cbn [gs_limiter]. rewrite S, decide_False by done. unfold failedFrom. cbn. by rewrite andb_false_r.
Qed.

(** In any sequence of requests, within any interval of one window's
    length the handlers run fewer than twice the limit of times for one
    operator on its read or write budget, and fewer than twice the limit of
    credentials from one address are checked and refused, however the
    attempts are spread over keys. *)
Theorem operator_requests_bounded arrivals now log actor bucket ip t :
  wellConfigured credentials -> limitsOk limits -> StronglySorted Z.le (now :: map ar_now arrivals) ->
  Z.of_nat (length (List.filter (ranFor actor bucket t) (serveAll [] log arrivals))) <= 2 * rl_limit (budgetFor limits bucket) - 1 ∧
  Z.of_nat (length (List.filter (failedFrom ip t) (serveAll [] log arrivals))) <= 2 * rl_limit (ol_authFailures limits) - 1.
Proof.
  intros Hw Hlim Hc.
  assert (1 <= rl_limit (budgetFor limits bucket) ∧ 0 < rl_windowMs (budgetFor limits bucket)) as [H1 H2] by (apply Hlim; destruct bucket; set_solver).
  assert (1 <= rl_limit (ol_authFailures limits) ∧ 0 < rl_windowMs (ol_authFailures limits)) as [H3 H4] by (apply Hlim; set_solver).
  split; (etransitivity; [eapply charged_left; [| |by apply actor_charged || apply failure_charged|apply NoDup_nil_2|exact Hc|]|]);
    try done; unfold budgetLeft; cbn; repeat case_match; lia.
Qed.
End Traces.

(** * Minted keys *)

Lemma lor_lt64 x y : 0 <= x < 64 -> 0 <= y < 64 -> 0 <= Z.lor x y < 64.
Proof.
  intros Hx Hy. split; [apply Z.lor_nonneg; lia|]. destruct (Z.eq_dec (Z.lor x y) 0) as [->|Hn]; [lia|].
  assert (0 <= Z.lor x y) by (apply Z.lor_nonneg; lia). change 64 with (2 ^ 6). apply Z.log2_lt_pow2; [lia|].
  rewrite Z.log2_lor by lia.
  assert (∀ v, 0 <= v < 64 -> Z.log2 v < 6) as Hlog.
  { intros v Hv. destruct (Z.eq_dec v 0) as [->|]; [done|]. apply Z.log2_lt_pow2; lia. }
  by apply Z.max_lub_lt; apply Hlog.
Qed.

Definition digitOk (c : ascii) : bool := secretChar (urlChar c) && negb (bool_decide (c = "="%char)).

Lemma base64Char_ok n : 0 <= n < 64 -> digitOk (base64Char n) = true.
Proof.
  intros Hn. assert (forallb (fun k => digitOk (base64Char (Z.of_nat k))) (List.seq 0 64) = true) as H by (vm_compute; done).
  rewrite forallb_forall in H. specialize (H (Z.to_nat n)). rewrite Z2Nat.id in H by lia. apply H, in_seq. lia.
Qed.

Definition isByte (b : Z) : Prop := 0 <= b < 256.

Lemma byte_parts a : isByte a -> 0 <= Z.shiftr a 2 < 64 ∧ 0 <= Z.shiftl (Z.land a 3) 4 < 64 ∧ 0 <= Z.shiftr a 4 < 64 ∧
  0 <= Z.shiftl (Z.land a 15) 2 < 64 ∧ 0 <= Z.shiftr a 6 < 64 ∧ 0 <= Z.land a 63 < 64.
Proof.
  unfold isByte. intros Ha. rewrite !Z.shiftr_div_pow2, !Z.shiftl_mul_pow2 by lia.
  change 3 with (Z.ones 2). change 15 with (Z.ones 4). change 63 with (Z.ones 6). rewrite !Z.land_ones by lia.
  pose proof (Z.mod_pos_bound a (2 ^ 2)). pose proof (Z.mod_pos_bound a (2 ^ 4)). pose proof (Z.mod_pos_bound a (2 ^ 6)).
  split_and!; try (apply Z.div_pos; lia); try (apply Z.div_lt_upper_bound; lia); lia.
Qed.

Lemma base64url_cons_ok l k : (∀ c, c ∈ l -> digitOk c = true) ->
  let u := map urlChar (List.filter (fun c => negb (bool_decide (c = "="%char))) l) in
  (k <= length l)%nat -> forallb secretChar u = true ∧ (k <= length u)%nat.
Proof.
  intros Hl. cbn zeta. rewrite length_map. revert k. induction l as [|c l IH]; intros k Hk; [done|].
  assert (digitOk c = true) as Hc by (apply Hl; by left). apply andb_true_iff in Hc as [H1 H2]. cbn [List.filter]. rewrite H2. cbn [map forallb length].
  rewrite H1. cbn in Hk. destruct (IH ltac:(intros; apply Hl; by right) (k - 1)%nat ltac:(lia)) as [IH1 IH2]. rewrite IH1. split; [done|lia].
Qed.

Lemma base64url_app a b : map urlChar (List.filter (fun c => negb (bool_decide (c = "="%char))) (a ++ b)) =
  map urlChar (List.filter (fun c => negb (bool_decide (c = "="%char))) a) ++ map urlChar (List.filter (fun c => negb (bool_decide (c = "="%char))) b).
Proof. by rewrite List.filter_app, map_app. Qed.

Lemma base64url_ok bytes : Forall isByte bytes -> forallb secretChar (base64url bytes) = true ∧ (length bytes <= length (base64url bytes))%nat.
Proof.
  enough (∀ n l, (length l <= n)%nat -> Forall isByte l -> forallb secretChar (base64url l) = true ∧ (length l <= length (base64url l))%nat) as H by by apply (H (length bytes)).
  induction n as [|n IH]; intros [|a [|b [|c l]]] Hn Hb; cbn [length] in Hn; try lia; try done;
    repeat match goal with H : Forall isByte (_ :: _) |- _ => apply Forall_cons in H as [?%byte_parts H] end; destruct_and?;
    unfold base64url; cbn [base64].
  - match goal with |- context [?x :: ?y :: ["="%char; "="%char]] => change (x :: y :: ["="%char; "="%char]) with ([x; y] ++ ["="%char; "="%char]) end.
    rewrite base64url_app, app_nil_r. apply (base64url_cons_ok [_; _] 1); [|cbn; lia]. intros x. rewrite !elem_of_cons, elem_of_nil. intros [->|[->|[]]]; by apply base64Char_ok.
  - match goal with |- context [?x :: ?y :: ?z :: ["="%char]] => change (x :: y :: z :: ["="%char]) with ([x; y; z] ++ ["="%char]) end.
    rewrite base64url_app, app_nil_r. apply (base64url_cons_ok [_; _; _] 2); [|cbn; lia]. intros x. rewrite !elem_of_cons, elem_of_nil. intros [->|[->|[->|[]]]]; apply base64Char_ok; by try apply lor_lt64.
  - match goal with |- context [?x :: ?y :: ?z :: ?w :: base64 l] => change (x :: y :: z :: w :: base64 l) with ([x; y; z; w] ++ base64 l) end.
    rewrite base64url_app. destruct (IH l ltac:(lia) Hb) as [IH1 IH2].
    match goal with |- context [[?x; ?y; ?z; ?w]] => destruct (base64url_cons_ok [x; y; z; w] 3) as [Hu1 Hu2] end; [|cbn; lia|].
    { intros x. rewrite !elem_of_cons, elem_of_nil. intros [->|[->|[->|[->|[]]]]]; apply base64Char_ok; by try apply lor_lt64. }
    rewrite forallb_app, Hu1, length_app. fold (base64url l). rewrite IH1. split; [done|]. cbn [length]. lia.
Qed.

Lemma keyIdChar_plain c : keyIdChar c = true -> is_space c = false ∧ c ≠ "."%char.
Proof. destruct c as [[] [] [] [] [] [] [] []]; by vm_compute. Qed.

Lemma secretChar_plain c : secretChar c = true -> is_space c = false.
Proof. destruct c as [[] [] [] [] [] [] [] []]; by vm_compute. Qed.

Lemma spanOf_stop ok a c r : forallb ok a = true -> ok c = false -> spanOf ok (a ++ c :: r) = (a, c :: r).
Proof.
  induction a as [|x a IH]; cbn; intros Ha Hc; [by rewrite Hc|]. apply andb_true_iff in Ha as [Hx Ha]. by rewrite Hx, IH.
Qed.

Lemma KEY_ID_chars s : KEY_ID_PATTERN s = true -> ∃ c r, chars s = c :: r ∧ forallb keyIdChar (c :: r) = true.
Proof.
  unfold KEY_ID_PATTERN. destruct (chars s) as [|c r]; [done|]. rewrite !andb_true_iff. intros [[[Hc _] _] Hr].
  exists c, r. split; [done|]. cbn [forallb]. rewrite Hr. unfold keyIdChar. by rewrite Hc.
Qed.

(** The first and last characters of a text decide whether trimming changes it. *)
Lemma trim_ends c r x : is_space c = false -> is_space x = false -> trim (c :: r ++ [x]) = c :: r ++ [x].
Proof.
  intros Hc Hx. unfold trim. rewrite trim_left_id by done. rewrite app_comm_cons, rev_app_distr. cbn [rev app].
  rewrite trim_left_id by done. change (x :: rev r ++ [c]) with ([x] ++ (rev r ++ [c])). rewrite !rev_app_distr, rev_involutive. done.
Qed.

Lemma bearerToken_minted keyId (secret : text) : KEY_ID_PATTERN keyId = true -> forallb secretChar secret = true -> (16 <= length secret)%nat ->
  bearerToken (trim (chars ("Bearer " +:+ keyId +:+ "." +:+ str secret))) = Some (keyId, str secret).
Proof.
  intros Hk Hs Hlen. destruct (KEY_ID_chars keyId Hk) as (c & r & Ek & Hcr).
  assert (chars ("Bearer " +:+ keyId +:+ "." +:+ str secret) = chars "Bearer " ++ (c :: r) ++ "."%char :: secret) as ->.
  { rewrite !chars_app, Ek, String.list_ascii_of_string_of_list_ascii. done. }
  destruct (exists_last (l := secret)) as (s' & x & Ex); [intros ->; cbn in Hlen; lia|].
  assert (is_space x = false) as Hx. { apply secretChar_plain. rewrite Ex, forallb_app in Hs. apply andb_true_iff in Hs as [_ Hx]. cbn in Hx. by rewrite andb_true_r in Hx. }
  rewrite Ex. change (chars "Bearer ") with ("B"%char :: chars "earer "). cbn [app].
  replace (chars "earer " ++ c :: r ++ "."%char :: s' ++ [x]) with ((chars "earer " ++ c :: r ++ "."%char :: s') ++ [x])
    by (rewrite <- app_assoc; cbn; by rewrite <- app_assoc).
  rewrite trim_ends by done. rewrite <- app_assoc. cbn [app]. rewrite <- app_assoc. cbn [app]. rewrite <- Ex.
  apply andb_true_iff in Hcr as Hcr'. destruct Hcr' as [Hc _]. unfold bearerToken. cbn [String.list_ascii_of_string take drop app].
  rewrite bool_decide_true by done. change (is_space " "%char) with true. cbn iota.
  rewrite trim_left_id by by apply keyIdChar_plain.
  rewrite app_comm_cons, (spanOf_stop keyIdChar (c :: r) "."%char secret Hcr) by done. rewrite Hs, (proj2 (Nat.leb_le _ _) Hlen). cbn [andb].
  by rewrite <- Ek, String.string_of_list_ascii_of_string.
Qed.

(** A minted token is a credential: once the minted credential is the
    configured one of its key id, the token authenticates as its actor and
    role, at any time. *)
Theorem minted_key_authenticates `{JsHost} dateParse credentials now randomBytes keyId actor role token credential :
  length randomBytes = 32%nat -> Forall isByte randomBytes -> generateOperatorKey randomBytes keyId actor role = Ok (token, credential) ->
  jm_get (byKeyId credentials) keyId = Some credential ->
  authenticate dateParse credentials now (Some ("Bearer " +:+ token)) = Ok (mkIdentity actor role keyId (ROLE_PERMISSIONS role)).
Proof.
  intros Hlen Hb Hg Hcred. unfold generateOperatorKey in Hg. destruct (KEY_ID_PATTERN keyId) eqn:Hk; [|done]. cbn in Hg. injection Hg as <- <-.
  destruct (base64url_ok randomBytes Hb) as [Hs Hl]. unfold authenticate.
  rewrite bearerToken_minted by (done || lia). rewrite Hcred. cbn [oc_secretSha256 oc_disabled oc_expiresAt oc_actor oc_role].
  rewrite Nat.eqb_refl. cbn [negb]. by rewrite bool_decide_true by done.
Qed.

(** * Examples *)

(** A digest of two values, by the parity of the length. *)
Definition demoHash (s : string) : string := str (repeat (if Nat.even (String.length s) then "a"%char else "b"%char) 64).
Definition accessHost : JsHost := {| localeLe := string_leb; numToString _ := ""; sha256Hex := demoHash |}.

Definition demoBytes : list Z := repeat 7 32.
Definition demoCredential : OperatorCredential :=
  mkCredential "ops-1" "alice" Operator (@hashSecret accessHost (str (base64url demoBytes))) None None.
Definition mintedToken : string := "ops-1." +:+ str (base64url demoBytes).
Definition demoToken : string := "Bearer " +:+ mintedToken.
Definition demoLimits : OperatorRateLimits := operatorRateLimitsFromEnv (fun _ => None).

Definition demoRequest (authorization : option string) : OperatorRequest :=
  mkRequest authorization None "POST" (Some "/feeds/:feedId/pause") None "/feeds/x/pause" (Some "10.0.0.1") None [("feedId", "x")] None None.
Definition demoHandler : HandlerRun (Value := Z) := fun _ => ([mkChange "feed" "x" 0 1], Ok 200).
Definition demoArrival (now : Z) (permission : OraclePermission) (authorization : option string) : Arrival (Value := Z) :=
  mkArrival now "id" (mkRoute (Some permission) (Some "feeds.pause")) (demoRequest authorization) demoHandler.

Lemma demo_wellConfigured : @wellConfigured accessHost [demoCredential].
Proof.
  split; [by repeat constructor|]. intros s. unfold hashSecret. cbn [sha256Hex accessHost]. unfold demoHash. by destruct (Nat.even _).
Qed.

Definition demoServed : list (Served (Value := Z)) :=
  serveAll (H := accessHost) 1000 parseIso [demoCredential] demoLimits [] (mkLog [] [])
    [demoArrival 0 FeedsPause (Some demoToken); demoArrival 1 FeedsWrite (Some demoToken); demoArrival 2 FeedsPause None;
     demoArrival 3 FeedsPause (Some (demoToken +:+ "x")); demoArrival 4 FeedsPause (Some demoToken)].

Lemma demoServed_results :
  map (fun s => match s.2 with Ok (Ok status) => status | Ok (Err _) => -1 | Err (Http e) => he_status e | Err (Raw _) => -2 end) demoServed
  = [200; 403; 401; 401; 200].
Proof. by vm_compute. Qed.

Lemma every_request_audited_once_witness :
  match serveRequest 5 "id" 1000 (H := accessHost) parseIso [demoCredential] demoLimits (mkRoute (Some FeedsPause) (Some "feeds.pause")) demoHandler
    (mkGuard [] (mkLog [] []) (demoRequest (Some demoToken)) []) with
  | (st, r) => ∃ ev, al_sink (gs_audit st) = [ev] ∧ (∀ e, r ≠ Err (Raw e))
  end.
Proof.
  pose proof (@every_request_audited_once Z 5 "id" 1000 accessHost parseIso [demoCredential] demoLimits (mkRoute (Some FeedsPause) (Some "feeds.pause"))
    demoHandler (mkGuard [] (mkLog [] []) (demoRequest (Some demoToken)) []) demo_wellConfigured) as H.
  destruct (serveRequest _ _ _ _ _ _ _ _ _) as [st r]. destruct H as (ev & E & Hr). exists ev. split; [done|]. intros e ->. done.
Defined.

Lemma operator_requests_bounded_witness :
  (Z.of_nat (length (List.filter (ranFor demoLimits "alice" WriteBucket 0) demoServed)) <= 39 ∧
   Z.of_nat (length (List.filter (failedFrom demoLimits "10.0.0.1" 0) demoServed)) <= 19) ∧
  length (List.filter (ranFor demoLimits "alice" WriteBucket 0) demoServed) = 2%nat ∧
  length (List.filter (failedFrom demoLimits "10.0.0.1" 0) demoServed) = 2%nat.
Proof.
  split; [|by vm_compute].
  apply (@operator_requests_bounded Z 1000 accessHost parseIso [demoCredential] demoLimits
    [demoArrival 0 FeedsPause (Some demoToken); demoArrival 1 FeedsWrite (Some demoToken); demoArrival 2 FeedsPause None;
     demoArrival 3 FeedsPause (Some (demoToken +:+ "x")); demoArrival 4 FeedsPause (Some demoToken)] 0 (mkLog [] []) "alice" WriteBucket "10.0.0.1" 0
    demo_wellConfigured (operatorRateLimitsFromEnv_ok _)).
  cbn. repeat (apply SSorted_cons; [|repeat constructor; lia]). apply SSorted_nil.
Defined.

Lemma minted_key_authenticates_witness :
  authenticate (H := accessHost) parseIso [demoCredential] 17 (Some demoToken) = Ok (mkIdentity "alice" Operator "ops-1" (ROLE_PERMISSIONS Operator)).
Proof.
  refine (@minted_key_authenticates accessHost parseIso [demoCredential] 17 demoBytes "ops-1" "alice" Operator mintedToken demoCredential _ _ _ _); [done|repeat constructor; cbv; congruence|by vm_compute|by vm_compute].
Defined.
