(* ===== verification/Idempotency.v ===== *)
(** The idempotency store (src/common/idempotency.service.ts): a lock row per
    key and endpoint that a request takes before its write and completes with
    its response.

    [acquire] is a read followed by up to two writes, without a transaction
    around them; the statements are definitions of their own, so that calls
    interleave between them.  The row's time is the clock of the database
    ([dbNow]), its age is taken on the clock of the application ([now]).  The
    table is not in the repository: what JSON.stringify makes of a response
    and what a read gives back for a stored text are parameters. *)

From stdpp Require Import base list strings.
From Stdlib Require Import ZArith Lia.
From S2P Require Import Prelude.

#[local] Open Scope Z_scope.

(** Key and endpoint. *)
Definition Id : Type := string * string.
(** A row; the body is the text that was written. *)
Record Row := mkRow { rw_responseBody : option string; rw_statusCode : option Z; rw_createdAt : Z; rw_committed : bool }.
Definition Table := list (Id * Row).

Record IdempotencyRecord (Json : Type) := mkRecord {
  ir_key : string; ir_endpoint : string; ir_responseBody : option Json; ir_statusCode : option Z; ir_createdAt : Z }.
Arguments mkRecord {Json}.

Definition LOCK_TIMEOUT_MS : Z := 60000.

(** * Statements *)

Definition selectRow (t : Table) (id : Id) : option Row := jm_get t id.
Definition deleteRow (t : Table) (id : Id) : Table := jm_delete t id.
(** [ON CONFLICT (key, endpoint) DO NOTHING] *)
Definition insertPending (dbNow : Z) (t : Table) (id : Id) : Table :=
  match jm_get t id with Some _ => t | None => jm_set t id (mkRow None None dbNow false) end.

Inductive Seen (Json : Type) := Replay (r : IdempotencyRecord Json) | InFlight | StaleLock | NewKey.
Arguments Replay {Json}. Arguments InFlight {Json}. Arguments StaleLock {Json}. Arguments NewKey {Json}.
Inductive Acquired (Json : Type) := Miss | HitWith (r : IdempotencyRecord Json) | ConflictException.
Arguments Miss {Json}. Arguments HitWith {Json}. Arguments ConflictException {Json}.
Inductive Call (Json : Type) := Acquire (id : Id) | Commit (id : Id) (responseBody : Json) (statusCode : Z) | Release (id : Id).
Arguments Acquire {Json}. Arguments Commit {Json}. Arguments Release {Json}.

Section Store.
Context {Json : Type}.
(** [stringify] is JSON.stringify, which gives no text for undefined; [readBack]
    is what a read of the column gives for a text written to it. *)
Variables (stringify : Json -> option string) (readBack : string -> Json).

(** What the row that was read means at [now]. *)
Definition judge (now : Z) (id : Id) (row : option Row) : Seen Json :=
  match row with
  | Some r =>
      if rw_committed r then Replay (mkRecord id.1 id.2 (readBack <$> rw_responseBody r) (rw_statusCode r) (rw_createdAt r))
      else if now - rw_createdAt r <? LOCK_TIMEOUT_MS then InFlight else StaleLock
  | None => NewKey
  end.

(** * Calls *)

Definition acquire (now dbNow : Z) (t : Table) (id : Id) : Table * Acquired Json :=
  match judge now id (selectRow t id) with
  | Replay r => (t, HitWith r)
  | InFlight => (t, ConflictException)
  | StaleLock => (insertPending dbNow (deleteRow t id) id, Miss)
  | NewKey => (insertPending dbNow t id, Miss)
  end.

(** Whatever the row is: pending, or committed already. *)
Definition commit (t : Table) (id : Id) (responseBody : Json) (statusCode : Z) : Table :=
  match jm_get t id with Some r => jm_set t id (mkRow (stringify responseBody) (Some statusCode) (rw_createdAt r) true) | None => t end.

Definition release (t : Table) (id : Id) : Table :=
  match jm_get t id with Some r => if rw_committed r then t else jm_delete t id | None => t end.

(** * Calls that do not overlap *)


(** A call with the two clocks it runs under. *)
Record Event := mkEvent { ev_now : Z; ev_dbNow : Z; ev_call : Call Json }.

Definition call (t : Table) (e : Event) : Table * option (Acquired Json) :=
  match ev_call e with
  | Acquire id => let '(t, a) := acquire (ev_now e) (ev_dbNow e) t id in (t, Some a)
  | Commit id b s => (commit t id b s, None)
  | Release id => (release t id, None)
  end.

(** The calls with their answers, and the table after them. *)
Definition Answered : Type := Event * option (Acquired Json).
Fixpoint calls (t : Table) (es : list Event) : list Answered :=
  match es with
  | [] => []
  | e :: es => let '(t, a) := call t e in (e, a) :: calls t es
  end.

(** * The contract, on the history of calls and answers *)














(** * Calls that overlap *)

(** Where an acquisition is between its statements. *)
Inductive Pc := ToSelect | ToDelete | ToInsert | Finished (a : Acquired Json).

Definition step (now dbNow : Z) (id : Id) (t : Table) (pc : Pc) : Table * Pc :=
  match pc with
  | ToSelect => (t, match judge now id (selectRow t id) with
                    | Replay r => Finished (HitWith r) | InFlight => Finished ConflictException | StaleLock => ToDelete | NewKey => ToInsert end)
  | ToDelete => (deleteRow t id, ToInsert)
  | ToInsert => (insertPending dbNow t id, Finished Miss)
  | Finished a => (t, Finished a)
  end.

(** Run alone, the steps are the call. *)
Lemma steps_are_acquire now dbNow id t :
  let '(t1, p1) := step now dbNow id t ToSelect in let '(t2, p2) := step now dbNow id t1 p1 in let '(t3, p3) := step now dbNow id t2 p2 in
  (t3, p3) = ((acquire now dbNow t id).1, Finished (acquire now dbNow t id).2).
Proof. unfold acquire, step. destruct (judge now id (selectRow t id)); done. Qed.

(** Two acquisitions of one key; [true] moves the first. *)
Fixpoint interleave (now dbNow : Z) (id : Id) (schedule : list bool) (t : Table) (p q : Pc) : Table * Pc * Pc :=
  match schedule with
  | [] => (t, p, q)
  | true :: s => let '(t, p) := step now dbNow id t p in interleave now dbNow id s t p q
  | false :: s => let '(t, q) := step now dbNow id t q in interleave now dbNow id s t p q
  end.

(** The insertion does not tell who inserted: of two first requests that both
    read before either writes, both are told to proceed, where the documented
    answer to the second is a conflict. *)
Theorem overlapping_first_calls_both_proceed now dbNow id t : jm_get t id = None ->
  (interleave now dbNow id [true; false; true; false] t ToSelect ToSelect).1.2 = Finished Miss ∧
  (interleave now dbNow id [true; false; true; false] t ToSelect ToSelect).2 = Finished Miss.
Proof. intros E. cbn. unfold selectRow. rewrite E. cbn. done. Qed.

(** The deletion of a stale lock does not check that the row is still the one
    it read: when the slow owner commits in between, the committed response is
    deleted and the write is executed again. *)
Theorem stale_takeover_drops_committed_response now dbNow id since t body status :
  jm_get t id = Some (mkRow None None since false) -> LOCK_TIMEOUT_MS <= now - since ->
  let '(t1, p1) := step now dbNow id t ToSelect in
  let t2 := commit t1 id body status in
  let '(t3, p3) := step now dbNow id t2 p1 in
  let '(t4, p4) := step now dbNow id t3 p3 in
  jm_get t2 id = Some (mkRow (stringify body) (Some status) since true) ∧ p4 = Finished Miss ∧ jm_get t4 id = Some (mkRow None None dbNow false).
Proof.
  intros E Hold. cbn. unfold selectRow, judge. rewrite E. cbn. rewrite (proj2 (Z.ltb_ge _ _)) by lia. cbn.
  unfold commit. rewrite E. cbn. unfold insertPending, deleteRow. rewrite jm_get_set_eq, jm_get_delete_eq, jm_get_set_eq. done.
Qed.
End Store.
Arguments mkEvent {Json}.

(** * Examples *)



(** [commit] does not check whose lock it completes, nor that it is still open: a
    slow owner that commits after its stale lock was taken over and completed
    replaces a response that has already been replayed. *)
Example slow_owner_replaces_replayed_response :
  map snd (calls Some id [] [mkEvent 0 0 (Acquire ("k", "e")); mkEvent 60000 60000 (Acquire ("k", "e")); mkEvent 60001 60001 (Commit ("k", "e") "second" 201);
    mkEvent 60002 60002 (Acquire ("k", "e")); mkEvent 60003 60003 (Commit ("k", "e") "first" 201); mkEvent 60004 60004 (Acquire ("k", "e"))])
  = [Some Miss; Some Miss; None; Some (HitWith (mkRecord "k" "e" (Some "second"%string) (Some 201) 60000)); None;
     Some (HitWith (mkRecord "k" "e" (Some "first"%string) (Some 201) 60000))].
Proof. vm_compute. reflexivity. Qed.
