(* ===== verification/Shutdown.v ===== *)
(** Shutdown of the oracle pipeline: the in-flight tracker
    (src/oracle/shutdown/in-flight-tracker.ts), the leader lock
    (leader-lock.ts) and the lifecycle that composes them
    (oracle-pipeline-lifecycle.service.ts).

    The process is single-threaded; an event is what runs between two awaits,
    or a command that Redis executes.  A poll that asks for the lock is a
    [Request] with the command it waits for.  Events that do not apply change
    nothing. *)

From stdpp Require Import base list strings.
From Stdlib Require Import ZArith Lia Floats.
From S2P Require Import Prelude Decimal JsNum JsParse.

#[local] Open Scope Z_scope.

(** * Options *)

Definition DEFAULT_GRACE_MS : num := 30000%float.
Definition DEFAULT_DRAIN_MS : num := 20000%float.
Definition CLOSE_HEADROOM_MS : num := 5000%float.

Definition loadOracleShutdownOptions (env : string -> option string) : num :=
  let read k d := match env k with Some s => toNumber s | None => d end in
  let grace := read "SHUTDOWN_GRACE_PERIOD_MS"%string DEFAULT_GRACE_MS in
  let requested := read "ORACLE_SHUTDOWN_DRAIN_MS"%string DEFAULT_DRAIN_MS in
  let ceiling := nmax 0%float ((if isFinite grace then grace else DEFAULT_GRACE_MS) - CLOSE_HEADROOM_MS)%float in
  let drain := if isFinite requested && nge requested 0%float then requested else DEFAULT_DRAIN_MS in
  nmin drain ceiling.

(** * The tracker *)

Inductive InFlightKind := Poll | Publish | Evidence.
#[global] Instance InFlightKind_eq_dec : EqDecision InFlightKind.
Proof. solve_decision. Defined.

Record Entry := mkEntry { en_serial : nat; en_kind : InFlightKind; en_id : option string; en_startedAt : Z }.
Record Abandoned := mkAbandoned { ab_kind : InFlightKind; ab_id : option string; ab_runningMs : Z }.
Record DrainResult := mkDrain { dr_drained : bool; dr_elapsedMs : Z; dr_pending : list (InFlightKind * nat); dr_abandoned : list Abandoned }.

Definition count (entries : list Entry) (kind : option InFlightKind) : nat :=
  match kind with None => length entries | Some k => length (List.filter (fun e => bool_decide (en_kind e = k)) entries) end.

(** The report of a drain that began at [start] and ends at [now]. *)
Definition drainReport (start now : Z) (entries : list Entry) : DrainResult :=
  mkDrain (length entries =? 0)%nat (now - start)
    (foldl (fun m e => jm_set m (en_kind e) (S (default 0%nat (jm_get m (en_kind e))))) [] entries)
    (map (fun e => mkAbandoned (en_kind e) (en_id e) (now - en_startedAt e)) entries).

(** * The lock and the lifecycle *)

(** The token under the key in Redis; it may expire at any time. *)
Definition RedisKey : Type := option string.

(** Where [acquire] is: before a command, or before its answer. *)
Inductive Asking := WantRenew | RenewReply (ok : bool) | WantSet | SetReply (ok : bool).

Inductive Phase := Running | Draining (start : Z) | Drained | Released.

Record Lifecycle := mkLife {
  lc_accepting : bool; lc_held : bool; lc_key : RedisKey; lc_asking : list (nat * Asking); lc_entries : list Entry;
  lc_phase : Phase; lc_lastDrain : option DrainResult; lc_serial : nat }.

Definition withAsking (s : Lifecycle) (l : list (nat * Asking)) : Lifecycle :=
  mkLife (lc_accepting s) (lc_held s) (lc_key s) l (lc_entries s) (lc_phase s) (lc_lastDrain s) (lc_serial s).
Definition withHeld (s : Lifecycle) (h : bool) : Lifecycle :=
  mkLife (lc_accepting s) h (lc_key s) (lc_asking s) (lc_entries s) (lc_phase s) (lc_lastDrain s) (lc_serial s).
Definition withKey (s : Lifecycle) (k : RedisKey) : Lifecycle :=
  mkLife (lc_accepting s) (lc_held s) k (lc_asking s) (lc_entries s) (lc_phase s) (lc_lastDrain s) (lc_serial s).
Definition withPhase (s : Lifecycle) (p : Phase) (d : option DrainResult) : Lifecycle :=
  mkLife (lc_accepting s) (lc_held s) (lc_key s) (lc_asking s) (lc_entries s) p d (lc_serial s).

Inductive Event :=
| RunPoll                        (* the scheduler calls runPoll *)
| RedisExecutes (req : nat)      (* Redis executes the command of a request *)
| Answered (now : Z) (req : nat) (* its answer arrives *)
| AskFails (req : nat)           (* the command throws *)
| Track (now : Z) (kind : InFlightKind) (id : option string)
| Finish (serial : nat)
| OtherAcquires (other : string) (* another replica's SET NX *)
| Expires                        (* the key's time to live ends *)
| OnModuleDestroy
| BeforeApplicationShutdown (now : Z)
| DrainEnds (now : Z) (timeout : bool)
| ReleaseLock.

Section Lock.
Context (token : string).

(** [SET key t PX ttl NX] *)
Definition setNx (t : string) (k : RedisKey) : RedisKey * bool := match k with Some _ => (k, false) | None => (Some t, true) end.
(** [RENEW_SCRIPT] *)
Definition renew (k : RedisKey) : bool := bool_decide (k = Some token).
(** [RELEASE_SCRIPT] *)
Definition releaseScript (k : RedisKey) : RedisKey := if bool_decide (k = Some token) then None else k.

Definition addEntry (s : Lifecycle) (now : Z) (kind : InFlightKind) (id : option string) : Lifecycle :=
  mkLife (lc_accepting s) (lc_held s) (lc_key s) (lc_asking s) (lc_entries s ++ [mkEntry (lc_serial s) kind id now]) (lc_phase s)
    (lc_lastDrain s) (S (lc_serial s)).

(** [acquire] has returned: the poll runs when this replica leads and still
    accepts work. *)
Definition acquired (s : Lifecycle) (now : Z) (leader : bool) : Lifecycle :=
  if leader && lc_accepting s then addEntry s now Poll None else s.

Definition drainStep (s : Lifecycle) (now : Z) (timeout : bool) : Lifecycle :=
  match lc_phase s with
  | Draining start =>
      if timeout || (length (lc_entries s) =? 0)%nat then withPhase s Drained (Some (drainReport start now (lc_entries s))) else s
  | _ => s
  end.

Definition release (s : Lifecycle) : Lifecycle :=
  if lc_held s then withKey (withHeld s false) (releaseScript (lc_key s)) else s.

Definition stop (s : Lifecycle) : Lifecycle :=
  mkLife false (lc_held s) (lc_key s) (lc_asking s) (lc_entries s) (lc_phase s) (lc_lastDrain s) (lc_serial s).

Definition runPoll (s : Lifecycle) : Lifecycle :=
  if lc_accepting s then
    mkLife true (lc_held s) (lc_key s) (lc_asking s ++ [(lc_serial s, if lc_held s then WantRenew else WantSet)]) (lc_entries s) (lc_phase s)
      (lc_lastDrain s) (S (lc_serial s))
  else s.

Definition executes (s : Lifecycle) (req : nat) : Lifecycle :=
  match jm_get (lc_asking s) req with
  | Some WantRenew => withAsking s (jm_set (lc_asking s) req (RenewReply (renew (lc_key s))))
  | Some WantSet => let '(k, ok) := setNx token (lc_key s) in withKey (withAsking s (jm_set (lc_asking s) req (SetReply ok))) k
  | _ => s
  end.

Definition answered (s : Lifecycle) (now : Z) (req : nat) : Lifecycle :=
  match jm_get (lc_asking s) req with
  | Some (RenewReply true) => acquired (withAsking s (jm_delete (lc_asking s) req)) now true
  | Some (RenewReply false) => withHeld (withAsking s (jm_set (lc_asking s) req WantSet)) false
  | Some (SetReply ok) => acquired (withHeld (withAsking s (jm_delete (lc_asking s) req)) ok) now ok
  | _ => s
  end.

Definition step (s : Lifecycle) (e : Event) : Lifecycle :=
  match e with
  | RunPoll => runPoll s
  | RedisExecutes req => executes s req
  | Answered now req => answered s now req
  | AskFails req => withAsking s (jm_delete (lc_asking s) req)
  | Track now kind id => if bool_decide (kind = Poll) then s else addEntry s now kind id
  | Finish serial =>
      mkLife (lc_accepting s) (lc_held s) (lc_key s) (lc_asking s) (List.filter (fun e => negb (en_serial e =? serial)%nat) (lc_entries s)) (lc_phase s)
        (lc_lastDrain s) (lc_serial s)
  | OtherAcquires other => if bool_decide (other = token) then s else withKey s (setNx other (lc_key s)).1
  | Expires => withKey s None
  | OnModuleDestroy => stop s
  | BeforeApplicationShutdown now => match lc_phase s with Running => withPhase (stop s) (Draining now) (lc_lastDrain s) | _ => s end
  | DrainEnds now timeout => drainStep s now timeout
  | ReleaseLock => match lc_phase s with Drained => withPhase (release s) Released (lc_lastDrain s) | _ => s end
  end.

Definition run (s : Lifecycle) (es : list Event) : Lifecycle := foldl step s es.
Definition initial : Lifecycle := mkLife true false None [] [] Running None 0.

(** * Properties *)

(** After shutdown began no poll starts, also none that was waiting for the
    lock then. *)
Lemma step_stopped s e : lc_accepting s = false ->
  lc_accepting (step s e) = false ∧ ∀ x, x ∈ lc_entries (step s e) -> en_kind x = Poll -> x ∈ lc_entries s.
Proof.
  intros Ha. assert (∀ s' now leader, lc_accepting s' = false -> acquired s' now leader = s') as Hacq.
  { intros s' now leader H. unfold acquired. rewrite H. by rewrite andb_false_r. }
  destruct e as [|req|now req|req|now kind id|serial|other| | |now|now timeout|]; cbn [step].
  - unfold runPoll. rewrite Ha. done.
  - unfold executes. destruct (jm_get _ req) as [[]|]; try done. by destruct (setNx token (lc_key s)).
  - unfold answered. destruct (jm_get _ req) as [ [ | [] | | ok ] | ]; rewrite ?Hacq by done; done.
  - done.
  - destruct (bool_decide (kind = Poll)) eqn:Ek; [done|]. apply bool_decide_eq_false in Ek. split; [done|]. cbn. intros x.
    rewrite elem_of_app, list_elem_of_singleton. intros [Hx| ->] Hp; [done|]. done.
  - split; [done|]. cbn. intros x Hx _. apply list_elem_of_In, filter_In in Hx as [Hx _]. by apply list_elem_of_In.
  - by destruct (bool_decide (other = token)).
  - done.
  - done.
  - by destruct (lc_phase s).
  - unfold drainStep. destruct (lc_phase s); try done. by destruct (timeout || _).
  - destruct (lc_phase s); try done. unfold release. by destruct (lc_held s).
Qed.

Lemma run_cons s e es : run s (e :: es) = run (step s e) es.
Proof. done. Qed.

(** Requests one at a time, and none of their commands fail. *)
Definition orderly (s : Lifecycle) (e : Event) : Prop :=
  match e with RunPoll => lc_asking s = [] | AskFails _ => False | _ => True end.
Fixpoint orderlyRun (s : Lifecycle) (es : list Event) : Prop :=
  match es with [] => True | e :: es => orderly s e ∧ orderlyRun (step s e) es end.

(** Without an answer under way, the process knows whether the key is its own. *)
Definition lockInv (s : Lifecycle) : Prop :=
  match lc_asking s with
  | [] => lc_held s = false -> lc_key s ≠ Some token
  | [(_, WantRenew)] | [(_, RenewReply true)] => lc_held s = false -> lc_key s ≠ Some token
  | [(_, RenewReply false)] => lc_key s ≠ Some token
  | [(_, WantSet)] | [(_, SetReply false)] => lc_held s = false ∧ lc_key s ≠ Some token
  | [(_, SetReply true)] => lc_held s = false
  | _ => False
  end.

Lemma lockInv_other s k : lockInv s -> k ≠ Some token -> lockInv (withKey s k).
Proof. unfold lockInv. cbn. intros Hi Hk. destruct (lc_asking s) as [ | [n [ | [] | | [] ]] [] ]; naive_solver. Qed.

Lemma lockInv_step s e : lockInv s -> orderly s e -> lockInv (step s e).
Proof.
  intros Hi Ho. destruct e as [|req|now req|req|now kind id|serial|other| | |now|now timeout|]; cbn [step]; cbn [orderly] in Ho.
  - unfold runPoll. destruct (lc_accepting s); [|done]. unfold lockInv in *. cbn. rewrite Ho in *. cbn. destruct (lc_held s); [done|]. naive_solver.
  - unfold executes, renew. destruct (lc_asking s) as [|[n a] [|]] eqn:Ea; [done| |by unfold lockInv in Hi; rewrite Ea in Hi; destruct a as [ | [] | | [] ]].
    cbn [jm_get]. destruct (decide (req = n)) as [->|]; [|done]. unfold lockInv in Hi. rewrite Ea in Hi. cbn.
    rewrite decide_True by done. destruct a as [ | [] | | [] ]; try (unfold lockInv; rewrite Ea; exact Hi).
    + unfold lockInv. cbn. destruct (bool_decide_reflect (lc_key s = Some token)); [done|]. done.
    + destruct Hi as [Hh Hk]. unfold setNx. destruct (lc_key s) eqn:Ek; cbn; rewrite decide_True by done; unfold lockInv; cbn; done.
  - unfold answered. destruct (lc_asking s) as [|[n a] [|]] eqn:Ea; [done| |by unfold lockInv in Hi; rewrite Ea in Hi; destruct a as [ | [] | | [] ]].
    cbn [jm_get]. destruct (decide (req = n)) as [->|]; [|done]. unfold lockInv in Hi. rewrite Ea in Hi.
    assert (jm_delete [(n, a)] n = []) as -> by (unfold jm_delete; rewrite filter_cons_False by (cbn; naive_solver); done).
    cbn [jm_set]. rewrite decide_True by done.
    destruct a as [ | [] | | [] ]; try (unfold lockInv; rewrite Ea; exact Hi); unfold acquired, lockInv; cbn; destruct (lc_accepting s); cbn; naive_solver.
  - done.
  - by destruct (bool_decide (kind = Poll)).
  - done.
  - destruct (bool_decide_reflect (other = token)) as [|Hne]; [done|]. unfold setNx. destruct (lc_key s) eqn:Ek; cbn.
    + by rewrite <- Ek; destruct s.
    + apply lockInv_other; [done|]. congruence.
  - by apply lockInv_other.
  - done.
  - by destruct (lc_phase s).
  - unfold drainStep. destruct (lc_phase s); try done. by destruct (timeout || _).
  - destruct (lc_phase s); try done. unfold release. destruct (lc_held s) eqn:Eh; [|done].
    unfold lockInv, releaseScript in *. cbn. destruct (lc_asking s) as [ | [n [ | [] | | [] ]] [] ]; try done; case_bool_decide; naive_solver.
Qed.

Lemma lockInv_run es : ∀ s, lockInv s -> orderlyRun s es -> lockInv (run s es).
Proof. induction es as [|e es IH]; [done|]. intros s Hi [Ho Hr]. rewrite run_cons. apply IH; [by apply lockInv_step|done]. Qed.

(** A process that stopped asking for the lock and does not have it does not
    get it. *)
Lemma gone_run es : ∀ s, lc_accepting s = false -> lc_asking s = [] -> lc_held s = false -> lc_key s ≠ Some token -> lc_key (run s es) ≠ Some token.
Proof.
  induction es as [|e es IH]; [done|]. intros s Ha Hq Hh Hk. rewrite run_cons.
  apply IH; [by apply step_stopped|..];
    destruct e as [|req|now req|req|now kind id|serial|other| | |now|now timeout|]; cbn [step]; unfold runPoll, executes, answered, drainStep, release;
    rewrite ?Hq, ?Ha, ?Hh; cbn [jm_get]; try done; repeat case_match; try done; cbn; rewrite ?Hq; try done.
  unfold setNx. destruct (lc_key s) eqn:Ek; cbn; [done|]. apply bool_decide_eq_false in H. congruence.
Qed.

(** A shutdown whose drain ended with no poll asking for the lock leaves
    it to others: after the release the key does not hold this process's
    token, whatever happens later, so that another replica can lead at once.
    No poll starts after the shutdown began, and the drain reports success
    exactly when no work was left. *)
Theorem clean_shutdown_frees_lock es now timeout later :
  orderlyRun initial es -> lc_accepting (run initial es) = false -> (∃ start, lc_phase (run initial es) = Draining start) ->
  lc_asking (run initial es) = [] -> (timeout = true ∨ lc_entries (run initial es) = []) ->
  let s := run initial (es ++ DrainEnds now timeout :: ReleaseLock :: later) in
  lc_key s ≠ Some token ∧
  (∀ x, x ∈ lc_entries s -> en_kind x = Poll -> x ∈ lc_entries (run initial es)) ∧
  ∃ r, lc_lastDrain (run initial (es ++ [DrainEnds now timeout])) = Some r ∧ (dr_drained r = true <-> lc_entries (run initial es) = []) ∧
    map ab_kind (dr_abandoned r) = map en_kind (lc_entries (run initial es)).
Proof.
  intros Ho Ha [start Hp] Hq Ht. cbn zeta. set (s0 := run initial es) in *.
  assert (lockInv s0) as Hi by (apply lockInv_run; [done|exact Ho]).
  unfold run. rewrite !foldl_app. fold (run initial es). fold s0. cbn [foldl].
  assert (step s0 (DrainEnds now timeout) = withPhase s0 Drained (Some (drainReport start now (lc_entries s0)))) as Hd.
  { cbn [step]. unfold drainStep. rewrite Hp. destruct Ht as [->|E]; [done|]. rewrite E. cbn. by rewrite orb_true_r. }
  split; [|split].
  - fold (run (step (step s0 (DrainEnds now timeout)) ReleaseLock) later). rewrite Hd. cbn [step lc_phase withPhase].
    unfold lockInv in Hi. rewrite Hq in Hi. unfold release. cbn [lc_held withPhase]. destruct (lc_held s0) eqn:Eh; apply gone_run; cbn; try done.
    + unfold releaseScript. by case_bool_decide.
    + by apply Hi.
  - intros x. assert (∀ es s, lc_accepting s = false -> x ∈ lc_entries (foldl step s es) -> en_kind x = Poll -> x ∈ lc_entries s) as Hrun.
    { clear -token. induction es as [|e es IH]; cbn; [done|]. intros s Ha Hx Hk. destruct (step_stopped s e Ha) as [Ha' Hs]. by apply Hs; [apply IH|]. }
    intros Hx Hk. apply (Hrun (DrainEnds now timeout :: ReleaseLock :: later) s0 Ha Hx Hk).
  - rewrite Hd. eexists. split; [reflexivity|]. unfold drainReport. cbn. split.
    + destruct (lc_entries s0); cbn; naive_solver.
    + by rewrite map_map.
Qed.
End Lock.

(** A poll that asks for the lock is not counted as work in flight, and the
    lock it gets after the release is not given back: it stays with a process
    that no longer polls until its time to live ends. *)
Theorem late_acquire_keeps_lock token : ∃ es,
  let s := run token initial es in
  lc_phase s = Released ∧ lc_asking s = [] ∧ lc_accepting s = false ∧ lc_key s = Some token ∧ (dr_drained <$> lc_lastDrain s) = Some true.
Proof.
  exists [RunPoll; BeforeApplicationShutdown 0; DrainEnds 1 false; ReleaseLock; RedisExecutes 0; Answered 2 0]. cbn.
  by rewrite ?decide_True by done.
Qed.

(** The answer to the slower of two overlapping requests overwrites what the
    faster one learned: the process holds the key, believes it does not, and
    releases nothing. *)
Theorem overlapping_requests_forget_lock token : ∃ es,
  let s := run token initial es in lc_phase s = Released ∧ lc_asking s = [] ∧ lc_held s = false ∧ lc_key s = Some token.
Proof.
  exists [RunPoll; RunPoll; RedisExecutes 0; RedisExecutes 1; Answered 1 0; Answered 2 1; Finish 2; BeforeApplicationShutdown 3; DrainEnds 4 false;
    ReleaseLock]. cbn. done.
Qed.

Definition demoEvents : list Event :=
  [RunPoll; RedisExecutes 0; Answered 1 0; Track 2 Evidence (Some "e"%string); OnModuleDestroy; BeforeApplicationShutdown 3; Finish 1].

Lemma clean_shutdown_frees_lock_witness :
  let s := run "me" initial (demoEvents ++ DrainEnds 9 true :: ReleaseLock :: [OtherAcquires "other"]) in
  lc_key s ≠ Some "me"%string ∧ lc_key s = Some "other"%string ∧ map en_kind (lc_entries (run "me" initial demoEvents)) = [Evidence].
Proof.
  split; [|by vm_compute].
  apply (clean_shutdown_frees_lock "me" demoEvents 9 true [OtherAcquires "other"]); [cbn; tauto|by vm_compute|by exists 3|by vm_compute|by left].
Defined.
