(* ===== verification/DeadLetters.v ===== *)
(** The dead-letter queue of oracle readings
    (src/oracle/oracle-dead-letter.repository.ts), with the coverage map and
    the source tag of src/oracle/oracle-event.repository.ts that it uses.

    A replay is one transaction on a row locked for it.  [replay] runs it at
    once; [exec] runs the statements of any number of open transactions in any
    order, as PostgreSQL does at its default isolation level: a row is locked
    for one of them, and a statement sees what was committed before it.
    [faults] says which calls fail at the database: a failed transaction is
    rolled back. *)

From stdpp Require Import base list strings sets.
From Stdlib Require Import ZArith Lia Ascii Floats.
From S2P Require Import Prelude Decimal JsNum.

#[local] Open Scope Z_scope.

(** * Data *)

Inductive ReplayOutcome := Inserted | Duplicate | Rejected.
#[global] Instance ReplayOutcome_eq_dec : EqDecision ReplayOutcome.
Proof. solve_decision. Defined.
Inductive ReplayAnswer := Outcome (o : ReplayOutcome) | NotFound | Throws.

Record Payload := mkPayload { pl_coverageType : string; pl_value : num; pl_severity : string; pl_message : string }.

Record DeadLetterRow := mkRow {
  dl_id : Z; dl_coverage_type : string; dl_source : string; dl_window_start : Z; dl_window_end : Z; dl_error_class : string;
  dl_error_message : option string; dl_payload : option Payload; dl_attempts : Z; dl_replay_outcome : option ReplayOutcome; dl_replayed_at : option Z }.

(** A row of [oracle_events], as the queue writes and reads it. *)
Record EventRow := mkEvent {
  ev_coverage_type : string; ev_value : num; ev_source : string; ev_severity : string; ev_recorded_at : Z; ev_replayed_from : option Z }.

Record Tables := mkTables { tb_letters : list DeadLetterRow; tb_events : list EventRow; tb_next : Z }.

Definition COVERAGE_TYPE_MAP (coverageType : string) : option string :=
  jm_get [("StablecoinDepeg", "stablecoin_depeg"); ("MarketCrash", "market_crash"); ("LiquidationShield", "liquidation_shield");
          ("SmartContractRisk", "smart_contract_risk"); ("FlightDelay", "flight_delay")]%string coverageType.

(** [/\[([^\]]+)\]/]: the first opening bracket with a closing one after at
    least one character that is neither closing. *)
Fixpoint upToClose (s : text) : option text :=
  match s with
  | [] => None
  | c :: r => if bool_decide (c = "]"%char) then Some [] else cons c <$> upToClose r
  end.
Fixpoint bracketed (s : text) : option text :=
  match s with
  | [] => None
  | c :: r => if bool_decide (c = "["%char)
              then match upToClose r with Some (x :: t) => Some (x :: t) | _ => bracketed r end
              else bracketed r
  end.
Fixpoint beforeSemicolon (s : text) : text :=
  match s with [] => [] | c :: r => if bool_decide (c = ";"%char) then [] else c :: beforeSemicolon r end.

Definition extractSource (message : string) : string :=
  match bracketed (String.list_ascii_of_string message) with
  | None => "unknown"
  | Some t => String.string_of_list_ascii (take 40 (trim (beforeSemicolon t)))
  end.

(** * Operations *)

Definition enqueueOne (errorClass errorMessage : string) (windowStart : Z) (failed : bool) (t : Tables) (p : Payload) : Tables :=
  if failed then t
  else mkTables (tb_letters t ++ [mkRow (tb_next t) (pl_coverageType p) (extractSource (pl_message p)) windowStart windowStart errorClass
                                    (Some errorMessage) (Some p) 1 None None]) (tb_events t) (tb_next t + 1).

(** One row per reading; a row that cannot be written is logged only. *)
Definition enqueue (errorClass errorMessage : string) (now : Z) (readings : list (Payload * bool)) (t : Tables) : Tables :=
  foldl (fun t pf => enqueueOne errorClass errorMessage now pf.2 t pf.1) t readings.

Definition pending (r : DeadLetterRow) : bool := bool_decide (dl_replayed_at r = None).
Definition depth (t : Tables) : nat := length (List.filter pending (tb_letters t)).

Definition byId (t : Tables) (id : Z) : option DeadLetterRow := List.find (fun r => (dl_id r =? id) && pending r) (tb_letters t).
Definition updateRow (t : Tables) (id : Z) (f : DeadLetterRow -> DeadLetterRow) : Tables :=
  mkTables (map (fun r => if dl_id r =? id then f r else r) (tb_letters t)) (tb_events t) (tb_next t).

Definition rejectRow (reason : string) (r : DeadLetterRow) : DeadLetterRow :=
  mkRow (dl_id r) (dl_coverage_type r) (dl_source r) (dl_window_start r) (dl_window_end r) reason (Some ("Replay rejected: " +:+ reason))
    (dl_payload r) (dl_attempts r + 1) (dl_replay_outcome r) (dl_replayed_at r).
Definition settleRow (o : ReplayOutcome) (now : Z) (r : DeadLetterRow) : DeadLetterRow :=
  mkRow (dl_id r) (dl_coverage_type r) (dl_source r) (dl_window_start r) (dl_window_end r) (dl_error_class r) (dl_error_message r)
    (dl_payload r) (dl_attempts r + 1) (Some o) (Some now).

Definition sameWindow (coverage source : string) (at_ : Z) (e : EventRow) : bool :=
  bool_decide (ev_coverage_type e = coverage) && bool_decide (ev_source e = source) && (ev_recorded_at e =? at_).

(** What the transaction of a replay decides on the locked row: a rejection, or what
    [INSERT ... WHERE NOT EXISTS] did. *)
Inductive Plan := PReject (reason : string) | PInsert (e : EventRow) | PDuplicate.
Definition planOf (t : Tables) (row : DeadLetterRow) : Plan :=
  match dl_payload row, COVERAGE_TYPE_MAP (dl_coverage_type row) with
  | Some p, Some coverage =>
      if existsb (sameWindow coverage (dl_source row) (dl_window_start row)) (tb_events t) then PDuplicate
      else PInsert (mkEvent coverage (pl_value p) (dl_source row) (pl_severity p) (dl_window_start row) (Some (dl_id row)))
  | Some _, None => PReject "UnknownCoverageType"
  | None, _ => PReject "PayloadMissing"
  end.

(** What its commit makes visible. *)
Definition commitPlan (now : Z) (id : Z) (p : Plan) (t : Tables) : Tables * ReplayAnswer :=
  match p with
  | PReject reason => (updateRow t id (rejectRow reason), Outcome Rejected)
  | PDuplicate => (updateRow t id (settleRow Duplicate now), Outcome Duplicate)
  | PInsert e => (updateRow (mkTables (tb_letters t) (tb_events t ++ [e]) (tb_next t)) id (settleRow Inserted now), Outcome Inserted)
  end.

Definition replay (now : Z) (failed : bool) (t : Tables) (id : Z) : Tables * ReplayAnswer :=
  if failed then (t, Throws)
  else match byId t id with None => (t, NotFound) | Some row => commitPlan now id (planOf t row) t end.

Record Counts := mkCounts { ct_inserted : Z; ct_duplicate : Z; ct_rejected : Z; ct_failed : Z }.
Definition tally (c : Counts) (a : ReplayAnswer) : Counts :=
  match a with
  | Outcome Inserted => mkCounts (ct_inserted c + 1) (ct_duplicate c) (ct_rejected c) (ct_failed c)
  | Outcome Duplicate => mkCounts (ct_inserted c) (ct_duplicate c + 1) (ct_rejected c) (ct_failed c)
  | Outcome Rejected => mkCounts (ct_inserted c) (ct_duplicate c) (ct_rejected c + 1) (ct_failed c)
  | NotFound => c
  | Throws => mkCounts (ct_inserted c) (ct_duplicate c) (ct_rejected c) (ct_failed c + 1)
  end.

Fixpoint replayEach (now : Z) (faults : Z -> bool) (t : Tables) (c : Counts) (ids : list Z) : Tables * Counts :=
  match ids with
  | [] => (t, c)
  | id :: ids => let '(t, a) := replay now (faults id) t id in replayEach now faults t (tally c a) ids
  end.

(** [ORDER BY id LIMIT n]: rows are inserted in the order of their ids. *)
Definition pendingIds (t : Tables) (limit : nat) : list Z := take limit (map dl_id (List.filter pending (tb_letters t))).
Definition replayPending (now : Z) (faults : Z -> bool) (limit : nat) (t : Tables) : Tables * Counts :=
  replayEach now faults t (mkCounts 0 0 0 0) (pendingIds t limit).

Definition DAY_MS : Z := 86400000.
Definition purgeReplayed (now : Z) (retentionDays : Z) (t : Tables) : Tables * Z :=
  let keep r := match dl_replayed_at r with Some at_ => negb (at_ <? now - retentionDays * DAY_MS) | None => true end in
  let kept := List.filter keep (tb_letters t) in
  (mkTables kept (tb_events t) (tb_next t), Z.of_nat (length (tb_letters t)) - Z.of_nat (length kept)).

(** * Transactions side by side *)

(** An open replay: the row it locked, and what its statements decided once they ran. *)
Record Tx := mkTx { tx_row : DeadLetterRow; tx_plan : option Plan }.
Record World := mkWorld { wd_tables : Tables; wd_open : list Tx }.

(** The statements of any number of clients.  [SBegin] waits, and does nothing, while
    another transaction has the row. *)
Inductive Step :=
| SEnqueue (errorClass errorMessage : string) (now : Z) (readings : list (Payload * bool))
| SPurge (now retentionDays : Z)
| SLive (coverage source severity : string) (value : num) (at_ : Z)
| SBegin (id : Z)
| SStatement (k : nat)
| SCommit (k : nat) (now : Z)
| SRollback (k : nat).

Definition locked (w : World) (id : Z) : bool := existsb (fun x => dl_id (tx_row x) =? id) (wd_open w).
Definition withTables (w : World) (t : Tables) : World := mkWorld t (wd_open w).

Definition exec (w : World) (s : Step) : World :=
  let t := wd_tables w in
  match s with
  | SEnqueue c m now rs => withTables w (enqueue c m now rs t)
  | SPurge now d => withTables w (purgeReplayed now d t).1
  | SLive c src sev v at_ => withTables w (mkTables (tb_letters t) (tb_events t ++ [mkEvent c v src sev at_ None]) (tb_next t))
  | SBegin id =>
      if locked w id then w
      else match byId t id with None => w | Some row => mkWorld t (wd_open w ++ [mkTx row None]) end
  | SStatement k =>
      match wd_open w !! k with
      | Some (mkTx row None) => mkWorld t (<[k := mkTx row (Some (planOf t row))]> (wd_open w))
      | _ => w
      end
  | SCommit k now =>
      match wd_open w !! k with
      | Some (mkTx row (Some p)) => mkWorld (commitPlan now (dl_id row) p t).1 (delete k (wd_open w))
      | _ => w
      end
  | SRollback k => mkWorld t (delete k (wd_open w))
  end.
Definition execAll (w : World) (l : list Step) : World := foldl exec w l.
Definition empty : Tables := mkTables [] [] 1.
Definition start : World := mkWorld empty [].

(** No step of another client while a replay is open. *)
Definition alone (w : World) (s : Step) : Prop :=
  match s with SBegin _ | SLive _ _ _ _ _ | SEnqueue _ _ _ _ | SPurge _ _ => wd_open w = [] | _ => True end.
Fixpoint oneAtATime (w : World) (l : list Step) : Prop :=
  match l with [] => True | s :: l => alone w s ∧ oneAtATime (exec w s) l end.

(** Every event of a replay came from a letter that is no longer pending, from
    no other event's letter, and into a window that was free. *)
Definition firstOfWindow (l : list EventRow) : Prop :=
  ∀ l1 e l2 id, l = l1 ++ e :: l2 -> ev_replayed_from e = Some id ->
    existsb (sameWindow (ev_coverage_type e) (ev_source e) (ev_recorded_at e)) l1 = false.
Definition replayedIds (l : list EventRow) : list Z := omap ev_replayed_from l.

Record inv (t : Tables) : Prop := mkInv {
  inv_ids : NoDup (map dl_id (tb_letters t));
  inv_next : ∀ r, r ∈ tb_letters t -> dl_id r < tb_next t;
  inv_used : ∀ id, id ∈ replayedIds (tb_events t) -> id < tb_next t;
  inv_replayed : ∀ r, r ∈ tb_letters t -> dl_id r ∈ replayedIds (tb_events t) -> pending r = false;
  inv_once : NoDup (replayedIds (tb_events t)) }.

Lemma replayedIds_app a b : replayedIds (a ++ b) = replayedIds a ++ replayedIds b.
Proof. apply omap_app. Qed.

Lemma firstOfWindow_snoc l e : firstOfWindow l ->
  (∀ id, ev_replayed_from e = Some id -> existsb (sameWindow (ev_coverage_type e) (ev_source e) (ev_recorded_at e)) l = false) -> firstOfWindow (l ++ [e]).
Proof.
  intros Hl He l1 x l2 id E Hx. destruct l2 as [|y l2 _] using rev_ind.
  - apply app_inj_tail in E as [-> ->]. by apply (He id).
  - rewrite app_comm_cons, app_assoc in E. apply app_inj_tail in E as [-> _]. by apply (Hl l1 x l2 id).
Qed.

Lemma byId_spec t id row : byId t id = Some row -> row ∈ tb_letters t ∧ dl_id row = id ∧ pending row = true.
Proof. unfold byId. intros [H1 [H2%Z.eqb_eq H3]%andb_true_iff]%List.find_some. split; [by apply list_elem_of_In|done]. Qed.

(** Rows change in place: ids stay, and a row of another id stays as it is. *)
Lemma inv_update t id f : inv t -> (∀ r, dl_id (f r) = dl_id r) -> (∀ r, pending r = false -> pending (f r) = false) ->
  inv (updateRow t id f).
Proof.
  intros [] Hid Hp. assert (map dl_id (tb_letters (updateRow t id f)) = map dl_id (tb_letters t)) as Hids.
  { cbn. rewrite map_map. apply map_ext. intros r. destruct (dl_id r =? id); [apply Hid|done]. }
  split; cbn [tb_events tb_next updateRow]; [by rewrite Hids| |done| |done]; intros r (r' & -> & Hr)%list_elem_of_fmap.
  - destruct (dl_id r' =? id); rewrite ?Hid; by apply inv_next0.
  - destruct (dl_id r' =? id); rewrite ?Hid; intros Hin; [apply Hp|]; by apply inv_replayed0.
Qed.

(** A plan made for [row] inserts under its id. *)
Definition planFor (row : DeadLetterRow) (p : Plan) : Prop := match p with PInsert e => ev_replayed_from e = Some (dl_id row) | _ => True end.
Lemma planOf_for t row : planFor row (planOf t row).
Proof. unfold planOf. destruct (dl_payload row), (COVERAGE_TYPE_MAP (dl_coverage_type row)); try done. by destruct (existsb _ _). Qed.

Lemma inv_commit t now row p : inv t -> row ∈ tb_letters t -> pending row = true -> planFor row p -> inv (commitPlan now (dl_id row) p t).1.
Proof.
  intros Hi Hr Hpe Hp. destruct p as [reason|e|]; cbn [commitPlan fst]; [by apply inv_update| |by apply inv_update]. cbn in Hp. set (id := dl_id row) in *. destruct Hi.
  assert (id ∉ replayedIds (tb_events t)) as Hnew. { intros Hin. apply (inv_replayed0 row) in Hin; [congruence|done]. }
  assert (replayedIds (tb_events t ++ [e]) = replayedIds (tb_events t) ++ [id]) as Hids by (rewrite replayedIds_app; cbn; by rewrite Hp).
  split; cbn [tb_letters tb_events tb_next updateRow]; rewrite ?Hids.
  - rewrite map_map. erewrite map_ext; [exact inv_ids0|]. intros r. by destruct (dl_id r =? id).
  - intros r (r' & -> & Hr')%list_elem_of_fmap. destruct (dl_id r' =? id); exact (inv_next0 r' Hr').
  - intros x [Hx|Hx%list_elem_of_singleton]%elem_of_app; [by apply inv_used0|]. subst x id. by apply inv_next0.
  - intros r (r' & -> & Hr')%list_elem_of_fmap. destruct (Z.eqb_spec (dl_id r') id) as [E|E]; [done|].
    intros [Hx|Hx%list_elem_of_singleton]%elem_of_app; [by apply inv_replayed0|done].
  - apply NoDup_app. split; [done|]. split; [intros x Hx ->%list_elem_of_singleton; done|apply NoDup_singleton].
Qed.

Lemma letters_enqueue c m now rs : ∀ t, inv t -> inv (enqueue c m now rs t) ∧ tb_events (enqueue c m now rs t) = tb_events t ∧
  ∀ r, r ∈ tb_letters t -> r ∈ tb_letters (enqueue c m now rs t).
Proof.
  induction rs as [|[p []] rs IH]; intros t Hi; [done|by apply IH|]. cbn.
  destruct (IH (enqueueOne c m now false t p)) as (H1 & H2 & H3).
  - destruct Hi. split; cbn.
    + rewrite map_app. apply NoDup_app. split; [done|]. split; [|apply NoDup_singleton]. intros x (r & -> & Hr)%list_elem_of_fmap.
      intros E%list_elem_of_singleton. cbn in E. apply inv_next0 in Hr. lia.
    + intros r [Hr%inv_next0|Hr%list_elem_of_singleton]%elem_of_app; [lia|subst r; cbn; lia].
    + intros id Hin%inv_used0. lia.
    + intros r [Hr|Hr%list_elem_of_singleton]%elem_of_app; [by apply inv_replayed0|]. subst r. cbn. intros Hin%inv_used0. lia.
    + done.
  - split; [exact H1|]. split; [exact H2|]. intros r Hr. apply H3. cbn. apply elem_of_app. by left.
Qed.

Lemma inv_purge now d t : inv t -> inv (purgeReplayed now d t).1 ∧ ∀ r, r ∈ tb_letters t -> pending r = true -> r ∈ tb_letters (purgeReplayed now d t).1.
Proof.
  intros []. assert (∀ r, r ∈ tb_letters (purgeReplayed now d t).1 -> r ∈ tb_letters t) as Hsub.
  { cbn. intros r [H _]%list_elem_of_In%filter_In. by apply list_elem_of_In. }
  split; [split; try done; [by apply NoDup_map_filter_bool|intros r Hr%Hsub; by apply inv_next0|intros r Hr%Hsub; by apply inv_replayed0]|].
  intros r Hr Hp. cbn. apply list_elem_of_In, filter_In. split; [by apply list_elem_of_In|]. apply bool_decide_eq_true in Hp. by rewrite Hp.
Qed.

Lemma inv_live c v s sev a t : inv t -> inv (mkTables (tb_letters t) (tb_events t ++ [mkEvent c v s sev a None]) (tb_next t)).
Proof.
  intros []. assert (replayedIds (tb_events t ++ [mkEvent c v s sev a None]) = replayedIds (tb_events t)) as Hids by (rewrite replayedIds_app; apply app_nil_r).
  by split; cbn [tb_letters tb_events tb_next]; rewrite ?Hids.
Qed.

(** The world: every open replay has its own row, pending as it was locked. *)
Record winv (w : World) : Prop := {
  wi_tables : inv (wd_tables w);
  wi_rows : NoDup (map (fun x => dl_id (tx_row x)) (wd_open w));
  wi_open : Forall (fun x => tx_row x ∈ tb_letters (wd_tables w) ∧ pending (tx_row x) = true ∧ from_option (planFor (tx_row x)) True (tx_plan x)) (wd_open w) }.

Lemma winv_tables w t : winv w -> inv t -> (∀ r, r ∈ tb_letters (wd_tables w) -> pending r = true -> r ∈ tb_letters t) -> winv (withTables w t).
Proof.
  intros [Hi Hr Ho] Ht Hk. split; [done|done|]. eapply Forall_impl; [exact Ho|]. cbn. intros x (H1 & H2 & H3). split; [by apply Hk|done].
Qed.

Lemma commitPlan_letters now id p t r : r ∈ tb_letters t -> dl_id r ≠ id -> r ∈ tb_letters (commitPlan now id p t).1.
Proof.
  intros Hr Hne. assert (∀ f t', tb_letters t' = tb_letters t -> r ∈ tb_letters (updateRow t' id f)) as Hu.
  { intros f t' E. cbn. rewrite E. apply list_elem_of_fmap. exists r. by rewrite (proj2 (Z.eqb_neq _ _) Hne). }
  destruct p; by apply Hu.
Qed.

Lemma winv_exec w s : winv w -> winv (exec w s).
Proof.
  intros Hw. pose proof Hw as [Hi Hr Ho]. destruct s as [c m now rs|now d|c src sev v at_|id|k|k now|k]; cbn [exec].
  - destruct (letters_enqueue c m now rs _ Hi) as (H1 & _ & H3). apply winv_tables; [done|done|]. intros r Hx _. by apply H3.
  - destruct (inv_purge now d _ Hi) as [H1 H2]. by apply winv_tables.
  - apply winv_tables; [done|by apply inv_live|done].
  - destruct (locked w id) eqn:El; [done|]. destruct (byId _ id) as [row|] eqn:Eb; [|done]. apply byId_spec in Eb as (H1 & H2 & H3).
    split; cbn; [done| |apply Forall_app; split; [done|]; by apply Forall_singleton].
    rewrite map_app. apply NoDup_app. split; [done|]. split; [|apply NoDup_singleton]. intros x (tx & -> & Hx)%list_elem_of_fmap E%list_elem_of_singleton. cbn in E.
    unfold locked in El. assert (existsb (fun x => dl_id (tx_row x) =? id) (wd_open w) = true) as El'; [|congruence].
    apply existsb_exists. exists tx. split; [by apply list_elem_of_In|]. apply Z.eqb_eq. congruence.
  - destruct (wd_open w !! k) as [[row [p|]]|] eqn:Ek; [done| |done]. split; cbn; [done| |].
    + rewrite (list_fmap_insert (fun x => dl_id (tx_row x))). cbn. rewrite list_insert_id; [done|]. by rewrite list_lookup_fmap, Ek.
    + apply Forall_insert; [done|]. eapply Forall_lookup_1 in Ho; [|exact Ek]. destruct Ho as (H1 & H2 & _). cbn. split_and!; [done|done|apply planOf_for].
  - destruct (wd_open w !! k) as [[row [p|]]|] eqn:Ek; [|done|done]. pose proof Ho as Ho'. eapply Forall_lookup_1 in Ho'; [|exact Ek].
    destruct Ho' as (H1 & H2 & H3). cbn in H1, H2, H3. split; cbn; [by apply inv_commit| |].
    + eapply sublist_NoDup; [exact Hr|]. apply fmap_sublist, sublist_delete.
    + apply Forall_forall. intros x Hx. apply list_elem_of_lookup in Hx as [i Hx].
      assert (∃ j, j ≠ k ∧ wd_open w !! j = Some x) as (j & Hj & Hjx) by (destruct (decide (i < k)%nat); [rewrite list_lookup_delete_lt in Hx by done; exists i; split; [lia|done]|rewrite list_lookup_delete_ge in Hx by lia; exists (S i); split; [lia|done]]).
      pose proof (proj1 (Forall_lookup _ _) Ho j x Hjx) as (G1 & G2 & G3). split; [|done]. apply commitPlan_letters; [done|]. intros E. apply Hj.
      apply (NoDup_lookup (map (fun x => dl_id (tx_row x)) (wd_open w)) j k (dl_id row)); [done|by rewrite list_lookup_fmap, Hjx; cbn; rewrite E|by rewrite list_lookup_fmap, Ek].
  - split; cbn; [done| |]; [eapply sublist_NoDup; [exact Hr|]; apply fmap_sublist, sublist_delete|]. by apply Forall_delete.
Qed.

Lemma winv_execAll l : ∀ w, winv w -> winv (execAll w l).
Proof. induction l as [|s l IH]; intros w Hw; [done|]. by apply IH, winv_exec. Qed.

Lemma winv_start : winv start.
Proof. split; [split|..]; cbn; try apply NoDup_nil_2; try (intros ? Hn; by apply elem_of_nil in Hn). constructor. Qed.

Lemma commitPlan_appends now id p t : ∃ l, tb_events (commitPlan now id p t).1 = tb_events t ++ l.
Proof. destruct p; [exists []|by eexists|exists []]; by rewrite app_nil_r. Qed.

Lemma exec_appends w s : winv w -> ∃ l, tb_events (wd_tables (exec w s)) = tb_events (wd_tables w) ++ l.
Proof.
  intros Hw. assert (∃ l : list EventRow, tb_events (wd_tables w) = tb_events (wd_tables w) ++ l) as Hsame by (exists []; by rewrite app_nil_r).
  destruct s as [c m now rs|now d|c src sev v at_|id|k|k now|k]; cbn [exec].
  - exists []. rewrite app_nil_r. apply (letters_enqueue c m now rs _ (wi_tables _ Hw)).
  - done.
  - by eexists.
  - destruct (locked w id); [done|]. by destruct (byId _ id).
  - by destruct (wd_open w !! k) as [[row [p|]]|].
  - destruct (wd_open w !! k) as [[row [p|]]|]; [apply commitPlan_appends|done|done].
  - done.
Qed.
Lemma execAll_appends l : ∀ w, winv w -> ∃ k, tb_events (wd_tables (execAll w l)) = tb_events (wd_tables w) ++ k.
Proof.
  induction l as [|s l IH]; intros w Hw; [exists []; by rewrite app_nil_r|]. destruct (exec_appends w s Hw) as [l1 E1].
  destruct (IH (exec w s)) as [l2 E2]; [by apply winv_exec|]. exists (l1 ++ l2). change (execAll w (s :: l)) with (execAll (exec w s) l). by rewrite E2, E1, app_assoc.
Qed.

(** One replay at a time: what the statement saw is still so at the commit. *)
Definition freePlan (t : Tables) (x : Tx) : Prop :=
  match tx_plan x with Some (PInsert e) => existsb (sameWindow (ev_coverage_type e) (ev_source e) (ev_recorded_at e)) (tb_events t) = false | _ => True end.
Definition serial (w : World) : Prop :=
  (length (wd_open w) <= 1)%nat ∧ Forall (freePlan (wd_tables w)) (wd_open w) ∧ firstOfWindow (tb_events (wd_tables w)).

Lemma planOf_free t row : freePlan t (mkTx row (Some (planOf t row))).
Proof.
  unfold freePlan, planOf. cbn [tx_plan]. destruct (dl_payload row), (COVERAGE_TYPE_MAP (dl_coverage_type row)) as [coverage|]; try done.
  by destruct (existsb (sameWindow coverage (dl_source row) (dl_window_start row)) (tb_events t)) eqn:E.
Qed.

Lemma serial_exec w s : winv w -> serial w -> alone w s -> serial (exec w s).
Proof.
  intros Hw (Hl & Hf & Hd) Ha. destruct s as [c m now rs|now d|c src sev v at_|id|k|k now|k]; cbn [exec alone] in *.
  - unfold serial. cbn. rewrite Ha in *. split; [done|]. split; [constructor|]. destruct (letters_enqueue c m now rs _ (wi_tables _ Hw)) as (_ & -> & _). done.
  - unfold serial. cbn. rewrite Ha in *. done.
  - unfold serial. cbn. rewrite Ha in *. split; [done|]. split; [constructor|]. by apply firstOfWindow_snoc.
  - destruct (locked w id); [done|]. destruct (byId _ id); [|done]. unfold serial. cbn. rewrite Ha. cbn. split; [lia|]. split; [by repeat constructor|done].
  - destruct (wd_open w !! k) as [[row [p|]]|] eqn:Ek; [done| |done]. unfold serial. cbn. rewrite length_insert. split; [done|]. split; [|done].
    apply Forall_insert; [done|apply planOf_free].
  - destruct (wd_open w !! k) as [[row [p|]]|] eqn:Ek; [|done|done].
    destruct (wd_open w) as [|x [|y l]]; [by destruct k| |cbn in Hl; lia]. destruct k as [|k]; [|by destruct k]. injection Ek as ->.
    apply Forall_cons in Hf as [Hf _]. unfold serial. cbn. split; [lia|]. split; [constructor|].
    destruct p as [reason|e|]; cbn; [done| |done]. apply firstOfWindow_snoc; [done|]. intros id _. exact Hf.
  - unfold serial. cbn. split; [|split; [by apply Forall_delete|done]]. pose proof (sublist_length _ _ (sublist_delete (wd_open w) k)). lia.
Qed.
Lemma serial_execAll l : ∀ w, winv w -> serial w -> oneAtATime w l -> serial (execAll w l).
Proof.
  induction l as [|s l IH]; intros w Hw Hs Ho; [done|]. destruct Ho as [Ha Ho]. apply (IH (exec w s)); [by apply winv_exec|by apply serial_exec|done].
Qed.

(** A transaction whose statements run together is the replay run at once. *)
Lemma replay_is_block t now id :
  execAll (mkWorld t []) [SBegin id; SStatement 0; SCommit 0 now] = mkWorld (replay now false t id).1 [].
Proof.
  unfold execAll, replay. cbn. destruct (byId t id) as [row|] eqn:Eb; cbn; [|done]. apply byId_spec in Eb as (_ & -> & _). done.
Qed.

(** C30: However the statements of any number of replays interleave with each other,
    with failures, new letters, purges and live readings: a letter is inserted at most
    once, and no event is changed or removed.  As long as no other step runs while a
    replay is open, a letter is also inserted only into a window of its coverage type and
    source that no earlier event had; side by side that fails, see
    [concurrent_replays_fill_window_twice]. *)
Theorem letters_inserted_once steps1 steps2 :
  let w1 := execAll start steps1 in let w2 := execAll w1 steps2 in
  (∃ l, tb_events (wd_tables w2) = tb_events (wd_tables w1) ++ l) ∧ NoDup (replayedIds (tb_events (wd_tables w2))) ∧
  (oneAtATime start (steps1 ++ steps2) -> firstOfWindow (tb_events (wd_tables w2))).
Proof.
  cbn zeta. pose proof (winv_execAll steps1 _ winv_start) as H1. split; [by apply execAll_appends|]. split; [apply (wi_tables _ (winv_execAll steps2 _ H1))|].
  intros Ho. unfold execAll. rewrite <- foldl_app. apply (serial_execAll (steps1 ++ steps2)); [apply winv_start| |done].
  split; [cbn; lia|]. split; [constructor|]. intros [|? ?] x l2 id E; discriminate.
Qed.

(** * Draining the queue *)

(** A letter that a replay can settle. *)
Definition replayable (r : DeadLetterRow) : bool :=
  bool_decide (is_Some (dl_payload r)) && bool_decide (is_Some (COVERAGE_TYPE_MAP (dl_coverage_type r))).

(** What a replay does to the queue: it settles a replayable letter and leaves
    the others pending. *)
Lemma replay_letters t now id : ∃ f, tb_letters (replay now false t id).1 = map f (tb_letters t) ∧
  ∀ r, dl_id (f r) = dl_id r ∧ replayable (f r) = replayable r ∧
    (pending r = false -> pending (f r) = false) ∧ (dl_id r ≠ id -> f r = r).
Proof.
  unfold replay, planOf, commitPlan. destruct (byId t id) as [row|]; [|exists (fun r => r); by rewrite map_id].
  assert (∀ reason, ∃ f, tb_letters (updateRow t id (rejectRow reason)) = map f (tb_letters t) ∧
    ∀ r, dl_id (f r) = dl_id r ∧ replayable (f r) = replayable r ∧ (pending r = false -> pending (f r) = false) ∧ (dl_id r ≠ id -> f r = r)) as Hrej.
  { intros reason. eexists. split; [reflexivity|]. intros r. cbn. destruct (Z.eqb_spec (dl_id r) id); done. }
  destruct (dl_payload row); [|apply Hrej]. destruct (COVERAGE_TYPE_MAP _); [|apply Hrej].
  destruct (existsb _ _); (eexists; split; [reflexivity|]); intros r; cbn; destruct (Z.eqb_spec (dl_id r) id); done.
Qed.

(** The outcome for the letter itself. *)
Lemma replay_settles t now r : NoDup (map dl_id (tb_letters t)) -> r ∈ tb_letters t -> replayable r = true ->
  ∀ r', r' ∈ tb_letters (replay now false t (dl_id r)).1 -> dl_id r' = dl_id r -> pending r' = false.
Proof.
  intros Hnd Hr Hre r' Hr' Hid. destruct (pending r) eqn:Ep.
  - assert (byId t (dl_id r) = Some r) as Hb.
    { unfold byId. destruct (List.find _ _) as [x|] eqn:E.
      - apply List.find_some in E as [Hx [Hx'%Z.eqb_eq _]%andb_true_iff]. f_equal. eapply (NoDup_map_inj dl_id); [exact Hnd|by apply list_elem_of_In|done|done].
      - pose proof (List.find_none _ _ E r (proj1 (list_elem_of_In _ _) Hr)) as Hn. cbn in Hn. by rewrite Z.eqb_refl, Ep in Hn. }
    unfold replay, planOf, commitPlan in Hr'. rewrite Hb in Hr'. unfold replayable in Hre. apply andb_true_iff in Hre as [[p Hp]%bool_decide_eq_true [c Hc]%bool_decide_eq_true].
    rewrite Hp, Hc in Hr'. destruct (existsb _ _); cbn in Hr'; apply list_elem_of_fmap in Hr' as (x & -> & Hx);
      destruct (Z.eqb_spec (dl_id x) (dl_id r)); done.
  - destruct (replay_letters t now (dl_id r)) as (f & E & Hf). rewrite E in Hr'. apply list_elem_of_fmap in Hr' as (x & -> & Hx).
    assert (x = r) as ->; [|by apply Hf]. eapply (NoDup_map_inj dl_id); [exact Hnd|done|done|]. rewrite <- Hid. symmetry. apply Hf.
Qed.

Lemma map_id_of (f : DeadLetterRow -> DeadLetterRow) l : (∀ r, dl_id (f r) = dl_id r) -> map dl_id (map f l) = map dl_id l.
Proof. intros Hf. rewrite map_map. by apply map_ext. Qed.

(** After a batch, a replayable letter whose id was in it is settled, and
    letters stay as settled as they were. *)
Lemma replayEach_settles now ids : ∀ t c, NoDup (map dl_id (tb_letters t)) ->
  ∃ f, tb_letters (replayEach now (fun _ => false) t c ids).1 = map f (tb_letters t) ∧
    ∀ r, dl_id (f r) = dl_id r ∧ replayable (f r) = replayable r ∧ (pending r = false -> pending (f r) = false) ∧
      (r ∈ tb_letters t -> dl_id r ∈ ids -> replayable r = true -> pending (f r) = false).
Proof.
  induction ids as [|id ids IH]; intros t c Hnd; cbn [replayEach].
  { exists (fun r => r). rewrite map_id. split; [done|]. intros r. split_and!; try done. intros _ H. by apply elem_of_nil in H. }
  destruct (replay_letters t now id) as (g & Eg & Hg). pose proof (fun r => replay_settles t now r Hnd) as Hs.
  destruct (replay now false t id) as [t' a] eqn:Er. cbn [fst] in Eg.
  destruct (IH t' (tally c a)) as (f & Ef & Hf). { rewrite Eg, map_id_of; [done|]. intros r. apply Hg. }
  exists (fun r => f (g r)). rewrite Ef, Eg, map_map. split; [done|]. intros r. destruct (Hg r) as (G1 & G2 & G3 & _), (Hf (g r)) as (F1 & F2 & F3 & F4).
  split_and!; [congruence|congruence|by intros H%G3%F3|].
  intros Hr [<-|Hin]%elem_of_cons Hre.
  - apply F3. specialize (Hs r Hr Hre (g r)). rewrite Er in Hs. cbn [fst] in Hs. apply Hs; [|done]. rewrite Eg. apply list_elem_of_fmap. by exists r.
  - apply F4; [|congruence|congruence]. rewrite Eg. apply list_elem_of_fmap. by exists r.
Qed.

(** A batch at least as large as the queue leaves nothing pending but what no
    replay can settle. *)
Theorem batch_drains_replayable t now limit :
  NoDup (map dl_id (tb_letters t)) -> (depth t <= limit)%nat ->
  ∀ r, r ∈ tb_letters (replayPending now (fun _ => false) limit t).1 -> pending r = true -> replayable r = false.
Proof.
  intros Hnd Hlim r Hr Hp. unfold replayPending in Hr.
  destruct (replayEach_settles now (pendingIds t limit) t (mkCounts 0 0 0 0) Hnd) as (f & E & Hf). rewrite E in Hr.
  apply list_elem_of_fmap in Hr as (x & -> & Hx). destruct (Hf x) as (_ & F2 & F3 & F4). rewrite F2.
  destruct (replayable x) eqn:Hre; [exfalso|done]. destruct (pending x) eqn:Ex; [|by rewrite F3 in Hp].
  rewrite F4 in Hp; [done|done| |done]. unfold pendingIds. rewrite take_ge by (rewrite length_map; done).
  apply list_elem_of_fmap. exists x. split; [done|]. apply list_elem_of_In, filter_In. split; [by apply list_elem_of_In|done].
Qed.

(** What a batch sees of a letter. *)
Definition seenOf (r : DeadLetterRow) : Z * bool * bool := (dl_id r, pending r, replayable r).

Lemma seen_pending l1 : ∀ l2, map seenOf l1 = map seenOf l2 -> map dl_id (List.filter pending l1) = map dl_id (List.filter pending l2).
Proof.
  induction l1 as [|a l1 IH]; intros [|b l2]; [done..|]. cbn. intros [= H1 H2 _ H3]. rewrite H2. apply IH in H3.
  destruct (pending b); cbn; by rewrite ?H1, H3.
Qed.

Lemma replay_unreplayable t now failed id : (∀ r, r ∈ tb_letters t -> dl_id r = id -> replayable r = false) ->
  tb_events (replay now failed t id).1 = tb_events t ∧ map seenOf (tb_letters (replay now failed t id).1) = map seenOf (tb_letters t).
Proof.
  intros Hrej. assert (∀ reason, map seenOf (tb_letters (updateRow t id (rejectRow reason))) = map seenOf (tb_letters t)) as Hmap.
  { intros reason. cbn. rewrite map_map. apply map_ext. intros r. by destruct (dl_id r =? id). }
  unfold replay, planOf, commitPlan. destruct failed; [done|]. destruct (byId t id) as [row|] eqn:Eb; [|done]. apply byId_spec in Eb as (Hr & Hid & _).
  specialize (Hrej row Hr Hid). unfold replayable in Hrej. destruct (dl_payload row); [|by split; [|apply Hmap]].
  destruct (COVERAGE_TYPE_MAP _); [done|]. by split; [|apply Hmap].
Qed.

Lemma replayEach_unreplayable now faults ids : ∀ t c, (∀ r, r ∈ tb_letters t -> dl_id r ∈ ids -> replayable r = false) ->
  tb_events (replayEach now faults t c ids).1 = tb_events t ∧ map seenOf (tb_letters (replayEach now faults t c ids).1) = map seenOf (tb_letters t).
Proof.
  induction ids as [|id ids IH]; intros t c Hrej; [done|]. cbn [replayEach].
  destruct (replay_unreplayable t now (faults id) id) as [E1 E2]. { intros r Hr E. apply Hrej; [done|]. rewrite E. by left. }
  destruct (replay now (faults id) t id) as [t' a]. cbn [fst] in E1, E2. rewrite <- E1, <- E2. apply IH.
  intros r Hr Hin. assert (seenOf r ∈ map seenOf (tb_letters t)) as Hs by (rewrite <- E2; apply list_elem_of_fmap; by exists r).
  apply list_elem_of_fmap in Hs as (x & Ex & Hx). injection Ex as Ex1 _ Ex3. rewrite Ex3. apply Hrej; [done|]. rewrite <- Ex1. by right.
Qed.

(** A batch takes the oldest pending letters, and a rejected one stays
    pending: as many of them as a batch holds are all that any later batch
    replays, and the letters behind them wait for ever. *)
Theorem rejected_letters_block_queue t now faults limit : NoDup (map dl_id (tb_letters t)) ->
  Forall (fun r => replayable r = false) (take limit (List.filter pending (tb_letters t))) ->
  pendingIds (replayPending now faults limit t).1 limit = pendingIds t limit ∧ tb_events (replayPending now faults limit t).1 = tb_events t.
Proof.
  intros Hnd Hall. unfold replayPending. set (ids := pendingIds t limit).
  destruct (replayEach_unreplayable now faults ids t (mkCounts 0 0 0 0)) as [E1 E2].
  - intros r Hr Hid. unfold ids, pendingIds in Hid. rewrite firstn_map in Hid. apply list_elem_of_fmap in Hid as (x & Ex & Hx).
    rewrite Forall_forall in Hall. assert (r = x) as ->; [|by apply Hall].
    eapply (NoDup_map_inj dl_id); [exact Hnd|done| |done]. apply elem_of_take in Hx as (i & Hi & _). apply list_elem_of_lookup_2 in Hi.
    apply list_elem_of_In, filter_In in Hi as [Hi _]. by apply list_elem_of_In.
  - split; [|done]. unfold ids, pendingIds in *. f_equal. by apply seen_pending.
Qed.

Definition demoPayload : Payload := mkPayload "FlightDelay" 42%float "high" "late [Aviation; x]".

(** Two letters of one window, replayed side by side: each NOT EXISTS runs before the
    other transaction commits, and both readings are stored. *)
Lemma concurrent_replays_fill_window_twice :
  let w := execAll start [SEnqueue "E" "m" 7 [(demoPayload, false); (demoPayload, false)];
    SBegin 1; SBegin 2; SStatement 0; SStatement 1; SCommit 0 9; SCommit 0 9] in
  map (fun e => (ev_coverage_type e, ev_source e, ev_recorded_at e)) (tb_events (wd_tables w))
    = [("flight_delay", "Aviation", 7); ("flight_delay", "Aviation", 7)]%string ∧
  map dl_replay_outcome (tb_letters (wd_tables w)) = [Some Inserted; Some Inserted].
Proof. by vm_compute. Qed.

Lemma letters_inserted_once_witness :
  let w := execAll start [SEnqueue "E" "m" 7 [(demoPayload, false); (demoPayload, false)];
    SBegin 1; SStatement 0; SCommit 0 9; SBegin 2; SStatement 0; SCommit 0 9] in
  replayedIds (tb_events (wd_tables w)) = [1] ∧ firstOfWindow (tb_events (wd_tables w)).
Proof.
  split; [vm_compute; reflexivity|].
  apply (letters_inserted_once [] [SEnqueue "E" "m" 7 [(demoPayload, false); (demoPayload, false)];
    SBegin 1; SStatement 0; SCommit 0 9; SBegin 2; SStatement 0; SCommit 0 9]).
  vm_compute. repeat split; reflexivity.
Defined.

Lemma dead_letter_examples :
  extractSource "usdc at 1 [CoinGecko; Horizon testnet]" = "CoinGecko"%string ∧ extractSource "none" = "unknown"%string ∧
  (let t := wd_tables (execAll start [SEnqueue "E" "m" 7 [(demoPayload, false); (demoPayload, false)]]) in
   let '(t, c) := replayPending 9 (fun _ => false) 100 t in
   (ct_inserted c, ct_duplicate c, depth t, (replay 10 false t 1).2) = (1, 1, 0%nat, NotFound)).
Proof. by vm_compute. Qed.
