(* ===== verification/RelayerBalance.v ===== *)
(** Monitoring of the relayer's balance: the rules
    (src/stellar/relayer-monitor/relayer-balance.policy.ts), the fees paid
    (fee-spend-tracker.ts), the Horizon client (horizon-relayer.client.ts) and
    the monitor (relayer-balance-monitor.service.ts).

    Amounts are integers of stroops, rates and runways are binary64 numbers.
    What Horizon answers is an argument of a check; [Date.parse] is the
    host's. *)

From stdpp Require Import base list strings.
From Stdlib Require Import ZArith Lia Ascii Floats.
From S2P Require Import Prelude Decimal JsNum JsDate Canonical JsOrder Quotes.

#[local] Open Scope Z_scope.

(** * The rules *)

Definition BASE_RESERVE_STROOPS : Z := 5000000.
Definition STROOPS_PER_XLM : Z := 10000000.

Record RelayerAccountSnapshot := mkSnapshot {
  as_balanceStroops : Z; as_sellingLiabilitiesStroops : Z; as_subentryCount : Z; as_numSponsoring : Z; as_numSponsored : Z }.
Record FeeSpendSummary := mkSpend {
  fs_count : Z; fs_totalStroops : Z; fs_avgStroops : num; fs_maxStroops : Z; fs_ratePerHourStroops : num }.
Record BalanceThresholds := mkThresholds {
  bt_warningStroops : Z; bt_criticalStroops : Z; bt_warningRunwayHours : num; bt_criticalRunwayHours : num;
  bt_warningRunwaySubmissions : num; bt_criticalRunwaySubmissions : num; bt_minSubmissionFeeStroops : Z }.

Inductive BalanceAlertTier := TOk | TWarning | TCritical | TExhausted.
#[global] Instance BalanceAlertTier_eq_dec : EqDecision BalanceAlertTier.
Proof. solve_decision. Defined.
Definition tierRank (t : BalanceAlertTier) : Z := match t with TOk => 0 | TWarning => 1 | TCritical => 2 | TExhausted => 3 end.
Definition tierText (t : BalanceAlertTier) : string :=
  match t with TOk => "ok" | TWarning => "warning" | TCritical => "critical" | TExhausted => "exhausted" end.

Record BalanceAssessment := mkAssessment {
  ba_tier : BalanceAlertTier; ba_balanceStroops : Z; ba_reserveStroops : Z; ba_spendableStroops : Z; ba_nextFeeStroops : Z;
  ba_runwaySubmissions : option num; ba_runwayHours : option num; ba_reasons : list string }.

Definition minimumReserveStroops (s : RelayerAccountSnapshot) : Z :=
  Z.max (2 + as_subentryCount s + as_numSponsoring s - as_numSponsored s) 0 * BASE_RESERVE_STROOPS.

Definition spendableStroops (s : RelayerAccountSnapshot) : Z :=
  let spendable := as_balanceStroops s - minimumReserveStroops s - as_sellingLiabilitiesStroops s in
  if 0 <? spendable then spendable else 0.

(** [replace(/0+$/, "")] *)
Definition stripZeros (s : text) : text :=
  rev ((fix drop (l : text) : text := match l with c :: l' => if bool_decide (c = c_zero) then drop l' else l | [] => [] end) (rev s)).

(** The amount without its unit. *)
Definition xlmText (stroops : Z) : text :=
  let a := Z.abs stroops in
  let whole := Z.quot a STROOPS_PER_XLM in
  let frac := stripZeros (padStart 7 (z_text (Z.rem a STROOPS_PER_XLM))) in
  (if stroops <? 0 then [c_minus] else []) ++ z_text whole ++ match frac with [] => [] | _ => c_dot :: frac end.
Definition formatXlm (stroops : Z) : string := String.string_of_list_ascii (xlmText stroops) +:+ " XLM".

(** [/^(-)?(\d+)(?:\.(\d{1,7}))?$/] *)
Definition parseXlmToStroops (amount : string) : option Z :=
  let t := trim (String.list_ascii_of_string amount) in
  let '(whole, rest) := span_digits (drop_minus t) in
  let value frac := let s := dec_val whole * STROOPS_PER_XLM + dec_val (padEnd 7 frac) in Some (if starts_minus t then - s else s) in
  match whole, rest with
  | [], _ => None
  | _, [] => value []
  | _, c :: frac => if bool_decide (c = c_dot) && all_digits frac && (1 <=? length frac)%nat && (length frac <=? 7)%nat then value frac else None
  end.

Section Rules.
Context `{JsHost}.

Definition below (what limit : Z) : string := "spendable " +:+ formatXlm what +:+ " is below " +:+ formatXlm limit.
Definition hoursLeft (h : num) : string := "about " +:+ toFixed 1 h +:+ "h of fees left at the current rate".
Definition submissionsLeft (n : num) : string := "about " +:+ numToString (mathFloor n) +:+ " submissions left at the average fee".

(** A quantity against its critical and warning limits. *)
Definition graded (worse : num -> bool) (text : string) (critical warning : num) : list (BalanceAlertTier * string) :=
  if worse critical then [(TCritical, text)] else if worse warning then [(TWarning, text)] else [].

Definition reasonsOf (spendable nextFee : Z) (runwayHours runwaySubmissions : option num) (t : BalanceThresholds) : list (BalanceAlertTier * string) :=
  (if spendable <? nextFee
   then [(TExhausted, "spendable " +:+ formatXlm spendable +:+ " cannot cover the next fee of " +:+ formatXlm nextFee)] else [])
  ++ (if spendable <? bt_criticalStroops t then [(TCritical, below spendable (bt_criticalStroops t))]
      else if spendable <? bt_warningStroops t then [(TWarning, below spendable (bt_warningStroops t))] else [])
  ++ match runwayHours with Some h => graded (nlt h) (hoursLeft h) (bt_criticalRunwayHours t) (bt_warningRunwayHours t) | None => [] end
  ++ match runwaySubmissions with
     | Some n => graded (nlt n) (submissionsLeft n) (bt_criticalRunwaySubmissions t) (bt_warningRunwaySubmissions t)
     | None => []
     end.

Definition worstFirst (a b : BalanceAlertTier * string) : bool := tierRank b.1 <=? tierRank a.1.

Definition runwayOf (spendable : Z) (rate : num) (known : bool) : option num :=
  if known && ngt rate 0%float then Some (num_of_Z spendable / rate)%float else None.

Definition assessBalance (snapshot : RelayerAccountSnapshot) (spend : FeeSpendSummary) (t : BalanceThresholds) : BalanceAssessment :=
  let reserve := minimumReserveStroops snapshot in
  let spendable := spendableStroops snapshot in
  let nextFee := if bt_minSubmissionFeeStroops t <? fs_maxStroops spend then fs_maxStroops spend else bt_minSubmissionFeeStroops t in
  let runwaySubmissions := runwayOf spendable (fs_avgStroops spend) (0 <? fs_count spend) in
  let runwayHours := runwayOf spendable (fs_ratePerHourStroops spend) true in
  let reasons := sort_by worstFirst (reasonsOf spendable nextFee runwayHours runwaySubmissions t) in
  mkAssessment (match reasons with r :: _ => r.1 | [] => TOk end) (as_balanceStroops snapshot) reserve spendable nextFee
    runwaySubmissions runwayHours (map snd reasons).
End Rules.

Inductive AlertKind := Escalated | Recovered | Reminder.
Inductive AlertSeverity := SevInfo | SevWarning | SevCritical.

Definition decideAlert (previous next : BalanceAlertTier) (lastAlertAt : option Z) (now renotifyMs : Z) : option (AlertKind * AlertSeverity) :=
  let severity := if bool_decide (next = TWarning) then SevWarning else SevCritical in
  if tierRank previous <? tierRank next then Some (Escalated, severity)
  else if tierRank next <? tierRank previous then Some (Recovered, if bool_decide (next = TOk) then SevInfo else severity)
  else if negb (bool_decide (next = TOk)) && match lastAlertAt with None => true | Some a => renotifyMs <=? now - a end then Some (Reminder, severity)
  else None.

(** * Fees paid *)

Record FeeSpendRecord := mkFee { fr_txHash : string; fr_feeChargedStroops : Z; fr_at : Z; fr_successful : bool }.
Definition Tracker := list (string * FeeSpendRecord).

Definition record (t : Tracker) (r : FeeSpendRecord) : Tracker * bool :=
  if jm_has t (fr_txHash r) then (t, false) else (jm_set t (fr_txHash r) r, true).

Section Window.
Context (windowMs minRateSpanMs : Z).

Definition pruneFees (now : Z) (t : Tracker) : Tracker := List.filter (fun kr => negb (windowMs <? now - fr_at kr.2)) t.

Definition maxFee (l : list FeeSpendRecord) : Z := foldl (fun m r => if m <? fr_feeChargedStroops r then fr_feeChargedStroops r else m) 0 l.
Definition oldestFee (l : list FeeSpendRecord) : option Z :=
  foldl (fun o r => match o with None => Some (fr_at r) | Some a => Some (if fr_at r <? a then fr_at r else a) end) None l.

Definition summary (now : Z) (t : Tracker) : Tracker * FeeSpendSummary :=
  let t := pruneFees now t in
  let inWindow := map snd t in
  match oldestFee inWindow with
  | None => (t, mkSpend 0 0 0%float 0 0%float)
  | Some oldest =>
      let total := sumZ (map fr_feeChargedStroops inWindow) in
      let count := Z.of_nat (length inWindow) in
      let spanMs := Z.min (Z.max (now - oldest) minRateSpanMs) windowMs in
      (t, mkSpend count total (num_of_Z total / num_of_Z count)%float (maxFee inWindow) (num_of_Z total / num_of_Z spanMs * 3600000)%float)
  end.
End Window.

(** * The Horizon client *)

Record HorizonBalance := mkHBalance { hb_asset_type : string; hb_balance : string; hb_selling_liabilities : option string }.
Record HorizonAccount := mkHAccount {
  ha_balances : option (list HorizonBalance); ha_subentry_count : option Z; ha_num_sponsoring : option Z; ha_num_sponsored : option Z }.
Record HorizonTransaction := mkHTx {
  ht_hash : string; ht_paging_token : string; ht_fee_charged : Z; ht_fee_account : option string; ht_source_account : string;
  ht_successful : bool; ht_created_at : string }.

(** What a check can fail with. *)
Inductive CheckError := AccountNotFound (message : string) | CheckFailed (message : string).
(** An answer of Horizon: a body, another status, or no answer. *)
Inductive Answer (A : Type) := Body (a : A) | Status (code : Z) | NoAnswer (message : string).
Arguments Body {A}. Arguments Status {A}. Arguments NoAnswer {A}.

Record FeeSpendPage := mkPage { fp_records : list FeeSpendRecord; fp_cursor : option string }.

Definition notFound (publicKey : string) : CheckError :=
  AccountNotFound ("Relayer account " +:+ publicKey +:+ " does not exist on the network (unfunded or wrong network)").

Definition bodyOf {A} (publicKey path : string) (a : Answer A) : res CheckError A :=
  match a with
  | Body x => Ok x
  | Status 404 => Err (notFound publicKey)
  | Status code => Err (CheckFailed ("Horizon " +:+ path +:+ " returned HTTP " +:+ showZ code))
  | NoAnswer m => Err (CheckFailed m)
  end.

Definition amountOf (s : string) : res CheckError Z :=
  match parseXlmToStroops s with Some z => Ok z | None => Err (CheckFailed ("Invalid XLM amount: " +:+ String quoteChar (s +:+ String quoteChar ""))) end.

Definition getAccount (publicKey : string) (a : Answer HorizonAccount) : res CheckError RelayerAccountSnapshot :=
  body ← bodyOf publicKey "/accounts" a;
  match List.find (fun b => bool_decide (hb_asset_type b = "native"%string)) (default [] (ha_balances body)) with
  | None => Err (CheckFailed "Horizon account has no native balance")
  | Some native =>
      balance ← amountOf (hb_balance native);
      liabilities ← amountOf (default "0"%string (hb_selling_liabilities native));
      mret (mkSnapshot balance liabilities (default 0 (ha_subentry_count body)) (default 0 (ha_num_sponsoring body)) (default 0 (ha_num_sponsored body)))
  end.

Section Monitor.
Context `{JsHost} (dateParse : string -> Z).

(** Without a cursor, or with an empty one, Horizon is asked for the newest
    page, newest first. *)
Definition emptyCursor : string := EmptyString.
Definition listFeeSpend (publicKey : string) (cursor : option string) (a : Answer (list HorizonTransaction)) : res CheckError FeeSpendPage :=
  txs ← bodyOf publicKey "/transactions" a;
  let txs := if bool_decide (default emptyCursor cursor = emptyCursor) then rev txs else txs in
  let paid := List.filter (fun tx => bool_decide (default (ht_source_account tx) (ht_fee_account tx) = publicKey)) txs in
  mret (mkPage (map (fun tx => mkFee (ht_hash tx) (ht_fee_charged tx) (dateParse (ht_created_at tx)) (ht_successful tx)) paid)
          (match list.last txs with Some newest => Some (ht_paging_token newest) | None => cursor end)).

(** * The monitor *)

Definition MAX_PAGES_PER_CHECK : nat := 10.
Definition PAGE_SIZE : nat := 200.

Record RelayerMonitorConfig := mkConfig {
  mc_publicKey : string; mc_feeWindowMs : Z; mc_renotifyMs : Z; mc_failuresBeforeAlert : Z; mc_thresholds : BalanceThresholds }.
Record AlertEvent := mkAlert { al_severity : AlertSeverity; al_title : string; al_message : string }.

Record Monitor := mkMonitor {
  mo_tracker : Tracker; mo_cursor : option string; mo_tier : BalanceAlertTier; mo_lastAlertAt : option Z; mo_unknownAlerted : bool;
  mo_lastCheckedAt : option Z; mo_consecutiveFailures : Z; mo_lastError : option string; mo_assessment : option BalanceAssessment;
  mo_feeSpend : option FeeSpendSummary; mo_alerts : list AlertEvent }.

Context (config : RelayerMonitorConfig).

Definition withFees (m : Monitor) (t : Tracker) (c : option string) : Monitor :=
  mkMonitor t c (mo_tier m) (mo_lastAlertAt m) (mo_unknownAlerted m) (mo_lastCheckedAt m) (mo_consecutiveFailures m) (mo_lastError m)
    (mo_assessment m) (mo_feeSpend m) (mo_alerts m).
Definition withTier (m : Monitor) (t : BalanceAlertTier) (a : option Z) (alerts : list AlertEvent) : Monitor :=
  mkMonitor (mo_tracker m) (mo_cursor m) t a (mo_unknownAlerted m) (mo_lastCheckedAt m) (mo_consecutiveFailures m) (mo_lastError m)
    (mo_assessment m) (mo_feeSpend m) (mo_alerts m ++ alerts).

(** The pages of one check; what a page brought is kept when a later one
    fails.  [pages] are Horizon's answers, in order. *)
Fixpoint ingestFeeSpend (fuel : nat) (m : Monitor) (pages : list (Answer (list HorizonTransaction))) : Monitor * res CheckError unit :=
  match fuel with
  | O => (m, Ok tt)
  | S fuel =>
      match listFeeSpend (mc_publicKey config) (mo_cursor m) (default (NoAnswer "no answer") (head pages)) with
      | Err e => (m, Err e)
      | Ok page =>
          let tracker := foldl (fun t r => (record t r).1) (mo_tracker m) (fp_records page) in
          let wasBackfill := bool_decide (mo_cursor m = None) in
          let m := withFees m tracker (fp_cursor page) in
          if wasBackfill || (length (fp_records page) <? PAGE_SIZE)%nat then (m, Ok tt) else ingestFeeSpend fuel m (tail pages)
      end
  end.

Definition alertTitle (kind : AlertKind) (tier : BalanceAlertTier) : string :=
  match kind with
  | Recovered => "Relayer balance recovered to " +:+ tierText tier
  | Reminder => "Relayer balance " +:+ tierText tier +:+ " (still)"
  | Escalated => "Relayer balance " +:+ tierText tier
  end.

Definition handleTier (m : Monitor) (a : BalanceAssessment) (now : Z) : Monitor :=
  match decideAlert (mo_tier m) (ba_tier a) (mo_lastAlertAt m) now (mc_renotifyMs config) with
  | None => withTier m (ba_tier a) (mo_lastAlertAt m) []
  | Some (kind, severity) =>
      let message := match ba_reasons a with
                     | [] => "spendable " +:+ formatXlm (ba_spendableStroops a) +:+ " is above all thresholds"
                     | rs => joinWith "; " rs
                     end in
      withTier m (ba_tier a) (match kind, ba_tier a with Recovered, TOk => None | _, _ => Some now end) [mkAlert severity (alertTitle kind (ba_tier a)) message]
  end.

Definition errorText (e : CheckError) : string := match e with AccountNotFound m | CheckFailed m => m end.

Definition handleFailure (m : Monitor) (e : CheckError) (now : Z) : Monitor :=
  let failures := mo_consecutiveFailures m + 1 in
  let m := mkMonitor (mo_tracker m) (mo_cursor m) (mo_tier m) (mo_lastAlertAt m) (mo_unknownAlerted m) (mo_lastCheckedAt m) failures
             (Some (errorText e)) (mo_assessment m) (mo_feeSpend m) (mo_alerts m) in
  match e with
  | AccountNotFound message =>
      if bool_decide (mo_tier m = TExhausted) then m
      else withTier m TExhausted (Some now) [mkAlert SevCritical "Relayer balance exhausted" message]
  | CheckFailed message =>
      if negb (mo_unknownAlerted m) && (mc_failuresBeforeAlert config <=? failures) then
        mkMonitor (mo_tracker m) (mo_cursor m) (mo_tier m) (mo_lastAlertAt m) true (mo_lastCheckedAt m) failures (mo_lastError m) (mo_assessment m)
          (mo_feeSpend m)
          (mo_alerts m ++ [mkAlert SevWarning "Relayer balance unknown" (showZ failures +:+ " consecutive balance checks failed: " +:+ message)])
      else m
  end.

(** A check: the pages and the account as Horizon answers, the time after. *)
Record CheckInput := mkInput { ci_pages : list (Answer (list HorizonTransaction)); ci_account : Answer HorizonAccount; ci_now : Z }.

Definition MIN_RATE_SPAN_MS : Z := 15 * 60000.

Definition succeed (m : Monitor) (snapshot : RelayerAccountSnapshot) (now : Z) : Monitor :=
  let '(tracker, spend) := summary (mc_feeWindowMs config) MIN_RATE_SPAN_MS now (mo_tracker m) in
  let m := withFees m tracker (mo_cursor m) in
  let assessment := assessBalance snapshot spend (mc_thresholds config) in
  let m := handleTier m assessment now in
  mkMonitor (mo_tracker m) (mo_cursor m) (mo_tier m) (mo_lastAlertAt m) false (Some now) 0 None (Some assessment) (Some spend)
    (mo_alerts m ++ (if mo_unknownAlerted m then [mkAlert SevInfo "Relayer balance monitoring restored" "Horizon is reachable again"] else [])).

Definition runCheck (m : Monitor) (i : CheckInput) : Monitor :=
  match ingestFeeSpend MAX_PAGES_PER_CHECK m (ci_pages i) with
  | (m, Err e) => handleFailure m e (ci_now i)
  | (m, Ok _) =>
      match getAccount (mc_publicKey config) (ci_account i) with
      | Err e => handleFailure m e (ci_now i)
      | Ok snapshot => succeed m snapshot (ci_now i)
      end
  end.
End Monitor.

Definition newMonitor : Monitor := mkMonitor [] None TOk None false None 0 None None None [].

(** * Amounts *)

Lemma stripZeros_spec s : ∃ n, s = stripZeros s ++ replicate n c_zero.
Proof.
  unfold stripZeros. set (dropz := fix drop (l : text) : text := _).
  assert (∀ l, ∃ n, l = replicate n c_zero ++ dropz l) as Hd.
  { induction l as [|c l [n IH]]; [by exists 0%nat|]. cbn [dropz]. destruct (bool_decide (c = c_zero)) eqn:E; [|by exists 0%nat].
    apply bool_decide_eq_true in E as ->. exists (S n). cbn. by rewrite <- IH. }
  destruct (Hd (rev s)) as [n E]. exists n. transitivity (rev (replicate n c_zero ++ dropz (rev s))); [by rewrite <- E, rev_involutive|].
  rewrite rev_app_distr. f_equal. rewrite rev_alt. fold (reverse (replicate n c_zero)). apply reverse_replicate.
Qed.

Lemma all_digits_prefix a b : all_digits (a ++ b) = true -> all_digits a = true.
Proof. rewrite all_digits_app. by intros [? _]%andb_true_iff. Qed.

(** An amount that was printed is read back exactly. *)
Theorem xlm_roundtrip stroops : parseXlmToStroops (String.string_of_list_ascii (xlmText stroops)) = Some stroops.
Proof.
  unfold parseXlmToStroops, xlmText. rewrite String.list_ascii_of_string_of_list_ascii.
  destruct (decimal_parts (Z.abs stroops) 7 ltac:(lia) ltac:(lia)) as (Hw & Hwn & Hf & Hlen & Hval). change (10 ^ Z.of_nat 7) with STROOPS_PER_XLM in *.
  set (w := z_text (Z.quot (Z.abs stroops) STROOPS_PER_XLM)) in *. set (f := padStart 7 (z_text (Z.rem (Z.abs stroops) STROOPS_PER_XLM))) in *.
  destruct (stripZeros_spec f) as [n En]. set (g := stripZeros f) in *.
  assert (all_digits g = true) as Hg by (apply (all_digits_prefix g (replicate n c_zero)); by rewrite <- En).
  assert (length g + n = 7)%nat as Hgn by (apply (f_equal length) in En; rewrite length_app, length_replicate in En; lia).
  assert (padEnd 7 g = f) as Hpad by (unfold padEnd; etransitivity; [|symmetry; exact En]; do 2 f_equal; lia).
  set (tl := match g with [] => [] | _ => c_dot :: g end).
  assert (Forall (fun c => is_space c = false) (w ++ tl)) as Hsp.
  { apply Forall_app. split; [by apply digits_no_space|]. subst tl. destruct g; [apply Forall_nil_2|]. constructor; [done|]. by apply digits_no_space. }
  assert (∀ neg : bool, trim ((if neg then [c_minus] else []) ++ w ++ tl) = (if neg then [c_minus] else []) ++ w ++ tl) as Htrim.
  { intros neg. apply trim_id; [destruct neg, w; done|]. apply Forall_app. split; [destruct neg; by repeat constructor|done]. }
  rewrite Htrim. assert (starts_minus (w ++ tl) = false) as Hns by by apply starts_minus_digits.
  assert (span_digits (w ++ tl) = (w, tl)) as Hspan.
  { apply span_digits_all; [done|]. subst tl. by destruct g. }
  destruct (Z.ltb_spec stroops 0) as [Hneg|Hpos].
  - unfold drop_minus. change (starts_minus ([c_minus] ++ w ++ tl)) with true. cbn [tail app]. cbn iota. rewrite Hspan.
    destruct w as [|c w']; [done|]. subst tl. destruct g as [|x g']; [rewrite Hpad; f_equal; lia|].
    rewrite bool_decide_true, Hg by done. rewrite (proj2 (Nat.leb_le 1 _)), (proj2 (Nat.leb_le _ 7)) by (cbn in *; lia). cbn [andb]. rewrite Hpad. f_equal. lia.
  - unfold drop_minus. cbn [app]. rewrite Hns, Hspan.
    destruct w as [|c w']; [done|]. subst tl. destruct g as [|x g']; [rewrite Hpad; f_equal; lia|].
    rewrite bool_decide_true, Hg by done. rewrite (proj2 (Nat.leb_le 1 _)), (proj2 (Nat.leb_le _ 7)) by (cbn in *; lia). cbn [andb]. rewrite Hpad. f_equal. lia.
Qed.

(** * Tiers *)

Lemma worstFirst_total : le_total worstFirst.
Proof. intros a b. unfold worstFirst. rewrite !Z.leb_le. lia. Qed.
Lemma worstFirst_trans : le_trans worstFirst.
Proof. intros a b c. unfold worstFirst. rewrite !Z.leb_le. lia. Qed.

Section Facts.
Context `{JsHost} (dateParse : string -> Z) (config : RelayerMonitorConfig).

(** The tier is that of the worst reason, and ok when there is none. *)
Lemma tier_is_worst snapshot spend t :
  let a := assessBalance snapshot spend t in
  let reasons := reasonsOf (ba_spendableStroops a) (ba_nextFeeStroops a) (ba_runwayHours a) (ba_runwaySubmissions a) t in
  (∀ r, r ∈ reasons -> tierRank r.1 <= tierRank (ba_tier a)) ∧ (ba_tier a = TOk ∧ reasons = [] ∨ ∃ text, (ba_tier a, text) ∈ reasons).
Proof.
  cbn zeta. unfold assessBalance. cbn [ba_tier ba_spendableStroops ba_nextFeeStroops ba_runwayHours ba_runwaySubmissions].
  set (reasons := reasonsOf _ _ _ _ t). pose proof (sort_by_sorted worstFirst reasons worstFirst_total worstFirst_trans) as Hs.
  pose proof (fun x => elem_of_sort_by worstFirst x reasons) as Hin. pose proof (sort_by_length worstFirst reasons) as Hl.
  destruct (sort_by worstFirst reasons) as [|[tier text] rest].
  - split; [intros r Hr%Hin; by apply elem_of_nil in Hr|]. left. split; [done|]. by destruct reasons.
  - split.
    + intros r [->|Hr]%Hin%elem_of_cons; [done|]. apply Sorted.StronglySorted_inv in Hs as [_ Hall]. rewrite Forall_forall in Hall.
      apply Hall in Hr. unfold worstFirst in Hr. cbn in Hr |- *. lia.
    + right. exists text. apply Hin. by left.
Qed.

(** The relayer counts as exhausted exactly when it cannot pay the next fee. *)
Theorem exhausted_iff_fee_uncovered snapshot spend t :
  let a := assessBalance snapshot spend t in
  (ba_tier a = TExhausted <-> ba_spendableStroops a < ba_nextFeeStroops a) ∧
  fs_maxStroops spend <= ba_nextFeeStroops a ∧ bt_minSubmissionFeeStroops t <= ba_nextFeeStroops a.
Proof.
  cbn zeta. destruct (tier_is_worst snapshot spend t) as [Hmax Hex]. set (a := assessBalance snapshot spend t) in *.
  set (reasons := reasonsOf _ _ _ _ _) in *. split; [|unfold a, assessBalance; cbn; split; destruct (Z.ltb_spec (bt_minSubmissionFeeStroops t) (fs_maxStroops spend)); lia].
  assert (∀ r, r ∈ reasons -> r.1 = TExhausted -> ba_spendableStroops a < ba_nextFeeStroops a) as Honly.
  { unfold reasons, reasonsOf. intros r. rewrite !elem_of_app. intros [Hr|[Hr|[Hr|Hr]]] Ht.
    - destruct (Z.ltb_spec (ba_spendableStroops a) (ba_nextFeeStroops a)); [done|by apply elem_of_nil in Hr].
    - destruct (_ <? _); [|destruct (_ <? _)]; first [apply list_elem_of_singleton in Hr; by subst r|by apply elem_of_nil in Hr].
    - destruct (ba_runwayHours a); [unfold graded in Hr; destruct (nlt _ _); [|destruct (nlt _ _)]|];
        first [apply list_elem_of_singleton in Hr; by subst r|by apply elem_of_nil in Hr].
    - destruct (ba_runwaySubmissions a); [unfold graded in Hr; destruct (nlt _ _); [|destruct (nlt _ _)]|];
        first [apply list_elem_of_singleton in Hr; by subst r|by apply elem_of_nil in Hr]. }
  split.
  - intros Ht. rewrite Ht in Hex. destruct Hex as [[? _]|[text Hin]]; [done|]. by apply (Honly _ Hin).
  - intros Hlt. destruct (reasonsOf (ba_spendableStroops a) (ba_nextFeeStroops a) (ba_runwayHours a) (ba_runwaySubmissions a) t) as [|r0 rs] eqn:Er.
    + unfold reasonsOf in Er. rewrite (proj2 (Z.ltb_lt _ _) Hlt) in Er. done.
    + assert (r0.1 = TExhausted) as Hr0. { unfold reasonsOf in Er. rewrite (proj2 (Z.ltb_lt _ _) Hlt) in Er. by injection Er as <- _. }
      assert (tierRank r0.1 <= tierRank (ba_tier a)) as Hle by (apply Hmax; by left).
      rewrite Hr0 in Hle. destruct (ba_tier a); cbn in Hle; (lia || done).
Qed.

(** * Alerts *)

Definition checks (m : Monitor) (ins : list CheckInput) : Monitor := foldl (runCheck dateParse config) m ins.

Lemma ingest_keeps fuel : ∀ m pages, let '(m', _) := ingestFeeSpend dateParse config fuel m pages in
  mo_tier m' = mo_tier m ∧ mo_lastAlertAt m' = mo_lastAlertAt m ∧ mo_alerts m' = mo_alerts m ∧ mo_unknownAlerted m' = mo_unknownAlerted m ∧
  mo_consecutiveFailures m' = mo_consecutiveFailures m.
Proof.
  induction fuel as [|fuel IH]; intros m pages; cbn [ingestFeeSpend]; [done|]. destruct (listFeeSpend _ _ _ _) as [page|e]; [|done].
  destruct (_ || _); [done|]. match goal with |- context [ingestFeeSpend _ _ fuel ?m' ?p] => specialize (IH m' p) end.
  by destruct (ingestFeeSpend _ _ fuel _ _).
Qed.

(** Above ok there was an alert. *)
Definition alerted (m : Monitor) : Prop := mo_tier m ≠ TOk -> is_Some (mo_lastAlertAt m).

(** What a check does to the alerts. *)
Definition checkSpec (m m' : Monitor) (now : Z) : Prop :=
  alerted m' ∧ (∃ l, mo_alerts m' = mo_alerts m ++ l ∧
    (tierRank (mo_tier m) < tierRank (mo_tier m') ->
     ∃ x, x ∈ l ∧ al_severity x = if bool_decide (mo_tier m' = TWarning) then SevWarning else SevCritical)) ∧
  (mo_lastCheckedAt m' = Some now -> mo_consecutiveFailures m' = 0 -> mo_tier m' ≠ TOk ->
   ∃ a, mo_lastAlertAt m' = Some a ∧ now - a < mc_renotifyMs config).

Lemma handleTier_spec m a now : 0 < mc_renotifyMs config -> alerted m ->
  let m' := handleTier config m a now in
  mo_tier m' = ba_tier a ∧
  (ba_tier a ≠ TOk -> ∃ at_, mo_lastAlertAt m' = Some at_ ∧ now - at_ < mc_renotifyMs config) ∧
  ∃ l, mo_alerts m' = mo_alerts m ++ l ∧
    (tierRank (mo_tier m) < tierRank (ba_tier a) ->
     ∃ x, x ∈ l ∧ al_severity x = if bool_decide (ba_tier a = TWarning) then SevWarning else SevCritical).
Proof.
  intros Hr Hal. cbn zeta. unfold handleTier. destruct (decideAlert _ _ _ _ _) as [[kind sev]|] eqn:Ed; cbn.
  - split; [done|]. split.
    + intros Hn. exists now. split; [|lia]. by destruct kind, (ba_tier a).
    + eexists. split; [reflexivity|]. intros Hlt. eexists. split; [by left|]. cbn. unfold decideAlert in Ed.
      rewrite (proj2 (Z.ltb_lt _ _) Hlt) in Ed. by injection Ed as _ <-.
  - split; [done|]. unfold decideAlert in Ed. destruct (Z.ltb_spec (tierRank (mo_tier m)) (tierRank (ba_tier a))) as [|Hge]; [done|].
    destruct (Z.ltb_spec (tierRank (ba_tier a)) (tierRank (mo_tier m))) as [|Hle]; [done|]. split; [|exists []; rewrite app_nil_r; split; [done|lia]].
    intros Hn. rewrite bool_decide_false in Ed by done. cbn in Ed.
    destruct Hal as [at_ Hat]. { intros Ht. rewrite Ht in Hge. destruct (ba_tier a); cbn in *; (done || lia). }
    rewrite Hat in Ed |- *. exists at_. split; [done|]. destruct (Z.leb_spec (mc_renotifyMs config) (now - at_)); done.
Qed.

Lemma handleFailure_spec m e now : alerted m -> let m' := handleFailure config m e now in
  alerted m' ∧ (∃ l, mo_alerts m' = mo_alerts m ++ l ∧
    (tierRank (mo_tier m) < tierRank (mo_tier m') ->
     ∃ x, x ∈ l ∧ al_severity x = if bool_decide (mo_tier m' = TWarning) then SevWarning else SevCritical)) ∧
  mo_consecutiveFailures m' = mo_consecutiveFailures m + 1.
Proof.
  intros Hal. cbn zeta. unfold handleFailure. destruct e as [message|message]; cbn [mo_tier].
  - destruct (bool_decide_reflect (mo_tier m = TExhausted)) as [E|E]; cbn.
    + split; [done|]. split; [|done]. exists []. rewrite app_nil_r. split; [done|]. cbn. lia.
    + split; [by eexists|]. split; [|done]. eexists. split; [reflexivity|]. intros _. eexists. split; [by left|done].
  - destruct (_ && _); cbn; (split; [done|]; split; [|done]).
    + eexists. split; [reflexivity|]. lia.
    + exists []. rewrite app_nil_r. split; [done|]. cbn. lia.
Qed.

Lemma runCheck_spec m i : 0 < mc_renotifyMs config -> 0 <= mo_consecutiveFailures m -> alerted m ->
  checkSpec m (runCheck dateParse config m i) (ci_now i) ∧ 0 <= mo_consecutiveFailures (runCheck dateParse config m i).
Proof.
  intros Hr Hf Hal. unfold runCheck. pose proof (ingest_keeps MAX_PAGES_PER_CHECK m (ci_pages i)) as Hk.
  destruct (ingestFeeSpend _ _ _ m _) as [m1 r]. destruct Hk as (K1 & K2 & K3 & K4 & K5).
  assert (alerted m1) as Hal1 by (unfold alerted in *; by rewrite K1, K2).
  assert (∀ e, checkSpec m (handleFailure config m1 e (ci_now i)) (ci_now i) ∧ 0 <= mo_consecutiveFailures (handleFailure config m1 e (ci_now i))) as Hfail.
  { intros e. destruct (handleFailure_spec m1 e (ci_now i) Hal1) as (F1 & F2 & F3). rewrite K5 in F3. rewrite K1, K3 in F2. split; [|lia].
    split; [done|]. split; [done|]. intros _ E. lia. }
  destruct r as [[]|e]; [|apply Hfail]. destruct (getAccount _ _) as [snapshot|e]; [|apply Hfail].
  unfold succeed. destruct (summary _ _ _ _) as [tracker spend]. set (a := assessBalance snapshot spend (mc_thresholds config)).
  destruct (handleTier_spec (withFees m1 tracker (mo_cursor m1)) a (ci_now i) Hr Hal1) as (T1 & T2 & l & T3 & T4). cbn [withFees mo_tier mo_alerts] in *.
  split; [|done]. split; [|split].
  - unfold alerted. cbn. rewrite T1. intros Hn. destruct (T2 Hn) as (at_ & -> & _). by eexists.
  - cbn. rewrite T1, T3, K3, <- app_assoc. eexists. split; [reflexivity|]. rewrite K1 in T4. intros Hlt. destruct (T4 Hlt) as (x & Hx & Hs).
    exists x. split; [|done]. apply elem_of_app. by left.
  - cbn. rewrite T1. intros _ _ Hn. by apply T2.
Qed.

Lemma checks_alerted ins : 0 < mc_renotifyMs config -> alerted (checks newMonitor ins) ∧ 0 <= mo_consecutiveFailures (checks newMonitor ins).
Proof.
  intros Hr. induction ins as [|i ins [IH1 IH2]] using rev_ind; [split; [intros Hn; by destruct Hn|done]|]. unfold checks. rewrite foldl_app. fold (checks newMonitor ins). cbn [foldl].
  destruct (runCheck_spec (checks newMonitor ins) i Hr IH2 IH1) as [[Ha _] Hf]. by split.
Qed.

(** Whatever Horizon answered before, a check that finds the relayer in a
    worse tier alerts at that check, as critical unless the tier ins a mere
    warning; a missing account included.  And while the balance is known and
    above ok, the last alert ins never older than the reminder interval. *)
Theorem balance_worsening_alerted ins i : 0 < mc_renotifyMs config ->
  checkSpec (checks newMonitor ins) (checks newMonitor (ins ++ [i])) (ci_now i).
Proof.
  intros Hr. destruct (checks_alerted ins Hr) as [H1 H2]. unfold checks at 2. rewrite foldl_app. fold (checks newMonitor ins). cbn [foldl].
  by apply runCheck_spec.
Qed.

(** An account that stays missing ins never reminded of, however long it lasts,
    although the tier stays at exhausted. *)
Theorem missing_account_not_reminded m ins : mo_tier m = TExhausted ->
  Forall (fun i => ci_pages i = [Status 404]) ins -> mo_alerts (checks m ins) = mo_alerts m.
Proof.
  intros Ht Hall. revert m Ht. induction ins as [|i ins IH]; intros m Ht; [done|]. apply Forall_cons in Hall as [Hi Hall].
  assert (runCheck dateParse config m i = handleFailure config m (notFound (mc_publicKey config)) (ci_now i)) as E by (unfold runCheck; rewrite Hi; done).
  change (checks m (i :: ins)) with (checks (runCheck dateParse config m i) ins). rewrite E.
  assert (mo_tier (handleFailure config m (notFound (mc_publicKey config)) (ci_now i)) = TExhausted ∧
    mo_alerts (handleFailure config m (notFound (mc_publicKey config)) (ci_now i)) = mo_alerts m) as [E1 E2].
  { unfold handleFailure, notFound. cbn. rewrite bool_decide_true by done. done. }
  rewrite (IH Hall _ E1). done.
Qed.
End Facts.

Lemma filter_shorter {A} (p : A -> bool) l x : x ∈ l -> p x = false -> (length (List.filter p l) < length l)%nat.
Proof.
  intros Hx Hp. induction l as [|y l IH]; [by apply elem_of_nil in Hx|]. cbn. pose proof (List.filter_length_le p l).
  apply elem_of_cons in Hx as [->|Hx]; [rewrite Hp; lia|]. specialize (IH Hx). destruct (p y); cbn; lia.
Qed.

(** A page counts as the last one when it holds fewer records than were asked
    for, but the records are counted after those of other fee payers were
    removed: one such transaction in a full page ends the paging of a check. *)
Theorem foreign_fee_ends_paging `{JsHost} dateParse config m c txs tx rest :
  mo_cursor m = Some c -> c ≠ emptyCursor -> length txs = PAGE_SIZE -> tx ∈ txs -> default (ht_source_account tx) (ht_fee_account tx) ≠ mc_publicKey config ->
  ingestFeeSpend dateParse config MAX_PAGES_PER_CHECK m (Body txs :: rest) = ingestFeeSpend dateParse config MAX_PAGES_PER_CHECK m [Body txs].
Proof.
  intros Hc Hne Hlen Htx Hpay. unfold MAX_PAGES_PER_CHECK. cbn [ingestFeeSpend head]. cbn [default]. unfold listFeeSpend. rewrite Hc.
  rewrite (bool_decide_eq_false_2 (default emptyCursor (Some c) = emptyCursor)) by done. cbn [bodyOf mbind].
  revert Hlen. generalize PAGE_SIZE. intros ps Hlen. cbn. rewrite length_map.
  pose proof (filter_shorter (fun tx => bool_decide (default (ht_source_account tx) (ht_fee_account tx) = mc_publicKey config)) txs tx Htx) as Hs.
  specialize (Hs (proj2 (bool_decide_eq_false _) Hpay)). destruct ps as [|ps]; [lia|]. by rewrite (proj2 (Nat.leb_le _ _)) by lia.
Qed.

(** * Examples *)

Definition demoMonitorConfig : RelayerMonitorConfig :=
  mkConfig "G" 86400000 3600000 3 (mkThresholds 1000000000 250000000 72%float 24%float 1000%float 200%float 100000).
Definition demoAccount (balance : string) : Answer HorizonAccount :=
  Body (mkHAccount (Some [mkHBalance "native" balance None]) (Some 0) None None).
Definition demoInputs : list CheckInput := [mkInput [Body []] (demoAccount "500.0000000") 0; mkInput [Body []] (demoAccount "60") 60000].

Lemma balance_worsening_alerted_witness :
  let m i := checks (H := demoHost) (fun _ => 0) demoMonitorConfig newMonitor i in
  checkSpec demoMonitorConfig (m demoInputs) (m (demoInputs ++ [mkInput [Status 404] (Status 404) 120000])) 120000 ∧
  mo_tier (m demoInputs) = TWarning ∧ mo_tier (m (demoInputs ++ [mkInput [Status 404] (Status 404) 120000])) = TExhausted ∧
  map al_severity (mo_alerts (m (demoInputs ++ [mkInput [Status 404] (Status 404) 120000]))) = [SevWarning; SevCritical].
Proof.
  split; [|by vm_compute].
  exact (@balance_worsening_alerted demoHost (fun _ => 0) demoMonitorConfig demoInputs (mkInput [Status 404] (Status 404) 120000) eq_refl).
Defined.

Lemma xlm_examples : formatXlm 1234500000 = "123.45 XLM"%string ∧ formatXlm (-5) = "-0.0000005 XLM"%string ∧ formatXlm 70000000 = "7 XLM"%string ∧
  parseXlmToStroops "123.4567890" = Some 1234567890 ∧ parseXlmToStroops "1.12345678" = None.
Proof. by vm_compute. Qed.
