(* ===== verification/ProviderHttp.v ===== *)
(** The shared HTTP client of the oracle data providers
    (src/oracle/httpClient.ts): the token bucket, the semaphore, backoff,
    retries within a budget, and the cache.

    A call runs over a [World] of what the outside supplies, in order: clock
    readings, random numbers, whether the semaphore grants, what the transport
    answers and what the cache does; it also holds the bucket of the provider
    and the log of the upstream requests. *)

From stdpp Require Import base list strings.
From Stdlib Require Import ZArith Lia Floats.
From S2P Require Import Prelude Decimal JsNum Canonical.

#[local] Open Scope Z_scope.

Inductive ProviderErrorKind := KTimeout | KNetwork | KHttp4xx | KHttp5xx | KRateLimited | KBudgetExceeded | KInvalidBody.
#[global] Instance ProviderErrorKind_eq_dec : EqDecision ProviderErrorKind.
Proof. solve_decision. Defined.

Definition isRetryableKind (k : ProviderErrorKind) : bool := match k with KTimeout | KNetwork | KHttp5xx => true | _ => false end.

Record ProviderHttpError := mkError {
  pe_provider : string; pe_kind : ProviderErrorKind; pe_message : string; pe_attempts : Z; pe_status : option Z }.
Definition retryable (e : ProviderHttpError) : bool := isRetryableKind (pe_kind e).

Record ProviderConfig := mkConfig {
  pc_name : string; pc_timeoutMs : Z; pc_maxRetries : nat; pc_baseBackoffMs : num; pc_maxBackoffMs : num; pc_maxConcurrency : Z;
  pc_capacity : num; pc_refillPerSec : num }.

Definition PROVIDER_DEFAULTS : list (string * ProviderConfig) :=
  [("coingecko", mkConfig "coingecko" 5000 2 500%float 4000%float 2 3%float (5 / 60)%float);
   ("horizon", mkConfig "horizon" 5000 2 250%float 2000%float 4 10%float 0.5%float);
   ("defillama", mkConfig "defillama" 5000 2 250%float 2000%float 4 10%float 2%float)]%string.

(** * The token bucket *)

Record TokenBucket := mkBucket { tb_tokens : num; tb_last : Z }.

Definition tryTake (cfg : ProviderConfig) (now : Z) (b : TokenBucket) : TokenBucket * bool :=
  let tokens := nmin (pc_capacity cfg) (tb_tokens b + num_of_Z (now - tb_last b) / 1000 * pc_refillPerSec cfg)%float in
  if nge tokens 1%float then (mkBucket (tokens - 1)%float now, true) else (mkBucket tokens now, false).

(** * The semaphore *)

(** Callers that wait are told apart by a number; [granted] are those that
    hold a slot. *)
Record Semaphore := mkSem { sm_active : Z; sm_waiters : list nat; sm_granted : list nat }.

Fixpoint removeOne (x : nat) (l : list nat) : list nat :=
  match l with [] => [] | y :: l => if (y =? x)%nat then l else y :: removeOne x l end.

Inductive SemEvent := SAcquire (who : nat) | STimeout (who : nat) | SRelease (who : nat).

(** [SRelease] is called by a holder, [STimeout] by the timer of a waiter. *)
Definition semStep (max : Z) (s : Semaphore) (e : SemEvent) : Semaphore :=
  match e with
  | SAcquire who =>
      if sm_active s <? max then mkSem (sm_active s + 1) (sm_waiters s) (sm_granted s ++ [who])
      else mkSem (sm_active s) (sm_waiters s ++ [who]) (sm_granted s)
  | STimeout who => mkSem (sm_active s) (List.filter (fun w => negb (w =? who)%nat) (sm_waiters s)) (sm_granted s)
  | SRelease who =>
      if bool_decide (who ∈ sm_granted s) then
        let held := removeOne who (sm_granted s) in
        match sm_waiters s with
        | [] => mkSem (sm_active s - 1) [] held
        | w :: ws => mkSem (sm_active s - 1 + 1) ws (held ++ [w])
        end
      else s
  end.

(** * Backoff *)

(** [2 ** attempt] is exact. *)
Definition backoffDelayMs (cfg : ProviderConfig) (attempt : nat) (rand : num) : Z :=
  default 0 (floor_to_Z (rand * nmin (pc_maxBackoffMs cfg) (pc_baseBackoffMs cfg * num_of_Z (2 ^ Z.of_nat attempt)))%float).

(** * Calls *)

Section Client.
Context {V : Type} (cfg : ProviderConfig) `{JsHost}.

(** What the transport does: a response, with what reading its body gives, or
    an exception; and whether the timer fired before. *)
Inductive Reply := Response (ok : bool) (status : Z) (body : option V) | TransportThrows (message : string).
Record Exchange := mkExchange { ex_reply : Reply; ex_timedOut : bool }.

Record ClientStats := mkStats {
  st_cacheHits : Z; st_cacheMisses : Z; st_cacheErrors : Z; st_upstreamRequests : Z; st_retries : Z; st_rateLimited : Z }.

(** An upstream request: its start, its timeout and its outcome. *)
Record Request := mkRequest { rq_start : Z; rq_timeoutMs : Z; rq_outcome : res ProviderHttpError V }.

(** A cached value with its time, or a cache that fails. *)
Inductive CacheReply := CacheHit (at_ : Z) (v : V) | CacheEmpty | CacheFails.

Record World := mkWorld {
  hw_clock : list Z; hw_rands : list num; hw_grants : list bool; hw_exchanges : list Exchange; hw_cache : CacheReply; hw_setFails : bool;
  hw_stored : option (Z * V * Z); hw_bucket : TokenBucket; hw_stats : ClientStats; hw_log : list Request }.

Definition H' (A : Type) : Type := World -> World * res ProviderHttpError A.
#[global] Instance H_ret : MRet H' := fun A a w => (w, Ok a).
#[global] Instance H_bind : MBind H' := fun A B f m w => match m w with (w', Ok a) => f a w' | (w', Err e) => (w', Err e) end.

Definition withClock (w : World) (c : list Z) : World :=
  mkWorld c (hw_rands w) (hw_grants w) (hw_exchanges w) (hw_cache w) (hw_setFails w) (hw_stored w) (hw_bucket w) (hw_stats w) (hw_log w).
Definition readNow : H' Z := fun w => (withClock w (tail (hw_clock w)), Ok (default 0 (head (hw_clock w)))).
Definition rand : H' num := fun w =>
  (mkWorld (hw_clock w) (tail (hw_rands w)) (hw_grants w) (hw_exchanges w) (hw_cache w) (hw_setFails w) (hw_stored w) (hw_bucket w) (hw_stats w) (hw_log w),
   Ok (default 0%float (head (hw_rands w)))).
Definition acquireSlot : H' bool := fun w =>
  (mkWorld (hw_clock w) (hw_rands w) (tail (hw_grants w)) (hw_exchanges w) (hw_cache w) (hw_setFails w) (hw_stored w) (hw_bucket w) (hw_stats w) (hw_log w),
   Ok (default false (head (hw_grants w)))).
Definition takeToken : H' bool := fun w =>
  let '(b, ok) := tryTake cfg (default 0 (head (hw_clock w))) (hw_bucket w) in
  (mkWorld (tail (hw_clock w)) (hw_rands w) (hw_grants w) (hw_exchanges w) (hw_cache w) (hw_setFails w) (hw_stored w) b (hw_stats w) (hw_log w), Ok ok).
Definition count (f : ClientStats -> ClientStats) : H' unit := fun w =>
  (mkWorld (hw_clock w) (hw_rands w) (hw_grants w) (hw_exchanges w) (hw_cache w) (hw_setFails w) (hw_stored w) (hw_bucket w) (f (hw_stats w)) (hw_log w), Ok tt).

Definition addRetry (s : ClientStats) : ClientStats :=
  mkStats (st_cacheHits s) (st_cacheMisses s) (st_cacheErrors s) (st_upstreamRequests s) (st_retries s + 1) (st_rateLimited s).
Definition addLimited (s : ClientStats) : ClientStats :=
  mkStats (st_cacheHits s) (st_cacheMisses s) (st_cacheErrors s) (st_upstreamRequests s) (st_retries s) (st_rateLimited s + 1).
Definition addUpstream (s : ClientStats) : ClientStats :=
  mkStats (st_cacheHits s) (st_cacheMisses s) (st_cacheErrors s) (st_upstreamRequests s + 1) (st_retries s) (st_rateLimited s).
Definition addHit (s : ClientStats) : ClientStats :=
  mkStats (st_cacheHits s + 1) (st_cacheMisses s) (st_cacheErrors s) (st_upstreamRequests s) (st_retries s) (st_rateLimited s).
Definition addMiss (s : ClientStats) : ClientStats :=
  mkStats (st_cacheHits s) (st_cacheMisses s + 1) (st_cacheErrors s) (st_upstreamRequests s) (st_retries s) (st_rateLimited s).
Definition addCacheError (s : ClientStats) : ClientStats :=
  mkStats (st_cacheHits s) (st_cacheMisses s) (st_cacheErrors s + 1) (st_upstreamRequests s) (st_retries s) (st_rateLimited s).

(** The outcome of one exchange. *)
Definition judgeExchange (timeoutMs attempts : Z) (x : Exchange) : res ProviderHttpError V :=
  let err kind message status := Err (mkError (pc_name cfg) kind message attempts status) in
  let late := err KTimeout ("no response in " +:+ showZ timeoutMs +:+ "ms") None in
  match ex_reply x with
  | Response false status _ => err (if 500 <=? status then KHttp5xx else KHttp4xx) ("HTTP " +:+ showZ status) (Some status)
  | Response true _ (Some v) => Ok v
  | Response true status None => if ex_timedOut x then late else err KInvalidBody "response is not valid JSON"%string (Some status)
  | TransportThrows message => if ex_timedOut x then late else err KNetwork message None
  end.

Definition attemptOnce (timeoutMs attempts : Z) : H' (res ProviderHttpError V) := fun w =>
  let x := default (mkExchange (TransportThrows "no answer") false) (head (hw_exchanges w)) in
  let o := judgeExchange timeoutMs attempts x in
  (mkWorld (hw_clock w) (hw_rands w) (hw_grants w) (tail (hw_exchanges w)) (hw_cache w) (hw_setFails w) (hw_stored w) (hw_bucket w)
     (addUpstream (hw_stats w)) (hw_log w ++ [mkRequest (default 0 (head (hw_clock w))) timeoutMs o]), Ok o).

Definition raise {A} (e : ProviderHttpError) : H' A := fun w => (w, Err e).
Definition giveUp {A} (budgetMs attempts : Z) (last : option ProviderHttpError) : H' A :=
  raise (default (mkError (pc_name cfg) KBudgetExceeded ("no time left in " +:+ showZ budgetMs +:+ "ms budget") attempts None) last).

(** The pause before a retry; [false] when it would not leave time. *)
Definition pause (deadline : Z) (attempt : nat) : H' bool :=
  match attempt with
  | O => mret true
  | S n => r ← rand; now ← readNow;
           let delay := backoffDelayMs cfg n r in
           if deadline <=? now + delay + 1 then mret false else _ ← count addRetry; mret true
  end.

(** [remaining] attempts remain, the next is number [attempt]. *)
Fixpoint tryFrom (remaining attempt : nat) (budgetMs deadline attempts : Z) (last : option ProviderHttpError) : H' V :=
  match remaining with
  | O => giveUp budgetMs attempts last
  | S remaining =>
      go ← pause deadline attempt;
      if negb go then giveUp budgetMs attempts last
      else
        now ← readNow;
        if deadline - now <=? 0 then giveUp budgetMs attempts last
        else
          token ← takeToken;
          if negb token then
            _ ← count addLimited; raise (mkError (pc_name cfg) KRateLimited "local token bucket exhausted" attempts None)
          else
            granted ← acquireSlot;
            if negb granted then giveUp budgetMs attempts last
            else
              now ← readNow;
              o ← attemptOnce (Z.min (pc_timeoutMs cfg) (deadline - now)) (attempts + 1);
              match o with
              | Ok v => mret v
              | Err e => if retryable e then tryFrom remaining (S attempt) budgetMs deadline (attempts + 1) (Some e) else raise e
              end
  end.

Definition fetchWithRetry (budgetMs : Z) : H' V :=
  now ← readNow; tryFrom (S (pc_maxRetries cfg)) 0 budgetMs (now + budgetMs) 0 None.

Definition lookCache (ttlMs : Z) : H' (option V) := fun w =>
  match hw_cache w with
  | CacheFails => ((count addMiss (count addCacheError w).1).1, Ok None)
  | CacheEmpty => ((count addMiss w).1, Ok None)
  | CacheHit at_ v =>
      let now := default 0 (head (hw_clock w)) in
      let w := withClock w (tail (hw_clock w)) in
      if now - at_ <? ttlMs then ((count addHit w).1, Ok (Some v)) else ((count addMiss w).1, Ok None)
  end.

(** [Math.max(1, Math.ceil(ttlMs / 1000))] *)
Definition storeCache (ttlMs : Z) (v : V) : H' unit := fun w =>
  let now := default 0 (head (hw_clock w)) in
  let w := withClock w (tail (hw_clock w)) in
  if hw_setFails w then count addCacheError w
  else (mkWorld (hw_clock w) (hw_rands w) (hw_grants w) (hw_exchanges w) (hw_cache w) (hw_setFails w) (Some (now, v, Z.max 1 (- ((- ttlMs) / 1000))))
          (hw_bucket w) (hw_stats w) (hw_log w), Ok tt).

(** [cached] says that a cache and a key are given. *)
Definition getJson (cached : bool) (ttlMs budgetMs : Z) : H' V :=
  let useCache := cached && (0 <? ttlMs) in
  hit ← (if useCache then lookCache ttlMs else mret None);
  match hit with
  | Some v => mret v
  | None => v ← fetchWithRetry budgetMs; _ ← (if useCache then storeCache ttlMs v else mret tt); mret v
  end.
End Client.

(** * The semaphore never lets too many in, and never forgets a waiter *)

Definition semInv (max : Z) (s : Semaphore) : Prop :=
  sm_active s = Z.of_nat (length (sm_granted s)) ∧ sm_active s <= max ∧ (sm_waiters s ≠ [] -> sm_active s = max).

Lemma removeOne_length x l : x ∈ l -> S (length (removeOne x l)) = length l.
Proof.
  induction l as [|y l IH]; [intros Hx; by apply elem_of_nil in Hx|]. cbn. destruct (Nat.eqb_spec y x) as [->|Hne]; [done|].
  intros [->|Hx]%elem_of_cons; [done|]. cbn. by rewrite IH.
Qed.

Lemma semInv_step max s e : semInv max s -> semInv max (semStep max s e).
Proof.
  intros (H1 & H2 & H3). destruct e as [who|who|who]; cbn [semStep].
  - destruct (Z.ltb_spec (sm_active s) max) as [Hlt|Hge]; split_and!; cbn; rewrite ?length_app; cbn; try lia. intros Hw. specialize (H3 Hw). lia.
  - split_and!; cbn; [done|done|]. intros Hw. apply H3. by destruct (sm_waiters s).
  - case_bool_decide as Hin; [|done]. pose proof (removeOne_length who (sm_granted s) Hin) as Hl.
    destruct (sm_waiters s) as [|w ws]; split_and!; cbn; rewrite ?length_app; cbn; try lia; try done. intros _. specialize (H3 ltac:(done)). lia.
Qed.

(** However calls acquire, time out and release, at most the configured number
    hold a slot, and nobody waits while one is free. *)
Theorem semaphore_sound max es : 0 <= max -> semInv max (foldl (semStep max) (mkSem 0 [] []) es).
Proof.
  intros Hm. assert (semInv max (mkSem 0 [] [])) as Hi by done. revert Hi. generalize (mkSem 0 [] []). induction es as [|e es IH]; [done|].
  intros s Hs. cbn. apply IH. by apply semInv_step.
Qed.

(** * Retries *)

Section Retries.
Context {V : Type} (cfg : ProviderConfig) `{JsHost}.

Definition failedRetryably (q : Request (V := V)) : Prop := ∃ e, rq_outcome q = Err e ∧ retryable e = true.

(** The requests of a call and how it ends: every request but the last failed
    in a way worth retrying; a value is that of the last request; an error is
    that of the last request, unless no token or no time was left. *)
Definition callSpec (n : nat) (last : option ProviderHttpError) (l : list (Request (V := V))) (r : res ProviderHttpError V) : Prop :=
  (length l <= n)%nat ∧ Forall (fun q => rq_timeoutMs q <= pc_timeoutMs cfg) l ∧
  match l with
  | [] => ∃ e, r = Err e ∧ (Some e = last ∨ last = None ∧ pe_kind e = KBudgetExceeded ∨ pe_kind e = KRateLimited)
  | _ => ∃ l' q, l = l' ++ [q] ∧ Forall failedRetryably l' ∧
           match r with
           | Ok v => rq_outcome q = Ok v
           | Err e => rq_outcome q = Err e ∨ failedRetryably q ∧ pe_kind e = KRateLimited
           end
  end.

Lemma callSpec_none n last e : Some e = last ∨ last = None ∧ pe_kind e = KBudgetExceeded ∨ pe_kind e = KRateLimited -> callSpec n last [] (Err e).
Proof. intros He. split; [cbn; lia|]. split; [apply Forall_nil_2|]. by exists e. Qed.

Lemma giveUp_spec n budgetMs attempts last (w : World (V := V)) : ∃ e, giveUp (A := V) cfg budgetMs attempts last w = (w, Err e) ∧ callSpec n last [] (Err e).
Proof.
  eexists. split; [reflexivity|]. apply callSpec_none. destruct last as [e|]; cbn; [by left|]. right. by left.
Qed.

Lemma callSpec_step n last (q : Request (V := V)) e l r : rq_timeoutMs q <= pc_timeoutMs cfg -> rq_outcome q = Err e -> retryable e = true ->
  callSpec n (Some e) l r -> callSpec (S n) last (q :: l) r.
Proof.
  intros Hq Ho Hr (H1 & H2 & H3). split; [cbn; lia|]. split; [by constructor|].
  assert (failedRetryably q) as Hfr by by exists e. destruct l as [|q' l].
  - exists [], q. split; [done|]. split; [apply Forall_nil_2|]. destruct H3 as (e' & -> & [E|[[? _]|E]]); [|done|].
    + injection E as ->. by left.
    + by right.
  - destruct H3 as (l' & x & E & Hf & Hx). exists (q :: l'), x. rewrite E. split; [done|]. split; [by constructor|done].
Qed.

Lemma tryFrom_spec n : ∀ attempt budgetMs deadline attempts last (w : World (V := V)),
  ∃ w' l r, tryFrom cfg n attempt budgetMs deadline attempts last w = (w', r) ∧ hw_log w' = hw_log w ++ l ∧ callSpec n last l r.
Proof.
  induction n as [|n IH]; intros attempt budgetMs deadline attempts last w; cbn [tryFrom].
  { destruct (giveUp_spec 0 budgetMs attempts last w) as (e & -> & He). eexists _, [], _. split; [reflexivity|]. by rewrite app_nil_r. }
  assert (∀ w1 : World (V := V), hw_log w1 = hw_log w ->
    ∃ w' l r, giveUp (A := V) cfg budgetMs attempts last w1 = (w', r) ∧ hw_log w' = hw_log w ++ l ∧ callSpec (S n) last l r) as Hgive.
  { intros w1 E. destruct (giveUp_spec (S n) budgetMs attempts last w1) as (e & -> & He). eexists _, [], _. split; [reflexivity|]. by rewrite app_nil_r. }
  unfold mbind, H_bind. destruct (pause cfg deadline attempt w) as [w1 [go|e]] eqn:Ep.
  2:{ exfalso. clear -Ep. unfold pause in Ep. destruct attempt; [done|]. unfold mbind, H_bind in Ep. cbn in Ep. by destruct (_ <=? _). }
  assert (hw_log w1 = hw_log w) as E1.
  { clear -Ep. unfold pause in Ep. destruct attempt; [by injection Ep as <- _|]. unfold mbind, H_bind in Ep. cbn in Ep. by destruct (_ <=? _); injection Ep as <- _. }
  destruct go; cbn [negb]; [|by apply Hgive]. unfold readNow. destruct (_ <=? 0); [by apply Hgive|].
  unfold takeToken at 1. cbn [hw_bucket withClock]. destruct (tryTake _ _ _) as [b ok]. destruct ok; cbn [negb].
  2:{ unfold count at 1. cbn [hw_stats]. eexists _, [], _. split; [reflexivity|]. cbn. rewrite app_nil_r. split; [done|].
      apply callSpec_none. right. by right. }
  unfold acquireSlot at 1. cbn [hw_grants withClock]. destruct (default false _); cbn [negb]; [|by apply Hgive].
  unfold attemptOnce at 1. cbn [hw_clock hw_exchanges hw_log hw_stats withClock].
  match goal with |- context [mkRequest ?s ?t ?o] => set (q := mkRequest (V := V) s t o); set (out := o) end.
  assert (rq_timeoutMs q <= pc_timeoutMs cfg) as Hq by (cbn; lia). assert (rq_outcome q = out) as Hout by done. clearbody out.
  destruct out as [v|e].
  - eexists _, [q], _. split; [reflexivity|]. cbn. rewrite E1. split; [done|]. split; [cbn; lia|]. split; [by constructor|].
    exists [], q. split; [done|]. by split; [apply Forall_nil_2|].
  - destruct (retryable e) eqn:Er.
    + match goal with |- context [tryFrom cfg n ?a ?b ?c ?d ?f ?w'] => destruct (IH a b c d f w') as (w2 & l & r & E2 & El & Hl) end.
      rewrite E2. exists w2, (q :: l), r. split; [done|]. split; [rewrite El; cbn; rewrite E1, <- app_assoc; done|]. by eapply callSpec_step.
    + eexists _, [q], _. split; [reflexivity|]. cbn. rewrite E1. split; [done|]. split; [cbn; lia|]. split; [by constructor|].
      exists [], q. split; [done|]. split; [apply Forall_nil_2|]. by left.
Qed.

(** A call makes at most one request more than its retries, each with at most
    the configured timeout, goes on only after failures worth retrying, and
    ends with what its last request gave unless it ran out of tokens or
    time. *)
Theorem retries_bounded_and_justified budgetMs (w : World (V := V)) :
  ∃ w' l r, fetchWithRetry cfg budgetMs w = (w', r) ∧ hw_log w' = hw_log w ++ l ∧ callSpec (S (pc_maxRetries cfg)) None l r.
Proof.
  unfold fetchWithRetry, mbind, H_bind, readNow at 1.
  match goal with |- context [tryFrom cfg ?n ?a ?b ?c ?d ?f ?w'] => destruct (tryFrom_spec n a b c d f w') as (w2 & l & r & E & El & Hl) end.
  exists w2, l, r. rewrite E. done.
Qed.

(** A value that was not fetched is one from the cache that was within the
    freshness window when it was served. *)
Theorem cached_value_is_fresh cached ttlMs budgetMs (w w' : World (V := V)) v :
  getJson cfg cached ttlMs budgetMs w = (w', Ok v) -> hw_log w' = hw_log w ->
  ∃ at_, hw_cache w = CacheHit at_ v ∧ default 0 (head (hw_clock w)) - at_ < ttlMs.
Proof.
  intros Hg Hlog.
  assert (∀ u w1 : World (V := V), hw_log w1 = hw_log w -> (v0 ← fetchWithRetry cfg budgetMs; _ ← (if cached && (0 <? ttlMs) then storeCache ttlMs v0 else mret tt); mret v0) w1 = (w', Ok v) -> False) as Hno.
  { intros _ w1 E1. unfold mbind, H_bind. destruct (retries_bounded_and_justified budgetMs w1) as (w2 & l & r & -> & El & _ & _ & Hl).
    destruct r as [v0|e]; [|done]. assert (l ≠ []) as Hne by (intros ->; destruct Hl as (e & ? & _); done).
    destruct (cached && _); [|intros [= <- _]; rewrite El, E1 in Hlog; apply Hne; by apply (app_inv_head (hw_log w)); rewrite app_nil_r].
    unfold storeCache. cbn [hw_setFails withClock]. destruct (hw_setFails w2); cbn; intros [= <- _]; cbn in Hlog; rewrite El, E1 in Hlog; apply Hne;
      by apply (app_inv_head (hw_log w)); rewrite app_nil_r. }
  unfold getJson in Hg. destruct (cached && (0 <? ttlMs)) eqn:Ec.
  2:{ exfalso. by apply (Hno w w eq_refl). }
  unfold mbind at 1, H_bind at 1 in Hg. unfold lookCache in Hg. destruct (hw_cache w) as [at_ v0| |] eqn:Eca.
  - cbn [hw_clock withClock] in Hg. destruct (Z.ltb_spec (default 0 (head (hw_clock w)) - at_) ttlMs) as [Hlt|Hge].
    + injection Hg as _ <-. by exists at_.
    + exfalso. by eapply (Hno w); [|exact Hg].
  - exfalso. by eapply (Hno w); [|exact Hg].
  - exfalso. by eapply (Hno w); [|exact Hg].
Qed.
End Retries.
