(* ===== verification/Bootstrap.v ===== *)
(** Onboarding a source (src/oracle/bootstrap/): the statistics of its history
    (baseline.ts), the process-local store (bootstrap.store.ts) and the service
    that fetches, compares and seeds (source-bootstrap.service.ts).

    The history providers are a parameter: what the provider of an adapter
    answers for a source and a window.  A run is modelled from its first store
    call to its last; runs in progress elsewhere show as keys of [inFlight].
    Each store call fails when the next entry of [bw_faults] says so (none
    left: it succeeds), before it has had an effect. *)

From stdpp Require Import base list strings sets.
From Stdlib Require Import ZArith Lia Ascii Floats.
From S2P Require Import Prelude Decimal JsNum JsDate Canonical Consensus JsOrder.

#[local] Open Scope Z_scope.

(** * Baselines *)

Record HistoricalSample := mkHS { hs_timestamp : num; hs_value : num }.

Record SourceBaseline := mkBaseline {
  sb_sampleCount : Z; sb_windowStart : num; sb_windowEnd : num; sb_mean : num; sb_stddev : num; sb_median : num; sb_mad : num;
  sb_min : num; sb_max : num; sb_p05 : num; sb_p95 : num }.

(** 1.4826 *)
Definition MAD_TO_SIGMA : num := 0x1.7b8bac710cb29p+0%float.

(** Keys of a [Map] that are numbers: a zero is a zero, and NaN is itself. *)
Definition sameValueZero (a b : num) : bool := neq a b || (PrimFloat.is_nan a && PrimFloat.is_nan b).

Section NumMap.
Context {A : Type}.
Fixpoint nm_get (m : list (num * A)) (k : num) : option A :=
  match m with [] => None | (k', v) :: m => if sameValueZero k' k then Some v else nm_get m k end.
Fixpoint nm_set (m : list (num * A)) (k : num) (v : A) : list (num * A) :=
  match m with [] => [(k, v)] | (k', v') :: m => if sameValueZero k' k then (k', v) :: m else (k', v') :: nm_set m k v end.
End NumMap.

Definition usable (s : HistoricalSample) : bool := isFinite (hs_timestamp s) && isFinite (hs_value s).

Definition cleanSamples (samples : list HistoricalSample) : list HistoricalSample :=
  let byTimestamp := foldl (fun m s => if usable s then nm_set m (hs_timestamp s) (hs_value s) else m) [] samples in
  map (fun '(t, v) => mkHS t v) (sort_by (fun a b => ascending a.1 b.1) byTimestamp).

(** [Math.ceil(x)] is [-Math.floor(-x)]. *)
Definition ceiling (x : num) : num := PrimFloat.opp (mathFloor (PrimFloat.opp x)).
Definition indexed (l : list num) (i : num) : num :=
  match floor_to_Z i with Some z => if z <? 0 then nan else default nan (l !! Z.to_nat z) | None => nan end.

Definition quantile (sorted : list num) (q : num) : num :=
  match sorted with
  | [x] => x
  | _ =>
      let position := (num_of_Z (Z.of_nat (length sorted) - 1) * q)%float in
      let lower := mathFloor position in
      let upper := ceiling position in
      let weight := (position - lower)%float in
      (indexed sorted lower * (1 - weight) + indexed sorted upper * weight)%float
  end.

Definition sumBy (f : num -> num) (values : list num) : num := foldl (fun s v => (s + f v)%float) 0%float values.

(** Nothing: the exception for zero samples.  The last two quantiles are those
    of 0.05 and 0.95. *)
Definition computeBaseline (samples : list HistoricalSample) : option SourceBaseline :=
  match samples, last samples with
  | first :: _, Some final =>
      let values := map hs_value samples in
      let n := Z.of_nat (length values) in
      let sorted := sort_by ascending values in
      let mean := (sumBy (fun v => v) values / num_of_Z n)%float in
      let variance := if 1 <? n then (sumBy (fun v => (v - mean) * (v - mean)) values / num_of_Z (n - 1))%float else 0%float in
      let median := quantile sorted 0.5 in
      let deviations := sort_by ascending (map (fun v => PrimFloat.abs (v - median)) values) in
      Some (mkBaseline n (hs_timestamp first) (hs_timestamp final) mean (PrimFloat.sqrt variance) median
              (quantile deviations 0.5 * MAD_TO_SIGMA)%float (default nan (head sorted)) (default nan (last sorted))
              (quantile sorted 0x1.999999999999ap-5%float) (quantile sorted 0x1.e666666666666p-1%float))
  | _, _ => None
  end.

(** A flat history scores 1 per 0.001 of the median. *)
Definition deviationScore (b : SourceBaseline) (value : num) : num :=
  let spread := if ngt (sb_mad b) 0%float then sb_mad b else sb_stddev b in
  if ngt spread 0%float then (PrimFloat.abs (value - sb_median b) / spread)%float
  else if neq (sb_median b) 0%float then (if neq value 0%float then 0%float else infinity)
  else (PrimFloat.abs (value - sb_median b) / PrimFloat.abs (sb_median b) / 0x1.0624dd2f1a9fcp-10)%float.

Definition historyCoverage (samples : list HistoricalSample) (lookbackMs expectedIntervalMs : Z) : num :=
  if (expectedIntervalMs <=? 0) || (lookbackMs <=? 0) then 0%float
  else
    let expected := nmax 1%float (mathFloor (num_of_Z lookbackMs / num_of_Z expectedIntervalMs)%float) in
    nmin 1%float (num_of_Z (Z.of_nat (length samples)) / expected)%float.

(** One value per bucket, the latest. *)
Definition latestByBucket (bucketMs : Z) (series : list HistoricalSample) : list (num * num) :=
  foldl (fun m s => nm_set m (mathFloor (hs_timestamp s / num_of_Z bucketMs)%float) (hs_value s)) [] series.
Definition peerBucketsOf (bucketMs : Z) (peers : list (list HistoricalSample)) : list (num * list num) :=
  foldl (fun m series => foldl (fun m '(bucket, v) => nm_set m bucket (default [] (nm_get m bucket) ++ [v])) m (latestByBucket bucketMs series)) [] peers.

Definition bucketConsensus (peerValues : list num) (value : num) : num :=
  let voters := match peerValues with [_] => peerValues | _ => peerValues ++ [value] end in
  quantile (sort_by ascending voters) 0.5.
Definition deviationBps (value consensus : num) : num :=
  if neq consensus 0%float then (if neq value 0%float then 0%float else infinity)
  else (PrimFloat.abs (value - consensus) / PrimFloat.abs consensus * 10000)%float.

(** (buckets compared, buckets agreed) *)
Definition compareBucket (peerBuckets : list (num * list num)) (toleranceBps : num) (c : Z * Z) (own : num * num) : Z * Z :=
  match nm_get peerBuckets own.1 with
  | None | Some [] => c
  | Some peerValues =>
      (c.1 + 1, if nle (deviationBps own.2 (bucketConsensus peerValues own.2)) toleranceBps then c.2 + 1 else c.2)
  end.

Record Corroboration := mkCorroboration { co_rate : num; co_comparedBuckets : Z }.

Definition corroborationRate (source : list HistoricalSample) (peers : list (list HistoricalSample)) (bucketMs : Z) (toleranceBps : num)
    : option Corroboration :=
  if (bucketMs <=? 0) || bool_decide (length peers = 0%nat) then None
  else
    let '(compared, agreed) := foldl (compareBucket (peerBucketsOf bucketMs peers) toleranceBps) (0, 0) (latestByBucket bucketMs source) in
    if compared =? 0 then None else Some (mkCorroboration (num_of_Z agreed / num_of_Z compared)%float compared).

(** 0.8 *)
Definition SEED_REPUTATION_CAP : num := 0x1.999999999999ap-1%float.
Definition NEUTRAL_REPUTATION : num := 0.5%float.
Definition round4 (v : num) : num := (mathRound (v * 10000) / 10000)%float.
(** [0.2 + 0.3 * coverage + 0.5 * agreement], capped. *)
Definition seedReputation (coverage : num) (corroboration : option num) : num :=
  let agreement := default NEUTRAL_REPUTATION corroboration in
  let raw := (0x1.999999999999ap-3 + 0x1.3333333333333p-2 * coverage + 0.5 * agreement)%float in
  (mathRound (nmin SEED_REPUTATION_CAP (nmax 0 raw) * 10000) / 10000)%float.

(** * Records and their store *)

Inductive BootstrapStatus := Cold | Bootstrapping | Warm | InsufficientHistory | Failed.
#[global] Instance BootstrapStatus_eq_dec : EqDecision BootstrapStatus.
Proof. solve_decision. Defined.
Definition statusText (s : BootstrapStatus) : string :=
  match s with
  | Cold => "cold" | Bootstrapping => "bootstrapping" | Warm => "warm" | InsufficientHistory => "insufficient_history" | Failed => "failed"
  end.

(** [sr_updatedAt] is the instant whose ISO text the record has. *)
Record SourceBootstrapRecord := mkRecord {
  sr_feedId : string; sr_sourceId : string; sr_adapter : string; sr_status : BootstrapStatus; sr_baseline : option SourceBaseline;
  sr_reputation : option num; sr_coverage : option num; sr_corroboration : option num; sr_corroboratedBuckets : Z;
  sr_lookbackMs : Z; sr_expectedIntervalMs : Z; sr_error : option string; sr_requestedBy : option string; sr_updatedAt : Z }.

Definition pairKey (feedId sourceId : string) : string := feedId +:+ String "000" sourceId.

Record World := mkWorld {
  bw_records : list (string * SourceBootstrapRecord); bw_readings : list (string * list HistoricalSample);
  bw_inFlight : list string; bw_faults : list bool; bw_clock : list Z }.

Definition B (A : Type) : Type := World -> World * res string A.
#[global] Instance B_ret : MRet B := fun A a w => (w, Ok a).
#[global] Instance B_bind : MBind B := fun A C f m w => match m w with (w', Ok a) => f a w' | (w', Err e) => (w', Err e) end.

Definition storeCall {A} (f : World -> World * A) : B A := fun w =>
  let w' := mkWorld (bw_records w) (bw_readings w) (bw_inFlight w) (tail (bw_faults w)) (bw_clock w) in
  if default false (head (bw_faults w)) then (w', Err "store unavailable"%string) else let '(w', a) := f w' in (w', Ok a).
Definition readClock : B Z := fun w =>
  (mkWorld (bw_records w) (bw_readings w) (bw_inFlight w) (bw_faults w) (tail (bw_clock w)), Ok (default 0 (head (bw_clock w)))).
Definition setInFlight (f : list string -> list string) : B unit := fun w =>
  (mkWorld (bw_records w) (bw_readings w) (f (bw_inFlight w)) (bw_faults w) (bw_clock w), Ok tt).
Definition inFlightNow : B (list string) := fun w => (w, Ok (bw_inFlight w)).
Definition throw {A} (e : string) : B A := fun w => (w, Err e).

Definition getRecord (feedId sourceId : string) : B (option SourceBootstrapRecord) :=
  storeCall (fun w => (w, jm_get (bw_records w) (pairKey feedId sourceId))).
Definition listRecords (feedId : option string) : B (list SourceBootstrapRecord) :=
  storeCall (fun w => (w, List.filter (fun r => match feedId with None => true | Some f => bool_decide (sr_feedId r = f) end) (jm_values (bw_records w)))).
Definition saveRecord (r : SourceBootstrapRecord) : B unit :=
  storeCall (fun w => (mkWorld (jm_set (bw_records w) (pairKey (sr_feedId r) (sr_sourceId r)) r) (bw_readings w) (bw_inFlight w) (bw_faults w) (bw_clock w), tt)).
Definition replaceSeedReadings (feedId sourceId : string) (samples : list HistoricalSample) : B unit :=
  storeCall (fun w => (mkWorld (bw_records w) (jm_set (bw_readings w) (pairKey feedId sourceId) samples) (bw_inFlight w) (bw_faults w) (bw_clock w), tt)).
Definition getSeedReadings (feedId sourceId : string) : B (list HistoricalSample) :=
  storeCall (fun w => (w, default [] (jm_get (bw_readings w) (pairKey feedId sourceId)))).

(** * The service *)

Record BootstrapSourceSpec := mkSpec { sp_sourceId : string; sp_adapter : string; sp_params : list (string * string) }.
Record BootstrapOptions := mkOptions {
  bo_lookbackMs : option Z; bo_expectedIntervalMs : option Z; bo_minSamples : option Z; bo_corroborationToleranceBps : option num;
  bo_force : bool; bo_requestedBy : option string }.
Record BootstrapReport := mkReport {
  rp_feedId : string; rp_sourceId : string; rp_status : BootstrapStatus; rp_skipped : bool; rp_sampleCount : Z;
  rp_reputation : option num; rp_coverage : option num; rp_corroboration : option num; rp_error : option string }.
Record Settings := mkSettings {
  se_lookbackMs : Z; se_expectedIntervalMs : Z; se_minSamples : Z; se_toleranceBps : num; se_requestedBy : option string }.

Definition DEFAULT_lookbackMs : Z := 30 * 24 * 60 * 60 * 1000.
Definition DEFAULT_expectedIntervalMs : Z := 60 * 60 * 1000.
Definition DEFAULT_minSamples : Z := 24.
Definition DEFAULT_toleranceBps : num := 100%float.
Definition DEFAULT_anomalyThreshold : num := 6%float.

Definition settingsOf (o : BootstrapOptions) : Settings :=
  mkSettings (default DEFAULT_lookbackMs (bo_lookbackMs o)) (default DEFAULT_expectedIntervalMs (bo_expectedIntervalMs o))
    (default DEFAULT_minSamples (bo_minSamples o)) (default DEFAULT_toleranceBps (bo_corroborationToleranceBps o)) (bo_requestedBy o).

Definition reportFrom (record : option SourceBootstrapRecord) (feedId sourceId : string) (skipped : bool) : BootstrapReport :=
  mkReport feedId sourceId (default Cold (sr_status <$> record)) skipped (default 0 (sb_sampleCount <$> (record ≫= sr_baseline)))
    (record ≫= sr_reputation) (record ≫= sr_coverage) (record ≫= sr_corroboration) (record ≫= sr_error).

Inductive AnomalyAssessment := NotReady (status : BootstrapStatus) | Ready (score : num) (anomalous : bool) (baseline : SourceBaseline).

Definition assess (feedId sourceId : string) (value threshold : num) : B AnomalyAssessment :=
  record ← getRecord feedId sourceId;
  match record with
  | Some r =>
      match sr_status r, sr_baseline r with
      | Warm, Some b => let score := deviationScore b value in mret (Ready score (ngt score threshold) b)
      | s, _ => mret (NotReady s)
      end
  | None => mret (NotReady Cold)
  end.

(** The provider registered for an adapter, and its answer for a source, its
    settings and its window. *)
Definition HistoryProviders : Type :=
  string -> option (string -> string -> list (string * string) -> option Z -> Z -> res string (list HistoricalSample)).

Section Service.
Variable fetchHistory : HistoryProviders.
Variable feedId : string.
Variable settings : Settings.
Variable force : bool.

(** The record with everything but its status empty. *)
Definition emptyRecord (source : BootstrapSourceSpec) (status : BootstrapStatus) (error : option string) (now : Z) : SourceBootstrapRecord :=
  mkRecord feedId (sp_sourceId source) (sp_adapter source) status None None None None 0 (se_lookbackMs settings) (se_expectedIntervalMs settings)
    error (se_requestedBy settings) now.
Definition warmRecord (source : BootstrapSourceSpec) (baseline : SourceBaseline) (coverage : num) (corroboration : option Corroboration)
    (reputation : num) (now : Z) : SourceBootstrapRecord :=
  mkRecord feedId (sp_sourceId source) (sp_adapter source) Warm (Some baseline) (Some reputation) (Some (round4 coverage))
    (round4 ∘ co_rate <$> corroboration) (default 0 (co_comparedBuckets <$> corroboration)) (se_lookbackMs settings)
    (se_expectedIntervalMs settings) None (se_requestedBy settings) now.
(** A warm record after a re-run that failed. *)
Definition keptRecord (prior : SourceBootstrapRecord) (error : string) (now : Z) : SourceBootstrapRecord :=
  mkRecord (sr_feedId prior) (sr_sourceId prior) (sr_adapter prior) (sr_status prior) (sr_baseline prior) (sr_reputation prior)
    (sr_coverage prior) (sr_corroboration prior) (sr_corroboratedBuckets prior) (sr_lookbackMs prior) (sr_expectedIntervalMs prior)
    (Some error) (sr_requestedBy prior) now.

Record Claims := mkClaims {
  cl_reports : list (string * BootstrapReport); cl_previous : list (string * option SourceBootstrapRecord); cl_targets : list BootstrapSourceSpec }.

Fixpoint claim (sources : list BootstrapSourceSpec) (c : Claims) : B Claims :=
  match sources with
  | [] => mret c
  | source :: sources =>
      existing ← getRecord feedId (sp_sourceId source);
      held ← inFlightNow;
      let key := pairKey feedId (sp_sourceId source) in
      if bool_decide (key ∈ held) || (bool_decide (sr_status <$> existing = Some Warm) && negb force)
      then claim sources (mkClaims (jm_set (cl_reports c) (sp_sourceId source) (reportFrom existing feedId (sp_sourceId source) true)) (cl_previous c) (cl_targets c))
      else
        _ ← setInFlight (addToSet key);
        claim sources (mkClaims (cl_reports c) (jm_set (cl_previous c) (sp_sourceId source) existing) (cl_targets c ++ [source]))
  end.

Fixpoint markAll (targets : list BootstrapSourceSpec) : B unit :=
  match targets with
  | [] => mret tt
  | source :: targets => now ← readClock; _ ← saveRecord (emptyRecord source Bootstrapping None now); markAll targets
  end.

(** What came back for a source: the usable samples of the window, or why
    there are none. *)
Definition fetchOne (from : option Z) (to : Z) (source : BootstrapSourceSpec) : BootstrapSourceSpec * res string (list HistoricalSample) :=
  (source,
   match fetchHistory (sp_adapter source) with
   | None => Err ("No history provider registered for adapter " +:+ String "034" (sp_adapter source +:+ String "034" ""))
   | Some fetch =>
       match fetch feedId (sp_sourceId source) (sp_params source) from to with
       | Err e => Err e
       | Ok raw => Ok (List.filter (fun s => nge (hs_timestamp s) (match from with Some t => num_of_Z t | None => nan end)) (cleanSamples raw))
       end
   end).

Definition enough (samples : list HistoricalSample) : bool := se_minSamples settings <=? Z.of_nat (length samples).

Definition ownSeries (fetched : list (BootstrapSourceSpec * res string (list HistoricalSample))) : list (string * list HistoricalSample) :=
  foldl (fun m '(source, r) => match r with Ok samples => if enough samples then jm_set m (sp_sourceId source) samples else m | Err _ => m end) [] fetched.

Fixpoint peerSeries (records : list SourceBootstrapRecord) (previous : list (string * option SourceBootstrapRecord))
    (series : list (string * list HistoricalSample)) : B (list (string * list HistoricalSample)) :=
  match records with
  | [] => mret series
  | r :: records =>
      if bool_decide (sr_status r = Warm) && negb (jm_has series (sr_sourceId r)) && negb (jm_has previous (sr_sourceId r))
      then samples ← getSeedReadings feedId (sr_sourceId r); peerSeries records previous (jm_set series (sr_sourceId r) samples)
      else peerSeries records previous series
  end.

Definition fallShort (source : BootstrapSourceSpec) (prior : option SourceBootstrapRecord) (status : BootstrapStatus) (error : string) : B BootstrapReport :=
  now ← readClock;
  let record :=
    match prior with
    | Some p => if bool_decide (sr_status p = Warm) then keptRecord p ("Re-bootstrap " +:+ statusText status +:+ ": " +:+ error) now
                else emptyRecord source status (Some error) now
    | None => emptyRecord source status (Some error) now
    end in
  _ ← saveRecord record;
  let r := reportFrom (Some record) feedId (sp_sourceId source) false in
  mret (mkReport (rp_feedId r) (rp_sourceId r) (sr_status record) (rp_skipped r) (rp_sampleCount r) (rp_reputation r) (rp_coverage r)
          (rp_corroboration r) (Some error)).

Definition seed (source : BootstrapSourceSpec) (samples : list HistoricalSample) (series : list (string * list HistoricalSample)) : B BootstrapReport :=
  match computeBaseline samples with
  | None => throw "Cannot compute a baseline from zero samples"
  | Some baseline =>
      let coverage := historyCoverage samples (se_lookbackMs settings) (se_expectedIntervalMs settings) in
      let peers := map snd (List.filter (fun ps => negb (bool_decide (ps.1 = sp_sourceId source))) series) in
      let corroboration := corroborationRate samples peers (se_expectedIntervalMs settings) (se_toleranceBps settings) in
      let reputation := seedReputation coverage (co_rate <$> corroboration) in
      _ ← replaceSeedReadings feedId (sp_sourceId source) samples;
      now ← readClock;
      let record := warmRecord source baseline coverage corroboration reputation now in
      _ ← saveRecord record;
      mret (reportFrom (Some record) feedId (sp_sourceId source) false)
  end.

Definition settleOne (series : list (string * list HistoricalSample)) (previous : list (string * option SourceBootstrapRecord))
    (source : BootstrapSourceSpec) (result : res string (list HistoricalSample)) : B BootstrapReport :=
  let prior := default None (jm_get previous (sp_sourceId source)) in
  match result with
  | Err e => fallShort source prior Failed e
  | Ok samples =>
      if enough samples then seed source samples series
      else fallShort source prior InsufficientHistory
             ("Only " +:+ showZ (Z.of_nat (length samples)) +:+ " usable samples; at least " +:+ showZ (se_minSamples settings) +:+ " required")
  end.

Fixpoint settleAll (series : list (string * list HistoricalSample)) (previous : list (string * option SourceBootstrapRecord))
    (fetched : list (BootstrapSourceSpec * res string (list HistoricalSample))) (reports : list (string * BootstrapReport)) : B (list (string * BootstrapReport)) :=
  match fetched with
  | [] => mret reports
  | (source, result) :: fetched =>
      report ← settleOne series previous source result;
      settleAll series previous fetched (jm_set reports (sp_sourceId source) report)
  end.

(** The window of a run, which [Date] clips to the times it can hold. *)
Definition windowStart (now : Z) : option Z := if validTime (now - se_lookbackMs settings) then Some (now - se_lookbackMs settings) else None.

Definition runTargets (c : Claims) : B (list (string * BootstrapReport)) :=
  _ ← markAll (cl_targets c);
  now ← readClock;
  let fetched := map (fetchOne (windowStart now) now) (cl_targets c) in
  records ← listRecords (Some feedId);
  series ← peerSeries records (cl_previous c) (ownSeries fetched);
  settleAll series (cl_previous c) fetched (cl_reports c).

(** [try { m } finally { f }] *)
Definition finally {A} (m : B A) (f : list string -> list string) : B A := fun w => let '(w', r) := m w in ((setInFlight f w').1, r).

Definition bootstrapFeed (sources : list BootstrapSourceSpec) : B (list (option BootstrapReport)) :=
  c ← claim sources (mkClaims [] [] []);
  reports ← finally (runTargets c)
              (fun held => foldl (fun held t => List.filter (fun k => negb (bool_decide (k = pairKey feedId (sp_sourceId t)))) held) held (cl_targets c));
  mret (map (fun s => jm_get reports (sp_sourceId s)) sources).
End Service.

(** * Reasoning about runs *)

(** [m] keeps [P] however it ends, and gives a value with [Q] if it ends well. *)
Definition keeps (P : World -> Prop) {A} (m : B A) (Q : A -> Prop) : Prop :=
  ∀ w, P w -> P (m w).1 ∧ ∀ a, (m w).2 = Ok a -> Q a.
(** From [P], [m] ends well, in [Q]. *)
Definition total (P : World -> Prop) {A} (m : B A) (Q : A -> World -> Prop) : Prop := ∀ w, P w -> ∃ w' a, m w = (w', Ok a) ∧ Q a w'.

Lemma keeps_mret P {A} (a : A) (Q : A -> Prop) : Q a -> keeps P (mret a) Q.
Proof. intros Ha w Hw. split; [done|]. by intros a' [= <-]. Qed.
Lemma keeps_seq P {A C} (m : B A) (f : A -> B C) Q R : keeps P m Q -> (∀ a, Q a -> keeps P (f a) R) -> keeps P (m ≫= f) R.
Proof.
  intros Hm Hf w Hw. unfold mbind, B_bind. destruct (Hm w Hw) as [H1 H2]. destruct (m w) as [w' [a|e]]; cbn in *; [by apply Hf; auto|done].
Qed.
Lemma keeps_weaken P {A} (m : B A) (Q R : A -> Prop) : keeps P m Q -> (∀ a, Q a -> R a) -> keeps P m R.
Proof. intros Hm Hq w Hw. destruct (Hm w Hw) as [H1 H2]. auto. Qed.

Lemma total_ret P {A} (a : A) Q : (∀ w, P w -> Q a w) -> total P (mret a) Q.
Proof. intros Hq w Hw. eexists _, _. split; [reflexivity|auto]. Qed.
Lemma total_bind P {A C} (m : B A) (f : A -> B C) Q R : total P m Q -> (∀ a, total (Q a) (f a) R) -> total P (m ≫= f) R.
Proof. intros Hm Hf w Hw. unfold mbind, B_bind. destruct (Hm w Hw) as (w' & a & -> & Ha). by apply Hf. Qed.
Lemma total_last P {A C} (m : B A) (f : A -> C) (Q : World -> Prop) :
  total P m (fun _ => Q) -> total P (a ← m; mret (f a)) (fun _ => Q).
Proof. intros Hm. eapply total_bind; [exact Hm|]. intros a. by apply total_ret. Qed.
Lemma total_weaken P P' {A} (m : B A) Q Q' : total P m Q -> (∀ w, P' w -> P w) -> (∀ a w, Q a w -> Q' a w) -> total P' m Q'.
Proof. intros Hm Hp Hq w Hw. destruct (Hm w (Hp w Hw)) as (w' & a & E & Ha). eauto 6. Qed.

(** What the clock and the outcome of store calls do not matter to. *)
Definition timeless (P : World -> Prop) : Prop :=
  ∀ rs rd fl f c f' c', P (mkWorld rs rd fl f c) -> P (mkWorld rs rd fl f' c').

Lemma keeps_clock P : timeless P -> keeps P readClock (fun _ => True).
Proof. intros Ht w Hw. split; [|done]. destruct w. by eapply Ht. Qed.
Lemma keeps_store P {A} (f : World -> World * A) Q : timeless P -> (∀ w, P w -> P (f w).1 ∧ Q (f w).2) -> keeps P (storeCall f) Q.
Proof.
  intros Ht Hf w Hw. unfold storeCall.
  assert (P (mkWorld (bw_records w) (bw_readings w) (bw_inFlight w) (tail (bw_faults w)) (bw_clock w))) as Hw' by (destruct w; by eapply Ht).
  destruct (default false _); cbn; [done|]. destruct (Hf _ Hw') as [H1 H2]. destruct (f _) as [w' a]. cbn in *. split; [done|]. by intros a' [= <-].
Qed.
Lemma keeps_get P feedId sourceId Q : timeless P -> (∀ w, P w -> Q (jm_get (bw_records w) (pairKey feedId sourceId))) -> keeps P (getRecord feedId sourceId) Q.
Proof. intros Ht Hq. apply keeps_store; [done|]. intros w Hw. split; [done|]. by apply Hq. Qed.

Definition noFaults (w : World) : Prop := Forall (fun b => b = false) (bw_faults w).

Lemma noFaults_tail w rs rd fl c : noFaults w -> noFaults (mkWorld rs rd fl (tail (bw_faults w)) c).
Proof. unfold noFaults. cbn. destruct (bw_faults w); [done|]. by intros [_ H]%Forall_cons. Qed.

Lemma total_store P {A} (f : World -> World * A) Q :
  timeless P -> (∀ w, P w -> ∀ w' a, f w = (w', a) -> Q a w' ∧ bw_faults w' = bw_faults w) ->
  total (fun w => noFaults w ∧ P w) (storeCall f) (fun a w => noFaults w ∧ Q a w).
Proof.
  intros Ht Hf w [Hn Hw]. unfold storeCall.
  assert (default false (head (bw_faults w)) = false) as -> by (unfold noFaults in Hn; destruct (bw_faults w); [done|]; by apply Forall_cons in Hn as [-> _]).
  destruct (f _) as [w' a] eqn:E. apply Hf in E as [HQ Hfl]; [|destruct w; by eapply Ht].
  eexists _, _. split; [reflexivity|]. split; [|done]. unfold noFaults. rewrite Hfl. cbn. by apply (noFaults_tail w [] [] [] []) in Hn.
Qed.
Lemma total_clock P : timeless P -> total (fun w => noFaults w ∧ P w) readClock (fun _ w => noFaults w ∧ P w).
Proof. intros Ht w [Hn Hw]. eexists _, _. split; [reflexivity|]. split; [done|]. destruct w. by eapply Ht. Qed.

Lemma String_app_inj p s t : (p +:+ s = p +:+ t)%string -> s = t.
Proof. induction p as [|c p IH]; cbn; [done|]. intros [= E]. by apply IH. Qed.
Lemma pairKey_inj feedId s t : pairKey feedId s = pairKey feedId t -> s = t.
Proof. unfold pairKey. intros E%String_app_inj. by injection E. Qed.

(** * Warm sources have a baseline *)

(** A record is warm exactly if it has a baseline, which then counts at least
    one sample. *)
Definition wfRecord (r : SourceBootstrapRecord) : Prop :=
  match sr_status r, sr_baseline r with
  | Warm, Some b => 1 <= sb_sampleCount b
  | Warm, None => False
  | _, Some _ => False
  | _, None => True
  end.
(** Every record is well formed and under its own key. *)
Definition wfWorld (w : World) : Prop :=
  Forall (fun kr => kr.1 = pairKey (sr_feedId kr.2) (sr_sourceId kr.2) ∧ wfRecord kr.2) (bw_records w).

Lemma wfWorld_timeless : timeless wfWorld.
Proof. by intros ???????. Qed.
#[local] Hint Resolve wfWorld_timeless : core.

Lemma wfWorld_get w k r : wfWorld w -> jm_get (bw_records w) k = Some r -> k = pairKey (sr_feedId r) (sr_sourceId r) ∧ wfRecord r.
Proof. intros Hw Hg%jm_get_Some_in. by apply (proj1 (Forall_forall _ _) Hw (k, r)). Qed.

Lemma keeps_save r : wfRecord r -> keeps wfWorld (saveRecord r) (fun _ => True).
Proof.
  intros Hr. apply keeps_store; [done|]. intros w Hw. split; [|done]. unfold wfWorld. cbn. apply Forall_forall. intros x [->|Hx]%elem_of_jm_set; [done|].
  by apply (proj1 (Forall_forall _ _) Hw).
Qed.

Section Invariant.
Context (fetchHistory : HistoryProviders) (feedId : string) (settings : Settings) (force : bool).

Definition wfClaims (c : Claims) : Prop := ∀ s r, jm_get (cl_previous c) s = Some (Some r) -> wfRecord r.

Lemma keeps_claim sources : ∀ c, wfClaims c -> keeps wfWorld (claim feedId force sources c) wfClaims.
Proof.
  induction sources as [|source sources IH]; intros c Hc; cbn [claim]; [by apply keeps_mret|].
  eapply keeps_seq.
  { apply (keeps_get _ _ _ (fun o => match o with Some r => wfRecord r | None => True end)); [done|].
    intros w Hw. destruct (jm_get _ _) eqn:E; [|done]. by apply (wfWorld_get _ _ _ Hw) in E as [_ ?]. }
  intros existing He. apply (keeps_seq _ _ _ (fun _ => True)); [by intros w Hw|]. intros held _. destruct (_ || _); [by apply IH|].
  apply (keeps_seq _ _ _ (fun _ => True)); [by intros w Hw|]. intros _ _. apply IH. intros s r. cbn. rewrite jm_get_set. destruct (decide _); [|apply Hc].
  by intros [= ->].
Qed.

Lemma keeps_markAll targets : keeps wfWorld (markAll feedId settings targets) (fun _ => True).
Proof.
  induction targets as [|t targets IH]; cbn [markAll]; [by apply keeps_mret|].
  eapply keeps_seq; [by apply keeps_clock|]. intros now _. eapply keeps_seq; [by apply keeps_save|]. by intros _ _.
Qed.

Lemma keeps_peerSeries records previous : ∀ series, keeps wfWorld (peerSeries feedId records previous series) (fun _ => True).
Proof.
  induction records as [|r records IH]; intros series; cbn [peerSeries]; [by apply keeps_mret|]. destruct (_ && _); [|apply IH].
  apply (keeps_seq _ _ _ (fun _ => True)); [apply keeps_store; [done|by intros w Hw]|]. intros samples _. apply IH.
Qed.

Lemma computeBaseline_count samples b : computeBaseline samples = Some b -> sb_sampleCount b = Z.of_nat (length samples) ∧ 1 <= sb_sampleCount b.
Proof.
  unfold computeBaseline. destruct samples as [|x l]; [done|]. destruct (last _); [|done]. intros [= <-].
  cbn [sb_sampleCount]. rewrite length_map. cbn [length]. lia.
Qed.

Lemma keeps_settleOne series previous source result : (∀ s r, jm_get previous s = Some (Some r) -> wfRecord r) ->
  keeps wfWorld (settleOne feedId settings series previous source result) (fun _ => True).
Proof.
  intros Hp. assert (∀ status error, status ≠ Warm -> keeps wfWorld (fallShort feedId settings source (default None (jm_get previous (sp_sourceId source))) status error) (fun _ => True)) as Hf.
  { intros status error Hs. unfold fallShort. eapply keeps_seq; [by apply keeps_clock|]. intros now _. eapply keeps_seq; [|intros; by apply keeps_mret].
    apply keeps_save. assert (wfRecord (emptyRecord feedId settings source status (Some error) now)) as He by (unfold wfRecord; cbn; by destruct status).
    destruct (jm_get previous _) as [[p|]|] eqn:E; cbn; [|done..]. case_bool_decide as Hw; [|done].
    apply Hp in E. exact E. }
  unfold settleOne. destruct result as [samples|e]; [|by apply Hf]. destruct (enough _ _); [|by apply Hf].
  unfold seed. destruct (computeBaseline samples) as [b|] eqn:Eb; [|by intros w Hw].
  apply (keeps_seq _ _ _ (fun _ => True)); [apply keeps_store; [done|by intros w Hw]|]. intros _ _. eapply keeps_seq; [by apply keeps_clock|]. intros now _.
  eapply keeps_seq; [|intros; by apply keeps_mret]. apply keeps_save. unfold wfRecord. cbn. by apply computeBaseline_count in Eb as [_ ?].
Qed.

Lemma keeps_settleAll series previous fetched : ∀ reports, (∀ s r, jm_get previous s = Some (Some r) -> wfRecord r) ->
  keeps wfWorld (settleAll feedId settings series previous fetched reports) (fun _ => True).
Proof.
  induction fetched as [|[source result] fetched IH]; intros reports Hp; cbn [settleAll]; [by apply keeps_mret|].
  eapply keeps_seq; [by apply keeps_settleOne|]. intros report _. by apply IH.
Qed.

Lemma keeps_finally P {A} (m : B A) f Q : (∀ rs rd fl fl' fs c, P (mkWorld rs rd fl fs c) -> P (mkWorld rs rd fl' fs c)) -> keeps P m Q -> keeps P (finally m f) Q.
Proof.
  intros Hi Hm w Hw. unfold finally. destruct (Hm w Hw) as [H1 H2]. destruct (m w) as [[rs rd fl fs c] r]. cbn in *. split; [|done]. by eapply Hi.
Qed.

(** However the store calls fail, whatever the providers answer: a run leaves
    every record warm exactly if it has a baseline. *)
Theorem warm_iff_baseline sources : keeps wfWorld (bootstrapFeed fetchHistory feedId settings force sources) (fun _ => True).
Proof.
  unfold bootstrapFeed. eapply keeps_seq; [by apply keeps_claim|]. intros c Hc. eapply keeps_seq; [|intros; by apply keeps_mret].
  apply keeps_finally; [by intros ??????|]. unfold runTargets. eapply keeps_seq; [apply keeps_markAll|]. intros _ _.
  eapply keeps_seq; [by apply keeps_clock|]. intros now _. apply (keeps_seq _ _ _ (fun _ => True)); [apply keeps_store; [done|by intros w Hw]|]. intros records _.
  eapply keeps_seq; [apply keeps_peerSeries|]. intros series _. by apply keeps_settleAll.
Qed.
End Invariant.

(** Then a reading is scored exactly if its source is warm. *)
Lemma assess_ready_iff_warm feedId sourceId value threshold w w' a :
  wfWorld w -> assess feedId sourceId value threshold w = (w', Ok a) ->
  (∃ score anomalous b, a = Ready score anomalous b) <-> sr_status <$> jm_get (bw_records w) (pairKey feedId sourceId) = Some Warm.
Proof.
  intros Hw. unfold assess, mbind, B_bind, getRecord, storeCall. destruct (default false _); [done|]. cbn.
  destruct (jm_get _ _) as [r|] eqn:E; cbn; [|intros [= _ <-]; split; [naive_solver|done]].
  apply (wfWorld_get _ _ _ Hw) in E as [_ E]. unfold wfRecord in E. destruct (sr_status r), (sr_baseline r); try done; intros [= _ <-]; naive_solver.
Qed.

(** * Runs without store failures *)

Section Claiming.
Context (feedId : string) (force : bool).
#[local] Notation "'keyOf' t" := (pairKey feedId (sp_sourceId t)) (at level 10).

(** What holds between two claims of a run that began with [fl0] in flight. *)
Record claimed (fl0 : list string) (c : Claims) (w : World) : Prop := {
  cd_inFlight : bw_inFlight w = fl0 ++ map (fun t => keyOf t) (cl_targets c);
  cd_nodup : NoDup (map sp_sourceId (cl_targets c));
  cd_new : ∀ t, t ∈ cl_targets c -> keyOf t ∉ fl0;
  cd_previous : ∀ t, t ∈ cl_targets c -> jm_get (cl_previous c) (sp_sourceId t) = Some (jm_get (bw_records w) (keyOf t));
  cd_forced : ∀ t, t ∈ cl_targets c -> sr_status <$> jm_get (bw_records w) (keyOf t) = Some Warm -> force = true }.

Lemma claimed_nil fl0 w : bw_inFlight w = fl0 -> claimed fl0 (mkClaims [] [] []) w.
Proof. intros E. split; cbn; [by rewrite app_nil_r|constructor|set_solver..]. Qed.

Lemma claimed_add fl0 c w w' source :
  bw_records w' = bw_records w -> bw_inFlight w' = addToSet (keyOf source) (bw_inFlight w) -> claimed fl0 c w ->
  keyOf source ∉ bw_inFlight w -> (sr_status <$> jm_get (bw_records w) (keyOf source) = Some Warm -> force = true) ->
  claimed fl0 (mkClaims (cl_reports c) (jm_set (cl_previous c) (sp_sourceId source) (jm_get (bw_records w) (keyOf source))) (cl_targets c ++ [source])) w'.
Proof.
  intros Er Ef [H1 H2 H3 H4 H5] Hn Hf.
  assert (∀ t, t ∈ cl_targets c -> sp_sourceId t ≠ sp_sourceId source) as Hd.
  { intros t Ht E. apply Hn. rewrite H1. apply elem_of_app. right. apply list_elem_of_fmap. exists t. by rewrite E. }
  split; cbn; rewrite ?Er.
  - rewrite Ef. unfold addToSet. rewrite bool_decide_eq_false_2 by done. rewrite H1, map_app. by rewrite <- app_assoc.
  - rewrite map_app. apply NoDup_app. split; [done|]. split; [|apply NoDup_singleton]. intros x (t & -> & Ht)%list_elem_of_fmap. cbn.
    rewrite list_elem_of_singleton. by apply Hd.
  - intros t [Ht| ->%list_elem_of_singleton]%elem_of_app; [by apply H3|]. intros Hfl. apply Hn. rewrite H1. set_solver.
  - intros t [Ht| ->%list_elem_of_singleton]%elem_of_app; [|by rewrite jm_get_set_eq]. rewrite jm_get_set_ne by (apply not_eq_sym; by apply Hd). by apply H4.
  - intros t [Ht| ->%list_elem_of_singleton]%elem_of_app; [by apply H5|done].
Qed.

Lemma claim_spec fl0 sources : ∀ c w w' c', claim feedId force sources c w = (w', Ok c') -> claimed fl0 c w ->
  claimed fl0 c' w' ∧ bw_records w' = bw_records w ∧ bw_readings w' = bw_readings w ∧
  (∀ t, t ∈ cl_targets c' -> t ∈ cl_targets c ∨ t ∈ sources) ∧
  (∀ x, (x ∈ map sp_sourceId (cl_targets c) ∨ is_Some (jm_get (cl_reports c) x)) ∨ x ∈ map sp_sourceId sources ->
        x ∈ map sp_sourceId (cl_targets c') ∨ is_Some (jm_get (cl_reports c') x)).
Proof.
  induction sources as [|source sources IH]; intros c w w' c'; cbn [claim].
  { intros [= <- <-] Hc. split_and!; [done..|set_solver|]. cbn. set_solver. }
  unfold mbind at 1, B_bind at 1, getRecord, storeCall. destruct (default false _); [done|]. unfold mbind at 1, B_bind at 1, inFlightNow. cbn [bw_inFlight bw_records].
  case_bool_decide as Hin; cbn [orb].
  2: case_bool_decide as Hw; cbn [andb].
  2: destruct force eqn:Hforce; cbn [negb].
  1, 3: intros Hcl [H1 H2 H3 H4 H5]; apply IH in Hcl as (Hc & E1 & E2 & Hs & Hr); [|by split];
    split_and!; [done..|set_solver|]; intros x Hx; apply Hr; cbn; rewrite jm_get_set; destruct (decide (sp_sourceId source = x)); set_solver.
  all: unfold mbind at 1, B_bind at 1, setInFlight; cbn [bw_inFlight bw_records bw_readings bw_faults bw_clock]; intros Hcl Hc;
    eapply IH in Hcl as (Hc' & E1 & E2 & Hs & Hr); [|by eapply claimed_add; [..|exact Hc| |]];
    split_and!; [done..| |]; [intros t Ht; destruct (Hs t Ht) as [Ht'|Ht']; cbn in Ht'; set_solver|];
    intros x Hx; apply Hr; cbn; rewrite map_app; set_solver.
Qed.
End Claiming.

(** A store call succeeds if its entry does not say otherwise. *)
Lemma storeCall_ok {A} (f : World -> World * A) w : head (bw_faults w) ≠ Some true ->
  storeCall f w = let '(w', a) := f (mkWorld (bw_records w) (bw_readings w) (bw_inFlight w) (tail (bw_faults w)) (bw_clock w)) in (w', Ok a).
Proof. unfold storeCall. by destruct (head (bw_faults w)) as [[]|]. Qed.

(** The claims end well if the calls they make do. *)
Lemma claim_ok feedId force sources : ∀ c w, Forall (fun b => b = false) (take (length sources) (bw_faults w)) ->
  ∃ w' c', claim feedId force sources c w = (w', Ok c') ∧ bw_faults w' = drop (length sources) (bw_faults w).
Proof.
  induction sources as [|source sources IH]; intros c w Hf; cbn [claim]; [by eexists _, _|].
  unfold mbind at 1, B_bind at 1, getRecord.
  assert (head (bw_faults w) ≠ Some true ∧ Forall (fun b => b = false) (take (length sources) (tail (bw_faults w)))) as [Hh Ht].
  { destruct (bw_faults w) as [|b fs]; cbn in *; [by rewrite take_nil|]. by apply Forall_cons in Hf as [-> Hf]. }
  assert (drop (length (source :: sources)) (bw_faults w) = drop (length sources) (tail (bw_faults w))) as Hd.
  { destruct (bw_faults w); cbn; [by rewrite drop_nil|done]. }
  rewrite storeCall_ok by done. cbv beta iota. unfold mbind at 1, B_bind at 1, inFlightNow. rewrite Hd. destruct (_ || _); [by apply IH|].
  unfold mbind at 1, B_bind at 1, setInFlight. by apply IH.
Qed.

Lemma filter_keys_id (ks held : list string) : (∀ k, k ∈ ks -> k ∉ held) ->
  foldl (fun held k => List.filter (fun x => negb (bool_decide (x = k))) held) (held ++ ks) ks = held.
Proof.
  assert (∀ ks held : list string, foldl (fun held k => List.filter (fun x => negb (bool_decide (x = k))) held) held ks = List.filter (fun x => negb (bool_decide (x ∈ ks))) held) as Hf.
  { clear. induction ks as [|k ks IH]; intros held; cbn.
    - induction held as [|x held IH]; cbn; [done|]. rewrite bool_decide_eq_false_2 by set_solver. cbn. by f_equal.
    - rewrite IH. induction held as [|x held IHh]; cbn; [done|]. destruct (decide (x = k)) as [->|Hne].
      + rewrite bool_decide_eq_true_2 by done. cbn. rewrite IHh. by rewrite bool_decide_eq_true_2 by set_solver.
      + rewrite (bool_decide_eq_false_2 (x = k)) by done. cbn. rewrite IHh.
        rewrite (bool_decide_ext (x ∈ ks) (x ∈ k :: ks)) by set_solver. done. }
  intros Hk. rewrite Hf, List.filter_app. replace (List.filter _ ks) with (@nil string).
  2:{ symmetry. apply filter_nil_iff. intros x Hx. by rewrite bool_decide_eq_true_2. }
  rewrite app_nil_r. clear Hf. induction held as [|x held IH]; cbn; [done|]. rewrite bool_decide_eq_false_2 by (intros Hx; by apply Hk in Hx; set_solver).
  cbn. f_equal. apply IH. set_solver.
Qed.

Section Running.
Context (fetchHistory : HistoryProviders) (feedId : string) (settings : Settings) (force : bool).
#[local] Notation "'keyOf' t" := (pairKey feedId (sp_sourceId t)) (at level 10).

Definition sameInFlight (fl : list string) (w : World) : Prop := bw_inFlight w = fl.
Lemma sameInFlight_timeless fl : timeless (sameInFlight fl).
Proof. by intros ???????. Qed.
#[local] Hint Resolve sameInFlight_timeless : core.

Lemma run_inFlight fl c : keeps (sameInFlight fl) (runTargets fetchHistory feedId settings c) (fun _ => True).
Proof.
  assert (∀ A (f : World -> World * A), (∀ w, bw_inFlight (f w).1 = bw_inFlight w) -> keeps (sameInFlight fl) (storeCall f) (fun _ => True)) as Hst.
  { intros A f Hf. apply keeps_store; [done|]. intros w Hw. split; [|done]. unfold sameInFlight. by rewrite Hf. }
  unfold runTargets. apply (keeps_seq _ _ _ (fun _ => True)).
  { induction (cl_targets c) as [|t ts IH]; cbn [markAll]; [by apply keeps_mret|]. eapply keeps_seq; [by apply keeps_clock|]. intros now _.
    eapply keeps_seq; [by apply Hst|]. by intros _ _. }
  intros _ _. eapply keeps_seq; [by apply keeps_clock|]. intros now _. eapply keeps_seq; [by apply Hst|]. intros records _.
  eapply (keeps_seq _ _ _ (fun _ => True)).
  { generalize (ownSeries settings (map (fetchOne fetchHistory feedId (windowStart settings now) now) (cl_targets c))).
    induction records as [|r records IH]; intros series; cbn [peerSeries]; [by apply keeps_mret|]. destruct (_ && _); [|apply IH].
    eapply keeps_seq; [by apply Hst|]. intros samples _. apply IH. }
  intros series _. generalize (cl_reports c). induction (map _ (cl_targets c)) as [|[source result] fetched IH]; intros reports; cbn [settleAll]; [by apply keeps_mret|].
  eapply (keeps_seq _ _ _ (fun _ => True)); [|intros; apply IH].
  assert (∀ prior status error, keeps (sameInFlight fl) (fallShort feedId settings source prior status error) (fun _ => True)) as Hfs.
  { intros. unfold fallShort. eapply keeps_seq; [by apply keeps_clock|]. intros at_ _. eapply keeps_seq; [by apply Hst|]. intros; by apply keeps_mret. }
  unfold settleOne. destruct result as [samples|e]; [|apply Hfs]. destruct (enough _ _); [|apply Hfs]. unfold seed.
  destruct (computeBaseline _); [|by intros w Hw]. eapply keeps_seq; [by apply Hst|]. intros _ _. eapply keeps_seq; [by apply keeps_clock|]. intros at_ _.
  eapply keeps_seq; [by apply Hst|]. intros; by apply keeps_mret.
Qed.

(** Once a run has its claims, it gives them back however it ends. *)
Theorem claims_given_back sources w : Forall (fun b => b = false) (take (length sources) (bw_faults w)) ->
  bw_inFlight (bootstrapFeed fetchHistory feedId settings force sources w).1 = bw_inFlight w.
Proof.
  intros Hf. destruct (claim_ok feedId force sources (mkClaims [] [] []) w Hf) as (w1 & c & Ec & _).
  destruct (claim_spec feedId force (bw_inFlight w) _ _ _ _ _ Ec) as ([H1 _ H3 _ _] & _); [by apply claimed_nil|].
  unfold bootstrapFeed, mbind, B_bind. rewrite Ec. unfold finally.
  destruct (run_inFlight _ c w1 H1) as [H2 _]. unfold sameInFlight in H2.
  assert (∀ ts held, foldl (fun held t => List.filter (fun k => negb (bool_decide (k = keyOf t))) held) held ts
    = foldl (fun held k => List.filter (fun x => negb (bool_decide (x = k))) held) held (map (fun t => keyOf t) ts)) as Hfold.
  { induction ts as [|t ts IH]; intros held; cbn; [done|apply IH]. }
  destruct (runTargets _ _ _ c w1) as [w2 [reports|e]]; cbn in *; rewrite H2, Hfold; apply filter_keys_id;
    by intros k (t & -> & Ht)%list_elem_of_fmap; apply H3.
Qed.
End Running.

Section Rerun.
Context (fetchHistory : HistoryProviders) (feedId : string) (settings : Settings) (force : bool) (sources : list BootstrapSourceSpec).
Context (s : string) (r : SourceBootstrapRecord) (y : option (list HistoricalSample)).
#[local] Notation "'keyOf' t" := (pairKey feedId (sp_sourceId t)) (at level 10).
#[local] Notation "'here'" := (pairKey feedId s).

(** The source [s], warm with the record [r] and the readings [y] before, is
    warm: with what it had, or after a forced run with the baseline of a long
    enough history that was fetched for it and is now its readings. *)
Definition keptWarm (w : World) : Prop :=
  ∃ r', jm_get (bw_records w) here = Some r' ∧ sr_status r' = Warm ∧
    (sr_baseline r' = sr_baseline r ∧ sr_reputation r' = sr_reputation r ∧ jm_get (bw_readings w) here = y ∨
     force = true ∧ ∃ t from now samples b, t ∈ sources ∧ sp_sourceId t = s ∧ (fetchOne fetchHistory feedId from now t).2 = Ok samples ∧
       enough settings samples = true ∧ computeBaseline samples = Some b ∧ sr_baseline r' = Some b ∧ jm_get (bw_readings w) here = Some samples).

(** Properties of what the store has for [s]. *)
Definition local (P : World -> Prop) : Prop :=
  ∀ w w', jm_get (bw_records w') here = jm_get (bw_records w) here -> jm_get (bw_readings w') here = jm_get (bw_readings w) here -> P w -> P w'.

Lemma local_timeless P : local P -> timeless P.
Proof. intros Hl ???????. by apply Hl. Qed.
Lemma keptWarm_local : local keptWarm.
Proof. intros w w' E1 E2. unfold keptWarm. by rewrite E1, E2. Qed.
Lemma readings_local : local (fun w => jm_get (bw_readings w) here = y).
Proof. intros w w' _ E2. by rewrite E2. Qed.
#[local] Hint Resolve local_timeless keptWarm_local readings_local : core.

Lemma total_save P rec (Q : World -> Prop) : timeless P ->
  (∀ w, P w -> Q (mkWorld (jm_set (bw_records w) (pairKey (sr_feedId rec) (sr_sourceId rec)) rec) (bw_readings w) (bw_inFlight w) (bw_faults w) (bw_clock w))) ->
  total (fun w => noFaults w ∧ P w) (saveRecord rec) (fun _ w => noFaults w ∧ Q w).
Proof. intros Ht Hq. apply (total_store P _ (fun _ => Q)); [done|]. intros w Hw w' a [= <- _]. split; [by apply Hq|done]. Qed.
Lemma total_read P {A} (f : World -> A) : timeless P -> total (fun w => noFaults w ∧ P w) (storeCall (fun w => (w, f w))) (fun _ w => noFaults w ∧ P w).
Proof. intros Ht. apply (total_store P _ (fun _ => P)); [done|]. by intros w Hw w' a [= <- _]. Qed.
Lemma total_save_other P rec : local P -> pairKey (sr_feedId rec) (sr_sourceId rec) ≠ here ->
  total (fun w => noFaults w ∧ P w) (saveRecord rec) (fun _ w => noFaults w ∧ P w).
Proof. intros Hl Hne. apply total_save; [auto|]. intros w. apply Hl; cbn; [by rewrite jm_get_set_ne|done]. Qed.

Lemma enough_baseline samples : 0 < se_minSamples settings -> enough settings samples = true -> is_Some (computeBaseline samples).
Proof.
  unfold enough. intros Hm Hl%Z.leb_le. destruct samples as [|x l]; [cbn in Hl; lia|]. unfold computeBaseline.
  destruct (last (x :: l)) eqn:E; [by eexists|]. apply last_None in E. done.
Qed.

Definition ownPrior (previous : list (string * option SourceBootstrapRecord)) (t : BootstrapSourceSpec) : Prop :=
  ∀ p, default None (jm_get previous (sp_sourceId t)) = Some p -> pairKey (sr_feedId p) (sr_sourceId p) = keyOf t.

Lemma settle_other P series previous t result : 0 < se_minSamples settings -> local P -> keyOf t ≠ here -> ownPrior previous t ->
  total (fun w => noFaults w ∧ P w) (settleOne feedId settings series previous t result) (fun _ w => noFaults w ∧ P w).
Proof.
  intros Hm Hl Hne Hp.
  assert (∀ status error, total (fun w => noFaults w ∧ P w) (fallShort feedId settings t (default None (jm_get previous (sp_sourceId t))) status error) (fun _ w => noFaults w ∧ P w)) as Hfs.
  { intros status error. unfold fallShort. eapply total_bind; [apply total_clock; auto|]. intros now. apply total_last.
    apply total_save_other; [done|]. destruct (default None _) as [p|] eqn:E; [|done]. case_bool_decide; [|done]. cbn. by rewrite (Hp p E). }
  unfold settleOne. destruct result as [samples|e]; [|apply Hfs]. destruct (enough _ _) eqn:En; [|apply Hfs].
  unfold seed. destruct (enough_baseline samples Hm En) as [b ->]. apply (total_bind _ _ _ (fun _ w => noFaults w ∧ P w)).
  { apply (total_store P _ (fun _ => P)); [auto|]. intros w Hw w' a [= <- _]. split; [|done]. by apply (Hl w); cbn; [done|rewrite jm_get_set_ne|]. }
  intros _. eapply total_bind; [apply total_clock; auto|]. intros now. apply total_last.
  apply total_save_other; [done|exact Hne].
Qed.

Lemma settle_here series previous t from now : 0 < se_minSamples settings -> sp_sourceId t = s -> t ∈ sources -> force = true ->
  sr_status r = Warm -> default None (jm_get previous s) = Some r -> ownPrior previous t ->
  total (fun w => noFaults w ∧ jm_get (bw_readings w) here = y)
    (settleOne feedId settings series previous t (fetchOne fetchHistory feedId from now t).2) (fun _ w => noFaults w ∧ keptWarm w).
Proof.
  intros Hm Ht Hin Hforce Hw Hprev Hp.
  assert (∀ status error, total (fun w => noFaults w ∧ jm_get (bw_readings w) here = y) (fallShort feedId settings t (Some r) status error) (fun _ w => noFaults w ∧ keptWarm w)) as Hfs.
  { intros status error. unfold fallShort. eapply total_bind; [apply total_clock; by apply local_timeless|]. intros at_. rewrite bool_decide_eq_true_2 by done.
    apply total_last. apply total_save; [by apply local_timeless|]. intros w Hy. eexists. cbn.
    rewrite <- Ht in Hprev. rewrite (Hp r Hprev), Ht, jm_get_set_eq. split; [done|]. cbn. split; [done|]. by left. }
  unfold settleOne. rewrite Ht, Hprev. destruct (fetchOne _ _ from now t).2 as [samples|e] eqn:Ef; [|apply Hfs]. destruct (enough _ _) eqn:En; [|apply Hfs].
  unfold seed. destruct (enough_baseline samples Hm En) as [b Eb]. rewrite Eb.
  apply (total_bind _ _ _ (fun _ w => noFaults w ∧ jm_get (bw_readings w) here = Some samples)).
  { apply (total_store (fun w => jm_get (bw_readings w) here = y) _ (fun _ w => jm_get (bw_readings w) here = Some samples)); [by apply local_timeless|].
    intros w _ w' a [= <- _]. split; [|done]. cbn. by rewrite Ht, jm_get_set_eq. }
  assert (timeless (fun w => jm_get (bw_readings w) here = Some samples)) as Htl by by intros ???????.
  intros _. eapply total_bind; [by apply total_clock|]. intros at_. apply total_last. apply total_save; [done|].
  intros w Hy. eexists. cbn [bw_records bw_readings sr_feedId sr_sourceId warmRecord]. rewrite Ht, jm_get_set_eq. split; [done|]. cbn. split; [done|]. right.
  split; [done|]. by exists t, from, now, samples, b.
Qed.

(** What is known of [s] while the targets [ids] are still to be settled. *)
Definition meanwhile (ids : list string) (w : World) : Prop := if decide (s ∈ ids) then jm_get (bw_readings w) here = y else keptWarm w.
Lemma meanwhile_local ids : local (meanwhile ids).
Proof. unfold meanwhile. destruct (decide _); auto. Qed.

Definition goodTarget (previous : list (string * option SourceBootstrapRecord)) (t : BootstrapSourceSpec) : Prop :=
  t ∈ sources ∧ ownPrior previous t ∧ (sp_sourceId t = s -> force = true ∧ default None (jm_get previous s) = Some r).

Lemma settleAll_keeps series previous from now : 0 < se_minSamples settings -> sr_status r = Warm ->
  ∀ ts reports, NoDup (map sp_sourceId ts) -> Forall (goodTarget previous) ts ->
  total (fun w => noFaults w ∧ meanwhile (map sp_sourceId ts) w)
    (settleAll feedId settings series previous (map (fetchOne fetchHistory feedId from now) ts) reports)
    (fun reports' w => (noFaults w ∧ keptWarm w) ∧ ∀ x, is_Some (jm_get reports x) ∨ x ∈ map sp_sourceId ts -> is_Some (jm_get reports' x)).
Proof.
  intros Hm Hw. induction ts as [|t ts IH]; intros reports Hnd Hg.
  { cbn [map settleAll]. apply total_ret. intros w [Hn Hk]. split; [done|]. intros x [?|Hx]; [done|]. by apply elem_of_nil in Hx. }
  apply NoDup_cons in Hnd as [Hni Hnd]. apply Forall_cons in Hg as [(Hin & Hp & Hs) Hg]. cbn [map settleAll fetchOne].
  apply (total_bind _ _ _ (fun _ w => noFaults w ∧ meanwhile (map sp_sourceId ts) w)).
  - destruct (decide (sp_sourceId t = s)) as [E|Hne].
    + destruct (Hs E) as [Hf Hpr]. eapply total_weaken; [by eapply settle_here|..].
      * intros w [Hn Hk]. split; [done|]. unfold meanwhile in Hk. by rewrite decide_True in Hk by (rewrite E; apply list_elem_of_here).
      * intros _ w [Hn Hk]. split; [done|]. unfold meanwhile. by rewrite decide_False by (by rewrite <- E).
    + eapply total_weaken; [apply (settle_other (meanwhile (map sp_sourceId ts))); [done|apply meanwhile_local| |done]|..].
      * by intros ?%pairKey_inj.
      * intros w [Hn Hk]. split; [done|]. unfold meanwhile in *. destruct (decide (s ∈ map sp_sourceId ts)) as [Hi|Hi].
        -- by rewrite decide_True in Hk by (by apply list_elem_of_further).
        -- rewrite decide_False in Hk; [done|]. rewrite elem_of_cons. intros [->|?]; done.
      * done.
  - intros report. eapply total_weaken; [by apply (IH (jm_set reports (sp_sourceId t) report))|done|].
    intros reports' w [Hk Hr]. split; [done|]. intros x Hx. apply Hr. rewrite jm_get_set. destruct (decide _); [by left|].
    destruct Hx as [Hx|[->|Hx]%elem_of_cons]; [by left|done|by right].
Qed.

Lemma markAll_keeps (ids : list string) ts : (∀ t, t ∈ ts -> sp_sourceId t ∈ ids) ->
  total (fun w => noFaults w ∧ (jm_get (bw_readings w) here = y ∧ (s ∉ ids -> jm_get (bw_records w) here = Some r))) (markAll feedId settings ts)
    (fun _ w => noFaults w ∧ (jm_get (bw_readings w) here = y ∧ (s ∉ ids -> jm_get (bw_records w) here = Some r))).
Proof.
  assert (timeless (fun w => jm_get (bw_readings w) here = y ∧ (s ∉ ids -> jm_get (bw_records w) here = Some r))) as Ht by by intros ???????.
  induction ts as [|t ts IH]; intros Hts; cbn [markAll]; [by apply total_ret|]. eapply total_bind; [by apply total_clock|]. intros now.
  refine (total_bind _ _ _ _ _ _ (fun _ => IH _)); [|intros t' Ht'; by apply Hts, list_elem_of_further].
  apply total_save; [done|]. intros w [H1 H2]. cbn. split; [done|]. intros Hni. rewrite jm_get_set_ne; [by apply H2|].
  intros E%pairKey_inj. apply Hni. rewrite <- E. apply Hts, list_elem_of_here.
Qed.

Lemma peerSeries_total P records previous : timeless P -> ∀ series,
  total (fun w => noFaults w ∧ P w) (peerSeries feedId records previous series) (fun _ w => noFaults w ∧ P w).
Proof.
  intros Ht. induction records as [|x records IH]; intros series; cbn [peerSeries]; [by apply total_ret|]. destruct (_ && _); [|apply IH].
  eapply total_bind; [by apply total_read|]. intros samples. apply IH.
Qed.

Lemma runTargets_keeps c : 0 < se_minSamples settings -> sr_status r = Warm -> NoDup (map sp_sourceId (cl_targets c)) -> Forall (goodTarget (cl_previous c)) (cl_targets c) ->
  total (fun w => noFaults w ∧ (jm_get (bw_readings w) here = y ∧ jm_get (bw_records w) here = Some r)) (runTargets fetchHistory feedId settings c)
    (fun reports' w => (noFaults w ∧ keptWarm w) ∧ ∀ x, is_Some (jm_get (cl_reports c) x) ∨ x ∈ map sp_sourceId (cl_targets c) -> is_Some (jm_get reports' x)).
Proof.
  intros Hm Hw Hnd Hg. unfold runTargets. eapply total_bind.
  { eapply total_weaken; [apply (markAll_keeps (map sp_sourceId (cl_targets c)))| |exact (fun _ _ H => H)].
    - intros t Ht. by apply list_elem_of_fmap_2.
    - naive_solver. }
  intros ?. eapply total_bind.
  { eapply (total_weaken _ _ _ _ (fun _ w => noFaults w ∧ meanwhile (map sp_sourceId (cl_targets c)) w));
      [apply (total_clock (meanwhile (map sp_sourceId (cl_targets c)))); apply local_timeless, meanwhile_local| |done].
    intros w (Hn & H1 & H2). split; [done|]. unfold meanwhile. destruct (decide _) as [|Hi]; [done|]. exists r. split; [by apply H2|]. split; [done|]. by left. }
  intros now. eapply total_bind; [apply total_read, local_timeless, meanwhile_local|]. intros records.
  eapply total_bind; [apply peerSeries_total, local_timeless, meanwhile_local|]. intros series. by apply settleAll_keeps.
Qed.

End Rerun.

(** C29: Without store failures, a warm source stays warm through a run of its
    feed.  It keeps its baseline, reputation and readings, or the run is forced
    and they are those of a long enough history fetched for it; and every
    source of the run gets a report. *)
Theorem warm_source_survives_rerun fetchHistory feedId settings force sources w s r :
  wfWorld w -> noFaults w -> 0 < se_minSamples settings ->
  jm_get (bw_records w) (pairKey feedId s) = Some r -> sr_status r = Warm ->
  ∃ w' reports, bootstrapFeed fetchHistory feedId settings force sources w = (w', Ok reports) ∧ Forall is_Some reports ∧
    keptWarm fetchHistory feedId settings force sources s r (jm_get (bw_readings w) (pairKey feedId s)) w'.
Proof.
  intros Hwf Hn Hm Hr Hs.
  destruct (claim_ok feedId force sources (mkClaims [] [] []) w) as (w1 & c & Ec & Ef); [by apply Forall_take|].
  destruct (claim_spec feedId force (bw_inFlight w) _ _ _ _ _ Ec) as (Hc & E1 & E2 & Hin & Hrep); [by apply claimed_nil|].
  assert (Forall (goodTarget feedId force sources s r (cl_previous c)) (cl_targets c)) as Hg.
  { apply Forall_forall. intros t Ht. pose proof (cd_previous _ _ _ _ _ Hc t Ht) as Hp. pose proof (cd_forced _ _ _ _ _ Hc t Ht) as Hf. rewrite E1 in Hp, Hf.
    destruct (Hin t Ht) as [Hnil|Hsrc]; [by apply elem_of_nil in Hnil|]. split; [done|]. split.
    - intros p. rewrite Hp. cbn. intros Hq. by apply (wfWorld_get _ _ _ Hwf) in Hq as [<- _].
    - intros Hid. rewrite Hid, Hr in Hp, Hf. rewrite Hp. split; [|done]. apply Hf. cbn. by rewrite Hs. }
  destruct (runTargets_keeps fetchHistory feedId settings force sources s r (jm_get (bw_readings w) (pairKey feedId s)) c Hm Hs (cd_nodup _ _ _ _ _ Hc) Hg w1)
    as (w2 & reports & Erun & [Hn2 Hk] & Hall).
  { split; [|by rewrite E1, E2]. unfold noFaults. rewrite Ef. by apply Forall_drop. }
  unfold bootstrapFeed, mbind, B_bind. rewrite Ec. unfold finally. rewrite Erun. eexists _, _. split; [reflexivity|]. split.
  - apply Forall_forall. intros o (t & -> & Ht)%list_elem_of_fmap. apply Hall.
    destruct (Hrep (sp_sourceId t)) as [?|?]; [right; by apply list_elem_of_fmap_2|by right|by left].
  - by eapply (keptWarm_local _ _ _ _ _ _ _ _ w2).
Qed.

(** * Examples *)

Definition exampleSettings : Settings := mkSettings 10000 1000 2 DEFAULT_toleranceBps None.
Definition exampleSpec (sourceId : string) : BootstrapSourceSpec := mkSpec sourceId "x" [].
Definition exampleSamples (v : num) : list HistoricalSample := [mkHS 1000000 v; mkHS 1001000 v; mkHS 1002000 v].
Definition exampleBaseline : SourceBaseline := mkBaseline 3 1000000 1002000 5 0 5 0 5 5 5 5.
Definition exampleWarm : SourceBootstrapRecord :=
  mkRecord "f" "a" "x" Warm (Some exampleBaseline) (Some 0.5%float) (Some 1%float) None 0 10000 1000 None None 7.
Definition exampleWorld (faults : list bool) : World :=
  mkWorld [(pairKey "f" "a", exampleWarm)] [(pairKey "f" "a", exampleSamples 5)] [] faults [1003000; 1003000; 1003000; 1003000; 1003000; 1003000].
Definition failingProvider : HistoryProviders := fun _ => Some (fun _ _ _ _ _ => Err "timeout"%string).
Definition steadyProvider : HistoryProviders := fun _ => Some (fun _ _ _ _ _ => Ok (exampleSamples 5)).

(** Two sources that agree: both warm, corroborated in three buckets, with the
    capped reputation; the first scores a reading by its flat history. *)
Lemma bootstrap_example :
  let run := bootstrapFeed steadyProvider "f" exampleSettings true [exampleSpec "a"; exampleSpec "b"] (exampleWorld []) in
  match run with
  | (w, Ok reports) =>
      map (fun o => rp_status <$> o) reports = [Some Warm; Some Warm] ∧
      map (fun o => o ≫= rp_corroboration) reports = [Some 1%float; Some 1%float] ∧ bw_inFlight w = [] ∧
      match (assess "f" "b" 5.5%float DEFAULT_anomalyThreshold w).2 with Ok (Ready _ anomalous b) => anomalous = true ∧ sb_median b = 5%float | _ => False end
  | _ => False
  end.
Proof. vm_compute. done. Qed.

Lemma warm_source_survives_rerun_witness :
  ∃ w' reports, bootstrapFeed failingProvider "f" exampleSettings true [exampleSpec "a"; exampleSpec "b"] (exampleWorld []) = (w', Ok reports) ∧
    Forall is_Some reports ∧
    keptWarm failingProvider "f" exampleSettings true [exampleSpec "a"; exampleSpec "b"] "a" exampleWarm (Some (exampleSamples 5)) w'.
Proof.
  apply (warm_source_survives_rerun failingProvider "f" exampleSettings true [exampleSpec "a"; exampleSpec "b"] (exampleWorld []) "a" exampleWarm).
  - repeat constructor. cbn. lia.
  - constructor.
  - reflexivity.
  - reflexivity.
  - reflexivity.
Defined.

(** A store call that fails after the sources were marked loses the baseline
    of a warm source. *)
Lemma store_failure_loses_baseline :
  let '(w, result) := bootstrapFeed steadyProvider "f" exampleSettings true [exampleSpec "a"] (exampleWorld [false; false; true]) in
  is_ok result = false ∧ (sr_status <$> jm_get (bw_records w) (pairKey "f" "a")) = Some Bootstrapping ∧
  (jm_get (bw_records w) (pairKey "f" "a") ≫= sr_baseline) = None.
Proof. vm_compute. done. Qed.

(** A failure among the claims leaves the earlier ones in flight, and later
    runs skip them. *)
Lemma failed_claim_stays_in_flight :
  let '(w, result) := bootstrapFeed steadyProvider "f" exampleSettings true [exampleSpec "a"; exampleSpec "b"] (exampleWorld [false; true]) in
  is_ok result = false ∧ bw_inFlight w = [pairKey "f" "a"] ∧
  match (bootstrapFeed steadyProvider "f" exampleSettings true [exampleSpec "a"] w).2 with
  | Ok [Some report] => rp_skipped report = true
  | _ => False
  end.
Proof. vm_compute. done. Qed.

(** * Corroboration counts *)

Lemma compareBucket_counts peerBuckets tol own : ∀ c, 0 <= c.2 <= c.1 ->
  let c' := foldl (compareBucket peerBuckets tol) c own in
  0 <= c'.2 <= c'.1 ∧ c'.1 = c.1 + Z.of_nat (length (List.filter (fun o => match nm_get peerBuckets o.1 with Some (_ :: _) => true | _ => false end) own)).
Proof.
  induction own as [|o own IH]; intros c Hc; cbn [foldl List.filter]; [cbn; lia|]. destruct (IH (compareBucket peerBuckets tol c o)) as [H1 H2].
  { unfold compareBucket. destruct (nm_get _ _) as [[|p ps]|]; cbn [fst snd]; [lia| |lia]. destruct (nle _ _); lia. }
  split; [done|]. cbn zeta. rewrite H2. unfold compareBucket. destruct (nm_get peerBuckets o.1) as [[|p ps]|]; cbn [fst length]; lia.
Qed.

(** There is a rate exactly if some bucket of the source has a peer, it is
    over all such buckets, and at most all of them agree. *)
Theorem corroboration_over_shared_buckets source peers bucketMs tol :
  0 < bucketMs -> peers ≠ [] ->
  let shared := List.filter (fun o => match nm_get (peerBucketsOf bucketMs peers) o.1 with Some (_ :: _) => true | _ => false end) (latestByBucket bucketMs source) in
  match corroborationRate source peers bucketMs tol with
  | None => shared = []
  | Some c => co_comparedBuckets c = Z.of_nat (length shared) ∧ shared ≠ [] ∧
              ∃ agreed, 0 <= agreed <= co_comparedBuckets c ∧ co_rate c = (num_of_Z agreed / num_of_Z (co_comparedBuckets c))%float
  end.
Proof.
  intros Hb Hp shared. unfold corroborationRate. rewrite (proj2 (Z.leb_gt _ _)) by lia. rewrite bool_decide_eq_false_2 by (by destruct peers).
  cbn [orb]. destruct (compareBucket_counts (peerBucketsOf bucketMs peers) tol (latestByBucket bucketMs source) (0, 0)) as [H1 H2]; [cbn; lia|].
  fold shared in H2. clearbody shared. destruct (foldl _ _ _) as [compared agreed]. cbn in H1, H2. rewrite Z.add_0_l in H2. subst compared.
  destruct (Z.eqb_spec (Z.of_nat (length shared)) 0) as [E|E].
  - destruct shared; [done|]. cbn in E. lia.
  - cbn. split; [done|]. split; [by intros ->|]. exists agreed. done.
Qed.
