(* ===== verification/Egress.v ===== *)
(** What an oracle adapter may contact (src/oracle/http/egress-policy.ts): the
    deny-list of addresses and the allow-list of hosts. *)

From stdpp Require Import base list strings sets.
From Stdlib Require Import ZArith Lia Ascii Floats.
From S2P Require Import Prelude Decimal JsNum JsParse Canonical.

#[local] Open Scope Z_scope.

(** [s.split(c)] on one character. *)
Fixpoint splitOn (c : ascii) (s : text) : list text :=
  match s with
  | [] => [[]]
  | x :: s => match splitOn c s with
              | p :: ps => if bool_decide (x = c) then [] :: p :: ps else (x :: p) :: ps
              | [] => [[x]]
              end
  end.

(** * Blocked IPv4 addresses *)

Definition badOctet (p : num) : bool := PrimFloat.is_nan p || nlt p 0%float || ngt p 255%float.

Definition sensitive (a b c : num) : bool :=
  neq a 0%float || neq a 10%float || (neq a 100%float && nge b 64%float && nle b 127%float) || neq a 127%float ||
  (neq a 169%float && neq b 254%float) || (neq a 172%float && nge b 16%float && nle b 31%float) ||
  (neq a 192%float && neq b 0%float && neq c 0%float) || (neq a 192%float && neq b 168%float) ||
  (neq a 198%float && (neq b 18%float || neq b 19%float)) || (neq a 198%float && neq b 51%float && neq c 100%float) ||
  (neq a 203%float && neq b 0%float && neq c 113%float) || nge a 224%float.

Definition blockedIPv4 (addr : text) : bool :=
  match map numberOfText (splitOn "." addr) with
  | [a; b; c; d] => if existsb badOctet [a; b; c; d] then true else sensitive a b c
  | _ => true
  end.
Definition isBlockedIPv4 (addr : string) : bool := blockedIPv4 (String.list_ascii_of_string addr).

(** * Blocked IPv6 addresses *)

Definition lowerChar (c : ascii) : ascii :=
  let n := nat_of_ascii c in if ((65 <=? n) && (n <=? 90))%nat then ascii_of_nat (n + 32) else c.
Definition hexLower (c : ascii) : bool :=
  let n := nat_of_ascii c in ((48 <=? n) && (n <=? 57) || (97 <=? n) && (n <=? 102))%nat.

(** What follows a prefix. *)
Fixpoint after (p s : text) : option text :=
  match p, s with
  | [], _ => Some s
  | a :: p, b :: s => if bool_decide (a = b) then after p s else None
  | _ :: _, [] => None
  end.
Definition startsWith (p : string) (s : text) : bool := bool_decide (is_Some (after (String.list_ascii_of_string p) s)).
Definition mappedPrefix : text := String.list_ascii_of_string "::ffff:".

Definition clean (addr : text) : text := map lowerChar (default [] (head (splitOn "%" addr))).

(** [/^::ffff:(\d+\.\d+\.\d+\.\d+)$/] *)
Definition v4mapped (s : text) : option text :=
  r ← after mappedPrefix s;
  match splitOn "." r with
  | [a; b; c; d] => if forallb (fun p => negb (bool_decide (p = [])) && all_digits p) [a; b; c; d] then Some r else None
  | _ => None
  end.

(** [/^::ffff:([0-9a-f]{1,4}):([0-9a-f]{1,4})$/], with the groups read in base 16. *)
Definition hexGroup (p : text) : bool := (1 <=? length p)%nat && (length p <=? 4)%nat && forallb hexLower p.
Definition v4mappedHex (s : text) : option (Z * Z) :=
  r ← after mappedPrefix s;
  match splitOn ":" r with
  | [hi; lo] => if hexGroup hi && hexGroup lo then hi ← radix_val 16 0 hi; lo ← radix_val 16 0 lo; Some (hi, lo) else None
  | _ => None
  end.

Definition dotted (a b c d : Z) : text := z_text a ++ "."%char :: z_text b ++ "."%char :: z_text c ++ "."%char :: z_text d.

(** [/^f[cd]/] and [/^fe[89ab]/] *)
Definition uniqueLocal (s : text) : bool := match s with f :: c :: _ => bool_decide (f = "f"%char) && bool_decide (c ∈ ["c"; "d"]%char) | _ => false end.
Definition linkLocal (s : text) : bool :=
  match s with f :: e :: c :: _ => bool_decide (f = "f"%char) && bool_decide (e = "e"%char) && bool_decide (c ∈ ["8"; "9"; "a"; "b"]%char) | _ => false end.

Definition blockedIPv6 (addr : text) : bool :=
  let s := clean addr in
  if bool_decide (s = String.list_ascii_of_string "::1") then true
  else match v4mapped s with
       | Some v4 => blockedIPv4 v4
       | None =>
           match v4mappedHex s with
           | Some (hi, lo) =>
               blockedIPv4 (dotted (Z.land (Z.shiftr hi 8) 255) (Z.land hi 255) (Z.land (Z.shiftr lo 8) 255) (Z.land lo 255))
           | None => uniqueLocal s || linkLocal s || startsWith "64:ff9b:" s || startsWith "100::" s || startsWith "2001:db8:" s
           end
       end.
Definition isBlockedIPv6 (addr : string) : bool := blockedIPv6 (String.list_ascii_of_string addr).

(** * Policies *)

Record AdapterEgressPolicy := mkPolicy {
  ep_allowedHosts : list string; ep_allowedPathPrefixes : option (list (string * list string)); ep_allowedSchemes : option (list string);
  ep_maxRedirects : option Z; ep_maxBodyBytes : option Z; ep_acceptedContentTypes : option (list string) }.

Definition DEFAULT_MAX_REDIRECTS : Z := 3.
Definition DEFAULT_MAX_BODY_BYTES : Z := 1 * 1024 * 1024.
Definition DEFAULT_ALLOWED_SCHEMES : list string := ["https"]%string.
Definition DEFAULT_ACCEPTED_CONTENT_TYPES : list string := ["application/json"]%string.

Definition normaliseHostname (raw : string) : res string string :=
  let trimmed := map lowerChar (trim (String.list_ascii_of_string raw)) in
  if bool_decide (trimmed = []) || bool_decide ("/"%char ∈ trimmed) || bool_decide ("@"%char ∈ trimmed)
  then Err ("Invalid hostname in allowlist: " +:+ String quoteChar (raw +:+ String quoteChar ""))
  else Ok (String.string_of_list_ascii trimmed).

Definition validateEgressPolicy (p : AdapterEgressPolicy) : res string AdapterEgressPolicy :=
  hosts ← collect normaliseHostname (ep_allowedHosts p);
  Ok (mkPolicy hosts (ep_allowedPathPrefixes p) (Some (default DEFAULT_ALLOWED_SCHEMES (ep_allowedSchemes p)))
        (Some (default DEFAULT_MAX_REDIRECTS (ep_maxRedirects p))) (Some (default DEFAULT_MAX_BODY_BYTES (ep_maxBodyBytes p)))
        (Some (default DEFAULT_ACCEPTED_CONTENT_TYPES (ep_acceptedContentTypes p)))).

(** * The ranges *)

(** A range of the documentation of [isBlockedIPv4]: base address and prefix
    length; and whether a 32-bit address is in it. *)
Definition BLOCKED_RANGES : list ((Z * Z * Z * Z) * Z) :=
  [((0, 0, 0, 0), 8); ((10, 0, 0, 0), 8); ((100, 64, 0, 0), 10); ((127, 0, 0, 0), 8); ((169, 254, 0, 0), 16); ((172, 16, 0, 0), 12);
   ((192, 0, 0, 0), 24); ((192, 168, 0, 0), 16); ((198, 18, 0, 0), 15); ((198, 51, 100, 0), 24); ((203, 0, 113, 0), 24);
   ((224, 0, 0, 0), 4); ((240, 0, 0, 0), 4); ((255, 255, 255, 255), 32)].
Definition word32 (o : Z * Z * Z * Z) : Z := let '(a, b, c, d) := o in Z.shiftl a 24 + Z.shiftl b 16 + Z.shiftl c 8 + d.
Definition inRange (ip : Z) (r : (Z * Z * Z * Z) * Z) : bool := Z.shiftr ip (32 - r.2) =? Z.shiftr (word32 r.1) (32 - r.2).
Definition octet (a : Z) : Prop := 0 <= a <= 255.

Lemma splitOn_nil c s : c ∉ s -> splitOn c s = [s].
Proof.
  induction s as [|x s IH]; [done|]. rewrite not_elem_of_cons. intros [Hx Hs]. cbn. rewrite IH by done. by rewrite bool_decide_eq_false_2.
Qed.
Lemma splitOn_cons c p s : c ∉ p -> splitOn c (p ++ c :: s) = p :: splitOn c s.
Proof.
  induction p as [|x p IH]; cbn.
  - intros _. destruct (splitOn c s) eqn:E; [|by rewrite bool_decide_eq_true_2]. destruct s; [done|]. cbn in E. destruct (splitOn c s); [done|]. by destruct (bool_decide _).
  - rewrite not_elem_of_cons. intros [Hx Hp]. rewrite IH by done. by rewrite bool_decide_eq_false_2.
Qed.

Definition octets : list Z := map Z.of_nat (seq 0 256).
Lemma octets_all (P : Z -> bool) a : forallb P octets = true -> octet a -> P a = true.
Proof.
  intros Hp Ha. rewrite forallb_forall in Hp. apply Hp. apply in_map_iff. exists (Z.to_nat a). unfold octet in Ha. split; [lia|]. apply in_seq. lia.
Qed.

(** Reading an octet back, and the tests on it, agree with the integer. *)
Lemma octet_number a : octet a -> numberOfText (z_text a) = num_of_Z a ∧ badOctet (num_of_Z a) = false.
Proof.
  intros Ha. pose (P a := PrimFloat.Leibniz.eqb (numberOfText (z_text a)) (num_of_Z a) && negb (badOctet (num_of_Z a))).
  assert (P a = true) as Hp by (by apply octets_all; [vm_compute|]). unfold P in Hp. apply andb_true_iff in Hp as [H1%Leibniz.eqb_spec H2%negb_true_iff].
  done.
Qed.
Lemma octet_tests a k : octet a -> octet k ->
  neq (num_of_Z a) (num_of_Z k) = (a =? k) ∧ nge (num_of_Z a) (num_of_Z k) = (k <=? a) ∧ nle (num_of_Z a) (num_of_Z k) = (a <=? k).
Proof.
  intros Ha Hk. pose (P a := forallb (fun k => Bool.eqb (neq (num_of_Z a) (num_of_Z k)) (a =? k) && Bool.eqb (nge (num_of_Z a) (num_of_Z k)) (k <=? a)
    && Bool.eqb (nle (num_of_Z a) (num_of_Z k)) (a <=? k)) octets).
  assert (P a = true) as Hp by (by apply octets_all; [vm_compute|]). apply (octets_all _ k) in Hp; [|done].
  by apply andb_true_iff in Hp as [[H1%eqb_prop H2%eqb_prop]%andb_true_iff H3%eqb_prop].
Qed.

(** Turns the tests of octets against literals into tests of integers. *)
Ltac octet_tests_to_Z :=
  let as_Z f := match eval vm_compute in (floor_to_Z f) with Some ?k => k end in
  let to_Z t a f := let k := as_Z f in change f with (num_of_Z k); destruct (octet_tests a k) as (E1 & E2 & E3); [done|unfold octet; lia|];
                    rewrite ?E1, ?E2, ?E3; clear E1 E2 E3 in
  repeat match goal with
  | |- context [neq (num_of_Z ?a) ?f] => to_Z neq a f
  | |- context [nge (num_of_Z ?a) ?f] => to_Z nge a f
  | |- context [nle (num_of_Z ?a) ?f] => to_Z nle a f
  end.

Definition sensitiveZ (a b c : Z) : bool :=
  (a =? 0) || (a =? 10) || ((a =? 100) && (64 <=? b) && (b <=? 127)) || (a =? 127) || ((a =? 169) && (b =? 254)) ||
  ((a =? 172) && (16 <=? b) && (b <=? 31)) || ((a =? 192) && (b =? 0) && (c =? 0)) || ((a =? 192) && (b =? 168)) ||
  ((a =? 198) && ((b =? 18) || (b =? 19))) || ((a =? 198) && (b =? 51) && (c =? 100)) || ((a =? 203) && (b =? 0) && (c =? 113)) || (224 <=? a).

Lemma sensitive_octets a b c : octet a -> octet b -> octet c -> sensitive (num_of_Z a) (num_of_Z b) (num_of_Z c) = sensitiveZ a b c.
Proof. intros Ha Hb Hc. unfold sensitive, sensitiveZ. octet_tests_to_Z. reflexivity. Qed.

(** An address is in a range when its leading bits are those of the base. *)
Lemma inRange_div a b c d r : octet a -> octet b -> octet c -> octet d -> 0 <= r.2 <= 32 ->
  inRange (word32 (a, b, c, d)) r = ((a * 2 ^ 24 + b * 2 ^ 16 + c * 2 ^ 8 + d) / 2 ^ (32 - r.2) =? Z.shiftr (word32 r.1) (32 - r.2)).
Proof. intros. unfold inRange, word32. rewrite Z.shiftr_div_pow2 by lia. by rewrite !Z.shiftl_mul_pow2 by lia. Qed.


Ltac range_to_octets :=
  intros; rewrite inRange_div by (done || (cbn; lia)); cbn [fst snd];
  match goal with |- (_ / ?p =? ?s) = _ => let s' := eval vm_compute in s in let p' := eval vm_compute in p in change s with s'; change p with p' end;
  apply eq_true_iff_eq; rewrite ?andb_true_iff, ?orb_true_iff, ?Z.eqb_eq, ?Z.leb_le; unfold octet in *; Z.to_euclidean_division_equations; lia.

Section Ranges.
Context (a b c d : Z) (Ha : octet a) (Hb : octet b) (Hc : octet c) (Hd : octet d).
#[local] Notation "'within' r" := (inRange (word32 (a, b, c, d)) r) (at level 10).

Lemma range_8 x : octet x -> within ((x, 0, 0, 0), 8) = (a =? x).
Proof.
  intros Hx. rewrite inRange_div by (done || (cbn; lia)). cbn [fst snd]. unfold word32. rewrite Z.shiftr_div_pow2, !Z.shiftl_mul_pow2 by lia.
  change (2 ^ (32 - 8)) with 16777216. apply eq_true_iff_eq. rewrite !Z.eqb_eq. unfold octet in *. Z.to_euclidean_division_equations. lia.
Qed.
Lemma range_16 x y : octet x -> octet y -> within ((x, y, 0, 0), 16) = (a =? x) && (b =? y).
Proof.
  intros Hx Hy. rewrite inRange_div by (done || (cbn; lia)). cbn [fst snd]. unfold word32. rewrite Z.shiftr_div_pow2, !Z.shiftl_mul_pow2 by lia.
  change (2 ^ (32 - 16)) with 65536. apply eq_true_iff_eq. rewrite andb_true_iff, !Z.eqb_eq. unfold octet in *. Z.to_euclidean_division_equations. lia.
Qed.
Lemma range_24 x y z : octet x -> octet y -> octet z -> within ((x, y, z, 0), 24) = (a =? x) && (b =? y) && (c =? z).
Proof.
  intros Hx Hy Hz. rewrite inRange_div by (done || (cbn; lia)). cbn [fst snd]. unfold word32. rewrite Z.shiftr_div_pow2, !Z.shiftl_mul_pow2 by lia.
  change (2 ^ (32 - 24)) with 256. apply eq_true_iff_eq. rewrite !andb_true_iff, !Z.eqb_eq. unfold octet in *. Z.to_euclidean_division_equations. lia.
Qed.
Lemma range_shared : within ((100, 64, 0, 0), 10) = (a =? 100) && (64 <=? b) && (b <=? 127).
Proof. range_to_octets. Qed.
Lemma range_private : within ((172, 16, 0, 0), 12) = (a =? 172) && (16 <=? b) && (b <=? 31).
Proof. range_to_octets. Qed.
Lemma range_benchmark : within ((198, 18, 0, 0), 15) = (a =? 198) && ((b =? 18) || (b =? 19)).
Proof. range_to_octets. Qed.
Lemma range_multicast : within ((224, 0, 0, 0), 4) = (224 <=? a) && (a <=? 239).
Proof. range_to_octets. Qed.
Lemma range_reserved : within ((240, 0, 0, 0), 4) = (240 <=? a).
Proof. range_to_octets. Qed.
Lemma range_broadcast : within ((255, 255, 255, 255), 32) = (a =? 255) && (b =? 255) && (c =? 255) && (d =? 255).
Proof. range_to_octets. Qed.

Lemma sensitive_ranges : sensitiveZ a b c = existsb (inRange (word32 (a, b, c, d))) BLOCKED_RANGES.
Proof.
  unfold BLOCKED_RANGES. cbn [existsb]. rewrite !range_8, !range_16, !range_24, range_shared, range_private, range_benchmark, range_multicast, range_reserved, range_broadcast
    by (unfold octet; lia).
  assert ((224 <=? a) = (224 <=? a) && (a <=? 239) || ((240 <=? a) || (a =? 255) && (b =? 255) && (c =? 255) && (d =? 255) || false)) as Hhigh.
  { apply eq_true_iff_eq. rewrite ?orb_true_iff, ?andb_true_iff, ?Z.eqb_eq, ?Z.leb_le. unfold octet in *. lia. }
  unfold sensitiveZ. rewrite Hhigh at 1. by rewrite <- !orb_assoc.
Qed.
End Ranges.

Lemma z_text_octet a : octet a -> all_digits (z_text a) = true ∧ z_text a ≠ [].
Proof. intros Ha. rewrite z_text_nonneg by (unfold octet in Ha; lia). destruct (nat_text_spec a) as (H1 & H2 & _); [unfold octet in Ha; lia|done]. Qed.
Lemma digits_lack (x : ascii) s : is_digit x = false -> all_digits s = true -> x ∉ s.
Proof. unfold all_digits. rewrite forallb_forall. intros Hx Hs Hin. apply list_elem_of_In in Hin. apply Hs in Hin. congruence. Qed.

Lemma splitOn_dotted a b c d : octet a -> octet b -> octet c -> octet d -> splitOn "." (dotted a b c d) = [z_text a; z_text b; z_text c; z_text d].
Proof.
  intros Ha Hb Hc Hd. unfold dotted. assert (∀ x, octet x -> "."%char ∉ z_text x) as Hn by (intros x [Hx _]%z_text_octet; by apply digits_lack).
  rewrite !splitOn_cons, splitOn_nil by auto. done.
Qed.

Lemma after_mapped s : after mappedPrefix (mappedPrefix ++ s) = Some s.
Proof. done. Qed.

Definition plain (x : ascii) : Prop := x ≠ "%"%char ∧ lowerChar x = x.
Lemma clean_plain s : Forall plain s -> clean s = s.
Proof.
  intros Hs. unfold clean. rewrite splitOn_nil. 2:{ intros Hin. rewrite Forall_forall in Hs. by destruct (Hs _ Hin). }
  cbn. induction Hs as [|x s [_ Hx] Hs IH]; cbn; [done|]. by rewrite Hx, IH.
Qed.
Lemma plain_digit x : is_digit x = true -> plain x.
Proof. destruct x as [[] [] [] [] [] [] [] []]; vm_compute; try done. Qed.
Lemma plain_dotted a b c d : octet a -> octet b -> octet c -> octet d -> Forall plain (dotted a b c d).
Proof.
  assert (∀ x, octet x -> Forall plain (z_text x)) as Hz.
  { intros x [Hx _]%z_text_octet. unfold all_digits in Hx. rewrite forallb_forall in Hx. apply Forall_forall. intros y Hy. apply plain_digit, Hx.
    by apply list_elem_of_In. }
  intros. unfold dotted. repeat (apply Forall_app; split; [by apply Hz|]; apply Forall_cons; split; [done|]). by apply Hz.
Qed.
Lemma clean_mapped a b c d : octet a -> octet b -> octet c -> octet d -> clean (mappedPrefix ++ dotted a b c d) = mappedPrefix ++ dotted a b c d.
Proof. intros. apply clean_plain. apply Forall_app. split; [|by apply plain_dotted]. repeat (apply Forall_cons; split; [done|]). apply Forall_nil_2. Qed.

(** The hexadecimal text of a 16-bit group, without leading zeros. *)
Definition hexText (n : Z) : text :=
  let d k := hexDigit (Z.to_nat (Z.land (Z.shiftr n (4 * k)) 15)) in
  if n <? 16 then [d 0] else if n <? 256 then [d 1; d 0] else if n <? 4096 then [d 2; d 1; d 0] else [d 3; d 2; d 1; d 0].

Definition plainb (x : ascii) : bool := negb (bool_decide (x = "%"%char)) && bool_decide (lowerChar x = x).
Definition goodGroup (n : Z) : bool :=
  let s := hexText n in
  hexGroup s && bool_decide (radix_val 16 0 s = Some n) && negb (bool_decide (":"%char ∈ s)) && negb (bool_decide ("."%char ∈ s)) && forallb plainb s.
Lemma goodGroup_all a b : octet a -> octet b -> goodGroup (a * 256 + b) = true.
Proof.
  intros Ha Hb. pose (P a := forallb (fun b => goodGroup (a * 256 + b)) octets).
  assert (P a = true) as Hp by (by apply octets_all; [vm_compute|]). by apply (octets_all _ b) in Hp.
Qed.
Lemma group_spec a b : octet a -> octet b -> let s := hexText (a * 256 + b) in
  hexGroup s = true ∧ radix_val 16 0 s = Some (a * 256 + b) ∧ (":"%char ∉ s) ∧ ("."%char ∉ s) ∧ Forall plain s.
Proof.
  intros Ha Hb. pose proof (goodGroup_all a b Ha Hb) as H. unfold goodGroup in H. rewrite !andb_true_iff, !negb_true_iff in H.
  destruct H as [[[[H1 H2%bool_decide_eq_true] H3%bool_decide_eq_false] H4%bool_decide_eq_false] H5]. split_and!; [done..|].
  rewrite forallb_forall in H5. apply Forall_forall. intros x Hx. apply list_elem_of_In, H5, andb_true_iff in Hx as [Hx1 Hx2%bool_decide_eq_true].
  by apply negb_true_iff, bool_decide_eq_false in Hx1.
Qed.
Lemma group_octets a b : octet a -> octet b -> Z.land (Z.shiftr (a * 256 + b) 8) 255 = a ∧ Z.land (a * 256 + b) 255 = b.
Proof.
  unfold octet. intros Ha Hb. change 255 with (Z.ones 8). rewrite !Z.land_ones, Z.shiftr_div_pow2 by lia. change (2 ^ 8) with 256.
  Z.to_euclidean_division_equations. lia.
Qed.

Lemma blocked_mapped_hex a b c d : octet a -> octet b -> octet c -> octet d ->
  blockedIPv6 (mappedPrefix ++ hexText (a * 256 + b) ++ ":"%char :: hexText (c * 256 + d)) = blockedIPv4 (dotted a b c d).
Proof.
  intros Ha Hb Hc Hd. destruct (group_spec a b Ha Hb) as (G1 & V1 & C1 & D1 & P1), (group_spec c d Hc Hd) as (G2 & V2 & C2 & D2 & P2).
  unfold blockedIPv6. rewrite clean_plain.
  2:{ apply Forall_app. split; [repeat (apply Forall_cons; split; [done|]); apply Forall_nil_2|]. apply Forall_app. split; [done|]. by apply Forall_cons. }
  rewrite bool_decide_eq_false_2 by done. unfold v4mapped, v4mappedHex. rewrite after_mapped. cbn [mbind option_bind].
  rewrite (splitOn_nil ".") by set_solver. rewrite splitOn_cons, splitOn_nil by done. rewrite G1, G2, V1, V2. cbn [andb mbind option_bind].
  destruct (group_octets a b Ha Hb) as [-> ->], (group_octets c d Hc Hd) as [-> ->]. done.
Qed.

(** C28: On the dotted text of an address, [isBlockedIPv4] answers whether the
    32-bit address lies in one of the documented ranges; an IPv4-mapped IPv6
    address is blocked exactly if the address it carries is, in its dotted and
    in its hexadecimal form. *)
Theorem blocked_iff_in_ranges a b c d :
  octet a -> octet b -> octet c -> octet d ->
  blockedIPv4 (dotted a b c d) = existsb (inRange (word32 (a, b, c, d))) BLOCKED_RANGES ∧
  blockedIPv6 (mappedPrefix ++ dotted a b c d) = existsb (inRange (word32 (a, b, c, d))) BLOCKED_RANGES ∧
  blockedIPv6 (mappedPrefix ++ hexText (a * 256 + b) ++ ":"%char :: hexText (c * 256 + d)) = existsb (inRange (word32 (a, b, c, d))) BLOCKED_RANGES.
Proof.
  intros Ha Hb Hc Hd. assert (blockedIPv4 (dotted a b c d) = existsb (inRange (word32 (a, b, c, d))) BLOCKED_RANGES) as H4.
  { unfold blockedIPv4. rewrite splitOn_dotted by done. cbn [map].
    destruct (octet_number a Ha) as [-> Ea], (octet_number b Hb) as [-> Eb], (octet_number c Hc) as [-> Ec], (octet_number d Hd) as [-> Ed].
    cbn [existsb]. rewrite Ea, Eb, Ec, Ed. cbn [orb]. rewrite sensitive_octets by done. by apply sensitive_ranges. }
  rewrite <- H4. split; [done|]. split; [|by apply blocked_mapped_hex]. unfold blockedIPv6. rewrite clean_mapped by done. rewrite bool_decide_eq_false_2 by done.
  unfold v4mapped. rewrite after_mapped. cbn [mbind option_bind]. rewrite splitOn_dotted by done.
  assert (∀ x, octet x -> negb (bool_decide (z_text x = [])) && all_digits (z_text x) = true) as Hx.
  { intros x [H1 H2]%z_text_octet. rewrite H1. by rewrite bool_decide_eq_false_2. }
  cbn [forallb]. by rewrite !Hx.
Qed.

Lemma blocked_iff_in_ranges_witness :
  isBlockedIPv4 "169.254.169.254" = existsb (inRange (word32 (169, 254, 169, 254))) BLOCKED_RANGES ∧
  isBlockedIPv4 "8.8.8.8" = existsb (inRange (word32 (8, 8, 8, 8))) BLOCKED_RANGES.
Proof. split; [apply (blocked_iff_in_ranges 169 254 169 254)|apply (blocked_iff_in_ranges 8 8 8 8)]; unfold octet; lia. Defined.

(** A zone identifier does not matter. *)
Lemma zone_ignored s zone : "%"%char ∉ s -> blockedIPv6 (s ++ "%"%char :: zone) = blockedIPv6 s.
Proof. intros Hs. unfold blockedIPv6. by replace (clean (s ++ "%"%char :: zone)) with (clean s) by (unfold clean; by rewrite splitOn_cons, splitOn_nil). Qed.

Lemma blocked_examples :
  map isBlockedIPv6 ["::1"; "fe80::1%eth0"; "FD00::5"; "::ffff:10.0.0.1"; "::FFFF:a9fe:a9fe"; "64:ff9b::808:808"; "2606:4700::1111"]%string
    = [true; true; true; true; true; true; false] ∧
  map isBlockedIPv4 ["010.1.1.1"; "1.2.3"; "1.2.3.4.5"; "0x7f.0.0.1"; "1.1.1.1"]%string = [true; true; true; true; false].
Proof. vm_compute. done. Qed.

(** Not blocked: the unspecified address, and the loopback and mapped
    addresses in a form that is not compressed. *)
Lemma unspecified_address_allowed :
  map isBlockedIPv6 ["::"; "0:0:0:0:0:0:0:1"; "0:0:0:0:0:ffff:7f00:1"; "::127.0.0.1"]%string = [false; false; false; false].
Proof. vm_compute. done. Qed.

(** * Hosts *)

Lemma collect_Forall {X A C} (f : A -> res X C) (P : C -> Prop) l : (∀ x y, f x = Ok y -> P y) -> ∀ ys, collect f l = Ok ys -> Forall P ys ∧ length ys = length l.
Proof.
  intros Hf. induction l as [|x l IH]; intros ys; cbn; [intros [= <-]; by split|]. destruct (f x) as [y|] eqn:E; [|done]. cbn.
  destruct (collect f l) as [zs|]; [|done]. cbn. intros [= <-]. destruct (IH zs eq_refl) as [H1 H2]. split; [constructor; eauto|cbn; by f_equal].
Qed.

(** A validated policy names one host for each it was given, none of them empty
    or with a path or user part, in lower case. *)
Theorem validated_hosts_plain p q : validateEgressPolicy p = Ok q ->
  length (ep_allowedHosts q) = length (ep_allowedHosts p) ∧
  Forall (fun h => let s := String.list_ascii_of_string h in
            s ≠ [] ∧ ("/"%char ∉ s) ∧ ("@"%char ∉ s) ∧ map lowerChar s = s) (ep_allowedHosts q).
Proof.
  unfold validateEgressPolicy. destruct (collect _ _) as [hosts|] eqn:E; [|done]. intros [= <-]. cbn.
  eapply collect_Forall in E as [H1 H2]; [split; [exact H2|exact H1]|]. intros x y. unfold normaliseHostname.
  destruct (bool_decide (_ = [])) eqn:E1; [done|]. destruct (bool_decide ("/"%char ∈ _)) eqn:E2; [done|]. destruct (bool_decide ("@"%char ∈ _)) eqn:E3; [done|].
  intros [= <-]. rewrite String.list_ascii_of_string_of_list_ascii. apply bool_decide_eq_false in E1, E2, E3. split_and!; [done..|].
  rewrite map_map. apply map_ext. intros c. by destruct c as [[] [] [] [] [] [] [] []].
Qed.
