(* ===== verification/NetworkConsistency.v ===== *)
(** The check that the environment targets one Stellar network
    (src/config/network-consistency.ts), made before the application starts.

    The URL parser of the platform is a parameter: the parts of a URL the code
    reads, or nothing where the constructor throws. *)

From stdpp Require Import base list strings sets.
From Stdlib Require Import ZArith Lia Ascii Floats.
From S2P Require Import Prelude Decimal JsNum JsParse Canonical Egress.

#[local] Open Scope Z_scope.

(** * Networks and settings *)

Inductive StellarNetworkName := Testnet | Futurenet | Mainnet.
#[global] Instance StellarNetworkName_eq_dec : EqDecision StellarNetworkName.
Proof. solve_decision. Defined.
Definition networkText (n : StellarNetworkName) : string := match n with Testnet => "testnet" | Futurenet => "futurenet" | Mainnet => "mainnet" end.

Record NetworkProfile := mkProfile { np_passphrase : string; np_rpcHosts : list string; np_horizonHosts : list string; np_tokens : list string }.
Definition profileOf (n : StellarNetworkName) : NetworkProfile :=
  match n with
  | Testnet => mkProfile "Test SDF Network ; September 2015" ["soroban-testnet.stellar.org"] ["horizon-testnet.stellar.org"] ["testnet"]
  | Futurenet => mkProfile "Test SDF Future Network ; October 2022" ["rpc-futurenet.stellar.org"] ["horizon-futurenet.stellar.org"] ["futurenet"]
  | Mainnet => mkProfile "Public Global Stellar Network ; September 2015" [] ["horizon.stellar.org"] ["mainnet"; "pubnet"]
  end%string.
Definition networks : list StellarNetworkName := [Testnet; Futurenet; Mainnet].

Definition NETWORK_ALIASES : list (string * StellarNetworkName) :=
  [("testnet", Testnet); ("futurenet", Futurenet); ("mainnet", Mainnet); ("public", Mainnet); ("pubnet", Mainnet)]%string.
Definition SUFFIXES : list (string * StellarNetworkName) :=
  [("TESTNET", Testnet); ("FUTURENET", Futurenet); ("MAINNET", Mainnet); ("PUBLIC", Mainnet)]%string.

Inductive SettingKey := RpcUrl | HorizonUrl | Passphrase | PoolContractId | OracleContractId | PolicyContractId.
#[global] Instance SettingKey_eq_dec : EqDecision SettingKey.
Proof. solve_decision. Defined.
Definition settingText (k : SettingKey) : string :=
  match k with
  | RpcUrl => "rpcUrl" | HorizonUrl => "horizonUrl" | Passphrase => "passphrase" | PoolContractId => "poolContractId"
  | OracleContractId => "oracleContractId" | PolicyContractId => "policyContractId"
  end.
Definition settingKeys : list SettingKey := [RpcUrl; HorizonUrl; Passphrase; PoolContractId; OracleContractId; PolicyContractId].
(** Base name, and the name it had before. *)
Definition SETTINGS (k : SettingKey) : string * option string :=
  match k with
  | RpcUrl => ("SOROBAN_RPC_URL", None)
  | HorizonUrl => ("STELLAR_HORIZON_URL", None)
  | Passphrase => ("STELLAR_NETWORK_PASSPHRASE", None)
  | PoolContractId => ("REFRACT_POOL_CONTRACT_ID", Some "POOL_CONTRACT_ID")
  | OracleContractId => ("REFRACT_ORACLE_CONTRACT_ID", Some "ORACLE_CONTRACT_ID")
  | PolicyContractId => ("REFRACT_POLICY_CONTRACT_ID", Some "POLICY_CONTRACT_ID")
  end%string.

Definition PAYOUT_COVERAGE_TYPES : list string := ["StablecoinDepeg"; "MarketCrash"; "LiquidationShield"; "SmartContractRisk"; "FlightDelay"]%string.

Record ResolvedNetworkConfig := mkResolved {
  rn_network : StellarNetworkName; rn_passphrase : string; rn_rpcUrls : list string; rn_horizonUrl : option string;
  rn_poolContractId : option string; rn_oracleContractId : option string; rn_policyContractId : option string }.
Record NetworkConsistencyReport := mkNetReport {
  nr_ok : bool; nr_errors : list string; nr_warnings : list string; nr_resolved : option ResolvedNetworkConfig }.

Definition Env := list (string * string).
Definition txt (s : string) : text := String.list_ascii_of_string s.
Definition str (t : text) : string := String.string_of_list_ascii t.
Definition trimString (s : string) : string := str (trim (txt s)).
Definition lowerString (s : string) : string := str (map lowerChar (txt s)).

(** A variable that is set to more than white space. *)
Definition val (env : Env) (key : string) : option string :=
  v ← jm_get env key; let t := trimString v in if bool_decide (t = ""%string) then None else Some t.

(** [/^C[A-Z2-7]{55}$/] *)
Definition base32Char (c : ascii) : bool := let n := nat_of_ascii c in ((65 <=? n) && (n <=? 90) || (50 <=? n) && (n <=? 55))%nat.
Definition CONTRACT_RE (id : string) : bool :=
  match txt id with c :: r => bool_decide (c = "C"%char) && (length r =? 55)%nat && forallb base32Char r | [] => false end.

(** A look-up by name in an object literal also finds what every object
    inherits; in lower case these are two names. *)
Inductive Lookup := Named (n : StellarNetworkName) | Inherited.
Definition normalizeNetwork (raw : option string) : option Lookup :=
  raw ← raw;
  if bool_decide (raw = ""%string) then None
  else
    let k := lowerString (trimString raw) in
    match jm_get NETWORK_ALIASES k with
    | Some n => Some (Named n)
    | None => if bool_decide (k ∈ ["constructor"; "__proto__"]%string) then Some Inherited else None
    end.

Record Url := mkUrl { ur_host : string; ur_hostname : string; ur_pathname : string; ur_protocol : string }.

(** [h.includes(w)] *)
Fixpoint containsText (w h : text) : bool :=
  bool_decide (is_Some (after w h)) || match h with [] => false | _ :: h => containsText w h end.

Definition quote (s : string) : string := String quoteChar (s +:+ String quoteChar "").

Section Check.
Variable parseUrl : string -> option Url.

(** The network a URL points to, and whether the host is a known one. *)
Definition classifyUrl (raw : string) : option StellarNetworkName * bool :=
  match parseUrl raw with
  | None => (None, false)
  | Some url =>
      let host := lowerString (ur_hostname url) in
      match List.find (fun n => bool_decide (host ∈ np_rpcHosts (profileOf n)) || bool_decide (host ∈ np_horizonHosts (profileOf n))) networks with
      | Some n => (Some n, true)
      | None =>
          let haystack := map lowerChar (txt (host +:+ ur_pathname url)) in
          match List.filter (fun n => existsb (fun t => containsText (txt t) haystack) (np_tokens (profileOf n))) networks with
          | [n] => (Some n, false)
          | _ => (None, false)
          end
      end
  end.

(** The suffixed variables that are set: base name, suffix and its network. *)
Definition suffixedPresent (env : Env) : list (string * StellarNetworkName) :=
  List.filter (fun ks => bool_decide (is_Some (val env ks.1)))
    (flat_map (fun k => map (fun sn => ((SETTINGS k).1 +:+ "_" +:+ sn.1, sn.2)) SUFFIXES) settingKeys).

Definition otherNetworkErrors (env : Env) (network : StellarNetworkName) : list string :=
  map (fun ks => (ks.1 +:+ " is set for " +:+ networkText ks.2 +:+ " but STELLAR_NETWORK=" +:+ networkText network +:+
                  "; remove it so only one network is configured")%string)
    (List.filter (fun ks => negb (bool_decide (ks.2 = network))) (suffixedPresent env)).

(** The names of a setting, the one that wins first, and those that are set. *)
Definition settingNames (network : StellarNetworkName) (k : SettingKey) : list string :=
  let '(base, legacy) := SETTINGS k in
  map (fun sn => (base +:+ "_" +:+ sn.1)%string) (List.filter (fun sn => bool_decide (sn.2 = network)) SUFFIXES) ++
  [base] ++ match legacy with Some l => [l] | None => [] end.
Definition candidates (env : Env) (network : StellarNetworkName) (k : SettingKey) : list (string * string) :=
  omap (fun name => (fun v => (name, v)) <$> val env name) (settingNames network k).
Definition resolve (env : Env) (network : StellarNetworkName) (k : SettingKey) : option string := snd <$> head (candidates env network k).

Definition conflictErrors (env : Env) (network : StellarNetworkName) (k : SettingKey) : list string :=
  let cs := candidates env network k in
  if (1 <? length (setOf (map snd cs)))%nat
  then [("Conflicting values for the " +:+ networkText network +:+ " " +:+ settingText k +:+ ": " +:+ joinWith ", " (map fst cs) +:+ " differ")%string] else [].

Definition passphraseErrors (env : Env) (network : StellarNetworkName) : list string :=
  match resolve env network Passphrase with
  | Some p =>
      if bool_decide (p = np_passphrase (profileOf network)) then []
      else
        let other := match List.find (fun n => bool_decide (np_passphrase (profileOf n) = p)) networks with
                     | Some n => ("the " +:+ networkText n +:+ " passphrase")%string
                     | None => "not a known passphrase"%string
                     end in
        [("STELLAR_NETWORK_PASSPHRASE is " +:+ other +:+ " but STELLAR_NETWORK=" +:+ networkText network +:+ " (expected " +:+
          quote (np_passphrase (profileOf network)) +:+ ")")%string]
  | None => []
  end.

(** (errors, warnings) *)
Definition checkUrl (network : StellarNetworkName) (label url : string) : list string * list string :=
  match parseUrl url with
  | None => ([(label +:+ " is not a valid URL")%string], [])
  | Some parsed =>
      let insecure := if bool_decide (network = Mainnet) && negb (bool_decide (ur_protocol parsed = "https:"%string))
                      then [(label +:+ " must use https on mainnet")%string] else [] in
      let '(pointsTo, known) := classifyUrl url in
      match pointsTo with
      | Some n => if bool_decide (n = network) then (insecure, [])
                  else (insecure ++ [(label +:+ " (" +:+ ur_host parsed +:+ ") points to " +:+ networkText n +:+ " but STELLAR_NETWORK=" +:+ networkText network)%string], [])
      | None =>
          (insecure, if negb known
                     then [(label +:+ " (" +:+ ur_host parsed +:+ ") can't be matched to a network from its name; set STELLAR_VALIDATE_ONCHAIN=true to confirm it with the live passphrase check")%string]
                     else [])
      end
  end.

Definition rpcUrlsOf (env : Env) (network : StellarNetworkName) : list string :=
  match resolve env network RpcUrl with Some u => [u] | None => [] end ++
  List.filter (fun s => negb (bool_decide (s = ""%string))) (map (fun t => str (trim t)) (splitOn "," (txt (default ""%string (val env "SOROBAN_RPC_URLS"))))).

Definition urlChecks (env : Env) (network : StellarNetworkName) : list (list string * list string) :=
  imap (fun i u => checkUrl network (if (i =? 0)%nat && bool_decide (is_Some (resolve env network RpcUrl)) then "SOROBAN_RPC_URL" else "SOROBAN_RPC_URLS entry") u)
    (rpcUrlsOf env network) ++
  match resolve env network HorizonUrl with Some u => [checkUrl network "STELLAR_HORIZON_URL" u] | None => [] end.

Fixpoint contractErrors (env : Env) (network : StellarNetworkName) (keys : list SettingKey) (seen : list (string * SettingKey)) : list string :=
  match keys with
  | [] => []
  | k :: keys =>
      match resolve env network k with
      | None => contractErrors env network keys seen
      | Some id =>
          if negb (CONTRACT_RE id) then (settingText k +:+ " is not a valid Stellar contract ID (C…)")%string :: contractErrors env network keys seen
          else
            match jm_get seen id with
            | Some prior => [(settingText k +:+ " and " +:+ settingText prior +:+ " are the same contract ID; one of them was copied from the wrong place")%string]
            | None => []
            end ++ contractErrors env network keys (jm_set seen id k)
      end
  end.
Definition contractKeys : list SettingKey := [PoolContractId; OracleContractId; PolicyContractId].

Definition payoutWarnings (env : Env) (network : StellarNetworkName) : list string :=
  let hasRelayer := bool_decide (is_Some (val env "ORACLE_RELAYER_SECRET")) || bool_decide (is_Some (val env "ORACLE_RELAYER_SECRET_ID")) in
  let missing :=
    (if bool_decide (is_Some (resolve env network OracleContractId)) then [] else ["oracle contract ID"%string]) ++
    (if bool_decide (is_Some (resolve env network PoolContractId)) then [] else ["pool contract ID"%string]) ++
    (if hasRelayer then [] else ["relayer key (ORACLE_RELAYER_SECRET / ORACLE_RELAYER_SECRET_ID)"%string]) in
  match missing with
  | [] => []
  | _ => [("Payout-triggering configuration is incomplete for " +:+ networkText network +:+ ": missing " +:+ joinWith ", " missing +:+
           ". Oracle readings can't be published or claims settled on-chain, so these coverage types can't pay out: " +:+
           joinWith ", " PAYOUT_COVERAGE_TYPES)%string]
  end.

Definition checkNetwork (env : Env) (network : StellarNetworkName) (warnings : list string) : NetworkConsistencyReport :=
  let urls := urlChecks env network in
  let errors :=
    otherNetworkErrors env network ++ flat_map (conflictErrors env network) settingKeys ++ passphraseErrors env network ++
    concat (map fst urls) ++ contractErrors env network contractKeys [] in
  mkNetReport (bool_decide (errors = [])) errors (warnings ++ concat (map snd urls) ++ payoutWarnings env network)
    (Some (mkResolved network (np_passphrase (profileOf network)) (rpcUrlsOf env network) (resolve env network HorizonUrl)
             (resolve env network PoolContractId) (resolve env network OracleContractId) (resolve env network PolicyContractId))).

(** An error: the exception on a network that is not one. *)
Definition validateNetworkConsistency (env : Env) : res string NetworkConsistencyReport :=
  let rawNetwork := val env "STELLAR_NETWORK" in
  match rawNetwork, normalizeNetwork rawNetwork with
  | _, Some (Named network) => Ok (checkNetwork env network [])
  | _, Some Inherited => Err "Cannot read properties of undefined (reading 'passphrase')"%string
  | Some raw, None =>
      Ok (mkNetReport false [("STELLAR_NETWORK=" +:+ quote raw +:+ " is not a known network (use testnet, futurenet or mainnet)")%string] [] None)
  | None, None =>
      match suffixedPresent env with
      | [] => Ok (checkNetwork env Testnet ["STELLAR_NETWORK is not set; defaulting to testnet"%string])
      | present =>
          Ok (mkNetReport false [("STELLAR_NETWORK is not set, but network-specific values are (" +:+ joinWith ", " (map fst present) +:+
                                  "). Set STELLAR_NETWORK explicitly")%string] [] None)
      end
  end.

(** The report, or the errors thrown. *)
Definition assertNetworkConsistency (env : Env) : res (list string) NetworkConsistencyReport :=
  match validateNetworkConsistency env with
  | Err e => Err [e]
  | Ok report => if nr_ok report then Ok report else Err (nr_errors report)
  end.
End Check.

(** * Asking the endpoints *)

(** What a request gave: an exception, or a response with what its body holds
    where the passphrase is expected (nothing: no text there). *)
Inductive NetAnswer := NetThrows (message : string) | NetResponse (ok : bool) (status : Z) (passphrase : res string (option string)).
Record LiveCheckResult := mkLive { lv_mismatches : list string; lv_unreachable : list string }.

Definition safeHost (parseUrl : string -> option Url) (url : string) : string := default "<invalid url>"%string (ur_host <$> parseUrl url).

(** One endpoint, added to the result in the order the answers come in. *)
Definition probe (parseUrl : string -> option Url) (network : StellarNetworkName) (label url : string) (a : NetAnswer) (r : LiveCheckResult) : LiveCheckResult :=
  let expected := np_passphrase (profileOf network) in
  let unreachable e := mkLive (lv_mismatches r) (lv_unreachable r ++ [(label +:+ " (" +:+ safeHost parseUrl url +:+ ") is not reachable for the network check: " +:+ e)%string]) in
  match a with
  | NetThrows e => unreachable e
  | NetResponse false status _ => unreachable ("HTTP " +:+ showZ status)%string
  | NetResponse true _ (Err e) => unreachable e
  | NetResponse true _ (Ok None) => unreachable "response has no network passphrase"%string
  | NetResponse true _ (Ok (Some p)) =>
      if bool_decide (p = expected) then r
      else match parseUrl url with
           | Some u => mkLive (lv_mismatches r ++ [(label +:+ " (" +:+ ur_host u +:+ ") serves " +:+ quote p +:+ " but STELLAR_NETWORK=" +:+ networkText network +:+
                                                   " expects " +:+ quote expected)%string]) (lv_unreachable r)
           | None => unreachable "Invalid URL"%string
           end
  end.

Definition endpoints (cfg : ResolvedNetworkConfig) : list (string * string) :=
  map (fun u => ("Soroban RPC"%string, u)) (rn_rpcUrls cfg) ++ match rn_horizonUrl cfg with Some u => [("Horizon"%string, u)] | None => [] end.

(** [order]: the endpoints in the order they answered. *)
Definition verifyNetworkLive (parseUrl : string -> option Url) (network : StellarNetworkName) (fetch : string -> string -> NetAnswer) (order : list (string * string)) : LiveCheckResult :=
  foldl (fun r lu => probe parseUrl network lu.1 lu.2 (fetch lu.1 lu.2) r) (mkLive [] []) order.

(** * The specification *)

Section Spec.
Context (parseUrl : string -> option Url).

Definition goodUrl (n : StellarNetworkName) (u : string) : Prop :=
  ∃ p, parseUrl u = Some p ∧ (n = Mainnet -> ur_protocol p = "https:"%string) ∧ ∀ m, (classifyUrl parseUrl u).1 = Some m -> m = n.

(** Everything the environment says belongs to the network [n]. *)
Record consistent (env : Env) (n : StellarNetworkName) : Prop := {
  cs_only : ∀ k s m, (s, m) ∈ SUFFIXES -> m ≠ n -> val env ((SETTINGS k).1 +:+ "_" +:+ s)%string = None;
  cs_agree : ∀ k name name' v v', name ∈ settingNames n k -> name' ∈ settingNames n k -> val env name = Some v -> val env name' = Some v' -> v = v';
  cs_passphrase : ∀ name v, name ∈ settingNames n Passphrase -> val env name = Some v -> v = np_passphrase (profileOf n);
  cs_urls : ∀ u, u ∈ rpcUrlsOf env n ∨ resolve env n HorizonUrl = Some u -> goodUrl n u;
  cs_contracts : ∀ k id, k ∈ contractKeys -> resolve env n k = Some id -> CONTRACT_RE id = true;
  cs_distinct : ∀ k k' id, k ∈ contractKeys -> k' ∈ contractKeys -> resolve env n k = Some id -> resolve env n k' = Some id -> k = k' }.

(** [n] is selected by name, or it is the default where nothing is. *)
Definition selected (env : Env) (n : StellarNetworkName) : Prop :=
  match val env "STELLAR_NETWORK" with
  | Some raw => normalizeNetwork (Some raw) = Some (Named n)
  | None => n = Testnet ∧ ∀ k s m, (s, m) ∈ SUFFIXES -> val env ((SETTINGS k).1 +:+ "_" +:+ s)%string = None
  end.

Lemma settingKeys_all k : k ∈ settingKeys.
Proof. destruct k; set_solver. Qed.

Lemma elem_of_suffixedPresent env name m :
  (name, m) ∈ suffixedPresent env <-> ∃ k s, (s, m) ∈ SUFFIXES ∧ name = ((SETTINGS k).1 +:+ "_" +:+ s)%string ∧ is_Some (val env name).
Proof.
  unfold suffixedPresent. rewrite !list_elem_of_In, List.filter_In, in_flat_map. cbn [fst]. split.
  - intros [(k & _ & Hk) Hv%bool_decide_eq_true]. apply in_map_iff in Hk as ([s m'] & [= <- <-] & Hs). exists k, s. by rewrite list_elem_of_In.
  - intros (k & s & Hs & -> & Hv). split; [|by apply bool_decide_eq_true]. exists k. split; [apply list_elem_of_In, settingKeys_all|].
    apply in_map_iff. exists (s, m). by rewrite <- list_elem_of_In.
Qed.

Lemma otherNetwork_nil env n : otherNetworkErrors env n = [] <-> ∀ k s m, (s, m) ∈ SUFFIXES -> m ≠ n -> val env ((SETTINGS k).1 +:+ "_" +:+ s)%string = None.
Proof.
  unfold otherNetworkErrors. rewrite <- (length_zero_iff_nil), length_map, length_zero_iff_nil, filter_nil_iff. split.
  - intros H k s m Hs Hm. destruct (val env _) as [v|] eqn:E; [|done]. exfalso.
    assert ((((SETTINGS k).1 +:+ "_" +:+ s)%string, m) ∈ suffixedPresent env) as Hin by (apply elem_of_suffixedPresent; exists k, s; by rewrite E).
    apply H, negb_false_iff, bool_decide_eq_true in Hin. by apply Hm.
  - intros H [name m] (k & s & Hs & -> & [v Hv])%elem_of_suffixedPresent. cbn. case_bool_decide as Hm; [done|]. by rewrite (H k s m) in Hv.
Qed.

Lemma suffixed_nil env : suffixedPresent env = [] <-> ∀ k s m, (s, m) ∈ SUFFIXES -> val env ((SETTINGS k).1 +:+ "_" +:+ s)%string = None.
Proof.
  split.
  - intros H k s m Hs. destruct (val env _) as [v|] eqn:E; [|done]. exfalso. apply (not_elem_of_nil (((SETTINGS k).1 +:+ "_" +:+ s)%string, m)). rewrite <- H.
    apply elem_of_suffixedPresent. exists k, s. by rewrite E.
  - intros H. destruct (suffixedPresent env) as [|[name m] l] eqn:E; [done|]. exfalso.
    assert ((name, m) ∈ suffixedPresent env) as (k & s & Hs & -> & [v Hv])%elem_of_suffixedPresent by (rewrite E; apply list_elem_of_here). by rewrite (H k s m) in Hv.
Qed.

Lemma elem_of_candidates env n k name v : (name, v) ∈ candidates env n k <-> name ∈ settingNames n k ∧ val env name = Some v.
Proof.
  unfold candidates. rewrite list_elem_of_omap. split.
  - intros (x & Hx & Hv). destruct (val env x) eqn:E; [|done]. by injection Hv as <- <-.
  - intros [Hn Hv]. exists name. by rewrite Hv.
Qed.

Lemma setOf_short (l : list string) : (length (setOf l) <= 1)%nat <-> ∀ x y, x ∈ l -> y ∈ l -> x = y.
Proof.
  pose proof (setOf_NoDup l) as Hn. setoid_rewrite <- (elem_of_setOf _ l). destruct (setOf l) as [|a [|b s]]; cbn.
  - split; [set_solver|lia].
  - split; [set_solver|lia].
  - split; [lia|]. intros H. exfalso. apply NoDup_cons in Hn as [Ha _]. apply Ha. rewrite (H a b) by set_solver. apply list_elem_of_here.
Qed.

Lemma conflict_nil env n k : conflictErrors env n k = [] <->
  ∀ name name' v v', name ∈ settingNames n k -> name' ∈ settingNames n k -> val env name = Some v -> val env name' = Some v' -> v = v'.
Proof.
  unfold conflictErrors. pose proof (setOf_short (map snd (candidates env n k))) as Hs. destruct (Nat.ltb_spec 1 (length (setOf (map snd (candidates env n k))))) as [Hl|Hl].
  - split; [done|]. intros H. exfalso. assert (length (setOf (map snd (candidates env n k))) <= 1)%nat; [|lia]. apply Hs.
    intros x y ([a x'] & -> & Hx%elem_of_candidates)%list_elem_of_fmap ([b y'] & -> & Hy%elem_of_candidates)%list_elem_of_fmap. cbn. eapply (H a b); naive_solver.
  - split; [|done]. intros _ name name' v v' H1 H2 H3 H4. apply (proj1 Hs Hl); apply list_elem_of_fmap.
    + exists (name, v). by rewrite elem_of_candidates.
    + exists (name', v'). by rewrite elem_of_candidates.
Qed.

Lemma checkUrl_nil n label u : (checkUrl parseUrl n label u).1 = [] <-> goodUrl n u.
Proof.
  unfold checkUrl, goodUrl. destruct (parseUrl u) as [p|]; [|split; [done|naive_solver]].
  destruct (classifyUrl parseUrl u) as [[m|] known]; cbn [fst].
  - destruct (decide (m = n)) as [->|Hm].
    + rewrite (bool_decide_eq_true_2 (n = n)) by done. cbn. destruct (decide (n = Mainnet)) as [->|Hn].
      * rewrite (bool_decide_eq_true_2 (Mainnet = Mainnet)) by done. cbn. case_bool_decide as Hp; cbn; naive_solver.
      * rewrite (bool_decide_eq_false_2 (n = Mainnet)) by done. cbn. naive_solver.
    + rewrite (bool_decide_eq_false_2 (m = n)) by done. cbn. split; [by intros [_ ?]%app_eq_nil|]. intros (? & ? & _ & H). exfalso. by apply Hm, H.
  - destruct (decide (n = Mainnet)) as [->|Hn].
    + rewrite (bool_decide_eq_true_2 (Mainnet = Mainnet)) by done. cbn. case_bool_decide as Hp; cbn; naive_solver.
    + rewrite (bool_decide_eq_false_2 (n = Mainnet)) by done. cbn. naive_solver.
Qed.

Lemma concat_nil {A} (l : list (list A)) : concat l = [] <-> ∀ x, x ∈ l -> x = [].
Proof.
  induction l as [|x l IH]; cbn; [set_solver|]. split.
  - intros [-> H]%app_eq_nil y [->|Hy]%elem_of_cons; [done|]. by apply IH.
  - intros H. rewrite (H x) by apply list_elem_of_here. apply IH. intros y Hy. by apply H, list_elem_of_further.
Qed.

Lemma app_nil_iff_and {A} (l k : list A) : l ++ k = [] <-> l = [] ∧ k = [].
Proof. split; [apply app_eq_nil|by intros [-> ->]]. Qed.

Lemma urls_nil env n : concat (map fst (urlChecks parseUrl env n)) = [] <-> ∀ u, u ∈ rpcUrlsOf env n ∨ resolve env n HorizonUrl = Some u -> goodUrl n u.
Proof.
  rewrite concat_nil. unfold urlChecks. rewrite map_app. split.
  - intros H u [(i & Hi)%list_elem_of_lookup|Hu].
    + eapply checkUrl_nil, H, elem_of_app. left. apply list_elem_of_fmap. eexists. split; [reflexivity|]. apply elem_of_lookup_imap. by exists i, u.
    + eapply checkUrl_nil, H, elem_of_app. right. rewrite Hu. apply list_elem_of_here.
  - intros H x [(y & -> & (i & u & -> & Hu)%elem_of_lookup_imap)%list_elem_of_fmap|Hx]%elem_of_app.
    + apply checkUrl_nil, H. left. by eapply list_elem_of_lookup_2.
    + destruct (resolve env n HorizonUrl) as [u|] eqn:E; [|by apply elem_of_nil in Hx]. apply list_elem_of_singleton in Hx as ->. apply checkUrl_nil, H. by right.
Qed.

(** From what was seen: the keys are valid, apart and new. *)
Lemma contractErrors_nil env n keys : NoDup keys -> ∀ seen, contractErrors env n keys seen = [] <->
  (∀ k id, k ∈ keys -> resolve env n k = Some id -> CONTRACT_RE id = true ∧ jm_get seen id = None) ∧
  (∀ k k' id, k ∈ keys -> k' ∈ keys -> resolve env n k = Some id -> resolve env n k' = Some id -> k = k').
Proof.
  induction 1 as [|k keys Hk Hn IH]; intros seen; cbn [contractErrors]; [split; [set_solver|done]|].
  destruct (resolve env n k) as [id|] eqn:E.
  2:{ rewrite IH. split; intros [H1 H2]; split.
      - intros k0 id [->|Hi]%elem_of_cons Hr; [congruence|by eapply H1].
      - intros k0 k' id [->|Hi]%elem_of_cons [->|Hi']%elem_of_cons Hr Hr'; try congruence. by eapply H2.
      - intros k0 id Hi. by apply H1, list_elem_of_further.
      - intros k0 k' id Hi Hi'. by apply H2; apply list_elem_of_further. }
  destruct (CONTRACT_RE id) eqn:Ere; cbn [negb].
  2:{ split; [done|]. intros [H1 _]. destruct (H1 k id) as [H _]; [apply list_elem_of_here|done|congruence]. }
  destruct (jm_get seen id) as [prior|] eqn:Es; cbn [app].
  { split; [done|]. intros [H1 _]. destruct (H1 k id) as [_ H]; [apply list_elem_of_here|done|congruence]. }
  rewrite IH. split; intros [H1 H2]; split.
  - intros k0 id0 [->|Hi]%elem_of_cons Hr; [by simplify_eq|]. destruct (H1 k0 id0 Hi Hr) as [Hc Hg]. split; [done|]. rewrite jm_get_set in Hg. by destruct (decide _).
  - assert (∀ k0 id0, k0 ∈ keys -> resolve env n k0 = Some id0 -> id0 ≠ id) as Hne.
    { intros k0 id0 Hi Hr ->. destruct (H1 k0 id Hi Hr) as [_ Hg]. by rewrite jm_get_set_eq in Hg. }
    intros k0 k' id0 [->|Hi]%elem_of_cons [->|Hi']%elem_of_cons Hr Hr'; [done|..|by eapply H2].
    + exfalso. apply (Hne k' id0 Hi' Hr'). congruence.
    + exfalso. apply (Hne k0 id0 Hi Hr). congruence.
  - intros k0 id0 Hi Hr. destruct (H1 k0 id0) as [Hc Hg]; [by apply list_elem_of_further|done|]. split; [done|]. rewrite jm_get_set.
    destruct (decide (id = id0)) as [<-|]; [|done]. exfalso. apply Hk. by rewrite (H2 k k0 id) by (done || apply list_elem_of_here || by apply list_elem_of_further).
  - intros k0 k' id0 Hi Hi'. by apply H2; apply list_elem_of_further.
Qed.

Lemma contracts_nil env n : contractErrors env n contractKeys [] = [] <->
  (∀ k id, k ∈ contractKeys -> resolve env n k = Some id -> CONTRACT_RE id = true) ∧
  (∀ k k' id, k ∈ contractKeys -> k' ∈ contractKeys -> resolve env n k = Some id -> resolve env n k' = Some id -> k = k').
Proof. rewrite contractErrors_nil by (repeat constructor; set_solver). cbn [jm_get]. naive_solver. Qed.

Lemma passphrase_nil env n : conflictErrors env n Passphrase = [] ->
  passphraseErrors env n = [] <-> ∀ name v, name ∈ settingNames n Passphrase -> val env name = Some v -> v = np_passphrase (profileOf n).
Proof.
  intros Hag. rewrite conflict_nil in Hag. unfold passphraseErrors, resolve.
  assert (∀ name v, (name, v) ∈ candidates env n Passphrase <-> name ∈ settingNames n Passphrase ∧ val env name = Some v) as Hc by (intros; apply elem_of_candidates).
  destruct (candidates env n Passphrase) as [|[name v] l]; cbn.
  - split; [|done]. intros _ name v H1 H2. exfalso. by apply (not_elem_of_nil (name, v)), Hc.
  - destruct (proj1 (Hc name v)) as [Hin Hv]; [apply list_elem_of_here|]. case_bool_decide as Hp.
    + split; [|done]. intros _ name' v' H1 H2. rewrite <- Hp. exact (Hag name' name v' v H1 Hin H2 Hv).
    + split; [done|]. intros H. exfalso. by apply Hp, (H name).
Qed.

Lemma checkNetwork_ok env n warnings : nr_ok (checkNetwork parseUrl env n warnings) = true <-> consistent env n.
Proof.
  unfold checkNetwork. cbn [nr_ok]. rewrite bool_decide_eq_true. rewrite !app_nil_iff_and. split.
  - intros (H1 & H2 & H3 & H4 & [H5 H6]%contracts_nil).
    assert (∀ k, conflictErrors env n k = []) as Hc by (intros k; rewrite flat_map_concat_map in H2; apply (proj1 (concat_nil _) H2), list_elem_of_fmap; eexists; split; [done|apply settingKeys_all]).
    split; [by apply otherNetwork_nil|intros k; by apply conflict_nil|by apply passphrase_nil|by apply urls_nil|done|done].
  - intros [H1 H2 H3 H4 H5 H6]. assert (∀ k, conflictErrors env n k = []) as Hc by (intros k; by apply conflict_nil, H2).
    split_and!; [by apply otherNetwork_nil| |by apply passphrase_nil|by apply urls_nil|by apply contracts_nil].
    rewrite flat_map_concat_map. apply concat_nil. intros x (k & -> & _)%list_elem_of_fmap. apply Hc.
Qed.

(** C25: The start-up check accepts an environment for a network exactly if
    that network is the one selected (or the default, with nothing specific to
    any network set) and everything set belongs to it: no variable of another
    network, no two names of a setting that differ, the passphrase of the
    network, URLs that parse, point nowhere else and on mainnet use https, and
    contract IDs that are well formed and all different. *)
Theorem accepted_iff_consistent env n :
  (∃ report, assertNetworkConsistency parseUrl env = Ok report ∧ rn_network <$> nr_resolved report = Some n) <->
  selected env n ∧ consistent env n.
Proof.
  unfold assertNetworkConsistency, validateNetworkConsistency, selected.
  assert (∀ m w, (∃ report, (if nr_ok (checkNetwork parseUrl env m w) then Ok (checkNetwork parseUrl env m w) else Err (nr_errors (checkNetwork parseUrl env m w))) = Ok report ∧
    rn_network <$> nr_resolved report = Some n) <-> m = n ∧ consistent env n) as Hcheck.
  { intros m w. pose proof (checkNetwork_ok env m w) as Hok. destruct (nr_ok _).
    - split; [|by intros [-> _]; eexists]. intros (report & [= <-] & [= <-]). split; [done|]. by apply Hok.
    - split; [by intros (? & ? & _)|]. intros [-> Hc]. by apply Hok in Hc. }
  assert (∀ errors : list string, ¬ ∃ report : NetworkConsistencyReport, Err errors = Ok report ∧ rn_network <$> nr_resolved report = Some n) as Herr
    by by intros errors (report & ? & _).
  destruct (val env "STELLAR_NETWORK") as [raw|].
  - destruct (normalizeNetwork (Some raw)) as [[m|]|].
    + rewrite Hcheck. split; [by intros [-> Hc]|by intros [[= ->] Hc]].
    + split; [by intros H%Herr|by intros [? _]].
    + cbn [nr_ok]. split; [by intros H%Herr|by intros [? _]].
  - cbn [normalizeNetwork mbind option_bind]. pose proof (suffixed_nil env) as Hs. destruct (suffixedPresent env) as [|x l].
    + rewrite Hcheck. split; [|by intros [[-> _] Hc]]. intros [E Hc]. split; [|done]. split; [done|]. by apply Hs.
    + cbn [nr_ok]. split; [by intros H%Herr|]. intros [[_ H] _]. by apply Hs in H.
Qed.
End Spec.

(** The live check finds a mismatch exactly if an endpoint answers with the
    passphrase of another network, in whatever order they answer. *)
Theorem live_mismatch_iff_other_passphrase parseUrl n fetch order :
  Forall (fun lu => is_Some (parseUrl lu.2)) order ->
  lv_mismatches (verifyNetworkLive parseUrl n fetch order) = [] <->
  ∀ label url status p, (label, url) ∈ order -> fetch label url = NetResponse true status (Ok (Some p)) -> p = np_passphrase (profileOf n).
Proof.
  unfold verifyNetworkLive. intros Hp.
  enough (∀ r, lv_mismatches (foldl (fun r lu => probe parseUrl n lu.1 lu.2 (fetch lu.1 lu.2) r) r order) = [] <->
    lv_mismatches r = [] ∧ ∀ label url status p, (label, url) ∈ order -> fetch label url = NetResponse true status (Ok (Some p)) -> p = np_passphrase (profileOf n)) as H.
  { rewrite H. cbn. naive_solver. }
  induction Hp as [|[label url] order [u Hu] Hp IH]; intros r; cbn [foldl fst snd]; [set_solver|]. rewrite IH. clear IH. cbn in Hu.
  assert (lv_mismatches (probe parseUrl n label url (fetch label url) r) = [] <->
    lv_mismatches r = [] ∧ ∀ status p, fetch label url = NetResponse true status (Ok (Some p)) -> p = np_passphrase (profileOf n)) as ->.
  { unfold probe. destruct (fetch label url) as [e|[] status [[p|]|e]]; cbn [lv_mismatches]; try (split; [naive_solver|naive_solver]).
    case_bool_decide as Hpp; [naive_solver|]. rewrite Hu. cbn. split; [by intros [_ ?]%app_eq_nil|]. intros [_ H]. exfalso. by eapply Hpp, H. }
  split.
  - intros [[H1 H2] H3]. split; [done|]. intros l' u' st p [[= -> ->]|Hin]%elem_of_cons; [by apply H2|by eapply H3].
  - intros [H1 H2]. split_and!; [done| |].
    + intros st p. apply (H2 label url st p), list_elem_of_here.
    + intros l' u' st p Hin. by apply (H2 l' u' st p), list_elem_of_further.
Qed.

(** * Examples *)

(** A parser for [https://host] texts. *)
Definition demoParse (s : string) : option Url :=
  match after (txt "https://") (txt s) with Some r => Some (mkUrl (str r) (str r) "/" "https:") | None => None end.

Lemma network_examples :
  is_ok (assertNetworkConsistency demoParse [("STELLAR_NETWORK", "testnet"); ("SOROBAN_RPC_URL_TESTNET", "https://soroban-testnet.stellar.org")]) = true ∧
  assertNetworkConsistency demoParse [("STELLAR_NETWORK", "public"); ("SOROBAN_RPC_URL", "https://soroban-testnet.stellar.org"); ("STELLAR_HORIZON_URL_FUTURENET", "x")]
    = Err ["STELLAR_HORIZON_URL_FUTURENET is set for futurenet but STELLAR_NETWORK=mainnet; remove it so only one network is configured";
           "SOROBAN_RPC_URL (soroban-testnet.stellar.org) points to testnet but STELLAR_NETWORK=mainnet"]%string ∧
  is_ok (assertNetworkConsistency demoParse [("POOL_CONTRACT_ID", "CAAA")]) = false.
Proof. vm_compute. done. Qed.

Lemma live_mismatch_iff_other_passphrase_witness :
  lv_mismatches (verifyNetworkLive demoParse Testnet (fun _ _ => NetResponse true 200 (Ok (Some "Test SDF Network ; September 2015"%string)))
                   [("Soroban RPC", "https://rpc.example")]%string) = [].
Proof.
  apply (live_mismatch_iff_other_passphrase demoParse Testnet _ [("Soroban RPC", "https://rpc.example")]%string).
  - repeat constructor. vm_compute. by eexists.
  - intros label url status p _ [= _ <-]. reflexivity.
Defined.

(** A name every object inherits is taken for a network, and the check ends in
    an exception instead of its list of problems. *)
Lemma inherited_name_throws parseUrl : validateNetworkConsistency parseUrl [("STELLAR_NETWORK", "constructor")]%string
  = Err "Cannot read properties of undefined (reading 'passphrase')"%string.
Proof. reflexivity. Qed.
