(* ===== verification/OracleChecks.v ===== *)
(** The readings of the coverage types (src/oracle/oracle.service.ts) and the
    validation of what the providers answer (src/oracle/feed-payload.validator.ts,
    with its rules in src/config/oracle-feed.config.ts), cached by
    src/cache/cache.service.ts.

    The answers of the providers, the random numbers of the mocked checks and
    the clock are arguments; [Answer] is the parsed body of a request or the
    message of its exception. *)

From stdpp Require Import base list strings sets.
From Stdlib Require Import ZArith Lia Ascii Floats.
From S2P Require Import Prelude Decimal JsNum Canonical Quotes DirectPublisher Egress.

#[local] Open Scope Z_scope.

(** * Values of JSON *)

Definition asRecord (v : json) : option (list (string * json)) := match v with JObj l => Some l | _ => None end.
Definition present (v : json) : bool := match v with JUndef | JNull => false | _ => true end.

(** [v.key]; nothing has properties of these names but objects. *)
Definition prop (v : json) (key : string) : res string json :=
  match v with
  | JUndef => Err ("Cannot read properties of undefined (reading '" +:+ key +:+ "')")
  | JNull => Err ("Cannot read properties of null (reading '" +:+ key +:+ "')")
  | JObj l => Ok (default JUndef (jm_get l key))
  | _ => Ok JUndef
  end.
(** [v?.key] *)
Definition optProp (v : json) (key : string) : json := match prop v key with Ok x => x | Err _ => JUndef end.
Definition orElse (v d : json) : json := if present v then v else d.

(** Arithmetic on a value that is a number, missing or null. *)
Definition numOf (v : json) : num := match v with JNum n => n | JNull => 0%float | _ => nan end.

Section Host.
Context `{JsHost}.
(** A value in a template. *)
Fixpoint templateText (v : json) : string :=
  match v with
  | JUndef => "undefined" | JNull => "null" | JBool b => if b then "true" else "false" | JNum n => numToString n | JBig z => showZ z | JStr s => s
  | JArr l => joinWith "," (map (fun x => if present x then templateText x else EmptyString) l)
  | JObj _ => "[object Object]"
  end.
Definition truthyJson (v : json) : bool :=
  match v with
  | JUndef | JNull => false | JBool b => b | JNum n => negb (neq n 0%float) && negb (PrimFloat.is_nan n) | JBig z => negb (z =? 0)
  | JStr s => negb (bool_decide (s = EmptyString)) | _ => true
  end.
(** [x.toFixed(k)] with its sign. *)
Definition signedFixed (k : Z) (x : num) : string := if nlt x 0%float then "-" +:+ toFixed k (PrimFloat.opp x) else toFixed k x.
(** [x.toFixed(0)] of a number that is not negative. *)
Definition toFixed0 (x : num) : string := match fixedInt 0 x with Some n => showZ n | None => numToString x end.
End Host.

(** * Validation of payloads *)

Record FeedPayloadRule := mkRule {
  fr_requiredFields : list string; fr_numericRanges : list (string * (num * num)); fr_maxStepChanges : list (string * num);
  fr_allowedCategoricalValues : list (string * list string); fr_expectedUnits : list (string * string) }.

(** The step of the first price is 0.2. *)
Definition ORACLE_FEED_RULES : list (string * FeedPayloadRule) :=
  [("coingecko-usdc", mkRule ["price"; "unit"] [("price", (0, 2)%float)] [("price", 0x1.999999999999ap-3%float)] [] [("unit", "USD")]);
   ("coingecko-stellar",
    mkRule ["price"; "change24h"; "unit"; "changeUnit"] [("price", (0, 1000000)%float); ("change24h", (-100, 1000)%float)]
      [("price", 25%float); ("change24h", 50%float)] [] [("unit", "USD"); ("changeUnit", "percent")]);
   ("defillama-aave",
    mkRule ["unit"; "tvl[].date"; "tvl[].totalLiquidityUSD"]
      [("tvl[].date", (0, 4102444800)%float); ("tvl[].totalLiquidityUSD", (0, 1000000000000000)%float)]
      [("tvl[].totalLiquidityUSD", 20000000000%float)] [] [("unit", "USD")]);
   ("nexus-liquidations",
    mkRule ["collateralRatio"; "status"; "unit"] [("collateralRatio", (0, 2)%float)] [] [("status", ["healthy"; "liquidated"])] [("unit", "ratio")]);
   ("aviationstack",
    mkRule ["flightNumber"; "delayMinutes"; "status"; "unit"] [("delayMinutes", (0, 10080)%float)] []
      [("status", ["scheduled"; "delayed"; "cancelled"])] [("unit", "minutes")])]%string.

(** A segment of a path, and whether it expands an array. *)
Definition segmentOf (s : text) : string * bool :=
  match rev s with
  | b :: a :: r => if bool_decide (a = "["%char) && bool_decide (b = "]"%char) then (String.string_of_list_ascii (rev r), true) else (String.string_of_list_ascii s, false)
  | _ => (String.string_of_list_ascii s, false)
  end.

Definition readSegment (current : list json) (seg : string * bool) : list json :=
  flat_map (fun item =>
    match asRecord item with
    | None => []
    | Some l => match jm_get l seg.1 with
                | None => []
                | Some property => if seg.2 then match property with JArr xs => xs | _ => [] end else [property]
                end
    end) current.

Definition readPathValues (value : json) (path : string) : list json :=
  List.filter present (foldl readSegment [value] (map segmentOf (splitOn "." (String.list_ascii_of_string path)))).

Definition inBounds (range : num * num) (v : json) : bool :=
  match v with JNum n => isFinite n && negb (nlt n range.1) && negb (ngt n range.2) | _ => false end.
Definition jumps (maximumStep : num) (cp : json * json) : bool :=
  match cp with (JNum current, JNum prior) => ngt (PrimFloat.abs (current - prior)) maximumStep | _ => false end.

Section Validation.
Context `{JsHost}.

Definition requiredFailures (rule : FeedPayloadRule) (record : json) : list string :=
  omap (fun path => match readPathValues record path with [] => Some ("required field " +:+ path +:+ " is missing")%string | _ => None end) (fr_requiredFields rule).
Definition rangeFailures (rule : FeedPayloadRule) (record : json) : list string :=
  omap (fun '(path, range) =>
    if forallb (inBounds range) (readPathValues record path) then None
    else Some (path +:+ " must contain finite numbers in [" +:+ numToString range.1 +:+ ", " +:+ numToString range.2 +:+ "]")%string) (fr_numericRanges rule).
Definition stepFailures (rule : FeedPayloadRule) (record previous : json) : list string :=
  omap (fun '(path, maximumStep) =>
    if existsb (jumps maximumStep) (zip (readPathValues record path) (readPathValues previous path))
    then Some (path +:+ " changed by more than " +:+ numToString maximumStep)%string else None) (fr_maxStepChanges rule).
Definition categoryFailures (rule : FeedPayloadRule) (record : json) : list string :=
  omap (fun '(path, allowed) =>
    if forallb (fun v => match v with JStr s => bool_decide (s ∈ allowed) | _ => false end) (readPathValues record path) then None
    else Some (path +:+ " must be one of " +:+ joinWith ", " allowed)%string) (fr_allowedCategoricalValues rule).
Definition unitFailures (rule : FeedPayloadRule) (record : json) : list string :=
  omap (fun '(path, expected) =>
    let values := readPathValues record path in
    if negb (bool_decide (length values = 0%nat)) && forallb (fun v => match v with JStr s => bool_decide (s = expected) | _ => false end) values then None
    else Some (path +:+ " must equal the configured unit " +:+ expected)%string) (fr_expectedUnits rule).

(** [previousPayloads] *)
Definition Validator := list (string * json).

Definition validateAndRemember (feedId : string) (payload : json) (v : Validator) : res string Validator :=
  match jm_get ORACLE_FEED_RULES feedId with
  | None => Err ("No validation rules configured for feed " +:+ feedId)
  | Some rule =>
      match asRecord payload with
      | None => Err ("Feed " +:+ feedId +:+ " payload rejected: payload must be an object")
      | Some _ =>
          let failures :=
            requiredFailures rule payload ++ rangeFailures rule payload ++
            match jm_get v feedId with Some previous => if bool_decide (is_Some (asRecord previous)) then stepFailures rule payload previous else [] | None => [] end ++
            categoryFailures rule payload ++ unitFailures rule payload in
          match failures with
          | [] => Ok (jm_set v feedId payload)
          | _ => Err ("Feed " +:+ feedId +:+ " payload rejected: " +:+ joinWith "; " failures)
          end
      end
  end.
End Validation.

(** * Readings *)

Inductive Severity := Low | Medium | High | TriggeredSeverity.
#[global] Instance Severity_eq_dec : EqDecision Severity.
Proof. solve_decision. Defined.

Record OracleReading := mkOracleReading {
  rd_readingId : string; rd_coverageType : string; rd_value : num; rd_threshold : num; rd_severity : Severity; rd_message : string;
  rd_feedId : option string; rd_source : string; rd_timestamp : Z; rd_deadlineAt : option Z; rd_fetchDurationMs : option Z;
  rd_degraded : bool; rd_observedAt : option Z }.

Abbreviation Answer := (res string json).

(** The clock of a check: at its start, when the answer was there, at its end;
    and the identifier it draws. *)
Record Moment := mkMoment { mm_startedAt : Z; mm_observedAt : Z; mm_now : Z; mm_id : string }.

(** A check on the validator's memory, which a later exception does not undo. *)
Definition C (A : Type) : Type := Validator -> Validator * res string A.
#[global] Instance C_ret : MRet C := fun A a v => (v, Ok a).
#[global] Instance C_bind : MBind C := fun A B f m v => match m v with (v', Ok a) => f a v' | (v', Err e) => (v', Err e) end.
Definition lift {A} (r : res string A) : C A := fun v => (v, r).

Definition feedIdForCoverage (coverageType : string) : option string := jm_get COVERAGE_REQUIRED_FEEDS coverageType ≫= head.

Section Service.
Context `{JsHost} (budgets : list (string * num)) (environment : option (res string (list (string * num)))) (slug : string).

Definition validate (feedId : string) (payload : json) : C unit := fun v =>
  match validateAndRemember feedId payload v with Ok v' => (v', Ok tt) | Err e => (v, Err e) end.

Definition withFeedTiming (r : OracleReading) (feedId : string) (startedAt observedAt : Z) : res string OracleReading :=
  budget ← feedLatencyBudgetMs feedId budgets environment;
  Ok (mkOracleReading (rd_readingId r) (rd_coverageType r) (rd_value r) (rd_threshold r) (rd_severity r) (rd_message r) (Some feedId) (rd_source r)
        (rd_timestamp r) (Some (observedAt + budget)) (Some (observedAt - startedAt)) (rd_degraded r) (Some observedAt)).

Definition reading (m : Moment) (coverageType : string) (value threshold : num) (severity : Severity) (message source : string) (degraded : bool) : OracleReading :=
  mkOracleReading (mm_id m) coverageType value threshold severity message None source (mm_now m / 1000) None None degraded None.

Definition degraded (m : Moment) (coverageType : string) (threshold : num) (source : string) : OracleReading :=
  mkOracleReading (mm_id m) coverageType threshold threshold Low (source +:+ " unavailable — degraded to a non-triggering reading")
    (feedIdForCoverage coverageType) (String.string_of_list_ascii (map lowerChar (String.list_ascii_of_string source))) (mm_now m / 1000) None None true None.

(** [try { body } catch { return this.degraded(...) }] *)
Definition orDegraded (m : Moment) (coverageType : string) (threshold : num) (source : string) (body : C OracleReading) (v : Validator) : Validator * OracleReading :=
  match body v with (v', Ok r) => (v', r) | (v', Err _) => (v', degraded m coverageType threshold source) end.

(** Below the first limit: triggered; then high and medium. *)
Definition severityBelow (value threshold high medium : num) : Severity :=
  if nlt value threshold then TriggeredSeverity else if nlt value high then High else if nlt value medium then Medium else Low.

(** 0.95, 0.98 and 0.99 *)
Definition DEPEG_THRESHOLD : num := 0x1.e666666666666p-1%float.
Definition DEPEG_HIGH : num := 0x1.f5c28f5c28f5cp-1%float.
Definition DEPEG_MEDIUM : num := 0x1.fae147ae147aep-1%float.

Definition checkStablecoinDepeg (answer : Answer) (m : Moment) : Validator -> Validator * OracleReading :=
  orDegraded m "StablecoinDepeg" DEPEG_THRESHOLD "CoinGecko" (
    data ← lift answer;
    coin ← lift (prop data "usd-coin");
    usdcPrice ← lift (prop coin "usd");
    _ ← validate "coingecko-usdc" (JObj [("price", usdcPrice); ("unit", JStr "USD")]%string);
    match usdcPrice with
    | JNum p =>
        let deviation := ((1 - p) * 100)%float in
        lift (withFeedTiming
          (reading m "StablecoinDepeg" p DEPEG_THRESHOLD (severityBelow p DEPEG_THRESHOLD DEPEG_HIGH DEPEG_MEDIUM)
             ("USDC price: $" +:+ signedFixed 4 p +:+ " (" +:+ (if ngt deviation 0%float then "-" else "+") +:+ toFixed 3 (PrimFloat.abs deviation) +:+
              "% from peg) [CoinGecko]") "coingecko" false) "coingecko-usdc" (mm_startedAt m) (mm_observedAt m))
    | _ => lift (Err "usdcPrice.toFixed is not a function"%string)
    end).

(** [ledger]: nothing where the request failed. *)
Definition checkMarketCrash (price : Answer) (ledgerRes : option json) (m : Moment) : Validator -> Validator * OracleReading :=
  orDegraded m "MarketCrash" (-30)%float "CoinGecko" (
    data ← lift price;
    stellar ← lift (prop data "stellar");
    change24h ← lift (prop stellar "usd_24h_change");
    usd ← lift (prop stellar "usd");
    _ ← validate "coingecko-stellar" (JObj [("price", usd); ("change24h", change24h); ("unit", JStr "USD"); ("changeUnit", JStr "percent")]%string);
    let ledger := match optProp (optProp (default JUndef ledgerRes) "_embedded") "records" with JArr (x :: _) => x | _ => JUndef end in
    let chainContext := if truthyJson ledger
      then (" [CoinGecko; Horizon testnet ledger #" +:+ templateText (optProp ledger "sequence") +:+ " @ " +:+ templateText (optProp ledger "closed_at") +:+ "]")%string
      else " [CoinGecko]"%string in
    match change24h with
    | JNum c =>
        lift (withFeedTiming
          (reading m "MarketCrash" c (-30)%float (severityBelow c (-30)%float (-20)%float (-10)%float)
             ("XLM 24h change: " +:+ signedFixed 2 c +:+ "% (trigger at -30%)" +:+ chainContext) "coingecko" false)
          "coingecko-stellar" (mm_startedAt m) (mm_observedAt m))
    | _ => lift (Err "change24h.toFixed is not a function"%string)
    end).

(** The last point of the leading run at or before the cut-off. *)
Fixpoint referencePoint (cutoff : num) (points : list json) (reference : json) : res string json :=
  match points with
  | [] => Ok reference
  | p :: points => date ← prop p "date"; if nle (numOf date) cutoff then referencePoint cutoff points p else Ok reference
  end.

Definition tvlChange (points : list json) : res string num :=
  match points, list.last points with
  | first :: _ :: _, Some latest =>
      date ← prop latest "date";
      reference ← referencePoint (numOf date - 86400)%float points first;
      now ← prop latest "totalLiquidityUSD";
      before ← prop reference "totalLiquidityUSD";
      Ok ((numOf now - numOf before) / numOf before * 100)%float
  | _, _ => Err "DeFiLlama returned insufficient TVL history"%string
  end.

Definition checkSmartContractRisk (answer : Answer) (m : Moment) : Validator -> Validator * OracleReading :=
  orDegraded m "SmartContractRisk" (-50)%float "DeFiLlama" (
    data ← lift answer;
    tvl ← lift (prop data "tvl");
    _ ← validate "defillama-aave" (JObj [("tvl", tvl); ("unit", JStr "USD")]%string);
    pctChange ← lift (tvlChange (match tvl with JArr points => points | _ => [] end));
    lift (withFeedTiming
      (reading m "SmartContractRisk" pctChange (-50)%float (severityBelow pctChange (-50)%float (-25)%float (-10)%float)
         (templateText (orElse (optProp data "name") (JStr slug)) +:+ " TVL 24h change: " +:+ signedFixed 2 pctChange +:+ "% (trigger at -50%) [DeFiLlama]")
         "defillama" false) "defillama-aave" (mm_startedAt m) (mm_observedAt m))).

(** 0.92, 0.3 and 0.85 *)
Definition collateralRatioOf (random : num) : num := (0x1.d70a3d70a3d71p-1 + (random - 0.5) * 0x1.3333333333333p-2)%float.
Definition SHIELD_THRESHOLD : num := 0x1.b333333333333p-1%float.

(** The mocked checks; their exceptions reach the caller. *)
Definition checkLiquidationShield (random : num) (m : Moment) : C OracleReading :=
  let ratio := collateralRatioOf random in
  let liquidated := nlt ratio SHIELD_THRESHOLD in
  _ ← validate "nexus-liquidations"
        (JObj [("collateralRatio", JNum ratio); ("status", JStr (if liquidated then "liquidated" else "healthy")); ("unit", JStr "ratio")]%string);
  lift (withFeedTiming
    (reading m "LiquidationShield" ratio SHIELD_THRESHOLD (if liquidated then TriggeredSeverity else Low)
       ("Collateral ratio " +:+ signedFixed 1 (ratio * 100)%float +:+ "% (shield triggers below " +:+ toFixed0 (SHIELD_THRESHOLD * 100)%float +:+
        "%) [mocked — no NEXUS Protocol integration]") "mock" true) "nexus-liquidations" (mm_startedAt m) (mm_observedAt m)).

Definition checkFlightDelay (flightNumber : string) (random : num) (m : Moment) : C OracleReading :=
  let delayMinutes := mathFloor (random * 300)%float in
  let late := nge delayMinutes 120%float in
  _ ← validate "aviationstack"
        (JObj [("flightNumber", JStr flightNumber); ("delayMinutes", JNum delayMinutes); ("status", JStr (if late then "delayed" else "scheduled")); ("unit", JStr "minutes")]%string);
  lift (withFeedTiming
    (reading m "FlightDelay" delayMinutes 120%float (if late then TriggeredSeverity else Low)
       ("Flight " +:+ flightNumber +:+ ": " +:+ numToString delayMinutes +:+ "m delay (trigger at 120m) [mocked — AviationStack requires a paid key]")
       "mock" true) "aviationstack" (mm_startedAt m) (mm_observedAt m)).

(** * All checks *)

Record Upstream := mkUpstream { up_usdc : Answer; up_stellar : Answer; up_ledger : option json; up_tvl : Answer; up_moments : Moment * Moment * Moment }.

(** The three feeds are different keys of the validator, so the order in which
    the answers come in does not matter to it. *)
Definition runAllChecks (u : Upstream) (v : Validator) : Validator * list OracleReading :=
  let '(m1, m2, m3) := up_moments u in
  let '(v, r1) := checkStablecoinDepeg (up_usdc u) m1 v in
  let '(v, r2) := checkMarketCrash (up_stellar u) (up_ledger u) m2 v in
  let '(v, r3) := checkSmartContractRisk (up_tvl u) m3 v in
  (v, [r1; r2; r3]).

Definition observe (now : Z) (t : Trust) (r : OracleReading) : res string Trust :=
  match (match rd_feedId r with Some f => Some f | None => feedIdForCoverage (rd_coverageType r) end) with
  | None => Ok t
  | Some feedId => recordObservation t feedId (negb (rd_degraded r)) (if rd_degraded r then Some (rd_message r) else None) (default now (rd_observedAt r))
  end.
Fixpoint observeAll (now : Z) (t : Trust) (rs : list OracleReading) : res string Trust :=
  match rs with [] => Ok t | r :: rs => t ← observe now t r; observeAll now t rs end.

(** The cache: readings, stored as JSON, and when they expire. *)
Definition ORACLE_TTL : Z := 55.
Definition Cache := option (Z * list OracleReading).
Definition cacheGet (failed : bool) (now : Z) (c : Cache) : option (list OracleReading) :=
  if failed then None else match c with Some (expires, rs) => if now <? expires then Some rs else None | None => None end.
Definition cacheSet (failed : bool) (now : Z) (rs : list OracleReading) (c : Cache) : Cache := if failed then c else Some (now + ORACLE_TTL * 1000, rs).

Record Faults := mkFaults { fa_get : bool; fa_set : bool }.

Definition checkAll (u : Upstream) (f : Faults) (now later : Z) (v : Validator) (c : Cache) : Validator * Cache * list OracleReading :=
  match cacheGet (fa_get f) now c with
  | Some rs => (v, c, rs)
  | None => let '(v, rs) := runAllChecks u v in (v, cacheSet (fa_set f) later rs c, rs)
  end.

Definition checkAllFresh (u : Upstream) (f : Faults) (now : Z) (v : Validator) (c : Cache) (t : Trust) : Validator * res string (Cache * Trust * list OracleReading) :=
  let '(v, rs) := runAllChecks u v in
  (v, t ← observeAll now t rs; Ok (cacheSet (fa_set f) now rs c, t, rs)).
End Service.

(** * What a failing provider leads to *)

(** A provider: the feed, the payload the validator is asked about and the number the
    reading reports, both from the answer. *)
Record Provider := mkProvider { pv_feedId : string; pv_payload : json -> res string json; pv_value : json -> res string num }.

Definition asNumber (j : json) : res string num := match j with JNum x => Ok x | _ => Err "not a number"%string end.

Definition usdcProvider : Provider := mkProvider "coingecko-usdc"
  (fun data => coin ← prop data "usd-coin"; price ← prop coin "usd"; Ok (JObj [("price", price); ("unit", JStr "USD")]%string))
  (fun data => coin ← prop data "usd-coin"; price ← prop coin "usd"; asNumber price).
Definition stellarProvider : Provider := mkProvider "coingecko-stellar"
  (fun data => stellar ← prop data "stellar"; change ← prop stellar "usd_24h_change"; usd ← prop stellar "usd";
     Ok (JObj [("price", usd); ("change24h", change); ("unit", JStr "USD"); ("changeUnit", JStr "percent")]%string))
  (fun data => stellar ← prop data "stellar"; change ← prop stellar "usd_24h_change"; asNumber change).
Definition tvlProvider : Provider := mkProvider "defillama-aave"
  (fun data => tvl ← prop data "tvl"; Ok (JObj [("tvl", tvl); ("unit", JStr "USD")]%string))
  (fun data => tvl ← prop data "tvl"; tvlChange (match tvl with JArr points => points | _ => [] end)).

(** The request succeeded, the validator, with the payloads of [v] remembered, accepted
    the payload of the answer, and the answer holds the number [x]. *)
Definition accepted `{JsHost} (pr : Provider) (v : Validator) (answer : Answer) (x : num) : Prop :=
  ∃ data payload, answer = Ok data ∧ pv_payload pr data = Ok payload ∧
    is_ok (validateAndRemember (pv_feedId pr) payload v) = true ∧ pv_value pr data = Ok x.

(** A reading against the answer it comes from: a fallback is low and at its threshold;
    triggered means below the threshold; and a reading that is not a fallback reports
    the number of an accepted answer. *)
Record judged `{JsHost} (pr : Provider) (v : Validator) (answer : Answer) (r : OracleReading) : Prop := {
  jd_feed : rd_feedId r = Some (pv_feedId pr);
  jd_fallback : rd_degraded r = true -> rd_severity r = Low ∧ rd_value r = rd_threshold r;
  jd_triggered : rd_severity r = TriggeredSeverity <-> nlt (rd_value r) (rd_threshold r) = true;
  jd_accepted : rd_degraded r = false -> accepted pr v answer (rd_value r) }.

Section Safety.
Context `{JsHost} (budgets : list (string * num)) (environment : option (res string (list (string * num)))) (slug : string).

Lemma severityBelow_triggered x t h m : severityBelow x t h m = TriggeredSeverity <-> nlt x t = true.
Proof. unfold severityBelow. destruct (nlt x t); [done|]. by destruct (nlt x h), (nlt x m). Qed.

(** The validator looks at, and changes, only the feed's own payload. *)
Lemma validate_own feedId payload v v' : jm_get v feedId = jm_get v' feedId ->
  is_ok (validateAndRemember feedId payload v) = is_ok (validateAndRemember feedId payload v').
Proof.
  intros E. unfold validateAndRemember. destruct (jm_get ORACLE_FEED_RULES feedId); [|done]. destruct (asRecord payload); [|done].
  rewrite E. by destruct (_ ++ _).
Qed.
Lemma validate_keeps feedId payload v k : k ≠ feedId -> jm_get (validate feedId payload v).1 k = jm_get v k.
Proof.
  intros Hne. unfold validate, validateAndRemember. destruct (jm_get ORACLE_FEED_RULES feedId); [|done]. destruct (asRecord payload); [|done].
  destruct (_ ++ _); [|done]. cbn. by rewrite jm_get_set_ne.
Qed.
Lemma accepted_own pr v v' answer x : jm_get v (pv_feedId pr) = jm_get v' (pv_feedId pr) -> accepted pr v answer x -> accepted pr v' answer x.
Proof.
  intros E (data & payload & H1 & H2 & H3 & H4). exists data, payload. rewrite <- (validate_own _ _ v v' E). done.
Qed.
Lemma judged_own pr v v' answer r : jm_get v (pv_feedId pr) = jm_get v' (pv_feedId pr) -> judged pr v answer r -> judged pr v' answer r.
Proof. intros E [H1 H2 H3 H4]. split; [done..|]. intros Hd. by apply (accepted_own pr v v'), H4. Qed.

(** What a body must give for its check to be judged sound. *)
Definition bodySound (pr : Provider) (threshold : num) (answer : Answer) (body : C OracleReading) : Prop :=
  ∀ v, (∀ k, k ≠ pv_feedId pr -> jm_get (body v).1 k = jm_get v k) ∧
    ∀ r, (body v).2 = Ok r -> accepted pr v answer (rd_value r) ∧ rd_feedId r = Some (pv_feedId pr) ∧ rd_degraded r = false ∧ rd_threshold r = threshold ∧
      (rd_severity r = TriggeredSeverity <-> nlt (rd_value r) threshold = true).

Lemma orDegraded_judged m coverage threshold source body v pr answer :
  nlt threshold threshold = false -> feedIdForCoverage coverage = Some (pv_feedId pr) -> bodySound pr threshold answer body ->
  judged pr v answer (orDegraded m coverage threshold source body v).2 ∧
  ∀ k, k ≠ pv_feedId pr -> jm_get (orDegraded m coverage threshold source body v).1 k = jm_get v k.
Proof.
  intros Ht Hf Hb. unfold orDegraded. destruct (Hb v) as [Hk Hr]. destruct (body v) as [v' [r|e]]; cbn in Hk, Hr |- *; (split; [|done]).
  - destruct (Hr r eq_refl) as (H1 & H2 & H3 & H4 & H5). split; [done|by rewrite H3|by rewrite H4|done].
  - split; [done|done| |done]. change (Low = TriggeredSeverity <-> nlt threshold threshold = true). by rewrite Ht.
Qed.

(** The last step of every body: the timed reading of the number found. *)
Lemma timed_sound pr threshold m coverage value high medium message source a b r :
  withFeedTiming budgets environment
    (reading m coverage value threshold (severityBelow value threshold high medium) message source false) (pv_feedId pr) a b = Ok r ->
  rd_value r = value ∧ rd_feedId r = Some (pv_feedId pr) ∧ rd_degraded r = false ∧ rd_threshold r = threshold ∧
  (rd_severity r = TriggeredSeverity <-> nlt (rd_value r) threshold = true).
Proof.
  unfold withFeedTiming. destruct (feedLatencyBudgetMs _ _ _) as [budget|]; [|done]. intros [= <-]. cbn. by rewrite severityBelow_triggered.
Qed.

(** A body that validates the provider's payload, then reports its number. *)
Lemma bodySound_checked pr threshold answer data payload (body : C OracleReading) :
  answer = Ok data -> pv_payload pr data = Ok payload ->
  (∀ v, (body v).1 = v ∧ ∀ r, (body v).2 = Ok r -> pv_value pr data = Ok (rd_value r) ∧ rd_feedId r = Some (pv_feedId pr) ∧ rd_degraded r = false ∧
     rd_threshold r = threshold ∧ (rd_severity r = TriggeredSeverity <-> nlt (rd_value r) threshold = true)) ->
  bodySound pr threshold answer (_ ← validate (pv_feedId pr) payload; body).
Proof.
  intros Ha Hp Hb v. pose proof (validate_keeps (pv_feedId pr) payload v) as Hk. unfold mbind, C_bind. unfold validate in *.
  destruct (validateAndRemember (pv_feedId pr) payload v) as [v'|e] eqn:Ev; cbn in *; [|done]. destruct (Hb v') as [Hv Hr]. rewrite Hv. split; [done|].
  intros r (H1 & H2)%Hr. split; [|done]. exists data, payload. by rewrite Ev.
Qed.

Lemma bodySound_error pr threshold answer e : bodySound pr threshold answer (lift (Err e)).
Proof. intros v. by split. Qed.

(** The ways a body fails before it validates. *)
Lemma bodySound_lift {A} pr threshold answer (x : res string A) (f : A -> C OracleReading) :
  (∀ a, x = Ok a -> bodySound pr threshold answer (f a)) -> bodySound pr threshold answer (a ← lift x; f a).
Proof. intros Hf. destruct x as [a|e]; [|apply bodySound_error]. intros v. by apply (Hf a). Qed.

Lemma stablecoin_judged answer m v :
  let c := checkStablecoinDepeg budgets environment answer m v in
  judged usdcProvider v answer c.2 ∧ ∀ k, k ≠ "coingecko-usdc"%string -> jm_get c.1 k = jm_get v k.
Proof.
  apply orDegraded_judged; [reflexivity..|]. apply bodySound_lift. intros data Ha. apply bodySound_lift. intros coin Ec. apply bodySound_lift. intros price Ep.
  eapply (bodySound_checked usdcProvider); [exact Ha|cbn; by rewrite Ec; cbn; rewrite Ep|]. intros v1. destruct price; try done. split; [done|].
  intros r Hr. destruct (timed_sound usdcProvider _ _ _ _ _ _ _ _ _ _ _ Hr) as (-> & Hrest). split; [|exact Hrest]. cbn. rewrite Ec. cbn. by rewrite Ep.
Qed.
Lemma market_judged answer ledger m v :
  let c := checkMarketCrash budgets environment answer ledger m v in
  judged stellarProvider v answer c.2 ∧ ∀ k, k ≠ "coingecko-stellar"%string -> jm_get c.1 k = jm_get v k.
Proof.
  apply orDegraded_judged; [reflexivity..|]. apply bodySound_lift. intros data Ha. apply bodySound_lift. intros stellar Es.
  apply bodySound_lift. intros change Ec. apply bodySound_lift. intros usd Eu.
  eapply (bodySound_checked stellarProvider); [exact Ha|cbn; rewrite Es; cbn; rewrite Ec; cbn; by rewrite Eu|]. intros v1. destruct change; try done. split; [done|].
  intros r Hr. destruct (timed_sound stellarProvider _ _ _ _ _ _ _ _ _ _ _ Hr) as (-> & Hrest). split; [|exact Hrest]. cbn. rewrite Es. cbn. by rewrite Ec.
Qed.
Lemma risk_judged answer m v :
  let c := checkSmartContractRisk budgets environment slug answer m v in
  judged tvlProvider v answer c.2 ∧ ∀ k, k ≠ "defillama-aave"%string -> jm_get c.1 k = jm_get v k.
Proof.
  apply orDegraded_judged; [reflexivity..|]. apply bodySound_lift. intros data Ha. apply bodySound_lift. intros tvl Et.
  eapply (bodySound_checked tvlProvider); [exact Ha|cbn; by rewrite Et|]. intros v1. unfold mbind, C_bind, lift.
  destruct (tvlChange _) as [pct|e] eqn:Ep; [|done]. split; [done|]. intros r Hr.
  destruct (timed_sound tvlProvider _ _ _ _ _ _ _ _ _ _ _ Hr) as (-> & Hrest). split; [|exact Hrest]. cbn. by rewrite Et.
Qed.

(** The trust in a feed after its observation was recorded. *)
Lemma observed_publishable now t r t' feedId now' : rd_feedId r = Some feedId -> observe now t r = Ok t' ->
  canPublish t' feedId now' = true -> rd_degraded r = false.
Proof.
  intros Hf. unfold observe. rewrite Hf. unfold recordObservation. destruct (jm_get ORACLE_FEEDS feedId) as [c|] eqn:Ec; [|done]. intros [= <-].
  unfold canPublish, feedStatus. rewrite Ec. cbn. rewrite jm_get_set_eq. cbn. by destruct (rd_degraded r).
Qed.
Lemma observed_other now t r t' feedId feedId' now' : rd_feedId r = Some feedId -> feedId ≠ feedId' -> observe now t r = Ok t' ->
  canPublish t' feedId' now' = canPublish t feedId' now'.
Proof.
  intros Hf Hne. unfold observe. rewrite Hf. unfold recordObservation. destruct (jm_get ORACLE_FEEDS feedId) as [c|]; [|done]. intros [= <-].
  unfold canPublish, feedStatus. cbn. by rewrite jm_get_set_ne.
Qed.
Lemma observe_known now t r feedId : rd_feedId r = Some feedId -> is_Some (jm_get ORACLE_FEEDS feedId) -> ∃ t', observe now t r = Ok t'.
Proof. intros Hf [c Hc]. unfold observe. rewrite Hf. unfold recordObservation. rewrite Hc. by eexists. Qed.

(** C22: Whatever the providers answer or fail with, a fresh run of the checks
    gives a reading per feed.  A reading that is not a fallback reports the number of an
    answer that came and whose payload the validator, with what it remembered when the
    run began, accepted; so where the request failed or the payload was refused the
    reading is a fallback.  A fallback is at its threshold and low; a reading is
    triggered exactly if its value is below its threshold; and a feed whose reading is a
    fallback may not publish. *)
Theorem outage_never_triggers u f now v c t :
  ∃ v' c' t' r1 r2 r3,
    checkAllFresh budgets environment slug u f now v c t = (v', Ok (c', t', [r1; r2; r3])) ∧
    judged usdcProvider v (up_usdc u) r1 ∧ judged stellarProvider v (up_stellar u) r2 ∧ judged tvlProvider v (up_tvl u) r3 ∧
    ∀ r feedId now', r ∈ [r1; r2; r3] -> rd_feedId r = Some feedId -> canPublish t' feedId now' = true -> rd_degraded r = false.
Proof.
  unfold checkAllFresh, runAllChecks. destruct (up_moments u) as [[m1 m2] m3].
  pose proof (stablecoin_judged (up_usdc u) m1 v) as [J1 K1]. destruct (checkStablecoinDepeg _ _ _ _ _) as [v1 r1]. cbn in J1, K1.
  pose proof (market_judged (up_stellar u) (up_ledger u) m2 v1) as [J2 K2]. destruct (checkMarketCrash _ _ _ _ _ _) as [v2 r2]. cbn in J2, K2.
  pose proof (risk_judged (up_tvl u) m3 v2) as [J3 K3]. destruct (checkSmartContractRisk _ _ _ _ _ _) as [v3 r3]. cbn in J3, K3.
  apply (judged_own _ _ v) in J2; [|cbn; by apply K1]. apply (judged_own _ _ v) in J3; [|cbn; rewrite K2 by done; by apply K1].
  pose proof (jd_feed _ _ _ _ J1) as F1. pose proof (jd_feed _ _ _ _ J2) as F2. pose proof (jd_feed _ _ _ _ J3) as F3. cbn in F1, F2, F3.
  cbn [observeAll].
  destruct (observe_known now t r1 _ F1) as [t1 E1]; [by eexists|]. destruct (observe_known now t1 r2 _ F2) as [t2 E2]; [by eexists|].
  destruct (observe_known now t2 r3 _ F3) as [t3 E3]; [by eexists|]. rewrite E1. cbn. rewrite E2. cbn. rewrite E3. cbn.
  eexists _, _, t3, r1, r2, r3. split; [reflexivity|]. split_and!; [done..|].
  intros r feedId now' Hr Hf. rewrite !elem_of_cons, elem_of_nil in Hr. destruct Hr as [->|[->|[->|[]]]]; rewrite Hf in *.
  - injection F1 as ->. rewrite (observed_other _ _ _ _ _ _ _ F3) by done. rewrite (observed_other _ _ _ _ _ _ _ F2) by done. by eapply observed_publishable.
  - injection F2 as ->. rewrite (observed_other _ _ _ _ _ _ _ F3) by done. by eapply observed_publishable.
  - injection F3 as ->. by eapply observed_publishable.
Qed.
End Safety.

(** * What validation lets through *)

Lemma omap_nil {A B} (f : A -> option B) l : omap f l = [] -> ∀ x, x ∈ l -> f x = None.
Proof.
  intros E x Hx. destruct (f x) as [y|] eqn:Ef; [|done]. exfalso. apply (not_elem_of_nil y). rewrite <- E. apply list_elem_of_omap. by exists x.
Qed.

Lemma validated_ranges `{JsHost} feedId payload v v' rule path range : validateAndRemember feedId payload v = Ok v' ->
  jm_get ORACLE_FEED_RULES feedId = Some rule -> (path, range) ∈ fr_numericRanges rule -> forallb (inBounds range) (readPathValues payload path) = true.
Proof.
  unfold validateAndRemember. intros Hv Hr Hin. rewrite Hr in Hv. destruct (asRecord payload); [|done].
  set (fails := requiredFailures rule payload ++ _) in Hv. destruct fails eqn:E; [|done]. subst fails. apply app_eq_nil in E as [_ E]. apply app_eq_nil in E as [E _].
  unfold rangeFailures in E. apply omap_nil with (x := (path, range)) in E; [|done]. cbn in E. by destruct (forallb _ _).
Qed.

(** A price that is not a fallback is a finite number from 0 to 2. *)
Theorem reported_price_in_range `{JsHost} budgets environment answer m v :
  let r := (checkStablecoinDepeg budgets environment answer m v).2 in
  rd_degraded r = false -> isFinite (rd_value r) = true ∧ nlt (rd_value r) 0%float = false ∧ nlt 2%float (rd_value r) = false.
Proof.
  unfold checkStablecoinDepeg, orDegraded. unfold mbind, C_bind, lift.
  destruct answer as [data|]; [|done]. destruct (prop data _) as [coin|]; [|done]. destruct (prop coin _) as [price|]; [|done].
  unfold validate. destruct (validateAndRemember _ _ v) as [v'|] eqn:Ev; [|done].
  eapply validated_ranges with (path := "price"%string) (range := (0, 2)%float) in Ev; [|reflexivity|apply list_elem_of_here].
  destruct price as [| | |p| | | |]; try done. destruct (withFeedTiming _ _ _ _ _ _) as [r|] eqn:Er; [|done]. cbn [snd]. intros _.
  unfold withFeedTiming in Er. destruct (feedLatencyBudgetMs _ _ _); [|done]. injection Er as <-. cbn [rd_value reading].
  change (inBounds (0, 2)%float (JNum p) && true = true) in Ev. rewrite andb_true_r in Ev. unfold inBounds in Ev. cbn [fst snd] in Ev.
  apply andb_true_iff in Ev as [[H1 H2]%andb_true_iff H3]. split; [done|]. split; [by destruct (nlt p 0%float)|]. unfold ngt, nlt in *. by destruct (PrimFloat.ltb 2 p).
Qed.

(** * Examples *)

Definition demoMoment : Moment := mkMoment 1000 2000 3000 "id".
Definition usdcAnswer (p : num) : Answer := Ok (JObj [("usd-coin", JObj [("usd", JNum p)])])%string.
Definition polls (prices : list num) (v : Validator) : Validator * list OracleReading :=
  foldl (fun '(v, rs) p => let '(v, r) := checkStablecoinDepeg (H := demoHost) [] None (usdcAnswer p) demoMoment v in (v, rs ++ [r])) (v, []) prices.

Lemma checks_example :
  let '(_, rs) := polls [1; 0x1.e666666666666p-1; 0x1.e147ae147ae14p-1; 5]%float [] in
  map rd_severity rs = [Low; High; TriggeredSeverity; Low] ∧ map rd_degraded rs = [false; false; false; true].
Proof. vm_compute. done. Qed.

(** A price that falls by more than the allowed step is refused, and since the
    refused price is not remembered, so is every later one: a coin that lost 30%
    between two polls is never reported, for as long as it stays there. *)
Theorem step_limit_masks_depeg n :
  let low := 0x1.6666666666666p-1%float in
  let '(v, _) := polls [1%float] [] in
  let '(v', rs) := polls (replicate n low) v in
  v' = v ∧ Forall (fun r => rd_degraded r = true ∧ rd_severity r = Low) rs.
Proof.
  cbv zeta. set (low := 0x1.6666666666666p-1%float). destruct (polls [1%float] []) as [v rs0] eqn:Ev. vm_compute in Ev. injection Ev as <- _. unfold polls.
  match goal with |- context [foldl ?f (?v, []) _] => set (step := f); set (v0 := v) end.
  assert ((checkStablecoinDepeg (H := demoHost) [] None (usdcAnswer low) demoMoment v0).1 = v0 ∧
    let r := (checkStablecoinDepeg (H := demoHost) [] None (usdcAnswer low) demoMoment v0).2 in rd_degraded r = true ∧ rd_severity r = Low) as [E Hr]
    by (vm_compute; done).
  assert (∀ rs, step (v0, rs) low = (v0, rs ++ [(checkStablecoinDepeg (H := demoHost) [] None (usdcAnswer low) demoMoment v0).2])) as Hstep.
  { intros rs. unfold step. destruct (checkStablecoinDepeg _ _ _ _ v0) as [v1 r]. cbn in E |- *. by rewrite E. }
  enough (∀ rs, Forall (fun r => rd_degraded r = true ∧ rd_severity r = Low) rs ->
    let '(v', rs') := foldl step (v0, rs) (replicate n low) in v' = v0 ∧ Forall (fun r => rd_degraded r = true ∧ rd_severity r = Low) rs') as Hn
    by by apply Hn.
  revert Hr Hstep. generalize (checkStablecoinDepeg (H := demoHost) [] None (usdcAnswer low) demoMoment v0).2. intros r Hr Hstep. clear E. clearbody step v0 low.
  induction n as [|n IH]; intros rs Hrs; [done|]. cbn [replicate foldl]. rewrite Hstep. apply IH. apply Forall_app. split; [done|]. by constructor.
Qed.

(** A history whose last point lacks its amount passes the validation and
    becomes a reading of NaN that does not count as a fallback. *)
Definition tvlPoint (date : num) (tvl : list (string * json)) : json := JObj (("date"%string, JNum date) :: tvl).
Lemma incomplete_point_reads_nan :
  let points := [tvlPoint 1000000 [("totalLiquidityUSD", JNum 100%float)]; tvlPoint 1090000 []]%string in
  let r := (checkSmartContractRisk (H := demoHost) [] None "aave" (Ok (JObj [("tvl", JArr points)]%string)) demoMoment []).2 in
  rd_degraded r = false ∧ PrimFloat.is_nan (rd_value r) = true ∧ rd_severity r = Low.
Proof. vm_compute. done. Qed.
